(* ===== verification/_CoqProject ===== *)
-Q . S2P
Prelude.v
CString.v
IcalError.v
IcalMemory.v
Pvl.v
QsortGen.v
IcalArray.v
CalDate.v
IcalTime.v
IcalTimeCalendar.v
IcalTimeText.v
IcalDuration.v
IcalPeriod.v
IcalTypes.v
IcalRecurType.v
IcalRecurRule.v
IcalRecurText.v
IcalRecurMask.v
IcalRecurIter.v
IcalRecurSound.v
IcalRecurSimple.v
IcalRecurExpand.v
IcalRecurYearly.v
IcalValueText.v
IcalValue.v
IcalLine.v
IcalParameter.v
IcalProperty.v
IcalComponent.v
IcalParser.v
IcalDesignData.v
IcalValueSafe.v
IcalParserSafe.v
IcalParserTotal.v
IcalParserExamples.v
IcalParameterText.v
IcalPropertyText.v
IcalComponentText.v
IcalComponentErrors.v
IcalTimezone.v
IcalTimezoneLookup.v
IcalTimezoneConvert.v
IcalComponentZones.v
IcalCalendarZones.v
IcalComponentAccess.v
IcalComponentEdit.v
IcalComponentRecur.v
IcalComponentSpans.v
IcalComponentNormalize.v
IcalComponentExamples.v
IcalSpanlist.v
IcalSpanlistCorrect.v
IcalTzUtil.v
IcalTzFileText.v
IcalTzUtilCorrect.v
IcalClassify.v
IcalClassifyCorrect.v
Sspm.v
SspmMime.v
SspmMimeSafe.v
SspmMimeText.v
IcalRestriction.v
IcalRestrictionCorrect.v
IcalMessage.v
IcalMessageCorrect.v
IcalSsLexer.v
IcalSsYacc.v
IcalGauge.v
IcalGaugeParse.v
IcalGaugeText.v
IcalPosix.v
IcalFileset.v
IcalFilesetText.v
IcalFilesetCorrect.v
IcalDirset.v
IcalSet.v
IcalMime.v
