(* ===== verification/Prelude.v ===== *)
(** * A verification development for libical

    libical reads, writes and interprets iCalendar data (RFC 5545).  This
    development models the core of its C code, src/src/libical, and the parts of
    src/src/libicalss that compute: the calendar arithmetic, the value types, the
    recurrence rules, the parser and the tree of components, the time zones and the
    zone files of the system, MIME, the restrictions of RFC 5546, span lists, the
    classification of scheduling messages and the replies to them, and the sets
    that store calendars in files with the language of queries on them.

    ** The program

    - [icalerror.c] keeps a global error number, a switch that makes errors fatal
      and a table with the state of each error.  Readers set it, suppress errors
      around speculative parses and restore it.
    - [icalmemory.c] appends text to growing buffers and keeps the last 2500
      temporary strings alive in a ring; [pvl.c] is the doubly linked list of the
      containers; [icalarray.c] is the growing array, sorted by [qsort_gen.c].
    - [caldate.c] converts between dates and Julian day numbers; [icaltime.c] has
      the date-time type [icaltimetype], its normalisation, comparison, conversion
      to [time_t], weekdays and days of the year, and its text form.
    - [icalduration.c], [icalperiod.c], [icaltypes.c] and [icalenums.c] have the
      other structured values, each with a reader and a writer.
    - [icalrecur.c] reads and writes recurrence rules, and iterates over the
      occurrences of a rule: the sub-day units step through the BY arrays, months
      and years are expanded into a bitmask of days, and contracting BY parts
      filter the result.
    - [icalvalue.c], [icalparameter.c], [icalproperty.c] and [icalcomponent.c] are
      the tree of a calendar: components hold properties and components, properties
      hold parameters and a value.  The tables of kinds and names are generated by
      scripts from CSV files.
    - [icalparser.c] reads lines, unfolds them, splits them into name, parameters
      and values and builds the tree with a stack of open components; its errors
      become X-LIC-ERROR properties.
    - [icaltimezone.c] expands a VTIMEZONE into the changes of its offset, with the
      recurrence iterator, and converts times with them; [icalcomponent.c] finds
      the zones of a calendar by name; [icaltz-util.c] reads the binary zone files of
      the system and makes a VTIMEZONE from the transitions.
    - [icalrestriction.c] checks the counts of the properties and components of a
      message against a table; [sspm.c] reads and writes MIME messages, and
      [icalmime.c] makes a tree of components from the parts of a message.
    - libicalss: [icalspanlist.c] collects the busy times of components,
      [icalclassify.c] says what an incoming message means for a calendar, and
      [icalmessage.c] makes the replies to a message.  [icalsslexer.c] and
      [icalssyacc.c] (a scanner made by flex and an LALR(1) automaton made by bison)
      read queries, [icalgauge.c] tells whether a component satisfies one.
      [icalfileset.c] keeps components in a file, which it reads through the parser
      and rewrites on commit; [icaldirset.c] keeps a file for each month, loaded as
      a cluster ([icalcluster.c]); [icalset.c] calls either through a table of
      functions, and [icalcalendar.c] opens the sets of a calendar directory.

    ** The files

    Definitions keep the names of the C functions; a loop of a function is a
    definition of its own with the name of what it does.

    - [Prelude]: C integers at their widths (a C integer is a [Z]; conversions to
      narrower or unsigned types are written out), indexing, the option bind,
      tactics, hints and generic lemmas.  [CString]: C strings and the functions of
      the C library the sources use.
    - [IcalError]: the error state and the monad [err] of computations on it; [None]
      is the end of the process by a fatal error, an access outside of an object, a
      failed assertion or a loop without fuel.
    - [IcalMemory], [Pvl], [QsortGen], [IcalArray]: buffers of cells that may be
      uninitialised and the ring; lists on a heap of cells and their simulation of
      sequences; the sort against the interface [Sortable] with the laws
      [SortableLaws]; arrays in chunks, an instance of that interface.
    - [CalDate], [IcalTime], [IcalTimeCalendar], [IcalTimeText]: Julian day numbers;
      the operations of icaltime.c; the calendar they implement (day numbers and
      instants); the text form.  The conversion between zones is the class
      [TimezoneConv] with the laws [TimezoneLaws] of its callers' expectations.
    - [IcalDuration], [IcalPeriod], [IcalTypes]: the other structured values.
    - [IcalRecurType], [IcalRecurRule], [IcalRecurText]: recurrence rules, their
      reader and writer; the invariant of the rules the reader returns; the round
      trip.  [IcalRecurMask]: the bitmask of year days and its searches.
    - [IcalRecurIter]: the iterator, as computations on a record and the error
      state (the monad [it]).  [IcalRecurSound], [IcalRecurSimple],
      [IcalRecurExpand], [IcalRecurYearly]: what it returns - the limits every
      returned time obeys, the exact sequence of the rules at a fixed interval, the
      exact days a month expands to, and the exact sequence of the rules of daylight
      saving time with the examples of the RFC.
    - [IcalValueText], [IcalValue], [IcalLine], [IcalParameter], [IcalProperty],
      [IcalComponent], [IcalParser]: escapes of text; values; lines and folding;
      the containers as trees of records; the parser.  The generated tables are the
      classes [PropertyTables] and [ParameterTables], and the conversion of
      floating-point numbers is the class [FloatOps]; [IcalDesignData] instantiates
      the tables from the CSV files.
    - [IcalValueSafe] has the logics for [err] ([runs]: returns when no error is
      fatal; [post]: partial correctness; [quiet]: leaves the error state alone).
      [IcalParserSafe], [IcalParserTotal]: the parser on every input;
      [IcalParserExamples]: at the edges of the format.
    - [IcalParameterText], [IcalPropertyText], [IcalComponentText]: what is written
      is read back, from one parameter to a whole calendar.
      [IcalComponentErrors]: removing the errors of a parse.
    - [IcalTimezone], [IcalTimezoneLookup], [IcalTimezoneConvert]: zones, the search
      for the offset in force and the conversions, with the files of the system as the class [ZoneSystem] and the
      builtin zones as the class [BuiltinZones].
      [IcalComponentZones], [IcalCalendarZones]: the zones of a calendar and merging
      of calendars.
    - [IcalTzUtil]: icaltz-util.c, with the environment, files and clock as the class
      [HostSystem].  [IcalTzFileText]: zone files are read back.
      [IcalTzUtilCorrect]: the zone that is made.
    - [IcalComponentAccess], [IcalComponentEdit]: the accessors of a component and
      what they read after a setter.  [IcalComponentRecur], [IcalComponentSpans]:
      the occurrences of a component and its span.  [IcalComponentNormalize]: the
      normal form and the order of properties and components.
      [IcalComponentExamples]: runs.
    - [IcalSpanlist], [IcalSpanlistCorrect]; [IcalClassify], [IcalClassifyCorrect]; [IcalMessage], [IcalMessageCorrect];
      [IcalRestriction], [IcalRestrictionCorrect]: the other clients of components.
    - [Sspm]: the transfer encodings.  [SspmMime], [SspmMimeSafe],
      [SspmMimeText]: the reader and the writer of MIME messages.  [IcalMime]:
      parts as components.
    - [IcalSsLexer], [IcalSsYacc]: the tables and drivers of the scanner and the
      automaton, with the buffers and the stack.  [IcalGauge]: gauges.
      [IcalGaugeParse], [IcalGaugeText]: the automaton against a parser by recursive
      descent, the scanner on every text, the text of queries, and what a gauge
      means.
    - [IcalPosix]: the system calls as the class [Posix] with the laws [PosixLaws],
      the monad [sys] of computations on a system, and a small system that keeps
      the laws.  [IcalFileset]: clusters, file sets and their iterators;
      [IcalDirset], [IcalSet]: directory sets, the table of functions of a set (a
      record over any type of set) and calendars.  [IcalFilesetText],
      [IcalFilesetCorrect]: what file sets keep and visit.

    ** What is shown

    - Data structures: list operations implement a sequence and touch nothing
      else; appends stay inside the buffer and concatenate; a temporary buffer
      lives for exactly 2500 further ones; arrays implement lists, and the sort
      ends without overflow of its stack and orders them; the mask is a set of
      days, and the searches by word skipping and bisection find the neighbouring
      members.
    - Calendar: [icaltime_adjust], in the arithmetic of [int] ([icaltime_adjust_int]),
      adds amounts to members without overflow when none is beyond 10^9, and yields the
      real date and time of the sum, like the function on unbounded integers that
      the other components use; comparison is the order of instants;
      [time_t] conversions are inverse to each other; weekday, day of the year and
      Julian day number agree with the calendar.
    - Values and rules: the values of [written_value] are read back from their text;
      readers return on the texts that the parser passes them (no NUL, fewer than 24
      commas); a value has the member of its kind; the rule reader stores no value and
      no count outside of its bounds, but for one position of BYDAY.
    - Iterator (rules without SKIP, dates from 1753 on): for rules without BY parts from SECONDLY to WEEKLY, creation
      succeeds and the times returned are exactly the multiples of the interval; a
      month is expanded to exactly the days that BYMONTHDAY, BYDAY and BYSETPOS
      select, unless BYSETPOS meets a day listed twice; the nth weekday of a month in each
      year is returned exactly; all times that are returned respect COUNT, UNTIL, the
      range and the contracting parts.
    - Parser: every text whose lines have fewer than 24 commas is read to its end
      without a fault, the stack of open components stays consistent from line to line,
      folded lines are unfolded, and a calendar that can be stored ([storable]: named
      kinds, encodable parameters, values of [written_value]) is read back from
      what is written for it.
    - Zones: the lookup by bisection finds the change in force, conversion to UTC
      and back is the identity outside of the hours that do not exist or exist
      twice, and for UTC times when the changes are apart and clocks go back only
      where the daylight flag changes; the expanded changes are sorted; the search
      by name in a calendar finds a zone whenever there is one; merging keeps
      everything of two calendars whose zones agree.  A zone file that was written is
      read back, each of its transitions but the first has a part of the zone that
      recurs on its day, and
      files that are missing or cannot be read are reported.
    - Components: getters read what setters wrote, an event never gets both an end
      and a duration, occurrences are visited exactly (without rules) and never
      outside the range, normal forms of permuted components agree where the order of
      properties is total on them, and stripping removes the errors and nothing else,
      with the cells of the list that it frees as it walks made explicit.
    - Clients: span lists of events without rules are ordered, have all busy spans and
      the gaps up to the last one; the matrix counts the busy spans that are in its
      range; a classification implies what its name says; a reply is understood by
      the classifier; the restriction check reports exactly the wrong counts.
    - MIME: decoding inverts encoding, the reader ends on every input, a part
      or message that was written is read, and a calendar that can be stored and was
      mailed is received; the actions on parts change the error state of the process,
      which the reader passes from one to the next.
    - Queries: on every text the automaton accepts, refuses and acts as the grammar
      says, and ends; a query with known names and plain or quoted words is read by an idle
      scanner; a gauge that does not expand recurrences is satisfied exactly when all
      parts it names are there and its conditions, joined from left to right, hold.
    - Sets: on every system that keeps the laws, a set whose components can be stored
      is opened again, after a commit without errors, with the same components; a loop over a set visits exactly the
      components that satisfy its gauge.
    - Examples named in the findings of the manifest show inputs on which the code
      does not do what its comments or the RFC say.

    ** Bounds and fuel

    Loops over arrays and strings are structural.  [icaltime_adjust] moves by
    months: its fuel is a twenty-eighth of the days plus two, which the proof shows
    to be enough.  The list loops take the size of the heap plus one.  Searches in
    the mask take the number of words.  The loop of the sort takes twice the number
    of elements plus two, enough for the at most 2^35 elements its stack allows.
    The line reader takes the length of the text plus two; the loops of the parser
    the length of the line plus one; both are shown to be enough for every text.
    [step_loop] of the zone lookup takes the number of changes plus one,
    [fill_free] the number of spans plus one, [read_body] and [make_subparts] of
    MIME the number of lines plus one: all are shown to be enough.  The loops of
    the recurrence iterator whose length depends on the rule (the next matching
    period, the next admitted time) and the loops over its results take their fuel
    as an argument, because some of them do not end on some rules; the theorem on
    rules at a fixed interval shows that a fuel of one suffices there, and so do the
    theorems on yearly rules and on zone files (for clocks from 1970 to 2099).
    [sslex] takes the length of its buffer, twice the input and one; [ssparse] four
    for each character and 16; both are shown to be enough for texts shorter than
    the longest token, 8192 characters.  File sets take a fuel for the lines and
    pieces of a file and for the occurrences visited; the length of the file plus
    two is shown to be enough for reading.  Allocations of more than 2^63 bytes fail
    in the reader of zone files.

    ** What is not modelled

    The RSCALE calendars of icalrecur.c (they call ICU, a third-party library; the
    configuration without it is modelled); the list of builtin zones in
    icaltimezone.c; the sets of libicalss in a Berkeley database (icalbdbset.c);
    vCalendar (libicalvcal); the helpers of the language bindings (icallangbind.c)
    and the bindings.

    The configuration is the default of the build: errors are not fatal at
    compile time (the run-time switch is modelled), empty properties are not
    allowed, zones come from the system.  [char] is signed, [unsigned long] has 64
    bits and [time_t] is 64 bits wide.  Signed overflow has no meaning in C and
    does not occur in the ranges the theorems state.  Allocation succeeds. *)
From Stdlib Require Import String Ascii ZArith Lia Bool List.
Import ListNotations.
#[local] Open Scope Z_scope.

(** ** C integers

    A C integer is a [Z].  Signed arithmetic is exact (a signed overflow has no
    meaning in C); a conversion to a narrower or an unsigned type is written
    out with the functions below. *)

Definition INT_MAX : Z := 2147483647.
Definition INT_MIN : Z := -2147483648.
Definition LONG_MAX : Z := 9223372036854775807.
Definition LONG_MIN : Z := -9223372036854775808.

(** Conversion to a [w]-bit unsigned and to a [w]-bit two's complement type. *)
Definition to_unsigned (w z : Z) : Z := z mod 2 ^ w.
Definition to_signed (w z : Z) : Z := (z + 2 ^ (w - 1)) mod 2 ^ w - 2 ^ (w - 1).

Definition to_uint32 : Z -> Z := to_unsigned 32.
Definition to_int32 : Z -> Z := to_signed 32.
Definition to_short : Z -> Z := to_signed 16.
Definition to_schar : Z -> Z := to_signed 8.

Definition is_int32 (z : Z) : Prop := INT_MIN <= z <= INT_MAX.
Definition is_uint32 (z : Z) : Prop := 0 <= z < 4294967296.

(** C truth values: a test yields 0 or 1, any nonzero integer is true. *)
Definition b2z (b : bool) : Z := if b then 1 else 0.
Definition truthy (z : Z) : bool := negb (z =? 0).

(** Indexing a C array with an integer; [d] stands for a read the source never
    makes (the theorems that matter show the index in range). *)
Definition znth {A} (i : Z) (l : list A) (d : A) : A :=
  if i <? 0 then d else nth (Z.to_nat i) l d.

(** Sequencing of computations that may fail. *)
Notation "'let*' p := e 'in' k" :=
  (match e with Some p => k | None => None end)
  (at level 10, p pattern, e at level 100, k at level 200,
   format "'[v' 'let*'  p  :=  e  'in' '/' k ']'").

(** The result of a signed operation in [int]; without a meaning when it overflows. *)
Definition int_value (z : Z) : option Z := if (INT_MIN <=? z) && (z <=? INT_MAX) then Some z else None.

(** ** Tactics and hints *)

#[global] Arguments Z.add : simpl never.
#[global] Arguments Z.sub : simpl never.
#[global] Arguments Z.mul : simpl never.
#[global] Arguments Z.opp : simpl never.
#[global] Arguments Z.div : simpl never.
#[global] Arguments Z.modulo : simpl never.
#[global] Arguments Z.quot : simpl never.
#[global] Arguments Z.rem : simpl never.
#[global] Arguments Z.pow : simpl never.
#[global] Arguments Z.of_nat : simpl never.
#[global] Arguments Z.to_nat : simpl never.
#[global] Arguments Z.ltb : simpl never.
#[global] Arguments Z.leb : simpl never.
#[global] Arguments Z.eqb : simpl never.

Create HintDb ical.

(** Case analysis on every boolean test of the goal, keeping the equation. *)
Ltac case_if :=
  match goal with
  | |- context [if ?b then _ else _] =>
      lazymatch b with
      | context [if _ then _ else _] => fail
      | _ => let E := fresh "E" in destruct b eqn:E
      end
  end.

Ltac case_if_in H :=
  match type of H with
  | context [if ?b then _ else _] =>
      lazymatch b with
      | context [if _ then _ else _] => fail
      | _ => let E := fresh "E" in destruct b eqn:E
      end
  end.

(** Turns boolean hypotheses into propositions. *)
Ltac bools :=
  repeat match goal with
  | H : (_ && _)%bool = true |- _ => apply andb_prop in H; destruct H
  | H : (_ || _)%bool = false |- _ => apply orb_false_elim in H; destruct H
  | H : negb _ = true |- _ => apply negb_true_iff in H
  | H : negb _ = false |- _ => apply negb_false_iff in H
  end.

(** [lia] with division and remainder by constants. *)
Ltac zdiv := Z.to_euclidean_division_equations; lia.

(** ** Generic lemmas on integers *)

Lemma to_signed_small w z :
  0 < w -> - 2 ^ (w - 1) <= z < 2 ^ (w - 1) -> to_signed w z = z.
Proof.
  intros Hw Hz. unfold to_signed.
  assert (2 ^ w = 2 * 2 ^ (w - 1)) as E.
  { rewrite <- Z.pow_succ_r by lia. f_equal. lia. }
  rewrite Z.mod_small; lia.
Qed.

Lemma to_int32_small z : is_int32 z -> to_int32 z = z.
Proof. intros H. apply to_signed_small; unfold is_int32, INT_MIN, INT_MAX in *; lia. Qed.

Lemma to_uint32_small z : is_uint32 z -> to_uint32 z = z.
Proof. intros H. apply Z.mod_small. unfold is_uint32 in H. simpl. lia. Qed.

Lemma to_int32_range z : is_int32 (to_int32 z).
Proof.
  unfold is_int32, to_int32, to_signed, INT_MIN, INT_MAX.
  pose proof (Z.mod_pos_bound (z + 2 ^ (32 - 1)) (2 ^ 32)). simpl in *. lia.
Qed.

Lemma to_short_small z : -32768 <= z < 32768 -> to_short z = z.
Proof. intros H. apply to_signed_small; simpl; lia. Qed.

(** The remainder and the quotient of C, turned into [mod] and [/] where the
    dividend is not negative. *)
Lemma quot_div_nonneg a b : 0 <= a -> 0 < b -> Z.quot a b = a / b.
Proof. intros. apply Z.quot_div_nonneg; lia. Qed.

Lemma rem_mod_nonneg a b : 0 <= a -> 0 < b -> Z.rem a b = a mod b.
Proof. intros. apply Z.rem_mod_nonneg; lia. Qed.

(** Being a multiple is the same for the C remainder and [mod]. *)
Lemma rem_eqb_mod a b : b <> 0 -> (Z.rem a b =? 0) = (a mod b =? 0).
Proof.
  intros Hb. apply Bool.eq_iff_eq_true. rewrite !Z.eqb_eq.
  rewrite Z.rem_divide, Z.mod_divide by lia. reflexivity.
Qed.

(** ** Generic lemmas on lists *)

Lemma znth_nth {A} i (l : list A) d : 0 <= i -> znth i l d = nth (Z.to_nat i) l d.
Proof. intros H. unfold znth. destruct (Z.ltb_spec i 0); [lia | reflexivity]. Qed.

Lemma forallb_seq_Z (P : Z -> bool) (n : nat) :
  forallb (fun k => P (Z.of_nat k)) (seq 0 n) = true ->
  forall z, 0 <= z < Z.of_nat n -> P z = true.
Proof.
  intros H z Hz. rewrite forallb_forall in H.
  specialize (H (Z.to_nat z)). rewrite Z2Nat.id in H by lia.
  apply H, in_seq. lia.
Qed.

Lemma firstn_Forall {A} (P : A -> Prop) n l : Forall P l -> Forall P (firstn n l).
Proof.
  revert l. induction n as [|n IH]; intros [|x l] H; cbn; auto.
  inversion H; subst. constructor; auto.
Qed.
