(* ===== verification/CString.v ===== *)
(** * C strings and the C library routines the sources call on them

    A C string is the list of its characters, without the terminating NUL.
    The file models what libical uses of [<string.h>], [<ctype.h>], [strtol],
    [atoi], the conversions [%d], [%u], [%0Nd] of [snprintf] and the conversions
    [%Nd] and [%c] of [sscanf], in the C locale of an LP64 system (an [int] has
    32 bits and a [long] 64). *)
From Stdlib Require Import String Ascii ZArith Lia Bool List.
From S2P Require Import Prelude.
Import ListNotations.
#[local] Open Scope Z_scope.

Definition cstring := list ascii.

(** A string literal of the source. *)
Definition lit (s : string) : cstring := list_ascii_of_string s.

Declare Scope cstring_scope.
Delimit Scope cstring_scope with cstr.
Notation "$ s" := (lit s%string) (at level 1, s at level 0, format "$ s") : cstring_scope.
#[local] Open Scope cstring_scope.

Definition code (c : ascii) : Z := Z.of_N (N_of_ascii c).
Definition chr (z : Z) : ascii := ascii_of_N (Z.to_N z).

(** ** Character classes *)

Definition isdigit (c : ascii) : bool := (48 <=? code c) && (code c <=? 57).
Definition isspace (c : ascii) : bool :=
  (code c =? 32) || ((9 <=? code c) && (code c <=? 13)).
Definition toupper (c : ascii) : ascii :=
  if (97 <=? code c) && (code c <=? 122) then chr (code c - 32) else c.
Definition digit_val (c : ascii) : Z := code c - 48.
Definition digit_char (d : Z) : ascii := chr (d + 48).

(** ** Comparison and search *)

Fixpoint streqb (a b : cstring) : bool :=
  match a, b with
  | [], [] => true
  | c :: a', d :: b' => Ascii.eqb c d && streqb a' b'
  | _, _ => false
  end.

(** [strcasecmp (a, b) == 0]. *)
Definition strcaseeqb (a b : cstring) : bool := streqb (map toupper a) (map toupper b).

(** [idx = strchr (s, c)] followed by [*idx = 0; idx++]: the text before the
    first [c] and the text after it. *)
Fixpoint split_at (c : ascii) (s : cstring) : option (cstring * cstring) :=
  match s with
  | [] => None
  | d :: s' =>
      if Ascii.eqb c d then Some ([], s')
      else match split_at c s' with
           | Some (a, b) => Some (d :: a, b)
           | None => None
           end
  end.

(** ** Reading numbers *)

Fixpoint skip_ws (s : cstring) : cstring :=
  match s with
  | c :: s' => if isspace c then skip_ws s' else s
  | [] => []
  end.

Fixpoint scan_digits (n : nat) (acc : Z) (s : cstring) : Z * cstring :=
  match n, s with
  | S n', c :: s' =>
      if isdigit c then scan_digits n' (10 * acc + digit_val c) s' else (acc, s)
  | _, _ => (acc, s)
  end.

Definition clamp_long (z : Z) : Z := Z.max LONG_MIN (Z.min LONG_MAX z).

(** The subject of [%Nd] and of [strtol] after the white space: an optional
    sign, which counts for the field width, and the digits. *)
Definition scan_number (w : nat) (s : cstring) : option (Z * cstring) :=
  let '(neg, w1, s1) :=
    match s with
    | c :: r =>
        if Ascii.eqb c "-" then (true, pred w, r)
        else if Ascii.eqb c "+" then (false, pred w, r)
        else (false, w, s)
    | [] => (false, w, s)
    end in
  match w1, s1 with
  | S _, c :: _ =>
      if isdigit c then
        let '(v, r) := scan_digits w1 0 s1 in
        Some (clamp_long (if neg then - v else v), r)
      else None
  | _, _ => None
  end.

(** [sscanf] conversion [%Nd] into an [int]. *)
Definition scan_int (w : nat) (s : cstring) : option (Z * cstring) :=
  match scan_number w (skip_ws s) with
  | Some (v, r) => Some (to_int32 v, r)
  | None => None
  end.

(** [sscanf] conversion [%c]. *)
Definition scan_char (s : cstring) : option (ascii * cstring) :=
  match s with
  | c :: r => Some (c, r)
  | [] => None
  end.

(** [strtol (s, &end, 10)]: the value and the rest of the string; without
    digits the value is 0 and the rest is the whole string. *)
Definition strtol (s : cstring) : Z * cstring :=
  let t := skip_ws s in
  match scan_number (S (length t)) t with
  | Some (v, r) => (v, r)
  | None => (0, s)
  end.

Definition atoi (s : cstring) : Z := to_int32 (fst (strtol s)).

(** ** Printing numbers *)

Fixpoint dec_aux (fuel : nat) (z : Z) (acc : cstring) : cstring :=
  match fuel with
  | O => acc
  | S f =>
      let acc' := digit_char (z mod 10) :: acc in
      if z <? 10 then acc' else dec_aux f (z / 10) acc'
  end.

(** [%u], and [%d] of a number that is not negative. *)
Definition dec (z : Z) : cstring := dec_aux (S (Z.to_nat (Z.log2 z))) z [].

(** [%d]. *)
Definition fmt_d (z : Z) : cstring :=
  if z <? 0 then "-"%char :: dec (- z) else dec z.

(** [%0Nd]. *)
Definition fmt_0d (w : nat) (z : Z) : cstring :=
  if z <? 0 then
    "-"%char :: repeat "0"%char (w - S (length (dec (- z)))) ++ dec (- z)
  else repeat "0"%char (w - length (dec z)) ++ dec z.

(** [snprintf (buf, size, ...)] keeps the first [size - 1] characters. *)
Definition snprintf (size : nat) (s : cstring) : cstring := firstn (pred size) s.

(** ** Digits *)

Definition is_digit (d : Z) : Prop := 0 <= d < 10.

Lemma code_chr z : 0 <= z < 256 -> code (chr z) = z.
Proof.
  intros H. unfold code, chr. rewrite N_ascii_embedding by lia. lia.
Qed.

Lemma digit_val_char d : is_digit d -> digit_val (digit_char d) = d.
Proof. intros H. unfold digit_val, digit_char, is_digit in *. rewrite code_chr; lia. Qed.

Lemma isdigit_char d : is_digit d -> isdigit (digit_char d) = true.
Proof. intros H. unfold isdigit, digit_char, is_digit in *. rewrite code_chr; lia. Qed.

Lemma isdigit_val c : isdigit c = true -> is_digit (digit_val c).
Proof. unfold isdigit, is_digit, digit_val. lia. Qed.

Lemma isdigit_not_space c : isdigit c = true -> isspace c = false.
Proof. unfold isdigit, isspace. lia. Qed.

Lemma isdigit_not_sign c :
  isdigit c = true -> Ascii.eqb c "-" = false /\ Ascii.eqb c "+" = false.
Proof.
  intros H. split; apply Ascii.eqb_neq; intros ->; discriminate H.
Qed.

#[export] Hint Resolve isdigit_char isdigit_not_space : ical.

(** The number a list of digits denotes, read after [acc]. *)
Fixpoint dval (acc : Z) (ds : cstring) : Z :=
  match ds with
  | [] => acc
  | c :: r => dval (10 * acc + digit_val c) r
  end.

Definition all_digits (ds : cstring) : Prop := Forall (fun c => isdigit c = true) ds.

Definition no_digit_head (s : cstring) : Prop :=
  match s with [] => True | c :: _ => isdigit c = false end.

Lemma dval_app acc a b : dval acc (a ++ b) = dval (dval acc a) b.
Proof. revert acc. induction a as [|c a IH]; intros acc; simpl; auto. Qed.

Lemma dval_acc acc ds : dval acc ds = acc * 10 ^ Z.of_nat (length ds) + dval 0 ds.
Proof.
  revert acc. induction ds as [|c r IH]; intros acc; [simpl; lia|].
  cbn [dval length]. rewrite IH, (IH (10 * 0 + _)), Nat2Z.inj_succ, Z.pow_succ_r by lia. ring.
Qed.

Lemma dval_nonneg acc ds : all_digits ds -> 0 <= acc -> 0 <= dval acc ds.
Proof.
  intros H. revert acc. induction H as [|c r Hc Hr IH]; intros acc Ha; simpl; [lia|].
  apply IH. apply isdigit_val in Hc. unfold is_digit in Hc. lia.
Qed.

(** A field of exactly [n] digits is read in full, whatever follows it. *)
Lemma scan_digits_full n acc ds rest :
  all_digits ds -> length ds = n -> scan_digits n acc (ds ++ rest) = (dval acc ds, rest).
Proof.
  intros Hd. revert n acc. induction Hd as [|c r Hc Hr IH]; intros n acc Hn; subst n; simpl.
  - reflexivity.
  - rewrite Hc. now apply IH.
Qed.

(** A longer width stops at the first character that is not a digit. *)
Lemma scan_digits_stop n acc ds rest :
  all_digits ds -> (length ds <= n)%nat -> no_digit_head rest ->
  scan_digits n acc (ds ++ rest) = (dval acc ds, rest).
Proof.
  intros Hd. revert n acc. induction Hd as [|c r Hc Hr IH]; intros n acc Hn Hs; simpl in *.
  - destruct n, rest as [|c r]; simpl in *; try reflexivity. now rewrite Hs.
  - destruct n as [|n]; [lia|]. simpl. rewrite Hc. apply IH; [lia | assumption].
Qed.

Lemma skip_ws_digit ds rest :
  all_digits ds -> ds <> [] -> skip_ws (ds ++ rest) = ds ++ rest.
Proof.
  intros [|c r Hc _] Hne; [congruence|]. simpl. now rewrite (isdigit_not_space c Hc).
Qed.

Lemma clamp_long_small z : LONG_MIN <= z <= LONG_MAX -> clamp_long z = z.
Proof. unfold clamp_long, LONG_MIN, LONG_MAX. lia. Qed.

Lemma scan_number_digits w ds rest :
  all_digits ds -> ds <> [] -> (length ds <= w)%nat ->
  length ds = w \/ no_digit_head rest -> dval 0 ds <= LONG_MAX ->
  scan_number w (ds ++ rest) = Some (dval 0 ds, rest).
Proof.
  intros Hd Hne Hw Hstop Hmax.
  assert (0 <= dval 0 ds) by (apply dval_nonneg; [assumption | lia]).
  destruct ds as [|c r]; [congruence|]. inversion Hd as [|? ? Hc Hr]; subst.
  destruct (isdigit_not_sign c Hc) as [Hm Hp].
  unfold scan_number. cbn [app]. rewrite Hm, Hp. destruct w as [|w]; [simpl in Hw; lia|].
  rewrite Hc, app_comm_cons.
  assert (scan_digits (S w) 0 ((c :: r) ++ rest) = (dval 0 (c :: r), rest)) as ->.
  { destruct Hstop; [now apply scan_digits_full | now apply scan_digits_stop]. }
  rewrite clamp_long_small by (unfold LONG_MIN; lia). reflexivity.
Qed.

Lemma scan_number_minus w ds rest :
  all_digits ds -> ds <> [] -> (length ds <= w)%nat ->
  length ds = w \/ no_digit_head rest -> dval 0 ds <= LONG_MAX ->
  scan_number (S w) ("-"%char :: ds ++ rest) = Some (- dval 0 ds, rest).
Proof.
  intros Hd Hne Hw Hstop Hmax.
  assert (0 <= dval 0 ds) by (apply dval_nonneg; [assumption | lia]).
  destruct ds as [|c r]; [congruence|]. inversion Hd as [|? ? Hc Hr]; subst.
  unfold scan_number. change (Ascii.eqb "-" "-") with true. cbn [app pred].
  destruct w as [|w]; [simpl in Hw; lia|].
  rewrite Hc, app_comm_cons.
  assert (scan_digits (S w) 0 ((c :: r) ++ rest) = (dval 0 (c :: r), rest)) as ->.
  { destruct Hstop; [now apply scan_digits_full | now apply scan_digits_stop]. }
  rewrite clamp_long_small by (unfold LONG_MIN, LONG_MAX in *; lia). reflexivity.
Qed.

(** ** The decimal representation *)

Lemma dec_aux_digits fuel z acc : 0 <= z -> all_digits acc -> all_digits (dec_aux fuel z acc).
Proof.
  revert z acc. induction fuel as [|f IH]; intros z acc Hz Ha; simpl; [assumption|].
  assert (all_digits (digit_char (z mod 10) :: acc)).
  { constructor; [|assumption]. apply isdigit_char. unfold is_digit.
    apply Z.mod_pos_bound. lia. }
  case_if; [assumption|]. apply IH; [apply Z.div_pos; lia | assumption].
Qed.

Lemma dec_aux_nonempty fuel z acc : dec_aux (S fuel) z acc <> [].
Proof.
  assert (forall f z' acc', acc' <> [] -> dec_aux f z' acc' <> []) as H.
  { induction f as [|f IH]; intros z' acc' Ha; simpl; [assumption|].
    case_if; [discriminate|]. now apply IH. }
  simpl. case_if; [discriminate|]. now apply H.
Qed.

Lemma dec_aux_val fuel z acc :
  0 <= z < 10 ^ Z.of_nat (S fuel) ->
  dval 0 (dec_aux (S fuel) z acc) = z * 10 ^ Z.of_nat (length acc) + dval 0 acc.
Proof.
  revert z acc. induction fuel as [|f IH]; intros z acc Hz.
  - change (10 ^ Z.of_nat 1) with 10 in Hz. cbn [dec_aux].
    assert ((z <? 10) = true) as -> by lia. cbn [dval].
    rewrite dval_acc, digit_val_char by (unfold is_digit; apply Z.mod_pos_bound; lia).
    rewrite Z.mod_small by lia. lia.
  - cbn [dec_aux]. pose proof (Z.mod_pos_bound z 10 ltac:(lia)) as Hm.
    destruct (Z.ltb_spec z 10) as [Hlt|Hge].
    + cbn [dval]. rewrite dval_acc, digit_val_char by exact Hm.
      rewrite Z.mod_small by lia. lia.
    + change (if z / 10 <? 10 then _ else _)
        with (dec_aux (S f) (z / 10) (digit_char (z mod 10) :: acc)).
      rewrite IH.
      * cbn [length dval]. rewrite Nat2Z.inj_succ, Z.pow_succ_r by lia.
        rewrite (dval_acc (10 * 0 + _)), digit_val_char by exact Hm.
        pose proof (Z.div_mod z 10 ltac:(lia)) as E. 
        set (p := 10 ^ Z.of_nat (length acc)) in *. nia.
      * split; [apply Z.div_pos; lia|].
        apply Z.div_lt_upper_bound; [lia|].
        rewrite (Nat2Z.inj_succ (S f)), Z.pow_succ_r in Hz by lia. lia.
Qed.

Lemma dec_fuel_enough z : 0 <= z -> z < 10 ^ Z.of_nat (S (Z.to_nat (Z.log2 z))).
Proof.
  intros Hz. pose proof (Z.log2_nonneg z).
  rewrite Nat2Z.inj_succ, Z2Nat.id by lia.
  destruct (Z.eq_dec z 0) as [->|Hnz].
  - simpl. lia.
  - pose proof (Z.log2_spec z ltac:(lia)) as [_ Hs].
    eapply Z.lt_le_trans; [exact Hs|]. apply Z.pow_le_mono_l. lia.
Qed.

Lemma dec_val z : 0 <= z -> dval 0 (dec z) = z.
Proof.
  intros Hz. unfold dec. rewrite dec_aux_val by (split; [lia | now apply dec_fuel_enough]).
  simpl. lia.
Qed.

Lemma dec_digits z : 0 <= z -> all_digits (dec z).
Proof. intros Hz. apply dec_aux_digits; [assumption | constructor]. Qed.

Lemma dec_nonempty z : dec z <> [].
Proof. apply dec_aux_nonempty. Qed.

Lemma dec_aux_length fuel z acc n :
  0 <= z < 10 ^ Z.of_nat (S n) -> (length (dec_aux fuel z acc) <= S n + length acc)%nat.
Proof.
  revert z acc n. induction fuel as [|f IH]; intros z acc n Hz; simpl; [lia|].
  destruct (Z.ltb_spec z 10) as [Hlt|Hge]; [simpl; lia|].
  destruct n as [|n]; [simpl in Hz; lia|].
  assert (0 <= z / 10 < 10 ^ Z.of_nat (S n)) as Hz'.
  { split; [apply Z.div_pos; lia|]. apply Z.div_lt_upper_bound; [lia|].
    rewrite (Nat2Z.inj_succ (S n)), Z.pow_succ_r in Hz by lia. lia. }
  specialize (IH (z / 10) (digit_char (z mod 10) :: acc) n Hz'). simpl in IH. lia.
Qed.

(** [%d] and [%u] print at most [n] digits for a number below [10^n]. *)
Lemma dec_length z n : 0 <= z < 10 ^ Z.of_nat (S n) -> (length (dec z) <= S n)%nat.
Proof. intros H. pose proof (dec_aux_length (S (Z.to_nat (Z.log2 z))) z [] n H). simpl in *. unfold dec. simpl. lia. Qed.

Lemma fmt_d_length v : is_int32 v -> (length (fmt_d v) <= 11)%nat.
Proof.
  intros H. unfold is_int32, INT_MIN, INT_MAX in H. unfold fmt_d.
  assert (forall z, 0 <= z < 10 ^ 10 -> (length (dec z) <= 10)%nat) as F
    by (intros; now apply (dec_length z 9)).
  change (10 ^ 10) with 10000000000 in F.
  destruct (Z.ltb_spec v 0); [cbn [length]; specialize (F (- v)) | specialize (F v)]; lia.
Qed.

Lemma dval_zeros n ds : dval 0 (repeat "0"%char n ++ ds) = dval 0 ds.
Proof. induction n as [|n IH]; [reflexivity|]. cbn [repeat app dval]. exact IH. Qed.

Lemma all_digits_zeros n : all_digits (repeat "0"%char n).
Proof. induction n; constructor; [reflexivity | assumption]. Qed.

Lemma fmt_0d_digits w z : 0 <= z -> all_digits (fmt_0d w z).
Proof.
  intros Hz. unfold fmt_0d. destruct (Z.ltb_spec z 0); [lia|].
  apply Forall_app. split; [apply all_digits_zeros | now apply dec_digits].
Qed.

Lemma fmt_0d_val w z : 0 <= z -> dval 0 (fmt_0d w z) = z.
Proof.
  intros Hz. unfold fmt_0d. destruct (Z.ltb_spec z 0); [lia|].
  rewrite dval_zeros. now apply dec_val.
Qed.

Lemma fmt_0d_length w z : 0 <= z < 10 ^ Z.of_nat (S w) -> length (fmt_0d (S w) z) = S w.
Proof.
  intros Hz. unfold fmt_0d. destruct (Z.ltb_spec z 0); [lia|].
  rewrite length_app, repeat_length. pose proof (dec_length z w Hz). lia.
Qed.

(** [sscanf] reads back with [%Nd] what [snprintf] wrote with [%0Nd], whatever
    follows, for a number of at most [N] digits. *)
Lemma scan_int_fmt_0d w z rest :
  0 <= z < 10 ^ Z.of_nat (S w) -> z <= INT_MAX ->
  scan_int (S w) (fmt_0d (S w) z ++ rest) = Some (z, rest).
Proof.
  intros Hz Hmax. pose proof (fmt_0d_length w z Hz) as Hl.
  pose proof (fmt_0d_digits (S w) z (proj1 Hz)) as Hd.
  pose proof (fmt_0d_val (S w) z (proj1 Hz)) as Hv.
  assert (fmt_0d (S w) z <> []) as Hne by (intros E; rewrite E in Hl; discriminate).
  unfold scan_int. rewrite skip_ws_digit by assumption.
  rewrite scan_number_digits; try assumption; try lia.
  - rewrite Hv, to_int32_small; [reflexivity|]. unfold is_int32, INT_MIN, INT_MAX in *. lia.
  - rewrite Hv. unfold INT_MAX, LONG_MAX in *. lia.
Qed.

(** [strtol] reads back a printed number and stops at the first character that
    is not a digit. *)
Lemma strtol_fmt_d z rest :
  LONG_MIN < z <= LONG_MAX -> no_digit_head rest ->
  strtol (fmt_d z ++ rest) = (z, rest).
Proof.
  intros Hz Hr. unfold strtol, fmt_d. destruct (Z.ltb_spec z 0) as [Hneg|Hpos].
  - cbn [app skip_ws]. change (isspace "-") with false. cbv iota.
    rewrite scan_number_minus; try apply dec_nonempty; try assumption; try (right; assumption).
    + rewrite dec_val by lia. f_equal; lia.
    + apply dec_digits. lia.
    + cbn [length]. rewrite length_app. lia.
    + rewrite dec_val by lia. unfold LONG_MIN, LONG_MAX in *. lia.
  - rewrite skip_ws_digit by (try apply dec_nonempty; now apply dec_digits).
    rewrite scan_number_digits; try apply dec_nonempty; try assumption; try (right; assumption).
    + rewrite dec_val by lia. reflexivity.
    + now apply dec_digits.
    + rewrite length_app. lia.
    + rewrite dec_val by lia. lia.
Qed.

Lemma atoi_fmt_d z : is_int32 z -> atoi (fmt_d z) = z.
Proof.
  intros Hz. unfold atoi. rewrite <- (app_nil_r (fmt_d z)), strtol_fmt_d.
  - now apply to_int32_small.
  - unfold is_int32, INT_MIN, INT_MAX, LONG_MIN, LONG_MAX in *. lia.
  - exact I.
Qed.

(** ** Comparison and search: lemmas *)

Lemma streqb_eq a b : streqb a b = true <-> a = b.
Proof.
  revert b. induction a as [|c a IH]; intros [|d b]; simpl; split; try congruence; intros H.
  - apply andb_prop in H as [H1 H2]. apply Ascii.eqb_eq in H1. apply IH in H2. congruence.
  - inversion H; subst. rewrite Ascii.eqb_refl. now apply IH.
Qed.

Lemma split_at_app c a b :
  Forall (fun d => d <> c) a -> split_at c (a ++ c :: b) = Some (a, b).
Proof.
  intros H. induction H as [|d a Hd Ha IH]; simpl.
  - now rewrite Ascii.eqb_refl.
  - assert (Ascii.eqb c d = false) as -> by (apply Ascii.eqb_neq; congruence).
    now rewrite IH.
Qed.

Lemma split_at_none c a : Forall (fun d => d <> c) a -> split_at c a = None.
Proof.
  intros H. induction H as [|d a Hd Ha IH]; simpl; [reflexivity|].
  assert (Ascii.eqb c d = false) as -> by (apply Ascii.eqb_neq; congruence).
  now rewrite IH.
Qed.

Lemma split_at_inv c s a b :
  split_at c s = Some (a, b) -> s = a ++ c :: b /\ Forall (fun d => d <> c) a.
Proof.
  revert a b. induction s as [|d s IH]; intros a b H; simpl in H; [discriminate|].
  destruct (Ascii.eqb c d) eqn:E.
  - apply Ascii.eqb_eq in E. inversion H; subst. split; [reflexivity | constructor].
  - destruct (split_at c s) as [[a' b']|]; [|discriminate]. inversion H; subst.
    destruct (IH a' b eq_refl) as [-> Ha]. split; [reflexivity|].
    constructor; [|assumption]. apply Ascii.eqb_neq in E. congruence.
Qed.

(** The part after the separator is shorter, which bounds the loops that walk
    through a separated list. *)
Lemma split_at_length c s a b : split_at c s = Some (a, b) -> (length b < length s)%nat.
Proof.
  intros H. apply split_at_inv in H as [-> _]. rewrite length_app. simpl. lia.
Qed.
