(* ===== verification/IcalError.v ===== *)
(** * The error state of the library (icalerror.c, icalerror.h)

    [icalerrno], the table that says which errors are fatal and the switch
    [icalerror_errors_are_fatal] are one record.  Code that may set an error is
    written in the monad [err]: it passes the record along, and [None] is a
    process stopped by the [assert (0)] of a fatal error. *)
From Stdlib Require Import String Ascii ZArith Lia Bool List.
From stdpp Require Import base decidable.
From S2P Require Import Prelude CString.
Import ListNotations.
#[local] Open Scope Z_scope.
#[local] Open Scope cstring_scope.

Inductive icalerrorenum :=
  | ICAL_NO_ERROR
  | ICAL_BADARG_ERROR
  | ICAL_NEWFAILED_ERROR
  | ICAL_ALLOCATION_ERROR
  | ICAL_MALFORMEDDATA_ERROR
  | ICAL_PARSE_ERROR
  | ICAL_INTERNAL_ERROR
  | ICAL_FILE_ERROR
  | ICAL_USAGE_ERROR
  | ICAL_UNIMPLEMENTED_ERROR
  | ICAL_UNKNOWN_ERROR.

Inductive icalerrorstate :=
  | ICAL_ERROR_FATAL
  | ICAL_ERROR_NONFATAL
  | ICAL_ERROR_DEFAULT
  | ICAL_ERROR_UNKNOWN.

#[export] Instance icalerrorenum_eq_dec : EqDecision icalerrorenum.
Proof. solve_decision. Defined.
#[export] Instance icalerrorstate_eq_dec : EqDecision icalerrorstate.
Proof. solve_decision. Defined.

Record error_state := ErrorState {
  icalerrno : icalerrorenum;
  icalerror_errors_are_fatal : bool;
  error_state_map : list (icalerrorenum * icalerrorstate)
}.

(** The initial table: every error has the default state. *)
Definition initial_error_state_map : list (icalerrorenum * icalerrorstate) :=
  map (fun e => (e, ICAL_ERROR_DEFAULT))
    [ICAL_BADARG_ERROR; ICAL_NEWFAILED_ERROR; ICAL_ALLOCATION_ERROR;
     ICAL_MALFORMEDDATA_ERROR; ICAL_PARSE_ERROR; ICAL_INTERNAL_ERROR;
     ICAL_FILE_ERROR; ICAL_USAGE_ERROR; ICAL_UNIMPLEMENTED_ERROR;
     ICAL_UNKNOWN_ERROR; ICAL_NO_ERROR].

Definition initial_error_state (fatal : bool) : error_state :=
  ErrorState ICAL_NO_ERROR fatal initial_error_state_map.

(** ** The monad *)

Definition err (A : Type) := error_state -> option (A * error_state).

Definition ret {A} (a : A) : err A := fun st => Some (a, st).
Definition bind {A B} (m : err A) (k : A -> err B) : err B := fun st =>
  match m st with
  | Some (a, st') => k a st'
  | None => None
  end.

Declare Scope err_scope.
Delimit Scope err_scope with err.
Notation "x <- m ;; k" := (bind m (fun x => k))
  (at level 60, m at next level, right associativity) : err_scope.
Notation "m ;;; k" := (bind m (fun _ => k))
  (at level 60, right associativity) : err_scope.
#[local] Open Scope err_scope.

(** ** Error states *)

(** The loops stop at the [ICAL_NO_ERROR] entry that ends the table. *)
Fixpoint get_state (m : list (icalerrorenum * icalerrorstate)) (e : icalerrorenum)
  : icalerrorstate :=
  match m with
  | [] => ICAL_ERROR_UNKNOWN
  | (k, s) :: r =>
      if decide (k = ICAL_NO_ERROR) then ICAL_ERROR_UNKNOWN
      else if decide (k = e) then s else get_state r e
  end.

Fixpoint set_state (m : list (icalerrorenum * icalerrorstate)) (e : icalerrorenum)
  (s : icalerrorstate) : list (icalerrorenum * icalerrorstate) :=
  match m with
  | [] => []
  | (k, s0) :: r =>
      if decide (k = ICAL_NO_ERROR) then m
      else (k, if decide (k = e) then s else s0) :: set_state r e s
  end.

Definition icalerror_get_error_state (e : icalerrorenum) : err icalerrorstate :=
  fun st => Some (get_state (error_state_map st) e, st).

Definition icalerror_set_error_state (e : icalerrorenum) (s : icalerrorstate) : err unit :=
  fun st => Some (tt, ErrorState (icalerrno st) (icalerror_errors_are_fatal st)
                        (set_state (error_state_map st) e s)).

Definition get_icalerrno : err icalerrorenum := fun st => Some (icalerrno st, st).

(** A plain assignment to [icalerrno]. *)
Definition put_icalerrno (e : icalerrorenum) : err unit :=
  fun st => Some (tt, ErrorState e (icalerror_errors_are_fatal st) (error_state_map st)).

Definition icalerror_clear_errno : err unit := put_icalerrno ICAL_NO_ERROR.

Definition icalerror_set_errors_are_fatal (fatal : Z) : err unit :=
  fun st => Some (tt, ErrorState (icalerrno st) (truthy fatal) (error_state_map st)).

Definition icalerror_get_errors_are_fatal : err bool :=
  fun st => Some (icalerror_errors_are_fatal st, st).

(** Sets [icalerrno]; stops the process when the error is fatal, or has the
    default state while errors are fatal. *)
Definition icalerror_set_errno (x : icalerrorenum) : err unit :=
  put_icalerrno x ;;;
  s <- icalerror_get_error_state x ;;
  fatal <- icalerror_get_errors_are_fatal ;;
  if decide (s = ICAL_ERROR_FATAL) then fun _ => None
  else if decide (s = ICAL_ERROR_DEFAULT /\ fatal = true) then fun _ => None
  else ret tt.

(** ** Names of errors *)

Definition string_map : list (cstring * icalerrorenum * cstring) :=
  [($"BADARG", ICAL_BADARG_ERROR, $"BADARG: Bad argument to function");
   ($"NEWFAILED", ICAL_NEWFAILED_ERROR,
    $"NEWFAILED: Failed to create a new object via a *_new() routine");
   ($"ALLOCATION", ICAL_ALLOCATION_ERROR, $"ALLOCATION: Failed to allocate new memory");
   ($"MALFORMEDDATA", ICAL_MALFORMEDDATA_ERROR,
    $"MALFORMEDDATA: An input string was not correctly formed or a component has missing or extra properties");
   ($"PARSE", ICAL_PARSE_ERROR, $"PARSE: Failed to parse a part of an iCal component");
   ($"INTERNAL", ICAL_INTERNAL_ERROR,
    $"INTERNAL: Random internal error. This indicates an error in the library code, not an error in use");
   ($"FILE", ICAL_FILE_ERROR,
    $"FILE: An operation on a file failed. Check errno for more detail.");
   ($"USAGE", ICAL_USAGE_ERROR,
    $"USAGE: Failed to propertyl sequence calls to a set of interfaces");
   ($"UNIMPLEMENTED", ICAL_UNIMPLEMENTED_ERROR,
    $"UNIMPLEMENTED: This feature has not been implemented");
   ($"NO", ICAL_NO_ERROR, $"NO: No error");
   ($"UNKNOWN", ICAL_UNKNOWN_ERROR,
    $"UNKNOWN: Unknown error type -- icalerror_strerror() was probably given bad input")].

(** Both searches end at the [ICAL_UNKNOWN_ERROR] entry, which is last. *)
Fixpoint error_from_string (m : list (cstring * icalerrorenum * cstring)) (str : cstring)
  : icalerrorenum :=
  match m with
  | [] => ICAL_UNKNOWN_ERROR
  | (s, e, _) :: r =>
      if decide (e = ICAL_UNKNOWN_ERROR) then e
      else if streqb s str then e else error_from_string r str
  end.

Definition icalerror_error_from_string (str : cstring) : icalerrorenum :=
  error_from_string string_map str.

Fixpoint strerror (m : list (cstring * icalerrorenum * cstring)) (x : icalerrorenum) : cstring :=
  match m with
  | [] => []
  | (_, e, name) :: r =>
      if decide (e = ICAL_UNKNOWN_ERROR) then name
      else if decide (e = x) then name else strerror r x
  end.

Definition icalerror_strerror (x : icalerrorenum) : cstring := strerror string_map x.

Definition icalerror_perror : err cstring :=
  e <- get_icalerrno ;; ret (icalerror_strerror e).

(** ** Suppressing an error for a while *)

Definition icalerror_supress (error : cstring) : err icalerrorstate :=
  let e := icalerror_error_from_string error in
  if decide (e = ICAL_NO_ERROR) then ret ICAL_ERROR_UNKNOWN
  else es <- icalerror_get_error_state e ;;
       icalerror_set_error_state e ICAL_ERROR_NONFATAL ;;;
       ret es.

Definition icalerror_restore (error : cstring) (es : icalerrorstate) : err unit :=
  let e := icalerror_error_from_string error in
  if decide (e = ICAL_NO_ERROR) then ret tt
  else icalerror_set_error_state e es.

(** ** Theorems *)

(** The keys of the table never change; the searches rely on their being
    distinct. *)
Definition map_ok (m : list (icalerrorenum * icalerrorstate)) : Prop :=
  NoDup (map fst m).

Lemma set_state_keys m e s : map fst (set_state m e s) = map fst m.
Proof.
  induction m as [|[k s0] r IH]; simpl; [reflexivity|].
  destruct (decide (k = ICAL_NO_ERROR)); simpl; congruence.
Qed.

Lemma set_state_absent m e s : ~ In e (map fst m) -> set_state m e s = m.
Proof.
  induction m as [|[k s0] r IH]; simpl; [reflexivity|]. intros H.
  destruct (decide (k = ICAL_NO_ERROR)); [reflexivity|].
  destruct (decide (k = e)); [tauto|]. rewrite IH by tauto. reflexivity.
Qed.

Lemma get_set_state m e s s0 :
  get_state m e = s0 -> s0 <> ICAL_ERROR_UNKNOWN -> get_state (set_state m e s) e = s.
Proof.
  intros <- H. induction m as [|[k t] r IH]; simpl in *; [congruence|].
  destruct (decide (k = ICAL_NO_ERROR)) eqn:E; simpl; [congruence|].
  rewrite E. destruct (decide (k = e)); [reflexivity | now apply IH].
Qed.

(** Setting a state and setting it back to what [get_state] answered restores
    the table. *)
Lemma set_state_back m e s :
  NoDup (map fst m) -> set_state (set_state m e s) e (get_state m e) = m.
Proof.
  induction m as [|[k t] r IH]; simpl; [reflexivity|]. intros H.
  inversion H as [|? ? Hk Hr]; subst.
  destruct (decide (k = ICAL_NO_ERROR)) eqn:E; simpl; [rewrite E; reflexivity|].
  rewrite E. destruct (decide (k = e)) as [->|Hne]; simpl.
  - f_equal.
    rewrite list_elem_of_In in Hk. rewrite !set_state_absent; auto.
    rewrite set_state_keys. assumption.
  - now rewrite IH.
Qed.

(** An error that does not stop the process in the state [st]. *)
Definition nonfatal (st : error_state) (e : icalerrorenum) : bool :=
  match get_state (error_state_map st) e with
  | ICAL_ERROR_FATAL => false
  | ICAL_ERROR_DEFAULT => negb (icalerror_errors_are_fatal st)
  | _ => true
  end.

Definition with_errno (st : error_state) (e : icalerrorenum) : error_state :=
  ErrorState e (icalerror_errors_are_fatal st) (error_state_map st).

Lemma set_errno_spec e st :
  icalerror_set_errno e st =
  if nonfatal st e then Some (tt, with_errno st e) else None.
Proof.
  unfold icalerror_set_errno, bind, put_icalerrno, icalerror_get_error_state,
    icalerror_get_errors_are_fatal, nonfatal, with_errno, ret. simpl.
  destruct (get_state (error_state_map st) e), (icalerror_errors_are_fatal st);
    repeat (destruct (decide _); simpl; try reflexivity; try congruence; try tauto).
Qed.

(** The first error of the table is never [ICAL_NO_ERROR]: clearing the error
    number never stops the process. *)
Lemma nonfatal_no_error st : nonfatal st ICAL_NO_ERROR = true.
Proof.
  unfold nonfatal.
  assert (forall m, get_state m ICAL_NO_ERROR = ICAL_ERROR_UNKNOWN) as ->; [|reflexivity].
  induction m as [|[k s] r IH]; simpl; [reflexivity|].
  destruct (decide (k = ICAL_NO_ERROR)); [reflexivity | assumption].
Qed.

(** The sequence of calls by which periods and triggers try a text as a time:
    malformed data is not fatal while it is read. *)
Definition masked (st : error_state) : error_state :=
  ErrorState (icalerrno st) (icalerror_errors_are_fatal st)
    (set_state (error_state_map st) ICAL_MALFORMEDDATA_ERROR ICAL_ERROR_NONFATAL).

Lemma masked_nonfatal st e : nonfatal (with_errno (masked st) e) ICAL_MALFORMEDDATA_ERROR = true.
Proof.
  unfold nonfatal, with_errno, masked. cbn [error_state_map icalerror_errors_are_fatal].
  induction (error_state_map st) as [|[k s] r IH]; [reflexivity|]. cbn [set_state].
  destruct (decide (k = ICAL_NO_ERROR)) eqn:E; cbn [get_state]; rewrite E; [reflexivity|].
  destruct (decide (k = ICAL_MALFORMEDDATA_ERROR)); [reflexivity | exact IH].
Qed.

Definition unmask (st : error_state) (s : icalerrorstate) : error_state :=
  ErrorState (icalerrno st) (icalerror_errors_are_fatal st)
    (set_state (error_state_map st) ICAL_MALFORMEDDATA_ERROR s).

Lemma unmask_masked st e :
  map_ok (error_state_map st) ->
  unmask (with_errno (masked st) e) (get_state (error_state_map st) ICAL_MALFORMEDDATA_ERROR)
  = with_errno st e.
Proof.
  intros H. unfold unmask, masked, with_errno. cbn [error_state_map icalerrno icalerror_errors_are_fatal].
  now rewrite set_state_back.
Qed.

Lemma initial_map_ok fatal : map_ok (error_state_map (initial_error_state fatal)).
Proof.
  unfold map_ok. apply NoDup_ListNoDup. cbn. repeat constructor; cbn; intuition discriminate.
Qed.

Lemma with_errno_same st : with_errno st (icalerrno st) = st.
Proof. now destruct st. Qed.

(** Suppressing an error by name and restoring it with the state that
    [icalerror_supress] returned leaves the whole error state as it was, for
    every name, known or not. *)
Theorem supress_restore (error : cstring) (st : error_state) :
  map_ok (error_state_map st) ->
  bind (icalerror_supress error) (fun es => icalerror_restore error es) st = Some (tt, st).
Proof.
  intros Hok. unfold bind, icalerror_supress, icalerror_restore.
  destruct (decide (icalerror_error_from_string error = ICAL_NO_ERROR)) as [E|E].
  - reflexivity.
  - unfold bind, icalerror_get_error_state, icalerror_set_error_state, ret. simpl.
    rewrite set_state_back by exact Hok. destruct st. reflexivity.
Qed.

Lemma supress_restore_witness :
  bind (icalerror_supress (lit "MALFORMEDDATA"))
    (fun es => icalerror_restore (lit "MALFORMEDDATA") es) (initial_error_state true) =
  Some (tt, initial_error_state true).
Proof.
  apply (supress_restore (lit "MALFORMEDDATA") (initial_error_state true)).
  apply initial_map_ok.
Defined.
