(* ===== verification/IcalMemory.v ===== *)
(** * Buffers (icalmemory.c)

    A growing buffer is its cells, the write position and the size the caller
    keeps; a cell that was allocated by [realloc] and not written has no value.
    A write outside the cells is the result [None].  The theorems justify that
    the printers of the other files are modelled by concatenation.  The second
    part is the ring of temporary buffers.  Running out of memory is left out. *)
From Stdlib Require Import String Ascii ZArith Lia.
From stdpp Require Import base option list gmap.
From S2P Require Import Prelude CString.

Notation cell := (option ascii).
Definition nul : ascii := "000"%char.

Record membuf := Membuf {
  cells : list cell;
  pos : nat;
  buf_size : nat
}.

(** [malloc] and [memset]. *)
Definition icalmemory_new_buffer (size : nat) : membuf :=
  Membuf (replicate size (Some nul)) 0 size.

(** [realloc] to a larger size. *)
Definition icalmemory_resize_buffer (b : list cell) (size : nat) : list cell :=
  take size b ++ replicate (size - length b) None.

(** Stores characters one after the other; [None] outside of the buffer. *)
Fixpoint write_chars (b : list cell) (i : nat) (s : list ascii) : option (list cell) :=
  match s with
  | [] => Some b
  | c :: r => if bool_decide (i < length b) then write_chars (<[i := Some c]> b) (S i) r else None
  end.

Definition strcpy (b : list cell) (i : nat) (s : list ascii) : option (list cell) :=
  write_chars b i (s ++ [nul]).

Definition icalmemory_append_string (b : membuf) (string : list ascii) : option membuf :=
  let string_length := length string in
  let data_length := pos b in
  let final_length := data_length + string_length in
  let '(cs, size) :=
    if bool_decide (buf_size b <= final_length) then
      let size := buf_size b * 2 + final_length in
      (icalmemory_resize_buffer (cells b) size, size)
    else (cells b, buf_size b) in
  cs ← strcpy cs (pos b) string;
  Some (Membuf cs (pos b + string_length) size).

Definition icalmemory_append_char (b : membuf) (ch : ascii) : option membuf :=
  let data_length := pos b in
  let final_length := data_length + 2 in
  let '(cs, size) :=
    if bool_decide (buf_size b < final_length) then
      let size := buf_size b * 2 + final_length + 1 in
      (icalmemory_resize_buffer (cells b) size, size)
    else (cells b, buf_size b) in
  cs ← write_chars cs (pos b) [ch; nul];
  Some (Membuf cs (pos b + 1) size).

(** The string that starts at the beginning of the buffer; [None] when the
    reader runs into an unwritten cell or out of the buffer. *)
Fixpoint read_string (b : list cell) : option (list ascii) :=
  match b with
  | Some c :: r => if Ascii.eqb c nul then Some [] else s ← read_string r; Some (c :: s)
  | _ => None
  end.

(** ** Invariant *)

(** The buffer holds the string [s], with its end at the write position. *)
Definition holds (b : membuf) (s : list ascii) : Prop :=
  length (cells b) = buf_size b /\ pos b = length s /\ Forall (fun c => c <> nul) s /\
  exists rest, cells b = (Some <$> s) ++ Some nul :: rest.

Lemma write_chars_app b i s t :
  write_chars b i (s ++ t) = (b' ← write_chars b i s; write_chars b' (i + length s) t).
Proof.
  revert b i. induction s as [|c r IH]; intros b i; simpl.
  - by rewrite Nat.add_0_r.
  - case_bool_decide; [|done]. rewrite IH. by replace (S i + length r) with (i + S (length r)) by lia.
Qed.

(** Writing inside of the buffer replaces the cells. *)
Lemma write_chars_spec l s m rest :
  length m = length s ->
  write_chars (l ++ m ++ rest) (length l) s = Some (l ++ (Some <$> s) ++ rest).
Proof.
  revert l m. induction s as [|c r IH]; intros l m Hl; destruct m as [|x m]; try done.
  simpl. rewrite bool_decide_true by (rewrite length_app; simpl; lia).
  rewrite insert_app_r_alt, Nat.sub_diag by done. simpl.
  specialize (IH (l ++ [Some c]) m). rewrite length_app, <- !app_assoc in IH. simpl in IH.
  replace (S (length l)) with (length l + 1) by lia. apply IH. simpl in Hl. lia.
Qed.

Lemma write_chars_fit b i s :
  i + length s <= length b ->
  write_chars b i s = Some (take i b ++ (Some <$> s) ++ drop (i + length s) b).
Proof.
  intros H.
  pose proof (write_chars_spec (take i b) s (take (length s) (drop i b)) (drop (length s) (drop i b)))
    as W. rewrite !take_drop, (length_take_le b i), drop_drop in W by lia.
  apply W. rewrite length_take, length_drop. lia.
Qed.

(** The step shared by both appends: the string [s] is kept, [t] and the final
    zero are written behind it, and there is room for them. *)
Lemma append_step cs s t size rest :
  length cs = size -> length s + length t < size -> Forall (fun c => c <> nul) s ->
  Forall (fun c => c <> nul) t -> cs = (Some <$> s) ++ rest ->
  exists cs', write_chars cs (length s) (t ++ [nul]) = Some cs' /\
    holds (Membuf cs' (length s + length t) size) (s ++ t).
Proof.
  intros Hl Hroom Hs Ht ->. eexists. split.
  - apply write_chars_fit. rewrite Hl, length_app. simpl. lia.
  - rewrite take_app_length' by by rewrite length_fmap.
    rewrite length_app, length_fmap in Hl.
    split; [|split; [|split]]; cbn [cells pos buf_size].
    + rewrite !length_app, !length_fmap, length_drop, !length_app, !length_fmap. simpl. lia.
    + by rewrite length_app.
    + by apply Forall_app.
    + rewrite !fmap_app, <- !app_assoc. simpl. eexists. by rewrite <- app_assoc.
Qed.

Lemma resize_prefix s rest size :
  length s <= size ->
  icalmemory_resize_buffer ((Some <$> s) ++ rest) size =
  (Some <$> s) ++ take (size - length s) rest ++ replicate (size - length ((Some <$> s) ++ rest)) None.
Proof.
  intros H. unfold icalmemory_resize_buffer. rewrite take_app, length_fmap, take_ge by (rewrite length_fmap; lia).
  by rewrite <- app_assoc.
Qed.

Lemma resize_length b size : length (icalmemory_resize_buffer b size) = size.
Proof. unfold icalmemory_resize_buffer. rewrite length_app, length_take, length_replicate. lia. Qed.

Lemma append_string_spec b s t :
  holds b s -> Forall (fun c => c <> nul) t ->
  exists b', icalmemory_append_string b t = Some b' /\ holds b' (s ++ t).
Proof.
  intros (Hl & Hp & Hs & rest & Hc) Ht. unfold icalmemory_append_string, strcpy. rewrite Hp.
  assert (length s < buf_size b) by (rewrite <- Hl, Hc, length_app, length_fmap; simpl; lia).
  case_bool_decide as Hb.
  - destruct (append_step (icalmemory_resize_buffer (cells b) (buf_size b * 2 + (length s + length t)))
      s t (buf_size b * 2 + (length s + length t))
      (take (buf_size b * 2 + (length s + length t) - length s) (Some nul :: rest)
       ++ replicate (buf_size b * 2 + (length s + length t) - length ((Some <$> s) ++ Some nul :: rest)) None))
      as (cs' & -> & H'); try done; [apply resize_length | lia | by rewrite Hc, resize_prefix by lia |].
    eexists. split; [done|]. done.
  - destruct (append_step (cells b) s t (buf_size b) (Some nul :: rest)) as (cs' & -> & H');
      try done; [lia|]. eexists. split; done.
Qed.

Lemma append_char_spec b s c :
  holds b s -> c <> nul ->
  exists b', icalmemory_append_char b c = Some b' /\ holds b' (s ++ [c]).
Proof.
  intros (Hl & Hp & Hs & rest & Hc) Ht. unfold icalmemory_append_char. rewrite Hp.
  change [c; nul] with ([c] ++ [nul]).
  assert (length s < buf_size b) by (rewrite <- Hl, Hc, length_app, length_fmap; simpl; lia).
  case_bool_decide as Hb.
  - destruct (append_step (icalmemory_resize_buffer (cells b) (buf_size b * 2 + (length s + 2) + 1))
      s [c] (buf_size b * 2 + (length s + 2) + 1)
      (take (buf_size b * 2 + (length s + 2) + 1 - length s) (Some nul :: rest)
       ++ replicate (buf_size b * 2 + (length s + 2) + 1 - length ((Some <$> s) ++ Some nul :: rest)) None))
      as (cs' & -> & H'); try done; [apply resize_length | simpl; lia | by repeat constructor
        | by rewrite Hc, resize_prefix by lia |].
    eexists. split; [done|]. done.
  - destruct (append_step (cells b) s [c] (buf_size b) (Some nul :: rest)) as (cs' & -> & H');
      try done; [simpl; lia | by repeat constructor |]. eexists. split; done.
Qed.

Lemma new_buffer_holds size : 0 < size -> holds (icalmemory_new_buffer size) [].
Proof.
  intros H. split; [apply length_replicate|]. split; [done|]. split; [constructor|].
  destruct size; [lia|]. simpl. eauto.
Qed.

Lemma read_string_holds b s : holds b s -> read_string (cells b) = Some s.
Proof.
  intros (_ & _ & Hs & rest & ->). induction Hs as [|c r Hc Hr IH]; [done|].
  rewrite fmap_cons. cbn [app read_string]. destruct (Ascii.eqb_spec c nul); [done|]. by rewrite IH.
Qed.

(** A printer: strings and single characters appended in turn. *)
Inductive piece :=
| Str (s : list ascii)
| Chr (c : ascii).

Definition append_piece (b : membuf) (x : piece) : option membuf :=
  match x with
  | Str s => icalmemory_append_string b s
  | Chr c => icalmemory_append_char b c
  end.

Fixpoint append_pieces (b : membuf) (l : list piece) : option membuf :=
  match l with
  | [] => Some b
  | x :: r => b ← append_piece b x; append_pieces b r
  end.

Definition piece_text (x : piece) : list ascii := match x with Str s => s | Chr c => [c] end.

Definition pieces_text (l : list piece) : list ascii := mjoin (piece_text <$> l).

Lemma append_piece_spec b s x :
  holds b s -> Forall (fun c => c <> nul) (piece_text x) ->
  exists b', append_piece b x = Some b' /\ holds b' (s ++ piece_text x).
Proof.
  destruct x as [t|c]; simpl; intros Hb Ht; [by apply append_string_spec|].
  apply append_char_spec; [done|]. by inversion Ht.
Qed.

Lemma append_pieces_spec b s l :
  holds b s -> Forall (fun x => Forall (fun c => c <> nul) (piece_text x)) l ->
  exists b', append_pieces b l = Some b' /\ holds b' (s ++ pieces_text l).
Proof.
  intros Hb Hl. revert b s Hb. induction Hl as [|x r Hx Hr IH]; intros b s Hb.
  - exists b. split; [done|]. by rewrite app_nil_r.
  - destruct (append_piece_spec b s x Hb Hx) as (b1 & E1 & H1).
    destruct (IH b1 _ H1) as (b2 & E2 & H2). exists b2. cbn [append_pieces]. rewrite E1. cbn.
    split; [done|]. unfold pieces_text in *. cbn. by rewrite app_assoc.
Qed.

(** A text built with [icalmemory_append_string] and [icalmemory_append_char]
    in a new buffer of any size is the concatenation of its pieces: no write
    leaves the buffer, however often it has to grow, and the string read back
    from it ends at the write position. *)
Theorem append_concatenates (size : nat) (l : list piece) :
  0 < size -> Forall (fun x => Forall (fun c => c <> nul) (piece_text x)) l ->
  exists b, append_pieces (icalmemory_new_buffer size) l = Some b /\
    read_string (cells b) = Some (pieces_text l) /\ pos b = length (pieces_text l) /\
    length (cells b) = buf_size b.
Proof.
  intros Hsz Hl.
  destruct (append_pieces_spec _ [] l (new_buffer_holds size Hsz) Hl) as (b & E & Hb).
  exists b. split; [done|]. split; [by apply read_string_holds|].
  destruct Hb as (H1 & H2 & _). done.
Qed.

Lemma append_concatenates_witness :
  exists b, append_pieces (icalmemory_new_buffer 2) [Chr "P"; Str (lit "15"); Chr "D"] = Some b /\
    read_string (cells b) = Some (lit "P15D") /\ pos b = 4 /\ length (cells b) = buf_size b.
Proof.
  apply (append_concatenates 2 [Chr "P"; Str (lit "15"); Chr "D"]).
  - lia.
  - repeat constructor; discriminate.
Defined.

(** ** The ring of temporary buffers *)

Definition BUFFER_RING_SIZE : nat := Z.to_nat 2500.

Lemma ring_size : BUFFER_RING_SIZE = Z.to_nat 2500.
Proof. reflexivity. Qed.

Lemma ring_size_large : 3 < BUFFER_RING_SIZE.
Proof. rewrite ring_size. lia. Qed.

#[local] Opaque BUFFER_RING_SIZE.

(** The slots hold the addresses of the buffers. *)
Record buffer_ring := Ring {
  ring_pos : nat;
  ring : list (option positive)
}.

Definition buffer_ring_new : buffer_ring := Ring 0 (replicate BUFFER_RING_SIZE None).

(** The ring, and the buffer that is freed. *)
Definition icalmemory_add_tmp_buffer (br : buffer_ring) (buf : positive)
  : buffer_ring * option positive :=
  let ps := S (ring_pos br) in
  let ps := if bool_decide (ps = BUFFER_RING_SIZE) then 0 else ps in
  (Ring ps (<[ps := Some buf]> (ring br)), mjoin (ring br !! ps)).

Definition icalmemory_free_ring_byval (br : buffer_ring) : list positive := omap id (ring br).

Fixpoint add_all (br : buffer_ring) (bufs : list positive) : buffer_ring * list positive :=
  match bufs with
  | [] => (br, [])
  | b :: r =>
      let '(br, freed) := icalmemory_add_tmp_buffer br b in
      let '(br, l) := add_all br r in
      (br, option_list freed ++ l)
  end.

Definition ring_ok (br : buffer_ring) : Prop :=
  length (ring br) = BUFFER_RING_SIZE /\ ring_pos br < BUFFER_RING_SIZE.

Lemma add_tmp_pos br b :
  ring_ok br ->
  ring_pos (icalmemory_add_tmp_buffer br b).1 = (ring_pos br + 1) mod BUFFER_RING_SIZE.
Proof.
  intros [_ Hp]. cbn. case_bool_decide as H.
  - rewrite Nat.add_1_r, H. by rewrite Nat.Div0.mod_same.
  - rewrite Nat.mod_small; lia.
Qed.

Lemma add_tmp_ok br b : ring_ok br -> ring_ok (icalmemory_add_tmp_buffer br b).1.
Proof.
  intros Hok. split; [cbn; rewrite length_insert; apply Hok|].
  rewrite add_tmp_pos by done. apply Nat.mod_upper_bound. destruct Hok. lia.
Qed.

Lemma add_mod_ne i k n : 0 < k -> k < n -> i < n -> (i + k) mod n <> i.
Proof.
  intros Hk Hkn Hi E. destruct (decide (i + k < n)).
  - rewrite Nat.mod_small in E; lia.
  - replace (i + k) with (i + k - n + 1 * n) in E by lia.
    rewrite Nat.Div0.mod_add, Nat.mod_small in E; lia.
Qed.
(** A slot is written only when the position reaches it: [k] steps after it was
    written, with [k] smaller than the size, the position is elsewhere. *)
Lemma add_all_keeps br bufs b i k :
  ring_ok br -> ring br !! i = Some (Some b) -> i < BUFFER_RING_SIZE ->
  ring_pos br = (i + k) mod BUFFER_RING_SIZE -> k + length bufs < BUFFER_RING_SIZE ->
  (forall j, j <> i -> ring br !! j <> Some (Some b)) -> b ∉ bufs ->
  let '(br', freed) := add_all br bufs in
  ring_ok br' /\ ring br' !! i = Some (Some b) /\ b ∉ freed /\
  ring_pos br' = (i + k + length bufs) mod BUFFER_RING_SIZE /\
  (forall j, j <> i -> ring br' !! j <> Some (Some b)).
Proof.
  revert br k. induction bufs as [|c r IH]; intros br k Hok Hi Hib Hp Hk Huniq Hnin; cbn [add_all].
  - rewrite Nat.add_0_r. split; [done|]. split; [done|]. split; [apply not_elem_of_nil|done].
  - simpl in Hk. pose proof (add_tmp_pos br c Hok) as Hp'. pose proof (add_tmp_ok br c Hok) as Hok'.
    assert (ring_pos (icalmemory_add_tmp_buffer br c).1 = (i + S k) mod BUFFER_RING_SIZE) as Hp1.
    { rewrite Hp', Hp, Nat.Div0.add_mod_idemp_l. f_equal. lia. }
    assert (ring_pos (icalmemory_add_tmp_buffer br c).1 <> i) as Hne.
    { rewrite Hp1. intros E. apply (add_mod_ne i (S k) BUFFER_RING_SIZE); [lia..|done]. }
    destruct (icalmemory_add_tmp_buffer br c) as [br1 fr] eqn:Eadd.
    unfold icalmemory_add_tmp_buffer in Eadd. injection Eadd as <- <-. cbn [fst ring_pos] in *.
    set (ps := if bool_decide _ then _ else _) in *.
    specialize (IH (Ring ps (<[ps := Some c]> (ring br))) (S k)).
    assert (b <> c) by set_solver.
    destruct (add_all _ r) as [br' l]. destruct IH as (H1 & H2 & H3 & H4 & H5); try done.
    + cbn. by rewrite list_lookup_insert_ne.
    + lia.
    + intros j Hj. cbn. destruct (decide (j = ps)) as [->|Hjp].
      * destruct (decide (ps < length (ring br))).
        -- rewrite list_lookup_insert_eq by done. congruence.
        -- rewrite list_insert_ge by lia. by apply Huniq.
      * rewrite list_lookup_insert_ne by done. by apply Huniq.
    + set_solver.
    + split; [done|]. split; [done|]. split.
      * rewrite elem_of_app. intros [Hin|Hin]; [|done].
        apply (Huniq ps Hne). destruct (ring br !! ps) as [[x|]|]; cbn in Hin; set_solver.
      * split; [|done]. rewrite H4. f_equal. simpl. lia.
Qed.

(** A temporary buffer stays allocated while fewer than 2500 others are put
    on the ring after it, and is freed by exactly the 2500th. *)
Theorem tmp_buffer_lifetime (br : buffer_ring) (b : positive) (bufs : list positive) (c : positive) :
  ring_ok br -> Some b ∉ ring br -> b ∉ bufs -> length bufs < BUFFER_RING_SIZE ->
  let '(br1, _) := icalmemory_add_tmp_buffer br b in
  let '(br2, freed) := add_all br1 bufs in
  b ∉ freed /\ Some b ∈ ring br2 /\
  ((icalmemory_add_tmp_buffer br2 c).2 = Some b <-> S (length bufs) = BUFFER_RING_SIZE).
Proof.
  intros Hok Hnin Hb Hlen. pose proof (add_tmp_ok br b Hok) as Hok1.
  destruct (icalmemory_add_tmp_buffer br b) as [br1 fr] eqn:E1. cbn in Hok1.
  unfold icalmemory_add_tmp_buffer in E1. injection E1 as <- <-.
  set (i := if bool_decide _ then _ else _) in *. destruct Hok1 as [Hl1 Hi]. cbn in Hl1, Hi.
  pose proof (add_all_keeps (Ring i (<[i := Some b]> (ring br))) bufs b i 0) as H.
  destruct (add_all _ bufs) as [br2 freed].
  assert (i < length (ring br)) by (rewrite length_insert in Hl1; lia).
  destruct H as (Hok2 & Hin & Hnf & Hpos & Huniq); try done.
  - cbn. by apply list_lookup_insert_eq.
  - cbn. by rewrite Nat.add_0_r, Nat.mod_small.
  - intros j Hj. cbn. rewrite list_lookup_insert_ne by done. intros E.
    apply Hnin. by eapply list_elem_of_lookup_2.
  - split; [done|]. split; [by eapply list_elem_of_lookup_2|].
    pose proof (add_tmp_pos br2 c Hok2) as Hp. cbn in *.
    set (ps := if bool_decide (S (ring_pos br2) = _) then _ else _) in *.
    rewrite Hpos, Nat.add_0_r, Nat.Div0.add_mod_idemp_l in Hp.
    split; intros E.
    + destruct (decide (ps = i)) as [Eps|Hne].
      * destruct (decide (S (length bufs) = BUFFER_RING_SIZE)) as [|Hne]; [done|]. exfalso.
        apply (add_mod_ne i (length bufs + 1) BUFFER_RING_SIZE); [lia..|].
        by rewrite Nat.add_assoc, <- Hp.
      * exfalso. apply (Huniq ps Hne). destruct (ring br2 !! ps) as [[x|]|]; cbn in E; congruence.
    + assert (ps = i) as ->; [|by rewrite Hin]. rewrite Hp.
      replace (i + length bufs + 1) with (i + 1 * BUFFER_RING_SIZE) by lia.
      by rewrite Nat.Div0.mod_add, Nat.mod_small.
Qed.

Lemma new_ring_ok : ring_ok buffer_ring_new.
Proof. split; [apply length_replicate | pose proof ring_size_large; cbn; lia]. Qed.

Lemma tmp_buffer_lifetime_witness :
  let '(br1, _) := icalmemory_add_tmp_buffer buffer_ring_new 1 in
  let '(br2, freed) := add_all br1 [2%positive; 3%positive] in
  1%positive ∉ freed /\ Some 1%positive ∈ ring br2 /\
  ((icalmemory_add_tmp_buffer br2 4).2 = Some 1%positive <-> 3 = BUFFER_RING_SIZE).
Proof.
  apply (tmp_buffer_lifetime buffer_ring_new 1 [2%positive; 3%positive] 4).
  - apply new_ring_ok.
  - unfold buffer_ring_new. cbn. intros H. apply elem_of_replicate in H as [H _]. discriminate H.
  - set_solver.
  - pose proof ring_size_large. cbn. lia.
Defined.
