(* ===== verification/Pvl.v ===== *)
(** * Doubly linked lists (pvl.c, pvl.h)

    The elements live in a heap shared by all lists, a finite map from addresses
    to elements; a pointer is an optional address and a null or dangling
    dereference is the result [None].  [pvl_list_t] is the handle of one list.
    The theorems show that the operations never fault on a well-formed list and
    that they implement the operations of a sequence, elements of other lists
    untouched.  The [MAGIC] counters, which nothing reads, and running out of
    memory are left out. *)
From Stdlib Require Import ZArith Lia Sorted Permutation.
From stdpp Require Import base option list gmap fin_maps.
From S2P Require Import Prelude.
#[local] Open Scope Z_scope.

Definition ptr := option positive.

Section Pvl.
Context {D : Type}.

(** [d] points to the client's data. *)
Record pvl_elem_t := Elem {
  d : D;
  next : ptr;
  prior : ptr
}.

Record pvl_list_t := PvlList {
  head : ptr;
  tail : ptr;
  count : Z;
  p : ptr
}.

Notation heap := (gmap positive pvl_elem_t).

(** ** Assignments through a pointer *)

Definition store_next (h : heap) (e : ptr) (v : ptr) : option heap :=
  a ← e; x ← h !! a; Some (<[a := Elem (d x) v (prior x)]> h).

Definition store_prior (h : heap) (e : ptr) (v : ptr) : option heap :=
  a ← e; x ← h !! a; Some (<[a := Elem (d x) (next x) v]> h).

Definition load (h : heap) (e : ptr) : option pvl_elem_t := a ← e; h !! a.

Definition set_ends (L : pvl_list_t) (hd tl : ptr) : pvl_list_t := PvlList hd tl (count L) (p L).
Definition add_count (L : pvl_list_t) (n : Z) : pvl_list_t :=
  PvlList (head L) (tail L) (count L + n) (p L).
Definition set_p (L : pvl_list_t) (e : ptr) : pvl_list_t :=
  PvlList (head L) (tail L) (count L) e.

(** ** Operations *)

Definition pvl_newlist : pvl_list_t := PvlList None None 0 None.

(** [malloc] returns an address that is not in use. *)
Definition pvl_new_element (h : heap) (data : D) (nx pr : ptr) : heap * positive :=
  let a := fresh (dom h) in (<[a := Elem data nx pr]> h, a).

Definition pvl_unshift (h : heap) (L : pvl_list_t) (data : D) : option (heap * pvl_list_t) :=
  let '(h, E) := pvl_new_element h data (head L) None in
  x ← h !! E;
  h ← (if bool_decide (next x = None) then Some h else store_prior h (next x) (Some E));
  let tl := if bool_decide (tail L = None) then Some E else tail L in
  Some (h, add_count (set_ends L (Some E) tl) 1).

Definition pvl_push (h : heap) (L : pvl_list_t) (data : D) : option (heap * pvl_list_t) :=
  let '(h, E) := pvl_new_element h data None (tail L) in
  h ← (if bool_decide (tail L = None) then Some h else store_next h (tail L) (Some E));
  let hd := if bool_decide (head L = None) then Some E else head L in
  Some (h, add_count (set_ends L hd (Some E)) 1).

Definition pvl_remove (h : heap) (L : pvl_list_t) (E : positive)
  : option (heap * pvl_list_t * D) :=
  x ← h !! E;
  '(h, L) ←
    (if bool_decide (Some E = head L) then
       if bool_decide (next x = None) then Some (h, set_ends L None None)
       else h ← store_prior h (next x) None; Some (h, set_ends L (next x) (tail L))
     else if bool_decide (Some E = tail L) then
       if bool_decide (prior x = None) then Some (h, set_ends L None None)
       else h ← store_next h (prior x) None; Some (h, set_ends L (head L) (prior x))
     else
       h ← store_next h (prior x) (next x);
       y ← h !! E;
       h ← store_prior h (next y) (prior y);
       Some (h, L));
  y ← h !! E;
  Some (delete E h, add_count L (-1), d y).

Definition pvl_shift (h : heap) (L : pvl_list_t) : option (heap * pvl_list_t * option D) :=
  match head L with
  | None => Some (h, L, None)
  | Some E => '(h, L, x) ← pvl_remove h L E; Some (h, L, Some x)
  end.

Definition pvl_pop (h : heap) (L : pvl_list_t) : option (heap * pvl_list_t * option D) :=
  match tail L with
  | None => Some (h, L, None)
  | Some E => '(h, L, x) ← pvl_remove h L E; Some (h, L, Some x)
  end.

Definition pvl_insert_after (h : heap) (L : pvl_list_t) (P : ptr) (data : D)
  : option (heap * pvl_list_t) :=
  let L := add_count L 1 in
  match P with
  | None => pvl_unshift h L data
  | Some P' =>
      if bool_decide (P = tail L) then
        let '(h, E) := pvl_new_element h data None P in
        h ← store_next h P (Some E);
        Some (h, set_ends L (head L) (Some E))
      else
        x ← h !! P';
        let '(h, E) := pvl_new_element h data (next x) P in
        h ← store_prior h (next x) (Some E);
        h ← store_next h P (Some E);
        Some (h, L)
  end.

Definition pvl_insert_before (h : heap) (L : pvl_list_t) (P : ptr) (data : D)
  : option (heap * pvl_list_t) :=
  let L := add_count L 1 in
  match P with
  | None => pvl_unshift h L data
  | Some P' =>
      if bool_decide (P = head L) then
        let '(h, E) := pvl_new_element h data P None in
        h ← store_prior h P (Some E);
        Some (h, set_ends L (Some E) (tail L))
      else
        x ← h !! P';
        let '(h, E) := pvl_new_element h data P (prior x) in
        h ← store_next h (prior x) (Some E);
        h ← store_prior h P (Some E);
        Some (h, L)
  end.

(** Pointers are followed at most as often as there are elements: a
    well-formed list has no cycle. *)
Definition heap_fuel (h : heap) : nat := S (size h).

Fixpoint find_from (fuel : nat) (h : heap) (e : ptr) (f : D -> Z) : option ptr :=
  match fuel with
  | O => None
  | S k =>
      match e with
      | None => Some None
      | Some a =>
          x ← h !! a;
          if f (d x) =? 1 then Some (Some a) else find_from k h (next x) f
      end
  end.

(** The client's function is given with its second argument. *)
Definition pvl_find (h : heap) (L : pvl_list_t) (f : D -> Z) : option (pvl_list_t * ptr) :=
  e ← find_from (heap_fuel h) h (head L) f;
  match e with
  | None => Some (L, None)
  | Some a => Some (set_p L (Some a), Some a)
  end.

(** The body is that of [pvl_find]: the search starts at the head again. *)
Definition pvl_find_next (h : heap) (L : pvl_list_t) (f : D -> Z) : option (pvl_list_t * ptr) :=
  e ← find_from (heap_fuel h) h (head L) f;
  match e with
  | None => Some (L, None)
  | Some a => Some (set_p L (Some a), Some a)
  end.

(** The comparison of [pvl_insert_ordered] takes the data first. *)
Definition pvl_insert_ordered (h : heap) (L : pvl_list_t) (f : D -> D -> Z) (data : D)
  : option (heap * pvl_list_t) :=
  let L := add_count L 1 in
  match head L with
  | None => pvl_unshift h L data
  | Some _ =>
      x ← load h (head L);
      if f data (d x) <=? 0 then pvl_unshift h L data
      else
        y ← load h (tail L);
        if 0 <=? f data (d y) then pvl_push h L data
        else
          e ← find_from (heap_fuel h) h (head L) (fun x => if 0 <=? f x data then 1 else 0);
          match e with
          | None => None
          | Some a => pvl_insert_before h L (Some a) data
          end
  end.

Fixpoint clear_from (fuel : nat) (h : heap) (L : pvl_list_t) (e : ptr)
  : option (heap * pvl_list_t) :=
  match fuel with
  | O => None
  | S k =>
      match e with
      | None => Some (h, L)
      | Some a =>
          x ← h !! a;
          '(h, L, _) ← pvl_remove h L a;
          clear_from k h L (next x)
      end
  end.

Definition pvl_clear (h : heap) (L : pvl_list_t) : option (heap * pvl_list_t) :=
  clear_from (heap_fuel h) h L (head L).

Definition pvl_count (L : pvl_list_t) : Z := count L.
Definition pvl_head (L : pvl_list_t) : ptr := head L.
Definition pvl_tail (L : pvl_list_t) : ptr := tail L.

Definition pvl_next (h : heap) (e : ptr) : option ptr :=
  match e with None => Some None | Some a => x ← h !! a; Some (next x) end.

Definition pvl_prior (h : heap) (e : ptr) : option ptr := x ← load h e; Some (prior x).

Definition pvl_data (h : heap) (e : ptr) : option (option D) :=
  match e with None => Some None | Some a => x ← h !! a; Some (Some (d x)) end.

(** The client's function transforms a state of its own. *)
Fixpoint apply_from {S} (fuel : nat) (h : heap) (e : ptr) (f : D -> S -> S) (s : S) : option S :=
  match fuel with
  | O => None
  | Datatypes.S k =>
      match e with
      | None => Some s
      | Some a => x ← h !! a; apply_from k h (next x) f (f (d x) s)
      end
  end.

Definition pvl_apply {S} (h : heap) (L : pvl_list_t) (f : D -> S -> S) (s : S) : option S :=
  apply_from (heap_fuel h) h (head L) f s.

(** ** Well-formed lists *)

(** A list of addresses and data is laid out in the heap between [pr] and [nx]. *)
Definition hd_or (l : list (positive * D)) (nx : ptr) : ptr :=
  match l with [] => nx | (a, _) :: _ => Some a end.

Fixpoint last_or (pr : ptr) (l : list (positive * D)) : ptr :=
  match l with [] => pr | (a, _) :: r => last_or (Some a) r end.

Fixpoint dlseg (h : heap) (pr : ptr) (l : list (positive * D)) (nx : ptr) : Prop :=
  match l with
  | [] => True
  | (a, x) :: r => h !! a = Some (Elem x (hd_or r nx) pr) /\ dlseg h (Some a) r nx
  end.

Definition linked (h : heap) (L : pvl_list_t) (l : list (positive * D)) : Prop :=
  NoDup l.*1 /\ dlseg h None l None /\ head L = hd_or l None /\ tail L = last_or None l.

Definition well_formed (h : heap) (L : pvl_list_t) (l : list (positive * D)) : Prop :=
  linked h L l /\ count L = Z.of_nat (length l).

(** The elements outside [l] are the same in both heaps. *)
Definition same_outside (l : list positive) (h h' : heap) : Prop :=
  forall a, a ∉ l -> h' !! a = h !! a.

(** ** Lemmas on segments *)

Lemma hd_or_app l1 l2 nx : hd_or (l1 ++ l2) nx = hd_or l1 (hd_or l2 nx).
Proof. by destruct l1 as [|[a x] r]. Qed.

Lemma last_or_app pr l1 l2 : last_or pr (l1 ++ l2) = last_or (last_or pr l1) l2.
Proof. revert pr. induction l1 as [|[a x] r IH]; intros pr; simpl; [done | apply IH]. Qed.

Lemma dlseg_app h pr l1 l2 nx :
  dlseg h pr (l1 ++ l2) nx <-> dlseg h pr l1 (hd_or l2 nx) /\ dlseg h (last_or pr l1) l2 nx.
Proof.
  revert pr. induction l1 as [|[a x] r IH]; intros pr; simpl; [tauto|].
  rewrite IH, hd_or_app. tauto.
Qed.

Lemma dlseg_agree h h' pr l nx :
  (forall a, a ∈ l.*1 -> h' !! a = h !! a) -> dlseg h pr l nx -> dlseg h' pr l nx.
Proof.
  revert pr. induction l as [|[a x] r IH]; intros pr Hag; simpl; [done|].
  intros [Ha Hr]. split.
  - rewrite Hag; [done | simpl; set_solver].
  - apply IH; [|done]. intros b Hb. apply Hag. simpl. set_solver.
Qed.

Lemma dlseg_insert h pr l nx a e :
  a ∉ l.*1 -> dlseg h pr l nx -> dlseg (<[a := e]> h) pr l nx.
Proof.
  intros Ha. apply dlseg_agree. intros b Hb. rewrite lookup_insert_ne; [done | congruence].
Qed.

Lemma dlseg_delete h pr l nx a :
  a ∉ l.*1 -> dlseg h pr l nx -> dlseg (delete a h) pr l nx.
Proof.
  intros Ha. apply dlseg_agree. intros b Hb. rewrite lookup_delete_ne; [done | congruence].
Qed.

Lemma dlseg_lookup h pr l1 a x l2 nx :
  dlseg h pr (l1 ++ (a, x) :: l2) nx ->
  h !! a = Some (Elem x (hd_or l2 nx) (last_or pr l1)).
Proof. rewrite dlseg_app. simpl. tauto. Qed.

Lemma dlseg_in_dom h pr l nx a : dlseg h pr l nx -> a ∈ l.*1 -> a ∈ dom h.
Proof.
  intros Hs Hin. apply list_elem_of_fmap in Hin as ([a' x] & -> & Hin).
  apply list_elem_of_split in Hin as (l1 & l2 & ->). apply elem_of_dom.
  eexists. simpl. by eapply dlseg_lookup.
Qed.

Lemma dlseg_length h pr l nx : NoDup l.*1 -> dlseg h pr l nx -> (length l <= size h)%nat.
Proof.
  intros Hnd Hs. rewrite <- (length_fmap fst l), <- size_dom.
  rewrite <- (size_list_to_set (C := gset positive) l.*1) by done.
  apply subseteq_size. intros a Ha%elem_of_list_to_set. by eapply dlseg_in_dom.
Qed.

(** The first element gets another [prior], the last one another [next]. *)
Lemma dlseg_set_prior h pr l nx q :
  NoDup l.*1 -> dlseg h pr l nx -> l <> [] ->
  exists h', store_prior h (hd_or l nx) q = Some h' /\ dlseg h' q l nx /\
    same_outside l.*1 h h'.
Proof.
  destruct l as [|[a x] r]; [done|]. simpl. intros Hnd [Ha Hr] _.
  unfold store_prior. simpl. rewrite Ha. simpl. eexists. split; [done|].
  apply NoDup_cons in Hnd as [Hnin Hnd]. split; [split|].
  - by rewrite lookup_insert_eq.
  - by apply dlseg_insert.
  - intros b Hb. rewrite lookup_insert_ne; [done | set_solver].
Qed.

Lemma last_or_snoc pr l a x : last_or pr (l ++ [(a, x)]) = Some a.
Proof. by rewrite last_or_app. Qed.

Lemma list_last_case (l : list (positive * D)) :
  l = [] \/ exists l' a x, l = l' ++ [(a, x)].
Proof.
  destruct l as [|y r _] using rev_ind; [by left|]. destruct y as [a x]. right. eauto.
Qed.

Lemma dlseg_set_next h pr l nx q :
  NoDup l.*1 -> dlseg h pr l nx -> l <> [] ->
  exists h', store_next h (last_or pr l) q = Some h' /\ dlseg h' pr l q /\
    same_outside l.*1 h h'.
Proof.
  intros Hnd Hs Hne. destruct (list_last_case l) as [->|(l' & a & x & ->)]; [done|].
  rewrite last_or_snoc. unfold store_next. simpl.
  rewrite (dlseg_lookup _ _ _ _ _ _ _ Hs). simpl. eexists. split; [done|].
  rewrite fmap_app in *. simpl in *. apply NoDup_app in Hnd as (Hnd & Hdis & _).
  apply dlseg_app in Hs as [Hs _]. split.
  - apply dlseg_app. simpl. rewrite lookup_insert_eq. split; [|done].
    apply dlseg_insert; [intros H; apply (Hdis a H); set_solver | done].
  - intros b Hb. rewrite lookup_insert_ne; [done | set_solver].
Qed.

(** ** Insertion *)

(** The two stores that link a new element [E], each left out at an end. *)
Definition link_next (h : heap) (l : list (positive * D)) (E : positive) : option heap :=
  match l with [] => Some h | _ => store_next h (last_or None l) (Some E) end.
Definition link_prior (h : heap) (l : list (positive * D)) (E : positive) : option heap :=
  match l with [] => Some h | _ => store_prior h (hd_or l None) (Some E) end.

Lemma link_next_spec h l n E :
  NoDup l.*1 -> dlseg h None l n ->
  exists h', link_next h l E = Some h' /\ dlseg h' None l (Some E) /\ same_outside l.*1 h h'.
Proof.
  intros Hnd Hs. destruct l as [|y r] eqn:El; [by exists h|].
  by apply (dlseg_set_next h None (y :: r) n (Some E)).
Qed.

Lemma link_prior_spec h l pr E :
  NoDup l.*1 -> dlseg h pr l None ->
  exists h', link_prior h l E = Some h' /\ dlseg h' (Some E) l None /\ same_outside l.*1 h h'.
Proof.
  intros Hnd Hs. destruct l as [|y r] eqn:El; [by exists h|].
  by apply (dlseg_set_prior h pr (y :: r) None (Some E)).
Qed.

(** The heap after linking a new element, in either order of the stores. *)
Lemma link_spec h l1 l2 x :
  NoDup (l1 ++ l2).*1 -> dlseg h None (l1 ++ l2) None ->
  let '(h1, E) := pvl_new_element h x (hd_or l2 None) (last_or None l1) in
  let good h' := dlseg h' None (l1 ++ (E, x) :: l2) None /\ NoDup (l1 ++ (E, x) :: l2).*1 /\
                 same_outside (E :: (l1 ++ l2).*1) h h' in
  (E ∉ dom h /\ h1 !! E = Some (Elem x (hd_or l2 None) (last_or None l1))) /\
  (exists h2 h3, link_next h1 l1 E = Some h2 /\ link_prior h2 l2 E = Some h3 /\ good h3) /\
  (exists h2 h3, link_prior h1 l2 E = Some h2 /\ link_next h2 l1 E = Some h3 /\ good h3).
Proof.
  intros Hnd Hs. unfold pvl_new_element. set (E := fresh (dom h)).
  assert (E ∉ dom h) as HE by apply is_fresh.
  assert (E ∉ (l1 ++ l2).*1) as HEl by (intros H; apply HE; by eapply dlseg_in_dom).
  set (h1 := <[E := _]> h). split; [split; [done | apply lookup_insert_eq]|].
  assert (NoDup (l1 ++ (E, x) :: l2).*1) as Hnd'.
  { rewrite fmap_app in *. simpl. rewrite <- Permutation_middle. by constructor. }
  apply (dlseg_insert _ _ _ _ E (Elem x (hd_or l2 None) (last_or None l1)) HEl) in Hs. fold h1 in Hs.
  apply dlseg_app in Hs as [Hs1 Hs2]. rewrite fmap_app in *.
  apply NoDup_app in Hnd as (Hn1 & Hdis & Hn2).
  assert (forall b, b ∈ l2.*1 -> b ∉ l1.*1) as Hdis' by (intros b H2 H1; by apply (Hdis b)).
  assert (h1 !! E = Some (Elem x (hd_or l2 None) (last_or None l1))) as Eh1
    by apply lookup_insert_eq.
  assert (E ∉ l1.*1 /\ E ∉ l2.*1) as [HE1 HE2] by set_solver.
  split.
  - destruct (link_next_spec h1 l1 _ E Hn1 Hs1) as (h2 & E2 & Hs1' & So2).
    apply (dlseg_agree h1 h2) in Hs2; [|intros; by apply So2, Hdis'].
    destruct (link_prior_spec h2 l2 _ E Hn2 Hs2) as (h3 & E3 & Hs2' & So3).
    exists h2, h3. split_and!; [done..| |done|].
    + apply dlseg_app. split; [|split; [by rewrite So3, So2|done]].
      eapply dlseg_agree; [|done]. intros b Hb. by apply So3, Hdis.
    + intros b Hb. rewrite So3, So2 by set_solver. apply lookup_insert_ne. set_solver.
  - destruct (link_prior_spec h1 l2 _ E Hn2 Hs2) as (h2 & E2 & Hs2' & So2).
    apply (dlseg_agree h1 h2) in Hs1; [|intros; by apply So2, Hdis].
    destruct (link_next_spec h2 l1 _ E Hn1 Hs1) as (h3 & E3 & Hs1' & So3).
    exists h2, h3. split_and!; [done..| |done|].
    + apply dlseg_app. split; [done|]. split; [by rewrite So3, So2|].
      eapply dlseg_agree; [|done]. intros b Hb. by apply So3, Hdis'.
    + intros b Hb. rewrite So3, So2 by set_solver. apply lookup_insert_ne. set_solver.
Qed.

(** [r] is the list [L] with a new element for [x] between [l1] and [l2], and
    with [count] increased by [n]. *)
Definition inserted (h : heap) (L : pvl_list_t) (l1 : list (positive * D)) (x : D)
  (l2 : list (positive * D)) (n : Z) (r : option (heap * pvl_list_t)) : Prop :=
  exists a h' L', r = Some (h', L') /\ a ∉ dom h /\ linked h' L' (l1 ++ (a, x) :: l2) /\
    count L' = count L + n /\ p L' = p L /\ same_outside (a :: (l1 ++ l2).*1) h h'.

Lemma hd_or_None l : hd_or l None = None <-> l = [].
Proof. destruct l as [|[a x] r]; simpl; split; congruence. Qed.

Lemma last_or_None l : last_or None l = None <-> l = [].
Proof.
  destruct (list_last_case l) as [->|(l' & a & x & ->)]; [done|].
  rewrite last_or_snoc. split; [done|]. by destruct l'.
Qed.

Lemma last_or_irrel l q q' : l <> [] -> last_or q l = last_or q' l.
Proof. by destruct l as [|[a x] r]. Qed.

Lemma hd_or_irrel l q q' : l <> [] -> hd_or l q = hd_or l q'.
Proof. by destruct l as [|[a x] r]. Qed.

Lemma last_or_elem a l b : last_or (Some a) l = Some b -> b = a \/ b ∈ l.*1.
Proof.
  revert a. induction l as [|[c x] r IH]; intros a; simpl; [intros [= ->]; by left|].
  intros H. apply IH in H as [-> | H]; right; set_solver.
Qed.

Lemma unshift_spec h L l x :
  linked h L l -> inserted h L [] x l 1 (pvl_unshift h L x).
Proof.
  intros (Hnd & Hs & Hh & Ht). unfold pvl_unshift. rewrite Hh.
  pose proof (link_spec h [] l x Hnd Hs) as H. destruct (pvl_new_element h x _ _) as [h1 E] eqn:En.
  destruct H as ((HE & E1) & (h2 & h3 & E2 & E3 & Hs' & Hnd' & So) & _). injection E2 as <-.
  rewrite E1. cbn [mbind option_bind Pvl.next].
  assert ((if bool_decide (hd_or l None = None) then Some h1
           else store_prior h1 (hd_or l None) (Some E)) = Some h3) as ->.
  { destruct l as [|[b y] r]; [exact E3|]. rewrite bool_decide_false by done. exact E3. }
  cbn. eexists E, h3, _. split; [done|]. split; [done|]. split; [|done].
  split; [done|]. split; [done|]. split; [done|]. cbn. rewrite Ht.
  destruct l as [|[b y] r]; [done|]. rewrite bool_decide_false; [done|].
  by rewrite last_or_None.
Qed.

Lemma push_spec h L l x :
  linked h L l -> inserted h L l x [] 1 (pvl_push h L x).
Proof.
  intros (Hnd & Hs & Hh & Ht). unfold pvl_push. rewrite Ht.
  pose proof (link_spec h l [] x) as H. rewrite !app_nil_r in H. specialize (H Hnd Hs).
  cbn [hd_or] in H. destruct (pvl_new_element h x None (last_or None l)) as [h1 E] eqn:En.
  destruct H as ((HE & E1) & (h2 & h3 & E2 & E3 & Hs' & Hnd' & So) & _). injection E3 as <-.
  assert ((if bool_decide (last_or None l = None) then Some h1
           else store_next h1 (last_or None l) (Some E)) = Some h2) as ->.
  { destruct l as [|y r]; [exact E2|]. rewrite bool_decide_false; [exact E2|].
    by rewrite last_or_None. }
  cbn. eexists E, h2, _. split; [done|]. rewrite app_nil_r. split; [done|]. split; [|done].
  split; [done|]. split; [done|]. cbn. rewrite Hh, last_or_snoc. split; [|done].
  destruct l as [|[b y] r]; [done|]. by rewrite bool_decide_false.
Qed.

Lemma insert_before_spec h L l1 b y l2 x :
  linked h L (l1 ++ (b, y) :: l2) ->
  inserted h L l1 x ((b, y) :: l2) 1 (pvl_insert_before h L (Some b) x).
Proof.
  intros (Hnd & Hs & Hh & Ht). unfold pvl_insert_before. cbn [head tail add_count].
  pose proof (dlseg_lookup _ _ _ _ _ _ _ Hs) as Eb.
  pose proof (link_spec h l1 ((b, y) :: l2) x Hnd Hs) as H. cbn [hd_or] in H.
  destruct (pvl_new_element h x (Some b) (last_or None l1)) as [h1 E] eqn:En.
  destruct H as ((HE & E1) & (h2 & h3 & E2 & E3 & Hs' & Hnd' & So) & _).
  assert (forall L', head L' = hd_or (l1 ++ (E, x) :: (b, y) :: l2) None -> tail L' = tail L ->
    linked h3 L' (l1 ++ (E, x) :: (b, y) :: l2)) as Hl.
  { intros L' H1 H2. split; [done|]. split; [done|]. split; [done|].
    rewrite H2, Ht, !last_or_app. done. }
  destruct l1 as [|[c z] r].
  - rewrite bool_decide_true by by rewrite Hh. cbn [last_or] in En. rewrite En.
    injection E2 as <-. cbn in E3. cbn. rewrite E3. cbn. eexists E, h3, _. split; [done|].
    split; [done|]. split; [by apply Hl|done].
  - rewrite bool_decide_false.
    2:{ rewrite Hh. cbn. intros [= ->]. cbn in Hnd. apply NoDup_cons in Hnd as [Hn _].
        apply Hn. rewrite fmap_app. set_solver. }
    rewrite Eb. cbn [mbind option_bind prior]. rewrite En. cbn [link_next] in E2. rewrite E2.
    cbn [mbind option_bind]. cbn in E3. cbn. rewrite E3. cbn. eexists E, h3, _. split; [done|].
    split; [done|]. split; [by apply Hl|done].
Qed.

Lemma insert_after_spec h L l1 b y l2 x :
  linked h L (l1 ++ (b, y) :: l2) ->
  inserted h L (l1 ++ [(b, y)]) x l2 1 (pvl_insert_after h L (Some b) x).
Proof.
  intros (Hnd & Hs & Hh & Ht). unfold pvl_insert_after. cbn [head tail add_count].
  pose proof (dlseg_lookup _ _ _ _ _ _ _ Hs) as Eb.
  pose proof (link_spec h (l1 ++ [(b, y)]) l2 x) as H. rewrite <- !app_assoc in H.
  specialize (H Hnd Hs). rewrite last_or_snoc in H.
  destruct (pvl_new_element h x (hd_or l2 None) (Some b)) as [h1 E] eqn:En.
  destruct H as ((HE & E1) & _ & (h2 & h3 & E2 & E3 & Hs' & Hnd' & So)).
  assert (link_next h2 (l1 ++ [(b, y)]) E = store_next h2 (Some b) (Some E)) as EN.
  { rewrite <- (last_or_snoc None l1 b y). by destruct l1. }
  rewrite EN in E3.
  assert (forall L', head L' = head L -> tail L' = last_or (Some E) l2 ->
    linked h3 L' ((l1 ++ [(b, y)]) ++ (E, x) :: l2)) as Hl.
  { intros L' H1 H2. split; [done|]. split; [done|]. rewrite <- app_assoc.
    rewrite H1, H2, Hh. split; [by destruct l1|]. by rewrite last_or_app. }
  unfold inserted. rewrite <- (app_assoc l1 _ l2).
  destruct l2 as [|[c z] r].
  - rewrite bool_decide_true by by rewrite Ht, last_or_app.
    cbn [hd_or] in En. rewrite En. injection E2 as <-. cbn [mbind option_bind]. rewrite E3.
    cbn. eexists E, h3, _. split; [done|]. split; [done|]. split; [by apply Hl|done].
  - rewrite bool_decide_false.
    2:{ rewrite Ht, last_or_app. cbn. rewrite fmap_app in Hnd. cbn in Hnd.
        apply NoDup_app in Hnd as (_ & _ & Hn). apply NoDup_cons in Hn as [Hn _].
        intros Hl'. apply Hn. symmetry in Hl'. apply last_or_elem in Hl' as [-> | Hin]; set_solver. }
    rewrite Eb. cbn [mbind option_bind Pvl.next]. rewrite En. cbn [link_prior] in E2. rewrite E2.
    cbn [mbind option_bind]. rewrite E3. cbn. eexists E, h3, _. split; [done|].
    split; [done|]. split; [|done]. apply Hl; [done|]. cbn. by rewrite Ht, last_or_app.
Qed.

(** ** Removal *)

Lemma linked_deleted h h' L' l1 a x l2 :
  NoDup (l1 ++ (a, x) :: l2).*1 ->
  dlseg h' None l1 (hd_or l2 None) -> dlseg h' (last_or None l1) l2 None ->
  same_outside (l1 ++ l2).*1 h h' ->
  head L' = hd_or (l1 ++ l2) None -> tail L' = last_or None (l1 ++ l2) ->
  linked (delete a h') L' (l1 ++ l2) /\ delete a h' !! a = None /\
  same_outside (l1 ++ (a, x) :: l2).*1 h (delete a h').
Proof.
  intros Hnd H1 H2 So Hh Ht. rewrite fmap_app in Hnd. cbn in Hnd.
  rewrite <- Permutation_middle in Hnd. apply NoDup_cons in Hnd as [Hna Hnd].
  rewrite <- fmap_app in *. split; [|split].
  - split; [done|]. split; [|done]. apply dlseg_delete; [done|]. by apply dlseg_app.
  - apply lookup_delete_eq.
  - intros b Hb. rewrite fmap_app in Hb. cbn in Hb.
    rewrite lookup_delete_ne by set_solver. apply So. rewrite fmap_app. set_solver.
Qed.

Lemma remove_spec h L l1 a x l2 :
  linked h L (l1 ++ (a, x) :: l2) ->
  exists h' L', pvl_remove h L a = Some (h', L', x) /\ linked h' L' (l1 ++ l2) /\
    count L' = count L - 1 /\ p L' = p L /\ h' !! a = None /\
    same_outside (l1 ++ (a, x) :: l2).*1 h h'.
Proof.
  intros (Hnd & Hs & Hh & Ht). pose proof (dlseg_lookup _ _ _ _ _ _ _ Hs) as Ea.
  unfold pvl_remove. rewrite Ea. cbn [mbind option_bind Pvl.next prior].
  pose proof Hs as Hs0. apply dlseg_app in Hs as [Hs1 [_ Hs2]].
  pose proof Hnd as Hnd0. rewrite fmap_app in Hnd. cbn in Hnd.
  apply NoDup_app in Hnd as (Hn1 & Hdis & Hn2). apply NoDup_cons in Hn2 as [Ha2 Hn2].
  assert (a ∉ l1.*1) as Ha1 by (intros H; apply (Hdis a H); set_solver).
  assert (forall b, b ∈ l1.*1 -> b ∉ l2.*1) as Hd12
    by (intros b H1 H2; apply (Hdis b H1); set_solver).
  assert (forall b, b ∈ l2.*1 -> b ∉ l1.*1) as Hd21 by (intros b H2 H1; by apply (Hd12 b)).
  destruct l1 as [|y1 r1] eqn:E1; [|destruct l2 as [|y2 r2] eqn:E2].
  - rewrite bool_decide_true by by rewrite Hh. destruct l2 as [|y2 r2] eqn:E2.
    + cbn [hd_or]. rewrite bool_decide_true by done. cbn [mbind option_bind]. rewrite Ea. cbn.
      eexists _, _. split; [done|]. cbn. repeat (split; [done|]). split; [apply lookup_delete_eq|].
      intros b Hb. apply lookup_delete_ne. set_solver.
    + rewrite bool_decide_false by by destruct y2. rewrite <- E2 in *.
      destruct (dlseg_set_prior h (Some a) l2 None None) as (h' & Est & Hs2' & So);
        [done | done | by subst|]. rewrite Est. cbn [mbind option_bind].
      rewrite (So a), Ea by done. cbn. eexists _, _. split; [done|].
      destruct (linked_deleted h h' (add_count (set_ends L (hd_or l2 None) (tail L)) (-1)) [] a x l2)
        as (Hl & Hd & So'); [done..|by cbn; rewrite Ht; subst; destruct y2|]. auto.
  - rewrite <- E1 in *. rewrite bool_decide_false.
    2:{ rewrite Hh. subst. destruct y1 as [c z]. cbn. intros [= ->]. set_solver. }
    rewrite bool_decide_true by by rewrite Ht, last_or_snoc.
    rewrite bool_decide_false by (rewrite last_or_None; by subst).
    destruct (dlseg_set_next h None l1 (Some a) None) as (h' & Est & Hs1' & So);
      [done | done | by subst|]. rewrite Est. cbn [mbind option_bind].
    rewrite (So a), Ea by done. cbn. eexists _, _. split; [done|].
    destruct (linked_deleted h h' (add_count (set_ends L (head L) (last_or None l1)) (-1)) l1 a x [])
      as (Hl & Hd & So'); [done | done | done | by rewrite app_nil_r | | by rewrite app_nil_r |].
    { cbn. rewrite Hh, app_nil_r. subst. by destruct y1. } auto.
  - rewrite <- E1, <- E2 in *. rewrite bool_decide_false.
    2:{ rewrite Hh. subst. destruct y1 as [c z]. cbn. intros [= ->]. set_solver. }
    rewrite bool_decide_false.
    2:{ rewrite Ht, last_or_app. cbn. subst l2. destruct y2 as [c z]. cbn. intros Hl.
        symmetry in Hl. apply last_or_elem in Hl as [-> | Hin]; set_solver. }
    destruct (dlseg_set_next h None l1 (Some a) (hd_or l2 None)) as (h1 & Est & Hs1' & So1);
      [done | done | by subst|]. rewrite Est. cbn [mbind option_bind].
    rewrite (So1 a), Ea by done. cbn [mbind option_bind Pvl.next prior].
    apply (dlseg_agree h h1) in Hs2; [|intros; by apply So1, Hd21].
    destruct (dlseg_set_prior h1 (Some a) l2 None (last_or None l1)) as (h2 & Est2 & Hs2' & So2);
      [done | done | by subst|]. rewrite Est2. cbn [mbind option_bind].
    rewrite (So2 a), (So1 a), Ea by done. cbn. eexists _, _. split; [done|].
    apply (dlseg_agree h1 h2) in Hs1'; [|intros; by apply So2, Hd12].
    destruct (linked_deleted h h2 (add_count L (-1)) l1 a x l2) as (Hl & Hd & So');
      [done | done | done | | | | auto].
    + intros b Hb. rewrite fmap_app in Hb. rewrite So2, So1 by set_solver. done.
    + cbn. rewrite Hh. subst. by destruct y1.
    + cbn. rewrite Ht, !last_or_app. cbn. subst l2. by destruct y2.
Qed.

(** ** Traversal *)

(** The first element of the sequence for which [f] answers 1. *)
Fixpoint find_first (l : list (positive * D)) (f : D -> Z) : ptr :=
  match l with
  | [] => None
  | (a, x) :: r => if f x =? 1 then Some a else find_first r f
  end.

Lemma find_from_spec fuel h pr l f :
  dlseg h pr l None -> (length l < fuel)%nat ->
  find_from fuel h (hd_or l None) f = Some (find_first l f).
Proof.
  revert pr fuel. induction l as [|[a x] r IH]; intros pr [|k] Hs Hf; simpl in *; try lia; [done|].
  destruct Hs as [Ha Hr]. rewrite Ha. cbn. destruct (f x =? 1); [done|].
  apply (IH (Some a)); [done | lia].
Qed.

Lemma linked_fuel h L l : linked h L l -> (length l < heap_fuel h)%nat.
Proof. intros (Hnd & Hs & _). pose proof (dlseg_length h None l None Hnd Hs). unfold heap_fuel. lia. Qed.

Lemma apply_from_spec {S} fuel h pr l (f : D -> S -> S) s :
  dlseg h pr l None -> (length l < fuel)%nat ->
  apply_from fuel h (hd_or l None) f s = Some (fold_left (fun s x => f x s) l.*2 s).
Proof.
  revert pr fuel s. induction l as [|[a x] r IH]; intros pr [|k] s Hs Hf; simpl in *; try lia; [done|].
  destruct Hs as [Ha Hr]. rewrite Ha. cbn. apply (IH (Some a)); [done | lia].
Qed.

Lemma clear_from_spec fuel h L l :
  linked h L l -> (length l < fuel)%nat ->
  exists h' L', clear_from fuel h L (hd_or l None) = Some (h', L') /\ linked h' L' [] /\
    count L' = count L - Z.of_nat (length l) /\ p L' = p L /\ same_outside l.*1 h h' /\
    forall a, a ∈ l.*1 -> h' !! a = None.
Proof.
  revert fuel h L. induction l as [|[a x] r IH]; intros [|k] h L Hl Hf; simpl in Hf; try lia.
  - exists h, L. cbn. split; [done|]. split; [done|]. split; [lia|]. split; [done|].
    split; [done|]. intros a Ha. by apply not_elem_of_nil in Ha.
  - pose proof Hl as (Hnd & [Ha _] & _). cbn. rewrite Ha. cbn.
    destruct (remove_spec h L [] a x r Hl) as (h1 & L1 & -> & Hl1 & Hc & Hp & Hf1 & So1). cbn.
    destruct (IH k h1 L1 Hl1) as (h2 & L2 & -> & Hl2 & Hc2 & Hp2 & So2 & Hfree); [lia|].
    exists h2, L2. split; [done|]. split; [done|]. split; [lia|]. split; [congruence|].
    cbn in Hnd. apply NoDup_cons in Hnd as [Hna _]. split.
    + intros b Hb. cbn in *. rewrite So2, So1 by set_solver. done.
    + intros b Hb. cbn in Hb. apply elem_of_cons in Hb as [-> | Hb]; [by rewrite So2 | by apply Hfree].
Qed.

(** ** Sequences of operations *)

Inductive pvl_op :=
| Unshift (x : D)
| Push (x : D)
| Shift
| Pop
| InsertBefore (a : positive) (x : D)
| InsertAfter (a : positive) (x : D)
| Remove (a : positive)
| Clear.

Definition exec (h : heap) (L : pvl_list_t) (o : pvl_op) : option (heap * pvl_list_t * option D) :=
  let void r := '(h, L) ← r; Some (h, L, None) in
  match o with
  | Unshift x => void (pvl_unshift h L x)
  | Push x => void (pvl_push h L x)
  | Shift => pvl_shift h L
  | Pop => pvl_pop h L
  | InsertBefore a x => void (pvl_insert_before h L (Some a) x)
  | InsertAfter a x => void (pvl_insert_after h L (Some a) x)
  | Remove a => '(h, L, x) ← pvl_remove h L a; Some (h, L, Some x)
  | Clear => void (pvl_clear h L)
  end.

(** What a client sees: a sequence of elements, each with its handle. *)
Inductive spec_step : list (positive * D) -> pvl_op -> list (positive * D) -> option D -> Prop :=
| spec_unshift l a x : a ∉ l.*1 -> spec_step l (Unshift x) ((a, x) :: l) None
| spec_push l a x : a ∉ l.*1 -> spec_step l (Push x) (l ++ [(a, x)]) None
| spec_shift_nil : spec_step [] Shift [] None
| spec_shift a x l : spec_step ((a, x) :: l) Shift l (Some x)
| spec_pop_nil : spec_step [] Pop [] None
| spec_pop a x l : spec_step (l ++ [(a, x)]) Pop l (Some x)
| spec_before l1 b y l2 a x : a ∉ (l1 ++ (b, y) :: l2).*1 ->
    spec_step (l1 ++ (b, y) :: l2) (InsertBefore b x) (l1 ++ (a, x) :: (b, y) :: l2) None
| spec_after l1 b y l2 a x : a ∉ (l1 ++ (b, y) :: l2).*1 ->
    spec_step (l1 ++ (b, y) :: l2) (InsertAfter b x) (l1 ++ (b, y) :: (a, x) :: l2) None
| spec_remove l1 a x l2 : spec_step (l1 ++ (a, x) :: l2) (Remove a) (l1 ++ l2) (Some x)
| spec_clear l : spec_step l Clear [] None.

(** Handles must be those of elements of the list. *)
Definition allowed (l : list (positive * D)) (o : pvl_op) : Prop :=
  match o with
  | InsertBefore a _ | InsertAfter a _ | Remove a => a ∈ l.*1
  | _ => True
  end.

Lemma handle_split (l : list (positive * D)) a :
  a ∈ l.*1 -> exists l1 x l2, l = l1 ++ (a, x) :: l2.
Proof.
  intros Hin. apply list_elem_of_fmap in Hin as ([a' x] & -> & Hin).
  apply list_elem_of_split in Hin as (l1 & l2 & ->). eauto.
Qed.

Definition other_elements_kept (l : list (positive * D)) (h h' : heap) : Prop :=
  forall a, a ∈ dom h -> a ∉ l.*1 -> h' !! a = h !! a.

Definition simulates (h : heap) (L : pvl_list_t) (l : list (positive * D)) (o : pvl_op) : Prop :=
  exists h' L' l' r, exec h L o = Some (h', L', r) /\ well_formed h' L' l' /\
    spec_step l o l' r /\ other_elements_kept l h h'.

Lemma inserted_simulates h L l1 l2 x o r :
  well_formed h L (l1 ++ l2) -> inserted h L l1 x l2 1 r ->
  exec h L o = ('(h, L) ← r; Some (h, L, None)) ->
  (forall a, a ∉ (l1 ++ l2).*1 -> spec_step (l1 ++ l2) o (l1 ++ (a, x) :: l2) None) ->
  simulates h L (l1 ++ l2) o.
Proof.
  intros [(Hnd & Hs & _) Hc] (a & h' & L' & -> & Ha & Hl & Hc' & _ & So) He Hsp.
  exists h', L', (l1 ++ (a, x) :: l2), None. rewrite He. split; [done|]. split; [split; [done|]|split].
  - rewrite Hc', Hc, !length_app. cbn. lia.
  - apply Hsp. intros Hin. apply Ha. by eapply dlseg_in_dom.
  - intros b Hb Hbl. apply So. intros Hin. apply elem_of_cons in Hin as [-> | Hin]; done.
Qed.

Lemma removed_simulates h L l1 a x l2 o :
  well_formed h L (l1 ++ (a, x) :: l2) ->
  exec h L o = ('(h, L, x) ← pvl_remove h L a; Some (h, L, Some x)) ->
  spec_step (l1 ++ (a, x) :: l2) o (l1 ++ l2) (Some x) ->
  simulates h L (l1 ++ (a, x) :: l2) o.
Proof.
  intros [Hl Hc] He Hsp.
  destruct (remove_spec h L l1 a x l2 Hl) as (h' & L' & Er & Hl' & Hc' & _ & _ & So).
  exists h', L', (l1 ++ l2), (Some x). rewrite He, Er. split; [done|]. split; [split; [done|]|split].
  - rewrite Hc', Hc, !length_app. cbn. lia.
  - done.
  - intros b _ Hb. by apply So.
Qed.

Lemma exec_simulates h L l o : well_formed h L l -> allowed l o -> simulates h L l o.
Proof.
  intros Hwf Hal. pose proof Hwf as [Hl Hc]. pose proof Hl as (Hnd & Hs & Hh & Ht).
  destruct o as [x|x| | |b x|b x|b|]; cbn in Hal.
  - apply (inserted_simulates h L [] l x _ _ Hwf (unshift_spec h L l x Hl)); [done|].
    intros. by constructor.
  - rewrite <- (app_nil_r l) in Hwf |- *.
    apply (inserted_simulates h L l [] x _ _ Hwf (push_spec h L l x Hl)); [done|].
    intros a Ha. rewrite app_nil_r in *. by constructor.
  - destruct l as [|[a x] r].
    + exists h, L, [], None. cbn. unfold pvl_shift. rewrite Hh. by repeat (split; [done || constructor|]).
    + apply (removed_simulates h L [] a x r _ Hwf); [|constructor]. cbn. unfold pvl_shift. by rewrite Hh.
  - destruct (list_last_case l) as [->|(l' & a & x & ->)].
    + exists h, L, [], None. cbn. unfold pvl_pop. rewrite Ht. by repeat (split; [done || constructor|]).
    + apply (removed_simulates h L l' a x [] _ Hwf); [|rewrite app_nil_r; constructor].
      cbn. unfold pvl_pop. by rewrite Ht, last_or_snoc.
  - apply handle_split in Hal as (l1 & y & l2 & ->).
    apply (inserted_simulates h L l1 ((b, y) :: l2) x _ _ Hwf (insert_before_spec h L l1 b y l2 x Hl));
      [done|]. intros. by constructor.
  - apply handle_split in Hal as (l1 & y & l2 & ->).
    pose proof (insert_after_spec h L l1 b y l2 x Hl) as Hi.
    change ((b, y) :: l2) with ([(b, y)] ++ l2) in *. rewrite app_assoc in *.
    apply (inserted_simulates h L _ l2 x _ _ Hwf Hi); [done|].
    intros a Ha. rewrite <- !app_assoc in *. by constructor.
  - apply handle_split in Hal as (l1 & y & l2 & ->).
    apply (removed_simulates h L l1 b y l2 _ Hwf); [done | constructor].
  - destruct (clear_from_spec (heap_fuel h) h L l Hl (linked_fuel h L l Hl))
      as (h' & L' & E & Hl' & Hc' & _ & So & _).
    exists h', L', [], None. cbn [exec]. unfold pvl_clear. rewrite Hh, E. cbn. split; [done|].
    split; [split; [done|]; cbn; lia|]. split; [constructor|]. intros b _ Hb. by apply So.
Qed.

Lemma newlist_well_formed h : well_formed h pvl_newlist [].
Proof. split; [|done]. split; [constructor|done]. Qed.

(** ** Ordered insertion *)

Section Ordered.
Variable f : D -> D -> Z.
Definition le_f (x y : D) : Prop := f x y <= 0.
Hypothesis f_sign : forall x y, f x y <= 0 <-> 0 <= f y x.
Hypothesis f_trans : forall x y z, le_f x y -> le_f y z -> le_f x z.

Lemma sorted_app_r l1 l2 : StronglySorted le_f (l1 ++ l2) -> StronglySorted le_f l2.
Proof.
  induction l1 as [|y r IH]; simpl; [done|]. intros Hs.
  apply StronglySorted_inv in Hs as [Hs _]. by apply IH.
Qed.

Lemma sorted_insert l1 x l2 :
  StronglySorted le_f (l1 ++ l2) -> Forall (fun y => le_f y x) l1 -> Forall (le_f x) l2 ->
  StronglySorted le_f (l1 ++ x :: l2).
Proof.
  induction l1 as [|y r IH]; simpl; intros Hs H1 H2; [by constructor|].
  apply StronglySorted_inv in Hs as [Hs Hf]. apply Forall_cons in H1 as [Hy H1].
  constructor; [by apply IH|]. apply Forall_app in Hf as [Hf1 Hf2].
  apply Forall_app. split; [done|]. by constructor.
Qed.

Lemma sorted_head_le x y l :
  le_f x y -> StronglySorted le_f (y :: l) -> Forall (le_f x) (y :: l).
Proof.
  intros Hxy Hs. apply StronglySorted_inv in Hs as [_ Hf]. constructor; [done|].
  eapply Forall_impl; [exact Hf|]. intros z Hz. by eapply f_trans.
Qed.

Lemma sorted_last_le x y l :
  le_f y x -> StronglySorted le_f (l ++ [y]) -> Forall (fun z => le_f z x) (l ++ [y]).
Proof.
  intros Hyx Hs. apply Forall_app. split; [|by constructor].
  induction l as [|z r IH]; [constructor|]. apply StronglySorted_inv in Hs as [Hs Hf].
  constructor; [|by apply IH]. apply Forall_app in Hf as [_ Hf].
  apply Forall_cons in Hf as [Hf _]. by eapply f_trans.
Qed.

(** The search stops at the first element that is not smaller. *)
Lemma find_first_split l g a :
  find_first l g = Some a ->
  exists l1 y l2, l = l1 ++ (a, y) :: l2 /\ g y = 1 /\ Forall (fun z => g z <> 1) l1.*2.
Proof.
  induction l as [|[b y] r IH]; simpl; [done|]. destruct (Z.eqb_spec (g y) 1) as [E|E].
  - intros [= ->]. by exists [], y, r.
  - intros H. destruct (IH H) as (l1 & z & l2 & -> & Hz & Hl1).
    exists ((b, y) :: l1), z, l2. split; [done|]. split; [done|]. by constructor.
Qed.

Lemma find_first_snoc l g a x : g x = 1 -> find_first (l ++ [(a, x)]) g <> None.
Proof.
  intros Hx. induction l as [|[b y] r IH]; simpl.
  - rewrite Hx. done.
  - by destruct (g y =? 1).
Qed.

Definition insert_ordered_result (h : heap) (L : pvl_list_t) (l : list (positive * D)) (x : D) :=
  exists l1 l2, l = l1 ++ l2 /\ StronglySorted le_f (l1.*2 ++ x :: l2.*2) /\
    inserted h L l1 x l2 2 (pvl_insert_ordered h L f x).

Lemma inserted_add_count h L l1 x l2 r :
  inserted h (add_count L 1) l1 x l2 1 r -> inserted h L l1 x l2 2 r.
Proof.
  intros (a & h' & L' & E & Ha & Hl & Hc & Hp & So). exists a, h', L'. cbn in Hc.
  repeat (split; [done || lia|]). done.
Qed.

Lemma insert_ordered_spec h L l x :
  linked h L l -> StronglySorted le_f l.*2 -> insert_ordered_result h L l x.
Proof.
  intros Hl Hs. pose proof Hl as (Hnd & Hseg & Hh & Ht).
  assert (linked h (add_count L 1) l) as Hl1 by exact Hl.
  unfold insert_ordered_result, pvl_insert_ordered. cbn [head tail add_count]. rewrite Hh, Ht.
  destruct (list_last_case l) as [El|(l' & z & y & El)].
  { subst l. exists [], []. split; [done|]. split; [repeat constructor|].
    apply inserted_add_count. by apply unshift_spec. }
  assert (exists b w r, l = (b, w) :: r) as (b & w & r & Elb)
    by (destruct l as [|[b w] r]; [by destruct l' | eauto]).
  assert (hd_or l None = Some b) as -> by by rewrite Elb.
  assert (last_or None l = Some z) as -> by by rewrite El, last_or_snoc.
  assert (h !! b = Some (Elem w (hd_or r None) None)) as Eb
    by (rewrite Elb in Hseg; exact (proj1 Hseg)).
  cbn [load mbind option_bind]. rewrite Eb. cbn [mbind option_bind d].
  destruct (Z.leb_spec (f x w) 0) as [Hxw|Hxw].
  { exists [], l. split; [done|]. split; [|by apply inserted_add_count, unshift_spec].
    cbn. constructor; [done|]. rewrite Elb in *. by apply sorted_head_le. }
  cbn [load mbind option_bind].
  assert (h !! z = Some (Elem y None (last_or None l'))) as Ez
    by (rewrite El in Hseg; by apply dlseg_lookup in Hseg).
  rewrite Ez. cbn [mbind option_bind d].
  destruct (Z.leb_spec 0 (f x y)) as [Hxy|Hxy].
  { exists l, []. rewrite app_nil_r. split; [done|]. split; [|by apply inserted_add_count, push_spec].
    apply sorted_insert; [by rewrite app_nil_r| |constructor]. apply f_sign in Hxy.
    rewrite El, fmap_app in *. cbn in *. by apply sorted_last_le. }
  set (g := fun x0 : D => if 0 <=? f x0 x then 1 else 0). replace (Some b) with (hd_or l None) by by rewrite Elb.
  rewrite (find_from_spec _ h None l g Hseg (linked_fuel h L l Hl)). cbn [mbind option_bind].
  assert (g y = 1) as Hgy by (unfold g; destruct (Z.leb_spec 0 (f y x)); [done|]; pose proof (f_sign x y); lia).
  destruct (find_first l g) as [a|] eqn:Ef; [|by apply (find_first_snoc l' g z) in Hgy; rewrite <- El in Hgy].
  destruct (find_first_split l g a Ef) as (l1 & v & l2 & Esp & Hgv & Hg1).
  exists l1, ((a, v) :: l2). split; [done|]. rewrite Esp in Hl1, Hs. split.
  - rewrite fmap_app in Hs. apply sorted_insert; [done| |].
    + eapply Forall_impl; [exact Hg1|]. unfold g, le_f. cbn. intros u.
      destruct (Z.leb_spec 0 (f u x)); [done|]. lia.
    + cbn in *. apply sorted_head_le; [|by eapply sorted_app_r].
      unfold g in Hgv. unfold le_f. apply f_sign. destruct (Z.leb_spec 0 (f v x)); [done|lia].
  - by apply inserted_add_count, insert_before_spec.
Qed.
End Ordered.

End Pvl.

(** ** Theorems *)

(** C7: the list operations implement a sequence.  Starting from the empty list
    and with handles of elements in the list, each operation runs without a bad
    dereference, returns what the sequence operation returns, keeps the links in
    both directions, the ends and the count consistent with the sequence, and
    leaves the elements of all other lists alone. *)
Theorem pvl_refines_sequence {D} (h : gmap positive (@pvl_elem_t D)) (L : pvl_list_t)
  (l : list (positive * D)) (o : pvl_op) :
  well_formed h (@pvl_newlist) [] /\
  (well_formed h L l -> allowed l o ->
   exists h' L' l' r, exec h L o = Some (h', L', r) /\ well_formed h' L' l' /\
     spec_step l o l' r /\ other_elements_kept l h h').
Proof. split; [apply newlist_well_formed | apply exec_simulates]. Qed.

(** [pvl_find] returns the first element, in list order, for which the
    predicate answers 1, or the null pointer; [pvl_apply] visits the data in list
    order; both end on every well-formed list. *)
Theorem pvl_traversal_correct {D S} (h : gmap positive (@pvl_elem_t D)) (L : pvl_list_t)
  (l : list (positive * D)) (f : D -> Z) (g : D -> S -> S) (s : S) :
  linked h L l ->
  (exists L', pvl_find h L f = Some (L', find_first l f) /\ linked h L' l) /\
  pvl_apply h L g s = Some (fold_left (fun s x => g x s) l.*2 s).
Proof.
  intros Hl. pose proof (linked_fuel h L l Hl) as Hf. pose proof Hl as (_ & Hs & Hh & _).
  unfold pvl_find, pvl_apply. rewrite Hh. split.
  - rewrite (find_from_spec _ h None l f Hs Hf). cbn. destruct (find_first l f); eauto.
  - by apply (apply_from_spec _ h None).
Qed.

(** [pvl_insert_ordered] keeps an ordered list ordered: with a comparison
    function that orders the data, the new element is placed between the
    smaller and the larger ones, the loop always finds its place and the final
    assertion is never reached.  The count however grows by two. *)
Theorem pvl_insert_ordered_correct {D} (f : D -> D -> Z)
  (h : gmap positive (@pvl_elem_t D)) (L : pvl_list_t) (l : list (positive * D)) (x : D) :
  (forall x y, f x y <= 0 <-> 0 <= f y x) ->
  (forall x y z, f x y <= 0 -> f y z <= 0 -> f x z <= 0) ->
  linked h L l -> StronglySorted (fun x y => f x y <= 0) l.*2 ->
  exists a h' L' l1 l2, pvl_insert_ordered h L f x = Some (h', L') /\ l = l1 ++ l2 /\
    linked h' L' (l1 ++ (a, x) :: l2) /\
    StronglySorted (fun x y => f x y <= 0) (l1 ++ (a, x) :: l2).*2 /\
    count L' = count L + 2.
Proof.
  intros Hsign Htr Hl Hs.
  destruct (insert_ordered_spec f Hsign Htr h L l x Hl Hs)
    as (l1 & l2 & E & Hs' & a & h' & L' & Er & _ & Hl' & Hc & _).
  exists a, h', L', l1, l2. rewrite fmap_app. by repeat (split; [done|]).
Qed.

(** The list 1, 3 in a heap, for the instances below. *)
Definition sample_heap : gmap positive (@pvl_elem_t Z) :=
  <[1%positive := Elem 1 (Some 2%positive) None]> (<[2%positive := Elem 3 None (Some 1%positive)]> ∅).
Definition sample_list : pvl_list_t := PvlList (Some 1%positive) (Some 2%positive) 2 None.

Lemma sample_linked : linked sample_heap sample_list [(1%positive, 1); (2%positive, 3)].
Proof.
  split; [|by repeat split]. cbn. repeat constructor; set_solver.
Qed.

Lemma pvl_refines_sequence_witness :
  exists h' L' l' r, exec sample_heap sample_list (InsertBefore 2%positive 2) = Some (h', L', r) /\
    well_formed h' L' l' /\
    spec_step [(1%positive, 1); (2%positive, 3)] (InsertBefore 2%positive 2) l' r /\
    other_elements_kept [(1%positive, 1); (2%positive, 3)] sample_heap h'.
Proof.
  apply (pvl_refines_sequence sample_heap sample_list [(1%positive, 1); (2%positive, 3)]).
  - split; [apply sample_linked | done].
  - cbn. set_solver.
Defined.

Lemma pvl_traversal_correct_witness :
  pvl_apply sample_heap sample_list (fun x s => 10 * s + x) 0 = Some 13.
Proof.
  apply (pvl_traversal_correct sample_heap sample_list [(1%positive, 1); (2%positive, 3)]
           (fun x => x) (fun x s => 10 * s + x) 0). apply sample_linked.
Defined.

Lemma pvl_insert_ordered_correct_witness :
  exists a h' L' l1 l2, pvl_insert_ordered sample_heap sample_list Z.sub 2 = Some (h', L') /\
    [(1%positive, 1); (2%positive, 3)] = l1 ++ l2 /\
    linked h' L' (l1 ++ (a, 2) :: l2) /\
    StronglySorted (fun x y => x - y <= 0) (l1 ++ (a, 2) :: l2).*2 /\ count L' = 4.
Proof.
  apply (pvl_insert_ordered_correct Z.sub sample_heap sample_list [(1%positive, 1); (2%positive, 3)] 2).
  - lia.
  - lia.
  - apply sample_linked.
  - cbn. repeat constructor; lia.
Defined.
