(* ===== verification/QsortGen.v ===== *)
(** * The generic sort (qsort_gen.c)

    [qsort_gen] sorts through two callbacks on indices.  The callbacks are the
    interface [Sortable]; what the sort relies on - they compare and swap the
    elements of a sequence - is the class [SortableLaws], which the arrays of
    icalarray.c implement.  A callback on an index outside of the sequence, a
    decrement of the index 0 and an overflow of the fixed stack are the result
    [None].  The sort is shown to end without any of these, with the elements
    permuted and in order. *)
From Stdlib Require Import ZArith Lia Permutation Sorting.Sorted.
From stdpp Require Import base option list sets.
From S2P Require Import Prelude.

(** The [compar] and [swapr] arguments. *)
Class Sortable (S : Type) := {
  compar : S -> nat -> nat -> option Z;
  swapr : S -> nat -> nat -> option S
}.

(** ** Exchanging two blocks of bytes *)

(** The loop of [qsort_gen_memswap] on a memory of bytes; [None] is an access
    outside of it. *)
Fixpoint qsort_gen_memswap (mem : list Z) (p1 p2 size : nat) : option (list Z) :=
  match size with
  | O => Some mem
  | Datatypes.S size =>
      tmp ← mem !! p1;
      b ← mem !! p2;
      let mem := <[p1 := b]> mem in
      let mem := <[p2 := tmp]> mem in
      qsort_gen_memswap mem (p1 + 1) (p2 + 1) size
  end.

(** ** The algorithm *)

Definition T : nat := 7.
Definition STACKSIZE : nat := 64.

Section Qsort.
Context {S : Type} `{Sortable S}.

(** [do i++; while (compar(list, i, base_) < 0);] *)
Fixpoint scan_right (fuel : nat) (s : S) (i base_ : nat) : option nat :=
  match fuel with
  | O => None
  | Datatypes.S k =>
      let i := i + 1 in
      c ← compar s i base_;
      if (c <? 0)%Z then scan_right k s i base_ else Some i
  end.

(** [do j--; while (compar(list, j, base_) > 0);] *)
Fixpoint scan_left (s : S) (j base_ : nat) : option nat :=
  match j with
  | O => None
  | Datatypes.S j =>
      c ← compar s j base_;
      if (0 <? c)%Z then scan_left s j base_ else Some j
  end.

Fixpoint partition_loop (fuel : nat) (s : S) (base_ i j : nat) : option (S * nat * nat) :=
  match fuel with
  | O => None
  | Datatypes.S k =>
      i ← scan_right fuel s i base_;
      j ← scan_left s j base_;
      if j <? i then Some (s, i, j)
      else s ← swapr s i j; partition_loop k s base_ i j
  end.

(** [if (compar(list, a, b) > 0) swapr(list, a, b);] *)
Definition order_pair (s : S) (a b : nat) : option S :=
  c ← compar s a b; if (0 <? c)%Z then swapr s a b else Some s.

(** The median of the first, the middle and the last element into the first
    place. *)
Definition median (s : S) (base_ limit : nat) : option S :=
  let i := base_ + 1 in
  let j := limit - 1 in
  s ← swapr s ((limit - base_) / 2 + base_) base_;
  s ← order_pair s i j;
  s ← order_pair s base_ j;
  order_pair s i base_.

(** The partition around it, and the pivot into its place; the final indices
    bound the two parts. *)
Definition partition (s : S) (base_ limit : nat) : option (S * nat * nat) :=
  s ← median s base_ limit;
  '(s, i, j) ← partition_loop limit s base_ (base_ + 1) (limit - 1);
  s ← swapr s base_ j;
  Some (s, i, j).

(** [for (; compar(list, j, j + 1) > 0; j--) ...] *)
Fixpoint sink (j base_ : nat) (s : S) : option S :=
  c ← compar s j (j + 1);
  if (0 <? c)%Z then
    s ← swapr s j (j + 1);
    if j =? base_ then Some s
    else match j with O => None | Datatypes.S j => sink j base_ s end
  else Some s.

(** [n] rounds of the outer loop of the insertion sort. *)
Fixpoint insertion (n : nat) (s : S) (base_ j : nat) : option S :=
  match n with
  | O => Some s
  | Datatypes.S n => s ← sink j base_ s; insertion n s base_ (j + 1)
  end.

(** [PUSH]: two elements of the stack of size [STACKSIZE]. *)
Definition push (stack : list (nat * nat)) (base_ limit : nat) : option (list (nat * nat)) :=
  if 2 * length stack + 2 <=? STACKSIZE then Some ((base_, limit) :: stack) else None.

Fixpoint qsort_loop (fuel : nat) (s : S) (base_ limit : nat) (stack : list (nat * nat)) : option S :=
  match fuel with
  | O => None
  | Datatypes.S k =>
      if T <? limit - base_ then
        '(s, i, j) ← partition s base_ limit;
        if limit - i <? j - base_
        then stack ← push stack base_ j; qsort_loop k s i limit stack
        else stack ← push stack i limit; qsort_loop k s base_ j stack
      else
        s ← insertion (limit - (base_ + 1)) s base_ base_;
        match stack with
        | (base_, limit) :: stack => qsort_loop k s base_ limit stack
        | [] => Some s
        end
  end.

Definition qsort_gen (s : S) (nitems : nat) : option S :=
  qsort_loop (2 * nitems + 2) s 0 nitems [].
End Qsort.

(** ** What the callbacks promise *)

(** A comparison function: a total preorder. *)
Class Comparison {A : Type} (cmp : A -> A -> Z) : Prop := {
  cmp_flip a b : (cmp a b <= 0 <-> 0 <= cmp b a)%Z;
  cmp_trans a b c : (cmp a b <= 0 -> cmp b c <= 0 -> cmp a c <= 0)%Z
}.

Definition swap {A} (i j : nat) (l : list A) : list A :=
  match l !! i, l !! j with
  | Some a, Some b => <[i := b]> (<[j := a]> l)
  | _, _ => l
  end.

Class SortableLaws {S A : Type} (ops : Sortable S) (cmp : A -> A -> Z) (view : S -> list A) : Prop := {
  compar_view s i j a b :
    view s !! i = Some a -> view s !! j = Some b -> compar s i j = Some (cmp a b);
  swapr_view s i j :
    i < length (view s) -> j < length (view s) ->
    exists s', swapr s i j = Some s' /\ view s' = swap i j (view s)
}.

(** ** Swaps *)

Lemma length_swap {A} i j (l : list A) : length (swap i j l) = length l.
Proof. unfold swap. repeat case_match; rewrite ?length_insert; done. Qed.

Lemma lookup_swap {A} i j (l : list A) k :
  i < length l -> j < length l ->
  swap i j l !! k = if decide (k = i) then l !! j else if decide (k = j) then l !! i else l !! k.
Proof.
  intros Hi Hj. unfold swap.
  destruct (lookup_lt_is_Some_2 l i Hi) as [a Ea], (lookup_lt_is_Some_2 l j Hj) as [b Eb].
  rewrite Ea, Eb. destruct (decide (k = i)) as [->|Hki].
  - rewrite list_lookup_insert_eq by (rewrite length_insert; done). done.
  - rewrite list_lookup_insert_ne by done. destruct (decide (k = j)) as [->|Hkj].
    + rewrite list_lookup_insert_eq by done. done.
    + rewrite list_lookup_insert_ne by done. done.
Qed.

Lemma insert_Permutation {A} j (x b : A) l : l !! j = Some b -> b :: <[j := x]> l ≡ₚ x :: l.
Proof.
  revert j. induction l as [|y l IH]; intros [|j] E; simplify_eq/=.
  - apply Permutation_swap.
  - rewrite Permutation_swap, (IH j E). apply Permutation_swap.
Qed.

Lemma swap_Permutation {A} i j (l : list A) : swap i j l ≡ₚ l.
Proof.
  unfold swap. destruct (l !! i) as [a|] eqn:Ea; [|done]. destruct (l !! j) as [b|] eqn:Eb; [|done].
  revert i j a b Ea Eb. induction l as [|x l IH]; intros [|i] [|j] a b Ea Eb; simplify_eq/=; try done.
  - by apply insert_Permutation.
  - by apply insert_Permutation.
  - constructor. by apply IH.
Qed.

(** ** Rearrangements of a segment *)

(** [l'] is [l] with the elements from [b] to [e] permuted. *)
Record seg_perm {A} (b e : nat) (l l' : list A) : Prop := SegPerm {
  seg_perm_all : l' ≡ₚ l;
  seg_outside k : ~ (b <= k < e) -> l' !! k = l !! k;
  seg_inside k : b <= k < e -> exists k', b <= k' < e /\ l' !! k = l !! k'
}.

Lemma seg_length {A} b e (l l' : list A) : seg_perm b e l l' -> length l' = length l.
Proof. intros [Hp _ _]. by apply Permutation_length. Qed.

#[export] Instance seg_perm_preorder {A} b e : PreOrder (@seg_perm A b e).
Proof.
  split.
  - intros l. split; [done | done | eauto].
  - intros l1 l2 l3 [P1 O1 I1] [P2 O2 I2]. split.
    + by rewrite P2.
    + intros k Hk. by rewrite O2, O1.
    + intros k Hk. destruct (I2 k Hk) as (k2 & Hk2 & E2). destruct (I1 k2 Hk2) as (k1 & Hk1 & E1).
      exists k1. split; [done|]. by rewrite E2.
Qed.

Lemma swap_seg_perm {A} b e i j (l : list A) :
  b <= i < e -> b <= j < e -> e <= length l -> seg_perm b e l (swap i j l).
Proof.
  intros Hi Hj He. split; [apply swap_Permutation | |].
  - intros k Hk. rewrite lookup_swap by lia. rewrite !decide_False by lia. done.
  - intros k Hk. rewrite lookup_swap by lia. repeat case_decide; subst; eauto.
Qed.

Lemma seg_perm_weaken {A} b e b' e' (l l' : list A) :
  b' <= b -> e <= e' -> seg_perm b e l l' -> seg_perm b' e' l l'.
Proof.
  intros Hb He [P O I]. split; [done | |].
  - intros k Hk. apply O. lia.
  - intros k Hk. destruct (decide (b <= k < e)) as [Hin|Hout].
    + destruct (I k Hin) as (k' & Hk' & E). exists k'. split; [lia | done].
    + exists k. split; [done | by apply O].
Qed.

(** ** Correctness *)

Section Correct.
Context {S A : Type} {ops : Sortable S} {cmp : A -> A -> Z} {view : S -> list A}.
Context {CMP : Comparison cmp} {LAWS : SortableLaws ops cmp view}.

Definition le_at (l : list A) (i j : nat) : Prop :=
  forall a b, l !! i = Some a -> l !! j = Some b -> (cmp a b <= 0)%Z.

(** Below and above the pivot, as the scans test it. *)
Definition low (l : list A) (p : A) (k : nat) : Prop := forall v, l !! k = Some v -> (cmp v p <= 0)%Z.
Definition high (l : list A) (p : A) (k : nat) : Prop := forall v, l !! k = Some v -> (0 <= cmp v p)%Z.

Lemma low_high_le l p i j : low l p i -> high l p j -> le_at l i j.
Proof. intros Hl Hh a b Ea Eb. apply (cmp_trans a p b); [by apply Hl | by apply cmp_flip, Hh]. Qed.

Lemma get_elem (s : S) i : i < length (view s) -> exists a, view s !! i = Some a.
Proof. apply lookup_lt_is_Some_2. Qed.

(** *** The scans *)

Lemma scan_right_spec fuel (s : S) i base_ p m :
  view s !! base_ = Some p -> i < m -> m < length (view s) -> high (view s) p m -> m - i <= fuel ->
  exists i', scan_right fuel s i base_ = Some i' /\ i < i' <= m /\ high (view s) p i' /\
    forall k, i < k < i' -> low (view s) p k.
Proof.
  intros Hp. revert i. induction fuel as [|fuel IH]; intros i Hi Hm Hh Hf; [lia|]. cbn [scan_right].
  destruct (get_elem s (i + 1) ltac:(lia)) as [a Ea]. rewrite (compar_view _ _ _ _ _ Ea Hp). cbn.
  destruct (Z.ltb_spec (cmp a p) 0) as [Hlt|Hge].
  - destruct (decide (i + 1 = m)) as [<-|Hne]; [specialize (Hh a Ea); lia|].
    destruct (IH (i + 1)) as (i' & E & Hi' & Hh' & Hl); [lia | done | done | lia|].
    exists i'. split; [done|]. split; [lia|]. split; [done|]. intros k Hk.
    destruct (decide (k = i + 1)) as [->|]; [intros v Ev; simplify_eq; lia | apply Hl; lia].
  - exists (i + 1). split; [done|]. split; [lia|]. split; [intros v Ev; simplify_eq; lia|]. intros k Hk. lia.
Qed.

Lemma scan_left_spec (s : S) j base_ p m :
  view s !! base_ = Some p -> m < j -> j <= length (view s) -> low (view s) p m ->
  exists j', scan_left s j base_ = Some j' /\ m <= j' < j /\ low (view s) p j' /\
    forall k, j' < k < j -> high (view s) p k.
Proof.
  intros Hp. induction j as [|j IH]; intros Hj Hlen Hl; [lia|]. cbn [scan_left].
  destruct (get_elem s j ltac:(lia)) as [a Ea]. rewrite (compar_view _ _ _ _ _ Ea Hp). cbn.
  destruct (Z.ltb_spec 0 (cmp a p)) as [Hgt|Hle].
  - destruct (decide (j = m)) as [->|Hne]; [specialize (Hl a Ea); lia|].
    destruct IH as (j' & E & Hj' & Hl' & Hh); [lia | lia | done|].
    exists j'. split; [done|]. split; [lia|]. split; [done|]. intros k Hk.
    destruct (decide (k = j)) as [->|]; [intros v Ev; simplify_eq; lia | apply Hh; lia].
  - exists j. split; [done|]. split; [lia|]. split; [intros v Ev; simplify_eq; lia|]. intros k Hk. lia.
Qed.

(** *** The partition *)

Record parted (l : list A) (p : A) (base_ limit i j : nat) : Prop := Parted {
  parted_pivot : l !! base_ = Some p;
  parted_low k : base_ < k <= i -> low l p k;
  parted_high k : j <= k < limit -> high l p k
}.

Lemma parted_swap l p base_ limit i j i' j' :
  parted l p base_ limit i j -> base_ < i -> i < i' -> i' <= j' -> j' < j -> j < limit -> limit <= length l ->
  high l p i' -> low l p j' -> (forall k, i < k < i' -> low l p k) -> (forall k, j' < k < j -> high l p k) ->
  parted (swap i' j' l) p base_ limit i' j'.
Proof.
  intros [Hp Hl Hh] ? ? ? ? ? ? Hi' Hj' Hli Hhj. split.
  - rewrite lookup_swap by lia. by rewrite !decide_False by lia.
  - intros k Hk v. rewrite lookup_swap by lia. repeat case_decide; subst.
    + apply Hj'.
    + assert (j' = i') by lia. congruence.
    + destruct (decide (k <= i)); [apply Hl; lia | apply Hli; lia].
  - intros k Hk v. rewrite lookup_swap by lia. repeat case_decide; subst.
    + assert (j' = i') as -> by lia. apply Hi'.
    + apply Hi'.
    + destruct (decide (j <= k)); [apply Hh; lia | apply Hhj; lia].
Qed.

Lemma partition_loop_spec fuel (s : S) p base_ limit i j :
  parted (view s) p base_ limit i j -> base_ < i <= j -> j < limit -> limit <= length (view s) ->
  (i = j -> j + 1 < limit /\ base_ + 1 < i) -> limit <= fuel + i ->
  exists s' i' j', partition_loop fuel s base_ i j = Some (s', i', j') /\
    seg_perm (base_ + 1) limit (view s) (view s') /\ view s' !! base_ = Some p /\
    base_ < j' < i' /\ i' < limit /\
    (forall k, base_ < k < i' -> low (view s') p k) /\ (forall k, j' < k < limit -> high (view s') p k).
Proof.
  revert s i j. induction fuel as [|fuel IH]; intros s i j HP Hij Hj Hlim Heq Hf; [lia|].
  destruct HP as [Hp Hl Hh]. cbn [partition_loop].
  destruct (scan_right_spec (Datatypes.S fuel) s i base_ p (if decide (i = j) then j + 1 else j)) as (i' & Ei & Hi' & Hhi & Hli);
    [done | case_decide; lia | case_decide; lia | case_decide; apply Hh; lia | case_decide; lia|].
  destruct (scan_left_spec s j base_ p (if decide (i = j) then j - 1 else i)) as (j' & Ej & Hj' & Hlj & Hhj);
    [done | case_decide; lia | lia | case_decide; apply Hl; lia|].
  rewrite Ei. cbn [mbind option_bind]. rewrite Ej. cbn [mbind option_bind].
  assert (base_ < j' /\ i' < limit) as [Hbj Hil] by (repeat case_decide; lia).
  destruct (Nat.ltb_spec j' i') as [Hcross|Hle].
  - exists s, i', j'. split; [done|]. split; [done|]. split; [done|]. split; [lia|]. split; [done|]. split.
    + intros k Hk. destruct (decide (k <= i)); [apply Hl; lia | apply Hli; lia].
    + intros k Hk. destruct (decide (j <= k)); [apply Hh; lia | apply Hhj; lia].
  - destruct (swapr_view s i' j') as (s1 & E1 & V1); [lia | lia|]. rewrite E1. cbn [mbind option_bind].
    assert (parted (view s1) p base_ limit i' j') as HP1.
    { rewrite V1. apply (parted_swap _ _ _ _ i j); try done; lia. }
    assert (seg_perm (base_ + 1) limit (view s) (view s1)) as HS1.
    { rewrite V1. apply swap_seg_perm; lia. }
    pose proof (seg_length _ _ _ _ HS1).
    destruct (IH s1 i' j' HP1) as (s2 & i2 & j2 & E2 & HS2 & Hrest); try lia.
    exists s2, i2, j2. split; [done|]. split; [by etransitivity | done].
Qed.

(** Two elements in order; the others stay. *)
Lemma order_pair_spec (s : S) a b x y :
  view s !! a = Some x -> view s !! b = Some y -> a <> b ->
  exists s' x' y', order_pair s a b = Some s' /\
    view s' !! a = Some x' /\ view s' !! b = Some y' /\ (cmp x' y' <= 0)%Z /\
    (forall k, k <> a -> k <> b -> view s' !! k = view s !! k) /\
    ((x' = x /\ y' = y) \/ (x' = y /\ y' = x /\ (cmp y x <= 0)%Z)) /\
    (view s' = view s \/ view s' = swap a b (view s)).
Proof.
  intros Ea Eb Hab. unfold order_pair. rewrite (compar_view _ _ _ _ _ Ea Eb). cbn.
  pose proof (lookup_lt_Some _ _ _ Ea). pose proof (lookup_lt_Some _ _ _ Eb).
  destruct (Z.ltb_spec 0 (cmp x y)) as [Hgt|Hle].
  - destruct (swapr_view s a b) as (s' & E & V); [done | done|].
    assert (cmp y x <= 0)%Z by (apply cmp_flip; lia).
    exists s', y, x. rewrite V, !lookup_swap by done.
    rewrite decide_True by done. rewrite decide_False by done. rewrite decide_True by done.
    do 4 (split; [done|]). split; [|auto].
    intros k Hka Hkb. rewrite lookup_swap by done. by rewrite !decide_False by done.
  - exists s, x, y. auto 10.
Qed.

Lemma order_pair_seg (s s' : S) a b base_ limit :
  (view s' = view s \/ view s' = swap a b (view s)) -> base_ <= a < limit -> base_ <= b < limit ->
  limit <= length (view s) -> seg_perm base_ limit (view s) (view s').
Proof. intros [-> | ->] ? ? ?; [reflexivity | by apply swap_seg_perm]. Qed.

(** The pivot: the second element is not above it, the last one not below. *)
Definition pivoted (l : list A) (p : A) (base_ limit : nat) : Prop :=
  l !! base_ = Some p /\ low l p (base_ + 1) /\ high l p (limit - 1).

Lemma median_spec (s : S) base_ limit :
  T < limit - base_ -> limit <= length (view s) ->
  exists s' p, median s base_ limit = Some s' /\
    seg_perm base_ limit (view s) (view s') /\ pivoted (view s') p base_ limit.
Proof.
  unfold T, median. intros HT Hlim.
  assert ((limit - base_) / 2 < limit - base_) by (apply Nat.div_lt; lia).
  destruct (swapr_view s ((limit - base_) / 2 + base_) base_) as (s1 & E1 & V1); [lia..|].
  rewrite E1. cbn [mbind option_bind].
  assert (seg_perm base_ limit (view s) (view s1)) as S1 by (rewrite V1; apply swap_seg_perm; lia).
  pose proof (seg_length _ _ _ _ S1) as L1.
  destruct (get_elem s1 base_ ltac:(lia)) as [p Ep], (get_elem s1 (base_ + 1) ltac:(lia)) as [x Ex],
    (get_elem s1 (limit - 1) ltac:(lia)) as [z Ez].
  destruct (order_pair_spec s1 (base_ + 1) (limit - 1) x z Ex Ez ltac:(lia))
    as (s2 & x2 & z2 & E2 & X2 & Z2 & C2 & O2 & _ & V2). rewrite E2. cbn [mbind option_bind].
  apply (order_pair_seg s1 s2 _ _ base_ limit) in V2; [|lia..]. pose proof (seg_length _ _ _ _ V2) as L2.
  rewrite <- O2 in Ep by lia.
  destruct (order_pair_spec s2 base_ (limit - 1) p z2 Ep Z2 ltac:(lia))
    as (s3 & p3 & z3 & E3 & P3 & Z3 & C3 & O3 & D3 & V3). rewrite E3. cbn [mbind option_bind].
  apply (order_pair_seg s2 s3 _ _ base_ limit) in V3; [|lia..]. pose proof (seg_length _ _ _ _ V3) as L3.
  rewrite <- O3 in X2 by lia.
  assert (cmp x2 z3 <= 0)%Z as C4.
  { destruct D3 as [[-> ->] | (-> & -> & C)]; [done | by apply (cmp_trans _ z2)]. }
  destruct (order_pair_spec s3 (base_ + 1) base_ x2 p3 X2 P3 ltac:(lia))
    as (s4 & x4 & p4 & E4 & X4 & P4 & C5 & O4 & D4 & V4).
  apply (order_pair_seg s3 s4 _ _ base_ limit) in V4; [|lia..].
  rewrite <- O4 in Z3 by lia.
  exists s4, p4. split; [done|]. split; [by do 3 (etransitivity; [eassumption|])|].
  split; [done|]. split; [intros v Ev; simplify_eq; done|].
  intros v Ev. simplify_eq. apply cmp_flip. destruct D4 as [[-> ->] | (-> & -> & C)]; done.
Qed.

(** Two elements of a partitioned segment are in order, unless they are in the
    same part. *)
Lemma partition_spec (s : S) base_ limit :
  T < limit - base_ -> limit <= length (view s) ->
  exists s' i j, partition s base_ limit = Some (s', i, j) /\
    seg_perm base_ limit (view s) (view s') /\ base_ < j < i /\ i < limit /\
    forall a b, base_ <= a -> a < b -> b < limit -> b < j \/ i <= a \/ le_at (view s') a b.
Proof.
  intros HT Hlim. destruct (median_spec s base_ limit HT Hlim) as (s1 & p & E1 & S1 & Hp & Hlo & Hhi).
  pose proof (seg_length _ _ _ _ S1) as L1. unfold partition. rewrite E1. cbn [mbind option_bind].
  unfold T in HT.
  destruct (partition_loop_spec limit s1 p base_ limit (base_ + 1) (limit - 1))
    as (s2 & i & j & E2 & S2 & P2 & Hj & Hi & Hlow & Hhigh); try lia.
  { split; [done | |].
    - intros k Hk. by replace k with (base_ + 1) by lia.
    - intros k Hk. by replace k with (limit - 1) by lia. }
  pose proof (seg_length _ _ _ _ S2) as L2. rewrite E2. cbn [mbind option_bind].
  destruct (swapr_view s2 base_ j) as (s3 & E3 & V3); [lia..|]. rewrite E3. cbn [mbind option_bind].
  exists s3, i, j. split; [done|]. split.
  { etransitivity; [done|]. etransitivity; [eapply (seg_perm_weaken (base_ + 1) limit); [lia | lia | done]|].
    rewrite V3. apply swap_seg_perm; lia. }
  split; [lia|]. split; [done|].
  assert (view s3 !! j = Some p) as Pj.
  { rewrite V3, lookup_swap by lia. rewrite decide_False by lia. by rewrite decide_True. }
  assert (forall k, base_ <= k < i -> low (view s3) p k) as Hlow3.
  { intros k Hk v. rewrite V3, lookup_swap by lia. repeat case_decide; subst.
    - apply Hlow. lia.
    - rewrite P2. intros [= <-]. destruct (Z.le_ge_cases (cmp p p) 0); [done | by apply cmp_flip].
    - apply Hlow. lia. }
  assert (forall k, j < k < limit -> high (view s3) p k) as Hhigh3.
  { intros k Hk v. rewrite V3, lookup_swap by lia. rewrite !decide_False by lia. apply Hhigh. lia. }
  intros a b Ha Hab Hb. destruct (decide (b < j)) as [|Hbj]; [by left|]. right.
  destruct (decide (i <= a)) as [|Hia]; [by left|]. right.
  destruct (decide (b = j)) as [->|].
  - intros x y Ex Ey. simplify_eq. eapply Hlow3; [|done]. lia.
  - apply (low_high_le _ p); [apply Hlow3; lia | apply Hhigh3; lia].
Qed.

(** *** The insertion sort *)

Definition sorted_on (l : list A) (b e : nat) : Prop := forall i j, b <= i -> i < j -> j < e -> le_at l i j.

(** In order but for the element at [j + 1], which is on its way down. *)
Definition sinking (l : list A) (base_ top j : nat) : Prop :=
  forall a b, base_ <= a -> a < b -> b < top -> b <> j + 1 -> le_at l a b.

Lemma le_at_trans l a b c : b < length l -> le_at l a b -> le_at l b c -> le_at l a c.
Proof.
  intros Hb H1 H2 x z Ex Ez. destruct (lookup_lt_is_Some_2 l b Hb) as [y Ey].
  apply (cmp_trans x y z); [by apply H1 | by apply H2].
Qed.

Lemma sinking_swap l base_ top j x y :
  sinking l base_ top j -> base_ <= j -> j + 1 < top -> top <= length l ->
  l !! j = Some x -> l !! (j + 1) = Some y -> (0 < cmp x y)%Z ->
  forall a b, base_ <= a -> a < b -> b < top -> b <> j -> le_at (swap j (j + 1) l) a b.
Proof.
  intros HS Hj Hjt Htop Ex Ey Hgt a b Ha Hab Hb Hbj u v. rewrite !lookup_swap by lia.
  repeat case_decide; subst; try lia.
  - intros E1 E2. simplify_eq. apply cmp_flip. lia.
  - apply (HS (j + 1) b); lia.
  - apply (HS j b); lia.
  - apply (HS a j); lia.
  - apply (HS a b); lia.
Qed.

Lemma sink_spec j base_ (s : S) top :
  sinking (view s) base_ top j -> base_ <= j -> j + 1 < top -> top <= length (view s) ->
  exists s', sink j base_ s = Some s' /\ seg_perm base_ top (view s) (view s') /\
    sorted_on (view s') base_ top.
Proof.
  revert s. induction j as [|j IH]; intros s HS Hj Hjt Htop.
  all: match goal with |- context [sink ?j _ _] => 
    destruct (get_elem s j ltac:(lia)) as [x Ex], (get_elem s (j + 1) ltac:(lia)) as [y Ey];
    cbn [sink]; rewrite (compar_view _ _ _ _ _ Ex Ey); cbn [mbind option_bind];
    destruct (Z.ltb_spec 0 (cmp x y)) as [Hgt|Hle];
    [ destruct (swapr_view s j (j + 1)) as (s1 & E1 & V1); [lia | lia|]; rewrite E1; cbn [mbind option_bind];
      pose proof (sinking_swap _ _ _ _ _ _ HS Hj Hjt Htop Ex Ey Hgt) as HS1; rewrite <- V1 in HS1;
      assert (seg_perm base_ top (view s) (view s1)) as P1 by (rewrite V1; apply swap_seg_perm; lia);
      pose proof (seg_length _ _ _ _ P1) as L1
    | exists s; split; [done|]; split; [done|]; intros a b Ha Hab Hb;
      destruct (decide (b = j + 1)) as [->|]; [|by apply HS];
      assert (le_at (view s) j (j + 1)) by (intros u v Eu Ev; simplify_eq; done);
      destruct (decide (a = j)) as [->|]; [done|];
      apply (le_at_trans _ a j); [lia | apply HS; lia | done] ]
  end.
  - destruct (Nat.eqb_spec 0 base_); [|lia]. exists s1. split; [done|]. split; [done|].
    intros a b Ha Hab Hb. apply HS1; lia.
  - destruct (Nat.eqb_spec (Datatypes.S j) base_).
    + exists s1. split; [done|]. split; [done|]. intros a b Ha Hab Hb. apply HS1; lia.
    + destruct (IH s1) as (s2 & E2 & P2 & HS2); try lia.
      * intros a b Ha Hab Hb Hbj. apply HS1; lia.
      * exists s2. split; [done|]. split; [by etransitivity | done].
Qed.

Lemma insertion_spec n (s : S) base_ j :
  sorted_on (view s) base_ (j + 1) -> base_ <= j -> j + 1 + n <= length (view s) ->
  exists s', insertion n s base_ j = Some s' /\ seg_perm base_ (j + 1 + n) (view s) (view s') /\
    sorted_on (view s') base_ (j + 1 + n).
Proof.
  revert s j. induction n as [|n IH]; intros s j HS Hj Hn.
  { exists s. rewrite Nat.add_0_r. split; [done|]. split; [done | done]. }
  cbn [insertion]. destruct (sink_spec j base_ s (j + 2)) as (s1 & E1 & P1 & S1); try lia.
  { intros a b Ha Hab Hb Hbj. apply HS; lia. }
  pose proof (seg_length _ _ _ _ P1) as L1. rewrite E1. cbn [mbind option_bind].
  destruct (IH s1 (j + 1)) as (s2 & E2 & P2 & S2); [by replace (j + 1 + 1) with (j + 2) by lia | lia | lia|].
  replace (j + 1 + 1 + n) with (j + 1 + Datatypes.S n) in * by lia.
  exists s2. split; [done|]. split; [|done].
  etransitivity; [eapply (seg_perm_weaken base_ (j + 2)); [lia | lia | done] | done].
Qed.

(** *** The pending segments *)

(** In order, but for the pairs of elements in one pending segment. *)
Definition ordered_except (pend : list (nat * nat)) (l : list A) : Prop :=
  forall a b, a < b -> b < length l -> le_at l a b \/ exists seg, seg ∈ pend /\ seg.1 <= a /\ b < seg.2.

Definition apart (x y : nat * nat) : Prop := x.2 <= y.1 \/ y.2 <= x.1.

Record pending (n : nat) (pend : list (nat * nat)) : Prop := Pending {
  pending_within : Forall (fun seg => seg.1 <= seg.2 <= n) pend;
  pending_apart : ForallOrdPairs apart pend
}.

Lemma apart_cons x st :
  ForallOrdPairs apart (x :: st) <-> (forall y, y ∈ st -> apart x y) /\ ForallOrdPairs apart st.
Proof.
  split.
  - intros HA. inversion HA as [|? ? HF HR]; subst. by rewrite Forall_forall in HF.
  - intros [HF HR]. constructor; [by apply Forall_forall | done].
Qed.

Lemma ordered_rearrange b e st l l' :
  pending (length l) ((b, e) :: st) -> ordered_except ((b, e) :: st) l -> seg_perm b e l l' ->
  ordered_except ((b, e) :: st) l'.
Proof.
  intros [Hw Ha] HO HS a c Hac Hc. pose proof (seg_length _ _ _ _ HS) as HL. rewrite HL in Hc.
  apply apart_cons in Ha as [Ha _]. destruct HS as [_ Ho Hi].
  destruct (decide (b <= a < e)) as [Ia|Oa], (decide (b <= c < e)) as [Ic|Oc].
  - right. exists (b, e). split; [constructor | cbn; lia].
  - left. destruct (Hi a Ia) as (a' & Ha' & E). intros x y. rewrite E, (Ho c Oc).
    destruct (HO a' c) as [Hle | (seg & [->|Hin]%elem_of_cons & H1 & H2)]; [lia | done | auto | cbn in *; lia |].
    apply Ha in Hin. unfold apart in Hin. cbn in *. lia.
  - left. destruct (Hi c Ic) as (c' & Hc' & E). intros x y. rewrite E, (Ho a Oa).
    apply Forall_cons in Hw as [Hbe _]. cbn in Hbe.
    destruct (HO a c') as [Hle | (seg & [->|Hin]%elem_of_cons & H1 & H2)]; [lia | lia | auto | cbn in *; lia |].
    apply Ha in Hin. unfold apart in Hin. cbn in *. lia.
  - destruct (HO a c Hac Hc) as [Hle|]; [|by right]. left. intros x y. rewrite (Ho a Oa), (Ho c Oc). apply Hle.
Qed.

Lemma ordered_split b e i j st l :
  ordered_except ((b, e) :: st) l ->
  (forall a c, b <= a -> a < c -> c < e -> c < j \/ i <= a \/ le_at l a c) ->
  forall pend, (b, j) ∈ pend -> (i, e) ∈ pend -> st ⊆ pend -> ordered_except pend l.
Proof.
  intros HO Hsplit pend H1 H2 H3 a c Hac Hc.
  destruct (HO a c Hac Hc) as [|(seg & [->|Hin]%elem_of_cons & Ha & He)]; [by left | |].
  - cbn in *. destruct (Hsplit a c Ha Hac He) as [Hj | [Hi | Hle]]; [right.. | by left].
    + by exists (b, j).
    + by exists (i, e).
  - right. exists seg. split; [by apply H3 | done].
Qed.

Lemma pending_split n b e i j st :
  pending n ((b, e) :: st) -> b < j < i -> i < e ->
  pending n ((b, j) :: (i, e) :: st) /\ pending n ((i, e) :: (b, j) :: st).
Proof.
  intros [[Hbe Hw]%Forall_cons [Ha Hst]%apart_cons] Hj Hi. cbn in Hbe.
  assert (forall y, y ∈ st -> apart (b, j) y /\ apart (i, e) y) as Hparts.
  { intros y Hy. specialize (Ha y Hy). unfold apart in *. cbn in *. lia. }
  assert (apart (b, j) (i, e) /\ apart (i, e) (b, j)) as [A1 A2] by (unfold apart; cbn; lia).
  split; (split; [repeat (apply Forall_cons; split; [cbn; lia|]); done|]);
    (apply apart_cons; split; [intros y [->|Hy]%elem_of_cons; [done | by apply Hparts]|]);
    (apply apart_cons; split; [intros y Hy; by apply Hparts | done]).
Qed.

(** The pairs of a segment that has been sorted need no exception. *)
Lemma ordered_done b e st l :
  ordered_except ((b, e) :: st) l -> sorted_on l b e -> ordered_except st l.
Proof.
  intros HO HS a c Hac Hc. destruct (HO a c Hac Hc) as [|(seg & [->|Hin]%elem_of_cons & Ha & He)];
    [by left | left; by apply HS | right; by exists seg].
Qed.

(** *** The stack *)

Definition extent (seg : nat * nat) : nat := seg.2 - seg.1.

(** A segment above [d] others has been halved [d] times. *)
Fixpoint halved (n : nat) (pend : list (nat * nat)) : Prop :=
  match pend with
  | [] => True
  | seg :: st => (Z.of_nat (extent seg) * 2 ^ Z.of_nat (length st) <= Z.of_nat n)%Z /\ halved n st
  end.

Fixpoint measure (pend : list (nat * nat)) : nat :=
  match pend with [] => 0 | seg :: st => 2 * extent seg + 1 + measure st end.

Lemma halved_push n seg big small st :
  halved n (seg :: st) -> extent big <= extent seg -> 2 * extent small <= extent seg ->
  halved n (small :: big :: st).
Proof.
  cbn [halved length]. intros [H1 H2] Hbig Hsmall. split; [|split; [|done]].
  - rewrite Nat2Z.inj_succ, Z.pow_succ_r by lia. nia.
  - nia.
Qed.

Lemma push_ok n seg st b e :
  halved n (seg :: st) -> T < extent seg -> (Z.of_nat n < 2 ^ 35)%Z -> push st b e = Some ((b, e) :: st).
Proof.
  unfold push, T, STACKSIZE. cbn [halved]. intros [H1 _] HT Hn.
  destruct (Nat.leb_spec (2 * length st + 2) 64) as [|Hover]; [done|].
  assert (2 ^ 32 <= 2 ^ Z.of_nat (length st))%Z by (apply Z.pow_le_mono_r; lia). lia.
Qed.

(** *** The whole sort *)

Lemma insertion_segment (s : S) b e :
  b <= e -> e <= length (view s) ->
  exists s', insertion (e - (b + 1)) s b b = Some s' /\ seg_perm b e (view s) (view s') /\
    sorted_on (view s') b e.
Proof.
  intros Hbe He. destruct (decide (e <= b + 1)) as [Hsmall|Hlarge].
  - replace (e - (b + 1)) with 0 by lia. exists s. split; [done|]. split; [done|]. intros x y ? ? ?. lia.
  - destruct (insertion_spec (e - (b + 1)) s b b) as (s' & E & P & HS); [intros x y ? ? ?; lia | lia | lia|].
    replace (b + 1 + (e - (b + 1))) with e in * by lia. eauto.
Qed.

Lemma qsort_loop_spec fuel (s : S) b e st n :
  n = length (view s) -> (Z.of_nat n < 2 ^ 35)%Z ->
  pending n ((b, e) :: st) -> ordered_except ((b, e) :: st) (view s) -> halved n ((b, e) :: st) ->
  measure ((b, e) :: st) <= fuel ->
  exists s', qsort_loop fuel s b e st = Some s' /\ view s' ≡ₚ view s /\ ordered_except [] (view s').
Proof.
  intros Hn Hbound. revert s b e st Hn.
  induction fuel as [|fuel IH]; intros s b e st -> HP HO HH Hf; [cbn in Hf; lia|].
  pose proof (pending_within _ _ HP) as [Hbe Hst]%Forall_cons. cbn in Hbe. cbn [qsort_loop].
  destruct (Nat.ltb_spec T (e - b)) as [HT|HT].
  - destruct (partition_spec s b e HT ltac:(lia)) as (s1 & i & j & E1 & P1 & Hj & Hi & Hsplit).
    rewrite E1. cbn [mbind option_bind]. pose proof (seg_length _ _ _ _ P1) as L1.
    apply (ordered_rearrange b e st _ _ HP) in P1 as HO1; [|done].
    destruct (pending_split _ _ _ _ _ _ HP Hj Hi) as [HP1 HP2].
    destruct (Nat.ltb_spec (e - i) (j - b)) as [Hleft|Hright];
      rewrite (push_ok _ _ _ _ _ HH HT Hbound); cbn [mbind option_bind]; cbn [measure] in Hf; unfold extent in Hf; cbn [fst snd] in Hf.
    + destruct (IH s1 i e ((b, j) :: st)) as (s2 & E2 & P2 & HO2); try done.
      * eapply ordered_split; [done | done | set_solver..].
      * eapply halved_push; [done | unfold extent; cbn; lia | unfold extent; cbn; lia].
      * cbn [measure]. unfold extent. cbn [fst snd]. lia.
      * exists s2. split; [done|]. split; [|done]. by rewrite P2, (seg_perm_all _ _ _ _ P1).
    + destruct (IH s1 b j ((i, e) :: st)) as (s2 & E2 & P2 & HO2); try done.
      * eapply ordered_split; [done | done | set_solver..].
      * eapply halved_push; [done | unfold extent; cbn; lia | unfold extent; cbn; lia].
      * cbn [measure]. unfold extent. cbn [fst snd]. lia.
      * exists s2. split; [done|]. split; [|done]. by rewrite P2, (seg_perm_all _ _ _ _ P1).
  - destruct (insertion_segment s b e ltac:(lia) ltac:(lia)) as (s1 & E1 & P1 & HS1).
    rewrite E1. cbn [mbind option_bind]. pose proof (seg_length _ _ _ _ P1) as L1.
    apply (ordered_rearrange b e st _ _ HP) in P1 as HO1; [|done]. apply ordered_done in HO1; [|done].
    destruct st as [|[b' e'] st].
    + exists s1. split; [done|]. split; [by apply (seg_perm_all _ _ _ _ P1) | done].
    + cbn [measure] in Hf; unfold extent in Hf; cbn [fst snd] in Hf. destruct HP as [_ [_ Ha]%apart_cons].
      destruct (IH s1 b' e' st) as (s2 & E2 & P2 & HO2); try done.
      * by apply HH.
      * cbn [measure]. unfold extent. cbn [fst snd]. lia.
      * exists s2. split; [done|]. split; [|done]. by rewrite P2, (seg_perm_all _ _ _ _ P1).
Qed.

Lemma ordered_sorted l : ordered_except [] l -> StronglySorted (fun a b => cmp a b <= 0)%Z l.
Proof.
  induction l as [|x l IH]; intros HO; constructor.
  - apply IH. intros a b Hab Hb. destruct (HO (a + 1) (b + 1)) as [Hle | (seg & Hin & _)]; [lia | cbn; lia | | set_solver].
    left. intros u v Eu Ev. apply Hle; by rewrite Nat.add_1_r.
  - apply Forall_forall. intros y Hy. apply list_elem_of_lookup in Hy as [k Ek].
    pose proof (lookup_lt_Some _ _ _ Ek).
    destruct (HO 0 (k + 1)) as [Hle | (seg & Hin & _)]; [lia | cbn; lia | | set_solver].
    apply Hle; [done | by rewrite Nat.add_1_r].
Qed.

Lemma qsort_gen_spec (s : S) :
  (Z.of_nat (length (view s)) < 2 ^ 35)%Z ->
  exists s', qsort_gen s (length (view s)) = Some s' /\ view s' ≡ₚ view s /\
    StronglySorted (fun a b => cmp a b <= 0)%Z (view s').
Proof.
  intros Hn. destruct (qsort_loop_spec (2 * length (view s) + 2) s 0 (length (view s)) [] (length (view s)))
    as (s' & E & P & HO); try done.
  - split; [repeat constructor; cbn; lia | repeat constructor].
  - intros a b Hab Hb. right. exists (0, length (view s)). split; [constructor | cbn; lia].
  - unfold halved, extent; cbn [fst snd length]. lia.
  - cbn [measure]. unfold extent. cbn [fst snd]. lia.
  - exists s'. split; [done|]. split; [done|]. by apply ordered_sorted.
Qed.
End Correct.

(** ** What the sort leaves alone *)

Section Preserves.
Context {S : Type} {ops : Sortable S} (R : S -> S -> Prop) `{!PreOrder R}.
Hypothesis swapr_R : forall s i j s', swapr s i j = Some s' -> R s s'.

Lemma order_pair_R s a b s' : order_pair s a b = Some s' -> R s s'.
Proof using All.
  unfold order_pair. intros (c & _ & E)%bind_Some. case_match; [eauto | by simplify_eq].
Qed.

Lemma median_R s b e s' : median s b e = Some s' -> R s s'.
Proof using All.
  unfold median. intros (s1 & E1 & (s2 & E2 & (s3 & E3 & E4)%bind_Some)%bind_Some)%bind_Some.
  etransitivity; [by eapply swapr_R|]. do 2 (etransitivity; [by eapply order_pair_R|]). by eapply order_pair_R.
Qed.

Lemma partition_loop_R fuel s b i j r : partition_loop fuel s b i j = Some r -> R s r.1.1.
Proof using All.
  revert s i j. induction fuel as [|fuel IH]; intros s i j; [done|]. cbn [partition_loop].
  intros (i' & _ & (j' & _ & E)%bind_Some)%bind_Some. case_match; [by simplify_eq|].
  apply bind_Some in E as (s1 & E1 & E2). etransitivity; [by eapply swapr_R | by eapply IH].
Qed.

Lemma partition_R s b e r : partition s b e = Some r -> R s r.1.1.
Proof using All.
  unfold partition. intros (s1 & E1 & ([[s2 i] j] & E2 & (s3 & E3 & E4)%bind_Some)%bind_Some)%bind_Some.
  simplify_eq/=. etransitivity; [by eapply median_R|].
  etransitivity; [by eapply (partition_loop_R _ _ _ _ _ _ E2) | by eapply swapr_R].
Qed.

Lemma sink_R j b s s' : sink j b s = Some s' -> R s s'.
Proof using All.
  revert s. induction j as [|j IH]; intros s; cbn [sink]; intros (c & _ & E)%bind_Some;
    (case_match; [|by simplify_eq]); apply bind_Some in E as (s1 & E1 & E2).
  all: etransitivity; [by eapply swapr_R|]; case_match; simplify_eq; try done.
  by eapply IH.
Qed.

Lemma insertion_R n s b j s' : insertion n s b j = Some s' -> R s s'.
Proof using All.
  revert s j. induction n as [|n IH]; intros s j; cbn [insertion]; [intros; by simplify_eq|].
  intros (s1 & E1 & E2)%bind_Some. etransitivity; [by eapply sink_R | by eapply IH].
Qed.

Lemma qsort_loop_R fuel s b e st s' : qsort_loop fuel s b e st = Some s' -> R s s'.
Proof using All.
  revert s b e st. induction fuel as [|fuel IH]; intros s b e st; [done|]. cbn [qsort_loop]. case_match.
  - intros ([[s1 i] j] & E1 & E2)%bind_Some. apply partition_R in E1. cbn in E1. etransitivity; [done|].
    case_match; apply bind_Some in E2 as (st' & _ & E2); by eapply IH.
  - intros (s1 & E1%insertion_R & E2)%bind_Some. etransitivity; [done|].
    case_match; [by simplify_eq|]. case_match. by eapply IH.
Qed.

Lemma qsort_gen_R s n s' : qsort_gen s n = Some s' -> R s s'.
Proof using All. apply qsort_loop_R. Qed.
End Preserves.

(** ** Blocks of bytes *)

(** Two blocks that are the same or disjoint exchange their contents, and
    nothing else changes. *)
Lemma memswap_blocks size mem p1 p2 :
  p1 + size <= length mem -> p2 + size <= length mem ->
  p1 = p2 \/ p1 + size <= p2 \/ p2 + size <= p1 ->
  exists mem', qsort_gen_memswap mem p1 p2 size = Some mem' /\ length mem' = length mem /\
    forall k, mem' !! k =
      if decide (p1 <= k < p1 + size) then mem !! (p2 + (k - p1))
      else if decide (p2 <= k < p2 + size) then mem !! (p1 + (k - p2)) else mem !! k.
Proof.
  revert mem p1 p2. induction size as [|size IH]; intros mem p1 p2 H1 H2 Hd; cbn [qsort_gen_memswap].
  { exists mem. split; [done|]. split; [done|]. intros k. by rewrite !decide_False by lia. }
  destruct (lookup_lt_is_Some_2 mem p1 ltac:(lia)) as [x Ex], (lookup_lt_is_Some_2 mem p2 ltac:(lia)) as [y Ey].
  rewrite Ex. cbn [mbind option_bind]. rewrite Ey. cbn [mbind option_bind].
  destruct (IH (<[p2:=x]> (<[p1:=y]> mem)) (p1 + 1) (p2 + 1)) as (mem' & E & HL & Hk);
    rewrite ?length_insert; [lia.. |].
  rewrite !length_insert in HL. exists mem'. split; [done|]. split; [done|]. intros k. rewrite Hk.
  assert (forall m, <[p2:=x]> (<[p1:=y]> mem) !! m =
    if decide (m = p2) then mem !! p1 else if decide (m = p1) then mem !! p2 else mem !! m) as Hm.
  { intros m. repeat case_decide; subst.
    - rewrite list_lookup_insert_eq by (rewrite length_insert; lia). done.
    - rewrite list_lookup_insert_ne, list_lookup_insert_eq by lia. done.
    - by rewrite !list_lookup_insert_ne by done. }
  rewrite !Hm. repeat case_decide; subst; try lia; try done; f_equal; lia.
Qed.
