(* ===== verification/IcalArray.v ===== *)
(** * Dynamic arrays (icalarray.c)

    An array keeps its elements in chunks of [increment_size] elements and
    grows by chunks.  A chunk is a list of slots, one per element; a slot that
    was never written is [None].  A pointer to an element is a chunk number and
    a slot number; a pointer to a chunk that does not exist, a read of a slot
    that was never written and an increment of 0 are the result [None].  The
    operations are shown to implement a list, and the sort to order it through
    the interface of [QsortGen]. *)
From Stdlib Require Import ZArith Lia Permutation Sorting.Sorted.
From stdpp Require Import base option list sets.
From S2P Require Import Prelude QsortGen.

(** ** The code *)

Record icalarray (A : Type) := Icalarray {
  element_size : nat;
  increment_size : nat;
  num_elements : nat;
  space_allocated : nat;
  chunks : option (list (list (option A)))
}.
Arguments Icalarray {A}.
Arguments element_size {A}.
Arguments increment_size {A}.
Arguments num_elements {A}.
Arguments space_allocated {A}.
Arguments chunks {A}.

Section Operations.
Context {A : Type}.
Implicit Types a : icalarray A.

Definition set_num_elements (n : nat) a : icalarray A :=
  Icalarray (element_size a) (increment_size a) n (space_allocated a) (chunks a).
Definition set_chunks cs a : icalarray A :=
  Icalarray (element_size a) (increment_size a) (num_elements a) (space_allocated a) cs.

Definition icalarray_new (element_size increment_size : nat) : icalarray A :=
  Icalarray element_size increment_size 0 0 None.

(** A fresh chunk is not initialised. *)
Definition icalarray_alloc_chunk a : list (option A) := replicate (increment_size a) None.

Definition icalarray_copy a : option (icalarray A) :=
  if increment_size a =? 0 then None else
  let n := space_allocated a / increment_size a in
  cs ← mapM (fun chunk => cs ← chunks a; cs !! chunk) (seq 0 n);
  Some (Icalarray (element_size a) (increment_size a) (num_elements a) (space_allocated a) (Some cs)).

Definition icalarray_expand a (space_needed : nat) : option (icalarray A) :=
  if increment_size a =? 0 then None else
  let num_chunks := space_allocated a / increment_size a in
  let num_new_chunks := (space_needed + increment_size a - 1) / increment_size a in
  let num_new_chunks := if num_new_chunks =? 0 then 1 else num_new_chunks in
  old ← match chunks a with
        | Some cs => if num_chunks <=? length cs then Some (take num_chunks cs) else None
        | None => Some (replicate num_chunks [])
        end;
  let new_chunks := old ++ replicate num_new_chunks (icalarray_alloc_chunk a) in
  Some (Icalarray (element_size a) (increment_size a) (num_elements a)
          (space_allocated a + num_new_chunks * increment_size a) (Some new_chunks)).

(** The address of an element: [array->chunks[chunk]] is read. *)
Definition icalarray_element_at a (position : nat) : option (nat * nat) :=
  if increment_size a =? 0 then None else
  let chunk := position / increment_size a in
  let offset := position mod increment_size a in
  cs ← chunks a;
  _ ← cs !! chunk;
  Some (chunk, offset).

(** Reading and writing the slot at an address. *)
Definition load_slot a (p : nat * nat) : option (option A) :=
  cs ← chunks a; ch ← cs !! p.1; ch !! p.2.
Definition store_slot a (p : nat * nat) (x : option A) : option (icalarray A) :=
  cs ← chunks a;
  ch ← cs !! p.1;
  _ ← ch !! p.2;
  Some (set_chunks (Some (<[p.1 := <[p.2 := x]> ch]> cs)) a).

(** The value of the element at a position. *)
Definition load_at a (position : nat) : option A :=
  p ← icalarray_element_at a position; x ← load_slot a p; x.

Definition icalarray_append a (element : A) : option (icalarray A) :=
  a ← (if space_allocated a <=? num_elements a then icalarray_expand a 1 else Some a);
  let pos := num_elements a in
  let a := set_num_elements (pos + 1) a in
  p ← icalarray_element_at a pos;
  store_slot a p (Some element).

(** The elements after the position move down while [position < bound]. *)
Fixpoint remove_loop (fuel : nat) a (position : nat) (bound : Z) : option (icalarray A) :=
  match fuel with
  | O => None
  | S k =>
      if (Z.of_nat position <? bound)%Z then
        dst ← icalarray_element_at a position;
        src ← icalarray_element_at a (position + 1);
        x ← load_slot a src;
        a ← store_slot a dst x;
        remove_loop k a (position + 1) bound
      else Some a
  end.

(** [num_elements - 1] is computed on [size_t]. *)
Definition icalarray_remove_element_at a (position : nat) : option (icalarray A) :=
  a ← remove_loop (S (num_elements a + space_allocated a)) a position
        (to_unsigned 64 (Z.of_nat (num_elements a) - 1));
  Some (set_num_elements (Z.to_nat (to_unsigned 64 (Z.of_nat (num_elements a) - 1))) a).

Section Sort.
Variable compare : A -> A -> Z.

Definition icalarray_fcompare a (i j : nat) : option Z :=
  x ← load_at a i; y ← load_at a j; Some (compare x y).

Definition icalarray_fswap a (i j : nat) : option (icalarray A) :=
  pI ← icalarray_element_at a i;
  pJ ← icalarray_element_at a j;
  x ← load_slot a pI;
  y ← load_slot a pJ;
  a ← store_slot a pI y;
  store_slot a pJ x.

#[local] Instance icalarray_sortable : Sortable (icalarray A) :=
  {| compar := icalarray_fcompare; swapr := icalarray_fswap |}.

Definition icalarray_sort a : option (icalarray A) :=
  if num_elements a <=? 1 then Some a else qsort_gen a (num_elements a).
End Sort.
End Operations.

(** ** Slots by position *)

Section Slots.
Context {A : Type}.
Implicit Types a : icalarray A.

Definition slot_at a (pos : nat) : option (option A) := p ← icalarray_element_at a pos; load_slot a p.

Lemma load_at_slot a pos : load_at a pos = mjoin (slot_at a pos).
Proof.
  unfold load_at, slot_at. destruct (icalarray_element_at a pos) as [p|]; [|done]. cbn.
  by destruct (load_slot a p).
Qed.

(** The parts of an array a write to a slot leaves. *)
Definition same_shape a a' : Prop :=
  element_size a' = element_size a /\ increment_size a' = increment_size a /\
  num_elements a' = num_elements a /\ space_allocated a' = space_allocated a /\
  length <$> default [] (chunks a') = length <$> default [] (chunks a).

#[export] Instance same_shape_equivalence : Equivalence same_shape.
Proof. unfold same_shape. split; repeat intro; naive_solver congruence. Qed.

Lemma slot_at_lookup a pos :
  slot_at a pos =
  if increment_size a =? 0 then None else
  ch ← default [] (chunks a) !! (pos / increment_size a); ch !! (pos mod increment_size a).
Proof.
  unfold slot_at, icalarray_element_at, load_slot. destruct (Nat.eqb_spec (increment_size a) 0); [done|].
  destruct (chunks a) as [cs|]; cbn; [|done]. destruct (cs !! (pos / _)) eqn:E; cbn; [|done]. by rewrite E.
Qed.

Lemma position_inj d i j : d <> 0 -> i / d = j / d -> i mod d = j mod d -> i = j.
Proof. intros Hd H1 H2. rewrite (Nat.div_mod i d), (Nat.div_mod j d) by done. congruence. Qed.

Lemma element_at_address a pos p :
  icalarray_element_at a pos = Some p -> p = (pos / increment_size a, pos mod increment_size a).
Proof.
  unfold icalarray_element_at. destruct (increment_size a =? 0); [done|].
  destruct (chunks a) as [cs|]; cbn; [|done]. destruct (cs !! _); cbn; congruence.
Qed.

(** Writing through the address of an element replaces its slot. *)
Lemma store_at a pos x y :
  slot_at a pos = Some y ->
  exists p a', icalarray_element_at a pos = Some p /\ store_slot a p x = Some a' /\ same_shape a a' /\
    forall k, slot_at a' k = if decide (k = pos) then Some x else slot_at a k.
Proof.
  intros E. rewrite slot_at_lookup in E. unfold icalarray_element_at, store_slot.
  destruct (Nat.eqb_spec (increment_size a) 0) as [|Hd]; [done|].
  destruct (chunks a) as [cs|] eqn:Ec; cbn in *; [|done].
  destruct (cs !! (pos / _)) as [ch|] eqn:Ech; cbn in *; [|done].
  eexists (_, _), _. split; [done|]. cbn. rewrite Ech. cbn. rewrite E. cbn. split; [done|].
  split; [|intros k; rewrite !slot_at_lookup; cbn].
  - unfold same_shape, set_chunks. cbn. rewrite Ec. cbn. split_and!; try done.
    rewrite list_fmap_insert, length_insert. apply list_insert_id. by rewrite list_lookup_fmap, Ech.
  - rewrite Ec. cbn. destruct (Nat.eqb_spec (increment_size a) 0); [done|].
    pose proof (lookup_lt_Some _ _ _ Ech). pose proof (lookup_lt_Some _ _ _ E).
    destruct (decide (k = pos)) as [->|Hk].
    + rewrite list_lookup_insert_eq by done. cbn. by apply list_lookup_insert_eq.
    + destruct (decide (k / increment_size a = pos / increment_size a)) as [Hq|Hq].
      * rewrite Hq, list_lookup_insert_eq by done. rewrite Ech. cbn. apply list_lookup_insert_ne.
        intros Hm. apply Hk. by apply (position_inj (increment_size a)).
      * by rewrite list_lookup_insert_ne by done.
Qed.

(** A position below the allocated space has a slot. *)
Record array_ok a : Prop := ArrayOk {
  ok_increment : 0 < increment_size a;
  ok_chunks : Forall (fun ch => length ch = increment_size a) (default [] (chunks a));
  ok_space : space_allocated a = length (default [] (chunks a)) * increment_size a;
  ok_fits : num_elements a <= space_allocated a
}.

Lemma slot_exists a pos : array_ok a -> pos < space_allocated a -> exists y, slot_at a pos = Some y.
Proof.
  intros [Hi Hc Hs _] Hp. rewrite slot_at_lookup. destruct (Nat.eqb_spec (increment_size a) 0); [lia|].
  rewrite Hs in Hp. destruct (lookup_lt_is_Some_2 (default [] (chunks a)) (pos / increment_size a)) as [ch Ech].
  { apply Nat.Div0.div_lt_upper_bound. lia. }
  rewrite Ech. cbn. apply lookup_lt_is_Some_2. rewrite Forall_lookup in Hc. rewrite (Hc _ _ Ech).
  by apply Nat.mod_upper_bound.
Qed.

Lemma slot_below a pos y : array_ok a -> slot_at a pos = Some y -> pos < space_allocated a.
Proof.
  intros [Hi Hc Hs _] E. rewrite slot_at_lookup in E. destruct (Nat.eqb_spec (increment_size a) 0); [lia|].
  destruct (default [] (chunks a) !! (pos / increment_size a)) as [ch|] eqn:Ech; [|done].
  apply lookup_lt_Some in Ech. rewrite Hs.
  pose proof (Nat.div_mod pos (increment_size a) ltac:(lia)). pose proof (Nat.mod_upper_bound pos (increment_size a) ltac:(lia)). nia.
Qed.

Lemma shape_ok a a' : same_shape a a' -> array_ok a -> array_ok a'.
Proof.
  intros (_ & Hi & Hn & Hs & Hl) [? Hc ? ?].
  assert (length (default [] (chunks a')) = length (default [] (chunks a))) as HL.
  { by rewrite <- (length_fmap length), Hl, length_fmap. }
  split; rewrite ?Hi, ?Hn, ?Hs, ?HL; try done.
  rewrite Forall_lookup in *. intros k ch Ek. apply (f_equal (fun l => l !! k)) in Hl.
  rewrite !list_lookup_fmap, Ek in Hl. cbn in Hl. destruct (default [] (chunks a) !! k) as [ch'|] eqn:Ek'; [|done].
  cbn in Hl. injection Hl as ->. by apply (Hc k).
Qed.
End Slots.

(** ** Arrays as lists *)

Section Refinement.
Context {A : Type}.
Implicit Types a : icalarray A.

Record represents a (l : list A) : Prop := Represents {
  rep_ok : array_ok a;
  rep_length : num_elements a = length l;
  rep_at i : i < length l -> slot_at a i = Some (l !! i)
}.

Lemma rep_load a l i : represents a l -> i < length l -> load_at a i = l !! i.
Proof. intros HR Hi. by rewrite load_at_slot, (rep_at _ _ HR). Qed.

Lemma set_num_slots a n i : slot_at (set_num_elements n a) i = slot_at a i.
Proof. done. Qed.

Lemma new_represents esize incr : 0 < incr -> represents (icalarray_new esize incr) [].
Proof. intros Hi. split; [split; cbn; auto; lia | done | cbn; lia]. Qed.

(** Growing keeps the slots and adds room. *)
Lemma expand_ok a :
  array_ok a ->
  exists a', icalarray_expand a 1 = Some a' /\ array_ok a' /\ num_elements a' = num_elements a /\
    space_allocated a' = space_allocated a + increment_size a /\
    forall i, i < space_allocated a -> slot_at a' i = slot_at a i.
Proof.
  intros HA. pose proof HA as [Hi Hc Hs Hf]. unfold icalarray_expand.
  destruct (Nat.eqb_spec (increment_size a) 0); [lia|].
  assert (space_allocated a / increment_size a = length (default [] (chunks a))) as ->
    by (rewrite Hs; by apply Nat.div_mul).
  replace (1 + increment_size a - 1) with (increment_size a) by lia. rewrite Nat.div_same by done.
  assert ((match chunks a with
           | Some cs => if length (default [] (chunks a)) <=? length cs
                        then Some (take (length (default [] (chunks a))) cs) else None
           | None => Some (replicate (length (default [] (chunks a))) [])
           end) = Some (default [] (chunks a))) as ->.
  { destruct (chunks a) as [cs|]; cbn; [|done]. by rewrite Nat.leb_refl, firstn_all. }
  cbn. eexists. split; [done|]. split; [|split; [done|]; split; [cbn; lia|]].
  - split; cbn; [done | | rewrite length_app; cbn; lia | lia].
    apply Forall_app. split; [done|]. constructor; [|done]. apply length_replicate.
  - intros i Hlt. rewrite !slot_at_lookup. cbn. destruct (Nat.eqb_spec (increment_size a) 0); [done|].
    rewrite lookup_app_l; [done|]. rewrite Hs in Hlt. apply Nat.Div0.div_lt_upper_bound. lia.
Qed.

(** Room for one more element. *)
Lemma room_ok a l :
  represents a l ->
  exists a', (if space_allocated a <=? num_elements a then icalarray_expand a 1 else Some a) = Some a' /\
    represents a' l /\ length l < space_allocated a'.
Proof.
  intros HR. pose proof HR as [HA HN HS]. pose proof HA as [Hi Hc Hsp Hf].
  destruct (Nat.leb_spec (space_allocated a) (num_elements a)) as [Hfull|Hroom].
  - destruct (expand_ok a HA) as (a' & E & HA' & HN' & HS' & Hsame). exists a'. split; [done|].
    split; [|lia]. split; [done | by rewrite HN' | intros i Hlt; rewrite Hsame by lia; by apply HS].
  - exists a. split; [done|]. split; [done | lia].
Qed.

Lemma append_represents a l x :
  represents a l -> exists a', icalarray_append a x = Some a' /\ represents a' (l ++ [x]).
Proof.
  intros HR. unfold icalarray_append. destruct (room_ok a l HR) as (a1 & -> & [HA HN HS] & Hroom). cbn.
  rewrite HN. destruct (slot_exists a1 (length l) HA Hroom) as [y Ey].
  destruct (store_at (set_num_elements (length l + 1) a1) (length l) (Some x) y Ey) as (p & a2 & Ep & Es & Hsh & Hslot).
  rewrite Ep. cbn. exists a2. split; [done|].
  assert (array_ok (set_num_elements (length l + 1) a1)) as HA1.
  { destruct HA as [? ? ? ?]. split; try done. cbn. lia. }
  split.
  - by apply (shape_ok _ _ Hsh).
  - destruct Hsh as (_ & _ & -> & _). rewrite length_app. cbn. lia.
  - intros i Hi. rewrite length_app in Hi. cbn in Hi. rewrite Hslot. case_decide as Hd; [subst|].
    + by rewrite lookup_app_r, Nat.sub_diag by lia.
    + rewrite lookup_app_l by lia. rewrite set_num_slots. apply HS. lia.
Qed.

(** The loop of the removal: the slots from [pos] to [bound] move down. *)
Lemma remove_loop_spec fuel a pos bound :
  array_ok a -> bound < space_allocated a -> bound - pos < fuel ->
  exists a', remove_loop fuel a pos (Z.of_nat bound) = Some a' /\ same_shape a a' /\
    forall k, slot_at a' k = if decide (pos <= k < bound) then slot_at a (k + 1) else slot_at a k.
Proof.
  revert a pos. induction fuel as [|fuel IH]; intros a pos HA Hb Hf; [lia|]. cbn [remove_loop].
  destruct (Z.ltb_spec (Z.of_nat pos) (Z.of_nat bound)) as [Hlt|Hge].
  - destruct (slot_exists a pos HA ltac:(lia)) as [y Ey].
    destruct (slot_exists a (pos + 1) HA ltac:(lia)) as [x Ex].
    destruct (store_at a pos x y Ey) as (p & a1 & Ep & Es & Hsh & Hslot).
    rewrite Ep. cbn [mbind option_bind]. pose proof Ex as Ex'. unfold slot_at in Ex'.
    destruct (icalarray_element_at a (pos + 1)) as [q|]; [|done]. cbn [mbind option_bind] in *.
    rewrite Ex'. cbn [mbind option_bind]. rewrite Es. cbn [mbind option_bind].
    destruct (IH a1 (pos + 1)) as (a2 & E2 & Hsh2 & Hslot2); [by apply (shape_ok a) | | lia|].
    { destruct Hsh as (_ & _ & _ & -> & _). lia. }
    exists a2. split; [done|]. split; [by etransitivity|]. intros k. rewrite Hslot2, !Hslot.
    repeat case_decide; subst; try lia; done.
  - exists a. split; [done|]. split; [done|]. intros k. case_decide; [lia | done].
Qed.

(** [num_elements - 1] on an array that is not empty. *)
Lemma size_pred n : 0 < n -> (Z.of_nat n < 2 ^ 64)%Z -> to_unsigned 64 (Z.of_nat n - 1) = Z.of_nat (n - 1).
Proof. intros H1 H2. unfold to_unsigned. rewrite Z.mod_small by lia. lia. Qed.

(** The elements after a position move down; a position past the end drops the
    last element. *)
Definition remove_at (pos : nat) (l : list A) : list A :=
  if pos <? length l then take pos l ++ drop (S pos) l else take (length l - 1) l.

Lemma lookup_remove_at pos l k :
  k < length l - 1 -> remove_at pos l !! k = if decide (pos <= k) then l !! (k + 1) else l !! k.
Proof.
  intros Hk. unfold remove_at. destruct (Nat.ltb_spec pos (length l)) as [Hp|Hp].
  - case_decide.
    + rewrite lookup_app_r by (rewrite length_take; lia). rewrite length_take, lookup_drop. f_equal. lia.
    + rewrite lookup_app_l by (rewrite length_take; lia). by rewrite lookup_take_lt by lia.
  - rewrite lookup_take_lt by lia. by rewrite decide_False by lia.
Qed.

Lemma length_remove_at pos l : length (remove_at pos l) = length l - 1.
Proof.
  unfold remove_at. destruct (Nat.ltb_spec pos (length l)).
  - rewrite length_app, length_take, length_drop. lia.
  - rewrite length_take. lia.
Qed.

Lemma remove_represents a l pos :
  represents a l -> l <> [] -> (Z.of_nat (length l) < 2 ^ 64)%Z ->
  exists a', icalarray_remove_element_at a pos = Some a' /\ represents a' (remove_at pos l).
Proof.
  intros [HA HN HS] Hne Hlen. assert (0 < length l) by (destruct l; [done | cbn; lia]).
  pose proof (ok_fits a HA) as Hf. unfold icalarray_remove_element_at. rewrite HN, size_pred by done.
  destruct (remove_loop_spec (S (length l + space_allocated a)) a pos (length l - 1) HA) as (a1 & E1 & Hsh & Hslot);
    [lia | lia|].
  rewrite E1. cbn [mbind option_bind]. eexists. split; [done|].
  pose proof (shape_ok _ _ Hsh HA) as HA1. destruct Hsh as (_ & _ & Hn1 & Hs1 & _).
  rewrite Hn1, HN, size_pred, Nat2Z.id by done. split.
  - destruct HA1 as [? ? ? ?]. split; try done. cbn. lia.
  - by rewrite length_remove_at.
  - intros k Hk. rewrite length_remove_at in Hk. rewrite set_num_slots, Hslot, lookup_remove_at by done.
    repeat case_decide; try lia; apply HS; lia.
Qed.

Lemma copy_represents a l :
  represents a l -> exists a', icalarray_copy a = Some a' /\ represents a' l.
Proof.
  intros [HA HN HS]. pose proof HA as [Hi Hc Hs Hf]. unfold icalarray_copy.
  destruct (Nat.eqb_spec (increment_size a) 0); [lia|].
  rewrite Hs, Nat.div_mul by done.
  assert (mapM (fun chunk => cs ← chunks a; cs !! chunk) (seq 0 (length (default [] (chunks a)))) =
          Some (default [] (chunks a))) as ->.
  { apply mapM_Some_2, Forall2_same_length_lookup_2; [by rewrite length_seq|].
    intros k c x [-> Hk]%lookup_seq Ex. destruct (chunks a) as [cs|]; done. }
  cbn [mbind option_bind]. eexists. split; [done|]. split.
  - split; cbn; try done. by rewrite <- Hs.
  - done.
  - intros i Hlt. rewrite <- HS by done. by rewrite !slot_at_lookup.
Qed.
End Refinement.

(** ** Sorting *)

Section Sorting.
Context {A : Type} {compare : A -> A -> Z} {CMP : Comparison compare}.
Implicit Types a : icalarray A.

(** The elements that [element_at] leads to. *)
Definition elements a : list A := default [] (mapM (load_at a) (seq 0 (num_elements a))).

Lemma elements_lookup a i x :
  elements a !! i = Some x -> i < num_elements a /\ length (elements a) = num_elements a /\ load_at a i = Some x.
Proof.
  unfold elements. destruct (mapM (load_at a) (seq 0 (num_elements a))) as [l|] eqn:E; [|done]. cbn.
  apply mapM_Some in E. pose proof (Forall2_length _ _ _ E) as HL. rewrite length_seq in HL. intros Ex.
  destruct (Forall2_lookup_r _ _ _ _ _ E Ex) as (k & [-> Hk]%lookup_seq & HX). done.
Qed.

Lemma elements_intro a l :
  num_elements a = length l -> (forall i, i < length l -> load_at a i = l !! i) -> elements a = l.
Proof.
  intros HN HS. unfold elements. rewrite HN.
  assert (mapM (load_at a) (seq 0 (length l)) = Some l) as ->; [|done].
  apply mapM_Some_2, Forall2_same_length_lookup_2; [by rewrite length_seq|].
  intros i k x [-> Hk]%lookup_seq Ex. cbn. by rewrite HS.
Qed.

Lemma load_slot_some a i x : load_at a i = Some x -> slot_at a i = Some (Some x).
Proof. rewrite load_at_slot. destruct (slot_at a i) as [[y|]|]; cbn; congruence. Qed.

(** The exchange of two elements. *)
Lemma fswap_spec a i j x y :
  load_at a i = Some x -> load_at a j = Some y ->
  exists a', icalarray_fswap a i j = Some a' /\ same_shape a a' /\
    forall k, load_at a' k = if decide (k = j) then Some x else if decide (k = i) then Some y else load_at a k.
Proof.
  intros Ei%load_slot_some Ej%load_slot_some. unfold icalarray_fswap.
  destruct (store_at a i (Some y) _ Ei) as (p & a1 & Ep & E1 & Hsh1 & Hs1).
  assert (slot_at a1 j = Some (Some y)) as Ej1 by (rewrite Hs1; by case_decide).
  destruct (store_at a1 j (Some x) _ Ej1) as (q & a2 & Eq & E2 & Hsh2 & Hs2).
  assert (icalarray_element_at a j = Some q) as Eq'.
  { unfold slot_at in Ej. destruct (icalarray_element_at a j) as [q'|] eqn:E; [|done]. f_equal.
    apply element_at_address in E as ->. apply element_at_address in Eq as ->.
    by destruct Hsh1 as (_ & -> & _). }
  unfold slot_at in Ei, Ej. rewrite Ep in Ei. rewrite Eq' in Ej. rewrite Ep, Eq'. cbn [mbind option_bind] in *. rewrite Ei. cbn [mbind option_bind].
  rewrite Ej. cbn [mbind option_bind]. rewrite E1. cbn [mbind option_bind]. exists a2. split; [done|].
  split; [by etransitivity|]. intros k. rewrite !load_at_slot, Hs2, Hs1. by repeat case_decide.
Qed.

(** Arrays keep the promises the sort relies on. *)
#[local] Instance icalarray_sortable_laws : SortableLaws (icalarray_sortable compare) compare elements.
Proof.
  split; cbn.
  - intros a i j x y (_ & _ & Ex)%elements_lookup (_ & _ & Ey)%elements_lookup. unfold icalarray_fcompare.
    rewrite Ex. cbn [mbind option_bind]. by rewrite Ey.
  - intros a i j [x Ex]%lookup_lt_is_Some_2 [y Ey]%lookup_lt_is_Some_2.
    pose proof (elements_lookup _ _ _ Ex) as (Hi & HL & Lx). pose proof (elements_lookup _ _ _ Ey) as (Hj & _ & Ly).
    destruct (fswap_spec a i j x y Lx Ly) as (a' & E & Hsh & Hl). exists a'. split; [done|].
    destruct Hsh as (_ & _ & Hn & _). apply elements_intro; [by rewrite length_swap, Hn|].
    intros k Hk. rewrite length_swap in Hk. rewrite Hl, lookup_swap by lia.
    repeat case_decide; subst; try congruence.
    destruct (lookup_lt_is_Some_2 (elements a) k ltac:(lia)) as [z Ez]. rewrite Ez.
    by apply elements_lookup in Ez as (_ & _ & ?).
Qed.

Lemma rep_elements a l : represents a l -> elements a = l.
Proof. intros HR. apply elements_intro; [by apply HR | intros i Hi; by apply (rep_load a l)]. Qed.

Lemma store_shape a p x a' : store_slot a p x = Some a' -> same_shape a a'.
Proof.
  unfold store_slot. destruct (chunks a) as [cs|] eqn:Ec; cbn; [|done].
  destruct (cs !! p.1) as [ch|] eqn:Ech; cbn; [|done]. destruct (ch !! p.2) eqn:Es; cbn; [|done]. intros [= <-].
  unfold same_shape, set_chunks. cbn. rewrite Ec. cbn. split_and!; try done.
  rewrite list_fmap_insert, length_insert. apply list_insert_id. by rewrite list_lookup_fmap, Ech.
Qed.

Lemma fswap_shape a i j a' : icalarray_fswap a i j = Some a' -> same_shape a a'.
Proof.
  unfold icalarray_fswap. intros (p & _ & E)%bind_Some. apply bind_Some in E as (q & _ & E).
  apply bind_Some in E as (x & _ & E). apply bind_Some in E as (y & _ & E).
  apply bind_Some in E as (a1 & E1 & E2). etransitivity; by eapply store_shape.
Qed.

Lemma elements_represents a a' :
  array_ok a -> same_shape a a' -> length (elements a') = num_elements a -> represents a' (elements a').
Proof.
  intros HA Hsh HL. pose proof (shape_ok _ _ Hsh HA). destruct Hsh as (_ & _ & Hn & _). split; [done | by rewrite Hn|].
  intros i Hi. destruct (lookup_lt_is_Some_2 _ _ Hi) as [x Ex]. rewrite Ex.
  apply elements_lookup in Ex as (_ & _ & Ex). by apply load_slot_some.
Qed.

Lemma sort_represents a l :
  represents a l -> (Z.of_nat (length l) < 2 ^ 35)%Z ->
  exists a' l', icalarray_sort compare a = Some a' /\ represents a' l' /\ l' ≡ₚ l /\
    StronglySorted (fun x y => compare x y <= 0)%Z l'.
Proof.
  intros HR Hlen. unfold icalarray_sort. rewrite (rep_length _ _ HR). pose proof (rep_elements a l HR) as HE.
  destruct (Nat.leb_spec (length l) 1) as [Hsmall|Hlarge].
  - exists a, l. split; [done|]. split; [done|]. split; [done|].
    destruct l as [|x [|]]; [constructor | repeat constructor | cbn in Hsmall; lia].
  - destruct (qsort_gen_spec (ops := icalarray_sortable compare) (cmp := compare) (view := elements) a) as (a' & E & HP & HS); [by rewrite HE|].
    rewrite HE in E, HP. exists a', (elements a'). split; [done|]. split; [|done].
    apply elements_represents with (a := a); [apply HR | | by rewrite HP, (rep_length _ _ HR)].
    by apply (qsort_gen_R (ops := icalarray_sortable compare) same_shape fswap_shape) in E.
Qed.
End Sorting.

(** ** Properties *)

(** An array of icalarray.c is a list.  From a new array, appending adds an
    element at the end whatever the chunks are, [element_at] leads to the element
    at each position, a copy has the same elements, and removing a position
    deletes it (a position past the end removes the last element); none of them
    leaves the chunks. *)
Theorem icalarray_refines_list {A : Type} (esize incr : nat) (a : icalarray A) (l : list A) :
  0 < incr -> represents a l ->
  represents (icalarray_new (A := A) esize incr) [] /\
  (forall i, i < length l -> load_at a i = l !! i) /\
  (forall x, exists a', icalarray_append a x = Some a' /\ represents a' (l ++ [x])) /\
  (exists a', icalarray_copy a = Some a' /\ represents a' l) /\
  (forall pos, l <> [] -> (Z.of_nat (length l) < 2 ^ 64)%Z ->
    exists a', icalarray_remove_element_at a pos = Some a' /\ represents a' (remove_at pos l)).
Proof.
  intros Hi HR. split; [by apply new_represents|]. split; [by intros; apply (rep_load a l)|].
  split; [by intros; apply append_represents|]. split; [by apply copy_represents|].
  intros pos Hne Hlen. by apply remove_represents.
Qed.

Lemma icalarray_refines_list_witness :
  represents (icalarray_new (A := nat) 4 2) [] /\
  exists a', icalarray_append (icalarray_new (A := nat) 4 2) 7 = Some a' /\ represents a' [7].
Proof.
  assert (represents (icalarray_new (A := nat) 4 2) []) as HR by (apply new_represents; lia).
  destruct (icalarray_refines_list 4 2 (icalarray_new (A := nat) 4 2) [] ltac:(lia) HR) as (H1 & _ & H2 & _).
  split; [exact H1 | exact (H2 7)].
Defined.

(** C12: sorting an array of fewer than 2^35 elements with a comparison function
    that is a total preorder ends, never overflows its stack of 32 segments and
    never leaves the array; the elements are permuted into ascending order. *)
Theorem icalarray_sort_sorts {A : Type} (compare : A -> A -> Z) (a : icalarray A) (l : list A) :
  Comparison compare -> represents a l -> (Z.of_nat (length l) < 2 ^ 35)%Z ->
  exists a' l', icalarray_sort compare a = Some a' /\ represents a' l' /\ l' ≡ₚ l /\
    StronglySorted (fun x y => compare x y <= 0)%Z l'.
Proof. intros HC HR Hlen. by apply sort_represents. Qed.

#[local] Instance minus_comparison : Comparison Z.sub.
Proof. split; intros; lia. Qed.

(** An array of chunks of five elements, filled with a list. *)
Definition append_all (l : list Z) : option (icalarray Z) :=
  foldl (fun a x => a ← a; icalarray_append a x) (Some (icalarray_new 8 5)) l.

Lemma append_all_represents l : exists a, append_all l = Some a /\ represents a l.
Proof.
  induction l as [|x l (a & E & HR)] using rev_ind.
  - exists (icalarray_new 8 5). split; [done|]. apply new_represents. lia.
  - unfold append_all in *. rewrite foldl_app, E. cbn. by apply append_represents.
Qed.

Lemma icalarray_sort_sorts_witness :
  exists a a' l', append_all [5; 3; 9; 1; 12; 7; 7; 0; 11; 2; 8; 4]%Z = Some a /\
    icalarray_sort Z.sub a = Some a' /\ represents a' l' /\
    l' ≡ₚ [5; 3; 9; 1; 12; 7; 7; 0; 11; 2; 8; 4]%Z.
Proof.
  destruct (append_all_represents [5; 3; 9; 1; 12; 7; 7; 0; 11; 2; 8; 4]%Z) as (a & E & HR).
  destruct (icalarray_sort_sorts Z.sub a _ minus_comparison HR ltac:(cbn; lia)) as (a' & l' & E' & HR' & HP & _).
  exists a, a', l'. split; [exact E|]. split; [exact E'|]. split; [exact HR' | exact HP].
Defined.

Example icalarray_sort_example :
  (a ← append_all [5; 3; 9; 1; 12; 7; 7; 0; 11; 2; 8; 4]%Z; a' ← icalarray_sort Z.sub a; Some (elements a')) =
  Some [0; 1; 2; 3; 4; 5; 7; 7; 8; 9; 11; 12]%Z.
Proof. by vm_compute. Qed.

(** Removing from an array with no elements counts down from 2^64 - 1 and leaves
    the chunks. *)
Example remove_from_empty :
  (a ← append_all [5]%Z; a ← icalarray_remove_element_at a 0; icalarray_remove_element_at a 0) = None.
Proof. by vm_compute. Qed.
