(* ===== verification/CalDate.v ===== *)
(** * Calendar dates and Julian day numbers (caldate.c, astime.h)

    [juldat_int] and [caldat_int] convert between calendar dates and day
    numbers; the calendar is Julian up to 4 October 1582 and Gregorian from
    15 October 1582.  The [double] versions [juldat] and [caldat] are deprecated
    and not used by the library; they are not modelled. *)
From Stdlib Require Import ZArith Lia Bool List.
From S2P Require Import Prelude.
Import ListNotations.
#[local] Open Scope Z_scope.

(** [struct ut_instant_int]. *)
Record UTinstantInt := MkUT {
  j_date0 : Z;
  ut_year : Z;
  ut_month : Z;
  ut_day : Z;
  weekday : Z;
  day_of_year : Z
}.

(** The instant the callers pass to [juldat_int]: cleared by [memset], with the
    date filled in. *)
Definition ut_of_date (y m d : Z) : UTinstantInt := MkUT 0 y m d 0 0.

(** The day number [jd] that [juldat_int] computes. *)
Definition juldat_jd (year month day : Z) : Z :=
  let iy0 := if month <=? 2 then year - 1 else year in
  let im0 := if month <=? 2 then month + 12 else month in
  let ia := Z.quot iy0 100 in
  let ib := 2 - ia + Z.shiftr ia 2 in
  let jd :=
    if year <? 0
    then Z.quot (36525 * iy0 - 75) 100 + Z.quot (306001 * (im0 + 1)) 10000
         + day + 1720994
    else Z.quot (36525 * iy0) 100 + Z.quot (306001 * (im0 + 1)) 10000
         + day + 1720994 in
  if (1582 <? year) || ((year =? 1582) && (1015 <=? month * 100 + day))
  then jd + ib else jd.

Definition juldat_int (date : UTinstantInt) : UTinstantInt :=
  let jd := juldat_jd (ut_year date) (ut_month date) (ut_day date) in
  MkUT jd (ut_year date) (ut_month date) (ut_day date)
       (Z.rem (jd + 2) 7) (day_of_year date).

Definition caldat_int (date : UTinstantInt) : UTinstantInt :=
  let jd := j_date0 date + 1 in
  let ka :=
    if 2299161 <=? jd then
      let ialp := Z.quot (jd * 100 - 186721625) 3652425 in
      jd + 1 + ialp - Z.shiftr ialp 2
    else jd in
  let kb := ka + 1524 in
  let kc := Z.quot (kb * 100 - 12210) 36525 in
  let kd := Z.quot (kc * 36525) 100 in
  let ke := Z.quot ((kb - kd) * 10000) 306001 in
  let day0 := kb - kd - Z.quot (ke * 306001) 10000 in
  let month := if 13 <? ke then ke - 13 else ke - 1 in
  let day := if (month =? 2) && (28 <? day0) then 29 else day0 in
  let year :=
    if (month =? 2) && (day =? 29) && (ke =? 3) then kc - 4716
    else if 2 <? month then kc - 4716
    else kc - 4715 in
  let doy :=
    if year =? Z.shiftl (Z.shiftr year 2) 2
    then Z.quot (275 * month) 9 - Z.quot (month + 9) 12 + day - 30
    else Z.quot (275 * month) 9 - Z.shiftl (Z.quot (month + 9) 12) 1 + day - 30 in
  MkUT (j_date0 date) year month day (Z.rem (jd + 1) 7) doy.

(** ** The Gregorian calendar *)

Definition greg_leap (y : Z) : bool :=
  ((y mod 4 =? 0) && negb (y mod 100 =? 0)) || (y mod 400 =? 0).

Definition greg_days_in_month (y m : Z) : Z :=
  if m =? 2 then 28 + b2z (greg_leap y)
  else if (m =? 4) || (m =? 6) || (m =? 9) || (m =? 11) then 30 else 31.

Definition greg_valid (y m d : Z) : bool :=
  (1 <=? m) && (m <=? 12) && (1 <=? d) && (d <=? greg_days_in_month y m).

(** A date on or after the reform of the calendar. *)
Definition after_reform (y m d : Z) : bool :=
  (1582 <? y) || ((y =? 1582) && (1015 <=? m * 100 + d)).

(** Years and months counted from March, as [juldat_int] does. *)
Definition march_year (y m : Z) : Z := if m <=? 2 then y - 1 else y.
Definition march_month (m : Z) : Z := if m <=? 2 then m + 12 else m.

Definition month_days (im0 : Z) : Z := (306001 * (im0 + 1)) / 10000.

Lemma shiftr_2 z : Z.shiftr z 2 = z / 4.
Proof. now rewrite Z.shiftr_div_pow2. Qed.

Lemma shiftl_1 z : Z.shiftl z 1 = 2 * z.
Proof. rewrite Z.shiftl_mul_pow2 by lia. lia. Qed.

Lemma month_cases m : 1 <= m <= 12 ->
  m = 1 \/ m = 2 \/ m = 3 \/ m = 4 \/ m = 5 \/ m = 6 \/ m = 7 \/ m = 8 \/ m = 9 \/
  m = 10 \/ m = 11 \/ m = 12.
Proof. lia. Qed.

(** Splits a month into its twelve values. *)
Ltac each_month H :=
  apply month_cases in H;
  destruct H as [->|[->|[->|[->|[->|[->|[->|[->|[->|[->|[->| ->]]]]]]]]]]].

(** The day number of a Gregorian date, in closed form. *)
Lemma juldat_jd_greg y m d :
  after_reform y m d = true -> 1 <= m <= 12 ->
  juldat_jd y m d =
  let y' := march_year y m in
  365 * y' + y' / 4 - y' / 100 + y' / 400 + month_days (march_month m) + d + 1720996.
Proof.
  intros Hr Hm. unfold juldat_jd. fold (after_reform y m d). rewrite Hr.
  unfold march_year, march_month, month_days, after_reform in *.
  assert (1582 <= y) by lia. assert ((y <? 0) = false) as -> by lia.
  set (y' := if m <=? 2 then y - 1 else y).
  set (im0 := if m <=? 2 then m + 12 else m).
  assert (1581 <= y') by (subst y'; destruct (m <=? 2); lia).
  assert (3 <= im0 <= 14) by (subst im0; destruct (Z.leb_spec m 2); lia).
  rewrite !Z.quot_div_nonneg, shiftr_2 by lia.
  cbv zeta. generalize ((306001 * (im0 + 1)) / 10000). intros md. zdiv.
Qed.

(** The core of [caldat_int], on the day number of a date whose year starts in
    March. *)
Lemma caldat_core y' im0 d :
  1581 <= y' -> 3 <= im0 <= 14 -> 1 <= d ->
  month_days im0 + d <= (if im0 =? 14 then 487 + b2z (greg_leap (y' + 1)) else month_days (im0 + 1)) ->
  let jd := 365 * y' + y' / 4 - y' / 100 + y' / 400 + month_days im0 + d + 1720997 in
  2299161 <= jd ->
  let ialp := Z.quot (jd * 100 - 186721625) 3652425 in
  let kb := jd + 1 + ialp - Z.shiftr ialp 2 + 1524 in
  let kc := Z.quot (kb * 100 - 12210) 36525 in
  let kd := Z.quot (kc * 36525) 100 in
  let ke := Z.quot ((kb - kd) * 10000) 306001 in
  kc = y' + 4716 /\ ke = im0 + 1 /\ kb - kd - Z.quot (ke * 306001) 10000 = d.
Proof.
  intros Hy Him Hd Hlen jd Hjd ialp kb kc kd ke.
  set (c := y' / 100). set (md := month_days im0) in *.
  assert (122 <= md <= 459 /\ md + d <= 488) as [Hmd Hmdd].
  { subst md. unfold month_days in *. destruct (Z.eqb_spec im0 14) as [->|].
    - unfold b2z in Hlen. destruct (greg_leap _); zdiv.
    - zdiv. }
  assert (md + d = 488 -> greg_leap (y' + 1) = true) as Hleap.
  { intros E. subst md. destruct (Z.eqb_spec im0 14) as [->|].
    - destruct (greg_leap (y' + 1)); [reflexivity | unfold b2z in Hlen; lia].
    - unfold month_days in *. zdiv. }
  assert (ialp = c - 4) as Ei.
  { subst ialp jd c. rewrite Z.quot_div_nonneg by lia. unfold greg_leap in Hleap. zdiv. }
  assert (kb = 365 * y' + y' / 4 + md + d + 1722519) as Eb.
  { subst kb. rewrite Ei, shiftr_2. subst jd c. zdiv. }
  assert (md + d = 488 -> (y' + 1) mod 4 = 0) as Hl4.
  { intros E. apply Hleap in E. unfold greg_leap in E. zdiv. }
  assert (kc = y' + 4716) as Ec.
  { subst kc. rewrite Eb, Z.quot_div_nonneg by zdiv. zdiv. }
  assert (kb - kd = md + d) as Ed.
  { subst kd. rewrite Ec, Eb, Z.quot_div_nonneg by zdiv. zdiv. }
  assert (ke = im0 + 1) as Ee.
  { subst ke. rewrite Ed, Z.quot_div_nonneg by lia. subst md. unfold month_days in *.
    destruct (Z.eqb_spec im0 14); [subst im0; unfold b2z in Hlen; destruct (greg_leap _); zdiv | zdiv]. }
  repeat split; try assumption.
  rewrite Ee, Ed, Z.quot_div_nonneg by lia. subst md. unfold month_days.
  replace ((im0 + 1) * 306001) with (306001 * (im0 + 1)) by lia. lia.
Qed.

(** A valid day fits between its month and the next, counted from March. *)
Lemma march_length y m d :
  greg_valid y m d = true ->
  1 <= m <= 12 /\ 1 <= d /\ 3 <= march_month m <= 14 /\
  month_days (march_month m) + d <=
    (if march_month m =? 14 then 487 + b2z (greg_leap (march_year y m + 1))
     else month_days (march_month m + 1)).
Proof.
  intros Hv. unfold greg_valid in Hv. bools.
  assert (1 <= m <= 12) as Hm by lia. repeat split; try lia.
  1, 2: unfold march_month; destruct (Z.leb_spec m 2); lia.
  match goal with H : (d <=? _) = true |- _ => apply Z.leb_le in H; rename H into Hdl end.
  unfold greg_days_in_month, march_month, march_year, month_days, b2z in *.
  destruct (Z.leb_spec m 2) as [Hle|Hgt].
  - replace (y - 1 + 1) with y by lia.
    destruct (Z.eqb_spec m 2) as [->|].
    + change (2 + 12 =? 14) with true. cbv iota. destruct (greg_leap y); zdiv.
    + assert (m = 1) as -> by lia. case_if_in Hdl; [discriminate|]. change (1 + 12 =? 14) with false. zdiv.
  - assert ((m =? 14) = false) as -> by lia. assert ((m =? 2) = false) as E by lia.
    rewrite E in Hdl. case_if_in Hdl; zdiv.
Qed.

Lemma after_reform_jd y m d :
  after_reform y m d = true -> greg_valid y m d = true ->
  2299160 <= juldat_jd y m d.
Proof.
  intros Hr Hv. pose proof (march_length y m d Hv) as (Hm & Hd & Him & _).
  rewrite juldat_jd_greg by assumption. cbv zeta.
  unfold after_reform, march_year, march_month, month_days in *.
  destruct (Z.leb_spec m 2); zdiv.
Qed.

(** The date that [caldat_int] computes from the number [juldat_int] gave. *)
Lemma caldat_juldat_date y m d :
  after_reform y m d = true -> greg_valid y m d = true ->
  let t := caldat_int (juldat_int (ut_of_date y m d)) in
  ut_year t = y /\ ut_month t = m /\ ut_day t = d.
Proof.
  intros Hr Hv. pose proof (march_length y m d Hv) as (Hm & Hd & Him & Hlen).
  pose proof (after_reform_jd y m d Hr Hv) as Hjd.
  pose proof (juldat_jd_greg y m d Hr Hm) as Ej. cbv zeta in Ej.
  assert (1581 <= march_year y m) as Hy.
  { unfold after_reform, march_year in *. destruct (m <=? 2); lia. }
  pose proof (caldat_core (march_year y m) (march_month m) d Hy Him Hd Hlen) as Hc.
  cbv zeta in Hc.
  unfold caldat_int, juldat_int, ut_of_date. cbn [j_date0 ut_year ut_month ut_day].
  assert ((2299161 <=? juldat_jd y m d + 1) = true) as -> by lia.
  replace (juldat_jd y m d + 1) with
    (365 * march_year y m + march_year y m / 4 - march_year y m / 100 + march_year y m / 400
     + month_days (march_month m) + d + 1720997) in * by lia.
  destruct (Hc ltac:(lia)) as (Ec & Ee & Ed). clear Hc.
  cbv zeta. rewrite Ec in Ee, Ed. rewrite Ee in Ed. rewrite Ec, Ee, Ed. clear Ed Ec Ee Ej Hjd Hlen.
  assert ((13 <? march_month m + 1) = (m <=? 2)) as ->.
  { unfold march_month. destruct (Z.leb_spec m 2); lia. }
  assert ((march_month m + 1 =? 3) = false) as -> by lia.
  unfold march_month, march_year, greg_valid, greg_days_in_month in *.
  assert (m <> 2 \/ d <= 29) as Hfeb.
  { destruct (Z.eqb_spec m 2); [|lia]. unfold b2z in Hv. destruct (greg_leap y); lia. }
  destruct (Z.leb_spec m 2); (split; [|split]); repeat case_if; lia.
Qed.

(** ** Day of the year and day of the week *)

(** The days of the months before [m]. *)
Definition greg_days_before_month (y m : Z) : Z :=
  fold_right Z.add 0
    (map (fun k => greg_days_in_month y (Z.of_nat k)) (seq 1 (Z.to_nat (m - 1)))).

Definition greg_day_of_year (y m d : Z) : Z := greg_days_before_month y m + d.

(** A year that the Julian calendar takes for a leap year and the Gregorian
    does not. *)
Definition julian_only_leap (y : Z) : bool := (y mod 4 =? 0) && negb (greg_leap y).

Lemma greg_days_before_month_table y m :
  1 <= m <= 12 ->
  greg_days_before_month y m =
  nth (Z.to_nat (m - 1)) [0; 31; 59; 90; 120; 151; 181; 212; 243; 273; 304; 334] 0
  + (if m <=? 2 then 0 else b2z (greg_leap y)).
Proof.
  intros Hm. unfold greg_days_before_month.
  each_month Hm; cbv -[greg_leap]; destruct (greg_leap y); reflexivity.
Qed.

Lemma shift_mod4 y : (y =? Z.shiftl (Z.shiftr y 2) 2) = (y mod 4 =? 0).
Proof.
  rewrite shiftr_2, Z.shiftl_mul_pow2 by lia. change (2 ^ 2) with 4. zdiv.
Qed.

(** The formula of [caldat_int] for the day of the year. *)
Lemma doy_formula y m d :
  1 <= m <= 12 ->
  (if y =? Z.shiftl (Z.shiftr y 2) 2
   then Z.quot (275 * m) 9 - Z.quot (m + 9) 12 + d - 30
   else Z.quot (275 * m) 9 - Z.shiftl (Z.quot (m + 9) 12) 1 + d - 30) =
  greg_day_of_year y m d + (if 2 <? m then b2z (julian_only_leap y) else 0).
Proof.
  intros Hm. rewrite shift_mod4. unfold greg_day_of_year, julian_only_leap.
  rewrite greg_days_before_month_table by assumption.
  destruct (greg_leap y) eqn:E; destruct (y mod 4 =? 0) eqn:E4;
    [|exfalso; unfold greg_leap in E; zdiv| |]; cbv iota;
    match goal with |- ?a + d - 30 = ?b + d + ?c => enough (a - 30 = b + c) by lia end;
    each_month Hm; reflexivity.
Qed.

Lemma caldat_doy date :
  let t := caldat_int date in
  day_of_year t =
  (if ut_year t =? Z.shiftl (Z.shiftr (ut_year t) 2) 2
   then Z.quot (275 * ut_month t) 9 - Z.quot (ut_month t + 9) 12 + ut_day t - 30
   else Z.quot (275 * ut_month t) 9 - Z.shiftl (Z.quot (ut_month t + 9) 12) 1 + ut_day t - 30).
Proof. reflexivity. Qed.

(** Converting a Gregorian date to its day number and back gives the same
    date, the day of the week that [juldat_int] had found, and the day of the
    year - one too many after February of a year, such as 1900 or 2100, that is
    divisible by 4 but is not a leap year. *)
Theorem caldat_juldat_roundtrip (y m d : Z) :
  after_reform y m d = true -> greg_valid y m d = true ->
  let j := juldat_int (ut_of_date y m d) in
  let t := caldat_int j in
  ut_year t = y /\ ut_month t = m /\ ut_day t = d /\
  weekday t = weekday j /\ 0 <= weekday t <= 6 /\
  day_of_year t =
    greg_day_of_year y m d + (if 2 <? m then b2z (julian_only_leap y) else 0).
Proof.
  intros Hr Hv j t.
  destruct (caldat_juldat_date y m d Hr Hv) as (Ey & Em & Ed). fold j t in Ey, Em, Ed.
  pose proof (march_length y m d Hv) as (Hm & _).
  pose proof (after_reform_jd y m d Hr Hv) as Hjd.
  assert (weekday t = weekday j) as Ew.
  { subst t j. unfold caldat_int, juldat_int, ut_of_date. cbn [weekday j_date0 ut_year ut_month ut_day].
    f_equal. lia. }
  repeat split; try assumption.
  1, 2: rewrite Ew; subst j; unfold juldat_int, ut_of_date;
        cbn [weekday j_date0 ut_year ut_month ut_day];
        pose proof (Z.rem_bound_pos (juldat_jd y m d + 2) 7); lia.
  rewrite <- (doy_formula y m d Hm). subst t. rewrite caldat_doy, Ey, Em, Ed. reflexivity.
Qed.

(** One application of the round trip: 31 December 2000. *)
Lemma caldat_juldat_roundtrip_witness :
  after_reform 2000 12 31 = true /\ greg_valid 2000 12 31 = true /\
  day_of_year (caldat_int (juldat_int (ut_of_date 2000 12 31))) = 366.
Proof.
  split; [reflexivity|]. split; [reflexivity|].
  destruct (caldat_juldat_roundtrip 2000 12 31 eq_refl eq_refl) as (_ & _ & _ & _ & _ & E).
  rewrite E. reflexivity.
Defined.

(** In a century year that is not a leap year the day of the year that
    [caldat_int] reports after February is wrong: 1 March 1900 is day 60, and
    the code answers 61. *)
Theorem caldat_day_of_year_century :
  day_of_year (caldat_int (juldat_int (ut_of_date 1900 3 1))) = 61 /\
  greg_day_of_year 1900 3 1 = 60.
Proof. split; reflexivity. Qed.
