(* ===== verification/IcalTime.v ===== *)
(** * Dates and times (icaltime.c, icaltime.h)

    [icaltimetype] and every operation on it except the two that ask the clock:
    construction, parsing and printing, calendar arithmetic, comparison,
    conversion to and from [time_t], time spans.

    The calendar of this file is the one [icaltime_is_leap_year] describes: a
    leap year every fourth year up to 1752 and the Gregorian rule after it.
    Time zones are pointers ([icaltimezone_ptr]); what the file needs of
    icaltimezone.c is the class [TimezoneConv]. *)
From Stdlib Require Import String Ascii ZArith Lia Bool List.
From S2P Require Import Prelude CString IcalError CalDate.
Import ListNotations.
#[local] Open Scope Z_scope.
#[local] Open Scope cstring_scope.

(** ** Data *)

(** [const icaltimezone *]: no zone (a floating time), the static UTC zone, or
    one of the other zones. *)
Inductive icaltimezone_ptr :=
  | ZONE_NULL
  | ZONE_UTC
  | ZONE (id : nat).

Definition zone_eqb (a b : icaltimezone_ptr) : bool :=
  match a, b with
  | ZONE_NULL, ZONE_NULL | ZONE_UTC, ZONE_UTC => true
  | ZONE i, ZONE j => Nat.eqb i j
  | _, _ => false
  end.

Definition icaltimezone_get_utc_timezone : icaltimezone_ptr := ZONE_UTC.

Record icaltimetype := IcalTime {
  year : Z;
  month : Z;
  day : Z;
  hour : Z;
  minute : Z;
  second : Z;
  is_date : Z;
  is_daylight : Z;
  zone : icaltimezone_ptr
}.

(** The members the tests of the code treat as truth values. *)
Definition icaltime_is_date (t : icaltimetype) : bool := truthy (is_date t).

Definition icaltime_is_utc (t : icaltimetype) : bool :=
  zone_eqb (zone t) icaltimezone_get_utc_timezone.

Definition set_date (t : icaltimetype) (y m d : Z) : icaltimetype :=
  IcalTime y m d (hour t) (minute t) (second t) (is_date t) (is_daylight t) (zone t).

Definition set_time (t : icaltimetype) (h mi s : Z) : icaltimetype :=
  IcalTime (year t) (month t) (day t) h mi s (is_date t) (is_daylight t) (zone t).

Definition set_is_date (t : icaltimetype) (b : Z) : icaltimetype :=
  IcalTime (year t) (month t) (day t) (hour t) (minute t) (second t) b (is_daylight t) (zone t).

Definition set_zone (t : icaltimetype) (z : icaltimezone_ptr) : icaltimetype :=
  IcalTime (year t) (month t) (day t) (hour t) (minute t) (second t) (is_date t) (is_daylight t) z.

Definition icaltime_null_time : icaltimetype := IcalTime 0 0 0 0 0 0 0 0 ZONE_NULL.

Definition icaltime_null_date : icaltimetype := IcalTime 0 0 0 (-1) (-1) (-1) 1 0 ZONE_NULL.

Definition icaltime_is_null_time (t : icaltimetype) : bool :=
  second t + minute t + hour t + day t + month t + year t =? 0.

Definition icaltime_is_valid_time (t : icaltimetype) : bool :=
  negb ((year t <? 0) || (3000 <? year t) || (1 <? is_date t) || (is_date t <? 0)).

Definition icaltime_get_timezone (t : icaltimetype) : icaltimezone_ptr := zone t.

Definition icaltime_set_timezone (t : icaltimetype) (z : icaltimezone_ptr) : icaltimetype :=
  if icaltime_is_date t then t
  else if zone_eqb (zone t) z then t
  else set_zone t z.

(** ** The calendar *)

Definition icaltime_is_leap_year (year : Z) : bool :=
  if year <=? 1752 then Z.rem year 4 =? 0
  else ((Z.rem year 4 =? 0) && negb (Z.rem year 100 =? 0)) || (Z.rem year 400 =? 0).

Definition icaltime_days_in_year (year : Z) : Z :=
  if icaltime_is_leap_year year then 366 else 365.

Definition _days_in_month : list Z := [0; 31; 28; 31; 30; 31; 30; 31; 31; 30; 31; 30; 31].

(** The source reads the table before it tests the month; an index outside the
    table is not used. *)
Definition icaltime_days_in_month (month year : Z) : Z :=
  let days := znth month _days_in_month 0 in
  if (month <? 1) || (12 <? month) then 30
  else if month =? 2 then days + b2z (icaltime_is_leap_year year)
  else days.

Definition days_in_year_passed_month (is_leap : bool) : list Z :=
  if is_leap
  then [0; 31; 60; 91; 121; 152; 182; 213; 244; 274; 305; 335; 366]
  else [0; 31; 59; 90; 120; 151; 181; 212; 243; 273; 304; 334; 365].

Definition passed_month (is_leap : bool) (i : Z) : Z :=
  znth i (days_in_year_passed_month is_leap) 0.

Definition icaltime_day_of_year (t : icaltimetype) : Z :=
  passed_month (icaltime_is_leap_year (year t)) (month t - 1) + day t.

(** The loop [for (month = 11; month >= 0; month--)], from [n - 1] down. *)
Fixpoint doy_month (n : nat) (is_leap : bool) (doy : Z) (tt : icaltimetype) : icaltimetype :=
  match n with
  | O => tt
  | S k =>
      let month := Z.of_nat k in
      if passed_month is_leap month <? doy
      then set_date tt (year tt) (month + 1) (doy - passed_month is_leap month)
      else doy_month k is_leap doy tt
  end.

Definition icaltime_from_day_of_year (_doy _year : Z) : icaltimetype :=
  let is_leap0 := icaltime_is_leap_year _year in
  let '(doy, year, is_leap) :=
    if _doy <? 1 then
      let year := _year - 1 in
      let is_leap := icaltime_is_leap_year year in
      (_doy + passed_month is_leap 12, year, is_leap)
    else if passed_month is_leap0 12 <? _doy then
      let is_leap := icaltime_is_leap_year _year in
      (_doy - passed_month is_leap 12, _year + 1, is_leap)
    else (_doy, _year, is_leap0) in
  let tt := set_date icaltime_null_date year 0 0 in
  doy_month 12 is_leap doy tt.

(** 1 is Sunday, 7 is Saturday. *)
Definition icaltime_day_of_week (t : icaltimetype) : Z :=
  weekday (juldat_int (ut_of_date (year t) (month t) (day t))) + 1.

Definition icaltime_start_doy_week (t : icaltimetype) (fdow : Z) : Z :=
  let jt := caldat_int (juldat_int (ut_of_date (year t) (month t) (day t))) in
  let delta0 := weekday jt - (fdow - 1) in
  let delta := if delta0 <? 0 then delta0 + 7 else delta0 in
  day_of_year jt - delta.

Definition icaltime_week_number (ictt : icaltimetype) : Z :=
  let jt := caldat_int (juldat_int (ut_of_date (year ictt) (month ictt) (day ictt))) in
  Z.quot (day_of_year jt - weekday jt) 7.

(** ** Adjustment *)

(** One digit of the time: the sum is reduced modulo [base] to a digit that is
    not negative, and the carry goes to the next digit. *)
Definition carry (v base : Z) : Z * Z :=
  let r := Z.rem v base in
  let o := Z.quot v base in
  if r <? 0 then (r + base, o - 1) else (r, o).

(** [for (;;)]: forward from a positive day. *)
Fixpoint adjust_up (fuel : nat) (year month day : Z) : Z * Z * Z :=
  match fuel with
  | O => (year, month, day)
  | S f =>
      let days_in_month := icaltime_days_in_month month year in
      if day <=? days_in_month then (year, month, day)
      else
        let month' := month + 1 in
        if 13 <=? month' then adjust_up f (year + 1) 1 (day - days_in_month)
        else adjust_up f year month' (day - days_in_month)
  end.

(** [while (day <= 0)]. *)
Fixpoint adjust_down (fuel : nat) (year month day : Z) : Z * Z * Z :=
  match fuel with
  | O => (year, month, day)
  | S f =>
      if day <=? 0 then
        let '(year', month') := if month =? 1 then (year - 1, 12) else (year, month - 1) in
        adjust_down f year' month' (day + icaltime_days_in_month month' year')
      else (year, month, day)
  end.

(** Every round of the loops moves by at least 28 days. *)
Definition adjust_fuel (day : Z) : nat := Z.to_nat (Z.abs day / 28 + 2).

(** "Normalize the month": years and months from any month number. *)
Definition normalize_month (year month : Z) : Z * Z :=
  if 13 <=? month then
    let years_overflow := Z.quot (month - 1) 12 in
    (year + years_overflow, month - years_overflow * 12)
  else if month <=? 0 then
    let years_overflow := Z.quot month 12 - 1 in
    (year + years_overflow, month - years_overflow * 12)
  else (year, month).

Definition adjust_date (year0 month0 day : Z) : Z * Z * Z :=
  let '(year, month) := normalize_month year0 month0 in
  if 0 <? day then adjust_up (adjust_fuel day) year month day
  else adjust_down (adjust_fuel day) year month day.

Definition icaltime_adjust (tt : icaltimetype) (days hours minutes seconds : Z) : icaltimetype :=
  let '(tt1, days_overflow) :=
    if icaltime_is_date tt then (tt, 0)
    else
      let '(s, minutes_overflow) := carry (second tt + seconds) 60 in
      let '(mi, hours_overflow) := carry (minute tt + minutes + minutes_overflow) 60 in
      let '(h, days_overflow) := carry (hour tt + hours + hours_overflow) 24 in
      (set_time tt h mi s, days_overflow) in
  let '(y, m, d) := adjust_date (year tt1) (month tt1) (day tt1 + days + days_overflow) in
  set_date tt1 y m d.

(** *** In [int]

    The same function with every sum, difference and product computed in [int]: there
    is no result when one of them overflows or when a loop does not end. *)

Definition carry_int (v base : Z) : option (Z * Z) :=
  let r := Z.rem v base in
  let o := Z.quot v base in
  if r <? 0 then let* r := int_value (r + base) in let* o := int_value (o - 1) in Some (r, o) else Some (r, o).

Fixpoint adjust_up_int (fuel : nat) (year month day : Z) : option (Z * Z * Z) :=
  match fuel with
  | O => None
  | S f =>
      let days_in_month := icaltime_days_in_month month year in
      if day <=? days_in_month then Some (year, month, day)
      else
        let* month' := int_value (month + 1) in
        let* year' := if 13 <=? month' then int_value (year + 1) else Some year in
        let* day' := int_value (day - days_in_month) in
        adjust_up_int f year' (if 13 <=? month' then 1 else month') day'
  end.

Fixpoint adjust_down_int (fuel : nat) (year month day : Z) : option (Z * Z * Z) :=
  match fuel with
  | O => None
  | S f =>
      if day <=? 0 then
        let* year' := if month =? 1 then int_value (year - 1) else Some year in
        let* month' := if month =? 1 then Some 12 else int_value (month - 1) in
        let* day' := int_value (day + icaltime_days_in_month month' year') in
        adjust_down_int f year' month' day'
      else Some (year, month, day)
  end.

Definition move_years (year month years_overflow : Z) : option (Z * Z) :=
  let* year := int_value (year + years_overflow) in
  let* months := int_value (years_overflow * 12) in
  let* month := int_value (month - months) in
  Some (year, month).

Definition normalize_month_int (year month : Z) : option (Z * Z) :=
  if 13 <=? month then let* m := int_value (month - 1) in move_years year month (Z.quot m 12)
  else if month <=? 0 then let* o := int_value (Z.quot month 12 - 1) in move_years year month o
  else Some (year, month).

(** [a + b + c], from left to right. *)
Definition add3_int (a b c : Z) : option Z := let* s := int_value (a + b) in int_value (s + c).

Definition icaltime_adjust_int (tt : icaltimetype) (days hours minutes seconds : Z) : option icaltimetype :=
  let* (tt1, days_overflow) :=
    if icaltime_is_date tt then Some (tt, 0)
    else
      let* second' := int_value (second tt + seconds) in
      let* (s, minutes_overflow) := carry_int second' 60 in
      let* minute' := add3_int (minute tt) minutes minutes_overflow in
      let* (mi, hours_overflow) := carry_int minute' 60 in
      let* hour' := add3_int (hour tt) hours hours_overflow in
      let* (h, days_overflow) := carry_int hour' 24 in
      Some (set_time tt h mi s, days_overflow) in
  let* (y, m) := normalize_month_int (year tt1) (month tt1) in
  let* d := add3_int (day tt1) days days_overflow in
  let* (y, m, d) := if 0 <? d then adjust_up_int (adjust_fuel d) y m d else adjust_down_int (adjust_fuel d) y m d in
  Some (set_date tt1 y m d).

Definition icaltime_normalize (tt : icaltimetype) : icaltimetype := icaltime_adjust tt 0 0 0 0.

(** ** Conversion to [time_t] *)

(** The members of [struct tm] that the code sets. *)
Record tm := Tm {
  tm_year : Z;
  tm_mon : Z;
  tm_mday : Z;
  tm_hour : Z;
  tm_min : Z;
  tm_sec : Z
}.

Definition icaltime_leap_days (y1 y2 : Z) : Z :=
  let y1 := y1 - 1 in
  let y2 := y2 - 1 in
  (Z.quot y2 4 - Z.quot y1 4) - (Z.quot y2 100 - Z.quot y1 100)
  + (Z.quot y2 400 - Z.quot y1 400).

Definition icaltime_timegm (t : tm) : Z :=
  let year := 1900 + tm_year t in
  let days := 365 * (year - 1970) + icaltime_leap_days 1970 year in
  let days := days + passed_month false (tm_mon t) in
  let days := if (1 <? tm_mon t) && icaltime_is_leap_year year then days + 1 else days in
  let days := days + (tm_mday t - 1) in
  let hours := days * 24 + tm_hour t in
  let minutes := hours * 60 + tm_min t in
  minutes * 60 + tm_sec t.

Definition make_time_days : list Z :=
  [-1; 30; 58; 89; 119; 150; 180; 211; 242; 272; 303; 333; 364].

(** The branch for a 64-bit [time_t]; [tzm] is a zone offset in minutes. *)
Definition make_time (t : tm) (tzm : Z) : Z :=
  if (tm_mon t <? 0) || (11 <? tm_mon t) then -1
  else
    let tim := (tm_year t - 70) * 365 + Z.quot (tm_year t - 1) 4 - 17 in
    let tim := tim + znth (tm_mon t) make_time_days 0 in
    let tim := if (Z.land (tm_year t) 3 =? 0) && (1 <? tm_mon t) then tim + 1 else tim in
    let tim := tim + tm_mday t in
    let tim := tim * 24 + tm_hour t in
    let tim := tim * 60 + tm_min t in
    let tim := tim - tzm in
    tim * 60 + tm_sec t.

Definition tm_of (tt : icaltimetype) (h mi s : Z) : tm :=
  Tm (year tt - 1900) (month tt - 1) (day tt) h mi s.

Definition icaltime_as_timet (tt : icaltimetype) : Z :=
  if icaltime_is_null_time tt then 0
  else if icaltime_is_date tt then make_time (tm_of tt 0 0 0) 0
  else make_time (tm_of tt (hour tt) (minute tt) (second tt)) 0.

(** [gmtime_r] of the C library: the broken-down UTC time of the proleptic
    Gregorian calendar, [None] when the year does not fit an [int]. *)
Definition civil_from_days (z : Z) : Z * Z * Z :=
  let z := z + 719468 in
  let era := z / 146097 in
  let doe := z - era * 146097 in
  let yoe := (doe - doe / 1460 + doe / 36524 - doe / 146096) / 365 in
  let doy := doe - (365 * yoe + yoe / 4 - yoe / 100) in
  let mp := (5 * doy + 2) / 153 in
  let d := doy - (153 * mp + 2) / 5 + 1 in
  let m := if mp <? 10 then mp + 3 else mp - 9 in
  let y := yoe + era * 400 + (if m <=? 2 then 1 else 0) in
  (y, m, d).

Definition gmtime_r (t : Z) : option tm :=
  let days := t / 86400 in
  let rem := t mod 86400 in
  let '(y, m, d) := civil_from_days days in
  if (INT_MIN <=? y - 1900) && (y - 1900 <=? INT_MAX)
  then Some (Tm (y - 1900) (m - 1) d (rem / 3600) (rem / 60 mod 60) (rem mod 60))
  else None.

(** ** Operations that convert between time zones *)

(** What icaltimezone.c offers: the time [tt] of [from_zone] expressed in
    [to_zone]. *)
Class TimezoneConv := {
  icaltimezone_convert_time : icaltimetype -> icaltimezone_ptr -> icaltimezone_ptr -> icaltimetype
}.

(** What its callers rely on: nothing is converted within one zone, from a
    floating time, or for a DATE. *)
Class TimezoneLaws (TZ : TimezoneConv) : Prop := {
  convert_same t z : icaltimezone_convert_time t z z = t;
  convert_floating t z : icaltimezone_convert_time t ZONE_NULL z = t;
  convert_date t a b : icaltime_is_date t = true -> icaltimezone_convert_time t a b = t
}.

Section WithTimezones.
Context `{TZ : TimezoneConv}.

Definition icaltime_from_timet_with_zone (t : Z) (isdate : Z) (z : icaltimezone_ptr)
  : icaltimetype :=
  match gmtime_r t with
  | None => if truthy isdate then icaltime_null_date else icaltime_null_time
  | Some g =>
      let tt := IcalTime (tm_year g + 1900) (tm_mon g + 1) (tm_mday g)
                  (tm_hour g) (tm_min g) (tm_sec g) 0 0
                  (if zone_eqb z ZONE_NULL then ZONE_NULL else ZONE_UTC) in
      let tt := icaltimezone_convert_time tt ZONE_UTC z in
      let tt := set_is_date tt isdate in
      if truthy isdate then set_time tt 0 0 0 else tt
  end.

(** The clock is an argument. *)
Definition icaltime_current_time_with_zone (now : Z) (z : icaltimezone_ptr) : icaltimetype :=
  icaltime_from_timet_with_zone now 0 z.

Definition icaltime_today (now : Z) : icaltimetype :=
  icaltime_from_timet_with_zone now 1 ZONE_NULL.

Definition icaltime_as_timet_with_zone (tt : icaltimetype) (z : icaltimezone_ptr) : Z :=
  if icaltime_is_null_time tt then 0
  else
    let local_tt := set_is_date tt 0 in
    let local_tt := icaltimezone_convert_time local_tt z ZONE_UTC in
    icaltime_timegm (tm_of local_tt (hour local_tt) (minute local_tt) (second local_tt)).

Definition icaltime_convert_to_zone (tt : icaltimetype) (z : icaltimezone_ptr) : icaltimetype :=
  if icaltime_is_date tt then tt
  else if zone_eqb (zone tt) z then tt
  else
    let ret := if zone_eqb (zone tt) ZONE_NULL then tt
               else icaltimezone_convert_time tt (zone tt) z in
    set_zone ret z.

(** ** Comparison *)

(** The comparison of the date parts; [None] when they are equal. *)
Definition compare_dates (a b : icaltimetype) : option Z :=
  if year b <? year a then Some 1
  else if year a <? year b then Some (-1)
  else if month b <? month a then Some 1
  else if month a <? month b then Some (-1)
  else if day b <? day a then Some 1
  else if day a <? day b then Some (-1)
  else None.

Definition icaltime_compare (a_in b_in : icaltimetype) : Z :=
  let '(a, b) :=
    if negb (zone_eqb (zone a_in) (zone b_in))
       && negb (zone_eqb (zone a_in) ZONE_NULL)
       && negb (zone_eqb (zone b_in) ZONE_NULL)
    then (icaltime_convert_to_zone a_in ZONE_UTC, icaltime_convert_to_zone b_in ZONE_UTC)
    else (a_in, b_in) in
  match compare_dates a b with
  | Some c => c
  | None =>
      if icaltime_is_date a && icaltime_is_date b then 0
      else if icaltime_is_date b then 1
      else if icaltime_is_date a then -1
      else if hour b <? hour a then 1
      else if hour a <? hour b then -1
      else if minute b <? minute a then 1
      else if minute a <? minute b then -1
      else if second b <? second a then 1
      else if second a <? second b then -1
      else 0
  end.

Definition icaltime_compare_date_only_tz (a_in b_in : icaltimetype) (tz : icaltimezone_ptr) : Z :=
  let a := icaltime_convert_to_zone a_in tz in
  let b := icaltime_convert_to_zone b_in tz in
  match compare_dates a b with
  | Some c => c
  | None => 0
  end.

Definition icaltime_compare_date_only (a_in b_in : icaltimetype) : Z :=
  icaltime_compare_date_only_tz a_in b_in ZONE_UTC.

(** ** Spans *)

Record icaltime_span := Span { span_start : Z; span_end : Z; is_busy : Z }.

Definition zone_or_utc (t : icaltimetype) : icaltimezone_ptr :=
  if zone_eqb (zone t) ZONE_NULL then ZONE_UTC else zone t.

Definition icaltime_span_new (dtstart dtend : icaltimetype) (busy : Z) : icaltime_span :=
  let start := icaltime_as_timet_with_zone dtstart (zone_or_utc dtstart) in
  if icaltime_is_null_time dtend && negb (icaltime_is_date dtstart)
  then Span start start busy
  else
    let dtend := if icaltime_is_null_time dtend then dtstart else dtend in
    let fin := icaltime_as_timet_with_zone dtend (zone_or_utc dtend) in
    Span start (if icaltime_is_date dtstart then fin + (60 * 60 * 24 - 1) else fin) busy.

End WithTimezones.

Definition icaltime_span_overlaps (s1 s2 : icaltime_span) : bool :=
  ((span_start s2 <? span_start s1) && (span_start s1 <? span_end s2))
  || ((span_start s2 <? span_end s1) && (span_end s1 <? span_end s2))
  || ((span_start s1 <? span_start s2) && (span_start s2 <? span_end s1))
  || ((span_start s1 <? span_end s2) && (span_end s2 <? span_end s1))
  || ((span_start s1 =? span_start s2) && (span_end s1 =? span_end s2)).

Definition icaltime_span_contains (s container : icaltime_span) : bool :=
  ((span_start container <=? span_start s) && (span_start s <? span_end container))
  && ((span_end s <=? span_end container) && (span_start container <? span_end s)).

(** ** Text *)

Definition print_date_fields (tt : icaltimetype) : cstring :=
  fmt_0d 4 (year tt) ++ fmt_0d 2 (month tt) ++ fmt_0d 2 (day tt).

Definition print_time_fields (tt : icaltimetype) : cstring :=
  fmt_0d 2 (hour tt) ++ fmt_0d 2 (minute tt) ++ fmt_0d 2 (second tt).

Definition icaltime_as_ical_string_r (tt : icaltimetype) : cstring :=
  if icaltime_is_date tt then snprintf 17 (print_date_fields tt)
  else if icaltime_is_utc tt
  then snprintf 17 (print_date_fields tt ++ $"T" ++ print_time_fields tt ++ $"Z")
  else snprintf 17 (print_date_fields tt ++ $"T" ++ print_time_fields tt).

(** [sscanf (str, "%04d%02d%02d", ...)] and the formats with separators. *)
Definition scan_date (str : cstring) : option (Z * Z * Z * cstring) :=
  let* (y, r) := scan_int 4 str in
  let* (m, r) := scan_int 2 r in
  let* (d, r) := scan_int 2 r in
  Some (y, m, d, r).

Definition scan_date_sep (str : cstring) : option (Z * ascii * Z * ascii * Z * cstring) :=
  let* (y, r) := scan_int 4 str in
  let* (c1, r) := scan_char r in
  let* (m, r) := scan_int 2 r in
  let* (c2, r) := scan_char r in
  let* (d, r) := scan_int 2 r in
  Some (y, c1, m, c2, d, r).

Definition scan_time (str : cstring) : option (Z * Z * Z * cstring) :=
  let* (h, r) := scan_int 2 str in
  let* (mi, r) := scan_int 2 r in
  let* (s, r) := scan_int 2 r in
  Some (h, mi, s, r).

Definition scan_time_sep (str : cstring) : option (Z * ascii * Z * ascii * Z * cstring) :=
  let* (h, r) := scan_int 2 str in
  let* (c1, r) := scan_char r in
  let* (mi, r) := scan_int 2 r in
  let* (c2, r) := scan_char r in
  let* (s, r) := scan_int 2 r in
  Some (h, c1, mi, c2, s, r).

(** The body of [icaltime_from_string]; [None] is [goto FAIL]. *)
Definition icaltime_scan (str : cstring) : option icaltimetype :=
  let size := length str in
  let* (isdate, z) :=
    if Nat.eqb size 15 || Nat.eqb size 19 then Some (0, ZONE_NULL)
    else if Nat.eqb size 16 || Nat.eqb size 20 then
      if Ascii.eqb (nth (size - 1) str "000"%char) "Z" then Some (0, ZONE_UTC) else None
    else if Nat.eqb size 8 || Nat.eqb size 10 then Some (1, ZONE_NULL)
    else None in
  if isdate =? 1 then
    if Nat.eqb size 10 then
      let* (y, dsep1, m, dsep2, d, _) := scan_date_sep str in
      if negb (Ascii.eqb dsep1 "-") || negb (Ascii.eqb dsep2 "-") then None
      else Some (IcalTime y m d 0 0 0 isdate 0 z)
    else
      let* (y, m, d, _) := scan_date str in
      Some (IcalTime y m d 0 0 0 isdate 0 z)
  else
    if Nat.ltb 16 size then
      let* (y, dsep1, m, dsep2, d, r) := scan_date_sep str in
      let* (tsep, r) := scan_char r in
      let* (h, tsep1, mi, tsep2, s, _) := scan_time_sep r in
      if negb (Ascii.eqb tsep "T") || negb (Ascii.eqb dsep1 "-") || negb (Ascii.eqb dsep2 "-")
         || negb (Ascii.eqb tsep1 ":") || negb (Ascii.eqb tsep2 ":") then None
      else Some (IcalTime y m d h mi s isdate 0 z)
    else
      let* (y, m, d, r) := scan_date str in
      let* (tsep, r) := scan_char r in
      let* (h, mi, s, _) := scan_time r in
      if negb (Ascii.eqb tsep "T") then None
      else Some (IcalTime y m d h mi s isdate 0 z).

Definition icaltime_from_string (str : cstring) : err icaltimetype :=
  match icaltime_scan str with
  | Some t => ret t
  | None => bind (icalerror_set_errno ICAL_MALFORMEDDATA_ERROR) (fun _ => ret icaltime_null_time)
  end.
