(* ===== verification/IcalTimeCalendar.v ===== *)
(** * The calendar arithmetic of icaltime.c is correct

    The specification is a day number: [days_before_year] counts the days
    before 1 January in closed form and [day_number] those before a date, for any
    month number.  [icaltime_adjust] adds to the instant a time denotes and
    returns it normalised; [icaltime_day_of_year], [icaltime_from_day_of_year],
    [icaltime_day_of_week], [icaltime_compare] and the conversions to [time_t]
    agree with the day number. *)
From Stdlib Require Import ZArith Lia Bool List.
From S2P Require Import Prelude CalDate IcalTime.
Import ListNotations.
#[local] Open Scope Z_scope.

(** ** Day numbers *)

(** Leap years of the calendar, with [mod] in place of the C remainder. *)
Definition leap (y : Z) : bool :=
  if y <=? 1752 then y mod 4 =? 0 else greg_leap y.

Lemma is_leap_year_leap y : icaltime_is_leap_year y = leap y.
Proof.
  unfold icaltime_is_leap_year, leap, greg_leap.
  now rewrite !rem_eqb_mod by lia.
Qed.

(** The days between 1 January of year 0 and 1 January of year [y]. *)
Definition days_before_year (y : Z) : Z :=
  if y <=? 1753 then 365 * y + (y + 3) / 4
  else 365 * y + (y + 3) / 4 - ((y - 1) / 100 - 17) + ((y - 1) / 400 - 4).

Lemma days_before_year_succ y :
  days_before_year (y + 1) = days_before_year y + icaltime_days_in_year y.
Proof.
  unfold icaltime_days_in_year. rewrite is_leap_year_leap.
  unfold days_before_year, leap, greg_leap.
  destruct (Z.leb_spec y 1752); destruct (Z.leb_spec (y + 1) 1753);
    destruct (Z.leb_spec y 1753); try lia; case_if; zdiv.
Qed.

Lemma days_before_year_lt a b :
  a < b -> days_before_year a + icaltime_days_in_year a <= days_before_year b.
Proof.
  intros H. rewrite <- days_before_year_succ. unfold days_before_year.
  destruct (Z.leb_spec (a + 1) 1753); destruct (Z.leb_spec b 1753); zdiv.
Qed.

(** The days of the year before month [m], 1 to 13. *)
Definition days_before_month (y m : Z) : Z := passed_month (leap y) (m - 1).

Lemma days_before_month_succ y m :
  1 <= m <= 12 ->
  days_before_month y (m + 1) = days_before_month y m + icaltime_days_in_month m y.
Proof.
  intros Hm. unfold days_before_month, icaltime_days_in_month. rewrite is_leap_year_leap.
  destruct (leap y); each_month Hm; reflexivity.
Qed.

Lemma days_before_month_1 y : days_before_month y 1 = 0.
Proof. unfold days_before_month. destruct (leap y); reflexivity. Qed.

Lemma days_before_month_13 y : days_before_month y 13 = icaltime_days_in_year y.
Proof.
  unfold days_before_month, icaltime_days_in_year. rewrite is_leap_year_leap.
  destruct (leap y); reflexivity.
Qed.

Lemma days_before_month_mono y a b :
  1 <= a -> a < b <= 13 -> days_before_month y a + icaltime_days_in_month a y <= days_before_month y b.
Proof.
  intros Ha Hb. rewrite <- days_before_month_succ by lia.
  assert (1 <= a + 1 <= 13) as H1 by lia. assert (1 <= b <= 13) as H2 by lia.
  assert (a + 1 <= b) as H3 by lia. revert H1 H2 H3. generalize (a + 1). clear Ha Hb a.
  intros a Ha Hb Hab. unfold days_before_month.
  assert (a = 13 \/ 1 <= a <= 12) as [->|H] by lia; [replace b with 13 by lia; lia|].
  assert (b = 13 \/ 1 <= b <= 12) as [->|H'] by lia.
  - destruct (leap y); each_month H; vm_compute; discriminate.
  - destruct (leap y); each_month H; each_month H'; try lia; vm_compute; discriminate.
Qed.

Lemma days_in_month_range m y : 28 <= icaltime_days_in_month m y <= 31.
Proof.
  unfold icaltime_days_in_month. destruct ((m <? 1) || (12 <? m)) eqn:E; [lia|].
  assert (1 <= m <= 12) as Hm by lia. clear E. unfold b2z.
  destruct (icaltime_is_leap_year y); each_month Hm; vm_compute; split; discriminate.
Qed.

(** The number of a date; the month may be any integer. *)
Definition day_number (y m d : Z) : Z :=
  let y' := y + (m - 1) / 12 in
  let m' := (m - 1) mod 12 + 1 in
  days_before_year y' + days_before_month y' m' + d.

Definition valid_date (y m d : Z) : Prop :=
  1 <= m <= 12 /\ 1 <= d <= icaltime_days_in_month m y.

Lemma day_number_month y m d :
  1 <= m <= 12 -> day_number y m d = days_before_year y + days_before_month y m + d.
Proof.
  intros Hm. unfold day_number.
  rewrite Z.div_small, Z.mod_small by lia.
  replace (y + 0) with y by lia. replace (m - 1 + 1) with m by lia. reflexivity.
Qed.

(** The first day of the next month follows the last day of a month. *)
Lemma day_number_next_month y m d :
  1 <= m <= 12 ->
  day_number y m d =
  (if 13 <=? m + 1 then day_number (y + 1) 1 (d - icaltime_days_in_month m y)
   else day_number y (m + 1) (d - icaltime_days_in_month m y)).
Proof.
  intros Hm. pose proof (days_before_month_succ y m Hm) as E.
  destruct (Z.leb_spec 13 (m + 1)).
  - assert (m = 12) as -> by lia. change (12 + 1) with 13 in E.
    rewrite !day_number_month, days_before_year_succ, days_before_month_1 by lia.
    rewrite days_before_month_13 in E. lia.
  - rewrite !day_number_month by lia. lia.
Qed.

Lemma normalize_month_spec y m :
  normalize_month y m = (y + (m - 1) / 12, (m - 1) mod 12 + 1).
Proof.
  unfold normalize_month. destruct (Z.leb_spec 13 m); [f_equal; zdiv|].
  destruct (Z.leb_spec m 0); f_equal; zdiv.
Qed.

(** ** The loops of [icaltime_adjust] *)

(** A list of facts about the date a loop ends with. *)
Definition is_date_of (n : Z) (r : Z * Z * Z) : Prop :=
  let '(y, m, d) := r in valid_date y m d /\ day_number y m d = n.

(** The forward loop ends, with a valid date of the same number. *)
Lemma adjust_up_spec fuel y m d :
  1 <= m <= 12 -> 1 <= d -> d <= 28 * Z.of_nat fuel ->
  is_date_of (day_number y m d) (adjust_up fuel y m d).
Proof.
  revert y m d. induction fuel as [|f IH]; intros y m d Hm Hd Hf; [lia|].
  cbn [adjust_up]. pose proof (days_in_month_range m y) as Hr.
  destruct (Z.leb_spec d (icaltime_days_in_month m y)) as [Hle|Hgt].
  - split; [split; lia | reflexivity].
  - rewrite day_number_next_month by assumption.
    destruct (Z.leb_spec 13 (m + 1)); apply IH; lia.
Qed.

Lemma adjust_down_spec fuel y m d :
  1 <= m <= 12 -> d <= 31 -> - d < 28 * Z.of_nat fuel -> d <= icaltime_days_in_month m y ->
  is_date_of (day_number y m d) (adjust_down fuel y m d).
Proof.
  revert y m d. induction fuel as [|f IH]; intros y m d Hm Hd Hf Hdim.
  - cbn [adjust_down]. split; [split; lia | reflexivity].
  - cbn [adjust_down]. destruct (Z.leb_spec d 0) as [Hle|Hgt].
    + set (p := if m =? 1 then (y - 1, 12) else (y, m - 1)).
      destruct p as [y' m'] eqn:Ep. subst p.
      pose proof (days_in_month_range m' y') as Hr.
      assert (1 <= m' <= 12) as Hm'.
      { destruct (Z.eqb_spec m 1); inversion Ep; lia. }
      assert (day_number y m d = day_number y' m' (d + icaltime_days_in_month m' y')) as ->.
      { rewrite (day_number_next_month y' m') by assumption.
        replace (d + icaltime_days_in_month m' y' - icaltime_days_in_month m' y') with d by lia.
        destruct (Z.eqb_spec m 1); inversion Ep; subst.
        - assert ((13 <=? 12 + 1) = true) as -> by lia. f_equal; lia.
        - assert ((13 <=? m - 1 + 1) = false) as -> by lia. f_equal; lia. }
      apply IH; lia.
    + split; [split; lia | reflexivity].
Qed.

Lemma adjust_date_spec y m d : is_date_of (day_number y m d) (adjust_date y m d).
Proof.
  unfold adjust_date. rewrite normalize_month_spec.
  set (y' := y + (m - 1) / 12). set (m' := (m - 1) mod 12 + 1).
  assert (1 <= m' <= 12) as Hm' by (subst m'; zdiv).
  assert (day_number y m d = day_number y' m' d) as ->.
  { rewrite (day_number_month y' m') by assumption. reflexivity. }
  assert (Z.abs d < 28 * Z.of_nat (adjust_fuel d)) as Hf.
  { unfold adjust_fuel. zdiv. }
  pose proof (days_in_month_range m' y').
  destruct (Z.ltb_spec 0 d); [apply adjust_up_spec | apply adjust_down_spec]; lia.
Qed.

Lemma carry_spec v base :
  0 < base -> let '(r, o) := carry v base in 0 <= r < base /\ v = o * base + r.
Proof.
  intros Hb. unfold carry. pose proof (Z.quot_rem' v base).
  pose proof (Z.rem_bound_abs v base ltac:(lia)).
  destruct (Z.ltb_spec (Z.rem v base) 0); nia.
Qed.

(** ** Instants *)

(** The seconds a date-time denotes, for members in any range. *)
Definition instant (t : icaltimetype) : Z :=
  ((day_number (year t) (month t) (day t) * 24 + hour t) * 60 + minute t) * 60 + second t.

Definition valid_clock (t : icaltimetype) : Prop :=
  0 <= hour t < 24 /\ 0 <= minute t < 60 /\ 0 <= second t < 60.

Definition normalized (t : icaltimetype) : Prop :=
  valid_date (year t) (month t) (day t) /\ (icaltime_is_date t = false -> valid_clock t).

(** [icaltime_adjust] terminates with a normalised time - a real date, and
    for a date-time a time of day in range - whose instant is the sum of the
    given instant and of the amounts; a DATE value is moved by the days only and
    its other members stay.  The members of the argument may have any values. *)
Lemma adjust_spec (t : icaltimetype) (days hours minutes seconds : Z) :
  let r := icaltime_adjust t days hours minutes seconds in
  normalized r /\
  is_date r = is_date t /\ is_daylight r = is_daylight t /\ zone r = zone t /\
  if icaltime_is_date t then
    day_number (year r) (month r) (day r) = day_number (year t) (month t) (day t) + days /\
    hour r = hour t /\ minute r = minute t /\ second r = second t
  else instant r = instant t + days * 86400 + hours * 3600 + minutes * 60 + seconds.
Proof.
  unfold icaltime_adjust, normalized, icaltime_is_date.
  destruct (truthy (is_date t)) eqn:Ed.
  - pose proof (adjust_date_spec (year t) (month t) (day t + days + 0)) as H.
    destruct (adjust_date _ _ _) as [[y m] d]. destruct H as [Hv Hn]. cbn. rewrite Ed.
    split; [split; [assumption | discriminate]|]. repeat split.
    rewrite Hn. unfold day_number. lia.
  - pose proof (carry_spec (second t + seconds) 60 ltac:(lia)) as Hs.
    destruct (carry (second t + seconds) 60) as [s om].
    pose proof (carry_spec (minute t + minutes + om) 60 ltac:(lia)) as Hmi.
    destruct (carry (minute t + minutes + om) 60) as [mi oh].
    pose proof (carry_spec (hour t + hours + oh) 24 ltac:(lia)) as Hh.
    destruct (carry (hour t + hours + oh) 24) as [h od].
    cbn [set_time year month day].
    pose proof (adjust_date_spec (year t) (month t) (day t + days + od)) as H.
    destruct (adjust_date _ _ _) as [[y m] d]. destruct H as [Hv Hn]. cbn. rewrite Ed.
    split; [split; [assumption | intros _; repeat split; cbn; lia]|]. repeat split.
    unfold instant. cbn. rewrite Hn. unfold day_number. lia.
Qed.

(** [icaltime_normalize] changes nothing that is already normal. *)
Lemma normalize_idempotent_on_normalized t :
  normalized t -> valid_clock t -> icaltime_normalize t = t.
Proof.
  intros [[Hm Hd] _] (Hh & Hmi & Hs). unfold icaltime_normalize, icaltime_adjust, adjust_date.
  assert (forall v b, 0 <= v < b -> carry v b = (v, 0)) as Hc.
  { intros v b Hv. unfold carry. rewrite Z.rem_small, Z.quot_small by lia.
    destruct (Z.ltb_spec v 0); [lia | reflexivity]. }
  assert (forall d, d = day t ->
    (if 0 <? d then adjust_up (adjust_fuel d) (year t) (month t) d
     else adjust_down (adjust_fuel d) (year t) (month t) d) = (year t, month t, day t)) as Hu.
  { intros d ->. destruct (Z.ltb_spec 0 (day t)); [|lia].
    unfold adjust_fuel. destruct (Z.to_nat (Z.abs (day t) / 28 + 2)) eqn:E; [zdiv|].
    cbn [adjust_up]. destruct (Z.leb_spec (day t) (icaltime_days_in_month (month t) (year t)));
      [reflexivity | lia]. }
  assert (normalize_month (year t) (month t) = (year t, month t)) as Hn.
  { rewrite normalize_month_spec, Z.div_small, Z.mod_small by lia. f_equal; lia. }
  destruct (icaltime_is_date t).
  - rewrite Hn, Hu by lia. destruct t; reflexivity.
  - do 3 (rewrite Hc by lia; cbv beta iota).
    cbn [set_time year month day hour minute second]. rewrite Hn, Hu by lia.
    destruct t; unfold set_date, set_time; cbn; f_equal; lia.
Qed.

(** ** The order of dates *)

(** The date of a valid day is determined by its number, and the numbers are
    ordered like the dates. *)
Definition date_lt (y1 m1 d1 y2 m2 d2 : Z) : Prop :=
  y1 < y2 \/ (y1 = y2 /\ (m1 < m2 \/ (m1 = m2 /\ d1 < d2))).

Lemma days_before_month_bound y m :
  1 <= m <= 12 ->
  0 <= days_before_month y m /\
  days_before_month y m + icaltime_days_in_month m y <= icaltime_days_in_year y.
Proof.
  intros Hm. split.
  - unfold days_before_month. destruct (leap y); each_month Hm; vm_compute; discriminate.
  - rewrite <- days_before_month_13. apply days_before_month_mono; lia.
Qed.

Lemma day_number_lt y1 m1 d1 y2 m2 d2 :
  valid_date y1 m1 d1 -> valid_date y2 m2 d2 ->
  date_lt y1 m1 d1 y2 m2 d2 -> day_number y1 m1 d1 < day_number y2 m2 d2.
Proof.
  intros [Hm1 Hd1] [Hm2 Hd2] H. rewrite !day_number_month by assumption.
  pose proof (days_before_month_bound y1 m1 Hm1). pose proof (days_before_month_bound y2 m2 Hm2).
  destruct H as [Hy | [<- [Hm | [<- Hd]]]].
  - pose proof (days_before_year_lt y1 y2 Hy). lia.
  - pose proof (days_before_month_mono y1 m1 m2). lia.
  - lia.
Qed.

Lemma day_number_inj y1 m1 d1 y2 m2 d2 :
  valid_date y1 m1 d1 -> valid_date y2 m2 d2 ->
  day_number y1 m1 d1 = day_number y2 m2 d2 -> y1 = y2 /\ m1 = m2 /\ d1 = d2.
Proof.
  intros H1 H2 E.
  pose proof (day_number_lt _ _ _ _ _ _ H1 H2). pose proof (day_number_lt _ _ _ _ _ _ H2 H1).
  unfold date_lt in *. lia.
Qed.

(** The comparison of the date parts is the comparison of the day numbers. *)
Lemma compare_dates_spec a b :
  valid_date (year a) (month a) (day a) -> valid_date (year b) (month b) (day b) ->
  let na := day_number (year a) (month a) (day a) in
  let nb := day_number (year b) (month b) (day b) in
  match compare_dates a b with
  | Some c => c = Z.sgn (na - nb) /\ na <> nb
  | None => na = nb
  end.
Proof.
  intros Ha Hb. cbv zeta.
  pose proof (day_number_lt _ _ _ _ _ _ Ha Hb) as H1.
  pose proof (day_number_lt _ _ _ _ _ _ Hb Ha) as H2. unfold date_lt in H1, H2.
  unfold compare_dates. repeat case_if.
  1-6: lia.
  assert (year a = year b /\ month a = month b /\ day a = day b) as (-> & -> & ->) by lia.
  reflexivity.
Qed.

(** Both times in the same zone, or one of them floating: no conversion. *)
Definition comparable (a b : icaltimetype) : bool :=
  zone_eqb (zone a) (zone b) || zone_eqb (zone a) ZONE_NULL || zone_eqb (zone b) ZONE_NULL.

(** On normalised date-times that need no zone conversion,
    [icaltime_compare] is the sign of the difference of the instants. *)
Lemma icaltime_compare_instant `{TimezoneConv} (a b : icaltimetype) :
  normalized a -> normalized b -> icaltime_is_date a = false -> icaltime_is_date b = false ->
  comparable a b = true ->
  icaltime_compare a b = Z.sgn (instant a - instant b).
Proof.
  intros [Ha Ca] [Hb Cb] Da Db Hz.
  specialize (Ca Da). specialize (Cb Db). unfold valid_clock in *.
  unfold icaltime_compare, comparable in *.
  assert (negb (zone_eqb (zone a) (zone b)) && negb (zone_eqb (zone a) ZONE_NULL)
          && negb (zone_eqb (zone b) ZONE_NULL) = false)%bool as ->.
  { destruct (zone_eqb (zone a) (zone b)), (zone_eqb (zone a) ZONE_NULL),
      (zone_eqb (zone b) ZONE_NULL); try reflexivity; discriminate. }
  cbv iota zeta. pose proof (compare_dates_spec a b Ha Hb) as Hc. cbv zeta in Hc.
  unfold instant in *.
  set (na := day_number (year a) (month a) (day a)) in *.
  set (nb := day_number (year b) (month b) (day b)) in *.
  destruct (compare_dates a b) as [c|].
  - destruct Hc as [-> Hne]. lia.
  - rewrite Da, Db. cbn [andb]. repeat case_if; lia.
Qed.

(** ** Day of the year *)

Lemma day_of_year_number t :
  1 <= month t <= 12 ->
  icaltime_day_of_year t = day_number (year t) (month t) (day t) - days_before_year (year t).
Proof.
  intros Hm. unfold icaltime_day_of_year. rewrite day_number_month by assumption.
  rewrite is_leap_year_leap. unfold days_before_month. lia.
Qed.

Lemma passed_month_12 y : passed_month (icaltime_is_leap_year y) 12 = icaltime_days_in_year y.
Proof. unfold icaltime_days_in_year. destruct (icaltime_is_leap_year y); reflexivity. Qed.

(** The search of [icaltime_from_day_of_year] finds the month of a day of the
    year. *)
Lemma doy_month_spec y doy tt :
  1 <= doy <= icaltime_days_in_year y ->
  let r := doy_month 12 (icaltime_is_leap_year y) doy tt in
  year r = year tt /\ hour r = hour tt /\ minute r = minute tt /\ second r = second tt /\
  is_date r = is_date tt /\ is_daylight r = is_daylight tt /\ zone r = zone tt /\
  valid_date y (month r) (day r) /\ days_before_month y (month r) + day r = doy.
Proof.
  intros Hd. unfold icaltime_days_in_year, valid_date, days_before_month, icaltime_days_in_month in *.
  rewrite <- is_leap_year_leap in *.
  destruct (icaltime_is_leap_year y); cbn [doy_month];
  repeat match goal with
  | |- context [if passed_month ?l ?k <? doy then _ else _] =>
      let v := eval vm_compute in (passed_month l k) in
      change (passed_month l k) with v;
      destruct (Z.ltb_spec v doy)
  end; cbn [set_date year month day hour minute second is_date is_daylight zone];
  try lia; repeat split; try reflexivity; try (vm_compute; congruence); try lia.
  all: try match goal with
  | |- ?d <= ?e => let v := eval vm_compute in e in change e with v; lia
  | |- ?p + ?d = _ => let v := eval vm_compute in p in change p with v; lia
  end.
Qed.

Lemma days_in_year_range y : 365 <= icaltime_days_in_year y <= 366.
Proof. unfold icaltime_days_in_year. case_if; lia. Qed.

(** The date of a day of the year; zero and negative numbers reach back into
    the year before. *)
Lemma from_doy_spec (doy y : Z) :
  1 - icaltime_days_in_year (y - 1) <= doy <= icaltime_days_in_year y ->
  let r := icaltime_from_day_of_year doy y in
  valid_date (year r) (month r) (day r) /\
  day_number (year r) (month r) (day r) = days_before_year y + doy /\
  is_date r = 1 /\ zone r = ZONE_NULL.
Proof.
  intros Hd. unfold icaltime_from_day_of_year.
  destruct (Z.ltb_spec doy 1) as [Hneg|Hpos].
  - rewrite passed_month_12. cbv iota beta zeta.
    pose proof (days_before_year_succ (y - 1)) as Es. replace (y - 1 + 1) with y in Es by lia.
    destruct (doy_month_spec (y - 1) (doy + icaltime_days_in_year (y - 1))
                (set_date icaltime_null_date (y - 1) 0 0) ltac:(lia))
      as (Ey & _ & _ & _ & Ed & _ & Ez & Hv & En).
    rewrite Ey. cbn [set_date year]. repeat split; try apply Hv; try assumption.
    rewrite day_number_month by apply Hv. lia.
  - rewrite passed_month_12. destruct (Z.ltb_spec (icaltime_days_in_year y) doy); [lia|].
    cbv iota beta zeta.
    destruct (doy_month_spec y doy (set_date icaltime_null_date y 0 0) ltac:(lia))
      as (Ey & _ & _ & _ & Ed & _ & Ez & Hv & En).
    rewrite Ey. cbn [set_date year]. repeat split; try apply Hv; try assumption.
    rewrite day_number_month by apply Hv. lia.
Qed.

(** The day of the year of a valid date is a day of that year. *)
Lemma day_of_year_range t :
  valid_date (year t) (month t) (day t) ->
  1 <= icaltime_day_of_year t <= icaltime_days_in_year (year t).
Proof.
  intros [Hm Hd]. pose proof (days_before_month_bound (year t) (month t) Hm).
  rewrite day_of_year_number, day_number_month by assumption. lia.
Qed.

Lemma from_doy_roundtrip (t : icaltimetype) :
  valid_date (year t) (month t) (day t) ->
  let r := icaltime_from_day_of_year (icaltime_day_of_year t) (year t) in
  year r = year t /\ month r = month t /\ day r = day t.
Proof.
  intros Hv. pose proof (day_of_year_range t Hv) as Hr.
  pose proof (days_in_year_range (year t - 1)).
  destruct (from_doy_spec (icaltime_day_of_year t) (year t) ltac:(lia)) as (Hv' & En & _).
  apply day_number_inj; [assumption..|].
  rewrite En, day_of_year_number by apply Hv. lia.
Qed.

(** ** Day of the week *)

(** From 1753 on the calendar is the Gregorian one. *)
Lemma leap_greg y : 1753 <= y -> leap y = greg_leap y.
Proof. intros H. unfold leap. destruct (Z.leb_spec y 1752); [lia | reflexivity]. Qed.

Lemma days_in_month_greg m y :
  1753 <= y -> 1 <= m <= 12 -> icaltime_days_in_month m y = greg_days_in_month y m.
Proof.
  intros Hy Hm. unfold icaltime_days_in_month, greg_days_in_month.
  rewrite is_leap_year_leap, leap_greg by assumption.
  destruct (greg_leap y); each_month Hm; reflexivity.
Qed.

Lemma valid_date_greg y m d :
  1753 <= y -> valid_date y m d -> greg_valid y m d = true /\ after_reform y m d = true.
Proof.
  intros Hy [Hm Hd]. rewrite days_in_month_greg in Hd by assumption.
  unfold greg_valid, after_reform. lia.
Qed.

(** The number [juldat_int] gives to a date is the day number of the calendar,
    up to a constant. *)
Lemma juldat_day_number y m d :
  1753 <= y -> 1 <= m <= 12 -> juldat_jd y m d = day_number y m d + 1721045.
Proof.
  intros Hy Hm. rewrite juldat_jd_greg by (unfold after_reform; lia).
  rewrite day_number_month by assumption. cbv zeta.
  assert (days_before_month y m = month_days (march_month m) - 122 +
          (if m <=? 2 then -306 else 59 + b2z (greg_leap y))) as ->.
  { unfold days_before_month. rewrite leap_greg by assumption.
    destruct (greg_leap y); each_month Hm; reflexivity. }
  unfold march_year, days_before_year, b2z, greg_leap.
  destruct (Z.leb_spec m 2), (Z.leb_spec y 1753); try case_if; zdiv.
Qed.

(** The day of the week counted from the epoch, a Thursday. *)
Lemma day_of_week_number t :
  1753 <= year t -> valid_date (year t) (month t) (day t) ->
  icaltime_day_of_week t =
  (day_number (year t) (month t) (day t) - day_number 1970 1 1 + 4) mod 7 + 1.
Proof.
  intros Hy [Hm Hd]. unfold icaltime_day_of_week, juldat_int, ut_of_date.
  cbn [weekday ut_year ut_month ut_day].
  rewrite juldat_day_number by assumption. change (day_number 1970 1 1) with 719542.
  assert (0 <= day_number (year t) (month t) (day t)).
  { rewrite day_number_month by assumption.
    pose proof (days_before_month_bound (year t) (month t) Hm).
    unfold days_before_year. destruct (Z.leb_spec (year t) 1753); zdiv. }
  rewrite Z.rem_mod_nonneg by lia. f_equal. zdiv.
Qed.

(** ** Conversion to [time_t] *)

(** The instant of 1 January 1970, 00:00. *)
Definition epoch : Z := day_number 1970 1 1 * 86400.

Lemma passed_month_false y m :
  1 <= m <= 12 ->
  days_before_month y m = passed_month false (m - 1) + (if 1 <? m - 1 then b2z (leap y) else 0).
Proof.
  intros Hm. unfold days_before_month. destruct (leap y); each_month Hm; reflexivity.
Qed.

Lemma timegm_instant t :
  1753 <= year t -> 1 <= month t <= 12 ->
  icaltime_timegm (tm_of t (hour t) (minute t) (second t)) = instant t - epoch.
Proof.
  intros Hy Hm. unfold icaltime_timegm, tm_of, instant, epoch, icaltime_leap_days.
  cbn [tm_year tm_mon tm_mday tm_hour tm_min tm_sec].
  replace (1900 + (year t - 1900)) with (year t) by lia.
  rewrite day_number_month, passed_month_false, is_leap_year_leap by assumption.
  change (day_number 1970 1 1) with 719542. unfold days_before_year, b2z.
  set (p := passed_month false (month t - 1)).
  destruct (Z.leb_spec (year t) 1753); destruct (1 <? month t - 1), (leap (year t));
    cbn [andb]; zdiv.
Qed.

(** [make_time] takes every fourth year for a leap year, which is right from
    1901 to 2099. *)
Lemma make_time_instant t :
  1901 <= year t <= 2099 -> 1 <= month t <= 12 ->
  make_time (tm_of t (hour t) (minute t) (second t)) 0 = instant t - epoch.
Proof.
  intros Hy Hm. unfold make_time, tm_of, instant, epoch.
  cbn [tm_year tm_mon tm_mday tm_hour tm_min tm_sec].
  assert ((month t - 1 <? 0) || (11 <? month t - 1) = false)%bool as -> by lia.
  rewrite day_number_month, passed_month_false by assumption.
  assert (znth (month t - 1) make_time_days 0 = passed_month false (month t - 1) - 1) as ->.
  { generalize (month t) Hm. intros m Hm'. each_month Hm'; reflexivity. }
  assert (leap (year t) = (Z.land (year t - 1900) 3 =? 0)) as ->.
  { change 3 with (Z.ones 2). rewrite Z.land_ones by lia. change (2 ^ 2) with 4.
    rewrite leap_greg by lia. unfold greg_leap. zdiv. }
  change (day_number 1970 1 1) with 719542. unfold days_before_year, b2z.
  destruct (Z.leb_spec (year t) 1753); [lia|].
  set (p := passed_month false (month t - 1)).
  destruct (Z.land (year t - 1900) 3 =? 0), (1 <? month t - 1); cbn [andb]; zdiv.
Qed.

(** ** [gmtime_r] *)

(** The civil date of a day number, in the Gregorian calendar from 1753 on. *)
Lemma civil_from_days_spec z :
  -79257 <= z ->
  let '(y, m, d) := civil_from_days z in
  1753 <= y /\ valid_date y m d /\ day_number y m d = z + day_number 1970 1 1.
Proof.
  intros Hz. unfold civil_from_days.
  set (n := z + 719468). set (era := n / 146097). set (doe := n - era * 146097).
  set (yoe := (doe - doe / 1460 + doe / 36524 - doe / 146096) / 365).
  set (doy := doe - (365 * yoe + yoe / 4 - yoe / 100)).
  set (mp := (5 * doy + 2) / 153).
  assert (0 <= doe < 146097) as Hdoe by (subst doe era; zdiv).
  assert (0 <= yoe < 400) as Hyoe by (subst yoe; zdiv).
  assert (0 <= doy <= 365 /\ (doy = 365 -> greg_leap (yoe + 1) = true)) as [Hdoy Hleap].
  { subst doy yoe. unfold greg_leap. split; zdiv. }
  set (y' := yoe + era * 400).
  assert (n = 365 * y' + y' / 4 - y' / 100 + y' / 400 + doy) as En.
  { subst doy doe y'. zdiv. }
  assert (doy = 365 -> greg_leap (y' + 1) = true) as Hleap'.
  { intros E. apply Hleap in E. unfold greg_leap in *. subst y'. zdiv. }
  clearbody doy yoe. clear Hleap Hyoe Hdoe. clearbody y'. clear doe era.
  assert (0 <= mp <= 11) as Hmp by (subst mp; zdiv).
  set (m := if mp <? 10 then mp + 3 else mp - 9).
  set (y := y' + (if m <=? 2 then 1 else 0)).
  set (d := doy - (153 * mp + 2) / 5 + 1).
  assert (march_year y m = y' /\ march_month m = mp + 3 /\ 1 <= m <= 12) as (Ey & Em & Hm).
  { unfold march_year, march_month. subst y m.
    destruct (Z.ltb_spec mp 10);
      [destruct (Z.leb_spec (mp + 3) 2) | destruct (Z.leb_spec (mp - 9) 2)]; lia. }
  assert (1753 <= y) as Hy.
  { subst y m mp n. destruct (Z.ltb_spec ((5 * doy + 2) / 153) 10);
      [destruct (Z.leb_spec ((5 * doy + 2) / 153 + 3) 2)
      |destruct (Z.leb_spec ((5 * doy + 2) / 153 - 9) 2)]; zdiv. }
  split; [assumption|]. split.
  - split; [assumption|]. rewrite days_in_month_greg by assumption.
    subst d. assert (mp = m - 3 \/ mp = m + 9 /\ m <= 2) as Hmm.
    { subst m. destruct (Z.ltb_spec mp 10); lia. }
    assert (m <= 2 -> y = y' + 1) as Hyy.
    { intros H. subst y. destruct (Z.leb_spec m 2); lia. }
    unfold greg_days_in_month. clearbody m y. clear Em Ey.
    destruct (Z.eqb_spec m 2) as [->|].
    + assert (mp = 11) as E by lia. rewrite E. rewrite Hyy by lia.
      destruct (greg_leap (y' + 1)); cbn [b2z]; subst mp; [zdiv|].
      assert (doy <> 365) by (intros H; specialize (Hleap' H); discriminate). zdiv.
    + destruct ((m =? 4) || (m =? 6) || (m =? 9) || (m =? 11)) eqn:E30; subst mp; zdiv.
  - assert (juldat_jd y m d = day_number y m d + 1721045) as Ej
      by (now apply juldat_day_number).
    rewrite juldat_jd_greg in Ej by (try assumption; unfold after_reform; lia).
    cbv zeta in Ej. rewrite Ey, Em in Ej. unfold month_days in Ej.
    change (day_number 1970 1 1) with 719542. subst d n. clearbody y m. clear Ey Em Hleap'.
    subst mp. zdiv.
Qed.

(** ** The theorems *)

(** *** [icaltime_adjust] in [int] *)

Lemma int_value_small z : is_int32 z -> int_value z = Some z.
Proof. intros [H1 H2]. unfold int_value. now rewrite (proj2 (Z.leb_le _ _) H1), (proj2 (Z.leb_le _ _) H2). Qed.

Ltac in_int := rewrite int_value_small by (unfold is_int32, INT_MIN, INT_MAX; lia).

Lemma carry_int_eq v base : base = 60 \/ base = 24 -> Z.abs v <= 2100000000 -> carry_int v base = Some (carry v base).
Proof.
  intros Hb Hv. unfold carry_int, carry. destruct (Z.ltb_spec (Z.rem v base) 0); [|reflexivity].
  assert (-60 <= Z.rem v base <= 60 /\ Z.abs (Z.quot v base) <= 2100000000) by (destruct Hb as [-> | ->]; zdiv).
  now rewrite !int_value_small by (unfold is_int32, INT_MIN, INT_MAX; lia).
Qed.

Lemma carry_bound v base : base = 60 \/ base = 24 -> 24 * Z.abs (snd (carry v base)) <= Z.abs v + 24.
Proof. intros Hb. unfold carry. destruct (Z.ltb_spec (Z.rem v base) 0); cbn [snd]; destruct Hb as [-> | ->]; zdiv. Qed.

Lemma adjust_up_int_eq n : forall y m d, 1 <= m <= 12 -> 0 < d <= 28 * Z.of_nat n -> d <= 2100000000 ->
  -2000000000 <= y -> y + Z.of_nat n <= 2000000000 -> adjust_up_int n y m d = Some (adjust_up n y m d).
Proof.
  induction n as [|n IH]; intros y m d Hm Hd Hd2 Hy Hn; [lia|]. cbn [adjust_up_int adjust_up].
  pose proof (days_in_month_range m y) as Hr. destruct (Z.leb_spec d (icaltime_days_in_month m y)); [reflexivity|].
  in_int. destruct (Z.leb_spec 13 (m + 1)); [in_int|]; in_int; apply IH; lia.
Qed.

Lemma adjust_down_int_eq n : forall y m d, 1 <= m <= 12 -> - d < 28 * (Z.of_nat n - 1) -> (1 <= n)%nat -> -2100000000 <= d <= 31 ->
  y <= 2000000000 -> -2000000000 <= y - Z.of_nat n -> adjust_down_int n y m d = Some (adjust_down n y m d).
Proof.
  induction n as [|n IH]; intros y m d Hm Hd Hn Hd2 Hy Hy2; [lia|]. cbn [adjust_down_int adjust_down].
  destruct (Z.leb_spec d 0); [|reflexivity]. destruct (Z.eqb_spec m 1); in_int.
  - pose proof (days_in_month_range 12 (y - 1)). in_int. apply IH; lia.
  - pose proof (days_in_month_range (m - 1) y). in_int. apply IH; lia.
Qed.

Lemma normalize_month_int_eq y m : Z.abs y <= 1000000000 -> Z.abs m <= 1000000000 ->
  normalize_month_int y m = Some (normalize_month y m) /\
  Z.abs (fst (normalize_month y m)) <= 1100000000 /\ 1 <= snd (normalize_month y m) <= 12.
Proof.
  intros Hy Hm. unfold normalize_month_int, normalize_month, move_years. destruct (Z.leb_spec 13 m); [|destruct (Z.leb_spec m 0)].
  - in_int. set (q := Z.quot (m - 1) 12). assert (0 <= q <= 90000000 /\ 1 <= m - q * 12 <= 12) by (unfold q; zdiv).
    in_int. in_int. in_int. cbn [fst snd]. split; [reflexivity | lia].
  - set (q := Z.quot m 12). assert (-90000000 <= q <= 0 /\ 1 <= m - (q - 1) * 12 <= 12) by (unfold q; zdiv).
    in_int. in_int. in_int. in_int. cbn [fst snd]. split; [reflexivity | lia].
  - cbn [fst snd]. split; [reflexivity | lia].
Qed.

Lemma adjust_date_int_eq y m d : 1 <= m <= 12 -> Z.abs y <= 1100000000 -> Z.abs d <= 2100000000 ->
  (if 0 <? d then adjust_up_int (adjust_fuel d) y m d else adjust_down_int (adjust_fuel d) y m d) =
  Some (if 0 <? d then adjust_up (adjust_fuel d) y m d else adjust_down (adjust_fuel d) y m d).
Proof.
  intros Hm Hy Hd. assert (28 * (Z.of_nat (adjust_fuel d) - 1) > Z.abs d /\ 28 * Z.of_nat (adjust_fuel d) <= Z.abs d + 56) as [H1 H2]
    by (unfold adjust_fuel; rewrite Z2Nat.id by zdiv; zdiv).
  destruct (Z.ltb_spec 0 d); [apply adjust_up_int_eq | apply adjust_down_int_eq]; lia.
Qed.

(** The members and amounts are at most a thousand million. *)
Definition moderate (t : icaltimetype) (days hours minutes seconds : Z) : Prop :=
  Forall (fun v => Z.abs v <= 1000000000)
    [year t; month t; day t; hour t; minute t; second t; days; hours; minutes; seconds].

Lemma adjust_int_eq t days hours minutes seconds : moderate t days hours minutes seconds ->
  icaltime_adjust_int t days hours minutes seconds = Some (icaltime_adjust t days hours minutes seconds).
Proof.
  unfold moderate. rewrite !Forall_cons_iff. intros (Hy & Hm & Hd & Hh & Hmi & Hs & H1 & H2 & H3 & H4 & _).
  unfold icaltime_adjust_int, icaltime_adjust, add3_int, adjust_date.
  assert (forall (tt1 : icaltimetype) o, year tt1 = year t -> month tt1 = month t -> day tt1 = day t -> Z.abs o <= 90000000 ->
    (let* (y, m) := normalize_month_int (year tt1) (month tt1) in
     let* d := (let* s := int_value (day tt1 + days) in int_value (s + o)) in
     let* (y, m, d) := if 0 <? d then adjust_up_int (adjust_fuel d) y m d else adjust_down_int (adjust_fuel d) y m d in
     Some (set_date tt1 y m d)) =
    Some (let '(y, m, d) := (let '(year, month) := normalize_month (year tt1) (month tt1) in
            let d := day tt1 + days + o in
            if 0 <? d then adjust_up (adjust_fuel d) year month d else adjust_down (adjust_fuel d) year month d) in set_date tt1 y m d)) as Hdate.
  { intros tt1 o -> -> -> Ho. destruct (normalize_month_int_eq (year t) (month t) Hy Hm) as (-> & Hy' & Hm').
    destruct (normalize_month (year t) (month t)) as [y m]. cbn [fst snd] in *. in_int. in_int.
    rewrite adjust_date_int_eq by lia. cbv zeta. now destruct (if 0 <? _ then _ else _) as [[? ?] ?]. }
  destruct (icaltime_is_date t); [apply Hdate; auto; lia|].
  in_int. rewrite carry_int_eq by lia. pose proof (carry_bound (second t + seconds) 60 ltac:(lia)).
  destruct (carry (second t + seconds) 60) as [s om]. cbn [snd] in *. in_int. in_int.
  rewrite carry_int_eq by lia. pose proof (carry_bound (minute t + minutes + om) 60 ltac:(lia)).
  destruct (carry (minute t + minutes + om) 60) as [mi oh]. cbn [snd] in *. in_int. in_int.
  rewrite carry_int_eq by lia. pose proof (carry_bound (hour t + hours + oh) 24 ltac:(lia)).
  destruct (carry (hour t + hours + oh) 24) as [h od]. cbn [snd] in *. apply Hdate; auto. lia.
Qed.

(** C6: [icaltime_adjust] in the arithmetic of [int].  When no member and no amount is
    beyond a thousand million, no operation overflows and the loops end, with a
    normalised time - a real date, and for a date-time a time of day in range -
    whose instant is the sum of the given instant and of the amounts; a DATE value is
    moved by the days only and its other members stay.  The function on unbounded
    integers that the other components use gives the same time. *)
Theorem icaltime_adjust_correct (t : icaltimetype) (days hours minutes seconds : Z) :
  moderate t days hours minutes seconds ->
  exists r, icaltime_adjust_int t days hours minutes seconds = Some r /\ r = icaltime_adjust t days hours minutes seconds /\
    normalized r /\
    is_date r = is_date t /\ is_daylight r = is_daylight t /\ zone r = zone t /\
    if icaltime_is_date t then
      day_number (year r) (month r) (day r) = day_number (year t) (month t) (day t) + days /\
      hour r = hour t /\ minute r = minute t /\ second r = second t
    else instant r = instant t + days * 86400 + hours * 3600 + minutes * 60 + seconds.
Proof. intros Hm. eexists. split; [now apply adjust_int_eq|]. split; [reflexivity | apply adjust_spec]. Qed.

(** The last second of 1999 and a hundred days. *)
Lemma icaltime_adjust_correct_witness :
  let t := IcalTime 1999 12 31 23 59 59 0 0 ZONE_UTC in
  exists r, icaltime_adjust_int t 100 0 0 1 = Some r /\ r = icaltime_adjust t 100 0 0 1 /\ normalized r /\
    is_date r = is_date t /\ is_daylight r = is_daylight t /\ zone r = zone t /\
    instant r = instant t + 100 * 86400 + 0 * 3600 + 0 * 60 + 1.
Proof. apply (icaltime_adjust_correct (IcalTime 1999 12 31 23 59 59 0 0 ZONE_UTC) 100 0 0 1). repeat constructor; cbn; lia. Defined.

(** Beyond, the sum of the seconds may overflow. *)
Example seconds_overflow : icaltime_adjust_int (IcalTime 2000 1 1 0 0 1 0 0 ZONE_UTC) 0 0 0 INT_MAX = None.
Proof. reflexivity. Qed.

(** [icaltime_from_day_of_year] counts from the first of January: for a day
    of the year, and for zero and negative numbers that reach back into the
    year before, the result is a real date and lies that many days after
    31 December. *)
Theorem from_day_of_year_correct (doy y : Z) :
  1 - icaltime_days_in_year (y - 1) <= doy <= icaltime_days_in_year y ->
  let r := icaltime_from_day_of_year doy y in
  valid_date (year r) (month r) (day r) /\
  day_number (year r) (month r) (day r) = days_before_year y + doy /\
  is_date r = 1 /\ zone r = ZONE_NULL.
Proof. apply from_doy_spec. Qed.

Lemma from_day_of_year_correct_witness :
  let r := icaltime_from_day_of_year (-1) 2001 in
  day_number (year r) (month r) (day r) = days_before_year 2001 - 1.
Proof.
  apply (from_day_of_year_correct (-1) 2001). vm_compute. split; discriminate.
Defined.

(** [icaltime_from_day_of_year] inverts [icaltime_day_of_year] on every real
    date, and [icaltime_day_of_year] stays within the days of the year. *)
Theorem day_of_year_roundtrip (t : icaltimetype) :
  valid_date (year t) (month t) (day t) ->
  let r := icaltime_from_day_of_year (icaltime_day_of_year t) (year t) in
  year r = year t /\ month r = month t /\ day r = day t /\
  1 <= icaltime_day_of_year t <= icaltime_days_in_year (year t).
Proof.
  intros Hv. pose proof (from_doy_roundtrip t Hv) as (Ey & Em & Ed).
  pose proof (day_of_year_range t Hv). auto.
Qed.

Lemma day_of_year_roundtrip_witness :
  let t := IcalTime 2000 12 31 0 0 0 1 0 ZONE_NULL in
  day (icaltime_from_day_of_year (icaltime_day_of_year t) 2000) = 31.
Proof.
  apply (day_of_year_roundtrip (IcalTime 2000 12 31 0 0 0 1 0 ZONE_NULL)).
  vm_compute. repeat split; discriminate.
Defined.

(** Past the end of the year [icaltime_from_day_of_year] goes on with the
    leap-year table of the year it left: day 366 + 60 of the leap year 2020
    becomes 29 February 2021, a date that does not exist. *)
Theorem from_day_of_year_next_year_wrong :
  let r := icaltime_from_day_of_year (366 + 60) 2020 in
  year r = 2021 /\ month r = 2 /\ day r = 29 /\
  ~ valid_date (year r) (month r) (day r).
Proof.
  repeat split. intros [_ H]. vm_compute in H. destruct H as [_ H]. now apply H.
Qed.

(** From 1753 on [icaltime_day_of_week] gives consecutive days consecutive
    weekdays from 1 (Sunday) to 7, with 1 January 1970 a Thursday. *)
Theorem day_of_week_correct (t : icaltimetype) :
  1753 <= year t -> valid_date (year t) (month t) (day t) ->
  icaltime_day_of_week t =
  (day_number (year t) (month t) (day t) - day_number 1970 1 1 + 4) mod 7 + 1.
Proof. apply day_of_week_number. Qed.

Lemma day_of_week_correct_witness :
  icaltime_day_of_week (IcalTime 2000 2 29 0 0 0 1 0 ZONE_NULL) = 3.
Proof.
  rewrite (day_of_week_correct (IcalTime 2000 2 29 0 0 0 1 0 ZONE_NULL)).
  - reflexivity.
  - vm_compute. discriminate.
  - vm_compute. repeat split; discriminate.
Defined.

(** The leap years of [icaltime_is_leap_year] follow the Julian calendar up to
    1752 and the day numbers of [juldat_int] only up to 1582: 29 February 1700
    is a date of the first and has the weekday of the day after it. *)
Theorem reform_years_disagree :
  valid_date 1700 2 29 /\
  icaltime_day_of_week (IcalTime 1700 2 29 0 0 0 1 0 ZONE_NULL) =
  icaltime_day_of_week (IcalTime 1700 3 1 0 0 0 1 0 ZONE_NULL).
Proof. split; [vm_compute; repeat split; discriminate | reflexivity]. Qed.

(** [icaltime_as_timet] where [make_time] is exact. *)
Lemma as_timet_instant t :
  normalized t -> icaltime_is_date t = false -> 1901 <= year t <= 2099 ->
  icaltime_as_timet t = instant t - epoch.
Proof.
  intros [[Hm Hd] Hc] Hdt Hy. specialize (Hc Hdt). unfold valid_clock in Hc.
  unfold icaltime_as_timet.
  assert (icaltime_is_null_time t = false) as -> by (unfold icaltime_is_null_time; lia).
  rewrite Hdt. now apply make_time_instant.
Qed.

(** In 1901 to 2099 both conversions to [time_t] give the seconds between the
    epoch and the time: [icaltime_as_timet], and [icaltime_as_timet_with_zone]
    of a UTC time (from 1753 on). *)
Theorem as_timet_correct `{TZL : TimezoneLaws} (t : icaltimetype) :
  normalized t -> icaltime_is_date t = false -> 1753 <= year t ->
  icaltime_as_timet_with_zone t ZONE_UTC = instant t - epoch /\
  (1901 <= year t <= 2099 -> icaltime_as_timet t = instant t - epoch).
Proof.
  intros [[Hm Hd] Hc] Hdt Hy. specialize (Hc Hdt). unfold valid_clock in Hc.
  assert (icaltime_is_null_time t = false) as Hn by (unfold icaltime_is_null_time; lia).
  unfold icaltime_as_timet_with_zone, icaltime_as_timet. rewrite Hn, Hdt, convert_same.
  split; [|intros; now apply make_time_instant].
  rewrite <- (timegm_instant t) by assumption. reflexivity.
Qed.

(** A library with no zones but UTC, where nothing is converted. *)
Definition utc_only : TimezoneConv := {| icaltimezone_convert_time t _ _ := t |}.

#[export] Instance utc_only_laws : TimezoneLaws utc_only.
Proof. split; reflexivity. Qed.

Lemma as_timet_correct_witness :
  @icaltime_as_timet_with_zone utc_only (IcalTime 2000 2 29 1 2 3 0 0 ZONE_UTC) ZONE_UTC = 951786123 /\
  icaltime_as_timet (IcalTime 2000 2 29 1 2 3 0 0 ZONE_UTC) = 951786123.
Proof.
  pose proof (as_timet_correct (TZL := utc_only_laws) (IcalTime 2000 2 29 1 2 3 0 0 ZONE_UTC)) as H.
  destruct H as [H1 H2].
  - vm_compute. repeat split; discriminate.
  - reflexivity.
  - vm_compute. discriminate.
  - rewrite H1, H2 by (vm_compute; split; discriminate). split; reflexivity.
Defined.

(** From March 2100 on [icaltime_as_timet] is a day late, because [make_time]
    takes 2100 for a leap year. *)
Theorem as_timet_2100_wrong `{TimezoneLaws} :
  let t := IcalTime 2100 3 1 0 0 0 0 0 ZONE_UTC in
  icaltime_as_timet t = icaltime_as_timet_with_zone t ZONE_UTC + 86400.
Proof.
  unfold icaltime_as_timet_with_zone. cbn [set_is_date year month day hour minute second zone is_daylight].
  rewrite convert_same. reflexivity.
Qed.

(** The broken-down time of a second count from 1753 on. *)
Lemma gmtime_spec n :
  -79257 * 86400 <= n < 2 ^ 55 ->
  exists g, gmtime_r n = Some g /\
    let t := IcalTime (tm_year g + 1900) (tm_mon g + 1) (tm_mday g) (tm_hour g) (tm_min g)
               (tm_sec g) 0 0 ZONE_UTC in
    1753 <= year t /\ normalized t /\ instant t = n + epoch.
Proof.
  intros Hn. unfold gmtime_r. assert (-79257 <= n / 86400) as Hd by zdiv.
  pose proof (civil_from_days_spec (n / 86400) Hd) as Hc.
  destruct (civil_from_days (n / 86400)) as [[y m] d]. destruct Hc as (Hy & Hv & En).
  assert (y - 1900 <= INT_MAX) as Hmax.
  { change (2 ^ 55) with 36028797018963968 in Hn. unfold INT_MAX.
    rewrite day_number_month in En by apply Hv. change (day_number 1970 1 1) with 719542 in En.
    pose proof (days_before_month_bound y m (proj1 Hv)). pose proof (proj2 Hv).
    unfold days_before_year in En. destruct (Z.leb_spec y 1753); zdiv. }
  assert ((INT_MIN <=? y - 1900) && (y - 1900 <=? INT_MAX) = true)%bool as ->.
  { unfold INT_MIN in *. lia. }
  eexists. split; [reflexivity|].
  cbn [tm_year tm_mon tm_mday tm_hour tm_min tm_sec year month day].
  replace (y - 1900 + 1900) with y by lia. replace (m - 1 + 1) with m by lia.
  split; [assumption|]. split.
  - split; [assumption|]. intros _. unfold valid_clock. cbn [hour minute second]. zdiv.
  - unfold instant, epoch. cbn [year month day hour minute second]. rewrite En. zdiv.
Qed.

Lemma icaltime_eta t :
  t = IcalTime (year t) (month t) (day t) (hour t) (minute t) (second t) (is_date t)
        (is_daylight t) (zone t).
Proof. destruct t; reflexivity. Qed.

(** A time is determined by its instant. *)
Lemma instant_inj a b :
  normalized a -> normalized b -> icaltime_is_date a = false -> icaltime_is_date b = false ->
  instant a = instant b ->
  year a = year b /\ month a = month b /\ day a = day b /\
  hour a = hour b /\ minute a = minute b /\ second a = second b.
Proof.
  intros [Ha Ca] [Hb Cb] Da Db E. specialize (Ca Da). specialize (Cb Db).
  unfold valid_clock, instant in *.
  set (na := day_number (year a) (month a) (day a)) in *.
  set (nb := day_number (year b) (month b) (day b)) in *.
  assert (na = nb /\ hour a = hour b /\ minute a = minute b /\ second a = second b)
    as (En & -> & -> & ->) by lia.
  destruct (day_number_inj _ _ _ _ _ _ Ha Hb En) as (-> & -> & ->). repeat split.
Qed.

(** The conversions between [time_t] and UTC times are inverse to each other,
    both ways, from 1753 on. *)
Theorem timet_utc_roundtrip `{TZL : TimezoneLaws} :
  (forall n, -79257 * 86400 <= n < 2 ^ 55 ->
     let t := icaltime_from_timet_with_zone n 0 ZONE_UTC in
     normalized t /\ icaltime_as_timet_with_zone t ZONE_UTC = n) /\
  (forall t, normalized t -> is_date t = 0 -> is_daylight t = 0 -> zone t = ZONE_UTC ->
     1753 <= year t <= 100000000 ->
     icaltime_from_timet_with_zone (icaltime_as_timet_with_zone t ZONE_UTC) 0 ZONE_UTC = t).
Proof.
  assert (forall t, normalized t -> icaltime_is_date t = false -> 1753 <= year t ->
    icaltime_as_timet_with_zone t ZONE_UTC = instant t - epoch) as Has.
  { intros t [[Hm Hd] Hc] Hdt Hy. specialize (Hc Hdt). unfold valid_clock in Hc.
    unfold icaltime_as_timet_with_zone.
    assert (icaltime_is_null_time t = false) as -> by (unfold icaltime_is_null_time; lia).
    rewrite convert_same, <- (timegm_instant t) by assumption. reflexivity. }
  assert (forall n g, gmtime_r n = Some g ->
    icaltime_from_timet_with_zone n 0 ZONE_UTC =
    IcalTime (tm_year g + 1900) (tm_mon g + 1) (tm_mday g) (tm_hour g) (tm_min g)
      (tm_sec g) 0 0 ZONE_UTC) as Hfrom.
  { intros n g E. unfold icaltime_from_timet_with_zone. rewrite E, convert_same. reflexivity. }
  split.
  - intros n Hn. destruct (gmtime_spec n Hn) as (g & Eg & Hy & Hnorm & Ei).
    rewrite (Hfrom n g Eg). split; [assumption|]. rewrite Has; [lia | assumption | reflexivity | assumption].
  - intros t Hnt Hd0 Hdl Hz Hy.
    assert (icaltime_is_date t = false) as Hdt by (unfold icaltime_is_date; now rewrite Hd0).
    pose proof (Has t Hnt Hdt (proj1 Hy)) as E. rewrite E.
    assert (-79257 * 86400 <= instant t - epoch < 2 ^ 55) as Hr.
    { destruct Hnt as [[Hm Hd] Hc]. specialize (Hc Hdt). unfold valid_clock in Hc.
      pose proof (days_before_month_bound (year t) (month t) Hm).
      pose proof (days_in_year_range (year t)).
      unfold instant, epoch. rewrite day_number_month by assumption.
      change (day_number 1970 1 1) with 719542. change (2 ^ 55) with 36028797018963968.
      unfold days_before_year. destruct (Z.leb_spec (year t) 1753); zdiv. }
    destruct (gmtime_spec _ Hr) as (g & Eg & Hy' & Hnorm & Ei). rewrite (Hfrom _ g Eg).
    match type of Hnorm with normalized ?r =>
      destruct (instant_inj r t Hnorm Hnt eq_refl Hdt ltac:(lia)) as (E1 & E2 & E3 & E4 & E5 & E6)
    end.
    etransitivity; [|symmetry; apply icaltime_eta].
    rewrite Hd0, Hdl, Hz, <- E1, <- E2, <- E3, <- E4, <- E5, <- E6. reflexivity.
Qed.

Lemma timet_utc_roundtrip_witness :
  @icaltime_as_timet_with_zone utc_only
    (@icaltime_from_timet_with_zone utc_only 1600000000 0 ZONE_UTC) ZONE_UTC = 1600000000.
Proof.
  apply (timet_utc_roundtrip (TZL := utc_only_laws)). vm_compute. split; [discriminate | reflexivity].
Defined.

(** On normalised date-times that need no zone conversion - in the same zone,
    or one of them floating - [icaltime_compare] is the sign of the difference
    of the instants. *)
Theorem icaltime_compare_correct `{TimezoneConv} (a b : icaltimetype) :
  normalized a -> normalized b -> icaltime_is_date a = false -> icaltime_is_date b = false ->
  comparable a b = true ->
  icaltime_compare a b = Z.sgn (instant a - instant b).
Proof. apply icaltime_compare_instant. Qed.

Lemma icaltime_compare_correct_witness :
  let a := IcalTime 2000 2 29 23 59 59 0 0 ZONE_UTC in
  let b := IcalTime 2000 3 1 0 0 0 0 0 ZONE_UTC in
  @icaltime_compare utc_only a b = Z.sgn (instant a - instant b).
Proof.
  apply (@icaltime_compare_correct utc_only); try reflexivity;
    vm_compute; repeat split; discriminate.
Defined.

(** Two spans that are not empty overlap in the sense of
    [icaltime_span_overlaps] exactly when they share more than an end point, and
    one contains the other exactly when it reaches from before its start to
    after its end. *)
Theorem span_relations (s1 s2 : icaltime_span) :
  span_start s1 < span_end s1 -> span_start s2 < span_end s2 ->
  (icaltime_span_overlaps s1 s2 = true <->
   Z.max (span_start s1) (span_start s2) < Z.min (span_end s1) (span_end s2)) /\
  (icaltime_span_contains s1 s2 = true <->
   span_start s2 <= span_start s1 /\ span_end s1 <= span_end s2).
Proof.
  intros H1 H2. unfold icaltime_span_overlaps, icaltime_span_contains. lia.
Qed.

Lemma span_relations_witness :
  Z.max 0 5 < Z.min 10 15 /\
  icaltime_span_overlaps (Span 0 10 1) (Span 5 15 1) = true.
Proof.
  split; [reflexivity|].
  apply (span_relations (Span 0 10 1) (Span 5 15 1)); vm_compute; reflexivity.
Defined.
