(* ===== verification/IcalTimeText.v ===== *)
(** * The textual form of dates and times

    [icaltime_from_string] reads back what [icaltime_as_ical_string_r] writes.
    The helper lemmas about the fixed-width fields are shared by the files that
    print periods, triggers and recurrence rules. *)
From Stdlib Require Import String Ascii ZArith Lia Bool List.
From S2P Require Import Prelude CString IcalError IcalTime IcalTimeCalendar.
Import ListNotations.
#[local] Open Scope Z_scope.
#[local] Open Scope cstring_scope.

(** A time whose members all fit their fields in the text: a DATE carries no
    time of day and no zone, and a zone other than UTC has no text. *)
Definition printable (t : icaltimetype) : Prop :=
  0 <= year t < 10000 /\ 0 <= month t < 100 /\ 0 <= day t < 100 /\ is_daylight t = 0 /\
  ((is_date t = 1 /\ hour t = 0 /\ minute t = 0 /\ second t = 0 /\ zone t = ZONE_NULL) \/
   (is_date t = 0 /\ 0 <= hour t < 100 /\ 0 <= minute t < 100 /\ 0 <= second t < 100 /\
    (zone t = ZONE_NULL \/ zone t = ZONE_UTC))).

Lemma scan_int_4 z rest : 0 <= z < 10000 -> scan_int 4 (fmt_0d 4 z ++ rest) = Some (z, rest).
Proof. intros H. apply (scan_int_fmt_0d 3); unfold INT_MAX; [exact H | lia]. Qed.

Lemma scan_int_2 z rest : 0 <= z < 100 -> scan_int 2 (fmt_0d 2 z ++ rest) = Some (z, rest).
Proof. intros H. apply (scan_int_fmt_0d 1); unfold INT_MAX; [exact H | lia]. Qed.

Lemma fmt_4_length z : 0 <= z < 10000 -> length (fmt_0d 4 z) = 4%nat.
Proof. intros H. apply (fmt_0d_length 3). exact H. Qed.

Lemma fmt_2_length z : 0 <= z < 100 -> length (fmt_0d 2 z) = 2%nat.
Proof. intros H. apply (fmt_0d_length 1). exact H. Qed.

Lemma date_fields_length t :
  printable t -> length (print_date_fields t) = 8%nat.
Proof.
  intros (Hy & Hm & Hd & _). unfold print_date_fields.
  now rewrite !length_app, fmt_4_length, !fmt_2_length.
Qed.

Lemma time_fields_length t :
  printable t -> length (print_time_fields t) = 6%nat.
Proof.
  intros (_ & _ & _ & _ & H). unfold print_time_fields.
  rewrite !length_app, !fmt_2_length by lia. reflexivity.
Qed.

Lemma scan_date_fields t rest :
  printable t -> scan_date (print_date_fields t ++ rest) = Some (year t, month t, day t, rest).
Proof.
  intros (Hy & Hm & Hd & _). unfold scan_date, print_date_fields. rewrite <- !app_assoc.
  now rewrite scan_int_4, !scan_int_2.
Qed.

Lemma scan_time_fields t rest :
  printable t -> scan_time (print_time_fields t ++ rest) = Some (hour t, minute t, second t, rest).
Proof.
  intros (_ & _ & _ & _ & H). unfold scan_time, print_time_fields. rewrite <- !app_assoc.
  now rewrite !scan_int_2 by lia.
Qed.

(** The text of a printable time, free of the truncation of [snprintf]. *)
Lemma as_ical_string_shape t :
  printable t ->
  icaltime_as_ical_string_r t =
  if icaltime_is_date t then print_date_fields t
  else print_date_fields t ++ $"T" ++ print_time_fields t
       ++ (if icaltime_is_utc t then $"Z" else []).
Proof.
  intros H. pose proof (date_fields_length t H) as Hd. pose proof (time_fields_length t H) as Ht.
  unfold icaltime_as_ical_string_r, snprintf.
  destruct (icaltime_is_date t); [apply firstn_all2; simpl; lia|].
  destruct (icaltime_is_utc t); [|rewrite app_nil_r];
    apply firstn_all2; rewrite ?length_app, Hd, Ht; simpl; lia.
Qed.

Lemma as_ical_string_length t :
  printable t ->
  length (icaltime_as_ical_string_r t) =
  if icaltime_is_date t then 8%nat else if icaltime_is_utc t then 16%nat else 15%nat.
Proof.
  intros H. rewrite as_ical_string_shape by assumption.
  pose proof (date_fields_length t H) as Hd. pose proof (time_fields_length t H) as Ht.
  destruct (icaltime_is_date t), (icaltime_is_utc t); rewrite ?length_app, ?Hd, ?Ht; reflexivity.
Qed.

(** [icaltime_scan] on the three sizes of the compact formats. *)
Lemma scan_size_8 str :
  length str = 8%nat ->
  icaltime_scan str =
  (let* (y, m, d, _) := scan_date str in Some (IcalTime y m d 0 0 0 1 0 ZONE_NULL)).
Proof. intros E. unfold icaltime_scan. rewrite E. reflexivity. Qed.

Definition scan_compact (z : icaltimezone_ptr) (str : cstring) : option icaltimetype :=
  let* (y, m, d, r) := scan_date str in
  let* (tsep, r) := scan_char r in
  let* (h, mi, s, _) := scan_time r in
  if negb (Ascii.eqb tsep "T") then None else Some (IcalTime y m d h mi s 0 0 z).

Lemma scan_size_15 str :
  length str = 15%nat -> icaltime_scan str = scan_compact ZONE_NULL str.
Proof. intros E. unfold icaltime_scan. rewrite E. reflexivity. Qed.

Lemma scan_size_16 str :
  length str = 16%nat ->
  icaltime_scan str =
  if Ascii.eqb (nth 15 str "000"%char) "Z" then scan_compact ZONE_UTC str else None.
Proof.
  intros E. unfold icaltime_scan. rewrite E. cbn [Nat.eqb orb Nat.sub].
  destruct (Ascii.eqb _ "Z"); reflexivity.
Qed.

Lemma scan_compact_fields z t rest :
  printable t ->
  scan_compact z (print_date_fields t ++ $"T" ++ print_time_fields t ++ rest) =
  Some (IcalTime (year t) (month t) (day t) (hour t) (minute t) (second t) 0 0 z).
Proof.
  intros H. unfold scan_compact. rewrite scan_date_fields by assumption.
  cbn [app lit list_ascii_of_string scan_char]. rewrite scan_time_fields by assumption.
  reflexivity.
Qed.

Lemma scan_as_ical_string t :
  printable t -> icaltime_scan (icaltime_as_ical_string_r t) = Some t.
Proof.
  intros H. pose proof (as_ical_string_length t H) as Hl.
  rewrite as_ical_string_shape in * by assumption.
  pose proof H as (_ & _ & _ & Hdl & Hcase).
  unfold icaltime_is_date, icaltime_is_utc, icaltimezone_get_utc_timezone in *.
  destruct Hcase as [(Ed & Eh & Emi & Es & Ez) | (Ed & _ & _ & _ & Hz)];
    rewrite Ed in *; [change (truthy 1) with true in * | change (truthy 0) with false in *];
    cbv iota in *.
  - rewrite scan_size_8, <- (app_nil_r (print_date_fields t)), scan_date_fields by assumption.
    f_equal. etransitivity; [|symmetry; apply icaltime_eta].
    now rewrite Ed, Eh, Emi, Es, Ez, Hdl.
  - destruct Hz as [Ez|Ez]; rewrite Ez in *; cbn [zone_eqb] in *; cbv iota in *.
    + rewrite scan_size_15, scan_compact_fields by assumption.
      f_equal. etransitivity; [|symmetry; apply icaltime_eta]. now rewrite Ed, Hdl, Ez.
    + rewrite scan_size_16, scan_compact_fields by assumption.
      pose proof (date_fields_length t H) as L1. pose proof (time_fields_length t H) as L2.
      rewrite app_nth2, L1, app_nth2, app_nth2, L2 by (rewrite ?L1, ?L2; simpl; lia).
      cbn. f_equal. etransitivity; [|symmetry; apply icaltime_eta]. now rewrite Ed, Hdl, Ez.
Qed.

(** [icaltime_from_string] reads back what [icaltime_as_ical_string_r]
    writes, for a DATE, a floating date-time and a UTC date-time whose members
    have at most four and two digits, and leaves the error state alone. *)
Theorem time_text_roundtrip (t : icaltimetype) (st : error_state) :
  printable t -> icaltime_from_string (icaltime_as_ical_string_r t) st = Some (t, st).
Proof.
  intros H. unfold icaltime_from_string. now rewrite scan_as_ical_string.
Qed.

Lemma time_text_roundtrip_witness :
  icaltime_from_string
    (icaltime_as_ical_string_r (IcalTime 2000 2 29 23 59 59 0 0 ZONE_UTC))
    (initial_error_state true)
  = Some (IcalTime 2000 2 29 23 59 59 0 0 ZONE_UTC, initial_error_state true).
Proof.
  apply (time_text_roundtrip (IcalTime 2000 2 29 23 59 59 0 0 ZONE_UTC)).
  unfold printable. cbn. repeat split; try lia. right. repeat split; try lia. now right.
Defined.

(** Text that [icaltime_from_string] does not accept gives the null time and
    sets the error number; where malformed data is fatal the process stops. *)
Lemma time_text_error (str : cstring) (st : error_state) :
  icaltime_scan str = None ->
  icaltime_from_string str st =
  if nonfatal st ICAL_MALFORMEDDATA_ERROR
  then Some (icaltime_null_time, with_errno st ICAL_MALFORMEDDATA_ERROR) else None.
Proof.
  intros H. unfold icaltime_from_string, bind. rewrite H, set_errno_spec.
  now destruct (nonfatal st ICAL_MALFORMEDDATA_ERROR).
Qed.
