(* ===== verification/IcalDuration.v ===== *)
(** * Durations (icalduration.c, icalduration.h)

    A duration is a sign and five unsigned counters.  Its arithmetic is that of
    [unsigned int] and wraps at 32 bits where the source does. *)
From Stdlib Require Import String Ascii ZArith Lia Bool List.
From S2P Require Import Prelude CString IcalError CalDate IcalTime IcalTimeCalendar.
Import ListNotations.
#[local] Open Scope Z_scope.
#[local] Open Scope cstring_scope.

Record icaldurationtype := Duration {
  is_neg : Z;
  days : Z;
  weeks : Z;
  hours : Z;
  minutes : Z;
  seconds : Z
}.

Definition icaldurationtype_null_duration : icaldurationtype := Duration 0 0 0 0 0 0.

(** The result of a failed parse. *)
Definition icaldurationtype_bad_duration : icaldurationtype := Duration (-1) 0 0 0 0 0.

Definition icaldurationtype_is_bad_duration (d : icaldurationtype) : bool := is_neg d =? -1.

(** ** Seconds *)

Definition week_secs : Z := 60 * 60 * 24 * 7.

(** The remainders in the branch below are taken from [ut], so none of the
    unsigned operations wraps. *)
Definition icaldurationtype_from_int (t : Z) : icaldurationtype :=
  let neg := if t <? 0 then 1 else 0 in
  let t := if t <? 0 then to_int32 (- t) else t in
  let ut := to_uint32 t in
  if ut mod week_secs =? 0 then Duration neg 0 (ut / week_secs) 0 0 0
  else
    let used := 0 in
    let days := (ut - used) / (60 * 60 * 24) in
    let used := used + days * (60 * 60 * 24) in
    let hours := (ut - used) / (60 * 60) in
    let used := used + hours * (60 * 60) in
    let minutes := (ut - used) / 60 in
    let used := used + minutes * 60 in
    Duration neg days 0 hours minutes (ut - used).

Definition icaldurationtype_as_int (d : icaldurationtype) : Z :=
  to_int32
    (to_uint32 (seconds d + 60 * (minutes d + 60 * (hours d + 24 * (days d + 7 * weeks d))))
     * (if is_neg d =? 1 then -1 else 1)).

Definition icaldurationtype_is_null_duration (d : icaldurationtype) : bool :=
  icaldurationtype_as_int d =? 0.

(** ** Reading *)

(** The variables of the loop; [digits] is -1 when no number is pending. *)
Record dur_state := DurState {
  ds_begin : bool;
  ds_time : bool;
  ds_date : bool;
  ds_digits : Z;
  ds_dur : icaldurationtype
}.

Definition set_digits (st : dur_state) (v : Z) : dur_state :=
  DurState (ds_begin st) (ds_time st) (ds_date st) v (ds_dur st).

Definition set_dur (st : dur_state) (d : icaldurationtype) : dur_state :=
  DurState (ds_begin st) (ds_time st) (ds_date st) (-1) d.

(** One round of the [switch], at index [i] where the text [s] begins; [None]
    is [goto error]. *)
Definition dur_step (i : Z) (p : ascii) (s : cstring) (st : dur_state) : option dur_state :=
  let d := ds_dur st in
  let no_digits := ds_digits st =? -1 in
  if Ascii.eqb p "+" then
    if negb (i =? 0) || ds_begin st then None else Some st
  else if Ascii.eqb p "-" then
    if negb (i =? 0) || ds_begin st then None
    else Some (DurState (ds_begin st) (ds_time st) (ds_date st) (ds_digits st)
                 (Duration 1 (days d) (weeks d) (hours d) (minutes d) (seconds d)))
  else if Ascii.eqb p "P" then
    if negb (i =? 0) && negb (i =? 1) then None
    else Some (DurState true (ds_time st) (ds_date st) (ds_digits st) d)
  else if Ascii.eqb p "T" then
    Some (DurState (ds_begin st) true (ds_date st) (ds_digits st) d)
  else if isdigit p then
    if negb no_digits then Some st
    else if negb (ds_begin st) then None
    else match scan_int 10 s with
         | None => None
         | Some (v, _) => Some (set_digits st v)
         end
  else if Ascii.eqb p "H" then
    if negb (ds_time st) || negb (hours d =? 0) || no_digits then None
    else Some (set_dur st (Duration (is_neg d) (days d) (weeks d) (to_uint32 (ds_digits st))
                             (minutes d) (seconds d)))
  else if Ascii.eqb p "M" then
    if negb (ds_time st) || negb (minutes d =? 0) || no_digits then None
    else Some (set_dur st (Duration (is_neg d) (days d) (weeks d) (hours d)
                             (to_uint32 (ds_digits st)) (seconds d)))
  else if Ascii.eqb p "S" then
    if negb (ds_time st) || negb (seconds d =? 0) || no_digits then None
    else Some (set_dur st (Duration (is_neg d) (days d) (weeks d) (hours d) (minutes d)
                             (to_uint32 (ds_digits st))))
  else if Ascii.eqb p "W" then
    if ds_time st || ds_date st || negb (weeks d =? 0) || no_digits then None
    else Some (set_dur st (Duration (is_neg d) (days d) (to_uint32 (ds_digits st)) (hours d)
                             (minutes d) (seconds d)))
  else if Ascii.eqb p "D" then
    if ds_time st || negb (days d =? 0) || no_digits then None
    else Some (DurState (ds_begin st) (ds_time st) true (-1)
                 (Duration (is_neg d) (to_uint32 (ds_digits st)) (weeks d) (hours d)
                    (minutes d) (seconds d)))
  else None.

Fixpoint dur_loop (i : Z) (s : cstring) (st : dur_state) : option icaldurationtype :=
  match s with
  | [] => Some (ds_dur st)
  | p :: r =>
      match dur_step i p s st with
      | None => None
      | Some st' => dur_loop (i + 1) r st'
      end
  end.

Definition dur_init : dur_state :=
  DurState false false false (-1) icaldurationtype_null_duration.

Definition icaldurationtype_scan (str : cstring) : option icaldurationtype :=
  dur_loop 0 str dur_init.

Definition icaldurationtype_from_string (str : cstring) : err icaldurationtype :=
  match icaldurationtype_scan str with
  | Some d => ret d
  | None => bind (icalerror_set_errno ICAL_MALFORMEDDATA_ERROR)
              (fun _ => ret icaldurationtype_bad_duration)
  end.

(** ** Writing *)

Definition append_duration_segment (sep : cstring) (value : Z) : cstring := dec value ++ sep.

Definition segment_if (value : Z) (sep : string) : cstring :=
  if value =? 0 then [] else append_duration_segment ($sep) value.

Definition icaldurationtype_as_ical_string_r (d : icaldurationtype) : cstring :=
  if icaldurationtype_as_int d =? 0 then $"PT0S"
  else
    (if is_neg d =? 1 then $"-" else []) ++ $"P"
    ++ segment_if (weeks d) "W"
    ++ segment_if (days d) "D"
    ++ (if (hours d =? 0) && (minutes d =? 0) && (seconds d =? 0) then []
        else $"T" ++ segment_if (hours d) "H" ++ segment_if (minutes d) "M"
             ++ segment_if (seconds d) "S").

(** ** Times and durations *)

Definition icaltime_add (t : icaltimetype) (d : icaldurationtype) : icaltimetype :=
  let t' :=
    if is_neg d =? 0 then
      let t1 := set_time t (to_int32 (hour t + hours d)) (to_int32 (minute t + minutes d))
                  (to_int32 (second t + seconds d)) in
      set_date t1 (year t) (month t)
        (to_int32 (to_int32 (day t + days d) + to_uint32 (weeks d * 7)))
    else
      let t1 := set_time t (to_int32 (hour t - hours d)) (to_int32 (minute t - minutes d))
                  (to_int32 (second t - seconds d)) in
      set_date t1 (year t) (month t)
        (to_int32 (to_int32 (day t - days d) - to_uint32 (weeks d * 7))) in
  icaltime_normalize t'.

Definition icaltime_subtract (t1 t2 : icaltimetype) : icaldurationtype :=
  icaldurationtype_from_int (to_int32 (icaltime_as_timet t1 - icaltime_as_timet t2)).

(** ** Lemmas *)

(** The signed number of seconds, without the wrap of [icaldurationtype_as_int]. *)
Definition dur_secs (d : icaldurationtype) : Z :=
  (seconds d + 60 * (minutes d + 60 * (hours d + 24 * (days d + 7 * weeks d))))
  * (if is_neg d =? 0 then 1 else -1).

Lemma to_int32_mod z k : to_int32 (z + k * 2 ^ 32) = to_int32 z.
Proof.
  unfold to_int32, to_signed. f_equal.
  replace (z + k * 2 ^ 32 + 2 ^ (32 - 1)) with (z + 2 ^ (32 - 1) + k * 2 ^ 32) by lia.
  apply Z.mod_add. lia.
Qed.

Lemma as_int_secs d :
  is_neg d = 0 \/ is_neg d = 1 -> icaldurationtype_as_int d = to_int32 (dur_secs d).
Proof.
  intros Hn. unfold icaldurationtype_as_int, dur_secs, to_uint32, to_unsigned.
  set (s := seconds d + _). pose proof (Z.div_mod s (2 ^ 32) ltac:(lia)) as E.
  destruct Hn as [-> | ->].
  - change (0 =? 1) with false. change (0 =? 0) with true. cbv iota.
    rewrite <- (to_int32_mod _ (s / 2 ^ 32)). f_equal. lia.
  - change (1 =? 1) with true. change (1 =? 0) with false. cbv iota.
    rewrite <- (to_int32_mod _ (- (s / 2 ^ 32))). f_equal. lia.
Qed.

(** The magnitude of a duration, and the split of a number of seconds. *)
Definition dur_abs (d : icaldurationtype) : Z :=
  seconds d + 60 * (minutes d + 60 * (hours d + 24 * (days d + 7 * weeks d))).

Lemma split_weeks a : a mod 604800 = 0 -> 60 * (60 * (24 * (7 * (a / 604800)))) = a.
Proof. intros H. pose proof (Z.div_mod a 604800). lia. Qed.

Lemma split_days a :
  0 <= a ->
  let dd := a / 86400 in
  let hh := (a - dd * 86400) / 3600 in
  let mm := (a - (dd * 86400 + hh * 3600)) / 60 in
  let ss := a - (dd * 86400 + hh * 3600 + mm * 60) in
  0 <= dd /\ 0 <= hh < 24 /\ 0 <= mm < 60 /\ 0 <= ss < 60.
Proof. intros Ha. cbv zeta. zdiv. Qed.

Lemma from_int_abs t :
  INT_MIN < t <= INT_MAX -> to_uint32 (if t <? 0 then to_int32 (- t) else t) = Z.abs t.
Proof.
  unfold INT_MIN, INT_MAX. intros Ht. destruct (Z.ltb_spec t 0).
  - rewrite to_int32_small by (unfold is_int32, INT_MIN, INT_MAX; lia).
    rewrite to_uint32_small; unfold is_uint32; lia.
  - rewrite to_uint32_small; unfold is_uint32; lia.
Qed.

(** The counters of [icaldurationtype_from_int] and its value. *)
Lemma from_int_spec t :
  INT_MIN < t <= INT_MAX ->
  let d := icaldurationtype_from_int t in
  dur_abs d = Z.abs t /\ is_neg d = (if t <? 0 then 1 else 0) /\
  0 <= weeks d <= 3550 /\ 0 <= days d <= 24855 /\
  0 <= hours d < 24 /\ 0 <= minutes d < 60 /\ 0 <= seconds d < 60.
Proof.
  intros Ht. unfold icaldurationtype_from_int. cbv zeta. rewrite from_int_abs by exact Ht.
  unfold week_secs, dur_abs. change (60 * 60 * 24 * 7) with 604800.
  change (60 * 60 * 24) with 86400. change (60 * 60) with 3600.
  assert (0 <= Z.abs t <= 2147483647) as Ha by (unfold INT_MIN, INT_MAX in Ht; lia).
  revert Ha. generalize (Z.abs t) as a. intros a Ha. rewrite !Z.add_0_l, Z.sub_0_r.
  destruct (Z.eqb_spec (a mod 604800) 0) as [E|E]; cbn [is_neg days weeks hours minutes seconds].
  - pose proof (split_weeks a E). repeat split; try lia; zdiv.
  - pose proof (split_days a ltac:(lia)) as S. cbv zeta in S.
    set (dd := a / 86400) in *. assert (dd <= 24855) by (subst dd; zdiv). clearbody dd.
    set (hh := (a - dd * 86400) / 3600) in *. clearbody hh.
    set (mm := (a - (dd * 86400 + hh * 3600)) / 60) in *. clearbody mm.
    repeat split; try reflexivity; lia.
Qed.

Lemma dur_secs_abs d : dur_secs d = dur_abs d * (if is_neg d =? 0 then 1 else -1).
Proof. reflexivity. Qed.

Lemma from_int_secs t : INT_MIN < t <= INT_MAX -> dur_secs (icaldurationtype_from_int t) = t.
Proof.
  intros Ht. destruct (from_int_spec t Ht) as (E & N & _). rewrite dur_secs_abs, E, N.
  destruct (Z.ltb_spec t 0).
  - change (1 =? 0) with false. cbv iota. lia.
  - change (0 =? 0) with true. cbv iota. lia.
Qed.

(** Converting a number of seconds to a duration and back is the identity on
    every [int] but INT_MIN, whose negation overflows; the counters of the
    result are normalized, and weeks are used exactly for whole weeks. *)
Theorem duration_int_roundtrip t :
  INT_MIN < t <= INT_MAX ->
  let d := icaldurationtype_from_int t in
  icaldurationtype_as_int d = t /\
  (0 <= hours d < 24 /\ 0 <= minutes d < 60 /\ 0 <= seconds d < 60) /\
  (weeks d <> 0 -> days d = 0 /\ hours d = 0 /\ minutes d = 0 /\ seconds d = 0).
Proof.
  intros Ht d. pose proof (from_int_spec t Ht) as S. pose proof (from_int_secs t Ht) as E.
  fold d in E. cbv zeta in S. fold d in S. destruct S as (_ & N & _ & _ & Hh & Hm & Hs).
  split; [|split; [tauto|]].
  - rewrite as_int_secs by (rewrite N; destruct (t <? 0); tauto).
    rewrite E. apply to_int32_small. unfold is_int32. lia.
  - unfold d, icaldurationtype_from_int. cbv zeta.
    destruct (_ mod week_secs =? 0); cbn [days weeks hours minutes seconds]; intros;
      repeat split; congruence.
Qed.

Lemma duration_int_roundtrip_witness :
  icaldurationtype_as_int (icaldurationtype_from_int (-90061)) = -90061.
Proof.
  apply (duration_int_roundtrip (-90061)). unfold INT_MIN, INT_MAX. lia.
Defined.

(** ** Text *)

Lemma scan_int_dec v c rest :
  0 <= v <= INT_MAX -> isdigit c = false ->
  scan_int 10 (dec v ++ c :: rest) = Some (v, c :: rest).
Proof.
  intros Hv Hc. unfold INT_MAX in Hv. unfold scan_int.
  assert (length (dec v) <= 10)%nat by (apply dec_length; simpl; lia).
  rewrite skip_ws_digit by (auto using dec_nonempty; apply dec_digits; lia).
  rewrite scan_number_digits; try apply dec_nonempty; try assumption.
  - rewrite dec_val, to_int32_small; [reflexivity | unfold is_int32, INT_MIN, INT_MAX | ]; lia.
  - apply dec_digits. lia.
  - right. exact Hc.
  - rewrite dec_val; unfold LONG_MAX; lia.
Qed.

(** A digit is none of the letters of the grammar. *)
Lemma dur_step_digit i c s st :
  isdigit c = true ->
  dur_step i c s st =
    if negb (ds_digits st =? -1) then Some st
    else if negb (ds_begin st) then None
    else match scan_int 10 s with
         | None => None
         | Some (v, _) => Some (set_digits st v)
         end.
Proof.
  intros Hc. unfold dur_step. rewrite Hc.
  assert (forall d, isdigit d = false -> Ascii.eqb c d = false) as N.
  { intros d Hd. apply Ascii.eqb_neq. intros ->. congruence. }
  now rewrite (N "+"%char), (N "-"%char), (N "P"%char), (N "T"%char) by reflexivity.
Qed.

Lemma dur_loop_pending i ds rest st :
  all_digits ds -> ds_digits st <> -1 ->
  dur_loop i (ds ++ rest) st = dur_loop (i + Z.of_nat (length ds)) rest st.
Proof.
  intros Hd Hs. revert i. induction Hd as [|c r Hc Hr IH]; intros i.
  - simpl. f_equal. lia.
  - cbn [app dur_loop]. rewrite dur_step_digit by exact Hc.
    destruct (Z.eqb_spec (ds_digits st) (-1)); [contradiction|]. cbn [negb]. rewrite IH.
    f_equal. simpl length. lia.
Qed.

Lemma dur_loop_number i v c rest st :
  0 <= v <= INT_MAX -> isdigit c = false -> ds_begin st = true -> ds_digits st = -1 ->
  dur_loop i (dec v ++ c :: rest) st =
  dur_loop (i + Z.of_nat (length (dec v))) (c :: rest) (set_digits st v).
Proof.
  intros Hv Hc Hb Hn. pose proof (scan_int_dec v c rest Hv Hc) as Hs.
  pose proof (dec_digits v (proj1 Hv)) as Hd. pose proof (dec_nonempty v) as Hne.
  destruct (dec v) as [|d ds] eqn:E; [congruence|]. inversion Hd as [|? ? Hd1 Hd2]; subst.
  replace (i + Z.of_nat (length (d :: ds))) with (i + 1 + Z.of_nat (length ds))
    by (simpl length; lia).
  rewrite <- app_comm_cons. cbn [dur_loop]. rewrite dur_step_digit by exact Hd1.
  rewrite Hn, Hb. change (-1 =? -1) with true. cbn [negb]. rewrite app_comm_cons, Hs.
  apply dur_loop_pending; [exact Hd2 | simpl; lia].
Qed.

(** A printed segment: the number is stored by the letter that follows it. *)
Lemma dur_loop_segment i v sep c rest st st' :
  $sep = [c] -> isdigit c = false -> 0 <= v <= INT_MAX ->
  ds_begin st = true -> ds_digits st = -1 ->
  (v = 0 -> st' = st) ->
  (v <> 0 -> forall j s, dur_step j c s (set_digits st v) = Some st') ->
  exists j, dur_loop i (segment_if v sep ++ rest) st = dur_loop j rest st'.
Proof.
  intros Hsep Hc Hv Hb Hn H0 H1. unfold segment_if, append_duration_segment.
  destruct (Z.eqb_spec v 0) as [E|E].
  - rewrite (H0 E). exists i. reflexivity.
  - rewrite Hsep, <- app_assoc. cbn [app]. rewrite dur_loop_number by assumption.
    cbn [dur_loop]. rewrite (H1 E). eexists. reflexivity.
Qed.

(** The fields a parsed or computed duration has. *)
Definition wf_duration (d : icaldurationtype) : Prop :=
  (is_neg d = 0 \/ is_neg d = 1) /\
  0 <= days d <= INT_MAX /\ 0 <= weeks d <= INT_MAX /\ 0 <= hours d <= INT_MAX /\
  0 <= minutes d <= INT_MAX /\ 0 <= seconds d <= INT_MAX.

Lemma uint32_int v : 0 <= v <= INT_MAX -> to_uint32 v = v.
Proof. intros H. apply to_uint32_small. unfold is_uint32, INT_MAX in *. lia. Qed.

(** The part of the text after [P]. *)
Definition date_part (d : icaldurationtype) : cstring :=
  segment_if (weeks d) "W" ++ segment_if (days d) "D".
Definition time_part (d : icaldurationtype) : cstring :=
  segment_if (hours d) "H" ++ segment_if (minutes d) "M" ++ segment_if (seconds d) "S".

(** The side conditions of [dur_loop_segment] for one of the letters. *)
Ltac letter :=
  first
  [ reflexivity | assumption
  | let E := fresh in intros E; rewrite ?E; reflexivity
  | intros _ ? ?; unfold dur_step, set_digits, set_dur;
    cbn [ds_begin ds_time ds_date ds_digits ds_dur is_neg days weeks hours minutes seconds];
    repeat match goal with
    | |- context [Ascii.eqb ?a ?b] =>
        let r := eval vm_compute in (Ascii.eqb a b) in change (Ascii.eqb a b) with r
    | |- context [isdigit ?a] =>
        let r := eval vm_compute in (isdigit a) in change (isdigit a) with r
    end; cbv iota; change (0 =? 0) with true; cbn [negb orb];
    match goal with
    | |- context [?v =? -1] => destruct (Z.eqb_spec v (-1)); [exfalso; lia|]
    end; cbn [orb]; rewrite uint32_int by assumption; reflexivity ].

Lemma read_date_part i d rest :
  wf_duration d ->
  exists j dt,
    dur_loop i (date_part d ++ rest)
      (DurState true false false (-1) (Duration (is_neg d) 0 0 0 0 0)) =
    dur_loop j rest
      (DurState true false dt (-1) (Duration (is_neg d) (days d) (weeks d) 0 0 0)).
Proof.
  intros (_ & Hd & Hw & _). unfold date_part. rewrite <- app_assoc.
  destruct (dur_loop_segment i (weeks d) "W" "W"%char (segment_if (days d) "D" ++ rest)
    (DurState true false false (-1) (Duration (is_neg d) 0 0 0 0 0))
    (DurState true false false (-1) (Duration (is_neg d) 0 (weeks d) 0 0 0))) as [j ->];
    [letter .. |].
  destruct (dur_loop_segment j (days d) "D" "D"%char rest
    (DurState true false false (-1) (Duration (is_neg d) 0 (weeks d) 0 0 0))
    (DurState true false (negb (days d =? 0)) (-1)
       (Duration (is_neg d) (days d) (weeks d) 0 0 0))) as [k ->]; try letter.
  - intros Hne. destruct (Z.eqb_spec (days d) 0); [contradiction|]. revert Hne. letter.
  - eauto.
Qed.

Lemma read_time_part i d dt :
  wf_duration d ->
  dur_loop i (time_part d)
    (DurState true true dt (-1) (Duration (is_neg d) (days d) (weeks d) 0 0 0)) = Some d.
Proof.
  intros (_ & _ & _ & Hh & Hm & Hs). unfold time_part.
  destruct (dur_loop_segment i (hours d) "H" "H"%char
    (segment_if (minutes d) "M" ++ segment_if (seconds d) "S")
    (DurState true true dt (-1) (Duration (is_neg d) (days d) (weeks d) 0 0 0))
    (DurState true true dt (-1) (Duration (is_neg d) (days d) (weeks d) (hours d) 0 0)))
    as [j ->]; [letter .. |].
  destruct (dur_loop_segment j (minutes d) "M" "M"%char (segment_if (seconds d) "S")
    (DurState true true dt (-1) (Duration (is_neg d) (days d) (weeks d) (hours d) 0 0))
    (DurState true true dt (-1) (Duration (is_neg d) (days d) (weeks d) (hours d) (minutes d) 0)))
    as [k ->]; [letter .. |].
  rewrite <- (app_nil_r (segment_if _ _)).
  destruct (dur_loop_segment k (seconds d) "S" "S"%char []
    (DurState true true dt (-1) (Duration (is_neg d) (days d) (weeks d) (hours d) (minutes d) 0))
    (DurState true true dt (-1) d)) as [l ->]; try letter.
  - intros E. destruct d. simpl in *. now subst.
  - destruct d. cbn [is_neg days weeks hours minutes seconds] in *. letter.
Qed.

(** Reading back the text of a duration that is not printed as [PT0S]. *)
Lemma scan_as_ical_string_spec d :
  wf_duration d -> icaldurationtype_as_int d <> 0 ->
  icaldurationtype_scan (icaldurationtype_as_ical_string_r d) = Some d.
Proof.
  intros Hwf Hne. pose proof Hwf as (Hn & _ & _ & Hh & Hm & Hs).
  unfold icaldurationtype_as_ical_string_r.
  destruct (Z.eqb_spec (icaldurationtype_as_int d) 0); [contradiction|].
  set (tp := if _ && _ && _ then _ else _).
  assert (forall i dt,
    dur_loop i tp (DurState true false dt (-1) (Duration (is_neg d) (days d) (weeks d) 0 0 0))
    = Some d) as T.
  { intros i dt. subst tp. case_if.
    - bools. simpl. f_equal. destruct d. simpl in *. f_equal; lia.
    - cbn [lit app list_ascii_of_string]. exact (read_time_part (i + 1) d dt Hwf). }
  clearbody tp. rewrite (app_assoc (segment_if _ _)). fold (date_part d).
  destruct Hn as [Hn | Hn]; rewrite Hn in *.
  - change (0 =? 1) with false.
    destruct (read_date_part 1 d tp Hwf) as (j & dt & E). rewrite Hn, T in E. exact E.
  - change (1 =? 1) with true.
    destruct (read_date_part 2 d tp Hwf) as (j & dt & E). rewrite Hn, T in E. exact E.
Qed.

(** A duration whose counters are [int]s and whose value is not zero is read
    back unchanged from its text, and no error is raised on the way. *)
Theorem duration_text_roundtrip d es :
  wf_duration d -> icaldurationtype_as_int d <> 0 ->
  icaldurationtype_from_string (icaldurationtype_as_ical_string_r d) es = Some (d, es).
Proof.
  intros Hwf Hne. unfold icaldurationtype_from_string.
  now rewrite (scan_as_ical_string_spec d Hwf Hne).
Qed.

Lemma duration_text_roundtrip_witness :
  icaldurationtype_from_string (icaldurationtype_as_ical_string_r (Duration 1 2 3 4 5 6))
    (initial_error_state false) = Some (Duration 1 2 3 4 5 6, initial_error_state false).
Proof.
  apply (duration_text_roundtrip (Duration 1 2 3 4 5 6) (initial_error_state false)).
  - unfold wf_duration, INT_MAX. simpl. lia.
  - vm_compute. discriminate.
Defined.

(** The text of a nonzero duration is lost when its number of seconds is a
    multiple of 2^32: 33554432 weeks are written as [PT0S]. *)
Theorem duration_text_wraps :
  let d := Duration 0 0 33554432 0 0 0 in
  wf_duration d /\ icaldurationtype_as_ical_string_r d = $"PT0S" /\
  icaldurationtype_scan ($"P33554432W") = Some d.
Proof. split; [unfold wf_duration, INT_MAX; simpl; lia | split; vm_compute; reflexivity]. Qed.

(** ** Times and durations *)

(** Counters far enough from the ends of [int] for the sums of [icaltime_add]. *)
Definition small_duration (d : icaldurationtype) : Prop :=
  (is_neg d = 0 \/ is_neg d = 1) /\
  0 <= days d < 2 ^ 29 /\ 0 <= weeks d < 2 ^ 26 /\ 0 <= hours d < 2 ^ 30 /\
  0 <= minutes d < 2 ^ 30 /\ 0 <= seconds d < 2 ^ 30.

Definition signed (d : icaldurationtype) (v : Z) : Z := if is_neg d =? 0 then v else - v.

(** With small counters [icaltime_add] is [icaltime_adjust] by the signed counters. *)
Lemma icaltime_add_sums t d :
  normalized t -> valid_clock t -> small_duration d ->
  icaltime_add t d =
  icaltime_normalize
    (set_date (set_time t (hour t + signed d (hours d)) (minute t + signed d (minutes d))
                 (second t + signed d (seconds d)))
       (year t) (month t) (day t + signed d (days d + 7 * weeks d))).
Proof.
  intros [[Hm Hd] _] (Hh & Hmi & Hs) (Hn & Hdd & Hw & Hhh & Hmm & Hss).
  assert (icaltime_days_in_month (month t) (year t) <= 31) as H31.
  { unfold icaltime_days_in_month. generalize (month t) Hm. intros m Hm'.
    destruct (icaltime_is_leap_year _); each_month Hm'; vm_compute; discriminate. }
  change (2 ^ 29) with 536870912 in *. change (2 ^ 26) with 67108864 in *.
  change (2 ^ 30) with 1073741824 in *. unfold icaltime_add, signed.
  rewrite (to_uint32_small (weeks d * 7)) by (unfold is_uint32; lia).
  destruct Hn as [-> | ->].
  - change (0 =? 0) with true. cbv iota.
    rewrite (to_int32_small (day t + days d)) by (unfold is_int32, INT_MIN, INT_MAX; lia).
    rewrite !to_int32_small by (unfold is_int32, INT_MIN, INT_MAX; lia).
    f_equal. f_equal. lia.
  - change (1 =? 0) with false. cbv iota.
    rewrite (to_int32_small (day t - days d)) by (unfold is_int32, INT_MIN, INT_MAX; lia).
    rewrite !to_int32_small by (unfold is_int32, INT_MIN, INT_MAX; lia).
    f_equal. f_equal. lia.
Qed.

Lemma icaltime_add_spec t d :
  normalized t -> valid_clock t -> icaltime_is_date t = false -> small_duration d ->
  let r := icaltime_add t d in
  normalized r /\ is_date r = is_date t /\ is_daylight r = is_daylight t /\ zone r = zone t /\
  instant r = instant t + dur_secs d.
Proof.
  intros Ht Hc Hdt Hd. cbv zeta. rewrite (icaltime_add_sums t d Ht Hc Hd).
  unfold icaltime_normalize. set (u := set_date _ _ _ _).
  pose proof (adjust_spec u 0 0 0 0) as H. cbv zeta in H.
  assert (icaltime_is_date u = false) as Eu by exact Hdt. rewrite Eu in H.
  destruct H as (Hn & H1 & H2 & H3 & Hi). repeat (split; [assumption|]). rewrite Hi.
  unfold u, instant, set_date, set_time, dur_secs, signed, day_number.
  cbn [year month day hour minute second]. destruct (is_neg d =? 0); lia.
Qed.

(** Adding a duration moves a normalized date-time by exactly the signed
    number of seconds of the duration - weeks, days, hours, minutes and seconds
    together - and yields a normalized time of the same kind and zone. *)
Theorem icaltime_add_correct t d :
  normalized t -> icaltime_is_date t = false -> small_duration d ->
  let r := icaltime_add t d in
  normalized r /\ is_date r = is_date t /\ zone r = zone t /\
  instant r = instant t + dur_secs d.
Proof.
  intros Ht Hdt Hd. pose proof (proj2 Ht Hdt) as Hc.
  destruct (icaltime_add_spec t d Ht Hc Hdt Hd) as (H1 & H2 & _ & H3 & H4). auto.
Qed.

Lemma icaltime_add_correct_witness :
  instant (icaltime_add (IcalTime 2000 2 28 23 59 0 0 0 ZONE_UTC) (Duration 0 1 1 0 2 30)) =
  instant (IcalTime 2000 2 28 23 59 0 0 0 ZONE_UTC) + 691350.
Proof.
  apply (icaltime_add_correct (IcalTime 2000 2 28 23 59 0 0 0 ZONE_UTC) (Duration 0 1 1 0 2 30)).
  - split; [split; vm_compute; split; discriminate|].
    intros _. unfold valid_clock. cbn. lia.
  - reflexivity.
  - unfold small_duration. cbn. lia.
Defined.

(** Subtracting two date-times gives the duration that leads from the second
    to the first: adding it back to the second restores every date and clock
    field of the first, within the years where [icaltime_as_timet] is exact. *)
Theorem icaltime_subtract_add a b :
  normalized a -> normalized b -> icaltime_is_date a = false -> icaltime_is_date b = false ->
  1901 <= year a <= 2099 -> 1901 <= year b <= 2099 ->
  INT_MIN < instant a - instant b <= INT_MAX ->
  let r := icaltime_add b (icaltime_subtract a b) in
  year r = year a /\ month r = month a /\ day r = day a /\
  hour r = hour a /\ minute r = minute a /\ second r = second a.
Proof.
  intros Ha Hb Da Db Ya Yb Hr. cbv zeta. unfold icaltime_subtract.
  rewrite (as_timet_instant a Ha Da Ya), (as_timet_instant b Hb Db Yb).
  replace (instant a - epoch - (instant b - epoch)) with (instant a - instant b) by lia.
  rewrite to_int32_small by (unfold is_int32; lia).
  pose proof (from_int_spec _ Hr) as S. pose proof (from_int_secs _ Hr) as E. cbv zeta in S.
  set (d := icaldurationtype_from_int _) in *. clearbody d.
  assert (small_duration d) as Hd.
  { unfold small_duration. change (2 ^ 29) with 536870912. change (2 ^ 26) with 67108864.
    change (2 ^ 30) with 1073741824.
    split; [destruct S as (_ & -> & _); destruct (_ <? _); tauto | lia]. }
  destruct (icaltime_add_spec b d Hb (proj2 Hb Db) Db Hd) as (Hn & H1 & _ & _ & Hi).
  apply instant_inj; try assumption.
  - unfold icaltime_is_date in *. now rewrite H1.
  - lia.
Qed.

Lemma icaltime_subtract_add_witness :
  let a := IcalTime 2021 3 1 0 0 0 0 0 ZONE_UTC in
  let b := IcalTime 2020 2 29 12 30 15 0 0 ZONE_UTC in
  day (icaltime_add b (icaltime_subtract a b)) = 1.
Proof.
  apply (icaltime_subtract_add (IcalTime 2021 3 1 0 0 0 0 0 ZONE_UTC)
           (IcalTime 2020 2 29 12 30 15 0 0 ZONE_UTC));
    try reflexivity; try (cbn; lia);
    try (split; [split; vm_compute; split; discriminate | intros _; unfold valid_clock; cbn; lia]).
  vm_compute. split; [reflexivity | discriminate].
Defined.

(** ** The text of a duration is not the text of a time *)

Lemma icaltime_scan_no_number str : scan_int 4 str = None -> icaltime_scan str = None.
Proof.
  intros H. unfold icaltime_scan, scan_date, scan_date_sep. rewrite H.
  repeat match goal with |- context [if ?b then _ else _] => destruct b end; reflexivity.
Qed.

Lemma scan_int_P r : scan_int 4 ("P"%char :: r) = None.
Proof. reflexivity. Qed.

Lemma scan_int_minus_P r : scan_int 4 ("-"%char :: "P"%char :: r) = None.
Proof. reflexivity. Qed.

Lemma duration_text_not_time d : icaltime_scan (icaldurationtype_as_ical_string_r d) = None.
Proof.
  apply icaltime_scan_no_number. unfold icaldurationtype_as_ical_string_r.
  destruct (icaldurationtype_as_int d =? 0); [reflexivity|].
  destruct (is_neg d =? 1); [apply scan_int_minus_P | apply scan_int_P].
Qed.

Lemma duration_text_error str st :
  icaldurationtype_scan str = None ->
  icaldurationtype_from_string str st =
  if nonfatal st ICAL_MALFORMEDDATA_ERROR
  then Some (icaldurationtype_bad_duration, with_errno st ICAL_MALFORMEDDATA_ERROR) else None.
Proof.
  intros H. unfold icaldurationtype_from_string, bind. rewrite H, set_errno_spec.
  now destruct (nonfatal st ICAL_MALFORMEDDATA_ERROR).
Qed.
