(* ===== verification/IcalPeriod.v ===== *)
(** * Periods (icalperiod.c, icalperiod.h)

    A period is a start and either an end or a duration.  Reading one tries the
    second half as a time while malformed data is not fatal, then as a
    duration, and restores the error state. *)
From Stdlib Require Import String Ascii ZArith Lia Bool List.
From S2P Require Import Prelude CString IcalError IcalTime IcalTimeText IcalDuration.
Import ListNotations.
#[local] Open Scope Z_scope.
#[local] Open Scope cstring_scope.
#[local] Open Scope err_scope.

Record icalperiodtype := Period {
  p_start : icaltimetype;
  p_end : icaltimetype;
  p_duration : icaldurationtype
}.

Definition icalperiodtype_null_period : icalperiodtype :=
  Period icaltime_null_time icaltime_null_time icaldurationtype_null_duration.

Definition icalperiodtype_is_null_period (p : icalperiodtype) : bool :=
  icaltime_is_null_time (p_start p) && icaltime_is_null_time (p_end p)
  && icaldurationtype_is_null_duration (p_duration p).

Definition icalperiodtype_is_valid_period (p : icalperiodtype) : bool :=
  icaltime_is_valid_time (p_start p)
  && (icaltime_is_valid_time (p_end p) || icaltime_is_null_time (p_end p)).

(** [null_p] of the source. *)
Definition null_p : icalperiodtype :=
  Period icaltime_null_time icaltime_null_time (icaldurationtype_from_int 0).

(** The label [error]. *)
Definition period_error : err icalperiodtype :=
  icalerror_set_errno ICAL_MALFORMEDDATA_ERROR ;;; ret null_p.

Definition icalperiodtype_from_string (str : cstring) : err icalperiodtype :=
  e <- get_icalerrno ;;
  match split_at "/" str with
  | None => period_error
  | Some (start, fin) =>
      t_start <- icaltime_from_string start ;;
      if icaltime_is_null_time t_start then period_error
      else
        es <- icalerror_get_error_state ICAL_MALFORMEDDATA_ERROR ;;
        icalerror_set_error_state ICAL_MALFORMEDDATA_ERROR ICAL_ERROR_NONFATAL ;;;
        t_end <- icaltime_from_string fin ;;
        icalerror_set_error_state ICAL_MALFORMEDDATA_ERROR es ;;;
        if icaltime_is_null_time t_end then
          d <- icaldurationtype_from_string fin ;;
          if icaldurationtype_as_int d =? 0 then period_error
          else put_icalerrno e ;;; ret (Period t_start t_end d)
        else put_icalerrno e ;;; ret (Period t_start t_end (icaldurationtype_from_int 0))
  end.

Definition icalperiodtype_as_ical_string_r (p : icalperiodtype) : cstring :=
  icaltime_as_ical_string_r (p_start p) ++ $"/"
  ++ (if negb (icaltime_is_null_time (p_end p)) then icaltime_as_ical_string_r (p_end p)
      else icaldurationtype_as_ical_string_r (p_duration p)).

(** ** Lemmas *)

(** The text of a time has no slash. *)
Lemma all_digits_no_slash ds : all_digits ds -> Forall (fun c => c <> "/"%char) ds.
Proof. apply Forall_impl. intros c H ->. discriminate H. Qed.

Lemma time_text_no_slash t :
  printable t -> Forall (fun c => c <> "/"%char) (icaltime_as_ical_string_r t).
Proof.
  intros (Hy & Hm & Hd & _ & Hc). unfold icaltime_as_ical_string_r, snprintf, print_date_fields.
  assert (forall w z, 0 <= z -> Forall (fun c => c <> "/"%char) (fmt_0d w z)) as F
    by (intros; apply all_digits_no_slash, fmt_0d_digits; assumption).
  assert (Forall (fun c => c <> "/"%char) (print_time_fields t)).
  { unfold print_time_fields. rewrite !Forall_app.
    repeat split; apply F; destruct Hc as [(_ & ? & ? & ? & _) | Hc]; lia. }
  repeat case_if; apply firstn_Forall; rewrite ?Forall_app; repeat split; auto;
    try (apply F; lia); repeat constructor; discriminate.
Qed.

(** Trying a text that is not a time leaves a trace in [icalerrno] only. *)
Lemma masked_read_error {A} str st (k : icaltimetype -> err A) :
  map_ok (error_state_map st) -> icaltime_scan str = None ->
  (es <- icalerror_get_error_state ICAL_MALFORMEDDATA_ERROR ;;
   icalerror_set_error_state ICAL_MALFORMEDDATA_ERROR ICAL_ERROR_NONFATAL ;;;
   t <- icaltime_from_string str ;;
   icalerror_set_error_state ICAL_MALFORMEDDATA_ERROR es ;;; k t) st
  = k icaltime_null_time (with_errno st ICAL_MALFORMEDDATA_ERROR).
Proof.
  intros Hok Hs. unfold bind, icalerror_get_error_state.
  change (icalerror_set_error_state _ ICAL_ERROR_NONFATAL st) with (Some (tt, masked st)).
  cbv iota beta. rewrite (time_text_error str (masked st) Hs).
  rewrite <- (with_errno_same (masked st)) at 1. rewrite masked_nonfatal.
  change (icalerror_set_error_state ICAL_MALFORMEDDATA_ERROR ?s ?x) with (Some (tt, unmask x s)).
  cbv iota beta. now rewrite unmask_masked.
Qed.

Lemma masked_read_ok {A} str t st (k : icaltimetype -> err A) :
  map_ok (error_state_map st) -> icaltime_scan str = Some t ->
  (es <- icalerror_get_error_state ICAL_MALFORMEDDATA_ERROR ;;
   icalerror_set_error_state ICAL_MALFORMEDDATA_ERROR ICAL_ERROR_NONFATAL ;;;
   t <- icaltime_from_string str ;;
   icalerror_set_error_state ICAL_MALFORMEDDATA_ERROR es ;;; k t) st
  = k t st.
Proof.
  intros Hok Hs. unfold bind, icalerror_get_error_state.
  change (icalerror_set_error_state _ ICAL_ERROR_NONFATAL st) with (Some (tt, masked st)).
  cbv iota beta. unfold icaltime_from_string. rewrite Hs. unfold ret.
  change (icalerror_set_error_state ICAL_MALFORMEDDATA_ERROR ?s ?x) with (Some (tt, unmask x s)).
  cbv iota beta. rewrite <- (with_errno_same (masked st)), unmask_masked by exact Hok.
  change (icalerrno (masked st)) with (icalerrno st). now rewrite with_errno_same.
Qed.

(** The periods that have a text: one of end and duration is unset. *)
Definition printable_period (p : icalperiodtype) : Prop :=
  printable (p_start p) /\ icaltime_is_null_time (p_start p) = false /\
  ((printable (p_end p) /\ icaltime_is_null_time (p_end p) = false /\
    p_duration p = icaldurationtype_null_duration) \/
   (p_end p = icaltime_null_time /\ wf_duration (p_duration p) /\
    icaldurationtype_as_int (p_duration p) <> 0)).

Lemma period_read_back (p : icalperiodtype) (st : error_state) :
  map_ok (error_state_map st) -> printable_period p ->
  icalperiodtype_from_string (icalperiodtype_as_ical_string_r p) st = Some (p, st).
Proof.
  intros Hok (Hs & Hsn & He). unfold icalperiodtype_from_string, icalperiodtype_as_ical_string_r.
  unfold bind at 1. unfold get_icalerrno. cbv iota beta. cbn [lit list_ascii_of_string app].
  rewrite split_at_app by now apply time_text_no_slash.
  unfold bind at 1. unfold icaltime_from_string at 1. rewrite scan_as_ical_string by exact Hs.
  unfold ret at 1. cbv iota beta. rewrite Hsn.
  destruct He as [(He & Hen & Hd) | (He & Hwf & Hne)].
  - rewrite Hen. cbn [negb].
    rewrite masked_read_ok with (t := p_end p) by auto using scan_as_ical_string.
    rewrite Hen. unfold bind, put_icalerrno, ret.
    destruct p, st. cbn in *. now rewrite Hd.
  - rewrite He. change (icaltime_is_null_time icaltime_null_time) with true. cbn [negb].
    rewrite masked_read_error by auto using duration_text_not_time.
    change (icaltime_is_null_time icaltime_null_time) with true. cbv iota.
    unfold bind, icaldurationtype_from_string. rewrite scan_as_ical_string_spec by assumption.
    unfold ret. cbv iota beta. destruct (Z.eqb_spec (icaldurationtype_as_int (p_duration p)) 0);
      [contradiction|]. destruct p, st. cbn in *. now rewrite He.
Qed.

(** [icalperiodtype_from_string] reads back what
    [icalperiodtype_as_ical_string_r] writes, for a period with an end and for
    one with a duration, and restores the whole error state, although the text
    of a duration is first tried as a time and fails. *)
Theorem period_text_roundtrip (p : icalperiodtype) (st : error_state) :
  map_ok (error_state_map st) -> printable_period p ->
  icalperiodtype_from_string (icalperiodtype_as_ical_string_r p) st = Some (p, st).
Proof. apply period_read_back. Qed.

Lemma period_text_roundtrip_witness :
  let p := Period (IcalTime 1997 1 1 18 0 0 0 0 ZONE_UTC) icaltime_null_time
             (Duration 0 0 0 5 30 0) in
  icalperiodtype_from_string (icalperiodtype_as_ical_string_r p) (initial_error_state true)
  = Some (p, initial_error_state true).
Proof.
  intros p. apply (period_text_roundtrip p (initial_error_state true)).
  - apply initial_map_ok.
  - unfold p, printable_period, printable, wf_duration, INT_MAX. cbn.
    repeat split; try lia.
    + right. repeat split; try lia. now right.
    + right. repeat split; try lia. vm_compute. discriminate.
Defined.

(** The results of [icalperiodtype_from_string] in the state [st]. *)
Definition period_outcome (st : error_state) (r : option (icalperiodtype * error_state)) : Prop :=
  exists p st', r = Some (p, st') /\
    ((st' = st /\ icaltime_is_null_time (p_start p) = false /\
      (icaltime_is_null_time (p_end p) = false \/ icaldurationtype_as_int (p_duration p) <> 0))
     \/ (st' = with_errno st ICAL_MALFORMEDDATA_ERROR /\ p = null_p)).

Lemma period_error_outcome st e :
  nonfatal st ICAL_MALFORMEDDATA_ERROR = true ->
  period_outcome st (period_error (with_errno st e)).
Proof.
  intros Hnf. exists null_p, (with_errno st ICAL_MALFORMEDDATA_ERROR). split; [|now right].
  unfold period_error, bind. rewrite set_errno_spec.
  change (nonfatal (with_errno st e)) with (nonfatal st). now rewrite Hnf.
Qed.

(** The branch that reads the second half as a duration. *)
Lemma period_duration_outcome ts tf f st e :
  nonfatal st ICAL_MALFORMEDDATA_ERROR = true -> icaltime_is_null_time ts = false ->
  period_outcome st
    ((d <- icaldurationtype_from_string f ;;
      if icaldurationtype_as_int d =? 0 then period_error
      else put_icalerrno (icalerrno st) ;;; ret (Period ts tf d)) (with_errno st e)).
Proof.
  intros Hnf Hts. unfold bind at 1. destruct (icaldurationtype_scan f) as [d|] eqn:E.
  - unfold icaldurationtype_from_string. rewrite E. unfold ret at 1. cbv iota beta.
    destruct (Z.eqb_spec (icaldurationtype_as_int d) 0); [now apply period_error_outcome|].
    exists (Period ts tf d), st. split; [now destruct st | left; auto].
  - rewrite duration_text_error by exact E.
    change (nonfatal (with_errno st e)) with (nonfatal st). rewrite Hnf. cbv iota beta.
    now apply (period_error_outcome st ICAL_MALFORMEDDATA_ERROR).
Qed.

(** While malformed data is not fatal, [icalperiodtype_from_string] returns
    for every text; either it read a period with a start that is set and left
    the error state as it was, or it returns the null period with [icalerrno]
    set to malformed data; the table of error states is the same afterwards. *)
Theorem period_from_string_total (str : cstring) (st : error_state) :
  map_ok (error_state_map st) -> nonfatal st ICAL_MALFORMEDDATA_ERROR = true ->
  period_outcome st (icalperiodtype_from_string str st).
Proof.
  intros Hok Hnf. pose proof (period_error_outcome st (icalerrno st) Hnf) as Herr0.
  rewrite with_errno_same in Herr0.
  unfold icalperiodtype_from_string. unfold bind at 1. unfold get_icalerrno. cbv iota beta.
  destruct (split_at "/" str) as [[s f]|]; [|exact Herr0].
  unfold bind at 1. destruct (icaltime_scan s) as [ts|] eqn:Es.
  2:{ rewrite time_text_error, Hnf by exact Es. now apply period_error_outcome. }
  unfold icaltime_from_string at 1. rewrite Es. unfold ret at 1. cbv iota beta.
  destruct (icaltime_is_null_time ts) eqn:Ens; [exact Herr0|].
  destruct (icaltime_scan f) as [tf|] eqn:Ef.
  - rewrite masked_read_ok with (t := tf) by assumption.
    destruct (icaltime_is_null_time tf) eqn:Enf.
    + pose proof (period_duration_outcome ts tf f st (icalerrno st) Hnf Ens) as H.
      now rewrite with_errno_same in H.
    + exists (Period ts tf (icaldurationtype_from_int 0)), st.
      split; [now destruct st | left; auto].
  - rewrite masked_read_error by assumption. now apply period_duration_outcome.
Qed.

Lemma period_from_string_total_witness :
  exists p st', icalperiodtype_from_string ($"19970101T180000Z/P") (initial_error_state false)
    = Some (p, st') /\ p = null_p.
Proof.
  destruct (period_from_string_total ($"19970101T180000Z/P") (initial_error_state false))
    as (p & st' & E & [(_ & _ & H) | (_ & H)]).
  - apply initial_map_ok.
  - vm_compute. reflexivity.
  - exfalso. vm_compute in E. inversion E; subst. destruct H as [H|H]; [discriminate H|].
    apply H. vm_compute. reflexivity.
  - exists p, st'. split; [exact E | exact H].
Defined.
