(* ===== verification/IcalTypes.v ===== *)
(** * Alarm triggers and request status (icaltypes.c, icalenums.c) *)
From Stdlib Require Import String Ascii ZArith Lia Bool List.
From stdpp Require Import base decidable.
From S2P Require Import Prelude CString IcalError IcalTime IcalTimeText IcalDuration.
Import ListNotations.
#[local] Open Scope Z_scope.
#[local] Open Scope cstring_scope.
#[local] Open Scope err_scope.

(** ** Triggers *)

Record icaltriggertype := Trigger {
  tr_time : icaltimetype;
  tr_duration : icaldurationtype
}.

Definition icaltriggertype_is_null_trigger (tr : icaltriggertype) : bool :=
  icaltime_is_null_time (tr_time tr) && icaldurationtype_is_null_duration (tr_duration tr).

Definition icaltriggertype_is_bad_trigger (tr : icaltriggertype) : bool :=
  icaldurationtype_is_bad_duration (tr_duration tr).

Definition icaltriggertype_from_int (reltime : Z) : icaltriggertype :=
  Trigger icaltime_null_time (icaldurationtype_from_int reltime).

(** The label [error]. *)
Definition trigger_error (es : icalerrorstate) (tr : icaltriggertype) : err icaltriggertype :=
  icalerror_set_error_state ICAL_MALFORMEDDATA_ERROR es ;;;
  icalerror_set_errno ICAL_MALFORMEDDATA_ERROR ;;;
  ret tr.

(** [str] is [None] for a null pointer. *)
Definition icaltriggertype_from_string (str : option cstring) : err icaltriggertype :=
  es <- icalerror_get_error_state ICAL_MALFORMEDDATA_ERROR ;;
  match str with
  | None => trigger_error es (Trigger icaltime_null_time (icaldurationtype_from_int 0))
  | Some s =>
      icalerror_set_error_state ICAL_MALFORMEDDATA_ERROR ICAL_ERROR_NONFATAL ;;;
      e <- get_icalerrno ;;
      icalerror_set_errno ICAL_NO_ERROR ;;;
      t <- icaltime_from_string s ;;
      let finish tr :=
        icalerror_set_error_state ICAL_MALFORMEDDATA_ERROR es ;;;
        icalerror_set_errno e ;;;
        ret tr in
      if icaltime_is_null_time t then
        d <- icaldurationtype_from_string s ;;
        if icaldurationtype_is_bad_duration d then trigger_error es (Trigger t d)
        else finish (Trigger t d)
      else finish (Trigger t (icaldurationtype_from_int 0))
  end.

(** ** Request status *)

Inductive icalrequeststatus :=
| ICAL_UNKNOWN_STATUS
| ICAL_2_0_SUCCESS_STATUS
| ICAL_2_1_FALLBACK_STATUS
| ICAL_2_2_IGPROP_STATUS
| ICAL_2_3_IGPARAM_STATUS
| ICAL_2_4_IGXPROP_STATUS
| ICAL_2_5_IGXPARAM_STATUS
| ICAL_2_6_IGCOMP_STATUS
| ICAL_2_7_FORWARD_STATUS
| ICAL_2_8_ONEEVENT_STATUS
| ICAL_2_9_TRUNC_STATUS
| ICAL_2_10_ONETODO_STATUS
| ICAL_2_11_TRUNCRRULE_STATUS
| ICAL_3_0_INVPROPNAME_STATUS
| ICAL_3_1_INVPROPVAL_STATUS
| ICAL_3_2_INVPARAM_STATUS
| ICAL_3_3_INVPARAMVAL_STATUS
| ICAL_3_4_INVCOMP_STATUS
| ICAL_3_5_INVTIME_STATUS
| ICAL_3_6_INVRULE_STATUS
| ICAL_3_7_INVCU_STATUS
| ICAL_3_8_NOAUTH_STATUS
| ICAL_3_9_BADVERSION_STATUS
| ICAL_3_10_TOOBIG_STATUS
| ICAL_3_11_MISSREQCOMP_STATUS
| ICAL_3_12_UNKCOMP_STATUS
| ICAL_3_13_BADCOMP_STATUS
| ICAL_3_14_NOCAP_STATUS
| ICAL_3_15_INVCOMMAND
| ICAL_4_0_BUSY_STATUS
| ICAL_4_1_STORE_ACCESS_DENIED
| ICAL_4_2_STORE_FAILED
| ICAL_4_3_STORE_NOT_FOUND
| ICAL_5_0_MAYBE_STATUS
| ICAL_5_1_UNAVAIL_STATUS
| ICAL_5_2_NOSERVICE_STATUS
| ICAL_5_3_NOSCHED_STATUS
| ICAL_6_1_CONTAINER_NOT_FOUND
| ICAL_9_0_UNRECOGNIZED_COMMAND.

#[export] Instance icalrequeststatus_eq_dec : EqDecision icalrequeststatus.
Proof. solve_decision. Defined.

(** The rows before the one of [ICAL_UNKNOWN_STATUS], at which the searches stop. *)
Definition request_status_map : list (icalrequeststatus * Z * Z * cstring) :=
  [(ICAL_2_0_SUCCESS_STATUS, 2, 0, $"Success.");
   (ICAL_2_1_FALLBACK_STATUS, 2, 1, $"Success but fallback taken  on one or more property  values.");
   (ICAL_2_2_IGPROP_STATUS, 2, 2, $"Success, invalid property ignored.");
   (ICAL_2_3_IGPARAM_STATUS, 2, 3, $"Success, invalid property parameter ignored.");
   (ICAL_2_4_IGXPROP_STATUS, 2, 4, $"Success, unknown non-standard property ignored.");
   (ICAL_2_5_IGXPARAM_STATUS, 2, 5, $"Success, unknown non standard property value  ignored.");
   (ICAL_2_6_IGCOMP_STATUS, 2, 6, $"Success, invalid calendar component ignored.");
   (ICAL_2_7_FORWARD_STATUS, 2, 7, $"Success, request forwarded to Calendar User.");
   (ICAL_2_8_ONEEVENT_STATUS, 2, 8, $"Success, repeating event ignored. Scheduled as a  single component.");
   (ICAL_2_9_TRUNC_STATUS, 2, 9, $"Success, truncated end date time to date boundary.");
   (ICAL_2_10_ONETODO_STATUS, 2, 10, $"Success, repeating VTODO ignored. Scheduled as a  single VTODO.");
   (ICAL_2_11_TRUNCRRULE_STATUS, 2, 11, $"Success, unbounded RRULE clipped at some finite  number of instances  ");
   (ICAL_3_0_INVPROPNAME_STATUS, 3, 0, $"Invalid property name.");
   (ICAL_3_1_INVPROPVAL_STATUS, 3, 1, $"Invalid property value.");
   (ICAL_3_2_INVPARAM_STATUS, 3, 2, $"Invalid property parameter.");
   (ICAL_3_3_INVPARAMVAL_STATUS, 3, 3, $"Invalid property parameter  value.");
   (ICAL_3_4_INVCOMP_STATUS, 3, 4, $"Invalid calendar component.");
   (ICAL_3_5_INVTIME_STATUS, 3, 5, $"Invalid date or time.");
   (ICAL_3_6_INVRULE_STATUS, 3, 6, $"Invalid rule.");
   (ICAL_3_7_INVCU_STATUS, 3, 7, $"Invalid Calendar User.");
   (ICAL_3_8_NOAUTH_STATUS, 3, 8, $"No authority.");
   (ICAL_3_9_BADVERSION_STATUS, 3, 9, $"Unsupported version.");
   (ICAL_3_10_TOOBIG_STATUS, 3, 10, $"Request entity too large.");
   (ICAL_3_11_MISSREQCOMP_STATUS, 3, 11, $"Required component or property missing.");
   (ICAL_3_12_UNKCOMP_STATUS, 3, 12, $"Unknown component or property found.");
   (ICAL_3_13_BADCOMP_STATUS, 3, 13, $"Unsupported component or property found");
   (ICAL_3_14_NOCAP_STATUS, 3, 14, $"Unsupported capability.");
   (ICAL_3_15_INVCOMMAND, 3, 15, $"Invalid command.");
   (ICAL_4_0_BUSY_STATUS, 4, 0, $"Event conflict. Date/time  is busy.");
   (ICAL_4_1_STORE_ACCESS_DENIED, 4, 1, $"Store Access Denied.");
   (ICAL_4_2_STORE_FAILED, 4, 2, $"Store Failed.");
   (ICAL_4_3_STORE_NOT_FOUND, 4, 3, $"Store not found.");
   (ICAL_5_0_MAYBE_STATUS, 5, 0, $"Request MAY supported.");
   (ICAL_5_1_UNAVAIL_STATUS, 5, 1, $"Service unavailable.");
   (ICAL_5_2_NOSERVICE_STATUS, 5, 2, $"Invalid calendar service.");
   (ICAL_5_3_NOSCHED_STATUS, 5, 3, $"No scheduling support for  user.");
   (ICAL_6_1_CONTAINER_NOT_FOUND, 6, 1, $"Container not found.");
   (ICAL_9_0_UNRECOGNIZED_COMMAND, 9, 0, $"An unrecognized command was received.")].

Fixpoint find_kind (m : list (icalrequeststatus * Z * Z * cstring)) (stat : icalrequeststatus)
  : option (Z * Z * cstring) :=
  match m with
  | [] => None
  | (k, major, minor, str) :: r =>
      if decide (k = stat) then Some (major, minor, str) else find_kind r stat
  end.

Definition icalenum_reqstat_desc (stat : icalrequeststatus) : option cstring :=
  let* (_, _, str) := find_kind request_status_map stat in Some str.

Definition icalenum_reqstat_code_r (stat : icalrequeststatus) : option cstring :=
  let* (major, minor, _) := find_kind request_status_map stat in
  Some (snprintf 36 (fmt_d major ++ $"." ++ fmt_d minor)).

Definition icalenum_reqstat_major (stat : icalrequeststatus) : Z :=
  match find_kind request_status_map stat with Some (major, _, _) => major | None => -1 end.

Definition icalenum_reqstat_minor (stat : icalrequeststatus) : Z :=
  match find_kind request_status_map stat with Some (_, minor, _) => minor | None => -1 end.

Fixpoint find_num (m : list (icalrequeststatus * Z * Z * cstring)) (major minor : Z)
  : icalrequeststatus :=
  match m with
  | [] => ICAL_UNKNOWN_STATUS
  | (k, ma, mi, _) :: r =>
      if (ma =? major) && (mi =? minor) then k else find_num r major minor
  end.

Definition icalenum_num_to_reqstat (major minor : Z) : icalrequeststatus :=
  find_num request_status_map major minor.

(** The strings are null pointers when [None]. *)
Record icalreqstattype := Reqstat {
  rs_code : icalrequeststatus;
  rs_desc : option cstring;
  rs_debug : option cstring
}.

(** [sscanf] conversion [%hd]. *)
Definition scan_hd (s : cstring) : option (Z * cstring) :=
  let t := skip_ws s in
  let* (v, r) := scan_number (S (length t)) t in Some (to_short v, r).

(** [sscanf (str, "%hd.%hd", &major, &minor)] with both variables 0 before. *)
Definition scan_status_numbers (str : cstring) : Z * Z :=
  match scan_hd str with
  | None => (0, 0)
  | Some (major, r) =>
      match r with
      | c :: r' =>
          if Ascii.eqb c "." then
            match scan_hd r' with Some (minor, _) => (major, minor) | None => (major, 0) end
          else (major, 0)
      | [] => (major, 0)
      end
  end.

Definition icalreqstattype_from_string (str : cstring) : err icalreqstattype :=
  let '(major, minor) := scan_status_numbers str in
  let stat := Reqstat ICAL_UNKNOWN_STATUS None None in
  if (major <=? 0) || (minor <? 0) then
    icalerror_set_errno ICAL_MALFORMEDDATA_ERROR ;;; ret stat
  else
    let code := icalenum_num_to_reqstat major minor in
    let stat := Reqstat code None None in
    if decide (code = ICAL_UNKNOWN_STATUS) then
      icalerror_set_errno ICAL_MALFORMEDDATA_ERROR ;;; ret stat
    else
      match split_at ";" str with
      | None => ret stat
      | Some (_, p1) =>
          match split_at ";" p1 with
          | None => ret stat
          | Some (_, p2) => ret (Reqstat code None (Some p2))
          end
      end.

(** [None] when the argument check fails and the null pointer is returned. *)
Definition icalreqstattype_as_string_r (stat : icalreqstattype) : err (option cstring) :=
  if decide (rs_code stat = ICAL_UNKNOWN_STATUS) then
    icalerror_set_errno ICAL_BADARG_ERROR ;;; ret None
  else
    let desc := match rs_desc stat with
                | None => match icalenum_reqstat_desc (rs_code stat) with
                          | Some s => s | None => [] end
                | Some s => s
                end in
    let numbers := fmt_d (icalenum_reqstat_major (rs_code stat)) ++ $"."
                   ++ fmt_d (icalenum_reqstat_minor (rs_code stat)) in
    ret (Some (snprintf 1024
      match rs_debug stat with
      | Some debug => numbers ++ $";" ++ desc ++ $";" ++ debug
      | None => numbers ++ $";" ++ desc
      end)).

(** icalvalue.c: the text of a trigger value. *)
Definition icalvalue_trigger_as_ical_string_r (data : icaltriggertype) : cstring :=
  if negb (icaltime_is_null_time (tr_time data)) then icaltime_as_ical_string_r (tr_time data)
  else icaldurationtype_as_ical_string_r (tr_duration data).

(** ** Theorems on triggers *)

(** Either an absolute time, or a duration, which may be zero. *)
Definition printable_trigger (tr : icaltriggertype) : Prop :=
  (printable (tr_time tr) /\ icaltime_is_null_time (tr_time tr) = false /\
   tr_duration tr = icaldurationtype_null_duration) \/
  (tr_time tr = icaltime_null_time /\ wf_duration (tr_duration tr) /\
   (icaldurationtype_as_int (tr_duration tr) <> 0 \/
    tr_duration tr = icaldurationtype_null_duration)).

Lemma scan_duration_text d :
  wf_duration d -> icaldurationtype_as_int d <> 0 \/ d = icaldurationtype_null_duration ->
  icaldurationtype_scan (icaldurationtype_as_ical_string_r d) = Some d.
Proof.
  intros Hwf [Hne | ->]; [now apply scan_as_ical_string_spec | reflexivity].
Qed.

(** The state in which the text is read: malformed data masked, no error yet. *)
Lemma trigger_read_prefix s st :
  icaltriggertype_from_string (Some s) st =
  (let es := get_state (error_state_map st) ICAL_MALFORMEDDATA_ERROR in
   t <- icaltime_from_string s ;;
   let finish tr :=
     icalerror_set_error_state ICAL_MALFORMEDDATA_ERROR es ;;;
     icalerror_set_errno (icalerrno st) ;;; ret tr in
   if icaltime_is_null_time t then
     d <- icaldurationtype_from_string s ;;
     if icaldurationtype_is_bad_duration d then trigger_error es (Trigger t d)
     else finish (Trigger t d)
   else finish (Trigger t (icaldurationtype_from_int 0)))
  (with_errno (masked st) ICAL_NO_ERROR).
Proof.
  unfold icaltriggertype_from_string. cbv zeta.
  unfold bind at 1. unfold icalerror_get_error_state. cbv iota beta.
  unfold bind at 1. change (icalerror_set_error_state _ ICAL_ERROR_NONFATAL st) with (Some (tt, masked st)).
  cbv iota beta. unfold bind at 1. unfold get_icalerrno. cbv iota beta.
  unfold bind at 1. rewrite set_errno_spec, nonfatal_no_error. reflexivity.
Qed.

(** Leaving the masked state by the success path. *)
Lemma trigger_finish (tr : icaltriggertype) st e :
  map_ok (error_state_map st) -> nonfatal st (icalerrno st) = true ->
  (icalerror_set_error_state ICAL_MALFORMEDDATA_ERROR
     (get_state (error_state_map st) ICAL_MALFORMEDDATA_ERROR) ;;;
   icalerror_set_errno (icalerrno st) ;;; ret tr) (with_errno (masked st) e) = Some (tr, st).
Proof.
  intros Hok Hnf. unfold bind.
  change (icalerror_set_error_state ICAL_MALFORMEDDATA_ERROR ?s ?x) with (Some (tt, unmask x s)).
  cbv iota beta. rewrite unmask_masked by exact Hok. rewrite set_errno_spec.
  change (nonfatal (with_errno st e)) with (nonfatal st). rewrite Hnf. now destruct st.
Qed.

Lemma trigger_read_back (tr : icaltriggertype) (st : error_state) :
  map_ok (error_state_map st) -> nonfatal st (icalerrno st) = true -> printable_trigger tr ->
  icaltriggertype_from_string (Some (icalvalue_trigger_as_ical_string_r tr)) st = Some (tr, st).
Proof.
  intros Hok Hnf Htr. rewrite trigger_read_prefix. cbv zeta. unfold bind at 1.
  unfold icalvalue_trigger_as_ical_string_r.
  destruct Htr as [(Hp & Hn & Hd) | (Ht & Hwf & Hv)].
  - rewrite Hn. cbn [negb]. unfold icaltime_from_string at 1. rewrite scan_as_ical_string by exact Hp.
    unfold ret at 1. cbv iota beta. rewrite Hn. rewrite trigger_finish by assumption.
    destruct tr. cbn in *. now rewrite Hd.
  - rewrite Ht. change (icaltime_is_null_time icaltime_null_time) with true. cbn [negb].
    rewrite time_text_error by apply duration_text_not_time.
    rewrite masked_nonfatal. cbv iota beta.
    change (icaltime_is_null_time icaltime_null_time) with true. cbv iota.
    unfold bind at 1. unfold icaldurationtype_from_string. rewrite scan_duration_text by assumption.
    unfold ret at 1. cbv iota beta.
    assert (icaldurationtype_is_bad_duration (tr_duration tr) = false) as ->.
    { unfold icaldurationtype_is_bad_duration. destruct Hwf as [[-> | ->] _]; reflexivity. }
    change (with_errno (with_errno (masked st) ?a) ?b) with (with_errno (masked st) b).
    rewrite trigger_finish by assumption. destruct tr. cbn in *. now rewrite Ht.
Qed.

(** [icaltriggertype_from_string] reads back the text of a trigger, absolute
    or relative, zero included, and restores the error state. *)
Theorem trigger_text_roundtrip (tr : icaltriggertype) (st : error_state) :
  map_ok (error_state_map st) -> nonfatal st (icalerrno st) = true -> printable_trigger tr ->
  icaltriggertype_from_string (Some (icalvalue_trigger_as_ical_string_r tr)) st = Some (tr, st).
Proof. apply trigger_read_back. Qed.

Lemma trigger_text_roundtrip_witness :
  let tr := Trigger icaltime_null_time (Duration 1 0 0 0 15 0) in
  icaltriggertype_from_string (Some (icalvalue_trigger_as_ical_string_r tr))
    (initial_error_state true) = Some (tr, initial_error_state true).
Proof.
  intros tr. apply (trigger_text_roundtrip tr (initial_error_state true)).
  - apply initial_map_ok.
  - reflexivity.
  - right. unfold tr, wf_duration, INT_MAX. cbn. repeat split; try lia.
    left. vm_compute. discriminate.
Defined.

(** ** Theorems on request status *)

Definition all_statuses : list icalrequeststatus :=
  map (fun r => match r with (k, _, _, _) => k end) request_status_map.

Lemma status_known stat : stat <> ICAL_UNKNOWN_STATUS -> In stat all_statuses.
Proof. destruct stat; intros H; [congruence|..]; vm_compute; tauto. Qed.

(** The text of a status up to its description. *)
Definition status_text (stat : icalrequeststatus) : cstring :=
  fmt_d (icalenum_reqstat_major stat) ++ $"." ++ fmt_d (icalenum_reqstat_minor stat) ++ $";".

Definition desc_text (stat : icalrequeststatus) : cstring :=
  match icalenum_reqstat_desc stat with Some s => s | None => [] end.

(** What the table has to satisfy for the texts to be read back: the numbers
    identify the status, and there is no semicolon before the last field. *)
Definition status_ok (stat : icalrequeststatus) : bool :=
  let ma := icalenum_reqstat_major stat in
  let mi := icalenum_reqstat_minor stat in
  (1 <=? ma) && (ma <? 100) && (0 <=? mi) && (mi <? 100)
  && bool_decide (icalenum_num_to_reqstat ma mi = stat)
  && forallb (fun c => negb (Ascii.eqb c ";")) (desc_text stat)
  && (Z.of_nat (length (status_text stat ++ desc_text stat)) <? 100).

Lemma status_table_ok : forallb status_ok all_statuses = true.
Proof. vm_compute. reflexivity. Qed.

Lemma fmt_d_nonneg v : 0 <= v -> fmt_d v = dec v.
Proof. intros H. unfold fmt_d. destruct (Z.ltb_spec v 0); [lia | reflexivity]. Qed.

Lemma scan_hd_dec v c rest :
  0 <= v < 32768 -> isdigit c = false -> scan_hd (fmt_d v ++ c :: rest) = Some (v, c :: rest).
Proof.
  intros Hv Hc. rewrite fmt_d_nonneg by lia. unfold scan_hd.
  pose proof (dec_digits v (proj1 Hv)) as Hd. pose proof (dec_nonempty v) as Hne.
  rewrite skip_ws_digit by assumption.
  rewrite scan_number_digits; try assumption.
  - rewrite dec_val by lia. now rewrite to_short_small by lia.
  - rewrite length_app. lia.
  - right. exact Hc.
  - rewrite dec_val by lia. unfold LONG_MAX. lia.
Qed.

Lemma fmt_d_no_char v c : 0 <= v -> isdigit c = false -> Forall (fun d => d <> c) (fmt_d v).
Proof.
  intros Hv Hc. rewrite fmt_d_nonneg by lia. pose proof (dec_digits v Hv) as Hd.
  unfold all_digits in Hd. rewrite List.Forall_forall in *. intros d Hin ->.
  now rewrite (Hd c Hin) in Hc.
Qed.

Lemma forallb_no_char c s :
  forallb (fun d => negb (Ascii.eqb d c)) s = true -> Forall (fun d => d <> c) s.
Proof.
  rewrite forallb_forall, List.Forall_forall. intros H d Hin ->.
  specialize (H c Hin). now rewrite Ascii.eqb_refl in H.
Qed.

(** What [icalreqstattype_as_string_r] writes for a known status. *)
Definition reqstat_text (stat : icalrequeststatus) (debug : option cstring) : cstring :=
  status_text stat ++ desc_text stat
  ++ match debug with Some d => $";" ++ d | None => [] end.

Lemma reqstat_as_string code debug st :
  code <> ICAL_UNKNOWN_STATUS ->
  (match debug with Some d => length d < 900 | None => True end)%nat ->
  icalreqstattype_as_string_r (Reqstat code None debug) st
  = Some (Some (reqstat_text code debug), st).
Proof.
  intros Hc Hl. unfold icalreqstattype_as_string_r. cbn [rs_code rs_desc rs_debug].
  destruct (decide (code = ICAL_UNKNOWN_STATUS)); [contradiction|].
  fold (desc_text code). unfold ret, snprintf. do 2 f_equal.
  pose proof (proj1 (forallb_forall _ _) status_table_ok code (status_known code Hc)) as Ht.
  unfold status_ok in Ht. bools. apply Z.ltb_lt in H0.
  unfold status_text in H0. rewrite !length_app in H0. cbn [length lit list_ascii_of_string] in H0.
  destruct debug as [d|]; rewrite firstn_all2
    by (rewrite ?length_app; cbn [length lit list_ascii_of_string]; lia);
    unfold reqstat_text, status_text; rewrite <- ?app_assoc, ?app_nil_r; reflexivity.
Qed.

Lemma reqstat_read_back code debug st :
  code <> ICAL_UNKNOWN_STATUS ->
  (match debug with Some d => length d < 900 | None => True end)%nat ->
  (text <- icalreqstattype_as_string_r (Reqstat code None debug) ;;
   match text with Some s => icalreqstattype_from_string s | None => fun _ => None end) st
  = Some (Reqstat code None debug, st).
Proof.
  intros Hc Hl. unfold bind. rewrite reqstat_as_string by assumption.
  pose proof (proj1 (forallb_forall _ _) status_table_ok code (status_known code Hc)) as Ht.
  unfold status_ok in Ht. rewrite !andb_true_iff in Ht.
  destruct Ht as [[[[[[Ma1 Ma2] Mi1] Mi2] Hnum] Hdesc] _].
  apply bool_decide_eq_true in Hnum. apply forallb_no_char in Hdesc.
  unfold icalreqstattype_from_string, reqstat_text, status_text.
  set (ma := icalenum_reqstat_major code) in *. set (mi := icalenum_reqstat_minor code) in *.
  rewrite <- !app_assoc. cbn [lit list_ascii_of_string app].
  assert (forall r, scan_status_numbers (fmt_d ma ++ "."%char :: fmt_d mi ++ ";"%char :: r) = (ma, mi))
    as ->.
  { intros r. unfold scan_status_numbers. rewrite scan_hd_dec by (reflexivity || lia).
    cbn. now rewrite scan_hd_dec by (reflexivity || lia). }
  assert ((ma <=? 0) || (mi <? 0) = false)%bool as -> by lia. rewrite Hnum.
  destruct (decide (code = ICAL_UNKNOWN_STATUS)); [contradiction|].
  assert (forall r, split_at ";" (fmt_d ma ++ "."%char :: fmt_d mi ++ ";"%char :: r)
    = Some (fmt_d ma ++ "."%char :: fmt_d mi, r)) as ->.
  { intros r. rewrite app_comm_cons, app_assoc. apply split_at_app. apply Forall_app.
    split; [apply fmt_d_no_char; (reflexivity || lia)|].
    constructor; [discriminate | apply fmt_d_no_char; (reflexivity || lia)]. }
  destruct debug as [d|].
  - now rewrite split_at_app.
  - now rewrite app_nil_r, split_at_none.
Qed.

(** The text of a request status is read back: the status from its two
    numbers and the optional data after the second semicolon; the description is
    not kept (the library has it in its table). *)
Theorem reqstat_text_roundtrip code debug st :
  code <> ICAL_UNKNOWN_STATUS ->
  (match debug with Some d => length d < 900 | None => True end)%nat ->
  (text <- icalreqstattype_as_string_r (Reqstat code None debug) ;;
   match text with Some s => icalreqstattype_from_string s | None => fun _ => None end) st
  = Some (Reqstat code None debug, st).
Proof. apply reqstat_read_back. Qed.

Lemma reqstat_text_roundtrip_witness :
  (text <- icalreqstattype_as_string_r
             (Reqstat ICAL_3_1_INVPROPVAL_STATUS None (Some ($"DTSTART:96-Apr-01"))) ;;
   match text with Some s => icalreqstattype_from_string s | None => fun _ => None end)
  (initial_error_state true)
  = Some (Reqstat ICAL_3_1_INVPROPVAL_STATUS None (Some ($"DTSTART:96-Apr-01")),
          initial_error_state true).
Proof.
  apply (reqstat_text_roundtrip ICAL_3_1_INVPROPVAL_STATUS (Some ($"DTSTART:96-Apr-01"))).
  - discriminate.
  - cbn. lia.
Defined.
