(* ===== verification/IcalRecurType.v ===== *)
(** * Recurrence rules: data and text (icalrecur.c, icalrecur.h)

    The configuration without ICU: the sizes of the BYMONTH, BYWEEKNO and
    BYYEARDAY lists are those icalrecur.c redefines, while the arrays of the
    struct keep the sizes of the header.  A BY array is the list of its values
    before the terminator [ICAL_RECURRENCE_ARRAY_MAX]. *)
From Stdlib Require Import String Ascii ZArith Lia Bool List.
From S2P Require Import Prelude CString IcalError IcalTime.
Import ListNotations.
#[local] Open Scope Z_scope.
#[local] Open Scope cstring_scope.
#[local] Open Scope err_scope.

Inductive icalrecurrencetype_frequency :=
| ICAL_SECONDLY_RECURRENCE
| ICAL_MINUTELY_RECURRENCE
| ICAL_HOURLY_RECURRENCE
| ICAL_DAILY_RECURRENCE
| ICAL_WEEKLY_RECURRENCE
| ICAL_MONTHLY_RECURRENCE
| ICAL_YEARLY_RECURRENCE
| ICAL_NO_RECURRENCE.

Definition freq_eqb (a b : icalrecurrencetype_frequency) : bool :=
  match a, b with
  | ICAL_SECONDLY_RECURRENCE, ICAL_SECONDLY_RECURRENCE
  | ICAL_MINUTELY_RECURRENCE, ICAL_MINUTELY_RECURRENCE
  | ICAL_HOURLY_RECURRENCE, ICAL_HOURLY_RECURRENCE
  | ICAL_DAILY_RECURRENCE, ICAL_DAILY_RECURRENCE
  | ICAL_WEEKLY_RECURRENCE, ICAL_WEEKLY_RECURRENCE
  | ICAL_MONTHLY_RECURRENCE, ICAL_MONTHLY_RECURRENCE
  | ICAL_YEARLY_RECURRENCE, ICAL_YEARLY_RECURRENCE
  | ICAL_NO_RECURRENCE, ICAL_NO_RECURRENCE => true
  | _, _ => false
  end.

Inductive icalrecurrencetype_skip :=
| ICAL_SKIP_BACKWARD
| ICAL_SKIP_FORWARD
| ICAL_SKIP_OMIT
| ICAL_SKIP_UNDEFINED.

Definition skip_eqb (a b : icalrecurrencetype_skip) : bool :=
  match a, b with
  | ICAL_SKIP_BACKWARD, ICAL_SKIP_BACKWARD
  | ICAL_SKIP_FORWARD, ICAL_SKIP_FORWARD
  | ICAL_SKIP_OMIT, ICAL_SKIP_OMIT
  | ICAL_SKIP_UNDEFINED, ICAL_SKIP_UNDEFINED => true
  | _, _ => false
  end.

(** Weekdays are computed with; they are the integers of the enumeration. *)
Definition ICAL_NO_WEEKDAY : Z := 0.
Definition ICAL_SUNDAY_WEEKDAY : Z := 1.
Definition ICAL_MONDAY_WEEKDAY : Z := 2.
Definition ICAL_SATURDAY_WEEKDAY : Z := 7.

(** The BY rule parts, in the order of the enumeration. *)
Inductive byrule :=
| BY_SECOND | BY_MINUTE | BY_HOUR | BY_DAY | BY_MONTH_DAY | BY_YEAR_DAY | BY_WEEK_NO
| BY_MONTH | BY_SET_POS.

Record icalrecurrencetype := Recur {
  freq : icalrecurrencetype_frequency;
  until : icaltimetype;
  count : Z;
  interval : Z;
  week_start : Z;
  by_second : list Z;
  by_minute : list Z;
  by_hour : list Z;
  by_day : list Z;
  by_month_day : list Z;
  by_year_day : list Z;
  by_week_no : list Z;
  by_month : list Z;
  by_set_pos : list Z;
  rscale : option cstring;
  skip : icalrecurrencetype_skip
}.

(** The pointer to the array of a rule part. *)
Definition by_ptr (b : byrule) (r : icalrecurrencetype) : list Z :=
  match b with
  | BY_SECOND => by_second r | BY_MINUTE => by_minute r | BY_HOUR => by_hour r
  | BY_DAY => by_day r | BY_MONTH_DAY => by_month_day r | BY_YEAR_DAY => by_year_day r
  | BY_WEEK_NO => by_week_no r | BY_MONTH => by_month r | BY_SET_POS => by_set_pos r
  end.

Definition set_by (b : byrule) (l : list Z) (r : icalrecurrencetype) : icalrecurrencetype :=
  let pick b' old := match b, b' with
    | BY_SECOND, BY_SECOND | BY_MINUTE, BY_MINUTE | BY_HOUR, BY_HOUR | BY_DAY, BY_DAY
    | BY_MONTH_DAY, BY_MONTH_DAY | BY_YEAR_DAY, BY_YEAR_DAY | BY_WEEK_NO, BY_WEEK_NO
    | BY_MONTH, BY_MONTH | BY_SET_POS, BY_SET_POS => l
    | _, _ => old
    end in
  Recur (freq r) (until r) (count r) (interval r) (week_start r)
    (pick BY_SECOND (by_second r)) (pick BY_MINUTE (by_minute r)) (pick BY_HOUR (by_hour r))
    (pick BY_DAY (by_day r)) (pick BY_MONTH_DAY (by_month_day r))
    (pick BY_YEAR_DAY (by_year_day r)) (pick BY_WEEK_NO (by_week_no r))
    (pick BY_MONTH (by_month r)) (pick BY_SET_POS (by_set_pos r)) (rscale r) (skip r).

Definition set_freq (v : icalrecurrencetype_frequency) (r : icalrecurrencetype) :=
  Recur v (until r) (count r) (interval r) (week_start r) (by_second r) (by_minute r)
    (by_hour r) (by_day r) (by_month_day r) (by_year_day r) (by_week_no r) (by_month r)
    (by_set_pos r) (rscale r) (skip r).
Definition set_until (v : icaltimetype) (r : icalrecurrencetype) :=
  Recur (freq r) v (count r) (interval r) (week_start r) (by_second r) (by_minute r)
    (by_hour r) (by_day r) (by_month_day r) (by_year_day r) (by_week_no r) (by_month r)
    (by_set_pos r) (rscale r) (skip r).
Definition set_count (v : Z) (r : icalrecurrencetype) :=
  Recur (freq r) (until r) v (interval r) (week_start r) (by_second r) (by_minute r)
    (by_hour r) (by_day r) (by_month_day r) (by_year_day r) (by_week_no r) (by_month r)
    (by_set_pos r) (rscale r) (skip r).
Definition set_interval (v : Z) (r : icalrecurrencetype) :=
  Recur (freq r) (until r) (count r) v (week_start r) (by_second r) (by_minute r)
    (by_hour r) (by_day r) (by_month_day r) (by_year_day r) (by_week_no r) (by_month r)
    (by_set_pos r) (rscale r) (skip r).
Definition set_week_start (v : Z) (r : icalrecurrencetype) :=
  Recur (freq r) (until r) (count r) (interval r) v (by_second r) (by_minute r)
    (by_hour r) (by_day r) (by_month_day r) (by_year_day r) (by_week_no r) (by_month r)
    (by_set_pos r) (rscale r) (skip r).
Definition set_rscale (v : option cstring) (r : icalrecurrencetype) :=
  Recur (freq r) (until r) (count r) (interval r) (week_start r) (by_second r) (by_minute r)
    (by_hour r) (by_day r) (by_month_day r) (by_year_day r) (by_week_no r) (by_month r)
    (by_set_pos r) v (skip r).
Definition set_skip (v : icalrecurrencetype_skip) (r : icalrecurrencetype) :=
  Recur (freq r) (until r) (count r) (interval r) (week_start r) (by_second r) (by_minute r)
    (by_hour r) (by_day r) (by_month_day r) (by_year_day r) (by_week_no r) (by_month r)
    (by_set_pos r) (rscale r) v.

Definition icalrecurrencetype_clear : icalrecurrencetype :=
  Recur ICAL_NO_RECURRENCE icaltime_null_time 0 1 ICAL_MONDAY_WEEKDAY
    [] [] [] [] [] [] [] [] [] None ICAL_SKIP_OMIT.

Definition icalrecurrencetype_rscale_is_supported : bool := true.

(** ** Enumerations *)

Definition freq_map : list (icalrecurrencetype_frequency * cstring) :=
  [(ICAL_SECONDLY_RECURRENCE, $"SECONDLY"); (ICAL_MINUTELY_RECURRENCE, $"MINUTELY");
   (ICAL_HOURLY_RECURRENCE, $"HOURLY"); (ICAL_DAILY_RECURRENCE, $"DAILY");
   (ICAL_WEEKLY_RECURRENCE, $"WEEKLY"); (ICAL_MONTHLY_RECURRENCE, $"MONTHLY");
   (ICAL_YEARLY_RECURRENCE, $"YEARLY")].

Definition skip_map : list (icalrecurrencetype_skip * cstring) :=
  [(ICAL_SKIP_BACKWARD, $"BACKWARD"); (ICAL_SKIP_FORWARD, $"FORWARD");
   (ICAL_SKIP_OMIT, $"OMIT")].

Definition wd_map : list (Z * cstring) :=
  [(1, $"SU"); (2, $"MO"); (3, $"TU"); (4, $"WE"); (5, $"TH"); (6, $"FR"); (7, $"SA")].

(** The searches of the tables by name, without regard to case, and by value. *)
Fixpoint by_name {A} (m : list (A * cstring)) (str : cstring) (none : A) : A :=
  match m with
  | [] => none
  | (k, s) :: r => if strcaseeqb str s then k else by_name r str none
  end.

Fixpoint by_kind {A} (eqb : A -> A -> bool) (m : list (A * cstring)) (kind : A)
  : option cstring :=
  match m with
  | [] => None
  | (k, s) :: r => if eqb k kind then Some s else by_kind eqb r kind
  end.

Definition icalrecur_string_to_freq (str : cstring) : icalrecurrencetype_frequency :=
  by_name freq_map str ICAL_NO_RECURRENCE.
Definition icalrecur_freq_to_string (kind : icalrecurrencetype_frequency) : option cstring :=
  by_kind freq_eqb freq_map kind.
Definition icalrecur_string_to_skip (str : cstring) : icalrecurrencetype_skip :=
  by_name skip_map str ICAL_SKIP_UNDEFINED.
Definition icalrecur_skip_to_string (kind : icalrecurrencetype_skip) : option cstring :=
  by_kind skip_eqb skip_map kind.
Definition icalrecur_string_to_weekday (str : cstring) : Z := by_name wd_map str ICAL_NO_WEEKDAY.
Definition icalrecur_weekday_to_string (kind : Z) : option cstring := by_kind Z.eqb wd_map kind.

(** ** Encoded days and months *)

Definition icalrecurrencetype_day_day_of_week (day : Z) : Z := Z.rem (Z.abs day) 8.

Definition icalrecurrencetype_day_position (day : Z) : Z :=
  let wd := icalrecurrencetype_day_day_of_week day in
  Z.quot (Z.abs day - wd) 8 * (if day <? 0 then -1 else 1).

Definition icalrecurrencetype_encode_day (weekday position : Z) : Z :=
  to_short ((weekday + 8 * Z.abs position) * (if position <? 0 then -1 else 1)).

Definition LEAP_MONTH : Z := 4096.

Definition icalrecurrencetype_month_is_leap (month : Z) : bool := truthy (Z.land month LEAP_MONTH).
Definition icalrecurrencetype_month_month (month : Z) : Z := Z.land month (Z.lnot LEAP_MONTH).
Definition icalrecurrencetype_encode_month (month : Z) (is_leap : bool) : Z :=
  to_short (Z.lor month (if is_leap then LEAP_MONTH else 0)).

(** ** Sizes *)

(** The size macros as icalrecur.c sees them, and the arrays of the struct. *)
Definition by_size (b : byrule) : Z :=
  match b with
  | BY_SECOND => 62 | BY_MINUTE => 61 | BY_HOUR => 25 | BY_DAY => 7 * (54 - 1) + 1
  | BY_MONTH_DAY => 32 | BY_YEAR_DAY => 367 | BY_WEEK_NO => 54 | BY_MONTH => 13
  | BY_SET_POS => 367
  end.

Definition by_capacity (b : byrule) : Z :=
  match b with
  | BY_SECOND => 62 | BY_MINUTE => 61 | BY_HOUR => 25 | BY_DAY => 7 * (56 - 1) + 1
  | BY_MONTH_DAY => 32 | BY_YEAR_DAY => 386 | BY_WEEK_NO => 56 | BY_MONTH => 14
  | BY_SET_POS => 386
  end.

(** ** Reading *)

(** The pieces of a text between separators, as the loops with [strchr] visit
    them. *)
Fixpoint split_on (c : ascii) (s : cstring) : list cstring :=
  match s with
  | [] => [[]]
  | d :: r =>
      match split_on c r with
      | [] => [[d]]
      | h :: t => if Ascii.eqb c d then [] :: h :: t else (d :: h) :: t
      end
  end.

(** What a rule part does: the code [r], values, or a store of the terminator
    behind the end of the array. *)
Inductive byrules_result :=
| Values (l : list Z)
| Failed (r : Z)
| Overflow.

(** The check of a value against [min] and [max]. *)
Definition byrule_in_range (min max v : Z) : bool :=
  if v <? 0 then negb ((0 <=? min) || (v <=? - max))
  else if 0 <? v then negb (max <=? v)
  else negb (truthy min).

Fixpoint byrules_loop (is_month : bool) (min size capacity i : Z) (acc : list Z)
  (pieces : list cstring) : byrules_result :=
  match pieces with
  | [] => Values acc
  | t :: rest =>
      if i =? size then Failed (-1)
      else
        let max := size - b2z (min =? 0) in
        let '(lv, t') := strtol t in
        let v := to_int32 lv in
        if negb (byrule_in_range min max v) then Failed (-1)
        else
          let store v :=
            if capacity <=? i + 1 then Overflow
            else byrules_loop is_month min size capacity (i + 1) (acc ++ [to_short v]) rest in
          match t' with
          | [] => store v
          | _ =>
              if is_month && streqb t' ($"L") then
                if icalrecurrencetype_rscale_is_supported then store (Z.lor v LEAP_MONTH)
                else Failed (-2)
              else Failed (-1)
          end
  end.

Definition icalrecur_add_byrules (b : byrule) (min : Z) (vals : cstring) : byrules_result :=
  byrules_loop (match b with BY_MONTH => true | _ => false end) min (by_size b) (by_capacity b)
    0 [] (split_on "," vals).

(** The place of a day in a week that starts on [week_start]. *)
Definition week_key (week_start day : Z) : Z :=
  let k := icalrecurrencetype_day_day_of_week day - week_start in
  if k <? 0 then k + 7 else k.

(** The inner loop carries [array[i]] along the sorted part. *)
Fixpoint carry_day (week_start : Z) (sorted : list Z) (x : Z) : list Z :=
  match sorted with
  | [] => [x]
  | a :: r =>
      if week_key week_start x <? week_key week_start a then x :: carry_day week_start r a
      else a :: carry_day week_start r x
  end.

Definition sort_days (week_start : Z) (l : list Z) : list Z :=
  fold_left (carry_day week_start) l [].

Definition sort_bydayrules (rt : icalrecurrencetype) : icalrecurrencetype :=
  set_by BY_DAY (sort_days (week_start rt) (by_day rt)) rt.

(** One element of BYDAY: the optional number, kept in a [signed char], and the
    name of the day; [None] when it is refused. *)
Definition byday_value (t : cstring) : option Z :=
  let '(lv, t) := strtol t in
  let weekno := to_schar lv in
  let '(weekno, sign) := if weekno <? 0 then (to_schar (- weekno), -1) else (weekno, 1) in
  let t := match t with c :: r => if Ascii.eqb c " " then r else t | [] => t end in
  let wd := icalrecur_string_to_weekday t in
  if (wd =? ICAL_NO_WEEKDAY) || (by_size BY_WEEK_NO <=? weekno) then None
  else Some (icalrecurrencetype_encode_day wd (sign * weekno)).

Fixpoint bydayrules_loop (i : Z) (acc : list Z) (pieces : list cstring) : byrules_result :=
  match pieces with
  | [] => Values acc
  | t :: rest =>
      if i =? by_size BY_DAY then Failed (-1)
      else match byday_value t with
           | None => Failed (-1)
           | Some v =>
               if by_capacity BY_DAY <=? i + 1 then Overflow
               else bydayrules_loop (i + 1) (acc ++ [v]) rest
           end
  end.

Definition icalrecur_add_bydayrules (vals : cstring) : byrules_result :=
  bydayrules_loop 0 [] (split_on "," vals).

(** What a clause does to the rule. *)
Inductive clause_result :=
| Parsed (rt : icalrecurrencetype)
| Refused (r : Z)
| Undefined.

Definition with_byrules (b : byrule) (res : byrules_result) (rt : icalrecurrencetype)
  : clause_result :=
  match res with
  | Values l => Parsed (set_by b l rt)
  | Failed r => Refused r
  | Overflow => Undefined
  end.

Definition is_empty {A} (l : list A) : bool := match l with [] => true | _ => false end.

(** A rule part that may appear once only. *)
Definition byrule_clause (b : byrule) (min : Z) (value : cstring) (rt : icalrecurrencetype)
  : clause_result :=
  if negb (is_empty (by_ptr b rt)) then Refused (-1)
  else with_byrules b (icalrecur_add_byrules b min value) rt.

Definition refuse_if (c : bool) (rt : icalrecurrencetype) : clause_result :=
  if c then Refused (-1) else Parsed rt.

Definition parse_clause (name value : cstring) (rt : icalrecurrencetype) : err clause_result :=
  if strcaseeqb name ($"FREQ") then
    if negb (freq_eqb (freq rt) ICAL_NO_RECURRENCE) then ret (Refused (-1))
    else let f := icalrecur_string_to_freq value in
         ret (refuse_if (freq_eqb f ICAL_NO_RECURRENCE) (set_freq f rt))
  else if strcaseeqb name ($"RSCALE") then
    match rscale rt with
    | Some _ => ret (Refused (-1))
    | None => ret (Parsed (set_rscale (Some value) rt))
    end
  else if strcaseeqb name ($"SKIP") then
    if negb (skip_eqb (skip rt) ICAL_SKIP_OMIT) then ret (Refused (-1))
    else let s := icalrecur_string_to_skip value in
         ret (refuse_if (skip_eqb s ICAL_SKIP_UNDEFINED) (set_skip s rt))
  else if strcaseeqb name ($"COUNT") then
    if (0 <? count rt) || negb (icaltime_is_null_time (until rt)) then ret (Refused (-1))
    else let c := atoi value in ret (refuse_if (c <? 1) (set_count c rt))
  else if strcaseeqb name ($"UNTIL") then
    if (0 <? count rt) || negb (icaltime_is_null_time (until rt)) then ret (Refused (-1))
    else u <- icaltime_from_string value ;;
         ret (refuse_if (icaltime_is_null_time u) (set_until u rt))
  else if strcaseeqb name ($"INTERVAL") then
    if 1 <? interval rt then ret (Refused (-1))
    else let i := to_short (atoi value) in ret (refuse_if (i <? 1) (set_interval i rt))
  else if strcaseeqb name ($"WKST") then
    if negb (week_start rt =? ICAL_MONDAY_WEEKDAY) then ret (Refused (-1))
    else let w := icalrecur_string_to_weekday value in
         if w =? ICAL_NO_WEEKDAY then ret (Refused (-1))
         else ret (Parsed (sort_bydayrules (set_week_start w rt)))
  else if strcaseeqb name ($"BYSECOND") then ret (byrule_clause BY_SECOND 0 value rt)
  else if strcaseeqb name ($"BYMINUTE") then ret (byrule_clause BY_MINUTE 0 value rt)
  else if strcaseeqb name ($"BYHOUR") then ret (byrule_clause BY_HOUR 0 value rt)
  else if strcaseeqb name ($"BYDAY") then
    if negb (is_empty (by_day rt)) then ret (Refused (-1))
    else ret (match icalrecur_add_bydayrules value with
              | Values l => Parsed (sort_bydayrules (set_by BY_DAY l rt))
              | Failed r => Refused r
              | Overflow => Undefined
              end)
  else if strcaseeqb name ($"BYMONTHDAY") then ret (byrule_clause BY_MONTH_DAY (-1) value rt)
  else if strcaseeqb name ($"BYYEARDAY") then ret (byrule_clause BY_YEAR_DAY (-1) value rt)
  else if strcaseeqb name ($"BYWEEKNO") then ret (byrule_clause BY_WEEK_NO (-1) value rt)
  else if strcaseeqb name ($"BYMONTH") then ret (byrule_clause BY_MONTH 1 value rt)
  else if strcaseeqb name ($"BYSETPOS") then ret (byrule_clause BY_SET_POS (-1) value rt)
  else ret (Refused (-1)).

(** The end of the loop body for a clause that failed. *)
Definition refuse_rule (r : Z) : err icalrecurrencetype :=
  if r =? -2 then ret icalrecurrencetype_clear
  else icalerror_set_errno ICAL_MALFORMEDDATA_ERROR ;;; ret icalrecurrencetype_clear.

Fixpoint parse_clauses (clauses : list cstring) (rt : icalrecurrencetype)
  : err icalrecurrencetype :=
  match clauses with
  | [] => ret rt
  | c :: rest =>
      match split_at "=" c with
      | None => if is_empty c then ret rt else refuse_rule (-1)
      | Some (name, value) =>
          res <- parse_clause name value rt ;;
          match res with
          | Parsed rt' => parse_clauses rest rt'
          | Refused r => refuse_rule r
          | Undefined => fun _ => None
          end
      end
  end.

(** [str] is [None] for a null pointer. *)
Definition icalrecurrencetype_from_string (str : option cstring) : err icalrecurrencetype :=
  match str with
  | None => icalerror_set_errno ICAL_BADARG_ERROR ;;; ret icalrecurrencetype_clear
  | Some s => parse_clauses (split_on ";" s) icalrecurrencetype_clear
  end.

(** ** Writing *)

Definition print_date_to_string (t : icaltimetype) : cstring :=
  firstn 8 (snprintf 20 (fmt_0d 4 (year t) ++ fmt_0d 2 (month t) ++ fmt_0d 2 (day t))).

Definition print_time_to_string (t : icaltimetype) : cstring :=
  let hms := fmt_0d 2 (hour t) ++ fmt_0d 2 (minute t) ++ fmt_0d 2 (second t) in
  if icaltime_is_utc t then firstn 7 (snprintf 20 (hms ++ $"Z")) else firstn 6 (snprintf 20 hms).

Definition print_datetime_to_string (t : icaltimetype) : cstring :=
  print_date_to_string t
  ++ (if icaltime_is_date t then [] else $"T" ++ print_time_to_string t).

Definition recur_map : list (cstring * byrule) :=
  [($";BYSECOND=", BY_SECOND); ($";BYMINUTE=", BY_MINUTE); ($";BYHOUR=", BY_HOUR);
   ($";BYDAY=", BY_DAY); ($";BYMONTHDAY=", BY_MONTH_DAY); ($";BYYEARDAY=", BY_YEAR_DAY);
   ($";BYWEEKNO=", BY_WEEK_NO); ($";BYMONTH=", BY_MONTH); ($";BYSETPOS=", BY_SET_POS)].

(** A null pointer from the tables of names would be copied as text. *)
Definition name_or_empty (s : option cstring) : cstring := match s with Some x => x | None => [] end.

Definition byrule_text (b : byrule) (v : Z) : cstring :=
  match b with
  | BY_DAY =>
      let pos := icalrecurrencetype_day_position v in
      let daystr := name_or_empty
        (icalrecur_weekday_to_string (icalrecurrencetype_day_day_of_week v)) in
      if pos =? 0 then daystr else snprintf 20 (fmt_d pos ++ daystr)
  | BY_MONTH =>
      if icalrecurrencetype_month_is_leap v
      then snprintf 20 (fmt_d (icalrecurrencetype_month_month v) ++ $"L")
      else snprintf 20 (fmt_d v)
  | _ => snprintf 20 (fmt_d v)
  end.

(** The texts with separators between them. *)
Fixpoint join (sep : ascii) (l : list cstring) : cstring :=
  match l with
  | [] => []
  | [x] => x
  | x :: r => x ++ sep :: join sep r
  end.

Definition byrule_clause_text (name : cstring) (b : byrule) (r : icalrecurrencetype) : cstring :=
  match by_ptr b r with
  | [] => []
  | l => name ++ join "," (map (byrule_text b) (firstn (Z.to_nat (by_size b - 1)) l))
  end.

(** [None] is the null pointer. *)
Definition icalrecurrencetype_as_string_r (r : icalrecurrencetype) : option cstring :=
  if freq_eqb (freq r) ICAL_NO_RECURRENCE then None
  else Some (
    match rscale r with Some s => $"RSCALE=" ++ s ++ $";" | None => [] end
    ++ $"FREQ=" ++ name_or_empty (icalrecur_freq_to_string (freq r))
    ++ (if negb (year (until r) =? 0) then
          $";UNTIL=" ++ (if icaltime_is_date (until r) then print_date_to_string (until r)
                         else print_datetime_to_string (until r))
        else if negb (count r =? 0) then $";COUNT=" ++ snprintf 20 (fmt_d (count r))
        else [])
    ++ (if negb (interval r =? 1) then $";INTERVAL=" ++ snprintf 20 (fmt_d (interval r)) else [])
    ++ concat (map (fun '(name, b) => byrule_clause_text name b r) recur_map)
    ++ (if negb (week_start r =? ICAL_MONDAY_WEEKDAY) && negb (week_start r =? ICAL_NO_WEEKDAY)
        then $";WKST=" ++ name_or_empty (icalrecur_weekday_to_string
                             (icalrecurrencetype_day_day_of_week (week_start r)))
        else [])
    ++ match rscale r with
       | Some _ => if negb (skip_eqb (skip r) ICAL_SKIP_OMIT)
                   then $";SKIP=" ++ name_or_empty (icalrecur_skip_to_string (skip r)) else []
       | None => []
       end).
