(* ===== verification/IcalRecurRule.v ===== *)
(** * Recurrence rules: encodings, sorting and the invariant of the parser

    Every rule that [icalrecurrencetype_from_string] returns is within bounds,
    whatever the text: the rest of the library indexes tables with its values. *)
From Stdlib Require Import String Ascii ZArith Lia Bool List Permutation Sorted.
From S2P Require Import Prelude CString IcalError IcalTime IcalRecurType.
Import ListNotations.
#[local] Open Scope Z_scope.
#[local] Open Scope cstring_scope.

(** ** Encodings *)

Lemma encode_day_value wd pos :
  0 <= wd < 8 -> -4094 <= pos <= 4094 ->
  icalrecurrencetype_encode_day wd pos = (wd + 8 * Z.abs pos) * (if pos <? 0 then -1 else 1).
Proof.
  intros Hw Hp. unfold icalrecurrencetype_encode_day. apply to_short_small.
  destruct (Z.ltb_spec pos 0); lia.
Qed.

Lemma encode_day_spec wd pos :
  0 <= wd < 8 -> -4094 <= pos <= 4094 ->
  icalrecurrencetype_day_day_of_week (icalrecurrencetype_encode_day wd pos) = wd /\
  icalrecurrencetype_day_position (icalrecurrencetype_encode_day wd pos) = pos.
Proof.
  intros Hw Hp. rewrite encode_day_value by assumption.
  unfold icalrecurrencetype_day_position, icalrecurrencetype_day_day_of_week.
  set (v := (wd + 8 * Z.abs pos) * _).
  assert (Z.abs v = wd + 8 * Z.abs pos) as Ea by (subst v; destruct (Z.ltb_spec pos 0); lia).
  rewrite Ea. rewrite rem_mod_nonneg by lia.
  replace ((wd + 8 * Z.abs pos) mod 8) with wd by zdiv.
  split; [reflexivity|]. rewrite quot_div_nonneg by lia.
  replace ((wd + 8 * Z.abs pos - wd) / 8) with (Z.abs pos) by zdiv.
  subst v. destruct (Z.ltb_spec pos 0); case_if; lia.
Qed.

(** The flag bit and the month do not interfere. *)
Definition month_bits_ok (m : Z) : bool :=
  (Z.lor m LEAP_MONTH =? m + LEAP_MONTH)
  && icalrecurrencetype_month_is_leap (m + LEAP_MONTH)
  && negb (icalrecurrencetype_month_is_leap m)
  && (icalrecurrencetype_month_month (m + LEAP_MONTH) =? m)
  && (icalrecurrencetype_month_month m =? m).

Lemma month_bits m : 0 <= m < 4096 -> month_bits_ok m = true.
Proof.
  intros H. apply (forallb_seq_Z month_bits_ok (Z.to_nat 4096)).
  - vm_compute. reflexivity.
  - rewrite Z2Nat.id; lia.
Qed.

Lemma month_bits_spec m :
  0 <= m < 4096 ->
  Z.lor m LEAP_MONTH = m + LEAP_MONTH /\
  icalrecurrencetype_month_is_leap (m + LEAP_MONTH) = true /\
  icalrecurrencetype_month_is_leap m = false /\
  icalrecurrencetype_month_month (m + LEAP_MONTH) = m /\
  icalrecurrencetype_month_month m = m.
Proof.
  intros H. apply month_bits in H. unfold month_bits_ok in H. bools.
  repeat split; try assumption; now apply Z.eqb_eq.
Qed.

(** The encodings of BYDAY and BYMONTH values lose nothing: the weekday and
    the position, and the month and its leap flag, are decoded as they were
    encoded, within the range of the 16-bit element. *)
Theorem byrule_encodings wd pos m leap :
  0 <= wd < 8 -> -4094 <= pos <= 4094 -> 0 <= m < 4096 ->
  (icalrecurrencetype_day_day_of_week (icalrecurrencetype_encode_day wd pos) = wd /\
   icalrecurrencetype_day_position (icalrecurrencetype_encode_day wd pos) = pos) /\
  (icalrecurrencetype_month_is_leap (icalrecurrencetype_encode_month m leap) = leap /\
   icalrecurrencetype_month_month (icalrecurrencetype_encode_month m leap) = m).
Proof.
  intros Hw Hp Hm. split; [now apply encode_day_spec|].
  destruct (month_bits_spec m Hm) as (E1 & E2 & E3 & E4 & E5).
  unfold icalrecurrencetype_encode_month. destruct leap.
  - rewrite E1, to_short_small by (unfold LEAP_MONTH; lia). auto.
  - rewrite Z.lor_0_r, to_short_small by lia. auto.
Qed.

Lemma byrule_encodings_witness :
  icalrecurrencetype_day_position (icalrecurrencetype_encode_day 6 (-1)) = -1.
Proof. apply (byrule_encodings 6 (-1) 5 true); lia. Defined.

(** ** Sorting of BYDAY *)

Definition key_le (ws a b : Z) : Prop := week_key ws a <= week_key ws b.

Lemma carry_day_perm ws l x : Permutation (carry_day ws l x) (x :: l).
Proof.
  revert x. induction l as [|a r IH]; intros x; simpl; [reflexivity|]. case_if.
  - now rewrite IH.
  - rewrite IH. apply perm_swap.
Qed.

Lemma carry_day_lower ws l x y :
  Forall (key_le ws y) l -> key_le ws y x -> Forall (key_le ws y) (carry_day ws l x).
Proof.
  intros H1 H2. rewrite carry_day_perm. now constructor.
Qed.

Lemma carry_day_sorted ws l x :
  StronglySorted (key_le ws) l -> StronglySorted (key_le ws) (carry_day ws l x).
Proof.
  intros H. revert x. induction H as [|a r Hr IH Ha]; intros x; simpl.
  - repeat constructor.
  - destruct (Z.ltb_spec (week_key ws x) (week_key ws a)).
    + constructor; [apply IH|]. apply carry_day_lower; [|unfold key_le; lia].
      eapply Forall_impl; [|exact Ha]. unfold key_le. intros; lia.
    + constructor; [apply IH|]. now apply carry_day_lower.
Qed.

Lemma sort_days_acc ws l acc :
  StronglySorted (key_le ws) acc ->
  StronglySorted (key_le ws) (fold_left (carry_day ws) l acc) /\
  Permutation (fold_left (carry_day ws) l acc) (acc ++ l).
Proof.
  revert acc. induction l as [|x r IH]; intros acc Ha; simpl.
  - now rewrite app_nil_r.
  - destruct (IH (carry_day ws acc x) (carry_day_sorted ws acc x Ha)) as [H1 H2].
    split; [assumption|]. rewrite H2, carry_day_perm. simpl. apply Permutation_middle.
Qed.

Lemma sort_days_spec ws l :
  StronglySorted (key_le ws) (sort_days ws l) /\ Permutation (sort_days ws l) l.
Proof. apply (sort_days_acc ws l []). constructor. Qed.

Lemma carry_day_last ws l x :
  Forall (fun a => key_le ws a x) l -> carry_day ws l x = l ++ [x].
Proof.
  intros H. induction H as [|a r Ha Hr IH]; simpl; [reflexivity|].
  unfold key_le in Ha. destruct (Z.ltb_spec (week_key ws x) (week_key ws a)); [lia|].
  now rewrite IH.
Qed.

Lemma sort_days_sorted_acc ws l acc :
  StronglySorted (key_le ws) (acc ++ l) -> fold_left (carry_day ws) l acc = acc ++ l.
Proof.
  revert acc. induction l as [|x r IH]; intros acc H; simpl; [now rewrite app_nil_r|].
  rewrite carry_day_last.
  - rewrite IH, <- app_assoc; [reflexivity|]. now rewrite <- app_assoc.
  - induction acc as [|a q IHq]; [constructor|]. simpl in H.
    apply StronglySorted_inv in H as [H Hf]. constructor; [|now apply IHq].
    rewrite Forall_app in Hf. destruct Hf as [_ Hf]. now inversion Hf.
Qed.

Lemma sort_days_sorted ws l : StronglySorted (key_le ws) l -> sort_days ws l = l.
Proof. apply (sort_days_sorted_acc ws l []). Qed.

(** [sort_bydayrules] sorts the BYDAY values by their place in a week that
    begins on the week start, changes nothing else in the rule and loses no
    value; a list that is sorted already stays as it is. *)
Theorem sort_bydayrules_correct rt :
  let rt' := sort_bydayrules rt in
  StronglySorted (key_le (week_start rt)) (by_day rt') /\
  Permutation (by_day rt') (by_day rt) /\
  (StronglySorted (key_le (week_start rt)) (by_day rt) -> rt' = rt) /\
  set_by BY_DAY [] rt' = set_by BY_DAY [] rt.
Proof.
  cbv zeta. destruct (sort_days_spec (week_start rt) (by_day rt)) as [H1 H2].
  split; [exact H1|]. split; [exact H2|]. split; [|reflexivity].
  intros H. unfold sort_bydayrules. rewrite sort_days_sorted by exact H. now destruct rt.
Qed.

Lemma sort_bydayrules_correct_witness :
  let rt := set_by BY_DAY [2; 4; 1] icalrecurrencetype_clear in
  StronglySorted (key_le 2) (by_day (sort_bydayrules rt)) /\ sort_bydayrules rt = rt.
Proof.
  destruct (sort_bydayrules_correct (set_by BY_DAY [2; 4; 1] icalrecurrencetype_clear))
    as (H1 & _ & H3 & _).
  split; [exact H1|]. apply H3. repeat constructor; vm_compute; discriminate.
Defined.

(** ** The invariant *)

(** The values that RFC 5545 allows in each part of a rule. *)
Definition value_ok (b : byrule) (v : Z) : Prop :=
  match b with
  | BY_SECOND => 0 <= v <= 60
  | BY_MINUTE => 0 <= v <= 59
  | BY_HOUR => 0 <= v <= 23
  | BY_DAY =>
      1 <= icalrecurrencetype_day_day_of_week v <= 7 /\
      -53 <= icalrecurrencetype_day_position v <= 53
  | BY_MONTH_DAY => -31 <= v <= 31 /\ v <> 0
  | BY_YEAR_DAY | BY_SET_POS => -366 <= v <= 366 /\ v <> 0
  | BY_WEEK_NO => -53 <= v <= 53 /\ v <> 0
  | BY_MONTH => 1 <= icalrecurrencetype_month_month v <= 12 /\
                (v = icalrecurrencetype_month_month v \/
                 v = icalrecurrencetype_month_month v + LEAP_MONTH)
  end.

(** The code lets one more value through: the position 128 of BYDAY, which it makes of
    the text -128 because the negation of that number does not fit a [signed char]. *)
Definition slipped_day (v : Z) : Prop :=
  1 <= icalrecurrencetype_day_day_of_week v <= 7 /\ icalrecurrencetype_day_position v = 128.
Definition accepted (b : byrule) (v : Z) : Prop := value_ok b v \/ (b = BY_DAY /\ slipped_day v).

Definition by_ok (b : byrule) (l : list Z) : Prop :=
  Forall (accepted b) l /\ Z.of_nat (length l) < by_capacity b.

Definition rule_ok (r : icalrecurrencetype) : Prop :=
  (forall b, by_ok b (by_ptr b r)) /\
  1 <= interval r <= 32767 /\ 0 <= count r <= INT_MAX /\ 1 <= week_start r <= 7 /\
  (0 < count r -> icaltime_is_null_time (until r) = true) /\
  StronglySorted (key_le (week_start r)) (by_day r).

(** The lower bounds given for the parts, and what passes the range check. *)
Definition by_min (b : byrule) : Z :=
  match b with BY_SECOND | BY_MINUTE | BY_HOUR => 0 | BY_MONTH => 1 | _ => -1 end.

Lemma in_range_ok b v :
  b <> BY_DAY -> b <> BY_MONTH ->
  byrule_in_range (by_min b) (by_size b - b2z (by_min b =? 0)) v = true -> value_ok b (to_short v).
Proof.
  intros Hd Hm H. unfold byrule_in_range, truthy in H.
  destruct b; try congruence; cbn [by_min by_size value_ok] in *;
    (change (0 =? 0) with true in H || change (-1 =? 0) with false in H); cbn [b2z negb] in H;
    destruct (Z.ltb_spec v 0), (Z.ltb_spec 0 v); try discriminate H;
    try (change (0 <=? 0) with true in H; discriminate H);
    rewrite to_short_small; lia.
Qed.

Lemma month_in_range_ok v :
  byrule_in_range 1 13 v = true ->
  value_ok BY_MONTH (to_short v) /\ value_ok BY_MONTH (to_short (Z.lor v LEAP_MONTH)).
Proof.
  intros H. unfold byrule_in_range in H.
  assert (1 <= v <= 12) as Hv.
  { destruct (Z.ltb_spec v 0); [discriminate H|]. destruct (Z.ltb_spec 0 v); [|discriminate H]. lia. }
  destruct (month_bits_spec v ltac:(lia)) as (E1 & _ & _ & E4 & E5).
  cbn [value_ok]. rewrite E1, !to_short_small by (unfold LEAP_MONTH; lia).
  rewrite E4, E5. split; split; auto.
Qed.

Definition result_ok (b : byrule) (n : Z) (res : byrules_result) : Prop :=
  match res with
  | Values l => by_ok b l
  | Failed r => r = -1
  | Overflow => by_capacity b <= n /\ by_capacity b <= by_size b
  end.

Lemma byrules_loop_ok b pieces : forall i acc,
  b <> BY_DAY -> i = Z.of_nat (length acc) -> by_ok b acc -> i <= by_size b ->
  result_ok b (i + Z.of_nat (length pieces))
    (byrules_loop (match b with BY_MONTH => true | _ => false end) (by_min b) (by_size b)
       (by_capacity b) i acc pieces).
Proof.
  induction pieces as [|t rest IH]; intros i acc Hb Hi Hacc Hsz; cbn [byrules_loop]; [exact Hacc|].
  destruct (Z.eqb_spec i (by_size b)) as [|Hne]; [reflexivity|]. destruct (strtol t) as [lv t'].
  destruct (byrule_in_range _ _ (to_int32 lv)) eqn:Er; cbn [negb]; [|reflexivity].
  assert (forall v, value_ok b (to_short v) ->
    result_ok b (i + Z.of_nat (length (t :: rest)))
      (if by_capacity b <=? i + 1 then Overflow
       else byrules_loop (match b with BY_MONTH => true | _ => false end) (by_min b) (by_size b)
              (by_capacity b) (i + 1) (acc ++ [to_short v]) rest)) as Hstore.
  { intros v Hv. destruct (Z.leb_spec (by_capacity b) (i + 1)) as [Hc|Hc].
    - cbn [result_ok length]. lia.
    - replace (i + Z.of_nat (length (t :: rest))) with (i + 1 + Z.of_nat (length rest))
        by (simpl length; lia).
      apply IH; [assumption | rewrite length_app; simpl; lia | | lia]. destruct Hacc as [H1 H2].
      split; [apply Forall_app; unfold accepted; auto | rewrite length_app; simpl; lia]. }
  destruct b; try congruence;
    try (apply in_range_ok in Er; [|discriminate|discriminate];
         destruct t'; [now apply Hstore | reflexivity]).
  apply month_in_range_ok in Er as [E1 E2]. cbn [andb]. destruct t' as [|c r].
  - now apply Hstore.
  - destruct (streqb _ _); [now apply Hstore | reflexivity].
Qed.

Lemma weekday_range t :
  icalrecur_string_to_weekday t <> 0 -> 1 <= icalrecur_string_to_weekday t <= 7.
Proof.
  unfold icalrecur_string_to_weekday, wd_map. cbn [by_name].
  repeat (case_if; [lia|]). unfold ICAL_NO_WEEKDAY. lia.
Qed.

Lemma to_schar_range z : -128 <= to_schar z <= 127.
Proof.
  unfold to_schar, to_signed. change (2 ^ (8 - 1)) with 128. change (2 ^ 8) with 256. zdiv.
Qed.

Lemma byday_value_ok t v : byday_value t = Some v -> accepted BY_DAY v.
Proof.
  unfold byday_value. destruct (strtol t) as [lv t']. set (t2 := match t' with [] => _ | _ => _ end).
  set (wd := icalrecur_string_to_weekday t2). pose proof (to_schar_range lv) as Hr.
  set (w := to_schar lv) in *. clearbody w. cbn [by_size].
  assert (to_schar (- w) = if w =? -128 then -128 else - w) as En.
  { destruct (Z.eqb_spec w (-128)) as [->|]; [reflexivity|].
    unfold to_schar. apply to_signed_small; [lia|]. change (2 ^ (8 - 1)) with 128. lia. }
  destruct (Z.ltb_spec w 0) as [Hneg|Hpos].
  - rewrite En. destruct ((wd =? ICAL_NO_WEEKDAY) || _) eqn:Eb; [discriminate|].
    intros [= <-]. unfold ICAL_NO_WEEKDAY in Eb.
    pose proof (weekday_range t2) as Hw. fold wd in Hw.
    destruct (Z.eqb_spec w (-128)).
    + right. split; [reflexivity|]. unfold slipped_day. destruct (encode_day_spec wd (-1 * -128)) as [-> ->]; lia.
    + left. cbn [value_ok]. destruct (encode_day_spec wd (-1 * - w)) as [-> ->]; lia.
  - destruct ((wd =? ICAL_NO_WEEKDAY) || _) eqn:Eb; [discriminate|].
    intros [= <-]. unfold ICAL_NO_WEEKDAY in Eb.
    pose proof (weekday_range t2) as Hw. fold wd in Hw.
    left. cbn [value_ok]. destruct (encode_day_spec wd (1 * w)) as [-> ->]; lia.
Qed.

Lemma bydayrules_loop_ok pieces : forall i acc,
  i = Z.of_nat (length acc) -> by_ok BY_DAY acc -> i <= by_size BY_DAY ->
  result_ok BY_DAY (i + Z.of_nat (length pieces)) (bydayrules_loop i acc pieces).
Proof.
  induction pieces as [|t rest IH]; intros i acc Hi Hacc Hsz; cbn [bydayrules_loop]; [exact Hacc|].
  destruct (Z.eqb_spec i (by_size BY_DAY)) as [|Hne]; [reflexivity|].
  destruct (byday_value t) as [v|] eqn:Ev; [|reflexivity]. apply byday_value_ok in Ev.
  destruct (Z.leb_spec (by_capacity BY_DAY) (i + 1)) as [Hc|Hc].
  - cbn [result_ok length] in *. lia.
  - replace (i + Z.of_nat (length (t :: rest))) with (i + 1 + Z.of_nat (length rest))
      by (simpl length; lia).
    apply IH; [rewrite length_app; simpl; lia | | lia]. destruct Hacc as [H1 H2].
    split; [apply Forall_app; auto | rewrite length_app; cbn [length]; lia].
Qed.

Definition count_char (c : ascii) (s : cstring) : Z :=
  Z.of_nat (length (filter (Ascii.eqb c) s)).

Lemma split_on_nonempty c s : split_on c s <> [].
Proof.
  destruct s as [|d r]; cbn; [discriminate|]. destruct (split_on c r); [discriminate|].
  case_if; discriminate.
Qed.

Lemma split_on_length c s : Z.of_nat (length (split_on c s)) = count_char c s + 1.
Proof.
  unfold count_char. induction s as [|d r IH]; [reflexivity|]. cbn [split_on filter].
  pose proof (split_on_nonempty c r). destruct (split_on c r) as [|h t]; [congruence|].
  destruct (Ascii.eqb c d); simpl length in *; lia.
Qed.

Lemma by_ok_nil b : by_ok b [].
Proof. split; [constructor | destruct b; reflexivity]. Qed.

Lemma add_byrules_ok b vals :
  b <> BY_DAY ->
  result_ok b (count_char "," vals + 1) (icalrecur_add_byrules b (by_min b) vals).
Proof.
  intros Hb. rewrite <- split_on_length.
  apply (byrules_loop_ok b (split_on "," vals) 0 []);
    [assumption | reflexivity | apply by_ok_nil | destruct b; discriminate].
Qed.

Lemma add_bydayrules_ok vals :
  result_ok BY_DAY (count_char "," vals + 1) (icalrecur_add_bydayrules vals).
Proof.
  rewrite <- split_on_length.
  apply (bydayrules_loop_ok (split_on "," vals) 0 []);
    [reflexivity | apply by_ok_nil | discriminate].
Qed.

(** ** The clauses keep the invariant *)

Lemma clear_ok : rule_ok icalrecurrencetype_clear.
Proof.
  split; [intros b; destruct b; apply by_ok_nil|]. cbn. unfold ICAL_MONDAY_WEEKDAY, INT_MAX.
  repeat split; try lia; try (intros; lia). constructor.
Qed.

Lemma set_by_ok b l r :
  rule_ok r -> by_ok b l ->
  (b = BY_DAY -> StronglySorted (key_le (week_start r)) l) -> rule_ok (set_by b l r).
Proof.
  intros (Hb & Hi & Hc & Hw & Hu & Hs) Hl Hd. split.
  - intros b'. pose proof (Hb b') as Hb'. destruct b, b'; first [exact Hl | exact Hb'].
  - repeat (split; [assumption|]). destruct b; try exact Hs. now apply Hd.
Qed.

Lemma sort_bydayrules_ok r :
  (forall b, by_ok b (by_ptr b r)) -> 1 <= interval r <= 32767 -> 0 <= count r <= INT_MAX ->
  1 <= week_start r <= 7 -> (0 < count r -> icaltime_is_null_time (until r) = true) ->
  rule_ok (sort_bydayrules r).
Proof.
  intros Hb Hi Hc Hw Hu. destruct (sort_days_spec (week_start r) (by_day r)) as [Hs Hp].
  split; [|repeat (split; [assumption|]); exact Hs].
  intros b. pose proof (Hb b) as Hb'. destruct b; try exact Hb'. destruct Hb' as [H1 H2].
  cbn [by_ptr sort_bydayrules set_by by_day] in *.
  split; [now rewrite Hp | now rewrite (Permutation_length Hp)].
Qed.

(** What a clause of [n - 1] commas may do to a rule and to the error state. *)
Definition clause_ok (n : Z) (res : clause_result) : Prop :=
  match res with
  | Parsed rt => rule_ok rt
  | Refused r => r = -1
  | Undefined => 25 <= n
  end.

Lemma capacity_25 b : by_capacity b <= by_size b -> 25 <= by_capacity b.
Proof. destruct b; unfold by_capacity, by_size; lia. Qed.

Lemma byrule_clause_ok b value rt :
  b <> BY_DAY -> rule_ok rt ->
  clause_ok (count_char "," value + 1) (byrule_clause b (by_min b) value rt).
Proof.
  intros Hb Hr. unfold byrule_clause. destruct (negb _); [reflexivity|].
  pose proof (add_byrules_ok b value Hb) as H. pose proof (capacity_25 b).
  destruct (icalrecur_add_byrules b (by_min b) value); cbn [result_ok with_byrules clause_ok] in *.
  - apply set_by_ok; [assumption..|congruence].
  - assumption.
  - lia.
Qed.

Lemma byday_clause_ok value rt :
  rule_ok rt ->
  clause_ok (count_char "," value + 1)
    match icalrecur_add_bydayrules value with
    | Values l => Parsed (sort_bydayrules (set_by BY_DAY l rt))
    | Failed r => Refused r
    | Overflow => Undefined
    end.
Proof.
  intros (Hb & Hi & Hc & Hw & Hu & Hs). pose proof (add_bydayrules_ok value) as H.
  destruct (icalrecur_add_bydayrules value); cbn [result_ok clause_ok] in *.
  - apply sort_bydayrules_ok; try assumption.
    intros b. pose proof (Hb b) as Hb'. destruct b; first [exact H | exact Hb'].
  - assumption.
  - pose proof (capacity_25 BY_DAY). lia.
Qed.

(** The error state after a clause: only UNTIL raises an error of its own. *)
Definition state_ok (st : error_state) (res : clause_result) (st' : error_state) : Prop :=
  st' = st \/
  (st' = with_errno st ICAL_MALFORMEDDATA_ERROR /\ res = Refused (-1)).

Lemma atoi_range s : is_int32 (atoi s).
Proof. apply to_int32_range. Qed.

Lemma to_short_range z : -32768 <= to_short z <= 32767.
Proof.
  unfold to_short, to_signed. change (2 ^ (16 - 1)) with 32768. change (2 ^ 16) with 65536. zdiv.
Qed.

Lemma rule_ok_fields rt rt' :
  rule_ok rt -> (forall b, by_ptr b rt' = by_ptr b rt) -> week_start rt' = week_start rt ->
  1 <= interval rt' <= 32767 -> 0 <= count rt' <= INT_MAX ->
  (0 < count rt' -> icaltime_is_null_time (until rt') = true) -> rule_ok rt'.
Proof.
  intros (Hb & Hi & Hc & Hw & Hu & Hs) Eb Ew Hi' Hc' Hu'. split.
  - intros b. rewrite Eb. apply Hb.
  - rewrite Ew. repeat (split; [assumption|]). change (by_day rt') with (by_ptr BY_DAY rt').
    rewrite Eb. exact Hs.
Qed.

Lemma until_clause_ok value rt st :
  rule_ok rt -> nonfatal st ICAL_MALFORMEDDATA_ERROR = true -> count rt <= 0 ->
  exists res st',
    (u <- icaltime_from_string value ;;
     ret (refuse_if (icaltime_is_null_time u) (set_until u rt)))%err st = Some (res, st') /\
    clause_ok 0 res /\ state_ok st res st'.
Proof.
  intros Hr Hnf Hc0. unfold bind, icaltime_from_string.
  destruct (icaltime_scan value) as [u|].
  - unfold ret. exists (refuse_if (icaltime_is_null_time u) (set_until u rt)), st.
    split; [reflexivity|]. split; [|now left]. unfold refuse_if.
    destruct (icaltime_is_null_time u); [reflexivity|]. cbn [clause_ok].
    pose proof Hr as (_ & Hi & Hc & _ & Hu & _).
    apply (rule_ok_fields rt); try assumption; try reflexivity. cbn. lia.
  - unfold bind. rewrite set_errno_spec, Hnf. cbn [ret].
    exists (Refused (-1)), (with_errno st ICAL_MALFORMEDDATA_ERROR).
    split; [reflexivity|]. split; [reflexivity|]. right. auto.
Qed.

Lemma clause_ok_weaken n m res : n <= m -> clause_ok n res -> clause_ok m res.
Proof. destruct res; cbn; intros; auto; lia. Qed.

(** Branches of [parse_clause] that do not touch the error state. *)
Lemma pure_branch n res st :
  clause_ok n res ->
  exists res' st', ret res st = Some (res', st') /\ clause_ok n res' /\ state_ok st res' st'.
Proof. intros H. exists res, st. split; [reflexivity|]. split; [exact H | now left]. Qed.

Lemma refuse_if_ok n c rt : (c = false -> rule_ok rt) -> clause_ok n (refuse_if c rt).
Proof. intros H. unfold refuse_if. destruct c; [reflexivity | now apply H]. Qed.

Lemma parse_clause_ok name value rt st :
  rule_ok rt -> nonfatal st ICAL_MALFORMEDDATA_ERROR = true ->
  exists res st', parse_clause name value rt st = Some (res, st') /\
    clause_ok (count_char "," value + 1) res /\ state_ok st res st'.
Proof.
  intros Hr Hnf. pose proof Hr as (Hb & Hi & Hc & Hw & Hu & Hs).
  assert (0 <= count_char "," value) as Hcc by (unfold count_char; lia). unfold parse_clause.
  repeat match goal with
  | |- context [strcaseeqb name ?n] => destruct (strcaseeqb name n)
  end;
  try (apply pure_branch; first
    [ reflexivity
    | exact (byrule_clause_ok BY_SECOND value rt ltac:(discriminate) Hr)
    | exact (byrule_clause_ok BY_MINUTE value rt ltac:(discriminate) Hr)
    | exact (byrule_clause_ok BY_HOUR value rt ltac:(discriminate) Hr)
    | exact (byrule_clause_ok BY_MONTH_DAY value rt ltac:(discriminate) Hr)
    | exact (byrule_clause_ok BY_YEAR_DAY value rt ltac:(discriminate) Hr)
    | exact (byrule_clause_ok BY_WEEK_NO value rt ltac:(discriminate) Hr)
    | exact (byrule_clause_ok BY_MONTH value rt ltac:(discriminate) Hr)
    | exact (byrule_clause_ok BY_SET_POS value rt ltac:(discriminate) Hr) ]).
  - destruct (negb _); apply pure_branch; [reflexivity|]. apply refuse_if_ok. intros _.
    now apply (rule_ok_fields rt).
  - destruct (rscale rt); apply pure_branch; [reflexivity|]. now apply (rule_ok_fields rt).
  - destruct (negb _); apply pure_branch; [reflexivity|]. apply refuse_if_ok. intros _.
    now apply (rule_ok_fields rt).
  - destruct ((0 <? count rt) || _) eqn:E; apply pure_branch; [reflexivity|].
    apply refuse_if_ok. intros Hlt. pose proof (atoi_range value) as Ha. unfold is_int32 in Ha.
    apply (rule_ok_fields rt); try assumption; try reflexivity; cbn; [lia|]. intros _.
    bools. assumption.
  - destruct ((0 <? count rt) || _) eqn:E; [apply pure_branch; reflexivity|]. bools.
    destruct (until_clause_ok value rt st Hr Hnf ltac:(lia)) as (res & st' & E1 & E2 & E3).
    exists res, st'. split; [exact E1|]. split; [|exact E3].
    apply (clause_ok_weaken 0); [lia | exact E2].
  - destruct (1 <? interval rt); apply pure_branch; [reflexivity|]. apply refuse_if_ok.
    intros Hlt. pose proof (to_short_range (atoi value)).
    apply (rule_ok_fields rt); try assumption; try reflexivity. cbn. lia.
  - destruct (negb _); [apply pure_branch; reflexivity|].
    destruct (Z.eqb_spec (icalrecur_string_to_weekday value) ICAL_NO_WEEKDAY) as [|Hne];
      apply pure_branch; [reflexivity|].
    apply sort_bydayrules_ok; try assumption. cbn. now apply weekday_range.
  - destruct (negb _); apply pure_branch; [reflexivity | now apply byday_clause_ok].
Qed.

(** A part of a text has at most its commas. *)
Lemma count_char_app c a b : count_char c (a ++ b) = count_char c a + count_char c b.
Proof. unfold count_char. rewrite filter_app, length_app. lia. Qed.

Lemma count_char_nonneg c a : 0 <= count_char c a.
Proof. unfold count_char. lia. Qed.

Lemma split_at_count c x s a b :
  split_at c s = Some (a, b) -> count_char x b <= count_char x s.
Proof.
  intros H. apply split_at_inv in H as [-> _]. change (c :: b) with ([c] ++ b).
  rewrite !count_char_app. pose proof (count_char_nonneg x a). pose proof (count_char_nonneg x [c]).
  lia.
Qed.

Lemma split_on_count c x s : forall p, In p (split_on c s) -> count_char x p <= count_char x s.
Proof.
  induction s as [|d r IH]; intros p Hp.
  - destruct Hp as [<- | []]. lia.
  - cbn [split_on] in Hp. pose proof (split_on_nonempty c r).
    assert (count_char x (d :: r) = count_char x [d] + count_char x r) as ->
      by apply (count_char_app x [d] r).
    pose proof (count_char_nonneg x [d]). pose proof (count_char_nonneg x r).
    destruct (split_on c r) as [|h t]; [congruence|].
    destruct (Ascii.eqb c d).
    + destruct Hp as [<- | Hp]; [unfold count_char in *; simpl; lia|]. apply IH in Hp. lia.
    + destruct Hp as [<- | Hp].
      * assert (count_char x (d :: h) = count_char x [d] + count_char x h) as ->
          by apply (count_char_app x [d] h).
        specialize (IH h (or_introl eq_refl)). lia.
      * specialize (IH p (or_intror Hp)). lia.
Qed.

(** The possible results of reading a rule in the state [st]. *)
Definition recur_outcome (st : error_state) (r : option (icalrecurrencetype * error_state)) : Prop :=
  exists rt st', r = Some (rt, st') /\ rule_ok rt /\
    (st' = st \/ (st' = with_errno st ICAL_MALFORMEDDATA_ERROR /\ rt = icalrecurrencetype_clear)).

Lemma refuse_rule_outcome st e :
  nonfatal st ICAL_MALFORMEDDATA_ERROR = true ->
  recur_outcome st (refuse_rule (-1) (with_errno st e)).
Proof.
  intros Hnf. exists icalrecurrencetype_clear, (with_errno st ICAL_MALFORMEDDATA_ERROR).
  split; [|split; [apply clear_ok | right; auto]].
  unfold refuse_rule. change (-1 =? -2) with false. cbv iota. unfold bind.
  rewrite set_errno_spec. change (nonfatal (with_errno st e)) with (nonfatal st). now rewrite Hnf.
Qed.

Lemma parse_clauses_outcome clauses : forall rt st,
  rule_ok rt -> nonfatal st ICAL_MALFORMEDDATA_ERROR = true ->
  (forall p, In p clauses -> count_char "," p < 24) ->
  recur_outcome st (parse_clauses clauses rt st).
Proof.
  induction clauses as [|c rest IH]; intros rt st Hr Hnf Hcl; cbn [parse_clauses].
  - exists rt, st. auto.
  - destruct (split_at "=" c) as [[name value]|] eqn:Es.
    + unfold bind. destruct (parse_clause_ok name value rt st Hr Hnf) as (res & st' & -> & Hok & Hst).
      assert (count_char "," value < 24)
        by (pose proof (split_at_count _ ","%char _ _ _ Es); specialize (Hcl c (or_introl eq_refl)); lia).
      destruct res as [rt'|r|]; cbn in Hok.
      * destruct Hst as [-> | [_ Hst]]; [|discriminate].
        apply IH; [assumption..|]. intros p Hp. apply Hcl. now right.
      * subst r. destruct Hst as [-> | [-> _]]; [|now apply refuse_rule_outcome].
        pose proof (refuse_rule_outcome st (icalerrno st) Hnf) as H1.
        now rewrite with_errno_same in H1.
      * lia.
    + pose proof (refuse_rule_outcome st (icalerrno st) Hnf) as H1. rewrite with_errno_same in H1.
      destruct (is_empty c); [exists rt, st; auto | exact H1].
Qed.

(** C10: [icalrecurrencetype_from_string] returns for every text with fewer than
    24 commas (with more, BYHOUR can overflow its array) when malformed data is not a
    fatal error, and what it returns is a rule within bounds: every BY value in
    the range that RFC 5545 gives for its part, except that BYDAY may have the position
    128, made of -128; every list shorter than its array and closed by a terminator, the interval positive, COUNT and UNTIL not both set, BYDAY sorted
    by the week start.  On an error the rule is the cleared one and [icalerrno]
    says malformed data; otherwise the error state is untouched. *)
Theorem recur_from_string_in_bounds (s : cstring) (st : error_state) :
  nonfatal st ICAL_MALFORMEDDATA_ERROR = true -> count_char "," s < 24 ->
  exists rt st', icalrecurrencetype_from_string (Some s) st = Some (rt, st') /\ rule_ok rt /\
    (st' = st \/ (st' = with_errno st ICAL_MALFORMEDDATA_ERROR /\ rt = icalrecurrencetype_clear)).
Proof.
  intros Hnf Hc. apply parse_clauses_outcome; [apply clear_ok | exact Hnf |].
  intros p Hp. pose proof (split_on_count ";"%char ","%char s p Hp). lia.
Qed.

Lemma recur_from_string_in_bounds_witness :
  exists rt st', icalrecurrencetype_from_string (Some ($"FREQ=YEARLY;BYDAY=-1SU,TH;BYMONTH=3,5L"))
    (initial_error_state false) = Some (rt, st') /\ rule_ok rt.
Proof.
  destruct (recur_from_string_in_bounds ($"FREQ=YEARLY;BYDAY=-1SU,TH;BYMONTH=3,5L")
    (initial_error_state false)) as (rt & st' & E & Hok & _).
  - vm_compute. reflexivity.
  - vm_compute. reflexivity.
  - exists rt, st'. split; [exact E | exact Hok].
Defined.

(** A list of exactly as many values as its array has elements passes the test
    [i == size], and the terminator is stored behind the array: 25 hours. *)
Theorem byhour_terminator_overflow :
  icalrecur_add_byrules BY_HOUR 0 (join "," (repeat ($"0") 25)) = Overflow.
Proof. vm_compute. reflexivity. Qed.

(** The position -128 is accepted as 128: the check against the largest week
    number is made on a [signed char] that is still negative. *)
Theorem byday_minus_128 :
  byday_value ($"-128SU") = Some (icalrecurrencetype_encode_day ICAL_SUNDAY_WEEKDAY 128).
Proof. vm_compute. reflexivity. Qed.
