(* ===== verification/IcalRecurText.v ===== *)
(** * Recurrence rules: reading back what was written

    [icalrecurrencetype_from_string] is a left inverse of
    [icalrecurrencetype_as_string_r] on the rules that have a text. *)
From Stdlib Require Import String Ascii ZArith Lia Bool List Permutation Sorted.
From S2P Require Import Prelude CString IcalError IcalTime IcalTimeText IcalRecurType IcalRecurRule.
Import ListNotations.
#[local] Open Scope Z_scope.
#[local] Open Scope cstring_scope.

(** ** Lists with separators *)

Definition without (c : ascii) (s : cstring) : Prop := Forall (fun d => d <> c) s.

Lemma split_on_app c a b :
  without c a -> split_on c (a ++ c :: b) = a :: split_on c b.
Proof.
  intros H. induction H as [|d a Hd Ha IH]; cbn [app split_on].
  - pose proof (split_on_nonempty c b). destruct (split_on c b); [congruence|].
    now rewrite Ascii.eqb_refl.
  - rewrite IH. destruct (Ascii.eqb_spec c d); [congruence | reflexivity].
Qed.

Lemma split_on_none c a : without c a -> split_on c a = [a].
Proof.
  intros H. induction H as [|d a Hd Ha IH]; [reflexivity|]. cbn [split_on]. rewrite IH.
  destruct (Ascii.eqb_spec c d); [congruence | reflexivity].
Qed.

Lemma split_on_join c l : l <> [] -> Forall (without c) l -> split_on c (join c l) = l.
Proof.
  intros Hne H. induction H as [|x r Hx Hr IH]; [congruence|]. destruct r as [|y r'].
  - now apply split_on_none.
  - change (join c (x :: y :: r')) with (x ++ c :: join c (y :: r')).
    rewrite split_on_app by exact Hx. now rewrite IH.
Qed.

Lemma join_cons c x l : join c (x :: l) = x ++ concat (map (cons c) l).
Proof.
  revert x. induction l as [|y r IH]; intros x; [cbn; now rewrite app_nil_r|].
  change (join c (x :: y :: r)) with (x ++ c :: join c (y :: r)). now rewrite IH.
Qed.

Lemma without_app c a b : without c (a ++ b) <-> without c a /\ without c b.
Proof. apply Forall_app. Qed.

Lemma without_join c sep l : c <> sep -> Forall (without c) l -> without c (join sep l).
Proof.
  intros Hne H. induction H as [|x r Hx Hr IH]; [constructor|]. destruct r as [|y r']; [exact Hx|].
  change (join sep (x :: y :: r')) with (x ++ sep :: join sep (y :: r')).
  apply without_app. split; [exact Hx|]. constructor; [congruence | exact IH].
Qed.

(** ** Numbers *)

Lemma fmt_d_without v c : isdigit c = false -> c <> "-"%char -> without c (fmt_d v).
Proof.
  intros Hc Hm. unfold fmt_d, without.
  assert (forall z, 0 <= z -> Forall (fun d => d <> c) (dec z)) as F.
  { intros z Hz. pose proof (dec_digits z Hz) as Hd. unfold all_digits in Hd.
    eapply Forall_impl; [|exact Hd]. intros d Hdd ->. congruence. }
  destruct (Z.ltb_spec v 0); [constructor; [congruence|]|]; apply F; lia.
Qed.

Lemma snprintf_fmt_d v s :
  is_int32 v -> (length s <= 8)%nat -> snprintf 20 (fmt_d v ++ s) = fmt_d v ++ s.
Proof.
  intros Hv Hs. apply firstn_all2. rewrite length_app. pose proof (fmt_d_length v Hv). simpl. lia.
Qed.

Lemma snprintf_fmt_d_nil v : is_int32 v -> snprintf 20 (fmt_d v) = fmt_d v.
Proof. intros Hv. rewrite <- (app_nil_r (fmt_d v)). apply snprintf_fmt_d; [exact Hv | simpl; lia]. Qed.

Lemma strtol_small v rest :
  is_int32 v -> no_digit_head rest -> strtol (fmt_d v ++ rest) = (v, rest).
Proof.
  intros Hv Hr. apply strtol_fmt_d; [|exact Hr].
  unfold is_int32, INT_MIN, INT_MAX, LONG_MIN, LONG_MAX in *. lia.
Qed.

(** ** BY values *)

(** The values that have a text. *)
Definition printable_value (b : byrule) (v : Z) : Prop :=
  value_ok b v /\
  (b = BY_DAY ->
   -53 <= icalrecurrencetype_day_position v <= 53 /\
   v = icalrecurrencetype_encode_day (icalrecurrencetype_day_day_of_week v)
         (icalrecurrencetype_day_position v)).

Lemma value_ok_small b v : b <> BY_DAY -> value_ok b v -> -4096 <= v <= 4200.
Proof.
  intros Hb. destruct b; try congruence; cbn [value_ok]; unfold LEAP_MONTH; lia.
Qed.

Lemma small_int32 v : -4096 <= v <= 4200 -> is_int32 v.
Proof. unfold is_int32, INT_MIN, INT_MAX. lia. Qed.

Lemma value_in_range b v :
  b <> BY_DAY -> b <> BY_MONTH -> value_ok b v ->
  byrule_in_range (by_min b) (by_size b - b2z (by_min b =? 0)) v = true.
Proof.
  intros Hd Hm H. unfold byrule_in_range, truthy.
  destruct b; try congruence; cbn [by_min by_size value_ok] in *;
    (change (0 =? 0) with true || change (-1 =? 0) with false); cbn [b2z negb];
    destruct (Z.ltb_spec v 0), (Z.ltb_spec 0 v); try reflexivity; try lia;
    change (0 <=? -1) with false; cbn [orb]; lia.
Qed.

(** The number a piece starts with and the rest of the piece. *)
Lemma byrule_text_number b v :
  b <> BY_DAY -> b <> BY_MONTH -> value_ok b v -> byrule_text b v = fmt_d v.
Proof.
  intros Hd Hm Hv. apply value_ok_small in Hv; [|exact Hd]. apply small_int32 in Hv.
  destruct b; try congruence; cbn [byrule_text]; now apply snprintf_fmt_d_nil.
Qed.

Definition month_suffix (v : Z) : cstring :=
  if icalrecurrencetype_month_is_leap v then $"L" else [].

Lemma month_text v :
  value_ok BY_MONTH v ->
  byrule_text BY_MONTH v = fmt_d (icalrecurrencetype_month_month v) ++ month_suffix v /\
  byrule_in_range 1 13 (icalrecurrencetype_month_month v) = true /\
  (if icalrecurrencetype_month_is_leap v
   then Z.lor (icalrecurrencetype_month_month v) LEAP_MONTH
   else icalrecurrencetype_month_month v) = v.
Proof.
  intros [Hm Hv]. set (m := icalrecurrencetype_month_month v) in *.
  destruct (month_bits_spec m ltac:(lia)) as (E1 & E2 & E3 & E4 & E5).
  assert (is_int32 m) as Hi by (apply small_int32; lia).
  unfold month_suffix. cbn [byrule_text]. fold m.
  assert (byrule_in_range 1 13 m = true) as Hr.
  { unfold byrule_in_range. destruct (Z.ltb_spec m 0); [lia|].
    destruct (Z.ltb_spec 0 m); [|lia]. destruct (Z.leb_spec 13 m); [lia | reflexivity]. }
  destruct Hv as [Hv|Hv].
  - assert (icalrecurrencetype_month_is_leap v = false) as -> by (rewrite Hv; exact E3).
    rewrite app_nil_r. split; [rewrite Hv at 1; now apply snprintf_fmt_d_nil|]. auto.
  - assert (icalrecurrencetype_month_is_leap v = true) as -> by (rewrite Hv; exact E2).
    split; [apply snprintf_fmt_d; [exact Hi | simpl; lia]|]. split; [exact Hr | now rewrite E1].
Qed.

(** One round of the loop stores the value its text was made from. *)
Lemma byrules_loop_text b l : forall i acc,
  b <> BY_DAY -> Forall (value_ok b) l -> 0 <= i -> i + Z.of_nat (length l) < by_size b ->
  byrules_loop (match b with BY_MONTH => true | _ => false end) (by_min b) (by_size b)
    (by_capacity b) i acc (map (byrule_text b) l) = Values (acc ++ l).
Proof.
  assert (by_size b <= by_capacity b) as Hcap by (destruct b; discriminate).
  induction l as [|v r IH]; intros i acc Hb Hl Hi Hn; cbn [map byrules_loop].
  - now rewrite app_nil_r.
  - inversion Hl as [|? ? Hv Hr]; subst. cbn [length] in Hn.
    destruct (Z.eqb_spec i (by_size b)); [lia|].
    assert (forall t' w, strtol (byrule_text b v) = (w, t') -> is_int32 w ->
      byrule_in_range (by_min b) (by_size b - b2z (by_min b =? 0)) w = true ->
      (t' = [] /\ w = v \/ (match b with BY_MONTH => true | _ => false end) = true /\ t' = $"L" /\
       Z.lor w LEAP_MONTH = v) ->
      byrules_loop (match b with BY_MONTH => true | _ => false end) (by_min b) (by_size b)
        (by_capacity b) i acc (map (byrule_text b) (v :: r)) = Values (acc ++ v :: r)) as Hround.
    { intros t' w Es Hw Hrg Ht. cbn [map byrules_loop].
      destruct (Z.eqb_spec i (by_size b)); [lia|]. rewrite Es, to_int32_small by exact Hw.
      rewrite Hrg. cbn [negb]. destruct (Z.leb_spec (by_capacity b) (i + 1)); [lia|].
      assert (to_short v = v) as Ev.
      { apply to_short_small. pose proof (value_ok_small b v Hb Hv). lia. }
      destruct Ht as [[-> ->] | (Hm & -> & Ew)].
      - rewrite Ev, IH by (try assumption; lia). now rewrite <- app_assoc.
      - cbn [lit list_ascii_of_string]. rewrite Hm. cbn [andb].
        change (streqb _ _) with true. cbv iota. unfold icalrecurrencetype_rscale_is_supported.
        rewrite <- Hm, Ew, Ev, IH by (try assumption; lia). now rewrite <- app_assoc. }
    cbn [map byrules_loop] in Hround. destruct (Z.eqb_spec i (by_size b)); [lia|].
    destruct (match b with BY_MONTH => true | _ => false end) eqn:Eb.
    + destruct b; try discriminate Eb. destruct (month_text v Hv) as (Et & Hrg & Ev).
      pose proof (proj1 Hv) as Hm.
      assert (is_int32 (icalrecurrencetype_month_month v)) as H32 by (apply small_int32; lia).
      unfold month_suffix in Et. destruct (icalrecurrencetype_month_is_leap v).
      * apply (Hround ($"L") (icalrecurrencetype_month_month v)); auto.
        rewrite Et. apply strtol_small; [exact H32 | reflexivity].
      * apply (Hround [] (icalrecurrencetype_month_month v)); auto.
        rewrite Et. apply strtol_small; [exact H32 | exact I].
    + assert (b <> BY_MONTH) as Hb' by (intros ->; discriminate Eb).
      apply (Hround [] v).
      * rewrite byrule_text_number by assumption. rewrite <- (app_nil_r (fmt_d v)).
        apply strtol_small; [|exact I]. apply small_int32. now apply (value_ok_small b).
      * apply small_int32. now apply (value_ok_small b).
      * now apply value_in_range.
      * now left.
Qed.

(** ** BYDAY *)

Lemma weekday_names wd :
  1 <= wd <= 7 ->
  exists s, icalrecur_weekday_to_string wd = Some s /\ icalrecur_string_to_weekday s = wd /\
    length s = 2%nat /\ no_digit_head s /\ strtol s = (0, s) /\ without "," s /\ without ";" s /\
    match s with c :: _ => Ascii.eqb c " " = false | [] => True end.
Proof.
  intros H. assert (wd = 1 \/ wd = 2 \/ wd = 3 \/ wd = 4 \/ wd = 5 \/ wd = 6 \/ wd = 7) as Hc by lia.
  repeat destruct Hc as [->|Hc]; [..|subst]; eexists; (split; [reflexivity|]); vm_compute;
    repeat split; try reflexivity; repeat constructor; discriminate.
Qed.

Lemma byday_text v :
  printable_value BY_DAY v ->
  byday_value (byrule_text BY_DAY v) = Some v /\
  without "," (byrule_text BY_DAY v) /\ without ";" (byrule_text BY_DAY v).
Proof.
  intros [[Hd _] Hp]. destruct (Hp eq_refl) as [Hpos Hv]. cbn [byrule_text].
  set (pos := icalrecurrencetype_day_position v) in *.
  set (wd := icalrecurrencetype_day_day_of_week v) in *.
  destruct (weekday_names wd Hd) as (s & -> & Hs & Hl & Hh & H0 & Hc & Hsc & Hsp).
  cbn [name_or_empty].
  assert (is_int32 pos) as Hi by (apply small_int32; lia).
  assert (strtol (if pos =? 0 then s else snprintf 20 (fmt_d pos ++ s)) = (pos, s)) as Est.
  { destruct (Z.eqb_spec pos 0) as [->|]; [exact H0|].
    rewrite snprintf_fmt_d by (try exact Hi; lia). now apply strtol_small. }
  split.
  - unfold byday_value. rewrite Est.
    assert (to_schar pos = pos) as -> by (apply to_signed_small; [lia | simpl; lia]).
    assert (match s with c :: r => if Ascii.eqb c " " then r else s | [] => s end = s) as ->
      by (destruct s as [|c r]; [reflexivity | now rewrite Hsp]).
    rewrite Hs. unfold ICAL_NO_WEEKDAY. cbn [by_size].
    destruct (Z.ltb_spec pos 0).
    + assert (to_schar (- pos) = - pos) as -> by (apply to_signed_small; [lia | simpl; lia]).
      assert ((wd =? 0) || (54 <=? - pos) = false)%bool as -> by lia.
      f_equal. etransitivity; [|symmetry; exact Hv]. f_equal. lia.
    + assert ((wd =? 0) || (54 <=? pos) = false)%bool as -> by lia.
      f_equal. etransitivity; [|symmetry; exact Hv]. f_equal. lia.
  - destruct (Z.eqb_spec pos 0); [auto|]. rewrite snprintf_fmt_d by (try exact Hi; lia).
    rewrite !without_app. repeat split; try assumption; apply fmt_d_without;
      (reflexivity || discriminate).
Qed.

Lemma bydayrules_loop_text l : forall i acc,
  Forall (printable_value BY_DAY) l -> 0 <= i -> i + Z.of_nat (length l) < by_size BY_DAY ->
  bydayrules_loop i acc (map (byrule_text BY_DAY) l) = Values (acc ++ l).
Proof.
  induction l as [|v r IH]; intros i acc Hl Hi Hn; cbn [map bydayrules_loop].
  - now rewrite app_nil_r.
  - inversion Hl as [|? ? Hv Hr]; subst. cbn [length] in Hn.
    destruct (Z.eqb_spec i (by_size BY_DAY)); [lia|].
    rewrite (proj1 (byday_text v Hv)).
    destruct (Z.leb_spec (by_capacity BY_DAY) (i + 1)) as [Hc|Hc].
    { exfalso. unfold by_capacity, by_size in *. lia. }
    rewrite IH by (try assumption; lia). now rewrite <- app_assoc.
Qed.

Lemma byrule_text_without b v c :
  c = ","%char \/ c = ";"%char -> printable_value b v -> without c (byrule_text b v).
Proof.
  intros Hc Hv.
  assert (isdigit c = false /\ c <> "-"%char) as [Hd Hm]
    by (destruct Hc as [-> | ->]; split; (reflexivity || discriminate)).
  destruct b; try (rewrite byrule_text_number by (discriminate || exact (proj1 Hv));
                   now apply fmt_d_without).
  - destruct (byday_text v Hv) as (_ & H1 & H2). destruct Hc as [-> | ->]; assumption.
  - destruct (month_text v (proj1 Hv)) as (-> & _). apply without_app.
    split; [now apply fmt_d_without|]. unfold month_suffix.
    case_if; repeat constructor. destruct Hc as [-> | ->]; discriminate.
Qed.

(** ** A rule as a list of clauses *)

Definition clause (name value : cstring) : cstring := name ++ "="%char :: value.

Definition by_clause_name (b : byrule) : cstring :=
  match b with
  | BY_SECOND => $"BYSECOND" | BY_MINUTE => $"BYMINUTE" | BY_HOUR => $"BYHOUR"
  | BY_DAY => $"BYDAY" | BY_MONTH_DAY => $"BYMONTHDAY" | BY_YEAR_DAY => $"BYYEARDAY"
  | BY_WEEK_NO => $"BYWEEKNO" | BY_MONTH => $"BYMONTH" | BY_SET_POS => $"BYSETPOS"
  end.

Definition all_byrules : list byrule :=
  [BY_SECOND; BY_MINUTE; BY_HOUR; BY_DAY; BY_MONTH_DAY; BY_YEAR_DAY; BY_WEEK_NO; BY_MONTH;
   BY_SET_POS].

Definition by_list_text (b : byrule) (l : list Z) : cstring :=
  join "," (map (byrule_text b) (firstn (Z.to_nat (by_size b - 1)) l)).

Definition by_clauses (r : icalrecurrencetype) (b : byrule) : list cstring :=
  match by_ptr b r with [] => [] | l => [clause (by_clause_name b) (by_list_text b l)] end.

Definition until_text (u : icaltimetype) : cstring :=
  if icaltime_is_date u then print_date_to_string u else print_datetime_to_string u.

Definition end_clauses (r : icalrecurrencetype) : list cstring :=
  if negb (year (until r) =? 0) then [clause ($"UNTIL") (until_text (until r))]
  else if negb (count r =? 0) then [clause ($"COUNT") (snprintf 20 (fmt_d (count r)))] else [].

Definition interval_clauses (r : icalrecurrencetype) : list cstring :=
  if negb (interval r =? 1) then [clause ($"INTERVAL") (snprintf 20 (fmt_d (interval r)))] else [].

Definition wkst_clauses (r : icalrecurrencetype) : list cstring :=
  if negb (week_start r =? ICAL_MONDAY_WEEKDAY) && negb (week_start r =? ICAL_NO_WEEKDAY)
  then [clause ($"WKST") (name_or_empty (icalrecur_weekday_to_string
                            (icalrecurrencetype_day_day_of_week (week_start r))))]
  else [].

Definition rscale_clauses (r : icalrecurrencetype) : list cstring :=
  match rscale r with Some s => [clause ($"RSCALE") s] | None => [] end.

Definition skip_clauses (r : icalrecurrencetype) : list cstring :=
  match rscale r with
  | Some _ => if negb (skip_eqb (skip r) ICAL_SKIP_OMIT)
              then [clause ($"SKIP") (name_or_empty (icalrecur_skip_to_string (skip r)))] else []
  | None => []
  end.

Definition freq_clause (r : icalrecurrencetype) : cstring :=
  clause ($"FREQ") (name_or_empty (icalrecur_freq_to_string (freq r))).

Definition tail_clauses (r : icalrecurrencetype) : list cstring :=
  end_clauses r ++ interval_clauses r ++ flat_map (by_clauses r) all_byrules
  ++ wkst_clauses r ++ skip_clauses r.

Definition semi (l : list cstring) : cstring := concat (map (cons ";"%char) l).

Lemma semi_app a b : semi (a ++ b) = semi a ++ semi b.
Proof. unfold semi. now rewrite map_app, concat_app. Qed.

Lemma byrule_clause_text_semi r b :
  byrule_clause_text (";"%char :: by_clause_name b ++ ["="%char]) b r = semi (by_clauses r b).
Proof.
  unfold byrule_clause_text, by_clauses. destruct (by_ptr b r); [reflexivity|].
  unfold semi, clause, by_list_text. cbn [map concat]. rewrite app_nil_r. cbn [app].
  now rewrite <- app_assoc.
Qed.

Lemma as_string_clauses r :
  freq r <> ICAL_NO_RECURRENCE ->
  icalrecurrencetype_as_string_r r
  = Some (join ";" (rscale_clauses r ++ freq_clause r :: tail_clauses r)).
Proof.
  intros Hf. unfold icalrecurrencetype_as_string_r.
  assert (freq_eqb (freq r) ICAL_NO_RECURRENCE = false) as -> by (destruct (freq r); reflexivity || congruence).
  assert (concat (map (fun '(name, b) => byrule_clause_text name b r) recur_map)
    = semi (flat_map (by_clauses r) all_byrules)) as ->.
  { cbn [recur_map map concat all_byrules flat_map]. rewrite !semi_app, <- !byrule_clause_text_semi.
    reflexivity. }
  assert (forall n v, semi [clause ($n) v] = ";"%char :: $n ++ "="%char :: v) as Hs.
  { intros n v. unfold semi, clause. cbn [map concat]. now rewrite app_nil_r. }
  f_equal.
  assert (join ";" (rscale_clauses r ++ freq_clause r :: tail_clauses r) =
    match rscale r with Some s => $"RSCALE=" ++ s ++ $";" | None => [] end
    ++ freq_clause r ++ semi (tail_clauses r)) as ->.
  { unfold rscale_clauses. destruct (rscale r) as [s|]; cbn [app]; rewrite join_cons; [|reflexivity].
    unfold clause. cbn [map concat]. rewrite <- !app_assoc. reflexivity. }
  unfold tail_clauses. rewrite !semi_app. unfold freq_clause, clause.
  rewrite <- !app_assoc. f_equal. cbn [lit list_ascii_of_string app]. do 5 f_equal.
  unfold end_clauses, interval_clauses, wkst_clauses, skip_clauses, until_text.
  repeat f_equal; repeat case_if; rewrite ?Hs; try reflexivity.
Qed.

(** ** Running the parser over the clauses *)

Lemma run_clause name value rt rt' rest st :
  without "=" name -> parse_clause name value rt st = Some (Parsed rt', st) ->
  parse_clauses (clause name value :: rest) rt st = parse_clauses rest rt' st.
Proof.
  intros Hn Hp. cbn [parse_clauses]. unfold clause. rewrite split_at_app by exact Hn.
  unfold bind. now rewrite Hp.
Qed.

Lemma by_clause_name_without b c :
  c = "="%char \/ c = ";"%char -> without c (by_clause_name b).
Proof. intros [-> | ->]; destruct b; repeat constructor; discriminate. Qed.

(** The rules that have a text. *)
Definition printable_by (b : byrule) (l : list Z) : Prop :=
  Forall (printable_value b) l /\ Z.of_nat (length l) < by_size b.

Definition printable_rule (r : icalrecurrencetype) : Prop :=
  freq r <> ICAL_NO_RECURRENCE /\
  (until r = icaltime_null_time /\ 0 <= count r <= INT_MAX \/
   printable (until r) /\ year (until r) <> 0 /\ count r = 0) /\
  1 <= interval r <= 32767 /\ 1 <= week_start r <= 7 /\
  (forall b, printable_by b (by_ptr b r)) /\
  StronglySorted (key_le (week_start r)) (by_day r) /\
  (week_start r <> ICAL_MONDAY_WEEKDAY -> NoDup (map (week_key (week_start r)) (by_day r))) /\
  match rscale r with
  | Some s => without ";" s /\ skip r <> ICAL_SKIP_UNDEFINED
  | None => skip r = ICAL_SKIP_OMIT
  end.

Lemma by_list_text_full b l : printable_by b l -> by_list_text b l = join "," (map (byrule_text b) l).
Proof. intros [_ H]. unfold by_list_text. now rewrite firstn_all2 by lia. Qed.

Lemma printable_by_ok b l : printable_by b l -> Forall (value_ok b) l.
Proof. intros [H _]. eapply Forall_impl; [|exact H]. intros v Hv. apply Hv. Qed.

Lemma texts_without b l c :
  c = ","%char \/ c = ";"%char -> Forall (printable_value b) l ->
  Forall (without c) (map (byrule_text b) l).
Proof.
  intros Hc H. apply Forall_map. eapply Forall_impl; [|exact H].
  intros v Hv. now apply byrule_text_without.
Qed.

(** What is stored for a list that was printed. *)
Definition read_back (b : byrule) (l : list Z) : list Z :=
  match b with BY_DAY => sort_days ICAL_MONDAY_WEEKDAY l | _ => l end.

Lemma parse_by_list b l rt st :
  printable_by b l -> l <> [] -> by_ptr b rt = [] -> week_start rt = ICAL_MONDAY_WEEKDAY ->
  parse_clause (by_clause_name b) (by_list_text b l) rt st
  = Some (Parsed (set_by b (read_back b l) rt), st).
Proof.
  intros Hp Hne He Hw. pose proof Hp as [Hv Hlen]. rewrite by_list_text_full by exact Hp.
  assert (split_on "," (join "," (map (byrule_text b) l)) = map (byrule_text b) l) as Esp.
  { apply split_on_join; [destruct l; [congruence | discriminate]|].
    apply texts_without; [now left | exact Hv]. }
  destruct (match b with BY_DAY => true | _ => false end) eqn:Eb.
  - destruct b; try discriminate Eb. cbn in He.
    assert (icalrecur_add_bydayrules (join "," (map (byrule_text BY_DAY) l)) = Values l) as Ea.
    { unfold icalrecur_add_bydayrules. rewrite Esp. now apply (bydayrules_loop_text l 0 []). }
    change (parse_clause (by_clause_name BY_DAY) ?v rt) with
      (if negb (is_empty (by_day rt)) then ret (Refused (-1))
       else ret (match icalrecur_add_bydayrules v with
                 | Values l => Parsed (sort_bydayrules (set_by BY_DAY l rt))
                 | Failed r => Refused r
                 | Overflow => Undefined
                 end)).
    rewrite He, Ea. cbn [is_empty negb]. unfold sort_bydayrules. cbn [set_by week_start by_day].
    rewrite Hw. reflexivity.
  - assert (parse_clause (by_clause_name b) (join "," (map (byrule_text b) l)) rt st
      = Some (byrule_clause b (by_min b) (join "," (map (byrule_text b) l)) rt, st)) as ->
      by (destruct b; try discriminate Eb; reflexivity).
    unfold byrule_clause. rewrite He. cbn [is_empty negb]. unfold icalrecur_add_byrules.
    rewrite Esp, (byrules_loop_text b l 0 []);
      [|intros ->; discriminate Eb | now apply printable_by_ok | lia | lia].
    destruct b; try discriminate Eb; reflexivity.
Qed.

Lemma set_by_nil b rt : by_ptr b rt = [] -> set_by b [] rt = rt.
Proof. destruct rt. destruct b; cbn; intros ->; reflexivity. Qed.

Lemma run_by r b rt rest st :
  printable_by b (by_ptr b r) -> by_ptr b rt = [] -> week_start rt = ICAL_MONDAY_WEEKDAY ->
  parse_clauses (by_clauses r b ++ rest) rt st
  = parse_clauses rest (set_by b (read_back b (by_ptr b r)) rt) st.
Proof.
  intros Hp He Hw. unfold by_clauses. destruct (by_ptr b r) as [|v l] eqn:El.
  - cbn [app]. assert (read_back b [] = []) as -> by (destruct b; reflexivity).
    now rewrite set_by_nil.
  - cbn [app]. apply run_clause; [apply by_clause_name_without; now left|].
    apply parse_by_list; [exact Hp | discriminate | exact He | exact Hw].
Qed.

(** The clauses other than the BY lists. *)

Lemma until_text_time u : printable u -> icaltime_scan (until_text u) = Some u.
Proof.
  intros H. replace (until_text u) with (icaltime_as_ical_string_r u);
    [now apply scan_as_ical_string|].
  rewrite as_ical_string_shape by exact H.
  pose proof (date_fields_length u H) as Hd. pose proof (time_fields_length u H) as Ht.
  assert (print_date_to_string u = print_date_fields u) as Ed.
  { unfold print_date_to_string, snprintf. fold (print_date_fields u).
    rewrite !firstn_all2; rewrite ?firstn_all2; simpl; lia || reflexivity. }
  unfold until_text, print_datetime_to_string. rewrite Ed.
  destruct (icaltime_is_date u); [reflexivity|]. do 2 f_equal.
  unfold print_time_to_string, snprintf. fold (print_time_fields u).
  destruct (icaltime_is_utc u); [|rewrite app_nil_r];
    rewrite !firstn_all2; rewrite ?firstn_all2; rewrite ?length_app, ?Ht; simpl; try lia; reflexivity.
Qed.

Lemma run_end r rt rest st :
  printable_rule r -> count rt = 0 -> until rt = icaltime_null_time ->
  parse_clauses (end_clauses r ++ rest) rt st
  = parse_clauses rest (set_until (until r) (set_count (count r) rt)) st.
Proof.
  intros (_ & He & _) Hc Hu. unfold end_clauses. destruct He as [[Hur Hcr] | (Hp & Hy & Hcr)].
  - rewrite Hur. change (year icaltime_null_time =? 0) with true. cbn [negb].
    destruct (Z.eqb_spec (count r) 0) as [E|E]; cbn [negb app].
    + rewrite E, <- Hc, <- Hu. now destruct rt.
    + assert (is_int32 (count r)) as H32 by (unfold is_int32, INT_MIN, INT_MAX in *; lia).
      apply run_clause; [repeat constructor; discriminate|].
      rewrite snprintf_fmt_d_nil by exact H32.
      change (parse_clause ($"COUNT") ?v rt) with
        (if (0 <? count rt) || negb (icaltime_is_null_time (until rt)) then ret (Refused (-1))
         else ret (refuse_if (atoi v <? 1) (set_count (atoi v) rt))).
      rewrite Hc, Hu, atoi_fmt_d by exact H32.
      change ((0 <? 0) || negb (icaltime_is_null_time icaltime_null_time)) with false. cbv iota.
      unfold refuse_if. destruct (Z.ltb_spec (count r) 1); [lia|]. rewrite <- Hu. now destruct rt.
  - destruct (Z.eqb_spec (year (until r)) 0); [contradiction|]. cbn [negb app].
    apply run_clause; [repeat constructor; discriminate|].
    change (parse_clause ($"UNTIL") ?v rt) with
      (if (0 <? count rt) || negb (icaltime_is_null_time (until rt)) then ret (Refused (-1))
       else bind (icaltime_from_string v)
              (fun u => ret (refuse_if (icaltime_is_null_time u) (set_until u rt)))).
    rewrite Hc, Hu.
    change ((0 <? 0) || negb (icaltime_is_null_time icaltime_null_time)) with false. cbv iota.
    unfold bind, icaltime_from_string. rewrite until_text_time by exact Hp. unfold ret.
    assert (icaltime_is_null_time (until r) = false) as Hn.
    { destruct Hp as (H1 & H2 & H3 & _ & H4). unfold icaltime_is_null_time. lia. }
    unfold refuse_if. rewrite Hn. rewrite Hcr, <- Hc. now destruct rt.
Qed.

Lemma run_interval r rt rest st :
  1 <= interval r <= 32767 -> interval rt = 1 ->
  parse_clauses (interval_clauses r ++ rest) rt st
  = parse_clauses rest (set_interval (interval r) rt) st.
Proof.
  intros Hi Hrt. unfold interval_clauses. destruct (Z.eqb_spec (interval r) 1) as [E|E]; cbn [negb app].
  - rewrite E, <- Hrt. now destruct rt.
  - assert (is_int32 (interval r)) as H32 by (unfold is_int32, INT_MIN, INT_MAX; lia).
    apply run_clause; [repeat constructor; discriminate|].
    rewrite snprintf_fmt_d_nil by exact H32.
    change (parse_clause ($"INTERVAL") ?v rt) with
      (if 1 <? interval rt then ret (Refused (-1))
       else ret (refuse_if (to_short (atoi v) <? 1) (set_interval (to_short (atoi v)) rt))).
    rewrite Hrt, atoi_fmt_d, to_short_small by (exact H32 || lia).
    change (1 <? 1) with false. cbv iota. unfold refuse_if.
    destruct (Z.ltb_spec (interval r) 1); [lia | reflexivity].
Qed.

Lemma week_start_dow w : 1 <= w <= 7 -> icalrecurrencetype_day_day_of_week w = w.
Proof.
  intros H. unfold icalrecurrencetype_day_day_of_week. rewrite rem_mod_nonneg by lia.
  rewrite Z.abs_eq, Z.mod_small; lia.
Qed.

Lemma run_wkst r rt rest st :
  1 <= week_start r <= 7 -> week_start rt = ICAL_MONDAY_WEEKDAY ->
  parse_clauses (wkst_clauses r ++ rest) rt st
  = parse_clauses rest
      (if week_start r =? ICAL_MONDAY_WEEKDAY then rt
       else sort_bydayrules (set_week_start (week_start r) rt)) st.
Proof.
  intros Hw Hrt. unfold wkst_clauses, ICAL_MONDAY_WEEKDAY, ICAL_NO_WEEKDAY in *.
  destruct (Z.eqb_spec (week_start r) 2) as [E|E]; [reflexivity|].
  destruct (Z.eqb_spec (week_start r) 0); [lia|]. cbn [negb andb app].
  rewrite week_start_dow by exact Hw.
  destruct (weekday_names (week_start r) Hw) as (s & -> & Hs & _). cbn [name_or_empty].
  apply run_clause; [repeat constructor; discriminate|].
  change (parse_clause ($"WKST") s rt) with
    (if negb (week_start rt =? 2) then ret (Refused (-1))
     else if icalrecur_string_to_weekday s =? 0 then ret (Refused (-1))
     else ret (Parsed (sort_bydayrules (set_week_start (icalrecur_string_to_weekday s) rt)))).
  rewrite Hrt, Hs. change (2 =? 2) with true. cbn [negb].
  destruct (Z.eqb_spec (week_start r) 0); [lia | reflexivity].
Qed.

Lemma run_skip r rt rest st :
  printable_rule r -> skip rt = ICAL_SKIP_OMIT ->
  parse_clauses (skip_clauses r ++ rest) rt st = parse_clauses rest (set_skip (skip r) rt) st.
Proof.
  intros (_ & _ & _ & _ & _ & _ & _ & Hr) Hrt. unfold skip_clauses.
  destruct (rscale r) as [s|].
  - destruct Hr as [_ Hr].
    destruct (skip r) eqn:Es; try congruence;
      try (cbn [app skip_eqb negb]; rewrite <- Hrt; now destruct rt);
      cbn [skip_eqb negb app]; (apply run_clause; [repeat constructor; discriminate|]);
      (change (parse_clause ($"SKIP") ?v rt) with
        (if negb (skip_eqb (skip rt) ICAL_SKIP_OMIT) then ret (Refused (-1))
         else ret (refuse_if (skip_eqb (icalrecur_string_to_skip v) ICAL_SKIP_UNDEFINED)
                     (set_skip (icalrecur_string_to_skip v) rt))));
      rewrite Hrt; reflexivity.
  - rewrite Hr, <- Hrt. now destruct rt.
Qed.

Lemma run_freq r rt rest st :
  freq r <> ICAL_NO_RECURRENCE -> freq rt = ICAL_NO_RECURRENCE ->
  parse_clauses (freq_clause r :: rest) rt st = parse_clauses rest (set_freq (freq r) rt) st.
Proof.
  intros Hf Hrt. apply run_clause; [repeat constructor; discriminate|].
  change (parse_clause ($"FREQ") ?v rt) with
    (if negb (freq_eqb (freq rt) ICAL_NO_RECURRENCE) then ret (Refused (-1))
     else ret (refuse_if (freq_eqb (icalrecur_string_to_freq v) ICAL_NO_RECURRENCE)
                 (set_freq (icalrecur_string_to_freq v) rt))).
  rewrite Hrt. destruct (freq r); try congruence; reflexivity.
Qed.

Lemma run_rscale r rt rest st :
  rscale rt = None ->
  parse_clauses (rscale_clauses r ++ rest) rt st
  = parse_clauses rest (set_rscale (rscale r) rt) st.
Proof.
  intros Hrt. unfold rscale_clauses. destruct (rscale r) as [s|]; cbn [app].
  - apply run_clause; [repeat constructor; discriminate|].
    change (parse_clause ($"RSCALE") s rt) with
      (match rscale rt with
       | Some _ => ret (Refused (-1))
       | None => ret (Parsed (set_rscale (Some s) rt))
       end). now rewrite Hrt.
  - rewrite <- Hrt. now destruct rt.
Qed.

(** No clause of a printable rule contains a semicolon. *)

Lemma clause_without n v : without ";" ($n) -> without ";" v -> without ";" (clause ($n) v).
Proof. intros H1 H2. apply without_app. split; [exact H1|]. constructor; [discriminate | exact H2]. Qed.

Lemma until_text_without u : printable u -> without ";" (until_text u).
Proof.
  intros (Hy & Hm & Hd & _ & Hc).
  assert (forall w z, 0 <= z -> without ";" (fmt_0d w z)) as F.
  { intros w z Hz. pose proof (fmt_0d_digits w z Hz) as Hdg. unfold all_digits in Hdg.
    eapply Forall_impl; [|exact Hdg]. intros c Hcc ->. discriminate Hcc. }
  assert (forall n s, without ";" s -> without ";" (firstn n s)) as Ff.
  { intros n s Hs. unfold without in *. rewrite List.Forall_forall in *. intros x Hx. apply Hs.
    rewrite <- (firstn_skipn n s). apply in_or_app. now left. }
  assert (without ";" (print_date_to_string u)) as Hdate.
  { unfold print_date_to_string, snprintf. apply Ff, Ff. rewrite !without_app.
    repeat split; apply F; lia. }
  unfold until_text. destruct (icaltime_is_date u) eqn:Ed; [exact Hdate|].
  unfold print_datetime_to_string. rewrite Ed. rewrite !without_app.
  split; [exact Hdate|]. split; [repeat constructor; discriminate|].
  unfold print_time_to_string, snprintf.
  destruct (icaltime_is_utc u); apply Ff, Ff; rewrite ?without_app; repeat split;
    try (apply F; destruct Hc as [(? & ? & ? & ? & ?) | (? & ? & ? & ? & ?)]; lia);
    repeat constructor; discriminate.
Qed.

Lemma rule_clauses_without r :
  printable_rule r ->
  Forall (without ";") (rscale_clauses r ++ freq_clause r :: tail_clauses r).
Proof.
  intros (Hf & He & Hi & Hw & Hb & _ & _ & Hr).
  apply Forall_app. split; [|constructor; [|unfold tail_clauses; rewrite !Forall_app; repeat split]].
  - unfold rscale_clauses. destruct (rscale r) as [s|]; constructor; [|constructor].
    apply clause_without; [repeat constructor; discriminate | apply Hr].
  - unfold freq_clause. apply clause_without; [repeat constructor; discriminate|].
    destruct (freq r); repeat constructor; discriminate.
  - unfold end_clauses. destruct He as [[-> _] | (Hp & Hy & _)].
    + change (year icaltime_null_time =? 0) with true. cbn [negb].
      destruct (negb (count r =? 0)); constructor; [|constructor].
      apply clause_without; [repeat constructor; discriminate|].
      apply firstn_Forall, fmt_d_without; (reflexivity || discriminate).
    + destruct (Z.eqb_spec (year (until r)) 0); [contradiction|]. constructor; [|constructor].
      apply clause_without; [repeat constructor; discriminate | now apply until_text_without].
  - unfold interval_clauses. destruct (negb _); constructor; [|constructor].
    apply clause_without; [repeat constructor; discriminate|].
    apply firstn_Forall, fmt_d_without; (reflexivity || discriminate).
  - apply Forall_flat_map. apply List.Forall_forall. intros b _. unfold by_clauses.
    specialize (Hb b). destruct (by_ptr b r) as [|v l] eqn:El; constructor; [|constructor].
    apply without_app. split; [apply by_clause_name_without; now right|].
    constructor; [discriminate|]. rewrite by_list_text_full by exact Hb.
    apply without_join; [discriminate|]. apply texts_without; [now right | apply Hb].
  - unfold wkst_clauses. case_if; constructor; [|constructor].
    apply clause_without; [repeat constructor; discriminate|]. rewrite week_start_dow by exact Hw.
    destruct (weekday_names (week_start r) Hw) as (s & -> & H). apply H.
  - unfold skip_clauses. destruct (rscale r); [|constructor]. case_if; constructor; [|constructor].
    apply clause_without; [repeat constructor; discriminate|].
    destruct (skip r); repeat constructor; discriminate.
Qed.

(** A sorted list with distinct keys is determined by its elements. *)
Lemma sorted_unique ws l1 : forall l2,
  StronglySorted (key_le ws) l1 -> StronglySorted (key_le ws) l2 -> Permutation l1 l2 ->
  NoDup (map (week_key ws) l1) -> l1 = l2.
Proof.
  induction l1 as [|a r1 IH]; intros l2 H1 H2 Hp Hn.
  - symmetry. now apply Permutation_nil.
  - destruct l2 as [|b r2]; [symmetry in Hp; now apply Permutation_nil in Hp|].
    apply StronglySorted_inv in H1 as [H1 F1], H2 as [H2 F2].
    assert (a = b) as ->.
    { rewrite List.Forall_forall in F1, F2.
      assert (In a (b :: r2)) as Ha by (rewrite <- Hp; now left).
      assert (In b (a :: r1)) as Hb by (rewrite Hp; now left).
      destruct Ha as [Ha|Ha]; [now symmetry|]. destruct Hb as [Hb|Hb]; [assumption|].
      exfalso. cbn in Hn. inversion Hn as [|? ? Hnin _]; subst. apply Hnin.
      replace (week_key ws a) with (week_key ws b); [now apply in_map|].
      specialize (F1 b Hb). specialize (F2 a Ha). unfold key_le in *. lia. }
    f_equal. apply IH; try assumption.
    + now apply Permutation_cons_inv in Hp.
    + now inversion Hn.
Qed.

(** The rule after all clauses. *)
Lemma run_all r st :
  printable_rule r ->
  parse_clauses (rscale_clauses r ++ freq_clause r :: tail_clauses r) icalrecurrencetype_clear st
  = Some (r, st).
Proof.
  intros Hr. pose proof Hr as (Hf & _ & Hi & Hw & Hb & Hs & Hd & _).
  rewrite run_rscale, run_freq by (reflexivity || exact Hf). unfold tail_clauses.
  rewrite run_end, run_interval by (reflexivity || assumption).
  cbn [all_byrules flat_map]. rewrite <- !app_assoc. cbn [app].
  rewrite !run_by by (apply Hb || reflexivity). rewrite run_wkst by (assumption || reflexivity).
  rewrite <- (app_nil_r (skip_clauses r)).
  rewrite run_skip by (assumption || (case_if; reflexivity)).
  cbn [parse_clauses]. unfold ret. do 2 f_equal.
  assert (sort_days ICAL_MONDAY_WEEKDAY (by_day r) = by_day r /\ week_start r = ICAL_MONDAY_WEEKDAY \/
    week_start r <> ICAL_MONDAY_WEEKDAY /\
    sort_days (week_start r) (sort_days ICAL_MONDAY_WEEKDAY (by_day r)) = by_day r) as Hday.
  { destruct (Z.eq_dec (week_start r) ICAL_MONDAY_WEEKDAY) as [E|E]; [left|right].
    - rewrite <- E at 1. split; [now apply sort_days_sorted | exact E].
    - split; [exact E|]. symmetry. apply (sorted_unique (week_start r)); auto.
      + apply sort_days_spec.
      + rewrite (proj2 (sort_days_spec (week_start r) _)). symmetry. apply sort_days_spec. }
  destruct Hday as [[Hday E] | [E Hday]].
  - rewrite E. change (ICAL_MONDAY_WEEKDAY =? ICAL_MONDAY_WEEKDAY) with true. cbv iota.
    destruct r. cbn in *. now rewrite Hday, E.
  - destruct (Z.eqb_spec (week_start r) ICAL_MONDAY_WEEKDAY); [contradiction|].
    destruct r. cbn in *. unfold sort_bydayrules. cbn. now rewrite Hday.
Qed.

Lemma recur_read_back (r : icalrecurrencetype) (st : error_state) :
  printable_rule r ->
  exists s, icalrecurrencetype_as_string_r r = Some s /\
    icalrecurrencetype_from_string (Some s) st = Some (r, st).
Proof.
  intros Hr. eexists. split; [apply as_string_clauses; apply Hr|].
  unfold icalrecurrencetype_from_string. rewrite split_on_join.
  - now apply run_all.
  - destruct (rscale_clauses r); discriminate.
  - now apply rule_clauses_without.
Qed.

(** C11: [icalrecurrencetype_from_string] reads back every rule that
    [icalrecurrencetype_as_string_r] writes - FREQ, UNTIL or COUNT, INTERVAL, all
    nine BY lists with positions and leap months, WKST, RSCALE and SKIP - and
    leaves the error state alone.  The days of BYDAY must be in the order of the
    week, and distinct when the week does not start on Monday. *)
Theorem recur_text_roundtrip (r : icalrecurrencetype) (st : error_state) :
  printable_rule r ->
  exists s, icalrecurrencetype_as_string_r r = Some s /\
    icalrecurrencetype_from_string (Some s) st = Some (r, st).
Proof. apply recur_read_back. Qed.

Definition sample_rule : icalrecurrencetype :=
  set_by BY_DAY [1; -37] (set_by BY_MONTH [3; 4101] (set_week_start 1
    (set_interval 2 (set_until (IcalTime 2030 12 31 0 0 0 1 0 ZONE_NULL)
      (set_freq ICAL_YEARLY_RECURRENCE icalrecurrencetype_clear))))).

Lemma recur_text_roundtrip_witness :
  exists s, icalrecurrencetype_as_string_r sample_rule = Some s /\
    icalrecurrencetype_from_string (Some s) (initial_error_state true)
    = Some (sample_rule, initial_error_state true).
Proof.
  apply (recur_text_roundtrip sample_rule (initial_error_state true)).
  unfold printable_rule, sample_rule. split; [discriminate|]. split.
  - right. unfold printable. cbn. repeat split; try lia. left. repeat split.
  - split; [cbn; lia|]. split; [cbn; lia|]. split; [|split; [|split]].
    + intros b. split; [|destruct b; reflexivity].
      destruct b; try constructor; repeat constructor; try (intros; discriminate);
        vm_compute; intuition discriminate.
    + repeat constructor; vm_compute; discriminate.
    + intros _. repeat constructor; vm_compute; intuition discriminate.
    + reflexivity.
Defined.
