(* ===== verification/IcalRecurMask.v ===== *)
(** * The bitmask of year days (icalrecur.c)

    The days of a year that are occurrences, as the words of a bitmask.  The day
    [n] is bit [n + 4]; [unsigned long] has 64 bits.  An access outside of the
    words is the result [None].  The two searches - the first set day after an
    index and the last one before it - skip empty words and find the bit by
    bisection; they are shown to agree with a search day by day. *)
From Stdlib Require Import ZArith Lia Bool List.
From S2P Require Import Prelude.
Import ListNotations.
#[local] Open Scope Z_scope.

Definition BITS_PER_LONG : Z := 64.
Definition ICAL_YEARDAYS_MASK_SIZE : Z := 367 + 7.
Definition ICAL_YEARDAYS_MASK_OFFSET : Z := 4.
Definition mask_words : nat := 6.

Definition to_ulong (z : Z) : Z := to_unsigned 64 z.

Definition daysmask_clearall : list Z := repeat 0 mask_words.

Definition word_at (mask : list Z) (i : Z) : option Z :=
  if i <? 0 then None else nth_error mask (Z.to_nat i).

Fixpoint set_nth (n : nat) (v : Z) (l : list Z) : list Z :=
  match l, n with
  | [], _ => []
  | _ :: r, O => v :: r
  | x :: r, S k => x :: set_nth k v r
  end.

(** A negative [n] is converted to [unsigned long] by the division and indexes
    far outside. *)
Definition daysmask_setbit (mask : list Z) (n : Z) (v : bool) : option (list Z) :=
  let n := n + ICAL_YEARDAYS_MASK_OFFSET in
  if n <? 0 then None
  else
    let* w := word_at mask (n / BITS_PER_LONG) in
    let bit := Z.shiftl 1 (n mod BITS_PER_LONG) in
    let w' := if v then Z.lor w bit else Z.land w (to_ulong (Z.lnot bit)) in
    Some (set_nth (Z.to_nat (n / BITS_PER_LONG)) w' mask).

Definition daysmask_getbit (mask : list Z) (n : Z) : option bool :=
  let n := n + ICAL_YEARDAYS_MASK_OFFSET in
  if n <? 0 then None
  else
    let* w := word_at mask (n / BITS_PER_LONG) in
    Some (Z.land (Z.shiftr w (n mod BITS_PER_LONG)) 1 =? 1).

(** The loops over empty words; the number of words bounds them. *)
Fixpoint skip_forward (fuel : nat) (days : list Z) (days_index wordIdx : Z) : option (Z * Z) :=
  match fuel with
  | O => None
  | S k =>
      if days_index <? ICAL_YEARDAYS_MASK_SIZE then
        let wordIdx := wordIdx + 1 in
        let* v := word_at days wordIdx in
        if v =? 0 then skip_forward k days (days_index + BITS_PER_LONG) wordIdx
        else Some (days_index, v)
      else Some (days_index, 0)
  end.

Fixpoint bisect_low (fuel : nat) (v mask maskSize days_index : Z) : Z :=
  match fuel with
  | O => days_index
  | S k =>
      if maskSize =? 0 then days_index
      else
        let '(v, days_index) :=
          if Z.land v mask =? 0 then (Z.shiftr v maskSize, days_index + maskSize)
          else (v, days_index) in
        let maskSize := maskSize / 2 in
        bisect_low k v (Z.shiftr mask maskSize) maskSize days_index
  end.

Definition find_low (v days_index : Z) : Z :=
  if v =? 0 then days_index
  else
    let maskSize := BITS_PER_LONG / 2 in
    bisect_low 7 v (Z.shiftl 1 maskSize - 1) maskSize days_index.

Definition daymask_find_next_bit (days : list Z) (days_index : Z) : option Z :=
  let days_index := days_index + 1 in
  if ICAL_YEARDAYS_MASK_SIZE <=? days_index then Some ICAL_YEARDAYS_MASK_SIZE
  else
    let startBitIndex := days_index + ICAL_YEARDAYS_MASK_OFFSET in
    let wordIdx := startBitIndex / BITS_PER_LONG in
    let* w := word_at days wordIdx in
    let v := Z.shiftr w (startBitIndex mod BITS_PER_LONG) in
    let* (days_index, v) :=
      if v =? 0 then
        skip_forward (S mask_words) days
          (days_index + (BITS_PER_LONG - startBitIndex mod BITS_PER_LONG)) wordIdx
      else Some (days_index, v) in
    Some (find_low v days_index).

Fixpoint skip_backward (fuel : nat) (days : list Z) (days_index wordIdx : Z) : option (Z * Z) :=
  match fuel with
  | O => None
  | S k =>
      if - ICAL_YEARDAYS_MASK_OFFSET <? days_index then
        let wordIdx := wordIdx - 1 in
        let* v := word_at days wordIdx in
        if v =? 0 then skip_backward k days (days_index - BITS_PER_LONG) wordIdx
        else Some (days_index, v)
      else Some (days_index, 0)
  end.

Fixpoint bisect_high (fuel : nat) (v mask maskSize days_index : Z) : Z :=
  match fuel with
  | O => days_index
  | S k =>
      if maskSize =? 0 then days_index
      else
        let '(v, days_index) :=
          if Z.land v mask =? 0 then (to_ulong (Z.shiftl v maskSize), days_index - maskSize)
          else (v, days_index) in
        let maskSize := maskSize / 2 in
        bisect_high k v (to_ulong (Z.shiftl mask maskSize)) maskSize days_index
  end.

Definition find_high (v days_index : Z) : Z :=
  if v =? 0 then days_index
  else
    let maskSize := BITS_PER_LONG / 2 in
    bisect_high 7 v (Z.shiftl (Z.shiftl 1 maskSize - 1) maskSize) maskSize days_index.

Definition daymask_find_prev_bit (days : list Z) (days_index : Z) : option Z :=
  let days_index := days_index - 1 in
  if days_index <=? - ICAL_YEARDAYS_MASK_OFFSET then Some (- ICAL_YEARDAYS_MASK_OFFSET)
  else
    let startBitIndex := days_index + ICAL_YEARDAYS_MASK_OFFSET in
    let wordIdx := startBitIndex / BITS_PER_LONG in
    let* w := word_at days wordIdx in
    let v := to_ulong (Z.shiftl w (BITS_PER_LONG - startBitIndex mod BITS_PER_LONG - 1)) in
    let* (days_index, v) :=
      if v =? 0 then
        skip_backward (S mask_words) days (days_index - (startBitIndex mod BITS_PER_LONG + 1)) wordIdx
      else Some (days_index, v) in
    Some (find_high v days_index).

(** ** Masks as sets of days *)

Definition mask_ok (mask : list Z) : Prop :=
  length mask = mask_words /\ Forall (fun w => 0 <= w < 2 ^ 64) mask.

(** Membership of a day; days outside of the words are not members. *)
Definition mask_bit (mask : list Z) (i : Z) : bool :=
  match word_at mask (i / 64) with Some w => Z.testbit w (i mod 64) | None => false end.

Definition mem (mask : list Z) (d : Z) : bool :=
  mask_bit mask (d + ICAL_YEARDAYS_MASK_OFFSET).

Lemma word_at_some mask i :
  mask_ok mask -> 0 <= i < 6 -> exists w, word_at mask i = Some w /\ 0 <= w < 2 ^ 64.
Proof.
  intros [Hl Hw] Hi. unfold word_at. destruct (Z.ltb_spec i 0); [lia|].
  destruct (nth_error mask (Z.to_nat i)) as [w|] eqn:E.
  - exists w. split; [reflexivity|]. rewrite Forall_forall in Hw. apply Hw.
    now apply nth_error_In with (Z.to_nat i).
  - apply nth_error_None in E. unfold mask_words in Hl. lia.
Qed.

Lemma nth_error_set_nth n v l m :
  nth_error (set_nth n v l) m =
  if Nat.eqb m n then (if Nat.ltb n (length l) then Some v else None) else nth_error l m.
Proof.
  revert n m. induction l as [|x r IH]; intros n m; simpl.
  - destruct m, n; simpl; try reflexivity. now destruct (m =? n)%nat.
  - destruct n as [|n], m as [|m]; simpl; try reflexivity.
    rewrite IH. destruct (m =? n)%nat; [|reflexivity].
    change (S n <? S (length r))%nat with (n <? length r)%nat. reflexivity.
Qed.

Lemma length_set_nth n v l : length (set_nth n v l) = length l.
Proof. revert n. induction l as [|x r IH]; intros [|n]; simpl; auto. Qed.

Lemma Forall_set_nth (P : Z -> Prop) n v l : Forall P l -> P v -> Forall P (set_nth n v l).
Proof.
  intros H Hv. revert n. induction H as [|x r Hx Hr IH]; intros [|n]; simpl; auto.
Qed.

Lemma bit_index i : 0 <= i < 384 -> 0 <= i / 64 < 6 /\ 0 <= i mod 64 < 64.
Proof. intros. zdiv. Qed.

Lemma bits_bound z :
  0 <= z -> (forall p, 64 <= p -> Z.testbit z p = false) -> z < 2 ^ 64.
Proof.
  intros Hz H. assert (z = z mod 2 ^ 64) as ->; [|apply Z.mod_pos_bound; lia].
  apply Z.bits_inj'. intros p Hp. destruct (Z.ltb_spec p 64).
  - now rewrite Z.mod_pow2_bits_low.
  - rewrite Z.mod_pow2_bits_high by lia. now apply H.
Qed.

Lemma bound_bits z p : 0 <= z < 2 ^ 64 -> 64 <= p -> Z.testbit z p = false.
Proof.
  intros Hz Hp. rewrite <- (Z.mod_small z (2 ^ 64)) by exact Hz. now apply Z.mod_pow2_bits_high.
Qed.

Lemma testbit_one s p : 0 <= s -> 0 <= p -> Z.testbit (Z.shiftl 1 s) p = (p =? s).
Proof.
  intros Hs Hp. rewrite Z.shiftl_1_l, Z.pow2_bits_eqb by lia. apply Z.eqb_sym.
Qed.

(** The new word: bit [s] becomes [v], the others stay. *)
Lemma word_update w s (v : bool) :
  0 <= w < 2 ^ 64 -> 0 <= s < 64 ->
  let w' := if v then Z.lor w (Z.shiftl 1 s)
            else Z.land w (to_ulong (Z.lnot (Z.shiftl 1 s))) in
  0 <= w' < 2 ^ 64 /\
  forall p, 0 <= p < 64 -> Z.testbit w' p = if p =? s then v else Z.testbit w p.
Proof.
  intros Hw Hs w'.
  assert (0 <= Z.shiftl 1 s) as Hb by (apply Z.shiftl_nonneg; lia).
  assert (0 <= to_ulong (Z.lnot (Z.shiftl 1 s))) as Hn
    by (unfold to_ulong, to_unsigned; apply Z.mod_pos_bound; lia).
  assert (0 <= w') as Hw'.
  { subst w'. destruct v; [apply Z.lor_nonneg; lia | apply Z.land_nonneg; lia]. }
  split.
  - split; [exact Hw'|]. apply bits_bound; [exact Hw'|]. intros p Hp. subst w'. destruct v.
    + rewrite Z.lor_spec, testbit_one, (bound_bits w p Hw Hp) by lia. cbn [orb]. lia.
    + rewrite Z.land_spec, (bound_bits w p Hw Hp). reflexivity.
  - intros p Hp. subst w'. destruct v.
    + rewrite Z.lor_spec, testbit_one by lia. destruct (p =? s); [apply orb_true_r | apply orb_false_r].
    + rewrite Z.land_spec. unfold to_ulong, to_unsigned.
      rewrite Z.mod_pow2_bits_low, Z.lnot_spec, testbit_one by lia.
      destruct (p =? s); [apply andb_false_r | apply andb_true_r].
Qed.

Lemma setbit_spec mask n v :
  mask_ok mask -> -4 <= n < 380 ->
  exists mask', daysmask_setbit mask n v = Some mask' /\ mask_ok mask' /\
    forall d, mem mask' d = if d =? n then v else mem mask d.
Proof.
  intros Hok Hn. unfold daysmask_setbit, ICAL_YEARDAYS_MASK_OFFSET, BITS_PER_LONG.
  destruct (Z.ltb_spec (n + 4) 0); [lia|].
  destruct (bit_index (n + 4) ltac:(lia)) as [Hi Hs].
  destruct (word_at_some mask ((n + 4) / 64) Hok Hi) as (w & Ew & Hw). rewrite Ew.
  destruct (word_update w ((n + 4) mod 64) v Hw Hs) as [Hw' Hbits]. cbv zeta in Hw', Hbits.
  set (w' := if v then _ else _) in *. clearbody w'.
  eexists. split; [reflexivity|]. destruct Hok as [Hl Hf]. split.
  - split; [now rewrite length_set_nth | now apply Forall_set_nth].
  - intros d. unfold mem, mask_bit, word_at, ICAL_YEARDAYS_MASK_OFFSET in *.
    rewrite nth_error_set_nth. destruct (Z.ltb_spec ((d + 4) / 64) 0) as [Hneg|Hpos].
    { destruct (Z.eqb_spec d n) as [->|]; [lia | reflexivity]. }
    destruct (Z.ltb_spec ((n + 4) / 64) 0); [lia|].
    destruct (Nat.eqb_spec (Z.to_nat ((d + 4) / 64)) (Z.to_nat ((n + 4) / 64))) as [E|E].
    + destruct (Nat.ltb_spec (Z.to_nat ((n + 4) / 64)) (length mask));
        [|unfold mask_words in Hl; lia].
      apply Z2Nat.inj in E; [|lia..]. rewrite E, Ew, Hbits by zdiv.
      destruct (Z.eqb_spec d n) as [->|Hdn]; [now rewrite Z.eqb_refl|].
      destruct (Z.eqb_spec ((d + 4) mod 64) ((n + 4) mod 64)); [exfalso; apply Hdn; zdiv | reflexivity].
    + destruct (Z.eqb_spec d n) as [->|]; [congruence | reflexivity].
Qed.

Lemma getbit_spec mask n : mask_ok mask -> -4 <= n < 380 -> daysmask_getbit mask n = Some (mem mask n).
Proof.
  intros Hok Hn. unfold daysmask_getbit, mem, mask_bit, ICAL_YEARDAYS_MASK_OFFSET, BITS_PER_LONG.
  destruct (Z.ltb_spec (n + 4) 0); [lia|].
  destruct (bit_index (n + 4) ltac:(lia)) as [Hi Hs].
  destruct (word_at_some mask ((n + 4) / 64) Hok Hi) as (w & Ew & Hw). rewrite Ew.
  f_equal. set (s := (n + 4) mod 64) in *.
  change 1 with (Z.ones 1) at 1. rewrite Z.land_ones by lia. change (2 ^ 1) with 2.
  rewrite Zmod_odd, <- Z.bit0_odd, Z.shiftr_spec by lia. rewrite Z.add_0_l.
  now destruct (Z.testbit w s).
Qed.

Lemma clearall_ok : mask_ok daysmask_clearall /\ forall d, mem daysmask_clearall d = false.
Proof.
  split; [split; [reflexivity | repeat constructor; lia]|].
  intros d. unfold mem, mask_bit, word_at, daysmask_clearall, mask_words.
  destruct (_ <? 0); [reflexivity|]. set (k := Z.to_nat _).
  do 6 (destruct k as [|k]; [first [reflexivity | apply Z.testbit_0_l]|]).
  now destruct k.
Qed.

(** ** Bisection *)

Definition lowest (v p : Z) : Prop :=
  0 <= p /\ Z.testbit v p = true /\ forall q, 0 <= q < p -> Z.testbit v q = false.

Lemma land_low_mask v k p :
  0 <= k -> lowest v p -> (Z.land v (Z.shiftl 1 k - 1) =? 0) = (k <=? p).
Proof.
  intros Hk (Hp & Hb & Hl).
  assert (Z.shiftl 1 k - 1 = Z.ones k) as -> by (rewrite Z.ones_equiv, Z.shiftl_1_l; lia).
  destruct (Z.leb_spec k p) as [H|H].
  - apply Z.eqb_eq, Z.bits_inj'. intros q Hq. rewrite Z.land_spec, Z.bits_0.
    destruct (Z.ltb_spec q k); [rewrite Hl by lia; reflexivity|].
    rewrite Z.ones_spec_high by lia. apply andb_false_r.
  - apply Z.eqb_neq. intros E. assert (Z.testbit (Z.land v (Z.ones k)) p = true) as T.
    { rewrite Z.land_spec, Hb, Z.ones_spec_low by lia. reflexivity. }
    rewrite E, Z.bits_0 in T. discriminate.
Qed.

Lemma lowest_shiftr v k p : 0 <= k <= p -> lowest v p -> lowest (Z.shiftr v k) (p - k).
Proof.
  intros Hk (Hp & Hb & Hl). split; [lia|]. split.
  - rewrite Z.shiftr_spec by lia. now replace (p - k + k) with p by lia.
  - intros q Hq. rewrite Z.shiftr_spec by lia. apply Hl. lia.
Qed.

(** The masks of the successive rounds are the low [maskSize] bits. *)
Lemma low_mask_halve k : 0 < k -> Z.shiftr (Z.shiftl 1 (2 * k) - 1) k = Z.shiftl 1 k - 1.
Proof.
  intros Hk. rewrite Z.shiftr_div_pow2, !Z.shiftl_1_l by lia.
  replace (2 * k) with (k + k) by lia. rewrite Z.pow_add_r by lia.
  pose proof (Z.pow_pos_nonneg 2 k ltac:(lia) ltac:(lia)).
  symmetry. apply (Z.div_unique_pos _ _ _ (2 ^ k - 1)); nia.
Qed.

Lemma bisect_low_step n v k idx p :
  lowest v p -> 0 < k ->
  bisect_low (S n) v (Z.shiftl 1 k - 1) k idx =
  if k <=? p then bisect_low n (Z.shiftr v k) (Z.shiftr (Z.shiftl 1 k - 1) (k / 2)) (k / 2) (idx + k)
  else bisect_low n v (Z.shiftr (Z.shiftl 1 k - 1) (k / 2)) (k / 2) idx.
Proof.
  intros Hl Hk. cbn [bisect_low]. destruct (Z.eqb_spec k 0); [lia|].
  rewrite (land_low_mask v k p) by (assumption || lia). now destruct (k <=? p).
Qed.

Lemma bisect_low_spec m : forall v idx p,
  lowest v p -> p < 2 ^ Z.of_nat (S m) ->
  bisect_low (S (S m)) v (Z.shiftl 1 (2 ^ Z.of_nat m) - 1) (2 ^ Z.of_nat m) idx = idx + p.
Proof.
  induction m as [|m IH]; intros v idx p Hl Hp.
  - change (2 ^ Z.of_nat 0) with 1. change (2 ^ Z.of_nat 1) with 2 in Hp.
    rewrite (bisect_low_step _ _ _ _ p Hl) by lia. destruct Hl as (Hp0 & _).
    change (1 / 2) with 0. cbn [bisect_low]. change (0 =? 0) with true. cbv iota.
    destruct (Z.leb_spec 1 p); lia.
  - pose proof (Z.pow_pos_nonneg 2 (Z.of_nat m) ltac:(lia) ltac:(lia)) as Hpos.
    assert (2 ^ Z.of_nat (S m) = 2 * 2 ^ Z.of_nat m) as E
      by (rewrite Nat2Z.inj_succ, Z.pow_succ_r; lia).
    assert (2 ^ Z.of_nat (S (S m)) = 2 * 2 ^ Z.of_nat (S m)) as E2
      by (rewrite (Nat2Z.inj_succ (S m)), Z.pow_succ_r; lia).
    rewrite (bisect_low_step _ _ _ _ p Hl) by lia.
    assert (2 ^ Z.of_nat (S m) / 2 = 2 ^ Z.of_nat m) as -> by (rewrite E; zdiv).
    assert (Z.shiftr (Z.shiftl 1 (2 ^ Z.of_nat (S m)) - 1) (2 ^ Z.of_nat m)
      = Z.shiftl 1 (2 ^ Z.of_nat m) - 1) as -> by (rewrite E; now apply low_mask_halve).
    destruct (Z.leb_spec (2 ^ Z.of_nat (S m)) p).
    + rewrite (IH _ _ (p - 2 ^ Z.of_nat (S m))); [lia | apply lowest_shiftr; [lia | exact Hl] | lia].
    + now apply IH.
Qed.

Lemma find_low_spec v idx p : lowest v p -> p < 64 -> find_low v idx = idx + p.
Proof.
  intros Hl Hp. unfold find_low. destruct (Z.eqb_spec v 0) as [->|].
  - destruct Hl as (_ & Hb & _). rewrite Z.bits_0 in Hb. discriminate.
  - exact (bisect_low_spec 5 v idx p Hl Hp).
Qed.

(** ** Searching forwards *)

Lemma first_true (f : Z -> bool) (n : nat) :
  (forall q, 0 <= q < Z.of_nat n -> f q = false) \/
  (exists p, 0 <= p < Z.of_nat n /\ f p = true /\ forall q, 0 <= q < p -> f q = false).
Proof.
  induction n as [|n [IH|(p & Hp & Hf & Hq)]].
  - left. lia.
  - destruct (f (Z.of_nat n)) eqn:E.
    + right. exists (Z.of_nat n). split; [lia|]. auto.
    + left. intros q Hq. destruct (Z.eq_dec q (Z.of_nat n)) as [->|]; [exact E | apply IH; lia].
  - right. exists p. split; [lia|]. auto.
Qed.

Lemma exists_lowest v : 0 <= v < 2 ^ 64 -> v <> 0 -> exists p, lowest v p /\ p < 64.
Proof.
  intros Hv Hne. destruct (first_true (Z.testbit v) 64) as [H|(p & Hp & Hb & Hl)].
  - exfalso. apply Hne. apply Z.bits_inj'. intros q Hq. rewrite Z.bits_0.
    destruct (Z.ltb_spec q 64); [apply H; lia | now apply bound_bits].
  - exists p. split; [split; [lia|auto] | lia].
Qed.

Lemma mem_word mask d w k q :
  word_at mask k = Some w -> d + 4 = 64 * k + q -> 0 <= q < 64 -> mem mask d = Z.testbit w q.
Proof.
  intros Ew Ed Hq. unfold mem, mask_bit, ICAL_YEARDAYS_MASK_OFFSET.
  replace ((d + 4) / 64) with k by (rewrite Ed; zdiv).
  rewrite Ew. f_equal. rewrite Ed. zdiv.
Qed.

(** No day is set between [a] and [b]. *)
Definition none_between (mask : list Z) (a b : Z) : Prop :=
  forall d, a < d < b -> mem mask d = false.

Definition next_result (mask : list Z) (idx r : Z) : Prop :=
  none_between mask idx r /\ (r < ICAL_YEARDAYS_MASK_SIZE -> idx < r /\ mem mask r = true).

Lemma zero_word_none mask k a :
  word_at mask k = Some 0 -> none_between mask a (64 * k - 4) -> none_between mask a (64 * k + 60).
Proof.
  intros Ew Hn d Hd. destruct (Z.ltb_spec d (64 * k - 4)); [apply Hn; lia|].
  rewrite (mem_word mask d 0 k (d + 4 - 64 * k)) by (assumption || lia). apply Z.testbit_0_l.
Qed.

(** A nonzero word whose earlier days are unset holds the answer. *)
Lemma word_found mask k w v idx s :
  word_at mask k = Some w -> 0 <= w < 2 ^ 64 -> 0 <= s < 64 -> v = Z.shiftr w s -> v <> 0 ->
  none_between mask idx (64 * k + s - 4) -> idx < 64 * k + s - 4 ->
  next_result mask idx (find_low v (64 * k + s - 4)).
Proof.
  intros Ew Hw Hs -> Hv Hn Hi.
  assert (0 <= Z.shiftr w s < 2 ^ 64) as Hsw.
  { split; [apply Z.shiftr_nonneg; lia|]. apply bits_bound; [apply Z.shiftr_nonneg; lia|].
    intros p Hp. rewrite Z.shiftr_spec by lia. apply bound_bits; lia. }
  destruct (exists_lowest _ Hsw Hv) as (p & Hl & Hp). rewrite (find_low_spec _ _ p Hl Hp).
  destruct Hl as (Hp0 & Hb & Hl).
  assert (p + s < 64) as Hps.
  { destruct (Z.ltb_spec (p + s) 64); [assumption|]. rewrite Z.shiftr_spec in Hb by lia.
    rewrite bound_bits in Hb by lia. discriminate. }
  split.
  - intros d Hd. destruct (Z.ltb_spec d (64 * k + s - 4)); [apply Hn; lia|].
    rewrite (mem_word mask d w k (d + 4 - 64 * k)) by (assumption || lia).
    specialize (Hl (d + 4 - 64 * k - s) ltac:(lia)). rewrite Z.shiftr_spec in Hl by lia.
    now replace (d + 4 - 64 * k - s + s) with (d + 4 - 64 * k) in Hl by lia.
  - intros _. split; [lia|].
    rewrite (mem_word mask _ w k (p + s)) by (assumption || lia).
    now rewrite Z.shiftr_spec in Hb by lia.
Qed.

Lemma find_low_zero idx : find_low 0 idx = idx.
Proof. reflexivity. Qed.

Lemma skip_forward_spec mask idx fuel : forall k,
  mask_ok mask -> 0 <= k < 6 -> 6 - k < Z.of_nat fuel + 0 ->
  none_between mask idx (64 * (k + 1) - 4) -> idx < 64 * (k + 1) - 4 ->
  exists di v, skip_forward fuel mask (64 * (k + 1) - 4) k = Some (di, v) /\
    next_result mask idx (find_low v di).
Proof.
  induction fuel as [|n IH]; intros k Hok Hk Hf Hn Hi; [lia|]. cbn [skip_forward].
  unfold ICAL_YEARDAYS_MASK_SIZE, BITS_PER_LONG in *.
  destruct (Z.ltb_spec (64 * (k + 1) - 4) (367 + 7)) as [Hlt|Hge].
  - destruct (word_at_some mask (k + 1) Hok ltac:(lia)) as (w & Ew & Hw). rewrite Ew.
    destruct (Z.eqb_spec w 0) as [->|Hne].
    + replace (64 * (k + 1) - 4 + 64) with (64 * (k + 1 + 1) - 4) by lia.
      apply IH; try assumption; try lia.
      replace (64 * (k + 1 + 1) - 4) with (64 * (k + 1) + 60) by lia. now apply zero_word_none.
    + exists (64 * (k + 1) - 4), w. split; [reflexivity|].
      replace (64 * (k + 1) - 4) with (64 * (k + 1) + 0 - 4) by lia.
      apply (word_found mask (k + 1) w); try assumption; try lia;
        try (rewrite Z.shiftr_0_r; reflexivity);
        now replace (64 * (k + 1) + 0 - 4) with (64 * (k + 1) - 4) by lia.
  - exists (64 * (k + 1) - 4), 0. split; [reflexivity|]. rewrite find_low_zero.
    split; [exact Hn|]. unfold ICAL_YEARDAYS_MASK_SIZE. lia.
Qed.

Lemma find_next_spec mask idx :
  mask_ok mask -> -5 <= idx ->
  exists r, daymask_find_next_bit mask idx = Some r /\ next_result mask idx r.
Proof.
  intros Hok Hidx. unfold daymask_find_next_bit, ICAL_YEARDAYS_MASK_SIZE, BITS_PER_LONG,
    ICAL_YEARDAYS_MASK_OFFSET.
  destruct (Z.leb_spec (367 + 7) (idx + 1)) as [H|H].
  { exists (367 + 7). split; [reflexivity|]. unfold next_result, ICAL_YEARDAYS_MASK_SIZE.
    split; [intros d Hd; lia | lia]. }
  set (s := idx + 1 + 4). destruct (bit_index s ltac:(lia)) as [Hk Hs].
  destruct (word_at_some mask (s / 64) Hok Hk) as (w & Ew & Hw). rewrite Ew.
  pose proof (Z.div_mod s 64 ltac:(lia)) as Es.
  destruct (Z.eqb_spec (Z.shiftr w (s mod 64)) 0) as [Hv|Hv].
  - replace (idx + 1 + (64 - s mod 64)) with (64 * (s / 64 + 1) - 4) by lia.
    destruct (skip_forward_spec mask idx (S mask_words) (s / 64) Hok Hk) as (di & v & -> & Hr).
    + unfold mask_words. lia.
    + intros d Hd. rewrite (mem_word mask d w (s / 64) (d + 4 - 64 * (s / 64))) by (assumption || lia).
      assert (Z.testbit (Z.shiftr w (s mod 64)) (d + 4 - s) = false) as T
        by (rewrite Hv; apply Z.bits_0).
      rewrite Z.shiftr_spec in T by lia.
      now replace (d + 4 - s + s mod 64) with (d + 4 - 64 * (s / 64)) in T by lia.
    + lia.
    + eauto.
  - eexists. split; [reflexivity|].
    replace (idx + 1) with (64 * (s / 64) + s mod 64 - 4) by lia.
    apply (word_found mask (s / 64) w); try assumption; try reflexivity; try lia.
    intros d Hd. lia.
Qed.

(** ** Searching backwards *)

Definition highest (v p : Z) : Prop :=
  0 <= p < 64 /\ Z.testbit v p = true /\ forall q, p < q < 64 -> Z.testbit v q = false.

Definition top_mask (k : Z) : Z := Z.shiftl (Z.ones k) (64 - k).

Lemma top_mask_bit k q : 0 <= k <= 64 -> 0 <= q < 64 -> Z.testbit (top_mask k) q = (64 - k <=? q).
Proof.
  intros Hk Hq. unfold top_mask. destruct (Z.leb_spec (64 - k) q).
  - rewrite Z.shiftl_spec, Z.ones_spec_low by lia. reflexivity.
  - rewrite Z.shiftl_spec_low by lia. reflexivity.
Qed.

Lemma land_top_mask v k p :
  0 <= v < 2 ^ 64 -> 0 <= k <= 64 -> highest v p ->
  (Z.land v (top_mask k) =? 0) = (p <? 64 - k).
Proof.
  intros Hv Hk (Hp & Hb & Hh). destruct (Z.ltb_spec p (64 - k)) as [H|H].
  - apply Z.eqb_eq, Z.bits_inj'. intros q Hq. rewrite Z.land_spec, Z.bits_0.
    destruct (Z.ltb_spec q 64); [|rewrite bound_bits by lia; reflexivity].
    rewrite top_mask_bit by lia. destruct (Z.leb_spec (64 - k) q); [|apply andb_false_r].
    rewrite Hh by lia. reflexivity.
  - apply Z.eqb_neq. intros E. assert (Z.testbit (Z.land v (top_mask k)) p = true) as T.
    { rewrite Z.land_spec, Hb, top_mask_bit by lia. cbn. lia. }
    rewrite E, Z.bits_0 in T. discriminate.
Qed.

Lemma to_ulong_range z : 0 <= to_ulong z < 2 ^ 64.
Proof. unfold to_ulong, to_unsigned. apply Z.mod_pos_bound. lia. Qed.

Lemma to_ulong_bit z q : 0 <= q < 64 -> Z.testbit (to_ulong z) q = Z.testbit z q.
Proof. intros. unfold to_ulong, to_unsigned. now apply Z.mod_pow2_bits_low. Qed.

Lemma highest_shiftl v k p :
  0 <= k -> p + k < 64 -> highest v p -> highest (to_ulong (Z.shiftl v k)) (p + k).
Proof.
  intros Hk Hpk (Hp & Hb & Hh). split; [lia|]. split.
  - rewrite to_ulong_bit, Z.shiftl_spec by lia. now replace (p + k - k) with p by lia.
  - intros q Hq. rewrite to_ulong_bit, Z.shiftl_spec by lia. apply Hh. lia.
Qed.

Lemma top_mask_halve k :
  0 < k -> 2 * k <= 64 -> to_ulong (Z.shiftl (top_mask (2 * k)) k) = top_mask k.
Proof.
  intros Hk Hk2. apply Z.bits_inj'. intros q Hq. destruct (Z.ltb_spec q 64).
  - rewrite to_ulong_bit, (top_mask_bit k) by lia.
    destruct (Z.ltb_spec q k); [rewrite Z.shiftl_spec_low by lia; lia|].
    rewrite Z.shiftl_spec, top_mask_bit by lia. lia.
  - rewrite bound_bits; [|apply to_ulong_range | lia]. symmetry. unfold top_mask.
    rewrite Z.shiftl_spec, Z.ones_spec_high by lia. reflexivity.
Qed.

Lemma bisect_high_step n v k idx p :
  0 <= v < 2 ^ 64 -> highest v p -> 0 < k <= 64 ->
  bisect_high (S n) v (top_mask k) k idx =
  if p <? 64 - k
  then bisect_high n (to_ulong (Z.shiftl v k)) (to_ulong (Z.shiftl (top_mask k) (k / 2))) (k / 2) (idx - k)
  else bisect_high n v (to_ulong (Z.shiftl (top_mask k) (k / 2))) (k / 2) idx.
Proof.
  intros Hv Hh Hk. cbn [bisect_high]. destruct (Z.eqb_spec k 0); [lia|].
  rewrite (land_top_mask v k p) by (assumption || lia). now destruct (p <? 64 - k).
Qed.

Lemma bisect_high_spec m : forall v idx p,
  (m <= 5)%nat -> 0 <= v < 2 ^ 64 -> highest v p -> 64 - 2 ^ Z.of_nat (S m) <= p ->
  bisect_high (S (S m)) v (top_mask (2 ^ Z.of_nat m)) (2 ^ Z.of_nat m) idx = idx - (63 - p).
Proof.
  induction m as [|m IH]; intros v idx p Hm Hv Hh Hp.
  - change (2 ^ Z.of_nat 0) with 1. change (2 ^ Z.of_nat 1) with 2 in Hp.
    rewrite (bisect_high_step _ _ _ _ p Hv Hh) by lia. destruct Hh as (Hp0 & _).
    change (1 / 2) with 0. cbn [bisect_high]. change (0 =? 0) with true. cbv iota.
    destruct (Z.ltb_spec p (64 - 1)); lia.
  - pose proof (Z.pow_pos_nonneg 2 (Z.of_nat m) ltac:(lia) ltac:(lia)) as Hpos.
    assert (2 ^ Z.of_nat (S m) = 2 * 2 ^ Z.of_nat m) as E
      by (rewrite Nat2Z.inj_succ, Z.pow_succ_r; lia).
    assert (2 ^ Z.of_nat (S (S m)) = 2 * 2 ^ Z.of_nat (S m)) as E2
      by (rewrite (Nat2Z.inj_succ (S m)), Z.pow_succ_r; lia).
    assert (2 ^ Z.of_nat (S m) <= 2 ^ 5) as Hle by (apply Z.pow_le_mono_r; lia).
    change (2 ^ 5) with 32 in Hle.
    rewrite (bisect_high_step _ _ _ _ p Hv Hh) by lia.
    assert (2 ^ Z.of_nat (S m) / 2 = 2 ^ Z.of_nat m) as -> by (rewrite E; zdiv).
    assert (to_ulong (Z.shiftl (top_mask (2 ^ Z.of_nat (S m))) (2 ^ Z.of_nat m))
      = top_mask (2 ^ Z.of_nat m)) as -> by (rewrite E; apply top_mask_halve; lia).
    destruct (Z.ltb_spec p (64 - 2 ^ Z.of_nat (S m))).
    + rewrite (IH _ _ (p + 2 ^ Z.of_nat (S m)));
        [lia | lia | apply to_ulong_range | apply highest_shiftl; [lia.. | exact Hh] | lia].
    + apply IH; [lia | assumption | assumption | lia].
Qed.

Lemma find_high_spec v idx p :
  0 <= v < 2 ^ 64 -> highest v p -> find_high v idx = idx - (63 - p).
Proof.
  intros Hv Hh. unfold find_high. destruct (Z.eqb_spec v 0) as [->|].
  - destruct Hh as (_ & Hb & _). rewrite Z.bits_0 in Hb. discriminate.
  - apply (bisect_high_spec 5); try assumption; [lia|]. destruct Hh. change (2 ^ Z.of_nat 6) with 64. lia.
Qed.

Lemma exists_highest v : 0 <= v < 2 ^ 64 -> v <> 0 -> exists p, highest v p.
Proof.
  intros Hv Hne. destruct (first_true (fun q => Z.testbit v (63 - q)) 64) as [H|(p & Hp & Hb & Hl)].
  - exfalso. apply Hne. apply Z.bits_inj'. intros q Hq. rewrite Z.bits_0.
    destruct (Z.ltb_spec q 64); [|now apply bound_bits].
    specialize (H (63 - q) ltac:(lia)). cbn in H. now replace (63 - (63 - q)) with q in H by lia.
  - exists (63 - p). split; [lia|]. split; [exact Hb|]. intros q Hq.
    specialize (Hl (63 - q) ltac:(lia)). cbn in Hl. now replace (63 - (63 - q)) with q in Hl by lia.
Qed.

Definition prev_result (mask : list Z) (idx r : Z) : Prop :=
  none_between mask r idx /\ (- ICAL_YEARDAYS_MASK_OFFSET < r -> r < idx /\ mem mask r = true).

(** The word whose bits up to [s] are searched, shifted so that [s] is on top. *)
Lemma word_found_back mask k w v idx s :
  word_at mask k = Some w -> 0 <= w < 2 ^ 64 -> 0 <= s < 64 ->
  v = to_ulong (Z.shiftl w (64 - s - 1)) -> v <> 0 ->
  none_between mask (64 * k + s - 4) idx -> 64 * k + s - 4 < idx ->
  prev_result mask idx (find_high v (64 * k + s - 4)).
Proof.
  intros Ew Hw Hs Ev Hv Hn Hi.
  assert (0 <= v < 2 ^ 64) as Hvr by (subst v; apply to_ulong_range).
  destruct (exists_highest v Hvr Hv) as (p & Hh). rewrite (find_high_spec v _ p Hvr Hh).
  destruct Hh as (Hp0 & Hb & Hh).
  assert (forall q, 0 <= q < 64 ->
    Z.testbit v q = if q <? 63 - s then false else Z.testbit w (q - (63 - s))) as Hbits.
  { intros q Hq. subst v. rewrite to_ulong_bit by lia. destruct (Z.ltb_spec q (63 - s)).
    - apply Z.shiftl_spec_low. lia.
    - rewrite Z.shiftl_spec by lia. f_equal. lia. }
  assert (63 - s <= p) as Hps.
  { rewrite Hbits in Hb by lia. destruct (Z.ltb_spec p (63 - s)); [discriminate | lia]. }
  split.
  - intros d Hd. destruct (Z.ltb_spec (64 * k + s - 4) d); [apply Hn; lia|].
    rewrite (mem_word mask d w k (d + 4 - 64 * k)) by (assumption || lia).
    specialize (Hh (d + 4 - 64 * k + (63 - s)) ltac:(lia)). rewrite Hbits in Hh by lia.
    destruct (Z.ltb_spec (d + 4 - 64 * k + (63 - s)) (63 - s)); [lia|].
    now replace (d + 4 - 64 * k + (63 - s) - (63 - s)) with (d + 4 - 64 * k) in Hh by lia.
  - intros _. split; [lia|].
    rewrite (mem_word mask _ w k (p - (63 - s))) by (assumption || lia).
    rewrite Hbits in Hb by lia. destruct (Z.ltb_spec p (63 - s)); [discriminate | exact Hb].
Qed.

Lemma zero_word_none_back mask k b :
  word_at mask k = Some 0 -> none_between mask (64 * k + 59) b -> none_between mask (64 * k - 5) b.
Proof.
  intros Ew Hn d Hd. destruct (Z.ltb_spec (64 * k + 59) d); [apply Hn; lia|].
  rewrite (mem_word mask d 0 k (d + 4 - 64 * k)) by (assumption || lia). apply Z.testbit_0_l.
Qed.

Lemma skip_backward_spec mask idx fuel : forall k,
  mask_ok mask -> 0 <= k < 6 -> k < Z.of_nat fuel ->
  none_between mask (64 * k - 5) idx -> 64 * k - 5 < idx ->
  exists di v, skip_backward fuel mask (64 * k - 5) k = Some (di, v) /\
    prev_result mask idx (find_high v di).
Proof.
  induction fuel as [|n IH]; intros k Hok Hk Hf Hn Hi; [lia|]. cbn [skip_backward].
  unfold ICAL_YEARDAYS_MASK_OFFSET, BITS_PER_LONG in *.
  destruct (Z.ltb_spec (- (4)) (64 * k - 5)) as [Hlt|Hge].
  - destruct (word_at_some mask (k - 1) Hok ltac:(lia)) as (w & Ew & Hw). rewrite Ew.
    destruct (Z.eqb_spec w 0) as [->|Hne].
    + replace (64 * k - 5 - 64) with (64 * (k - 1) - 5) by lia.
      apply IH; try assumption; try lia. apply zero_word_none_back; [exact Ew|].
      now replace (64 * (k - 1) + 59) with (64 * k - 5) by lia.
    + exists (64 * k - 5), w. split; [reflexivity|].
      replace (64 * k - 5) with (64 * (k - 1) + 63 - 4) by lia.
      apply (word_found_back mask (k - 1) w); try assumption; try lia;
        try (replace (64 * (k - 1) + 63 - 4) with (64 * k - 5) by lia; assumption).
      replace (64 - 63 - 1) with 0 by lia. rewrite Z.shiftl_0_r.
      unfold to_ulong, to_unsigned. now rewrite Z.mod_small.
  - exists (64 * k - 5), 0. split; [reflexivity|]. change (find_high 0 (64 * k - 5)) with (64 * k - 5).
    split; [exact Hn|]. unfold ICAL_YEARDAYS_MASK_OFFSET. lia.
Qed.

Lemma find_prev_spec mask idx :
  mask_ok mask -> idx <= 380 ->
  exists r, daymask_find_prev_bit mask idx = Some r /\ prev_result mask idx r.
Proof.
  intros Hok Hidx. unfold daymask_find_prev_bit, BITS_PER_LONG, ICAL_YEARDAYS_MASK_OFFSET.
  destruct (Z.leb_spec (idx - 1) (- (4))) as [H|H].
  { exists (- (4)). split; [reflexivity|]. split; [intros d Hd; lia|].
    unfold ICAL_YEARDAYS_MASK_OFFSET. lia. }
  set (s := idx - 1 + 4). destruct (bit_index s ltac:(lia)) as [Hk Hs].
  destruct (word_at_some mask (s / 64) Hok Hk) as (w & Ew & Hw). rewrite Ew.
  pose proof (Z.div_mod s 64 ltac:(lia)) as Es.
  destruct (Z.eqb_spec (to_ulong (Z.shiftl w (64 - s mod 64 - 1))) 0) as [Hv|Hv].
  - replace (idx - 1 - (s mod 64 + 1)) with (64 * (s / 64) - 5) by lia.
    destruct (skip_backward_spec mask idx (S mask_words) (s / 64) Hok Hk) as (di & v & -> & Hr).
    + unfold mask_words. lia.
    + intros d Hd. rewrite (mem_word mask d w (s / 64) (d + 4 - 64 * (s / 64))) by (assumption || lia).
      assert (Z.testbit (to_ulong (Z.shiftl w (64 - s mod 64 - 1))) (63 - (s - (d + 4))) = false) as T
        by (rewrite Hv; apply Z.bits_0).
      rewrite to_ulong_bit, Z.shiftl_spec in T by lia.
      now replace (63 - (s - (d + 4)) - (64 - s mod 64 - 1)) with (d + 4 - 64 * (s / 64)) in T by lia.
    + lia.
    + eauto.
  - eexists. split; [reflexivity|].
    replace (idx - 1) with (64 * (s / 64) + s mod 64 - 4) by lia.
    apply (word_found_back mask (s / 64) w); try assumption; try reflexivity; try lia.
    intros d Hd. lia.
Qed.

(** ** Theorems *)

(** The bitmask behaves as a set of days: setting or clearing a day changes
    that day only, reading gives back what was stored, and no access from day -4
    to day 379 leaves the words. *)
Theorem daysmask_is_a_set mask n v m :
  mask_ok mask -> -4 <= n < 380 -> -4 <= m < 380 ->
  exists mask', daysmask_setbit mask n v = Some mask' /\ mask_ok mask' /\
    daysmask_getbit mask' m = (if m =? n then Some v else daysmask_getbit mask m).
Proof.
  intros Hok Hn Hm. destruct (setbit_spec mask n v Hok Hn) as (mask' & E & Hok' & Hmem).
  exists mask'. split; [exact E|]. split; [exact Hok'|].
  rewrite !getbit_spec, Hmem by assumption. now destruct (m =? n).
Qed.

Lemma daysmask_is_a_set_witness :
  exists mask', daysmask_setbit daysmask_clearall 366 true = Some mask' /\ mask_ok mask' /\
    daysmask_getbit mask' 366 = Some true.
Proof.
  apply (daysmask_is_a_set daysmask_clearall 366 true 366); [apply clearall_ok | lia..].
Defined.

(** C13: For a mask of days and an index from -5 to 380, [daymask_find_next_bit] returns
    the first set day after the index, and [daymask_find_prev_bit] the last one before it,
    whatever the number of empty words between; when there is none the results are out of
    the range of days, and no word outside of the mask is read. *)
Theorem find_bit_correct mask idx :
  mask_ok mask -> -5 <= idx <= 380 ->
  (exists r, daymask_find_next_bit mask idx = Some r /\
     none_between mask idx r /\ (r < ICAL_YEARDAYS_MASK_SIZE -> idx < r /\ mem mask r = true)) /\
  (exists r, daymask_find_prev_bit mask idx = Some r /\
     none_between mask r idx /\ (- ICAL_YEARDAYS_MASK_OFFSET < r -> r < idx /\ mem mask r = true)).
Proof.
  intros Hok Hidx. split; [apply find_next_spec | apply find_prev_spec]; tauto || lia.
Qed.

Lemma find_bit_correct_witness :
  exists r, daymask_find_next_bit [0; 0; 5; 0; 0; 2] 100 = Some r /\
    none_between [0; 0; 5; 0; 0; 2] 100 r /\
    (r < ICAL_YEARDAYS_MASK_SIZE -> 100 < r /\ mem [0; 0; 5; 0; 0; 2] r = true).
Proof.
  apply (find_bit_correct [0; 0; 5; 0; 0; 2] 100).
  - split; [reflexivity | repeat constructor; lia].
  - lia.
Defined.
