(* ===== verification/IcalRecurIter.v ===== *)
(** * The recurrence iterator (icalrecur.c, configuration without ICU)

    The iterator is a record that the operations transform, together with the
    error state of the library: the monad [it].  [None] stands for the end of
    the process by a fatal error or a failed assertion, for an access outside of
    an array, and for a loop that does not end within its fuel.  The loops whose
    length depends on the rule take their fuel as an argument; the others are
    bounded by the lengths of the arrays or by the year 20000.

    icaltime.c and the other callees are those of the previous files; comparing
    times may convert them between zones, so the definitions are parametrised
    by that conversion. *)
From Stdlib Require Import String Ascii ZArith Lia Bool List.
From S2P Require Import Prelude CString IcalError CalDate IcalTime IcalRecurType IcalRecurMask.
Import ListNotations.
#[local] Open Scope Z_scope.
#[local] Open Scope cstring_scope.

Definition MAX_TIME_T_YEAR : Z := 2582.

Definition byrule_eqb (a b : byrule) : bool :=
  match a, b with
  | BY_SECOND, BY_SECOND | BY_MINUTE, BY_MINUTE | BY_HOUR, BY_HOUR | BY_DAY, BY_DAY
  | BY_MONTH_DAY, BY_MONTH_DAY | BY_YEAR_DAY, BY_YEAR_DAY | BY_WEEK_NO, BY_WEEK_NO
  | BY_MONTH, BY_MONTH | BY_SET_POS, BY_SET_POS => true
  | _, _ => false
  end.

(** [rule] holds the BY arrays the iterator works with; [orig_data] tells which
    of them had data before the defaults were filled in. *)
Record icalrecur_iterator := Iterator {
  dtstart : icaltimetype;
  rule : icalrecurrencetype;
  rstart : icaltimetype;
  istart : icaltimetype;
  iend : icaltimetype;
  last : icaltimetype;
  occurrence_no : Z;
  period_start : icaltimetype;
  days : list Z;
  days_index : Z;
  by_indices : byrule -> Z;
  orig_data : byrule -> bool
}.

Definition set_rule (v : icalrecurrencetype) (i : icalrecur_iterator) :=
  Iterator (dtstart i) v (rstart i) (istart i) (iend i) (last i) (occurrence_no i)
    (period_start i) (days i) (days_index i) (by_indices i) (orig_data i).
Definition set_rstart (v : icaltimetype) (i : icalrecur_iterator) :=
  Iterator (dtstart i) (rule i) v (istart i) (iend i) (last i) (occurrence_no i)
    (period_start i) (days i) (days_index i) (by_indices i) (orig_data i).
Definition set_istart (v : icaltimetype) (i : icalrecur_iterator) :=
  Iterator (dtstart i) (rule i) (rstart i) v (iend i) (last i) (occurrence_no i)
    (period_start i) (days i) (days_index i) (by_indices i) (orig_data i).
Definition set_iend (v : icaltimetype) (i : icalrecur_iterator) :=
  Iterator (dtstart i) (rule i) (rstart i) (istart i) v (last i) (occurrence_no i)
    (period_start i) (days i) (days_index i) (by_indices i) (orig_data i).
Definition set_last (v : icaltimetype) (i : icalrecur_iterator) :=
  Iterator (dtstart i) (rule i) (rstart i) (istart i) (iend i) v (occurrence_no i)
    (period_start i) (days i) (days_index i) (by_indices i) (orig_data i).
Definition set_occurrence_no (v : Z) (i : icalrecur_iterator) :=
  Iterator (dtstart i) (rule i) (rstart i) (istart i) (iend i) (last i) v
    (period_start i) (days i) (days_index i) (by_indices i) (orig_data i).
Definition set_period_start (v : icaltimetype) (i : icalrecur_iterator) :=
  Iterator (dtstart i) (rule i) (rstart i) (istart i) (iend i) (last i) (occurrence_no i)
    v (days i) (days_index i) (by_indices i) (orig_data i).
Definition set_days (v : list Z) (i : icalrecur_iterator) :=
  Iterator (dtstart i) (rule i) (rstart i) (istart i) (iend i) (last i) (occurrence_no i)
    (period_start i) v (days_index i) (by_indices i) (orig_data i).
Definition set_days_index (v : Z) (i : icalrecur_iterator) :=
  Iterator (dtstart i) (rule i) (rstart i) (istart i) (iend i) (last i) (occurrence_no i)
    (period_start i) (days i) v (by_indices i) (orig_data i).
Definition set_index (b : byrule) (v : Z) (i : icalrecur_iterator) :=
  Iterator (dtstart i) (rule i) (rstart i) (istart i) (iend i) (last i) (occurrence_no i)
    (period_start i) (days i) (days_index i)
    (fun b' => if byrule_eqb b b' then v else by_indices i b') (orig_data i).

(** ** The monad *)

Definition it (A : Type) := icalrecur_iterator -> error_state -> option (A * icalrecur_iterator * error_state).

Definition iret {A} (a : A) : it A := fun i st => Some (a, i, st).
Definition ibind {A B} (m : it A) (k : A -> it B) : it B := fun i st =>
  match m i st with Some (a, i', st') => k a i' st' | None => None end.
Definition get : it icalrecur_iterator := fun i st => Some (i, i, st).
Definition modify (f : icalrecur_iterator -> icalrecur_iterator) : it unit :=
  fun i st => Some (tt, f i, st).
Definition lift {A} (m : err A) : it A := fun i st =>
  match m st with Some (a, st') => Some (a, i, st') | None => None end.
(** An access outside of an array, or a failed assertion. *)
Definition undefined {A} : it A := fun _ _ => None.
Definition opt {A} (o : option A) : it A := match o with Some a => iret a | None => undefined end.

Declare Scope it_scope.
Delimit Scope it_scope with it.
Notation "x <- m ;; k" := (ibind m (fun x => k))
  (at level 60, m at next level, right associativity) : it_scope.
Notation "' p <- m ;; k" := (ibind m (fun x => match x with p => k end))
  (at level 60, p pattern, m at next level, right associativity) : it_scope.
Notation "m ;;; k" := (ibind m (fun _ => k))
  (at level 60, right associativity) : it_scope.
#[local] Open Scope it_scope.

(** A loop over the elements of an array. *)
Fixpoint ifold {A S} (f : S -> A -> it S) (l : list A) (s : S) : it S :=
  match l with
  | [] => iret s
  | x :: r => s <- f s x ;; ifold f r s
  end.

(** ** Tables *)

Inductive expand_table := UNKNOWN | CONTRACT | EXPAND | ILLEGAL.

(** The row of a frequency, the columns in the order of [byrule]. *)
Definition expand_row (f : icalrecurrencetype_frequency) : list Z :=
  match f with
  | ICAL_SECONDLY_RECURRENCE => [1; 1; 1; 1; 1; 1; 3; 1; 1]
  | ICAL_MINUTELY_RECURRENCE => [2; 1; 1; 1; 1; 1; 3; 1; 1]
  | ICAL_HOURLY_RECURRENCE => [2; 2; 1; 1; 1; 1; 3; 1; 1]
  | ICAL_DAILY_RECURRENCE => [2; 2; 2; 1; 1; 3; 3; 1; 1]
  | ICAL_WEEKLY_RECURRENCE => [2; 2; 2; 2; 3; 3; 3; 1; 1]
  | ICAL_MONTHLY_RECURRENCE => [2; 2; 2; 2; 2; 3; 3; 1; 1]
  | ICAL_YEARLY_RECURRENCE => [2; 2; 2; 2; 2; 2; 2; 2; 1]
  | ICAL_NO_RECURRENCE => [0; 0; 0; 0; 0; 0; 0; 0; 0]
  end.

Definition byrule_num (b : byrule) : Z :=
  match b with
  | BY_SECOND => 0 | BY_MINUTE => 1 | BY_HOUR => 2 | BY_DAY => 3 | BY_MONTH_DAY => 4
  | BY_YEAR_DAY => 5 | BY_WEEK_NO => 6 | BY_MONTH => 7 | BY_SET_POS => 8
  end.

Definition expand_map (f : icalrecurrencetype_frequency) (b : byrule) : expand_table :=
  match znth (byrule_num b) (expand_row f) 0 with
  | 1 => CONTRACT | 2 => EXPAND | 3 => ILLEGAL | _ => UNKNOWN
  end.

Definition is_expand (e : expand_table) : bool := match e with EXPAND => true | _ => false end.
Definition is_contract (e : expand_table) : bool := match e with CONTRACT => true | _ => false end.
Definition is_illegal (e : expand_table) : bool := match e with ILLEGAL => true | _ => false end.

(** ** The fields of the current time *)

Definition has_by_data (b : byrule) (i : icalrecur_iterator) : bool := orig_data i b.
Definition by_array (b : byrule) (i : icalrecur_iterator) : list Z := by_ptr b (rule i).

(** [by_ptrs[b][n]]; [None] at the terminator. *)
Definition by_at (b : byrule) (n : Z) (i : icalrecur_iterator) : option Z :=
  if n <? 0 then None else nth_error (by_array b i) (Z.to_nat n).

Definition upd_last (f : icaltimetype -> icaltimetype) : it unit :=
  modify (fun i => set_last (f (last i)) i).

Definition set_second (v : Z) : it unit := upd_last (fun t => set_time t (hour t) (minute t) v).
Definition set_minute (v : Z) : it unit := upd_last (fun t => set_time t (hour t) v (second t)).
Definition set_hour (v : Z) : it unit := upd_last (fun t => set_time t v (minute t) (second t)).
Definition set_month (v : Z) : it Z :=
  upd_last (fun t => set_date t (year t) v (day t)) ;;; iret v.

Definition get_days_in_year (y : Z) : Z := icaltime_days_in_year y.

Definition set_day_of_year (doy : Z) : it unit :=
  upd_last (fun t =>
    let doy := if doy <? 0 then doy + (get_days_in_year (year t) + 1) else doy in
    let next := icaltime_from_day_of_year doy (year t) in
    set_date t (year next) (month next) (day next)).

Definition get_start_of_week (i : icalrecur_iterator) : Z :=
  icaltime_start_doy_week (last i) (week_start (rule i)).

Definition get_day_of_week (i : icalrecur_iterator) : Z := icaltime_day_of_week (last i).

Definition weeks_in_year (y : Z) : Z :=
  let dow := icaltime_day_of_week (icaltime_from_day_of_year 1 y) in
  52 + b2z ((dow =? 5) || ((dow =? 4) && icaltime_is_leap_year y)).

Definition get_week_number (i : icalrecur_iterator) (tt : icaltimetype) : Z :=
  let dow := icaltime_day_of_week tt - (week_start (rule i) - 1) in
  let dow := if dow <=? 0 then dow + 7 else dow in
  let week := Z.quot (icaltime_day_of_year tt - dow + 10) 7 in
  if week <? 1 then weeks_in_year (year tt - 1)
  else if weeks_in_year (year tt) <? week then 1
  else week.

(** [None]: a month outside of the table. *)
Definition get_days_in_month (m y : Z) : option Z :=
  if (m <? 0) || (12 <? m) then None else Some (icaltime_days_in_month m y).

(** The day of the year and the weekday.  A month outside of 1 to 12 reads
    outside of the tables of icaltime.c. *)
Definition get_day_of_year (i : icalrecur_iterator) (y m d : Z) : option (Z * Z) :=
  let m := if m =? 0 then month (dtstart i) else m in
  if (m <? 1) || (12 <? m) then None
  else
    let d := if d =? 0 then day (dtstart i)
             else if d <? 0 then d + (icaltime_days_in_month m y + 1) else d in
    let t := set_date (set_is_date (dtstart i) 1) y m d in
    Some (icaltime_day_of_year t, icaltime_day_of_week t).

Definition occurrence_as_icaltime (normalize : bool) (i : icalrecur_iterator) : icaltimetype :=
  if normalize then icaltime_normalize (last i) else last i.

(** The date, and the number of its week. *)
Definition __icaltime_from_day_of_year (i : icalrecur_iterator) (d y : Z) : icaltimetype * Z :=
  let d := if d <? 0 then d + (get_days_in_year y + 1) else d in
  let tt := icaltime_from_day_of_year d y in
  (tt, get_week_number i tt).

Definition increment_year (inc : Z) : it unit :=
  upd_last (fun t => set_date t (year t + inc) (month t) (day t)).

Definition __increment_month (inc : Z) : it unit :=
  upd_last (fun t =>
    let m := month t + inc - 1 in
    let years := Z.quot m 12 in
    let m := Z.rem m 12 in
    let '(m, years) := if m <? 0 then (m + 12, years - 1) else (m, years) in
    set_date t (year t + years) (m + 1) (day t)).

Definition increment_monthday (inc : Z) : it unit := upd_last (fun t => icaltime_adjust t inc 0 0 0).
Definition increment_hour (inc : Z) : it unit := upd_last (fun t => icaltime_adjust t 0 inc 0 0).
Definition increment_minute (inc : Z) : it unit := upd_last (fun t => icaltime_adjust t 0 0 inc 0).
Definition increment_second (inc : Z) : it unit := upd_last (fun t => icaltime_adjust t 0 0 0 inc).

(** 0 when the RSCALE is not supported. *)
Definition initialize_rscale : it bool :=
  i <- get ;;
  let unsupported := match rscale (rule i) with
                     | Some s => negb (strcaseeqb s ($"GREGORIAN"))
                     | None => false
                     end in
  if unsupported then lift (icalerror_set_errno ICAL_UNIMPLEMENTED_ERROR) ;;; iret false
  else modify (set_rstart (dtstart i)) ;;; iret true.

(** The first value of the array of a part that had data, else the member of
    DTSTART. *)
Definition first_or (b : byrule) (dflt : Z) (i : icalrecur_iterator) : Z :=
  if has_by_data b i then match by_at b 0 i with Some v => v | None => dflt end else dflt.

Definition set_datetime (date : icaltimetype) : it unit :=
  modify (fun i =>
    let l := last i in
    let ds := dtstart i in
    let l := IcalTime (year date) (month date) (day date) (hour l) (minute l) (second l)
               (is_date ds) (is_daylight l) (zone ds) in
    let l := if truthy (is_date ds) then l
             else set_time l (first_or BY_HOUR (hour ds) i) (first_or BY_MINUTE (minute ds) i)
                    (first_or BY_SECOND (second ds) i) in
    set_last l i).

Definition __greg_month_diff (a b : icaltimetype) : Z :=
  12 * (year b - year a) + (month b - month a).

Definition reset_period_start : it unit := i <- get ;; set_datetime (period_start i).

(** The loop [while (++year < b.year)]. *)
Fixpoint sum_year_days (fuel : nat) (y last_year diff : Z) : Z :=
  match fuel with
  | O => diff
  | S k =>
      let y := y + 1 in
      if y <? last_year then sum_year_days k y last_year (diff + get_days_in_year y) else diff
  end.

Definition __day_diff (i : icalrecur_iterator) (a b : icaltimetype) : option Z :=
  let* (da, _) := get_day_of_year i (year a) (month a) (day a) in
  let* (db, _) := get_day_of_year i (year b) (month b) (day b) in
  if year a =? year b then Some (db - da)
  else
    let diff a da b db :=
      sum_year_days (S (Z.to_nat (year b - year a))) (year a) (year b)
        (get_days_in_year (year a) - da) + db in
    if year b <? year a then Some (- diff b db a da) else Some (diff a da b db).

Definition adjust_to_byday : it unit :=
  i <- get ;;
  let this_dow := get_day_of_week i in
  first <- opt (by_at BY_DAY 0 i) ;;
  let dow := to_short (first - this_dow) in
  let dow := if negb (dow =? 0) && (this_dow <? week_start (rule i)) then dow - 7 else dow in
  if ((this_dow <? first) && (0 <=? dow)) || (dow <? 0)
  then increment_monthday dow else iret tt.

(** ** Months *)

Fixpoint index_of (v : Z) (l : list Z) (n : Z) : option Z :=
  match l with
  | [] => None
  | x :: r => if v =? x then Some n else index_of v r (n + 1)
  end.

Fixpoint seek_month (fuel : nat) (inc : Z) : it unit :=
  match fuel with
  | O => undefined
  | S k =>
      i <- get ;;
      if year (last i) <? 20000 then
        match index_of (month (last i)) (by_array BY_MONTH i) 0 with
        | Some n => modify (set_index BY_MONTH n)
        | None =>
            modify (set_index BY_MONTH (Z.of_nat (length (by_array BY_MONTH i)))) ;;;
            __increment_month inc ;;; seek_month k inc
        end
      else iret tt
  end.

Definition increment_month (fuel : nat) (inc : Z) : it unit :=
  __increment_month inc ;;;
  i <- get ;;
  if has_by_data BY_MONTH i then seek_month fuel inc else iret tt.

(** ** Units below the day *)

Definition next_unit (by_unit : option byrule) (frequency : icalrecurrencetype_frequency)
  (next_sub_unit : option (it Z)) (set_unit : Z -> it unit)
  (increment_unit increment_super_unit : Z -> it unit) : it Z :=
  i <- get ;;
  let has_by_unit := match by_unit with
                     | Some b => negb (is_empty (by_array b i)) | None => false end in
  let this_frequency := freq_eqb (freq (rule i)) frequency in
  if negb (has_by_unit || this_frequency) then undefined
  else
    sub <- match next_sub_unit with Some f => f | None => iret 1 end ;;
    if sub =? 0 then iret 0
    else
      match by_unit with
      | Some b =>
          if has_by_unit then
            i <- get ;;
            let n := by_indices i b + 1 in
            let '(n, end_of_data) := match by_at b n i with Some _ => (n, 0) | None => (0, 1) end in
            modify (set_index b n) ;;;
            v <- opt (by_at b n i) ;;
            set_unit v ;;;
            (if (end_of_data =? 1) && this_frequency then increment_super_unit 1 else iret tt) ;;;
            iret end_of_data
          else increment_unit (interval (rule i)) ;;; iret 0
      | None => increment_unit (interval (rule i)) ;;; iret 0
      end.

Definition next_second : it Z :=
  next_unit (Some BY_SECOND) ICAL_SECONDLY_RECURRENCE None set_second increment_second
    increment_minute.
Definition next_minute : it Z :=
  next_unit (Some BY_MINUTE) ICAL_MINUTELY_RECURRENCE (Some next_second) set_minute
    increment_minute increment_hour.
Definition next_hour : it Z :=
  next_unit (Some BY_HOUR) ICAL_HOURLY_RECURRENCE (Some next_minute) set_hour increment_hour
    increment_monthday.
Definition next_day : it Z :=
  next_unit None ICAL_DAILY_RECURRENCE (Some next_hour) (fun _ => undefined) increment_monthday
    (fun _ => undefined).

Definition icalrecur_iterator_sizeof_byarray (l : list Z) : Z := Z.of_nat (length l).

Definition prev_unit (by_unit : option byrule) (frequency : icalrecurrencetype_frequency)
  (prev_sub_unit : option (it Z)) (set_unit : Z -> it unit)
  (increment_unit increment_super_unit : Z -> it unit) : it Z :=
  i <- get ;;
  let has_by_unit := match by_unit with
                     | Some b => negb (is_empty (by_array b i)) | None => false end in
  let this_frequency := freq_eqb (freq (rule i)) frequency in
  if negb (has_by_unit || this_frequency) then undefined
  else
    sub <- match prev_sub_unit with Some f => f | None => iret 1 end ;;
    if sub =? 0 then iret 0
    else
      match by_unit with
      | Some b =>
          if has_by_unit then
            i <- get ;;
            let n := by_indices i b - 1 in
            let '(n, end_of_data) :=
              if n <? 0 then (icalrecur_iterator_sizeof_byarray (by_array b i) - 1, 1) else (n, 0) in
            modify (set_index b n) ;;;
            v <- opt (by_at b n i) ;;
            set_unit v ;;;
            (if (end_of_data =? 1) && this_frequency then increment_super_unit (-1) else iret tt) ;;;
            iret end_of_data
          else increment_unit (- interval (rule i)) ;;; iret 0
      | None => increment_unit (- interval (rule i)) ;;; iret 0
      end.

Definition prev_second : it Z :=
  prev_unit (Some BY_SECOND) ICAL_SECONDLY_RECURRENCE None set_second increment_second
    increment_minute.
Definition prev_minute : it Z :=
  prev_unit (Some BY_MINUTE) ICAL_MINUTELY_RECURRENCE (Some prev_second) set_minute
    increment_minute increment_hour.
Definition prev_hour : it Z :=
  prev_unit (Some BY_HOUR) ICAL_HOURLY_RECURRENCE (Some prev_minute) set_hour increment_hour
    increment_monthday.
Definition prev_day : it Z :=
  prev_unit None ICAL_DAILY_RECURRENCE (Some prev_hour) (fun _ => undefined) increment_monthday
    (fun _ => undefined).

(** ** Expansion into the bitmask *)

Definition check_set_position (set_pos : Z) (i : icalrecur_iterator) : bool :=
  existsb (Z.eqb set_pos) (firstn (Z.to_nat (by_size BY_SET_POS)) (by_set_pos (rule i))).

Definition setbit (n : Z) (v : bool) : it unit :=
  i <- get ;; m <- opt (daysmask_setbit (days i) n v) ;; modify (set_days m).

Definition getbit (n : Z) : it bool := i <- get ;; opt (daysmask_getbit (days i) n).

(** [if (doy < impl->days_index) impl->days_index = doy]. *)
Definition lower_index (doy : Z) : it unit :=
  i <- get ;; if doy <? days_index i then modify (set_days_index doy) else iret tt.

Definition mark_day (doy : Z) (total : Z) : it Z :=
  setbit doy true ;;; lower_index doy ;;; iret (total + 1).

(** A value of BYMONTHDAY that the month has not: the day of the year, or the
    month and the day to use; [None] to leave it out. *)
Definition skip_month_day (sk : icalrecurrencetype_skip) (m mday days_in_year : Z)
  : option (Z * Z * Z) :=
  match sk with
  | ICAL_SKIP_OMIT | ICAL_SKIP_UNDEFINED => None
  | ICAL_SKIP_FORWARD =>
      let this_month := if 0 <? mday then m + 1 else m in
      if 12 <? this_month then Some (days_in_year + 1, this_month, mday)
      else Some (0, this_month, 1)
  | ICAL_SKIP_BACKWARD =>
      let this_month := if mday <? 0 then m - 1 else m in
      if this_month =? 0 then Some (-1, this_month, mday) else Some (0, this_month, -1)
  end.

(** The body of the loop over BYMONTHDAY. *)
Definition bymonthday_step (y m days_in_month total mday : Z) : it Z :=
  i <- get ;;
  let place :=
    if days_in_month <? Z.abs mday
    then skip_month_day (skip (rule i)) m mday (get_days_in_year y)
    else Some (0, m, mday) in
  match place with
  | None => iret total
  | Some (doy, this_month, mday) =>
      doy <- (if doy =? 0 then '(d, _) <- opt (get_day_of_year i y this_month mday) ;; iret (to_short d)
              else iret (to_short doy)) ;;
      mark_day doy total
  end.

Definition expand_bymonth_days (y m : Z) : it Z :=
  i <- get ;;
  days_in_month <- opt (get_days_in_month m y) ;;
  ifold (bymonthday_step y m days_in_month) (by_array BY_MONTH_DAY i) 0.

(** The do-while loop that adds the instances of a weekday. *)
Fixpoint add_instances (fuel : nat) (i : icalrecur_iterator) (pos doy_offset last_day : Z)
  (d this_weekno : Z) (bydays : list Z) : option (list Z) :=
  match fuel with
  | O => None
  | S k =>
      let valid := negb (has_by_data BY_WEEK_NO i)
                   || forallb (Z.eqb this_weekno) (by_array BY_WEEK_NO i) in
      let* bydays := if valid then daysmask_setbit bydays (to_short (d + doy_offset)) true
                     else Some bydays in
      if negb (pos =? 0) then Some bydays
      else
        let d := d + 7 in
        if last_day <? d then Some bydays
        else
          let this_weekno := this_weekno + 1 in
          if this_weekno =? 0 then Some bydays
          else add_instances k i pos doy_offset last_day d this_weekno bydays
  end.

(** The first day to mark for one BYDAY value; [None] when the period has not
    that many of the weekday. *)
Definition first_instance (dow pos first_dow last_dow last_day : Z) : option Z :=
  let first_matching_day := Z.rem (dow + 7 - first_dow) 7 + 1 in
  let last_matching_day := last_day - Z.rem (last_dow + 7 - dow) 7 in
  if pos =? 0 then Some first_matching_day
  else if 0 <? pos then
    let d := first_matching_day + (pos - 1) * 7 in
    if last_matching_day <? d then None else Some d
  else
    let d := last_matching_day + (pos + 1) * 7 in
    if d <? first_matching_day then None else Some d.

(** The local bitmask of the days that BYDAY selects. *)
Fixpoint mark_bydays (l : list Z) (i : icalrecur_iterator)
  (y doy_offset last_day first_dow last_dow : Z) (bydays : list Z) : option (list Z) :=
  match l with
  | [] => Some bydays
  | v :: r =>
      let dow := icalrecurrencetype_day_day_of_week v in
      let pos := icalrecurrencetype_day_position v in
      let* bydays :=
        match first_instance dow pos first_dow last_dow last_day with
        | None => Some bydays
        | Some d =>
            let '(_, this_weekno) := __icaltime_from_day_of_year i (d + doy_offset) y in
            add_instances 60 i pos doy_offset last_day d this_weekno bydays
        end in
      mark_bydays r i y doy_offset last_day first_dow last_dow bydays
  end.

(** The days from [a] on, [n] of them. *)
Fixpoint day_range (a : Z) (n : nat) : list Z :=
  match n with O => [] | S k => a :: day_range (a + 1) k end.

(** The body of the loop that applies the local bitmask. *)
Definition byday_step (bydays : list Z) (is_limiting : bool) (total doy : Z) : it Z :=
  b <- opt (daysmask_getbit bydays doy) ;;
  valid <- (if is_limiting then v <- getbit doy ;; iret (v && b) else iret b) ;;
  setbit doy valid ;;;
  (if (valid : bool) then lower_index doy ;;; iret (total + 1) else iret total).

Definition expand_by_day (y doy_offset last_day first_dow last_dow : Z) (is_limiting : bool) : it Z :=
  i <- get ;;
  bydays <- opt (mark_bydays (by_array BY_DAY i) i y doy_offset last_day first_dow last_dow
                   daysmask_clearall) ;;
  ifold (byday_step bydays is_limiting) (day_range (doy_offset + 1) (Z.to_nat last_day)) 0.

Definition bysetpos_step (pos_total pos_count doy : Z) : it Z :=
  b <- getbit doy ;;
  if negb b then iret pos_count
  else
    i <- get ;;
    let keep := check_set_position (pos_count + 1) i
                || check_set_position (pos_count - pos_total) i in
    setbit doy keep ;;;
    (if keep then lower_index doy else iret tt) ;;;
    iret (pos_count + 1).

Definition filter_bysetpos (pos_total start_doy end_doy : Z) : it unit :=
  modify (set_days_index ICAL_YEARDAYS_MASK_SIZE) ;;;
  ifold (bysetpos_step pos_total) (day_range start_doy (Z.to_nat (end_doy - start_doy + 1))) 0 ;;;
  iret tt.

Definition expand_month_days (y m : Z) : it unit :=
  modify (set_days daysmask_clearall) ;;;
  i <- get ;;
  modify (set_period_start (occurrence_as_icaltime false i)) ;;;
  '(doy1, first_dow) <- opt (get_day_of_year i y m 1) ;;
  let doy_offset := doy1 - 1 in
  days_in_month <- opt (get_days_in_month m y) ;;
  set_pos_total <- expand_bymonth_days y m ;;
  set_pos_total <- (if has_by_data BY_DAY i then
      modify (set_days_index ICAL_YEARDAYS_MASK_SIZE) ;;;
      '(_, last_dow) <- opt (get_day_of_year i y m days_in_month) ;;
      expand_by_day y doy_offset days_in_month first_dow last_dow (has_by_data BY_MONTH_DAY i)
    else iret set_pos_total) ;;
  if has_by_data BY_SET_POS i
  then filter_bysetpos set_pos_total (doy_offset + 1) (doy_offset + days_in_month)
  else iret tt.

(** A value of BYYEARDAY as a day of the year; [None] to leave it out. *)
Definition year_day (sk : icalrecurrencetype_skip) (doy days_in_year : Z) : option Z :=
  if days_in_year <? Z.abs doy then
    match sk with
    | ICAL_SKIP_OMIT | ICAL_SKIP_UNDEFINED => None
    | ICAL_SKIP_FORWARD => Some (if doy <? 0 then 1 else days_in_year + 1)
    | ICAL_SKIP_BACKWARD => Some (if doy <? 0 then -1 else days_in_year)
    end
  else Some (if doy <? 0 then doy + (days_in_year + 1) else doy).

(** The first part of [expand_year_days]: the days before BYDAY is applied;
    [None] when the combination of parts is not supported. *)
Definition expand_year_base (y days_in_year : Z) : it (option Z) :=
  i <- get ;;
  let unimplemented := lift (icalerror_set_errno ICAL_UNIMPLEMENTED_ERROR) ;;; iret None in
  if has_by_data BY_YEAR_DAY i then
    if has_by_data BY_WEEK_NO i || has_by_data BY_MONTH i || has_by_data BY_MONTH_DAY i
    then unimplemented
    else
      total <- ifold (fun total v =>
        match year_day (skip (rule i)) v days_in_year with
        | None => iret total
        | Some doy => mark_day doy total
        end) (by_array BY_YEAR_DAY i) 0 ;;
      iret (Some total)
  else if has_by_data BY_WEEK_NO i then
    if has_by_data BY_YEAR_DAY i || has_by_data BY_MONTH_DAY i
       || (has_by_data BY_MONTH i && negb (has_by_data BY_DAY i))
    then unimplemented
    else
      '(doy, _) <- opt (get_day_of_year i y (month (dtstart i)) (day (dtstart i))) ;;
      let '(_, weekno) := __icaltime_from_day_of_year i doy y in
      let weekno := if doy <? weekno then 0 else weekno in
      let start_doy := doy - 7 * (weekno - 1) in
      total <- ifold (fun total weekno => mark_day (to_short (start_doy + 7 * (weekno - 1))) total)
        (by_array BY_WEEK_NO i) 0 ;;
      iret (Some total)
  else
    total <- ifold (fun total v =>
      m <- set_month v ;;
      if m =? 0 then iret total
      else n <- expand_bymonth_days y m ;; iret (total + n))
      (by_array BY_MONTH i) 0 ;;
    iret (Some total).

Definition expand_year_days (y : Z) : it unit :=
  let days_in_year := get_days_in_year y in
  modify (set_days daysmask_clearall) ;;;
  i <- get ;;
  modify (set_period_start (occurrence_as_icaltime false i)) ;;;
  base <- expand_year_base y days_in_year ;;
  match base with
  | None => iret tt
  | Some set_pos_total =>
      set_pos_total <- (if has_by_data BY_DAY i then
          let limiting := has_by_data BY_YEAR_DAY i || has_by_data BY_MONTH_DAY i in
          modify (set_days_index ICAL_YEARDAYS_MASK_SIZE) ;;;
          (if has_by_data BY_MONTH i then
             ifold (fun total m =>
               '(doy1, first_dow) <- opt (get_day_of_year i y m 1) ;;
               days_in_month <- opt (get_days_in_month m y) ;;
               '(_, last_dow) <- opt (get_day_of_year i y m days_in_month) ;;
               n <- expand_by_day y (doy1 - 1) days_in_month first_dow last_dow limiting ;;
               iret (total + n)) (by_array BY_MONTH i) 0
           else
             '(_, first_dow) <- opt (get_day_of_year i y 1 1) ;;
             set_day_of_year days_in_year ;;;
             j <- get ;;
             expand_by_day y 0 days_in_year first_dow (get_day_of_week j) limiting)
        else iret set_pos_total) ;;
      if has_by_data BY_SET_POS i then filter_bysetpos set_pos_total 1 days_in_year else iret tt
  end.

Definition __next_month (fuel : nat) (inc : Z) : it unit :=
  increment_month fuel inc ;;;
  i <- get ;;
  expand_month_days (year (last i)) (month (last i)).

Definition __next_year (inc : Z) : it unit :=
  increment_year inc ;;;
  i <- get ;;
  expand_year_days (year (last i)).

(** ** Days of a year *)

Fixpoint seek_period (fuel : nat) (next_period : Z -> it unit) : it unit :=
  match fuel with
  | O => undefined
  | S k =>
      i <- get ;;
      next_period (interval (rule i)) ;;;
      i <- get ;;
      if days_index i <? ICAL_YEARDAYS_MASK_SIZE then iret tt else seek_period k next_period
  end.

(** Moves to the day of the index, which may be in the year before. *)
Definition go_to_index : it unit :=
  i <- get ;;
  (if days_index i <? 0 then increment_year (-1) else iret tt) ;;;
  set_day_of_year (days_index i).

Definition next_yearday (fuel : nat) (next_period : Z -> it unit) : it Z :=
  sub <- next_hour ;;
  if sub =? 0 then iret 0
  else
    reset_period_start ;;;
    i <- get ;;
    idx <- opt (daymask_find_next_bit (days i) (days_index i)) ;;
    modify (set_days_index idx) ;;;
    (if ICAL_YEARDAYS_MASK_SIZE <=? idx then seek_period fuel next_period else iret tt) ;;;
    go_to_index ;;;
    iret 1.

Fixpoint seek_period_back (fuel : nat) (next_period : Z -> it unit) : it unit :=
  match fuel with
  | O => undefined
  | S k =>
      i <- get ;;
      if days_index i <=? - ICAL_YEARDAYS_MASK_OFFSET then
        next_period (- interval (rule i)) ;;;
        i <- get ;;
        idx <- opt (daymask_find_prev_bit (days i) ICAL_YEARDAYS_MASK_SIZE) ;;
        modify (set_days_index idx) ;;;
        seek_period_back k next_period
      else iret tt
  end.

Definition prev_yearday (fuel : nat) (next_period : Z -> it unit) : it Z :=
  sub <- prev_hour ;;
  if sub =? 0 then iret 0
  else
    reset_period_start ;;;
    i <- get ;;
    idx <- opt (daymask_find_prev_bit (days i) (days_index i)) ;;
    modify (set_days_index idx) ;;;
    seek_period_back fuel next_period ;;;
    go_to_index ;;;
    iret 1.

Definition next_month (fuel : nat) : it Z := next_yearday fuel (__next_month fuel).
Definition prev_month (fuel : nat) : it Z := prev_yearday fuel (__next_month fuel).
Definition next_year (fuel : nat) : it Z := next_yearday fuel __next_year.
Definition prev_year (fuel : nat) : it Z := prev_yearday fuel __next_year.

(** ** Weeks *)

(** The offset of a BYDAY value from the week start. *)
Definition dow_offset (v : Z) (i : icalrecur_iterator) : Z :=
  let dow := icalrecurrencetype_day_day_of_week v - week_start (rule i) in
  if dow <? 0 then dow + 7 else dow.

(** The loop over the BYDAY values: those in the year before are passed over,
    unless the array has just wrapped around. *)
Fixpoint seek_weekday (fuel : nat) (end_of_data : Z) : it Z :=
  match fuel with
  | O => undefined
  | S k =>
      i <- get ;;
      let n := by_indices i BY_DAY + 1 in
      let '(n, end_of_data) :=
        match by_at BY_DAY n i with Some _ => (n, end_of_data) | None => (0, 1) end in
      modify (set_index BY_DAY n) ;;;
      v <- opt (by_at BY_DAY n i) ;;
      let dow := dow_offset v i in
      let start_of_week := get_start_of_week i in
      if dow + start_of_week <? 1 then
        if end_of_data =? 0 then seek_weekday k end_of_data
        else
          increment_year (-1) ;;;
          set_day_of_year (start_of_week - 1 + dow) ;;;
          iret end_of_data
      else set_day_of_year (start_of_week + dow) ;;; iret end_of_data
  end.

Definition next_weekday_by_week : it Z :=
  sub <- next_hour ;;
  if sub =? 0 then iret 0
  else
    i <- get ;;
    if negb (has_by_data BY_DAY i) then iret 1
    else seek_weekday (S (length (by_array BY_DAY i))) 0.

Definition next_week : it Z :=
  r <- next_weekday_by_week ;;
  if r =? 0 then iret 0
  else
    i <- get ;;
    increment_monthday (7 * interval (rule i)) ;;; iret 0.

Definition prev_weekday_by_week : it Z :=
  sub <- prev_hour ;;
  if sub =? 0 then iret 0
  else
    i <- get ;;
    if negb (has_by_data BY_DAY i) then iret 1
    else
      let n := by_indices i BY_DAY - 1 in
      let '(n, end_of_data) :=
        if n <? 0 then (icalrecur_iterator_sizeof_byarray (by_array BY_DAY i) - 1, 1) else (n, 0) in
      modify (set_index BY_DAY n) ;;;
      v <- opt (by_at BY_DAY n i) ;;
      let dow := dow_offset v i in
      let start_of_week := get_start_of_week i in
      (if dow + start_of_week <? 1
       then increment_year (-1) ;;; set_day_of_year (start_of_week - 1 + dow)
       else set_day_of_year (start_of_week + dow)) ;;;
      iret end_of_data.

Definition prev_week : it Z :=
  r <- prev_weekday_by_week ;;
  if r =? 0 then iret 0
  else
    i <- get ;;
    increment_monthday (7 * - interval (rule i)) ;;; iret 0.

(** ** Contracting rules *)

Definition icalrecur_check_rulepart (i : icalrecur_iterator) (v : Z) (b : byrule) : bool :=
  existsb (Z.eqb v) (by_array b i).

Definition check_contract_restriction (i : icalrecur_iterator) (b : byrule) (v : Z) : bool :=
  if negb (is_empty (by_array b i)) && is_contract (expand_map (freq (rule i)) b)
  then existsb (Z.eqb v) (by_array b i)
  else true.

Definition check_contracting_rules (i : icalrecur_iterator) : option bool :=
  let l := occurrence_as_icaltime false i in
  let week_no := get_week_number i l in
  let* (year_day, day_of_week) := get_day_of_year i (year l) (month l) (day l) in
  Some (check_contract_restriction i BY_SECOND (second l)
        && check_contract_restriction i BY_MINUTE (minute l)
        && check_contract_restriction i BY_HOUR (hour l)
        && check_contract_restriction i BY_DAY day_of_week
        && check_contract_restriction i BY_WEEK_NO week_no
        && check_contract_restriction i BY_MONTH_DAY (day l)
        && check_contract_restriction i BY_MONTH (month l)
        && check_contract_restriction i BY_YEAR_DAY year_day).

(** ** Stepping *)

Section WithTimezones.
Context `{TZ : TimezoneConv}.

(** The [switch] on the frequency; [false] in its default case. *)
Definition step_next (fuel : nat) : it bool :=
  i <- get ;;
  match freq (rule i) with
  | ICAL_SECONDLY_RECURRENCE => next_second ;;; iret true
  | ICAL_MINUTELY_RECURRENCE => next_minute ;;; iret true
  | ICAL_HOURLY_RECURRENCE => next_hour ;;; iret true
  | ICAL_DAILY_RECURRENCE => next_day ;;; iret true
  | ICAL_WEEKLY_RECURRENCE => next_week ;;; iret true
  | ICAL_MONTHLY_RECURRENCE => next_month fuel ;;; iret true
  | ICAL_YEARLY_RECURRENCE => next_year fuel ;;; iret true
  | ICAL_NO_RECURRENCE => lift (icalerror_set_errno ICAL_MALFORMEDDATA_ERROR) ;;; iret false
  end.

Definition step_prev (fuel : nat) : it bool :=
  i <- get ;;
  match freq (rule i) with
  | ICAL_SECONDLY_RECURRENCE => prev_second ;;; iret true
  | ICAL_MINUTELY_RECURRENCE => prev_minute ;;; iret true
  | ICAL_HOURLY_RECURRENCE => prev_hour ;;; iret true
  | ICAL_DAILY_RECURRENCE => prev_day ;;; iret true
  | ICAL_WEEKLY_RECURRENCE => prev_week ;;; iret true
  | ICAL_MONTHLY_RECURRENCE => prev_month fuel ;;; iret true
  | ICAL_YEARLY_RECURRENCE => prev_year fuel ;;; iret true
  | ICAL_NO_RECURRENCE => lift (icalerror_set_errno ICAL_MALFORMEDDATA_ERROR) ;;; iret false
  end.

Definition normalize_last : it unit :=
  modify (fun i => set_last (occurrence_as_icaltime true i) i).

Definition past_until (i : icalrecur_iterator) : bool :=
  negb (icaltime_is_null_time (until (rule i)))
  && (0 <? icaltime_compare (last i) (until (rule i))).

Definition past_end (i : icalrecur_iterator) : bool :=
  (MAX_TIME_T_YEAR <? year (last i)) || past_until i
  || (negb (icaltime_is_null_time (iend i)) && (0 <=? icaltime_compare (last i) (iend i))).

(** The do-while loop of [icalrecur_iterator_next]. *)
Fixpoint next_loop (fuel : nat) (k : nat) : it icaltimetype :=
  match k with
  | O => undefined
  | S k =>
      ok <- step_next fuel ;;
      if negb ok then iret icaltime_null_time
      else
        normalize_last ;;;
        i <- get ;;
        if past_end i then iret icaltime_null_time
        else
          again <- (if icaltime_compare (last i) (istart i) <? 0 then iret true
                    else c <- opt (check_contracting_rules i) ;; iret (negb c)) ;;
          if (again : bool) then next_loop fuel k
          else modify (set_occurrence_no (occurrence_no i + 1)) ;;; iret (last i)
  end.

Definition icalrecur_iterator_next (fuel : nat) : it icaltimetype :=
  i <- get ;;
  if (negb (count (rule i) =? 0) && (count (rule i) <=? occurrence_no i)) || past_until i
  then iret icaltime_null_time
  else
    first <- (if (occurrence_no i =? 0) && (0 <=? icaltime_compare (last i) (istart i))
              then opt (check_contracting_rules i) else iret false) ;;
    if (first : bool)
    then modify (set_occurrence_no (occurrence_no i + 1)) ;;; iret (last i)
    else next_loop fuel fuel.

Definition before_start (i : icalrecur_iterator) : bool :=
  (icaltime_compare (last i) (dtstart i) <? 0)
  || (negb (icaltime_is_null_time (istart i)) && (icaltime_compare (last i) (istart i) <? 0)).

(** The do-while loop of [icalrecur_iterator_prev]. *)
Fixpoint prev_loop (fuel : nat) (k : nat) : it icaltimetype :=
  match k with
  | O => undefined
  | S k =>
      ok <- step_prev fuel ;;
      if negb ok then iret icaltime_null_time
      else
        normalize_last ;;;
        i <- get ;;
        if before_start i then iret icaltime_null_time
        else
          again <- (if (MAX_TIME_T_YEAR <? year (last i)) || past_until i
                       || (negb (icaltime_is_null_time (iend i))
                           && (0 <? icaltime_compare (last i) (iend i)))
                    then iret true
                    else c <- opt (check_contracting_rules i) ;; iret (negb c)) ;;
          if (again : bool) then prev_loop fuel k
          else modify (set_occurrence_no (occurrence_no i - 1)) ;;; iret (last i)
  end.

Definition icalrecur_iterator_prev (fuel : nat) : it icaltimetype :=
  i <- get ;;
  if icaltime_compare (last i) (dtstart i) <? 0 then iret icaltime_null_time
  else prev_loop fuel fuel.

(** ** Starting *)

Definition setup_defaults (b : byrule) (deftime : Z) : it unit :=
  modify (fun i =>
    if is_expand (expand_map (freq (rule i)) b) && is_empty (by_array b i)
    then set_rule (set_by b [to_short deftime] (rule i)) i else i).

(** The loop that looks for the first year with a matching day; [false] on an
    error. *)
Fixpoint first_year (fuel : nat) : it bool :=
  match fuel with
  | O => undefined
  | S k =>
      i <- get ;;
      if year (last i) <? 20000 then
        expand_year_days (year (last i)) ;;;
        e <- lift get_icalerrno ;;
        if negb (if icalerrorenum_eq_dec e ICAL_NO_ERROR then true else false)
        then lift (icalerror_set_errno ICAL_MALFORMEDDATA_ERROR) ;;; iret false
        else
          i <- get ;;
          if days_index i <? ICAL_YEARDAYS_MASK_SIZE then iret true
          else increment_year (interval (rule i)) ;;; first_year k
      else iret true
  end.

Fixpoint first_month (fuel k : nat) : it unit :=
  match k with
  | O => undefined
  | S k =>
      i <- get ;;
      if year (last i) <? 20000 then
        expand_month_days (year (last i)) (month (last i)) ;;;
        i <- get ;;
        if days_index i <? ICAL_YEARDAYS_MASK_SIZE then iret tt
        else increment_month fuel (interval (rule i)) ;;; first_month fuel k
      else iret tt
  end.

Definition start_yearly (fuel : nat) : it bool :=
  i <- get ;;
  let iv := interval (rule i) in
  let diff := Z.rem (year (istart i) - year (rstart i)) iv in
  (if (1 <? iv) && negb (diff =? 0)
   then set_day_of_year 1 ;;; increment_year (iv - diff) else iret tt) ;;;
  ok <- first_year fuel ;;
  if negb ok then iret false
  else i <- get ;; set_day_of_year (days_index i) ;;; iret true.

Definition start_monthly (fuel : nat) : it bool :=
  i <- get ;;
  let iv := interval (rule i) in
  let diff := Z.rem (__greg_month_diff (rstart i) (istart i)) iv in
  (if (1 <? iv) && negb (diff =? 0)
   then increment_monthday (- day (istart i) + 1) ;;; __increment_month (iv - diff)
   else iret tt) ;;;
  first_month fuel fuel ;;;
  i <- get ;; set_day_of_year (days_index i) ;;; iret true.

Definition start_weekly (start : icaltimetype) : it bool :=
  i <- get ;;
  if is_empty (by_array BY_DAY i)
  then modify (fun i => set_rule (set_by BY_DAY [to_short (get_day_of_week i)] (rule i)) i) ;;;
       iret true
  else
    adjust_to_byday ;;;
    i <- get ;;
    (if icaltime_compare start (dtstart i) =? 0
     then modify (set_rstart (occurrence_as_icaltime false i)) else iret tt) ;;;
    i <- get ;;
    let iv := interval (rule i) in
    if 1 <? iv then
      days <- opt (__day_diff i (rstart i) (occurrence_as_icaltime false i)) ;;
      let diff := Z.quot (days + 6) 7 in
      (if negb (Z.rem diff iv =? 0) then increment_monthday (7 * (iv - diff)) else iret tt) ;;;
      iret true
    else iret true.

Definition start_daily : it bool :=
  i <- get ;;
  let iv := interval (rule i) in
  if 1 <? iv then
    days <- opt (__day_diff i (rstart i) (istart i)) ;;
    let diff := Z.rem days iv in
    (if negb (diff =? 0) then increment_monthday (iv - diff) else iret tt) ;;;
    iret true
  else iret true.

Definition __iterator_set_start (fuel : nat) (start : icaltimetype) : it bool :=
  modify (set_istart start) ;;;
  modify (set_occurrence_no 0) ;;;
  modify (set_days_index ICAL_YEARDAYS_MASK_SIZE) ;;;
  set_datetime start ;;;
  i <- get ;;
  ok <- match freq (rule i) with
        | ICAL_YEARLY_RECURRENCE => start_yearly fuel
        | ICAL_MONTHLY_RECURRENCE => start_monthly fuel
        | ICAL_WEEKLY_RECURRENCE => start_weekly start
        | ICAL_DAILY_RECURRENCE => start_daily
        | _ => iret true
        end ;;
  if negb ok then iret false
  else
    normalize_last ;;;
    i <- get ;;
    if MAX_TIME_T_YEAR <? year (last i)
    then lift (icalerror_set_errno ICAL_MALFORMEDDATA_ERROR) ;;; iret false
    else iret true.

(** DTSTART is a sane value. *)
Definition dtstart_ok (ds : icaltimetype) : bool :=
  icaltime_is_valid_time ds
  && (0 <=? year ds) && (year ds <=? MAX_TIME_T_YEAR)
  && (1 <=? month ds) && (month ds <=? 12)
  && (1 <=? day ds) && (day ds <=? icaltime_days_in_month (month ds) (year ds))
  && (truthy (is_date ds)
      || ((0 <=? hour ds) && (hour ds <=? 23) && (0 <=? minute ds) && (minute ds <=? 59)
          && (0 <=? second ds) && (second ds <=? 59))).

Definition byrules : list byrule :=
  [BY_SECOND; BY_MINUTE; BY_HOUR; BY_DAY; BY_MONTH_DAY; BY_YEAR_DAY; BY_WEEK_NO; BY_MONTH;
   BY_SET_POS].

Definition rule_legal (r : icalrecurrencetype) : bool :=
  forallb (fun b => negb (is_illegal (expand_map (freq r) b) && negb (is_empty (by_ptr b r)))) byrules.

(** The iterator after [memset] and the assignments that follow. *)
Definition fresh_iterator (r : icalrecurrencetype) (ds : icaltimetype) : icalrecur_iterator :=
  Iterator ds r icaltime_null_time icaltime_null_time icaltime_null_time icaltime_null_time 0
    icaltime_null_time daysmask_clearall 0 (fun _ => 0) (fun b => negb (is_empty (by_ptr b r))).

(** The rest of [icalrecur_iterator_new], on the fresh iterator. *)
Definition init_iterator (fuel : nat) : it bool :=
  supported <- initialize_rscale ;;
  if negb supported then iret false
  else
    i <- get ;;
    setup_defaults BY_SECOND (second (rstart i)) ;;;
    setup_defaults BY_MINUTE (minute (rstart i)) ;;;
    setup_defaults BY_HOUR (hour (rstart i)) ;;;
    setup_defaults BY_MONTH_DAY (day (rstart i)) ;;;
    setup_defaults BY_MONTH (month (rstart i)) ;;;
    __iterator_set_start fuel (dtstart i).

(** [None] inside: the null pointer. *)
Definition icalrecur_iterator_new (fuel : nat) (r : icalrecurrencetype) (ds : icaltimetype)
  : err (option icalrecur_iterator) :=
  fun st =>
    match icalerror_clear_errno st with
    | None => None
    | Some (_, st) =>
        let refuse := match icalerror_set_errno ICAL_MALFORMEDDATA_ERROR st with
                      | Some (_, st) => Some (None, st)
                      | None => None
                      end in
        if freq_eqb (freq r) ICAL_NO_RECURRENCE || negb (dtstart_ok ds) || negb (rule_legal r)
        then refuse
        else
          match init_iterator fuel (fresh_iterator r ds) st with
          | Some (true, i, st) => Some (Some i, st)
          | Some (false, _, st) => Some (None, st)
          | None => None
          end
    end.

Definition icalrecur_iterator_set_start (fuel : nat) (start : icaltimetype) : it bool :=
  i <- get ;;
  if 0 <? count (rule i)
  then lift (icalerror_set_errno ICAL_MALFORMEDDATA_ERROR) ;;; iret false
  else
    let start := icaltime_convert_to_zone start (zone (dtstart i)) in
    if icaltime_compare start (dtstart i) <? 0 then __iterator_set_start fuel (dtstart i)
    else if negb (icaltime_is_null_time (until (rule i)))
            && (0 <? icaltime_compare start (until (rule i)))
    then modify (set_last start) ;;; iret true
    else __iterator_set_start fuel start.

Definition icalrecur_iterator_set_end (end_ : icaltimetype) : it bool :=
  modify (fun i => set_iend (icaltime_convert_to_zone end_ (zone (dtstart i))) i) ;;; iret true.

(** The loop that moves past [from]. *)
Fixpoint pass_from (fuel k : nat) (from : icaltimetype) : it unit :=
  match k with
  | O => undefined
  | S k =>
      i <- get ;;
      if icaltime_compare (last i) from <? 0
      then icalrecur_iterator_next fuel ;;; pass_from fuel k from
      else iret tt
  end.

Definition set_reverse_range (fuel : nat) (from to : icaltimetype) : it bool :=
  ok <- __iterator_set_start fuel from ;;
  if negb ok then iret false
  else
    pass_from fuel fuel from ;;;
    i <- get ;;
    let to := icaltime_convert_to_zone to (zone (dtstart i)) in
    let to := if icaltime_compare to (dtstart i) <? 0 then dtstart i else to in
    modify (set_istart to) ;;; modify (set_iend from) ;;; modify (set_days_index 0) ;;;
    iret true.

Definition icalrecur_iterator_set_range (fuel : nat) (from to : icaltimetype) : it bool :=
  i <- get ;;
  if (0 <? count (rule i)) || icaltime_is_null_time from
  then lift (icalerror_set_errno ICAL_MALFORMEDDATA_ERROR) ;;; iret false
  else if negb (icaltime_is_null_time to) && (icaltime_compare to from <? 0) then
    let from := icaltime_convert_to_zone from (zone (dtstart i)) in
    if 0 <? icaltime_compare from (until (rule i))
    then set_reverse_range fuel (until (rule i)) to
    else if icaltime_compare from (dtstart i) <? 0
    then modify (set_last from) ;;; iret true
    else set_reverse_range fuel from to
  else
    ok <- icalrecur_iterator_set_start fuel from ;;
    if negb ok then iret false
    else icalrecur_iterator_set_end to ;;; iret true.

(** The times of the loop of [icalrecur_expand_recurrence]: at most [count] of
    them, in the order of the array. *)
Fixpoint expand_loop (fuel k : nat) (start : Z) (room : nat) : it (list Z) :=
  match k with
  | O => undefined
  | S k =>
      next <- icalrecur_iterator_next fuel ;;
      match room with
      | O => iret []
      | S room' =>
          if icaltime_is_null_time next then iret []
          else
            let tt := icaltime_as_timet next in
            if start <=? tt
            then rest <- expand_loop fuel k start room' ;; iret (tt :: rest)
            else expand_loop fuel k start room
      end
  end.

(** The contents of the array: the times found, zeros after them. *)
Definition icalrecur_expand_recurrence (fuel : nat) (str : cstring) (start : Z) (n : nat)
  : err (list Z) :=
  fun st =>
    let icstart := icaltime_from_timet_with_zone start 0 ZONE_NULL in
    match icalrecurrencetype_from_string (Some str) st with
    | None => None
    | Some (recur, st) =>
        match icalrecur_iterator_new fuel recur icstart st with
        | None => None
        | Some (None, st) => Some (repeat 0 n, st)
        | Some (Some ritr, st) =>
            match expand_loop fuel fuel start n ritr st with
            | None => None
            | Some (l, _, st) => Some (l ++ repeat 0 (n - length l), st)
            end
        end
    end.

End WithTimezones.
