(* ===== verification/IcalRecurSound.v ===== *)
(** * What the recurrence iterator returns

    The steps of the iterator change only the current time, the bitmask and the
    indices: the rule, DTSTART, the range and the count are a frame every
    operation keeps.  With it, the times that [icalrecur_iterator_next] and
    [icalrecur_iterator_prev] return are shown to respect the rule parts that
    limit the recurrence set: COUNT, UNTIL, the range and the contracting BY
    parts. *)
From Stdlib Require Import String Ascii ZArith Lia Bool List.
From S2P Require Import Prelude CString IcalError CalDate IcalTime IcalTimeCalendar IcalRecurType IcalRecurMask IcalRecurIter.
Import ListNotations.
#[local] Open Scope Z_scope.
#[local] Open Scope it_scope.

(** ** The frame *)

Definition frame (i j : icalrecur_iterator) : Prop :=
  dtstart j = dtstart i /\ rule j = rule i /\ rstart j = rstart i /\ istart j = istart i /\
  iend j = iend i /\ occurrence_no j = occurrence_no i /\ orig_data j = orig_data i.

#[export] Instance frame_preorder : RelationClasses.PreOrder frame.
Proof.
  split; [intros i; repeat split|].
  intros i j k (a1 & b1 & c1 & d1 & e1 & f1 & g1) (a2 & b2 & c2 & d2 & e2 & f2 & g2).
  repeat split; congruence.
Qed.

(** A computation that keeps a preorder between the iterators before and
    after it. *)
Definition keeps_in (R : icalrecur_iterator -> icalrecur_iterator -> Prop) {A} (m : it A) : Prop :=
  forall i st a j st', m i st = Some (a, j, st') -> R i j.

Notation keeps := (keeps_in frame).

Section Combinators.
Context {R : icalrecur_iterator -> icalrecur_iterator -> Prop} {PO : RelationClasses.PreOrder R}.
Context {A B : Type}.

Lemma keeps_iret (a : A) : keeps_in R (iret a).
Proof. intros i st b j st' H. injection H as <- <- <-. reflexivity. Qed.

Lemma keeps_bind (m : it A) (k : A -> it B) :
  keeps_in R m -> (forall a, keeps_in R (k a)) -> keeps_in R (ibind m k).
Proof.
  intros Hm Hk i st b j st' H. unfold ibind in H.
  destruct (m i st) as [[[a i1] st1]|] eqn:E; [|discriminate].
  transitivity i1; [exact (Hm _ _ _ _ _ E) | exact (Hk _ _ _ _ _ _ H)].
Qed.

Lemma keeps_lift (m : err A) : keeps_in R (lift m).
Proof.
  intros i st a j st' H. unfold lift in H. destruct (m st) as [[x s]|]; [|discriminate].
  injection H as <- <- <-. reflexivity.
Qed.

Lemma keeps_opt (o : option A) : keeps_in R (opt o).
Proof. destruct o; [apply keeps_iret | intros ? ? ? ? ? H; discriminate H]. Qed.

Lemma keeps_undefined : keeps_in R (@undefined A).
Proof. intros ? ? ? ? ? H; discriminate H. Qed.

Lemma keeps_get : keeps_in R get.
Proof. intros i st b j st' H. injection H as <- <- <-. reflexivity. Qed.

Lemma keeps_modify f : (forall i, R i (f i)) -> keeps_in R (modify f).
Proof. intros Hf i st b j st' H. injection H as <- <- <-. apply Hf. Qed.
End Combinators.

Lemma keeps_ifold {R} {PO : RelationClasses.PreOrder R} {A S} (f : S -> A -> it S) l :
  (forall s x, keeps_in R (f s x)) -> forall s, keeps_in R (ifold f l s).
Proof.
  intros Hf. induction l as [|x r IH]; intros s; cbn; [apply keeps_iret | apply keeps_bind]; auto.
Qed.

#[export] Hint Extern 0 (keeps_in _ _) =>
  first [apply keeps_iret | apply keeps_lift | apply keeps_opt | apply keeps_undefined
        | apply keeps_get] : ical.

(** Walks through a computation: binds, tests and matches. *)
Ltac keeps_tac :=
  repeat first
    [ solve [auto with ical]
    | apply keeps_modify; intros; try (repeat split; fail)
    | apply keeps_bind; [| intros ?]
    | apply keeps_ifold; intros
    | match goal with
      | |- keeps_in _ (if ?b then _ else _) => destruct b
      | |- keeps_in _ (match ?x with _ => _ end) => destruct x
      | |- keeps_in _ (let '(_, _) := ?x in _) => destruct x
      | |- _ _ (if ?b then _ else _) => destruct b
      end ].

Lemma keeps_upd_last f : keeps (upd_last f).
Proof. unfold upd_last. keeps_tac. Qed.
#[export] Hint Resolve keeps_upd_last : ical.

(** ** The steps keep the frame *)

Lemma keeps_next_unit b f sub set inc sup :
  (forall m, sub = Some m -> keeps m) -> (forall v, keeps (set v)) -> (forall v, keeps (inc v)) ->
  (forall v, keeps (sup v)) -> keeps (next_unit b f sub set inc sup).
Proof. intros Hs H1 H2 H3. unfold next_unit. destruct sub; cbn; keeps_tac. Qed.

Lemma keeps_prev_unit b f sub set inc sup :
  (forall m, sub = Some m -> keeps m) -> (forall v, keeps (set v)) -> (forall v, keeps (inc v)) ->
  (forall v, keeps (sup v)) -> keeps (prev_unit b f sub set inc sup).
Proof. intros Hs H1 H2 H3. unfold prev_unit. destruct sub; cbn; keeps_tac. Qed.

Ltac unit_tac :=
  first [apply keeps_next_unit | apply keeps_prev_unit];
  [intros ? [= <-]; auto with ical | intros; try apply keeps_upd_last; keeps_tac ..].

Lemma keeps_next_second : keeps next_second.
Proof. unfold next_second. apply keeps_next_unit; [discriminate | intros; apply keeps_upd_last ..]. Qed.
#[export] Hint Resolve keeps_next_second : ical.
Lemma keeps_next_minute : keeps next_minute.
Proof. unfold next_minute. unit_tac. Qed.
#[export] Hint Resolve keeps_next_minute : ical.
Lemma keeps_next_hour : keeps next_hour.
Proof. unfold next_hour. unit_tac. Qed.
#[export] Hint Resolve keeps_next_hour : ical.
Lemma keeps_next_day : keeps next_day.
Proof. unfold next_day. unit_tac. Qed.

Lemma keeps_prev_second : keeps prev_second.
Proof. unfold prev_second. apply keeps_prev_unit; [discriminate | intros; apply keeps_upd_last ..]. Qed.
#[export] Hint Resolve keeps_prev_second : ical.
Lemma keeps_prev_minute : keeps prev_minute.
Proof. unfold prev_minute. unit_tac. Qed.
#[export] Hint Resolve keeps_prev_minute : ical.
Lemma keeps_prev_hour : keeps prev_hour.
Proof. unfold prev_hour. unit_tac. Qed.
#[export] Hint Resolve keeps_prev_hour : ical.
Lemma keeps_prev_day : keeps prev_day.
Proof. unfold prev_day. unit_tac. Qed.
#[export] Hint Resolve keeps_next_day keeps_prev_day : ical.

Lemma keeps_setbit n v : keeps (setbit n v).
Proof. unfold setbit. keeps_tac. Qed.
Lemma keeps_getbit n : keeps (getbit n).
Proof. unfold getbit. keeps_tac. Qed.
Lemma keeps_lower_index n : keeps (lower_index n).
Proof. unfold lower_index. keeps_tac. Qed.
#[export] Hint Resolve keeps_setbit keeps_getbit keeps_lower_index : ical.

Lemma keeps_mark_day d t : keeps (mark_day d t).
Proof. unfold mark_day. keeps_tac. Qed.
#[export] Hint Resolve keeps_mark_day : ical.

Lemma keeps_expand_bymonth_days y m : keeps (expand_bymonth_days y m).
Proof. unfold expand_bymonth_days, bymonthday_step. keeps_tac. Qed.
Lemma keeps_expand_by_day y o l f t b : keeps (expand_by_day y o l f t b).
Proof. unfold expand_by_day, byday_step. keeps_tac. Qed.
Lemma keeps_filter_bysetpos p a b : keeps (filter_bysetpos p a b).
Proof. unfold filter_bysetpos, bysetpos_step. keeps_tac. Qed.
#[export] Hint Resolve keeps_expand_bymonth_days keeps_expand_by_day keeps_filter_bysetpos : ical.

Lemma keeps_set_month v : keeps (set_month v).
Proof. unfold set_month. keeps_tac. Qed.
#[export] Hint Resolve keeps_set_month : ical.

Lemma keeps_expand_month_days y m : keeps (expand_month_days y m).
Proof. unfold expand_month_days. keeps_tac. Qed.
Lemma keeps_expand_year_base y d : keeps (expand_year_base y d).
Proof. unfold expand_year_base. keeps_tac. Qed.
#[export] Hint Resolve keeps_expand_month_days keeps_expand_year_base : ical.
Lemma keeps_expand_year_days y : keeps (expand_year_days y).
Proof. unfold expand_year_days, set_day_of_year. keeps_tac. Qed.
#[export] Hint Resolve keeps_expand_year_days : ical.

Lemma keeps_seek_month fuel inc : keeps (seek_month fuel inc).
Proof. induction fuel; cbn; unfold __increment_month; keeps_tac. Qed.
#[export] Hint Resolve keeps_seek_month : ical.
Lemma keeps_increment_month fuel inc : keeps (increment_month fuel inc).
Proof. unfold increment_month, __increment_month. keeps_tac. Qed.
#[export] Hint Resolve keeps_increment_month : ical.
Lemma keeps___next_month fuel inc : keeps (__next_month fuel inc).
Proof. unfold __next_month. keeps_tac. Qed.
Lemma keeps___next_year inc : keeps (__next_year inc).
Proof. unfold __next_year, increment_year. keeps_tac. Qed.
#[export] Hint Resolve keeps___next_month keeps___next_year : ical.

Lemma keeps_set_datetime d : keeps (set_datetime d).
Proof. unfold set_datetime. keeps_tac. Qed.
#[export] Hint Resolve keeps_set_datetime : ical.

Lemma keeps_seek_period fuel f : (forall v, keeps (f v)) -> keeps (seek_period fuel f).
Proof. intros H. induction fuel; cbn; keeps_tac. Qed.
Lemma keeps_seek_period_back fuel f : (forall v, keeps (f v)) -> keeps (seek_period_back fuel f).
Proof. intros H. induction fuel; cbn; keeps_tac. Qed.
Lemma keeps_go_to_index : keeps go_to_index.
Proof. unfold go_to_index, increment_year, set_day_of_year. keeps_tac. Qed.
#[export] Hint Resolve keeps_seek_period keeps_seek_period_back keeps_go_to_index : ical.

Lemma keeps_next_yearday fuel f : (forall v, keeps (f v)) -> keeps (next_yearday fuel f).
Proof. intros H. unfold next_yearday, reset_period_start. keeps_tac. Qed.
Lemma keeps_prev_yearday fuel f : (forall v, keeps (f v)) -> keeps (prev_yearday fuel f).
Proof. intros H. unfold prev_yearday, reset_period_start. keeps_tac. Qed.

Lemma keeps_seek_weekday fuel e : keeps (seek_weekday fuel e).
Proof.
  revert e. induction fuel as [|k IH]; intros e; cbn; [keeps_tac|].
  apply keeps_bind; [keeps_tac|]. intros i. destruct (by_at BY_DAY (by_indices i BY_DAY + 1) i);
  unfold increment_year, set_day_of_year; keeps_tac.
Qed.
#[export] Hint Resolve keeps_next_yearday keeps_prev_yearday keeps_seek_weekday : ical.

Lemma keeps_next_week : keeps next_week.
Proof. unfold next_week, next_weekday_by_week, increment_monthday. keeps_tac. Qed.
Lemma keeps_prev_week : keeps prev_week.
Proof.
  unfold prev_week, prev_weekday_by_week, increment_monthday, increment_year, set_day_of_year.
  keeps_tac.
Qed.
#[export] Hint Resolve keeps_next_week keeps_prev_week : ical.

Lemma keeps_step_next fuel : keeps (step_next fuel).
Proof. unfold step_next, next_month, next_year. keeps_tac; auto with ical. Qed.
Lemma keeps_step_prev fuel : keeps (step_prev fuel).
Proof. unfold step_prev, prev_month, prev_year. keeps_tac; auto with ical. Qed.
Lemma keeps_normalize_last : keeps normalize_last.
Proof. unfold normalize_last. keeps_tac. Qed.

(** ** Contracting rules *)

(** The member of a time that a rule part is compared with. *)
Definition field (i : icalrecur_iterator) (b : byrule) (t : icaltimetype) : option Z :=
  match b with
  | BY_SECOND => Some (second t)
  | BY_MINUTE => Some (minute t)
  | BY_HOUR => Some (hour t)
  | BY_DAY => Some (icaltime_day_of_week t)
  | BY_MONTH_DAY => Some (day t)
  | BY_YEAR_DAY => Some (icaltime_day_of_year t)
  | BY_WEEK_NO => Some (get_week_number i t)
  | BY_MONTH => Some (month t)
  | BY_SET_POS => None
  end.

(** Every rule part that contracts lists the member of the time. *)
Definition contracted (i : icalrecur_iterator) (t : icaltimetype) : Prop :=
  forall b v, is_contract (expand_map (freq (rule i)) b) = true -> by_array b i <> [] ->
  field i b t = Some v -> In v (by_array b i).

Lemma check_contract_restriction_spec i b v :
  check_contract_restriction i b v = true ->
  is_contract (expand_map (freq (rule i)) b) = true -> by_array b i <> [] -> In v (by_array b i).
Proof.
  unfold check_contract_restriction. intros H Hc Hb. rewrite Hc in H.
  destruct (by_array b i) as [|x r]; [congruence|]. cbn [is_empty negb andb] in H.
  apply existsb_exists in H as (w & Hw & E). apply Z.eqb_eq in E. congruence.
Qed.

Lemma get_day_of_year_valid i y m d :
  valid_date y m d ->
  get_day_of_year i y m d =
  Some (icaltime_day_of_year (set_date (set_is_date (dtstart i) 1) y m d),
        icaltime_day_of_week (set_date (set_is_date (dtstart i) 1) y m d)).
Proof.
  intros [Hm Hd]. unfold get_day_of_year.
  destruct (Z.eqb_spec m 0); [lia|]. destruct (Z.ltb_spec m 1), (Z.ltb_spec 12 m); try lia.
  cbn [orb]. destruct (Z.eqb_spec d 0); [lia|]. destruct (Z.ltb_spec d 0); [lia | reflexivity].
Qed.

Lemma check_contracting_rules_spec i :
  normalized (last i) -> check_contracting_rules i = Some true -> contracted i (last i).
Proof.
  intros [Hv _] H b v Hc Hb Hf. unfold check_contracting_rules, occurrence_as_icaltime in H.
  rewrite get_day_of_year_valid in H by assumption. injection H as H. bools.
  destruct b; cbn in Hf; injection Hf as <- || discriminate;
    eapply check_contract_restriction_spec; eassumption.
Qed.

(** ** Times that are returned *)

Section WithTimezones.
Context `{TZ : TimezoneConv}.

(** The current time is a real one, within the years the iterator supports. *)
Definition ready (i : icalrecur_iterator) : Prop :=
  normalized (last i) /\ year (last i) <= MAX_TIME_T_YEAR.

Definition admissible (i : icalrecur_iterator) (t : icaltimetype) : Prop :=
  normalized t /\ year t <= MAX_TIME_T_YEAR /\
  0 <= icaltime_compare t (istart i) /\
  (icaltime_is_null_time (until (rule i)) = false -> icaltime_compare t (until (rule i)) <= 0) /\
  contracted i t.

Definition before_end (i : icalrecur_iterator) (t : icaltimetype) : Prop :=
  icaltime_is_null_time (iend i) = false -> icaltime_compare t (iend i) < 0.

(** The frame, less the count of the occurrences. *)
Definition same_rule (i j : icalrecur_iterator) : Prop :=
  dtstart j = dtstart i /\ rule j = rule i /\ rstart j = rstart i /\ istart j = istart i /\
  iend j = iend i /\ orig_data j = orig_data i.

Lemma frame_same_rule i j : frame i j -> same_rule i j.
Proof. intros (? & ? & ? & ? & ? & ? & ?). repeat split; assumption. Qed.

Lemma frame_set_occurrence i j n : frame i j -> same_rule i (set_occurrence_no n j).
Proof. intros (? & ? & ? & ? & ? & ? & ?). repeat split; assumption. Qed.

Lemma contracted_frame i j t : same_rule i j -> contracted j t -> contracted i t.
Proof.
  intros (Hd & Hr & _) H b v Hc Hb Hf. unfold by_array, contracted in *.
  rewrite <- Hr in *. apply (H b v Hc Hb). rewrite <- Hf. destruct b; try reflexivity.
  cbn. unfold get_week_number. rewrite Hr. reflexivity.
Qed.

Lemma admissible_frame i j t : same_rule i j -> admissible j t -> admissible i t.
Proof.
  intros F (Hn & Hy & Hs & Hu & Hc). pose proof (contracted_frame i j t F Hc).
  destruct F as (_ & Er & _ & Es & _). rewrite Er, Es in *.
  do 4 (split; [assumption|]). assumption.
Qed.

Lemma before_end_frame i j t : same_rule i j -> before_end j t -> before_end i t.
Proof. intros (_ & _ & _ & _ & Ee & _). unfold before_end. rewrite Ee. auto. Qed.

Lemma same_rule_trans i j k : same_rule i j -> same_rule j k -> same_rule i k.
Proof.
  intros (a1 & b1 & c1 & d1 & e1 & f1) (a2 & b2 & c2 & d2 & e2 & f2). repeat split; congruence.
Qed.

(** What the loop of [icalrecur_iterator_next] may do. *)
Definition loop_outcome (i : icalrecur_iterator) (t : icaltimetype) (j : icalrecur_iterator) : Prop :=
  same_rule i j /\
  (t = icaltime_null_time \/
   (t = last j /\ occurrence_no j = occurrence_no i + 1 /\ admissible i t /\ before_end i t)).

Lemma loop_outcome_frame i j t r : frame i j -> loop_outcome j t r -> loop_outcome i t r.
Proof.
  intros F [Hs H]. pose proof (frame_same_rule _ _ F) as Fs.
  split; [eapply same_rule_trans; eassumption|]. destruct F as (_ & _ & _ & _ & _ & Eo & _).
  destruct H as [H | (? & ? & ? & ?)]; [left; assumption | right].
  rewrite <- Eo. split; [assumption|]. split; [assumption|].
  split; [eapply admissible_frame | eapply before_end_frame]; eassumption.
Qed.

Lemma bind_some {A B} (m : it A) (k : A -> it B) i st r :
  ibind m k i st = Some r ->
  exists a j st', m i st = Some (a, j, st') /\ k a j st' = Some r.
Proof.
  unfold ibind. destruct (m i st) as [[[a j] st']|]; [|discriminate]. eauto.
Qed.

Ltac step_in H :=
  let a := fresh "a" in let j := fresh "j" in let s := fresh "s" in let E := fresh "E" in
  apply bind_some in H as (a & j & s & E & H).

(** One that returns at once: a test, [get] or [modify]. *)
Ltac skip_in H :=
  let E := fresh "E" in apply bind_some in H as (? & ? & ? & E & H); injection E as <- <- <-.

(** A time that passes the tests at the end of the loop. *)
Lemma not_past_end_admissible i :
  normalized (last i) -> past_end i = false -> (icaltime_compare (last i) (istart i) <? 0) = false ->
  check_contracting_rules i = Some true ->
  admissible i (last i) /\ before_end i (last i).
Proof.
  intros Hn Hp Hs Hc. pose proof (check_contracting_rules_spec i Hn Hc) as Hr.
  unfold past_end, past_until in Hp. bools. split.
  - split; [exact Hn|]. split; [lia|]. split; [lia|]. split; [|exact Hr].
    intros Hu. rewrite Hu in *. cbn [negb andb] in *. lia.
  - intros He. rewrite He in *. cbn [negb andb] in *. lia.
Qed.

Lemma next_loop_sound fuel k i st t j st' :
  next_loop fuel k i st = Some (t, j, st') -> loop_outcome i t j.
Proof.
  revert i st. induction k as [|k IH]; intros i st H; [discriminate|].
  cbn [next_loop] in H. step_in H. pose proof (keeps_step_next _ _ _ _ _ _ E) as F.
  destruct a; cbn [negb] in H.
  2:{ injection H as <- <- <-. split; [auto using frame_same_rule | auto]. }
  do 2 skip_in H. set (i1 := set_last _ _) in *.
  assert (frame i i1) as F1 by (etransitivity; [exact F | repeat split]).
  assert (normalized (last i1)) as Hn by apply adjust_spec.
  destruct (past_end i1) eqn:Ep.
  { injection H as <- <- <-. split; [auto using frame_same_rule | auto]. }
  destruct (icaltime_compare (last i1) (istart i1) <? 0) eqn:Es.
  { skip_in H. eauto using loop_outcome_frame. }
  destruct (check_contracting_rules i1) as [c|] eqn:Ec; [|discriminate].
  skip_in H. destruct c; cbn [negb] in H; [|eauto using loop_outcome_frame].
  injection H as <- <- <-. apply (loop_outcome_frame _ i1); [exact F1|].
  split; [repeat split|]. right.
  destruct (not_past_end_admissible i1 Hn Ep Es Ec). auto.
Qed.

(** What a call of [icalrecur_iterator_next] may do. *)
Definition next_outcome (i : icalrecur_iterator) (t : icaltimetype) (j : icalrecur_iterator) : Prop :=
  same_rule i j /\
  (t = icaltime_null_time \/
   (t = last j /\ ready j /\ occurrence_no j = occurrence_no i + 1 /\ admissible i t /\
    (count (rule i) <> 0 -> occurrence_no j <= count (rule i)) /\
    (occurrence_no i <> 0 -> before_end i t))).

Lemma next_sound fuel i st t j st' :
  ready i -> icalrecur_iterator_next fuel i st = Some (t, j, st') -> next_outcome i t j.
Proof.
  intros [Hn Hy] H. unfold icalrecur_iterator_next in H. skip_in H.
  destruct (_ || past_until i) eqn:Eq.
  { injection H as <- <- <-. split; [repeat split | auto]. }
  assert (count (rule i) <> 0 -> occurrence_no i + 1 <= count (rule i)) as Hcount.
  { bools. intros Hc. destruct (Z.eqb_spec (count (rule i)) 0); [congruence|]. cbn [negb andb] in *. lia. }
  destruct ((occurrence_no i =? 0) && (0 <=? icaltime_compare (last i) (istart i))) eqn:E0.
  - destruct (check_contracting_rules i) as [c|] eqn:Ec; [|discriminate]. skip_in H. destruct c.
    + injection H as <- <- <-. split; [repeat split|]. right.
      pose proof (check_contracting_rules_spec i Hn Ec). unfold past_until in Eq. bools.
      split; [reflexivity|]. split; [split; assumption|]. split; [reflexivity|].
      split; [|split; [assumption | lia]].
      split; [exact Hn|]. split; [exact Hy|]. split; [lia|]. split; [|assumption].
      intros Hu. rewrite Hu in *. cbn [negb andb] in *. lia.
    + apply next_loop_sound in H as [Hs [H | (E & Eo & Ha & He)]]; split; auto.
      right. rewrite Eo. split; [exact E|]. split; [|auto]. split; rewrite <- E; apply Ha.
  - skip_in H. apply next_loop_sound in H as [Hs [H | (E & Eo & Ha & He)]]; split; auto.
    right. rewrite Eo. split; [exact E|]. split; [|auto]. split; rewrite <- E; apply Ha.
Qed.

(** ** Starting *)

(** What [__iterator_set_start] keeps, once it has set the start. *)
Definition range_frame (i j : icalrecur_iterator) : Prop :=
  dtstart j = dtstart i /\ istart j = istart i /\ iend j = iend i /\
  occurrence_no j = occurrence_no i /\ orig_data j = orig_data i /\
  freq (rule j) = freq (rule i) /\ count (rule j) = count (rule i) /\
  until (rule j) = until (rule i) /\ interval (rule j) = interval (rule i).

#[export] Instance range_frame_preorder : RelationClasses.PreOrder range_frame.
Proof.
  split; [intros i; repeat split|].
  intros i j k (a1 & b1 & c1 & d1 & e1 & f1 & g1 & h1 & k1) (a2 & b2 & c2 & d2 & e2 & f2 & g2 & h2 & k2).
  repeat split; congruence.
Qed.

Lemma keeps_range {A} (m : it A) : keeps m -> keeps_in range_frame m.
Proof.
  intros H i st a j st' E. destruct (H _ _ _ _ _ E) as (? & Er & ? & ? & ? & ? & ?).
  repeat split; try assumption; rewrite Er; reflexivity.
Qed.

Lemma keeps_first_year fuel : keeps (first_year fuel).
Proof. induction fuel; cbn; unfold increment_year; keeps_tac. Qed.
Lemma keeps_first_month fuel k : keeps (first_month fuel k).
Proof. induction k; cbn; keeps_tac. Qed.
Lemma keeps_adjust_to_byday : keeps adjust_to_byday.
Proof. unfold adjust_to_byday, increment_monthday. keeps_tac. Qed.
#[local] Hint Resolve keeps_first_year keeps_first_month keeps_adjust_to_byday : ical.

Lemma range_start_yearly fuel : keeps_in range_frame (start_yearly fuel).
Proof. apply keeps_range. unfold start_yearly, set_day_of_year, increment_year. keeps_tac. Qed.
Lemma range_start_monthly fuel : keeps_in range_frame (start_monthly fuel).
Proof.
  apply keeps_range. unfold start_monthly, set_day_of_year, increment_monthday, __increment_month.
  keeps_tac.
Qed.
Lemma range_start_daily : keeps_in range_frame start_daily.
Proof. apply keeps_range. unfold start_daily, increment_monthday. keeps_tac. Qed.
Lemma range_start_weekly start : keeps_in range_frame (start_weekly start).
Proof.
  pose proof (keeps_range _ keeps_adjust_to_byday).
  assert (forall f, keeps_in range_frame (upd_last f)) by (intros; apply keeps_range, keeps_upd_last).
  unfold start_weekly, increment_monthday. keeps_tac.
Qed.

(** A successful start leaves the iterator ready, at its start, with nothing
    counted; the rule's limits are unchanged. *)
Definition started (start : icaltimetype) (i j : icalrecur_iterator) : Prop :=
  ready j /\ istart j = start /\ occurrence_no j = 0 /\ iend j = iend i /\
  dtstart j = dtstart i /\ count (rule j) = count (rule i) /\ until (rule j) = until (rule i) /\
  freq (rule j) = freq (rule i).

Lemma set_start_started fuel start i st j st' :
  __iterator_set_start fuel start i st = Some (true, j, st') -> started start i j.
Proof.
  intros H. unfold __iterator_set_start in H. do 3 skip_in H.
  step_in H. pose proof (keeps_set_datetime start _ _ _ _ _ E) as F. skip_in H.
  step_in H.
  assert (range_frame j0 j1) as F1.
  { destruct (freq (rule j0));
      first [ eapply range_start_yearly; eassumption | eapply range_start_monthly; eassumption
            | eapply range_start_weekly; eassumption | eapply range_start_daily; eassumption
            | injection E0 as <- <- <-; reflexivity ]. }
  destruct a0; cbn [negb] in H; [|discriminate]. do 2 skip_in H.
  set (j2 := set_last _ _) in *. destruct (MAX_TIME_T_YEAR <? year (last j2)) eqn:Ey.
  { step_in H. discriminate. }
  injection H as <- <-.
  destruct F as (? & Er & ? & ? & ? & ? & ?), F1 as (? & ? & ? & ? & ? & ? & ? & ? & ?).
  split; [split; [apply adjust_spec | lia]|].
  cbn in *. rewrite ?Er in *. repeat split; congruence.
Qed.

(** ** Stepping backward *)

Definition prev_admissible (i : icalrecur_iterator) (t : icaltimetype) : Prop :=
  normalized t /\ year t <= MAX_TIME_T_YEAR /\
  0 <= icaltime_compare t (dtstart i) /\
  (icaltime_is_null_time (istart i) = false -> 0 <= icaltime_compare t (istart i)) /\
  (icaltime_is_null_time (until (rule i)) = false -> icaltime_compare t (until (rule i)) <= 0) /\
  (icaltime_is_null_time (iend i) = false -> icaltime_compare t (iend i) <= 0) /\
  contracted i t.

Definition prev_outcome (i : icalrecur_iterator) (t : icaltimetype) (j : icalrecur_iterator) : Prop :=
  same_rule i j /\
  (t = icaltime_null_time \/
   (t = last j /\ occurrence_no j = occurrence_no i - 1 /\ prev_admissible i t)).

Lemma prev_outcome_frame i j t r : frame i j -> prev_outcome j t r -> prev_outcome i t r.
Proof.
  intros F [Hs H]. pose proof (frame_same_rule _ _ F) as Fs.
  split; [eapply same_rule_trans; eassumption|]. destruct F as (Ed & Er & _ & Es & Ee & Eo & _).
  destruct H as [H | (? & ? & ? & ? & ? & ? & ? & ? & Hc)]; [left; assumption | right].
  pose proof (contracted_frame i j t Fs Hc). unfold prev_admissible.
  rewrite Er, Ed, Es, Ee, Eo in *. auto 10.
Qed.

Lemma not_before_start_admissible i :
  normalized (last i) -> before_start i = false ->
  (MAX_TIME_T_YEAR <? year (last i)) || past_until i
  || (negb (icaltime_is_null_time (iend i)) && (0 <? icaltime_compare (last i) (iend i))) = false ->
  check_contracting_rules i = Some true -> prev_admissible i (last i).
Proof.
  intros Hn Hp Hs Hc. pose proof (check_contracting_rules_spec i Hn Hc) as Hr.
  unfold before_start, past_until in *. bools.
  split; [exact Hn|]. split; [lia|]. split; [lia|].
  repeat split; try exact Hr; intros Hu; rewrite Hu in *; cbn [negb andb] in *; lia.
Qed.

Lemma prev_loop_sound fuel k i st t j st' :
  prev_loop fuel k i st = Some (t, j, st') -> prev_outcome i t j.
Proof.
  revert i st. induction k as [|k IH]; intros i st H; [discriminate|].
  cbn [prev_loop] in H. step_in H. pose proof (keeps_step_prev _ _ _ _ _ _ E) as F.
  destruct a; cbn [negb] in H.
  2:{ injection H as <- <- <-. split; [auto using frame_same_rule | auto]. }
  do 2 skip_in H. set (i1 := set_last _ _) in *.
  assert (frame i i1) as F1 by (etransitivity; [exact F | repeat split]).
  assert (normalized (last i1)) as Hn by apply adjust_spec.
  destruct (before_start i1) eqn:Ep.
  { injection H as <- <- <-. split; [auto using frame_same_rule | auto]. }
  destruct ((MAX_TIME_T_YEAR <? year (last i1)) || past_until i1 || _) eqn:Es.
  { skip_in H. eauto using prev_outcome_frame. }
  destruct (check_contracting_rules i1) as [c|] eqn:Ec; [|discriminate].
  skip_in H. destruct c; cbn [negb] in H; [|eauto using prev_outcome_frame].
  injection H as <- <- <-. apply (prev_outcome_frame _ i1); [exact F1|].
  split; [repeat split|]. right. auto using not_before_start_admissible.
Qed.

(** Every time [icalrecur_iterator_prev] returns is a real time that is not
    before DTSTART or the start of the range and not after UNTIL, the end of the
    range or the year 2582, and that every contracting BY part admits; the rule
    and the range are unchanged. *)
Theorem recur_prev_sound fuel i st t j st' :
  icalrecur_iterator_prev fuel i st = Some (t, j, st') -> prev_outcome i t j.
Proof.
  intros H. unfold icalrecur_iterator_prev in H. skip_in H.
  destruct (_ <? 0).
  - injection H as <- <- <-. split; [repeat split | auto].
  - eapply prev_loop_sound; eassumption.
Qed.

(** ** The sequence of the occurrences *)

(** The times that up to [n] calls of [icalrecur_iterator_next] return, up to
    the null time that ends them. *)
Fixpoint occurrences (n fuel : nat) (i : icalrecur_iterator) (st : error_state)
  : option (list icaltimetype) :=
  match n with
  | O => Some []
  | S k =>
      match icalrecur_iterator_next fuel i st with
      | None => None
      | Some (t, i', st') =>
          if icaltime_is_null_time t then Some []
          else match occurrences k fuel i' st' with Some l => Some (t :: l) | None => None end
      end
  end.

Lemma occurrences_sound_from n fuel i st l :
  ready i -> 0 <= occurrence_no i -> occurrences n fuel i st = Some l ->
  Forall (admissible i) l /\
  (count (rule i) <> 0 -> occurrence_no i <= count (rule i) ->
   occurrence_no i + Z.of_nat (length l) <= count (rule i)) /\
  Forall (before_end i) (if occurrence_no i =? 0 then tl l else l).
Proof.
  revert i st l. induction n as [|n IH]; intros i st l Hr Ho H; cbn [occurrences] in H.
  { injection H as <-. split; [constructor|]. split; [cbn; lia|]. destruct (_ =? 0); constructor. }
  destruct (icalrecur_iterator_next fuel i st) as [[[t j] s]|] eqn:E; [|discriminate].
  destruct (icaltime_is_null_time t) eqn:Et.
  { injection H as <-. split; [constructor|]. split; [cbn; lia|]. destruct (_ =? 0); constructor. }
  destruct (occurrences n fuel j s) as [l'|] eqn:E'; [|discriminate]. injection H as <-.
  destruct (next_sound _ _ _ _ _ _ Hr E) as [Hs [-> | (-> & Hj & Eo & Ha & Hc & He)]];
    [discriminate Et|].
  destruct (IH _ _ _ Hj ltac:(lia) E') as (Hl & Hn & Hb).
  pose proof Hs as (_ & Er & _ & _ & _ & _).
  split; [constructor; [assumption|]; eauto using Forall_impl, admissible_frame|].
  split.
  - intros Hc0 Hlt. specialize (Hc Hc0). rewrite Er in Hn. cbn [length]. lia.
  - destruct (Z.eqb_spec (occurrence_no j) 0); [lia|].
    assert (Forall (before_end i) l') by eauto using Forall_impl, before_end_frame.
    destruct (Z.eqb_spec (occurrence_no i) 0); cbn [tl]; [assumption | constructor; auto].
Qed.

(** After a successful start, the times that successive calls of
    [icalrecur_iterator_next] return are all real times, not before the start,
    not after UNTIL or the year 2582, admitted by every contracting BY part; they
    are at most COUNT, and all but the first are before the end of the range. *)
Theorem recur_occurrences_sound start fuel0 i0 st0 i st n fuel l :
  __iterator_set_start fuel0 start i0 st0 = Some (true, i, st) -> 0 <= count (rule i) ->
  occurrences n fuel i st = Some l ->
  Forall (admissible i) l /\
  (count (rule i) <> 0 -> Z.of_nat (length l) <= count (rule i)) /\
  Forall (before_end i) (tl l).
Proof.
  intros Hs Hc H. destruct (set_start_started _ _ _ _ _ _ Hs) as (Hr & _ & Eo & _).
  destruct (occurrences_sound_from _ _ _ _ _ Hr ltac:(lia) H) as (Ha & Hn & Hb).
  rewrite Eo in *. split; [assumption|]. split; [lia | exact Hb].
Qed.

End WithTimezones.

(** ** Examples *)

(** FREQ=DAILY;COUNT=3;BYMONTH=1 from 30 December 1999, with the BY arrays
    filled in as [icalrecur_iterator_new] leaves them. *)
Definition sample_rule : icalrecurrencetype :=
  Recur ICAL_DAILY_RECURRENCE icaltime_null_time 3 1 ICAL_MONDAY_WEEKDAY
    [0] [0] [9] [] [] [] [] [1] [] None ICAL_SKIP_OMIT.
Definition sample_dtstart : icaltimetype := IcalTime 1999 12 30 9 0 0 0 0 ZONE_NULL.
Definition sample_fresh : icalrecur_iterator :=
  set_rstart sample_dtstart (fresh_iterator sample_rule sample_dtstart).
Definition sample_state : error_state := initial_error_state false.
Definition sample_iterator : icalrecur_iterator :=
  match __iterator_set_start (TZ := utc_only) 9 sample_dtstart sample_fresh sample_state with
  | Some (_, i, _) => i
  | None => sample_fresh
  end.

Definition sample_times : list icaltimetype :=
  map (fun d => set_date sample_dtstart 2000 1 d) [1; 2; 3].

Lemma recur_occurrences_sound_witness :
  occurrences (TZ := utc_only) 5 9 sample_iterator sample_state = Some sample_times /\
  Forall (admissible (TZ := utc_only) sample_iterator) sample_times.
Proof.
  assert (occurrences (TZ := utc_only) 5 9 sample_iterator sample_state = Some sample_times) as H
    by (vm_compute; reflexivity).
  split; [exact H|].
  apply (recur_occurrences_sound (TZ := utc_only) sample_dtstart 9 sample_fresh sample_state
           sample_iterator sample_state 5 9 sample_times); [vm_compute; reflexivity | vm_compute; discriminate | exact H].
Defined.

(** The iterator at the last of the three times steps back to the second. *)
Definition sample_back : icalrecur_iterator :=
  set_occurrence_no 3 (set_last (set_date sample_dtstart 2000 1 3) sample_iterator).

Lemma recur_prev_sound_witness :
  prev_outcome (TZ := utc_only) sample_back (set_date sample_dtstart 2000 1 2)
    (set_occurrence_no 2 (set_last (set_date sample_dtstart 2000 1 2)
       (set_index BY_HOUR 0 (set_index BY_MINUTE 0 (set_index BY_SECOND 0 sample_back))))).
Proof.
  apply (recur_prev_sound (TZ := utc_only) 9 sample_back sample_state _ _ sample_state).
  vm_compute. reflexivity.
Defined.
