(* ===== verification/IcalRecurSimple.v ===== *)
(** * Recurrences at a fixed interval

    A rule without BY parts whose frequency is a fixed length of time - from
    seconds to weeks - recurs at DTSTART and at every multiple of its interval
    after it.  The iterator is shown to terminate on each call and to return
    exactly these times. *)
From Stdlib Require Import String Ascii ZArith Lia Bool List.
From S2P Require Import Prelude CString IcalError CalDate IcalTime IcalTimeCalendar IcalRecurType IcalRecurMask IcalRecurIter IcalRecurSound.
Import ListNotations.
#[local] Open Scope Z_scope.
#[local] Open Scope it_scope.

(** ** Rules *)

Definition unit_seconds (f : icalrecurrencetype_frequency) : Z :=
  match f with
  | ICAL_SECONDLY_RECURRENCE => 1
  | ICAL_MINUTELY_RECURRENCE => 60
  | ICAL_HOURLY_RECURRENCE => 3600
  | ICAL_DAILY_RECURRENCE => 86400
  | ICAL_WEEKLY_RECURRENCE => 604800
  | _ => 0
  end.

(** No BY part, no UNTIL, a frequency of fixed length and an interval. *)
Definition simple_rule (r : icalrecurrencetype) : Prop :=
  0 < unit_seconds (freq r) /\ 1 <= interval r /\ (forall b, by_ptr b r = []) /\
  rscale r = None /\ until r = icaltime_null_time.

(** The seconds between two occurrences. *)
Definition step (r : icalrecurrencetype) : Z := interval r * unit_seconds (freq r).

(** The first instant after the years the iterator supports. *)
Definition limit : Z := day_number (MAX_TIME_T_YEAR + 1) 1 1 * 86400.

(** ** Instants and members *)

Lemma instant_clock t :
  valid_clock t ->
  hour t = instant t / 3600 mod 24 /\ minute t = instant t / 60 mod 60 /\ second t = instant t mod 60.
Proof. intros (Hh & Hm & Hs). unfold instant. repeat split; zdiv. Qed.

Lemma instant_day t :
  valid_clock t -> day_number (year t) (month t) (day t) = instant t / 86400.
Proof. intros (Hh & Hm & Hs). unfold instant. zdiv. Qed.

(** Moved by whole days, hours or minutes, a time keeps its smaller members. *)
Lemma same_second t r : valid_clock t -> valid_clock r -> (instant r - instant t) mod 60 = 0 -> second r = second t.
Proof.
  intros Ht Hr H. destruct (instant_clock t Ht) as (_ & _ & ->), (instant_clock r Hr) as (_ & _ & ->). zdiv.
Qed.

Lemma same_minute t r : valid_clock t -> valid_clock r -> (instant r - instant t) mod 3600 = 0 -> minute r = minute t.
Proof.
  intros Ht Hr H. destruct (instant_clock t Ht) as (_ & -> & _), (instant_clock r Hr) as (_ & -> & _). zdiv.
Qed.

Lemma same_hour t r : valid_clock t -> valid_clock r -> (instant r - instant t) mod 86400 = 0 -> hour r = hour t.
Proof.
  intros Ht Hr H. destruct (instant_clock t Ht) as (-> & _), (instant_clock r Hr) as (-> & _). zdiv.
Qed.

Lemma year_mono t r :
  normalized t -> normalized r -> valid_clock t -> valid_clock r -> instant t <= instant r ->
  year t <= year r.
Proof.
  intros [Ht _] [Hr _] Ct Cr H. destruct (Z.le_gt_cases (year t) (year r)); [assumption|].
  assert (date_lt (year r) (month r) (day r) (year t) (month t) (day t)) as Hlt by (left; lia).
  apply day_number_lt in Hlt; [|assumption..]. rewrite !instant_day in Hlt by assumption. zdiv.
Qed.

Lemma year_below_limit t :
  normalized t -> valid_clock t -> instant t < limit -> year t <= MAX_TIME_T_YEAR.
Proof.
  intros [Ht _] Ct H. unfold limit, MAX_TIME_T_YEAR in *.
  destruct (Z.le_gt_cases (year t) 2582); [assumption|].
  assert (day_number (2582 + 1) 1 1 <= day_number (year t) (month t) (day t)) as Hle.
  { destruct (Z.eq_dec (year t) 2583) as [E|E].
    - rewrite E. rewrite (day_number_month 2583 (month t)) by apply Ht.
      pose proof (days_before_month_bound 2583 (month t) (proj1 Ht)).
      change (day_number (2582 + 1) 1 1) with (days_before_year 2583 + 1). destruct Ht. lia.
    - assert (date_lt (2582 + 1) 1 1 (year t) (month t) (day t)) as Hlt by (left; lia).
      apply day_number_lt in Hlt; [lia | | assumption].
      pose proof (days_in_month_range 1 (2582 + 1)). split; lia. }
  rewrite (instant_day t Ct) in Hle. zdiv.
Qed.

Lemma year_above_limit t :
  normalized t -> valid_clock t -> limit <= instant t -> MAX_TIME_T_YEAR < year t.
Proof.
  intros [Ht _] Ct Hge. pose proof (instant_day _ Ct) as Ed.
  destruct (Z.lt_ge_cases MAX_TIME_T_YEAR (year t)); [assumption|]. exfalso.
  assert (date_lt (year t) (month t) (day t) (MAX_TIME_T_YEAR + 1) 1 1) as Hlt by (left; lia).
  pose proof (days_in_month_range 1 (MAX_TIME_T_YEAR + 1)).
  apply day_number_lt in Hlt; [|assumption | split; lia].
  unfold limit in Hge. rewrite Ed in Hlt. zdiv.
Qed.

(** ** One step *)

(** The iterator between two calls: the rule with its defaults, the range open,
    all indices at their start. *)
Record at_time (r : icalrecurrencetype) (ds : icaltimetype) (t : icaltimetype) (k : Z)
  (i : icalrecur_iterator) : Prop := AtTime {
  at_rule : rule i = r;
  at_dtstart : dtstart i = ds;
  at_istart : istart i = ds;
  at_iend : iend i = icaltime_null_time;
  at_orig : forall b, orig_data i b = false;
  at_indices : forall b, by_indices i b = 0;
  at_last : last i = t;
  at_count : occurrence_no i = k
}.

Lemma at_time_set_index r ds t k i b : at_time r ds t k i -> at_time r ds t k (set_index b 0 i).
Proof.
  intros []. constructor; try assumption. intros b'. cbn. destruct (byrule_eqb b b'); auto.
Qed.

Lemma at_time_set_last r ds t t' k i : at_time r ds t k i -> at_time r ds t' k (set_last t' i).
Proof. intros []. constructor; try assumption; reflexivity. Qed.

(** A unit below the frequency: its array holds the member of DTSTART, so that
    the step returns to the current value and goes on to the next unit. *)
Lemma next_unit_single r ds t k b f sub set inc sup i st j v :
  at_time r ds t k i -> by_ptr b r = [v] -> freq_eqb (freq r) f = false ->
  match sub with Some m => m | None => iret 1 end i st = Some (1, j, st) -> at_time r ds t k j ->
  next_unit (Some b) f sub set inc sup i st = (set v ;;; iret 1) (set_index b 0 j) st.
Proof.
  intros Hi Hb Hf Hsub Hj. unfold next_unit, ibind at 1, get. cbv beta iota zeta. unfold by_array at 1.
  rewrite (at_rule _ _ _ _ _ Hi), Hb, Hf. cbn [is_empty negb orb].
  unfold ibind at 1. rewrite Hsub. cbn [Z.eqb]. change (1 =? 0) with false. cbv iota.
  unfold ibind at 1, get. cbv beta iota. unfold by_at, by_array.
  rewrite (at_rule _ _ _ _ _ Hi), Hb. cbn [is_empty negb]. cbv iota.
  rewrite (at_rule _ _ _ _ _ Hj), Hb, (at_indices _ _ _ _ _ Hj). change (0 + 1 <? 0) with false.
  change (Z.to_nat (0 + 1)) with 1%nat. cbn [nth_error].
  change (0 <? 0) with false. change (Z.to_nat 0) with 0%nat. cbn [nth_error].
  rewrite andb_false_r. unfold opt, ibind, iret, modify.
  destruct (set v (set_index b 0 j) st) as [[[? ?] ?]|]; reflexivity.
Qed.

(** The unit of the frequency itself: the time moves by the interval. *)
Lemma next_unit_freq r ds t k b f sub set inc sup i st j :
  at_time r ds t k i -> match b with Some b => by_ptr b r = [] | None => True end ->
  freq_eqb (freq r) f = true ->
  match sub with Some m => m | None => iret 1 end i st = Some (1, j, st) -> at_time r ds t k j ->
  next_unit b f sub set inc sup i st = (inc (interval r) ;;; iret 0) j st.
Proof.
  intros Hi Hb Hf Hsub Hj. unfold next_unit, ibind at 1, get. cbv beta iota zeta.
  rewrite (at_rule _ _ _ _ _ Hi), Hf, orb_true_r. cbn [negb]. unfold ibind at 1. rewrite Hsub.
  change (1 =? 0) with false. cbv iota.
  destruct b as [b|]; [|unfold ibind; rewrite ?(at_rule _ _ _ _ _ Hi); reflexivity].
  unfold by_array at 1. rewrite (at_rule _ _ _ _ _ Hi), Hb. reflexivity.
Qed.

(** The defaults that [icalrecur_iterator_new] writes into the BY arrays. *)
Definition filled (r : icalrecurrencetype) (ds : icaltimetype) (w : list Z) : Prop :=
  by_ptr BY_SECOND r = (if unit_seconds (freq r) <=? 1 then [] else [second ds]) /\
  by_ptr BY_MINUTE r = (if unit_seconds (freq r) <=? 60 then [] else [minute ds]) /\
  by_ptr BY_HOUR r = (if unit_seconds (freq r) <=? 3600 then [] else [hour ds]) /\
  by_ptr BY_DAY r = w /\ by_ptr BY_MONTH_DAY r = [] /\ by_ptr BY_YEAR_DAY r = [] /\
  by_ptr BY_WEEK_NO r = [] /\ by_ptr BY_MONTH r = [].

(** A time whose members below the unit of the frequency are those of
    DTSTART. *)
Definition in_phase (r : icalrecurrencetype) (ds t : icaltimetype) : Prop :=
  (1 < unit_seconds (freq r) -> second t = second ds) /\
  (60 < unit_seconds (freq r) -> minute t = minute ds) /\
  (3600 < unit_seconds (freq r) -> hour t = hour ds).

Section Step.
Context (r : icalrecurrencetype) (ds t : icaltimetype) (k : Z) (w : list Z).
Context (Hf : filled r ds w) (Hp : in_phase r ds t).

Lemma set_same_second : set_time t (hour t) (minute t) (second t) = t.
Proof. destruct t; reflexivity. Qed.

Lemma next_second_below i st :
  at_time r ds t k i -> 1 < unit_seconds (freq r) ->
  exists j, next_second i st = Some (1, j, st) /\ at_time r ds t k j.
Proof.
  intros Hi Hu. destruct Hf as (Hs & _). destruct Hp as (Es & _). specialize (Es Hu).
  destruct (Z.leb_spec (unit_seconds (freq r)) 1); [lia|].
  exists (set_last t (set_index BY_SECOND 0 i)). split.
  - unfold next_second. erewrite next_unit_single; try eassumption; try reflexivity.
    + cbn. rewrite (at_last _ _ _ _ _ Hi), <- Es, set_same_second. reflexivity.
    + destruct (freq r); reflexivity || (cbn in Hu; lia).
  - eapply at_time_set_last, at_time_set_index; eassumption.
Qed.

Lemma next_minute_below i st :
  at_time r ds t k i -> 60 < unit_seconds (freq r) ->
  exists j, next_minute i st = Some (1, j, st) /\ at_time r ds t k j.
Proof.
  intros Hi Hu. destruct (next_second_below i st Hi ltac:(lia)) as (j & Ej & Hj).
  destruct Hf as (_ & Hs & _). destruct Hp as (_ & Es & _). specialize (Es Hu).
  destruct (Z.leb_spec (unit_seconds (freq r)) 60); [lia|].
  exists (set_last t (set_index BY_MINUTE 0 j)). split.
  - unfold next_minute. erewrite next_unit_single; try eassumption.
    + cbn. rewrite (at_last _ _ _ _ _ Hj), <- Es, set_same_second. reflexivity.
    + destruct (freq r); reflexivity || (cbn in Hu; lia).
  - eapply at_time_set_last, at_time_set_index; eassumption.
Qed.

Lemma next_hour_below i st :
  at_time r ds t k i -> 3600 < unit_seconds (freq r) ->
  exists j, next_hour i st = Some (1, j, st) /\ at_time r ds t k j.
Proof.
  intros Hi Hu. destruct (next_minute_below i st Hi ltac:(lia)) as (j & Ej & Hj).
  destruct Hf as (_ & _ & Hs & _). destruct Hp as (_ & _ & Es). specialize (Es Hu).
  destruct (Z.leb_spec (unit_seconds (freq r)) 3600); [lia|].
  exists (set_last t (set_index BY_HOUR 0 j)). split.
  - unfold next_hour. erewrite next_unit_single; try eassumption.
    + cbn. rewrite (at_last _ _ _ _ _ Hj), <- Es, set_same_second. reflexivity.
    + destruct (freq r); reflexivity || (cbn in Hu; lia).
  - eapply at_time_set_last, at_time_set_index; eassumption.
Qed.

(** The time a step moves to, before it is normalised. *)
Definition moved : icaltimetype :=
  match freq r with
  | ICAL_SECONDLY_RECURRENCE => icaltime_adjust t 0 0 0 (interval r)
  | ICAL_MINUTELY_RECURRENCE => icaltime_adjust t 0 0 (interval r) 0
  | ICAL_HOURLY_RECURRENCE => icaltime_adjust t 0 (interval r) 0 0
  | ICAL_DAILY_RECURRENCE => icaltime_adjust t (interval r) 0 0 0
  | _ => icaltime_adjust t (7 * interval r) 0 0 0
  end.

(** The last step of a unit: the current time is moved. *)
Lemma upd_last_at f i st :
  at_time r ds t k i ->
  (upd_last f ;;; iret 0) i st = Some (0, set_last (f t) i, st).
Proof. intros Hi. unfold ibind, upd_last, modify, iret. rewrite (at_last _ _ _ _ _ Hi). reflexivity. Qed.

Lemma unit_moves f b fr sub set sup i st j :
  at_time r ds t k i -> match b with Some b => by_ptr b r = [] | None => True end ->
  freq_eqb (freq r) fr = true ->
  match sub with Some m => m | None => iret 1 end i st = Some (1, j, st) -> at_time r ds t k j ->
  exists j', next_unit b fr sub set (fun inc => upd_last (f inc)) sup i st = Some (0, j', st) /\
             at_time r ds (f (interval r) t) k j'.
Proof.
  intros Hi Hb Hfr Hs Hj. exists (set_last (f (interval r) t) j). split.
  - erewrite next_unit_freq by eassumption. apply upd_last_at. assumption.
  - eapply at_time_set_last; eassumption.
Qed.

Lemma next_week_moves i st :
  at_time r ds t k i -> freq r = ICAL_WEEKLY_RECURRENCE ->
  exists j, next_week i st = Some (0, j, st) /\
            at_time r ds (icaltime_adjust t (7 * interval r) 0 0 0) k j.
Proof.
  intros Hi Ef. destruct (next_hour_below i st Hi ltac:(rewrite Ef; reflexivity)) as (j & Ej & Hj).
  exists (set_last (icaltime_adjust t (7 * interval r) 0 0 0) j).
  split; [|eapply at_time_set_last; eassumption].
  assert (next_weekday_by_week i st = Some (1, j, st)) as Ew.
  { unfold next_weekday_by_week, ibind at 1. rewrite Ej. change (1 =? 0) with false. cbv iota.
    unfold ibind, get, has_by_data. rewrite (at_orig _ _ _ _ _ Hj). reflexivity. }
  unfold next_week, ibind at 1. rewrite Ew. change (1 =? 0) with false. cbv iota.
  unfold ibind at 1, get. rewrite (at_rule _ _ _ _ _ Hj). apply upd_last_at. assumption.
Qed.

Lemma step_next_moves fuel i st :
  at_time r ds t k i -> 0 < unit_seconds (freq r) ->
  exists j, step_next fuel i st = Some (true, j, st) /\ at_time r ds moved k j.
Proof.
  intros Hi Hu. unfold step_next, moved. unfold ibind at 1, get. cbv beta iota.
  rewrite (at_rule _ _ _ _ _ Hi).
  assert (forall (m : it Z) t',
    (exists j, m i st = Some (0, j, st) /\ at_time r ds t' k j) ->
    exists j, (m ;;; iret true) i st = Some (true, j, st) /\ at_time r ds t' k j) as Hret.
  { intros m t' (j & Ej & Hj). exists j. split; [|assumption]. unfold ibind. rewrite Ej. reflexivity. }
  pose proof Hf as (Hs & Hm & Hh & _).
  destruct (freq r) eqn:Ef; cbn [unit_seconds] in Hu, Hs, Hm, Hh; try lia; apply Hret.
  - eapply (unit_moves (fun inc t => icaltime_adjust t 0 0 0 inc)); try eassumption; try reflexivity.
    rewrite Ef; reflexivity.
  - destruct (next_second_below i st Hi ltac:(rewrite Ef; reflexivity)) as (j & Ej & Hj).
    eapply (unit_moves (fun inc t => icaltime_adjust t 0 0 inc 0)); try eassumption.
    rewrite Ef; reflexivity.
  - destruct (next_minute_below i st Hi ltac:(rewrite Ef; reflexivity)) as (j & Ej & Hj).
    eapply (unit_moves (fun inc t => icaltime_adjust t 0 inc 0 0)); try eassumption.
    rewrite Ef; reflexivity.
  - destruct (next_hour_below i st Hi ltac:(rewrite Ef; reflexivity)) as (j & Ej & Hj).
    eapply (unit_moves (fun inc t => icaltime_adjust t inc 0 0 0)); try eassumption; try exact I.
    rewrite Ef; reflexivity.
  - apply next_week_moves; assumption.
Qed.

Lemma moved_spec :
  icaltime_is_date t = false ->
  normalized moved /\ is_date moved = is_date t /\ zone moved = zone t /\
  (0 < unit_seconds (freq r) -> instant moved = instant t + step r).
Proof.
  intros Hd. unfold moved, step.
  assert (forall d h m s, let x := icaltime_adjust t d h m s in
    normalized x /\ is_date x = is_date t /\ zone x = zone t /\
    instant x = instant t + d * 86400 + h * 3600 + m * 60 + s) as H.
  { intros d h m s. destruct (adjust_spec t d h m s) as (Hn & Ed & _ & Ez & H). rewrite Hd in H. auto. }
  destruct (freq r); cbn [unit_seconds];
    match goal with |- normalized (icaltime_adjust t ?d ?h ?m ?s) /\ _ =>
      destruct (H d h m s) as (? & ? & ? & E) end;
    (split; [assumption|]; split; [assumption|]; split; [assumption|]; intros; rewrite E; lia).
Qed.
End Step.

(** ** A call of [icalrecur_iterator_next] *)

Lemma zone_eqb_refl z : zone_eqb z z = true.
Proof. destruct z as [| |n]; try reflexivity. cbn. apply Nat.eqb_refl. Qed.

Section Calls.
Context `{TZ : TimezoneConv}.
Context (r : icalrecurrencetype) (ds : icaltimetype) (w : list Z).
Context (Hu : 0 < unit_seconds (freq r)) (Hi : 1 <= interval r) (Huntil : until r = icaltime_null_time).
Context (Hf : filled r ds w) (Hw : w = [] \/ freq r = ICAL_WEEKLY_RECURRENCE).
Context (Hds : normalized ds) (Hdate : icaltime_is_date ds = false) (Hyear : 0 <= year ds).

(** A time of the recurrence. *)
Record on_grid (t : icaltimetype) (n : Z) : Prop := OnGrid {
  grid_normalized : normalized t;
  grid_is_date : is_date t = is_date ds;
  grid_zone : zone t = zone ds;
  grid_instant : instant t = instant ds + n * step r
}.

Lemma grid_clock t n : on_grid t n -> valid_clock t.
Proof.
  intros [Hn Hd _ _]. apply Hn. unfold icaltime_is_date in *. rewrite Hd. assumption.
Qed.

Lemma ds_clock : valid_clock ds.
Proof. apply Hds. assumption. Qed.

Lemma grid_in_phase t n : on_grid t n -> in_phase r ds t.
Proof.
  intros Ht. pose proof (grid_clock t n Ht) as Hc. pose proof ds_clock as Hd.
  pose proof (grid_instant _ _ Ht) as Et. unfold step in Et.
  repeat split; intros H; [apply same_second | apply same_minute | apply same_hour]; try assumption;
    rewrite Et; destruct (freq r); cbn [unit_seconds] in *; try lia;
    match goal with |- (?a + ?n * (?x * ?c) - ?a) mod ?m = 0 =>
      let q := eval vm_compute in (c / m) in
      replace (a + n * (x * c) - a) with ((n * x * q) * m) by lia; apply Z.mod_mul; lia
    end.
Qed.

Lemma step_pos : 0 < step r.
Proof. unfold step. apply Z.mul_pos_pos; lia. Qed.

Lemma grid_compare t n : on_grid t n -> 0 <= n -> 0 <= icaltime_compare t ds.
Proof.
  intros Ht Hn. rewrite icaltime_compare_instant; try assumption.
  - rewrite (grid_instant _ _ Ht). pose proof step_pos. nia.
  - apply Ht.
  - unfold icaltime_is_date in *. rewrite (grid_is_date _ _ Ht). assumption.
  - unfold comparable. rewrite (grid_zone _ _ Ht). rewrite zone_eqb_refl. reflexivity.
Qed.

Lemma grid_year t n :
  on_grid t n -> 0 <= n -> instant t < limit -> 0 <= year t <= MAX_TIME_T_YEAR.
Proof.
  intros Ht Hn Hl. pose proof (grid_clock _ _ Ht). pose proof ds_clock.
  pose proof (grid_normalized _ _ Ht). split; [|apply year_below_limit; assumption].
  assert (year ds <= year t); [|lia]. apply year_mono; try assumption.
  rewrite (grid_instant _ _ Ht). pose proof step_pos. nia.
Qed.

Lemma grid_not_null t n :
  on_grid t n -> 0 <= n -> instant t < limit -> icaltime_is_null_time t = false.
Proof.
  intros Ht Hn Hl. destruct (grid_year t n Ht Hn Hl). destruct (grid_clock t n Ht) as (? & ? & ?).
  destruct (grid_normalized _ _ Ht) as [[? ?] _]. unfold icaltime_is_null_time.
  apply Z.eqb_neq. lia.
Qed.

Lemma grid_contracting t n k i :
  on_grid t n -> at_time r ds t k i -> check_contracting_rules i = Some true.
Proof.
  intros Ht Ha. unfold check_contracting_rules, occurrence_as_icaltime.
  rewrite (at_last _ _ _ _ _ Ha), get_day_of_year_valid by apply Ht.
  assert (forall b v, b <> BY_SET_POS -> check_contract_restriction i b v = true) as H.
  { intros b v Hb. unfold check_contract_restriction, by_array. rewrite (at_rule _ _ _ _ _ Ha).
    destruct Hf as (Es & Em & Eh & Ed & Emd & Eyd & Ew & Emo).
    destruct b; rewrite ?Es, ?Em, ?Eh, ?Ed, ?Emd, ?Eyd, ?Ew, ?Emo; try reflexivity; try congruence.
    1,2,3: destruct (freq r); reflexivity.
    destruct Hw as [-> | ->]; [reflexivity|]. rewrite andb_false_r. reflexivity. }
  rewrite !H by discriminate. reflexivity.
Qed.

Lemma moved_on_grid t n : on_grid t n -> on_grid (moved r t) (n + 1).
Proof.
  intros Ht. destruct (moved_spec r t) as (? & ? & ? & E).
  - unfold icaltime_is_date in *. rewrite (grid_is_date _ _ Ht). assumption.
  - destruct Ht as [? ? ? Ei]. constructor; try congruence; try assumption.
    rewrite E by assumption. rewrite Ei. lia.
Qed.

Lemma next_returns_next t n i st fuel :
  on_grid t n -> 0 <= n -> instant ds + (n + 1) * step r < limit ->
  at_time r ds t (n + 1) i -> (count r = 0 \/ n + 1 < count r) -> (0 < fuel)%nat ->
  exists t' j, icalrecur_iterator_next fuel i st = Some (t', j, st) /\
               on_grid t' (n + 1) /\ at_time r ds t' (n + 1 + 1) j.
Proof.
  intros Ht Hn Hl Ha Hc Hfuel. pose proof (moved_on_grid t n Ht) as Ht'.
  destruct (step_next_moves r ds t (n + 1) w Hf (grid_in_phase t n Ht) fuel i st Ha Hu) as (j & Ej & Hj).
  exists (moved r t), (set_occurrence_no (n + 1 + 1) (set_last (moved r t) j)).
  split; [|split; [assumption | destruct Hj; constructor; auto]].
  assert (forall i', at_time r ds (last i') (n + 1) i' -> past_until i' = false) as Hpu.
  { intros i' H. unfold past_until. rewrite (at_rule _ _ _ _ _ H), Huntil. reflexivity. }
  unfold icalrecur_iterator_next, ibind at 1, get. cbv beta iota.
  rewrite Hpu by (rewrite (at_last _ _ _ _ _ Ha); assumption).
  rewrite (at_rule _ _ _ _ _ Ha), (at_count _ _ _ _ _ Ha).
  assert (negb (count r =? 0) && (count r <=? n + 1) = false) as ->.
  { destruct (Z.eqb_spec (count r) 0); [reflexivity|]. cbn. lia. }
  cbn [orb]. destruct (Z.eqb_spec (n + 1) 0); [lia|]. cbn [andb]. unfold ibind at 1, iret at 1. cbv beta iota.
  destruct fuel as [|fuel]; [lia|]. cbn [next_loop]. unfold ibind at 1. rewrite Ej. cbn [negb].
  unfold ibind at 1, normalize_last, modify at 1. cbv beta iota. unfold ibind at 1, get. cbv beta iota.
  assert (occurrence_as_icaltime true j = moved r t) as ->.
  { unfold occurrence_as_icaltime. rewrite (at_last _ _ _ _ _ Hj).
    apply normalize_idempotent_on_normalized; [apply Ht' | exact (grid_clock _ _ Ht')]. }
  set (j1 := set_last (moved r t) j).
  assert (at_time r ds (moved r t) (n + 1) j1) as H1 by (eapply at_time_set_last; eassumption).
  assert (instant (moved r t) < limit) as Hlim by (rewrite (grid_instant _ _ Ht'); assumption).
  assert (past_end j1 = false) as ->.
  { unfold past_end. rewrite Hpu by (rewrite (at_last _ _ _ _ _ H1); assumption).
    rewrite (at_iend _ _ _ _ _ H1), (at_last _ _ _ _ _ H1). cbn [negb andb orb].
    destruct (grid_year _ _ Ht' ltac:(lia) Hlim). rewrite (proj2 (Z.ltb_ge _ _)) by assumption. reflexivity. }
  rewrite (at_last _ _ _ _ _ H1), (at_istart _ _ _ _ _ H1).
  rewrite (proj2 (Z.ltb_ge _ _)) by (apply (grid_compare _ (n + 1)); [assumption | lia]).
  rewrite (grid_contracting _ _ _ _ Ht' H1). unfold opt, ibind, iret, modify. cbn [negb].
  rewrite (at_count _ _ _ _ _ H1). reflexivity.
Qed.
End Calls.

(** ** Creation *)

(** The rule with the defaults written into its empty arrays. *)
Definition with_defaults (r : icalrecurrencetype) (ds : icaltimetype) : icalrecurrencetype :=
  let dflt b v r := if is_expand (expand_map (freq r) b) && is_empty (by_ptr b r)
                    then set_by b [to_short v] r else r in
  dflt BY_MONTH (month ds) (dflt BY_MONTH_DAY (day ds) (dflt BY_HOUR (hour ds)
    (dflt BY_MINUTE (minute ds) (dflt BY_SECOND (second ds) r)))).

Lemma setup_all r ds i st :
  rule i = r -> rstart i = ds ->
  (setup_defaults BY_SECOND (second ds) ;;; setup_defaults BY_MINUTE (minute ds) ;;;
   setup_defaults BY_HOUR (hour ds) ;;; setup_defaults BY_MONTH_DAY (day ds) ;;;
   setup_defaults BY_MONTH (month ds)) i st = Some (tt, set_rule (with_defaults r ds) i, st).
Proof.
  intros Hr Hs. unfold with_defaults, setup_defaults, ibind, modify, by_array. cbv beta iota zeta.
  destruct i as [d rl rs ist ie la oc ps dy di bi od]. cbn in Hr, Hs. subst rl rs.
  repeat (cbn [rule set_rule];
    match goal with |- context [if ?b then _ else _] =>
      lazymatch b with context [if _ then _ else _] => fail | _ => destruct b end end; cbn [rule set_rule]).
  all: reflexivity.
Qed.

Lemma filled_set_day r ds w v : filled r ds w -> filled (set_by BY_DAY v r) ds v.
Proof. intros (? & ? & ? & ? & ? & ? & ? & ?). repeat split; assumption. Qed.

(** Without RSCALE, creation fills in the defaults and goes to the start. *)
Lemma init_defaults `{TZ : TimezoneConv} r ds fuel st :
  rscale r = None ->
  init_iterator fuel (fresh_iterator r ds) st =
  __iterator_set_start fuel ds (set_rule (with_defaults r ds) (set_rstart ds (fresh_iterator r ds))) st.
Proof.
  intros Hrs.
  unfold init_iterator, ibind at 1, initialize_rscale, ibind at 1, get. cbv beta iota.
  change (rule (fresh_iterator r ds)) with r. rewrite Hrs. cbv beta iota zeta.
  unfold ibind at 1, modify, iret. cbv beta iota. cbn [negb]. unfold ibind at 1. cbv beta iota.
  set (i := set_rstart _ _).
  pose proof (setup_all r ds i st eq_refl eq_refl) as H.
  unfold ibind in *. change (second (rstart i)) with (second ds). change (minute (rstart i)) with (minute ds).
  change (hour (rstart i)) with (hour ds). change (day (rstart i)) with (day ds).
  change (month (rstart i)) with (month ds).
  repeat match type of H with context [setup_defaults ?b ?v ?x ?s] =>
    destruct (setup_defaults b v x s) as [[[[] ?] ?]|]; [|discriminate] end.
  injection H as -> ->. reflexivity.
Qed.

Section Creation.
Context `{TZ : TimezoneConv}.
Context (r : icalrecurrencetype) (ds : icaltimetype).
Context (Hr : simple_rule r) (Hds : normalized ds) (Hdate : is_date ds = 0).
Context (Hyear : 0 <= year ds <= MAX_TIME_T_YEAR).

Lemma start_clock : valid_clock ds.
Proof. apply Hds. unfold icaltime_is_date. rewrite Hdate. reflexivity. Qed.

Lemma with_defaults_filled :
  let r' := with_defaults r ds in
  filled r' ds [] /\ freq r' = freq r /\ interval r' = interval r /\ count r' = count r /\
  until r' = until r.
Proof.
  destruct start_clock as (Hh & Hm & Hs). destruct Hr as (Hu & _ & Hb & _).
  destruct r as [f u c iv ws bs bm bh bd bmd byd bwn bmo bsp rs sk].
  pose proof (Hb BY_SECOND). pose proof (Hb BY_MINUTE). pose proof (Hb BY_HOUR). pose proof (Hb BY_DAY).
  pose proof (Hb BY_MONTH_DAY). pose proof (Hb BY_YEAR_DAY). pose proof (Hb BY_WEEK_NO).
  pose proof (Hb BY_MONTH). cbn in *. subst.
  assert (forall l v, 0 <= v < 60 -> l = [to_short v] -> l = [v]) as Hv.
  { intros l v Hv ->. rewrite to_short_small by lia. reflexivity. }
  destruct f; cbn in Hu; try lia; repeat split;
    first [reflexivity | apply Hv; [lia | reflexivity]].
Qed.

(** DTSTART as the iterator first holds it. *)
Definition first_time : icaltimetype :=
  IcalTime (year ds) (month ds) (day ds) (hour ds) (minute ds) (second ds) (is_date ds) 0 (zone ds).

Lemma first_on_grid : on_grid r ds first_time 0.
Proof. constructor; try reflexivity; [exact Hds | unfold instant; cbn; lia]. Qed.

Definition created : icalrecur_iterator :=
  set_rule (with_defaults r ds) (set_rstart ds (fresh_iterator r ds)).

(** The iterator after the start has been set. *)
Definition placed : icalrecur_iterator :=
  set_last first_time (set_days_index ICAL_YEARDAYS_MASK_SIZE (set_occurrence_no 0 (set_istart ds created))).

Lemma fresh_orig b : orig_data (fresh_iterator r ds) b = false.
Proof. destruct Hr as (_ & _ & Hb & _). cbn. rewrite Hb. reflexivity. Qed.

Lemma placed_at : at_time (with_defaults r ds) ds first_time 0 placed.
Proof. constructor; try reflexivity. exact fresh_orig. Qed.

Lemma start_freq fuel st :
  exists j w,
  match freq (rule placed) with
  | ICAL_YEARLY_RECURRENCE => start_yearly fuel
  | ICAL_MONTHLY_RECURRENCE => start_monthly fuel
  | ICAL_WEEKLY_RECURRENCE => start_weekly ds
  | ICAL_DAILY_RECURRENCE => start_daily
  | _ => iret true
  end placed st = Some (true, j, st) /\
  filled (rule j) ds w /\ (w = [] \/ freq (rule j) = ICAL_WEEKLY_RECURRENCE) /\
  freq (rule j) = freq r /\ interval (rule j) = interval r /\ count (rule j) = count r /\
  until (rule j) = until r /\ at_time (rule j) ds first_time 0 j.
Proof.
  pose proof with_defaults_filled as (Hfill & Ef & Ei & Ec & Eu). pose proof placed_at as Ha.
  pose proof Hr as (Hu & _). cbn [rule placed created set_last set_days_index set_occurrence_no set_istart set_rule].
  rewrite Ef.
  assert (exists j w, @iret bool true placed st = Some (true, j, st) /\
    filled (rule j) ds w /\ (w = [] \/ freq (rule j) = ICAL_WEEKLY_RECURRENCE) /\
    freq (rule j) = freq r /\ interval (rule j) = interval r /\ count (rule j) = count r /\
    until (rule j) = until r /\ at_time (rule j) ds first_time 0 j) as Hsame.
  { exists placed, []. repeat split; auto; try apply Hfill; apply Ha. }
  destruct (freq r) eqn:E; cbn in Hu; try lia; try exact Hsame.
  - replace (start_daily placed st) with (@iret bool true placed st); [exact Hsame|].
    unfold start_daily, ibind at 1, get. cbv beta iota. destruct (Z.ltb_spec 1 (interval (rule placed))) as [Hlt|]; [|reflexivity].
    unfold ibind at 1, __day_diff.
    change (rstart placed) with ds. change (istart placed) with ds.
    rewrite get_day_of_year_valid by apply Hds. rewrite Z.eqb_refl, Z.sub_diag.
    change (opt (Some 0) placed st) with (Some (0, placed, st)). cbv beta iota zeta.
    rewrite Z.rem_0_l by lia. reflexivity.
  - exists (set_rule (set_by BY_DAY [to_short (get_day_of_week placed)] (with_defaults r ds)) placed),
      [to_short (get_day_of_week placed)].
    split.
    + unfold start_weekly, ibind at 1, get. cbv beta iota.
      destruct Hfill as (_ & _ & _ & Hd & _). unfold by_array.
      change (rule placed) with (with_defaults r ds). rewrite Hd. reflexivity.
    + split; [apply (filled_set_day _ _ []), Hfill|]. split; [right; exact Ef|].
      split; [exact Ef|]. split; [exact Ei|]. split; [exact Ec|]. split; [exact Eu|].
      destruct Ha. constructor; auto.
Qed.

Lemma set_start_simple fuel st :
  exists j w,
  __iterator_set_start fuel ds created st = Some (true, j, st) /\
  filled (rule j) ds w /\ (w = [] \/ freq (rule j) = ICAL_WEEKLY_RECURRENCE) /\
  freq (rule j) = freq r /\ interval (rule j) = interval r /\ count (rule j) = count r /\
  until (rule j) = until r /\ at_time (rule j) ds first_time 0 j.
Proof.
  destruct (start_freq fuel st) as (j & w & E & Hfill & Hw & Ef & Ei & Ec & Eu & Ha).
  exists (set_last first_time j), w.
  split; [|do 6 (split; [assumption|]); exact (at_time_set_last _ _ _ _ _ _ Ha)].
  unfold __iterator_set_start, ibind at 1 2 3, modify. cbv beta iota.
  unfold ibind at 1.
  assert (set_datetime ds (set_days_index ICAL_YEARDAYS_MASK_SIZE (set_occurrence_no 0
            (set_istart ds created))) st = Some (tt, placed, st)) as ->.
  { unfold set_datetime, modify, first_or, has_by_data.
    change (orig_data (set_days_index _ _)) with (orig_data (fresh_iterator r ds)).
    rewrite !fresh_orig. change (dtstart (set_days_index _ _)) with ds. rewrite Hdate.
    unfold placed, first_time. rewrite Hdate. reflexivity. }
  unfold ibind at 1, get. cbv beta iota. unfold ibind at 1. rewrite E. cbn [negb].
  unfold ibind at 1, normalize_last, modify, occurrence_as_icaltime. cbv beta iota.
  rewrite (at_last _ _ _ _ _ Ha).
  rewrite normalize_idempotent_on_normalized by (exact Hds || exact start_clock).
  unfold ibind at 1, get. cbn [last set_last first_time year].
  rewrite (proj2 (Z.ltb_ge _ _)) by apply Hyear. reflexivity.
Qed.

Lemma init_simple fuel st :
  init_iterator fuel (fresh_iterator r ds) st = __iterator_set_start fuel ds created st.
Proof. apply init_defaults, Hr. Qed.
End Creation.

(** ** The whole sequence *)

(** How many multiples of the interval come before the end of the supported
    years, and how many of them COUNT admits. *)
Definition in_years (r : icalrecurrencetype) (ds : icaltimetype) : Z :=
  (limit - instant ds + step r - 1) / step r.
Definition number_of_occurrences (r : icalrecurrencetype) (ds : icaltimetype) : Z :=
  if count r =? 0 then in_years r ds else Z.min (in_years r ds) (count r).

Section Sequence.
Context `{TZ : TimezoneConv}.
Context (r : icalrecurrencetype) (ds : icaltimetype) (w : list Z) (fuel : nat) (st : error_state).
Context (Hu : 0 < unit_seconds (freq r)) (Hi : 1 <= interval r) (Huntil : until r = icaltime_null_time).
Context (Hf : filled r ds w) (Hw : w = [] \/ freq r = ICAL_WEEKLY_RECURRENCE).
Context (Hds : normalized ds) (Hdate : icaltime_is_date ds = false) (Hyear : 0 <= year ds).
Context (Hcount : 0 <= count r) (Hfuel : (0 < fuel)%nat).

Lemma in_years_spec k : k < in_years r ds <-> instant ds + k * step r < limit.
Proof.
  pose proof (step_pos r Hu Hi). unfold in_years. split; intros H1.
  - assert (k + 1 <= (limit - instant ds + step r - 1) / step r) as H2 by lia.
    apply Z.mul_le_mono_nonneg_l with (p := step r) in H2; [|lia].
    pose proof (Z.mul_div_le (limit - instant ds + step r - 1) (step r)). lia.
  - apply Z.lt_le_trans with (k + 1); [lia|]. apply Z.div_le_lower_bound; [assumption | lia].
Qed.

(** Once COUNT is reached, or the next time is past the years, the sequence
    ends. *)
Lemma next_ends t n i :
  on_grid r ds t n -> 0 <= n -> instant t < limit -> at_time r ds t (n + 1) i ->
  number_of_occurrences r ds <= n + 1 ->
  exists j, icalrecur_iterator_next fuel i st = Some (icaltime_null_time, j, st).
Proof.
  intros Ht Hn Hl Ha Hend. pose proof (moved_on_grid r ds Hu Hdate t n Ht) as Ht'.
  pose proof (in_years_spec (n + 1)) as Hspec.
  unfold icalrecur_iterator_next, ibind at 1, get. cbv beta iota. unfold past_until at 1.
  rewrite (at_rule _ _ _ _ _ Ha), (at_count _ _ _ _ _ Ha), Huntil.
  destruct (negb (count r =? 0) && (count r <=? n + 1)) eqn:Ec; [eexists; reflexivity|].
  cbn [orb]. change (negb (icaltime_is_null_time icaltime_null_time)) with false. cbn [andb].
  destruct (Z.eqb_spec (n + 1) 0); [lia|]. cbn [andb]. unfold ibind at 1, iret at 1. cbv beta iota.
  destruct (step_next_moves r ds t (n + 1) w Hf ltac:(eapply grid_in_phase; eassumption)
              fuel i st Ha Hu) as (j & Ej & Hj).
  destruct fuel as [|fuel']; [lia|]. cbn [next_loop]. unfold ibind at 1. rewrite Ej. cbn [negb].
  unfold ibind at 1, normalize_last, modify at 1. cbv beta iota. unfold ibind at 1, get. cbv beta iota.
  assert (past_end (set_last (occurrence_as_icaltime true j) j) = true) as ->; [|eexists; reflexivity].
  unfold past_end, occurrence_as_icaltime. rewrite (at_last _ _ _ _ _ Hj).
  rewrite normalize_idempotent_on_normalized
    by first [exact (grid_normalized _ _ _ _ Ht') | exact (grid_clock r ds Hdate _ _ Ht')].
  cbn [last set_last]. rewrite (proj2 (Z.ltb_lt _ _)); [reflexivity|].
  assert (in_years r ds <= n + 1) as Hy.
  { unfold number_of_occurrences in Hend. destruct (Z.eqb_spec (count r) 0); [lia|].
    cbn [negb andb] in Ec. lia. }
  apply year_above_limit; [apply Ht' | exact (grid_clock r ds Hdate _ _ Ht')|].
  rewrite (grid_instant _ _ _ _ Ht'). lia.
Qed.

Lemma occurrences_from m t n i :
  on_grid r ds t n -> 0 <= n -> instant t < limit -> at_time r ds t (n + 1) i ->
  exists l, occurrences m fuel i st = Some l /\
    length l = Nat.min m (Z.to_nat (number_of_occurrences r ds - (n + 1))) /\
    forall k t', nth_error l k = Some t' -> on_grid r ds t' (n + 1 + Z.of_nat k).
Proof.
  revert t n i. induction m as [|m IH]; intros t n i Ht Hn Hl Ha; cbn [occurrences].
  { exists []. split; [reflexivity|]. split; [reflexivity|]. intros [|k] t' H; discriminate. }
  destruct (Z.le_gt_cases (number_of_occurrences r ds) (n + 1)) as [He|He].
  { destruct (next_ends t n i Ht Hn Hl Ha He) as (j & ->). exists [].
    split; [reflexivity|]. split; [cbn [length]; lia|]. intros [|k] t' H; discriminate. }
  assert (instant ds + (n + 1) * step r < limit) as Hnext.
  { apply in_years_spec. unfold number_of_occurrences in He. destruct (_ =? 0); lia. }
  assert (count r = 0 \/ n + 1 < count r) as Hc.
  { unfold number_of_occurrences in He. destruct (Z.eqb_spec (count r) 0); [left | right]; lia. }
  destruct (next_returns_next r ds w Hu Hi Huntil Hf Hw Hds Hdate Hyear t n i st fuel
              Ht Hn Hnext Ha Hc Hfuel) as (t' & j & Ej & Ht' & Ha').
  assert (instant t' < limit) as Hl' by (rewrite (grid_instant _ _ _ _ Ht'); exact Hnext).
  destruct (IH t' (n + 1) j Ht' ltac:(lia) Hl' Ha') as (l & El & Hlen & Hnth).
  exists (t' :: l). rewrite Ej, (grid_not_null r ds Hu Hi Hds Hdate Hyear t' (n + 1)) by (assumption || lia).
  rewrite El. split; [reflexivity|]. split; [cbn [length]; lia|].
  intros [|k] x Hx; cbn in Hx; [injection Hx as <-; rewrite Z.add_0_r; assumption|].
  replace (n + 1 + Z.of_nat (S k)) with (n + 1 + 1 + Z.of_nat k) by lia. apply Hnth, Hx.
Qed.
End Sequence.

Lemma dtstart_ok_normalized ds :
  dtstart_ok ds = true -> is_date ds = 0 -> normalized ds /\ 0 <= year ds <= MAX_TIME_T_YEAR.
Proof.
  unfold dtstart_ok. intros H Hd. rewrite Hd in H. change (truthy 0) with false in H. cbn [orb] in H.
  bools. repeat split; lia.
Qed.

Section Theorems.
Context `{TZ : TimezoneConv}.

(** The first call returns DTSTART. *)
Lemma next_returns_first r ds w fuel i st :
  0 < unit_seconds (freq r) -> 1 <= interval r -> until r = icaltime_null_time -> 0 <= count r ->
  filled r ds w -> (w = [] \/ freq r = ICAL_WEEKLY_RECURRENCE) ->
  normalized ds -> icaltime_is_date ds = false -> 0 <= year ds ->
  at_time r ds (first_time ds) 0 i ->
  icalrecur_iterator_next fuel i st = Some (first_time ds, set_occurrence_no 1 i, st).
Proof.
  intros Hu Hi Huntil Hc Hf Hw Hds Hdate Hy Ha.
  assert (on_grid r ds (first_time ds) 0) as Hg.
  { constructor; try reflexivity; [exact Hds | unfold instant; cbn; lia]. }
  unfold icalrecur_iterator_next, ibind at 1, get. cbv beta iota. unfold past_until.
  rewrite (at_rule _ _ _ _ _ Ha), (at_count _ _ _ _ _ Ha), Huntil.
  assert (negb (count r =? 0) && (count r <=? 0) = false) as ->.
  { destruct (Z.eqb_spec (count r) 0); [reflexivity|]. cbn. lia. }
  change (negb (icaltime_is_null_time icaltime_null_time)) with false. cbn [orb andb].
  change (0 =? 0) with true. rewrite (at_last _ _ _ _ _ Ha), (at_istart _ _ _ _ _ Ha).
  rewrite (proj2 (Z.leb_le _ _)) by (eapply (grid_compare r ds); eassumption || lia). cbn [andb].
  assert (check_contracting_rules i = Some true) as -> by (eapply grid_contracting; eassumption).
  reflexivity.
Qed.

Lemma iterator_new_simple r ds fuel st :
  simple_rule r -> dtstart_ok ds = true -> is_date ds = 0 ->
  exists i w, icalrecur_iterator_new fuel r ds st = Some (Some i, with_errno st ICAL_NO_ERROR) /\
    filled (rule i) ds w /\ (w = [] \/ freq (rule i) = ICAL_WEEKLY_RECURRENCE) /\
    freq (rule i) = freq r /\ interval (rule i) = interval r /\ count (rule i) = count r /\
    until (rule i) = until r /\ at_time (rule i) ds (first_time ds) 0 i.
Proof.
  intros Hr Hok Hd. destruct (dtstart_ok_normalized ds Hok Hd) as [Hn Hy].
  destruct (set_start_simple r ds Hr Hn Hd Hy fuel (with_errno st ICAL_NO_ERROR)) as (i & w & E & H).
  exists i, w. split; [|exact H]. unfold icalrecur_iterator_new, icalerror_clear_errno, put_icalerrno.
  assert (rule_legal r = true) as ->.
  { destruct Hr as (_ & _ & Hb & _). apply forallb_forall. intros b _. rewrite Hb.
    rewrite andb_false_r. reflexivity. }
  rewrite Hok. assert (freq_eqb (freq r) ICAL_NO_RECURRENCE = false) as ->.
  { destruct Hr as (Hu & _). destruct (freq r); reflexivity || (cbn in Hu; lia). }
  cbn [negb orb]. rewrite init_simple by assumption. unfold with_errno in E. rewrite E. reflexivity.
Qed.

(** C4: A rule without BY parts and UNTIL whose frequency is SECONDLY to WEEKLY:
    [icalrecur_iterator_new] succeeds on every valid DTSTART, every call of
    [icalrecur_iterator_next] terminates, and together they return exactly DTSTART
    plus the multiples of the interval - in order, without gaps, in DTSTART's zone,
    COUNT of them if given - until the year 2582 ends. *)
Theorem simple_rule_occurrences r ds st fuel n :
  simple_rule r -> 0 <= count r -> dtstart_ok ds = true -> is_date ds = 0 -> (0 < fuel)%nat ->
  exists i st' l,
    icalrecur_iterator_new fuel r ds st = Some (Some i, st') /\
    occurrences n fuel i st' = Some l /\
    length l = Nat.min n (Z.to_nat (number_of_occurrences r ds)) /\
    forall k t, nth_error l k = Some t ->
      normalized t /\ is_date t = is_date ds /\ zone t = zone ds /\
      instant t = instant ds + Z.of_nat k * step r.
Proof.
  intros Hr Hc Hok Hd Hfuel. destruct (dtstart_ok_normalized ds Hok Hd) as [Hn Hy].
  destruct (iterator_new_simple r ds fuel st Hr Hok Hd)
    as (i & w & E & Hf & Hw & Ef & Ei & Ec & Eu & Ha).
  destruct Hr as (Hu & Hi & _ & _ & Huntil). rewrite <- Ef in Hu. rewrite <- Ei in Hi.
  rewrite <- Eu in Huntil. rewrite <- Ec in Hc.
  assert (step r = step (rule i)) as Es by (unfold step; congruence).
  assert (number_of_occurrences r ds = number_of_occurrences (rule i) ds) as En.
  { unfold number_of_occurrences, in_years. rewrite Es, Ec. reflexivity. }
  assert (icaltime_is_date ds = false) as Hdate by (unfold icaltime_is_date; rewrite Hd; reflexivity).
  assert (on_grid (rule i) ds (first_time ds) 0) as Hg.
  { constructor; try reflexivity; [exact Hn | unfold instant; cbn; lia]. }
  assert (instant (first_time ds) < limit) as Hl.
  { destruct (Z.lt_ge_cases (instant (first_time ds)) limit) as [|Hge]; [assumption|].
    apply (year_above_limit (first_time ds) Hn (start_clock ds Hn Hd)) in Hge. cbn in Hge. lia. }
  exists i, (with_errno st ICAL_NO_ERROR). rewrite Es, En.
  destruct n as [|n].
  { exists []. do 2 (split; [assumption || reflexivity|]). split; [reflexivity|].
    intros [|k] t; discriminate. }
  cbn [occurrences]. erewrite next_returns_first by (eassumption || lia).
  rewrite (grid_not_null (rule i) ds Hu Hi Hn Hdate ltac:(lia) _ 0 Hg ltac:(lia) Hl).
  destruct (occurrences_from (rule i) ds w fuel (with_errno st ICAL_NO_ERROR) Hu Hi Huntil Hf Hw Hn
              Hdate ltac:(lia) Hc Hfuel n (first_time ds) 0 (set_occurrence_no 1 i) Hg ltac:(lia) Hl)
    as (l & El & Hlen & Hnth); [destruct Ha; constructor; auto|].
  rewrite El. exists (first_time ds :: l). split; [exact E|]. split; [reflexivity|].
  split.
  - assert (1 <= number_of_occurrences (rule i) ds); [|cbn [length]; lia].
    assert (0 < in_years (rule i) ds).
    { eapply in_years_spec; try eassumption. rewrite (grid_instant _ _ _ _ Hg) in Hl. assumption. }
    unfold number_of_occurrences. destruct (Z.eqb_spec (count (rule i)) 0); lia.
  - intros [|k] t Ht; cbn in Ht.
    + injection Ht as <-. destruct Hg. auto.
    + apply Hnth in Ht. destruct Ht as [Hnt ? ? Hinst].
      split; [assumption|]. split; [assumption|]. split; [assumption|].
      rewrite Hinst. f_equal. f_equal. lia.
Qed.
End Theorems.

(** Every 90 minutes from 2 September 1997, 09:00, four times. *)
Definition sample_minutely : icalrecurrencetype :=
  Recur ICAL_MINUTELY_RECURRENCE icaltime_null_time 4 90 ICAL_MONDAY_WEEKDAY
    [] [] [] [] [] [] [] [] [] None ICAL_SKIP_OMIT.

Lemma simple_rule_occurrences_witness :
  let ds := IcalTime 1997 9 2 9 0 0 0 0 ZONE_NULL in
  number_of_occurrences sample_minutely ds = 4 /\
  exists i st' l,
    icalrecur_iterator_new (TZ := utc_only) 1 sample_minutely ds sample_state = Some (Some i, st') /\
    occurrences (TZ := utc_only) 10 1 i st' = Some l /\ length l = 4%nat.
Proof.
  split; [vm_compute; reflexivity|].
  destruct (simple_rule_occurrences (TZ := utc_only) sample_minutely
              (IcalTime 1997 9 2 9 0 0 0 0 ZONE_NULL) sample_state 1 10) as (i & st' & l & E & El & Hl & _);
    [repeat split; try reflexivity; try (vm_compute; congruence); intros []; reflexivity
    | vm_compute; discriminate | vm_compute; reflexivity | reflexivity | apply le_n |].
  exists i, st', l. split; [exact E|]. split; [exact El|]. rewrite Hl. vm_compute. reflexivity.
Defined.
