(* ===== verification/IcalRecurExpand.v ===== *)
(** * The expansion of a month into the bitmask (icalrecur.c)

    [expand_month_days] marks the days of a month that the BYMONTHDAY, BYDAY and
    BYSETPOS parts of a MONTHLY rule select.  It is shown to mark exactly the days
    of the definition by selection: a day is a member when its number counted from
    the start or from the end of the month is listed, when it is a listed weekday
    (the nth from the start or the end), and when its rank among the candidates is
    a listed position. *)
From Stdlib Require Import String Ascii ZArith Lia Bool List Morphisms.
From S2P Require Import Prelude CString IcalError CalDate IcalTime IcalTimeCalendar IcalRecurType IcalRecurMask IcalRecurIter IcalRecurSound.
Import ListNotations.
#[local] Open Scope Z_scope.
#[local] Open Scope it_scope.

(** ** Sets of days *)

(** The index the iterator keeps: the first day of the set, or the size of the
    mask. *)
Definition first_of (S : Z -> bool) (x : Z) : Prop :=
  (x = ICAL_YEARDAYS_MASK_SIZE /\ forall d, S d = false) \/
  (x < ICAL_YEARDAYS_MASK_SIZE /\ S x = true /\ forall d, d < x -> S d = false).

(** The iterator with another mask and index. *)
Definition with_mask (i : icalrecur_iterator) (M : list Z) (x : Z) : icalrecur_iterator :=
  set_days M (set_days_index x i).

Definition represents (M : list Z) (S : Z -> bool) : Prop :=
  mask_ok M /\ forall d, mem M d = S d.

#[export] Instance represents_proper M :
  Proper (pointwise_relation Z eq ==> iff) (represents M).
Proof. intros S T H. split; intros [Hok Hm]; split; try assumption; intros d; rewrite Hm, H; reflexivity. Qed.

#[export] Instance first_of_proper :
  Proper (pointwise_relation Z eq ==> eq ==> iff) first_of.
Proof.
  intros S T H x y <-.
  split; intros [(E & F) | (L & E & F)];
    [left | right | left | right]; repeat split; try assumption; intros; rewrite ?H, <- ?H; auto;
    rewrite <- H || rewrite H; auto.
Qed.

Definition add_day (n : Z) (S : Z -> bool) (d : Z) : bool := (d =? n) || S d.

Lemma first_of_add S x n :
  first_of S x -> n < ICAL_YEARDAYS_MASK_SIZE -> first_of (add_day n S) (Z.min n x).
Proof.
  unfold add_day. intros H Hn. right.
  destruct H as [(-> & H) | (Hx & E & H)].
  - rewrite Z.min_l by lia. split; [assumption|]. rewrite Z.eqb_refl. split; [reflexivity|].
    intros d Hd. rewrite H. lia.
  - split; [lia|]. split.
    + destruct (Z.min_spec n x) as [[_ ->] | [_ ->]]; [rewrite Z.eqb_refl; reflexivity|].
      rewrite E. apply orb_true_r.
    + intros d Hd. rewrite H by lia. lia.
Qed.

(** ** Steps on the mask *)

Lemma setbit_step i M x S n v st :
  represents M S -> -4 <= n < 380 ->
  exists M', setbit n v (with_mask i M x) st = Some (tt, with_mask i M' x, st) /\
             represents M' (fun d => if d =? n then v else S d).
Proof.
  intros [Hok Hm] Hn. destruct (setbit_spec M n v Hok Hn) as (M' & E & Hok' & Hm').
  exists M'. split.
  - unfold setbit, ibind, get, opt, modify. cbn [days with_mask set_days]. rewrite E. reflexivity.
  - split; [assumption|]. intros d. rewrite Hm', Hm. reflexivity.
Qed.

Lemma getbit_step i M x S n st :
  represents M S -> -4 <= n < 380 ->
  getbit n (with_mask i M x) st = Some (S n, with_mask i M x, st).
Proof.
  intros [Hok Hm] Hn. unfold getbit, ibind, get. cbn [days with_mask set_days].
  rewrite getbit_spec, Hm by assumption. reflexivity.
Qed.

Lemma lower_index_step i M x n st :
  lower_index n (with_mask i M x) st = Some (tt, with_mask i M (Z.min n x), st).
Proof.
  unfold lower_index, ibind, get. cbn [days_index with_mask set_days set_days_index].
  destruct (Z.ltb_spec n x); [rewrite Z.min_l by lia | rewrite Z.min_r by lia]; reflexivity.
Qed.

Lemma mark_day_step i M x S n total st :
  represents M S -> first_of S x -> -4 <= n < ICAL_YEARDAYS_MASK_SIZE ->
  exists M' x', mark_day n total (with_mask i M x) st = Some (total + 1, with_mask i M' x', st) /\
    represents M' (add_day n S) /\ first_of (add_day n S) x'.
Proof.
  intros Hr Hf Hn. unfold ICAL_YEARDAYS_MASK_SIZE in Hn.
  destruct (setbit_step i M x S n true st Hr ltac:(lia)) as (M' & E & HM').
  exists M', (Z.min n x). split.
  - unfold mark_day, ibind. rewrite E, lower_index_step. reflexivity.
  - split; [|apply first_of_add; [assumption | unfold ICAL_YEARDAYS_MASK_SIZE; lia]].
    eapply represents_proper; [|exact HM']. intros d. unfold add_day. destruct (d =? n); reflexivity.
Qed.

(** A loop that marks the days given to the elements of a list. *)
Definition places {A} (place : A -> option Z) (l : list A) : list Z :=
  flat_map (fun v => match place v with Some d => [d] | None => [] end) l.

Definition listed (l : list Z) (d : Z) : bool := existsb (Z.eqb d) l.

Lemma mark_loop {A} (f : Z -> A -> it Z) (place : A -> option Z) i st l :
  (forall total v M x, In v l ->
     f total v (with_mask i M x) st =
     match place v with Some d => mark_day d total | None => iret total end (with_mask i M x) st) ->
  (forall v d, In v l -> place v = Some d -> -4 <= d < ICAL_YEARDAYS_MASK_SIZE) ->
  forall total M x S, represents M S -> first_of S x ->
  exists M' x', ifold f l total (with_mask i M x) st =
                Some (total + Z.of_nat (length (places place l)), with_mask i M' x', st) /\
    represents M' (fun d => listed (places place l) d || S d) /\
    first_of (fun d => listed (places place l) d || S d) x'.
Proof.
  intros Hf Hd. induction l as [|v l IH]; intros total M x S Hr Hx.
  { exists M, x. cbn. rewrite Z.add_0_r. auto. }
  cbn [ifold places flat_map]. unfold ibind. rewrite Hf by (left; reflexivity).
  destruct (place v) as [d|] eqn:Ep.
  - destruct (mark_day_step i M x S d total st Hr Hx) as (M1 & x1 & E1 & Hr1 & Hx1);
      [apply (Hd v); [left|]; auto|].
    rewrite E1.
    destruct (IH ltac:(intros; apply Hf; right; assumption)
                 ltac:(intros; eapply Hd; [right|]; eassumption) (total + 1) M1 x1 (add_day d S) Hr1 Hx1)
      as (M2 & x2 & E2 & Hr2 & Hx2).
    exists M2, x2. split; [|split].
    + fold (places place l). rewrite E2. cbn [app length]. do 3 f_equal. lia.
    + eapply represents_proper; [|exact Hr2]. intros e. unfold add_day. cbn.
      destruct (e =? d); [rewrite orb_true_r|]; reflexivity.
    + eapply first_of_proper; [|reflexivity | exact Hx2]. intros e. unfold add_day. cbn.
      destruct (e =? d); [rewrite orb_true_r|]; reflexivity.
  - unfold iret. apply IH; auto.
    + intros. apply Hf. right. assumption.
    + intros. eapply Hd; [right|]; eassumption.
Qed.

(** ** BYMONTHDAY *)

Definition month_days (y m : Z) : Z := icaltime_days_in_month m y.

(** The day of the year of a day of a month. *)
Definition doy (y m d : Z) : Z := days_before_month y m + d.

Definition weekday_of (y m d : Z) : Z :=
  icaltime_day_of_week (set_date icaltime_null_time y m d).

(** A value of BYMONTHDAY counts from the end of the month when it is negative. *)
Definition month_day_place (y m v : Z) : option Z :=
  if month_days y m <? Z.abs v then None
  else Some (doy y m (if v <? 0 then v + (month_days y m + 1) else v)).

Lemma get_day_of_year_at i y m v :
  1 <= m <= 12 -> v <> 0 ->
  let d := if v <? 0 then v + (month_days y m + 1) else v in
  get_day_of_year i y m v = Some (doy y m d, weekday_of y m d).
Proof.
  intros Hm Hv d. unfold get_day_of_year. destruct (Z.eqb_spec m 0); [lia|].
  destruct (Z.ltb_spec m 1), (Z.ltb_spec 12 m); try lia. cbn [orb].
  destruct (Z.eqb_spec v 0); [lia|]. fold (month_days y m).
  unfold doy, days_before_month, icaltime_day_of_year. cbn [year month day set_date].
  rewrite is_leap_year_leap. reflexivity.
Qed.

Lemma doy_range y m d : valid_date y m d -> 1 <= doy y m d <= 366.
Proof.
  intros [Hm Hd]. unfold doy. pose proof (days_before_month_bound y m Hm).
  pose proof (days_in_year_range y). lia.
Qed.

Lemma month_day_place_valid y m v e :
  1 <= m <= 12 -> v <> 0 -> month_day_place y m v = Some e ->
  exists d, valid_date y m d /\ e = doy y m d.
Proof.
  unfold month_day_place. fold (month_days y m). intros Hm Hv H.
  destruct (Z.ltb_spec (month_days y m) (Z.abs v)); [discriminate|]. injection H as <-.
  eexists. split; [|reflexivity]. split; [assumption|]. unfold month_days in *.
  destruct (Z.ltb_spec v 0); lia.
Qed.

Lemma bymonthday_step_spec i y m total v M x st :
  1 <= m <= 12 -> skip (rule i) = ICAL_SKIP_OMIT -> v <> 0 ->
  bymonthday_step y m (month_days y m) total v (with_mask i M x) st =
  match month_day_place y m v with Some d => mark_day d total | None => iret total end
    (with_mask i M x) st.
Proof.
  intros Hm Hskip Hv. unfold bymonthday_step, ibind at 1, get. cbv beta iota zeta.
  change (rule (with_mask i M x)) with (rule i). rewrite Hskip. cbn [skip_month_day].
  destruct (month_day_place y m v) as [e|] eqn:E.
  - destruct (month_day_place_valid y m v e Hm Hv E) as (d & Hd & ->).
    pose proof (doy_range y m d Hd). unfold month_day_place in E.
    destruct (Z.ltb_spec (month_days y m) (Z.abs v)); [discriminate|]. injection E as E.
    change (0 =? 0) with true. cbv iota. rewrite get_day_of_year_at, E by assumption.
    unfold ibind, opt, iret. rewrite to_short_small by lia. reflexivity.
  - unfold month_day_place in E. destruct (Z.ltb_spec (month_days y m) (Z.abs v)); [reflexivity | discriminate].
Qed.

Lemma expand_bymonth_days_spec i y m st M x S :
  1 <= m <= 12 -> skip (rule i) = ICAL_SKIP_OMIT ->
  Forall (fun v => v <> 0) (by_array BY_MONTH_DAY i) ->
  represents M S -> first_of S x ->
  let l := places (month_day_place y m) (by_array BY_MONTH_DAY i) in
  exists M' x', expand_bymonth_days y m (with_mask i M x) st =
                Some (Z.of_nat (length l), with_mask i M' x', st) /\
    represents M' (fun d => listed l d || S d) /\ first_of (fun d => listed l d || S d) x'.
Proof.
  intros Hm Hskip Hv Hr Hx l. rewrite Forall_forall in Hv.
  unfold expand_bymonth_days, ibind at 1, get. cbv beta iota. unfold ibind at 1, get_days_in_month.
  destruct (Z.ltb_spec m 0), (Z.ltb_spec 12 m); try lia. cbn [orb opt]. unfold iret at 1. cbv beta iota.
  apply (mark_loop (bymonthday_step y m (month_days y m)) (month_day_place y m) i st
           (by_array BY_MONTH_DAY i)); try assumption.
  - intros total v M1 x1 Hin. auto using bymonthday_step_spec.
  - intros v d Hin Hp. apply month_day_place_valid in Hp as (e & He & ->); auto.
    pose proof (doy_range y m e He). unfold ICAL_YEARDAYS_MASK_SIZE. lia.
Qed.

(** ** BYDAY *)

(** The weekday of day [d] of a period whose first day is the weekday [f]. *)
Definition nth_weekday (f d : Z) : Z := (f - 1 + (d - 1)) mod 7 + 1.

(** A BYDAY value selects a day of a period of [n] days: every one of its
    weekday, or the nth from the start or from the end. *)
Definition selects (f n dow pos d : Z) : bool :=
  (dow =? nth_weekday f d)
  && ((pos =? 0) || (pos =? (d - 1) / 7 + 1) || (pos =? - ((n - d) / 7 + 1))).

Definition byday_selects (f n v d : Z) : bool :=
  selects f n (icalrecurrencetype_day_day_of_week v) (icalrecurrencetype_day_position v) d.

(** The days added from day [d] of a period that starts after [off]. *)
Definition instances (pos off n d e : Z) : bool :=
  if pos =? 0 then (off + d <=? e) && (e <=? off + n) && ((e - off - d) mod 7 =? 0)
  else e =? off + d.

Lemma setbit_mask B S n v :
  represents B S -> -4 <= n < 380 ->
  exists B', daysmask_setbit B n v = Some B' /\ represents B' (fun d => if d =? n then v else S d).
Proof.
  intros [Hok Hm] Hn. destruct (setbit_spec B n v Hok Hn) as (B' & E & Hok' & Hm').
  exists B'. split; [assumption|]. split; [assumption|]. intros d. rewrite Hm', Hm. reflexivity.
Qed.

Lemma add_instances_spec i pos off n st_fuel d wk B S :
  has_by_data BY_WEEK_NO i = false -> represents B S -> 0 <= off -> off + n < 380 ->
  1 <= d <= n -> 1 <= wk -> (n - d) / 7 < Z.of_nat st_fuel ->
  exists B', add_instances st_fuel i pos off n d wk B = Some B' /\
             represents B' (fun e => instances pos off n d e || S e).
Proof.
  intros Hw. revert d wk B S. induction st_fuel as [|k IH]; intros d wk B S Hr Ho Hn Hd Hwk Hf.
  { zdiv. }
  cbn [add_instances]. rewrite Hw. cbn [negb orb]. rewrite to_short_small by lia.
  destruct (setbit_mask B S (d + off) true Hr ltac:(lia)) as (B1 & E1 & Hr1). rewrite E1.
  unfold instances. destruct (Z.eqb_spec pos 0) as [->|Hp]; cbn [negb].
  2:{ exists B1. split; [reflexivity|]. eapply represents_proper; [|exact Hr1]. intros e. cbn.
      rewrite (Z.add_comm off d). destruct (e =? d + off); reflexivity. }
  destruct (Z.ltb_spec n (d + 7)).
  { exists B1. split; [reflexivity|]. eapply represents_proper; [|exact Hr1]. intros e. cbn beta.
    destruct (Z.eqb_spec e (d + off)) as [->|].
    - replace (d + off - off - d) with 0 by lia. rewrite Z.mod_0_l by lia. lia.
    - destruct (Z.leb_spec (off + d) e), (Z.leb_spec e (off + n)); try reflexivity.
      cbn [andb]. destruct (Z.eqb_spec ((e - off - d) mod 7) 0); [zdiv | reflexivity]. }
  destruct (Z.eqb_spec (wk + 1) 0); [lia|].
  destruct (IH (d + 7) (wk + 1) B1 _ Hr1) as (B2 & E2 & Hr2); try lia; [zdiv|].
  exists B2. split; [assumption|]. eapply represents_proper; [|exact Hr2]. intros e.
  unfold instances. change (0 =? 0) with true. cbv iota.
  destruct (Z.eqb_spec e (d + off)) as [->|Hne].
  - replace (d + off - off - d) with 0 by lia. rewrite Z.mod_0_l by lia.
    destruct (Z.leb_spec (off + (d + 7)) (d + off)); [lia|].
    destruct (Z.leb_spec (off + d) (d + off)), (Z.leb_spec (d + off) (off + n)); lia || reflexivity.
  - f_equal. destruct (Z.leb_spec e (off + n)); [|rewrite !andb_false_r; reflexivity].
    rewrite !andb_true_r.
    destruct (Z.leb_spec (off + (d + 7)) e), (Z.leb_spec (off + d) e); try lia; cbn [andb];
      try reflexivity; apply Bool.eq_iff_eq_true; rewrite ?Z.eqb_eq; zdiv || (split; [discriminate | zdiv]).
Qed.

Lemma get_week_number_pos i t : 1 <= get_week_number i t.
Proof.
  unfold get_week_number. cbv zeta. set (w := Z.quot _ 7). clearbody w.
  assert (forall y, 52 <= weeks_in_year y) as H by (intros y; unfold weeks_in_year, b2z; case_if; lia).
  destruct (Z.ltb_spec w 1); [pose proof (H (year t - 1)); lia|].
  destruct (weeks_in_year (year t) <? w); lia.
Qed.

Section Period.
Context (f n off : Z) (Hf : 1 <= f <= 7) (Hn : 7 <= n) (Ho : 0 <= off) (Hon : off + n < 380).

Definition in_period (e : Z) : bool := (off + 1 <=? e) && (e <=? off + n).

Lemma first_instance_spec dow pos :
  1 <= dow <= 7 ->
  match first_instance dow pos f (nth_weekday f n) n with
  | None => forall d, 1 <= d <= n -> selects f n dow pos d = false
  | Some d0 => 1 <= d0 <= n /\
      forall e, instances pos off n d0 e = in_period e && selects f n dow pos (e - off)
  end.
Proof.
  intros Hd. unfold first_instance. cbv zeta.
  set (fm := Z.rem (dow + 7 - f) 7 + 1). set (lm := n - Z.rem (nth_weekday f n + 7 - dow) 7).
  assert (1 <= fm <= 7 /\ nth_weekday f fm = dow) as [Hfm Efm].
  { unfold fm, nth_weekday. rewrite rem_mod_nonneg by lia. split; zdiv. }
  assert (n - 6 <= lm <= n /\ nth_weekday f lm = dow) as [Hlm Elm].
  { assert (1 <= nth_weekday f n <= 7) by (unfold nth_weekday; zdiv).
    unfold lm. rewrite rem_mod_nonneg by lia. split; [zdiv|]. unfold nth_weekday in *. zdiv. }
  clearbody fm lm.
  assert (forall a b, nth_weekday f a = nth_weekday f b <-> (a - b) mod 7 = 0) as Hwd.
  { intros a b. unfold nth_weekday. split; intros; zdiv. }
  assert (forall d, dow = nth_weekday f d <-> (d - fm) mod 7 = 0) as Hw1.
  { intros d. rewrite <- Efm at 1. rewrite Hwd. split; intros; zdiv. }
  assert ((lm - fm) mod 7 = 0) as Hlf by (apply Hwd; congruence).
  assert (forall d, (dow =? nth_weekday f d) = ((d - fm) mod 7 =? 0)) as Hb.
  { intros d. apply Bool.eq_iff_eq_true. rewrite !Z.eqb_eq. apply Hw1. }
  destruct (Z.eqb_spec pos 0) as [->|Hp].
  - split; [lia|]. intros e. unfold instances, selects, in_period. rewrite Hb. change (0 =? 0) with true.
    cbn [orb]. rewrite andb_true_r. apply Bool.eq_iff_eq_true.
    rewrite !andb_true_iff, !Z.leb_le, !Z.eqb_eq. zdiv.
  - destruct (Z.ltb_spec 0 pos) as [Hpos|Hneg].
    + destruct (Z.ltb_spec lm (fm + (pos - 1) * 7)) as [Hgt|Hle].
      * intros d Hd0. unfold selects. rewrite Hb. apply Bool.not_true_iff_false.
        rewrite !andb_true_iff, !orb_true_iff, !Z.eqb_eq. zdiv.
      * split; [lia|]. intros e. unfold instances, selects, in_period. rewrite Hb.
        destruct (Z.eqb_spec pos 0); [lia|]. apply Bool.eq_iff_eq_true.
        rewrite !andb_true_iff, !orb_true_iff, !Z.leb_le, !Z.eqb_eq. zdiv.
    + destruct (Z.ltb_spec (lm + (pos + 1) * 7) fm) as [Hgt|Hle].
      * intros d Hd0. unfold selects. rewrite Hb. apply Bool.not_true_iff_false.
        rewrite !andb_true_iff, !orb_true_iff, !Z.eqb_eq. zdiv.
      * split; [lia|]. intros e. unfold instances, selects, in_period. rewrite Hb.
        destruct (Z.eqb_spec pos 0); [lia|]. apply Bool.eq_iff_eq_true.
        rewrite !andb_true_iff, !orb_true_iff, !Z.leb_le, !Z.eqb_eq. zdiv.
Qed.

Lemma mark_bydays_spec i y l B S :
  has_by_data BY_WEEK_NO i = false -> n <= 366 ->
  Forall (fun v => 1 <= icalrecurrencetype_day_day_of_week v <= 7) l -> represents B S ->
  exists B', mark_bydays l i y off n f (nth_weekday f n) B = Some B' /\
    represents B' (fun e => in_period e && existsb (fun v => byday_selects f n v (e - off)) l || S e).
Proof.
  intros Hw Hn' Hl. revert B S. induction Hl as [|v l Hv Hl IH]; intros B S Hr.
  { exists B. split; [reflexivity|]. eapply represents_proper; [|exact Hr]. intros e. cbn.
    rewrite andb_false_r. reflexivity. }
  cbn [mark_bydays].
  pose proof (first_instance_spec _ (icalrecurrencetype_day_position v) Hv) as Hi.
  destruct (first_instance _ _ _ _ _) as [d0|].
  - destruct Hi as [Hd0 Hi]. destruct (__icaltime_from_day_of_year i (d0 + off) y) as [t wk] eqn:Ew.
    assert (1 <= wk) as Hwk by (injection Ew as _ <-; apply get_week_number_pos).
    destruct (add_instances_spec i (icalrecurrencetype_day_position v) off n 60 d0 wk B S)
      as (B1 & E1 & Hr1); try assumption; [zdiv|].
    rewrite E1. destruct (IH B1 _ Hr1) as (B2 & E2 & Hr2). exists B2. split; [assumption|].
    eapply represents_proper; [|exact Hr2]. intros e. cbn [existsb]. rewrite Hi. unfold byday_selects.
    destruct (in_period e), (selects _ _ _ _ _), (existsb _ l); reflexivity.
  - destruct (IH B S Hr) as (B2 & E2 & Hr2). exists B2. split; [assumption|].
    eapply represents_proper; [|exact Hr2]. intros e. cbn [existsb]. unfold byday_selects.
    destruct (in_period e) eqn:Ep; [|reflexivity]. unfold in_period in Ep. rewrite Hi by lia. reflexivity.
Qed.
End Period.

(** ** Loops over a range of days *)

(** How many days from [a] up to but not including [d] are in the set. *)
Definition count_before (P : Z -> bool) (a d : Z) : Z :=
  Z.of_nat (length (filter P (day_range a (Z.to_nat (d - a))))).

Lemma count_before_self P a : count_before P a a = 0.
Proof. unfold count_before. rewrite Z.sub_diag. reflexivity. Qed.

Lemma count_before_step P a d :
  a < d -> count_before P a d = b2z (P a) + count_before P (a + 1) d.
Proof.
  intros H. unfold count_before. replace (Z.to_nat (d - a)) with (S (Z.to_nat (d - (a + 1)))) by lia.
  cbn [day_range filter]. destruct (P a); cbn [length b2z]; lia.
Qed.

Lemma in_day_range a n d : In d (day_range a n) <-> a <= d < a + Z.of_nat n.
Proof.
  revert a. induction n as [|n IH]; intros a; cbn [day_range In]; [lia|].
  rewrite IH. lia.
Qed.

Lemma find_ext {A} (P Q : A -> bool) l : (forall x, In x l -> P x = Q x) -> find P l = find Q l.
Proof.
  induction l as [|x l IH]; intros H; [reflexivity|]. cbn. rewrite (H x) by (left; reflexivity).
  destruct (Q x); [reflexivity|]. apply IH. intros y Hy. apply H. right. assumption.
Qed.

Lemma count_before_ext P Q a d : (forall e, a <= e < d -> P e = Q e) -> count_before P a d = count_before Q a d.
Proof.
  intros H. unfold count_before. do 2 f_equal. apply filter_ext_in. intros e He.
  apply in_day_range in He. apply H. lia.
Qed.

(** A loop over the days from [a] that gives each its new bit [V] - which may
    depend on the number counted so far - and counts those with [inc]. *)
Definition loop_value (V : Z -> Z -> bool) (inc : Z -> bool) (acc a e : Z) : bool :=
  V (acc + count_before inc a e) e.

Definition lowered (P : Z -> bool) (l : list Z) (x : Z) : Z :=
  match find P l with Some d => Z.min d x | None => x end.

Lemma lowered_ext P Q a n x :
  (forall e, a <= e < a + Z.of_nat n -> P e = Q e) ->
  lowered P (day_range a n) x = lowered Q (day_range a n) x.
Proof.
  intros H. unfold lowered. rewrite (find_ext P Q); [reflexivity|]. intros e He.
  apply H, in_day_range, He.
Qed.

Lemma range_loop (f : Z -> Z -> it Z) (V : Z -> Z -> bool) (inc : Z -> bool) i st (S0 : Z -> bool) a0 n0 :
  (forall acc M x S doy, represents M S -> S doy = S0 doy -> a0 <= doy < a0 + Z.of_nat n0 ->
     exists M', f acc doy (with_mask i M x) st =
       Some (acc + b2z (inc doy), with_mask i M' (if V acc doy then Z.min doy x else x), st) /\
       represents M' (fun e => if e =? doy then V acc doy else S e)) ->
  forall n a acc M x S, a0 <= a -> a + Z.of_nat n <= a0 + Z.of_nat n0 ->
  represents M S -> (forall e, a <= e -> S e = S0 e) ->
  exists M', ifold f (day_range a n) acc (with_mask i M x) st =
    Some (acc + count_before inc a (a + Z.of_nat n),
          with_mask i M' (lowered (loop_value V inc acc a) (day_range a n) x), st) /\
    represents M' (fun e => if (a <=? e) && (e <? a + Z.of_nat n) then loop_value V inc acc a e else S e).
Proof.
  intros Hf. induction n as [|n IH]; intros a acc M x S Ha Hn Hr HS.
  { exists M. rewrite Z.add_0_r, count_before_self, Z.add_0_r. split; [reflexivity|].
    eapply represents_proper; [|exact Hr]. intros e.
    destruct (Z.leb_spec a e), (Z.ltb_spec e a); try lia; reflexivity. }
  cbn [day_range ifold]. unfold ibind.
  destruct (Hf acc M x S a Hr) as (M1 & E1 & Hr1); [apply HS; lia | lia|]. rewrite E1.
  assert (loop_value V inc acc a a = V acc a) as Va.
  { unfold loop_value. rewrite count_before_self, Z.add_0_r. reflexivity. }
  assert (forall e, a + 1 <= e ->
    loop_value V inc (acc + b2z (inc a)) (a + 1) e = loop_value V inc acc a e) as Vs.
  { intros e He. unfold loop_value. rewrite (count_before_step inc a e), Z.add_assoc by lia. reflexivity. }
  destruct (IH (a + 1) (acc + b2z (inc a)) M1 (if V acc a then Z.min a x else x)
              (fun e => if e =? a then V acc a else S e)) as (M2 & E2 & Hr2); try lia; [assumption | |].
  { intros e He. destruct (Z.eqb_spec e a); [lia|]. apply HS. lia. }
  exists M2. split.
  - rewrite E2. rewrite (count_before_step inc a (a + Z.of_nat (Datatypes.S n))) by lia.
    replace (a + 1 + Z.of_nat n) with (a + Z.of_nat (Datatypes.S n)) by lia.
    rewrite Z.add_assoc. do 3 f_equal. unfold lowered. cbn [find].
    rewrite (find_ext _ (loop_value V inc acc a)) by (intros e He; apply in_day_range in He; apply Vs; lia).
    rewrite Va. destruct (V acc a); [|reflexivity].
    destruct (find (loop_value V inc acc a) (day_range (a + 1) n)) as [d|] eqn:Ed; [|reflexivity].
    apply find_some in Ed as [Hin _]. apply in_day_range in Hin. f_equal. lia.
  - eapply represents_proper; [|exact Hr2]. intros e. cbn beta.
    destruct (Z.eqb_spec e a) as [->|].
    + destruct (Z.leb_spec a a), (Z.ltb_spec a (a + Z.of_nat (Datatypes.S n))), (Z.leb_spec (a + 1) a); try lia.
      cbn [andb]. congruence.
    + destruct (Z.leb_spec (a + 1) e), (Z.leb_spec a e), (Z.ltb_spec e (a + 1 + Z.of_nat n)),
        (Z.ltb_spec e (a + Z.of_nat (Datatypes.S n))); try lia; cbn [andb]; try reflexivity.
      symmetry. apply Vs. lia.
Qed.

Lemma first_of_lowered P a n :
  (forall d, P d = true -> a <= d < a + Z.of_nat n) -> a + Z.of_nat n <= ICAL_YEARDAYS_MASK_SIZE ->
  first_of P (lowered P (day_range a n) ICAL_YEARDAYS_MASK_SIZE).
Proof.
  intros HP Hn. unfold lowered.
  assert (forall k b, a <= b -> b + Z.of_nat k <= ICAL_YEARDAYS_MASK_SIZE ->
    (forall d, d < b -> P d = false) ->
    (forall d, b + Z.of_nat k <= d -> P d = false) ->
    first_of P (match find P (day_range b k) with
                | Some d => Z.min d ICAL_YEARDAYS_MASK_SIZE | None => ICAL_YEARDAYS_MASK_SIZE end)) as H.
  { induction k as [|k IH]; intros b Hb Hk Hlow Hhigh; cbn [day_range find].
    - left. split; [reflexivity|]. intros d. destruct (Z.lt_ge_cases d b); [auto | apply Hhigh; lia].
    - destruct (P b) eqn:Eb.
      + right. rewrite Z.min_l by lia. split; [lia|]. auto.
      + apply IH; try lia.
        * intros d Hd. destruct (Z.eq_dec d b) as [->|]; [assumption | apply Hlow; lia].
        * intros d Hd. apply Hhigh. lia. }
  apply H; try lia.
  - intros d Hd. destruct (P d) eqn:E; [apply HP in E; lia | reflexivity].
  - intros d Hd. destruct (P d) eqn:E; [apply HP in E; lia | reflexivity].
Qed.

(** ** Applying BYDAY *)

(** The days after BYDAY has been applied to a period: those it selects, limited
    to the days already marked when [limiting]. *)
Definition apply_byday (i : icalrecur_iterator) (off n f : Z) (limiting : bool) (S : Z -> bool) (e : Z)
  : bool :=
  if in_period n off e
  then (if limiting then S e else true) && existsb (fun v => byday_selects f n v (e - off)) (by_array BY_DAY i)
  else S e.

Lemma byday_step_spec i st B W M x S (limiting : bool) total e :
  represents B W -> represents M S -> -4 <= e < 380 ->
  let v := (if limiting then S e else true) && W e in
  exists M', byday_step B limiting total e (with_mask i M x) st =
    Some (total + b2z v, with_mask i M' (if v then Z.min e x else x), st) /\
    represents M' (fun d => if d =? e then v else S d).
Proof.
  intros [HB HW] HM He v. unfold byday_step. rewrite getbit_spec, HW by assumption.
  cbn [opt]. unfold ibind at 1, iret at 1. cbv beta iota.
  assert ((if limiting then b <- getbit e ;; iret (b && W e) else iret (W e) : it bool)
            (with_mask i M x) st =
          Some (v, with_mask i M x, st)) as Ev.
  { unfold v. destruct limiting; [|reflexivity]. unfold ibind. erewrite getbit_step by eassumption. reflexivity. }
  unfold ibind at 1. rewrite Ev.
  destruct (setbit_step i M x S e v st HM He) as (M' & E' & HM'). exists M'. split; [|exact HM'].
  unfold ibind at 1. rewrite E'. unfold ibind, iret. destruct v; cbn [b2z].
  - rewrite lower_index_step. reflexivity.
  - rewrite Z.add_0_r. reflexivity.
Qed.

Lemma expand_by_day_spec i y off n f limiting st M x S :
  has_by_data BY_WEEK_NO i = false ->
  Forall (fun v => 1 <= icalrecurrencetype_day_day_of_week v <= 7) (by_array BY_DAY i) ->
  1 <= f <= 7 -> 7 <= n <= 366 -> 0 <= off -> off + n < 380 -> represents M S ->
  let T := apply_byday i off n f limiting S in
  exists M', expand_by_day y off n f (nth_weekday f n) limiting (with_mask i M x) st =
    Some (count_before T (off + 1) (off + 1 + n),
          with_mask i M' (lowered T (day_range (off + 1) (Z.to_nat n)) x), st) /\
    represents M' T.
Proof.
  intros Hw Hd Hf Hn Ho Hon HM T.
  destruct (mark_bydays_spec f n off Hf ltac:(lia) Ho Hon (with_mask i M x) y (by_array BY_DAY i)
              daysmask_clearall (fun _ => false) Hw ltac:(lia) Hd) as (B & EB & HB).
  { split; apply clearall_ok. }
  unfold expand_by_day, ibind at 1, get. cbv beta iota. unfold ibind at 1.
  change (by_array BY_DAY (with_mask i M x)) with (by_array BY_DAY i). rewrite EB.
  cbn [opt]. unfold iret at 1. cbv beta iota.
  set (V := fun e => (if limiting then S e else true) &&
    (in_period n off e && existsb (fun v => byday_selects f n v (e - off)) (by_array BY_DAY i) || false)).
  assert (forall e, in_period n off e = true -> V e = T e) as HVT.
  { intros e He. unfold V, T, apply_byday. rewrite He. cbn [andb]. rewrite orb_false_r. reflexivity. }
  destruct (range_loop (byday_step B limiting) (fun _ e => V e) V i st S (off + 1) (Z.to_nat n))
    with (n := Z.to_nat n) (a := off + 1) (acc := 0) (M := M) (x := x) (S := S) as (M' & E' & HM');
    try lia; try assumption; try reflexivity.
  { intros acc M1 x1 S1 e HM1 HS1 He. unfold V. rewrite <- HS1.
    apply (byday_step_spec i st B _ M1 x1 S1 limiting acc e HB HM1). lia. }
  rewrite Z2Nat.id in * by lia. exists M'. rewrite E'. unfold loop_value in *. split.
  - rewrite Z.add_0_l, (count_before_ext V T), (lowered_ext _ T);
      [reflexivity | intros e He; apply HVT; unfold in_period; lia ..].
  - eapply represents_proper; [|exact HM']. intros e. unfold T, apply_byday, V.
    replace (in_period n off e) with ((off + 1 <=? e) && (e <? off + 1 + n)) by (unfold in_period; lia).
    destruct ((off + 1 <=? e) && _); [|reflexivity]. rewrite orb_false_r. reflexivity.
Qed.

(** ** BYSETPOS *)

Definition set_position (i : icalrecur_iterator) (p : Z) : bool :=
  listed (firstn (Z.to_nat (by_size BY_SET_POS)) (by_set_pos (rule i))) p.

(** The days left after BYSETPOS: those whose rank among the [total] candidates,
    from the first or from the last, is listed. *)
Definition apply_bysetpos (i : icalrecur_iterator) (a total : Z) (S : Z -> bool) (e : Z) : bool :=
  let rank := count_before S a e + 1 in
  S e && (set_position i rank || set_position i (rank - 1 - total)).

Lemma bysetpos_step_spec i st M x S total c e :
  represents M S -> -4 <= e < 380 ->
  let v := S e && (set_position i (c + 1) || set_position i (c - total)) in
  exists M', bysetpos_step total c e (with_mask i M x) st =
    Some (c + b2z (S e), with_mask i M' (if v then Z.min e x else x), st) /\
    represents M' (fun d => if d =? e then v else S d).
Proof.
  intros HM He v. unfold bysetpos_step, ibind at 1. erewrite getbit_step by eassumption.
  destruct (S e) eqn:ES; cbn [negb].
  - unfold ibind at 1, get. cbv beta iota zeta.
    change (check_set_position (c + 1) (with_mask i M x)) with (set_position i (c + 1)).
    change (check_set_position (c - total) (with_mask i M x)) with (set_position i (c - total)).
    unfold v. cbn [andb]. set (k := set_position i (c + 1) || set_position i (c - total)).
    destruct (setbit_step i M x S e k st HM He) as (M' & E' & HM'). exists M'. split; [|exact HM'].
    unfold ibind at 1. rewrite E'. unfold ibind, iret. destruct k; [rewrite lower_index_step|]; reflexivity.
  - exists M. cbn [b2z]. rewrite Z.add_0_r. split; [reflexivity|].
    eapply represents_proper; [|exact HM]. intros d. unfold v. cbn [andb].
    destruct (Z.eqb_spec d e) as [->|]; [symmetry; exact ES | reflexivity].
Qed.

Lemma filter_bysetpos_spec i st M x S total a b :
  represents M S -> -4 <= a -> a <= b + 1 -> b < 380 ->
  let T e := if (a <=? e) && (e <=? b) then apply_bysetpos i a total S e else S e in
  exists M', filter_bysetpos total a b (with_mask i M x) st =
    Some (tt, with_mask i M' (lowered T (day_range a (Z.to_nat (b - a + 1))) ICAL_YEARDAYS_MASK_SIZE), st) /\
    represents M' T.
Proof.
  intros HM Ha Hab Hb T. unfold filter_bysetpos, ibind at 1, modify. cbv beta iota.
  change (set_days_index ICAL_YEARDAYS_MASK_SIZE (with_mask i M x)) with (with_mask i M ICAL_YEARDAYS_MASK_SIZE).
  set (V := fun c e => S e && (set_position i (c + 1) || set_position i (c - total))).
  destruct (range_loop (bysetpos_step total) V S i st S a (Z.to_nat (b - a + 1)))
    with (n := Z.to_nat (b - a + 1)) (a := a) (acc := 0) (M := M) (x := ICAL_YEARDAYS_MASK_SIZE) (S := S)
    as (M' & E' & HM'); try lia; try assumption; try reflexivity.
  { intros acc M1 x1 S1 e HM1 HS1 He. unfold V. rewrite <- HS1.
    apply (bysetpos_step_spec i st M1 x1 S1 total acc e HM1). lia. }
  assert (forall e, loop_value V S 0 a e = apply_bysetpos i a total S e) as HV.
  { intros e. unfold loop_value, V, apply_bysetpos. rewrite Z.add_0_l. cbv zeta. do 3 f_equal. lia. }
  exists M'. unfold ibind. rewrite E'. split.
  - unfold iret. do 4 f_equal. apply lowered_ext. intros e He. rewrite HV. unfold T.
    destruct (Z.leb_spec a e), (Z.leb_spec e b); try lia. reflexivity.
  - eapply represents_proper; [|exact HM']. intros e. unfold T.
    rewrite HV. replace (a + Z.of_nat (Z.to_nat (b - a + 1))) with (b + 1) by lia.
    destruct (Z.leb_spec e b), (Z.ltb_spec e (b + 1)); try lia; reflexivity.
Qed.

(** ** The days of a month *)

(** Weekdays follow each other from the first of the month. *)
Lemma weekday_of_nth y m d :
  1753 <= y -> valid_date y m d -> weekday_of y m d = nth_weekday (weekday_of y m 1) d.
Proof.
  intros Hy Hv. assert (valid_date y m 1) as H1.
  { destruct Hv as [Hm Hd]. split; [assumption|]. pose proof (days_in_month_range m y). lia. }
  unfold weekday_of, nth_weekday. rewrite !day_of_week_number by assumption.
  cbn [year month day set_date]. rewrite (day_number_month y m d), (day_number_month y m 1) by apply Hv.
  generalize (days_before_year y) (days_before_month y m) (day_number 1970 1 1). intros a b c. zdiv.
Qed.

Lemma weekday_of_range y m d : 1753 <= y -> valid_date y m d -> 1 <= weekday_of y m d <= 7.
Proof.
  intros Hy Hv. unfold weekday_of. rewrite day_of_week_number by assumption. zdiv.
Qed.

(** Day [d] of the month is listed by BYMONTHDAY, from the start or the end. *)
Definition month_day_listed (i : icalrecur_iterator) (y m d : Z) : bool :=
  existsb (fun v => (v =? d) || (v =? d - (month_days y m + 1))) (by_array BY_MONTH_DAY i).

(** Day [d] of the month is listed by BYDAY. *)
Definition weekday_listed (i : icalrecur_iterator) (y m d : Z) : bool :=
  existsb (fun v => byday_selects (weekday_of y m 1) (month_days y m) v d) (by_array BY_DAY i).

Definition month_candidate (i : icalrecur_iterator) (y m d : Z) : bool :=
  if has_by_data BY_DAY i
  then (if has_by_data BY_MONTH_DAY i then month_day_listed i y m d else true) && weekday_listed i y m d
  else month_day_listed i y m d.

(** With BYSETPOS, also the rank among the candidates counts. *)
Definition month_selected (i : icalrecur_iterator) (y m d : Z) : bool :=
  month_candidate i y m d &&
  (if has_by_data BY_SET_POS i then
     let rank := count_before (month_candidate i y m) 1 d + 1 in
     let total := count_before (month_candidate i y m) 1 (month_days y m + 1) in
     set_position i rank || set_position i (rank - 1 - total)
   else true).

Lemma listed_places {A} (place : A -> option Z) l e :
  listed (places place l) e =
  existsb (fun v => match place v with Some d => e =? d | None => false end) l.
Proof.
  unfold listed, places. induction l as [|v l IH]; [reflexivity|]. cbn [flat_map existsb].
  rewrite existsb_app, IH. destruct (place v); cbn; [rewrite orb_false_r|]; reflexivity.
Qed.

Lemma month_places_listed i y m e :
  1 <= m <= 12 -> Forall (fun v => v <> 0) (by_array BY_MONTH_DAY i) ->
  listed (places (month_day_place y m) (by_array BY_MONTH_DAY i)) e =
  in_period (month_days y m) (days_before_month y m) e
  && month_day_listed i y m (e - days_before_month y m).
Proof.
  intros Hm Hv. rewrite listed_places. unfold month_day_listed, in_period.
  pose proof (days_in_month_range m y) as Hr. fold (month_days y m) in Hr.
  induction Hv as [|v l Hv Hl IH]; cbn [existsb]; [rewrite andb_false_r; reflexivity|].
  rewrite IH. unfold month_day_place, doy. set (o := days_before_month y m). set (n := month_days y m) in *.
  apply Bool.eq_iff_eq_true. destruct (Z.ltb_spec n (Z.abs v)), (Z.ltb_spec v 0);
    rewrite ?orb_true_iff, ?andb_true_iff, ?orb_true_iff, ?Z.leb_le, ?Z.eqb_eq; intuition lia.
Qed.

Lemma count_before_shift P a d k :
  count_before (fun e => P (e - k)) (a + k) (d + k) = count_before P a d.
Proof.
  unfold count_before. replace (d + k - (a + k)) with (d - a) by lia.
  generalize (Z.to_nat (d - a)). intros n. revert a. induction n as [|n IH]; intros a; [reflexivity|].
  cbn [day_range filter]. replace (a + k - k) with a by lia.
  specialize (IH (a + 1)). replace (a + 1 + k) with (a + k + 1) in IH by lia.
  destruct (P a); cbn [length]; lia.
Qed.

Lemma NoDup_day_range a n : NoDup (day_range a n).
Proof.
  revert a. induction n as [|n IH]; intros a; cbn; constructor; auto.
  rewrite in_day_range. lia.
Qed.

Lemma count_listed l a b :
  NoDup l -> (forall x, In x l -> a <= x < b) -> Z.of_nat (length l) = count_before (listed l) a b.
Proof.
  intros Hnd Hin. unfold count_before. f_equal. apply Permutation.Permutation_length.
  apply Permutation.NoDup_Permutation; [assumption | apply NoDup_filter, NoDup_day_range|].
  intros x. rewrite filter_In, in_day_range. unfold listed. rewrite existsb_exists.
  split.
  - intros Hx. pose proof (Hin x Hx). split; [lia|]. exists x. split; [assumption | apply Z.eqb_refl].
  - intros [_ (y & Hy & E)]. apply Z.eqb_eq in E. congruence.
Qed.

(** What the expansion of a month needs of the rule; the reader of rules gives
    it, and BYWEEKNO is illegal in a MONTHLY rule. *)
Record expandable (i : icalrecur_iterator) : Prop := Expandable {
  exp_skip : skip (rule i) = ICAL_SKIP_OMIT;
  exp_month_days : Forall (fun v => v <> 0) (by_array BY_MONTH_DAY i);
  exp_days : Forall (fun v => 1 <= icalrecurrencetype_day_day_of_week v <= 7) (by_array BY_DAY i);
  exp_week_no : has_by_data BY_WEEK_NO i = false
}.

(** BYSETPOS from the end counts each BYMONTHDAY value, so that two values must
    not name the same day. *)
Definition positions_ok (i : icalrecur_iterator) (y m : Z) : Prop :=
  has_by_data BY_SET_POS i = true -> has_by_data BY_DAY i = false ->
  NoDup (places (month_day_place y m) (by_array BY_MONTH_DAY i)).

Section Month.
Context (i : icalrecur_iterator) (y m : Z) (st : error_state).
Context (Hi : expandable i) (Hy : 1753 <= y) (Hm : 1 <= m <= 12).

Definition off : Z := days_before_month y m.
Definition len : Z := month_days y m.

(** The candidates as days of the year. *)
Definition candidate_doy (e : Z) : bool := in_period len off e && month_candidate i y m (e - off).

Lemma month_bounds : 0 <= off /\ 28 <= len <= 31 /\ off + len <= 366.
Proof.
  unfold off, len, month_days. pose proof (days_before_month_bound y m Hm).
  pose proof (days_in_month_range m y). pose proof (days_in_year_range y). lia.
Qed.

Lemma first_weekday : 1 <= weekday_of y m 1 <= 7.
Proof. pose proof month_bounds. apply weekday_of_range; [assumption|]. split; [assumption|]. unfold len, month_days in *. lia. Qed.

(** BYDAY applied to the days marked so far. *)
Definition month_byday : it Z :=
  modify (set_days_index ICAL_YEARDAYS_MASK_SIZE) ;;;
  '(_, last_dow) <- opt (get_day_of_year i y m len) ;;
  expand_by_day y off len (weekday_of y m 1) last_dow (has_by_data BY_MONTH_DAY i).

(** The state after BYMONTHDAY and BYDAY. *)
Definition month_expand : it Z :=
  total <- expand_bymonth_days y m ;;
  if has_by_data BY_DAY i then month_byday else iret total.

(** The days BYMONTHDAY marks. *)
Definition month_day_doy (e : Z) : bool := in_period len off e && month_day_listed i y m (e - off).

Lemma candidate_in_period e : candidate_doy e = true -> off + 1 <= e < off + 1 + Z.of_nat (Z.to_nat len).
Proof. pose proof month_bounds. unfold candidate_doy, in_period. intros He. bools. lia. Qed.

Lemma last_weekday : get_day_of_year i y m len = Some (doy y m len, nth_weekday (weekday_of y m 1) len).
Proof.
  pose proof month_bounds. rewrite get_day_of_year_at by lia. destruct (Z.ltb_spec len 0); [lia|].
  rewrite (weekday_of_nth y m len); [reflexivity | assumption|]. split; [assumption|]. unfold len, month_days in *. lia.
Qed.

Lemma month_places e :
  listed (places (month_day_place y m) (by_array BY_MONTH_DAY i)) e || false = month_day_doy e.
Proof. rewrite orb_false_r. apply month_places_listed; [assumption | apply Hi]. Qed.

Lemma bymonthday_marks :
  let l := places (month_day_place y m) (by_array BY_MONTH_DAY i) in
  exists M x,
    expand_bymonth_days y m (with_mask i daysmask_clearall ICAL_YEARDAYS_MASK_SIZE) st =
    Some (Z.of_nat (length l), with_mask i M x, st) /\
    represents M month_day_doy /\ first_of month_day_doy x /\
    (NoDup l -> Z.of_nat (length l) = count_before month_day_doy (off + 1) (off + 1 + len)).
Proof.
  intros l. destruct Hi as [Hskip Hmd _ _].
  destruct (expand_bymonth_days_spec i y m st daysmask_clearall ICAL_YEARDAYS_MASK_SIZE (fun _ => false) Hm Hskip Hmd)
    as (M & x & E & HM & Hx); [split; apply clearall_ok | left; auto|].
  exists M, x. split; [exact E|].
  split; [eapply represents_proper; [|exact HM]; intros e; symmetry; apply month_places|].
  split; [eapply first_of_proper; [|reflexivity | exact Hx]; intros e; symmetry; apply month_places|].
  intros Hnd. rewrite (count_listed l (off + 1) (off + 1 + len) Hnd).
  - apply count_before_ext. intros e _. rewrite <- month_places, orb_false_r. reflexivity.
  - intros e He. assert (listed l e || false = true) as Hl.
    { rewrite orb_false_r. apply existsb_exists. exists e. split; [assumption | apply Z.eqb_refl]. }
    unfold l in Hl. rewrite month_places in Hl. unfold month_day_doy, in_period in Hl. bools. lia.
Qed.

Lemma byday_marks M x :
  has_by_data BY_DAY i = true -> represents M month_day_doy ->
  exists M' x', month_byday (with_mask i M x) st =
    Some (count_before candidate_doy (off + 1) (off + 1 + len), with_mask i M' x', st) /\
    represents M' candidate_doy /\ first_of candidate_doy x'.
Proof.
  intros Ed HM. pose proof month_bounds as (Ho & Hl & Hol). destruct Hi as [_ _ Hd Hwn].
  destruct (expand_by_day_spec i y off len (weekday_of y m 1) (has_by_data BY_MONTH_DAY i) st M
              ICAL_YEARDAYS_MASK_SIZE _ Hwn Hd first_weekday ltac:(lia) ltac:(lia) ltac:(lia) HM) as (M2 & E2 & HM2).
  set (T := apply_byday _ _ _ _ _ _) in *.
  assert (forall e, T e = candidate_doy e) as HT.
  { intros e. unfold T, apply_byday, candidate_doy, month_candidate, weekday_listed, month_day_doy.
    rewrite Ed. fold len. destruct (in_period len off e); [|reflexivity].
    destruct (has_by_data BY_MONTH_DAY i); reflexivity. }
  rewrite (count_before_ext T candidate_doy), (lowered_ext T candidate_doy) in E2 by (intros; apply HT).
  exists M2. eexists. split; [|split].
  - unfold month_byday, ibind, modify. rewrite last_weekday. cbn [opt]. unfold iret. exact E2.
  - eapply represents_proper; [|exact HM2]. intros e. symmetry. apply HT.
  - apply first_of_lowered; [apply candidate_in_period | unfold ICAL_YEARDAYS_MASK_SIZE; lia].
Qed.

Lemma month_expand_spec :
  positions_ok i y m ->
  exists total M x,
    month_expand (with_mask i daysmask_clearall ICAL_YEARDAYS_MASK_SIZE) st =
    Some (total, with_mask i M x, st) /\
    represents M candidate_doy /\ first_of candidate_doy x /\
    (has_by_data BY_SET_POS i = true -> total = count_before candidate_doy (off + 1) (off + 1 + len)).
Proof.
  intros Hpos. destruct bymonthday_marks as (M1 & x1 & E1 & HM1 & Hx1 & Hcount).
  unfold month_expand, ibind. rewrite E1. destruct (has_by_data BY_DAY i) eqn:Ed.
  - destruct (byday_marks M1 x1 Ed HM1) as (M2 & x2 & E2 & HM2 & Hx2). eauto 8.
  - assert (forall e, month_day_doy e = candidate_doy e) as HE.
    { intros e. unfold month_day_doy, candidate_doy, month_candidate. rewrite Ed. reflexivity. }
    do 3 eexists. split; [reflexivity|].
    split; [eapply represents_proper; [|exact HM1]; intros e; symmetry; apply HE|].
    split; [eapply first_of_proper; [|reflexivity | exact Hx1]; intros e; symmetry; apply HE|].
    intros Hsp. rewrite Hcount by exact (Hpos Hsp Ed). apply count_before_ext. auto.
Qed.

(** The days selected, as days of the year. *)
Definition selected_doy (e : Z) : bool := in_period len off e && month_selected i y m (e - off).

Lemma bysetpos_selected total e :
  has_by_data BY_SET_POS i = true -> total = count_before candidate_doy (off + 1) (off + 1 + len) ->
  (if (off + 1 <=? e) && (e <=? off + len) then apply_bysetpos i (off + 1) total candidate_doy e
   else candidate_doy e) = selected_doy e.
Proof.
  intros Hsp ->. unfold selected_doy, candidate_doy at 3.
  change ((off + 1 <=? e) && (e <=? off + len)) with (in_period len off e).
  destruct (in_period len off e) eqn:Ep; [|reflexivity]. cbn [andb].
  assert (forall d, d <= off + len + 1 ->
    count_before candidate_doy (off + 1) d = count_before (month_candidate i y m) 1 (d - off)) as Hc.
  { intros d Hd. rewrite <- (count_before_shift (month_candidate i y m) 1 (d - off) off).
    replace (1 + off) with (off + 1) by lia. replace (d - off + off) with d by lia.
    apply count_before_ext. intros c Hcc. unfold candidate_doy, in_period.
    destruct (Z.leb_spec (off + 1) c), (Z.leb_spec c (off + len)); try lia. reflexivity. }
  unfold apply_bysetpos, month_selected. rewrite Hsp. unfold in_period in Ep. bools.
  rewrite !Hc by lia. cbv zeta. unfold candidate_doy, in_period.
  destruct (Z.leb_spec (off + 1) e), (Z.leb_spec e (off + len)); try lia. cbn [andb].
  replace (off + 1 + len - off) with (len + 1) by lia. reflexivity.
Qed.

Lemma selected_in_period e : selected_doy e = true -> off + 1 <= e < off + 1 + Z.of_nat (Z.to_nat len).
Proof. pose proof month_bounds. unfold selected_doy, in_period. intros He. bools. lia. Qed.
End Month.

(** ** [expand_month_days] *)

Lemma expand_month_days_eq i y m st :
  1753 <= y -> 1 <= m <= 12 -> days_index i = ICAL_YEARDAYS_MASK_SIZE ->
  let i1 := set_period_start (last i) i in
  expand_month_days y m i st =
  (total <- month_expand i1 y m ;;
   if has_by_data BY_SET_POS i1 then filter_bysetpos total (off y m + 1) (off y m + len y m) else iret tt)
    (with_mask i1 daysmask_clearall ICAL_YEARDAYS_MASK_SIZE) st.
Proof.
  intros Hy Hm Hx i1. unfold expand_month_days, month_expand, month_byday.
  unfold ibind at 1, modify at 1. cbv beta iota. unfold ibind at 1, get at 1. cbv beta iota.
  unfold ibind at 1, modify at 1. cbv beta iota. unfold ibind at 1.
  rewrite get_day_of_year_at by lia. cbn [opt]. unfold iret at 1. cbv beta iota.
  change (1 <? 0) with false. cbv iota.
  unfold ibind at 1, get_days_in_month. destruct (Z.ltb_spec m 0), (Z.ltb_spec 12 m); try lia.
  cbn [orb opt]. unfold iret at 1. cbv beta iota. fold (month_days y m). fold (len y m).
  replace (doy y m 1 - 1) with (off y m) by (unfold doy, off; lia).
  replace (set_period_start (occurrence_as_icaltime false (set_days daysmask_clearall i)) (set_days daysmask_clearall i))
    with (with_mask i1 daysmask_clearall ICAL_YEARDAYS_MASK_SIZE)
    by (rewrite <- Hx; reflexivity).
  rewrite !(get_day_of_year_at _ y m (len y m)) by (unfold len, month_days; pose proof (days_in_month_range m y); lia).
  change (has_by_data ?b (set_days daysmask_clearall i)) with (has_by_data b i).
  change (has_by_data ?b i1) with (has_by_data b i).
  unfold ibind. destruct (expand_bymonth_days y m _ st) as [[[total j] s]|]; [|reflexivity].
  destruct (has_by_data BY_DAY i); reflexivity.
Qed.

(** What the expansion leaves: the selected days of the month and no others,
    the index at the first of them, all else unchanged. *)
Definition expanded (i : icalrecur_iterator) (y m : Z) (j : icalrecur_iterator) : Prop :=
  mask_ok (days j) /\
  (forall d, 1 <= d <= month_days y m -> mem (days j) (doy y m d) = month_selected i y m d) /\
  (forall e, ~ (doy y m 1 <= e <= doy y m (month_days y m)) -> mem (days j) e = false) /\
  first_of (mem (days j)) (days_index j) /\
  last j = last i /\ period_start j = last i /\ frame i j.

Lemma expanded_of_mask i y m M x :
  represents M (selected_doy i y m) -> first_of (selected_doy i y m) x ->
  expanded i y m (with_mask (set_period_start (last i) i) M x).
Proof.
  intros [Hok HM] Hx. split; [exact Hok|].
  assert (forall d, mem (days (with_mask (set_period_start (last i) i) M x)) (doy y m d) =
                    (1 <=? d) && (d <=? month_days y m) && month_selected i y m d) as H.
  { intros d. cbn [days with_mask set_days]. rewrite HM. unfold selected_doy, in_period, doy.
    fold (off y m). fold (len y m). replace (off y m + d - off y m) with d by lia.
    f_equal. unfold len. lia. }
  split; [intros d Hd; rewrite H; destruct (Z.leb_spec 1 d), (Z.leb_spec d (month_days y m)); try lia; reflexivity|].
  split.
  - intros e He. specialize (H (e - days_before_month y m)). unfold doy in *.
    replace (days_before_month y m + (e - days_before_month y m)) with e in H by lia. rewrite H.
    destruct (Z.leb_spec 1 (e - days_before_month y m)), (Z.leb_spec (e - days_before_month y m) (month_days y m));
      try lia; reflexivity.
  - split; [|repeat split]. eapply first_of_proper; [|reflexivity | exact Hx]. intros e. apply HM.
Qed.

(** C5: For a rule without SKIP (SKIP=OMIT), with valid weekdays and days of the month
    and without BYWEEKNO, in every month from 1753 on, [expand_month_days] terminates
    without leaving the bitmask and marks exactly the days of the month that the rule
    selects: the days BYMONTHDAY lists from the start or the end of the month, or those
    of the weekdays of BYDAY (all of them, or the nth from either end), or both when both
    parts are given; with BYSETPOS those among them whose rank from the first or the
    last is listed, provided that BYMONTHDAY alone does not name one day twice (the
    ranks count it twice).  The index is that of the first marked day. *)
Theorem expand_month_days_correct i y m st :
  expandable i -> 1753 <= y -> 1 <= m <= 12 -> days_index i = ICAL_YEARDAYS_MASK_SIZE ->
  positions_ok i y m ->
  exists j, expand_month_days y m i st = Some (tt, j, st) /\ expanded i y m j.
Proof.
  intros Hi Hy Hm Hx Hpos. rewrite expand_month_days_eq by assumption.
  set (i1 := set_period_start (last i) i).
  assert (expandable i1) as Hi1 by (destruct Hi; constructor; assumption).
  destruct (month_expand_spec i1 y m st Hi1 Hy Hm Hpos) as (total & M & x & E & HM & HX & Ht).
  unfold ibind. rewrite E. pose proof (month_bounds y m Hm) as (Ho & Hl & Hol).
  destruct (has_by_data BY_SET_POS i1) eqn:Es.
  - destruct (filter_bysetpos_spec i1 st M x _ total (off y m + 1) (off y m + len y m) HM)
      as (M' & E' & HM'); try lia.
    match type of HM' with represents _ ?t => set (T := t) in * end.
    assert (forall e, T e = selected_doy i1 y m e) as HT.
    { intros e. apply bysetpos_selected; auto. }
    rewrite (lowered_ext T (selected_doy i1 y m)) in E' by (intros; apply HT).
    exists (with_mask i1 M' (lowered (selected_doy i1 y m) (day_range (off y m + 1)
      (Z.to_nat (off y m + len y m - (off y m + 1) + 1))) ICAL_YEARDAYS_MASK_SIZE)).
    split; [exact E'|]. apply expanded_of_mask.
    + eapply represents_proper; [|exact HM']. intros e. symmetry. apply HT.
    + apply first_of_lowered; [|unfold ICAL_YEARDAYS_MASK_SIZE; lia]. intros e He.
      apply (selected_in_period i y m Hm) in He. lia.
  - assert (forall e, candidate_doy i1 y m e = selected_doy i y m e) as HE.
    { intros e. unfold candidate_doy, selected_doy, month_selected.
      change (has_by_data BY_SET_POS i) with (has_by_data BY_SET_POS i1). rewrite Es, andb_true_r. reflexivity. }
    exists (with_mask i1 M x). split; [reflexivity|]. apply expanded_of_mask.
    + eapply represents_proper; [|exact HM]. intros e. symmetry. apply HE.
    + eapply first_of_proper; [|reflexivity | exact HX]. intros e. symmetry. apply HE.
Qed.

(** FREQ=MONTHLY;BYDAY=MO,TU,WE,TH,FR;BYSETPOS=-1 in September 1997: the last
    weekday of the month is the 30th, day 273 of the year. *)
Definition sample_monthly (bymd byday setpos : list Z) : icalrecur_iterator :=
  set_days_index ICAL_YEARDAYS_MASK_SIZE (set_last (IcalTime 1997 9 2 9 0 0 0 0 ZONE_NULL)
    (fresh_iterator (Recur ICAL_MONTHLY_RECURRENCE icaltime_null_time 0 1 ICAL_MONDAY_WEEKDAY
       [0] [0] [9] byday bymd [] [] [] setpos None ICAL_SKIP_OMIT)
       (IcalTime 1997 9 2 9 0 0 0 0 ZONE_NULL))).

Lemma expand_month_days_correct_witness :
  let i := sample_monthly [] [2; 3; 4; 5; 6] [-1] in
  (exists j, expand_month_days 1997 9 i sample_state = Some (tt, j, sample_state) /\ expanded i 1997 9 j)
  /\ filter (month_selected i 1997 9) (day_range 1 30) = [30].
Proof.
  split; [|vm_compute; reflexivity].
  apply expand_month_days_correct; [constructor; vm_compute; repeat constructor; discriminate
    | vm_compute; discriminate | vm_compute; split; discriminate | reflexivity | intros _ H; discriminate H].
Defined.

(** Two BYMONTHDAY values for the same day are counted twice, so that BYSETPOS
    from the end selects nothing: FREQ=MONTHLY;BYMONTHDAY=30,-1;BYSETPOS=-1 in
    September. *)
Lemma bysetpos_counts_twice :
  let i := sample_monthly [30; -1] [] [-1] in
  month_selected i 1997 9 30 = true /\
  exists j, expand_month_days 1997 9 i sample_state = Some (tt, j, sample_state) /\
            days_index j = ICAL_YEARDAYS_MASK_SIZE /\ mem (days j) (doy 1997 9 30) = false.
Proof.
  split; [vm_compute; reflexivity|]. eexists. split; [vm_compute; reflexivity|].
  split; vm_compute; reflexivity.
Qed.
