(* ===== verification/IcalRecurYearly.v ===== *)
(** * The rules of time zones: the nth weekday of a month, every year

    FREQ=YEARLY;BYMONTH=m;BYDAY=v is the rule of every zone that changes its clocks
    by law, and the rule that icaltz-util.c writes.  The iterator is shown to
    terminate on it and to return exactly one time a year - the first to the fourth
    weekday of the month, or the first to the fourth from its end - from the first
    that is not before DTSTART, COUNT of them if given, until the year 2582. *)
From Stdlib Require Import String Ascii ZArith Lia Bool List.
From S2P Require Import Prelude CString IcalError CalDate IcalTime IcalTimeCalendar IcalRecurType IcalRecurMask IcalRecurIter IcalRecurSound IcalRecurSimple IcalRecurExpand.
Import ListNotations.
#[local] Open Scope Z_scope.
#[local] Open Scope it_scope.
#[local] Open Scope cstring_scope.

(** FREQ=YEARLY;COUNT=c;WKST=ws;BYMONTH=m;BYDAY=v; a count of 0 is none. *)
Definition weekday_rule (m v c ws : Z) : icalrecurrencetype :=
  Recur ICAL_YEARLY_RECURRENCE icaltime_null_time c 1 ws [] [] [] [v] [] [] [] [m] [] None ICAL_SKIP_OMIT.

(** The day of the month that is the [p]th of weekday [w], from its start or from
    its end. *)
Definition weekday_date (y m w p : Z) : Z :=
  let f := weekday_of y m 1 in
  let n := month_days y m in
  if 0 <? p then (w - f) mod 7 + 1 + 7 * (p - 1) else n - (nth_weekday f n - w) mod 7 + 7 * (p + 1).

(** A weekday and a position that every month has. *)
Definition every_month (v : Z) : Prop :=
  1 <= icalrecurrencetype_day_day_of_week v <= 7 /\ 1 <= Z.abs (icalrecurrencetype_day_position v) <= 4.

(** ** The day of a year *)

Lemma weekday_date_valid y m w p :
  1753 <= y -> 1 <= m <= 12 -> 1 <= w <= 7 -> 1 <= Z.abs p <= 4 -> valid_date y m (weekday_date y m w p).
Proof.
  intros Hy Hm Hw Hp. split; [assumption|]. pose proof (days_in_month_range m y).
  unfold weekday_date. fold (month_days y m) in *. destruct (Z.ltb_spec 0 p); zdiv.
Qed.

Lemma weekday_date_unique y m w p d :
  1753 <= y -> 1 <= m <= 12 -> 1 <= w <= 7 -> 1 <= Z.abs p <= 4 -> 1 <= d <= month_days y m ->
  selects (weekday_of y m 1) (month_days y m) w p d = (d =? weekday_date y m w p).
Proof.
  intros Hy Hm Hw Hp Hd. pose proof (days_in_month_range m y) as Hn. fold (month_days y m) in Hn.
  pose proof (first_weekday y m Hy Hm) as Hf. unfold selects, weekday_date, nth_weekday.
  set (f := weekday_of y m 1) in *. set (n := month_days y m) in *. clearbody f n.
  apply Bool.eq_iff_eq_true. rewrite !andb_true_iff, !orb_true_iff, !Z.eqb_eq.
  destruct (Z.ltb_spec 0 p); zdiv.
Qed.

(** ** The state between two calls *)

Section Rule.
Context `{TZ : TimezoneConv}.
Context (m v c ws : Z) (ds : icaltimetype).
Context (Hm : 1 <= m <= 12) (Hv : every_month v).
Context (Hds : normalized ds) (Hdate : is_date ds = 0) (Hyear : 1753 <= year ds <= MAX_TIME_T_YEAR).

Definition dow : Z := icalrecurrencetype_day_day_of_week v.
Definition nth : Z := icalrecurrencetype_day_position v.

(** The rule with the defaults of DTSTART. *)
Definition filled_rule : icalrecurrencetype :=
  Recur ICAL_YEARLY_RECURRENCE icaltime_null_time c 1 ws [second ds] [minute ds] [hour ds] [v] [day ds] [] [] [m] []
    None ICAL_SKIP_OMIT.

(** The time of a year. *)
Definition date_in (y : Z) : Z := weekday_date y m dow nth.
Definition time_in (y : Z) : icaltimetype :=
  IcalTime y m (date_in y) (hour ds) (minute ds) (second ds) 0 0 (zone ds).

(** All the iterator holds. *)
Definition holds (la ps : icaltimetype) (k : Z) (M : list Z) (x : Z) (g : byrule -> Z) : icalrecur_iterator :=
  Iterator ds filled_rule ds ds icaltime_null_time la k ps M x g
    (fun b => negb (is_empty (by_ptr b (weekday_rule m v c ws)))).

Definition at_start (g : byrule -> Z) : Prop := forall b, g b = 0.

(** A time with the clock of DTSTART. *)
Definition clock_of_start (t : icaltimetype) : Prop :=
  hour t = hour ds /\ minute t = minute ds /\ second t = second ds /\ is_date t = 0 /\ is_daylight t = 0 /\
  zone t = zone ds.

(** The mask holds the day of the year [y], and the index is at it. *)
Definition expanded_year (y : Z) (M : list Z) (x : Z) : Prop :=
  represents M (fun e => e =? doy y m (date_in y)) /\ x = doy y m (date_in y).

Lemma clock_start : valid_clock ds.
Proof. apply start_clock; assumption. Qed.

Lemma date_valid y : 1753 <= y -> valid_date y m (date_in y).
Proof. intros. destruct Hv. apply weekday_date_valid; assumption. Qed.

Lemma time_normalized y : 1753 <= y -> normalized (time_in y).
Proof. intros H. split; [apply date_valid; assumption | intros _; exact clock_start]. Qed.

Lemma set_same_clock t : clock_of_start t -> set_time t (hour ds) (minute ds) (second ds) = t.
Proof. intros (E1 & E2 & E3 & _). rewrite <- E1, <- E2, <- E3. destruct t; reflexivity. Qed.

(** The units below the day have one value each: they only pass on the carry. *)
Definition passes (unit : it Z) (la : icaltimetype) : Prop := forall ps k M x g st, at_start g ->
  exists g', unit (holds la ps k M x g) st = Some (1, holds la ps k M x g', st) /\ at_start g'.

Lemma unit_passes b f sub set inc sup la w :
  by_ptr b filled_rule = [w] -> freq_eqb ICAL_YEARLY_RECURRENCE f = false ->
  passes (match sub with Some unit => unit | None => iret 1 end) la ->
  (forall ps k M x g st, set w (holds la ps k M x g) st = Some (tt, holds la ps k M x g, st)) ->
  passes (next_unit (Some b) f sub set inc sup) la.
Proof.
  intros Hb Hf Hsub Hset ps k M x g st Hg. destruct (Hsub ps k M x g st Hg) as (g1 & E & Hg1).
  exists (fun b' => if byrule_eqb b b' then 0 else g1 b').
  split; [|intros b'; destruct (byrule_eqb b b'); [reflexivity | apply Hg1]].
  unfold next_unit, ibind at 1, get. cbv beta iota zeta. unfold by_array at 1.
  change (rule (holds la ps k M x g)) with filled_rule. rewrite Hb. change (freq filled_rule) with ICAL_YEARLY_RECURRENCE.
  rewrite Hf. cbn [is_empty negb orb]. unfold ibind at 1. rewrite E. change (1 =? 0) with false. cbv iota.
  unfold by_array at 1. change (rule (holds la ps k M x g)) with filled_rule. rewrite Hb. cbn [is_empty negb].
  unfold ibind at 1, get. cbv beta iota. unfold by_at, by_array.
  change (rule (holds la ps k M x g1)) with filled_rule. rewrite Hb.
  change (by_indices (holds la ps k M x g1)) with g1. rewrite Hg1. change (0 + 1 <? 0) with false.
  change (Z.to_nat (0 + 1)) with 1%nat. cbn [nth_error]. change (0 <? 0) with false.
  change (Z.to_nat 0) with 0%nat. cbn [nth_error]. rewrite andb_false_r.
  unfold opt, ibind, iret, modify. change (set_index b 0 (holds la ps k M x g1)) with
    (holds la ps k M x (fun b' => if byrule_eqb b b' then 0 else g1 b')).
  rewrite Hset. reflexivity.
Qed.

Lemma next_hour_passes la : clock_of_start la -> passes next_hour la.
Proof.
  intros Hc. pose proof (set_same_clock la Hc) as E. destruct Hc as (E1 & E2 & E3 & _).
  assert (forall f, f la = la -> forall ps k M x g st,
    upd_last f (holds la ps k M x g) st = Some (tt, holds la ps k M x g, st)) as Hset.
  { intros f Ef ps k M x g st. unfold upd_last, modify. cbn [last holds]. rewrite Ef. reflexivity. }
  apply unit_passes with (hour ds); try reflexivity; [|apply Hset; rewrite E2, E3; exact E].
  apply unit_passes with (minute ds); try reflexivity; [|apply Hset; rewrite E1, E3; exact E].
  apply unit_passes with (second ds); try reflexivity; [|apply Hset; rewrite E1, E2; exact E].
  intros ps k M x g st Hg. exists g. split; [reflexivity | assumption].
Qed.

(** The date of a day of the year. *)
Lemma set_day_of_year_at la ps k M x g y d st :
  year la = y -> valid_date y m d ->
  set_day_of_year (doy y m d) (holds la ps k M x g) st = Some (tt, holds (set_date la y m d) ps k M x g, st).
Proof.
  intros Ey Hd. unfold set_day_of_year, upd_last, modify. cbn [last holds]. rewrite Ey.
  pose proof (doy_range y m d Hd). destruct (Z.ltb_spec (doy y m d) 0); [lia|].
  destruct (from_doy_roundtrip (set_date icaltime_null_time y m d) Hd) as (Ay & Am & Ad).
  assert (icaltime_day_of_year (set_date icaltime_null_time y m d) = doy y m d) as Edoy.
  { rewrite day_of_year_number by exact Hm. cbn [year month day set_date].
    rewrite day_number_month by exact Hm. unfold doy. lia. }
  cbn [year month day set_date] in *. rewrite Edoy in *. rewrite Ay, Am, Ad. reflexivity.
Qed.

(** ** The expansion of a year *)

Lemma holds_mask la ps k M x M' x' g : with_mask (holds la ps k M x g) M' x' = holds la ps k M' x' g.
Proof. reflexivity. Qed.

(** The default of BYMONTHDAY marks a day of the month, or none. *)
Lemma default_day_marked la ps k M x g y st :
  represents M (fun _ => false) -> 1753 <= y ->
  exists n M' x' S, expand_bymonth_days y m (holds la ps k M x g) st = Some (n, holds la ps k M' x' g, st) /\
    represents M' S /\ forall e, in_period (month_days y m) (days_before_month y m) e = false -> S e = false.
Proof.
  intros HM Hy. unfold expand_bymonth_days, ibind at 1, get. cbv beta iota. unfold ibind at 1, get_days_in_month.
  destruct (Z.ltb_spec m 0), (Z.ltb_spec 12 m); try lia. cbn [orb opt]. unfold iret at 1. cbv beta iota.
  change (by_array BY_MONTH_DAY (holds la ps k M x g)) with [day ds]. cbn [ifold].
  assert (day ds <> 0) as Hd by (destruct Hds as [[_ ?] _]; lia).
  rewrite <- (holds_mask la ps k M x M x g). set (i := holds la ps k M x g).
  unfold ibind. fold (month_days y m). rewrite bymonthday_step_spec by (assumption || reflexivity).
  destruct (month_day_place y m (day ds)) as [e|] eqn:E.
  2:{ exists 0, M, x, (fun _ => false). split; [reflexivity|]. split; [assumption | reflexivity]. }
  destruct (month_day_place_valid y m (day ds) e Hm Hd E) as (d & Hvd & ->).
  pose proof (doy_range y m d Hvd).
  destruct (setbit_step i M x _ (doy y m d) true st HM ltac:(lia)) as (M' & Eb & HM').
  exists 1, M', (Z.min (doy y m d) x), (fun e => if e =? doy y m d then true else false).
  split; [unfold mark_day, ibind; rewrite Eb, lower_index_step; reflexivity|]. split; [exact HM'|].
  intros e He. destruct (Z.eqb_spec e (doy y m d)) as [->|]; [|reflexivity].
  destruct Hvd as [_ Hvd]. fold (month_days y m) in Hvd. unfold in_period, doy in He. lia.
Qed.

(** BYDAY leaves one day. *)
Lemma one_day_left S i y :
  1753 <= y -> by_array BY_DAY i = [v] ->
  (forall e, in_period (month_days y m) (days_before_month y m) e = false -> S e = false) ->
  forall e, apply_byday i (days_before_month y m) (month_days y m) (weekday_of y m 1) false S e =
            (e =? doy y m (date_in y)).
Proof.
  intros Hy Hb HS e. destruct Hv as [Hw Hp]. pose proof (date_valid y Hy) as [_ Hd]. fold (month_days y m) in Hd.
  unfold apply_byday. rewrite Hb. cbn [existsb andb]. rewrite orb_false_r. unfold byday_selects.
  destruct (in_period (month_days y m) (days_before_month y m) e) eqn:Ep.
  - unfold in_period in Ep. bools. rewrite weekday_date_unique by (assumption || lia).
    fold dow nth. fold (date_in y). unfold doy. apply Bool.eq_iff_eq_true. rewrite !Z.eqb_eq. lia.
  - rewrite HS by assumption. unfold in_period in Ep. unfold doy. symmetry. apply Z.eqb_neq. lia.
Qed.

Lemma lowered_one y :
  1753 <= y ->
  lowered (fun e => e =? doy y m (date_in y)) (day_range (days_before_month y m + 1) (Z.to_nat (month_days y m)))
    ICAL_YEARDAYS_MASK_SIZE = doy y m (date_in y).
Proof.
  intros Hy. pose proof (date_valid y Hy) as Hvd. pose proof (doy_range _ _ _ Hvd) as Hr. destruct Hvd as [_ Hd].
  fold (month_days y m) in Hd. pose proof (month_bounds y m Hm) as (_ & _ & Hb). unfold off, len in Hb.
  destruct (first_of_lowered (fun e => e =? doy y m (date_in y)) (days_before_month y m + 1) (Z.to_nat (month_days y m)))
    as [(_ & F) | (_ & F & _)].
  - intros d E. apply Z.eqb_eq in E. unfold doy in E. lia.
  - unfold ICAL_YEARDAYS_MASK_SIZE. lia.
  - specialize (F (doy y m (date_in y))). rewrite Z.eqb_refl in F. discriminate.
  - apply Z.eqb_eq in F. exact F.
Qed.

Lemma expand_year_marks la ps k M x g y st :
  1753 <= y ->
  exists M' x', expand_year_days y (holds la ps k M x g) st =
      Some (tt, holds (set_date la (year la) m (day la)) la k M' x' g, st) /\ expanded_year y M' x'.
Proof.
  intros Hy. unfold expand_year_days.
  unfold ibind at 1, modify at 1. cbv beta iota. unfold ibind at 1, get at 1. cbv beta iota.
  unfold ibind at 1, modify at 1. cbv beta iota.
  change (set_period_start _ _) with (holds la la k daysmask_clearall x g).
  change (has_by_data BY_DAY _) with true. change (has_by_data BY_YEAR_DAY _) with false.
  change (has_by_data BY_MONTH_DAY _) with false. change (has_by_data BY_MONTH _) with true.
  change (has_by_data BY_SET_POS _) with false. cbv iota. cbn [orb].
  set (la' := set_date la (year la) m (day la)).
  destruct (default_day_marked la' la k daysmask_clearall x g y st) as (n & M1 & x1 & S & E1 & HM1 & HS);
    [split; apply clearall_ok | assumption|].
  assert (expand_year_base y (get_days_in_year y) (holds la la k daysmask_clearall x g) st =
          Some (Some n, holds la' la k M1 x1 g, st)) as EB.
  { unfold expand_year_base, ibind at 1, get. cbv beta iota.
    change (has_by_data BY_YEAR_DAY _) with false. change (has_by_data BY_WEEK_NO _) with false. cbv iota.
    change (by_array BY_MONTH _) with [m]. unfold ibind at 1. cbn [ifold]. unfold ibind at 1 2.
    assert (set_month m (holds la la k daysmask_clearall x g) st =
            Some (m, holds la' la k daysmask_clearall x g, st)) as -> by reflexivity.
    cbv beta iota. destruct (Z.eqb_spec m 0); [lia|]. unfold ibind at 1. rewrite E1. reflexivity. }
  unfold ibind at 1. rewrite EB. cbv beta iota. unfold ibind at 1 2, modify. cbv beta iota.
  change (by_array BY_MONTH _) with [m].
  change (set_days_index _ _) with (holds la' la k M1 ICAL_YEARDAYS_MASK_SIZE g). cbn [ifold].
  unfold ibind at 1 2. rewrite get_day_of_year_at by lia. change (1 <? 0) with false. cbn [opt].
  unfold iret at 1. cbv beta iota. unfold ibind at 1, get_days_in_month.
  destruct (Z.ltb_spec m 0), (Z.ltb_spec 12 m); try lia. cbn [orb opt]. unfold iret at 1. cbv beta iota.
  fold (month_days y m). pose proof (month_bounds y m Hm) as (Ho & Hl & Hol). unfold off, len in *.
  unfold ibind at 1. pose proof (last_weekday (set_days daysmask_clearall (holds la ps k M x g)) y m Hy Hm) as Elast.
  unfold len in Elast. rewrite Elast. cbn [opt]. unfold iret at 1. cbv beta iota. unfold ibind at 1.
  replace (doy y m 1 - 1) with (days_before_month y m) by (unfold doy; lia).
  destruct (expand_by_day_spec (holds la' la k M1 x1 g) y (days_before_month y m) (month_days y m) (weekday_of y m 1) false
              st M1 ICAL_YEARDAYS_MASK_SIZE S) as (M2 & E2 & HM2); try lia; try assumption; try reflexivity.
  { change (by_array BY_DAY _) with [v]. destruct Hv. repeat constructor; lia. }
  { apply first_weekday; assumption. }
  rewrite holds_mask in E2. rewrite E2.
  pose proof (one_day_left S (holds la' la k M1 x1 g) y Hy eq_refl HS) as HT.
  rewrite (lowered_ext _ (fun e => e =? doy y m (date_in y))) by (intros; apply HT). rewrite lowered_one by assumption.
  exists M2, (doy y m (date_in y)). split; [reflexivity|]. split; [|reflexivity].
  eapply represents_proper; [|exact HM2]. intros e. symmetry. apply HT.
Qed.

(** ** A step *)

(** The iterator at the time of a year, [k] times returned. *)
Inductive at_year (y k : Z) : icalrecur_iterator -> Prop :=
| AtYear ps M x g : year ps = y -> expanded_year y M x -> at_start g -> at_year y k (holds (time_in y) ps k M x g).

Lemma no_day_left y M x :
  1753 <= y -> expanded_year y M x ->
  exists idx, daymask_find_next_bit M x = Some idx /\ ICAL_YEARDAYS_MASK_SIZE <= idx.
Proof.
  intros Hy [[Hok HM] ->]. pose proof (doy_range _ _ _ (date_valid y Hy)).
  destruct (find_next_spec M (doy y m (date_in y)) Hok ltac:(lia)) as (idx & E & _ & Hn).
  exists idx. split; [assumption|]. destruct (Z.lt_ge_cases idx ICAL_YEARDAYS_MASK_SIZE) as [Hlt|]; [|lia].
  destruct (Hn Hlt) as [H1 H2]. rewrite HM in H2. lia.
Qed.

Lemma step_to_next_year y k i st fuel :
  1753 <= y -> at_year y k i -> (0 < fuel)%nat ->
  exists j, step_next fuel i st = Some (true, j, st) /\ at_year (y + 1) k j.
Proof.
  intros Hy [ps M x g Eps HX Hg] Hfuel. destruct fuel as [|fuel]; [lia|].
  assert (clock_of_start (time_in y)) as Hc by (repeat split).
  destruct (next_hour_passes (time_in y) Hc ps k M x g st Hg) as (g' & Eh & Hg').
  destruct (no_day_left y M x Hy HX) as (idx & Ei & Hidx).
  set (la := IcalTime (year ps) (month ps) (day ps) (hour ds) (minute ds) (second ds) 0 0 (zone ds)).
  set (la1 := set_date la (y + 1) (month la) (day la)).
  destruct (expand_year_marks la1 ps k M idx g' (y + 1) st ltac:(lia)) as (M' & x' & Ee & HX').
  exists (holds (time_in (y + 1)) la1 k M' x' g').
  split; [|constructor; [reflexivity | assumption..]].
  unfold step_next, ibind at 1, get. cbv beta iota.
  change (freq (rule (holds (time_in y) ps k M x g))) with ICAL_YEARLY_RECURRENCE. cbv iota.
  unfold ibind at 1, next_year, next_yearday. unfold ibind at 1. rewrite Eh. change (1 =? 0) with false. cbv iota.
  unfold ibind at 1, reset_period_start, ibind at 1, get. cbv beta iota. unfold set_datetime, modify at 1.
  assert (is_date (dtstart (holds (time_in y) ps k M x g')) = 0) as E0 by exact Hdate. rewrite E0.
  change (truthy 0) with false. cbv iota beta zeta.
  change (set_last _ (holds (time_in y) ps k M x g')) with (holds la ps k M x g').
  unfold ibind at 1. cbv beta iota. cbn [days days_index holds]. unfold ibind at 1. rewrite Ei. cbn [opt]. unfold iret at 1.
  cbv beta iota. unfold ibind at 1, modify at 1. cbv beta iota.
  change (set_days_index idx (holds la ps k M x g')) with (holds la ps k M idx g').
  rewrite (proj2 (Z.leb_le _ _) Hidx). cbn [seek_period].
  assert (__next_year 1 (holds la ps k M idx g') st =
          Some (tt, holds (set_date la1 (y + 1) m (day la1)) la1 k M' x' g', st)) as En.
  { unfold __next_year, ibind at 1, increment_year, upd_last, modify. cbv beta iota. cbn [last holds].
    change (year la) with (year ps). rewrite Eps.
    change (set_last _ (holds la ps k M idx g')) with (holds la1 ps k M idx g').
    unfold ibind at 1, get. cbv beta iota. exact Ee. }
  unfold ibind at 1, ibind at 1, get. cbv beta iota. change (interval (rule (holds la ps k M idx g'))) with 1.
  unfold ibind at 1. rewrite En. unfold ibind at 1, get. cbv beta iota. cbn [days_index holds].
  pose proof (date_valid (y + 1) ltac:(lia)) as Hd. pose proof (doy_range _ _ _ Hd) as Hr.
  destruct HX' as [_ ->]. rewrite (proj2 (Z.ltb_lt _ _)) by (unfold ICAL_YEARDAYS_MASK_SIZE; lia).
  unfold iret at 1. cbv beta iota. unfold ibind at 1, go_to_index, ibind at 1, get. cbv beta iota. cbn [days_index holds].
  rewrite (proj2 (Z.ltb_ge _ _)) by lia. unfold ibind at 1, iret at 1. cbv beta iota.
  rewrite set_day_of_year_at by (reflexivity || assumption). reflexivity.
Qed.

(** ** Calls *)

Lemma at_year_last y k i : at_year y k i -> last i = time_in y.
Proof. intros []. reflexivity. Qed.
Lemma at_year_istart y k i : at_year y k i -> istart i = ds.
Proof. intros []. reflexivity. Qed.
Lemma at_year_no y k i : at_year y k i -> occurrence_no i = k.
Proof. intros []. reflexivity. Qed.
Lemma at_year_count y k i : at_year y k i -> count (rule i) = c.
Proof. intros []. reflexivity. Qed.
Lemma at_year_past y k i : at_year y k i -> past_until i = false.
Proof. intros []. reflexivity. Qed.
Lemma at_year_counted y k k' i : at_year y k i -> at_year y k' (set_occurrence_no k' i).
Proof. intros [ps M x g Eps HX Hg]. exact (AtYear y k' ps M x g Eps HX Hg). Qed.

Lemma at_year_contracting y k i : 1753 <= y -> at_year y k i -> check_contracting_rules i = Some true.
Proof.
  intros Hy [ps M x g Eps HX Hg]. unfold check_contracting_rules, occurrence_as_icaltime. cbn [last holds].
  rewrite get_day_of_year_valid by exact (date_valid y Hy).
  assert (forall b w, b <> BY_SET_POS -> check_contract_restriction (holds (time_in y) ps k M x g) b w = true) as H
    by (intros [] w Hb; try reflexivity; congruence).
  rewrite !H by discriminate. reflexivity.
Qed.

Lemma at_year_normal y k i : 1753 <= y -> at_year y k i -> set_last (occurrence_as_icaltime true i) i = i.
Proof.
  intros Hy [ps M x g Eps HX Hg]. unfold occurrence_as_icaltime. cbn [last holds].
  rewrite normalize_idempotent_on_normalized; [reflexivity | apply time_normalized, Hy | exact clock_start].
Qed.

Lemma compare_start y : 1753 <= y -> icaltime_compare (time_in y) ds = Z.sgn (instant (time_in y) - instant ds).
Proof.
  intros Hy. apply icaltime_compare_instant; [apply time_normalized, Hy | assumption | reflexivity | |].
  - unfold icaltime_is_date. rewrite Hdate. reflexivity.
  - unfold comparable. cbn [zone time_in]. rewrite zone_eqb_refl. reflexivity.
Qed.

Lemma later_year y : year ds < y -> instant ds <= instant (time_in y).
Proof.
  intros Hy. pose proof (date_valid y ltac:(lia)) as Hd. pose proof clock_start as Hc.
  assert (date_lt (year ds) (month ds) (day ds) y m (date_in y)) as Hlt by (left; lia).
  apply day_number_lt in Hlt; [|apply Hds | assumption]. destruct Hc as (? & ? & ?).
  unfold instant. cbn [year month day hour minute second time_in]. lia.
Qed.

Lemma time_not_null y : 1753 <= y -> icaltime_is_null_time (time_in y) = false.
Proof.
  intros Hy. destruct (date_valid y Hy) as [? ?]. destruct clock_start as (? & ? & ?).
  unfold icaltime_is_null_time. cbn [year month day hour minute second time_in]. apply Z.eqb_neq. lia.
Qed.

(** Past the time of a year: that of the next, unless the years end. *)
Lemma loop_next_year y k i st fuel n :
  year ds <= y -> at_year y k i -> (0 < fuel)%nat ->
  exists j, next_loop fuel (S n) i st =
    Some (if y + 1 <=? MAX_TIME_T_YEAR then time_in (y + 1) else icaltime_null_time, j, st) /\
    (y + 1 <= MAX_TIME_T_YEAR -> at_year (y + 1) (k + 1) j).
Proof.
  intros Hy Hi Hfuel. destruct (step_to_next_year y k i st fuel ltac:(lia) Hi Hfuel) as (j & Ej & Hj).
  cbn [next_loop]. unfold ibind at 1. rewrite Ej. cbn [negb].
  unfold ibind at 1, normalize_last, modify at 1. cbv beta iota. unfold ibind at 1, get. cbv beta iota.
  rewrite (at_year_normal (y + 1) k j ltac:(lia) Hj). unfold past_end.
  rewrite (at_year_past _ _ _ Hj), (at_year_last _ _ _ Hj). cbn [year time_in orb].
  assert (negb (icaltime_is_null_time (iend j)) = false) as -> by (destruct Hj; reflexivity). cbn [andb orb].
  rewrite orb_false_r. destruct (Z.ltb_spec MAX_TIME_T_YEAR (y + 1)), (Z.leb_spec (y + 1) MAX_TIME_T_YEAR); try lia.
  { exists j. split; [reflexivity | lia]. }
  rewrite (at_year_istart _ _ _ Hj), compare_start by lia. pose proof (later_year (y + 1) ltac:(lia)).
  rewrite (proj2 (Z.ltb_ge _ _)) by lia. rewrite (at_year_contracting (y + 1) k j ltac:(lia) Hj).
  exists (set_occurrence_no (k + 1) j). split; [|intros _; eapply at_year_counted; eassumption].
  unfold opt, ibind, iret, modify. cbn [negb]. rewrite (at_year_no _ _ _ Hj). reflexivity.
Qed.

Lemma next_call y k i st fuel :
  year ds <= y -> 1 <= k -> at_year y k i -> (c = 0 \/ k < c) -> (0 < fuel)%nat ->
  exists j, icalrecur_iterator_next fuel i st =
    Some (if y + 1 <=? MAX_TIME_T_YEAR then time_in (y + 1) else icaltime_null_time, j, st) /\
    (y + 1 <= MAX_TIME_T_YEAR -> at_year (y + 1) (k + 1) j).
Proof.
  intros Hy Hk Hi Hc Hfuel. unfold icalrecur_iterator_next, ibind at 1, get. cbv beta iota.
  rewrite (at_year_past _ _ _ Hi), (at_year_count _ _ _ Hi), (at_year_no _ _ _ Hi).
  assert (negb (c =? 0) && (c <=? k) = false) as -> by lia.
  cbn [orb]. destruct (Z.eqb_spec k 0); [lia|]. cbn [andb]. unfold ibind at 1, iret at 1. cbv beta iota.
  destruct fuel as [|fuel]; [lia|]. apply loop_next_year; assumption.
Qed.

Lemma next_call_counted y k i st fuel :
  at_year y k i -> c <> 0 -> c <= k ->
  icalrecur_iterator_next fuel i st = Some (icaltime_null_time, i, st).
Proof.
  intros Hi Hc Hk. unfold icalrecur_iterator_next, ibind at 1, get. cbv beta iota.
  rewrite (at_year_past _ _ _ Hi), (at_year_count _ _ _ Hi), (at_year_no _ _ _ Hi).
  assert (negb (c =? 0) && (c <=? k) = true) as -> by lia. reflexivity.
Qed.

(** The first year whose time is not before DTSTART. *)
Definition first_in : Z := if instant (time_in (year ds)) <? instant ds then year ds + 1 else year ds.

Lemma first_call i st fuel :
  at_year (year ds) 0 i -> 0 <= c -> (0 < fuel)%nat ->
  exists j, icalrecur_iterator_next fuel i st =
    Some (if first_in <=? MAX_TIME_T_YEAR then time_in first_in else icaltime_null_time, j, st) /\
    (first_in <= MAX_TIME_T_YEAR -> at_year first_in 1 j).
Proof.
  intros Hi Hc Hfuel. unfold icalrecur_iterator_next, ibind at 1, get. cbv beta iota.
  rewrite (at_year_past _ _ _ Hi), (at_year_count _ _ _ Hi), (at_year_no _ _ _ Hi), (at_year_last _ _ _ Hi), (at_year_istart _ _ _ Hi).
  assert (negb (c =? 0) && (c <=? 0) = false) as -> by lia.
  cbn [orb]. change (0 =? 0) with true. cbn [andb]. rewrite compare_start by lia. unfold first_in.
  destruct (Z.ltb_spec (instant (time_in (year ds))) (instant ds)) as [Hlt|Hge].
  - rewrite (proj2 (Z.leb_gt _ _)) by lia. unfold ibind at 1, iret at 1. cbv beta iota.
    destruct fuel as [|n]; [lia|]. destruct (loop_next_year (year ds) 0 i st (S n) n) as (j & E & H); eauto with zarith.
  - rewrite (proj2 (Z.leb_le _ _)) by lia. rewrite (at_year_contracting (year ds) 0 i ltac:(lia) Hi).
    exists (set_occurrence_no 1 i). rewrite (proj2 (Z.leb_le _ _)) by lia.
    split; [|intros _; eapply at_year_counted; eassumption].
    reflexivity.
Qed.

(** ** Creation *)

Lemma defaults_filled : with_defaults (weekday_rule m v c ws) ds = filled_rule.
Proof.
  destruct clock_start as (? & ? & ?). destruct Hds as [[_ Hd] _]. pose proof (days_in_month_range (month ds) (year ds)).
  assert (forall x, 0 <= x < 60 -> to_short x = x) as Hx by (intros; apply to_short_small; lia).
  unfold with_defaults, weekday_rule, filled_rule. cbn. rewrite !Hx by lia. reflexivity.
Qed.

Lemma init_weekday_rule fuel st :
  init_iterator fuel (fresh_iterator (weekday_rule m v c ws) ds) st =
  __iterator_set_start fuel ds (set_rule filled_rule (set_rstart ds (fresh_iterator (weekday_rule m v c ws) ds))) st.
Proof.
  rewrite <- defaults_filled. apply init_defaults; reflexivity.
Qed.

Lemma start_at_first_year fuel st :
  icalerrno st = ICAL_NO_ERROR -> (0 < fuel)%nat ->
  exists i, __iterator_set_start fuel ds (set_rule filled_rule (set_rstart ds (fresh_iterator (weekday_rule m v c ws) ds))) st =
            Some (true, i, st) /\ at_year (year ds) 0 i.
Proof.
  intros Hst Hfuel. destruct fuel as [|fuel]; [lia|].
  set (la := IcalTime (year ds) (month ds) (day ds) (hour ds) (minute ds) (second ds) 0 0 (zone ds)).
  destruct (expand_year_marks la icaltime_null_time 0 daysmask_clearall ICAL_YEARDAYS_MASK_SIZE (fun _ => 0) (year ds) st ltac:(lia))
    as (M & x & E & HX).
  exists (holds (time_in (year ds)) la 0 M x (fun _ => 0)).
  assert (at_year (year ds) 0 (holds (time_in (year ds)) la 0 M x (fun _ => 0))) as Ha
    by (constructor; [reflexivity | assumption | intros b; reflexivity]).
  split; [|exact Ha].
  unfold __iterator_set_start, ibind at 1 2 3, modify. cbv beta iota. unfold ibind at 1.
  assert (set_datetime ds (set_days_index ICAL_YEARDAYS_MASK_SIZE (set_occurrence_no 0 (set_istart ds
            (set_rule filled_rule (set_rstart ds (fresh_iterator (weekday_rule m v c ws) ds)))))) st =
          Some (tt, holds la icaltime_null_time 0 daysmask_clearall ICAL_YEARDAYS_MASK_SIZE (fun _ => 0), st)) as ->.
  { unfold set_datetime, modify, first_or. change (dtstart (set_days_index _ _)) with ds. rewrite Hdate. reflexivity. }
  unfold ibind at 1, get. cbv beta iota. unfold ibind at 1.
  change (freq (rule (holds la icaltime_null_time 0 daysmask_clearall ICAL_YEARDAYS_MASK_SIZE (fun _ => 0)))) with ICAL_YEARLY_RECURRENCE.
  cbv iota. unfold start_yearly, ibind at 1, get. cbv beta iota.
  change (interval (rule _)) with 1. change (1 <? 1) with false. cbn [andb]. unfold ibind at 1, iret at 1. cbv beta iota.
  unfold ibind at 1. cbn [first_year]. unfold ibind at 1, get. cbv beta iota. cbn [last holds year la].
  unfold MAX_TIME_T_YEAR in Hyear. rewrite (proj2 (Z.ltb_lt _ _)) by lia. unfold ibind at 1. rewrite E.
  unfold ibind at 1, lift, get_icalerrno. rewrite Hst. destruct (icalerrorenum_eq_dec ICAL_NO_ERROR ICAL_NO_ERROR); [|congruence].
  cbn [negb]. unfold ibind at 1, get. cbv beta iota. cbn [days_index holds].
  pose proof (date_valid (year ds) ltac:(lia)) as Hd. pose proof (doy_range _ _ _ Hd) as Hr.
  destruct HX as [_ ->]. rewrite (proj2 (Z.ltb_lt _ _)) by (unfold ICAL_YEARDAYS_MASK_SIZE; lia).
  unfold iret at 1. cbv beta iota. cbn [negb]. unfold ibind at 1 2, get. cbv beta iota. cbn [days_index holds].
  rewrite set_day_of_year_at by (reflexivity || assumption). unfold iret at 1. cbv beta iota. cbn [negb].
  unfold ibind at 1, normalize_last, modify. cbv beta iota.
  change (set_date (set_date la _ m _) (year ds) m (date_in (year ds))) with (time_in (year ds)).
  rewrite (at_year_normal (year ds) 0 _ ltac:(lia) Ha). unfold ibind at 1, get. cbn [last holds year time_in].
  unfold MAX_TIME_T_YEAR. rewrite (proj2 (Z.ltb_ge _ _)) by lia. reflexivity.
Qed.

Lemma iterator_new_weekday_rule fuel st :
  dtstart_ok ds = true -> (0 < fuel)%nat ->
  exists i, icalrecur_iterator_new fuel (weekday_rule m v c ws) ds st = Some (Some i, with_errno st ICAL_NO_ERROR) /\
            at_year (year ds) 0 i.
Proof.
  intros Hok Hfuel. destruct (start_at_first_year fuel (with_errno st ICAL_NO_ERROR) eq_refl Hfuel) as (i & E & Hi).
  exists i. split; [|exact Hi]. unfold icalrecur_iterator_new, icalerror_clear_errno, put_icalerrno.
  change (freq_eqb (freq (weekday_rule m v c ws)) ICAL_NO_RECURRENCE) with false.
  change (rule_legal (weekday_rule m v c ws)) with true. rewrite Hok. cbn [negb orb].
  rewrite init_weekday_rule. unfold with_errno in E. rewrite E. reflexivity.
Qed.

(** ** The whole sequence *)

(** How many times there are. *)
Definition number_of_times : Z :=
  let years := Z.max 0 (MAX_TIME_T_YEAR + 1 - first_in) in if c =? 0 then years else Z.min years c.

Lemma times_from n y k i st fuel :
  0 <= c -> (0 < fuel)%nat -> year ds <= y <= MAX_TIME_T_YEAR -> at_year y k i -> y = first_in + k - 1 -> 1 <= k ->
  exists l, occurrences n fuel i st = Some l /\
    length l = Nat.min n (Z.to_nat (number_of_times - k)) /\
    forall j t, nth_error l j = Some t -> t = time_in (first_in + k + Z.of_nat j).
Proof.
  intros Hc Hfuel. revert y k i. induction n as [|n IH]; intros y k i Hy Hi Ey Hk; cbn [occurrences].
  { exists []. split; [reflexivity|]. split; [reflexivity|]. intros [|j] t H; discriminate. }
  assert (forall i', icalrecur_iterator_next fuel i st = Some (icaltime_null_time, i', st) -> number_of_times <= k ->
    exists l, match icalrecur_iterator_next fuel i st with
      | Some (t, i', st') =>
          if icaltime_is_null_time t then Some []
          else match occurrences n fuel i' st' with Some l => Some (t :: l) | None => None end
      | None => None end = Some l /\ length l = Nat.min (S n) (Z.to_nat (number_of_times - k)) /\
      forall j t, nth_error l j = Some t -> t = time_in (first_in + k + Z.of_nat j)) as Hend.
  { intros i' -> Hle. exists []. split; [reflexivity|]. split; [cbn [length]; lia|]. intros [|j] t H; discriminate. }
  destruct (Z.eq_dec c 0) as [Ec|Ec]; [|destruct (Z.le_gt_cases c k) as [Hle|Hgt]].
  2:{ apply (Hend i); [apply (next_call_counted y k); assumption|]. unfold number_of_times.
      destruct (Z.eqb_spec c 0); lia. }
  all: destruct (next_call y k i st fuel) as (j & E & Hj); [lia | assumption | assumption | lia | assumption|].
  all: destruct (Z.leb_spec (y + 1) MAX_TIME_T_YEAR) as [Hle2|Hgt2];
    [| apply (Hend j E); unfold number_of_times; destruct (Z.eqb_spec c 0); lia].
  all: destruct (IH (y + 1) (k + 1) j ltac:(lia) (Hj Hle2) ltac:(lia) ltac:(lia)) as (l & El & Hlen & Hl).
  all: rewrite E, time_not_null, El by lia; exists (time_in (y + 1) :: l); split; [reflexivity|]; split;
    [cbn [length]; rewrite Hlen; unfold number_of_times; destruct (Z.eqb_spec c 0); lia|].
  all: intros [|a] t Ht; cbn in Ht; [injection Ht as <-; f_equal; lia|]; apply Hl in Ht; subst t; f_equal; lia.
Qed.

Lemma all_times n i st fuel :
  0 <= c -> (0 < fuel)%nat -> at_year (year ds) 0 i ->
  exists l, occurrences n fuel i st = Some l /\ length l = Nat.min n (Z.to_nat number_of_times) /\
    forall j t, nth_error l j = Some t -> t = time_in (first_in + Z.of_nat j).
Proof.
  intros Hc Hfuel Hi. destruct n as [|n]; cbn [occurrences].
  { exists []. split; [reflexivity|]. split; [reflexivity|]. intros [|j] t H; discriminate. }
  destruct (first_call i st fuel Hi Hc Hfuel) as (j & E & Hj). rewrite E.
  assert (year ds <= first_in) as Hf by (unfold first_in; destruct (_ <? _); lia).
  destruct (Z.leb_spec first_in MAX_TIME_T_YEAR) as [Hle|Hgt].
  - destruct (times_from n first_in 1 j st fuel Hc Hfuel ltac:(lia) (Hj Hle) ltac:(lia) ltac:(lia)) as (l & El & Hlen & Hl).
    rewrite time_not_null, El by lia. exists (time_in first_in :: l). split; [reflexivity|]. split.
    + cbn [length]. rewrite Hlen. unfold number_of_times. destruct (Z.eqb_spec c 0); lia.
    + intros [|a] t Ht; cbn in Ht; [injection Ht as <-; f_equal; lia|]. apply Hl in Ht. subst t. f_equal. lia.
  - exists []. split; [reflexivity|]. split; [|intros [|a] t Ht; discriminate].
    cbn [length]. unfold number_of_times. destruct (Z.eqb_spec c 0); lia.
Qed.
End Rule.

(** A time is the [p]th of the weekday [w] of its month, from the start or the end
    of the month. *)
Definition is_nth_weekday (t : icaltimetype) (w p : Z) : Prop :=
  valid_date (year t) (month t) (day t) /\ weekday_of (year t) (month t) (day t) = w /\
  p = if 0 <? p then (day t - 1) / 7 + 1 else - ((month_days (year t) (month t) - day t) / 7 + 1).

Lemma time_in_is_nth m v ds y :
  1 <= m <= 12 -> every_month v -> 1753 <= y ->
  is_nth_weekday (time_in m v ds y) (icalrecurrencetype_day_day_of_week v) (icalrecurrencetype_day_position v).
Proof.
  intros Hm [Hw Hp] Hy. pose proof (weekday_date_valid y m _ _ Hy Hm Hw Hp) as Hd.
  unfold is_nth_weekday. cbn [year month day time_in]. unfold date_in, dow, nth. split; [assumption|].
  rewrite weekday_of_nth by assumption.
  pose proof (first_weekday y m Hy Hm). destruct Hd as [_ Hd]. fold (month_days y m) in Hd.
  pose proof (days_in_month_range m y) as Hn. fold (month_days y m) in Hn.
  unfold weekday_date, nth_weekday in *.
  generalize dependent (icalrecurrencetype_day_position v). generalize dependent (icalrecurrencetype_day_day_of_week v).
  generalize dependent (weekday_of y m 1). generalize dependent (month_days y m). intros. clear Hy Hm.
  split; destruct (Z.ltb_spec 0 z2); zdiv.
Qed.

(** C3: The rule FREQ=YEARLY;BYMONTH=m;BYDAY=v with a weekday and a position that
    every month has (the first to the fourth, from the start or from the end), such as
    the rules of daylight saving time: [icalrecur_iterator_new] succeeds on every valid
    DTSTART from 1753 on, every call of [icalrecur_iterator_next] terminates, and
    together they return exactly one time for each year from the first whose time is
    not before DTSTART to the year 2582, COUNT of them if given: the nth weekday of the
    month, at the time of day of DTSTART and in its zone. *)
Theorem weekday_rule_occurrences `{TZ : TimezoneConv} m v c ws ds st fuel n :
  1 <= m <= 12 -> every_month v -> 0 <= c -> dtstart_ok ds = true -> is_date ds = 0 -> 1753 <= year ds -> (0 < fuel)%nat ->
  exists i st' l,
    icalrecur_iterator_new fuel (weekday_rule m v c ws) ds st = Some (Some i, st') /\
    occurrences n fuel i st' = Some l /\
    length l = Nat.min n (Z.to_nat (number_of_times m v c ds)) /\
    forall k t, nth_error l k = Some t ->
      year t = first_in m v ds + Z.of_nat k /\ month t = m /\
      is_nth_weekday t (icalrecurrencetype_day_day_of_week v) (icalrecurrencetype_day_position v) /\
      hour t = hour ds /\ minute t = minute ds /\ second t = second ds /\ is_date t = 0 /\ zone t = zone ds.
Proof.
  intros Hm Hv Hc Hok Hd Hy Hfuel. destruct (dtstart_ok_normalized ds Hok Hd) as [Hn Hyear].
  destruct (iterator_new_weekday_rule m v c ws ds Hm Hv Hn Hd ltac:(lia) fuel st Hok Hfuel) as (i & E & Hi).
  destruct (all_times m v c ws ds Hm Hv Hn Hd ltac:(lia) n i (with_errno st ICAL_NO_ERROR) fuel Hc Hfuel Hi) as (l & El & Hlen & Hl).
  exists i, (with_errno st ICAL_NO_ERROR), l. do 3 (split; [assumption|]). intros k t Ht. apply Hl in Ht. subst t.
  do 2 (split; [reflexivity|]). split; [|repeat split].
  apply time_in_is_nth; [assumption..|]. unfold first_in. destruct (_ <? _); lia.
Qed.

(** The rule of the European Union: the last Sunday of March, from 1996 on. *)
Lemma weekday_rule_occurrences_witness :
  let ds := IcalTime 1996 3 31 1 0 0 0 0 ZONE_NULL in
  first_in 3 (-9) ds = 1996 /\ number_of_times 3 (-9) 0 ds = 587 /\
  exists i st' l,
    icalrecur_iterator_new (TZ := utc_only) 1 (weekday_rule 3 (-9) 0 ICAL_MONDAY_WEEKDAY) ds sample_state = Some (Some i, st') /\
    occurrences (TZ := utc_only) 3 1 i st' = Some l /\ length l = 3%nat.
Proof.
  split; [vm_compute; reflexivity|]. split; [vm_compute; reflexivity|].
  destruct (weekday_rule_occurrences (TZ := utc_only) 3 (-9) 0 ICAL_MONDAY_WEEKDAY (IcalTime 1996 3 31 1 0 0 0 0 ZONE_NULL)
              sample_state 1 3) as (i & st' & l & E & El & Hl & _);
    [lia | vm_compute; repeat split; discriminate | lia | vm_compute; reflexivity | reflexivity | vm_compute; discriminate | apply le_n |].
  exists i, st', l. split; [exact E|]. split; [exact El|]. rewrite Hl. vm_compute. reflexivity.
Defined.

(** ** The recurrence iterator on concrete rules

    The model runs: rules from the examples of RFC 5545, read from their text,
    give the dates the RFC lists.  The last section holds rules on which the
    iterator does not do what its documentation says. *)

#[local] Existing Instance utc_only.

Definition start_1997 : icaltimetype := IcalTime 1997 9 2 9 0 0 0 0 ZONE_NULL.

(** The rule of a text. *)
Definition rule_of (s : cstring) : icalrecurrencetype :=
  match icalrecurrencetype_from_string (Some s) (initial_error_state false) with
  | Some (r, _) => r
  | None => icalrecurrencetype_clear
  end.

Definition iterator_of (s : cstring) (ds : icaltimetype) : option (icalrecur_iterator * error_state) :=
  match icalrecur_iterator_new 400 (rule_of s) ds (initial_error_state false) with
  | Some (Some i, st) => Some (i, st)
  | _ => None
  end.

(** The dates of the first [n] occurrences. *)
Definition dates (n : nat) (s : cstring) (ds : icaltimetype) : option (list (Z * Z * Z)) :=
  match iterator_of s ds with
  | Some (i, st) =>
      match occurrences n 400 i st with
      | Some l => Some (map (fun t => (year t, month t, day t)) l)
      | None => None
      end
  | None => None
  end.

(** *** Examples of RFC 5545, section 3.8.5.3 *)

Example daily_every_10_days :
  dates 9 ($"FREQ=DAILY;INTERVAL=10;COUNT=5") start_1997 =
  Some [(1997, 9, 2); (1997, 9, 12); (1997, 9, 22); (1997, 10, 2); (1997, 10, 12)].
Proof. vm_compute. reflexivity. Qed.

Example every_other_week :
  dates 9 ($"FREQ=WEEKLY;INTERVAL=2;COUNT=8;WKST=SU;BYDAY=TU,TH") start_1997 =
  Some [(1997, 9, 2); (1997, 9, 4); (1997, 9, 16); (1997, 9, 18); (1997, 9, 30); (1997, 10, 2);
        (1997, 10, 14); (1997, 10, 16)].
Proof. vm_compute. reflexivity. Qed.

Example monthly_second_to_last_monday :
  dates 9 ($"FREQ=MONTHLY;COUNT=6;BYDAY=-2MO") (set_date start_1997 1997 9 22) =
  Some [(1997, 9, 22); (1997, 10, 20); (1997, 11, 17); (1997, 12, 22); (1998, 1, 19); (1998, 2, 16)].
Proof. vm_compute. reflexivity. Qed.

Example monthly_friday_13th :
  dates 4 ($"FREQ=MONTHLY;BYDAY=FR;BYMONTHDAY=13") start_1997 =
  Some [(1998, 2, 13); (1998, 3, 13); (1998, 11, 13); (1999, 8, 13)].
Proof. vm_compute. reflexivity. Qed.

Example monthly_third_of_three_weekdays :
  dates 9 ($"FREQ=MONTHLY;COUNT=3;BYDAY=TU,WE,TH;BYSETPOS=3") (set_date start_1997 1997 9 4) =
  Some [(1997, 9, 4); (1997, 10, 7); (1997, 11, 6)].
Proof. vm_compute. reflexivity. Qed.

Example yearly_by_yearday :
  dates 9 ($"FREQ=YEARLY;INTERVAL=3;COUNT=10;BYYEARDAY=1,100,200") (set_date start_1997 1997 1 1) =
  Some [(1997, 1, 1); (1997, 4, 10); (1997, 7, 19); (2000, 1, 1); (2000, 4, 9); (2000, 7, 18);
        (2003, 1, 1); (2003, 4, 10); (2003, 7, 19)].
Proof. vm_compute. reflexivity. Qed.

Example yearly_20th_monday :
  dates 3 ($"FREQ=YEARLY;BYDAY=20MO") (set_date start_1997 1997 5 19) =
  Some [(1997, 5, 19); (1998, 5, 18); (1999, 5, 17)].
Proof. vm_compute. reflexivity. Qed.

Example yearly_election_day :
  dates 3 ($"FREQ=YEARLY;INTERVAL=4;BYMONTH=11;BYDAY=TU;BYMONTHDAY=2,3,4,5,6,7,8")
    (set_date start_1997 1996 11 5) =
  Some [(1996, 11, 5); (2000, 11, 7); (2004, 11, 2)].
Proof. vm_compute. reflexivity. Qed.

Example yearly_by_weekno :
  dates 3 ($"FREQ=YEARLY;BYWEEKNO=20;BYDAY=MO") (set_date start_1997 1997 5 12) =
  Some [(1997, 5, 12); (1998, 5, 11); (1999, 5, 17)].
Proof. vm_compute. reflexivity. Qed.

(** *** Departures from the documentation *)

(** The first occurrence is returned even when it is not before the end that
    [icalrecur_iterator_set_range] sets. *)
Theorem range_end_ignored :
  match iterator_of ($"FREQ=MONTHLY;BYMONTHDAY=20") (set_date start_1997 1997 9 20) with
  | Some (i, st) =>
      match icalrecur_iterator_set_range 400 (set_date start_1997 1997 10 1)
              (set_date start_1997 1997 10 10) i st with
      | Some (true, j, st') => occurrences 3 400 j st' = Some [set_date start_1997 1997 10 20]
      | _ => False
      end
  | None => False
  end.
Proof. vm_compute. reflexivity. Qed.

(** An earlier, unrelated error makes [icalrecur_iterator_set_start] of a YEARLY
    rule fail. *)
Theorem set_start_stale_error :
  match iterator_of ($"FREQ=YEARLY") start_1997 with
  | Some (i, st) =>
      (exists j st', icalrecur_iterator_set_start 400 start_1997 i st = Some (true, j, st')) /\
      (exists j st', icalrecur_iterator_set_start 400 start_1997 i (with_errno st ICAL_FILE_ERROR)
                     = Some (false, j, st'))
  | None => False
  end.
Proof. vm_compute. split; do 2 eexists; reflexivity. Qed.

(** A negative week number leads to an access outside of the bitmask. *)
Theorem negative_weekno_out_of_bounds :
  rule_legal (rule_of ($"FREQ=YEARLY;BYWEEKNO=-1")) = true /\
  icalrecur_iterator_new 400 (rule_of ($"FREQ=YEARLY;BYWEEKNO=-1")) start_1997
    (initial_error_state false) = None.
Proof. split; vm_compute; reflexivity. Qed.

(** With BYDAY a day must be in all of the listed weeks, so that two week
    numbers select nothing in any year up to 20000. *)
Theorem two_weeks_select_nothing :
  match initialize_rscale (fresh_iterator (rule_of ($"FREQ=YEARLY;BYWEEKNO=20,21;BYDAY=MO")) start_1997)
          (initial_error_state false) with
  | Some (_, i, st) =>
      match expand_year_days 1998 (set_days_index ICAL_YEARDAYS_MASK_SIZE (set_last start_1997 i)) st with
      | Some (_, j, _) => filter (mem (days j)) (day_range (-4) 380) = []
      | None => False
      end
  | None => False
  end.
Proof. vm_compute. reflexivity. Qed.

(** A month with the leap suffix, which has no meaning without RSCALE, is
    accepted and then used as an index. *)
Theorem leap_month_out_of_bounds :
  by_month (rule_of ($"FREQ=YEARLY;BYMONTH=5L")) = [4101] /\
  icalrecur_iterator_new 400 (rule_of ($"FREQ=YEARLY;BYMONTH=5L")) start_1997
    (initial_error_state false) = None.
Proof. split; vm_compute; reflexivity. Qed.

(** Without UNTIL a reverse range finds nothing: its start is compared with the
    null UNTIL and replaced by it. *)
Theorem reverse_range_without_until :
  match iterator_of ($"FREQ=DAILY") start_1997 with
  | Some (i, st) =>
      match icalrecur_iterator_set_range 400 (set_date start_1997 1997 9 20)
              (set_date start_1997 1997 9 10) i st with
      | Some (true, j, st') =>
          year (last j) = 0 /\
          match icalrecur_iterator_prev 400 j st' with
          | Some (t, _, _) => t = icaltime_null_time
          | None => False
          end
      | _ => False
      end
  | None => False
  end.
Proof. vm_compute. split; reflexivity. Qed.
