(* ===== verification/IcalValueText.v ===== *)
(** * The text of values (icalvalue.c): escapes and UTC offsets

    The escaping of TEXT values, its inverse, the encoder and the decoder that
    the language bindings use, and the text form of UTC offsets.  The loops over
    C strings that skip characters are modelled with explicit positions: the
    string is followed by its NUL, and a read behind the NUL or a write behind
    the end of the output buffer is the result [None]. *)
From Stdlib Require Import String Ascii ZArith Lia Bool List.
From S2P Require Import Prelude CString.
Import ListNotations.
#[local] Open Scope Z_scope.
#[local] Open Scope cstring_scope.

(** ** Characters *)

Definition NUL : ascii := "000".
Definition BS : ascii := "008".
Definition TAB : ascii := "009".
Definition LF : ascii := "010".
Definition FF : ascii := "012".
Definition CR : ascii := "013".
Definition BACKSLASH : ascii := "092".

Definition char_in (c : ascii) (l : cstring) : bool := existsb (Ascii.eqb c) l.

(** The string at a position; the NUL follows the last character. *)
Definition char_at (str : cstring) (p : nat) : option ascii := nth_error (str ++ [NUL]) p.

(** ** Reading *)

(** What the character after a backslash stands for. *)
Definition unescape (c : ascii) : ascii :=
  if char_in c $"nN" then LF
  else if char_in c $"tT" then TAB
  else if char_in c $"rR" then CR
  else if char_in c $"bB" then BS
  else if char_in c $"fF" then FF
  else if char_in c [";"; ","; "034"; BACKSLASH]%char then c
  else " "%char.

(** A write to the output buffer of [size] characters. *)
Definition put (size : nat) (out : cstring) (c : ascii) : option cstring :=
  if Nat.ltb (length out) size then Some (out ++ [c]) else None.

Fixpoint dequote_loop (fuel : nat) (str : cstring) (size p : nat) (wroteNull : bool) (out : cstring)
  : option cstring :=
  match fuel with
  | O => None
  | S k =>
      if wroteNull then Some out else
      let* c := char_at str p in
      if Ascii.eqb c NUL then Some out
      else if Ascii.eqb c BACKSLASH then
        let p := S p in
        let* d := char_at str p in
        let wroteNull := Ascii.eqb d NUL in
        let* out := put size out (if wroteNull then NUL else unescape d) in
        dequote_loop k str size (S p) wroteNull out
      else
        let* out := put size out c in
        dequote_loop k str size (S p) wroteNull out
  end.

(** The C string in a buffer. *)
Fixpoint upto_nul (s : cstring) : cstring :=
  match s with
  | c :: s => if Ascii.eqb c NUL then [] else c :: upto_nul s
  | [] => []
  end.

Definition icalmemory_strdup_and_dequote (str : cstring) : option cstring :=
  let size := (length str + 1)%nat in
  let* out := dequote_loop (length str + 2) str size 0 false [] in
  let* out := put size out NUL in
  Some (upto_nul out).

(** ** Writing *)

(** [list_parent]: the property is CATEGORIES, RESOURCES or POLL-PROPERTIES. *)
Definition quote_char (list_parent : bool) (c : ascii) : cstring :=
  if Ascii.eqb c LF then [BACKSLASH; "n"%char]
  else if Ascii.eqb c TAB then [TAB]
  else if Ascii.eqb c CR then []
  else if Ascii.eqb c BS then []
  else if Ascii.eqb c FF then []
  else if Ascii.eqb c ";" || Ascii.eqb c "," then
    if list_parent then [c] else [BACKSLASH; c]
  else if Ascii.eqb c BACKSLASH then [BACKSLASH; c]
  else [c].

Definition icalmemory_strdup_and_quote (list_parent : bool) (unquoted_str : cstring) : cstring :=
  flat_map (quote_char list_parent) unquoted_str.

(** ** The encoder and the decoder for callers *)

(** The text and 1, or nothing and 0; a value made here has no parent. *)
Definition icalvalue_encode_ical_string (szText : cstring) (nMaxBufferLen : Z) : option cstring :=
  let ptr := icalmemory_strdup_and_quote false szText in
  if nMaxBufferLen <=? Z.of_nat (length ptr) then None else Some ptr.

(** The outer option is the undefined read behind the string. *)
Fixpoint decode_loop (fuel : nat) (str : cstring) (p : nat) (nMaxBufferLen : Z) (out : cstring)
  : option cstring :=
  match fuel with
  | O => None
  | S k =>
      let* c := char_at str p in
      if Ascii.eqb c NUL then Some out
      else
        let* (c, p) := (if Ascii.eqb c BACKSLASH then
                           let* d := char_at str (S p) in Some (d, S p)
                         else Some (c, p)) in
        let out := out ++ [c] in
        if nMaxBufferLen <? Z.of_nat (length out) then Some out
        else decode_loop k str (S p) nMaxBufferLen out
  end.

Definition icalvalue_decode_ical_string (szText : cstring) (nMaxBufferLen : Z) : option (option cstring) :=
  let* out := decode_loop (length szText + 2) szText 0 nMaxBufferLen [] in
  let str := upto_nul out in
  Some (if nMaxBufferLen <=? Z.of_nat (length str) then None else Some str).

(** ** UTC offsets *)

Definition icalvalue_utcoffset_as_ical_string_r (data : Z) : cstring :=
  let sign := if Z.abs data =? data then "+"%char else "-"%char in
  let h := Z.quot data 3600 in
  let m := Z.quot (data - h * 3600) 60 in
  let s := data - h * 3600 - m * 60 in
  if negb (s =? 0) then
    snprintf 9 (sign :: fmt_0d 2 (Z.abs h) ++ fmt_0d 2 (Z.abs m) ++ fmt_0d 2 (Z.abs s))
  else snprintf 9 (sign :: fmt_0d 2 (Z.abs h) ++ fmt_0d 2 (Z.abs m)).

Definition utcoffset_from_string (str : cstring) : Z :=
  let t := to_int32 (fst (strtol str)) in
  let t := if Nat.ltb (length str) 7 then t * 100 else t in
  let hours := Z.quot t 10000 in
  let minutes := Z.quot (t - hours * 10000) 100 in
  let seconds := t - hours * 10000 - minutes * 100 in
  hours * 3600 + minutes * 60 + seconds.

(** ** Escapes: correctness *)

(** The text without its NUL. *)
Definition nul_free (s : cstring) : Prop := Forall (fun c => c <> NUL) s.

(** The specification of the reader. *)
Fixpoint dequote (s : cstring) : cstring :=
  match s with
  | [] => []
  | c :: r =>
      if Ascii.eqb c BACKSLASH then match r with [] => [] | d :: r => unescape d :: dequote r end
      else c :: dequote r
  end.

(** The characters the writer keeps. *)
Definition kept (c : ascii) : bool := negb (char_in c [CR; BS; FF]).

Lemma unescape_not_nul d : d <> NUL -> unescape d <> NUL.
Proof.
  intros Hd. unfold unescape. repeat (case_if; [try discriminate; assumption|]). discriminate.
Qed.

Lemma char_at_skip (pre s : cstring) k : char_at (pre ++ s) (length pre + k) = char_at s k.
Proof. unfold char_at. rewrite <- app_assoc, nth_error_app2 by lia. f_equal. lia. Qed.

Lemma char_at_here (pre s : cstring) : char_at (pre ++ s) (length pre) = char_at s 0.
Proof. rewrite <- (char_at_skip pre s 0). f_equal. lia. Qed.

Lemma char_at_0 c r : char_at (c :: r) 0 = Some c.
Proof. reflexivity. Qed.

Lemma char_at_S c r k : char_at (c :: r) (S k) = char_at r k.
Proof. reflexivity. Qed.

Lemma char_at_nil : char_at [] 0 = Some NUL.
Proof. reflexivity. Qed.

Lemma put_room size out c : (length out < size)%nat -> put size out c = Some (out ++ [c]).
Proof. intros H. unfold put. now apply Nat.ltb_lt in H as ->. Qed.

Lemma upto_nul_app s t : nul_free s -> upto_nul (s ++ NUL :: t) = s.
Proof.
  induction 1 as [|c s Hc _ IH]; cbn; [reflexivity|].
  apply Ascii.eqb_neq in Hc. rewrite Hc. now rewrite IH.
Qed.

Lemma dequote_nul_free s : nul_free s -> nul_free (dequote s).
Proof.
  enough (forall n s, (length s <= n)%nat -> nul_free s -> nul_free (dequote s)) by eauto.
  clear s. induction n as [|n IH]; intros s Hn Hs.
  { destruct s; [constructor | cbn in Hn; lia]. }
  destruct s as [|c r]; [constructor|]. inversion Hs as [|? ? Hc Hr]; subst. cbn [dequote]. cbn in Hn.
  case_if.
  - destruct r as [|d r]; [constructor|]. inversion Hr; subst. constructor; [now apply unescape_not_nul|].
    apply IH; [cbn in Hn; lia | assumption].
  - constructor; [assumption|]. apply IH; [lia | assumption].
Qed.

Lemma dequote_length s : (length (dequote s) <= length s)%nat.
Proof.
  enough (forall n s, (length s <= n)%nat -> (length (dequote s) <= length s)%nat) by eauto.
  clear s. induction n as [|n IH]; intros s Hn; destruct s as [|c r]; cbn in *; try lia.
  case_if; [destruct r as [|d r]; cbn in *; [lia|]|]; cbn [length]; specialize (IH r); lia.
Qed.

(** The loop from a position [length pre] of the string. *)
Lemma dequote_loop_spec fuel pre s size out :
  nul_free s -> (length out + length s < size)%nat -> (length s + 2 <= fuel)%nat ->
  exists t, dequote_loop fuel (pre ++ s) size (length pre) false out = Some (out ++ dequote s ++ t) /\
    (t = [] \/ t = [NUL]) /\ (length (out ++ dequote s ++ t) < size)%nat.
Proof.
  revert pre s out. induction fuel as [|fuel IH]; intros pre s out Hs Hsize Hf; [lia|]. cbn [dequote_loop].
  rewrite char_at_here. destruct s as [|c r]; rewrite ?char_at_nil, ?char_at_0.
  { exists []. cbn. rewrite app_nil_r. cbn in Hsize. split; [reflexivity|]. split; [auto | lia]. }
  inversion Hs as [|? ? Hc Hr]; subst. apply Ascii.eqb_neq in Hc. rewrite Hc. cbn [dequote]. cbn [length] in *.
  destruct (Ascii.eqb_spec c BACKSLASH) as [->|Hne].
  - replace (S (length pre)) with (length pre + 1)%nat by lia. rewrite char_at_skip, char_at_S.
    destruct r as [|d r]; rewrite ?char_at_nil, ?char_at_0.
    + rewrite Ascii.eqb_refl, put_room by lia. destruct fuel; [lia|]. cbn [dequote_loop].
      exists [NUL]. cbn. rewrite length_app. cbn. split; [reflexivity|]. split; [auto | lia].
    + inversion Hr as [|? ? Hd Hr']; subst. apply Ascii.eqb_neq in Hd. rewrite Hd, put_room by lia.
      cbn [length] in *.
      destruct (IH (pre ++ [BACKSLASH; d]) r (out ++ [unescape d])) as (t & E & Ht & Hlt);
        [assumption | rewrite length_app; cbn; lia | lia|].
      rewrite length_app, <- app_assoc in E. cbn [app length] in E.
      replace (length pre + 2)%nat with (S (length pre + 1)) in E by lia. exists t. rewrite E.
      rewrite <- !app_assoc in *. cbn [app] in *. auto.
  - rewrite put_room by lia.
    destruct (IH (pre ++ [c]) r (out ++ [c])) as (t & E & Ht & Hlt);
      [assumption | rewrite length_app; cbn; lia | lia|].
    rewrite length_app, <- app_assoc in E. cbn [app length] in E. rewrite Nat.add_1_r in E. exists t. rewrite E.
    rewrite <- !app_assoc in *. cbn [app] in *. auto.
Qed.

(** The reader stays inside both strings. *)
Lemma dequote_total s : nul_free s -> icalmemory_strdup_and_dequote s = Some (dequote s).
Proof.
  intros Hs. unfold icalmemory_strdup_and_dequote.
  destruct (dequote_loop_spec (length s + 2) [] s (length s + 1) []) as (t & E & Ht & Hlt);
    [assumption | cbn; lia | lia|].
  cbn [app length] in *. rewrite E, put_room by assumption. f_equal.
  destruct Ht as [-> | ->]; [rewrite app_nil_r | rewrite <- app_assoc]; apply upto_nul_app; now apply dequote_nul_free.
Qed.

(** Reading the escape of one character. *)
Lemma dequote_quote_char lp c t :
  dequote (quote_char lp c ++ t) = (if kept c then [c] else []) ++ dequote t.
Proof. destruct c as [[] [] [] [] [] [] [] []], lp; reflexivity. Qed.

Lemma dequote_quote lp s : dequote (icalmemory_strdup_and_quote lp s) = filter kept s.
Proof.
  induction s as [|c s IH]; [reflexivity|]. unfold icalmemory_strdup_and_quote in *. cbn [flat_map filter].
  rewrite dequote_quote_char, IH. now destruct (kept c).
Qed.

Lemma quote_nul_free lp s : nul_free s -> nul_free (icalmemory_strdup_and_quote lp s).
Proof.
  induction 1 as [|c s Hc _ IH]; [constructor|]. cbn. apply Forall_app. split; [|assumption].
  unfold quote_char. repeat case_if; repeat constructor; try discriminate; assumption.
Qed.

(** No character of the text ends or continues the line it is on. *)
Definition line_char (c : ascii) : bool := negb (char_in c [LF; CR; BS; FF]).

Lemma quote_line_chars lp s : forallb line_char (icalmemory_strdup_and_quote lp s) = true.
Proof.
  induction s as [|c s IH]; [reflexivity|]. cbn. rewrite forallb_app, andb_true_iff. split; [|assumption].
  destruct c as [[] [] [] [] [] [] [] []], lp; reflexivity.
Qed.

(** A separator that is not escaped. *)
Fixpoint bare_separator (s : cstring) : bool :=
  match s with
  | [] => false
  | c :: r =>
      if Ascii.eqb c BACKSLASH then match r with [] => false | _ :: r => bare_separator r end
      else char_in c $";," || bare_separator r
  end.

Lemma quote_no_separator s : bare_separator (icalmemory_strdup_and_quote false s) = false.
Proof.
  induction s as [|c s IH]; [reflexivity|].
  assert (forall t, bare_separator (quote_char false c ++ t) = bare_separator t) as E
    by (intros t; destruct c as [[] [] [] [] [] [] [] []]; reflexivity).
  cbn. now rewrite E.
Qed.

(** ** The decoder *)

(** Texts in which every backslash has a character after it, and their
    characters without the escapes. *)
Fixpoint strip (s : cstring) : option cstring :=
  match s with
  | [] => Some []
  | c :: r =>
      if Ascii.eqb c BACKSLASH then
        match r with [] => None | d :: r => let* t := strip r in Some (d :: t) end
      else let* t := strip r in Some (c :: t)
  end.

Definition not_nul (c : ascii) : bool := negb (Ascii.eqb c NUL).

Lemma decode_loop_spec fuel pre s n out t :
  strip s = Some t -> nul_free s -> (length s < fuel)%nat -> Z.of_nat (length out + length t) <= n ->
  decode_loop fuel (pre ++ s) (length pre) n out = Some (out ++ t).
Proof.
  revert pre s out t. induction fuel as [|fuel IH]; intros pre s out t Ht Hs Hf Hn; [lia|].
  cbn [decode_loop]. rewrite char_at_here.
  destruct s as [|c r]; rewrite ?char_at_nil, ?char_at_0.
  { injection Ht as <-. cbn. now rewrite app_nil_r. }
  inversion Hs as [|? ? Hc Hr]; subst. apply Ascii.eqb_neq in Hc. rewrite Hc. cbn [strip] in Ht. cbn [length] in *.
  destruct (Ascii.eqb_spec c BACKSLASH) as [->|Hne].
  - destruct r as [|d r]; [discriminate|]. destruct (strip r) as [t'|] eqn:Et; [|discriminate]. injection Ht as <-.
    replace (S (length pre)) with (length pre + 1)%nat by lia. rewrite char_at_skip, char_at_S, char_at_0.
    inversion Hr; subst. cbn [length] in *. rewrite length_app. cbn [length].
    destruct (Z.ltb_spec n (Z.of_nat (length out + 1))); [lia|].
    specialize (IH (pre ++ [BACKSLASH; d]) r (out ++ [d]) t' Et). rewrite (length_app pre), <- app_assoc in IH. cbn [app length] in IH.
    replace (length pre + 2)%nat with (S (length pre + 1)) in IH by lia. rewrite IH; [now rewrite <- app_assoc | assumption | lia |].
    rewrite length_app. cbn. lia.
  - destruct (strip r) as [t'|] eqn:Et; [|discriminate]. injection Ht as <-. cbn [length] in *. rewrite length_app. cbn [length].
    destruct (Z.ltb_spec n (Z.of_nat (length out + 1))); [lia|].
    specialize (IH (pre ++ [c]) r (out ++ [c]) t' Et). rewrite (length_app pre), <- app_assoc in IH. cbn [app length] in IH.
    replace (length pre + 1)%nat with (S (length pre)) in IH by lia. rewrite IH; [now rewrite <- app_assoc | assumption | lia |].
    rewrite length_app. cbn. lia.
Qed.

(** A line feed comes back as the letter of its escape. *)
Definition lf_to_n (c : ascii) : ascii := if Ascii.eqb c LF then "n"%char else c.

Lemma strip_quote lp s : strip (icalmemory_strdup_and_quote lp s) = Some (map lf_to_n (filter kept s)).
Proof.
  induction s as [|c s IH]; [reflexivity|].
  assert (forall t u, strip t = Some u ->
    strip (quote_char lp c ++ t) = Some ((if kept c then [lf_to_n c] else []) ++ u)) as E.
  { intros t u Hu. destruct c as [[] [] [] [] [] [] [] []], lp; cbn; rewrite ?Hu; reflexivity. }
  unfold icalmemory_strdup_and_quote in *. cbn [flat_map filter]. rewrite (E _ _ IH). now destruct (kept c).
Qed.

Lemma upto_nul_id s : nul_free s -> upto_nul s = s.
Proof.
  induction 1 as [|c s Hc _ IH]; cbn; [reflexivity|]. apply Ascii.eqb_neq in Hc. now rewrite Hc, IH.
Qed.

Lemma strip_length s t : strip s = Some t -> (length t <= length s)%nat.
Proof.
  enough (forall n s t, (length s <= n)%nat -> strip s = Some t -> (length t <= length s)%nat) by eauto.
  clear s t. induction n as [|n IH]; intros s t Hn Ht; destruct s as [|c r]; cbn in *; try lia;
    try (injection Ht as <-; cbn; lia).
  case_if_in Ht; [destruct r as [|d r]; [discriminate|]|];
    (destruct (strip r) as [u|] eqn:Eu; [|discriminate]); injection Ht as <-;
    apply IH in Eu; cbn in *; lia.
Qed.

Lemma decode_encoded s n t :
  nul_free s -> icalvalue_encode_ical_string s n = Some t ->
  icalvalue_decode_ical_string t n = Some (Some (map lf_to_n (filter kept s))).
Proof.
  intros Hs. unfold icalvalue_encode_ical_string. set (q := icalmemory_strdup_and_quote false s).
  destruct (Z.leb_spec n (Z.of_nat (length q))) as [|Hn]; [discriminate|]. intros [= <-].
  pose proof (strip_quote false s) as Hstrip. fold q in Hstrip. pose proof (strip_length _ _ Hstrip) as Hlen.
  unfold icalvalue_decode_ical_string.
  rewrite (decode_loop_spec _ [] q n [] _ Hstrip); [|now apply quote_nul_free | lia | cbn; lia]. cbn [app].
  rewrite upto_nul_id.
  - destruct (Z.leb_spec n (Z.of_nat (length (map lf_to_n (filter kept s))))); [lia | reflexivity].
  - unfold nul_free in *. apply Forall_map, Forall_forall. intros c Hc. apply filter_In in Hc as [Hc _].
    rewrite Forall_forall in Hs. specialize (Hs c Hc). unfold lf_to_n. case_if; [discriminate | assumption].
Qed.

(** ** Properties of the escapes *)

(** Text values survive being written and read.  Reading the escaped form of
    any text gives the text back without its carriage returns, backspaces and
    form feeds, whatever property the value belongs to; the reader stays inside
    the string and inside its buffer of the same size. *)
Theorem text_escape_roundtrip (list_parent : bool) (s : cstring) :
  nul_free s ->
  icalmemory_strdup_and_dequote (icalmemory_strdup_and_quote list_parent s) = Some (filter kept s).
Proof. intros Hs. rewrite dequote_total by now apply quote_nul_free. now rewrite dequote_quote. Qed.

Lemma text_escape_roundtrip_witness :
  nul_free ($"a;b,c\d" ++ [LF; CR; TAB]) /\
  icalmemory_strdup_and_dequote (icalmemory_strdup_and_quote false ($"a;b,c\d" ++ [LF; CR; TAB])) =
  Some ($"a;b,c\d" ++ [LF; TAB]).
Proof.
  assert (nul_free ($"a;b,c\d" ++ [LF; CR; TAB])) as H by (repeat constructor; discriminate).
  split; [exact H | exact (text_escape_roundtrip false _ H)].
Defined.

(** C39: On every C string, also one that ends in a backslash or has unknown
    escapes, the reader of text values neither reads behind the NUL nor writes
    behind its buffer, and returns the text with its escapes replaced. *)
Theorem dequote_in_bounds (s : cstring) :
  nul_free s -> icalmemory_strdup_and_dequote s = Some (dequote s) /\ (length (dequote s) <= length s)%nat.
Proof. intros Hs. split; [now apply dequote_total | apply dequote_length]. Qed.

Lemma dequote_in_bounds_witness :
  nul_free $"a\nb\x\" /\ icalmemory_strdup_and_dequote $"a\nb\x\" = Some (["a"; LF; "b"; " "]%char).
Proof.
  assert (nul_free $"a\nb\x\") as H by (repeat constructor; discriminate).
  split; [exact H | exact (proj1 (dequote_in_bounds _ H))].
Defined.

(** The escaped form of a text never breaks the structure around it: it has
    no line feed, carriage return, backspace or form feed, and outside of the
    list-valued properties no comma or semicolon that is not escaped. *)
Theorem escaped_text_is_safe (list_parent : bool) (s : cstring) :
  forallb line_char (icalmemory_strdup_and_quote list_parent s) = true /\
  bare_separator (icalmemory_strdup_and_quote false s) = false.
Proof. split; [apply quote_line_chars | apply quote_no_separator]. Qed.

(** What the decoder makes of an encoded text: line feeds become the letter n,
    although the header promises the original text. *)
Example decode_loses_line_feeds :
  icalvalue_encode_ical_string ["a"; LF; "b"]%char 10 = Some $"a\nb" /\
  icalvalue_decode_ical_string $"a\nb" 10 = Some (Some $"anb").
Proof. split; reflexivity. Qed.

(** A text that ends in a backslash makes the decoder read behind the string. *)
Example decode_trailing_backslash : icalvalue_decode_ical_string $"a\" 10 = None.
Proof. reflexivity. Qed.

(** ** UTC offsets: correctness *)

(** A sign and digits. *)
Definition signed_text (neg : bool) (ds : cstring) : cstring := (if neg then "-"%char else "+"%char) :: ds.

Lemma strtol_signed neg ds :
  all_digits ds -> ds <> [] -> dval 0 ds <= LONG_MAX ->
  fst (strtol (signed_text neg ds)) = if neg then - dval 0 ds else dval 0 ds.
Proof.
  intros Hd Hne Hmax. unfold strtol, signed_text. assert (0 <= dval 0 ds) by (apply dval_nonneg; [assumption | lia]).
  destruct neg; cbn [skip_ws]; [change (isspace "-") with false | change (isspace "+") with false]; cbv iota.
  - pose proof (scan_number_minus (length ("-"%char :: ds)) ds []) as E. rewrite app_nil_r in E.
    rewrite E; try assumption; [reflexivity | cbn; lia | right; exact I].
  - unfold scan_number. change (Ascii.eqb "+" "-") with false. change (Ascii.eqb "+" "+") with true. cbv iota.
    cbn [pred length]. destruct ds as [|c r]; [congruence|]. inversion Hd as [|? ? Hc Hr]; subst. rewrite Hc.
    pose proof (scan_digits_stop (S (length (c :: r))) 0 (c :: r) []) as E. rewrite app_nil_r in E.
    rewrite E; [|assumption | cbn; lia | exact I]. now rewrite clamp_long_small by (unfold LONG_MIN; lia).
Qed.

Lemma fmt_02 z : 0 <= z < 100 -> all_digits (fmt_0d 2 z) /\ length (fmt_0d 2 z) = 2%nat /\ dval 0 (fmt_0d 2 z) = z.
Proof.
  intros Hz. split; [now apply fmt_0d_digits|]. split; [|now apply fmt_0d_val].
  apply (fmt_0d_length 1). exact Hz.
Qed.

Lemma fmt_02_pair a b :
  0 <= a < 100 -> 0 <= b < 100 ->
  all_digits (fmt_0d 2 a ++ fmt_0d 2 b) /\ length (fmt_0d 2 a ++ fmt_0d 2 b) = 4%nat /\
  dval 0 (fmt_0d 2 a ++ fmt_0d 2 b) = a * 100 + b.
Proof.
  intros Ha Hb. destruct (fmt_02 a Ha) as (Da & La & Va), (fmt_02 b Hb) as (Db & Lb & Vb).
  split; [now apply Forall_app|]. split; [rewrite length_app; lia|].
  rewrite dval_app, dval_acc, Lb, Va, Vb. lia.
Qed.

(** The time behind the six digits of a number. *)
Lemma split_hms (neg : bool) h m s :
  0 <= h < 100 -> 0 <= m < 60 -> 0 <= s < 60 ->
  let t := if neg then - (h * 10000 + m * 100 + s) else h * 10000 + m * 100 + s in
  let hours := Z.quot t 10000 in
  let minutes := Z.quot (t - hours * 10000) 100 in
  hours * 3600 + minutes * 60 + (t - hours * 10000 - minutes * 100) =
  if neg then - (h * 3600 + m * 60 + s) else h * 3600 + m * 60 + s.
Proof. intros. destruct neg; subst t hours minutes; zdiv. Qed.

Lemma utcoffset_read (neg : bool) h m s :
  0 <= h < 100 -> 0 <= m < 60 -> 0 <= s < 60 ->
  utcoffset_from_string (signed_text neg
    (if negb (s =? 0) then fmt_0d 2 h ++ fmt_0d 2 m ++ fmt_0d 2 s else fmt_0d 2 h ++ fmt_0d 2 m)) =
  if neg then - (h * 3600 + m * 60 + s) else h * 3600 + m * 60 + s.
Proof.
  intros Hh Hm Hs. rewrite <- (split_hms neg h m s) by assumption.
  destruct (fmt_02_pair h m) as (Dp & Lp & Vp); [lia | lia|]. destruct (fmt_02 s) as (Ds & Ls & Vs); [lia|].
  unfold utcoffset_from_string. destruct (Z.eqb_spec s 0) as [->|Hs0]; cbn [negb].
  - rewrite strtol_signed; [|assumption | intros E; rewrite E in Lp; discriminate | rewrite Vp; unfold LONG_MAX; lia].
    rewrite Vp, to_int32_small by (unfold is_int32, INT_MIN, INT_MAX; destruct neg; lia).
    replace (Nat.ltb _ 7) with true by (cbn [signed_text length]; rewrite Lp; reflexivity).
    replace ((if neg then - (h * 100 + m) else h * 100 + m) * 100)
      with (if neg then - (h * 10000 + m * 100 + 0) else h * 10000 + m * 100 + 0) by (destruct neg; lia). reflexivity.
  - rewrite app_assoc. assert (length ((fmt_0d 2 h ++ fmt_0d 2 m) ++ fmt_0d 2 s) = 6%nat) as L6 by (rewrite length_app; lia).
    assert (dval 0 ((fmt_0d 2 h ++ fmt_0d 2 m) ++ fmt_0d 2 s) = h * 10000 + m * 100 + s) as V6.
    { rewrite dval_app, dval_acc, Ls, Vp, Vs. lia. }
    rewrite strtol_signed; [|now apply Forall_app | intros E; rewrite E in L6; discriminate | rewrite V6; unfold LONG_MAX; lia].
    rewrite V6, to_int32_small by (unfold is_int32, INT_MIN, INT_MAX; destruct neg; lia).
    replace (Nat.ltb _ 7) with false by (cbn [signed_text length]; rewrite L6; reflexivity). reflexivity.
Qed.

Lemma firstn_short {A} n (l : list A) : (length l <= n)%nat -> firstn n l = l.
Proof. apply firstn_all2. Qed.

Lemma utcoffset_written data :
  Z.abs data < 360000 ->
  let a := Z.abs data in
  let h := a / 3600 in let m := a mod 3600 / 60 in let s := a mod 60 in
  icalvalue_utcoffset_as_ical_string_r data =
  signed_text (data <? 0)
    (if negb (s =? 0) then fmt_0d 2 h ++ fmt_0d 2 m ++ fmt_0d 2 s else fmt_0d 2 h ++ fmt_0d 2 m).
Proof.
  intros Hd a h m s. unfold icalvalue_utcoffset_as_ical_string_r.
  assert (Z.abs (Z.quot data 3600) = h) as -> by (subst a h; zdiv).
  assert (Z.abs (Z.quot (data - Z.quot data 3600 * 3600) 60) = m) as -> by (subst a m; zdiv).
  assert (data - Z.quot data 3600 * 3600 - Z.quot (data - Z.quot data 3600 * 3600) 60 * 60 = Z.rem data 60) as ->
    by zdiv.
  assert (Z.abs (Z.rem data 60) = s) as Es by (subst a s; zdiv). rewrite Es.
  assert ((Z.rem data 60 =? 0) = (s =? 0)) as -> by (destruct (Z.eqb_spec (Z.rem data 60) 0), (Z.eqb_spec s 0); lia).
  assert ((if Z.abs data =? data then "+"%char else "-"%char) = (if data <? 0 then "-"%char else "+"%char)) as ->
    by (destruct (Z.eqb_spec (Z.abs data) data), (Z.ltb_spec data 0); try reflexivity; lia).
  destruct (fmt_02 h) as (_ & Lh & _); [subst a h; zdiv|]. destruct (fmt_02 m) as (_ & Lm & _); [subst a m; zdiv|].
  destruct (fmt_02 s) as (_ & Ls & _); [subst a s; zdiv|].
  unfold snprintf, signed_text. destruct (negb (s =? 0)); apply firstn_short; cbn [length pred]; rewrite !length_app; lia.
Qed.

Lemma utcoffset_roundtrip data :
  Z.abs data < 360000 -> utcoffset_from_string (icalvalue_utcoffset_as_ical_string_r data) = data.
Proof.
  intros Hd. rewrite utcoffset_written by assumption. rewrite utcoffset_read by zdiv.
  destruct (Z.ltb_spec data 0); zdiv.
Qed.
