(* ===== verification/IcalValue.v ===== *)
(** * Values (icalvalue.c, icalderivedvalue.c.in, icalattach.c)

    A value has a kind, one member of a union of data, the text of an extended
    value and the property it belongs to.  The file models the creation of a
    value from text, the text of a value, the accessors that change the kind,
    comparison and the reference counts of attachments.

    The tables that the build generates from design-data are the class
    [DerivedTables]; floating-point numbers and their conversions are the class
    [FloatOps].  Reading a member of the union that was not written, or a null
    pointer, is undefined: the computation ends with [None], as it does on a
    fatal error. *)
From Stdlib Require Import String Ascii ZArith Lia Bool List.
From S2P Require Import Prelude CString IcalError IcalTime IcalTimeText IcalDuration IcalPeriod IcalTypes IcalRecurType IcalRecurText IcalValueText.
Import ListNotations.
#[local] Open Scope Z_scope.
#[local] Open Scope cstring_scope.
#[local] Open Scope err_scope.

(** ** Kinds *)

Inductive icalvalue_kind :=
| ICAL_ANY_VALUE | ICAL_QUERY_VALUE | ICAL_DATE_VALUE | ICAL_ATTACH_VALUE | ICAL_GEO_VALUE
| ICAL_STATUS_VALUE | ICAL_TRANSP_VALUE | ICAL_STRING_VALUE | ICAL_TEXT_VALUE
| ICAL_REQUESTSTATUS_VALUE | ICAL_CMD_VALUE | ICAL_BINARY_VALUE | ICAL_QUERYLEVEL_VALUE
| ICAL_FLOAT_VALUE | ICAL_PERIOD_VALUE | ICAL_DATETIMEPERIOD_VALUE | ICAL_CARLEVEL_VALUE
| ICAL_INTEGER_VALUE | ICAL_URI_VALUE | ICAL_CLASS_VALUE | ICAL_DURATION_VALUE
| ICAL_BOOLEAN_VALUE | ICAL_X_VALUE | ICAL_CALADDRESS_VALUE | ICAL_TRIGGER_VALUE
| ICAL_XLICCLASS_VALUE | ICAL_RECUR_VALUE | ICAL_ACTION_VALUE | ICAL_DATETIME_VALUE
| ICAL_UTCOFFSET_VALUE | ICAL_METHOD_VALUE | ICAL_NO_VALUE | ICAL_BUSYTYPE_VALUE
| ICAL_POLLMODE_VALUE | ICAL_POLLCOMPLETION_VALUE | ICAL_TASKMODE_VALUE | ICAL_DATETIMEDATE_VALUE.

Definition value_kind_dec (a b : icalvalue_kind) : {a = b} + {a <> b}.
Proof. decide equality. Defined.
Definition kind_eqb (a b : icalvalue_kind) : bool := if value_kind_dec a b then true else false.

(** The generated [value_map]. *)
Definition value_map : list (icalvalue_kind * cstring) :=
  [(ICAL_ACTION_VALUE, $"ACTION"); (ICAL_ATTACH_VALUE, $"ATTACH"); (ICAL_BINARY_VALUE, $"BINARY");
   (ICAL_BOOLEAN_VALUE, $"BOOLEAN"); (ICAL_BUSYTYPE_VALUE, $"BUSYTYPE");
   (ICAL_CALADDRESS_VALUE, $"CAL-ADDRESS"); (ICAL_CARLEVEL_VALUE, $"CAR-LEVEL");
   (ICAL_CLASS_VALUE, $"CLASS"); (ICAL_CMD_VALUE, $"CMD"); (ICAL_DATE_VALUE, $"DATE");
   (ICAL_DATETIME_VALUE, $"DATE-TIME"); (ICAL_DATETIMEDATE_VALUE, $"DATE-TIME-DATE");
   (ICAL_DATETIMEPERIOD_VALUE, $"DATE-TIME-PERIOD"); (ICAL_DURATION_VALUE, $"DURATION");
   (ICAL_FLOAT_VALUE, $"FLOAT"); (ICAL_GEO_VALUE, $"GEO"); (ICAL_INTEGER_VALUE, $"INTEGER");
   (ICAL_METHOD_VALUE, $"METHOD"); (ICAL_PERIOD_VALUE, $"PERIOD");
   (ICAL_POLLCOMPLETION_VALUE, $"POLLCOMPLETION"); (ICAL_POLLMODE_VALUE, $"POLLMODE");
   (ICAL_QUERY_VALUE, $"QUERY"); (ICAL_QUERYLEVEL_VALUE, $"QUERY-LEVEL"); (ICAL_RECUR_VALUE, $"RECUR");
   (ICAL_REQUESTSTATUS_VALUE, $"REQUEST-STATUS"); (ICAL_STATUS_VALUE, $"STATUS");
   (ICAL_STRING_VALUE, $"STRING"); (ICAL_TASKMODE_VALUE, $"TASKMODE"); (ICAL_TEXT_VALUE, $"TEXT");
   (ICAL_TRANSP_VALUE, $"TRANSP"); (ICAL_TRIGGER_VALUE, $"TRIGGER"); (ICAL_URI_VALUE, $"URI");
   (ICAL_UTCOFFSET_VALUE, $"UTC-OFFSET"); (ICAL_X_VALUE, $"X"); (ICAL_XLICCLASS_VALUE, $"X-LIC-CLASS");
   (ICAL_NO_VALUE, [])].

Definition icalvalue_kind_is_valid (kind : icalvalue_kind) : bool :=
  negb (kind_eqb kind ICAL_ANY_VALUE) && existsb (fun e => kind_eqb (fst e) kind) value_map.

Definition icalvalue_kind_to_string (kind : icalvalue_kind) : option cstring :=
  option_map snd (find (fun e => kind_eqb (fst e) kind) value_map).

(** [None] is the null pointer. *)
Definition icalvalue_string_to_kind (str : option cstring) : icalvalue_kind :=
  match str with
  | None => ICAL_NO_VALUE
  | Some s => match find (fun e => strcaseeqb (snd e) s) value_map with
              | Some e => fst e
              | None => ICAL_NO_VALUE
              end
  end.

(** Property kinds, by the numbers of properties.csv. *)
Definition icalproperty_kind := Z.
Definition ICAL_CATEGORIES_PROPERTY : icalproperty_kind := 12.
Definition ICAL_RESOURCES_PROPERTY : icalproperty_kind := 71.
Definition ICAL_NO_PROPERTY : icalproperty_kind := 100.
Definition ICAL_POLLPROPERTIES_PROPERTY : icalproperty_kind := 105.

(** ** Parameters of the model *)

(** Generated: for each property its kind and the kind of its values, in the
    order of [property_map]; and [enum_map] from [ICALPROPERTY_FIRST_ENUM] on:
    property, number, text. *)
Class DerivedTables := {
  property_values : list (icalproperty_kind * icalvalue_kind);
  enum_map : list (icalproperty_kind * Z * cstring)
}.

(** [double], [atof], the conversion to [float], [%f] and [<]. *)
Class FloatOps := {
  double : Type;
  double_zero : double;
  atof : cstring -> double;
  to_float : double -> double;
  fmt_f : double -> cstring;
  double_ltb : double -> double -> bool
}.

Section Values.
Context `{TABLES : DerivedTables} `{FLOAT : FloatOps}.

(** ** Enumerated values (icalderivedproperty.c.in) *)

Definition ICALPROPERTY_FIRST_ENUM : Z := 10000.
Definition ICALPROPERTY_LAST_ENUM : Z := ICALPROPERTY_FIRST_ENUM + Z.of_nat (length enum_map).

Definition icalproperty_value_kind_to_kind (kind : icalvalue_kind) : icalproperty_kind :=
  match find (fun e => kind_eqb (snd e) kind) property_values with
  | Some e => fst e
  | None => ICAL_NO_PROPERTY
  end.

Fixpoint skip_spaces (s : cstring) : cstring :=
  match s with
  | c :: r => if Ascii.eqb c " " then skip_spaces r else s
  | [] => []
  end.

Definition icalproperty_kind_and_string_to_enum (kind : icalvalue_kind) (str : cstring) : Z :=
  let pkind := icalproperty_value_kind_to_kind kind in
  if pkind =? ICAL_NO_PROPERTY then 0
  else
    let str := skip_spaces str in
    match find (fun '(p, _, s) => (p =? pkind) && strcaseeqb s str) enum_map with
    | Some (_, e, _) => e
    | None => 0
    end.

Definition icalproperty_enum_belongs_to_property (kind : icalproperty_kind) (e : Z) : bool :=
  existsb (fun '(p, n, _) => (n =? e) && (p =? kind)) enum_map.

(** The entry behind the last one is the sentinel of the generated array. *)
Definition icalproperty_enum_to_string (e : Z) : err (option cstring) :=
  if (ICALPROPERTY_FIRST_ENUM <=? e) && (e <=? ICALPROPERTY_LAST_ENUM) then
    ret (Some (snd (znth (e - ICALPROPERTY_FIRST_ENUM) enum_map (ICAL_NO_PROPERTY, 0, []))))
  else icalerror_set_errno ICAL_BADARG_ERROR ;;; ret None.

(** ** Data *)

(** An attachment by its address; the reference counts are below. *)
Record icalattach := Attach {
  at_addr : positive;
  at_is_url : bool;
  at_text : cstring
}.

(** The union; [V_zero] is memory set to 0. *)
Inductive value_data :=
| V_zero
| V_attach (a : icalattach)
| V_string (s : cstring)
| V_float (f : double)
| V_int (n : Z)
| V_enum (e : Z)
| V_duration (d : icaldurationtype)
| V_period (p : icalperiodtype)
| V_geo (lat lon : double)
| V_time (t : icaltimetype)
| V_requeststatus (r : icalreqstattype)
| V_recur (r : icalrecurrencetype).

(** [v_parent] is the kind of the property the value belongs to. *)
Record icalvalue := Value {
  v_kind : icalvalue_kind;
  v_parent : option icalproperty_kind;
  v_x : option cstring;
  v_data : value_data
}.

Definition set_kind (k : icalvalue_kind) (v : icalvalue) : icalvalue := Value k (v_parent v) (v_x v) (v_data v).
Definition set_data (d : value_data) (v : icalvalue) : icalvalue := Value (v_kind v) (v_parent v) (v_x v) d.
Definition icalvalue_set_parent (p : option icalproperty_kind) (v : icalvalue) : icalvalue :=
  Value (v_kind v) p (v_x v) (v_data v).
Definition icalvalue_set_x (x : cstring) (v : icalvalue) : icalvalue :=
  Value (v_kind v) (v_parent v) (Some x) (v_data v).

Definition icalvalue_new_impl (kind : icalvalue_kind) : option icalvalue :=
  if icalvalue_kind_is_valid kind then Some (Value kind None None V_zero) else None.

Definition undefined {A} : err A := fun _ => None.

(** The time member; memory set to 0 is the null time. *)
Definition data_time (d : value_data) : err icaltimetype :=
  match d with V_time t => ret t | V_zero => ret icaltime_null_time | _ => undefined end.

Definition icalvalue_reset_kind (v : icalvalue) : err icalvalue :=
  if kind_eqb (v_kind v) ICAL_DATETIME_VALUE || kind_eqb (v_kind v) ICAL_DATE_VALUE then
    t <- data_time (v_data v) ;;
    if negb (icaltime_is_null_time t) then
      ret (set_kind (if icaltime_is_date t then ICAL_DATE_VALUE else ICAL_DATETIME_VALUE) v)
    else ret v
  else ret v.

(** ** Accessors that are more than an assignment *)

Definition is_time_kind (k : icalvalue_kind) : bool :=
  kind_eqb k ICAL_DATETIME_VALUE || kind_eqb k ICAL_DATE_VALUE.

Definition badarg {A} (a : A) : err A := icalerror_set_errno ICAL_BADARG_ERROR ;;; ret a.

Definition icalvalue_set_datetimedate (v : icalvalue) (t : icaltimetype) : err icalvalue :=
  if negb (icaltime_is_valid_time t) then badarg v
  else if negb (is_time_kind (v_kind v)) then badarg v
  else icalvalue_reset_kind (set_data (V_time t) v).

Definition icalvalue_set_datetime (v : icalvalue) (t : icaltimetype) : err icalvalue :=
  if icaltime_is_date t then badarg v else icalvalue_set_datetimedate v t.

Definition icalvalue_set_date (v : icalvalue) (t : icaltimetype) : err icalvalue :=
  if negb (icaltime_is_date t) then badarg v else icalvalue_set_datetimedate v t.

Definition icalvalue_set_trigger (v : icalvalue) (tr : icaltriggertype) : err icalvalue :=
  if negb (icaltime_is_null_time (tr_time tr))
  then icalvalue_set_datetime (set_kind ICAL_DATETIME_VALUE v) (tr_time tr)
  else ret (set_data (V_duration (tr_duration tr)) (set_kind ICAL_DURATION_VALUE v)).

Definition icalvalue_set_datetimeperiod (v : icalvalue) (t : icaltimetype) (p : icalperiodtype) : err icalvalue :=
  if negb (icaltime_is_null_time t)
  then icalvalue_set_datetimedate (set_kind ICAL_DATETIME_VALUE v) t
  else if negb (icalperiodtype_is_null_period p) then
    if negb (icalperiodtype_is_valid_period p) then badarg v
    else ret (set_data (V_period p) (set_kind ICAL_PERIOD_VALUE v))
  else badarg v.

(** COUNT and UNTIL exclude each other. *)
Definition icalvalue_set_recur (v : icalvalue) (r : icalrecurrencetype) : err icalvalue :=
  if (count r =? 0) || icaltime_is_null_time (until r) then ret (set_data (V_recur r) v) else badarg v.

Definition icalvalue_get_datetimedate (v : icalvalue) : err icaltimetype :=
  if is_time_kind (v_kind v) then data_time (v_data v) else badarg icaltime_null_time.

Definition icalvalue_get_date (v : icalvalue) : err icaltimetype :=
  if kind_eqb (v_kind v) ICAL_DATE_VALUE then data_time (v_data v) else badarg icaltime_null_date.

(** A new value with its data. *)
Definition new_with (kind : icalvalue_kind) (d : value_data) : icalvalue := Value kind None None d.

Definition icalvalue_new_datetime (t : icaltimetype) : err icalvalue :=
  icalvalue_set_datetime (new_with ICAL_DATETIME_VALUE V_zero) t.
Definition icalvalue_new_trigger (tr : icaltriggertype) : err icalvalue :=
  icalvalue_set_trigger (new_with ICAL_TRIGGER_VALUE V_zero) tr.
Definition icalvalue_new_recur (r : icalrecurrencetype) : err icalvalue :=
  icalvalue_set_recur (new_with ICAL_RECUR_VALUE V_zero) r.

Definition icalvalue_new_enum (kind : icalvalue_kind) (x_type : Z) (str : cstring) : icalvalue :=
  let e := icalproperty_kind_and_string_to_enum kind str in
  if negb (e =? 0) && icalproperty_enum_belongs_to_property (icalproperty_value_kind_to_kind kind) e
  then new_with kind (V_enum e)
  else icalvalue_set_x str (new_with kind (V_enum x_type)).

(** ** Geographical positions *)

Definition TMP_NUM_SIZE : nat := 100.

(** The length of the number that starts a text. *)
Fixpoint number_span (s : cstring) : nat :=
  match s with
  | c :: r => if isdigit c || char_in c $".+-" then S (number_span r) else O
  | [] => O
  end.

Fixpoint space_span (s : cstring) : nat :=
  match s with
  | c :: r => if isspace c then S (space_span r) else O
  | [] => O
  end.

(** [n] characters from a position on, read one after the other. *)
Fixpoint read_chars (str : cstring) (p n : nat) : option cstring :=
  match n with
  | O => Some []
  | S n => let* c := char_at str p in let* r := read_chars str (S p) n in Some (c :: r)
  end.

(** The result is undefined ([None]), an error, or the number and the position
    behind it.  The copy takes [end - from] characters from [start] into a
    buffer of [TMP_NUM_SIZE + 1]. *)
Definition simple_str_to_double (from : cstring) : option (option (double * nat)) :=
  let start := space_span from in
  let len := number_span (skipn start from) in
  let fin := (start + len)%nat in
  if Nat.ltb 100 (len + 1) then Some None
  else if Nat.ltb (TMP_NUM_SIZE + 1) fin then None
  else let* tmp_buf := read_chars from start fin in Some (Some (atof (upto_nul tmp_buf), fin)).

(** The label [geo_parsing_error] is the inner [None]. *)
Definition geo_from_string (str : cstring) : option (option (double * double)) :=
  let* lat := simple_str_to_double str in
  match lat with
  | None => Some None
  | Some (lat, cur) =>
      let rest := skip_ws (skipn cur str) in
      match rest with
      | c :: rest =>
          if Ascii.eqb c ";" then
            let* lon := simple_str_to_double (skip_ws rest) in
            Some (match lon with Some (lon, _) => Some (lat, lon) | None => None end)
          else Some None
      | [] => Some None
      end
  end.

(** ** Reading *)

Definition TMP_BUF_SIZE : nat := Z.to_nat 1024.

(** The text of the X-LIC-ERROR property the reader reports with. *)
Definition could_not_parse (kind : icalvalue_kind) (str : cstring) : cstring :=
  snprintf TMP_BUF_SIZE ($"Could not parse " ++ str ++ $" as a "
    ++ name_or_empty (icalvalue_kind_to_string kind) ++ $" property").

Definition ICAL_TRANSP_X : Z := 11000.
Definition ICAL_METHOD_X : Z := 10500.
Definition ICAL_STATUS_X : Z := 10900.
Definition ICAL_ACTION_X : Z := 10000.
Definition ICAL_CLASS_X : Z := 10300.
Definition ICAL_CMD_X : Z := 10400.
Definition ICAL_QUERYLEVEL_X : Z := 10800.
Definition ICAL_CARLEVEL_X : Z := 10200.
Definition ICAL_BUSYTYPE_X : Z := 10100.
Definition ICAL_POLLMODE_X : Z := 10700.
Definition ICAL_POLLCOMPLETION_X : Z := 10600.

(** The enumerated kinds and the number of an extended value. *)
Definition enum_x_type (kind : icalvalue_kind) : option Z :=
  match kind with
  | ICAL_TRANSP_VALUE => Some ICAL_TRANSP_X
  | ICAL_METHOD_VALUE => Some ICAL_METHOD_X
  | ICAL_STATUS_VALUE => Some ICAL_STATUS_X
  | ICAL_ACTION_VALUE => Some ICAL_ACTION_X
  | ICAL_CLASS_VALUE => Some ICAL_CLASS_X
  | ICAL_CMD_VALUE => Some ICAL_CMD_X
  | ICAL_QUERYLEVEL_VALUE => Some ICAL_QUERYLEVEL_X
  | ICAL_CARLEVEL_VALUE => Some ICAL_CARLEVEL_X
  | ICAL_BUSYTYPE_VALUE => Some ICAL_BUSYTYPE_X
  | ICAL_POLLMODE_VALUE => Some ICAL_POLLMODE_X
  | ICAL_POLLCOMPLETION_VALUE => Some ICAL_POLLCOMPLETION_X
  | _ => None
  end.

Definition dequoted (str : cstring) : err cstring :=
  match icalmemory_strdup_and_dequote str with Some s => ret s | None => undefined end.

(** The value, and the text of the error if one is set in the switch.  [addr]
    is where an attachment is allocated. *)
Definition read_value (addr : positive) (kind : icalvalue_kind) (str : cstring)
  : err (option icalvalue * option cstring) :=
  let ok v := ret (Some v, None) in
  let none := ret (None, None) in
  match enum_x_type kind with
  | Some x => ok (icalvalue_new_enum kind x str)
  | None =>
  match kind with
  | ICAL_ATTACH_VALUE => ok (new_with ICAL_ATTACH_VALUE (V_attach (Attach addr true str)))
  | ICAL_BINARY_VALUE => ok (new_with ICAL_ATTACH_VALUE (V_attach (Attach addr false str)))
  | ICAL_BOOLEAN_VALUE =>
      if streqb str $"TRUE" then ok (new_with kind (V_int 1))
      else if streqb str $"FALSE" then ok (new_with kind (V_int 0))
      else ret (None, Some (could_not_parse kind str))
  | ICAL_QUERY_VALUE | ICAL_STRING_VALUE | ICAL_CALADDRESS_VALUE | ICAL_URI_VALUE =>
      ok (new_with kind (V_string str))
  | ICAL_INTEGER_VALUE => ok (new_with kind (V_int (atoi str)))
  | ICAL_FLOAT_VALUE => ok (new_with kind (V_float (to_float (atof str))))
  | ICAL_UTCOFFSET_VALUE => ok (new_with kind (V_int (utcoffset_from_string str)))
  | ICAL_TEXT_VALUE => s <- dequoted str ;; ok (new_with kind (V_string s))
  | ICAL_GEO_VALUE =>
      match geo_from_string str with
      | None => undefined
      | Some (Some (lat, lon)) => ok (new_with kind (V_geo lat lon))
      | Some None => ret (None, Some (could_not_parse kind str))
      end
  | ICAL_RECUR_VALUE =>
      rt <- icalrecurrencetype_from_string (Some str) ;;
      if negb (freq_eqb (freq rt) ICAL_NO_RECURRENCE) then v <- icalvalue_new_recur rt ;; ok v else none
  | ICAL_DATE_VALUE | ICAL_DATETIME_VALUE =>
      t <- icaltime_from_string str ;;
      if negb (icaltime_is_null_time t)
      then v <- icalvalue_reset_kind (new_with kind (V_time t)) ;; ok v else none
  | ICAL_DATETIMEPERIOD_VALUE =>
      t <- icaltime_from_string str ;;
      if negb (icaltime_is_null_time t) then v <- icalvalue_new_datetime t ;; ok v
      else
        p <- icalperiodtype_from_string str ;;
        if negb (icalperiodtype_is_null_period p) then ok (new_with ICAL_PERIOD_VALUE (V_period p)) else none
  | ICAL_DURATION_VALUE =>
      d <- icaldurationtype_from_string str ;;
      if negb (icaldurationtype_is_bad_duration d) then ok (new_with kind (V_duration d)) else none
  | ICAL_PERIOD_VALUE =>
      p <- icalperiodtype_from_string str ;;
      if negb (icalperiodtype_is_null_period p) then ok (new_with kind (V_period p)) else none
  | ICAL_TRIGGER_VALUE =>
      tr <- icaltriggertype_from_string (Some str) ;;
      if negb (icaltriggertype_is_bad_trigger tr) then v <- icalvalue_new_trigger tr ;; ok v else none
  | ICAL_REQUESTSTATUS_VALUE =>
      rst <- icalreqstattype_from_string str ;;
      match rs_code rst with
      | ICAL_UNKNOWN_STATUS => none
      | _ => ok (new_with kind (V_requeststatus rst))
      end
  | ICAL_X_VALUE => s <- dequoted str ;; ok (icalvalue_set_x s (new_with kind V_zero))
  | _ => ret (None, Some (snprintf TMP_BUF_SIZE ($"Unknown type for '" ++ str ++ $"'")))
  end
  end.

(** The reader reports a failure that has no error of its own. *)
Definition icalvalue_new_from_string_with_error (addr : positive) (kind : icalvalue_kind) (str : cstring)
  : err (option icalvalue * option cstring) :=
  r <- read_value addr kind str ;;
  match r with
  | (None, None) => ret (None, Some (snprintf TMP_BUF_SIZE ($"Failed to parse value: '" ++ str ++ $"'")))
  | _ => ret r
  end.

Definition icalvalue_new_from_string (addr : positive) (kind : icalvalue_kind) (str : cstring)
  : err (option icalvalue) :=
  r <- read_value addr kind str ;; ret (fst r).

(** ** Writing *)

Definition MAX_INT_DIGITS : nat := 12.

Definition icalvalue_isa (v : icalvalue) : icalvalue_kind := v_kind v.

Definition icalproperty_isa (p : option icalproperty_kind) : icalproperty_kind :=
  match p with Some k => k | None => ICAL_NO_PROPERTY end.

(** The test of [icalmemory_strdup_and_quote] on the parent. *)
Definition list_parent (v : icalvalue) : bool :=
  let k := icalproperty_isa (v_parent v) in
  (k =? ICAL_CATEGORIES_PROPERTY) || (k =? ICAL_RESOURCES_PROPERTY) || (k =? ICAL_POLLPROPERTIES_PROPERTY).

Definition data_int (d : value_data) : err Z :=
  match d with V_int n => ret n | V_zero => ret 0 | _ => undefined end.
Definition data_enum (d : value_data) : err Z :=
  match d with V_enum n => ret n | V_zero => ret 0 | _ => undefined end.
Definition data_float (d : value_data) : err double :=
  match d with V_float f => ret f | V_zero => ret double_zero | _ => undefined end.
Definition data_duration (d : value_data) : err icaldurationtype :=
  match d with V_duration d => ret d | V_zero => ret icaldurationtype_null_duration | _ => undefined end.
Definition data_period (d : value_data) : err icalperiodtype :=
  match d with V_period p => ret p | V_zero => ret icalperiodtype_null_period | _ => undefined end.
Definition data_string (d : value_data) : err cstring :=
  match d with V_string s => ret s | _ => undefined end.

Definition icalvalue_datetime_as_ical_string_r (v : icalvalue) : err (option cstring) :=
  if negb (is_time_kind (icalvalue_isa v)) then badarg None
  else t <- icalvalue_get_datetimedate v ;; ret (Some (print_datetime_to_string t)).

Definition icalvalue_date_as_ical_string_r (v : icalvalue) : err (option cstring) :=
  t <- icalvalue_get_date v ;; ret (Some (print_date_to_string t)).

Definition icalvalue_get_trigger (v : icalvalue) : err icaltriggertype :=
  match v_kind v with
  | ICAL_DATETIME_VALUE => t <- data_time (v_data v) ;; ret (Trigger t (icaldurationtype_from_int 0))
  | ICAL_DURATION_VALUE =>
      d <- data_duration (v_data v) ;; ret (Trigger icaltime_null_time d)
  | _ => badarg (Trigger icaltime_null_time (icaldurationtype_from_int 0))
  end.

Definition icalvalue_get_datetimeperiod (v : icalvalue) : err (icaltimetype * icalperiodtype) :=
  match v_kind v with
  | ICAL_DATETIME_VALUE | ICAL_DATE_VALUE =>
      t <- data_time (v_data v) ;; ret (t, icalperiodtype_null_period)
  | ICAL_PERIOD_VALUE =>
      p <- data_period (v_data v) ;; ret (icaltime_null_time, p)
  | _ => badarg (icaltime_null_time, icalperiodtype_null_period)
  end.

Definition icalvalue_datetimeperiod_as_ical_string_r (v : icalvalue) : err (option cstring) :=
  tp <- icalvalue_get_datetimeperiod v ;;
  let '(t, p) := tp in
  ret (Some (if negb (icaltime_is_null_time t) then icaltime_as_ical_string_r t
             else icalperiodtype_as_ical_string_r p)).

Definition icalvalue_as_ical_string_r (v : icalvalue) : err (option cstring) :=
  match v_kind v with
  | ICAL_ATTACH_VALUE =>
      match v_data v with V_attach a => ret (Some (at_text a)) | _ => undefined end
  | ICAL_BINARY_VALUE =>
      ret (Some (snprintf 60 $"icalvalue_binary_as_ical_string is not implemented yet"))
  | ICAL_BOOLEAN_VALUE => n <- data_int (v_data v) ;; ret (Some (if truthy n then $"TRUE" else $"FALSE"))
  | ICAL_INTEGER_VALUE => n <- data_int (v_data v) ;; ret (Some (snprintf MAX_INT_DIGITS (fmt_d n)))
  | ICAL_UTCOFFSET_VALUE => n <- data_int (v_data v) ;; ret (Some (icalvalue_utcoffset_as_ical_string_r n))
  | ICAL_TEXT_VALUE =>
      s <- data_string (v_data v) ;; ret (Some (icalmemory_strdup_and_quote (list_parent v) s))
  | ICAL_QUERY_VALUE | ICAL_STRING_VALUE | ICAL_URI_VALUE | ICAL_CALADDRESS_VALUE =>
      s <- data_string (v_data v) ;; ret (Some s)
  | ICAL_DATE_VALUE => icalvalue_date_as_ical_string_r v
  | ICAL_DATETIME_VALUE => icalvalue_datetime_as_ical_string_r v
  | ICAL_DURATION_VALUE =>
      d <- data_duration (v_data v) ;; ret (Some (icaldurationtype_as_ical_string_r d))
  | ICAL_PERIOD_VALUE =>
      p <- data_period (v_data v) ;; ret (Some (icalperiodtype_as_ical_string_r p))
  | ICAL_DATETIMEPERIOD_VALUE => icalvalue_datetimeperiod_as_ical_string_r v
  | ICAL_FLOAT_VALUE =>
      f <- data_float (v_data v) ;; ret (Some (snprintf 40 (fmt_f f)))
  | ICAL_GEO_VALUE =>
      match v_data v with
      | V_geo lat lon => ret (Some (snprintf 80 (fmt_f lat ++ $";" ++ fmt_f lon)))
      | V_zero => ret (Some (snprintf 80 (fmt_f double_zero ++ $";" ++ fmt_f double_zero)))
      | _ => undefined
      end
  | ICAL_RECUR_VALUE =>
      match v_data v with V_recur r => ret (icalrecurrencetype_as_string_r r) | _ => undefined end
  | ICAL_TRIGGER_VALUE =>
      tr <- icalvalue_get_trigger v ;; ret (Some (icalvalue_trigger_as_ical_string_r tr))
  | ICAL_REQUESTSTATUS_VALUE =>
      match v_data v with V_requeststatus r => icalreqstattype_as_string_r r | _ => undefined end
  | ICAL_ACTION_VALUE | ICAL_CMD_VALUE | ICAL_QUERYLEVEL_VALUE | ICAL_CARLEVEL_VALUE
  | ICAL_METHOD_VALUE | ICAL_STATUS_VALUE | ICAL_TRANSP_VALUE | ICAL_CLASS_VALUE
  | ICAL_BUSYTYPE_VALUE | ICAL_POLLMODE_VALUE | ICAL_POLLCOMPLETION_VALUE =>
      match v_x v with
      | Some x => ret (Some x)
      | None =>
          e <- data_enum (v_data v) ;;
          str <- icalproperty_enum_to_string e ;;
          match str with Some _ => ret str | None => undefined end
      end
  | ICAL_X_VALUE =>
      match v_x v with
      | Some x => ret (Some (icalmemory_strdup_and_quote (list_parent v) x))
      | None => ret None
      end
  | _ => ret None
  end.

(** ** Copies *)

(** A new value without parent; attachments are shared. *)
Definition icalvalue_clone (old : icalvalue) : err (option icalvalue) :=
  match icalvalue_new_impl (v_kind old) with
  | None => ret None
  | Some new =>
      match v_kind old with
      | ICAL_RECUR_VALUE =>
          match v_data old with
          | V_recur r =>
              v <- icalvalue_set_recur new r ;;
              match v_data v with V_recur _ => ret (Some v) | _ => ret None end
          | _ => ret (Some new)
          end
      | ICAL_ACTION_VALUE =>
          e <- data_enum (v_data old) ;;
          let new := set_data (v_data old) new in
          ret (Some (if e =? ICAL_ACTION_X
                     then match v_x old with Some x => icalvalue_set_x x new | None => new end
                     else new))
      | ICAL_X_VALUE => ret (Some (match v_x old with Some x => icalvalue_set_x x new | None => new end))
      | _ => ret (Some (set_data (v_data old) new))
      end
  end.

(** ** Comparison *)

Inductive comparetype :=
| NOT_COMPARED | ICAL_XLICCOMPARETYPE_EQUAL | ICAL_XLICCOMPARETYPE_LESS
| ICAL_XLICCOMPARETYPE_GREATER | ICAL_XLICCOMPARETYPE_NOTEQUAL.

Fixpoint strcmp (a b : cstring) : Z :=
  match a, b with
  | [], [] => 0
  | [], c :: _ => - code c
  | c :: _, [] => code c
  | c :: a, d :: b => if code c =? code d then (if code c =? 0 then 0 else strcmp a b) else code c - code d
  end.

Definition order_of (less greater : bool) : comparetype :=
  if greater then ICAL_XLICCOMPARETYPE_GREATER
  else if less then ICAL_XLICCOMPARETYPE_LESS else ICAL_XLICCOMPARETYPE_EQUAL.

Definition equality_of (b : bool) : comparetype :=
  if b then ICAL_XLICCOMPARETYPE_EQUAL else ICAL_XLICCOMPARETYPE_NOTEQUAL.

Definition compare_ints (a b : Z) : comparetype := order_of (a <? b) (b <? a).

(** The texts of both values; [strcmp] of a null pointer is undefined. *)
Definition compare_texts (a b : icalvalue) : err comparetype :=
  temp1 <- icalvalue_as_ical_string_r a ;;
  temp2 <- icalvalue_as_ical_string_r b ;;
  match temp1, temp2 with
  | Some s, Some t => ret (compare_ints (strcmp s t) 0)
  | _, _ => undefined
  end.

Definition icalvalue_is_time (v : icalvalue) : bool := is_time_kind (icalvalue_isa v).

Definition icalvalue_compare (a b : icalvalue) : err comparetype :=
  if negb (icalvalue_is_time a && icalvalue_is_time b) && negb (kind_eqb (icalvalue_isa a) (icalvalue_isa b))
  then ret ICAL_XLICCOMPARETYPE_NOTEQUAL
  else
    match icalvalue_isa a with
    | ICAL_ATTACH_VALUE =>
        match v_data a, v_data b with
        | V_attach x, V_attach y =>
            if at_is_url x && at_is_url y then ret (equality_of (strcaseeqb (at_text x) (at_text y)))
            else ret (equality_of (Pos.eqb (at_addr x) (at_addr y)))
        | _, _ => undefined
        end
    | ICAL_BINARY_VALUE =>
        match v_data a, v_data b with
        | V_attach x, V_attach y => ret (equality_of (Pos.eqb (at_addr x) (at_addr y)))
        | _, _ => undefined
        end
    | ICAL_BOOLEAN_VALUE =>
        x <- data_int (v_data a) ;; y <- data_int (v_data b) ;; ret (equality_of (x =? y))
    | ICAL_FLOAT_VALUE =>
        x <- data_float (v_data a) ;; y <- data_float (v_data b) ;;
        ret (order_of (double_ltb x y) (double_ltb y x))
    | ICAL_INTEGER_VALUE | ICAL_UTCOFFSET_VALUE =>
        x <- data_int (v_data a) ;; y <- data_int (v_data b) ;; ret (compare_ints x y)
    | ICAL_DURATION_VALUE =>
        x <- data_duration (v_data a) ;; y <- data_duration (v_data b) ;;
        ret (compare_ints (icaldurationtype_as_int x) (icaldurationtype_as_int y))
    | ICAL_TEXT_VALUE | ICAL_URI_VALUE | ICAL_CALADDRESS_VALUE | ICAL_TRIGGER_VALUE | ICAL_DATE_VALUE
    | ICAL_DATETIME_VALUE | ICAL_DATETIMEPERIOD_VALUE | ICAL_QUERY_VALUE | ICAL_RECUR_VALUE =>
        compare_texts a b
    | ICAL_METHOD_VALUE | ICAL_STATUS_VALUE | ICAL_TRANSP_VALUE | ICAL_ACTION_VALUE =>
        x <- data_enum (v_data a) ;; y <- data_enum (v_data b) ;; ret (equality_of (x =? y))
    | _ => ret NOT_COMPARED
    end.
End Values.

(** ** Reference counts (icalattach.c) *)

Record icalattach_impl := AttachImpl {
  refcount : Z;
  is_url : bool;
  contents : cstring
}.

Definition icalattach_new_from_url (url : cstring) : icalattach_impl := AttachImpl 1 true url.
Definition icalattach_new_from_data (data : cstring) : icalattach_impl := AttachImpl 1 false data.

Definition icalattach_ref (a : icalattach_impl) : err icalattach_impl :=
  if negb (0 <? refcount a) then badarg a
  else ret (AttachImpl (refcount a + 1) (is_url a) (contents a)).

(** [None]: the attachment has been freed. *)
Definition icalattach_unref (a : icalattach_impl) : err (option icalattach_impl) :=
  if negb (0 <? refcount a) then badarg (Some a)
  else if negb (refcount a - 1 =? 0)
  then ret (Some (AttachImpl (refcount a - 1) (is_url a) (contents a))) else ret None.

Definition icalattach_get_is_url (a : icalattach_impl) : bool := is_url a.
Definition icalattach_get_url (a : icalattach_impl) : err (option cstring) :=
  if is_url a then ret (Some (contents a)) else badarg None.
Definition icalattach_get_data (a : icalattach_impl) : err (option cstring) :=
  if is_url a then badarg None else ret (Some (contents a)).

(** ** Text round trip *)

Section RoundTrip.
Context `{TABLES : DerivedTables} `{FLOAT : FloatOps}.

(** The entry of an enumerated value: the first with its name, ignoring case,
    among those of the property, and at the place its number says. *)
Definition enum_entry (kind : icalvalue_kind) (e : Z) (name : cstring) : Prop :=
  let pkind := icalproperty_value_kind_to_kind kind in
  pkind <> ICAL_NO_PROPERTY /\ ICALPROPERTY_FIRST_ENUM <= e < ICALPROPERTY_LAST_ENUM /\
  nth_error enum_map (Z.to_nat (e - ICALPROPERTY_FIRST_ENUM)) = Some (pkind, e, name) /\
  skip_spaces name = name /\
  forall e' name', In (pkind, e', name') enum_map -> strcaseeqb name' name = true -> e' = e.

(** The values whose text is read back, with the kind under which it is read. *)
Inductive written_value : icalvalue -> Prop :=
| wv_boolean b : written_value (new_with ICAL_BOOLEAN_VALUE (V_int (b2z b)))
| wv_integer n : is_int32 n -> written_value (new_with ICAL_INTEGER_VALUE (V_int n))
| wv_utcoffset n : Z.abs n < 360000 -> written_value (new_with ICAL_UTCOFFSET_VALUE (V_int n))
| wv_text p s :
    nul_free s -> forallb kept s = true -> written_value (Value ICAL_TEXT_VALUE p None (V_string s))
| wv_string k s :
    In k [ICAL_QUERY_VALUE; ICAL_STRING_VALUE; ICAL_CALADDRESS_VALUE; ICAL_URI_VALUE] ->
    written_value (new_with k (V_string s))
| wv_time t :
    printable t -> icaltime_is_null_time t = false ->
    written_value (new_with (if icaltime_is_date t then ICAL_DATE_VALUE else ICAL_DATETIME_VALUE) (V_time t))
| wv_duration d :
    wf_duration d -> icaldurationtype_as_int d <> 0 \/ d = icaldurationtype_null_duration ->
    written_value (new_with ICAL_DURATION_VALUE (V_duration d))
| wv_period p : printable_period p -> written_value (new_with ICAL_PERIOD_VALUE (V_period p))
| wv_recur r : printable_rule r -> written_value (new_with ICAL_RECUR_VALUE (V_recur r))
| wv_requeststatus code debug :
    code <> ICAL_UNKNOWN_STATUS -> (match debug with Some d => length d < 900 | None => True end)%nat ->
    written_value (new_with ICAL_REQUESTSTATUS_VALUE (V_requeststatus (Reqstat code None debug)))
| wv_x p s :
    nul_free s -> forallb kept s = true -> written_value (Value ICAL_X_VALUE p (Some s) V_zero)
| wv_enum k x e name :
    enum_x_type k = Some x -> enum_entry k e name -> e <> 0 -> written_value (new_with k (V_enum e))
| wv_xenum k x s :
    enum_x_type k = Some x -> icalproperty_kind_and_string_to_enum k s = 0 ->
    written_value (icalvalue_set_x s (new_with k (V_enum x))).

(** Writing, then reading under the same kind. *)
Definition rewrite_value (addr : positive) (v : icalvalue) : err (option icalvalue * option cstring) :=
  text <- icalvalue_as_ical_string_r v ;;
  match text with
  | Some s => icalvalue_new_from_string_with_error addr (v_kind v) s
  | None => undefined
  end.

Lemma filter_kept s : forallb kept s = true -> filter kept s = s.
Proof.
  induction s as [|c s IH]; cbn; [reflexivity|]. rewrite andb_true_iff. intros [-> H]. now rewrite IH.
Qed.

Lemma dequoted_quote lp s st :
  nul_free s -> forallb kept s = true -> dequoted (icalmemory_strdup_and_quote lp s) st = Some (s, st).
Proof.
  intros Hs Hk. unfold dequoted. rewrite dequote_total by now apply quote_nul_free.
  now rewrite dequote_quote, filter_kept.
Qed.

Definition reads_back (v : icalvalue) : Prop :=
  forall addr st, map_ok (error_state_map st) ->
  rewrite_value addr v st = Some ((Some (icalvalue_set_parent None v), None), st).

(** Writing under the kind, then the switch of the reader. *)
Lemma reads_back_intro v s :
  (forall st, icalvalue_as_ical_string_r v st = Some (Some s, st)) ->
  (forall addr st, map_ok (error_state_map st) ->
    read_value addr (v_kind v) s st = Some ((Some (icalvalue_set_parent None v), None), st)) ->
  reads_back v.
Proof.
  intros Hw Hr addr st Hok. unfold rewrite_value, bind. rewrite Hw.
  unfold icalvalue_new_from_string_with_error, bind. now rewrite Hr.
Qed.

Lemma boolean_reads_back b : reads_back (new_with ICAL_BOOLEAN_VALUE (V_int (b2z b))).
Proof. apply (reads_back_intro _ (if b then $"TRUE" else $"FALSE")); destruct b; reflexivity. Qed.

Lemma integer_reads_back n : is_int32 n -> reads_back (new_with ICAL_INTEGER_VALUE (V_int n)).
Proof.
  intros Hn. apply (reads_back_intro _ (fmt_d n)).
  - intros st. cbn [icalvalue_as_ical_string_r v_kind v_data new_with data_int].
    unfold bind, ret, snprintf, MAX_INT_DIGITS. cbn [pred]. rewrite firstn_all2 by now apply fmt_d_length. reflexivity.
  - intros addr st _. cbn [read_value v_kind new_with enum_x_type]. now rewrite atoi_fmt_d.
Qed.

Lemma utcoffset_reads_back n : Z.abs n < 360000 -> reads_back (new_with ICAL_UTCOFFSET_VALUE (V_int n)).
Proof.
  intros Hn. apply (reads_back_intro _ (icalvalue_utcoffset_as_ical_string_r n)); [reflexivity|].
  intros addr st _. cbn [read_value v_kind new_with enum_x_type]. now rewrite utcoffset_roundtrip.
Qed.

Lemma text_reads_back p s :
  nul_free s -> forallb kept s = true -> reads_back (Value ICAL_TEXT_VALUE p None (V_string s)).
Proof.
  intros Hs Hk. set (v := Value ICAL_TEXT_VALUE p None (V_string s)).
  apply (reads_back_intro _ (icalmemory_strdup_and_quote (list_parent v) s)); [reflexivity|].
  intros addr st _. cbn [read_value v_kind v enum_x_type]. unfold bind. now rewrite dequoted_quote.
Qed.

Lemma x_reads_back p s :
  nul_free s -> forallb kept s = true -> reads_back (Value ICAL_X_VALUE p (Some s) V_zero).
Proof.
  intros Hs Hk. set (v := Value ICAL_X_VALUE p (Some s) V_zero).
  apply (reads_back_intro _ (icalmemory_strdup_and_quote (list_parent v) s)); [reflexivity|].
  intros addr st _. cbn [read_value v_kind v enum_x_type]. unfold bind. now rewrite dequoted_quote.
Qed.

Lemma time_reads_back t :
  printable t -> icaltime_is_null_time t = false ->
  reads_back (new_with (if icaltime_is_date t then ICAL_DATE_VALUE else ICAL_DATETIME_VALUE) (V_time t)).
Proof.
  intros Hp Hn. apply (reads_back_intro _ (until_text t)).
  - intros st. unfold until_text. destruct (icaltime_is_date t); reflexivity.
  - intros addr st _. pose proof (until_text_time t Hp) as E. destruct (icaltime_is_date t) eqn:Ed;
      cbn [read_value v_kind new_with enum_x_type]; unfold bind, icaltime_from_string; rewrite E; unfold ret;
      rewrite Hn; cbn [negb]; unfold icalvalue_reset_kind, bind; cbn [v_kind v_data]; cbn -[icaltime_is_null_time icaltime_is_date];
      unfold ret; rewrite Hn; cbn [negb]; now rewrite Ed.
Qed.

Lemma duration_reads_back d :
  wf_duration d -> icaldurationtype_as_int d <> 0 \/ d = icaldurationtype_null_duration ->
  reads_back (new_with ICAL_DURATION_VALUE (V_duration d)).
Proof.
  intros Hwf Hd. apply (reads_back_intro _ (icaldurationtype_as_ical_string_r d)); [reflexivity|].
  intros addr st _. cbn [read_value v_kind new_with enum_x_type]. unfold bind, icaldurationtype_from_string.
  rewrite scan_duration_text by assumption. unfold ret.
  assert (icaldurationtype_is_bad_duration d = false) as ->; [|reflexivity].
  unfold icaldurationtype_is_bad_duration. destruct Hwf as [[-> | ->] _]; reflexivity.
Qed.

Lemma period_reads_back p : printable_period p -> reads_back (new_with ICAL_PERIOD_VALUE (V_period p)).
Proof.
  intros Hp. apply (reads_back_intro _ (icalperiodtype_as_ical_string_r p)); [reflexivity|].
  intros addr st Hok. cbn [read_value v_kind new_with enum_x_type]. unfold bind. rewrite period_read_back by assumption.
  unfold icalperiodtype_is_null_period. destruct Hp as (_ & -> & _). reflexivity.
Qed.

Lemma recur_reads_back r : printable_rule r -> reads_back (new_with ICAL_RECUR_VALUE (V_recur r)).
Proof.
  intros Hr. destruct (recur_read_back r (initial_error_state false) Hr) as (s & Es & _).
  apply (reads_back_intro _ s).
  - intros st. cbn [icalvalue_as_ical_string_r v_kind v_data new_with]. unfold ret. now rewrite Es.
  - intros addr st _. destruct (recur_read_back r st Hr) as (s' & Es' & Er).
    assert (s' = s) as -> by congruence.
    cbn [read_value v_kind new_with enum_x_type]. unfold bind. rewrite Er.
    destruct Hr as (Hf & Hu & _).
    assert (freq_eqb (freq r) ICAL_NO_RECURRENCE = false) as -> by (destruct (freq r); congruence || reflexivity).
    cbn [negb]. unfold icalvalue_new_recur, icalvalue_set_recur, bind, ret.
    assert ((count r =? 0) || icaltime_is_null_time (until r) = true) as ->; [|reflexivity].
    destruct Hu as [[-> _] | (_ & _ & ->)]; [apply orb_true_r | reflexivity].
Qed.

Lemma requeststatus_reads_back code debug :
  code <> ICAL_UNKNOWN_STATUS -> (match debug with Some d => length d < 900 | None => True end)%nat ->
  reads_back (new_with ICAL_REQUESTSTATUS_VALUE (V_requeststatus (Reqstat code None debug))).
Proof.
  intros Hc Hd. apply (reads_back_intro _ (reqstat_text code debug)).
  - intros st. cbn [icalvalue_as_ical_string_r v_kind v_data new_with]. now apply reqstat_as_string.
  - intros addr st _. cbn [read_value v_kind new_with enum_x_type]. unfold bind.
    pose proof (reqstat_read_back code debug st Hc Hd) as E. unfold bind in E.
    rewrite reqstat_as_string in E by assumption. rewrite E. cbn [rs_code]. destruct code; try reflexivity. congruence.
Qed.

Lemma strcaseeqb_refl s : strcaseeqb s s = true.
Proof. now apply streqb_eq. Qed.

Lemma enum_lookup k e name :
  enum_entry k e name ->
  icalproperty_kind_and_string_to_enum k name = e /\
  icalproperty_enum_belongs_to_property (icalproperty_value_kind_to_kind k) e = true /\
  forall st, icalproperty_enum_to_string e st = Some (Some name, st).
Proof.
  unfold enum_entry. cbv zeta. set (pk := icalproperty_value_kind_to_kind k). intros (Hp & Hr & Hn & Hs & Hu).
  pose proof (nth_error_In _ _ Hn) as Hin. split; [|split].
  - unfold icalproperty_kind_and_string_to_enum. cbv zeta. fold pk. apply Z.eqb_neq in Hp. rewrite Hp, Hs.
    match goal with |- context [find ?f ?l] => destruct (find f l) as [[[p' e'] n']|] eqn:E end.
    + apply find_some in E as [Hin' Hb]. cbv iota beta in Hb. apply andb_prop in Hb as [->%Z.eqb_eq Hb]. eapply Hu; eassumption.
    + pose proof (find_none _ _ E _ Hin) as Hb. cbv iota beta in Hb. rewrite Z.eqb_refl, strcaseeqb_refl in Hb. discriminate.
  - unfold icalproperty_enum_belongs_to_property. apply existsb_exists. exists (pk, e, name).
    split; [exact Hin|]. cbv iota beta. now rewrite !Z.eqb_refl.
  - intros st. unfold icalproperty_enum_to_string. rewrite znth_nth by lia.
    destruct (Z.leb_spec ICALPROPERTY_FIRST_ENUM e); [|lia]. destruct (Z.leb_spec e ICALPROPERTY_LAST_ENUM); [|lia].
    cbn [andb]. apply nth_error_nth with (d := (ICAL_NO_PROPERTY, 0, [])) in Hn. now rewrite Hn.
Qed.

Lemma enum_text_is k x : enum_x_type k = Some x -> forall v st,
  v_kind v = k ->
  icalvalue_as_ical_string_r v st =
  match v_x v with
  | Some x => Some (Some x, st)
  | None => (e <- data_enum (v_data v) ;; str <- icalproperty_enum_to_string e ;;
             match str with Some _ => ret str | None => undefined end) st
  end.
Proof.
  intros Hk v st <-. unfold icalvalue_as_ical_string_r. destruct (v_kind v); try discriminate; destruct (v_x v); reflexivity.
Qed.

Lemma read_enum k x : enum_x_type k = Some x -> forall addr s st,
  read_value addr k s st = Some ((Some (icalvalue_new_enum k x s), None), st).
Proof. intros Hk addr s st. unfold read_value. now rewrite Hk. Qed.

Lemma enum_reads_back k x e name :
  enum_x_type k = Some x -> enum_entry k e name -> e <> 0 -> reads_back (new_with k (V_enum e)).
Proof.
  intros Hk He Hne. destruct (enum_lookup k e name He) as (Hl & Hb & Ht).
  apply (reads_back_intro _ name).
  - intros st. rewrite (enum_text_is k x Hk) by reflexivity. cbn [v_x new_with v_data data_enum].
    unfold bind, ret. now rewrite Ht.
  - intros addr st _. cbn [v_kind new_with]. rewrite (read_enum k x Hk). unfold icalvalue_new_enum.
    rewrite Hl, Hb. apply Z.eqb_neq in Hne. now rewrite Hne.
Qed.

Lemma xenum_reads_back k x s :
  enum_x_type k = Some x -> icalproperty_kind_and_string_to_enum k s = 0 ->
  reads_back (icalvalue_set_x s (new_with k (V_enum x))).
Proof.
  intros Hk He. apply (reads_back_intro _ s).
  - intros st. now rewrite (enum_text_is k x Hk).
  - intros addr st _. cbn [v_kind icalvalue_set_x new_with]. rewrite (read_enum k x Hk). unfold icalvalue_new_enum.
    now rewrite He.
Qed.

Lemma string_reads_back k s :
  In k [ICAL_QUERY_VALUE; ICAL_STRING_VALUE; ICAL_CALADDRESS_VALUE; ICAL_URI_VALUE] ->
  reads_back (new_with k (V_string s)).
Proof.
  intros Hk. apply (reads_back_intro _ s); cbn in Hk; decompose [or] Hk; subst; try contradiction; reflexivity.
Qed.

Lemma written_reads_back v : written_value v -> reads_back v.
Proof.
  intros H. destruct H; eauto using boolean_reads_back, integer_reads_back, utcoffset_reads_back, text_reads_back,
    string_reads_back, time_reads_back, duration_reads_back, period_reads_back, recur_reads_back,
    requeststatus_reads_back, x_reads_back, enum_reads_back, xenum_reads_back.
Qed.

(** ** Comparison *)

Definition flip (c : comparetype) : comparetype :=
  match c with
  | ICAL_XLICCOMPARETYPE_LESS => ICAL_XLICCOMPARETYPE_GREATER
  | ICAL_XLICCOMPARETYPE_GREATER => ICAL_XLICCOMPARETYPE_LESS
  | c => c
  end.

Lemma strcmp_flip a b : strcmp b a = - strcmp a b.
Proof.
  revert b. induction a as [|c a IH]; intros [|d b]; cbn [strcmp]; try lia.
  destruct (Z.eqb_spec (code c) (code d)) as [E|], (Z.eqb_spec (code d) (code c)); try lia. rewrite E.
  destruct (code d =? 0); [reflexivity | apply IH].
Qed.

Lemma code_inj c d : code c = code d -> c = d.
Proof.
  unfold code. intros H%N2Z.inj. rewrite <- (ascii_N_embedding c), <- (ascii_N_embedding d). now f_equal.
Qed.

Lemma code_nonneg c : 0 <= code c.
Proof. unfold code. lia. Qed.

Lemma code_pos c : c <> NUL -> 0 < code c.
Proof.
  intros H. pose proof (code_nonneg c). assert (code c <> 0); [|lia]. intros E. apply H, code_inj. now rewrite E.
Qed.

Lemma strcmp_eq a b : nul_free a -> nul_free b -> strcmp a b = 0 -> a = b.
Proof.
  intros Ha. revert b. induction Ha as [|c a Hc Ha IH]; intros [|d b] Hb; cbn [strcmp]; inversion Hb; subst; try reflexivity.
  - pose proof (code_pos d). intros; exfalso; intuition lia.
  - pose proof (code_pos c). intros; exfalso; intuition lia.
  - destruct (Z.eqb_spec (code c) (code d)) as [E|E]; [|lia]. pose proof (code_pos c Hc).
    destruct (Z.eqb_spec (code c) 0); [lia|]. intros H0. apply code_inj in E as ->. f_equal. now apply IH.
Qed.

Lemma compare_ints_flip a b : compare_ints b a = flip (compare_ints a b).
Proof.
  unfold compare_ints, order_of. destruct (Z.ltb_spec a b), (Z.ltb_spec b a); try reflexivity. lia.
Qed.

(** A written value has a text, whatever the state of errors. *)
Lemma written_text v : written_value v -> exists s, forall st, icalvalue_as_ical_string_r v st = Some (Some s, st).
Proof.
  intros H.
  destruct H as [b|n|n|p s|k s Hk|t|d|p|r Hr|c d Hc Hd|p s|k x e name Hk He|k x s Hk]; try (eexists; intros st; reflexivity).
  - cbn in Hk. decompose [or] Hk; subst; try contradiction; eexists; intros st; reflexivity.
  - exists (until_text t). intros st. unfold until_text. destruct (icaltime_is_date t); reflexivity.
  - destruct (recur_read_back r (initial_error_state false) Hr) as (s & Es & _). exists s. intros st.
    cbn [icalvalue_as_ical_string_r v_kind v_data new_with]. unfold ret. now rewrite Es.
  - exists (reqstat_text c d). intros st. cbn [icalvalue_as_ical_string_r v_kind v_data new_with]. now apply reqstat_as_string.
  - destruct (enum_lookup k e name He) as (_ & _ & Ht). exists name. intros st.
    rewrite (enum_text_is k x Hk) by reflexivity. cbn [v_x new_with v_data data_enum]. unfold bind, ret. now rewrite Ht.
  - exists s. intros st. now rewrite (enum_text_is k x Hk).
Qed.

(** The members of the union that the comparison reads. *)
Definition shape (v : icalvalue) : Prop :=
  match v_kind v with
  | ICAL_BOOLEAN_VALUE | ICAL_INTEGER_VALUE | ICAL_UTCOFFSET_VALUE => exists n, v_data v = V_int n
  | ICAL_DURATION_VALUE => exists d, v_data v = V_duration d
  | ICAL_METHOD_VALUE | ICAL_STATUS_VALUE | ICAL_TRANSP_VALUE | ICAL_ACTION_VALUE => exists e, v_data v = V_enum e
  | ICAL_ATTACH_VALUE | ICAL_BINARY_VALUE | ICAL_FLOAT_VALUE => False
  | _ => True
  end.

Lemma written_shape v : written_value v -> shape v.
Proof.
  intros H. destruct H as [b|n|n|p s|k s Hk|t|d|p|r|c d|p s|k x e name Hk|k x s Hk]; cbn [v_kind v_data new_with shape]; eauto; try exact I.
  - cbn in Hk. decompose [or] Hk; subst; try contradiction; exact I.
  - unfold shape. cbn [v_kind new_with]. destruct (icaltime_is_date t); exact I.
  - destruct k; try discriminate; unfold shape; cbn; eauto.
  - destruct k; try discriminate; unfold shape; cbn; eauto.
Qed.

Lemma compare_texts_flip a b st s t :
  (forall st, icalvalue_as_ical_string_r a st = Some (Some s, st)) ->
  (forall st, icalvalue_as_ical_string_r b st = Some (Some t, st)) ->
  compare_texts a b st = Some (compare_ints (strcmp s t) 0, st) /\
  compare_texts b a st = Some (flip (compare_ints (strcmp s t) 0), st).
Proof.
  intros Ha Hb. unfold compare_texts, bind. rewrite !Ha, !Hb, !Ha. split; [reflexivity|].
  rewrite strcmp_flip. unfold ret, compare_ints, order_of.
  destruct (Z.ltb_spec (strcmp s t) 0), (Z.ltb_spec 0 (strcmp s t)), (Z.ltb_spec (- strcmp s t) 0), (Z.ltb_spec 0 (- strcmp s t));
    try lia; reflexivity.
Qed.

Lemma kind_eqb_sym j k : kind_eqb j k = kind_eqb k j.
Proof. unfold kind_eqb. destruct (value_kind_dec j k), (value_kind_dec k j); congruence. Qed.

Lemma equality_flip x y : equality_of (y =? x) = flip (equality_of (x =? y)).
Proof. rewrite Z.eqb_sym. now destruct (x =? y). Qed.

Lemma compare_consistent a b st :
  written_value a -> written_value b ->
  exists r, icalvalue_compare a b st = Some (r, st) /\ icalvalue_compare b a st = Some (flip r, st).
Proof.
  intros Ha Hb. destruct (written_text a Ha) as [s Hs], (written_text b Hb) as [t Ht].
  pose proof (compare_texts_flip a b st s t Hs Ht) as [T1 T2].
  apply written_shape in Ha, Hb. unfold icalvalue_compare.
  rewrite (andb_comm (icalvalue_is_time b)), (kind_eqb_sym (icalvalue_isa b)).
  destruct (negb _ && negb _) eqn:Ed; [now exists ICAL_XLICCOMPARETYPE_NOTEQUAL|].
  unfold shape, icalvalue_is_time, is_time_kind, icalvalue_isa in *.
  destruct (v_kind a) eqn:Ka, (v_kind b) eqn:Kb; try discriminate; try contradiction;
    try (exists (compare_ints (strcmp s t) 0); split; assumption);
    try (exists NOT_COMPARED; split; reflexivity);
    destruct Ha as [x Ex], Hb as [y Ey]; rewrite Ex, Ey; cbn [data_int data_duration data_enum]; unfold bind, ret;
    eexists; (split; [reflexivity|]); f_equal; f_equal; first [apply equality_flip | apply compare_ints_flip].
Qed.
End RoundTrip.

(** ** Properties *)

(** C9: The following values are read back, under their kind, from the text that is
    written for them: booleans, 32-bit integers, UTC offsets below 100 hours, texts and X
    values without NUL, CR, backspace and form feed, queries, strings, addresses and
    URIs, dates and date-times whose members fit the digits of the text and that are
    floating or in UTC, durations (not the ones whose seconds wrap to zero), periods of
    such times, rules that have a text, known request statuses with a debugging text
    below 900 characters, and enumerated values and their extensions
    ([written_value]; floating-point numbers, GEO, ATTACH and BINARY, TRIGGER and
    DATE-TIME-PERIOD are not among them).  The data are the same, no error is reported
    and the error state is restored; only the link to the property is new. *)
Theorem value_text_roundtrip `{DerivedTables} `{FloatOps} (addr : positive) (v : icalvalue) (st : error_state) :
  map_ok (error_state_map st) -> written_value v ->
  rewrite_value addr v st = Some ((Some (icalvalue_set_parent None v), None), st).
Proof. intros Hok Hv. now apply written_reads_back. Qed.

(** The METHOD property and two of its values. *)
Definition sample_tables : DerivedTables := {|
  property_values := [(48, ICAL_METHOD_VALUE)];
  enum_map := repeat (0, 0, []) 500 ++ [(48, 10500, []); (48, 10501, $"PUBLISH"); (48, 10502, $"REQUEST")]
|}.

(** No arithmetic: a floating-point number as its text. *)
Definition text_floats : FloatOps := {|
  double := cstring; double_zero := $"0.000000"; atof := fun s => s; to_float := fun d => d; fmt_f := fun d => d;
  double_ltb := fun _ _ => false
|}.

Lemma value_text_roundtrip_witness :
  (let v := @Value text_floats ICAL_TEXT_VALUE (Some ICAL_CATEGORIES_PROPERTY) None (V_string $"a,b;c\d") in
   @rewrite_value sample_tables text_floats 1 v (initial_error_state true)
   = Some ((Some (icalvalue_set_parent None v), None), initial_error_state true)) /\
  (let v := @new_with text_floats ICAL_METHOD_VALUE (V_enum 10502) in
   @rewrite_value sample_tables text_floats 1 v (initial_error_state true)
   = Some ((Some v, None), initial_error_state true)).
Proof.
  split; intros v.
  - apply (@value_text_roundtrip sample_tables text_floats 1 v (initial_error_state true)); [apply initial_map_ok|].
    constructor; [repeat constructor; discriminate | reflexivity].
  - apply (@value_text_roundtrip sample_tables text_floats 1 v (initial_error_state true)); [apply initial_map_ok|].
    apply (@wv_enum sample_tables text_floats ICAL_METHOD_VALUE ICAL_METHOD_X 10502 $"REQUEST"); [reflexivity | | discriminate].
    split; [discriminate|]. split; [vm_compute; split; congruence|]. split; [reflexivity|]. split; [reflexivity|].
    intros e' name' Hin Hn. apply in_app_or in Hin as [Hin | Hin].
    + apply repeat_spec in Hin. discriminate.
    + cbn in Hin. destruct Hin as [E | [E | [E | []]]]; injection E as <- <-; try discriminate Hn; reflexivity.
Defined.

(** Comparing values is total and consistent: on values with a text the
    comparison returns without error, and exchanging the values exchanges less
    and greater and keeps the other results. *)
Theorem value_compare_consistent `{DerivedTables} `{FloatOps} (a b : icalvalue) (st : error_state) :
  written_value a -> written_value b ->
  exists r, icalvalue_compare a b st = Some (r, st) /\ icalvalue_compare b a st = Some (flip r, st).
Proof. intros Ha Hb. now apply compare_consistent. Qed.

Lemma value_compare_consistent_witness :
  exists r,
    @icalvalue_compare sample_tables text_floats (new_with ICAL_INTEGER_VALUE (V_int 3)) (new_with ICAL_INTEGER_VALUE (V_int 5))
      (initial_error_state true) = Some (r, initial_error_state true) /\
    @icalvalue_compare sample_tables text_floats (new_with ICAL_INTEGER_VALUE (V_int 5)) (new_with ICAL_INTEGER_VALUE (V_int 3))
      (initial_error_state true) = Some (flip r, initial_error_state true).
Proof.
  apply (@value_compare_consistent sample_tables text_floats); constructor; unfold is_int32, INT_MIN, INT_MAX; lia.
Defined.

(** ** Observations *)

(** A date read as DATE-TIME-PERIOD is refused by the setter after the value has
    been made: the value returned is the null time, with no error reported to the
    caller. *)
Example datetimeperiod_date_is_lost :
  option_map fst (@icalvalue_new_from_string_with_error sample_tables text_floats 1 ICAL_DATETIMEPERIOD_VALUE $"19970101"
    (initial_error_state false)) = Some (Some (@new_with text_floats ICAL_DATETIME_VALUE V_zero), None).
Proof. reflexivity. Qed.

(** The copy of an extended METHOD loses its text. *)
Example clone_loses_x_value :
  let v := icalvalue_set_x $"X-MINE" (@new_with text_floats ICAL_METHOD_VALUE (V_enum ICAL_METHOD_X)) in
  @icalvalue_clone text_floats v (initial_error_state true) =
    Some (Some (@new_with text_floats ICAL_METHOD_VALUE (V_enum ICAL_METHOD_X)), initial_error_state true) /\
  @icalvalue_as_ical_string_r sample_tables text_floats v (initial_error_state true)
    = Some (Some $"X-MINE", initial_error_state true).
Proof. split; reflexivity. Qed.

(** White space before the number of a GEO value is counted in the length of the
    copy: it runs behind the string, or behind the buffer. *)
Example geo_reads_behind_string : @geo_from_string text_floats $"   1" = None.
Proof. reflexivity. Qed.

Example geo_overflows_buffer : @geo_from_string text_floats (repeat " "%char 200 ++ $"1;2" ++ repeat "0"%char 300) = None.
Proof. reflexivity. Qed.

(** A release undoes a reference; the release of the only reference frees. *)
Lemma attach_ref_unref a st :
  0 < refcount a ->
  (b <- icalattach_ref a ;; icalattach_unref b) st = Some (Some a, st).
Proof.
  intros H. unfold icalattach_ref, icalattach_unref, bind.
  destruct (Z.ltb_spec 0 (refcount a)); [|lia]. cbn [negb]. unfold ret. cbn [refcount is_url contents].
  destruct (Z.ltb_spec 0 (refcount a + 1)); [|lia]. cbn [negb].
  destruct (Z.eqb_spec (refcount a + 1 - 1) 0); [lia|]. cbn [negb]. destruct a as [rc u c]. cbn.
  now replace (rc + 1 - 1) with rc by lia.
Qed.

Lemma attach_last_unref a st : refcount a = 1 -> icalattach_unref a st = Some (None, st).
Proof. intros H. unfold icalattach_unref. now rewrite H. Qed.
