(* ===== verification/IcalLine.v ===== *)
(** * Content lines: folding (icalproperty.c) and reading (icalparser.c)

    A property is written as one line, folded into lines of at most 75 octets;
    the parser reads pieces of at most 79 characters into a buffer and puts the
    lines together again.  The buffer of the parser, which is read one piece
    ahead of the line it returns, is modelled with its marks and what is left in
    it from earlier reads; the generator of pieces is an argument of the reader,
    and the one over a string is modelled. *)
From Stdlib Require Import String Ascii ZArith Lia Bool List.
From S2P Require Import Prelude CString IcalValueText.
Import ListNotations.
#[local] Open Scope cstring_scope.

(** ** Folding *)

Definition MAX_LINE_LEN : nat := 75.

Definition nth_char (s : cstring) (i : nat) : ascii := nth i s NUL.

(** A place to break: after one of these. *)
Definition break_char (c : ascii) : bool := char_in c $";: ".

Definition high_bit (c : ascii) : bool := (128 <=? code c)%Z.

(** A byte at which a character begins. *)
Definition utf8_boundary (c : ascii) : bool := negb (high_bit c) || (192 <=? code c)%Z.

(** [while (pos > line_start) { ...; pos--; }]: the last place where the test
    holds. *)
Fixpoint last_place (test : ascii -> bool) (s : cstring) (pos : nat) : option nat :=
  match pos with
  | O => None
  | S k => if test (nth_char s pos) then Some pos else last_place test s k
  end.

(** The length of the next line; [chars_left] is the length of [s]. *)
Definition get_next_line_start (s : cstring) : nat :=
  let chars_left := length s in
  if Nat.ltb chars_left MAX_LINE_LEN then chars_left
  else match last_place break_char s (MAX_LINE_LEN - 2) with
       | Some pos => S pos
       | None => match last_place utf8_boundary s (MAX_LINE_LEN - 1) with
                 | Some pos => pos
                 | None => MAX_LINE_LEN - 1
                 end
       end.

Fixpoint fold_loop (fuel : nat) (line_start : cstring) (first_line : bool) : cstring :=
  match fuel with
  | O => []
  | S k =>
      match line_start with
      | [] => []
      | _ =>
          let n := get_next_line_start line_start in
          (if first_line then [] else [CR; LF; " "%char]) ++ firstn n line_start
          ++ fold_loop k (skipn n line_start) false
      end
  end.

Definition fold_property_line (text : cstring) : cstring := fold_loop (length text) text true.

(** ** Pieces of a string *)

Definition TMP_BUF_SIZE : nat := 80.

(** The members of the parser that the line reader uses. *)
Record line_state := LineState {
  buffer_full : bool;
  continuation_line : bool;
  temp : cstring
}.

Definition ONE : ascii := "001".

Fixpoint set_nth (i : nat) (c : ascii) (s : cstring) : cstring :=
  match s, i with
  | [], _ => []
  | _ :: r, O => c :: r
  | d :: r, S i => d :: set_nth i c r
  end.

Definition icalparser_new_lines : line_state := LineState false false (repeat NUL TMP_BUF_SIZE).

(** [n] characters and a NUL over the start of the buffer. *)
Definition overwrite (out s : cstring) : cstring := s ++ NUL :: skipn (S (length s)) out.

(** [slg_data]: [None] before the first call, then the rest of the string. *)
Definition string_gen := option cstring.

Definition skip_bom (s : cstring) : cstring :=
  match s with
  | a :: b :: c :: r =>
      if ((code a =? 239) && (code b =? 187) && (code c =? 191))%Z%bool then r else s
  | _ => s
  end.

(** The text up to and with the first [c]. *)
Definition upto_char (c : ascii) (s : cstring) : option cstring :=
  match split_at c s with Some (a, _) => Some (a ++ [c]) | None => None end.

(** The result is whether there is more text, the buffer and the rest. *)
Definition icalparser_string_line_generator (str : cstring) (out : cstring) (pos : string_gen)
  : bool * cstring * string_gen :=
  let pos := match pos with None => skip_bom str | Some p => p end in
  match pos with
  | [] => (false, out, Some pos)
  | _ =>
      let '(replace_cr, size) :=
        match upto_char LF pos with
        | Some l => (false, length l)
        | None => match upto_char CR pos with
                  | Some l => (true, length l)
                  | None => (false, length pos)
                  end
        end in
      let size := Nat.min size (TMP_BUF_SIZE - 1) in
      let piece := firstn size pos in
      let piece := if replace_cr then set_nth (size - 1) LF piece else piece in
      (true, overwrite out piece, Some (skipn size pos))
  end.

(** ** The line reader *)

Definition last_is (c : ascii) (s : cstring) : bool :=
  match rev s with d :: _ => Ascii.eqb c d | [] => false end.

(** Trailing white space, the first character excepted. *)
Fixpoint rtrim (s : cstring) : cstring :=
  match s with
  | [] => []
  | c :: r => match rtrim r with
              | [] => if isspace c then [] else [c]
              | t => c :: t
              end
  end.

Definition rtrim1 (s : cstring) : cstring := match s with [] => [] | c :: r => c :: rtrim r end.

(** The end of [icalparser_get_line]. *)
Definition finish_line (line : cstring) : cstring :=
  let line :=
    if Nat.ltb 1 (length line) && last_is LF line then
      let line := removelast line in if last_is CR line then removelast line else line
    else line in
  rtrim1 line.

Section Reader.
Context {G : Type}.
Variable line_gen_func : cstring -> G -> bool * cstring * G.

(** The data in the buffer go to the line. *)
Definition transfer (p : line_state) (line : cstring) : line_state * cstring :=
  if Ascii.eqb (nth_char (temp p) 0) NUL then (p, line)
  else
    let full := Ascii.eqb (nth_char (temp p) (TMP_BUF_SIZE - 1)) NUL
                && negb (Ascii.eqb (nth_char (temp p) (TMP_BUF_SIZE - 2)) LF)
                && negb (Ascii.eqb (nth_char (temp p) (TMP_BUF_SIZE - 2)) NUL) in
    let line :=
      if continuation_line p then
        let line := removelast line in
        let line := if last_is CR line then removelast line else line in
        line ++ tl (upto_nul (temp p))
      else line ++ upto_nul (temp p) in
    (LineState full false (set_nth 0 NUL (temp p)), line).

(** [None] as the line is the end of the input. *)
Fixpoint get_line_loop (fuel : nat) (p : line_state) (g : G) (line : cstring)
  : option (option cstring * line_state * G) :=
  match fuel with
  | O => None
  | S k =>
      let '(p, line) := transfer p line in
      let temp := set_nth (TMP_BUF_SIZE - 1) ONE (temp p) in
      let '(more, temp, g) := line_gen_func temp g in
      let p := LineState (buffer_full p) (continuation_line p) temp in
      if negb more && Ascii.eqb (nth_char temp 0) NUL then
        match line with
        | [] => Some (None, p, g)
        | _ => Some (Some (finish_line line), p, g)
        end
      else if Nat.ltb 1 (length line) && last_is LF line && char_in (nth_char temp 0) [" "%char; TAB] then
        get_line_loop k (LineState (buffer_full p) true temp) g line
      else if buffer_full p then get_line_loop k p g line
      else Some (Some (finish_line line), p, g)
  end.

Definition icalparser_get_line (fuel : nat) (p : line_state) (g : G) : option (option cstring * line_state * G) :=
  get_line_loop fuel p g [].

(** The lines until the end of the input, as [icalparser_parse] asks for them. *)
Fixpoint read_lines (n fuel : nat) (p : line_state) (g : G) : option (list cstring) :=
  match n with
  | O => None
  | S n =>
      match icalparser_get_line fuel p g with
      | None => None
      | Some (None, _, _) => Some []
      | Some (Some line, p, g) => let* ls := read_lines n fuel p g in Some (line :: ls)
      end
  end.

Lemma read_lines_S n fuel p g line p' g' :
  icalparser_get_line fuel p g = Some (Some line, p', g') ->
  read_lines (S n) fuel p g = let* ls := read_lines n fuel p' g' in Some (line :: ls).
Proof. intros E. cbn [read_lines]. now rewrite E. Qed.
End Reader.

(** All the lines of a string. *)
Definition lines_of_string (str : cstring) : option (list cstring) :=
  read_lines (icalparser_string_line_generator str) (length str + 2) (length str + 2) icalparser_new_lines None.

(** ** The buffer *)

Definition lf_free (s : cstring) : Prop := Forall (fun c => c <> LF) s.

(** The buffer holds a piece; its last character is 0 only when it is full. *)
Record loaded (tmp piece : cstring) : Prop := Loaded {
  loaded_length : length tmp = TMP_BUF_SIZE;
  loaded_piece : upto_nul tmp = piece;
  loaded_some : piece <> [];
  loaded_mark : nth_char tmp 79 = if Nat.eqb (length piece) 79 then NUL else ONE;
  loaded_last : length piece = 79 -> nth_char tmp 78 = last piece NUL
}.

(** The buffer is clear. *)
Definition clear (tmp : cstring) : Prop := length tmp = TMP_BUF_SIZE /\ nth_char tmp 0 = NUL.

Lemma set_char_length i c s : length (set_nth i c s) = length s.
Proof. revert i. induction s as [|d s IH]; intros [|i]; cbn; auto. Qed.

Lemma nth_set_nth i j c s :
  nth_char (set_nth i c s) j = if Nat.eqb j i && Nat.ltb i (length s) then c else nth_char s j.
Proof.
  unfold nth_char. revert i j. induction s as [|d s IH]; intros [|i] [|j]; cbn [set_nth nth length]; try reflexivity.
  - now rewrite andb_false_r.
  - rewrite IH. cbn [Nat.eqb]. replace (Nat.ltb (S i) (S (length s))) with (Nat.ltb i (length s)); [reflexivity|].
    destruct (Nat.ltb_spec i (length s)), (Nat.ltb_spec (S i) (S (length s))); lia || reflexivity.
Qed.

Lemma last_nth (s : cstring) : s <> [] -> last s NUL = nth (length s - 1) s NUL.
Proof.
  induction s as [|c s IH]; intros H; [congruence|]. destruct s as [|d s]; [reflexivity|].
  change (last (c :: d :: s) NUL) with (last (d :: s) NUL). rewrite IH by discriminate.
  cbn [length Nat.sub nth]. now rewrite Nat.sub_0_r.
Qed.

Lemma overwrite_loaded out piece :
  length out = TMP_BUF_SIZE -> nth_char out 79 = ONE -> nul_free piece -> piece <> [] -> (length piece <= 79)%nat ->
  loaded (overwrite out piece) piece.
Proof.
  intros HL HM HN Hne Hle. unfold overwrite, TMP_BUF_SIZE in *. split.
  - rewrite length_app. cbn [length]. rewrite length_skipn. unfold TMP_BUF_SIZE. lia.
  - now apply upto_nul_app.
  - assumption.
  - unfold nth_char in *. rewrite app_nth2 by lia. destruct (Nat.eqb_spec (length piece) 79) as [->|Hlt]; [reflexivity|].
    destruct (79 - length piece)%nat as [|m] eqn:Em; [lia|]. cbn [nth]. rewrite nth_skipn.
    replace (S (length piece) + m)%nat with 79%nat by lia. exact HM.
  - intros H79. unfold nth_char. rewrite app_nth1 by lia. rewrite last_nth by assumption. now rewrite H79.
Qed.

(** ** The generator *)

(** The next piece of a text that has a line feed. *)
Definition next_piece (t : cstring) : cstring :=
  match upto_char LF t with
  | Some l => firstn 79 l
  | None => []
  end.

Lemma upto_char_app c a t : Forall (fun d => d <> c) a -> upto_char c (a ++ c :: t) = Some (a ++ [c]).
Proof. intros H. unfold upto_char. now rewrite split_at_app. Qed.

Lemma next_piece_line w t : lf_free w -> next_piece (w ++ LF :: t) = firstn 79 (w ++ [LF]).
Proof. intros H. unfold next_piece. now rewrite upto_char_app. Qed.

Lemma firstn_min_app (l t : cstring) m :
  firstn (Nat.min (length l) m) (l ++ t) = firstn m l /\ Nat.min (length l) m = length (firstn m l).
Proof.
  rewrite length_firstn. split; [|lia].
  rewrite firstn_app. replace (Nat.min (length l) m - length l)%nat with 0%nat by lia. rewrite firstn_O, app_nil_r.
  destruct (Nat.le_gt_cases (length l) m).
  - rewrite Nat.min_l by assumption. now rewrite firstn_all, firstn_all2.
  - now rewrite Nat.min_r by lia.
Qed.

Lemma generator_line str out w t :
  lf_free w ->
  icalparser_string_line_generator str out (Some (w ++ LF :: t)) =
  (true, overwrite out (next_piece (w ++ LF :: t)),
   Some (skipn (length (next_piece (w ++ LF :: t))) (w ++ LF :: t))).
Proof.
  intros Hw. unfold icalparser_string_line_generator.
  destruct (w ++ LF :: t) as [|c r] eqn:E; [destruct w; discriminate|]. rewrite <- E.
  rewrite upto_char_app by exact Hw. rewrite next_piece_line by exact Hw.
  change (TMP_BUF_SIZE - 1)%nat with 79%nat.
  replace (w ++ LF :: t) with ((w ++ [LF]) ++ t) by now rewrite <- app_assoc.
  destruct (firstn_min_app (w ++ [LF]) t 79) as [-> ->]. reflexivity.
Qed.

Lemma generator_end str out : icalparser_string_line_generator str out (Some []) = (false, out, Some []).
Proof. reflexivity. Qed.

Lemma nul_free_app a b : nul_free (a ++ b) <-> nul_free a /\ nul_free b.
Proof. apply Forall_app. Qed.

Lemma nul_free_firstn n s : nul_free s -> nul_free (firstn n s).
Proof. intros H. rewrite <- (firstn_skipn n s) in H. now apply nul_free_app in H. Qed.

(** A text made of whole lines. *)
Inductive line_text : cstring -> Prop :=
| line_text_nil : line_text []
| line_text_cons w t : lf_free w -> nul_free w -> line_text t -> line_text (w ++ LF :: t).

Lemma next_piece_ok t : line_text t -> t <> [] -> nul_free (next_piece t) /\ next_piece t <> [] /\ (length (next_piece t) <= 79)%nat.
Proof.
  intros [|w t' Hw Hn _] Hne; [congruence|]. rewrite next_piece_line by assumption. split; [|split].
  - apply nul_free_firstn, nul_free_app. split; [assumption|]. repeat constructor. discriminate.
  - destruct w; discriminate.
  - rewrite length_firstn. lia.
Qed.

(** Marking the end of the buffer and reading the next piece into it. *)
Lemma load_next str tmp t :
  length tmp = TMP_BUF_SIZE -> line_text t -> t <> [] ->
  exists tmp', icalparser_string_line_generator str (set_nth 79 ONE tmp) (Some t) =
    (true, tmp', Some (skipn (length (next_piece t)) t)) /\ loaded tmp' (next_piece t).
Proof.
  intros HL Ht Hne. destruct (next_piece_ok t Ht Hne) as (H1 & H2 & H3).
  exists (overwrite (set_nth 79 ONE tmp) (next_piece t)). split.
  - destruct Ht; [congruence|]. now apply generator_line.
  - apply overwrite_loaded; try assumption; [now rewrite set_char_length|].
    rewrite nth_set_nth, HL. reflexivity.
Qed.

Lemma loaded_head tmp piece : loaded tmp piece -> exists c r, piece = c :: r /\ nth_char tmp 0 = c /\ Ascii.eqb c NUL = false.
Proof.
  intros [HL HP Hne _ _]. destruct tmp as [|c tmp]; [discriminate|]. cbn in HP.
  destruct (Ascii.eqb_spec c NUL); [congruence|]. exists c, (upto_nul tmp). split; [congruence|]. split; [reflexivity|].
  now apply Ascii.eqb_neq.
Qed.

(** ** One round of the reader *)

(** The line without the line break that a continuation follows. *)
Definition backup (line : cstring) : cstring :=
  let line := removelast line in if last_is CR line then removelast line else line.

Definition full (piece : cstring) : bool := Nat.eqb (length piece) 79 && negb (Ascii.eqb (last piece NUL) LF).

Definition appended (cont : bool) (line piece : cstring) : cstring :=
  if cont then backup line ++ tl piece else line ++ piece.

Lemma last_in (s : cstring) d : s <> [] -> In (last s d) s.
Proof.
  induction s as [|c s IH]; intros H; [congruence|]. destruct s as [|e s]; [now left|]. right. apply IH. discriminate.
Qed.

Lemma upto_nul_free s : nul_free (upto_nul s).
Proof.
  induction s as [|c s IH]; cbn; [constructor|]. destruct (Ascii.eqb_spec c NUL); [constructor | now constructor].
Qed.

Lemma transfer_loaded bf cont tmp line piece :
  loaded tmp piece ->
  transfer (LineState bf cont tmp) line =
  (LineState (full piece) false (set_nth 0 NUL tmp), appended cont line piece).
Proof.
  intros H. pose proof (loaded_head _ _ H) as (c & r & E & E0 & Ec). destruct H as [HL HP Hne HM HLa].
  unfold transfer. cbn [temp continuation_line]. rewrite E0, Ec. rewrite HP.
  change (TMP_BUF_SIZE - 1)%nat with 79%nat. change (TMP_BUF_SIZE - 2)%nat with 78%nat. rewrite HM.
  assert (full piece = Ascii.eqb (if Nat.eqb (length piece) 79 then NUL else ONE) NUL
    && negb (Ascii.eqb (nth_char tmp 78) LF) && negb (Ascii.eqb (nth_char tmp 78) NUL)) as ->.
  { unfold full. destruct (Nat.eqb_spec (length piece) 79) as [H79|]; [|reflexivity].
    rewrite HLa by assumption. cbn [andb]. change (Ascii.eqb NUL NUL) with true. cbn [andb].
    assert (last piece NUL <> NUL) as Hl.
    { pose proof (last_in piece NUL Hne) as Hin. rewrite <- HP in Hin.
      pose proof (upto_nul_free tmp) as Hf. unfold nul_free in Hf. rewrite Forall_forall in Hf. rewrite HP in *. now apply Hf. }
    apply Ascii.eqb_neq in Hl. rewrite Hl. now rewrite andb_true_r. }
  reflexivity.
Qed.

Definition starts_ws (t : cstring) : bool := char_in (nth_char t 0) [" "%char; TAB].

Lemma next_piece_head t : line_text t -> t <> [] -> nth_char (next_piece t) 0 = nth_char t 0.
Proof.
  intros [|w t' Hw _ _] Hne; [congruence|]. rewrite next_piece_line by assumption. destruct w; reflexivity.
Qed.

Section Rounds.
Variable str : cstring.
Notation loop := (get_line_loop (icalparser_string_line_generator str)).

Lemma round_end k bf cont tmp line piece :
  loaded tmp piece -> appended cont line piece <> [] ->
  exists tmp', clear tmp' /\ loop (S k) (LineState bf cont tmp) (Some []) line =
    Some (Some (finish_line (appended cont line piece)), LineState (full piece) false tmp', Some []).
Proof.
  intros H Hne. exists (set_nth 79 ONE (set_nth 0 NUL tmp)). pose proof (loaded_length _ _ H) as HL.
  assert (nth_char (set_nth 79 ONE (set_nth 0 NUL tmp)) 0 = NUL) as E0.
  { rewrite !nth_set_nth, set_char_length, HL. reflexivity. }
  split; [split; [now rewrite !set_char_length | exact E0]|].
  cbn [get_line_loop]. rewrite (transfer_loaded _ _ _ _ _ H). cbn [temp buffer_full continuation_line].
  change (TMP_BUF_SIZE - 1)%nat with 79%nat. rewrite generator_end. cbn [negb andb]. rewrite E0.
  change (Ascii.eqb NUL NUL) with true. cbv iota. now destruct (appended cont line piece).
Qed.

Lemma round_next k bf cont tmp line piece t :
  loaded tmp piece -> line_text t -> t <> [] ->
  exists tmp', loaded tmp' (next_piece t) /\
    loop (S k) (LineState bf cont tmp) (Some t) line =
    let line' := appended cont line piece in
    let g' := Some (skipn (length (next_piece t)) t) in
    if Nat.ltb 1 (length line') && last_is LF line' && starts_ws t
    then loop k (LineState (full piece) true tmp') g' line'
    else if full piece then loop k (LineState true false tmp') g' line'
    else Some (Some (finish_line line'), LineState false false tmp', g').
Proof.
  intros H Ht Hne. pose proof (loaded_length _ _ H) as HL.
  destruct (load_next str (set_nth 0 NUL tmp) t) as (tmp' & Eg & Hl'); [now rewrite set_char_length | assumption | assumption|].
  exists tmp'. split; [assumption|].
  cbn [get_line_loop]. rewrite (transfer_loaded _ _ _ _ _ H). cbn [temp buffer_full continuation_line].
  change (TMP_BUF_SIZE - 1)%nat with 79%nat. rewrite Eg. cbn [negb andb].
  destruct (loaded_head _ _ Hl') as (c & r & Ep & E0 & _).
  assert (nth_char tmp' 0 = nth_char t 0) as ->.
  { rewrite E0, <- (next_piece_head t) by assumption. now rewrite Ep. }
  cbv zeta. fold (starts_ws t). destruct (full piece); reflexivity.
Qed.

(** *** A physical line *)

Lemma last_is_app c s : last_is c (s ++ [c]) = true.
Proof. unfold last_is. rewrite rev_app_distr. cbn. apply Ascii.eqb_refl. Qed.

Lemma last_is_last c s : s <> [] -> last_is c s = Ascii.eqb c (last s NUL).
Proof.
  intros H. destruct (exists_last H) as (r & d & ->). unfold last_is. rewrite rev_app_distr, last_last. reflexivity.
Qed.

Lemma last_app_ne (a b : cstring) d : b <> [] -> last (a ++ b) d = last b d.
Proof.
  intros H. destruct (exists_last H) as (r & e & ->). now rewrite app_assoc, !last_last.
Qed.

(** What a physical line adds to the line. *)
Definition physical (cont : bool) (line w : cstring) : cstring := appended cont line (w ++ [LF]).

Lemma physical_last cont line w : (cont = true -> w <> []) -> last_is LF (physical cont line w) = true.
Proof.
  intros Hw. unfold physical, appended. destruct cont; [|rewrite app_assoc; apply last_is_app].
  destruct w as [|c w]; [now specialize (Hw eq_refl)|]. cbn [app tl]. rewrite app_assoc. apply last_is_app.
Qed.

Lemma skipn_line n w t : (n <= length w)%nat -> skipn n (w ++ LF :: t) = skipn n w ++ LF :: t.
Proof. intros H. rewrite skipn_app. now replace (n - length w)%nat with 0%nat by lia. Qed.

Lemma full_whole w : full (w ++ [LF]) = false.
Proof. unfold full. rewrite last_last. change (Ascii.eqb LF LF) with true. apply andb_false_r. Qed.

Lemma lf_free_firstn n w : lf_free w -> lf_free (firstn n w).
Proof. intros H. unfold lf_free in *. rewrite <- (firstn_skipn n w) in H. now apply Forall_app in H. Qed.

Lemma lf_free_skipn n w : lf_free w -> lf_free (skipn n w).
Proof. intros H. unfold lf_free in *. rewrite <- (firstn_skipn n w) in H. now apply Forall_app in H. Qed.

Lemma nul_free_skipn n w : nul_free w -> nul_free (skipn n w).
Proof. intros H. unfold nul_free in *. rewrite <- (firstn_skipn n w) in H. now apply Forall_app in H. Qed.

Lemma lf_free_last s : lf_free s -> s <> [] -> Ascii.eqb (last s NUL) LF = false.
Proof.
  intros H Hne. apply Ascii.eqb_neq. unfold lf_free in H. rewrite Forall_forall in H. apply H, last_in, Hne.
Qed.

(** A piece that does not reach the end of its line. *)
Lemma partial_piece cont line w t :
  lf_free w -> (79 <= length w)%nat ->
  next_piece (w ++ LF :: t) = firstn 79 w /\ full (firstn 79 w) = true /\
  last_is LF (appended cont line (firstn 79 w)) = false /\
  forall line', appended false (appended cont line (firstn 79 w)) line' =
                appended cont line (firstn 79 w ++ line').
Proof.
  intros Hw Hlen. set (p := firstn 79 w). assert (length p = 79%nat) as Hp by (subst p; rewrite length_firstn; lia).
  pose proof (lf_free_firstn 79 w Hw) as Hf. fold p in Hf.
  assert (exists c d r, p = c :: d :: r) as (c & d & r & Ep).
  { destruct p as [|c [|d r]]; [discriminate | discriminate | eauto]. }
  split; [|split; [|split]].
  - rewrite next_piece_line by assumption. rewrite firstn_app. replace (79 - length w)%nat with 0%nat by lia.
    cbn [firstn]. now rewrite app_nil_r.
  - unfold full. rewrite Hp. cbn [Nat.eqb andb]. rewrite lf_free_last; [reflexivity | assumption | rewrite Ep; discriminate].
  - unfold appended. assert (forall a, last_is LF (a ++ d :: r) = false) as Hd.
    { intros a. rewrite last_is_last by (destruct a; discriminate).
      rewrite last_app_ne by discriminate. rewrite Ascii.eqb_sym. apply lf_free_last; [|discriminate].
      rewrite Ep in Hf. now inversion Hf. }
    rewrite Ep. destruct cont; [apply Hd|]. change (c :: d :: r) with ([c] ++ d :: r). rewrite app_assoc. apply Hd.
  - intros line'. unfold appended. destruct cont; [|now rewrite app_assoc]. rewrite Ep. cbn [tl app]. now rewrite <- app_assoc.
Qed.

(** The reader after a physical line. *)
Definition after_physical (fuel : nat) (line t : cstring) (tmp : cstring) :=
  match t with
  | [] => Some (Some (finish_line line), LineState false false tmp, Some [])
  | _ =>
      let g := Some (skipn (length (next_piece t)) t) in
      if Nat.ltb 1 (length line) && starts_ws t then loop fuel (LineState false true tmp) g line
      else Some (Some (finish_line line), LineState false false tmp, g)
  end.

Definition buffered (t tmp : cstring) : Prop := match t with [] => clear tmp | _ => loaded tmp (next_piece t) end.

Lemma read_physical w fuel bf cont tmp line t :
  lf_free w -> nul_free w -> line_text t -> (cont = true -> w <> []) -> (length w + 2 <= fuel)%nat ->
  loaded tmp (next_piece (w ++ LF :: t)) ->
  exists tmp' fuel', (fuel <= fuel' + length w + 1)%nat /\ buffered t tmp' /\
    loop fuel (LineState bf cont tmp) (Some (skipn (length (next_piece (w ++ LF :: t))) (w ++ LF :: t))) line =
    after_physical fuel' (physical cont line w) t tmp'.
Proof.
  revert fuel bf cont tmp line. induction w as [w IH] using (induction_ltof1 _ (@length ascii)). unfold ltof in IH.
  intros fuel bf cont tmp line Hw Hn Ht Hc Hf HL. destruct fuel as [|k]; [lia|].
  destruct (Nat.le_gt_cases 79 (length w)) as [Hlong|Hshort].
  - destruct (partial_piece cont line w t Hw Hlong) as (Ep & Efull & Elast & Eapp). rewrite Ep in *.
    rewrite length_firstn, Nat.min_l, skipn_line by lia.
    set (w' := skipn 79 w). assert (length w' = (length w - 79)%nat) as Hw' by (subst w'; apply length_skipn).
    assert (line_text (w' ++ LF :: t)) as Ht' by (constructor; [now apply lf_free_skipn | now apply nul_free_skipn | assumption]).
    destruct (round_next k bf cont tmp line (firstn 79 w) (w' ++ LF :: t) HL Ht') as (tmp1 & HL1 & E1); [destruct w'; discriminate|].
    cbv zeta in E1. rewrite Elast, andb_false_r, Efull in E1. cbn [andb] in E1.
    destruct (IH w' ltac:(lia) k true false tmp1 (appended cont line (firstn 79 w))) as (tmp2 & k2 & Hk2 & Hb & E);
      try assumption; [now apply lf_free_skipn | now apply nul_free_skipn | discriminate | lia|].
    exists tmp2, k2. split; [lia|]. split; [assumption|]. etransitivity; [exact E1|]. etransitivity; [exact E|]. f_equal.
    unfold physical. rewrite Eapp, app_assoc. subst w'. now rewrite firstn_skipn.
  - rewrite next_piece_line in HL |- * by assumption.
    rewrite firstn_all2 in HL |- * by (rewrite length_app; cbn; lia).
    replace (skipn (length (w ++ [LF])) (w ++ LF :: t)) with t.
    2:{ change (LF :: t) with ([LF] ++ t). rewrite app_assoc, skipn_app, skipn_all, Nat.sub_diag. reflexivity. }
    pose proof (physical_last cont line w Hc) as Hlast. destruct t as [|c r] eqn:Et.
    + destruct (round_end k bf cont tmp line (w ++ [LF]) HL) as (tmp' & Hcl & E1).
      { intros E. unfold physical in Hlast. rewrite E in Hlast. discriminate. }
      exists tmp', (S k). split; [lia|]. split; [assumption|]. rewrite full_whole in E1. exact E1.
    + destruct (round_next k bf cont tmp line (w ++ [LF]) (c :: r) HL Ht) as (tmp' & HL' & E1); [discriminate|].
      exists tmp', k. split; [lia|]. split; [assumption|]. cbv zeta in E1. rewrite full_whole in E1.
      fold (physical cont line w) in E1. rewrite Hlast, andb_true_r in E1. exact E1.
Qed.

(** *** A content line *)

(** The continuation lines of a text. *)
Definition continuations (xs : list cstring) : cstring := flat_map (fun x => " "%char :: x ++ [LF]) xs.

(** Putting the parts together. *)
Fixpoint unfold_raw (line : cstring) (xs : list cstring) : cstring :=
  match xs with
  | [] => line
  | x :: xs => unfold_raw (backup line ++ x ++ [LF]) xs
  end.

Definition plain (s : cstring) : Prop := lf_free s /\ nul_free s.

Lemma continuations_text xs t : Forall plain xs -> line_text t -> line_text (continuations xs ++ t).
Proof.
  intros H Ht. induction H as [|x xs [Hl Hn] _ IH]; cbn [continuations flat_map app]; [assumption|].
  rewrite <- app_assoc. change (line_text ((" "%char :: x ++ [LF]) ++ (continuations xs ++ t))).
  replace ((" "%char :: x ++ [LF]) ++ (continuations xs ++ t)) with ((" "%char :: x) ++ LF :: (continuations xs ++ t))
    by (cbn; now rewrite <- app_assoc).
  constructor; [constructor; [discriminate | assumption] | constructor; [discriminate | assumption] | assumption].
Qed.

(** Each part but the last leaves a line that can be continued. *)
Fixpoint long_enough (line : cstring) (xs : list cstring) : Prop :=
  match xs with
  | [] => True
  | x :: xs => (1 < length line)%nat /\ long_enough (backup line ++ x ++ [LF]) xs
  end.

(** The parser is about to read a text: its buffer holds the first piece. *)
Definition pending (t : cstring) (p : line_state) (g : string_gen) : Prop :=
  buffer_full p = false /\ continuation_line p = false /\ buffered t (temp p) /\ g = Some (skipn (length (next_piece t)) t).

Lemma read_continuations xs w fuel bf cont tmp line t :
  plain w -> Forall plain xs -> line_text t -> starts_ws t = false ->
  (cont = true -> w <> []) -> long_enough (physical cont line w) xs ->
  (length w + length (continuations xs) + 2 <= fuel)%nat ->
  loaded tmp (next_piece (w ++ LF :: continuations xs ++ t)) ->
  exists p g, pending t p g /\
    loop fuel (LineState bf cont tmp)
      (Some (skipn (length (next_piece (w ++ LF :: continuations xs ++ t))) (w ++ LF :: continuations xs ++ t))) line =
    Some (Some (finish_line (unfold_raw (physical cont line w) xs)), p, g).
Proof.
  intros Hw Hxs Ht Hws. revert w fuel bf cont tmp line Hw.
  induction Hxs as [|x xs [Hl Hn] Hxs IH]; intros w fuel bf cont tmp line [Hwl Hwn] Hc Hlen Hf HL.
  - cbn [continuations flat_map app unfold_raw] in *.
    destruct (read_physical w fuel bf cont tmp line t Hwl Hwn Ht Hc ltac:(cbn in Hf; lia) HL) as (tmp' & k & _ & Hb & E).
    destruct t as [|c r]; cbn [after_physical] in E.
    + eexists _, _. split; [|exact E]. now split.
    + rewrite Hws, andb_false_r in E. eexists _, _. split; [|exact E]. now split.
  - assert (line_text (continuations (x :: xs) ++ t)) as Htx by (apply continuations_text; [constructor; [now split | assumption] | assumption]).
    assert (length w + 2 <= fuel)%nat as Hf' by lia.
    destruct (read_physical w fuel bf cont tmp line _ Hwl Hwn Htx Hc Hf' HL) as (tmp' & k & Hk & Hb & ->).
    assert (continuations (x :: xs) ++ t = (" "%char :: x) ++ LF :: continuations xs ++ t) as Ex.
    { cbn [continuations flat_map app]. rewrite <- !app_assoc. reflexivity. }
    rewrite Ex in *. unfold after_physical. cbn [app]. change (" "%char :: x ++ ?u) with ((" "%char :: x) ++ u).
    replace (starts_ws ((" "%char :: x) ++ LF :: continuations xs ++ t)) with true by reflexivity.
    destruct Hlen as [Hlen Hlong]. apply Nat.ltb_lt in Hlen. rewrite Hlen. cbn [andb].
    assert (length (continuations (x :: xs)) = length x + 2 + length (continuations xs))%nat as Hcl.
    { unfold continuations. cbn [flat_map]. rewrite length_app. cbn [length]. rewrite length_app. cbn [length]. lia. }
    destruct (IH (" "%char :: x) k false true tmp' (physical cont line w)) as (p & g & Hp & E).
    + split; [constructor; [discriminate | assumption] | constructor; [discriminate | assumption]].
    + discriminate.
    + exact Hlong.
    + cbn [length]. lia.
    + exact Hb.
    + exists p, g. split; [assumption|]. rewrite E. cbn [unfold_raw]. unfold physical at 1, appended. reflexivity.
Qed.
End Rounds.

(** ** The folded text *)

Lemma last_place_spec test s pos n :
  last_place test s pos = Some n -> (0 < n <= pos)%nat /\ test (nth_char s n) = true.
Proof.
  induction pos as [|k IH]; cbn [last_place]; [discriminate|]. case_if.
  - intros [= <-]. split; [lia | assumption].
  - intros H. apply IH in H as [H1 H2]. split; [lia | assumption].
Qed.

Lemma next_line_bounds s :
  s <> [] -> (0 < get_next_line_start s <= length s)%nat /\ (get_next_line_start s <= 74)%nat.
Proof.
  intros Hne. assert (0 < length s)%nat by (destruct s; [congruence | cbn; lia]).
  unfold get_next_line_start, MAX_LINE_LEN. cbv zeta. destruct (Nat.ltb_spec (length s) 75); [lia|].
  destruct (last_place break_char s (75 - 2)) as [n|] eqn:E; [apply last_place_spec in E; lia|].
  destruct (last_place utf8_boundary s (75 - 1)) as [n|] eqn:E2; [apply last_place_spec in E2; lia | lia].
Qed.

Lemma backup_crlf a : backup (a ++ [CR; LF]) = a.
Proof.
  unfold backup. change [CR; LF] with ([CR] ++ [LF]). rewrite app_assoc, removelast_last, last_is_app.
  apply removelast_last.
Qed.

Lemma split_last_lf s n :
  lf_free s -> (n < length (s ++ [LF]))%nat ->
  lf_free (firstn n (s ++ [LF])) /\ skipn n (s ++ [LF]) = skipn n s ++ [LF] /\ firstn n (s ++ [LF]) = firstn n s.
Proof.
  intros Hs Hn. rewrite length_app in Hn. cbn in Hn. rewrite firstn_app, skipn_app.
  replace (n - length s)%nat with 0%nat by lia. cbn [firstn skipn]. rewrite app_nil_r.
  split; [now apply lf_free_firstn | split; reflexivity].
Qed.

(** The lines of a folded text, and what putting them together gives. *)
Lemma fold_shape k s0 :
  plain s0 -> (length s0 <= k)%nat ->
  let s := s0 ++ [LF] in
  let n := get_next_line_start s in
  exists w xs, firstn n s ++ fold_loop k (skipn n s) false = w ++ LF :: continuations xs /\
    plain w /\ Forall plain xs /\ (xs <> [] -> (1 < length w)%nat) /\
    (forall base, unfold_raw (base ++ w ++ [LF]) xs = base ++ s) /\
    (forall base, long_enough (base ++ w ++ [LF]) xs).
Proof.
  revert s0. induction k as [|k IH]; intros s0 Hs Hk s n.
  - destruct s0; [|cbn in Hk; lia]. exists [], []. split; [reflexivity|]. split; [assumption|]. split; [constructor|].
    split; [congruence|]. split; [intros base; reflexivity | intros; exact I].
  - assert (s <> []) as Hne by (subst s; destruct s0; discriminate).
    destruct (next_line_bounds s Hne) as [Hn _]. fold n in Hn.
    destruct (Nat.eq_dec n (length s)) as [Hall|Hpart].
    + rewrite Hall, firstn_all, skipn_all. exists s0, []. split; [cbn [fold_loop continuations flat_map]; now rewrite app_nil_r|]. split; [assumption|].
      split; [constructor|]. split; [congruence|]. split; [intros base; reflexivity | intros; exact I].
    + destruct (split_last_lf s0 n (proj1 Hs)) as (Hf & Esk & Efn); [subst s; lia|]. fold s in Hf, Esk, Efn.
      set (p := firstn n s) in *. set (s1 := skipn n s0) in *.
      assert (length p = n) as Hp by (subst p; rewrite length_firstn; lia).
      assert (plain s1) as Hs1 by (subst s1; destruct Hs; split; [now apply lf_free_skipn | now apply nul_free_skipn]).
      assert (plain p) as Hpp by (destruct Hs; split; [assumption | rewrite Efn; now apply nul_free_firstn]).
      assert (length s1 <= k)%nat as Hk1.
      { subst s1. rewrite length_skipn. lia. }
      destruct (IH s1 Hs1 Hk1) as (w1 & xs1 & E1 & Hw1 & Hxs1 & Hl1 & Hu1 & Hlong1).
      exists (p ++ [CR]), (w1 :: xs1). rewrite Esk. split; [|split; [|split; [|split; [|split]]]].
      * cbn [fold_loop]. destruct (s1 ++ [LF]) as [|c r] eqn:Es1; [destruct s1; discriminate|]. rewrite <- Es1 in *.
        cbn [app]. cbn [continuations flat_map]. fold (continuations xs1). rewrite E1.
        rewrite <- !app_assoc. cbn [app]. rewrite <- !app_assoc. reflexivity.
      * destruct Hpp. split; apply Forall_app; (split; [assumption | repeat constructor; discriminate]).
      * constructor; assumption.
      * intros _. rewrite length_app. cbn. lia.
      * intros base. cbn [unfold_raw]. replace (base ++ (p ++ [CR]) ++ [LF]) with ((base ++ p) ++ [CR; LF])
          by (rewrite <- !app_assoc; reflexivity).
        rewrite backup_crlf, Hu1. rewrite <- app_assoc, <- Esk. subst p. now rewrite firstn_skipn.
      * intros base. cbn [long_enough]. split.
        -- rewrite !length_app. cbn. lia.
        -- replace (base ++ (p ++ [CR]) ++ [LF]) with ((base ++ p) ++ [CR; LF]) by (rewrite <- !app_assoc; reflexivity).
           rewrite backup_crlf. apply Hlong1.
Qed.

(** A line that can be written: no NUL and no line feed, not empty, no white
    space at its end and no blank at its start. *)
Definition writable_line (s : cstring) : Prop :=
  plain s /\ s <> [] /\ isspace (last s NUL) = false /\ starts_ws s = false.

Lemma fold_property_line_shape s :
  writable_line s ->
  exists w xs, fold_property_line (s ++ [CR; LF]) = w ++ LF :: continuations xs /\ plain w /\ Forall plain xs /\
    long_enough (w ++ [LF]) xs /\ unfold_raw (w ++ [LF]) xs = s ++ [CR; LF] /\ nth_char w 0 = nth_char s 0 /\ w <> [].
Proof.
  intros ((Hl & Hn) & Hne & _ & _). unfold fold_property_line.
  replace (s ++ [CR; LF]) with ((s ++ [CR]) ++ [LF]) by now rewrite <- app_assoc.
  assert (plain (s ++ [CR])) as Hp by (split; apply Forall_app; (split; [assumption | repeat constructor; discriminate])).
  destruct (fold_shape (length (s ++ [CR])) (s ++ [CR]) Hp (le_n _)) as (w & xs & E & Hw & Hxs & Hl1 & Hu & Hlong).
  cbv zeta in E.
  assert (fold_loop (length ((s ++ [CR]) ++ [LF])) ((s ++ [CR]) ++ [LF]) true = w ++ LF :: continuations xs) as E'.
  { rewrite (length_app (s ++ [CR]) [LF]). cbn [length]. rewrite Nat.add_1_r. cbn [fold_loop]. rewrite <- E.
    destruct ((s ++ [CR]) ++ [LF]) as [|c r] eqn:Es; [destruct s; discriminate|]. reflexivity. }
  exists w, xs. split; [exact E'|]. split; [assumption|]. split; [assumption|]. split; [exact (Hlong [])|].
  split; [exact (Hu [])|].
  destruct (next_line_bounds ((s ++ [CR]) ++ [LF])) as [[Hpos _] _]; [destruct s; discriminate|].
  destruct (get_next_line_start ((s ++ [CR]) ++ [LF])) as [|m] eqn:Em; [lia|].
  destruct s as [|c s]; [congruence|]. cbn in E.
  destruct w as [|d w]; cbn in E; injection E as E1 _.
  - exfalso. inversion Hl; subst. congruence.
  - subst. split; [reflexivity | discriminate].
Qed.

Lemma last_space_rtrim s : s <> [] -> isspace (last s NUL) = false -> rtrim s = s.
Proof.
  induction s as [|c s IH]; intros Hne Hl; [congruence|]. destruct s as [|d s].
  - cbn in *. now rewrite Hl.
  - change (last (c :: d :: s) NUL) with (last (d :: s) NUL) in Hl. specialize (IH ltac:(discriminate) Hl).
    change (rtrim (c :: d :: s)) with (match rtrim (d :: s) with [] => if isspace c then [] else [c] | t => c :: t end).
    now rewrite IH.
Qed.

Lemma finish_written s : s <> [] -> isspace (last s NUL) = false -> finish_line (s ++ [CR; LF]) = s.
Proof.
  intros Hne Hl. unfold finish_line. rewrite length_app. cbn [length].
  destruct (Nat.ltb_spec 1 (length s + 2)); [|lia]. change [CR; LF] with ([CR] ++ [LF]). rewrite app_assoc, last_is_app.
  cbn [andb]. change (rtrim1 (backup ((s ++ [CR]) ++ [LF])) = s). rewrite <- app_assoc. cbn [app]. rewrite backup_crlf.
  destruct s as [|c s]; [congruence|]. unfold rtrim1. f_equal. destruct s as [|d s]; [reflexivity|].
  apply last_space_rtrim; [discriminate | exact Hl].
Qed.

(** ** Reading whole texts *)

Section Text.
Variable str : cstring.
Notation gen := (icalparser_string_line_generator str).

(** One written line, read from a parser that is about to read it. *)
Lemma get_written_line s t p g fuel :
  writable_line s -> line_text t -> starts_ws t = false ->
  (length (fold_property_line (s ++ [CR; LF])) + 2 <= fuel)%nat ->
  pending (fold_property_line (s ++ [CR; LF]) ++ t) p g ->
  exists p' g', pending t p' g' /\ icalparser_get_line gen fuel p g = Some (Some s, p', g').
Proof.
  intros Hs Ht Hws Hf. destruct (fold_property_line_shape s Hs) as (w & xs & E & Hw & Hxs & Hlong & Hu & _ & Hwne).
  rewrite E in *. rewrite <- app_assoc. cbn [app]. destruct p as [bf cont tmp]. intros (Hbf & Hcont & Hb & ->).
  cbn in Hbf, Hcont. subst bf cont. cbn [temp] in Hb.
  assert (buffered (w ++ LF :: continuations xs ++ t) tmp = loaded tmp (next_piece (w ++ LF :: continuations xs ++ t))) as Eb
    by (destruct w; reflexivity).
  rewrite Eb in Hb. rewrite length_app in Hf. cbn [length] in Hf.
  destruct (read_continuations str xs w fuel false false tmp [] t) as (p' & g' & Hp & El); try assumption; [discriminate | lia|].
  exists p', g'. split; [assumption|]. unfold icalparser_get_line. etransitivity; [exact El|].
  change (physical false [] w) with (w ++ [LF]). rewrite Hu. destruct Hs as (_ & Hne & Hl & _).
  now rewrite finish_written.
Qed.

Definition folded_text (lines : list cstring) : cstring :=
  flat_map (fun s => fold_property_line (s ++ [CR; LF])) lines.

Lemma fold_line_text s t : writable_line s -> line_text t -> line_text (fold_property_line (s ++ [CR; LF]) ++ t).
Proof.
  intros Hs Ht. destruct (fold_property_line_shape s Hs) as (w & xs & -> & [Hl Hn] & Hxs & _).
  rewrite <- app_assoc. cbn [app]. constructor; [assumption | assumption | now apply continuations_text].
Qed.

Lemma folded_line_text lines : Forall writable_line lines -> line_text (folded_text lines) /\ starts_ws (folded_text lines) = false.
Proof.
  induction 1 as [|s lines Hs _ [IH _]]; cbn [folded_text flat_map]; [split; [constructor | reflexivity]|].
  split; [now apply fold_line_text|].
  destruct (fold_property_line_shape s Hs) as (w & xs & -> & _ & _ & _ & _ & Hh & Hwne). destruct Hs as (_ & Hne & _ & Hw).
  destruct w as [|c w]; [congruence|]. destruct s as [|d s]; [congruence|]. unfold starts_ws, nth_char in *. cbn in *. now rewrite Hh.
Qed.

Lemma end_of_text p g fuel :
  pending [] p g -> exists p' g', icalparser_get_line gen (S fuel) p g = Some (None, p', g').
Proof.
  destruct p as [bf cont tmp]. intros (Hbf & Hcont & [HL H0] & ->).
  cbn [temp buffer_full continuation_line] in Hbf, Hcont, HL, H0. subst bf cont.
  unfold icalparser_get_line. cbn [get_line_loop]. unfold transfer. cbn [temp]. rewrite H0.
  change (Ascii.eqb NUL NUL) with true. cbv iota. cbn [temp buffer_full continuation_line].
  change (skipn (length (next_piece [])) []) with (@nil ascii). rewrite generator_end. cbn [negb andb].
  assert (nth_char (set_nth (TMP_BUF_SIZE - 1) ONE tmp) 0 = NUL) as ->.
  { rewrite nth_set_nth. exact H0. }
  change (Ascii.eqb NUL NUL) with true. cbv iota. eauto.
Qed.

Lemma read_folded lines p g n fuel :
  Forall writable_line lines -> (length lines < n)%nat -> (length (folded_text lines) + 2 <= fuel)%nat ->
  pending (folded_text lines) p g -> read_lines gen n fuel p g = Some lines.
Proof.
  intros H. revert p g n. induction H as [|s lines Hs Hls IH]; intros p g n Hn Hf Hp.
  - destruct n as [|n]; [cbn in Hn; lia|]. destruct fuel as [|fuel]; [lia|].
    destruct (end_of_text p g fuel Hp) as (p' & g' & E). cbn [read_lines]. now rewrite E.
  - destruct n as [|n]; [cbn in Hn; lia|]. destruct (folded_line_text lines Hls) as [Ht Hws].
    cbn [folded_text flat_map] in Hf, Hp. rewrite length_app in Hf. fold (folded_text lines) in Hf, Hp.
    destruct (get_written_line s (folded_text lines) p g fuel Hs Ht Hws ltac:(lia) Hp) as (p' & g' & Hp' & E).
    rewrite (read_lines_S _ _ _ _ _ _ _ _ E), (IH p' g' n); [reflexivity | cbn in Hn; lia | lia | assumption].
Qed.
End Text.

(** The first request fills the buffer and returns an empty line. *)
Lemma first_request str fuel :
  line_text str -> skip_bom str = str -> str <> [] -> starts_ws str = false ->
  exists p g, pending str p g /\
    icalparser_get_line (icalparser_string_line_generator str) (S fuel) icalparser_new_lines None = Some (Some [], p, g).
Proof.
  intros Ht Hb Hne Hws. destruct (load_next str (repeat NUL TMP_BUF_SIZE) str) as (tmp & E & HL); [reflexivity | assumption | assumption|].
  exists (LineState false false tmp), (Some (skipn (length (next_piece str)) str)). split.
  - split; [reflexivity|]. split; [reflexivity|]. split; [|reflexivity]. destruct str; [congruence | exact HL].
  - unfold icalparser_get_line, icalparser_new_lines. cbn [get_line_loop]. unfold transfer. cbn [temp].
    replace (nth_char (repeat NUL TMP_BUF_SIZE) 0) with NUL by reflexivity. change (Ascii.eqb NUL NUL) with true. cbv iota.
    cbn [temp buffer_full continuation_line]. change (TMP_BUF_SIZE - 1)%nat with 79%nat.
    assert (icalparser_string_line_generator str (set_nth 79 ONE (repeat NUL TMP_BUF_SIZE)) None =
            icalparser_string_line_generator str (set_nth 79 ONE (repeat NUL TMP_BUF_SIZE)) (Some str)) as ->.
    { unfold icalparser_string_line_generator. now rewrite Hb. }
    rewrite E. reflexivity.
Qed.

Lemma folded_length lines : Forall writable_line lines -> (length lines <= length (folded_text lines))%nat.
Proof.
  induction 1 as [|s lines Hs _ IH]; cbn [folded_text flat_map length]; [lia|]. rewrite length_app.
  destruct (fold_property_line_shape s Hs) as (w & xs & -> & _). rewrite length_app. cbn [length].
  fold (folded_text lines). lia.
Qed.

Lemma folded_lines_read (lines : list cstring) :
  Forall writable_line lines -> lines <> [] -> skip_bom (folded_text lines) = folded_text lines ->
  lines_of_string (folded_text lines) = Some ([] :: lines).
Proof.
  intros H Hne Hb. destruct (folded_line_text lines H) as [Ht Hws]. pose proof (folded_length lines H) as Hlen.
  assert (folded_text lines <> []) as Hne'.
  { destruct lines; [congruence|]. intros E. rewrite E in Hlen. cbn in Hlen. lia. }
  unfold lines_of_string. set (str := folded_text lines) in *. rewrite Nat.add_comm. cbn [Nat.add].
  destruct (first_request str (S (length str)) Ht Hb Hne' Hws) as (p & g & Hp & E).
  pose proof (read_folded str lines p g (S (length str)) (S (S (length str))) H) as R. fold str in R.
  rewrite (read_lines_S _ _ _ _ _ _ _ _ E), R; [reflexivity | lia | lia | exact Hp].
Qed.

(** ** Properties *)

(** C8: every text of content lines is read back as it was written.  Folding the
    lines as [icalproperty_as_ical_string_r] does, in lines of at most 75 octets
    broken at any place, and reading the text with [icalparser_get_line] in
    pieces of at most 79 characters gives exactly the lines again, after the
    empty line with which the reader begins, and the reader ends. *)
Theorem folded_lines_read_back (lines : list cstring) :
  Forall writable_line lines -> lines <> [] -> skip_bom (folded_text lines) = folded_text lines ->
  lines_of_string (folded_text lines) = Some ([] :: lines).
Proof. apply folded_lines_read. Qed.

Definition sample_lines : list cstring :=
  [$"BEGIN:VEVENT"; $"SUMMARY:" ++ repeat "x"%char 200; $"END:VEVENT"].

Lemma folded_lines_read_back_witness :
  Forall writable_line sample_lines /\ lines_of_string (folded_text sample_lines) = Some ([] :: sample_lines).
Proof.
  assert (Forall writable_line sample_lines) as H.
  { unfold sample_lines, writable_line, plain, lf_free, nul_free. cbn [repeat app lit list_ascii_of_string].
    repeat (constructor; [split; [split; repeat (constructor; [discriminate|]); constructor|];
      split; [discriminate|]; split; reflexivity|]). constructor. }
  split; [exact H|]. apply (folded_lines_read_back sample_lines H); [discriminate | reflexivity].
Defined.

(** ** Where lines are broken *)

(** The parts of a folded line. *)
Fixpoint fold_pieces (k : nat) (s : cstring) : list cstring :=
  match k, s with
  | S k, _ :: _ => let n := get_next_line_start s in firstn n s :: fold_pieces k (skipn n s)
  | _, _ => []
  end.

Definition broken (ps : list cstring) : cstring := flat_map (fun p => [CR; LF; " "%char] ++ p) ps.

Lemma fold_loop_pieces k s : fold_loop k s false = broken (fold_pieces k s).
Proof.
  revert s. induction k as [|k IH]; intros [|c s]; cbn [fold_loop fold_pieces]; try reflexivity.
  rewrite IH. cbn [broken flat_map]. unfold broken. now rewrite <- app_assoc.
Qed.

Lemma fold_loop_first k s : fold_loop k s true = match fold_pieces k s with [] => [] | p :: ps => p ++ broken ps end.
Proof. destruct k, s; cbn [fold_loop fold_pieces]; try reflexivity. cbn [app]. now rewrite fold_loop_pieces. Qed.

(** No byte of a character follows an ASCII byte, and among 74 bytes a character
    begins: valid UTF-8 text has at most three such bytes in a row. *)
Definition utf8_text (s : cstring) : Prop :=
  (forall i, utf8_boundary (nth_char s (S i)) = false -> high_bit (nth_char s i) = true) /\
  (forall i, exists j, (i < j <= i + 74)%nat /\ utf8_boundary (nth_char s j) = true).

Lemma nth_char_skipn n s i : nth_char (skipn n s) i = nth_char s (n + i).
Proof. unfold nth_char. apply nth_skipn. Qed.

Lemma utf8_text_skipn n s : utf8_text s -> utf8_text (skipn n s).
Proof.
  intros [H1 H2]. split.
  - intros i. rewrite !nth_char_skipn. replace (n + S i)%nat with (S (n + i)) by lia. apply H1.
  - intros i. destruct (H2 (n + i)%nat) as (j & Hj & E). exists (j - n)%nat. split; [lia|].
    rewrite nth_char_skipn. now replace (n + (j - n))%nat with j by lia.
Qed.

Lemma last_place_none test s pos : last_place test s pos = None -> forall j, (0 < j <= pos)%nat -> test (nth_char s j) = false.
Proof.
  induction pos as [|k IH]; cbn [last_place]; [intros; lia|]. case_if; [discriminate|]. intros H j Hj.
  destruct (Nat.eq_dec j (S k)) as [->|]; [assumption | apply IH; [assumption | lia]].
Qed.

Lemma break_char_ascii c : break_char c = true -> high_bit c = false.
Proof. destruct c as [[] [] [] [] [] [] [] []]; vm_compute; congruence. Qed.

(** A line is broken where a character begins. *)
Lemma break_at_boundary s :
  utf8_text s -> (get_next_line_start s < length s)%nat -> utf8_boundary (nth_char s (get_next_line_start s)) = true.
Proof.
  intros [H1 H2]. unfold get_next_line_start, MAX_LINE_LEN. cbv zeta.
  destruct (Nat.ltb_spec (length s) 75); [lia|]. intros _.
  destruct (last_place break_char s (75 - 2)) as [n|] eqn:E.
  - apply last_place_spec in E as [_ E]. apply break_char_ascii in E.
    destruct (utf8_boundary (nth_char s (S n))) eqn:Eb; [reflexivity|]. apply H1 in Eb. congruence.
  - destruct (last_place utf8_boundary s (75 - 1)) as [n|] eqn:E2; [now apply last_place_spec in E2|].
    destruct (H2 0%nat) as (j & Hj & Ej). rewrite (last_place_none _ _ _ E2) in Ej by lia. discriminate.
Qed.

Lemma fold_pieces_ok k s :
  (length s <= k)%nat ->
  concat (fold_pieces k s) = s /\ Forall (fun p => 0 < length p <= 74)%nat (fold_pieces k s) /\
  (utf8_text s -> Forall (fun p => utf8_boundary (nth_char p 0) = true) (tl (fold_pieces k s)) /\
    (forall p, head (fold_pieces k s) = Some p -> nth_char p 0 = nth_char s 0)).
Proof.
  revert s. induction k as [|k IH]; intros s Hk.
  { destruct s; [|cbn in Hk; lia]. split; [reflexivity|]. split; [constructor|]. intros _. split; [constructor | discriminate]. }
  destruct s as [|c r]; [split; [reflexivity|]; split; [constructor|]; intros _; split; [constructor | discriminate]|].
  set (s := c :: r) in *. destruct (next_line_bounds s) as [Hn H74]; [discriminate|].
  set (n := get_next_line_start s) in *. change (fold_pieces (S k) s) with (firstn n s :: fold_pieces k (skipn n s)).
  destruct (IH (skipn n s)) as (Hc & Hb & Hu); [rewrite length_skipn; lia|].
  assert (length (firstn n s) = n) as Hl by (rewrite length_firstn; lia).
  split; [|split].
  - cbn [concat]. rewrite Hc. apply firstn_skipn.
  - constructor; [lia | assumption].
  - intros Hutf. destruct (Hu (utf8_text_skipn n s Hutf)) as [Ht Hh]. cbn [tl head]. split.
    + destruct (fold_pieces k (skipn n s)) as [|p ps] eqn:Ep; [constructor|]. constructor; [|exact Ht].
      rewrite (Hh p eq_refl), nth_char_skipn, Nat.add_0_r. apply break_at_boundary; [assumption|].
      destruct (Nat.lt_ge_cases n (length s)) as [|Hge]; [assumption|]. exfalso.
      rewrite skipn_all2 in Ep by lia. destruct k; discriminate.
    + intros p [= <-]. unfold nth_char. rewrite <- (firstn_skipn n s) at 2. now rewrite app_nth1 by lia.
Qed.

(** C40: A property line that is not empty is folded into its text, unchanged, broken into
    parts of 1 to 74 octets that are joined by CR LF and a space, so that no line has more
    than 75 octets; text in UTF-8 is broken only where a character begins. *)
Theorem fold_line_bounds (s : cstring) :
  s <> [] ->
  exists p ps, fold_property_line s = p ++ broken ps /\ concat (p :: ps) = s /\
    Forall (fun x => 0 < length x <= 74)%nat (p :: ps) /\
    (utf8_text s -> Forall (fun x => utf8_boundary (nth_char x 0) = true) ps).
Proof.
  intros Hne. unfold fold_property_line. rewrite fold_loop_first.
  destruct (fold_pieces_ok (length s) s (le_n _)) as (Hc & Hb & Hu).
  destruct (fold_pieces (length s) s) as [|p ps]; [cbn in Hc; congruence|]. exists p, ps. split; [reflexivity|].
  split; [exact Hc|]. split; [exact Hb|]. intros H. apply (Hu H).
Qed.

Lemma fold_line_bounds_witness :
  exists p ps, fold_property_line ($"SUMMARY:" ++ repeat "x"%char 100) = p ++ broken ps /\
    concat (p :: ps) = $"SUMMARY:" ++ repeat "x"%char 100 /\
    Forall (fun x => 0 < length x <= 74)%nat (p :: ps).
Proof.
  destruct (fold_line_bounds ($"SUMMARY:" ++ repeat "x"%char 100) ltac:(discriminate)) as (p & ps & H1 & H2 & H3 & _).
  exists p, ps. split; [exact H1|]. split; [exact H2 | exact H3].
Defined.

(** ** Observation *)

(** Text with carriage returns only: a line longer than the buffer loses a
    character and is broken in two. *)
Example cr_only_long_line :
  lines_of_string (repeat "y"%char 100 ++ [CR] ++ $"z") =
  Some [[]; repeat "y"%char 78; repeat "y"%char 21; $"z"].
Proof. vm_compute. reflexivity. Qed.
