(* ===== verification/IcalParameter.v ===== *)
(** * Parameters (icalparameter.c, icalderivedparameter.c.in, icaltypes.c)

    A parameter has a kind and its value: a number of the generated enumeration
    or a text; parameters of kind X and IANA carry their name.  The file models
    the names and values of parameters, reading and writing one parameter, and
    the encoding of RFC 6868 with its decoder in icalparser.c.  The generated
    tables are the class [ParameterTables]. *)
From Stdlib Require Import String Ascii ZArith Lia Bool List.
From S2P Require Import Prelude CString IcalError IcalValueText IcalValue.
Import ListNotations.
#[local] Open Scope Z_scope.
#[local] Open Scope cstring_scope.
#[local] Open Scope err_scope.

(** ** Kinds *)

(** By the numbers of parameters.csv. *)
Definition icalparameter_kind := Z.
Definition ICAL_ANY_PARAMETER : icalparameter_kind := 0.
Definition ICAL_CUTYPE_PARAMETER : icalparameter_kind := 5.
Definition ICAL_ENCODING_PARAMETER : icalparameter_kind := 10.
Definition ICAL_FBTYPE_PARAMETER : icalparameter_kind := 11.
Definition ICAL_PARTSTAT_PARAMETER : icalparameter_kind := 20.
Definition ICAL_RELATED_PARAMETER : icalparameter_kind := 22.
Definition ICAL_RELTYPE_PARAMETER : icalparameter_kind := 23.
Definition ICAL_ROLE_PARAMETER : icalparameter_kind := 24.
Definition ICAL_RSVP_PARAMETER : icalparameter_kind := 25.
Definition ICAL_TZID_PARAMETER : icalparameter_kind := 27.
Definition ICAL_VALUE_PARAMETER : icalparameter_kind := 28.
Definition ICAL_X_PARAMETER : icalparameter_kind := 29.
Definition ICAL_XLICERRORTYPE_PARAMETER : icalparameter_kind := 31.
Definition ICAL_NO_PARAMETER : icalparameter_kind := 32.
Definition ICAL_IANA_PARAMETER : icalparameter_kind := 33.
Definition ICAL_SCHEDULEAGENT_PARAMETER : icalparameter_kind := 34.

Inductive ical_unknown_token_handling := ICAL_ASSUME_IANA_TOKEN | ICAL_DISCARD_TOKEN | ICAL_TREAT_AS_ERROR.

(** The static variable of icaltypes.c, its initial value and its accessors; the
    functions that read it take it as an argument. *)
Definition unknownTokenHandling : ical_unknown_token_handling := ICAL_TREAT_AS_ERROR.
Definition ical_get_unknown_token_handling_setting (s : ical_unknown_token_handling) := s.
Definition ical_set_unknown_token_handling_setting (newSetting s : ical_unknown_token_handling) := newSetting.

(** Generated: the names of the kinds, the enumerated values with their texts,
    the kinds of value that the VALUE parameter selects (the last entry is the
    sentinel), and [ICALPARAMETER_LAST_ENUM]. *)
Class ParameterTables := {
  parameter_map : list (icalparameter_kind * cstring);
  icalparameter_map : list (icalparameter_kind * Z * cstring);
  value_kind_map : list (Z * icalvalue_kind);
  ICALPARAMETER_LAST_ENUM : Z
}.

Definition ICALPARAMETER_FIRST_ENUM : Z := 20000.
Definition ICAL_VALUE_X : Z := 21600.

(** ** [bsearch] and [strcasecmp] of the C library *)

Definition tolower (c : ascii) : ascii :=
  if (65 <=? code c) && (code c <=? 90) then chr (code c + 32) else c.

Definition strcasecmp (a b : cstring) : Z := strcmp (map tolower a) (map tolower b).

Fixpoint bsearch_loop {A} (fuel : nat) (cmp : A -> Z) (base : list A) (l u : nat) : option A :=
  match fuel with
  | O => None
  | S k =>
      if Nat.ltb l u then
        let idx := Nat.div (l + u) 2 in
        let* p := nth_error base idx in
        if cmp p <? 0 then bsearch_loop k cmp base l idx
        else if 0 <? cmp p then bsearch_loop k cmp base (S idx) u
        else Some p
      else None
  end.

(** [cmp] compares the key with an entry. *)
Definition bsearch {A} (cmp : A -> Z) (base : list A) : option A :=
  bsearch_loop (S (length base)) cmp base 0 (length base).

(** ** Data *)

Record icalparameter := Param {
  pa_kind : icalparameter_kind;
  pa_string : option cstring;
  pa_x_name : option cstring;
  pa_parent : option positive;
  pa_data : Z
}.

Definition icalparameter_new_impl (kind : icalparameter_kind) : icalparameter := Param kind None None None 0.
Definition icalparameter_new (kind : icalparameter_kind) : icalparameter := icalparameter_new_impl kind.

Definition icalparameter_isa (p : icalparameter) : icalparameter_kind := pa_kind p.

Definition icalparameter_set_xname (v : cstring) (p : icalparameter) : icalparameter :=
  Param (pa_kind p) (pa_string p) (Some v) (pa_parent p) (pa_data p).
Definition icalparameter_get_xname (p : icalparameter) : option cstring := pa_x_name p.
Definition icalparameter_set_xvalue (v : cstring) (p : icalparameter) : icalparameter :=
  Param (pa_kind p) (Some v) (pa_x_name p) (pa_parent p) (pa_data p).
Definition icalparameter_get_xvalue (p : icalparameter) : option cstring := pa_string p.
Definition icalparameter_set_iana_name (v : cstring) (p : icalparameter) := icalparameter_set_xname v p.
Definition icalparameter_get_iana_name (p : icalparameter) := icalparameter_get_xname p.
Definition icalparameter_set_iana_value (v : cstring) (p : icalparameter) := icalparameter_set_xvalue v p.
Definition icalparameter_get_iana_value (p : icalparameter) := icalparameter_get_xvalue p.
Definition icalparameter_set_parent (parent : option positive) (p : icalparameter) : icalparameter :=
  Param (pa_kind p) (pa_string p) (pa_x_name p) parent (pa_data p).
Definition icalparameter_get_parent (p : icalparameter) : option positive := pa_parent p.

(** The copy owns its texts and keeps everything else, the parent included. *)
Definition icalparameter_clone (old : icalparameter) : icalparameter :=
  Param (pa_kind old) (pa_string old) (pa_x_name old) (pa_parent old) (pa_data old).

(** The members of kinds X and IANA are never null when the code that creates
    them has run; [strcasecmp] of a null pointer is undefined. *)
Definition same_x_name (a b : icalparameter) : err bool :=
  match icalparameter_get_xname a, icalparameter_get_xname b with
  | Some n1, Some n2 => ret (strcaseeqb n1 n2)
  | _, _ => undefined
  end.

Definition icalparameter_has_same_name (param1 param2 : icalparameter) : err bool :=
  let kind1 := icalparameter_isa param1 in
  let kind2 := icalparameter_isa param2 in
  if negb (kind1 =? kind2) then ret false
  else if (kind1 =? ICAL_X_PARAMETER) || (kind1 =? ICAL_IANA_PARAMETER) then same_x_name param1 param2
  else ret true.

(** ** Names and enumerated values *)

Section Parameters.
Context `{PTABLES : ParameterTables}.

Definition icalparameter_kind_is_valid (kind : icalparameter_kind) : bool :=
  if kind =? ICAL_ANY_PARAMETER then false else existsb (fun e => fst e =? kind) parameter_map.

Definition icalparameter_kind_to_string (kind : icalparameter_kind) : option cstring :=
  option_map snd (find (fun e => fst e =? kind) parameter_map).

Definition icalparameter_compare_kind_map (a b : icalparameter_kind * cstring) : Z := strcasecmp (snd a) (snd b).

Definition starts_with (prefix s : cstring) : bool := streqb (firstn (length prefix) s) prefix.

(** [strstr]: the text from the first place on where the key is. *)
Fixpoint strstr (text key : cstring) : option cstring :=
  if starts_with key text then Some text
  else match text with
       | [] => None
       | _ :: text => strstr text key
       end.

Definition icalparameter_string_to_kind (tok : ical_unknown_token_handling) (string : option cstring)
  : icalparameter_kind :=
  match string with
  | None => ICAL_NO_PARAMETER
  | Some s =>
      match bsearch (icalparameter_compare_kind_map (ICAL_ANY_PARAMETER, s)) parameter_map with
      | Some result => fst result
      | None =>
          if starts_with $"X-" s then ICAL_X_PARAMETER
          else match ical_get_unknown_token_handling_setting tok with
               | ICAL_TREAT_AS_ERROR => ICAL_NO_PARAMETER
               | _ => ICAL_IANA_PARAMETER
               end
      end
  end.

(** The loop stops at the entry of kind [ICAL_NO_VALUE]. *)
Fixpoint value_kind_of (m : list (Z * icalvalue_kind)) (value : Z) : icalvalue_kind :=
  match m with
  | [] => ICAL_NO_VALUE
  | (v, k) :: m =>
      if kind_eqb k ICAL_NO_VALUE then ICAL_NO_VALUE
      else if v =? value then k else value_kind_of m value
  end.

Definition icalparameter_value_to_value_kind (value : Z) : icalvalue_kind := value_kind_of value_kind_map value.

Definition icalparameter_enum_to_string (e : Z) : err (option cstring) :=
  if negb (ICALPARAMETER_FIRST_ENUM <=? e) then badarg None
  else if negb (e <=? ICALPARAMETER_LAST_ENUM) then badarg None
  else ret (option_map snd (find (fun '(_, n, _) => e =? n) icalparameter_map)).

Definition icalparameter_string_to_enum (str : option cstring) : err Z :=
  match str with
  | None => badarg 0
  | Some s =>
      ret (match find (fun '(_, _, t) => strcaseeqb s t) icalparameter_map with
           | Some (_, e, _) => e
           | None => 0
           end)
  end.

(** ** Creation *)

(** [None] is the null pointer.  Both cases after the loop store the text. *)
Definition icalparameter_new_from_value_string (kind : icalparameter_kind) (val : option cstring)
  : err (option icalparameter) :=
  match val with
  | None => badarg None
  | Some v =>
      let param := icalparameter_new_impl kind in
      match find (fun '(k, _, t) => (kind =? k) && strcaseeqb v t) icalparameter_map with
      | Some (_, e, _) => ret (Some (Param kind None None None e))
      | None => ret (Some (icalparameter_set_xvalue v param))
      end
  end.

Definition icalparameter_new_from_string (tok : ical_unknown_token_handling) (str : option cstring)
  : err (option icalparameter) :=
  match str with
  | None => badarg None
  | Some s =>
      match split_at "=" s with
      | None => icalerror_set_errno ICAL_MALFORMEDDATA_ERROR ;;; ret None
      | Some (cpy, eq) =>
          let kind := icalparameter_string_to_kind tok (Some cpy) in
          if kind =? ICAL_NO_PARAMETER
          then icalerror_set_errno ICAL_MALFORMEDDATA_ERROR ;;; ret None
          else
            param <- icalparameter_new_from_value_string kind (Some eq) ;;
            ret (if (kind =? ICAL_X_PARAMETER) || (kind =? ICAL_IANA_PARAMETER)
                 then option_map (icalparameter_set_xname cpy) param else param)
      end
  end.

(** The generated accessor of the VALUE parameter; it clears the error number. *)
Definition icalparameter_get_value (p : icalparameter) : err Z :=
  icalerror_clear_errno ;;; ret (match pa_string p with Some _ => ICAL_VALUE_X | None => pa_data p end).

(** ** Writing *)

Definition between (lo hi : Z) (c : ascii) : bool := (lo <=? code c) && (code c <=? hi).

Definition icalparameter_is_safe_char (character : ascii) (quoted : bool) : bool :=
  if char_in character [" "; TAB; "!"]%char || between 128 248 character then true
  else if quoted && between 35 126 character then true
  else negb quoted && (between 35 43 character || between 45 57 character || between 60 126 character).

Definition DQUOTE : ascii := "034".

Definition encode_char (qm : bool) (c : ascii) : cstring :=
  if icalparameter_is_safe_char c qm then [c]
  else if Ascii.eqb c LF then $"^n"
  else if Ascii.eqb c "^" then $"^^"
  else if Ascii.eqb c DQUOTE then $"^'"
  else [" "%char].

(** Empty values and values with one of [;:,] are put in quotes. *)
Definition needs_quotes (value : cstring) : bool :=
  match value with [] => true | _ => existsb (fun c => char_in c $";:,") value end.

Definition icalparameter_append_encoded_value (value : cstring) : cstring :=
  let qm := needs_quotes value in
  (if qm then [DQUOTE] else []) ++ flat_map (encode_char qm) value ++ (if qm then [DQUOTE] else []).

(** [icalmemory_append_string] of a string that may be null. *)
Definition append_string (buf : cstring) (s : option cstring) : err cstring :=
  match s with Some s => ret (buf ++ s) | None => badarg buf end.

(** The name and the equals sign; [None] for a kind without a name. *)
Definition parameter_name (p : icalparameter) : err (option cstring) :=
  if (pa_kind p =? ICAL_X_PARAMETER) || (pa_kind p =? ICAL_IANA_PARAMETER)
  then buf <- append_string [] (icalparameter_get_xname p) ;; ret (Some buf)
  else
    match icalparameter_kind_to_string (pa_kind p) with
    | Some kind_string =>
        if (pa_kind p =? ICAL_NO_PARAMETER) || (pa_kind p =? ICAL_ANY_PARAMETER)
        then badarg None else ret (Some kind_string)
    | None => badarg None
    end.

Definition icalparameter_as_ical_string_r (p : icalparameter) : err (option cstring) :=
  name <- parameter_name p ;;
  match name with
  | None => ret None
  | Some name =>
      let buf := name ++ $"=" in
      match pa_string p with
      | Some s => ret (Some (buf ++ icalparameter_append_encoded_value s))
      | None =>
          if truthy (pa_data p) then
            str <- icalparameter_enum_to_string (pa_data p) ;;
            buf <- append_string buf str ;; ret (Some buf)
          else icalerror_set_errno ICAL_MALFORMEDDATA_ERROR ;;; ret None
      end
  end.
End Parameters.

(** ** The decoder (icalparser.c) *)

Definition decode_escape (c : ascii) : option ascii :=
  if Ascii.eqb c "n" then Some LF
  else if Ascii.eqb c "^" then Some "^"%char
  else if Ascii.eqb c "'" then Some DQUOTE
  else None.

Fixpoint parser_decode_param_value (value : cstring) : cstring :=
  match value with
  | [] => []
  | c :: ((d :: r') as r) =>
      if Ascii.eqb c "^" then
        match decode_escape d with
        | Some e => e :: parser_decode_param_value r'
        | None => c :: parser_decode_param_value r
        end
      else c :: parser_decode_param_value r
  | [c] => [c]
  end.
