(* ===== verification/IcalProperty.v ===== *)
(** * Properties (icalproperty.c, icalderivedproperty.c.in)

    A property has a kind, its name when it is an X property, a list of
    parameters with an iterator, and a value.  The lists of pvl.c are sequences
    here, with the count that the handle keeps; an iterator is a place in the
    sequence, no place, or the place of an element that has been freed, through
    which nothing may be read.  The generated table of properties is the class
    [PropertyTables]. *)
From Stdlib Require Import String Ascii ZArith Lia Bool List.
From S2P Require Import Prelude CString IcalError IcalTime IcalValueText IcalValue IcalLine IcalParameter.
Import ListNotations.
#[local] Open Scope Z_scope.
#[local] Open Scope cstring_scope.
#[local] Open Scope err_scope.

(** ** Kinds *)

Definition ICAL_ANY_PROPERTY : icalproperty_kind := 0.
Definition ICAL_ATTACH_PROPERTY : icalproperty_kind := 4.
Definition ICAL_DTEND_PROPERTY : icalproperty_kind := 30.
Definition ICAL_DTSTART_PROPERTY : icalproperty_kind := 32.
Definition ICAL_DUE_PROPERTY : icalproperty_kind := 33.
Definition ICAL_DURATION_PROPERTY : icalproperty_kind := 34.
Definition ICAL_EXDATE_PROPERTY : icalproperty_kind := 35.
Definition ICAL_RDATE_PROPERTY : icalproperty_kind := 62.
Definition ICAL_RECURRENCEID_PROPERTY : icalproperty_kind := 66.
Definition ICAL_X_PROPERTY : icalproperty_kind := 90.
Definition ICAL_XLICERROR_PROPERTY : icalproperty_kind := 93.

(** One entry of [property_map]; [valid_values] without its sentinel. *)
Record icalproperty_map := PropRow {
  pm_kind : icalproperty_kind;
  pm_name : cstring;
  libical_value : icalvalue_kind;
  default_value : icalvalue_kind;
  valid_values : list icalvalue_kind;
  is_structured : bool;
  is_multivalued : bool
}.

(** Generated, with the entry of [ICAL_NO_PROPERTY] that ends the table. *)
Class PropertyTables := {
  property_map : list icalproperty_map;
  property_enum_map : list (icalproperty_kind * Z * cstring)
}.

#[export] Instance derived_tables `{PropertyTables} : DerivedTables := {|
  property_values := map (fun m => (pm_kind m, libical_value m)) property_map;
  enum_map := property_enum_map
|}.

(** ** Iterators *)

Inductive pvl_iter :=
| NoElem
| AtElem (i : nat)
| Freed.

(** The iterator after the element at [j] has been removed and freed. *)
Definition iter_removed (j : nat) (it : pvl_iter) : pvl_iter :=
  match it with
  | AtElem i => if Nat.eqb i j then Freed else if Nat.ltb j i then AtElem (pred i) else it
  | _ => it
  end.

Fixpoint remove_nth {A} (j : nat) (l : list A) : list A :=
  match l, j with
  | [], _ => []
  | _ :: r, O => r
  | x :: r, S j => x :: remove_nth j r
  end.

(** The first place from [i] on whose element satisfies the test. *)
Fixpoint search_from {A} (test : A -> bool) (l : list A) (i : nat) : option nat :=
  match l with
  | [] => None
  | x :: r => if test x then Some i else search_from test r (S i)
  end.

Definition find_at {A} (test : A -> bool) (l : list A) (i : nat) : option nat := search_from test (skipn i l) i.

(** What the loops of the form [for (it = start; it != 0; it = pvl_next (it))]
    return, and where they leave the iterator. *)
Definition iterate {A} (test : A -> bool) (l : list A) (start : nat) : option A * pvl_iter :=
  match find_at test l start with
  | Some i => (nth_error l i, AtElem i)
  | None => (None, NoElem)
  end.

(** ** Ordered insertion *)

(** The loop of [pvl_insert_ordered]; the comparison may fail. *)
Fixpoint insert_before_first {A} (f : A -> A -> err Z) (x : A) (l : list A) : err (list A) :=
  match l with
  | [] => undefined
  | y :: r =>
      c <- f y x ;;
      if 0 <=? c then ret (x :: y :: r)
      else r <- insert_before_first f x r ;; ret (y :: r)
  end.

(** [pvl_insert_ordered (l, f, x)]. *)
Definition insert_ordered {A} (f : A -> A -> err Z) (x : A) (l : list A) : err (list A) :=
  match l with
  | [] => ret [x]
  | y :: _ =>
      c <- f x y ;;
      if c <=? 0 then ret (x :: l)
      else
        c <- f x (last l y) ;;
        if 0 <=? c then ret (l ++ [x]) else insert_before_first f x l
  end.

(** ** Data *)

Section Properties.
Context `{PROPS : PropertyTables} `{PARAMS : ParameterTables} `{FLOAT : FloatOps}.

(** [pr_addr] is the address of the property, [pr_parent] that of its
    component; [pr_count] is the count of the list of parameters. *)
Record icalproperty := Property {
  pr_addr : positive;
  pr_kind : icalproperty_kind;
  pr_x_name : option cstring;
  pr_parameters : list icalparameter;
  pr_count : Z;
  parameter_iterator : pvl_iter;
  pr_value : option icalvalue;
  pr_parent : option positive
}.

Definition set_parameters (ps : list icalparameter) (n : Z) (it : pvl_iter) (p : icalproperty) : icalproperty :=
  Property (pr_addr p) (pr_kind p) (pr_x_name p) ps n it (pr_value p) (pr_parent p).
Definition set_iterator (it : pvl_iter) (p : icalproperty) : icalproperty :=
  set_parameters (pr_parameters p) (pr_count p) it p.
Definition with_value (v : option icalvalue) (p : icalproperty) : icalproperty :=
  Property (pr_addr p) (pr_kind p) (pr_x_name p) (pr_parameters p) (pr_count p) (parameter_iterator p) v (pr_parent p).

Definition icalproperty_set_parent (c : option positive) (p : icalproperty) : icalproperty :=
  Property (pr_addr p) (pr_kind p) (pr_x_name p) (pr_parameters p) (pr_count p) (parameter_iterator p) (pr_value p) c.
Definition icalproperty_get_parent (p : icalproperty) : option positive := pr_parent p.
Definition icalproperty_set_x_name (name : cstring) (p : icalproperty) : icalproperty :=
  Property (pr_addr p) (pr_kind p) (Some name) (pr_parameters p) (pr_count p) (parameter_iterator p) (pr_value p) (pr_parent p).
Definition icalproperty_get_x_name (p : icalproperty) : option cstring := pr_x_name p.
Definition icalproperty_get_value (p : icalproperty) : option icalvalue := pr_value p.
Definition icalproperty_count_parameters (p : icalproperty) : Z := pr_count p.

(** ** The table of properties *)

Definition row_of (kind : icalproperty_kind) : option icalproperty_map :=
  find (fun m => pm_kind m =? kind) property_map.

Definition icalproperty_kind_is_valid (kind : icalproperty_kind) : bool :=
  if kind =? ICAL_ANY_PROPERTY then false else existsb (fun m => pm_kind m =? kind) property_map.

Definition icalproperty_kind_to_string (kind : icalproperty_kind) : option cstring :=
  option_map pm_name (row_of kind).

Definition icalproperty_string_to_kind (string : option cstring) : icalproperty_kind :=
  match string with
  | None => ICAL_NO_PROPERTY
  | Some s =>
      match find (fun m => strcaseeqb (pm_name m) s) property_map with
      | Some m => pm_kind m
      | None => if starts_with $"X-" s then ICAL_X_PROPERTY else ICAL_NO_PROPERTY
      end
  end.

Definition icalproperty_kind_to_value_kind (kind : icalproperty_kind) : icalvalue_kind :=
  match row_of kind with
  | Some m => if negb (kind_eqb (default_value m) ICAL_NO_VALUE) then default_value m
              else nth 0 (valid_values m) ICAL_NO_VALUE
  | None => ICAL_NO_VALUE
  end.

Definition icalproperty_value_kind_is_valid (pkind : icalproperty_kind) (vkind : icalvalue_kind) : bool :=
  if kind_eqb vkind ICAL_NO_VALUE then false
  else if pkind =? ICAL_X_PROPERTY then true
  else match row_of pkind with
       | Some m => existsb (fun v => kind_eqb v vkind) (valid_values m)
       | None => false
       end.

Definition list_value_kind (k : icalvalue_kind) : bool :=
  match k with
  | ICAL_DATE_VALUE | ICAL_DATETIME_VALUE | ICAL_DATETIMEDATE_VALUE | ICAL_DATETIMEPERIOD_VALUE
  | ICAL_DURATION_VALUE | ICAL_FLOAT_VALUE | ICAL_INTEGER_VALUE | ICAL_PERIOD_VALUE | ICAL_TEXT_VALUE
  | ICAL_X_VALUE => true
  | _ => false
  end.

(** The answer and [*vkind]. *)
Definition icalproperty_value_kind_is_multivalued (pkind : icalproperty_kind) (vkind : icalvalue_kind)
  : bool * icalvalue_kind :=
  match row_of pkind with
  | Some m =>
      let vkind := if is_structured m && kind_eqb vkind (default_value m) then libical_value m else vkind in
      (is_multivalued m && list_value_kind vkind, vkind)
  | None => (false, vkind)
  end.

Definition icalproperty_value_kind_is_default (pkind : icalproperty_kind) (vkind : icalvalue_kind) : bool :=
  match row_of pkind with
  | Some m => kind_eqb vkind (default_value m) || (is_structured m && kind_eqb vkind (libical_value m))
  | None => false
  end.

(** ** Creation *)

(** [None]: a kind that is not in the table.  [addr] is the new address. *)
Definition icalproperty_new_impl (addr : positive) (kind : icalproperty_kind) : option icalproperty :=
  if icalproperty_kind_is_valid kind
  then Some (Property addr kind None [] 0 NoElem None None) else None.

Definition icalproperty_new (addr : positive) (kind : icalproperty_kind) : option icalproperty :=
  if kind =? ICAL_NO_PROPERTY then None else icalproperty_new_impl addr kind.

(** ** Parameters *)

Definition icalproperty_add_parameter (parameter : icalparameter) (p : icalproperty) : icalproperty :=
  set_parameters (pr_parameters p ++ [parameter]) (pr_count p + 1) (parameter_iterator p) p.

(** [pvl_remove] of the element at [j]. *)
Definition remove_parameter_at (j : nat) (p : icalproperty) : icalproperty :=
  set_parameters (remove_nth j (pr_parameters p)) (pr_count p - 1) (iter_removed j (parameter_iterator p)) p.

Definition remove_first_parameter (test : icalparameter -> bool) (p : icalproperty) : icalproperty :=
  match search_from test (pr_parameters p) 0 with
  | Some j => remove_parameter_at j p
  | None => p
  end.

Definition icalproperty_remove_parameter_by_kind (kind : icalparameter_kind) (p : icalproperty) : icalproperty :=
  remove_first_parameter (fun q => icalparameter_isa q =? kind) p.

Definition parameter_kind_string (q : icalparameter) : option cstring :=
  if (icalparameter_isa q =? ICAL_X_PARAMETER) || (icalparameter_isa q =? ICAL_IANA_PARAMETER)
  then icalparameter_get_xname q else icalparameter_kind_to_string (icalparameter_isa q).

(** [strcmp] with a null name is undefined, where it is reached. *)
Definition icalproperty_remove_parameter_by_name (name : option cstring) (p : icalproperty) : err icalproperty :=
  match name with
  | Some name =>
      ret (remove_first_parameter
             (fun q => match parameter_kind_string q with Some k => streqb k name | None => false end) p)
  | None => if existsb (fun q => match parameter_kind_string q with Some _ => true | None => false end)
                    (pr_parameters p)
            then undefined else ret p
  end.

Fixpoint find_same_name (parameter : icalparameter) (l : list icalparameter) (i : nat) : err (option nat) :=
  match l with
  | [] => ret None
  | q :: r =>
      b <- icalparameter_has_same_name parameter q ;;
      if (b : bool) then ret (Some i) else find_same_name parameter r (S i)
  end.

Definition icalproperty_remove_parameter_by_ref (parameter : icalparameter) (p : icalproperty) : err icalproperty :=
  j <- find_same_name parameter (pr_parameters p) 0 ;;
  ret (match j with Some j => remove_parameter_at j p | None => p end).

Definition icalproperty_set_parameter (parameter : icalparameter) (p : icalproperty) : err icalproperty :=
  let kind := icalparameter_isa parameter in
  p <- (if (kind =? ICAL_X_PARAMETER) || (kind =? ICAL_IANA_PARAMETER)
        then icalproperty_remove_parameter_by_name (icalparameter_get_xname parameter) p
        else ret (icalproperty_remove_parameter_by_kind kind p)) ;;
  ret (icalproperty_add_parameter parameter p).

Definition icalproperty_set_parameter_from_string (tok : ical_unknown_token_handling) (name value : cstring)
  (p : icalproperty) : err icalproperty :=
  let kind := icalparameter_string_to_kind tok (Some name) in
  if kind =? ICAL_NO_PARAMETER then badarg p
  else
    param <- icalparameter_new_from_value_string kind (Some value) ;;
    match param with
    | None => badarg p
    | Some param =>
        icalproperty_set_parameter
          (if (kind =? ICAL_X_PARAMETER) || (kind =? ICAL_IANA_PARAMETER)
           then icalparameter_set_xname name param else param) p
    end.

Definition parameter_matches (kind : icalparameter_kind) (q : icalparameter) : bool :=
  (icalparameter_isa q =? kind) || (kind =? ICAL_ANY_PARAMETER).

Definition icalproperty_get_first_parameter (kind : icalparameter_kind) (p : icalproperty)
  : option icalparameter * icalproperty :=
  let '(r, it) := iterate (parameter_matches kind) (pr_parameters p) 0 in (r, set_iterator it p).

Definition icalproperty_get_next_parameter (kind : icalparameter_kind) (p : icalproperty)
  : err (option icalparameter * icalproperty) :=
  match parameter_iterator p with
  | NoElem => ret (None, p)
  | Freed => undefined
  | AtElem i => let '(r, it) := iterate (parameter_matches kind) (pr_parameters p) (S i) in ret (r, set_iterator it p)
  end.

(** ** Values *)

(** The error number is cleared by [icalparameter_get_value]. *)
Definition value_param_kind (q : icalparameter) : err icalvalue_kind :=
  v <- icalparameter_get_value q ;; ret (icalparameter_value_to_value_kind v).

(** A VALUE parameter that contradicts a date or a date-time is removed. *)
Definition icalproperty_set_value (value : option icalvalue) (p : icalproperty) : err icalproperty :=
  match value with
  | None => badarg p
  | Some v =>
      let p := with_value (Some (icalvalue_set_parent (Some (pr_kind p)) v)) p in
      let kind := icalvalue_isa v in
      if is_time_kind kind then
        let '(val_param, p) := icalproperty_get_first_parameter ICAL_VALUE_PARAMETER p in
        match val_param with
        | Some q =>
            k <- value_param_kind q ;;
            ret (if negb (kind_eqb k kind)
                 then icalproperty_remove_parameter_by_kind ICAL_VALUE_PARAMETER p else p)
        | None => ret p
        end
      else ret p
  end.

Definition value_isa (v : option icalvalue) : icalvalue_kind :=
  match v with Some v => icalvalue_isa v | None => ICAL_NO_VALUE end.

Definition icalproperty_set_value_from_string (addr : positive) (str type : cstring) (p : icalproperty)
  : err icalproperty :=
  let kind :=
    if streqb type $"NO" then
      match icalproperty_get_value p with
      | Some oval => icalvalue_isa oval
      | None => icalproperty_kind_to_value_kind (pr_kind p)
      end
    else icalvalue_string_to_kind (Some type) in
  if kind_eqb kind ICAL_NO_VALUE
  then icalerror_set_errno ICAL_MALFORMEDDATA_ERROR ;;; ret p
  else
    icalerror_clear_errno ;;;
    nval <- icalvalue_new_from_string addr kind str ;;
    match nval with
    | None =>
        e <- get_icalerrno ;;
        match e with ICAL_NO_ERROR => undefined | _ => ret p end
    | Some _ => icalproperty_set_value nval p
    end.

(** The generated [icalproperty_vanew_xlicerror] with an error type of the
    generated [icalparameter_new_xlicerrortype], which clears the error number
    when it starts and when it sets the value. *)
Definition ICAL_XLICERRORTYPE_COMPONENTPARSEERROR : Z := 21801.
Definition ICAL_XLICERRORTYPE_PROPERTYPARSEERROR : Z := 21802.
Definition ICAL_XLICERRORTYPE_PARAMETERNAMEPARSEERROR : Z := 21803.
Definition ICAL_XLICERRORTYPE_PARAMETERVALUEPARSEERROR : Z := 21804.
Definition ICAL_XLICERRORTYPE_VALUEPARSEERROR : Z := 21805.

Definition icalparameter_new_xlicerrortype (type : Z) : err icalparameter :=
  icalerror_clear_errno ;;; icalerror_clear_errno ;;;
  ret (Param ICAL_XLICERRORTYPE_PARAMETER None None None type).

(** The argument is evaluated before the call. *)
Definition icalproperty_vanew_xlicerror (addr : positive) (text : cstring) (type : Z) : err (option icalproperty) :=
  param <- icalparameter_new_xlicerrortype type ;;
  match icalproperty_new_impl addr ICAL_XLICERROR_PROPERTY with
  | Some p =>
      p <- icalproperty_set_value (Some (new_with ICAL_TEXT_VALUE (V_string text))) p ;;
      ret (Some (icalproperty_add_parameter param p))
  | None => badarg None
  end.

(** ** Writing *)

(** The kind the VALUE parameter has to name, if it is not the default. *)
Definition icalproperty_get_value_kind (p : icalproperty) : err (option cstring * icalproperty) :=
  let '(val_param, p) := icalproperty_get_first_parameter ICAL_VALUE_PARAMETER p in
  kind <- (match val_param with Some q => value_param_kind q | None => ret ICAL_NO_VALUE end) ;;
  kind <- (if kind_eqb kind ICAL_NO_VALUE then
             match icalproperty_get_value p with
             | Some v =>
                 if kind_eqb (icalvalue_isa v) ICAL_ATTACH_VALUE then
                   match v_data v with
                   | V_attach a => ret (if at_is_url a then ICAL_URI_VALUE else ICAL_BINARY_VALUE)
                   | V_zero => badarg ICAL_BINARY_VALUE
                   | _ => undefined
                   end
                 else ret (icalvalue_isa v)
             | None => ret ICAL_NO_VALUE
             end
           else ret kind) ;;
  ret (if negb (kind_eqb kind ICAL_NO_VALUE) && negb (icalproperty_value_kind_is_default (pr_kind p) kind)
       then icalvalue_kind_to_string kind else None, p).

Definition property_name (p : icalproperty) : option cstring :=
  match pr_x_name p with
  | Some x => if pr_kind p =? ICAL_X_PROPERTY then Some x else icalproperty_kind_to_string (pr_kind p)
  | None => icalproperty_kind_to_string (pr_kind p)
  end.

Definition icalproperty_get_property_name_r (p : icalproperty) : err (option cstring) :=
  match property_name p with
  | Some n => ret (Some n)
  | None => icalerror_set_errno ICAL_MALFORMEDDATA_ERROR ;;; ret None
  end.

(** One turn of the loop over the parameters. *)
Definition append_parameter (buf : cstring) (q : icalparameter) : err cstring :=
  kind_string <- icalparameter_as_ical_string_r q ;;
  ret (match kind_string with
       | Some s => if icalparameter_isa q =? ICAL_VALUE_PARAMETER then buf else buf ++ $";" ++ s
       | None => buf
       end).

Fixpoint append_parameters (fuel : nat) (param : option icalparameter) (p : icalproperty) (buf : cstring)
  : err (cstring * icalproperty) :=
  match fuel, param with
  | _, None => ret (buf, p)
  | O, _ => undefined
  | S k, Some q =>
      buf <- append_parameter buf q ;;
      r <- icalproperty_get_next_parameter ICAL_ANY_PARAMETER p ;;
      let '(param, p) := r in
      append_parameters k param p buf
  end.

Definition value_text (v : option icalvalue) : err cstring :=
  match v with
  | Some v => str <- icalvalue_as_ical_string_r v ;;
              ret (match str with Some s => s | None => $"ERROR: No Value" end)
  | None => ret $"ERROR: No Value"
  end.

(** The line before it is folded, without its end. *)
Definition property_line (p : icalproperty) : err (option cstring * icalproperty) :=
  match property_name p with
  | None => ret (None, p)
  | Some name =>
      r <- icalproperty_get_value_kind p ;;
      let '(kind_string, p) := r in
      let buf := match kind_string with Some k => name ++ $";VALUE=" ++ k | None => name end in
      let '(param, p) := icalproperty_get_first_parameter ICAL_ANY_PARAMETER p in
      r <- append_parameters (S (length (pr_parameters p))) param p buf ;;
      let '(buf, p) := r in
      text <- value_text (icalproperty_get_value p) ;;
      ret (Some (buf ++ $":" ++ text), p)
  end.

Definition icalproperty_as_ical_string_r (p : icalproperty) : err (option cstring * icalproperty) :=
  r <- property_line p ;;
  let '(line, p) := r in
  ret (option_map (fun l => fold_property_line (l ++ [CR; LF])) line, p).

Definition icalproperty_get_value_as_string_r (p : icalproperty) : err (option cstring) :=
  match pr_value p with Some v => icalvalue_as_ical_string_r v | None => badarg None end.

(** ** The text of one parameter *)

Definition named_parameter (kind : icalparameter_kind) (name : cstring) (q : icalparameter) : err bool :=
  if (kind =? ICAL_X_PARAMETER) || (kind =? ICAL_IANA_PARAMETER) then
    match icalparameter_get_xname q with Some n => ret (streqb n name) | None => undefined end
  else ret true.

Fixpoint first_named (fuel : nat) (kind : icalparameter_kind) (name : cstring) (param : option icalparameter)
  (p : icalproperty) : err (option icalparameter * icalproperty) :=
  match fuel, param with
  | _, None => ret (None, p)
  | O, _ => undefined
  | S k, Some q =>
      b <- named_parameter kind name q ;;
      if (b : bool) then ret (Some q, p)
      else
        r <- icalproperty_get_next_parameter kind p ;;
        let '(param, p) := r in first_named k kind name param p
  end.

(** The text up to the last [c], if there is one. *)
Fixpoint before_last (c : ascii) (s : cstring) : option cstring :=
  match s with
  | [] => None
  | d :: r => match before_last c r with
              | Some t => Some (d :: t)
              | None => if Ascii.eqb c d then Some [] else None
              end
  end.

Definition strip_quotes (pv : cstring) : err (option cstring) :=
  match split_at DQUOTE pv with
  | None => ret (Some pv)
  | Some (_, str) =>
      match before_last DQUOTE str with
      | Some s => ret (Some s)
      | None => icalerror_set_errno ICAL_INTERNAL_ERROR ;;; ret None
      end
  end.

Definition icalproperty_get_parameter_as_string_r (tok : ical_unknown_token_handling) (name : cstring)
  (p : icalproperty) : err (option cstring * icalproperty) :=
  let kind := icalparameter_string_to_kind tok (Some name) in
  if kind =? ICAL_NO_PARAMETER then ret (None, p)
  else
    let '(param, p) := icalproperty_get_first_parameter kind p in
    r <- first_named (S (length (pr_parameters p))) kind name param p ;;
    let '(param, p) := r in
    match param with
    | None => ret (None, p)
    | Some q =>
        str <- icalparameter_as_ical_string_r q ;;
        match str with
        | None => undefined
        | Some str =>
            match split_at "=" str with
            | None => icalerror_set_errno ICAL_INTERNAL_ERROR ;;; ret (None, p)
            | Some (_, pv) => s <- strip_quotes pv ;; ret (s, p)
            end
        end
    end.

(** ** Copies *)

Definition icalproperty_clone (addr : positive) (old : icalproperty) : err (option icalproperty) :=
  match icalproperty_new_impl addr (pr_kind old) with
  | None => badarg None
  | Some new =>
      v <- (match pr_value old with Some v => icalvalue_clone v | None => ret None end) ;;
      let params := map icalparameter_clone (pr_parameters old) in
      ret (Some (Property addr (pr_kind old) (pr_x_name old) params (Z.of_nat (length params)) NoElem v None))
  end.

(** ** Normal form *)

Definition ICAL_VALUE_DURATION : Z := 21604.
Definition ICAL_VALUE_URI : Z := 21610.
Definition ICAL_VALUE_DATETIME : Z := 21612.

(** The kinds of parameter that have a default and the default; the accessors
    of the others than RELATED and RSVP answer X when the value is a text. *)
Definition default_enum (prop_kind : icalproperty_kind) (kind : icalparameter_kind) : option Z :=
  if kind =? ICAL_VALUE_PARAMETER then
    if prop_kind =? ICAL_ATTACH_PROPERTY then Some ICAL_VALUE_URI
    else if existsb (Z.eqb prop_kind)
              [ICAL_DTEND_PROPERTY; ICAL_DUE_PROPERTY; ICAL_DTSTART_PROPERTY; ICAL_EXDATE_PROPERTY;
               ICAL_RDATE_PROPERTY; ICAL_RECURRENCEID_PROPERTY] then Some ICAL_VALUE_DATETIME
    else if prop_kind =? ICAL_DURATION_PROPERTY then Some ICAL_VALUE_DURATION
    else None
  else
    option_map snd (find (fun e => fst e =? kind)
      [(ICAL_CUTYPE_PARAMETER, 20101); (ICAL_ENCODING_PARAMETER, 20301); (ICAL_FBTYPE_PARAMETER, 20402);
       (ICAL_PARTSTAT_PARAMETER, 20601); (ICAL_RELATED_PARAMETER, 20801); (ICAL_RELTYPE_PARAMETER, 20901);
       (ICAL_ROLE_PARAMETER, 21102); (ICAL_RSVP_PARAMETER, 21202); (ICAL_SCHEDULEAGENT_PARAMETER, 21301)]).

(** The removal test of [icalproperty_normalize]; the accessor that is called
    clears the error number. *)
Definition has_default (prop_kind : icalproperty_kind) (q : icalparameter) : err bool :=
  match default_enum prop_kind (icalparameter_isa q) with
  | None => ret false
  | Some e =>
      icalerror_clear_errno ;;;
      ret ((pa_data q =? e) &&
           match pa_string q with
           | Some _ => (icalparameter_isa q =? ICAL_RELATED_PARAMETER) || (icalparameter_isa q =? ICAL_RSVP_PARAMETER)
           | None => true
           end)
  end.

(** [strcmp] of a null pointer is undefined. *)
Definition param_compare (a b : icalparameter) : err Z :=
  s <- icalparameter_as_ical_string_r a ;;
  t <- icalparameter_as_ical_string_r b ;;
  match s, t with Some s, Some t => ret (strcmp s t) | _, _ => undefined end.

(** The parameters are taken from the end of the list; each insertion adds two
    to the count. *)
Fixpoint normalize_loop (prop_kind : icalproperty_kind) (popped sorted : list icalparameter) (count : Z)
  : err (list icalparameter * Z) :=
  match popped with
  | [] => ret (sorted, count)
  | q :: r =>
      remove <- has_default prop_kind q ;;
      if (remove : bool) then normalize_loop prop_kind r sorted count
      else sorted <- insert_ordered param_compare q sorted ;; normalize_loop prop_kind r sorted (count + 2)
  end.

(** The iterator still points into the old list, which is freed. *)
Definition icalproperty_normalize (p : icalproperty) : err icalproperty :=
  r <- normalize_loop (pr_kind p) (rev (pr_parameters p)) [] 0 ;;
  let '(sorted_params, n) := r in
  ret (set_parameters sorted_params n
         (match parameter_iterator p with AtElem _ => Freed | it => it end) p).
End Properties.
