(* ===== verification/IcalComponent.v ===== *)
(** * Components (icalcomponent.c; the VTIMEZONE entries of icaltimezone.c)

    A component holds properties and components, each list with an iterator, and
    an array with one entry per VTIMEZONE.  A component owns what it holds, so
    the model is a tree of values; addresses serve to tell objects apart and to
    name parents.  Iterators are as in IcalProperty. *)
From Stdlib Require Import String Ascii ZArith Lia Bool List.
From S2P Require Import Prelude CString IcalError IcalTime IcalValueText IcalValue IcalLine IcalParameter IcalProperty.
Import ListNotations.
#[local] Open Scope Z_scope.
#[local] Open Scope cstring_scope.
#[local] Open Scope err_scope.

(** ** Kinds *)

Inductive icalcomponent_kind :=
| ICAL_NO_COMPONENT | ICAL_ANY_COMPONENT | ICAL_XROOT_COMPONENT | ICAL_XATTACH_COMPONENT
| ICAL_VEVENT_COMPONENT | ICAL_VTODO_COMPONENT | ICAL_VJOURNAL_COMPONENT | ICAL_VCALENDAR_COMPONENT
| ICAL_VAGENDA_COMPONENT | ICAL_VFREEBUSY_COMPONENT | ICAL_VALARM_COMPONENT | ICAL_XAUDIOALARM_COMPONENT
| ICAL_XDISPLAYALARM_COMPONENT | ICAL_XEMAILALARM_COMPONENT | ICAL_XPROCEDUREALARM_COMPONENT
| ICAL_VTIMEZONE_COMPONENT | ICAL_XSTANDARD_COMPONENT | ICAL_XDAYLIGHT_COMPONENT | ICAL_X_COMPONENT
| ICAL_VSCHEDULE_COMPONENT | ICAL_VQUERY_COMPONENT | ICAL_VREPLY_COMPONENT | ICAL_VCAR_COMPONENT
| ICAL_VCOMMAND_COMPONENT | ICAL_XLICINVALID_COMPONENT | ICAL_XLICMIMEPART_COMPONENT
| ICAL_VAVAILABILITY_COMPONENT | ICAL_XAVAILABLE_COMPONENT | ICAL_VPOLL_COMPONENT | ICAL_VVOTER_COMPONENT
| ICAL_XVOTE_COMPONENT | ICAL_VPATCH_COMPONENT | ICAL_XPATCH_COMPONENT.

Definition component_kind_dec (a b : icalcomponent_kind) : {a = b} + {a <> b}.
Proof. decide equality. Defined.
Definition ckind_eqb (a b : icalcomponent_kind) : bool := if component_kind_dec a b then true else false.

(** Without the entry of [ICAL_NO_COMPONENT] that ends the table. *)
Definition component_map : list (icalcomponent_kind * cstring) :=
  [(ICAL_VEVENT_COMPONENT, $"VEVENT"); (ICAL_VTODO_COMPONENT, $"VTODO"); (ICAL_VJOURNAL_COMPONENT, $"VJOURNAL");
   (ICAL_VCALENDAR_COMPONENT, $"VCALENDAR"); (ICAL_VAGENDA_COMPONENT, $"VAGENDA");
   (ICAL_VFREEBUSY_COMPONENT, $"VFREEBUSY"); (ICAL_VTIMEZONE_COMPONENT, $"VTIMEZONE");
   (ICAL_VALARM_COMPONENT, $"VALARM"); (ICAL_XSTANDARD_COMPONENT, $"STANDARD");
   (ICAL_XDAYLIGHT_COMPONENT, $"DAYLIGHT"); (ICAL_X_COMPONENT, $"X"); (ICAL_VSCHEDULE_COMPONENT, $"SCHEDULE");
   (ICAL_VCAR_COMPONENT, $"VCAR"); (ICAL_VCOMMAND_COMPONENT, $"VCOMMAND"); (ICAL_VQUERY_COMPONENT, $"VQUERY");
   (ICAL_VREPLY_COMPONENT, $"VREPLY"); (ICAL_XLICINVALID_COMPONENT, $"X-LIC-UNKNOWN");
   (ICAL_XLICMIMEPART_COMPONENT, $"X-LIC-MIME-PART"); (ICAL_ANY_COMPONENT, $"ANY");
   (ICAL_XROOT_COMPONENT, $"XROOT"); (ICAL_VAVAILABILITY_COMPONENT, $"VAVAILABILITY");
   (ICAL_XAVAILABLE_COMPONENT, $"AVAILABLE"); (ICAL_VPOLL_COMPONENT, $"VPOLL"); (ICAL_VVOTER_COMPONENT, $"VVOTER");
   (ICAL_XVOTE_COMPONENT, $"VOTE"); (ICAL_VPATCH_COMPONENT, $"VPATCH"); (ICAL_XPATCH_COMPONENT, $"PATCH")].

(** The loop tests the last entry too before it stops there. *)
Definition icalcomponent_kind_is_valid (kind : icalcomponent_kind) : bool :=
  existsb (fun e => ckind_eqb (fst e) kind) (component_map ++ [(ICAL_NO_COMPONENT, [])]).

Definition icalcomponent_kind_to_string (kind : icalcomponent_kind) : option cstring :=
  option_map snd (find (fun e => ckind_eqb (fst e) kind) component_map).

(** [strncasecmp (string, name, strlen (name)) == 0]. *)
Definition has_name (s name : cstring) : bool := strcaseeqb (firstn (length name) s) name.

Definition icalcomponent_string_to_kind (string : option cstring) : icalcomponent_kind :=
  match string with
  | None => ICAL_NO_COMPONENT
  | Some s => match find (fun e => has_name s (snd e)) component_map with
              | Some e => fst e
              | None => ICAL_NO_COMPONENT
              end
  end.

Definition ICAL_LOCATION_PROPERTY : icalproperty_kind := 43.
Definition ICAL_TZID_PROPERTY : icalproperty_kind := 82.
Definition ICAL_TZNAME_PROPERTY : icalproperty_kind := 83.

(** ** Data *)

(** The members of an [icaltimezone] that are taken from a VTIMEZONE. *)
Record zone_entry := Zone {
  tz_tzid : cstring;
  tz_location : option cstring;
  tz_tznames : option cstring;
  tz_component : positive
}.

Section Components.
Context `{PROPS : PropertyTables} `{PARAMS : ParameterTables} `{FLOAT : FloatOps} `{TZ : TimezoneConv}.

(** [timezones] is [None] until the array is created. *)
Inductive icalcomponent := Component {
  co_addr : positive;
  co_kind : icalcomponent_kind;
  co_x_name : option cstring;
  co_properties : list icalproperty;
  property_iterator : pvl_iter;
  co_components : list icalcomponent;
  component_iterator : pvl_iter;
  co_parent : option positive;
  timezones : option (list zone_entry);
  timezones_sorted : bool
}.

Definition with_properties (ps : list icalproperty) (it : pvl_iter) (c : icalcomponent) : icalcomponent :=
  Component (co_addr c) (co_kind c) (co_x_name c) ps it (co_components c) (component_iterator c) (co_parent c)
    (timezones c) (timezones_sorted c).
Definition with_components (cs : list icalcomponent) (it : pvl_iter) (c : icalcomponent) : icalcomponent :=
  Component (co_addr c) (co_kind c) (co_x_name c) (co_properties c) (property_iterator c) cs it (co_parent c)
    (timezones c) (timezones_sorted c).
Definition with_timezones (tz : option (list zone_entry)) (sorted : bool) (c : icalcomponent) : icalcomponent :=
  Component (co_addr c) (co_kind c) (co_x_name c) (co_properties c) (property_iterator c) (co_components c)
    (component_iterator c) (co_parent c) tz sorted.
Definition icalcomponent_set_parent (p : option positive) (c : icalcomponent) : icalcomponent :=
  Component (co_addr c) (co_kind c) (co_x_name c) (co_properties c) (property_iterator c) (co_components c)
    (component_iterator c) p (timezones c) (timezones_sorted c).
Definition icalcomponent_get_parent (c : icalcomponent) : option positive := co_parent c.
Definition icalcomponent_isa (c : icalcomponent) : icalcomponent_kind := co_kind c.

(** ** Creation *)

Definition icalcomponent_new_impl (addr : positive) (kind : icalcomponent_kind) : option icalcomponent :=
  if icalcomponent_kind_is_valid kind
  then Some (Component addr kind None [] NoElem [] NoElem None None true) else None.
Definition icalcomponent_new (addr : positive) (kind : icalcomponent_kind) := icalcomponent_new_impl addr kind.

Definition icalcomponent_new_x (addr : positive) (x_name : cstring) : option icalcomponent :=
  option_map (fun c => Component (co_addr c) (co_kind c) (Some x_name) [] NoElem [] NoElem None None true)
    (icalcomponent_new_impl addr ICAL_X_COMPONENT).

(** ** Properties *)

Definition icalcomponent_add_property (property : icalproperty) (c : icalcomponent) : icalcomponent :=
  with_properties (co_properties c ++ [icalproperty_set_parent (Some (co_addr c)) property]) (property_iterator c) c.

(** An iterator at the element that is removed moves on first. *)
Definition iter_moved_on (j len : nat) (it : pvl_iter) : pvl_iter :=
  match it with
  | AtElem i => if Nat.eqb i j then (if Nat.ltb j len then AtElem j else NoElem)
                else if Nat.ltb j i then AtElem (pred i) else it
  | _ => it
  end.

(** The loop visits the elements one after the other, [n] of them from [j] on. *)
Fixpoint unlink_loop {A} (n : nat) (same : A -> bool) (l : list A) (j : nat) (it : pvl_iter) : list A * pvl_iter :=
  match n with
  | O => (l, it)
  | S n =>
      match nth_error l j with
      | Some x =>
          if same x then
            let l := remove_nth j l in unlink_loop n same l j (iter_moved_on j (length l) it)
          else unlink_loop n same l (S j) it
      | None => (l, it)
      end
  end.

Definition is_property (a : positive) (p : icalproperty) : bool := Pos.eqb (pr_addr p) a.

(** The property, now without a parent, if it was in the component.  A property
    without a parent is left where it is. *)
Definition icalcomponent_remove_property (a : positive) (c : icalcomponent) : option icalproperty * icalcomponent :=
  match find (is_property a) (co_properties c) with
  | Some p =>
      match icalproperty_get_parent p with
      | None => (None, c)
      | Some _ =>
          let '(ps, it) := unlink_loop (length (co_properties c)) (is_property a) (co_properties c) 0 (property_iterator c) in
          (Some (icalproperty_set_parent None p), with_properties ps it c)
      end
  | None => (None, c)
  end.

Definition property_matches (kind : icalproperty_kind) (p : icalproperty) : bool :=
  (pr_kind p =? kind) || (kind =? ICAL_ANY_PROPERTY).

Definition icalcomponent_count_properties (kind : icalproperty_kind) (c : icalcomponent) : Z :=
  Z.of_nat (length (filter (property_matches kind) (co_properties c))).

(** Reading through an iterator. *)
Definition element_at {A} (it : pvl_iter) (l : list A) : err (option A) :=
  match it with NoElem => ret None | AtElem i => ret (nth_error l i) | Freed => undefined end.

Definition icalcomponent_get_current_property (c : icalcomponent) : err (option icalproperty) :=
  element_at (property_iterator c) (co_properties c).

Definition icalcomponent_get_first_property (kind : icalproperty_kind) (c : icalcomponent)
  : option icalproperty * icalcomponent :=
  let '(r, it) := iterate (property_matches kind) (co_properties c) 0 in (r, with_properties (co_properties c) it c).

Definition icalcomponent_get_next_property (kind : icalproperty_kind) (c : icalcomponent)
  : err (option icalproperty * icalcomponent) :=
  match property_iterator c with
  | NoElem => ret (None, c)
  | Freed => undefined
  | AtElem i =>
      let '(r, it) := iterate (property_matches kind) (co_properties c) (S i) in
      ret (r, with_properties (co_properties c) it c)
  end.

(** ** Entries of the array of time zones (icaltimezone.c) *)

(** The generated accessor of a text; a union member that was not written is
    undefined. *)
Definition icalvalue_get_text (v : option icalvalue) : err (option cstring) :=
  match v with
  | None => badarg None
  | Some v => match v_data v with V_string s => ret (Some s) | V_zero => ret None | _ => undefined end
  end.

Definition icalvalue_get_x (v : option icalvalue) : err (option cstring) :=
  match v with None => badarg None | Some v => ret (v_x v) end.

Fixpoint x_location (fuel : nat) (prop : option icalproperty) (c : icalcomponent)
  : err (option cstring * icalcomponent) :=
  match fuel, prop with
  | _, None => ret (None, c)
  | O, _ => undefined
  | S k, Some p =>
      location <- (match icalproperty_get_x_name p with
                   | Some name => if strcaseeqb name $"X-LIC-LOCATION" then icalvalue_get_x (pr_value p) else ret None
                   | None => ret None
                   end) ;;
      match location with
      | Some l => ret (Some l, c)
      | None =>
          r <- icalcomponent_get_next_property ICAL_X_PROPERTY c ;;
          let '(prop, c) := r in x_location k prop c
      end
  end.

Definition icaltimezone_get_location_from_vtimezone (c : icalcomponent) : err (option cstring * icalcomponent) :=
  let '(prop, c) := icalcomponent_get_first_property ICAL_LOCATION_PROPERTY c in
  location <- (match prop with Some p => icalvalue_get_text (pr_value p) | None => ret None end) ;;
  match location with
  | Some l => ret (Some l, c)
  | None =>
      let '(prop, c) := icalcomponent_get_first_property ICAL_X_PROPERTY c in
      x_location (S (length (co_properties c))) prop c
  end.

Definition get_datetimedate (v : option icalvalue) : err icaltimetype :=
  match v with Some v => icalvalue_get_datetimedate v | None => badarg icaltime_null_time end.

Definition get_datetimeperiod_time (v : option icalvalue) : err icaltimetype :=
  match v with
  | Some v => tp <- icalvalue_get_datetimeperiod v ;; ret (fst tp)
  | None => badarg icaltime_null_time
  end.

(** The TZNAME and the largest DTSTART or RDATE of one STANDARD or DAYLIGHT. *)
Fixpoint observance_names (ps : list icalproperty) (current_tzname : option cstring) (current_max_date : icaltimetype)
  : err (option cstring * icaltimetype) :=
  match ps with
  | [] => ret (current_tzname, current_max_date)
  | p :: ps =>
      if pr_kind p =? ICAL_TZNAME_PROPERTY then
        n <- icalvalue_get_text (pr_value p) ;; observance_names ps n current_max_date
      else if pr_kind p =? ICAL_DTSTART_PROPERTY then
        t <- get_datetimedate (pr_value p) ;;
        observance_names ps current_tzname (if 0 <? icaltime_compare t current_max_date then t else current_max_date)
      else if pr_kind p =? ICAL_RDATE_PROPERTY then
        t <- get_datetimeperiod_time (pr_value p) ;;
        observance_names ps current_tzname (if 0 <? icaltime_compare t current_max_date then t else current_max_date)
      else observance_names ps current_tzname current_max_date
  end.

Definition is_observance (c : icalcomponent) : bool :=
  ckind_eqb (co_kind c) ICAL_XSTANDARD_COMPONENT || ckind_eqb (co_kind c) ICAL_XDAYLIGHT_COMPONENT.

(** The name and date kept for one of the two kinds. *)
Definition later_name (old : option (cstring * icaltimetype)) (name : cstring) (date : icaltimetype) :=
  match old with
  | Some (_, d) => if 0 <? icaltime_compare date d then Some (name, date) else old
  | None => Some (name, date)
  end.

Fixpoint zone_names (cs : list icalcomponent) (standard daylight : option (cstring * icaltimetype))
  : err (option cstring * option cstring) :=
  match cs with
  | [] => ret (option_map fst standard, option_map fst daylight)
  | c :: cs =>
      if is_observance c then
        r <- observance_names (co_properties c) None icaltime_null_time ;;
        let '(name, date) := r in
        match name with
        | Some name =>
            if ckind_eqb (co_kind c) ICAL_XSTANDARD_COMPONENT
            then zone_names cs (later_name standard name date) daylight
            else zone_names cs standard (later_name daylight name date)
        | None => zone_names cs standard daylight
        end
      else zone_names cs standard daylight
  end.

Definition join_names (standard_tzname daylight_tzname : option cstring) : option cstring :=
  match standard_tzname, daylight_tzname with
  | Some s, _ =>
      if streqb s $"Standard Time" then None
      else match daylight_tzname with
           | Some d => if streqb s d then Some s else Some (s ++ $"/" ++ d)
           | None => Some s
           end
  | None, d => d
  end.

(** The loops over the subcomponents and over their properties run to the end
    and leave the iterators at no element. *)
Definition end_iterators (c : icalcomponent) : icalcomponent :=
  with_components
    (map (fun s => if is_observance s then with_properties (co_properties s) NoElem s else s) (co_components c)) NoElem c.

Definition icaltimezone_get_tznames_from_vtimezone (c : icalcomponent) : err (option cstring * icalcomponent) :=
  names <- zone_names (co_components c) None None ;;
  ret (join_names (fst names) (snd names), end_iterators c).

Definition icaltimezone_get_vtimezone_properties (c : icalcomponent) : err (option zone_entry * icalcomponent) :=
  let '(prop, c) := icalcomponent_get_first_property ICAL_TZID_PROPERTY c in
  match prop with
  | None => ret (None, c)
  | Some p =>
      tzid <- icalvalue_get_text (pr_value p) ;;
      match tzid with
      | None => ret (None, c)
      | Some tzid =>
          r <- icaltimezone_get_location_from_vtimezone c ;;
          let '(location, c) := r in
          r <- icaltimezone_get_tznames_from_vtimezone c ;;
          let '(tznames, c) := r in
          ret (Some (Zone tzid location tznames (co_addr c)), c)
      end
  end.

(** The array and the child, whose iterators have moved. *)
Definition icaltimezone_array_append_from_vtimezone (tz : list zone_entry) (child : icalcomponent)
  : err (list zone_entry * icalcomponent) :=
  r <- icaltimezone_get_vtimezone_properties child ;;
  let '(zone, child) := r in
  ret (match zone with Some z => tz ++ [z] | None => tz end, child).

(** ** Components *)

Definition iter_unshifted (it : pvl_iter) : pvl_iter := match it with AtElem i => AtElem (S i) | it => it end.

(** The parent and the child, which the caller still points to. *)
Definition icalcomponent_add_component (parent child : icalcomponent) : err (icalcomponent * icalcomponent) :=
  (match co_parent child with Some _ => icalerror_set_errno ICAL_USAGE_ERROR | None => ret tt end) ;;;
  let child := icalcomponent_set_parent (Some (co_addr parent)) child in
  if negb (ckind_eqb (co_kind child) ICAL_VTIMEZONE_COMPONENT) then
    ret (with_components (co_components parent ++ [child]) (component_iterator parent) parent, child)
  else
    let tz := match timezones parent with Some l => l | None => [] end in
    r <- icaltimezone_array_append_from_vtimezone tz child ;;
    let '(tz, child) := r in
    ret (with_timezones (Some tz) false
           (with_components (child :: co_components parent) (iter_unshifted (component_iterator parent)) parent), child).

Definition is_component (a : positive) (c : icalcomponent) : bool := Pos.eqb (co_addr c) a.

Definition remove_zone (a : positive) (tz : list zone_entry) : list zone_entry :=
  match search_from (fun z => Pos.eqb (tz_component z) a) tz 0 with
  | Some i => remove_nth i tz
  | None => tz
  end.

(** [child] is the component that is removed, as it is in the list; the result
    is the child without a parent. *)
Definition icalcomponent_remove_component (child : icalcomponent) (parent : icalcomponent)
  : option icalcomponent * icalcomponent :=
  let a := co_addr child in
  let parent :=
    if ckind_eqb (co_kind child) ICAL_VTIMEZONE_COMPONENT
    then with_timezones (option_map (remove_zone a) (timezones parent)) (timezones_sorted parent) parent else parent in
  match search_from (is_component a) (co_components parent) 0 with
  | Some j =>
      let cs := remove_nth j (co_components parent) in
      (Some (icalcomponent_set_parent None child),
       with_components cs (iter_moved_on j (length cs) (component_iterator parent)) parent)
  | None => (None, parent)
  end.

Definition component_matches (kind : icalcomponent_kind) (c : icalcomponent) : bool :=
  ckind_eqb (co_kind c) kind || ckind_eqb kind ICAL_ANY_COMPONENT.

Definition icalcomponent_count_components (kind : icalcomponent_kind) (c : icalcomponent) : Z :=
  Z.of_nat (length (filter (component_matches kind) (co_components c))).

Definition icalcomponent_get_current_component (c : icalcomponent) : err (option icalcomponent) :=
  element_at (component_iterator c) (co_components c).

Definition icalcomponent_get_first_component (kind : icalcomponent_kind) (c : icalcomponent)
  : option icalcomponent * icalcomponent :=
  let '(r, it) := iterate (component_matches kind) (co_components c) 0 in (r, with_components (co_components c) it c).

Definition icalcomponent_get_next_component (kind : icalcomponent_kind) (c : icalcomponent)
  : err (option icalcomponent * icalcomponent) :=
  match component_iterator c with
  | NoElem => ret (None, c)
  | Freed => undefined
  | AtElem i =>
      let '(r, it) := iterate (component_matches kind) (co_components c) (S i) in
      ret (r, with_components (co_components c) it c)
  end.

Definition real_kind (k : icalcomponent_kind) : bool :=
  match k with
  | ICAL_VEVENT_COMPONENT | ICAL_VTODO_COMPONENT | ICAL_VJOURNAL_COMPONENT | ICAL_VFREEBUSY_COMPONENT
  | ICAL_VAVAILABILITY_COMPONENT | ICAL_VPOLL_COMPONENT | ICAL_VPATCH_COMPONENT | ICAL_VQUERY_COMPONENT
  | ICAL_VAGENDA_COMPONENT => true
  | _ => false
  end.

(** The loop over all components; it leaves the iterator at the result. *)
Definition icalcomponent_get_first_real_component (c : icalcomponent) : option icalcomponent * icalcomponent :=
  let '(r, it) := iterate (fun s => real_kind (co_kind s)) (co_components c) 0 in
  (r, with_components (co_components c) it c).

Definition icalcomponent_get_inner (c : icalcomponent) : option icalcomponent * icalcomponent :=
  if ckind_eqb (co_kind c) ICAL_VCALENDAR_COMPONENT then icalcomponent_get_first_real_component c else (Some c, c).

(** ** External iterators *)

(** The place in the list that the iterator was made for. *)
Record icalcompiter := CompIter {
  ci_kind : icalcomponent_kind;
  ci_iter : option nat
}.

Definition icalcompiter_null : icalcompiter := CompIter ICAL_NO_COMPONENT None.

Definition icalcomponent_begin_component (c : icalcomponent) (kind : icalcomponent_kind) : icalcompiter :=
  match search_from (component_matches kind) (co_components c) 0 with
  | Some i => CompIter kind (Some i)
  | None => icalcompiter_null
  end.

(** [pvl_next]. *)
Definition next_place {A} (l : list A) (i : nat) : option nat := if Nat.ltb (S i) (length l) then Some (S i) else None.

(** The last place before [n] whose element satisfies the test. *)
Fixpoint find_last {A} (test : A -> bool) (l : list A) (n : nat) : option nat :=
  match n with
  | O => None
  | S i => match nth_error l i with
           | Some x => if test x then Some i else find_last test l i
           | None => find_last test l i
           end
  end.

Definition icalcomponent_end_component (c : icalcomponent) (kind : icalcomponent_kind) : icalcompiter :=
  match find_last (component_matches kind) (co_components c) (length (co_components c)) with
  | Some i => CompIter kind (next_place (co_components c) i)
  | None => icalcompiter_null
  end.

Definition icalcompiter_deref (cs : list icalcomponent) (i : icalcompiter) : option icalcomponent :=
  let* k := ci_iter i in nth_error cs k.

Definition icalcompiter_next (cs : list icalcomponent) (i : icalcompiter) : option icalcomponent * icalcompiter :=
  match ci_iter i with
  | None => (None, i)
  | Some k => let i := CompIter (ci_kind i) (find_at (component_matches (ci_kind i)) cs (S k)) in (icalcompiter_deref cs i, i)
  end.

Definition icalcompiter_prior (cs : list icalcomponent) (i : icalcompiter) : option icalcomponent * icalcompiter :=
  match ci_iter i with
  | None => (None, i)
  | Some k => let i := CompIter (ci_kind i) (find_last (component_matches (ci_kind i)) cs k) in (icalcompiter_deref cs i, i)
  end.

(** ** Writing *)

(** The name of the component in its BEGIN line. *)
Definition begin_name (c : icalcomponent) : option cstring :=
  if negb (ckind_eqb (co_kind c) ICAL_X_COMPONENT) then icalcomponent_kind_to_string (co_kind c) else co_x_name c.

Fixpoint append_properties (ps : list icalproperty) (buf : cstring) : err (cstring * list icalproperty) :=
  match ps with
  | [] => ret (buf, [])
  | p :: ps =>
      r <- icalproperty_as_ical_string_r p ;;
      let '(tmp_buf, p) := r in
      buf <- append_string buf tmp_buf ;;
      r <- append_properties ps buf ;;
      let '(buf, ps) := r in ret (buf, p :: ps)
  end.

(** The text, and the component with the iterators of its properties moved. *)
Fixpoint icalcomponent_as_ical_string_r (c : icalcomponent) : err (option cstring * icalcomponent) :=
  if ckind_eqb (co_kind c) ICAL_NO_COMPONENT then badarg (None, c)
  else
    match begin_name c with
    | None => badarg (None, c)
    | Some kind_string =>
        let buf := $"BEGIN:" ++ kind_string ++ [CR; LF] in
        r <- append_properties (co_properties c) buf ;;
        let '(buf, ps) := r in
        r <- (fix append_components (cs : list icalcomponent) (buf : cstring) : err (cstring * list icalcomponent) :=
                match cs with
                | [] => ret (buf, [])
                | s :: cs =>
                    r <- icalcomponent_as_ical_string_r s ;;
                    let '(tmp_buf, s) := r in
                    buf <- append_string buf tmp_buf ;;
                    r <- append_components cs buf ;;
                    let '(buf, cs) := r in ret (buf, s :: cs)
                end) (co_components c) buf ;;
        let '(buf, cs) := r in
        buf <- append_string (buf ++ $"END:") (icalcomponent_kind_to_string (co_kind c)) ;;
        ret (Some (buf ++ [CR; LF]),
             with_components cs (component_iterator c) (with_properties ps (property_iterator c) c))
    end.

(** ** Copies *)

(** [next] is the first address that is not in use. *)
Fixpoint clone_properties (next : positive) (ps : list icalproperty) (new : icalcomponent)
  : err (icalcomponent * positive) :=
  match ps with
  | [] => ret (new, next)
  | p :: ps =>
      q <- icalproperty_clone next p ;;
      match q with
      | Some q => clone_properties (Pos.succ next) ps (icalcomponent_add_property q new)
      | None => icalerror_set_errno ICAL_BADARG_ERROR ;;; clone_properties next ps new
      end
  end.

Fixpoint icalcomponent_clone (next : positive) (old : icalcomponent) : err (option icalcomponent * positive) :=
  match icalcomponent_new_impl next (co_kind old) with
  | None => ret (None, next)
  | Some new =>
      r <- clone_properties (Pos.succ next) (co_properties old) new ;;
      let '(new, next) := r in
      r <- (fix clone_components (next : positive) (cs : list icalcomponent) (new : icalcomponent)
              : err (icalcomponent * positive) :=
              match cs with
              | [] => ret (new, next)
              | c :: cs =>
                  r <- icalcomponent_clone next c ;;
                  let '(child, next) := r in
                  match child with
                  | Some child =>
                      r <- icalcomponent_add_component new child ;; clone_components next cs (fst r)
                  | None => icalerror_set_errno ICAL_BADARG_ERROR ;;; clone_components next cs new
                  end
              end) next (co_components old) new ;;
      let '(new, next) := r in ret (Some new, next)
  end.

(** ** Errors found while parsing *)

Definition is_error (p : icalproperty) : bool := pr_kind p =? ICAL_XLICERROR_PROPERTY.

Fixpoint icalcomponent_count_errors (c : icalcomponent) : Z :=
  Z.of_nat (length (filter is_error (co_properties c)))
  + fold_right Z.add 0 (map icalcomponent_count_errors (co_components c)).

(** The cells of the list of properties are numbered; [itr] and [next_itr] point to
    cells, and [cells] are those that the list still has, in its order.  Removing a
    property frees its cells: using one of them is undefined.  A property without a
    parent is freed and stays in the list, which is undefined too. *)
Definition cells_left (a : positive) (cells : list nat) (ps : list icalproperty) : list nat :=
  map fst (filter (fun x => negb (is_property a (snd x))) (combine cells ps)).

Fixpoint cell_place (k : nat) (cells : list nat) : option nat :=
  match cells with
  | [] => None
  | c :: cells => if Nat.eqb c k then Some O else option_map S (cell_place k cells)
  end.

Fixpoint strip_loop (n : nat) (cells : list nat) (itr : option nat) (c : icalcomponent) : err icalcomponent :=
  match itr with
  | None => ret c
  | Some k =>
      match n, cell_place k cells with
      | S n, Some j =>
          match nth_error (co_properties c) j with
          | None => undefined
          | Some p =>
              let next_itr := nth_error cells (S j) in
              if is_error p then
                match icalcomponent_remove_property (pr_addr p) c with
                | (Some _, c') => strip_loop n (cells_left (pr_addr p) cells (co_properties c)) next_itr c'
                | (None, _) => undefined
                end
              else strip_loop n cells next_itr c
          end
      | _, _ => undefined
      end
  end.

(** The loop over all cells. *)
Definition strip_properties (c : icalcomponent) : err icalcomponent :=
  let cells := seq 0 (length (co_properties c)) in
  strip_loop (length cells) cells (hd_error cells) c.

Fixpoint icalcomponent_strip_errors (c : icalcomponent) : err icalcomponent :=
  s <- strip_properties c ;;
  cs <- (fix strip_components (cs : list icalcomponent) : err (list icalcomponent) :=
           match cs with
           | [] => ret []
           | c :: cs => c <- icalcomponent_strip_errors c ;; cs <- strip_components cs ;; ret (c :: cs)
           end) (co_components c) ;;
  ret (with_components cs (component_iterator s) s).
End Components.
