(* ===== verification/IcalParser.v ===== *)
(** * The parser (icalparser.c)

    Reads content lines and builds components: names, parameters and values are
    cut out of a line, BEGIN and END open and close components on a stack, and
    what cannot be read becomes an X-LIC-ERROR property of the component that is
    open.  Pointers into the line are positions.  The model is that of the
    default build: errors are not fatal and properties without a value are
    removed.  The line reader is in IcalLine. *)
From Stdlib Require Import String Ascii ZArith Lia Bool List.
From S2P Require Import Prelude CString IcalError IcalTime IcalValueText IcalValue IcalLine IcalParameter IcalProperty IcalComponent.
Import ListNotations.
#[local] Open Scope Z_scope.
#[local] Open Scope cstring_scope.
#[local] Open Scope err_scope.

(** ** Cutting a line *)

(** The place of the next [c] that is not the first character, not behind a
    backslash and, with [qm], not inside quotes. *)
Fixpoint next_char (c : ascii) (qm : bool) (prev_char : ascii) (quote_mode : bool) (s : cstring) (p : nat)
  : option nat :=
  match s with
  | [] => None
  | d :: s =>
      let plain := negb (Ascii.eqb prev_char NUL) && negb (Ascii.eqb prev_char BACKSLASH) in
      if plain && (qm && Ascii.eqb d DQUOTE) then next_char c qm d (negb quote_mode) s (S p)
      else if plain && (negb quote_mode && Ascii.eqb d c) then Some p
      else next_char c qm d quote_mode s (S p)
  end.

Definition parser_get_next_char (c : ascii) (str : cstring) (qm : bool) : option nat :=
  next_char c qm NUL false str 0.

(** The first [size] characters without the white space at their end. *)
Definition make_segment (start : cstring) (size : nat) : cstring := rtrim (firstn size start).

Definition strstriplt (buf : cstring) : cstring := skip_ws (rtrim buf).

Definition line_is_blank (line : cstring) : bool := forallb (fun c => char_in c [" "%char; LF; TAB]) line.

(** The name and the position behind the separator. *)
Definition parser_get_prop_name (line : cstring) : option (cstring * nat) :=
  let p := parser_get_next_char ";" line true in
  let v := parser_get_next_char ":" line true in
  let cut n := Some (make_segment line n, S n) in
  match p, v with
  | None, None => None
  | None, Some v => cut v
  | Some p, Some v => if Nat.ltb v p then cut v else cut p
  | Some p, None => cut p
  end.

(** The end of the value that starts at [next], and where it starts. *)
Definition param_value_range (rest : cstring) : option (cstring * nat) :=
  match rest with
  | c :: r =>
      if Ascii.eqb c DQUOTE then
        match r with
        | d :: _ => if Ascii.eqb d DQUOTE then Some (r, O)
                    else option_map (fun n => (r, n)) (parser_get_next_char DQUOTE r false)
        | [] => None
        end
      else Some (rest, length rest)
  | [] => Some (rest, O)
  end.

(** Both buffers have [TMP_BUF_SIZE] characters. *)
Definition parser_get_param_name_stack (line : cstring) : option (cstring * cstring) :=
  let* next := parser_get_next_char "=" line true in
  let* (v, n) := param_value_range (skipn (S next) line) in
  if Nat.leb (TMP_BUF_SIZE - 1) next || Nat.leb (TMP_BUF_SIZE - 1) n then None
  else Some (firstn next line, parser_decode_param_value (firstn n v)).

Definition parser_get_param_name_heap (line : cstring) : option (cstring * cstring) :=
  let* next := parser_get_next_char "=" line true in
  let* (v, n) := param_value_range (skipn (S next) line) in
  Some (make_segment line next, parser_decode_param_value (make_segment v n)).

(** The text, if any, and the position behind it. *)
Definition icalparser_get_value (line : cstring) (pos : nat) : option cstring * nat :=
  let rest := skipn pos line in
  match rest with
  | [] => (None, pos)
  | _ => (Some (make_segment rest (length rest)), (pos + length rest)%nat)
  end.

Definition quoted_whole (s : cstring) : bool :=
  match s with c :: _ => Ascii.eqb c DQUOTE && Ascii.eqb (last s NUL) DQUOTE | [] => false end.

(** The loop of [parser_get_next_value]: the place of the comma that ends the
    value, found from [p] on.  The result is [None] when a character before the
    start of the line would be read. *)
Fixpoint next_comma (fuel : nat) (kind : icalvalue_kind) (line : cstring) (pos p : nat) : option (option nat) :=
  match fuel with
  | O => None
  | S k =>
      let next := option_map (fun o => (p + o)%nat) (parser_get_next_char "," (skipn p line) true) in
      match next with
      | None => Some None
      | Some n =>
          let separates :=
            let* c1 := nth_error line (n - 1) in
            if Ascii.eqb c1 BACKSLASH then next_comma k kind line pos (S n)
            else if Nat.ltb n 3 then None
            else
              let* c3 := nth_error line (n - 3) in
              if Ascii.eqb c3 BACKSLASH then next_comma k kind line pos (S n) else Some (Some n) in
          match kind with
          | ICAL_RECUR_VALUE =>
              if Nat.ltb (n + 5) (pos + length (skipn pos line)) && starts_with $"FREQ" (skipn n line)
              then separates else next_comma k kind line pos (S n)
          | ICAL_QUERY_VALUE => next_comma k kind line pos (S n)
          | _ => separates
          end
      end
  end.

(** The text, if any, and the position behind it and its comma. *)
Definition parser_get_next_value (line : cstring) (pos : nat) (kind : icalvalue_kind)
  : option (option cstring * nat) :=
  let rest := skipn pos line in
  let* next := if quoted_whole rest then Some None else next_comma (S (length rest)) kind line pos pos in
  let '(next, fin) := match next with
                      | None => ((pos + length rest)%nat, (pos + length rest)%nat)
                      | Some n => (n, S n)
                      end in
  Some (if Nat.eqb next pos then None else Some (make_segment rest (next - pos)), fin).

(** The text up to the next separator and the position behind it. *)
Definition parser_get_next_parameter (line : cstring) (pos : nat) : option cstring * nat :=
  let rest := skipn pos line in
  let v := parser_get_next_char ":" rest true in
  let next := parser_get_next_char ";" rest true in
  let next := match next, v with Some n, Some c => if Nat.ltb c n then v else next | _, _ => v end in
  match next with
  | Some n => (Some (make_segment rest n), S (pos + n))
  | None => (None, pos)
  end.

(** The last colon from [pos] on: the search starts again at each one found. *)
Fixpoint last_colon (fuel : nat) (line : cstring) (pos : nat) (found : option nat) : option nat :=
  match fuel with
  | O => found
  | S k => match parser_get_next_char ":" (skipn pos line) true with
           | Some n => last_colon k line (pos + n) (Some (pos + n)%nat)
           | None => found
           end
  end.

(** ** The parser *)

Inductive icalparser_state :=
| ICALPARSER_ERROR | ICALPARSER_SUCCESS | ICALPARSER_BEGIN_COMP | ICALPARSER_END_COMP | ICALPARSER_IN_PROGRESS.

Definition MAXIMUM_ALLOWED_PARAMETERS : Z := 100.
Definition MAXIMUM_ALLOWED_MULTIPLE_VALUES : Z := 500.
Definition MAXIMUM_ALLOWED_ERRORS : Z := 100.

Section Parser.
Context `{PROPS : PropertyTables} `{PARAMS : ParameterTables} `{FLOAT : FloatOps} `{TZ : TimezoneConv}.
Variable tok : ical_unknown_token_handling.

(** [open_components] is the list [components], its tail first; [next_addr] is
    the next address that is not in use. *)
Record icalparser := Parser {
  root_component : option icalcomponent;
  level : Z;
  error_count : Z;
  state : icalparser_state;
  open_components : list icalcomponent;
  next_addr : positive
}.

Definition icalparser_new (next : positive) : icalparser := Parser None 0 0 ICALPARSER_SUCCESS [] next.

Definition set_root (r : option icalcomponent) (p : icalparser) : icalparser :=
  Parser r (level p) (error_count p) (state p) (open_components p) (next_addr p).
Definition set_level (n : Z) (p : icalparser) : icalparser :=
  Parser (root_component p) n (error_count p) (state p) (open_components p) (next_addr p).
Definition set_parser_state (s : icalparser_state) (p : icalparser) : icalparser :=
  Parser (root_component p) (level p) (error_count p) s (open_components p) (next_addr p).
Definition set_open (cs : list icalcomponent) (p : icalparser) : icalparser :=
  Parser (root_component p) (level p) (error_count p) (state p) cs (next_addr p).

Definition icalparser_get_state (p : icalparser) : icalparser_state := state p.

(** A new address. *)
Definition new_addr (p : icalparser) : positive * icalparser :=
  (next_addr p, Parser (root_component p) (level p) (error_count p) (state p) (open_components p) (Pos.succ (next_addr p))).

Definition one_more_error (p : icalparser) : icalparser :=
  Parser (root_component p) (level p) (error_count p + 1) (state p) (open_components p) (next_addr p).

(** An X-LIC-ERROR property for [comp], which is returned. *)
Definition insert_error (p : icalparser) (comp : icalcomponent) (text : option cstring) (message : cstring) (type : Z)
  : err (icalparser * icalcomponent) :=
  if MAXIMUM_ALLOWED_ERRORS <? error_count p then ret (p, comp)
  else
    let temp := snprintf (Z.to_nat 1024) (match text with
                                | None => message ++ $":"
                                | Some t => message ++ $": " ++ t
                                end) in
    let '(addr, p) := new_addr p in
    prop <- icalproperty_vanew_xlicerror addr temp type ;;
    match prop with
    | Some q => ret (one_more_error p, icalcomponent_add_property q comp)
    | None => icalerror_set_errno ICAL_BADARG_ERROR ;;; ret (one_more_error p, comp)
    end.

(** An error in the component that is open. *)
Definition insert_error_in_tail (p : icalparser) (text : option cstring) (message : cstring) (type : Z) : err icalparser :=
  match open_components p with
  | [] => undefined
  | tail :: rest =>
      r <- insert_error p tail text message type ;;
      let '(p, tail) := r in ret (set_open (tail :: rest) p)
  end.

(** What [f] does to the property at an address, in the component that is open. *)
Definition update_property (a : positive) (f : icalproperty -> err icalproperty) : list icalproperty -> err (list icalproperty) :=
  fix go ps := match ps with
               | [] => ret []
               | q :: ps => if is_property a q then q <- f q ;; ret (q :: ps) else ps <- go ps ;; ret (q :: ps)
               end.

Definition update_tail_property (a : positive) (f : icalproperty -> err icalproperty) (p : icalparser) : err icalparser :=
  match open_components p with
  | [] => undefined
  | tail :: rest =>
      ps <- update_property a f (co_properties tail) ;;
      ret (set_open (with_properties ps (property_iterator tail) tail :: rest) p)
  end.

Definition add_to_tail (q : icalproperty) (p : icalparser) : err icalparser :=
  match open_components p with
  | [] => undefined
  | tail :: rest => ret (set_open (icalcomponent_add_property q tail :: rest) p)
  end.

Definition remove_from_tail (a : positive) (p : icalparser) : err icalparser :=
  match open_components p with
  | [] => undefined
  | tail :: rest => ret (set_open (snd (icalcomponent_remove_property a tail) :: rest) p)
  end.

(** ** Components that were not closed *)

(** [icalparser_clean], for [n] components on the stack. *)
Fixpoint clean_loop (n : nat) (p : icalparser) : err icalparser :=
  match n, open_components p with
  | _, [] => ret p
  | O, _ => undefined
  | S n, tail :: rest =>
      r <- insert_error p tail (Some $" ")
             $"Missing END tag for this component. Closing component at end of input."
             ICAL_XLICERRORTYPE_COMPONENTPARSEERROR ;;
      let '(p, tail) := r in
      let p := set_open rest (set_root (Some tail) p) in
      match rest with
      | [] => clean_loop n p
      | tail2 :: rest2 =>
          match icalcomponent_get_parent tail with
          | Some _ => clean_loop n p
          | None =>
              r <- icalcomponent_add_component tail2 tail ;;
              clean_loop n (set_open (fst r :: rest2) (set_root (Some (snd r)) p))
          end
      end
  end.

Definition icalparser_clean (p : icalparser) : err (option icalcomponent * icalparser) :=
  p <- clean_loop (length (open_components p)) p ;; ret (root_component p, p).

(** ** BEGIN and END *)

(** [end] is behind the separator; a read before the line is undefined. *)
Definition component_name (line : cstring) (fin : nat) : err (option cstring) :=
  match parser_get_next_value line fin ICAL_NO_VALUE with
  | Some (str, _) => ret str
  | None => undefined
  end.

Definition begin_component (p : icalparser) (line : cstring) (fin : nat) : err icalparser :=
  let p := set_level (level p + 1) p in
  str <- component_name line fin ;;
  let comp_kind := icalcomponent_string_to_kind str in
  let '(addr, p) := new_addr p in
  r <- (match icalcomponent_new addr comp_kind with
        | Some c => ret (p, c)
        | None =>
            match icalcomponent_new addr ICAL_XLICINVALID_COMPONENT with
            | Some c => insert_error p c str $"Parse error in component name" ICAL_XLICERRORTYPE_COMPONENTPARSEERROR
            | None => undefined
            end
        end) ;;
  let '(p, c) := r in
  ret (set_parser_state ICALPARSER_BEGIN_COMP (set_open (c :: open_components p) p)).

(** [pvl_pop], and the component that is popped goes into the one below. *)
Definition close_component (p : icalparser) : err icalparser :=
  match open_components p with
  | [] => ret (set_root None p)
  | c :: rest =>
      let p := set_open rest (set_root (Some c) p) in
      match rest with
      | [] => ret p
      | tail :: rest =>
          r <- icalcomponent_add_component tail c ;;
          ret (set_open (fst r :: rest) (set_root (Some (snd r)) p))
      end
  end.

Definition end_component (p : icalparser) (line : cstring) (fin : nat) : err (option icalcomponent * icalparser) :=
  let p := set_level (level p - 1) p in
  _ <- component_name line fin ;;
  p <- close_component p ;;
  if level p <? 0 then ret (None, set_level 0 (set_parser_state ICALPARSER_ERROR p))
  else if level p =? 0 then
    p <- (match open_components p with
          | [] => ret p
          | cs =>
              match root_component p with
              | Some r => r <- icalparser_clean (set_open (r :: cs) p) ;; ret (snd r)
              | None => undefined
              end
          end) ;;
    match open_components p with
    | [] => ret (root_component p, set_root None (set_parser_state ICALPARSER_SUCCESS p))
    | _ => undefined
    end
  else ret (None, set_parser_state ICALPARSER_END_COMP p).

(** ** Parameters of a property *)

(** What the loop over the parameters keeps: the position, the number of
    parameters, the kind of value and the parser. *)
Record line_progress := Progress {
  lp_end : nat;
  lp_pcount : Z;
  lp_value_kind : icalvalue_kind;
  lp_parser : icalparser
}.

Definition char_is (line : cstring) (i : nat) (c : ascii) : bool :=
  match nth_error line i with Some d => Ascii.eqb d c | None => false end.

(** A TZID before the colon: the text is taken again up to the next semicolon or
    the last colon, if something follows it.  The result is the value of the
    parameter and the new position. *)
Definition read_tzid (line str : cstring) (fin : nat) (name : cstring) (on_heap : bool) (pvalue : cstring)
  : err (option cstring * nat) :=
  let nextSemicolon := option_map (fun n => (fin + n)%nat) (parser_get_next_char ";" (skipn fin line) true) in
  let lastColon := last_colon (S (length line)) line fin None in
  let lastColon := match lastColon, nextSemicolon with
                   | Some c, Some s => if Nat.ltb s c then nextSemicolon else lastColon
                   | _, _ => lastColon
                   end in
  rebuilt <- (match lastColon with
              | Some c =>
                  if Nat.ltb (S c) (length line) then
                    let strStart := (length name + 2)%nat in
                    if Nat.ltb c strStart then undefined
                    else ret (make_segment (skipn strStart line) (c - strStart), S c)
                  else ret (str, fin)
              | None => ret (str, fin)
              end) ;;
  let '(str, fin) := rebuilt in
  ret (match parser_get_param_name_stack str with
       | Some (_, v) => (Some (if on_heap then pvalue else v), fin)
       | None => (option_map snd (parser_get_param_name_heap str), fin)
       end).

(** The parameter that a name and a value denote: skipped ([None]), or created,
    if that does not fail, with the position behind it. *)
Definition make_parameter (line str : cstring) (fin : nat) (name : cstring) (on_heap : bool) (pvalue : cstring)
  : err (option (option icalparameter * nat)) :=
  let kind := icalparameter_string_to_kind tok (Some name) in
  let named := icalparameter_set_xvalue pvalue (icalparameter_set_xname name (icalparameter_new kind)) in
  if kind =? ICAL_X_PARAMETER then ret (Some (Some named, fin))
  else if kind =? ICAL_IANA_PARAMETER then
    match ical_get_unknown_token_handling_setting tok with
    | ICAL_DISCARD_TOKEN => ret None
    | _ => ret (Some (Some named, fin))
    end
  else if (kind =? ICAL_TZID_PARAMETER) && negb (char_is line (fin - 1) ";") then
    r <- read_tzid line str fin name on_heap pvalue ;;
    let '(v, fin) := r in
    param <- icalparameter_new_from_value_string kind v ;; ret (Some (param, fin))
  else if negb (kind =? ICAL_NO_PARAMETER) then
    param <- icalparameter_new_from_value_string kind (Some pvalue) ;; ret (Some (param, fin))
  else ret None.

(** The name, whether it is on the heap, and the value. *)
Definition split_parameter (str : cstring) : option (cstring * bool * cstring) :=
  match parser_get_param_name_stack str with
  | Some (n, v) => Some (n, false, v)
  | None => option_map (fun '(n, v) => (n, true, v)) (parser_get_param_name_heap str)
  end.

(** [%s]; a null pointer is written as the C library does. *)
Definition or_null (s : option cstring) : cstring := match s with Some s => s | None => $"(null)" end.

Definition invalid_value_message (prop_kind : icalproperty_kind) : cstring :=
  $"Invalid VALUE type for property " ++ or_null (icalproperty_kind_to_string prop_kind).

(** A parameter that was created becomes one of the property at [a]; VALUE sets
    the kind of the value. *)
Definition accept_parameter (prop_kind : icalproperty_kind) (a : positive) (str : cstring) (param : icalparameter)
  (fin : nat) (lp : line_progress) : err line_progress :=
  let add k :=
    p <- update_tail_property a (fun q => ret (icalproperty_add_parameter param q)) (lp_parser lp) ;;
    ret (Progress fin (lp_pcount lp + 1) k p) in
  if icalparameter_isa param =? ICAL_VALUE_PARAMETER then
    k <- value_param_kind param ;;
    if icalproperty_value_kind_is_valid prop_kind k then add k
    else
      p <- insert_error_in_tail (lp_parser lp) (Some str) (invalid_value_message prop_kind)
             ICAL_XLICERRORTYPE_PARAMETERVALUEPARSEERROR ;;
      ret (Progress fin (lp_pcount lp + 1) (icalproperty_kind_to_value_kind prop_kind)
             (set_parser_state ICALPARSER_ERROR p))
  else add (lp_value_kind lp).

Fixpoint read_parameters (fuel : nat) (prop_kind : icalproperty_kind) (a : positive) (line : cstring) (lp : line_progress)
  : err line_progress :=
  match fuel with
  | O => undefined
  | S k =>
      if negb (lp_pcount lp <? MAXIMUM_ALLOWED_PARAMETERS) then ret lp
      else if char_is line (lp_end lp - 1) ":" then ret lp
      else
        match parser_get_next_parameter line (lp_end lp) with
        | (None, fin) => ret (Progress fin (lp_pcount lp) (lp_value_kind lp) (lp_parser lp))
        | (Some str, fin) =>
            let str := strstriplt str in
            match split_parameter str with
            | None =>
                p <- insert_error_in_tail (lp_parser lp) (Some str) $"Cant parse parameter name"
                       ICAL_XLICERRORTYPE_PARAMETERNAMEPARSEERROR ;;
                ret (Progress fin (lp_pcount lp) (lp_value_kind lp) p)
            | Some (name, on_heap, pvalue) =>
                r <- make_parameter line str fin name on_heap pvalue ;;
                match r with
                | None => read_parameters k prop_kind a line (Progress fin (lp_pcount lp) (lp_value_kind lp) (lp_parser lp))
                | Some (None, fin) =>
                    p <- insert_error_in_tail (lp_parser lp) (Some str) $"Cant parse parameter value"
                           ICAL_XLICERRORTYPE_PARAMETERVALUEPARSEERROR ;;
                    read_parameters k prop_kind a line
                      (Progress fin (lp_pcount lp) (lp_value_kind lp) (set_parser_state ICALPARSER_ERROR p))
                | Some (Some param, fin) =>
                    lp <- accept_parameter prop_kind a str param fin lp ;;
                    read_parameters k prop_kind a line lp
                end
            end
        end
  end.

(** ** Values of a property *)

Definition cant_parse_message (value_kind : icalvalue_kind) (prop_kind : icalproperty_kind) : cstring :=
  snprintf (Z.to_nat 200) ($"Can't parse as " ++ or_null (icalvalue_kind_to_string value_kind) ++ $" value in "
    ++ or_null (icalproperty_kind_to_string prop_kind) ++ $" property. Removing entire property").

Definition no_value_message (prop_kind : icalproperty_kind) : cstring :=
  snprintf (Z.to_nat 200) ($"No value for " ++ or_null (icalproperty_kind_to_string prop_kind)
    ++ $" property. Removing entire property").

(** The property is taken out of the component again. *)
Definition drop_property (p : icalparser) (a : positive) (str : option cstring) (message : cstring) : err icalparser :=
  p <- insert_error_in_tail p str message ICAL_XLICERRORTYPE_VALUEPARSEERROR ;;
  p <- remove_from_tail a p ;;
  ret (set_parser_state ICALPARSER_ERROR p).

(** The property that gets the next value: from the second value on a copy. *)
Definition property_for_value (vcount : Z) (a : positive) (p : icalparser) : err (positive * icalparser) :=
  if vcount <=? 0 then ret (a, p)
  else
    match open_components p with
    | [] => undefined
    | tail :: _ =>
        match find (is_property a) (co_properties tail) with
        | None => undefined
        | Some prop =>
            let '(addr, p) := new_addr p in
            clone <- icalproperty_clone addr prop ;;
            match clone with
            | Some c => p <- add_to_tail c p ;; ret (addr, p)
            | None => undefined
            end
        end
    end.

(** The next value of the line, [*vkind] and the position behind it. *)
Definition next_value_text (prop_kind : icalproperty_kind) (value_kind : icalvalue_kind) (line : cstring) (fin : nat)
  : err (option cstring * icalvalue_kind * nat) :=
  let '(multi, value_kind) := icalproperty_value_kind_is_multivalued prop_kind value_kind in
  if multi then
    match parser_get_next_value line fin value_kind with
    | Some (str, fin) => ret (option_map strstriplt str, value_kind, fin)
    | None => undefined
    end
  else let '(str, fin) := icalparser_get_value line fin in ret (option_map strstriplt str, value_kind, fin).

(** The result says whether the property is complete. *)
Fixpoint read_values (fuel : nat) (prop_kind : icalproperty_kind) (a : positive) (line : cstring) (fin : nat)
  (value_kind : icalvalue_kind) (vcount : Z) (p : icalparser) : err (bool * icalparser) :=
  match fuel with
  | O => undefined
  | S k =>
      if negb (vcount <? MAXIMUM_ALLOWED_MULTIPLE_VALUES) then ret (true, p)
      else
        r <- next_value_text prop_kind value_kind line fin ;;
        let '(str, value_kind, fin) := r in
        match str with
        | Some str =>
            r <- property_for_value vcount a p ;;
            let '(a, p) := r in
            let '(addr, p) := new_addr p in
            value <- icalvalue_new_from_string addr value_kind str ;;
            match value with
            | None =>
                p <- drop_property p a (Some str) (cant_parse_message value_kind prop_kind) ;; ret (false, p)
            | Some _ =>
                p <- update_tail_property a (icalproperty_set_value value) p ;;
                read_values k prop_kind a line fin value_kind (vcount + 1) p
            end
        | None =>
            if vcount =? 0
            then p <- drop_property p a None (no_value_message prop_kind) ;; ret (false, p)
            else ret (true, p)
        end
  end.

(** ** Lines *)

Definition add_property_line (p : icalparser) (line str : cstring) (fin : nat) : err icalparser :=
  let prop_kind := icalproperty_string_to_kind (Some str) in
  let '(a, p) := new_addr p in
  match icalproperty_new a prop_kind with
  | None =>
      p <- insert_error_in_tail p (Some str) $"Parse error in property name" ICAL_XLICERRORTYPE_PROPERTYPARSEERROR ;;
      ret (set_parser_state ICALPARSER_ERROR p)
  | Some prop =>
      let prop := if prop_kind =? ICAL_X_PROPERTY then icalproperty_set_x_name str prop else prop in
      p <- add_to_tail prop p ;;
      lp <- read_parameters (S (length line)) prop_kind a line
              (Progress fin 0 (icalproperty_kind_to_value_kind prop_kind) p) ;;
      r <- read_values (S (length line)) prop_kind a line (lp_end lp) (lp_value_kind lp) 0 (lp_parser lp) ;;
      let '(complete, p) := r in
      ret (if (complete : bool) then set_parser_state ICALPARSER_IN_PROGRESS p else p)
  end.

(** A component is returned when the outermost one has been closed. *)
Definition icalparser_add_line (p : icalparser) (line : option cstring) : err (option icalcomponent * icalparser) :=
  match line with
  | None => ret (None, set_parser_state ICALPARSER_ERROR p)
  | Some line =>
      if line_is_blank line then ret (None, p)
      else
        match parser_get_prop_name line with
        | None | Some ([], _) =>
            p <- (match open_components p with
                  | [] => ret p
                  | _ => insert_error_in_tail p (Some line)
                           $"Got a data line, but could not find a property name or component begin tag"
                           ICAL_XLICERRORTYPE_COMPONENTPARSEERROR
                  end) ;;
            ret (None, set_parser_state ICALPARSER_ERROR p)
        | Some (str, fin) =>
            if strcaseeqb str $"BEGIN" then p <- begin_component p line fin ;; ret (None, p)
            else if strcaseeqb str $"END" then end_component p line fin
            else
              match open_components p with
              | [] => ret (None, set_parser_state ICALPARSER_ERROR p)
              | _ => p <- add_property_line p line str fin ;; ret (None, p)
              end
        end
  end.

(** ** A whole text *)

(** What becomes of a component that [icalparser_add_line] returns. *)
Definition collect_root (p : icalparser) (root : option icalcomponent) (c : icalcomponent)
  : err (option icalcomponent * icalparser) :=
  match root_component p, open_components p with
  | None, [] =>
      match root with
      | None => ret (Some c, p)
      | Some r =>
          if negb (ckind_eqb (co_kind r) ICAL_XROOT_COMPONENT) then
            let '(addr, p) := new_addr p in
            match icalcomponent_new addr ICAL_XROOT_COMPONENT with
            | Some tempc =>
                x <- icalcomponent_add_component tempc r ;;
                x <- icalcomponent_add_component (fst x) c ;;
                ret (Some (fst x), p)
            | None => undefined
            end
          else x <- icalcomponent_add_component r c ;; ret (Some (fst x), p)
      end
  | _, _ => undefined
  end.

Section Generator.
Context {G : Type}.
Variable line_gen_func : cstring -> G -> bool * cstring * G.

Fixpoint parse_loop (n fuel : nat) (ls : line_state) (g : G) (p : icalparser) (root : option icalcomponent)
  : err (option icalcomponent * icalparser * G) :=
  match n with
  | O => undefined
  | S n =>
      match icalparser_get_line line_gen_func fuel ls g with
      | None => undefined
      | Some (line, ls, g) =>
          r <- icalparser_add_line p line ;;
          let '(c, p) := r in
          r <- (match c with Some c => collect_root p root c | None => ret (root, p) end) ;;
          let '(root, p) := r in
          match line with
          | Some _ => parse_loop n fuel ls g p root
          | None => ret (root, p, g)
          end
      end
  end.

(** The component, the parser, and the data of the generator. *)
Definition icalparser_parse (n fuel : nat) (ls : line_state) (g : G) (p : icalparser)
  : err (option icalcomponent * icalparser * G) :=
  es <- icalerror_get_error_state ICAL_MALFORMEDDATA_ERROR ;;
  icalerror_set_error_state ICAL_MALFORMEDDATA_ERROR ICAL_ERROR_NONFATAL ;;;
  r <- parse_loop n fuel ls g p None ;;
  icalerror_set_error_state ICAL_MALFORMEDDATA_ERROR es ;;;
  ret r.
End Generator.

(** The parser is freed at the end; [next] is the first free address. *)
Definition icalparser_parse_string (next : positive) (str : cstring) : err (option icalcomponent) :=
  es <- icalerror_get_error_state ICAL_MALFORMEDDATA_ERROR ;;
  icalerror_set_error_state ICAL_MALFORMEDDATA_ERROR ICAL_ERROR_NONFATAL ;;;
  r <- icalparser_parse (icalparser_string_line_generator str) (length str + 2) (length str + 2)
         icalparser_new_lines None (icalparser_new next) ;;
  icalerror_set_error_state ICAL_MALFORMEDDATA_ERROR es ;;;
  ret (fst (fst r)).
End Parser.
