(* ===== verification/IcalDesignData.v ===== *)
(** * The tables of design-data

    What scripts/mkderivedproperties.pl, mkderivedvalues.pl and
    mkderivedparameters.pl generate from properties.csv, value-types.csv and
    parameters.csv: instances of the classes that stand for the generated tables,
    with which the theorems about parsing and printing are applied. *)
From Stdlib Require Import String Ascii ZArith Lia Bool List.
From S2P Require Import Prelude CString IcalValue IcalParameter IcalProperty.
Import ListNotations.
#[local] Open Scope Z_scope.
#[local] Open Scope cstring_scope.

(** ** Properties, by their numbers *)

Definition design_property_map : list icalproperty_map :=
  [PropRow 1 $"ACKNOWLEDGED" ICAL_DATETIME_VALUE ICAL_DATETIME_VALUE [ICAL_DATETIME_VALUE] false false;
   PropRow 2 $"ACTION" ICAL_ACTION_VALUE ICAL_ACTION_VALUE [ICAL_ACTION_VALUE] false false;
   PropRow 3 $"ALLOW-CONFLICT" ICAL_TEXT_VALUE ICAL_TEXT_VALUE [ICAL_TEXT_VALUE] false false;
   PropRow 4 $"ATTACH" ICAL_ATTACH_VALUE ICAL_URI_VALUE [ICAL_URI_VALUE; ICAL_BINARY_VALUE] true false;
   PropRow 5 $"ATTENDEE" ICAL_CALADDRESS_VALUE ICAL_CALADDRESS_VALUE [ICAL_CALADDRESS_VALUE] false false;
   PropRow 6 $"CALID" ICAL_TEXT_VALUE ICAL_TEXT_VALUE [ICAL_TEXT_VALUE] false false;
   PropRow 7 $"CALMASTER" ICAL_TEXT_VALUE ICAL_TEXT_VALUE [ICAL_TEXT_VALUE] false false;
   PropRow 8 $"CALSCALE" ICAL_TEXT_VALUE ICAL_TEXT_VALUE [ICAL_TEXT_VALUE] false false;
   PropRow 9 $"CAP-VERSION" ICAL_TEXT_VALUE ICAL_TEXT_VALUE [ICAL_TEXT_VALUE] false false;
   PropRow 10 $"CAR-LEVEL" ICAL_CARLEVEL_VALUE ICAL_CARLEVEL_VALUE [ICAL_CARLEVEL_VALUE] false false;
   PropRow 11 $"CARID" ICAL_TEXT_VALUE ICAL_TEXT_VALUE [ICAL_TEXT_VALUE] false false;
   PropRow 12 $"CATEGORIES" ICAL_TEXT_VALUE ICAL_TEXT_VALUE [ICAL_TEXT_VALUE] false true;
   PropRow 13 $"CLASS" ICAL_CLASS_VALUE ICAL_CLASS_VALUE [ICAL_CLASS_VALUE] false false;
   PropRow 14 $"CMD" ICAL_CMD_VALUE ICAL_CMD_VALUE [ICAL_CMD_VALUE] false false;
   PropRow 15 $"COMMENT" ICAL_TEXT_VALUE ICAL_TEXT_VALUE [ICAL_TEXT_VALUE] false false;
   PropRow 16 $"COMPLETED" ICAL_DATETIMEDATE_VALUE ICAL_DATETIME_VALUE [ICAL_DATETIME_VALUE; ICAL_DATE_VALUE] false false;
   PropRow 17 $"COMPONENTS" ICAL_TEXT_VALUE ICAL_TEXT_VALUE [ICAL_TEXT_VALUE] false false;
   PropRow 18 $"CONTACT" ICAL_TEXT_VALUE ICAL_TEXT_VALUE [ICAL_TEXT_VALUE] false false;
   PropRow 19 $"CREATED" ICAL_DATETIME_VALUE ICAL_DATETIME_VALUE [ICAL_DATETIME_VALUE] false false;
   PropRow 20 $"CSID" ICAL_URI_VALUE ICAL_URI_VALUE [ICAL_URI_VALUE] false false;
   PropRow 21 $"DATE-MAX" ICAL_DATETIME_VALUE ICAL_DATETIME_VALUE [ICAL_DATETIME_VALUE] false false;
   PropRow 22 $"DATE-MIN" ICAL_DATETIME_VALUE ICAL_DATETIME_VALUE [ICAL_DATETIME_VALUE] false false;
   PropRow 23 $"DECREED" ICAL_TEXT_VALUE ICAL_TEXT_VALUE [ICAL_TEXT_VALUE] false false;
   PropRow 24 $"DEFAULT-CHARSET" ICAL_TEXT_VALUE ICAL_TEXT_VALUE [ICAL_TEXT_VALUE] false false;
   PropRow 25 $"DEFAULT-LOCALE" ICAL_TEXT_VALUE ICAL_TEXT_VALUE [ICAL_TEXT_VALUE] false false;
   PropRow 26 $"DEFAULT-TZID" ICAL_TEXT_VALUE ICAL_TEXT_VALUE [ICAL_TEXT_VALUE] false false;
   PropRow 27 $"DEFAULT-VCARS" ICAL_TEXT_VALUE ICAL_TEXT_VALUE [ICAL_TEXT_VALUE] false false;
   PropRow 28 $"DENY" ICAL_TEXT_VALUE ICAL_TEXT_VALUE [ICAL_TEXT_VALUE] false false;
   PropRow 29 $"DESCRIPTION" ICAL_TEXT_VALUE ICAL_TEXT_VALUE [ICAL_TEXT_VALUE] false false;
   PropRow 30 $"DTEND" ICAL_DATETIMEDATE_VALUE ICAL_DATETIME_VALUE [ICAL_DATETIME_VALUE; ICAL_DATE_VALUE] false false;
   PropRow 31 $"DTSTAMP" ICAL_DATETIME_VALUE ICAL_DATETIME_VALUE [ICAL_DATETIME_VALUE] false false;
   PropRow 32 $"DTSTART" ICAL_DATETIMEDATE_VALUE ICAL_DATETIME_VALUE [ICAL_DATETIME_VALUE; ICAL_DATE_VALUE] false false;
   PropRow 33 $"DUE" ICAL_DATETIMEDATE_VALUE ICAL_DATETIME_VALUE [ICAL_DATETIME_VALUE; ICAL_DATE_VALUE] false false;
   PropRow 34 $"DURATION" ICAL_DURATION_VALUE ICAL_DURATION_VALUE [ICAL_DURATION_VALUE] false false;
   PropRow 35 $"EXDATE" ICAL_DATETIMEDATE_VALUE ICAL_DATETIME_VALUE [ICAL_DATETIME_VALUE; ICAL_DATE_VALUE] false true;
   PropRow 36 $"EXPAND" ICAL_INTEGER_VALUE ICAL_INTEGER_VALUE [ICAL_INTEGER_VALUE] false false;
   PropRow 37 $"EXRULE" ICAL_RECUR_VALUE ICAL_RECUR_VALUE [ICAL_RECUR_VALUE] false false;
   PropRow 38 $"FREEBUSY" ICAL_PERIOD_VALUE ICAL_PERIOD_VALUE [ICAL_PERIOD_VALUE] false true;
   PropRow 39 $"GEO" ICAL_GEO_VALUE ICAL_FLOAT_VALUE [ICAL_FLOAT_VALUE] true false;
   PropRow 40 $"GRANT" ICAL_TEXT_VALUE ICAL_TEXT_VALUE [ICAL_TEXT_VALUE] false false;
   PropRow 41 $"ITIP-VERSION" ICAL_TEXT_VALUE ICAL_TEXT_VALUE [ICAL_TEXT_VALUE] false false;
   PropRow 42 $"LAST-MODIFIED" ICAL_DATETIME_VALUE ICAL_DATETIME_VALUE [ICAL_DATETIME_VALUE] false false;
   PropRow 43 $"LOCATION" ICAL_TEXT_VALUE ICAL_TEXT_VALUE [ICAL_TEXT_VALUE] false false;
   PropRow 44 $"MAX-COMPONENT-SIZE" ICAL_INTEGER_VALUE ICAL_INTEGER_VALUE [ICAL_INTEGER_VALUE] false false;
   PropRow 45 $"MAXDATE" ICAL_DATETIME_VALUE ICAL_DATETIME_VALUE [ICAL_DATETIME_VALUE] false false;
   PropRow 46 $"MAXRESULTS" ICAL_INTEGER_VALUE ICAL_INTEGER_VALUE [ICAL_INTEGER_VALUE] false false;
   PropRow 47 $"MAXRESULTSSIZE" ICAL_INTEGER_VALUE ICAL_INTEGER_VALUE [ICAL_INTEGER_VALUE] false false;
   PropRow 48 $"METHOD" ICAL_METHOD_VALUE ICAL_METHOD_VALUE [ICAL_METHOD_VALUE] false false;
   PropRow 49 $"MINDATE" ICAL_DATETIME_VALUE ICAL_DATETIME_VALUE [ICAL_DATETIME_VALUE] false false;
   PropRow 50 $"MULTIPART" ICAL_TEXT_VALUE ICAL_TEXT_VALUE [ICAL_TEXT_VALUE] false false;
   PropRow 52 $"ORGANIZER" ICAL_CALADDRESS_VALUE ICAL_CALADDRESS_VALUE [ICAL_CALADDRESS_VALUE] false false;
   PropRow 53 $"OWNER" ICAL_TEXT_VALUE ICAL_TEXT_VALUE [ICAL_TEXT_VALUE] false false;
   PropRow 54 $"PERCENT-COMPLETE" ICAL_INTEGER_VALUE ICAL_INTEGER_VALUE [ICAL_INTEGER_VALUE] false false;
   PropRow 55 $"PERMISSION" ICAL_TEXT_VALUE ICAL_TEXT_VALUE [ICAL_TEXT_VALUE] false false;
   PropRow 56 $"PRIORITY" ICAL_INTEGER_VALUE ICAL_INTEGER_VALUE [ICAL_INTEGER_VALUE] false false;
   PropRow 57 $"PRODID" ICAL_TEXT_VALUE ICAL_TEXT_VALUE [ICAL_TEXT_VALUE] false false;
   PropRow 58 $"QUERY" ICAL_QUERY_VALUE ICAL_QUERY_VALUE [ICAL_QUERY_VALUE] false false;
   PropRow 59 $"QUERY-LEVEL" ICAL_QUERYLEVEL_VALUE ICAL_QUERYLEVEL_VALUE [ICAL_QUERYLEVEL_VALUE] false false;
   PropRow 60 $"QUERYID" ICAL_TEXT_VALUE ICAL_TEXT_VALUE [ICAL_TEXT_VALUE] false false;
   PropRow 61 $"QUERYNAME" ICAL_TEXT_VALUE ICAL_TEXT_VALUE [ICAL_TEXT_VALUE] false false;
   PropRow 62 $"RDATE" ICAL_DATETIMEPERIOD_VALUE ICAL_DATETIME_VALUE [ICAL_DATETIME_VALUE; ICAL_DATE_VALUE; ICAL_PERIOD_VALUE] false true;
   PropRow 63 $"RECUR-ACCEPTED" ICAL_TEXT_VALUE ICAL_TEXT_VALUE [ICAL_TEXT_VALUE] false false;
   PropRow 64 $"RECUR-EXPAND" ICAL_TEXT_VALUE ICAL_TEXT_VALUE [ICAL_TEXT_VALUE] false false;
   PropRow 65 $"RECUR-LIMIT" ICAL_TEXT_VALUE ICAL_TEXT_VALUE [ICAL_TEXT_VALUE] false false;
   PropRow 66 $"RECURRENCE-ID" ICAL_DATETIMEDATE_VALUE ICAL_DATETIME_VALUE [ICAL_DATETIME_VALUE; ICAL_DATE_VALUE] false false;
   PropRow 67 $"RELATED-TO" ICAL_TEXT_VALUE ICAL_TEXT_VALUE [ICAL_TEXT_VALUE] false false;
   PropRow 68 $"RELCALID" ICAL_TEXT_VALUE ICAL_TEXT_VALUE [ICAL_TEXT_VALUE] false false;
   PropRow 69 $"REPEAT" ICAL_INTEGER_VALUE ICAL_INTEGER_VALUE [ICAL_INTEGER_VALUE] false false;
   PropRow 70 $"REQUEST-STATUS" ICAL_REQUESTSTATUS_VALUE ICAL_REQUESTSTATUS_VALUE [ICAL_REQUESTSTATUS_VALUE] false false;
   PropRow 71 $"RESOURCES" ICAL_TEXT_VALUE ICAL_TEXT_VALUE [ICAL_TEXT_VALUE] false true;
   PropRow 72 $"RESTRICTION" ICAL_QUERY_VALUE ICAL_QUERY_VALUE [ICAL_QUERY_VALUE] false false;
   PropRow 73 $"RRULE" ICAL_RECUR_VALUE ICAL_RECUR_VALUE [ICAL_RECUR_VALUE] false false;
   PropRow 74 $"SCOPE" ICAL_TEXT_VALUE ICAL_TEXT_VALUE [ICAL_TEXT_VALUE] false false;
   PropRow 75 $"SEQUENCE" ICAL_INTEGER_VALUE ICAL_INTEGER_VALUE [ICAL_INTEGER_VALUE] false false;
   PropRow 76 $"STATUS" ICAL_STATUS_VALUE ICAL_STATUS_VALUE [ICAL_STATUS_VALUE] false false;
   PropRow 77 $"STORES-EXPANDED" ICAL_TEXT_VALUE ICAL_TEXT_VALUE [ICAL_TEXT_VALUE] false false;
   PropRow 78 $"SUMMARY" ICAL_TEXT_VALUE ICAL_TEXT_VALUE [ICAL_TEXT_VALUE] false false;
   PropRow 79 $"TARGET" ICAL_CALADDRESS_VALUE ICAL_CALADDRESS_VALUE [ICAL_CALADDRESS_VALUE] false false;
   PropRow 80 $"TRANSP" ICAL_TRANSP_VALUE ICAL_TRANSP_VALUE [ICAL_TRANSP_VALUE] false false;
   PropRow 81 $"TRIGGER" ICAL_TRIGGER_VALUE ICAL_DURATION_VALUE [ICAL_DURATION_VALUE; ICAL_DATETIME_VALUE] false false;
   PropRow 82 $"TZID" ICAL_TEXT_VALUE ICAL_TEXT_VALUE [ICAL_TEXT_VALUE] false false;
   PropRow 83 $"TZNAME" ICAL_TEXT_VALUE ICAL_TEXT_VALUE [ICAL_TEXT_VALUE] false false;
   PropRow 84 $"TZOFFSETFROM" ICAL_UTCOFFSET_VALUE ICAL_UTCOFFSET_VALUE [ICAL_UTCOFFSET_VALUE] false false;
   PropRow 85 $"TZOFFSETTO" ICAL_UTCOFFSET_VALUE ICAL_UTCOFFSET_VALUE [ICAL_UTCOFFSET_VALUE] false false;
   PropRow 86 $"TZURL" ICAL_URI_VALUE ICAL_URI_VALUE [ICAL_URI_VALUE] false false;
   PropRow 87 $"UID" ICAL_TEXT_VALUE ICAL_TEXT_VALUE [ICAL_TEXT_VALUE] false false;
   PropRow 88 $"URL" ICAL_URI_VALUE ICAL_URI_VALUE [ICAL_URI_VALUE] false false;
   PropRow 89 $"VERSION" ICAL_TEXT_VALUE ICAL_TEXT_VALUE [ICAL_TEXT_VALUE] false false;
   PropRow 90 $"X" ICAL_X_VALUE ICAL_X_VALUE [ICAL_X_VALUE] false true;
   PropRow 91 $"X-LIC-CLASS" ICAL_XLICCLASS_VALUE ICAL_XLICCLASS_VALUE [ICAL_XLICCLASS_VALUE] false false;
   PropRow 92 $"X-LIC-CLUSTERCOUNT" ICAL_STRING_VALUE ICAL_STRING_VALUE [ICAL_STRING_VALUE] false false;
   PropRow 93 $"X-LIC-ERROR" ICAL_TEXT_VALUE ICAL_TEXT_VALUE [ICAL_TEXT_VALUE] false false;
   PropRow 94 $"X-LIC-MIMECHARSET" ICAL_STRING_VALUE ICAL_STRING_VALUE [ICAL_STRING_VALUE] false false;
   PropRow 95 $"X-LIC-MIMECID" ICAL_STRING_VALUE ICAL_STRING_VALUE [ICAL_STRING_VALUE] false false;
   PropRow 96 $"X-LIC-MIMECONTENTTYPE" ICAL_STRING_VALUE ICAL_STRING_VALUE [ICAL_STRING_VALUE] false false;
   PropRow 97 $"X-LIC-MIMEENCODING" ICAL_STRING_VALUE ICAL_STRING_VALUE [ICAL_STRING_VALUE] false false;
   PropRow 98 $"X-LIC-MIMEFILENAME" ICAL_STRING_VALUE ICAL_STRING_VALUE [ICAL_STRING_VALUE] false false;
   PropRow 99 $"X-LIC-MIMEOPTINFO" ICAL_STRING_VALUE ICAL_STRING_VALUE [ICAL_STRING_VALUE] false false;
   PropRow 101 $"BUSYTYPE" ICAL_BUSYTYPE_VALUE ICAL_BUSYTYPE_VALUE [ICAL_BUSYTYPE_VALUE] false false;
   PropRow 102 $"ACCEPT-RESPONSE" ICAL_TEXT_VALUE ICAL_TEXT_VALUE [ICAL_TEXT_VALUE] false true;
   PropRow 103 $"POLL-ITEM-ID" ICAL_INTEGER_VALUE ICAL_INTEGER_VALUE [ICAL_INTEGER_VALUE] false false;
   PropRow 104 $"POLL-MODE" ICAL_POLLMODE_VALUE ICAL_POLLMODE_VALUE [ICAL_POLLMODE_VALUE] false false;
   PropRow 105 $"POLL-PROPERTIES" ICAL_TEXT_VALUE ICAL_TEXT_VALUE [ICAL_TEXT_VALUE] false true;
   PropRow 106 $"POLL-WINNER" ICAL_INTEGER_VALUE ICAL_INTEGER_VALUE [ICAL_INTEGER_VALUE] false false;
   PropRow 107 $"VOTER" ICAL_CALADDRESS_VALUE ICAL_CALADDRESS_VALUE [ICAL_CALADDRESS_VALUE] false false;
   PropRow 108 $"TZID-ALIAS-OF" ICAL_TEXT_VALUE ICAL_TEXT_VALUE [ICAL_TEXT_VALUE] false false;
   PropRow 109 $"TZUNTIL" ICAL_DATETIME_VALUE ICAL_DATETIME_VALUE [ICAL_DATETIME_VALUE] false false;
   PropRow 110 $"POLL-COMPLETION" ICAL_POLLCOMPLETION_VALUE ICAL_POLLCOMPLETION_VALUE [ICAL_POLLCOMPLETION_VALUE] false false;
   PropRow 111 $"REPLY-URL" ICAL_URI_VALUE ICAL_URI_VALUE [ICAL_URI_VALUE] false false;
   PropRow 112 $"RESPONSE" ICAL_INTEGER_VALUE ICAL_INTEGER_VALUE [ICAL_INTEGER_VALUE] false false;
   PropRow 113 $"ESTIMATED-DURATION" ICAL_DURATION_VALUE ICAL_DURATION_VALUE [ICAL_DURATION_VALUE] false false;
   PropRow 114 $"TASK-MODE" ICAL_TASKMODE_VALUE ICAL_TASKMODE_VALUE [ICAL_TASKMODE_VALUE] false false;
   PropRow 115 $"NAME" ICAL_TEXT_VALUE ICAL_TEXT_VALUE [ICAL_TEXT_VALUE] false false;
   PropRow 116 $"REFRESH-INTERVAL" ICAL_DURATION_VALUE ICAL_NO_VALUE [ICAL_DURATION_VALUE] false false;
   PropRow 117 $"SOURCE" ICAL_URI_VALUE ICAL_NO_VALUE [ICAL_URI_VALUE] false false;
   PropRow 118 $"COLOR" ICAL_TEXT_VALUE ICAL_TEXT_VALUE [ICAL_TEXT_VALUE] false false;
   PropRow 119 $"IMAGE" ICAL_ATTACH_VALUE ICAL_NO_VALUE [ICAL_URI_VALUE; ICAL_BINARY_VALUE] true false;
   PropRow 120 $"CONFERENCE" ICAL_URI_VALUE ICAL_NO_VALUE [ICAL_URI_VALUE] false false;
   PropRow 121 $"PATCH-VERSION" ICAL_TEXT_VALUE ICAL_TEXT_VALUE [ICAL_TEXT_VALUE] false false;
   PropRow 122 $"PATCH-ORDER" ICAL_INTEGER_VALUE ICAL_INTEGER_VALUE [ICAL_INTEGER_VALUE] false false;
   PropRow 123 $"PATCH-TARGET" ICAL_TEXT_VALUE ICAL_TEXT_VALUE [ICAL_TEXT_VALUE] false false;
   PropRow 124 $"PATCH-DELETE" ICAL_TEXT_VALUE ICAL_TEXT_VALUE [ICAL_TEXT_VALUE] false false;
   PropRow 125 $"PATCH-PARAMETER" ICAL_TEXT_VALUE ICAL_TEXT_VALUE [ICAL_TEXT_VALUE] false false;
   PropRow 100 [] ICAL_NO_VALUE ICAL_NO_VALUE [] false false].

(** ** Enumerated values, one hundred numbers for each kind *)

(** The number of an extended value, the values, and the number of no value in
    the places that are left. *)
Definition enum_block (prop : icalproperty_kind) (x : Z) (names : list cstring)
  : list (icalproperty_kind * Z * cstring) :=
  (prop, x, []) :: map (fun '(i, n) => (prop, x + 1 + Z.of_nat i, n)) (combine (seq 0 (length names)) names)
  ++ repeat (prop, x + 99, []) (99 - length names).

Definition design_enum_map : list (icalproperty_kind * Z * cstring) :=
  concat [enum_block 2 10000 [$"AUDIO"; $"DISPLAY"; $"EMAIL"; $"PROCEDURE"];
    enum_block 101 10100 [$"BUSY"; $"BUSY-UNAVAILABLE"; $"BUSY-TENTATIVE"];
    enum_block 10 10200 [$"CAR-NONE"; $"CAR-MIN"; $"CAR-FULL-1"];
    enum_block 13 10300 [$"PUBLIC"; $"PRIVATE"; $"CONFIDENTIAL"];
    enum_block 14 10400 [$"ABORT"; $"CONTINUE"; $"CREATE"; $"DELETE"; $"GENERATE-UID"; $"GET-CAPABILITY"; $"IDENTIFY"; $"MODIFY"; $"MOVE"; $"REPLY"; $"SEARCH"; $"SET-LOCALE"];
    enum_block 48 10500 [$"PUBLISH"; $"REQUEST"; $"REPLY"; $"ADD"; $"CANCEL"; $"REFRESH"; $"COUNTER"; $"DECLINECOUNTER"; $"CREATE"; $"READ"; $"RESPONSE"; $"MOVE"; $"MODIFY"; $"GENERATEUID"; $"DELETE"; $"POLLSTATUS"];
    enum_block 110 10600 [$"SERVER"; $"SERVER-SUBMIT"; $"SERVER-CHOICE"; $"CLIENT"];
    enum_block 104 10700 [$"BASIC"];
    enum_block 59 10800 [$"CAL-QL-1"; $"CAL-QL-NONE"];
    enum_block 76 10900 [$"TENTATIVE"; $"CONFIRMED"; $"COMPLETED"; $"NEEDS-ACTION"; $"CANCELLED"; $"IN-PROCESS"; $"DRAFT"; $"FINAL"; $"SUBMITTED"; $"PENDING"; $"FAILED"; $"DELETED"];
    enum_block 80 11000 [$"OPAQUE"; $"OPAQUE-NOCONFLICT"; $"TRANSPARENT"; $"TRANSPARENT-NOCONFLICT"];
    enum_block 91 11100 [$"PUBLISH-NEW"; $"PUBLISH-UPDATE"; $"PUBLISH-FREEBUSY"; $"REQUEST-NEW"; $"REQUEST-UPDATE"; $"REQUEST-RESCHEDULE"; $"REQUEST-DELEGATE"; $"REQUEST-NEW-ORGANIZER"; $"REQUEST-FORWARD"; $"REQUEST-STATUS"; $"REQUEST-FREEBUSY"; $"REPLY-ACCEPT"; $"REPLY-DECLINE"; $"REPLY-DELEGATE"; $"REPLY-CRASHER-ACCEPT"; $"REPLY-CRASHER-DECLINE"; $"ADD-INSTANCE"; $"CANCEL-EVENT"; $"CANCEL-INSTANCE"; $"CANCEL-ALL"; $"REFRESH"; $"COUNTER"; $"DECLINECOUNTER"; $"MALFORMED"; $"OBSOLETE"; $"MISSEQUENCED"; $"UNKNOWN"];
    enum_block 114 11200 [$"AUTOMATIC-COMPLETION"; $"AUTOMATIC-FAILURE"; $"AUTOMATIC-STATUS"]].

#[export] Instance design_properties : PropertyTables := {|
  property_map := design_property_map;
  property_enum_map := design_enum_map
|}.

(** ** Parameters, by their names *)

Definition design_parameter_map : list (icalparameter_kind * cstring) :=
  [(1, $"ACTIONPARAM");
   (2, $"ALTREP");
   (3, $"CHARSET");
   (4, $"CN");
   (5, $"CUTYPE");
   (6, $"DELEGATED-FROM");
   (7, $"DELEGATED-TO");
   (8, $"DIR");
   (46, $"DISPLAY");
   (50, $"EMAIL");
   (9, $"ENABLE");
   (10, $"ENCODING");
   (11, $"FBTYPE");
   (48, $"FEATURE");
   (42, $"FILENAME");
   (12, $"FMTTYPE");
   (33, $"IANA");
   (13, $"ID");
   (49, $"LABEL");
   (14, $"LANGUAGE");
   (15, $"LATENCY");
   (16, $"LOCAL");
   (17, $"LOCALIZE");
   (40, $"MANAGED-ID");
   (18, $"MEMBER");
   (44, $"MODIFIED");
   (19, $"OPTIONS");
   (20, $"PARTSTAT");
   (51, $"PATCH-ACTION");
   (37, $"PUBLIC-COMMENT");
   (21, $"RANGE");
   (43, $"REASON");
   (22, $"RELATED");
   (23, $"RELTYPE");
   (43, $"REQUIRED");
   (38, $"RESPONSE");
   (24, $"ROLE");
   (25, $"RSVP");
   (34, $"SCHEDULE-AGENT");
   (35, $"SCHEDULE-FORCE-SEND");
   (36, $"SCHEDULE-STATUS");
   (26, $"SENT-BY");
   (41, $"SIZE");
   (39, $"STAY-INFORMED");
   (45, $"SUBSTATE");
   (27, $"TZID");
   (28, $"VALUE");
   (29, $"X");
   (30, $"X-LIC-COMPARETYPE");
   (31, $"X-LIC-ERRORTYPE");
   (ICAL_NO_PARAMETER, [])].

Definition design_parameter_enums : list (icalparameter_kind * Z * cstring) :=
  [(ICAL_ANY_PARAMETER, 0, []);
   (1, 20001, $"ASK");
   (1, 20002, $"ABORT");
   (5, 20101, $"INDIVIDUAL");
   (5, 20102, $"GROUP");
   (5, 20103, $"RESOURCE");
   (5, 20104, $"ROOM");
   (5, 20105, $"UNKNOWN");
   (46, 22001, $"BADGE");
   (46, 22002, $"GRAPHIC");
   (46, 22003, $"FULLSIZE");
   (46, 22004, $"THUMBNAIL");
   (9, 20201, $"TRUE");
   (9, 20202, $"FALSE");
   (10, 20301, $"8BIT");
   (10, 20302, $"BASE64");
   (11, 20401, $"FREE");
   (11, 20402, $"BUSY");
   (11, 20403, $"BUSY-UNAVAILABLE");
   (11, 20404, $"BUSY-TENTATIVE");
   (48, 22101, $"AUDIO");
   (48, 22102, $"CHAT");
   (48, 22103, $"FEED");
   (48, 22104, $"MODERATOR");
   (48, 22105, $"PHONE");
   (48, 22106, $"SCREEN");
   (48, 22107, $"VIDEO");
   (16, 20501, $"TRUE");
   (16, 20502, $"FALSE");
   (20, 20601, $"NEEDS-ACTION");
   (20, 20602, $"ACCEPTED");
   (20, 20603, $"DECLINED");
   (20, 20604, $"TENTATIVE");
   (20, 20605, $"DELEGATED");
   (20, 20606, $"COMPLETED");
   (20, 20607, $"INPROCESS");
   (20, 20608, $"FAILED");
   (51, 22201, $"CREATE");
   (51, 22202, $"BYNAME");
   (51, 22203, $"BYVALUE");
   (51, 22204, $"BYPARAM");
   (21, 20701, $"THISANDPRIOR");
   (21, 20702, $"THISANDFUTURE");
   (22, 20801, $"START");
   (22, 20802, $"END");
   (23, 20901, $"PARENT");
   (23, 20902, $"CHILD");
   (23, 20903, $"SIBLING");
   (23, 20904, $"POLL");
   (43, 21001, $"TRUE");
   (43, 21002, $"FALSE");
   (24, 21101, $"CHAIR");
   (24, 21102, $"REQ-PARTICIPANT");
   (24, 21103, $"OPT-PARTICIPANT");
   (24, 21104, $"NON-PARTICIPANT");
   (25, 21201, $"TRUE");
   (25, 21202, $"FALSE");
   (34, 21301, $"SERVER");
   (34, 21302, $"CLIENT");
   (35, 21401, $"REQUEST");
   (35, 21402, $"REPLY");
   (39, 21501, $"TRUE");
   (39, 21502, $"FALSE");
   (45, 21901, $"OK");
   (45, 21902, $"ERROR");
   (45, 21903, $"SUSPENDED");
   (28, 21601, $"BINARY");
   (28, 21602, $"BOOLEAN");
   (28, 21603, $"DATE");
   (28, 21604, $"DURATION");
   (28, 21605, $"FLOAT");
   (28, 21606, $"INTEGER");
   (28, 21607, $"PERIOD");
   (28, 21608, $"RECUR");
   (28, 21609, $"TEXT");
   (28, 21610, $"URI");
   (28, 21611, $"ERROR");
   (28, 21612, $"DATE-TIME");
   (28, 21613, $"UTC-OFFSET");
   (28, 21614, $"CAL-ADDRESS");
   (30, 21701, $"EQUAL");
   (30, 21702, $"NOTEQUAL");
   (30, 21703, $"LESS");
   (30, 21704, $"GREATER");
   (30, 21705, $"LESSEQUAL");
   (30, 21706, $"GREATEREQUAL");
   (30, 21707, $"REGEX");
   (30, 21708, $"ISNULL");
   (30, 21709, $"ISNOTNULL");
   (31, 21801, $"COMPONENT-PARSE-ERROR");
   (31, 21802, $"PROPERTY-PARSE-ERROR");
   (31, 21803, $"PARAMETER-NAME-PARSE-ERROR");
   (31, 21804, $"PARAMETER-VALUE-PARSE-ERROR");
   (31, 21805, $"VALUE-PARSE-ERROR");
   (31, 21806, $"INVALID-ITIP");
   (31, 21807, $"UNKNOWN-VCAL-PROP-ERROR");
   (31, 21808, $"MIME-PARSE-ERROR");
   (31, 21809, $"VCAL-PROP-PARSE-ERROR");
   (ICAL_NO_PARAMETER, 0, [])].

Definition design_value_kinds : list (Z * icalvalue_kind) :=
  [(21601, ICAL_BINARY_VALUE);
   (21602, ICAL_BOOLEAN_VALUE);
   (21603, ICAL_DATE_VALUE);
   (21604, ICAL_DURATION_VALUE);
   (21605, ICAL_FLOAT_VALUE);
   (21606, ICAL_INTEGER_VALUE);
   (21607, ICAL_PERIOD_VALUE);
   (21608, ICAL_RECUR_VALUE);
   (21609, ICAL_TEXT_VALUE);
   (21610, ICAL_URI_VALUE);
   (21612, ICAL_DATETIME_VALUE);
   (21613, ICAL_UTCOFFSET_VALUE);
   (21614, ICAL_CALADDRESS_VALUE);
   (21600, ICAL_X_VALUE); (21699, ICAL_NO_VALUE)].

#[export] Instance design_parameters : ParameterTables := {|
  parameter_map := design_parameter_map;
  icalparameter_map := design_parameter_enums;
  value_kind_map := design_value_kinds;
  ICALPARAMETER_LAST_ENUM := 22300
|}.
