(* ===== verification/IcalValueSafe.v ===== *)
(** * Value readers never stop the process

    A small program logic for the monad [err]: [runs m Q] says that [m] returns,
    in every error state in which no error is fatal, a result that satisfies [Q],
    and leaves such a state.  With it, every value reader is shown to return on
    every text the parser passes to it, a value whose union member is the one of
    its kind. *)
From Stdlib Require Import String Ascii ZArith Lia Bool List.
From S2P Require Import Prelude CString IcalError IcalTime IcalDuration IcalPeriod IcalTypes IcalRecurType IcalRecurRule IcalValueText IcalValue.
Import ListNotations.
#[local] Open Scope Z_scope.
#[local] Open Scope cstring_scope.
#[local] Open Scope err_scope.

(** ** The logic *)

(** No error stops the process: none has the state FATAL and the switch is off;
    the keys of the table are distinct. *)
Definition quiet (st : error_state) : Prop :=
  icalerror_errors_are_fatal st = false /\ (forall e s, In (e, s) (error_state_map st) -> s <> ICAL_ERROR_FATAL) /\
  map_ok (error_state_map st).

Definition runs {A} (m : err A) (Q : A -> Prop) : Prop :=
  forall st, quiet st -> exists a st', m st = Some (a, st') /\ quiet st' /\ Q a.

Create HintDb runs.

Lemma get_state_quiet m e :
  (forall e s, In (e, s) m -> s <> ICAL_ERROR_FATAL) -> get_state m e <> ICAL_ERROR_FATAL.
Proof.
  induction m as [|[k s] r IH]; cbn [get_state]; intros H; [discriminate|].
  case_if; [discriminate|]. case_if.
  - apply (H k s). now left.
  - apply IH. intros e' s' Hin. apply (H e' s'). now right.
Qed.

Lemma quiet_nonfatal st e : quiet st -> nonfatal st e = true.
Proof.
  intros (Hf & Hm & _). unfold nonfatal. pose proof (get_state_quiet _ e Hm) as H.
  destruct (get_state (error_state_map st) e); [congruence | reflexivity | now rewrite Hf | reflexivity].
Qed.

Lemma quiet_with_errno st e : quiet st -> quiet (with_errno st e).
Proof. intros H. exact H. Qed.

Lemma set_state_in m e s e' s' :
  In (e', s') (set_state m e s) -> In (e', s') m \/ s' = s.
Proof.
  induction m as [|[k t] r IH]; cbn [set_state]; [now left|].
  case_if; [now left|]. intros [H|Hin].
  - injection H as <- <-. case_if; [now right | left; now left].
  - destruct (IH Hin) as [H|H]; [left; now right | now right].
Qed.

Lemma runs_ret {A} (a : A) (Q : A -> Prop) : Q a -> runs (ret a) Q.
Proof. intros H st Hst. exists a, st. auto. Qed.

Lemma runs_bind {A B} (m : err A) (k : A -> err B) (P : A -> Prop) (Q : B -> Prop) :
  runs m P -> (forall a, P a -> runs (k a) Q) -> runs (bind m k) Q.
Proof.
  intros Hm Hk st Hst. destruct (Hm st Hst) as (a & st1 & E & H1 & Ha).
  destruct (Hk a Ha st1 H1) as (b & st2 & E2 & H2 & Hb). exists b, st2. split; [|auto].
  unfold bind. now rewrite E.
Qed.

Lemma runs_bind_ret {A B} (a : A) (k : A -> err B) (Q : B -> Prop) : runs (k a) Q -> runs (bind (ret a) k) Q.
Proof. intros H. exact H. Qed.

Lemma runs_weaken {A} (m : err A) (P Q : A -> Prop) : runs m P -> (forall a, P a -> Q a) -> runs m Q.
Proof. intros Hm HPQ st Hst. destruct (Hm st Hst) as (a & st' & E & H & Ha). exists a, st'. auto. Qed.

(** A result, when there is one, satisfies [Q]. *)
Definition post {A} (m : err A) (Q : A -> Prop) : Prop := forall st x st', m st = Some (x, st') -> Q x.

Lemma post_ret {A} (x : A) Q : Q x -> post (ret x) Q.
Proof. intros H st y st' [= <- _]. exact H. Qed.

Lemma post_bind {A B} (m : err A) (k : A -> err B) P Q : post m P -> (forall x, P x -> post (k x) Q) -> post (bind m k) Q.
Proof.
  intros Hm Hk st y st' E. unfold bind in E. destruct (m st) as [[x s]|] eqn:Em; [|discriminate].
  exact (Hk x (Hm _ _ _ Em) _ _ _ E).
Qed.

Lemma post_any {A B} (m : err A) (k : A -> err B) Q : (forall x, post (k x) Q) -> post (bind m k) Q.
Proof. intros Hk. apply (post_bind m k (fun _ => True)); [now intros ? ? ? ? | auto]. Qed.

(** What holds of every result holds of the result. *)
Lemma runs_post {A} (m : err A) P Q : runs m P -> post m Q -> runs m (fun a => P a /\ Q a).
Proof. intros Hr Hp st Hst. destruct (Hr st Hst) as (a & st' & E & H & Ha). exists a, st'. eauto 6. Qed.

Definition any {A} (_ : A) : Prop := True.

Lemma runs_set_errno e : runs (icalerror_set_errno e) any.
Proof.
  intros st Hst. exists tt, (with_errno st e). split; [|split; [now apply quiet_with_errno | exact I]].
  now rewrite set_errno_spec, quiet_nonfatal.
Qed.

Lemma runs_put_errno e : runs (put_icalerrno e) any.
Proof. intros st Hst. exists tt, (with_errno st e). split; [reflexivity|]. split; [exact Hst | exact I]. Qed.

Lemma runs_clear_errno : runs icalerror_clear_errno any.
Proof. apply runs_put_errno. Qed.

Lemma runs_get_errno : runs get_icalerrno any.
Proof. intros st Hst. exists (icalerrno st), st. split; [reflexivity|]. split; [exact Hst | exact I]. Qed.

Lemma runs_get_error_state e : runs (icalerror_get_error_state e) (fun s => s <> ICAL_ERROR_FATAL).
Proof.
  intros st Hst. exists (get_state (error_state_map st) e), st. split; [reflexivity|].
  split; [exact Hst|]. apply get_state_quiet, Hst.
Qed.

Lemma runs_set_error_state e s : s <> ICAL_ERROR_FATAL -> runs (icalerror_set_error_state e s) any.
Proof.
  intros Hs st (Hf & Hm & Hk). eexists tt, _. split; [reflexivity|]. split; [|exact I]. split; [exact Hf|].
  cbn [error_state_map]. split; [|unfold map_ok; now rewrite set_state_keys].
  intros e' s' Hin. apply set_state_in in Hin as [Hin | ->]; [now apply (Hm e') | exact Hs].
Qed.

Lemma runs_nonfatal_state e : runs (icalerror_set_error_state e ICAL_ERROR_NONFATAL) any.
Proof. apply runs_set_error_state. discriminate. Qed.

#[export] Hint Resolve runs_set_errno runs_put_errno runs_clear_errno runs_get_errno runs_get_error_state
  runs_nonfatal_state runs_set_error_state : runs.

(** One step through a computation: calls are resolved with the hints. *)
Ltac run_step :=
  match goal with
  | |- runs (ret _) _ => apply runs_ret
  | |- runs (bind ?m _) _ => eapply runs_bind; [solve [eauto 3 with runs] | cbv beta; intros ? ?]
  | |- runs (if ?b then _ else _) _ => let E := fresh "E" in destruct b eqn:E
  | |- runs (match ?x with _ => _ end) _ => let E := fresh "E" in destruct x eqn:E
  end.
Ltac run := repeat (run_step; cbv beta zeta).

Lemma runs_badarg {A} (a : A) (Q : A -> Prop) : Q a -> runs (badarg a) Q.
Proof. intros H. unfold badarg. run. exact H. Qed.

(** ** Readers of the other files *)

Lemma runs_time s : runs (icaltime_from_string s) any.
Proof. unfold icaltime_from_string. run; exact I. Qed.
Lemma runs_duration s : runs (icaldurationtype_from_string s) any.
Proof. unfold icaldurationtype_from_string. run; exact I. Qed.
#[export] Hint Resolve runs_time runs_duration : runs.

Lemma runs_period_error : runs period_error any.
Proof. unfold period_error. run; exact I. Qed.
#[export] Hint Resolve runs_period_error : runs.

Lemma runs_period s : runs (icalperiodtype_from_string s) any.
Proof. unfold icalperiodtype_from_string. run; try apply runs_period_error; exact I. Qed.

Lemma runs_trigger_error es tr : es <> ICAL_ERROR_FATAL -> runs (trigger_error es tr) any.
Proof. intros H. unfold trigger_error. run; exact I. Qed.

Lemma runs_trigger s : runs (icaltriggertype_from_string s) any.
Proof. unfold icaltriggertype_from_string. run; try (now apply runs_trigger_error); exact I. Qed.

Lemma runs_reqstat s : runs (icalreqstattype_from_string s) any.
Proof. unfold icalreqstattype_from_string. run; exact I. Qed.
#[export] Hint Resolve runs_period runs_trigger runs_reqstat : runs.

(** A rule with fewer than 24 commas is read within the bounds of its arrays. *)
Definition few_commas (s : cstring) : Prop := count_char "," s < 24.

Lemma runs_recur s : few_commas s -> runs (icalrecurrencetype_from_string (Some s)) rule_ok.
Proof.
  intros Hs st Hst.
  destruct (parse_clauses_outcome (split_on ";" s) icalrecurrencetype_clear st) as (rt & st' & E & Hok & Hst').
  - apply clear_ok.
  - now apply quiet_nonfatal.
  - intros p Hp. pose proof (split_on_count ";"%char ","%char s p Hp). unfold few_commas in Hs. lia.
  - exists rt, st'. split; [exact E|]. split; [|exact Hok]. destruct Hst' as [-> | [-> _]]; exact Hst.
Qed.
#[export] Hint Resolve runs_recur : runs.

(** ** Values *)

Section Typed.
Context `{TABLES : DerivedTables} `{FLOAT : FloatOps}.

(** The members of the union that go with a kind; memory set to 0 is a time, a
    number and so on. *)
Definition member_of (k : icalvalue_kind) (d : value_data) : bool :=
  match enum_x_type k, k, d with
  | Some _, _, V_enum _ => true
  | Some _, _, _ => false
  | _, ICAL_ATTACH_VALUE, V_attach _ => true
  | _, (ICAL_BOOLEAN_VALUE | ICAL_INTEGER_VALUE | ICAL_UTCOFFSET_VALUE), V_int _ => true
  | _, (ICAL_QUERY_VALUE | ICAL_STRING_VALUE | ICAL_CALADDRESS_VALUE | ICAL_URI_VALUE | ICAL_TEXT_VALUE), V_string _ => true
  | _, ICAL_FLOAT_VALUE, V_float _ => true
  | _, ICAL_GEO_VALUE, V_geo _ _ => true
  | _, ICAL_RECUR_VALUE, V_recur _ => true
  | _, (ICAL_DATE_VALUE | ICAL_DATETIME_VALUE), (V_time _ | V_zero) => true
  | _, ICAL_DURATION_VALUE, V_duration _ => true
  | _, ICAL_PERIOD_VALUE, V_period _ => true
  | _, ICAL_REQUESTSTATUS_VALUE, V_requeststatus _ => true
  | _, ICAL_X_VALUE, V_zero => true
  | _, _, _ => false
  end.

Definition typed (v : icalvalue) : Prop := member_of (v_kind v) (v_data v) = true.

Definition typed_result (r : option icalvalue) : Prop := match r with Some v => typed v | None => True end.

(** Reading a text as TEXT gives a text, and so on: the kind of the value is the
    one asked for except for attachments, times, periods and triggers. *)
Definition kept_kind (kind : icalvalue_kind) (r : option icalvalue) : Prop :=
  match r with
  | Some v => kind = ICAL_TEXT_VALUE -> v_kind v = ICAL_TEXT_VALUE
  | None => True
  end.

Lemma runs_reset_kind v t :
  member_of ICAL_DATE_VALUE (v_data v) = true -> is_time_kind (v_kind v) = true -> v_data v = t ->
  runs (icalvalue_reset_kind v) (fun w => is_time_kind (v_kind w) = true /\ v_data w = t).
Proof.
  intros Hd Hk Ht. unfold icalvalue_reset_kind. unfold is_time_kind in Hk. rewrite Hk.
  destruct (v_data v) eqn:Ed; try discriminate; cbn [data_time].
  all: eapply runs_bind; [apply runs_ret with (Q := any); exact I|]; cbv beta; intros ? _.
  all: case_if; apply runs_ret; cbn; rewrite ?Ed; auto.
  all: destruct (icaltime_is_date _); auto.
Qed.

Lemma time_typed v t : is_time_kind (v_kind v) = true -> v_data v = V_time t \/ v_data v = V_zero -> typed v.
Proof.
  unfold typed, is_time_kind. intros H [-> | ->]; destruct (v_kind v); try discriminate H; reflexivity.
Qed.

Lemma runs_dequoted s : nul_free s -> runs (dequoted s) any.
Proof. intros H. unfold dequoted. rewrite dequote_total by assumption. apply runs_ret. exact I. Qed.

Lemma space_span_0 s : skip_ws s = s -> space_span s = O.
Proof.
  destruct s as [|c r]; cbn; [reflexivity|]. destruct (isspace c); [|reflexivity]. intros E.
  assert (length (skip_ws r) <= length r)%nat.
  { clear. induction r as [|d r IH]; cbn; [lia|]. destruct (isspace d); cbn; lia. }
  rewrite E in H. cbn in H. lia.
Qed.

Lemma number_span_le s : (number_span s <= length s)%nat.
Proof. induction s as [|c r IH]; cbn; [lia|]. case_if; lia. Qed.

Lemma read_chars_defined s n : forall p, (p + n <= length s)%nat -> read_chars s p n <> None.
Proof.
  induction n as [|n IH]; intros p Hp; cbn [read_chars]; [discriminate|].
  unfold char_at. rewrite nth_error_app1 by lia. destruct (nth_error s p) eqn:E.
  - specialize (IH (S p)). destruct (read_chars s (S p) n); [discriminate|]. apply IH. lia.
  - apply nth_error_None in E. lia.
Qed.

Lemma double_defined s : skip_ws s = s -> simple_str_to_double s <> None.
Proof.
  intros H. unfold simple_str_to_double. rewrite space_span_0 by assumption. cbn [skipn Nat.add].
  pose proof (number_span_le s) as Hl. unfold TMP_NUM_SIZE. case_if; [discriminate|].
  apply Nat.ltb_ge in E. case_if; [apply Nat.ltb_lt in E0; lia|].
  pose proof (read_chars_defined s (number_span s) O). destruct (read_chars s 0 (number_span s)); [discriminate|].
  exfalso. apply H0; [lia | reflexivity].
Qed.

Lemma skip_ws_idem s : skip_ws (skip_ws s) = skip_ws s.
Proof. induction s as [|c r IH]; cbn; [reflexivity|]. destruct (isspace c) eqn:E; [exact IH|]. cbn. now rewrite E. Qed.

Lemma geo_defined s : skip_ws s = s -> geo_from_string s <> None.
Proof.
  intros H. unfold geo_from_string. pose proof (double_defined s H).
  destruct (simple_str_to_double s) as [[[lat cur]|]|]; [|discriminate|congruence].
  destruct (skip_ws (skipn cur s)) as [|c rest]; [discriminate|]. case_if; [|discriminate].
  pose proof (double_defined (skip_ws rest) (skip_ws_idem rest)).
  destruct (simple_str_to_double (skip_ws rest)) as [[[]|]|]; congruence.
Qed.

Lemma runs_set_datetime v t :
  v_kind v = ICAL_DATETIME_VALUE -> v_data v = V_zero -> runs (icalvalue_set_datetime v t) typed.
Proof.
  intros Hk Hd. assert (typed v) as Hv by (unfold typed; now rewrite Hk, Hd).
  unfold icalvalue_set_datetime, icalvalue_set_datetimedate.
  case_if; [now apply runs_badarg|]. case_if; [now apply runs_badarg|]. case_if; [now apply runs_badarg|].
  eapply runs_weaken; [apply (runs_reset_kind _ (V_time t)); cbn; rewrite ?Hk; reflexivity|].
  cbv beta. intros w [Hw Ew]. apply (time_typed w t); auto.
Qed.

Lemma runs_set_recur r : rule_ok r -> runs (icalvalue_new_recur r) (fun v => v = new_with ICAL_RECUR_VALUE (V_recur r)).
Proof.
  intros (_ & _ & Hc & _ & Hu & _). unfold icalvalue_new_recur, icalvalue_set_recur.
  destruct (Z.eqb_spec (count r) 0); cbn [orb]; [now apply runs_ret|].
  rewrite Hu by lia. now apply runs_ret.
Qed.

Lemma runs_new_trigger tr : runs (icalvalue_new_trigger tr) typed.
Proof.
  unfold icalvalue_new_trigger, icalvalue_set_trigger. case_if; [now apply runs_set_datetime|]. now apply runs_ret.
Qed.
#[local] Hint Resolve runs_dequoted runs_set_datetime runs_set_recur runs_new_trigger : runs.

Lemma enum_typed kind x s : enum_x_type kind = Some x -> typed (icalvalue_new_enum kind x s).
Proof.
  intros E. unfold typed, icalvalue_new_enum. case_if; cbn [v_kind v_data new_with icalvalue_set_x];
    destruct kind; try discriminate E; reflexivity.
Qed.

(** What a reader answers. *)
Definition good_read (kind : icalvalue_kind) (r : option icalvalue * option cstring) : Prop :=
  typed_result (fst r) /\ kept_kind kind (fst r).

Lemma good_none kind e : good_read kind (None, e).
Proof. split; exact I. Qed.

Lemma good_some kind v e : typed v -> kind <> ICAL_TEXT_VALUE -> good_read kind (Some v, e).
Proof. intros H Hk. split; [exact H|]. intros E. congruence. Qed.

Lemma runs_time_value kind s :
  is_time_kind kind = true ->
  runs (t <- icaltime_from_string s ;;
        if negb (icaltime_is_null_time t)
        then v <- icalvalue_reset_kind (new_with kind (V_time t)) ;; ret (Some v, None) else ret (None, None))
    (good_read kind).
Proof.
  intros Hk. run; [|apply good_none]. eapply runs_bind; [now apply (runs_reset_kind _ (V_time a))|].
  cbv beta. intros w [Hw Ew]. apply runs_ret. apply good_some; [apply (time_typed w a); auto|].
  intros ->. discriminate.
Qed.

(** The text the parser passes: no NUL, no white space in front, and not so many
    commas that the arrays of a rule could overflow. *)
Definition value_text_ok (s : cstring) : Prop := nul_free s /\ skip_ws s = s /\ few_commas s.

Lemma runs_read_value addr kind s : value_text_ok s -> runs (read_value addr kind s) (good_read kind).
Proof.
  intros (Hn & Hw & Hc). unfold read_value. destruct (enum_x_type kind) as [x|] eqn:Ex.
  { apply runs_ret. apply good_some; [now apply enum_typed|]. intros ->. discriminate. }
  pose proof (geo_defined s Hw) as Hg.
  destruct kind; try discriminate Ex; try (now apply runs_time_value); run;
    try (apply good_none); try congruence;
    try (apply good_some; [solve [reflexivity | assumption | subst; reflexivity]|discriminate]).
  split; [reflexivity | intros _; reflexivity].
Qed.

Lemma runs_new_from_string addr kind s :
  value_text_ok s -> runs (icalvalue_new_from_string addr kind s) (fun r => typed_result r /\ kept_kind kind r).
Proof.
  intros H. unfold icalvalue_new_from_string. eapply runs_bind; [now apply runs_read_value|].
  cbv beta. intros r Hr. now apply runs_ret.
Qed.
End Typed.
