(* ===== verification/IcalParserSafe.v ===== *)
(** * The parser is safe on every input

    Every text without NUL characters is read to its end: the loops of the
    parser return, nothing is read or written outside the line, the asserts hold
    and the component that is returned is well formed.  The proofs use the logic
    of IcalValueSafe. *)
From Stdlib Require Import String Ascii ZArith Lia Bool List.
From S2P Require Import Prelude CString IcalError IcalTime IcalRecurRule IcalValueText IcalValue IcalValueSafe IcalLine IcalParameter IcalProperty IcalComponent IcalParser.
Import ListNotations.
#[local] Open Scope Z_scope.
#[local] Open Scope cstring_scope.
#[local] Open Scope err_scope.

(** ** Pieces of a line *)

Definition piece_of (s t : cstring) : Prop := exists a b, t = a ++ s ++ b.

Lemma piece_refl s : piece_of s s.
Proof. exists [], []. now rewrite app_nil_r. Qed.

Lemma piece_trans s t u : piece_of s t -> piece_of t u -> piece_of s u.
Proof. intros (a & b & ->) (c & d & ->). exists (c ++ a), (b ++ d). now rewrite <- !app_assoc. Qed.

Lemma piece_firstn n s : piece_of (firstn n s) s.
Proof. exists [], (skipn n s). symmetry. apply firstn_skipn. Qed.

Lemma piece_skipn n s : piece_of (skipn n s) s.
Proof. exists (firstn n s), []. rewrite app_nil_r. symmetry. apply firstn_skipn. Qed.

Lemma rtrim_prefix s : exists b, s = rtrim s ++ b.
Proof.
  induction s as [|c r [b E]]; [now exists []|]. cbn [rtrim]. destruct (rtrim r) as [|d t] eqn:Et.
  - destruct (isspace c); [now exists (c :: r)|]. exists r. reflexivity.
  - exists b. cbn [app]. now rewrite E at 1.
Qed.

Lemma piece_rtrim s : piece_of (rtrim s) s.
Proof. destruct (rtrim_prefix s) as [b E]. exists [], b. exact E. Qed.

Lemma piece_skip_ws s : piece_of (skip_ws s) s.
Proof.
  induction s as [|c r (a & b & E)]; [apply piece_refl|]. cbn. destruct (isspace c); [|apply piece_refl].
  exists (c :: a), b. now rewrite E at 1.
Qed.
#[export] Hint Resolve piece_refl piece_firstn piece_skipn piece_rtrim piece_skip_ws : ical.

Lemma piece_segment s n : piece_of (make_segment s n) s.
Proof. eapply piece_trans; eauto with ical. Qed.

Lemma piece_strip s : piece_of (strstriplt s) s.
Proof. eapply piece_trans; [apply piece_skip_ws | apply piece_rtrim]. Qed.
#[export] Hint Resolve piece_segment piece_strip : ical.

Lemma piece_length s t : piece_of s t -> (length s <= length t)%nat.
Proof. intros (a & b & ->). rewrite !length_app. lia. Qed.

Lemma piece_nul_free s t : piece_of s t -> nul_free t -> nul_free s.
Proof. intros (a & b & ->). unfold nul_free. rewrite !Forall_app. tauto. Qed.

Lemma piece_few_commas s t : piece_of s t -> few_commas t -> few_commas s.
Proof.
  intros (a & b & ->). unfold few_commas. rewrite !count_char_app.
  pose proof (count_char_nonneg "," a). pose proof (count_char_nonneg "," b). lia.
Qed.

(** A line the parser reads: no NUL and few commas. *)
Definition line_ok (line : cstring) : Prop := nul_free line /\ few_commas line.

Lemma stripped_value_ok s line : line_ok line -> piece_of s line -> value_text_ok (strstriplt s).
Proof.
  intros [Hn Hc] Hp. assert (piece_of (strstriplt s) line) as Hs by (eapply piece_trans; eauto with ical).
  split; [now apply (piece_nul_free _ line)|]. split; [apply skip_ws_idem | now apply (piece_few_commas _ line)].
Qed.

(** ** Positions *)

Lemma next_char_bounds c qm s : forall prev q p n,
  next_char c qm prev q s p = Some n ->
  (p <= n < p + length s)%nat /\ nth_error s (n - p) = Some c /\ (prev = NUL -> p < n)%nat.
Proof.
  induction s as [|d s IH]; intros prev q p n; cbn [next_char]; [discriminate|].
  set (plain := negb (Ascii.eqb prev NUL) && negb (Ascii.eqb prev BACKSLASH)).
  assert (forall q', next_char c qm d q' s (S p) = Some n ->
    (p <= n < p + length (d :: s))%nat /\ nth_error (d :: s) (n - p) = Some c /\ (prev = NUL -> p < n)%nat) as H.
  { intros q' E. apply IH in E as (Hb & En & _). cbn [length]. split; [lia|]. split; [|lia].
    replace (n - p)%nat with (S (n - S p)) by lia. exact En. }
  case_if; [now apply H|]. case_if; [|now apply H]. intros [= <-]. cbn [length]. split; [lia|].
  apply andb_prop in E0 as [E1 E0]. apply andb_prop in E0 as [_ E0]. apply Ascii.eqb_eq in E0.
  split; [now rewrite Nat.sub_diag, E0|]. intros ->. subst plain. discriminate.
Qed.

Lemma get_next_char_bounds c s qm n :
  parser_get_next_char c s qm = Some n -> (0 < n < length s)%nat /\ nth_error s n = Some c.
Proof.
  intros H. apply next_char_bounds in H as (Hb & En & Hp). rewrite Nat.sub_0_r in En. split; [|exact En].
  specialize (Hp eq_refl). lia.
Qed.

Lemma prop_name_bounds line str fin : parser_get_prop_name line = Some (str, fin) -> (2 <= fin <= length line)%nat.
Proof.
  unfold parser_get_prop_name. destruct (parser_get_next_char ";" line true) as [p|] eqn:Ep;
    destruct (parser_get_next_char ":" line true) as [v|] eqn:Ev; try discriminate;
    try apply get_next_char_bounds in Ep as [Hp _]; try apply get_next_char_bounds in Ev as [Hv _];
    try case_if; intros [= <- <-]; lia.
Qed.

Lemma next_parameter_bounds line pos str fin :
  parser_get_next_parameter line pos = (Some str, fin) ->
  (pos + 2 <= fin <= length line)%nat /\ piece_of str line /\ (length str + pos < fin)%nat.
Proof.
  unfold parser_get_next_parameter.
  set (v := parser_get_next_char ":" (skipn pos line) true).
  set (next := match parser_get_next_char ";" (skipn pos line) true with
               | Some n => match v with Some c => if Nat.ltb c n then v else Some n | None => v end
               | None => v end).
  assert (forall n, next = Some n -> (0 < n < length (skipn pos line))%nat) as Hn.
  { subst next v. intros n H. destruct (parser_get_next_char ";" (skipn pos line) true) as [a|] eqn:Ea;
      destruct (parser_get_next_char ":" (skipn pos line) true) as [b|] eqn:Eb; try discriminate;
      try apply get_next_char_bounds in Ea as [Ha _]; try apply get_next_char_bounds in Eb as [Hb _];
      try (destruct (Nat.ltb b a)); injection H as <-; assumption. }
  replace (match parser_get_next_char ";" (skipn pos line) true, v with
           | Some n, Some c => if Nat.ltb c n then v else parser_get_next_char ";" (skipn pos line) true
           | _, _ => v end) with next
    by (subst next; destruct (parser_get_next_char ";" (skipn pos line) true), v; reflexivity).
  destruct next as [n|]; [|discriminate]. intros [= <- <-]. specialize (Hn n eq_refl).
  rewrite length_skipn in Hn. split; [lia|]. split; [eapply piece_trans; eauto with ical|].
  pose proof (piece_length _ _ (piece_rtrim (firstn n (skipn pos line)))) as Hl.
  rewrite length_firstn in Hl. unfold make_segment. lia.
Qed.

Lemma next_comma_defined kind line pos fuel : forall p,
  (2 <= p)%nat -> (pos <= p)%nat -> (length (skipn p line) < fuel)%nat ->
  exists r, next_comma fuel kind line pos p = Some r /\
    match r with Some n => (p < n < length line)%nat | None => True end.
Proof.
  induction fuel as [|k IH]; intros p Hp Hpos Hf; [lia|]. cbn [next_comma].
  destruct (parser_get_next_char "," (skipn p line) true) as [o|] eqn:Eo; cbn [option_map]; [|exists None; auto].
  apply get_next_char_bounds in Eo as [Ho _]. rewrite length_skipn in Ho, Hf.
  assert (exists r, next_comma k kind line pos (S (p + o)) = Some r /\
    match r with Some n => (p < n < length line)%nat | None => True end) as Hrec.
  { destruct (IH (S (p + o))) as (r & E & Hr); [lia | lia | rewrite length_skipn; lia|].
    exists r. split; [exact E|]. destruct r; [lia | exact I]. }
  assert (forall i, (i < length line)%nat -> exists c, nth_error line i = Some c) as Hnth.
  { intros i Hi. destruct (nth_error line i) eqn:E; [eauto|]. apply nth_error_None in E. lia. }
  set (separates := let* c1 := nth_error line (p + o - 1) in
            if Ascii.eqb c1 BACKSLASH then next_comma k kind line pos (S (p + o))
            else if Nat.ltb (p + o) 3 then None
            else
              let* c3 := nth_error line (p + o - 3) in
              if Ascii.eqb c3 BACKSLASH then next_comma k kind line pos (S (p + o)) else Some (Some (p + o)%nat)).
  assert (exists r, separates = Some r /\ match r with Some n => (p < n < length line)%nat | None => True end) as Hs.
  { subst separates. destruct (Hnth (p + o - 1)%nat) as [c1 ->]; [lia|]. case_if; [exact Hrec|].
    destruct (Nat.ltb_spec (p + o) 3); [lia|]. destruct (Hnth (p + o - 3)%nat) as [c3 ->]; [lia|].
    case_if; [exact Hrec|]. eexists. split; [reflexivity|]. cbn. lia. }
  destruct kind; try exact Hs; try exact Hrec. case_if; [exact Hs | exact Hrec].
Qed.

(** A value behind a name and its separator: nothing before the line is read. *)
Lemma next_value_defined line pos kind :
  (2 <= pos)%nat ->
  exists str fin, parser_get_next_value line pos kind = Some (str, fin) /\
    match str with
    | Some s => (pos < fin)%nat /\ (pos < length line)%nat /\ piece_of s line
    | None => True
    end.
Proof.
  intros Hpos. unfold parser_get_next_value.
  assert (exists r, (if quoted_whole (skipn pos line) then Some None
                     else next_comma (S (length (skipn pos line))) kind line pos pos) = Some r /\
            match r with Some n => (pos < n < length line)%nat | None => True end) as (r & -> & Hr).
  { case_if; [now exists None|]. apply next_comma_defined; lia. }
  destruct r as [n|]; case_if; eexists _, _; (split; [reflexivity|]); cbn; auto.
  - split; [lia|]. split; [lia | eapply piece_trans; eauto with ical].
  - apply Nat.eqb_neq in E. rewrite length_skipn in *. split; [lia|].
    split; [lia | eapply piece_trans; eauto with ical].
Qed.

Lemma get_value_bounds line pos :
  match icalparser_get_value line pos with
  | (Some s, fin) => (pos < fin)%nat /\ (pos < length line)%nat /\ piece_of s line
  | (None, _) => True
  end.
Proof.
  unfold icalparser_get_value. destruct (skipn pos line) as [|c r] eqn:E; [exact I|].
  assert (length (skipn pos line) <> O) as Hl by (rewrite E; discriminate). rewrite length_skipn in Hl.
  split; [cbn; lia|]. split; [lia|]. rewrite <- E. eapply piece_trans; eauto with ical.
Qed.

Lemma last_colon_bounds line fuel : forall pos found c,
  last_colon fuel line pos found = Some c -> found = Some c \/ (pos < c < length line)%nat.
Proof.
  induction fuel as [|k IH]; intros pos found c; cbn [last_colon]; [now left|].
  destruct (parser_get_next_char ":" (skipn pos line) true) as [n|] eqn:En; [|now left].
  apply get_next_char_bounds in En as [Hn _]. rewrite length_skipn in Hn. intros H.
  apply IH in H as [[= <-]|H]; right; lia.
Qed.

(** ** Well-formed components *)

Section Safe.
Context `{PROPS : PropertyTables} `{PARAMS : ParameterTables} `{FLOAT : FloatOps} `{TZ : TimezoneConv}.

(** The properties whose accessor returns the text member of the union. *)
Definition text_property (k : icalproperty_kind) : bool :=
  (k =? ICAL_TZID_PROPERTY) || (k =? ICAL_TZNAME_PROPERTY) || (k =? ICAL_LOCATION_PROPERTY).

(** TZID, TZNAME and LOCATION are texts in properties.csv, and only texts. *)
Definition text_rows : Prop :=
  forall k m, text_property k = true -> row_of k = Some m ->
  default_value m = ICAL_TEXT_VALUE /\ valid_values m = [ICAL_TEXT_VALUE] /\ is_structured m = false.

(** A property of a kind of the table whose value, if it has one, is typed. *)
Record good_property (p : icalproperty) : Prop := GoodProperty {
  good_kind : icalproperty_kind_is_valid (pr_kind p) = true;
  good_value : forall v, pr_value p = Some v -> typed v;
  good_text : forall v, text_property (pr_kind p) = true -> pr_value p = Some v -> v_kind v = ICAL_TEXT_VALUE
}.

Inductive good_component : icalcomponent -> Prop :=
| Good c : Forall good_property (co_properties c) -> Forall good_component (co_components c) -> good_component c.

Lemma good_inv c : good_component c -> Forall good_property (co_properties c) /\ Forall good_component (co_components c).
Proof. now intros [d Hp Hc]. Qed.

Lemma good_with_properties ps it c : Forall good_property ps -> good_component c -> good_component (with_properties ps it c).
Proof. intros Hp [_ Hc]%good_inv. now constructor. Qed.

Lemma good_with_components cs it c : Forall good_component cs -> good_component c -> good_component (with_components cs it c).
Proof. intros Hc [Hp _]%good_inv. now constructor. Qed.

Lemma good_same c d :
  co_properties d = co_properties c -> co_components d = co_components c -> good_component c -> good_component d.
Proof. intros E1 E2 [Hp Hc]%good_inv. constructor; [now rewrite E1 | now rewrite E2]. Qed.

Lemma good_add_property p c : good_property p -> good_component c -> good_component (icalcomponent_add_property p c).
Proof.
  intros Hp Hc. apply good_with_properties; [|exact Hc]. apply Forall_app. split; [now apply good_inv|].
  constructor; [|constructor]. destruct Hp. now constructor.
Qed.

Lemma in_remove_nth {A} (l : list A) x : forall j, In x (remove_nth j l) -> In x l.
Proof. induction l as [|y r IH]; intros [|j]; cbn; auto. intros [->|H]; eauto. Qed.

Lemma in_unlink_loop {A} n (same : A -> bool) x : forall l j it,
  In x (fst (unlink_loop n same l j it)) -> In x l.
Proof.
  induction n as [|n IH]; intros l j it; cbn [unlink_loop fst]; [auto|].
  destruct (nth_error l j); [|auto]. case_if; intros H; apply IH in H; [now apply in_remove_nth in H | exact H].
Qed.

Lemma good_remove_property a c : good_component c -> good_component (snd (icalcomponent_remove_property a c)).
Proof.
  intros Hc. unfold icalcomponent_remove_property. destruct (find _ _) as [p|]; [|exact Hc].
  destruct (icalproperty_get_parent p); [|exact Hc].
  destruct (unlink_loop _ _ _ _ _) as [ps it] eqn:E. apply good_with_properties; [|exact Hc].
  rewrite Forall_forall. intros x Hx. destruct (good_inv c Hc) as [Hp _]. rewrite Forall_forall in Hp. apply Hp.
  apply (in_unlink_loop (length (co_properties c)) (is_property a) x _ 0 (property_iterator c)). now rewrite E.
Qed.

(** ** Entries for time zones *)

Lemma runs_get_text p :
  good_property p -> text_property (pr_kind p) = true -> runs (icalvalue_get_text (pr_value p)) any.
Proof.
  intros [_ Hv Ht] Hk. unfold icalvalue_get_text. destruct (pr_value p) as [v|]; [|now apply runs_badarg].
  specialize (Hv v eq_refl). specialize (Ht v Hk eq_refl). unfold typed in Hv. rewrite Ht in Hv.
  destruct (v_data v); try discriminate Hv; apply runs_ret; exact I.
Qed.

Lemma runs_get_x v : runs (icalvalue_get_x v) any.
Proof. destruct v; [apply runs_ret; exact I | apply runs_badarg; exact I]. Qed.

Lemma runs_data_time v : typed v -> is_time_kind (v_kind v) = true -> runs (data_time (v_data v)) any.
Proof.
  unfold typed, is_time_kind. intros H Hk. destruct (v_kind v); try discriminate Hk;
    destruct (v_data v); try discriminate H; apply runs_ret; exact I.
Qed.

Lemma runs_get_datetimedate v : (forall w, v = Some w -> typed w) -> runs (get_datetimedate v) any.
Proof.
  intros H. destruct v as [v|]; cbn; [|now apply runs_badarg]. unfold icalvalue_get_datetimedate.
  case_if; [now apply runs_data_time; [apply H|] | now apply runs_badarg].
Qed.

Lemma runs_get_period_time v : (forall w, v = Some w -> typed w) -> runs (get_datetimeperiod_time v) any.
Proof.
  intros H. destruct v as [v|]; cbn; [|now apply runs_badarg]. specialize (H v eq_refl).
  pose proof (runs_data_time v H) as Ht. eapply runs_bind; [|intros ? _; apply runs_ret; exact I].
  instantiate (1 := any). unfold icalvalue_get_datetimeperiod, typed in *.
  destruct (v_kind v); try (apply runs_badarg; exact I);
    try (eapply runs_bind; [now apply Ht | intros ? _; apply runs_ret; exact I]).
  destruct (v_data v); try discriminate H. apply runs_ret; exact I.
Qed.

Lemma search_from_spec {A} (test : A -> bool) l : forall i n,
  search_from test l i = Some n -> (i <= n < i + length l)%nat /\ exists x, nth_error l (n - i) = Some x /\ test x = true.
Proof.
  induction l as [|x r IH]; intros i n; cbn [search_from]; [discriminate|]. case_if.
  - intros [= <-]. cbn [length]. split; [lia|]. exists x. now rewrite Nat.sub_diag.
  - intros H. apply IH in H as (Hb & y & Ey & Ht). cbn [length]. split; [lia|]. exists y.
    replace (n - i)%nat with (S (n - S i)) by lia. auto.
Qed.

Lemma iterate_spec {A} (test : A -> bool) l start :
  match iterate test l start with
  | (Some x, AtElem i) => (start <= i < length l)%nat /\ In x l /\ test x = true
  | (None, NoElem) => True
  | _ => False
  end.
Proof.
  unfold iterate, find_at. destruct (search_from test (skipn start l) start) as [n|] eqn:E; [|exact I].
  apply search_from_spec in E as (Hb & x & Ex & Ht). rewrite nth_error_skipn in Ex.
  replace (start + (n - start))%nat with n in Ex by lia. rewrite Ex. rewrite length_skipn in Hb.
  split; [|split; [now apply nth_error_In in Ex | exact Ht]].
  assert (nth_error l n <> None) as Hn by congruence. apply nth_error_Some in Hn. lia.
Qed.

(** The properties and components are those of [c]; only iterators differ. *)
Definition same_lists (c d : icalcomponent) : Prop :=
  co_properties d = co_properties c /\ co_components d = co_components c /\ co_addr d = co_addr c /\
  co_kind d = co_kind c /\ co_x_name d = co_x_name c.

(** The content of a component: without iterators, links to parents and the array
    of time zones. *)
Fixpoint erase (c : icalcomponent) : icalcomponent :=
  Component (co_addr c) (co_kind c) (co_x_name c) (co_properties c) NoElem (map erase (co_components c)) NoElem None None true.

Lemma erase_same c d : same_lists c d -> erase d = erase c.
Proof. unfold same_lists. destruct c, d. cbn. intros (-> & -> & -> & -> & ->). reflexivity. Qed.

Lemma erase_end_iterators c : erase (end_iterators c) = erase c.
Proof.
  destruct c as [a k x ps pit cs cit pa tz so]. cbn. f_equal. rewrite map_map. apply map_ext. intros s. case_if; [|reflexivity].
  destruct s. reflexivity.
Qed.

Lemma first_property_spec kind c :
  let '(p, d) := icalcomponent_get_first_property kind c in
  same_lists c d /\
  match p with
  | Some p => In p (co_properties c) /\ property_matches kind p = true /\
              exists i, property_iterator d = AtElem i /\ (i < length (co_properties c))%nat
  | None => property_iterator d = NoElem
  end.
Proof.
  unfold icalcomponent_get_first_property. pose proof (iterate_spec (property_matches kind) (co_properties c) 0) as H.
  destruct (iterate _ _ _) as [[p|] [|i|]]; try contradiction; cbn.
  - destruct H as (Hi & Hin & Ht). repeat split; auto. exists i. split; [reflexivity | lia].
  - repeat split.
Qed.

Lemma x_location_runs fuel : forall prop c,
  match prop with
  | Some _ => exists i, property_iterator c = AtElem i /\ (i < length (co_properties c))%nat /\
                        (length (co_properties c) - i <= fuel)%nat
  | None => True
  end -> runs (x_location fuel prop c) (fun r => same_lists c (snd r)).
Proof.
  induction fuel as [|k IH]; intros [p|] c H.
  - destruct H as (i & _ & Hi & Hf). lia.
  - apply runs_ret. repeat split.
  - destruct H as (i & Ei & Hi & Hf). cbn [x_location]. eapply runs_bind.
    { instantiate (1 := any). destruct (icalproperty_get_x_name p); [case_if; [apply runs_get_x|]|]; apply runs_ret; exact I. }
    intros l _. destruct l as [l|]; [apply runs_ret; repeat split|].
    unfold icalcomponent_get_next_property. rewrite Ei.
    pose proof (iterate_spec (property_matches ICAL_X_PROPERTY) (co_properties c) (S i)) as Hit.
    destruct (iterate _ _ _) as [[q|] [|j|]]; try contradiction;
      apply runs_bind_ret.
    + destruct Hit as (Hj & _). eapply runs_weaken; [apply IH|].
      * exists j. cbn. split; [reflexivity|]. lia.
      * cbn. intros r Hr. exact Hr.
    + eapply runs_weaken; [apply IH; exact I|]. intros r Hr. exact Hr.
  - apply runs_ret. repeat split.
Qed.

Lemma runs_location c : good_component c -> runs (icaltimezone_get_location_from_vtimezone c) (fun r => same_lists c (snd r)).
Proof.
  intros [Hp _]%good_inv. rewrite Forall_forall in Hp. unfold icaltimezone_get_location_from_vtimezone.
  pose proof (first_property_spec ICAL_LOCATION_PROPERTY c) as H.
  destruct (icalcomponent_get_first_property ICAL_LOCATION_PROPERTY c) as [prop d]. destruct H as [Hd H].
  eapply runs_bind.
  { instantiate (1 := any). destruct prop as [p|]; [|apply runs_ret; exact I]. destruct H as (Hin & Hm & _).
    apply runs_get_text; [now apply Hp|]. unfold property_matches in Hm.
    change (ICAL_LOCATION_PROPERTY =? ICAL_ANY_PROPERTY) with false in Hm. rewrite orb_false_r in Hm.
    unfold text_property. now rewrite Hm, !orb_true_r. }
  intros l _. destruct l as [l|]; [apply runs_ret; exact Hd|].
  pose proof (first_property_spec ICAL_X_PROPERTY d) as H2.
  destruct (icalcomponent_get_first_property ICAL_X_PROPERTY d) as [prop2 d2]. destruct H2 as [Hd2 H2].
  destruct Hd as (E1 & E2 & E3 & E4 & E5), Hd2 as (F1 & F2 & F3 & F4 & F5).
  eapply runs_weaken; [apply x_location_runs|].
  - destruct prop2 as [q|]; [|exact I]. destruct H2 as (_ & _ & j & Ej & Hj). exists j. rewrite F1. split; [exact Ej|]. lia.
  - intros r (G1 & G2 & G3 & G4 & G5). repeat split; congruence.
Qed.

Lemma runs_observance ps : forall n t, Forall good_property ps -> runs (observance_names ps n t) any.
Proof.
  induction ps as [|p ps IH]; intros n t H; cbn [observance_names]; [apply runs_ret; exact I|].
  inversion_clear H as [|? ? Hp Hps]. case_if.
  - eapply runs_bind; [apply runs_get_text; [assumption|]; unfold text_property; now rewrite E, orb_true_r|].
    intros ? _. now apply IH.
  - case_if.
    + eapply runs_bind; [apply runs_get_datetimedate; intros w Hw; now apply (good_value p)|]. intros ? _. now apply IH.
    + case_if; [|now apply IH].
      eapply runs_bind; [apply runs_get_period_time; intros w Hw; now apply (good_value p)|]. intros ? _. now apply IH.
Qed.

Lemma runs_zone_names cs : forall s d, Forall good_component cs -> runs (zone_names cs s d) any.
Proof.
  induction cs as [|c cs IH]; intros s d H; cbn [zone_names]; [apply runs_ret; exact I|].
  inversion_clear H as [|? ? Hc Hcs]. case_if; [|now apply IH].
  eapply runs_bind; [apply runs_observance; now apply good_inv|]. intros [n t] _.
  destruct n; [|now apply IH]. case_if; now apply IH.
Qed.

(** What may happen to a child: its iterators move. *)
Definition still_good (c d : icalcomponent) : Prop := good_component d /\ co_addr d = co_addr c.

Lemma good_end_iterators c : good_component c -> good_component (end_iterators c).
Proof.
  intros H. apply good_with_components; [|exact H]. apply good_inv in H as [_ Hc]. rewrite Forall_map.
  eapply Forall_impl; [|exact Hc]. cbv beta. intros s Hs. case_if; [|exact Hs].
  apply good_with_properties; [now apply good_inv | exact Hs].
Qed.

Lemma runs_vtimezone c : good_component c ->
  runs (icaltimezone_get_vtimezone_properties c) (fun r => good_component (snd r) /\ erase (snd r) = erase c).
Proof.
  intros Hc. pose proof (good_inv c Hc) as [Hp _]. rewrite Forall_forall in Hp.
  unfold icaltimezone_get_vtimezone_properties. pose proof (first_property_spec ICAL_TZID_PROPERTY c) as H.
  destruct (icalcomponent_get_first_property ICAL_TZID_PROPERTY c) as [prop d]. destruct H as [Es H].
  assert (erase d = erase c) as Ed by now apply erase_same. destruct Es as (E1 & E2 & E3 & E4 & E5).
  assert (good_component d) as Hd by now apply (good_same c).
  destruct prop as [p|]; [|now apply runs_ret]. destruct H as (Hin & Hm & _). eapply runs_bind.
  { apply runs_get_text; [now apply Hp|]. unfold property_matches in Hm.
    change (ICAL_TZID_PROPERTY =? ICAL_ANY_PROPERTY) with false in Hm. rewrite orb_false_r in Hm.
    unfold text_property. now rewrite Hm. }
  intros t _. destruct t as [t|]; [|now apply runs_ret].
  eapply runs_bind; [now apply runs_location|]. intros [l d2] Fs. cbn [snd] in *.
  assert (erase d2 = erase d) as Ed2 by now apply erase_same. destruct Fs as (F1 & F2 & F3 & F4 & F5).
  assert (good_component d2) as Hd2 by now apply (good_same d).
  unfold icaltimezone_get_tznames_from_vtimezone. eapply runs_bind with (P := fun r => good_component (snd r) /\ erase (snd r) = erase c).
  - eapply runs_bind; [apply runs_zone_names; now apply good_inv|]. intros ns _. apply runs_ret. cbn [snd].
    split; [now apply good_end_iterators|]. now rewrite erase_end_iterators, Ed2, Ed.
  - intros [n d3] Hd3. now apply runs_ret.
Qed.

(** Where [icalcomponent_add_component] puts the child. *)
Definition place (child : icalcomponent) (cs : list icalcomponent) : list icalcomponent :=
  if ckind_eqb (co_kind child) ICAL_VTIMEZONE_COMPONENT then child :: cs else cs ++ [child].

Lemma erase_kind c d : erase c = erase d -> co_kind c = co_kind d.
Proof. intros E. apply (f_equal co_kind) in E. now destruct c, d. Qed.

(** The parent with one more child, whose iterators may have moved. *)
Record child_added (parent child new : icalcomponent) : Prop := ChildAdded {
  ca_good : good_component new;
  ca_placed : exists child', erase child' = erase child /\ co_components new = place child' (co_components parent);
  ca_properties : co_properties new = co_properties parent;
  ca_property_iterator : property_iterator new = property_iterator parent;
  ca_addr : co_addr new = co_addr parent;
  ca_kind : co_kind new = co_kind parent;
  ca_x_name : co_x_name new = co_x_name parent;
  ca_parent : co_parent new = co_parent parent
}.

Lemma runs_add_child parent child :
  good_component parent -> good_component child ->
  runs (icalcomponent_add_component parent child) (fun r => child_added parent child (fst r) /\ good_component (snd r)).
Proof.
  intros Hp Hc. unfold icalcomponent_add_component. eapply runs_bind with (P := any).
  { destruct (co_parent child); [apply runs_set_errno | apply runs_ret; exact I]. }
  intros _ _. cbv zeta. set (child' := icalcomponent_set_parent (Some (co_addr parent)) child).
  assert (good_component child') as Hc' by (now apply (good_same child)).
  assert (erase child' = erase child) as Ec by now destruct child.
  pose proof (good_inv parent Hp) as [_ Hcs]. case_if.
  - apply runs_ret. split; [|exact Hc']. constructor; try reflexivity.
    + apply good_with_components; [|exact Hp]. apply Forall_app. auto.
    + exists child'. split; [exact Ec|]. unfold place. apply negb_true_iff in E. now rewrite E.
  - unfold icaltimezone_array_append_from_vtimezone.
    eapply runs_bind with (P := fun r => good_component (snd r) /\ erase (snd r) = erase child').
    + eapply runs_bind; [now apply runs_vtimezone|]. intros [z d] Hd. now apply runs_ret.
    + intros [tz d] [Hd Ed]. cbn [snd] in Hd, Ed. apply runs_ret. split; [|exact Hd]. constructor; try reflexivity.
      * assert (good_component (with_components (d :: co_components parent) (iter_unshifted (component_iterator parent)) parent)) as G
          by (apply good_with_components; [now constructor | exact Hp]).
        revert G. now apply good_same.
      * exists d. split; [congruence|]. unfold place. rewrite (erase_kind _ _ Ed). apply negb_false_iff in E. now rewrite E.
Qed.

Lemma runs_add_component parent child :
  good_component parent -> good_component child ->
  runs (icalcomponent_add_component parent child) (fun r => good_component (fst r) /\ good_component (snd r)).
Proof. intros Hp Hc. eapply runs_weaken; [now apply runs_add_child|]. cbv beta. intros r [[H _ _ _ _ _ _ _] H2]. auto. Qed.
End Safe.

(** ** The state of the parser *)

Section ParserSafe.
Context `{PROPS : PropertyTables} `{PARAMS : ParameterTables} `{FLOAT : FloatOps} `{TZ : TimezoneConv}.
Variable tok : ical_unknown_token_handling.
Hypothesis rows : text_rows.

(** The level is the number of open components, which are all well formed; the
    number of errors is bounded, and addresses that were given out are below the
    next one. *)
Record parser_ok (p : icalparser) : Prop := ParserOk {
  ok_level : level p = Z.of_nat (length (open_components p));
  ok_open : Forall good_component (open_components p);
  ok_errors : 0 <= error_count p <= MAXIMUM_ALLOWED_ERRORS + 1;
  ok_addrs : Forall (fun c => Forall (fun q => (pr_addr q < next_addr p)%positive) (co_properties c)) (open_components p)
}.

Definition same_property (x y : icalproperty) : Prop := pr_addr y = pr_addr x /\ pr_kind y = pr_kind x.

(** No property is lost, and those that are new have addresses from [lo] on. *)
Definition evolves (lo hi : positive) (ps qs : list icalproperty) : Prop :=
  (forall x, In x ps -> exists y, In y qs /\ same_property x y) /\
  (forall y, In y qs -> (exists x, In x ps /\ same_property x y) \/ (lo <= pr_addr y < hi)%positive).

Definition tail_properties (p : icalparser) : list icalproperty :=
  match open_components p with c :: _ => co_properties c | [] => [] end.

(** The property at the address, in the component that is open, is of the kind. *)
Definition tail_prop (a : positive) (k : icalproperty_kind) (p : icalparser) : Prop :=
  (exists q, In q (tail_properties p) /\ pr_addr q = a) /\
  (forall q, In q (tail_properties p) -> pr_addr q = a -> pr_kind q = k) /\ (a < next_addr p)%positive.

(** A step that stays in the component that is open and loses no property. *)
Definition stays (p q : icalparser) : Prop :=
  parser_ok q /\ length (open_components q) = length (open_components p) /\
  (next_addr p <= next_addr q)%positive /\
  evolves (next_addr p) (next_addr q) (tail_properties p) (tail_properties q).

Lemma evolves_refl lo hi ps : evolves lo hi ps ps.
Proof. split; [intros x Hx; exists x; now repeat split|]. intros y Hy. left. exists y. now repeat split. Qed.

Lemma evolves_trans a b c ps qs rs :
  (a <= b)%positive -> (b <= c)%positive -> evolves a b ps qs -> evolves b c qs rs -> evolves a c ps rs.
Proof.
  intros Hab Hbc [H1 H2] [H3 H4]. split.
  - intros x Hx. destruct (H1 x Hx) as (y & Hy & Ey). destruct (H3 y Hy) as (z & Hz & Ez). exists z.
    split; [exact Hz|]. destruct Ey, Ez. split; congruence.
  - intros z Hz. destruct (H4 z Hz) as [(y & Hy & Ey)|Hr]; [|right; lia].
    destruct (H2 y Hy) as [(x & Hx & Ex)|Hr]; [|right; destruct Ey; rewrite H; lia].
    left. exists x. split; [exact Hx|]. destruct Ex, Ey. split; congruence.
Qed.

Lemma stays_refl p : parser_ok p -> stays p p.
Proof. intros H. split; [exact H|]. split; [reflexivity|]. split; [lia | apply evolves_refl]. Qed.

Lemma stays_trans p q r : stays p q -> stays q r -> stays p r.
Proof.
  intros (_ & H1 & H2 & H3) (H4 & H5 & H6 & H7). split; [exact H4|]. split; [congruence|]. split; [lia|].
  now apply (evolves_trans _ (next_addr q) _ _ (tail_properties q)).
Qed.

Lemma stays_open p q : stays p q -> open_components p <> [] -> open_components q <> [].
Proof. intros (_ & H & _). destruct (open_components p), (open_components q); cbn in H; congruence. Qed.

Lemma stays_prop p q a k : stays p q -> tail_prop a k p -> tail_prop a k q.
Proof.
  intros (_ & _ & Hn & He1 & He2) ((x & Hx & Ea) & Hk & Hlt). split; [|split; [|lia]].
  - destruct (He1 x Hx) as (y & Hy & [Ey _]). exists y. split; [exact Hy | congruence].
  - intros y Hy Eya. destruct (He2 y Hy) as [(z & Hz & [E1 E2])|]; [|lia]. rewrite E2. apply Hk; [exact Hz | congruence].
Qed.

Lemma stays_tail p q c d rest :
  parser_ok p -> open_components p = c :: rest -> open_components q = d :: rest ->
  good_component d -> (next_addr p <= next_addr q)%positive ->
  evolves (next_addr p) (next_addr q) (co_properties c) (co_properties d) ->
  level q = level p -> 0 <= error_count q <= MAXIMUM_ALLOWED_ERRORS + 1 -> stays p q.
Proof.
  intros [Hl Ho He Ha] Ep Eq Hd Hn Hev El Ee. rewrite Ep in Ho, Ha. inversion_clear Ho. inversion_clear Ha as [|? ? Hac Har].
  split; [|split; [now rewrite Ep, Eq | split; [exact Hn|]]].
  - constructor; [|rewrite Eq; now constructor | exact Ee | rewrite Eq].
    + now rewrite El, Hl, Ep, Eq.
    + constructor.
      * rewrite Forall_forall in *. intros y Hy. apply Hev in Hy as [(x & Hx & [Exy _])|]; [|lia].
        rewrite Exy. specialize (Hac x Hx). lia.
      * eapply Forall_impl; [|exact Har]. cbv beta. intros e. apply Forall_impl. intros y. lia.
  - unfold tail_properties. now rewrite Ep, Eq.
Qed.

Lemma stays_new_addr p : parser_ok p -> stays p (snd (new_addr p)).
Proof.
  intros [H1 H2 H3 H4]. split; [constructor; try assumption|split; [reflexivity|split; [cbn; lia | apply evolves_refl]]].
  cbn. eapply Forall_impl; [|exact H4]. cbv beta. intros c. apply Forall_impl. intros y. lia.
Qed.

Lemma stays_state s p : parser_ok p -> stays p (set_parser_state s p).
Proof. intros [H1 H2 H3 H4]. split; [now constructor|]. split; [reflexivity|]. split; [cbn; lia | apply evolves_refl]. Qed.

(** ** Properties *)

Lemma good_set_parameters ps n it p : good_property p -> good_property (set_parameters ps n it p).
Proof. intros [H1 H2 H3]. now constructor. Qed.

Lemma runs_value_param_kind q : runs (value_param_kind q) any.
Proof.
  unfold value_param_kind. eapply runs_bind with (P := any); [unfold icalparameter_get_value; run; exact I|].
  intros v _. now apply runs_ret.
Qed.

Lemma runs_set_value v p :
  good_property p -> typed v -> (text_property (pr_kind p) = true -> v_kind v = ICAL_TEXT_VALUE) ->
  runs (icalproperty_set_value (Some v) p) (fun q => good_property q /\ same_property p q).
Proof.
  intros [Hk _ _] Hv Ht. unfold icalproperty_set_value.
  set (p1 := with_value (Some (icalvalue_set_parent (Some (pr_kind p)) v)) p).
  assert (good_property p1 /\ same_property p p1) as H1.
  { split; [|now split]. constructor; [exact Hk | |]; cbn [p1 with_value pr_value pr_kind].
    - intros w [= <-]. exact Hv.
    - intros w Hw [= <-]. now apply Ht. }
  cbv zeta. case_if; [|now apply runs_ret]. unfold icalproperty_get_first_parameter.
  destruct (iterate _ _ _) as [val_param it].
  assert (good_property (set_iterator it p1) /\ same_property p (set_iterator it p1)) as H2.
  { destruct H1. split; [now apply good_set_parameters | assumption]. }
  destruct val_param as [q|]; [|now apply runs_ret]. eapply runs_bind; [apply runs_value_param_kind|].
  intros k _. apply runs_ret. case_if; [|exact H2]. destruct H2 as [G1 G2].
  unfold icalproperty_remove_parameter_by_kind, remove_first_parameter.
  destruct (search_from _ _ _); [|now split]. split; [now apply good_set_parameters | exact G2].
Qed.

(** ** Errors *)

Lemma runs_xlicerror_addr addr text type :
  runs (icalproperty_vanew_xlicerror addr text type)
    (fun r => match r with Some p => good_property p /\ pr_addr p = addr | None => True end).
Proof.
  unfold icalproperty_vanew_xlicerror, icalparameter_new_xlicerrortype.
  eapply runs_bind with (P := any); [run; exact I|]. intros q _.
  unfold icalproperty_new_impl. case_if; [|now apply runs_badarg].
  eapply runs_bind; [apply runs_set_value; [constructor; cbn; congruence | reflexivity | reflexivity]|].
  intros p [Hp [Ha _]]. apply runs_ret. split; [now apply good_set_parameters | exact Ha].
Qed.

Lemma evolves_snoc lo ps q : pr_addr q = lo -> evolves lo (Pos.succ lo) ps (ps ++ [q]).
Proof.
  intros E. split.
  - intros x Hx. exists x. split; [apply in_or_app; now left | now split].
  - intros y [Hy|[<-|[]]]%in_app_or; [left; exists y; split; [exact Hy | now split] | right; lia].
Qed.

Lemma runs_insert_error p comp text message type :
  parser_ok p -> good_component comp ->
  runs (insert_error p comp text message type)
    (fun r => good_component (snd r) /\
       evolves (next_addr p) (next_addr (fst r)) (co_properties comp) (co_properties (snd r)) /\
       open_components (fst r) = open_components p /\ level (fst r) = level p /\
       (next_addr p <= next_addr (fst r))%positive /\
       0 <= error_count (fst r) <= MAXIMUM_ALLOWED_ERRORS + 1).
Proof.
  intros [_ _ He _] Hc. unfold insert_error. destruct (Z.ltb_spec MAXIMUM_ALLOWED_ERRORS (error_count p)).
  { apply runs_ret. cbn [fst snd]. split; [exact Hc|]. split; [apply evolves_refl|]. repeat split; lia. }
  cbn [new_addr]. eapply runs_bind; [apply runs_xlicerror_addr|]. intros [q|] Hq.
  - destruct Hq as [Hq Ha]. apply runs_ret. cbn [fst snd]. split; [now apply good_add_property|].
    split; [now apply evolves_snoc | cbn; repeat split; lia].
  - eapply runs_bind; [apply runs_set_errno|]. intros _ _. apply runs_ret. cbn.
    split; [exact Hc|]. split; [apply evolves_refl|]. repeat split; lia.
Qed.

Lemma ok_tail p c rest : parser_ok p -> open_components p = c :: rest -> good_component c.
Proof. intros [_ H _ _] E. rewrite E in H. now inversion_clear H. Qed.

Lemma runs_error_in_tail p text message type :
  parser_ok p -> open_components p <> [] -> runs (insert_error_in_tail p text message type) (stays p).
Proof.
  intros Hp Ho. unfold insert_error_in_tail. destruct (open_components p) as [|tail rest] eqn:E; [congruence|].
  eapply runs_bind; [apply runs_insert_error; [exact Hp | now apply (ok_tail p tail rest)]|].
  intros [q d] (Hd & Hev & _ & Hl & Hn & He). cbn [fst snd] in *.
  apply runs_ret. now apply (stays_tail p _ tail d rest).
Qed.

(** ** The property that is being read *)

Lemma runs_update_property a (f : icalproperty -> err icalproperty) lo ps :
  Forall good_property ps ->
  (forall q, In q ps -> is_property a q = true -> runs (f q) (fun r => good_property r /\ same_property q r)) ->
  runs (update_property a f ps) (fun qs => Forall good_property qs /\ evolves lo lo ps qs).
Proof.
  intros Hps. induction Hps as [|q ps Hq Hps IH]; intros Hf; cbn [update_property].
  - apply runs_ret. split; [constructor | apply evolves_refl].
  - case_if.
    + eapply runs_bind; [apply Hf; [now left | exact E]|]. intros r [Hr Hra]. apply runs_ret. split; [now constructor|].
      split.
      * intros x [<-|Hin]; [exists r; split; [now left | exact Hra] | exists x; split; [now right | now split]].
      * intros y [<-|Hin]; left; [exists q; split; [now left | exact Hra] | exists y; split; [now right | now split]].
    + eapply runs_bind; [apply IH; intros x Hx; apply Hf; now right|]. intros qs [Hqs [Hin1 Hin2]]. apply runs_ret.
      split; [now constructor|]. split.
      * intros x [<-|Hx]; [exists q; split; [now left | now split]|].
        destruct (Hin1 x Hx) as (y & Hy & Hxy). exists y. split; [now right | exact Hxy].
      * intros y [<-|Hy]; [left; exists q; split; [now left | now split]|].
        destruct (Hin2 y Hy) as [(x & Hx & Hxy)|]; [|lia]. left. exists x. split; [now right | exact Hxy].
Qed.

Lemma runs_update_tail a f p :
  parser_ok p -> open_components p <> [] ->
  (forall q, good_property q -> In q (tail_properties p) -> pr_addr q = a ->
     runs (f q) (fun r => good_property r /\ same_property q r)) ->
  runs (update_tail_property a f p) (stays p).
Proof.
  intros Hp Ho Hf. unfold update_tail_property, tail_properties in *.
  destruct (open_components p) as [|c rest] eqn:E; [congruence|].
  pose proof (ok_tail p c rest Hp E) as Hc. pose proof (good_inv c Hc) as [Hps _].
  pose proof Hps as Hps'. rewrite Forall_forall in Hps'.
  eapply runs_bind; [apply (runs_update_property a f (next_addr p)); [exact Hps|]; intros q Hin Hq|].
  { apply Hf; [auto | exact Hin | now apply Pos.eqb_eq]. }
  intros ps [Hgood Hev]. apply runs_ret.
  apply (stays_tail p _ c (with_properties ps (property_iterator c) c) rest); try assumption; try reflexivity.
  - now apply good_with_properties.
  - apply Hp.
Qed.

(** A new property becomes part of the component that is open. *)
Lemma runs_add_to_tail q p :
  parser_ok p -> open_components p <> [] -> good_property q -> pr_addr q = next_addr p ->
  runs (add_to_tail q (snd (new_addr p))) (fun r => stays p r /\ tail_prop (pr_addr q) (pr_kind q) r).
Proof.
  intros Hp Ho Hq Ha. unfold add_to_tail. cbn [new_addr snd open_components].
  destruct (open_components p) as [|c rest] eqn:E; [congruence|]. apply runs_ret. split.
  - apply (stays_tail p _ c (icalcomponent_add_property q c) rest); try assumption; try reflexivity.
    + apply good_add_property; [exact Hq | now apply (ok_tail p c rest)].
    + cbn [next_addr set_open]. lia.
    + now apply evolves_snoc.
    + apply Hp.
  - destruct Hp as [_ _ _ Hp]. rewrite E in Hp. inversion_clear Hp as [|? ? Hc _]. rewrite Forall_forall in Hc.
    unfold tail_prop, tail_properties. cbn. split; [|split; [|lia]].
    + exists (icalproperty_set_parent (Some (co_addr c)) q). split; [apply in_or_app; right; now left | reflexivity].
    + intros x [Hx|[<-|[]]]%in_app_or; [|reflexivity]. intros Ex. specialize (Hc x Hx). lia.
Qed.

(** Taking the property out again keeps the stack. *)
Definition same_depth (p q : icalparser) : Prop :=
  parser_ok q /\ length (open_components q) = length (open_components p).

Lemma stays_same_depth p q : stays p q -> same_depth p q.
Proof. intros (H1 & H2 & _). now split. Qed.

Lemma same_depth_trans p q r : same_depth p q -> same_depth q r -> same_depth p r.
Proof. intros [_ H1] [H2 H3]. split; [exact H2 | congruence]. Qed.

Lemma remove_property_in a c x :
  In x (co_properties (snd (icalcomponent_remove_property a c))) -> In x (co_properties c).
Proof.
  unfold icalcomponent_remove_property. destruct (find _ _) as [p|]; [|auto].
  destruct (icalproperty_get_parent p); [|auto]. destruct (unlink_loop _ _ _ _ _) as [ps it] eqn:E. cbn. intros Hx.
  apply (in_unlink_loop (length (co_properties c)) (is_property a) x _ 0 (property_iterator c)). now rewrite E.
Qed.

Lemma runs_remove_from_tail a p : parser_ok p -> open_components p <> [] -> runs (remove_from_tail a p) (same_depth p).
Proof.
  intros Hp Ho. unfold remove_from_tail. destruct (open_components p) as [|c rest] eqn:E; [congruence|].
  apply runs_ret. destruct Hp as [Hl Hg He Ha]. rewrite E in *. inversion_clear Hg as [|? ? Hc Hr].
  inversion_clear Ha as [|? ? Hac Har]. split; [|now rewrite E].
  constructor; [exact Hl | constructor; [now apply good_remove_property | exact Hr] | exact He|].
  constructor; [|exact Har]. cbn [next_addr set_open]. rewrite Forall_forall in *. intros x Hx. apply Hac.
  now apply remove_property_in in Hx.
Qed.

Lemma runs_drop p a str message :
  parser_ok p -> open_components p <> [] -> runs (drop_property p a str message) (same_depth p).
Proof.
  intros Hp Ho. unfold drop_property. eapply runs_bind; [now apply runs_error_in_tail|]. intros q Hq.
  pose proof (stays_open p q Hq Ho) as Hqo. eapply runs_bind; [apply runs_remove_from_tail; [apply Hq | exact Hqo]|].
  intros r Hr. apply runs_ret. eapply same_depth_trans; [apply stays_same_depth, Hq|].
  eapply same_depth_trans; [exact Hr|]. apply stays_same_depth, stays_state, Hr.
Qed.

(** ** Parameters *)

Lemma runs_new_from_value kind v : runs (icalparameter_new_from_value_string kind v) any.
Proof. unfold icalparameter_new_from_value_string. destruct v; [run; exact I | now apply runs_badarg]. Qed.

Lemma split_parameter_name str name on_heap v :
  split_parameter str = Some (name, on_heap, v) -> (length name < length str)%nat.
Proof.
  unfold split_parameter, parser_get_param_name_stack, parser_get_param_name_heap.
  destruct (parser_get_next_char "=" str true) as [n|] eqn:En; [|discriminate].
  apply get_next_char_bounds in En as [Hn _].
  assert (length (firstn n str) = n) as Hf by (rewrite length_firstn; lia).
  pose proof (piece_length _ _ (piece_rtrim (firstn n str))) as Hr. rewrite Hf in Hr.
  destruct (param_value_range (skipn (S n) str)) as [[w m]|]; cbn [option_map]; [|discriminate].
  case_if; cbn [option_map]; intros [= <- _ _]; unfold make_segment; lia.
Qed.

Lemma runs_read_tzid line str fin name on_heap v :
  (length name + 2 <= fin)%nat -> runs (read_tzid line str fin name on_heap v) (fun r => (fin <= snd r)%nat).
Proof.
  intros Hn. unfold read_tzid.
  set (semi := option_map (fun n => (fin + n)%nat) (parser_get_next_char ";" (skipn fin line) true)).
  set (colon := last_colon (S (length line)) line fin None).
  assert (forall c, match colon, semi with
                    | Some c, Some s => if Nat.ltb s c then semi else colon
                    | _, _ => colon end = Some c -> (fin < c)%nat) as Hc.
  { intros c H. assert (forall x, semi = Some x -> (fin < x)%nat) as Hs.
    { subst semi. intros x. destruct (parser_get_next_char _ _ _) as [n|] eqn:En; cbn; [|discriminate].
      apply get_next_char_bounds in En as [Hb _]. intros [= <-]. lia. }
    assert (forall x, colon = Some x -> (fin < x)%nat) as Hl.
    { subst colon. intros x Hx. apply last_colon_bounds in Hx as [|]; [discriminate | lia]. }
    destruct colon as [x|]; [|discriminate]. destruct semi as [y|]; [|now apply Hl].
    destruct (Nat.ltb y x); [now apply Hs | now apply Hl]. }
  eapply runs_bind with (P := fun r => (fin <= snd r)%nat).
  - cbv zeta. destruct (match colon with Some c => match semi with Some s => if Nat.ltb s c then semi else colon | None => colon end | None => colon end) as [c|] eqn:E.
    + specialize (Hc c). replace (match colon, semi with
                    | Some c, Some s => if Nat.ltb s c then semi else colon
                    | _, _ => colon end) with (Some c) in Hc by (rewrite <- E; destruct colon, semi; reflexivity).
      specialize (Hc eq_refl). case_if; [|now apply runs_ret].
      destruct (Nat.ltb_spec c (length name + 2)); [lia|]. apply runs_ret. cbn. lia.
    + now apply runs_ret.
  - intros [s f] Hf. cbn [snd] in Hf. apply runs_ret. destruct (parser_get_param_name_stack s) as [[]|]; exact Hf.
Qed.

Lemma runs_make_parameter line str fin name on_heap v :
  (length name + 2 <= fin)%nat ->
  runs (make_parameter tok line str fin name on_heap v)
    (fun r => match r with Some (_, f) => (fin <= f)%nat | None => True end).
Proof.
  intros Hn. unfold make_parameter. cbv zeta. case_if; [now apply runs_ret|]. case_if.
  { destruct (ical_get_unknown_token_handling_setting tok); now apply runs_ret. }
  case_if.
  { eapply runs_bind; [now apply runs_read_tzid|]. intros [w f] Hf. cbn [snd] in Hf.
    eapply runs_bind; [apply runs_new_from_value|]. intros q _. now apply runs_ret. }
  case_if; [|now apply runs_ret]. eapply runs_bind; [apply runs_new_from_value|]. intros q _. now apply runs_ret.
Qed.

(** The kind of value stays TEXT for the properties that are texts. *)
Definition value_kind_ok (k : icalproperty_kind) (vk : icalvalue_kind) : Prop :=
  text_property k = true -> icalproperty_kind_is_valid k = true -> vk = ICAL_TEXT_VALUE.

Lemma valid_row k : icalproperty_kind_is_valid k = true -> exists m, row_of k = Some m.
Proof.
  unfold icalproperty_kind_is_valid, row_of. case_if; [discriminate|]. intros H. apply existsb_exists in H as (m & Hin & Hm).
  destruct (find _ _) eqn:Ef; [eauto|]. apply (find_none _ _ Ef) in Hin. congruence.
Qed.

Lemma default_kind_ok k : value_kind_ok k (icalproperty_kind_to_value_kind k).
Proof.
  intros Ht Hv. destruct (valid_row k Hv) as [m Em]. destruct (rows k m Ht Em) as (Hd & _).
  unfold icalproperty_kind_to_value_kind. now rewrite Em, Hd.
Qed.

Lemma valid_kind_ok k vk : icalproperty_value_kind_is_valid k vk = true -> value_kind_ok k vk.
Proof.
  intros H Ht Hv. destruct (valid_row k Hv) as [m Em]. destruct (rows k m Ht Em) as (_ & Hval & _).
  unfold icalproperty_value_kind_is_valid in H. rewrite Em, Hval in H.
  destruct (kind_eqb vk ICAL_NO_VALUE); [discriminate|].
  destruct (Z.eqb_spec k ICAL_X_PROPERTY) as [->|]; [discriminate Ht|].
  cbn [existsb] in H. rewrite orb_false_r in H. unfold kind_eqb in H. destruct (value_kind_dec _ _); congruence.
Qed.

Lemma multivalued_kind_ok k vk :
  value_kind_ok k vk -> value_kind_ok k (snd (icalproperty_value_kind_is_multivalued k vk)).
Proof.
  intros H Ht Hv. destruct (valid_row k Hv) as [m Em]. destruct (rows k m Ht Em) as (_ & _ & Hs).
  unfold icalproperty_value_kind_is_multivalued. rewrite Em, Hs. cbn. now apply H.
Qed.

(** What the loop over the parameters keeps true. *)
Definition progress_ok (k : icalproperty_kind) (p : icalparser) (lp : line_progress) : Prop :=
  stays p (lp_parser lp) /\ value_kind_ok k (lp_value_kind lp) /\ (2 <= lp_end lp)%nat.

Lemma runs_accept_parameter k a str param fin lp p :
  open_components p <> [] -> (2 <= fin)%nat -> progress_ok k p lp ->
  runs (accept_parameter k a str param fin lp) (fun l => progress_ok k p l /\ lp_end l = fin).
Proof.
  intros Ho Hfin (Hst & Hvk & _). pose proof (stays_open _ _ Hst Ho) as Hlo. pose proof Hst as (Hok & _).
  assert (forall vk, value_kind_ok k vk ->
    runs (q <- update_tail_property a (fun q => ret (icalproperty_add_parameter param q)) (lp_parser lp) ;;
          ret (Progress fin (lp_pcount lp + 1) vk q)) (fun l => progress_ok k p l /\ lp_end l = fin)) as Hadd.
  { intros vk Hk. eapply runs_bind.
    - apply runs_update_tail; [exact Hok | exact Hlo|]. intros q Hq _ _. apply runs_ret.
      split; [now apply good_set_parameters | now split].
    - intros q Hq. apply runs_ret. split; [|reflexivity]. split; [now apply (stays_trans _ (lp_parser lp))|].
      split; assumption. }
  unfold accept_parameter. cbv zeta. case_if; [|now apply Hadd].
  eapply runs_bind; [apply runs_value_param_kind|]. intros vk _. case_if; [apply Hadd; now apply valid_kind_ok|].
  eapply runs_bind; [now apply runs_error_in_tail|]. intros q Hq. apply runs_ret. split; [|reflexivity].
  split; [|split; [apply default_kind_ok | exact Hfin]].
  eapply stays_trans; [exact Hst|]. eapply stays_trans; [exact Hq|]. apply stays_state, Hq.
Qed.

Lemma runs_read_parameters line fuel k a p : forall lp,
  open_components p <> [] -> progress_ok k p lp -> (length line - lp_end lp < fuel)%nat ->
  runs (read_parameters tok fuel k a line lp) (progress_ok k p).
Proof.
  induction fuel as [|n IH]; intros lp Ho Hlp Hf; [lia|]. cbn [read_parameters].
  case_if; [now apply runs_ret|]. case_if; [now apply runs_ret|].
  pose proof Hlp as (Hst & Hvk & H2). pose proof (stays_open _ _ Hst Ho) as Hlo. pose proof Hst as (Hok & _).
  destruct (parser_get_next_parameter line (lp_end lp)) as [[str|] fin] eqn:En.
  - apply next_parameter_bounds in En as (Hb & Hpc & Hlen).
    destruct (split_parameter (strstriplt str)) as [[[name on_heap] pvalue]|] eqn:Es.
    + apply split_parameter_name in Es.
      pose proof (piece_length _ _ (piece_strip str)) as Hl.
      eapply runs_bind; [apply runs_make_parameter; lia|]. intros [[[param|] f]|] Hr.
      * eapply runs_bind; [apply runs_accept_parameter; [exact Ho | | exact Hlp]; lia|].
        intros l [Hl1 Hl2]. apply IH; [exact Ho | exact Hl1 | lia].
      * eapply runs_bind; [now apply runs_error_in_tail|]. intros q Hq. apply IH; [exact Ho | | cbn; lia].
        split; [|split; [exact Hvk | cbn; lia]].
        eapply stays_trans; [exact Hst|]. eapply stays_trans; [exact Hq|]. apply stays_state, Hq.
      * apply IH; [exact Ho | split; [exact Hst|]; split; [exact Hvk | cbn; lia] | cbn; lia].
    + eapply runs_bind; [now apply runs_error_in_tail|]. intros q Hq. apply runs_ret.
      split; [now apply (stays_trans _ (lp_parser lp))|]. split; [exact Hvk | cbn; lia].
  - apply runs_ret. split; [exact Hst|]. split; [exact Hvk|]. cbn.
    unfold parser_get_next_parameter in En. repeat match type of En with context [match ?x with _ => _ end] => destruct x end;
      try discriminate; injection En as <-; exact H2.
Qed.

(** ** Values *)

Lemma runs_clone_value v :
  typed v -> runs (icalvalue_clone v) (fun r => match r with Some w => typed w /\ v_kind w = v_kind v | None => True end).
Proof.
  intros H. unfold icalvalue_clone, icalvalue_new_impl. case_if; [|now apply runs_ret].
  assert (typed (set_data (v_data v) (Value (v_kind v) None None V_zero)) /\
          v_kind (set_data (v_data v) (Value (v_kind v) None None V_zero)) = v_kind v) as Hcopy by now split.
  destruct (v_kind v) eqn:Ek; try (now apply runs_ret); unfold typed in H; rewrite Ek in H.
  - apply runs_ret. now destruct (v_x v).
  - destruct (v_data v) as [| | | | | | | | | | |r] eqn:Ed; try discriminate H.
    unfold icalvalue_set_recur. case_if.
    + apply runs_bind_ret. now apply runs_ret.
    + eapply runs_bind; [now apply (runs_badarg _ (fun w => w = Value ICAL_RECUR_VALUE None None V_zero))|].
      intros w ->. now apply runs_ret.
  - destruct (v_data v) as [| | | | |e| | | | | |] eqn:Ed; try discriminate H. apply runs_bind_ret. apply runs_ret.
    case_if; [|exact Hcopy]. now destruct (v_x v).
Qed.

Lemma runs_clone_property addr p :
  good_property p ->
  runs (icalproperty_clone addr p)
    (fun r => match r with Some q => good_property q /\ pr_addr q = addr /\ pr_kind q = pr_kind p | None => False end).
Proof.
  intros [Hk Hv Ht]. unfold icalproperty_clone, icalproperty_new_impl. rewrite Hk.
  eapply runs_bind with (P := fun r => match r with
    | Some w => typed w /\ (text_property (pr_kind p) = true -> v_kind w = ICAL_TEXT_VALUE) | None => True end).
  - destruct (pr_value p) as [v|]; [|now apply runs_ret].
    eapply runs_weaken; [apply runs_clone_value; now apply Hv|]. cbv beta. intros [w|]; [|auto].
    intros [Hw Ew]. split; [exact Hw|]. intros Hx. rewrite Ew. now apply Ht.
  - intros r Hr. apply runs_ret. split; [|now split]. constructor; cbn [pr_kind pr_value]; [exact Hk | |].
    + intros v ->. apply Hr.
    + intros v Hx ->. now apply Hr.
Qed.

Lemma runs_property_for_value vcount a k p :
  parser_ok p -> open_components p <> [] -> tail_prop a k p ->
  runs (property_for_value vcount a p) (fun r => stays p (snd r) /\ tail_prop (fst r) k (snd r)).
Proof.
  intros Hp Ho Ha. unfold property_for_value. case_if; [apply runs_ret; split; [now apply stays_refl | exact Ha]|].
  destruct (open_components p) as [|c rest] eqn:Eo; [congruence|]. pose proof Ha as ((x & Hx & Ex) & Hk & _).
  unfold tail_properties in Hx, Hk. rewrite Eo in Hx, Hk.
  destruct (find (is_property a) (co_properties c)) as [prop|] eqn:Ef.
  - apply find_some in Ef as [Hin Hpa]. apply Pos.eqb_eq in Hpa.
    destruct (good_inv c (ok_tail p c rest Hp Eo)) as [Hps _]. rewrite Forall_forall in Hps.
    cbv beta iota zeta delta [new_addr]. eapply runs_bind; [apply runs_clone_property; now apply Hps|].
    intros [q|] Hq; [|contradiction]. destruct Hq as (Hq & Hqa & Hqk).
    eapply runs_bind; [apply (runs_add_to_tail q p Hp); [congruence | exact Hq | exact Hqa]|].
    intros r [Hr Hrp]. apply runs_ret. cbn [fst snd]. split; [exact Hr|]. rewrite Hqa, Hqk in Hrp.
    now rewrite (Hk prop Hin Hpa) in Hrp.
  - apply (find_none _ _ Ef) in Hx. unfold is_property in Hx. apply Pos.eqb_neq in Hx. congruence.
Qed.

Lemma runs_next_value_text k vk line fin :
  line_ok line -> (2 <= fin)%nat -> value_kind_ok k vk ->
  runs (next_value_text k vk line fin)
    (fun r => let '(str, vk', fin') := r in value_kind_ok k vk' /\
       match str with
       | Some s => value_text_ok s /\ (fin < fin')%nat /\ (fin < length line)%nat
       | None => True
       end).
Proof.
  intros Hl Hfin Hvk. unfold next_value_text. pose proof (multivalued_kind_ok k vk Hvk) as Hm.
  destruct (icalproperty_value_kind_is_multivalued k vk) as [[] vk']; cbn [snd] in Hm.
  - destruct (next_value_defined line fin vk' Hfin) as (str & f & -> & Hs). apply runs_ret. split; [exact Hm|].
    destruct str as [s|]; [|exact I]. destruct Hs as (H1 & H2 & H3). cbn. split; [|lia].
    now apply (stripped_value_ok s line).
  - pose proof (get_value_bounds line fin) as Hs. destruct (icalparser_get_value line fin) as [str f].
    apply runs_ret. split; [exact Hm|]. destruct str as [s|]; [|exact I]. destruct Hs as (H1 & H2 & H3). cbn.
    split; [|lia]. now apply (stripped_value_ok s line).
Qed.

Lemma runs_read_values line fuel k : forall a fin vk vcount p,
  line_ok line -> icalproperty_kind_is_valid k = true ->
  parser_ok p -> open_components p <> [] -> tail_prop a k p ->
  (2 <= fin)%nat -> value_kind_ok k vk -> (length line - fin < fuel)%nat ->
  runs (read_values fuel k a line fin vk vcount p) (fun r => same_depth p (snd r)).
Proof.
  induction fuel as [|n IH]; intros a fin vk vcount p Hl Hkv Hp Ho Ha Hfin Hvk Hf; [lia|]. cbn [read_values].
  case_if; [apply runs_ret; now apply stays_same_depth, stays_refl|].
  eapply runs_bind; [now apply runs_next_value_text|]. intros [[str vk'] fin'] [Hvk' Hstr]. destruct str as [str|].
  - destruct Hstr as (Htext & Hlt & Hlen). eapply runs_bind; [now apply (runs_property_for_value vcount a k)|].
    intros [a' q] [Hq Hqa]. cbn [fst snd] in *. pose proof Hq as (Hqok & _). pose proof (stays_open _ _ Hq Ho) as Hqo.
    pose proof (stays_new_addr q Hqok) as Hr. destruct (new_addr q) as [va r] eqn:Enew. cbn [snd] in Hr.
    pose proof Hr as (Hrok & _). pose proof (stays_open _ _ Hr Hqo) as Hro. pose proof (stays_prop _ _ _ _ Hr Hqa) as Hra.
    eapply runs_bind; [now apply runs_new_from_string|]. intros [v|] [Hv Hvt].
    + eapply runs_bind.
      { apply runs_update_tail; [exact Hrok | exact Hro|]. intros x Hx Hin Exa. apply runs_set_value; [exact Hx | exact Hv|].
        intros Ht. apply Hvt. apply Hvk'; [|exact Hkv]. destruct Hra as (_ & Hrk & _). now rewrite <- (Hrk x Hin Exa). }
      intros t Ht. eapply runs_weaken.
      * apply IH; try assumption; [apply Ht | now apply (stays_open r) | now apply (stays_prop r) | lia | lia].
      * cbv beta. intros res Hres. eapply same_depth_trans; [|exact Hres]. apply stays_same_depth.
        eapply stays_trans; [exact Hq|]. now apply (stays_trans _ r).
    + eapply runs_bind; [now apply runs_drop|]. intros t Ht. apply runs_ret. cbn [snd].
      eapply same_depth_trans; [|exact Ht]. apply stays_same_depth. now apply (stays_trans _ q).
  - case_if; [|apply runs_ret; now apply stays_same_depth, stays_refl].
    eapply runs_bind; [now apply runs_drop|]. intros t Ht. now apply runs_ret.
Qed.

(** ** Lines *)

Lemma runs_property_line p line str fin :
  line_ok line -> parser_ok p -> open_components p <> [] -> (2 <= fin)%nat ->
  runs (add_property_line tok p line str fin) (same_depth p).
Proof.
  intros Hl Hp Ho Hfin. unfold add_property_line. set (k := icalproperty_string_to_kind (Some str)).
  pose proof (stays_new_addr p Hp) as Hn. cbv zeta. unfold icalproperty_new.
  replace (new_addr p) with (next_addr p, snd (new_addr p)) by reflexivity.
  assert (runs (q <- insert_error_in_tail (snd (new_addr p)) (Some str) $"Parse error in property name"
                       ICAL_XLICERRORTYPE_PROPERTYPARSEERROR ;; ret (set_parser_state ICALPARSER_ERROR q)) (same_depth p)) as Herr.
  { eapply runs_bind; [apply runs_error_in_tail; [apply Hn | now apply (stays_open p)]|]. intros q Hq. apply runs_ret.
    apply stays_same_depth. eapply stays_trans; [exact Hn|]. eapply stays_trans; [exact Hq|]. apply stays_state, Hq. }
  destruct (k =? ICAL_NO_PROPERTY); [exact Herr|]. unfold icalproperty_new_impl.
  destruct (icalproperty_kind_is_valid k) eqn:Hkv; [|exact Herr].
  set (prop := if k =? ICAL_X_PROPERTY then _ else _).
  assert (good_property prop /\ pr_addr prop = next_addr p /\ pr_kind prop = k) as (Hg & Hga & Hgk).
  { subst prop. case_if; (split; [constructor; [exact Hkv | discriminate | discriminate] | now split]). }
  eapply runs_bind; [now apply (runs_add_to_tail prop p)|]. intros q [Hq Hqp]. rewrite Hga, Hgk in Hqp.
  pose proof Hq as (Hqok & _).
  eapply runs_bind.
  { apply (runs_read_parameters line (S (length line)) k (next_addr p) q); [now apply (stays_open p)| |cbn; lia].
    split; [now apply stays_refl|]. split; [apply default_kind_ok | exact Hfin]. }
  intros lp (Hst & Hvk & Hend). pose proof Hst as (Hlok & _). eapply runs_bind.
  { apply runs_read_values; try assumption; [|now apply (stays_prop q)|lia].
    apply (stays_open q _ Hst). now apply (stays_open p). }
  intros [complete r] Hr. cbn [snd] in Hr. apply runs_ret.
  assert (same_depth p r) as Hpr.
  { eapply same_depth_trans; [apply stays_same_depth, Hq|]. eapply same_depth_trans; [apply stays_same_depth, Hst | exact Hr]. }
  destruct complete; [|exact Hpr]. eapply same_depth_trans; [exact Hpr|]. apply stays_same_depth, stays_state, Hpr.
Qed.

Lemma runs_component_name line fin : (2 <= fin)%nat -> runs (component_name line fin) any.
Proof.
  intros H. unfold component_name. destruct (next_value_defined line fin ICAL_NO_VALUE H) as (str & f & -> & _).
  now apply runs_ret.
Qed.

(** The table of components answers "valid" for its own last entry. *)
Lemma component_kind_valid s : icalcomponent_kind_is_valid (icalcomponent_string_to_kind s) = true.
Proof. destruct (icalcomponent_string_to_kind s) eqn:E; try reflexivity; exfalso; revert E;
  (destruct s as [s|]; cbn [icalcomponent_string_to_kind]; [|discriminate]);
  destruct (find _ _) as [e|] eqn:Ef; try discriminate; apply find_some in Ef as [Hin _]; intros E;
  cbn [component_map In] in Hin; repeat (destruct Hin as [<-|Hin]; [discriminate E|]); contradiction.
Qed.

Lemma runs_begin p line fin : parser_ok p -> (2 <= fin)%nat -> runs (begin_component p line fin) parser_ok.
Proof.
  intros [Hl Ho He Ha] Hfin. unfold begin_component. eapply runs_bind; [now apply runs_component_name|]. intros str _.
  cbn [new_addr]. unfold icalcomponent_new, icalcomponent_new_impl. rewrite component_kind_valid.
  apply runs_bind_ret. apply runs_ret. constructor; cbn [level open_components error_count next_addr set_parser_state set_open set_level].
  - rewrite Hl. cbn [length]. lia.
  - constructor; [|exact Ho]. now constructor; constructor.
  - exact He.
  - constructor; [constructor|]. eapply Forall_impl; [|exact Ha]. cbv beta. intros c. apply Forall_impl. intros y. lia.
Qed.

(** What [icalparser_add_line] leaves behind. *)
Definition line_result (r : option icalcomponent * icalparser) : Prop :=
  parser_ok (snd r) /\
  match fst r with
  | Some c => good_component c /\ root_component (snd r) = None /\ open_components (snd r) = []
  | None => True
  end.

Lemma runs_end p line fin : parser_ok p -> (2 <= fin)%nat -> runs (end_component p line fin) line_result.
Proof.
  intros [Hl Ho He Ha] Hfin. unfold end_component. eapply runs_bind; [now apply runs_component_name|]. intros _ _.
  unfold close_component. cbn [open_components set_level].
  destruct (open_components p) as [|c [|tail rest]] eqn:E; cbn [length] in Hl.
  - apply runs_bind_ret. cbn [level set_root set_level]. rewrite Hl. apply runs_ret.
    split; [|exact I]. constructor; cbn; rewrite ?E; auto; constructor.
  - apply runs_bind_ret. cbn [level set_open set_root set_level open_components]. rewrite Hl. cbv iota beta.
    change (Z.of_nat 1 - 1 <? 0) with false. change (Z.of_nat 1 - 1 =? 0) with true. cbv iota.
    apply runs_bind_ret. cbn [open_components set_open set_root]. apply runs_ret. inversion_clear Ho as [|? ? Hc _].
    split; [|cbn; auto]. constructor; cbn; auto.
  - inversion_clear Ho as [|? ? Hc Ho']. inversion_clear Ho' as [|? ? Ht Hr]. inversion_clear Ha as [|? ? _ Ha'].
    inversion_clear Ha' as [|? ? Hat Har].
    eapply runs_bind.
    { eapply runs_bind; [now apply runs_add_child|].
      intros [t2 c2] [[Ht2 _ Ep _ _ _ _ _] Hc2]. cbn [fst snd] in *.
      apply runs_ret with (Q := fun q => parser_ok q /\ 0 < level q).
      split; [|cbn [level set_open set_root set_level]; lia].
      constructor; cbn [level open_components error_count next_addr set_open set_root set_level fst snd length].
      - lia.
      - now constructor.
      - exact He.
      - constructor; [now rewrite Ep | exact Har]. }
    intros q [Hq Hpos]. destruct (Z.ltb_spec (level q) 0); [lia|]. destruct (Z.eqb_spec (level q) 0); [lia|].
    apply runs_ret. split; [|exact I]. apply (stays_state ICALPARSER_END_COMP q Hq).
Qed.

(** Every content line is processed, whatever its text: no read outside the
    line, no failed assertion.  The level stays the number of open components, so
    that an END at level 0 always finds an empty stack; a component is returned
    only then. *)
Lemma runs_add_line p line :
  (forall l, line = Some l -> line_ok l) -> parser_ok p -> runs (icalparser_add_line tok p line) line_result.
Proof.
  intros Hline Hp. unfold icalparser_add_line.
  assert (forall s q, parser_ok q -> line_result (None, set_parser_state s q)) as Hstate.
  { intros s q Hq. split; [|exact I]. apply (stays_state s q Hq). }
  destruct line as [line|]; [|apply runs_ret; now apply Hstate]. specialize (Hline line eq_refl).
  case_if; [apply runs_ret; now split|].
  assert (runs (q <- match open_components p with
                     | [] => ret p
                     | _ => insert_error_in_tail p (Some line)
                              $"Got a data line, but could not find a property name or component begin tag"
                              ICAL_XLICERRORTYPE_COMPONENTPARSEERROR
                     end ;; ret (None, set_parser_state ICALPARSER_ERROR q)) line_result) as Herr.
  { eapply runs_bind with (P := parser_ok); [|intros q Hq; apply runs_ret; now apply Hstate].
    destruct (open_components p) eqn:Eo; [now apply runs_ret|].
    eapply runs_weaken; [apply runs_error_in_tail; [exact Hp | congruence]|]. intros q Hq. apply Hq. }
  destruct (parser_get_prop_name line) as [[str fin]|] eqn:En; [|exact Herr].
  destruct str as [|c str]; [exact Herr|]. apply prop_name_bounds in En as [Hfin _].
  case_if; [eapply runs_bind; [now apply runs_begin|]; intros q Hq; apply runs_ret; now split|].
  case_if; [now apply runs_end|].
  destruct (open_components p) as [|t r] eqn:Eo; [apply runs_ret; now apply Hstate|].
  eapply runs_bind; [apply runs_property_line; [exact Hline | exact Hp | congruence | exact Hfin]|].
  intros q [Hq _]. apply runs_ret. now split.
Qed.

(** ** A whole text *)

(** The lines of a text, one after the other, as [icalparser_parse] reads them. *)
Fixpoint parse_lines (lines : list cstring) (p : icalparser) (root : option icalcomponent)
  : err (option icalcomponent * icalparser) :=
  match lines with
  | [] => r <- icalparser_add_line tok p None ;; ret (root, snd r)
  | line :: lines =>
      r <- icalparser_add_line tok p (Some line) ;;
      let '(c, p) := r in
      r <- (match c with Some c => collect_root p root c | None => ret (root, p) end) ;;
      let '(root, p) := r in parse_lines lines p root
  end.

(** Reading the lines leaves the data of the generator in a state that does not
    depend on the parser, and keeps what every call of the generator keeps. *)
Lemma parse_loop_lines {G} (gen : cstring -> G -> bool * cstring * G) (Inv : G -> Prop)
  (keeps : forall out g, Inv g -> Inv (snd (gen out g))) fuel n : forall ls g lines,
  read_lines gen n fuel ls g = Some lines -> Inv g -> exists g', Inv g' /\ forall p root st,
  parse_loop tok gen n fuel ls g p root st = (r <- parse_lines lines p root ;; ret (r, g')) st.
Proof.
  assert (forall k q h line r q' h', Inv h -> get_line_loop gen k q h line = Some (r, q', h') -> Inv h') as Hget.
  { induction k as [|k IH]; intros q h line r q' h' Hh; cbn [get_line_loop]; [discriminate|].
    destruct (transfer q line) as [q1 l1]. pose proof (keeps (set_nth (TMP_BUF_SIZE - 1) ONE (temp q1)) h Hh) as Hk.
    destruct (gen _ h) as [[more tmp] h1]. cbn [snd] in Hk.
    repeat case_if; try (now apply IH); destruct l1; intros [= _ _ <-]; exact Hk. }
  induction n as [|n IH]; intros ls g lines; cbn [read_lines parse_loop]; [discriminate|].
  destruct (icalparser_get_line gen fuel ls g) as [[[line ls'] g']|] eqn:Eg; [|discriminate]. intros El Hg.
  assert (Inv g') as Hg' by now apply (Hget _ _ _ _ _ _ _ Hg Eg). destruct line as [line|].
  - destruct (read_lines gen n fuel ls' g') as [rest|] eqn:Er; [|discriminate]. injection El as <-.
    destruct (IH _ _ _ Er Hg') as (g2 & H2 & E2). exists g2. split; [exact H2|]. intros p root st. cbn [parse_lines].
    unfold bind in E2 |- *. destruct (icalparser_add_line tok p (Some line) st) as [[[c q] st1]|]; [|reflexivity].
    destruct ((match c with Some c => collect_root q root c | None => ret (root, q) end) st1) as [[[root' q'] st2]|];
      [|reflexivity]. now apply E2.
  - injection El as <-. exists g'. split; [exact Hg'|]. intros p root st. cbn [parse_lines]. reflexivity.
Qed.

Definition root_ok (root : option icalcomponent) : Prop := forall c, root = Some c -> good_component c.

Lemma runs_collect p root c :
  parser_ok p -> root_component p = None -> open_components p = [] -> good_component c -> root_ok root ->
  runs (collect_root p root c) (fun r => root_ok (fst r) /\ parser_ok (snd r)).
Proof.
  intros Hp Hr Ho Hc Hroot. unfold collect_root. rewrite Hr, Ho.
  assert (forall d, good_component d -> root_ok (Some d)) as Hsome by (intros d Hd e [= <-]; exact Hd).
  destruct root as [r|]; [|apply runs_ret; cbn; auto]. specialize (Hroot r eq_refl).
  pose proof (stays_new_addr p Hp) as Hn. case_if.
  - cbv beta iota zeta delta [new_addr]. unfold icalcomponent_new, icalcomponent_new_impl. cbn [icalcomponent_kind_is_valid].
    change (icalcomponent_kind_is_valid ICAL_XROOT_COMPONENT) with true. cbv iota.
    eapply runs_bind; [apply runs_add_component; [now constructor; constructor | exact Hroot]|]. intros x [Hx _].
    eapply runs_bind; [now apply runs_add_component|]. intros y [Hy _]. apply runs_ret. cbn [fst snd].
    split; [now apply Hsome | apply Hn].
  - eapply runs_bind; [now apply runs_add_component|]. intros y [Hy _]. apply runs_ret. cbn [fst snd]. auto.
Qed.

Lemma runs_parse_lines lines : forall p root,
  Forall line_ok lines -> parser_ok p -> root_ok root -> runs (parse_lines lines p root) (fun r => root_ok (fst r)).
Proof.
  induction lines as [|line lines IH]; intros p root Hl Hp Hr; cbn [parse_lines].
  - eapply runs_bind; [apply runs_add_line; [discriminate | exact Hp]|]. intros x _. now apply runs_ret.
  - inversion_clear Hl as [|? ? H1 H2]. eapply runs_bind; [apply runs_add_line; [intros l [= <-]; exact H1 | exact Hp]|].
    intros [c q] [Hq Hc]. cbn [fst snd] in *. eapply runs_bind with (P := fun r => root_ok (fst r) /\ parser_ok (snd r)).
    + destruct c as [c|]; [|now apply runs_ret]. destruct Hc as (G1 & G2 & G3). now apply runs_collect.
    + intros [root' q'] [G1 G2]. now apply IH.
Qed.

Lemma new_parser_ok next : parser_ok (icalparser_new next).
Proof. constructor; cbn; [reflexivity | constructor | unfold MAXIMUM_ALLOWED_ERRORS; lia | constructor]. Qed.
End ParserSafe.
