(* ===== verification/IcalParserTotal.v ===== *)
(** * Every text is parsed

    The line reader ends on every text without NUL characters, whatever its line
    breaks, and the parser that is fed with the lines ends too: the fuel of the
    model is enough, and the component that [icalparser_parse_string] returns is
    well formed. *)
From Stdlib Require Import String Ascii ZArith Lia Bool List.
From S2P Require Import Prelude CString IcalError IcalTime IcalTimeCalendar IcalValueText IcalValue IcalValueSafe IcalLine IcalParameter IcalProperty IcalComponent IcalParser IcalDesignData IcalParserSafe.
Import ListNotations.
#[local] Open Scope Z_scope.
#[local] Open Scope cstring_scope.
#[local] Open Scope err_scope.

(** ** Reading the lines of any text *)

Lemma upto_char_length c s l : upto_char c s = Some l -> (1 <= length l)%nat.
Proof. unfold upto_char. destruct (split_at c s) as [[a b]|]; [|discriminate]. intros [= <-]. rewrite length_app. cbn. lia. Qed.

Lemma set_nth_nul_free i c s : c <> NUL -> nul_free s -> nul_free (set_nth i c s).
Proof. intros Hc H. revert i. induction H as [|d s Hd Hs IH]; intros [|i]; cbn; constructor; auto; apply IH. Qed.

(** The generator gives at least one character as long as there is text. *)
Lemma generator_any str out pos :
  nul_free pos -> pos <> [] ->
  exists piece n,
    icalparser_string_line_generator str out (Some pos) = (true, overwrite out piece, Some (skipn n pos)) /\
    nul_free piece /\ piece <> [] /\ (length piece <= 79)%nat /\ (1 <= n)%nat.
Proof.
  intros Hn Hne. unfold icalparser_string_line_generator. destruct pos as [|c r]; [congruence|].
  set (pos := c :: r) in *.
  destruct (match upto_char LF pos with Some l => (false, length l) | None => _ end) as [cr size] eqn:Es.
  assert (1 <= size)%nat as H1.
  { destruct (upto_char LF pos) eqn:El; [injection Es as _ <-; now apply upto_char_length in El|].
    destruct (upto_char CR pos) eqn:Ec; injection Es as _ <-; [now apply upto_char_length in Ec | cbn; lia]. }
  set (n := Nat.min size (TMP_BUF_SIZE - 1)). assert (1 <= n <= 79)%nat as Hn79 by (subst n; unfold TMP_BUF_SIZE; lia).
  assert (nul_free (firstn n pos)) as Hf by now apply nul_free_firstn.
  assert (1 <= length (firstn n pos) <= 79)%nat as Hl by (rewrite length_firstn; cbn [length pos]; lia).
  pose (piece := if cr then set_nth (n - 1) LF (firstn n pos) else firstn n pos).
  assert (length piece = length (firstn n pos)) as El by (subst piece; destruct cr; [apply set_char_length | reflexivity]).
  exists piece, n. split; [now destruct cr|].
  split; [subst piece; destruct cr; [apply set_nth_nul_free; [discriminate | exact Hf] | exact Hf]|].
  split; [intros E; rewrite E in El; cbn [length] in El; lia | lia].
Qed.

(** The reader holds a piece, or it is at the end of the text. *)
Definition reading (p : line_state) (rest : cstring) : Prop :=
  nul_free rest /\ ((exists piece, loaded (temp p) piece) \/ (clear (temp p) /\ rest = [])).

Definition left_to_read (p : line_state) (rest : cstring) : nat :=
  (length rest + if Ascii.eqb (nth_char (temp p) 0) NUL then 0 else 1)%nat.

Lemma left_loaded p rest piece : loaded (temp p) piece -> left_to_read p rest = S (length rest).
Proof. intros H. destruct (loaded_head _ _ H) as (c & r & _ & E & Ec). unfold left_to_read. rewrite E, Ec. lia. Qed.

Lemma removelast_piece s : piece_of (removelast s) s.
Proof.
  destruct s as [|c s]; [apply piece_refl|]. exists [], [last (c :: s) NUL].
  rewrite app_nil_l. now apply app_removelast_last.
Qed.

Lemma appended_nul_free cont line piece : nul_free line -> nul_free piece -> nul_free (appended cont line piece).
Proof.
  intros Hl Hp. unfold appended, backup. destruct cont; apply nul_free_app; split; try assumption.
  - case_if; eauto using piece_nul_free, removelast_piece.
  - destruct Hp; [constructor | assumption].
Qed.

Lemma rtrim1_nul_free s : nul_free s -> nul_free (rtrim1 s).
Proof.
  intros [|c r Hc Hr]; constructor; [assumption|]. now apply (piece_nul_free _ r); [apply piece_rtrim|].
Qed.

Lemma finish_nul_free line : nul_free line -> nul_free (finish_line line).
Proof.
  intros H. unfold finish_line. apply rtrim1_nul_free.
  repeat case_if; try exact H; eauto using piece_nul_free, removelast_piece, piece_trans.
Qed.

(** A request ends, and the text that is left is shorter. *)
Lemma get_line_any str fuel : forall p rest line,
  reading p rest -> nul_free line -> (left_to_read p rest < fuel)%nat ->
  exists r p' rest', get_line_loop (icalparser_string_line_generator str) fuel p (Some rest) line = Some (r, p', Some rest') /\
    match r with
    | Some l => nul_free l /\ reading p' rest' /\ (left_to_read p' rest' <= left_to_read p rest)%nat /\
                (line = [] -> left_to_read p' rest' < left_to_read p rest)%nat
    | None => True
    end.
Proof.
  induction fuel as [|k IH]; intros [bf cont tmp] rest line [Hrest Hr] Hline Hfuel; [lia|].
  destruct Hr as [[piece Hp] | [[HL H0] ->]]; cbn [temp] in *.
  - cbn [get_line_loop]. rewrite (transfer_loaded _ _ _ _ _ Hp). cbn [temp buffer_full continuation_line].
    rewrite (left_loaded _ _ piece) in Hfuel |- * by exact Hp.
    set (line' := appended cont line piece).
    assert (nul_free line') as Hl'.
    { apply appended_nul_free; [assumption|]. rewrite <- (loaded_piece _ _ Hp). apply upto_nul_free. }
    destruct rest as [|c r].
    + assert (nth_char (set_nth 79 ONE (set_nth 0 NUL tmp)) 0 = NUL) as E0.
      { rewrite !nth_set_nth, set_char_length, (loaded_length _ _ Hp). reflexivity. }
      change (TMP_BUF_SIZE - 1)%nat with 79%nat. rewrite generator_end. cbn [negb andb]. rewrite E0.
      change (Ascii.eqb NUL NUL) with true. cbv iota. destruct line' eqn:El; [now eexists None, _, _|].
      eexists _, _, _. split; [reflexivity|]. split; [now apply finish_nul_free|].
      split; [split; [constructor|right; split; [split; [|exact E0]|reflexivity]]|].
      * cbn [temp]. now rewrite !set_char_length, (loaded_length _ _ Hp).
      * unfold left_to_read. cbn [temp length]. rewrite E0. cbn. lia.
    + destruct (generator_any str (set_nth (TMP_BUF_SIZE - 1) ONE (set_nth 0 NUL tmp)) (c :: r) Hrest ltac:(discriminate))
        as (piece2 & n & -> & H1 & H2 & H3 & H4).
      set (out := set_nth _ _ _). assert (loaded (overwrite out piece2) piece2) as Hl2.
      { apply overwrite_loaded; try assumption; subst out; [now rewrite !set_char_length, (loaded_length _ _ Hp)|].
        rewrite !nth_set_nth, !set_char_length, (loaded_length _ _ Hp). reflexivity. }
      cbn [negb andb].
      assert (forall b d, reading (LineState b d (overwrite out piece2)) (skipn n (c :: r))) as Hread.
      { intros b d. split; [now apply nul_free_skipn | left; eauto]. }
      assert (forall b d, left_to_read (LineState b d (overwrite out piece2)) (skipn n (c :: r)) < S (length (c :: r)))%nat as Hless.
      { intros b d. rewrite (left_loaded _ _ piece2) by exact Hl2. rewrite length_skipn. cbn [length]. lia. }
      assert (forall b d, exists r0 p' rest', get_line_loop (icalparser_string_line_generator str) k
                (LineState b d (overwrite out piece2)) (Some (skipn n (c :: r))) line' = Some (r0, p', Some rest') /\
              match r0 with
              | Some l => nul_free l /\ reading p' rest' /\ (left_to_read p' rest' <= S (length (c :: r)))%nat /\
                          (line = [] -> left_to_read p' rest' < S (length (c :: r)))%nat
              | None => True
              end) as Hagain.
      { intros b d. specialize (Hless b d).
        destruct (IH _ _ line' (Hread b d) Hl' ltac:(lia)) as (r0 & p' & rest' & E & HH).
        exists r0, p', rest'. split; [exact E|]. destruct r0 as [l|]; [|exact I]. destruct HH as (G1 & G2 & G3 & _).
        split; [exact G1|]. split; [exact G2|]. lia. }
      repeat case_if; try apply Hagain. eexists _, _, _. split; [reflexivity|].
      split; [now apply finish_nul_free|]. split; [apply Hread|]. split; [apply Nat.lt_le_incl, Hless | intros _; apply Hless].
  - cbn [get_line_loop]. unfold transfer. cbn [temp]. rewrite H0. change (Ascii.eqb NUL NUL) with true. cbv iota.
    cbn [temp buffer_full continuation_line]. rewrite generator_end. cbn [negb andb].
    assert (nth_char (set_nth (TMP_BUF_SIZE - 1) ONE tmp) 0 = NUL) as E0 by (rewrite nth_set_nth; exact H0).
    rewrite E0. change (Ascii.eqb NUL NUL) with true. cbv iota. destruct line as [|c r]; [now eexists None, _, _|].
    eexists _, _, _. split; [reflexivity|]. split; [now apply finish_nul_free|].
    split; [split; [constructor|right; split; [split; [|exact E0]|reflexivity]]|].
    + cbn [temp]. now rewrite set_char_length.
    + unfold left_to_read. cbn [temp length]. rewrite E0, H0. cbn. split; [lia | discriminate].
Qed.

(** Every request returns, so that all lines of the text are read. *)
Lemma read_lines_any str fuel n : forall p rest,
  reading p rest -> (left_to_read p rest < fuel)%nat -> (left_to_read p rest < n)%nat ->
  exists lines, read_lines (icalparser_string_line_generator str) n fuel p (Some rest) = Some lines /\ Forall nul_free lines.
Proof.
  induction n as [|n IH]; intros p rest Hp Hf Hn; [lia|]. cbn [read_lines]. unfold icalparser_get_line.
  destruct (get_line_any str fuel p rest [] Hp ltac:(constructor) Hf) as ([l|] & p' & rest' & -> & H); [|now exists []].
  destruct H as (G1 & G2 & _ & G3). specialize (G3 eq_refl).
  destruct (IH p' rest' G2 ltac:(lia) ltac:(lia)) as (lines & -> & HL). exists (l :: lines). now split; [|constructor].
Qed.

Lemma skip_bom_piece s : piece_of (skip_bom s) s.
Proof.
  destruct s as [|a [|b [|c r]]]; try apply piece_refl. cbn [skip_bom]. case_if; [|apply piece_refl].
  exists [a; b; c], []. cbn. now rewrite app_nil_r.
Qed.

Lemma read_lines_start str n fuel :
  let gen := icalparser_string_line_generator str in
  read_lines gen n fuel icalparser_new_lines None = read_lines gen n fuel icalparser_new_lines (Some (skip_bom str)).
Proof. destruct n; [reflexivity|]. cbn [read_lines]. unfold icalparser_get_line. destruct fuel; reflexivity. Qed.

Lemma lines_total str : nul_free str -> exists lines, lines_of_string str = Some lines /\ Forall nul_free lines.
Proof.
  intros Hs. unfold lines_of_string. rewrite read_lines_start. pose proof (skip_bom_piece str) as Hb.
  pose proof (piece_nul_free _ _ Hb Hs) as Hn. apply piece_length in Hb. generalize dependent (skip_bom str). intros t Hb Hn.
  assert (t = [] \/ t <> []) as [-> | Hne] by (destruct t; [now left | now right]).
  - apply (read_lines_any str); [|unfold left_to_read; cbn; lia..]. split; [constructor|]. right. now split.
  - rewrite Nat.add_comm. cbn [Nat.add].
    destruct (generator_any str (set_nth (TMP_BUF_SIZE - 1) ONE (temp icalparser_new_lines)) t Hn Hne)
      as (piece & n & Eg & H1 & H2 & H3 & H4).
    set (out := set_nth _ _ _) in Eg. assert (loaded (overwrite out piece) piece) as Hl by (apply overwrite_loaded; auto).
    assert (icalparser_get_line (icalparser_string_line_generator str) (S (S (length str))) icalparser_new_lines (Some t)
            = Some (Some [], LineState false false (overwrite out piece), Some (skipn n t))) as Eq.
    { unfold icalparser_get_line. cbn [get_line_loop].
      replace (transfer icalparser_new_lines []) with (icalparser_new_lines, @nil ascii) by reflexivity.
      fold out. now rewrite Eg. }
    rewrite (read_lines_S _ _ _ _ _ _ _ _ Eq).
    assert (0 < length t)%nat as Ht by (destruct t; [congruence | cbn; lia]).
    assert (length (skipn n t) < length str)%nat as Hlen by (rewrite length_skipn; lia).
    destruct (read_lines_any str (S (S (length str))) (S (length str)) (LineState false false (overwrite out piece))
               (skipn n t)) as (lines & El & HL); rewrite ?(left_loaded _ _ piece) by exact Hl; try lia.
    + split; [now apply nul_free_skipn | left; eauto].
    + exists ([] :: lines). change (@Some (list ascii)) with (@Some cstring). rewrite El.
      split; [reflexivity|]. constructor; [constructor | exact HL].
Qed.

(** ** Properties *)

Section Total.
Context `{PROPS : PropertyTables} `{PARAMS : ParameterTables} `{FLOAT : FloatOps} `{TZ : TimezoneConv}.
Variable tok : ical_unknown_token_handling.

(** The errors are set aside around the loop over the lines. *)
Lemma runs_parse_string next str lines (Q : option icalcomponent -> Prop) :
  lines_of_string str = Some lines -> runs (parse_lines tok lines (icalparser_new next) None) (fun r => Q (fst r)) ->
  runs (icalparser_parse_string tok next str) Q.
Proof.
  intros E Hl. unfold icalparser_parse_string, icalparser_parse.
  eapply runs_bind; [apply runs_get_error_state|]. intros es Hes.
  eapply runs_bind; [apply runs_nonfatal_state|]. intros _ _.
  eapply runs_bind with (P := fun r => Q (fst (fst r))).
  - eapply runs_bind; [apply runs_get_error_state|]. intros es' Hes'.
    eapply runs_bind; [apply runs_nonfatal_state|]. intros _ _. eapply runs_bind with (P := fun r => Q (fst (fst r))).
    + destruct (parse_loop_lines tok _ (fun _ => True) ltac:(trivial) _ _ _ _ _ E I) as (g' & _ & Eg). intros st Hst. rewrite Eg.
      revert st Hst. eapply runs_bind; [exact Hl|]. intros r Hr. now apply runs_ret.
    + intros r Hr. eapply runs_bind; [now apply runs_set_error_state|]. intros _ _. now apply runs_ret.
  - intros r Hr. eapply runs_bind; [now apply runs_set_error_state|]. intros _ _. now apply runs_ret.
Qed.

Hypothesis rows : text_rows.

Lemma runs_parse next str lines :
  lines_of_string str = Some lines -> Forall line_ok lines ->
  runs (icalparser_parse_string tok next str) root_ok.
Proof.
  intros E Hl. apply (runs_parse_string next str lines _ E).
  apply (runs_parse_lines tok rows); [exact Hl | apply new_parser_ok | discriminate].
Qed.

(** C2: the parser is total and safe.  For every text without NUL characters the
    line reader finds all the lines; when no line has 24 or more commas (the
    arrays of a recurrence rule could overflow otherwise) and no error is fatal,
    [icalparser_parse_string] returns: every loop ends, no position outside the
    line is read, no assertion fails, and each property of the component that is
    returned has a kind of the table and a value whose data is the member of the
    union that belongs to its kind. *)
Theorem parser_total_and_safe (next : positive) (str : cstring) (st : error_state) :
  nul_free str -> quiet st ->
  exists lines, lines_of_string str = Some lines /\
    (Forall few_commas lines ->
     exists root st', icalparser_parse_string tok next str st = Some (root, st') /\ quiet st' /\
       (forall c, root = Some c -> good_component c)).
Proof.
  intros Hs Hst. destruct (lines_total str Hs) as (lines & E & Hn). exists lines. split; [exact E|]. intros Hc.
  apply (runs_parse next str lines E); [|exact Hst].
  rewrite Forall_forall in *. intros l Hl. split; auto.
Qed.

(** C14: The level of the parser is the number of open components.  From a state in
    which it is ([parser_ok]) and in which no error is fatal, [icalparser_add_line]
    returns on every line without NUL and with fewer than 24 commas, and leaves such a
    state, with at most 101 errors inserted; when a component is returned it is
    well formed, and the parser keeps neither a root nor an open component. *)
Theorem add_line_invariant (p : icalparser) (line : option cstring) (st : error_state) :
  (forall l, line = Some l -> line_ok l) -> parser_ok p -> quiet st ->
  exists c q st', icalparser_add_line tok p line st = Some ((c, q), st') /\ quiet st' /\ parser_ok q /\
    level q = Z.of_nat (length (open_components q)) /\ error_count q <= 101 /\
    match c with
    | Some c => good_component c /\ root_component q = None /\ open_components q = []
    | None => True
    end.
Proof.
  intros Hl Hp Hst. destruct (runs_add_line tok rows p line Hl Hp st Hst) as ([c q] & st' & E & Hq & Hok & Hc).
  exists c, q, st'. cbn [fst snd] in *. split; [exact E|]. split; [exact Hq|]. split; [exact Hok|].
  split; [apply Hok|]. split; [apply Hok | exact Hc].
Qed.
End Total.

(** C15: Values are well typed.  When no error is fatal, reading any text without NUL
    characters, without leading white space and with fewer than 24 commas as a value of
    any kind returns, and the value that is made holds the member of the union that its
    kind stands for; a value read as TEXT has the kind TEXT. *)
Theorem value_from_string_typed `{DT : DerivedTables} `{FL : FloatOps} (addr : positive) (kind : icalvalue_kind) (s : cstring)
  (st : error_state) :
  value_text_ok s -> quiet st ->
  exists r st', icalvalue_new_from_string addr kind s st = Some (r, st') /\ quiet st' /\
    forall v, r = Some v ->
      member_of (v_kind v) (v_data v) = true /\ (kind = ICAL_TEXT_VALUE -> v_kind v = ICAL_TEXT_VALUE).
Proof.
  intros Hs Hst. destruct (runs_new_from_string addr kind s Hs st Hst) as (r & st' & E & Hq & Ht & Hk).
  exists r, st'. split; [exact E|]. split; [exact Hq|]. intros v ->. split; [exact Ht | exact Hk].
Qed.

(** ** Examples *)

(** The tables of the design data fulfil the condition on text properties. *)
Lemma design_text_rows : text_rows (PROPS := design_properties).
Proof.
  intros k m Hk Hm. unfold text_property in Hk. rewrite !orb_true_iff, !Z.eqb_eq in Hk.
  destruct Hk as [[-> | ->] | ->]; vm_compute in Hm; injection Hm as <-; now split.
Qed.

#[local] Existing Instance text_floats.
#[local] Existing Instance utc_only.

Lemma initial_quiet : quiet (initial_error_state false).
Proof.
  split; [reflexivity|]. split; [|apply initial_map_ok].
  cbn. intros e s H. repeat (destruct H as [H|H]; [injection H as <- <-; discriminate|]). contradiction.
Qed.

Definition crlf (s : string) : cstring := $s ++ [CR; LF].

Definition sample_calendar : cstring :=
  crlf "BEGIN:VCALENDAR" ++ crlf "VERSION:2.0" ++ crlf "BEGIN:VEVENT" ++ crlf "UID:1" ++ crlf "NO-SUCH:1"
  ++ crlf "DTSTART;VALUE=DATE:20200229" ++ crlf "SUMMARY:a\, b" ++ crlf "END:VEVENT" ++ crlf "END:VCALENDAR".

Definition no_nul (s : cstring) : bool := forallb (fun c => negb (Ascii.eqb c NUL)) s.

Lemma no_nul_spec s : no_nul s = true -> nul_free s.
Proof.
  intros H. apply Forall_forall. intros c Hc. unfold no_nul in H. rewrite forallb_forall in H. specialize (H c Hc).
  intros ->. discriminate.
Qed.

Definition sample_read : option (list cstring) := lines_of_string sample_calendar.

(** The sample has nine lines and one error, which is inserted as a property. *)
Example sample_errors :
  match icalparser_parse_string ICAL_TREAT_AS_ERROR 1 sample_calendar (initial_error_state false) with
  | Some (Some c, _) => icalcomponent_count_errors c = 1 /\ length (co_components c) = 1%nat
  | _ => False
  end.
Proof. vm_compute. now split. Qed.

Lemma parser_total_and_safe_witness :
  exists root st', icalparser_parse_string ICAL_TREAT_AS_ERROR 1 sample_calendar (initial_error_state false) = Some (root, st') /\
    quiet st' /\ (forall c, root = Some c -> good_component c).
Proof.
  destruct (parser_total_and_safe ICAL_TREAT_AS_ERROR design_text_rows 1 sample_calendar (initial_error_state false)
              ltac:(apply no_nul_spec; reflexivity) initial_quiet) as (lines & E & H).
  apply H. assert (lines_of_string sample_calendar = sample_read) as E' by reflexivity. rewrite E' in E.
  vm_compute in E. injection E as <-. repeat constructor.
Defined.

Lemma add_line_invariant_witness :
  exists c q st', icalparser_add_line ICAL_TREAT_AS_ERROR (icalparser_new 1) (Some $"BEGIN:VEVENT") (initial_error_state false)
    = Some ((c, q), st') /\ quiet st' /\ parser_ok q /\
    level q = Z.of_nat (length (open_components q)) /\ error_count q <= 101 /\
    match c with
    | Some c => good_component c /\ root_component q = None /\ open_components q = []
    | None => True
    end.
Proof.
  apply (add_line_invariant ICAL_TREAT_AS_ERROR design_text_rows (icalparser_new 1) (Some $"BEGIN:VEVENT") (initial_error_state false)).
  - intros l [= <-]. split; [apply no_nul_spec; reflexivity | reflexivity].
  - apply new_parser_ok.
  - apply initial_quiet.
Defined.

Lemma value_from_string_typed_witness :
  exists r st', icalvalue_new_from_string 1 ICAL_RECUR_VALUE $"FREQ=DAILY;BYHOUR=1,2" (initial_error_state false) = Some (r, st') /\
    quiet st' /\ forall v, r = Some v ->
      member_of (v_kind v) (v_data v) = true /\ (ICAL_RECUR_VALUE = ICAL_TEXT_VALUE -> v_kind v = ICAL_TEXT_VALUE).
Proof.
  apply (value_from_string_typed 1 ICAL_RECUR_VALUE $"FREQ=DAILY;BYHOUR=1,2" (initial_error_state false)).
  - split; [apply no_nul_spec; reflexivity|]. split; reflexivity.
  - apply initial_quiet.
Defined.
