(* ===== verification/IcalParserExamples.v ===== *)
(** * The parser and the printer on concrete texts

    Runs of the model with the tables of the design data: what becomes of texts
    at the edges of the format. *)
From Stdlib Require Import String Ascii ZArith Lia Bool List.
From S2P Require Import Prelude CString IcalError IcalTime IcalTimeCalendar IcalValueText IcalValue IcalValueSafe IcalLine IcalParameter IcalProperty IcalComponent IcalParser IcalDesignData IcalParserSafe IcalParserTotal.
Import ListNotations.
#[local] Open Scope Z_scope.
#[local] Open Scope cstring_scope.
#[local] Open Scope err_scope.
#[local] Existing Instance text_floats.
#[local] Existing Instance utc_only.

(** Parse a text and print the component. *)
Definition reprint (tok : ical_unknown_token_handling) (text : cstring) : option (option cstring) :=
  option_map fst
    ((c <- icalparser_parse_string tok 1 text ;;
      match c with
      | Some c => r <- icalcomponent_as_ical_string_r c ;; ret (fst r)
      | None => ret None
      end) (initial_error_state false)).

(** Single quotes stand for double ones in these examples. *)
Definition quotes (s : cstring) : cstring := map (fun c => if Ascii.eqb c "'" then DQUOTE else c) s.

Definition text_of (ls : list string) : cstring := flat_map crlf ls.

Definition in_event (ls : list string) : cstring := text_of ("BEGIN:VEVENT"%string :: ls ++ ["END:VEVENT"%string]).

(** A calendar with folded lines, parameters, several values on a line and an
    enumerated value is printed as it was read. *)
Example calendar_reprinted :
  let t := text_of ["BEGIN:VCALENDAR"; "VERSION:2.0"; "BEGIN:VTIMEZONE"; "TZID:A"; "END:VTIMEZONE"; "BEGIN:VEVENT"; "UID:1";
                    "DTSTART;TZID=A:20200229T120000"; "DTEND;VALUE=DATE:20200301"; "SUMMARY:Hello\, World";
                    "ATTENDEE;CN=Foo;ROLE=CHAIR:mailto:a@b"; "RRULE:FREQ=DAILY;COUNT=3"; "END:VEVENT";
                    "END:VCALENDAR"]%string in
  reprint ICAL_TREAT_AS_ERROR t = Some (Some t).
Proof. vm_compute. reflexivity. Qed.

(** Time zones are put first, each before the ones that were there. *)
Example timezones_reversed :
  reprint ICAL_TREAT_AS_ERROR
    (text_of ["BEGIN:VCALENDAR"; "BEGIN:VTIMEZONE"; "TZID:A"; "END:VTIMEZONE"; "BEGIN:VTIMEZONE"; "TZID:B"; "END:VTIMEZONE";
              "END:VCALENDAR"]%string) =
  Some (Some (text_of ["BEGIN:VCALENDAR"; "BEGIN:VTIMEZONE"; "TZID:B"; "END:VTIMEZONE"; "BEGIN:VTIMEZONE"; "TZID:A";
                       "END:VTIMEZONE"; "END:VCALENDAR"]%string)).
Proof. vm_compute. reflexivity. Qed.

(** A component whose name is not known is kept without a kind and without an
    error, and cannot be printed. *)
Example unknown_component_unreported :
  match icalparser_parse_string ICAL_TREAT_AS_ERROR 1 (text_of ["BEGIN:NOSUCH"; "END:NOSUCH"]%string) (initial_error_state false) with
  | Some (Some c, _) => co_kind c = ICAL_NO_COMPONENT /\ icalcomponent_count_errors c = 0
  | _ => False
  end /\ reprint ICAL_TREAT_AS_ERROR (text_of ["BEGIN:NOSUCH"; "END:NOSUCH"]%string) = Some None.
Proof. vm_compute. repeat split. Qed.

(** A component that begins with X gets the kind X but not its name. *)
Example x_component_unprintable : reprint ICAL_TREAT_AS_ERROR (text_of ["BEGIN:X-FOO"; "END:X-FOO"]%string) = Some None.
Proof. vm_compute. reflexivity. Qed.

(** The names of components are compared up to the length of the table's name. *)
Example component_name_prefix :
  icalcomponent_string_to_kind (Some $"VEVENTFUL") = ICAL_VEVENT_COMPONENT /\
  icalcomponent_string_to_kind (Some $"XROOT") = ICAL_X_COMPONENT.
Proof. vm_compute. split; reflexivity. Qed.

(** A time zone with a colon that is not the first parameter. *)
Example tzid_after_parameter :
  reprint ICAL_TREAT_AS_ERROR (in_event ["DTSTART;X-A=b;TZID=GMT+05:30:20120904T020000"]%string) =
  Some (Some (quotes (in_event ["DTSTART;X-A=b;TZID='b;TZID=GMT+05:30':20120904T020000"]%string))).
Proof. vm_compute. reflexivity. Qed.

(** A caret is taken as safe and not doubled: the text of the parameter changes
    when it is read again. *)
Example caret_not_encoded :
  let p := Param ICAL_X_PARAMETER (Some $"a^nb") (Some $"X-P") None 0 in
  option_map fst (icalparameter_as_ical_string_r p (initial_error_state false)) = Some (Some $"X-P=a^nb") /\
  parser_decode_param_value $"a^nb" = $"a" ++ [LF] ++ $"b".
Proof. vm_compute. split; reflexivity. Qed.

(** A quoted parameter that ends in a backslash is not closed: neither the colon
    nor the value is found. *)
Example backslash_before_quote :
  parser_get_next_parameter (quotes $"X-P='C:\':value") 0 = (None, 0%nat).
Proof. vm_compute. reflexivity. Qed.

(** REQUIRED and REASON have the same number in parameters.csv. *)
Example required_becomes_reason :
  reprint ICAL_TREAT_AS_ERROR (in_event ["ATTENDEE;REQUIRED=TRUE:mailto:a@b"]%string) =
  Some (Some (in_event ["ATTENDEE;REASON=TRUE:mailto:a@b"]%string)).
Proof. vm_compute. reflexivity. Qed.

(** The count of the parameters is doubled by [icalproperty_normalize]: the list
    is built by [pvl_insert_ordered], which counts each element twice. *)
Example normalize_doubles_count :
  match icalproperty_new 1 ICAL_DTSTART_PROPERTY with
  | Some p =>
      let p := icalproperty_add_parameter (Param ICAL_TZID_PARAMETER (Some $"A") None None 0) p in
      let p := icalproperty_add_parameter (Param ICAL_X_PARAMETER (Some $"b") (Some $"X-A") None 0) p in
      match icalproperty_normalize p (initial_error_state false) with
      | Some (q, _) => length (pr_parameters q) = 2%nat /\ icalproperty_count_parameters q = 4
      | None => False
      end
  | None => False
  end.
Proof. vm_compute. split; reflexivity. Qed.

(** Going back from the end of the components gives nothing. *)
Example prior_after_end :
  match icalparser_parse_string ICAL_TREAT_AS_ERROR 1
          (text_of ["BEGIN:VCALENDAR"; "BEGIN:VEVENT"; "END:VEVENT"; "END:VCALENDAR"]%string) (initial_error_state false) with
  | Some (Some c, _) =>
      let it := icalcomponent_end_component c ICAL_VEVENT_COMPONENT in
      fst (icalcompiter_prior (co_components c) it) = None
  | _ => False
  end.
Proof. vm_compute. reflexivity. Qed.

(** A copy of an X component has no name. *)
Example clone_loses_x_name :
  match icalcomponent_new_x 1 $"X-FOO" with
  | Some c =>
      match icalcomponent_clone 2 c (initial_error_state false) with
      | Some ((Some d, _), _) => co_x_name c = Some $"X-FOO" /\ co_x_name d = None
      | _ => False
      end
  | None => False
  end.
Proof. vm_compute. split; reflexivity. Qed.
