(* ===== verification/IcalParameterText.v ===== *)
(** * The text of parameters

    What [icalparameter_as_ical_string_r] writes is found again in a content line
    by the scanners of the parser, and read back as the same parameter. *)
From Stdlib Require Import String Ascii ZArith Lia Bool List.
From S2P Require Import Prelude CString IcalError IcalTime IcalValueText IcalValue IcalValueSafe IcalLine IcalParameter IcalProperty IcalComponent IcalParser IcalDesignData IcalParserSafe.
Import ListNotations.
#[local] Open Scope Z_scope.
#[local] Open Scope cstring_scope.
#[local] Open Scope err_scope.

(** ** Scanning *)

Definition avoids (c : ascii) (s : cstring) : Prop := Forall (fun d => d <> c) s.

Lemma avoids_app c s t : avoids c (s ++ t) <-> avoids c s /\ avoids c t.
Proof. apply Forall_app. Qed.

(** A scan passes over text without the character and without quotes. *)
Lemma next_char_plain c qm s : forall prev q t p,
  avoids c s -> avoids DQUOTE s -> next_char c qm prev q (s ++ t) p = next_char c qm (last s prev) q t (p + length s).
Proof.
  induction s as [|d s IH]; intros prev q t p Hc Hq; [cbn [app last length]; now rewrite Nat.add_0_r|].
  inversion_clear Hc as [|? ? Hd Hc']. inversion_clear Hq as [|? ? Hdq Hq'].
  cbn [app next_char]. apply Ascii.eqb_neq in Hd, Hdq. rewrite Hd, Hdq, !andb_false_r.
  rewrite IH by assumption. cbn [length]. rewrite Nat.add_succ_r. destruct s as [|e s]; [reflexivity|].
  f_equal. change (last (d :: e :: s) prev) with (last (e :: s) prev). clear.
  revert e. induction s as [|f s IH]; intros e; [reflexivity | apply IH].
Qed.

(** Inside quotes it passes over everything but a quote. *)
Lemma next_char_quoted c s : forall prev t p,
  avoids DQUOTE s -> next_char c true prev true (s ++ t) p = next_char c true (last s prev) true t (p + length s).
Proof.
  induction s as [|d s IH]; intros prev t p Hq; [cbn [app last length]; now rewrite Nat.add_0_r|].
  inversion_clear Hq as [|? ? Hdq Hq']. cbn [app next_char]. apply Ascii.eqb_neq in Hdq. rewrite Hdq. cbn [andb negb].
  rewrite !andb_false_r. rewrite IH by assumption. cbn [length]. rewrite Nat.add_succ_r. destruct s as [|e s]; [reflexivity|].
  f_equal. change (last (d :: e :: s) prev) with (last (e :: s) prev). clear.
  revert e. induction s as [|f s IH]; intros e; [reflexivity | apply IH].
Qed.

(** A character that does not hide the one behind it. *)
Definition clear_char (c : ascii) : bool := negb (Ascii.eqb c NUL) && negb (Ascii.eqb c BACKSLASH).

Lemma next_char_found c qm prev t p :
  clear_char prev = true -> c <> DQUOTE -> next_char c qm prev false (c :: t) p = Some p.
Proof.
  unfold clear_char. intros H Hc. cbn [next_char]. rewrite H. apply Ascii.eqb_neq in Hc. rewrite Hc, andb_false_r.
  now rewrite Ascii.eqb_refl.
Qed.

Lemma next_char_quote c prev q t p :
  clear_char prev = true -> next_char c true prev q (DQUOTE :: t) p = next_char c true DQUOTE (negb q) t (S p).
Proof. unfold clear_char. intros H. cbn [next_char]. now rewrite H, Ascii.eqb_refl. Qed.

Lemma next_char_skip c qm prev q d t p : d <> c -> d <> DQUOTE ->
  next_char c qm prev q (d :: t) p = next_char c qm d q t (S p).
Proof. intros Hd Hq. cbn [next_char]. apply Ascii.eqb_neq in Hd, Hq. now rewrite Hd, Hq, !andb_false_r. Qed.

Lemma next_char_from c qm s : forall prev q p n, next_char c qm prev q s p = Some n -> (p <= n)%nat.
Proof.
  induction s as [|d s IH]; intros prev q p n; cbn [next_char]; [discriminate|].
  repeat case_if; [intros H; apply IH in H; lia | intros [= <-]; lia | intros H; apply IH in H; lia].
Qed.

(** ** Names *)

(** The characters of a name: letters, digits and the hyphen. *)
Definition name_char (c : ascii) : bool := between 48 57 c || between 65 90 c || between 97 122 c || Ascii.eqb c "-".

Definition name_ok (s : cstring) : bool := forallb name_char s && negb (Nat.eqb (length s) 0).

Lemma name_ok_not c s : name_char c = false -> name_ok s = true -> avoids c s.
Proof.
  intros Hc Hs. unfold name_ok in Hs. rewrite andb_true_iff, forallb_forall in Hs. destruct Hs as [Hs _].
  apply Forall_forall. intros d Hd ->. specialize (Hs _ Hd). congruence.
Qed.

Lemma name_ok_nil : name_ok [] = false.
Proof. reflexivity. Qed.

Lemma name_last s prev : name_ok s = true -> name_char (last s prev) = true.
Proof.
  intros H. unfold name_ok in H. rewrite andb_true_iff, forallb_forall in H. destruct H as [H Hl]. apply H.
  destruct s as [|c s]; [discriminate|]. clear. revert c. induction s as [|d s IH]; intros c; [now left | right; apply IH].
Qed.

Lemma name_char_facts c :
  name_char c = true -> clear_char c = true /\ isspace c = false /\ c <> NUL /\ c <> LF /\ c <> CR.
Proof.
  intros H. assert (forall d, name_char d = false -> c <> d) as Hne by (intros d Hd ->; congruence).
  repeat split; try (apply Hne; reflexivity).
  - unfold clear_char. rewrite !(proj2 (Ascii.eqb_neq _ _)); [reflexivity | apply Hne; reflexivity..].
  - unfold name_char, between in H. unfold isspace.
    destruct (Z.eqb_spec (code c) 32), (Z.leb_spec 9 (code c)), (Z.leb_spec (code c) 13); try reflexivity; exfalso;
      destruct (Ascii.eqb_spec c "-"); subst; try (cbn in *; lia); rewrite orb_false_r in H;
      rewrite !orb_true_iff, !andb_true_iff, !Z.leb_le in H; lia.
Qed.

(** ** Values *)

(** Characters that RFC 6868 and the table of safe characters can represent; the
    caret is not doubled by the writer. *)
Definition encodable (c : ascii) : bool :=
  negb (Ascii.eqb c "^") && (icalparameter_is_safe_char c true || Ascii.eqb c LF || Ascii.eqb c DQUOTE).

(** A value that survives: encodable, no white space and no backslash at its end. *)
Definition value_ok (s : cstring) : bool :=
  forallb encodable s && negb (isspace (last s NUL)) && negb (Ascii.eqb (last s NUL) BACKSLASH).

Definition enc (c : ascii) : cstring :=
  if Ascii.eqb c LF then $"^n" else if Ascii.eqb c DQUOTE then $"^'" else [c].

Lemma encode_enc qm c :
  encodable c = true -> qm = true \/ char_in c $";:," = false -> encode_char qm c = enc c.
Proof.
  unfold encodable, encode_char, enc. rewrite andb_true_iff, !orb_true_iff, !Ascii.eqb_eq. intros [Hc Hs] Hq.
  destruct (Ascii.eqb_spec c LF) as [->|H1]; [now destruct qm|].
  destruct (Ascii.eqb_spec c DQUOTE) as [->|H2]; [now destruct qm|].
  assert (icalparameter_is_safe_char c true = true) as Hsafe by (destruct Hs as [[Hs|Hs]|Hs]; congruence).
  destruct Hq as [-> | Hq]; [now rewrite Hsafe|]. destruct qm; [now rewrite Hsafe|].
  enough (icalparameter_is_safe_char c false = true) as -> by reflexivity. revert Hsafe Hq. clear.
  destruct c as [[] [] [] [] [] [] [] []]; vm_compute; congruence.
Qed.

Lemma encoded_enc s :
  forallb encodable s = true -> flat_map (encode_char (needs_quotes s)) s = flat_map enc s.
Proof.
  intros H. rewrite forallb_forall in H.
  assert (needs_quotes s = true \/ forall c, In c s -> char_in c $";:," = false) as Hq.
  { destruct s as [|c s]; [now left|]. cbn [needs_quotes]. destruct (existsb _ (c :: s)) eqn:E; [now left|]. right.
    intros d Hd. destruct (char_in d $";:,") eqn:Ed; [|reflexivity].
    rewrite <- E. symmetry. apply existsb_exists. now exists d. }
  generalize dependent (needs_quotes s). intros qm Hq. induction s as [|c s IH]; [reflexivity|]. cbn [flat_map].
  rewrite encode_enc; [f_equal; apply IH | apply H; now left | ].
  - intros d Hd. apply H. now right.
  - destruct Hq as [Hq|Hq]; [now left|]. right. intros d Hd. apply Hq. now right.
  - destruct Hq as [Hq|Hq]; [now left|]. right. apply Hq. now left.
Qed.

Lemma decode_cons c r : c <> "^"%char -> parser_decode_param_value (c :: r) = c :: parser_decode_param_value r.
Proof. intros H. apply Ascii.eqb_neq in H. destruct r; [reflexivity|]. cbn [parser_decode_param_value]. now rewrite H. Qed.

Lemma decode_enc s : forallb encodable s = true -> parser_decode_param_value (flat_map enc s) = s.
Proof.
  induction s as [|c s IH]; [reflexivity|]. cbn [forallb flat_map]. rewrite andb_true_iff. intros [Hc Hs].
  unfold enc at 1. destruct (Ascii.eqb_spec c LF) as [->|H1]; [cbn; now rewrite IH|].
  destruct (Ascii.eqb_spec c DQUOTE) as [->|H2]; [cbn; now rewrite IH|]. cbn [app].
  rewrite decode_cons, IH; [reflexivity | exact Hs |]. intros ->. discriminate.
Qed.

Lemma enc_avoids d s : d <> "^"%char -> d <> "n"%char -> d <> "'"%char ->
  (d = DQUOTE \/ d = LF \/ encodable d = false \/ ~ In d s) -> forallb encodable s = true -> avoids d (flat_map enc s).
Proof.
  intros H1 H2 H3 Hd Hs. apply Forall_forall. intros e He. apply in_flat_map in He as (c & Hc & He).
  rewrite forallb_forall in Hs. specialize (Hs c Hc). unfold enc in He.
  destruct (Ascii.eqb_spec c LF) as [->|N1].
  { cbn in He. destruct He as [<-|[<-|[]]]; congruence. }
  destruct (Ascii.eqb_spec c DQUOTE) as [->|N2].
  { cbn in He. destruct He as [<-|[<-|[]]]; congruence. }
  destruct He as [<-|[]]. intros ->. destruct Hd as [Hd|[Hd|[Hd|Hd]]]; congruence || contradiction.
Qed.

Lemma flat_enc_last s : s <> [] -> exists a, flat_map enc s = a ++ enc (last s NUL).
Proof.
  intros H. destruct (exists_last H) as (a & c & ->). exists (flat_map enc a).
  rewrite flat_map_app, last_last. cbn [flat_map]. now rewrite app_nil_r.
Qed.

Lemma enc_last s prev : value_ok s = true -> s <> [] ->
  clear_char (last (flat_map enc s) prev) = true /\ isspace (last (flat_map enc s) prev) = false.
Proof.
  unfold value_ok. rewrite !andb_true_iff, !negb_true_iff. intros [[He Hs] Hb] Hne.
  destruct (flat_enc_last s Hne) as [a ->]. rewrite forallb_forall in He.
  specialize (He (last s NUL) (last_in s NUL Hne)). unfold enc.
  destruct (Ascii.eqb_spec (last s NUL) LF) as [E|N1]; [now rewrite E in Hs|].
  destruct (Ascii.eqb_spec (last s NUL) DQUOTE) as [E|N2].
  { change $"^'" with (["^"%char] ++ ["'"%char]). rewrite app_assoc, last_last. now split. }
  rewrite last_last. split; [|exact Hs]. unfold clear_char. rewrite Hb.
  destruct (Ascii.eqb_spec (last s NUL) NUL) as [E|]; [now rewrite E in He | reflexivity].
Qed.

(** The written form of a value: as it is, or in quotes. *)
Inductive value_form (s : cstring) : cstring -> Prop :=
| plain_form : value_ok s = true -> needs_quotes s = false -> value_form s (flat_map enc s)
| quoted_form : value_ok s = true -> needs_quotes s = true -> value_form s (DQUOTE :: flat_map enc s ++ [DQUOTE]).

Lemma written_form s : value_ok s = true -> value_form s (icalparameter_append_encoded_value s).
Proof.
  intros H. pose proof H as H'. unfold value_ok in H'. rewrite !andb_true_iff in H'. destruct H' as [[He _] _].
  unfold icalparameter_append_encoded_value. rewrite (encoded_enc s He).
  destruct (needs_quotes s) eqn:Eq; [now apply quoted_form|]. rewrite app_nil_r. now apply plain_form.
Qed.

(** The text of an enumerated value is its own form. *)
Lemma name_form t : name_ok t = true -> value_form t t.
Proof.
  intros H. pose proof (name_last t NUL H) as Hl. apply name_char_facts in Hl as (Hc & Hs & _).
  pose proof (fun c Hc => name_ok_not c t Hc H) as Hno. assert (t <> []) as Hne by (intros ->; discriminate).
  unfold avoids in Hno. setoid_rewrite Forall_forall in Hno.
  assert (forall c, In c t -> name_char c = true) as Hin.
  { unfold name_ok in H. rewrite andb_true_iff, forallb_forall in H. apply H. }
  replace t with (flat_map enc t) at 2.
  - apply plain_form.
    + unfold value_ok, clear_char in *. apply andb_true_iff in Hc as [_ ->]. rewrite Hs. cbn [negb]. rewrite !andb_true_r.
      apply forallb_forall. intros c Hi. specialize (Hin c Hi). clear -Hin. destruct c as [[] [] [] [] [] [] [] []]; vm_compute in *; congruence.
    + destruct t as [|c t]; [congruence|]. cbn [needs_quotes].
      destruct (existsb _ _) eqn:E; [|reflexivity]. apply existsb_exists in E as (d & Hd & Ed). apply Hin in Hd.
      clear -Hd Ed. destruct d as [[] [] [] [] [] [] [] []]; vm_compute in *; congruence.
  - clear -Hno. induction t as [|c t IH]; [reflexivity|]. cbn [flat_map].
    rewrite IH by (intros d Hd e He; apply Hno; [exact Hd | now right]). unfold enc.
    rewrite !(proj2 (Ascii.eqb_neq _ _)); [reflexivity | apply (Hno DQUOTE); [reflexivity | now left]..| apply (Hno LF); [reflexivity | now left]].
Qed.

Definition text_chars (s : cstring) : Prop := avoids NUL s /\ avoids LF s /\ avoids CR s.

Lemma text_chars_app s t : text_chars (s ++ t) <-> text_chars s /\ text_chars t.
Proof. unfold text_chars. rewrite !avoids_app. tauto. Qed.

Lemma enc_text_chars s : forallb encodable s = true -> text_chars (flat_map enc s).
Proof.
  intros H. split; [|split]; apply enc_avoids; try discriminate; try exact H; [do 2 right; now left | right; now left | do 2 right; now left].
Qed.

Lemma form_encodable s e : value_form s e -> forallb encodable s = true.
Proof. intros [H _|H _]; unfold value_ok in H; rewrite !andb_true_iff in H; apply H. Qed.

Lemma needs_quotes_none s c : needs_quotes s = false -> In c $";:," -> ~ In c s.
Proof.
  intros H Hc Hin. destruct s as [|d s]; [discriminate|]. cbn [needs_quotes] in H.
  assert (existsb (fun c => char_in c $";:,") (d :: s) = true) as E; [|congruence].
  apply existsb_exists. exists c. split; [exact Hin|]. cbn in Hc. decompose [or] Hc; subst; reflexivity || contradiction.
Qed.

Section Form.
Context (n s e : cstring) (Hn : name_ok n = true) (Hf : value_form s e).

Let text := n ++ "="%char :: e.

Lemma form_text : text_chars text.
Proof.
  apply text_chars_app. split.
  - repeat split; apply (fun c H => name_ok_not c n H Hn); reflexivity.
  - apply (text_chars_app ["="%char] e). split; [repeat split; repeat constructor; discriminate|].
    pose proof (form_encodable s e Hf) as He. pose proof (enc_text_chars s He) as Ht. destruct Hf; [exact Ht|].
    apply (text_chars_app [DQUOTE]). split; [repeat split; repeat constructor; discriminate|].
    apply text_chars_app. split; [exact Ht|]. repeat split; repeat constructor; discriminate.
Qed.

Lemma form_nonempty : e <> [].
Proof. destruct Hf as [_ Hq|]; [|discriminate]. destruct s as [|c r]; [discriminate|]. cbn. unfold enc. now repeat case_if. Qed.

(** Neither separator is found in the text of a parameter. *)
Lemma scan_form c : In c $";:" ->
  exists prev, clear_char prev = true /\ isspace prev = false /\
    forall prev0 t p, next_char c true prev0 false (text ++ t) p = next_char c true prev false t (p + length text).
Proof.
  intros Hc. assert (name_char c = false /\ c <> DQUOTE /\ c <> "="%char /\ c <> "^"%char /\ c <> "n"%char /\ c <> "'"%char) as
    (Hc1 & Hc2 & Hc3 & Hc4 & Hc5 & Hc6) by (cbn in Hc; decompose [or] Hc; subst; try contradiction; repeat split; discriminate).
  pose proof (name_ok_not c n Hc1 Hn) as Hnc. pose proof (name_ok_not DQUOTE n eq_refl Hn) as Hnq.
  pose proof (form_encodable s e Hf) as He.
  assert (avoids DQUOTE (flat_map enc s)) as Hq by (apply enc_avoids; try discriminate; [now left | exact He]).
  assert (forall prev0 t p,
    next_char c true prev0 false (text ++ t) p = next_char c true "=" false (e ++ t) (p + length n + 1)) as H0.
  { intros prev0 t p. unfold text. rewrite <- app_assoc, next_char_plain by assumption. cbn [app].
    rewrite next_char_skip by (congruence || discriminate). f_equal. lia. }
  assert (length text = length n + 1 + length e)%nat as Hlen by (unfold text; rewrite length_app; cbn [length]; lia).
  destruct Hf as [Hok Hnq2 | Hok Hnq2].
  - exists (last (flat_map enc s) "="%char).
    assert (s <> []) as Hne by (intros ->; discriminate). destruct (enc_last s "=" Hok Hne) as [Hcl Hsp].
    split; [exact Hcl|]. split; [exact Hsp|]. intros prev0 t p. rewrite H0, Hlen, next_char_plain; [f_equal; lia | | exact Hq].
    apply enc_avoids; try assumption. do 3 right. apply (needs_quotes_none s c Hnq2).
    cbn in Hc |- *. tauto.
  - exists DQUOTE. split; [reflexivity|]. split; [reflexivity|]. intros prev0 t p. rewrite H0, Hlen. cbn [app length].
    rewrite next_char_quote by reflexivity. rewrite <- app_assoc, next_char_quoted by exact Hq. cbn [app].
    rewrite next_char_quote; [cbn [negb]; f_equal; rewrite length_app; cbn [length]; lia|].
    destruct s as [|d r]; [reflexivity|]. now apply enc_last.
Qed.
End Form.

(** ** Reading a parameter *)

Lemma rtrim_id s : isspace (last s NUL) = false -> rtrim s = s.
Proof. destruct s as [|c s]; [reflexivity|]. apply last_space_rtrim. discriminate. Qed.

Lemma last_default (s : cstring) a b : s <> [] -> last s a = last s b.
Proof. induction s as [|c s IH]; [congruence|]. intros _. destruct s; [reflexivity | now apply IH]. Qed.

(** The place of the value in the text that follows the equals sign. *)
Lemma form_range s e : value_form s e ->
  exists r, param_value_range e = Some (r, length (flat_map enc s)) /\ firstn (length (flat_map enc s)) r = flat_map enc s.
Proof.
  intros Hf. pose proof (form_encodable s e Hf) as He.
  assert (avoids DQUOTE (flat_map enc s)) as Hq by (apply enc_avoids; try discriminate; [now left | exact He]).
  destruct Hf as [Hok Hnq | Hok Hnq].
  - exists (flat_map enc s). split; [|apply firstn_all]. destruct (flat_map enc s) as [|c r]; [reflexivity|].
    cbn [param_value_range]. inversion_clear Hq as [|? ? Hc _]. apply Ascii.eqb_neq in Hc. now rewrite Hc.
  - exists (flat_map enc s ++ [DQUOTE]). split; [|now rewrite firstn_app, firstn_all, Nat.sub_diag, firstn_O, app_nil_r].
    cbn [param_value_range]. rewrite Ascii.eqb_refl. destruct s as [|d s]; [reflexivity|].
    destruct (enc_last (d :: s) NUL Hok ltac:(discriminate)) as [Hcl _].
    set (w := flat_map enc (d :: s)) in *. destruct w as [|c r] eqn:Ew; [subst w; cbn in Ew; unfold enc in Ew; now repeat case_if|].
    rewrite <- Ew in *. assert (w ++ [DQUOTE] = c :: r ++ [DQUOTE]) as E by now rewrite Ew. rewrite E.
    assert (c <> DQUOTE) as Hc by (rewrite Ew in Hq; now inversion Hq).
    apply Ascii.eqb_neq in Hc. rewrite Hc. rewrite <- E. unfold parser_get_next_char.
    enough (next_char DQUOTE false NUL false (w ++ [DQUOTE]) 0 = Some (length w)) as -> by reflexivity.
    assert (forall u prev q p, avoids DQUOTE u ->
      next_char DQUOTE false prev q (u ++ [DQUOTE]) p = next_char DQUOTE false (last u prev) q [DQUOTE] (p + length u)) as Hgo
      by (intros; now apply next_char_plain).
    rewrite Hgo by exact Hq. cbn [next_char]. unfold clear_char in Hcl. rewrite Hcl. now rewrite Ascii.eqb_refl.
Qed.

Lemma form_split n s e :
  name_ok n = true -> value_form s e -> exists on_heap, split_parameter (n ++ "="%char :: e) = Some (n, on_heap, s).
Proof.
  intros Hn Hf. pose proof (form_encodable s e Hf) as He. destruct (form_range s e Hf) as (r & Er & Efirst).
  assert (parser_get_next_char "=" (n ++ "="%char :: e) true = Some (length n)) as En.
  { unfold parser_get_next_char. rewrite next_char_plain by (apply name_ok_not; [reflexivity | exact Hn]).
    rewrite next_char_found; [f_equal; lia | | discriminate]. now apply name_char_facts, name_last. }
  assert (skipn (S (length n)) (n ++ "="%char :: e) = e) as Es.
  { rewrite skipn_app. replace (S (length n) - length n)%nat with 1%nat by lia. now rewrite skipn_all2 by lia. }
  assert (firstn (length n) (n ++ "="%char :: e) = n) as Ef.
  { now rewrite firstn_app, firstn_all, Nat.sub_diag, firstn_O, app_nil_r. }
  assert (rtrim n = n) as Hrn by (apply rtrim_id, name_char_facts, name_last, Hn).
  assert (rtrim (flat_map enc s) = flat_map enc s) as Hrv.
  { destruct s as [|c t]; [reflexivity|]. apply rtrim_id. apply enc_last; [|discriminate]. now destruct Hf. }
  unfold split_parameter, parser_get_param_name_stack, parser_get_param_name_heap, make_segment.
  rewrite En, Es, Er, Ef, Efirst. cbv iota beta. rewrite Hrn, Hrv, decode_enc by exact He. case_if; eauto.
Qed.

(** A text that neither separator cuts, without white space at its ends. *)
Record scanned (t : cstring) : Prop := Scanned {
  scanned_over : forall c, In c $";:" -> exists prev, clear_char prev = true /\
    forall prev0 r p, next_char c true prev0 false (t ++ r) p = next_char c true prev false r (p + length t);
  scanned_trim : strstriplt t = t /\ rtrim t = t;
  scanned_chars : text_chars t
}.

Lemma form_scanned n s e : name_ok n = true -> value_form s e -> scanned (n ++ "="%char :: e).
Proof.
  intros Hn Hf. assert (rtrim (n ++ "="%char :: e) = n ++ "="%char :: e) as Hr.
  { apply rtrim_id. pose proof (form_nonempty n s e Hf) as Hne. destruct (exists_last Hne) as (a & c & Ea).
    replace (n ++ "="%char :: e) with ((n ++ "="%char :: a) ++ [c]) by (rewrite Ea, <- app_assoc; reflexivity).
    rewrite last_last. replace c with (last e "="%char) by now rewrite Ea, last_last.
    destruct Hf as [Hok Hq|Hok Hq]; [now apply enc_last; [|intros ->]|].
    change (DQUOTE :: flat_map enc s ++ [DQUOTE]) with ((DQUOTE :: flat_map enc s) ++ [DQUOTE]). now rewrite last_last. }
  constructor.
  - intros c Hc. destruct (scan_form n s e Hn Hf c Hc) as (prev & H1 & _ & H2). eauto.
  - split; [|exact Hr]. unfold strstriplt. rewrite Hr. destruct n as [|c n]; [discriminate|]. cbn [app skip_ws].
    unfold name_ok in Hn. cbn [forallb] in Hn. rewrite !andb_true_iff in Hn. destruct Hn as [[Hc _] _].
    apply name_char_facts in Hc as (_ & -> & _). reflexivity.
  - now apply (form_text n s e).
Qed.

(** The part of a line behind the name. *)
Definition after_name (ts : list cstring) (text : cstring) : cstring := flat_map (fun t => ";"%char :: t) ts ++ ":"%char :: text.

Lemma colon_found ts text : forall prev p,
  Forall scanned ts -> clear_char prev = true -> next_char ":" true prev false (after_name ts text) p
    = Some (p + length (flat_map (fun t => ";"%char :: t) ts))%nat.
Proof.
  unfold after_name. induction ts as [|t ts IH]; intros prev p Ht Hp.
  - cbn [flat_map app length]. rewrite next_char_found by (assumption || discriminate). f_equal. lia.
  - inversion_clear Ht as [|? ? H1 H2]. cbn [flat_map]. rewrite <- !app_assoc. cbn [app].
    rewrite next_char_skip by discriminate.
    destruct (scanned_over t H1 ":"%char ltac:(right; now left)) as (prev' & Hc & Hgo). rewrite Hgo, IH by assumption.
    f_equal. cbn [length]. rewrite length_app. lia.
Qed.

(** The next parameter of a line is the text up to the separator. *)
Lemma next_parameter_text t ts text line pos :
  scanned t -> Forall scanned ts -> skipn pos line = t ++ after_name ts text ->
  parser_get_next_parameter line pos = (Some t, S (pos + length t)).
Proof.
  intros Ht Hts E. unfold parser_get_next_parameter, parser_get_next_char. rewrite E.
  destruct (scanned_over t Ht ":"%char ltac:(right; now left)) as (pc & Hpc & Hcolon).
  destruct (scanned_over t Ht ";"%char ltac:(now left)) as (ps & Hps & Hsemi).
  rewrite Hcolon, Hsemi, colon_found by assumption.
  assert (make_segment (t ++ after_name ts text) (length t) = t) as Hseg.
  { unfold make_segment. rewrite firstn_app, firstn_all, Nat.sub_diag, firstn_O, app_nil_r. apply Ht. }
  set (ns := next_char ";" true ps false (after_name ts text) (0 + length t)). set (k := length (flat_map (fun t => ";"%char :: t) ts)).
  assert (ns = Some (length t) \/ (k = 0%nat /\ forall m, ns = Some m -> (length t < m)%nat)) as Hns.
  { subst ns k. unfold after_name. destruct ts as [|u us]; cbn [flat_map app length].
    - right. split; [reflexivity|]. intros m. rewrite next_char_skip by discriminate. intros Hm. apply next_char_from in Hm. lia.
    - left. now rewrite next_char_found by (assumption || discriminate). }
  destruct Hns as [-> | [-> Hm]].
  - destruct (Nat.ltb_spec (0 + length t + k) (length t)); [lia|]. now rewrite Hseg.
  - rewrite Nat.add_0_r. cbn [Nat.add]. destruct ns as [m|]; [|now rewrite Hseg].
    specialize (Hm m eq_refl). destruct (Nat.ltb_spec (length t) m); [now rewrite Hseg | lia].
Qed.

(** ** Parameters *)

Section Writable.
Context `{PARAMS : ParameterTables}.
Variable tok : ical_unknown_token_handling.

Definition is_named (k : icalparameter_kind) : bool := (k =? ICAL_X_PARAMETER) || (k =? ICAL_IANA_PARAMETER).

Definition name_of (q : icalparameter) : option cstring :=
  if is_named (pa_kind q) then pa_x_name q
  else if (pa_kind q =? ICAL_NO_PARAMETER) || (pa_kind q =? ICAL_ANY_PARAMETER) then None
  else icalparameter_kind_to_string (pa_kind q).

Definition enum_text (e : Z) : option cstring :=
  if (ICALPARAMETER_FIRST_ENUM <=? e) && (e <=? ICALPARAMETER_LAST_ENUM)
  then option_map snd (find (fun '(_, n, _) => e =? n) icalparameter_map) else None.

Definition lookup_enum (kind : icalparameter_kind) (v : cstring) : option Z :=
  option_map (fun '(_, e, _) => e) (find (fun '(k, _, t) => (kind =? k) && strcaseeqb v t) icalparameter_map).

(** The value that the text of the parameter denotes. *)
Definition value_of (q : icalparameter) : option cstring :=
  match pa_string q with
  | Some s => if value_ok s && (is_named (pa_kind q) || match lookup_enum (pa_kind q) s with None => true | Some _ => false end)
              then Some s else None
  | None =>
      match enum_text (pa_data q) with
      | Some t => if name_ok t && negb (is_named (pa_kind q)) && negb (pa_data q =? 0)
                     && match lookup_enum (pa_kind q) t with Some e => e =? pa_data q | None => false end
                  then Some t else None
      | None => None
      end
  end.

(** A parameter that can be written and read: its name is made of letters, digits
    and hyphens and denotes its kind, its value is encodable, or enumerated with a
    text that denotes it. *)
Definition writable_parameter (q : icalparameter) : bool :=
  match name_of q, value_of q with
  | Some n, Some _ =>
      name_ok n && (icalparameter_string_to_kind tok (Some n) =? pa_kind q) && negb (pa_kind q =? ICAL_NO_PARAMETER)
      && negb ((pa_kind q =? ICAL_IANA_PARAMETER) && match tok with ICAL_DISCARD_TOKEN => true | _ => false end)
  | _, _ => false
  end.

Definition encoded_value (q : icalparameter) (v : cstring) : cstring :=
  match pa_string q with Some _ => icalparameter_append_encoded_value v | None => v end.

(** What is written. *)
Definition parameter_text (q : icalparameter) : cstring :=
  match name_of q, value_of q with
  | Some n, Some v => n ++ "="%char :: encoded_value q v
  | _, _ => []
  end.

(** What is read: a name only for kinds without one of their own, no link to a
    property. *)
Definition as_read (q : icalparameter) : icalparameter :=
  Param (pa_kind q) (pa_string q) (if is_named (pa_kind q) then pa_x_name q else None) None
    (match pa_string q with Some _ => 0 | None => pa_data q end).

Lemma value_of_form q v : value_of q = Some v -> value_form v (encoded_value q v).
Proof.
  unfold value_of, encoded_value. destruct (pa_string q) as [s|].
  - destruct (value_ok s && _) eqn:E; [|discriminate]. intros [= <-]. apply written_form. now apply andb_true_iff in E as [E _].
  - destruct (enum_text (pa_data q)) as [t|]; [|discriminate]. destruct (name_ok t && _ && _ && _) eqn:E; [|discriminate]. intros [= <-].
    apply name_form. now apply andb_true_iff in E as [[[E _]%andb_true_iff _]%andb_true_iff _].
Qed.

Lemma writable_parts q : writable_parameter q = true ->
  exists n v, name_of q = Some n /\ value_of q = Some v /\ name_ok n = true /\
    icalparameter_string_to_kind tok (Some n) = pa_kind q /\ pa_kind q <> ICAL_NO_PARAMETER /\
    (pa_kind q = ICAL_IANA_PARAMETER -> tok <> ICAL_DISCARD_TOKEN) /\ parameter_text q = n ++ "="%char :: encoded_value q v.
Proof.
  unfold writable_parameter, parameter_text. destruct (name_of q) as [n|]; [|discriminate]. destruct (value_of q) as [v|]; [|discriminate].
  rewrite !andb_true_iff, !negb_true_iff, Z.eqb_eq, Z.eqb_neq. intros [[[H1 H2] H3] H4]. exists n, v.
  repeat split; try assumption. intros Hk ->. rewrite Hk in H4. discriminate.
Qed.

Lemma writable_scanned q : writable_parameter q = true -> scanned (parameter_text q).
Proof.
  intros H. destruct (writable_parts q H) as (n & v & _ & Hv & Hn & _ & _ & _ & ->).
  apply (form_scanned n v); [exact Hn | now apply value_of_form].
Qed.

(** The text is what the code writes. *)
Lemma parameter_written q st : writable_parameter q = true -> icalparameter_as_ical_string_r q st = Some (Some (parameter_text q), st).
Proof.
  intros H. destruct (writable_parts q H) as (n & v & En & Ev & Hn & _ & _ & _ & ->).
  assert (parameter_name q st = Some (Some n, st)) as Ename.
  { unfold parameter_name, name_of, is_named, icalparameter_get_xname in *.
    destruct ((pa_kind q =? ICAL_X_PARAMETER) || (pa_kind q =? ICAL_IANA_PARAMETER)); [now rewrite En|].
    destruct ((pa_kind q =? ICAL_NO_PARAMETER) || (pa_kind q =? ICAL_ANY_PARAMETER)); [discriminate|]. now rewrite En. }
  unfold icalparameter_as_ical_string_r, bind. rewrite Ename. unfold value_of, encoded_value in *.
  destruct (pa_string q) as [s|].
  - destruct (value_ok s && _) eqn:E; [|discriminate]. injection Ev as <-. unfold ret. now rewrite <- app_assoc.
  - destruct (enum_text (pa_data q)) as [t|] eqn:Et; [|discriminate].
    destruct (name_ok t && _ && _ && _) eqn:E; [|discriminate]. injection Ev as <-.
    rewrite !andb_true_iff, !negb_true_iff in E. destruct E as [[[_ _] Hd] _]. unfold truthy. rewrite Hd. cbn [negb].
    unfold enum_text in Et. unfold icalparameter_enum_to_string.
    destruct (ICALPARAMETER_FIRST_ENUM <=? pa_data q); [|discriminate]. destruct (pa_data q <=? ICALPARAMETER_LAST_ENUM); [|discriminate].
    cbn [negb andb] in *. unfold bind, ret, append_string. rewrite Et. unfold ret. now rewrite <- app_assoc.
Qed.

Lemma next_char_none c qm s : forall prev q p, avoids c s -> c <> DQUOTE -> next_char c qm prev q s p = None.
Proof.
  induction s as [|d s IH]; intros prev q p Hc Hq; [reflexivity|]. inversion_clear Hc as [|? ? Hd Hs].
  cbn [next_char]. apply Ascii.eqb_neq in Hd. rewrite Hd, !andb_false_r. case_if; now apply IH.
Qed.

(** A time zone in front of the colon is looked for again behind it. *)
Lemma tzid_read line q fin n h v st :
  split_parameter (parameter_text q) = Some (n, h, v) -> avoids ":" (skipn fin line) ->
  read_tzid line (parameter_text q) fin n h v st = Some ((Some v, fin), st).
Proof.
  intros Hs Hc. unfold read_tzid. cbn [last_colon].
  assert (parser_get_next_char ":" (skipn fin line) true = None) as -> by now apply next_char_none.
  unfold bind, ret. unfold split_parameter in Hs.
  destruct (parser_get_param_name_stack _) as [[n' v']|]; [now injection Hs as <- <- <-|].
  destruct (parser_get_param_name_heap _) as [[n' v']|]; [|discriminate]. now injection Hs as <- <- <-.
Qed.

Lemma value_made q v st :
  value_of q = Some v -> is_named (pa_kind q) = false ->
  icalparameter_new_from_value_string (pa_kind q) (Some v) st = Some (Some (as_read q), st).
Proof.
  intros Hv Hk. unfold as_read. rewrite Hk. unfold value_of in Hv. rewrite Hk in Hv. cbn [negb orb] in Hv.
  unfold icalparameter_new_from_value_string, lookup_enum in *. destruct (pa_string q) as [s|].
  - destruct (value_ok s); [|discriminate]. cbn [andb] in Hv.
    destruct (find (fun '(k, _, t) => (pa_kind q =? k) && strcaseeqb s t) icalparameter_map) as [[[k e] t]|] eqn:Ef; cbn [option_map] in Hv; [discriminate|].
    injection Hv as <-. now rewrite Ef.
  - destruct (enum_text (pa_data q)) as [t|]; [|discriminate].
    destruct (find (fun '(k, _, u) => (pa_kind q =? k) && strcaseeqb t u) icalparameter_map) as [[[k e] u]|] eqn:Ef; cbn [option_map] in Hv;
      [|now rewrite andb_false_r in Hv].
    destruct (name_ok t && _ && _ && _) eqn:Ee; [|discriminate]. injection Hv as <-. rewrite Ef.
    apply andb_true_iff in Ee as [_ Ee]. apply Z.eqb_eq in Ee. now rewrite Ee.
Qed.

(** A written parameter, found in a line with the position behind it, is made
    again.  A time zone that ends the parameters must not be followed by a colon
    in the value. *)
Lemma parameter_made line q fin :
  writable_parameter q = true ->
  (pa_kind q = ICAL_TZID_PARAMETER -> char_is line (fin - 1) ";" = true \/ avoids ":" (skipn fin line)) ->
  exists n h v, split_parameter (parameter_text q) = Some (n, h, v) /\
    forall st, make_parameter tok line (parameter_text q) fin n h v st = Some (Some (Some (as_read q), fin), st).
Proof.
  intros Hq Htz. destruct (writable_parts q Hq) as (n & v & En & Ev & Hn & Hk & Hno & Htok & Et).
  destruct (form_split n v _ Hn (value_of_form q v Ev)) as [h Hs]. rewrite <- Et in Hs. exists n, h, v. split; [exact Hs|].
  intros st. unfold make_parameter. rewrite Hk.
  pose proof (value_made q v) as Hmade. unfold as_read, name_of, is_named in *.
  assert ((pa_kind q =? ICAL_X_PARAMETER) || (pa_kind q =? ICAL_IANA_PARAMETER) = true ->
          icalparameter_set_xvalue v (icalparameter_set_xname n (icalparameter_new (pa_kind q)))
          = Param (pa_kind q) (pa_string q) (pa_x_name q) None (match pa_string q with Some _ => 0 | None => pa_data q end)) as Hx.
  { intros Hxk. rewrite Hxk in En. rewrite En. unfold value_of, is_named in Ev. rewrite Hxk in Ev.
    destruct (pa_string q) as [s|].
    - cbn [orb] in Ev. rewrite andb_true_r in Ev. destruct (value_ok s); [|discriminate]. now injection Ev as <-.
    - destruct (enum_text _); [|discriminate]. cbn [negb] in Ev. now rewrite andb_false_r in Ev. }
  destruct (Z.eqb_spec (pa_kind q) ICAL_X_PARAMETER) as [Ex|Nx]; [cbn [orb] in *; now rewrite Hx|].
  destruct (Z.eqb_spec (pa_kind q) ICAL_IANA_PARAMETER) as [Ei|Ni]; cbn [orb] in *.
  { rewrite Hx by reflexivity. specialize (Htok Ei). destruct tok; try reflexivity. congruence. }
  destruct (Z.eqb_spec (pa_kind q) ICAL_TZID_PARAMETER) as [Etz|Ntz]; cbn [andb].
  - destruct (char_is line (fin - 1) ";") eqn:Ec; cbn [negb].
    + destruct (Z.eqb_spec (pa_kind q) ICAL_NO_PARAMETER); [contradiction|]. cbn [negb]. unfold bind.
      now rewrite Hmade.
    + destruct (Htz Etz) as [|Hav]; [discriminate|]. unfold bind. rewrite (tzid_read line q fin n h v st Hs Hav).
      now rewrite Hmade.
  - destruct (Z.eqb_spec (pa_kind q) ICAL_NO_PARAMETER); [contradiction|]. cbn [negb]. unfold bind. now rewrite Hmade.
Qed.
End Writable.
