(* ===== verification/IcalPropertyText.v ===== *)
(** * Content lines of properties

    A property that [icalproperty_as_ical_string_r] writes as a content line is
    put together again by [icalparser_add_line]: name, parameters and value. *)
From Stdlib Require Import String Ascii ZArith Lia Bool List.
From S2P Require Import Prelude CString IcalError IcalTime IcalValueText IcalValue IcalValueSafe IcalLine IcalParameter IcalProperty IcalComponent IcalParser IcalDesignData IcalParserSafe IcalParameterText.
Import ListNotations.
#[local] Open Scope Z_scope.
#[local] Open Scope cstring_scope.
#[local] Open Scope err_scope.

Lemma skipn_nth {A} i (x : A) l : nth_error l i = Some x -> skipn i l = x :: skipn (S i) l.
Proof. revert l. induction i as [|i IH]; intros [|y l]; cbn; try discriminate; [now intros [= ->] | apply IH]. Qed.

Lemma kind_eqb_eq j k : kind_eqb j k = true <-> j = k.
Proof. unfold kind_eqb. destruct (value_kind_dec j k); split; congruence. Qed.

Section Lines.
Context `{PROPS : PropertyTables} `{PARAMS : ParameterTables} `{FLOAT : FloatOps} `{TZ : TimezoneConv}.
Variable tok : ical_unknown_token_handling.

(** ** What is written *)

Definition is_value_param (q : icalparameter) : bool := pa_kind q =? ICAL_VALUE_PARAMETER.

(** What [icalparameter_get_value] returns. *)
Definition param_value (q : icalparameter) : Z := match pa_string q with Some _ => ICAL_VALUE_X | None => pa_data q end.

Definition named_kind (p : icalproperty) : icalvalue_kind :=
  match find is_value_param (pr_parameters p) with
  | Some q => icalparameter_value_to_value_kind (param_value q)
  | None => ICAL_NO_VALUE
  end.

Definition own_kind (v : icalvalue) : icalvalue_kind :=
  if kind_eqb (v_kind v) ICAL_ATTACH_VALUE
  then match v_data v with V_attach a => if at_is_url a then ICAL_URI_VALUE else ICAL_BINARY_VALUE | _ => ICAL_NO_VALUE end
  else v_kind v.

(** The kind that the VALUE parameter names, if one is written. *)
Definition printed_kind (p : icalproperty) (v : icalvalue) : option icalvalue_kind :=
  let k := if kind_eqb (named_kind p) ICAL_NO_VALUE then own_kind v else named_kind p in
  if negb (kind_eqb k ICAL_NO_VALUE) && negb (icalproperty_value_kind_is_default (pr_kind p) k) then Some k else None.

(** The VALUE parameter that is written for a kind. *)
Definition value_parameter (k : icalvalue_kind) : icalparameter :=
  match icalvalue_kind_to_string k with
  | Some s => Param ICAL_VALUE_PARAMETER None None None
                (match lookup_enum ICAL_VALUE_PARAMETER s with Some e => e | None => 0 end)
  | None => Param ICAL_VALUE_PARAMETER None None None 0
  end.

Definition line_parameters (p : icalproperty) (v : icalvalue) : list icalparameter :=
  match printed_kind p v with Some k => [value_parameter k] | None => [] end
  ++ filter (fun q => negb (is_value_param q)) (pr_parameters p).

(** The line of a property with the value [v] of text [text]. *)
Definition line_of (name : cstring) (p : icalproperty) (v : icalvalue) (text : cstring) : cstring :=
  name ++ after_name (map parameter_text (line_parameters p v)) text.

(** ** What can be written and read *)

(** The VALUE parameter of a kind names that kind, and the property admits it. *)
Definition kind_named (pkind : icalproperty_kind) (k : icalvalue_kind) : bool :=
  match icalvalue_kind_to_string k with
  | Some s => streqb (parameter_text (value_parameter k)) ($"VALUE=" ++ s)
              && kind_eqb (icalparameter_value_to_value_kind (pa_data (value_parameter k))) k
              && icalproperty_value_kind_is_valid pkind k
  | None => false
  end.

(** The kind under which the parser reads the value, and whether it looks for
    several. *)
Definition reading_kind (p : icalproperty) (v : icalvalue) : bool * icalvalue_kind :=
  icalproperty_value_kind_is_multivalued (pr_kind p)
    (match printed_kind p v with Some k => k | None => icalproperty_kind_to_value_kind (pr_kind p) end).

(** Every comma follows a backslash. *)
Fixpoint commas_escaped (prev : ascii) (s : cstring) : bool :=
  match s with
  | [] => true
  | c :: r => (negb (Ascii.eqb c ",") || Ascii.eqb prev BACKSLASH) && commas_escaped c r
  end.

(** The text of a value: something without line breaks and white space at its
    ends. *)
Definition text_ok (s : cstring) : bool :=
  forallb (fun c => negb (char_in c [NUL; LF; CR])) s && negb (Nat.eqb (length s) 0)
  && negb (isspace (nth 0 s NUL)) && negb (isspace (last s NUL)).

Definition colon_free (s : cstring) : bool := forallb (fun c => negb (Ascii.eqb c ":")) s.

Definition ends_in_tzid (qs : list icalparameter) : bool := pa_kind (last qs (icalparameter_new 0)) =? ICAL_TZID_PARAMETER.

(** The conditions on a property with the value [v] whose text is [text]. *)
Definition writable_property (p : icalproperty) (name : cstring) (v : icalvalue) (text : cstring) : bool :=
  name_ok name && (icalproperty_string_to_kind (Some name) =? pr_kind p) && negb (pr_kind p =? ICAL_NO_PROPERTY)
  && icalproperty_kind_is_valid (pr_kind p) && negb (strcaseeqb name $"BEGIN") && negb (strcaseeqb name $"END")
  && forallb (writable_parameter tok) (line_parameters p v) && (Z.of_nat (length (line_parameters p v)) <=? 100)
  && match printed_kind p v with
     | Some k => kind_named (pr_kind p) k && (negb (is_time_kind (v_kind v)) || kind_eqb k (v_kind v))
     | None => true
     end
  && member_of (v_kind v) (v_data v) && (negb (text_property (pr_kind p)) || kind_eqb (v_kind v) ICAL_TEXT_VALUE) && text_ok text && (negb (fst (reading_kind p v)) || commas_escaped NUL text)
  && (negb (ends_in_tzid (line_parameters p v)) || colon_free text).

(** The text denotes the value under the kind that is used for reading. *)
Definition value_reads (p : icalproperty) (v : icalvalue) (text : cstring) : Prop :=
  (forall st, icalvalue_as_ical_string_r v st = Some (Some text, st)) /\
  forall addr, runs (icalvalue_new_from_string addr (snd (reading_kind p v)) text)
    (fun r => option_map (icalvalue_set_parent (Some (pr_kind p))) r = Some v).

(** A property with a line that reads back. *)
Inductive line_property (p : icalproperty) : cstring -> Prop :=
| LineProperty name v text :
    property_name p = Some name -> pr_value p = Some v -> writable_property p name v text = true -> value_reads p v text ->
    line_property p (line_of name p v text).

(** ** Writing *)

Lemma iterate_any (ps : list icalparameter) i :
  iterate (parameter_matches ICAL_ANY_PARAMETER) ps i =
  match nth_error ps i with Some q => (Some q, AtElem i) | None => (None, NoElem) end.
Proof.
  unfold iterate, find_at. assert (forall l j, search_from (parameter_matches ICAL_ANY_PARAMETER) l j
    = match l with [] => None | _ => Some j end) as Hs.
  { intros l j. destruct l; [reflexivity|]. cbn [search_from]. unfold parameter_matches. now rewrite Z.eqb_refl, orb_true_r. }
  rewrite Hs. destruct (nth_error ps i) as [q|] eqn:E.
  - destruct (skipn i ps) eqn:Es; [|now rewrite E]. apply (f_equal (@length _)) in Es. rewrite length_skipn in Es.
    assert (i < length ps)%nat by (apply nth_error_Some; congruence). cbn in Es. lia.
  - apply nth_error_None in E. now rewrite skipn_all2.
Qed.

Lemma runs_parameter_string q : runs (icalparameter_as_ical_string_r q) any.
Proof.
  unfold icalparameter_as_ical_string_r, parameter_name, append_string, icalparameter_enum_to_string.
  eapply runs_bind with (P := any); [|intros [n|] _; [|now apply runs_ret]].
  - repeat match goal with |- context [match ?x with _ => _ end] => destruct x end; try (now apply runs_badarg); try (now apply runs_ret);
      (eapply runs_bind with (P := any); [first [now apply runs_ret | now apply runs_badarg] | intros; now apply runs_ret]).
  - destruct (pa_string q); [now apply runs_ret|]. case_if; [|eapply runs_bind; [apply runs_set_errno | intros; now apply runs_ret]].
    eapply runs_bind with (P := any); [repeat case_if; first [now apply runs_badarg | now apply runs_ret]|]. intros [s|] _.
    + eapply runs_bind with (P := any); [now apply runs_ret | intros; now apply runs_ret].
    + eapply runs_bind with (P := any); [now apply runs_badarg | intros; now apply runs_ret].
Qed.

Definition piece (q : icalparameter) : cstring := if is_value_param q then [] else ";"%char :: parameter_text q.

Lemma runs_append_parameter buf q :
  is_value_param q = true \/ writable_parameter tok q = true -> runs (append_parameter buf q) (fun r => r = buf ++ piece q).
Proof.
  intros Hq. unfold append_parameter, piece, is_value_param, icalparameter_isa in *. destruct (pa_kind q =? ICAL_VALUE_PARAMETER) eqn:Ev.
  - eapply runs_bind; [apply runs_parameter_string|]. intros [s|] _; apply runs_ret; now rewrite app_nil_r.
  - destruct Hq as [|Hq]; [discriminate|]. intros st Hst. unfold bind. rewrite (parameter_written tok q st Hq).
    eexists _, _. split; [reflexivity|]. now split.
Qed.

Lemma runs_append_parameters n : forall i p buf,
  (length (pr_parameters p) < n + i)%nat ->
  Forall (fun q => is_value_param q = true \/ writable_parameter tok q = true) (pr_parameters p) ->
  let '(param, it) := iterate (parameter_matches ICAL_ANY_PARAMETER) (pr_parameters p) i in
  runs (append_parameters n param (set_iterator it p) buf)
    (fun r => fst r = buf ++ flat_map piece (skipn i (pr_parameters p)) /\ pr_value (snd r) = pr_value p).
Proof.
  induction n as [|n IH]; intros i p buf Hn Hp; rewrite iterate_any.
  - destruct (nth_error (pr_parameters p) i) as [q|] eqn:E.
    + assert (i < length (pr_parameters p))%nat by (apply nth_error_Some; congruence). lia.
    + apply nth_error_None in E. rewrite skipn_all2 by exact E. apply runs_ret. cbn. now rewrite app_nil_r.
  - destruct (nth_error (pr_parameters p) i) as [q|] eqn:E.
    + cbn [append_parameters]. eapply runs_bind; [apply runs_append_parameter; rewrite Forall_forall in Hp; apply Hp; now apply nth_error_In in E|].
      cbv beta. intros b ->. specialize (IH (S i) p (buf ++ piece q) ltac:(lia) Hp).
      unfold icalproperty_get_next_parameter. cbn [parameter_iterator set_iterator set_parameters pr_parameters].
      destruct (iterate _ (pr_parameters p) (S i)) as [param it]. apply runs_bind_ret. cbv iota beta.
      eapply runs_weaken; [exact IH|]. cbv beta. intros r [-> ->]. split; [|reflexivity].
      rewrite <- app_assoc. f_equal. now rewrite (skipn_nth i q).
    + apply nth_error_None in E. rewrite skipn_all2 by exact E. apply runs_ret. cbn. now rewrite app_nil_r.
Qed.

Lemma search_find {A} (test : A -> bool) m : forall pre l, l = pre ++ m ->
  match search_from test m (length pre) with Some i => nth_error l i | None => None end = find test m.
Proof.
  induction m as [|x m IH]; intros pre l ->; [reflexivity|]. cbn [search_from find].
  destruct (test x); [now rewrite nth_error_app2, Nat.sub_diag|].
  specialize (IH (pre ++ [x]) (pre ++ x :: m) ltac:(now rewrite <- app_assoc)). rewrite length_app in IH.
  cbn [length] in IH. now rewrite Nat.add_1_r in IH.
Qed.

Lemma iterate_find {A} (test : A -> bool) l : fst (iterate test l 0) = find test l.
Proof.
  unfold iterate, find_at. cbn [skipn]. pose proof (search_find test l [] l eq_refl) as H. cbn [length] in H.
  now destruct (search_from test l 0).
Qed.

Lemma get_first_value_param p :
  exists it, icalproperty_get_first_parameter ICAL_VALUE_PARAMETER p = (find is_value_param (pr_parameters p), set_iterator it p).
Proof.
  unfold icalproperty_get_first_parameter.
  assert (iterate (parameter_matches ICAL_VALUE_PARAMETER) (pr_parameters p) 0 = iterate is_value_param (pr_parameters p) 0) as ->.
  { unfold iterate, find_at. cbn [skipn].
    replace (search_from (parameter_matches ICAL_VALUE_PARAMETER) (pr_parameters p) 0) with (search_from is_value_param (pr_parameters p) 0);
      [reflexivity|]. generalize 0%nat. induction (pr_parameters p) as [|q l IH]; intros i; [reflexivity|].
    cbn [search_from]. unfold parameter_matches. change (ICAL_VALUE_PARAMETER =? ICAL_ANY_PARAMETER) with false.
    rewrite orb_false_r. fold (is_value_param q). now rewrite IH. }
  pose proof (iterate_find is_value_param (pr_parameters p)) as H. destruct (iterate _ _ 0) as [r it]. cbn in H. subst r. eauto.
Qed.

Lemma runs_value_param_is q : runs (value_param_kind q) (fun k => k = icalparameter_value_to_value_kind (param_value q)).
Proof.
  unfold value_param_kind, icalparameter_get_value. eapply runs_bind with (P := fun v => v = param_value q).
  - eapply runs_bind; [apply runs_clear_errno|]. intros _ _. now apply runs_ret.
  - intros z ->. now apply runs_ret.
Qed.

Lemma runs_get_value_kind p v :
  pr_value p = Some v -> member_of (v_kind v) (v_data v) = true ->
  runs (icalproperty_get_value_kind p)
    (fun r => fst r = match printed_kind p v with Some k => icalvalue_kind_to_string k | None => None end /\
              exists it, snd r = set_iterator it p).
Proof.
  intros Hv Ht. unfold icalproperty_get_value_kind. destruct (get_first_value_param p) as [it ->].
  eapply runs_bind with (P := fun k => k = named_kind p).
  { unfold named_kind. destruct (find is_value_param (pr_parameters p)); [apply runs_value_param_is | now apply runs_ret]. }
  cbv beta. intros k ->. eapply runs_bind with (P := fun k => k = if kind_eqb (named_kind p) ICAL_NO_VALUE then own_kind v else named_kind p).
  - case_if; [|now apply runs_ret]. unfold icalproperty_get_value. cbn [set_iterator set_parameters pr_value]. rewrite Hv.
    unfold own_kind, icalvalue_isa. case_if; [|now apply runs_ret]. apply kind_eqb_eq in E0. rewrite E0 in Ht.
    destruct (v_data v); try discriminate Ht. now apply runs_ret.
  - cbv beta. intros k ->. apply runs_ret. cbn [fst snd]. split; [|eauto]. unfold printed_kind. cbn [pr_kind set_iterator set_parameters].
    destruct (negb _ && negb _); reflexivity.
Qed.

(** The conditions, one by one. *)
Record writable_facts (p : icalproperty) (name : cstring) (v : icalvalue) (text : cstring) : Prop := WritableFacts {
  wf_name : name_ok name = true;
  wf_kind : icalproperty_string_to_kind (Some name) = pr_kind p;
  wf_some : pr_kind p <> ICAL_NO_PROPERTY;
  wf_valid : icalproperty_kind_is_valid (pr_kind p) = true;
  wf_begin : strcaseeqb name $"BEGIN" = false;
  wf_end : strcaseeqb name $"END" = false;
  wf_params : Forall (fun q => writable_parameter tok q = true) (line_parameters p v);
  wf_few : (length (line_parameters p v) <= 100)%nat;
  wf_printed : forall k, printed_kind p v = Some k -> kind_named (pr_kind p) k = true;
  wf_time : forall k, printed_kind p v = Some k -> is_time_kind (v_kind v) = true -> k = v_kind v;
  wf_typed : member_of (v_kind v) (v_data v) = true;
  wf_text_kind : text_property (pr_kind p) = true -> v_kind v = ICAL_TEXT_VALUE;
  wf_text : text_ok text = true;
  wf_commas : fst (reading_kind p v) = true -> commas_escaped NUL text = true;
  wf_tzid : ends_in_tzid (line_parameters p v) = true -> colon_free text = true
}.

Lemma writable_spec p name v text : writable_property p name v text = true -> writable_facts p name v text.
Proof.
  unfold writable_property. rewrite !andb_true_iff, !orb_true_iff, !negb_true_iff, !Z.eqb_eq, !Z.eqb_neq, Z.leb_le, forallb_forall.
  intros [[[[[[[[[[[[[H1 H2] H3] H4] H5] H6] H7] H8] H9] H10] H14] H11] H12] H13]. constructor; try assumption; try lia.
  - now apply Forall_forall.
  - intros k Hk. rewrite Hk in H9. now apply andb_true_iff in H9.
  - intros k Hk Ht. rewrite Hk, andb_true_iff, orb_true_iff, negb_true_iff in H9. destruct H9 as [_ [H9|H9]]; [congruence|].
    now apply kind_eqb_eq.
  - intros E. destruct H14 as [H14|H14]; [congruence | now apply kind_eqb_eq].
  - intros E. destruct H12; congruence.
  - intros E. destruct H13; congruence.
Qed.

Lemma line_pieces p v : (forall k, printed_kind p v = Some k -> kind_named (pr_kind p) k = true) ->
  match match printed_kind p v with Some k => icalvalue_kind_to_string k | None => None end with
  | Some k => $";VALUE=" ++ k | None => [] end ++ flat_map piece (pr_parameters p)
  = flat_map (fun t => ";"%char :: t) (map parameter_text (line_parameters p v)).
Proof.
  intros Hk. assert (flat_map piece (pr_parameters p)
    = flat_map (fun t => ";"%char :: t) (map parameter_text (filter (fun q => negb (is_value_param q)) (pr_parameters p)))) as ->.
  { induction (pr_parameters p) as [|q l IH]; [reflexivity|]. cbn [flat_map filter]. unfold piece at 1.
    destruct (is_value_param q); cbn [negb map flat_map app]; now rewrite IH. }
  unfold line_parameters. rewrite map_app, flat_map_app. f_equal. destruct (printed_kind p v) as [k|]; [|reflexivity].
  specialize (Hk k eq_refl). unfold kind_named in Hk. destruct (icalvalue_kind_to_string k) as [s|]; [|discriminate].
  rewrite !andb_true_iff in Hk. destruct Hk as [[Hk _] _]. apply streqb_eq in Hk. cbn [map flat_map]. now rewrite Hk, app_nil_r.
Qed.

(** The line is what the code writes before folding. *)
Lemma line_written p line : line_property p line -> runs (property_line p) (fun r => fst r = Some line).
Proof.
  intros [name v text Hname Hv Hw [Hs _]]. apply writable_spec in Hw as Hf. unfold property_line. rewrite Hname.
  eapply runs_bind; [apply (runs_get_value_kind p v Hv), Hf|]. intros [ks p'] [Eks [it Ep]]. cbn [fst snd] in *. subst p'.
  pose proof (runs_append_parameters (S (length (pr_parameters p))) 0 (set_iterator it p)
    (match ks with Some k => name ++ $";VALUE=" ++ k | None => name end)) as Ha.
  cbn [pr_parameters set_iterator set_parameters] in Ha. unfold icalproperty_get_first_parameter.
  cbn [pr_parameters set_iterator set_parameters].
  destruct (iterate (parameter_matches ICAL_ANY_PARAMETER) (pr_parameters p) 0) as [param it'].
  eapply runs_bind.
  - apply Ha; [lia|]. apply Forall_forall. intros q Hq. destruct (is_value_param q) eqn:Eq; [now left|]. right.
    pose proof (wf_params _ _ _ _ Hf) as Hps. rewrite Forall_forall in Hps. apply Hps. unfold line_parameters. apply in_or_app. right.
    apply filter_In. now rewrite Eq.
  - intros [buf p'] [Ebuf Epv]. cbn [fst snd] in *. eapply runs_bind with (P := fun t => t = text).
    + unfold value_text, icalproperty_get_value. rewrite Epv. cbn [pr_value set_iterator set_parameters]. rewrite Hv.
      intros st Hst. unfold bind. rewrite Hs. eexists _, _. split; [reflexivity|]. now split.
    + intros t ->. apply runs_ret. cbn [fst]. f_equal. subst buf. unfold line_of, after_name. rewrite <- (line_pieces p v).
      * subst ks. cbn [skipn]. destruct (match printed_kind p v with Some k => icalvalue_kind_to_string k | None => None end);
          rewrite <- ?app_assoc; reflexivity.
      * apply Hf.
Qed.

(** ** Reading *)

(** What the parser makes of a written property. *)
Record reads_as (p : icalproperty) (v : icalvalue) (q : icalproperty) : Prop := ReadsAs {
  ra_kind : pr_kind q = pr_kind p;
  ra_x_name : pr_x_name q = if pr_kind p =? ICAL_X_PROPERTY then property_name p else None;
  ra_parameters : pr_parameters q = map as_read (line_parameters p v);
  ra_count : pr_count q = Z.of_nat (length (line_parameters p v));
  ra_value : pr_value q = Some v
}.

(** The parser [P'] is [P] with one more property in the component [c] that is
    open. *)
Record holding (P : icalparser) (c : icalcomponent) (rest : list icalcomponent) (q : icalproperty) (P' : icalparser) : Prop := Holding {
  ho_open : open_components P' = with_properties (co_properties c ++ [q]) (property_iterator c) c :: rest;
  ho_level : level P' = level P;
  ho_root : root_component P' = root_component P;
  ho_errors : error_count P' = error_count P;
  ho_addr : (next_addr P < next_addr P')%positive
}.

Lemma update_last a f ps q :
  pr_addr q = a -> Forall (fun x => pr_addr x <> a) ps ->
  forall st, update_property a f (ps ++ [q]) st = (q' <- f q ;; ret (ps ++ [q'])) st.
Proof.
  intros Hq Hps st. revert st. induction Hps as [|x ps Hx Hps IH]; intros st; cbn [update_property app].
  - unfold is_property. rewrite Hq, Pos.eqb_refl. unfold bind. destruct (f q st) as [[q' st']|]; reflexivity.
  - unfold is_property at 1. rewrite (proj2 (Pos.eqb_neq _ _) Hx). unfold bind at 1.
    change ((fix go ps := match ps with
               | [] => ret []
               | q :: ps => if is_property a q then q <- f q ;; ret (q :: ps) else ps <- go ps ;; ret (q :: ps)
               end) (ps ++ [q]) st) with (update_property a f (ps ++ [q]) st).
    rewrite IH. unfold bind. destruct (f q st) as [[q' st']|]; reflexivity.
Qed.

Section Holding.
Context (P : icalparser) (c : icalcomponent) (rest : list icalcomponent) (a : positive).
Hypothesis fresh : Forall (fun x => pr_addr x <> a) (co_properties c).

Lemma runs_update_holding f q P' (Q : icalproperty -> Prop) :
  holding P c rest q P' -> pr_addr q = a -> runs (f q) Q ->
  runs (update_tail_property a f P') (fun P'' => exists q', Q q' /\ holding P c rest q' P'').
Proof.
  intros [Ho Hl Hr He Ha] Hq Hf st Hst. destruct (Hf st Hst) as (q' & st' & E & Hq' & HQ).
  exists (set_open (with_properties (co_properties c ++ [q']) (property_iterator c) c :: rest) P'), st'. split; [|split; [exact Hq'|]].
  - unfold update_tail_property. rewrite Ho. unfold bind at 1. cbn [co_properties with_properties].
    rewrite (update_last a f _ q Hq fresh). unfold bind. now rewrite E.
  - exists q'. split; [exact HQ|]. now constructor.
Qed.

(** What the loop over the parameters has done. *)
Definition kind_after (k : icalvalue_kind) (qs : list icalparameter) : icalvalue_kind :=
  fold_left (fun k q => if is_value_param q then icalparameter_value_to_value_kind (param_value q) else k) qs k.

Lemma as_read_kind q : pa_kind (as_read q) = pa_kind q.
Proof. reflexivity. Qed.

Lemma runs_accept_written pkind str q x fin lp :
  holding P c rest x (lp_parser lp) -> pr_addr x = a ->
  (is_value_param q = true -> icalproperty_value_kind_is_valid pkind (icalparameter_value_to_value_kind (param_value q)) = true) ->
  runs (accept_parameter pkind a str (as_read q) fin lp)
    (fun lp' => lp_end lp' = fin /\ lp_pcount lp' = lp_pcount lp + 1 /\ lp_value_kind lp' = kind_after (lp_value_kind lp) [q] /\
       holding P c rest (icalproperty_add_parameter (as_read q) x) (lp_parser lp')).
Proof.
  intros Hh Hx Hv. unfold accept_parameter, icalparameter_isa. rewrite as_read_kind. fold (is_value_param q).
  assert (forall k, k = kind_after (lp_value_kind lp) [q] ->
    runs (p <- update_tail_property a (fun y => ret (icalproperty_add_parameter (as_read q) y)) (lp_parser lp) ;;
          ret (Progress fin (lp_pcount lp + 1) k p))
      (fun lp' => lp_end lp' = fin /\ lp_pcount lp' = lp_pcount lp + 1 /\ lp_value_kind lp' = kind_after (lp_value_kind lp) [q] /\
         holding P c rest (icalproperty_add_parameter (as_read q) x) (lp_parser lp'))) as Hadd.
  { intros k ->. eapply runs_bind.
    - apply (runs_update_holding _ x _ (fun y => y = icalproperty_add_parameter (as_read q) x) Hh Hx). now apply runs_ret.
    - cbv beta. intros P'' (q' & -> & Hh'). apply runs_ret. now repeat split; try apply Hh'. }
  destruct (is_value_param q) eqn:Ev; [|apply Hadd; cbn; now rewrite Ev].
  eapply runs_bind; [apply runs_value_param_is|]. cbv beta. intros k ->.
  assert (param_value (as_read q) = param_value q) as -> by (unfold param_value, as_read; cbn; now destruct (pa_string q)).
  rewrite (Hv eq_refl). apply Hadd. cbn. now rewrite Ev.
Qed.

(** The position [pos] is behind a separator; [qs] and the text follow. *)
Definition behind (line : cstring) (pos : nat) (qs : list icalparameter) (text : cstring) : Prop :=
  (1 <= pos <= length line)%nat /\
  match qs with
  | [] => char_is line (pos - 1) ":" = true /\ skipn pos line = text
  | q :: qs => char_is line (pos - 1) ":" = false /\ char_is line (pos - 1) ";" = true /\
               skipn pos line = parameter_text q ++ after_name (map parameter_text qs) text
  end.

Lemma step_behind line pos t qs text :
  skipn pos line = t ++ after_name (map parameter_text qs) text -> (pos <= length line)%nat ->
  behind line (S (pos + length t)) qs text.
Proof.
  intros E Hpos. assert (exists d r, after_name (map parameter_text qs) text = d :: r) as (d & r & Er)
    by (unfold after_name; destruct (flat_map _ _); cbn; eauto).
  rewrite Er in E.
  assert (length line = pos + length t + S (length r))%nat as Hlen.
  { rewrite <- (firstn_skipn pos line), E, !length_app, length_firstn. cbn [length]. lia. }
  assert (nth_error line (pos + length t) = Some d) as En.
  { rewrite <- (firstn_skipn pos line), E, nth_error_app2 by (rewrite length_firstn; lia).
    rewrite length_firstn. replace (pos + length t - Nat.min pos (length line))%nat with (length t) by lia.
    now rewrite nth_error_app2, Nat.sub_diag by lia. }
  assert (skipn (S (pos + length t)) line = r) as Es.
  { replace (S (pos + length t)) with (S (length t) + pos)%nat by lia. rewrite <- skipn_skipn, E.
    rewrite skipn_app. replace (S (length t) - length t)%nat with 1%nat by lia. now rewrite skipn_all2 by lia. }
  split; [lia|]. unfold char_is. cbn [Nat.sub]. rewrite Nat.sub_0_r, En, Es. unfold after_name in Er.
  destruct qs as [|q qs]; cbn [map flat_map app] in Er; injection Er as <- <-; [now split|].
  split; [reflexivity|]. split; [reflexivity|]. unfold after_name. now rewrite <- app_assoc.
Qed.

Definition add_all (qs : list icalparameter) (x : icalproperty) : icalproperty :=
  fold_left (fun x q => icalproperty_add_parameter (as_read q) x) qs x.

Lemma colon_free_avoids s : colon_free s = true -> avoids ":" s.
Proof.
  unfold colon_free. rewrite forallb_forall. intros H. apply Forall_forall. intros d Hd ->. now specialize (H _ Hd).
Qed.

(** The parameters of a written line are read one after the other. *)
Lemma runs_read_written pkind line text fuel : forall qs lp x,
  (length qs < fuel)%nat -> Forall (fun q => writable_parameter tok q = true) qs ->
  Forall (fun q => is_value_param q = true -> icalproperty_value_kind_is_valid pkind (icalparameter_value_to_value_kind (param_value q)) = true) qs ->
  lp_pcount lp + Z.of_nat (length qs) <= 100 -> behind line (lp_end lp) qs text ->
  (ends_in_tzid qs = true -> colon_free text = true) -> holding P c rest x (lp_parser lp) -> pr_addr x = a ->
  runs (read_parameters tok fuel pkind a line lp)
    (fun lp' => behind line (lp_end lp') [] text /\ lp_value_kind lp' = kind_after (lp_value_kind lp) qs /\
                holding P c rest (add_all qs x) (lp_parser lp')).
Proof.
  induction fuel as [|k IH]; intros qs lp x Hk Hw Hv Hn Hb Htz Hh Hx; [lia|]. cbn [read_parameters].
  destruct qs as [|q qs].
  { destruct Hb as (Hpos & Hc & Hs). case_if; [now apply runs_ret|]. rewrite Hc. now apply runs_ret. }
  destruct Hb as (Hpos & Hc & _ & Hs). inversion_clear Hw as [|? ? Hq Hqs]. inversion_clear Hv as [|? ? Hvq Hvqs].
  cbn [length] in Hn, Hk. unfold MAXIMUM_ALLOWED_PARAMETERS. destruct (Z.ltb_spec (lp_pcount lp) 100); [|lia]. cbn [negb].
  rewrite Hc. set (t := parameter_text q) in *.
  assert (Forall scanned (map parameter_text qs)) as Hsc.
  { apply Forall_map. eapply Forall_impl; [|exact Hqs]. intros q0. apply writable_scanned. }
  rewrite (next_parameter_text t (map parameter_text qs) text) by (try assumption; now apply (writable_scanned tok)).
  cbv iota beta. pose proof (writable_scanned tok q Hq) as Ht. destruct (scanned_trim _ Ht) as [Es _]. fold t in Es. rewrite Es.
  pose proof (step_behind line (lp_end lp) t qs text Hs ltac:(lia)) as Hb'.
  destruct (parameter_made tok line q (S (lp_end lp + length t)) Hq) as (n & h & v & Esp & Hmade).
  { intros Ek. destruct Hb' as (_ & Hb'). destruct qs as [|q2 qs]; [|left; apply Hb']. right. destruct Hb' as [_ ->].
    apply colon_free_avoids, Htz. unfold ends_in_tzid. cbn. now rewrite Ek. }
  fold t in Esp, Hmade. rewrite Esp. cbv iota beta. eapply runs_bind.
  { intros st Hst. eexists _, _. split; [apply Hmade|]. split; [exact Hst|]. exact (eq_refl (Some (Some (as_read q), S (lp_end lp + length t)))). }
  cbv beta. intros r <-. cbv iota beta. eapply runs_bind; [apply (runs_accept_written pkind t q x); assumption|].
  cbv beta. intros lp' (E1 & E2 & E3 & Hh'). eapply runs_weaken.
  - apply (IH qs lp' (icalproperty_add_parameter (as_read q) x)); try assumption; try lia.
    + now rewrite E1.
    + intros He. apply Htz. revert He. unfold ends_in_tzid. now destruct qs.
  - cbv beta. intros lp'' (G1 & G2 & G3). split; [exact G1|]. split; [|exact G3]. rewrite G2, E3. reflexivity.
Qed.

(** *** Values *)

Lemma no_comma_found qm s : forall prev q p, commas_escaped prev s = true -> next_char "," qm prev q s p = None.
Proof.
  induction s as [|d s IH]; intros prev q p H; [reflexivity|]. cbn [commas_escaped] in H.
  apply andb_true_iff in H as [Hd Hs]. cbn [next_char]. rewrite orb_true_iff, negb_true_iff in Hd.
  destruct Hd as [Hd | Hd]; rewrite Hd; cbn [negb]; rewrite ?andb_false_r; cbn [andb]; repeat case_if; now apply IH.
Qed.

Lemma text_ok_facts s : text_ok s = true ->
  s <> [] /\ strstriplt s = s /\ rtrim s = s /\ text_chars s /\ isspace (last s NUL) = false.
Proof.
  unfold text_ok. rewrite !andb_true_iff, !negb_true_iff, forallb_forall. intros [[[Hc Hl] Hf] Hsp].
  assert (s <> []) as Hne by (intros ->; discriminate).
  assert (rtrim s = s) as Hr by now apply rtrim_id.
  split; [exact Hne|]. split.
  - unfold strstriplt. rewrite Hr. destruct s as [|d s]; [congruence|]. cbn [nth] in Hf. cbn [skip_ws]. now rewrite Hf.
  - split; [exact Hr|]. split; [|exact Hsp]. repeat split; apply Forall_forall; intros d Hd ->; now specialize (Hc _ Hd).
Qed.

Lemma written_value_text pkind vk line fin text :
  behind line fin [] text -> text_ok text = true ->
  (fst (icalproperty_value_kind_is_multivalued pkind vk) = true -> commas_escaped NUL text = true) ->
  forall st, next_value_text pkind vk line fin st =
    Some ((Some text, snd (icalproperty_value_kind_is_multivalued pkind vk), length line), st).
Proof.
  intros (Hpos & _ & Hs) Ht Hc st. destruct (text_ok_facts text Ht) as (Hne & Hstrip & Htrim & _).
  assert (fin + length text = length line)%nat as Hlen by (rewrite <- Hs, length_skipn; lia).
  assert (make_segment text (length text) = text) as Hseg by (unfold make_segment; now rewrite firstn_all).
  unfold next_value_text. destruct (icalproperty_value_kind_is_multivalued pkind vk) as [multi rk]. cbn [fst snd] in *.
  destruct multi.
  - unfold parser_get_next_value. rewrite Hs.
    assert ((if quoted_whole text then Some None else next_comma (S (length text)) rk line fin fin) = Some None) as ->.
    { case_if; [reflexivity|]. cbn [next_comma]. rewrite Hs. unfold parser_get_next_char. now rewrite no_comma_found by auto. }
    cbv iota beta. replace (Nat.eqb (fin + length text) fin) with false; [|symmetry; apply Nat.eqb_neq; destruct text; [congruence | cbn; lia]].
    replace (fin + length text - fin)%nat with (length text) by lia. rewrite Hseg, Hlen. cbn [option_map]. now rewrite Hstrip.
  - unfold icalparser_get_value. rewrite Hs. destruct text as [|d r] eqn:Et; [congruence|]. rewrite <- Et in *.
    rewrite Hseg, Hlen. cbn [option_map]. now rewrite Hstrip.
Qed.

Lemma no_more_values pkind vk line st : exists k fin, next_value_text pkind vk line (length line) st = Some ((None, k, fin), st).
Proof.
  unfold next_value_text, parser_get_next_value, icalparser_get_value.
  destruct (icalproperty_value_kind_is_multivalued pkind vk) as [multi rk]. rewrite skipn_all. destruct multi; [|eauto].
  cbn [quoted_whole length next_comma]. rewrite skipn_all. cbn [parser_get_next_char next_char option_map].
  rewrite Nat.add_0_r, Nat.eqb_refl. cbn. eauto.
Qed.

Lemma runs_set_written x v0 pk v :
  pr_kind x = pk -> icalvalue_set_parent (Some pk) v0 = v ->
  (forall q, is_time_kind (v_kind v) = true -> find is_value_param (pr_parameters x) = Some q ->
     icalparameter_value_to_value_kind (param_value q) = v_kind v) ->
  runs (icalproperty_set_value (Some v0) x) (fun y => exists it, y = set_iterator it (with_value (Some v) x)).
Proof.
  intros Hk Hv Hq. unfold icalproperty_set_value. rewrite Hk, Hv. unfold icalvalue_isa.
  assert (v_kind v0 = v_kind v) as Ek by (rewrite <- Hv; reflexivity). rewrite Ek.
  assert (with_value (Some v) x = set_iterator (parameter_iterator x) (with_value (Some v) x)) as Eself by now destruct x.
  case_if; [|apply runs_ret; now exists (parameter_iterator x)].
  destruct (get_first_value_param (with_value (Some v) x)) as [it ->]. cbn [pr_parameters with_value].
  destruct (find is_value_param (pr_parameters x)) as [q|] eqn:Ef; [|apply runs_ret; eauto].
  eapply runs_bind; [apply runs_value_param_is|]. cbv beta. intros k ->. apply runs_ret.
  rewrite (Hq q eq_refl eq_refl). rewrite (proj2 (kind_eqb_eq _ _) eq_refl). cbn [negb]. eauto.
Qed.

Lemma runs_values_written fuel pkind line fin text vk v x P' :
  behind line fin [] text -> text_ok text = true ->
  (fst (icalproperty_value_kind_is_multivalued pkind vk) = true -> commas_escaped NUL text = true) ->
  (forall addr, runs (icalvalue_new_from_string addr (snd (icalproperty_value_kind_is_multivalued pkind vk)) text)
    (fun r => option_map (icalvalue_set_parent (Some pkind)) r = Some v)) ->
  (forall q, is_time_kind (v_kind v) = true -> find is_value_param (pr_parameters x) = Some q ->
     icalparameter_value_to_value_kind (param_value q) = v_kind v) ->
  holding P c rest x P' -> pr_addr x = a -> pr_kind x = pkind ->
  runs (read_values (S (S fuel)) pkind a line fin vk 0 P')
    (fun r => fst r = true /\ exists it, holding P c rest (set_iterator it (with_value (Some v) x)) (snd r)).
Proof.
  intros Hb Ht Hc Hr Hq Hh Hx Hk. remember (S fuel) as n eqn:En. cbn [read_values].
  change (negb (0 <? MAXIMUM_ALLOWED_MULTIPLE_VALUES)) with false. cbv iota.
  eapply runs_bind.
  { intros st Hst. eexists _, _. split; [apply (written_value_text pkind vk line fin text); assumption|]. split; [exact Hst|].
    exact (eq_refl (Some text, snd (icalproperty_value_kind_is_multivalued pkind vk), length line)). }
  cbv beta. intros r <-. cbv iota beta. unfold property_for_value. change (0 <=? 0) with true. cbv iota. apply runs_bind_ret.
  destruct (new_addr P') as [addr P1] eqn:Enew. cbv iota beta.
  eapply runs_bind; [apply Hr|]. cbv beta. intros [v0|]; [|discriminate]. cbn [option_map]. intros [= Hv0].
  assert (holding P c rest x P1) as Hh1.
  { destruct Hh as [H1 H2 H3 H4 H5]. unfold new_addr in Enew. injection Enew as <- <-. constructor; cbn; try assumption. lia. }
  eapply runs_bind.
  { eapply (runs_update_holding _ x P1 _ Hh1 Hx). now apply (runs_set_written x v0 pkind v). }
  cbv beta. intros P2 (y & (it & ->) & Hh2). subst n. cbn [read_values].
  change (negb (0 + 1 <? MAXIMUM_ALLOWED_MULTIPLE_VALUES)) with false. cbv iota.
  eapply runs_bind with (P := fun r => fst (fst r) = None).
  { intros st Hst. destruct (no_more_values pkind (snd (icalproperty_value_kind_is_multivalued pkind vk)) line st) as (k & f & E).
    eexists _, _. split; [exact E|]. now split. }
  intros [[o k] f] E. cbn [fst] in E. subst o. cbv iota beta. change (0 + 1 =? 0) with false. cbv iota. apply runs_ret.
  split; [reflexivity|]. exists it. exact Hh2.
Qed.
End Holding.

Lemma add_all_facts qs : forall x,
  pr_parameters (add_all qs x) = pr_parameters x ++ map as_read qs /\
  pr_count (add_all qs x) = pr_count x + Z.of_nat (length qs) /\
  pr_addr (add_all qs x) = pr_addr x /\ pr_kind (add_all qs x) = pr_kind x /\ pr_x_name (add_all qs x) = pr_x_name x /\
  pr_parent (add_all qs x) = pr_parent x.
Proof.
  induction qs as [|q qs IH]; intros x; cbn [add_all fold_left map length].
  - rewrite app_nil_r, Z.add_0_r. now repeat split.
  - fold (add_all qs (icalproperty_add_parameter (as_read q) x)).
    destruct (IH (icalproperty_add_parameter (as_read q) x)) as (-> & -> & -> & -> & -> & ->).
    cbn [icalproperty_add_parameter set_parameters pr_parameters pr_count pr_addr pr_kind pr_x_name pr_parent].
    rewrite <- app_assoc. split; [reflexivity|]. split; [lia|]. now repeat split.
Qed.

(** The name ends at the first separator. *)
Lemma written_name name ts text :
  name_ok name = true -> Forall scanned ts ->
  parser_get_prop_name (name ++ after_name ts text) = Some (name, S (length name)).
Proof.
  intros Hn Hts. unfold parser_get_prop_name, parser_get_next_char.
  rewrite !next_char_plain by (apply name_ok_not; [reflexivity | exact Hn]). cbn [Nat.add].
  destruct (name_char_facts _ (name_last name NUL Hn)) as (Hc & Hsp & _).
  rewrite colon_found by assumption.
  assert (make_segment (name ++ after_name ts text) (length name) = name) as Hseg.
  { unfold make_segment. rewrite firstn_app, firstn_all, Nat.sub_diag, firstn_O, app_nil_r. now apply rtrim_id. }
  destruct ts as [|t ts].
  - cbn [flat_map length]. rewrite Nat.add_0_r, Hseg. unfold after_name. cbn [flat_map app].
    rewrite next_char_skip by discriminate. destruct (next_char ";" true ":" false text _) as [m|] eqn:Em; [|reflexivity].
    apply next_char_from in Em. destruct (Nat.ltb_spec (length name) m); [reflexivity | lia].
  - replace (next_char ";" true (last name NUL) false (after_name (t :: ts) text) (length name)) with (Some (length name)).
    + destruct (Nat.ltb_spec (length name + length (flat_map (fun t0 => ";"%char :: t0) (t :: ts))) (length name)); [lia|].
      now rewrite Hseg.
    + symmetry. unfold after_name. cbn [flat_map app]. now apply next_char_found.
Qed.

Lemma kind_after_filter k qs : kind_after k (filter (fun q => negb (is_value_param q)) qs) = k.
Proof.
  unfold kind_after. induction qs as [|q qs IH]; [reflexivity|]. cbn [filter]. destruct (is_value_param q) eqn:E; cbn [negb]; [exact IH|].
  cbn [fold_left]. now rewrite E.
Qed.

Lemma value_parameter_named pk k : kind_named pk k = true ->
  is_value_param (value_parameter k) = true /\
  icalparameter_value_to_value_kind (param_value (value_parameter k)) = k /\ icalproperty_value_kind_is_valid pk k = true.
Proof.
  unfold kind_named, value_parameter, is_value_param, param_value. destruct (icalvalue_kind_to_string k); [|discriminate].
  rewrite !andb_true_iff, kind_eqb_eq. now intros [[_ H1] H2].
Qed.

Lemma find_filtered qs : find is_value_param (map as_read (filter (fun q => negb (is_value_param q)) qs)) = None.
Proof.
  induction qs as [|q qs IH]; [reflexivity|]. cbn [filter]. destruct (is_value_param q) eqn:E; cbn [negb]; [exact IH|].
  cbn [map find]. unfold is_value_param at 1. rewrite as_read_kind. fold (is_value_param q). now rewrite E.
Qed.

Section LineRead.
Context (p : icalproperty) (name : cstring) (v : icalvalue) (text : cstring) (Hf : writable_facts p name v text).

Lemma line_kind_after :
  kind_after (icalproperty_kind_to_value_kind (pr_kind p)) (line_parameters p v)
  = match printed_kind p v with Some k => k | None => icalproperty_kind_to_value_kind (pr_kind p) end.
Proof.
  unfold line_parameters, kind_after. rewrite fold_left_app. fold (kind_after).
  destruct (printed_kind p v) as [k|] eqn:Ek; cbn [fold_left]; [|apply kind_after_filter].
  destruct (value_parameter_named _ _ (wf_printed _ _ _ _ Hf k Ek)) as (-> & -> & _). apply kind_after_filter.
Qed.

Lemma line_values_valid :
  Forall (fun q => is_value_param q = true ->
    icalproperty_value_kind_is_valid (pr_kind p) (icalparameter_value_to_value_kind (param_value q)) = true) (line_parameters p v).
Proof.
  apply Forall_forall. intros q Hq Hv. unfold line_parameters in Hq. apply in_app_or in Hq as [Hq|Hq].
  - destruct (printed_kind p v) as [k|] eqn:Ek; [|contradiction]. destruct Hq as [<-|[]].
    now destruct (value_parameter_named _ _ (wf_printed _ _ _ _ Hf k Ek)) as (_ & -> & H).
  - apply filter_In in Hq as [_ Hq]. now rewrite Hv in Hq.
Qed.

Lemma line_time_kind q :
  is_time_kind (v_kind v) = true -> find is_value_param (map as_read (line_parameters p v)) = Some q ->
  icalparameter_value_to_value_kind (param_value q) = v_kind v.
Proof.
  intros Ht. unfold line_parameters. destruct (printed_kind p v) as [k|] eqn:Ek; cbn [app map find]; [|now rewrite find_filtered].
  destruct (value_parameter_named _ _ (wf_printed _ _ _ _ Hf k Ek)) as (Hv & Hk & _).
  unfold is_value_param at 1. rewrite as_read_kind. fold (is_value_param (value_parameter k)). rewrite Hv. intros [= <-].
  rewrite <- (wf_time _ _ _ _ Hf k Ek Ht). rewrite <- Hk at 2. unfold param_value, as_read. cbn. now destruct (pa_string (value_parameter k)).
Qed.
End LineRead.

Lemma not_blank name r : name_ok name = true -> line_is_blank (name ++ r) = false.
Proof.
  intros H. destruct name as [|c name]; [discriminate|]. unfold name_ok in H. cbn [forallb] in H. rewrite !andb_true_iff in H.
  destruct H as [[Hc _] _]. unfold line_is_blank. cbn [app forallb]. clear -Hc.
  destruct c as [[] [] [] [] [] [] [] []]; vm_compute in Hc |- *; congruence.
Qed.

Lemma many_parameters (ts : list cstring) (text : cstring) : (length ts <= length (after_name ts text))%nat.
Proof.
  unfold after_name. rewrite length_app. enough (length ts <= length (flat_map (fun t => ";"%char :: t) ts))%nat by (cbn; lia).
  induction ts as [|t ts IH]; [reflexivity|]. cbn [flat_map length]. rewrite length_app. cbn [length]. lia.
Qed.

(** The new property of the line, with its name if it has none in the table. *)
Definition started (a : positive) (c : icalcomponent) (p : icalproperty) : icalproperty :=
  Property a (pr_kind p) (if pr_kind p =? ICAL_X_PROPERTY then property_name p else None) [] 0 NoElem None (Some (co_addr c)).

(** A written property is read into the component that is open. *)
Lemma runs_line_read P c rest p line :
  line_property p line -> open_components P = c :: rest -> Forall (fun x => pr_addr x <> next_addr P) (co_properties c) ->
  runs (icalparser_add_line tok P (Some line))
    (fun r => fst r = None /\ exists q v, pr_value p = Some v /\ reads_as p v q /\ pr_addr q = next_addr P /\
              pr_parent q = Some (co_addr c) /\ holding P c rest q (snd r)).
Proof.
  intros Hl Ho Hfresh. destruct Hl as [name v text Hname Hv Hw [_ Hr]]. pose proof (writable_spec _ _ _ _ Hw) as Hf.
  assert (Forall scanned (map parameter_text (line_parameters p v))) as Hsc.
  { apply Forall_map. eapply Forall_impl; [|apply Hf]. intros q. apply writable_scanned. }
  pose proof (wf_name _ _ _ _ Hf) as Hn. unfold icalparser_add_line. remember (line_of name p v text) as line eqn:Eline.
  assert (line_is_blank line = false) as -> by (rewrite Eline; now apply not_blank).
  assert (parser_get_prop_name line = Some (name, S (length name))) as -> by (rewrite Eline; now apply written_name).
  cbv iota beta. destruct name as [|n0 name0] eqn:En; [discriminate|]. rewrite <- En in *.
  rewrite (wf_begin _ _ _ _ Hf), (wf_end _ _ _ _ Hf), Ho.
  eapply runs_bind with (P := fun P' => exists q, reads_as p v q /\ pr_addr q = next_addr P /\ pr_parent q = Some (co_addr c) /\ holding P c rest q P');
    [|cbv beta; intros P' (q & H1 & H2 & H3 & H4); apply runs_ret; cbn [fst snd]; eauto 10].
  unfold add_property_line. rewrite (wf_kind _ _ _ _ Hf). cbv zeta. unfold new_addr at 1. cbv iota beta.
  unfold icalproperty_new, icalproperty_new_impl. rewrite (wf_valid _ _ _ _ Hf).
  destruct (Z.eqb_spec (pr_kind p) ICAL_NO_PROPERTY) as [E0|_]; [now apply (wf_some _ _ _ _ Hf) in E0|].
  set (P1 := Parser _ _ _ _ _ _). eapply runs_bind with (P := holding P c rest (started (next_addr P) c p)).
  { unfold add_to_tail. cbn [open_components P1]. rewrite Ho. apply runs_ret.
    constructor; cbn; try reflexivity; [|lia]. f_equal. unfold icalcomponent_add_property, started. f_equal. f_equal.
    rewrite Hname. case_if; reflexivity. }
  cbv beta. intros P2 Hh.
  assert (behind line (S (length name)) (line_parameters p v) text) as Hb.
  { apply (step_behind line 0 name); [rewrite Eline; reflexivity | lia]. }
  eapply runs_bind.
  { apply (runs_read_written P c rest (next_addr P) Hfresh (pr_kind p) line text (S (length line)) (line_parameters p v)
      (Progress (S (length name)) 0 (icalproperty_kind_to_value_kind (pr_kind p)) P2) (started (next_addr P) c p)); try apply Hf; try assumption.
    - pose proof (many_parameters (map parameter_text (line_parameters p v)) text) as Hm. rewrite length_map in Hm.
      rewrite Eline. unfold line_of. rewrite length_app. lia.
    - now apply (line_values_valid p name v text).
    - cbn [lp_pcount]. pose proof (wf_few _ _ _ _ Hf). lia.
    - reflexivity. }
  cbv beta. intros lp (Hb' & Ek & Hh'). cbn [lp_value_kind] in Ek. rewrite (line_kind_after p name v text Hf) in Ek.
  destruct (add_all_facts (line_parameters p v) (started (next_addr P) c p)) as (F1 & F2 & F3 & F4 & F5 & F6).
  cbn [started pr_parameters pr_count pr_addr pr_kind pr_x_name pr_parent app] in F1, F2, F3, F4, F5, F6.
  assert (1 <= length line)%nat as Hlen by (rewrite Eline, En; cbn; lia).
  destruct (length line) as [|len] eqn:El; [lia|].
  eapply runs_bind.
  { apply (runs_values_written P c rest (next_addr P) Hfresh len (pr_kind p) line (lp_end lp) text (lp_value_kind lp) v
      (add_all (line_parameters p v) (started (next_addr P) c p)) (lp_parser lp) Hb');
      try exact Hh'; try assumption; try (rewrite Ek); try apply Hf; try exact Hr.
    intros q Ht Hq. rewrite F1 in Hq. now apply (line_time_kind p name v text). }
  cbv beta. intros [complete P3] [Ec [it Hh3]]. cbn [fst snd] in Ec, Hh3. subst complete. apply runs_ret.
  eexists. split; [|split; [|split; [|destruct Hh3; constructor; eassumption]]].
  - constructor; cbn; [exact F4 | exact F5 | exact F1 | rewrite F2; lia | reflexivity].
  - cbn. exact F3.
  - cbn. exact F6.
Qed.

(** ** Values that read back *)

Lemma text_without_parent pp w :
  v_kind w <> ICAL_TEXT_VALUE -> v_kind w <> ICAL_X_VALUE ->
  icalvalue_as_ical_string_r (icalvalue_set_parent pp w) = icalvalue_as_ical_string_r w.
Proof. destruct w as [k pw x d]. cbn [v_kind]. intros H1 H2. destruct k; try reflexivity; congruence. Qed.

Lemma reads_back_value v : reads_back v ->
  (exists s, forall st, icalvalue_as_ical_string_r v st = Some (Some s, st)) ->
  exists s, (forall st, icalvalue_as_ical_string_r v st = Some (Some s, st)) /\
    forall addr, runs (icalvalue_new_from_string addr (v_kind v) s) (fun r => r = Some (icalvalue_set_parent None v)).
Proof.
  intros Hb [s Hs]. exists s. split; [exact Hs|]. intros addr st Hst. destruct Hst as (Hq1 & Hq2 & Hok).
  specialize (Hb addr st Hok). unfold rewrite_value, bind in Hb. rewrite Hs in Hb.
  unfold icalvalue_new_from_string_with_error, bind in Hb.
  exists (Some (icalvalue_set_parent None v)), st. split; [|now repeat split]. unfold icalvalue_new_from_string, bind.
  destruct (read_value addr (v_kind v) s st) as [[[[r|] [e|]] st']|]; try discriminate; now injection Hb as -> ->.
Qed.

Lemma written_parent pp w :
  written_value w -> v_kind w = ICAL_TEXT_VALUE \/ v_kind w = ICAL_X_VALUE -> written_value (icalvalue_set_parent pp w).
Proof.
  intros Hw Hk.
  destruct Hw as [b|n|n|pw s Hs Hks|k s Hks|t|d|pd|r Hr|code d Hc Hd|pw s Hs Hks|k x e name Hx He|k x s Hx];
    try (now apply wv_text); try (now apply wv_x); exfalso; cbn in Hk; try (destruct Hk; discriminate).
  - cbn in Hks. destruct Hk; subst; decompose [or] Hks; congruence || contradiction.
  - destruct (icaltime_is_date t), Hk; discriminate.
  - destruct Hk; subst; discriminate.
  - destruct Hk; subst; discriminate.
Qed.

(** Every value of the round trip of IcalValue, in a property that reads it under
    its kind. *)
Lemma written_value_reads p w :
  written_value w -> snd (reading_kind p (icalvalue_set_parent (Some (pr_kind p)) w)) = v_kind w ->
  exists text, value_reads p (icalvalue_set_parent (Some (pr_kind p)) w) text.
Proof.
  intros Hw Hk. set (v := icalvalue_set_parent (Some (pr_kind p)) w) in *.
  assert (exists s, (forall st, icalvalue_as_ical_string_r v st = Some (Some s, st)) /\
    forall addr, runs (icalvalue_new_from_string addr (v_kind v) s) (fun r => r = Some (icalvalue_set_parent None v))) as (s & Hs & Hr).
  { pose proof (reads_back_value w (written_reads_back w Hw) (written_text w Hw)) as Hgen.
    assert (v_kind w = ICAL_TEXT_VALUE \/ v_kind w = ICAL_X_VALUE -> written_value v) as Hv by now apply written_parent.
    destruct (value_kind_dec (v_kind w) ICAL_TEXT_VALUE) as [Et|Nt];
      [specialize (Hv (or_introl Et)); apply reads_back_value; [now apply written_reads_back | now apply written_text]|].
    destruct (value_kind_dec (v_kind w) ICAL_X_VALUE) as [Ex|Nx];
      [specialize (Hv (or_intror Ex)); apply reads_back_value; [now apply written_reads_back | now apply written_text]|].
    destruct Hgen as (s & Hs & Hr). exists s. split; [|exact Hr]. intros st. subst v. now rewrite text_without_parent. }
  exists s. split; [exact Hs|]. intros addr. rewrite Hk. eapply runs_weaken; [apply Hr|]. cbv beta. intros r ->. reflexivity.
Qed.

Lemma written_value_text_reads p w text :
  written_value w -> snd (reading_kind p (icalvalue_set_parent (Some (pr_kind p)) w)) = v_kind w ->
  option_map fst (icalvalue_as_ical_string_r (icalvalue_set_parent (Some (pr_kind p)) w) (initial_error_state false)) = Some (Some text) ->
  value_reads p (icalvalue_set_parent (Some (pr_kind p)) w) text.
Proof.
  intros Hw Hk Ht. destruct (written_value_reads p w Hw Hk) as (s & Hs & Hr). rewrite Hs in Ht. injection Ht as <-. now split.
Qed.

(** *** Properties that can be stored *)

(** The text that is written for a value. *)
Definition value_text (v : icalvalue) : cstring :=
  match icalvalue_as_ical_string_r v (initial_error_state false) with Some (Some s, _) => s | _ => [] end.

(** The line that is written for a property. *)
Definition property_content (p : icalproperty) : cstring :=
  match property_name p, pr_value p with Some name, Some v => line_of name p v (value_text v) | _, _ => [] end.

(** A property has a name that denotes its kind and parameters that can be encoded, its
    value is one of the round trip of [IcalValue], of the kind under which the line is
    read, and the text of the value keeps the conditions of [writable_property]: nothing
    is assumed about the reader. *)
Inductive storable_property (p : icalproperty) : Prop :=
| StorableProperty name w :
    property_name p = Some name -> pr_value p = Some (icalvalue_set_parent (Some (pr_kind p)) w) -> written_value w ->
    snd (reading_kind p (icalvalue_set_parent (Some (pr_kind p)) w)) = v_kind w ->
    writable_property p name (icalvalue_set_parent (Some (pr_kind p)) w) (value_text (icalvalue_set_parent (Some (pr_kind p)) w)) = true ->
    storable_property p.

Lemma storable_line p : storable_property p -> line_property p (property_content p).
Proof.
  intros [name w Hn Hv Hw Hk Hwr]. unfold property_content. rewrite Hn, Hv. constructor; try assumption.
  apply written_value_text_reads; try assumption. destruct (written_value_reads p w Hw Hk) as (s & Hs & _).
  unfold value_text. now rewrite Hs.
Qed.
End Lines.
