(* ===== verification/IcalComponentText.v ===== *)
(** * Calendars as text

    A tree of components that [icalcomponent_as_ical_string_r] writes is read
    again by [icalparser_parse_string]: the same kinds, properties, parameters and
    values, with the time zones in front. *)
From Stdlib Require Import String Ascii ZArith Lia Bool List.
From S2P Require Import Prelude CString IcalError IcalTime IcalTimeCalendar IcalTimeText IcalValueText IcalValue IcalValueSafe IcalLine IcalParameter IcalProperty IcalComponent IcalParser IcalDesignData IcalParserSafe IcalParserTotal IcalParameterText IcalPropertyText.
Import ListNotations.
#[local] Open Scope Z_scope.
#[local] Open Scope cstring_scope.
#[local] Open Scope err_scope.

Lemma runs_and {A} (m : err A) (P Q : A -> Prop) : runs m P -> runs m Q -> runs m (fun a => P a /\ Q a).
Proof.
  intros HP HQ st Hst. destruct (HP st Hst) as (a & s1 & E & H1 & Ha), (HQ st Hst) as (b & s2 & E2 & _ & Hb).
  rewrite E in E2. injection E2 as <- <-. eauto 6.
Qed.

Section Trees.
Context `{PROPS : PropertyTables} `{PARAMS : ParameterTables} `{FLOAT : FloatOps} `{TZ : TimezoneConv}.
Variable tok : ical_unknown_token_handling.

(** ** The lines of a tree *)

Definition kind_name (c : icalcomponent) : cstring := or_null (icalcomponent_kind_to_string (co_kind c)).

Definition begin_line (c : icalcomponent) : cstring := $"BEGIN" ++ after_name [] (kind_name c).
Definition end_line (c : icalcomponent) : cstring := $"END" ++ after_name [] (kind_name c).

(** The kind has a name that denotes it; X components and those without a kind do
    not. *)
Definition named_component (c : icalcomponent) : bool :=
  match icalcomponent_kind_to_string (co_kind c) with
  | Some n => ckind_eqb (icalcomponent_string_to_kind (Some n)) (co_kind c)
              && negb (ckind_eqb (co_kind c) ICAL_X_COMPONENT) && negb (ckind_eqb (co_kind c) ICAL_NO_COMPONENT)
  | None => false
  end.

(** The lines of a component up to its END line, and of a list of components. *)
Inductive tree_lines : icalcomponent -> list cstring -> Prop :=
| TreeLines c ls ms :
    named_component c = true -> Forall2 (line_property tok) (co_properties c) ls -> forest_lines (co_components c) ms ->
    tree_lines c (begin_line c :: ls ++ ms)
with forest_lines : list icalcomponent -> list cstring -> Prop :=
| ForestNil : forest_lines [] []
| ForestCons c ls cs ms : tree_lines c ls -> forest_lines cs ms -> forest_lines (c :: cs) (ls ++ end_line c :: ms).

Scheme tree_lines_mut := Minimality for tree_lines Sort Prop
  with forest_lines_mut := Minimality for forest_lines Sort Prop.

(** *** Trees that can be stored *)

(** Every kind has a name, and every property can be stored. *)
Inductive storable : icalcomponent -> Prop :=
| Storable c :
    named_component c = true -> Forall (storable_property tok) (co_properties c) -> Forall storable (co_components c) -> storable c.

(** The lines that are written, up to the END line. *)
Fixpoint component_lines (c : icalcomponent) : list cstring :=
  begin_line c :: map property_content (co_properties c) ++ flat_map (fun d => component_lines d ++ [end_line d]) (co_components c).

Definition forest_content (cs : list icalcomponent) : list cstring := flat_map (fun d => component_lines d ++ [end_line d]) cs.

Fixpoint storable_lines c (H : storable c) {struct H} : tree_lines c (component_lines c).
Proof.
  destruct H as [c Hn Hp Hc].
  assert (component_lines c = begin_line c :: map property_content (co_properties c) ++ forest_content (co_components c)) as -> by now destruct c.
  constructor; [exact Hn| |].
  - clear -Hp. induction Hp as [|p ps H _ IH]; constructor; [now apply storable_line | exact IH].
  - clear -storable_lines Hc. induction Hc as [|d ds H _ IH]; [constructor|]. cbn [forest_content flat_map]. rewrite <- app_assoc. cbn [app].
    constructor; [now apply storable_lines | exact IH].
Qed.

Lemma storable_forest_lines cs : Forall storable cs -> forest_lines cs (forest_content cs).
Proof.
  induction 1 as [|d ds H _ IH]; [constructor|]. cbn [forest_content flat_map]. rewrite <- app_assoc. cbn [app].
  constructor; [now apply storable_lines | exact IH].
Qed.

(** ** The names of components *)

Lemma named_facts c : named_component c = true ->
  icalcomponent_kind_to_string (co_kind c) = Some (kind_name c) /\ icalcomponent_string_to_kind (Some (kind_name c)) = co_kind c /\
  ckind_eqb (co_kind c) ICAL_X_COMPONENT = false /\ ckind_eqb (co_kind c) ICAL_NO_COMPONENT = false /\
  name_ok (kind_name c) = true /\
  fold_property_line (begin_line c ++ [CR; LF]) = begin_line c ++ [CR; LF] /\
  fold_property_line (end_line c ++ [CR; LF]) = end_line c ++ [CR; LF].
Proof.
  unfold named_component, begin_line, end_line, kind_name. destruct (co_kind c); vm_compute; intros H; try discriminate H; repeat split.
Qed.

(** ** Writing *)

Lemma folded_app a b : folded_text (a ++ b) = folded_text a ++ folded_text b.
Proof. apply flat_map_app. Qed.

Lemma runs_append_properties ps ls : Forall2 (line_property tok) ps ls -> forall buf,
  runs (append_properties ps buf) (fun r => fst r = buf ++ folded_text ls).
Proof.
  induction 1 as [|p l ps ls Hp _ IH]; intros buf; cbn [append_properties].
  - apply runs_ret. cbn. now rewrite app_nil_r.
  - eapply runs_bind with (P := fun r => fst r = Some (fold_property_line (l ++ [CR; LF]))).
    { unfold icalproperty_as_ical_string_r. eapply runs_bind; [apply (line_written tok p l Hp)|]. intros [o q] E. cbn [fst] in E. subst o.
      now apply runs_ret. }
    intros [o q] E. cbn [fst] in E. subst o. apply runs_bind_ret. eapply runs_bind; [apply IH|].
    intros [b qs] E. cbn [fst] in E. subst b. apply runs_ret. cbn [fst folded_text flat_map]. now rewrite <- app_assoc.
Qed.

(** The inner loop of [icalcomponent_as_ical_string_r]. *)
Definition append_components : list icalcomponent -> cstring -> err (cstring * list icalcomponent) :=
  fix append_components cs buf :=
    match cs with
    | [] => ret (buf, [])
    | s :: cs =>
        r <- icalcomponent_as_ical_string_r s ;;
        let '(tmp_buf, s) := r in
        buf <- append_string buf tmp_buf ;;
        r <- append_components cs buf ;;
        let '(buf, cs) := r in ret (buf, s :: cs)
    end.

Lemma as_ical_string_unfold c : icalcomponent_as_ical_string_r c =
  if ckind_eqb (co_kind c) ICAL_NO_COMPONENT then badarg (None, c)
  else
    match begin_name c with
    | None => badarg (None, c)
    | Some kind_string =>
        let buf := $"BEGIN:" ++ kind_string ++ [CR; LF] in
        r <- append_properties (co_properties c) buf ;;
        let '(buf, ps) := r in
        r <- append_components (co_components c) buf ;;
        let '(buf, cs) := r in
        buf <- append_string (buf ++ $"END:") (icalcomponent_kind_to_string (co_kind c)) ;;
        ret (Some (buf ++ [CR; LF]),
             with_components cs (component_iterator c) (with_properties ps (property_iterator c) c))
    end.
Proof. now destruct c. Qed.

Lemma tree_written c ls :
  tree_lines c ls -> runs (icalcomponent_as_ical_string_r c) (fun r => fst r = Some (folded_text (ls ++ [end_line c]))).
Proof.
  revert c ls.
  apply (tree_lines_mut (fun c ls => runs (icalcomponent_as_ical_string_r c) (fun r => fst r = Some (folded_text (ls ++ [end_line c]))))
    (fun cs ms => forall buf, runs (append_components cs buf) (fun r => fst r = buf ++ folded_text ms))).
  - intros c ls ms Hc Hp _ IH. destruct (named_facts c Hc) as (En & _ & Ex & Eno & _ & Eb & Ee).
    rewrite as_ical_string_unfold, Eno. unfold begin_name. rewrite Ex, En. cbn [negb]. cbv zeta.
    eapply runs_bind; [apply runs_append_properties, Hp|]. intros [b ps] E. cbn [fst] in E. subst b.
    eapply runs_bind; [apply IH|]. intros [b cs] E. cbn [fst] in E. subst b. apply runs_bind_ret. apply runs_ret. cbn [fst].
    f_equal. cbn [app]. change (begin_line c :: (ls ++ ms) ++ [end_line c]) with ([begin_line c] ++ (ls ++ ms) ++ [end_line c]).
    rewrite !folded_app. unfold folded_text at 3 6. cbn [flat_map]. rewrite Eb, Ee, !app_nil_r.
    unfold begin_line, end_line, after_name. cbn [flat_map app]. rewrite <- !app_assoc. reflexivity.
  - intros buf. apply runs_ret. cbn. now rewrite app_nil_r.
  - intros c ls cs ms _ IHc _ IHcs buf. cbn [append_components]. eapply runs_bind; [apply IHc|]. intros [o s] E. cbn [fst] in E. subst o.
    apply runs_bind_ret. eapply runs_bind; [apply IHcs|]. intros [b ss] E. cbn [fst] in E. subst b. apply runs_ret. cbn [fst].
    replace (ls ++ end_line c :: ms) with ((ls ++ [end_line c]) ++ ms) by now rewrite <- app_assoc.
    now rewrite (folded_app (ls ++ [end_line c])), <- app_assoc.
Qed.

(** ** What is read *)

(** A property that was read from the line of another. *)
Definition reads (p q : icalproperty) : Prop := exists v, pr_value p = Some v /\ reads_as p v q.

(** Children in the order of the parser: each time zone in front of all others. *)
Definition arrange (cs : list icalcomponent) : list icalcomponent := fold_left (fun l c => place c l) cs [].

(** The component [d] is what the parser makes of the text of [c]. *)
Inductive same_tree : icalcomponent -> icalcomponent -> Prop :=
| SameTree c d :
    co_kind d = co_kind c -> co_x_name d = None -> Forall2 reads (co_properties c) (co_properties d) ->
    Forall2 same_tree (arrange (co_components c)) (co_components d) -> same_tree c d.

Lemma erase_parts d d' : erase d' = erase d ->
  co_kind d' = co_kind d /\ co_x_name d' = co_x_name d /\ co_properties d' = co_properties d /\
  map erase (co_components d') = map erase (co_components d).
Proof. destruct d, d'. cbn. now intros [= -> -> -> -> ->]. Qed.

Fixpoint same_tree_erase c d (H : same_tree c d) {struct H} : forall d', erase d' = erase d -> same_tree c d'.
Proof.
  destruct H as [c d Hk Hx Hp Hc]. intros d' E. destruct (erase_parts d d' E) as (Ek & Ex & Ep & Ec).
  constructor; [congruence | congruence | now rewrite Ep |].
  revert Ec. generalize (co_components d'). clear - same_tree_erase Hc.
  induction Hc as [|x y xs ys Hxy _ IH]; intros [|z zs] E; try discriminate; [constructor|].
  injection E as E1 E2. constructor; [exact (same_tree_erase x y Hxy z E1) | now apply IH].
Qed.

Lemma same_kind c d : same_tree c d -> co_kind d = co_kind c.
Proof. now intros [? ? ? ? ?]. Qed.

Lemma place_same c d cs ds : same_tree c d -> Forall2 same_tree cs ds -> Forall2 same_tree (place c cs) (place d ds).
Proof.
  intros Hc Hcs. unfold place. rewrite (same_kind c d Hc). case_if; [now constructor|]. apply Forall2_app; [exact Hcs | constructor; [exact Hc | constructor]].
Qed.

(** The lines of a text, fed to a parser that does not finish a component. *)
Fixpoint feed (lines : list cstring) (P : icalparser) : err icalparser :=
  match lines with
  | [] => ret P
  | l :: lines =>
      r <- icalparser_add_line tok P (Some l) ;;
      match fst r with None => feed lines (snd r) | Some _ => undefined end
  end.

Lemma feed_app a b P st : feed (a ++ b) P st = (P' <- feed a P ;; feed b P') st.
Proof.
  revert P st. induction a as [|l a IH]; intros P st; [reflexivity|]. cbn [app feed]. unfold bind.
  destruct (icalparser_add_line tok P (Some l) st) as [[[o Q] s]|]; [|reflexivity]. cbn [fst snd]. destruct o; [reflexivity|]. apply IH.
Qed.

Lemma runs_feed_app a b P Q R :
  runs (feed a P) Q -> (forall P', Q P' -> runs (feed b P') R) -> runs (feed (a ++ b) P) R.
Proof. intros Ha Hb st Hst. rewrite feed_app. revert st Hst. change (runs (bind (feed a P) (feed b)) R). now apply (runs_bind _ _ Q). Qed.

Lemma feed_parse a b P root st P' st' :
  feed a P st = Some (P', st') -> parse_lines tok (a ++ b) P root st = parse_lines tok b P' root st'.
Proof.
  revert P st. induction a as [|l a IH]; intros P st; [now intros [= <- <-]|]. cbn [feed app parse_lines]. unfold bind at 1 2.
  destruct (icalparser_add_line tok P (Some l) st) as [[[o Q] s]|]; [|discriminate]. cbn [fst snd]. destruct o; [discriminate|].
  intros E. apply IH in E. exact E.
Qed.

(** ** Reading *)

Lemma good_read p l v q : line_property tok p l -> pr_value p = Some v -> reads_as p v q -> good_property q.
Proof.
  intros [name v' text _ Hv' Hw _] Hv [Hk _ _ _ Hq]. rewrite Hv in Hv'. injection Hv' as <-. apply writable_spec in Hw as Hf.
  constructor; [rewrite Hk; apply Hf| |].
  - intros w. rewrite Hq. intros [= <-]. apply Hf.
  - intros w Ht. rewrite Hq. intros [= <-]. rewrite Hk in Ht. now apply Hf.
Qed.

(** The parser with the properties [qs] added to the open component. *)
Definition with_more (t : icalcomponent) (rest : list icalcomponent) (qs : list icalproperty) (P : icalparser) : Prop :=
  parser_ok P /\ open_components P = with_properties (co_properties t ++ qs) (property_iterator t) t :: rest.

Lemma runs_property_fed P t rest p l :
  line_property tok p l -> parser_ok P -> open_components P = t :: rest ->
  runs (icalparser_add_line tok P (Some l)) (fun r => fst r = None /\ exists q, reads p q /\ with_more t rest [q] (snd r)).
Proof.
  intros Hl Hp Ho. pose proof Hp as [Hlev Hgood Herr Haddr]. rewrite Ho in Hgood, Haddr.
  inversion_clear Hgood as [|? ? Hg1 Hg2]. inversion_clear Haddr as [|? ? Ha1 Ha2].
  eapply runs_weaken; [apply (runs_line_read tok P t rest p l Hl Ho)|].
  - eapply Forall_impl; [|exact Ha1]. cbv beta. intros x. lia.
  - cbv beta. intros r (E & q & v & Hv & Hr & Hqa & Hqp & [H1 H2 H3 H4 H5]). split; [exact E|]. exists q. split; [now exists v|].
    split; [|exact H1]. constructor.
    + rewrite H2, H1, Hlev, Ho. reflexivity.
    + rewrite H1. constructor; [|exact Hg2]. apply good_with_properties; [|exact Hg1]. apply Forall_app. split; [now apply good_inv|].
      constructor; [|constructor]. now apply (good_read p l v).
    + now rewrite H4.
    + rewrite H1. assert (forall ps, Forall (fun x => (pr_addr x < next_addr P)%positive) ps -> Forall (fun x => (pr_addr x < next_addr (snd r))%positive) ps) as Hle.
      { intros ps. apply Forall_impl. intros x. lia. }
      constructor; [|eapply Forall_impl; [|exact Ha2]; intros x; apply Hle].
      cbn [co_properties with_properties]. apply Forall_app. split; [now apply Hle|]. constructor; [lia | constructor].
Qed.

Lemma runs_properties_fed ps ls : Forall2 (line_property tok) ps ls -> forall P t rest,
  parser_ok P -> open_components P = t :: rest ->
  runs (feed ls P) (fun P' => exists qs, Forall2 reads ps qs /\ with_more t rest qs P').
Proof.
  induction 1 as [|p l ps ls Hl _ IH]; intros P t rest Hp Ho; cbn [feed].
  - apply runs_ret. exists []. split; [constructor|]. split; [exact Hp|]. rewrite Ho, app_nil_r. now destruct t.
  - eapply runs_bind; [now apply (runs_property_fed P t rest p l)|]. intros [o P1] (E & q & Hq & Hp1 & Ho1). cbn [fst snd] in *. subst o.
    eapply runs_weaken; [apply (IH P1 _ _ Hp1 Ho1)|]. cbv beta. intros P2 (qs & Hqs & Hp2 & Ho2). exists (q :: qs).
    split; [now constructor|]. split; [exact Hp2|]. rewrite Ho2. cbn [co_properties property_iterator with_properties]. now rewrite <- app_assoc.
Qed.

(** *** BEGIN and END *)

Lemma marker_line n m r : name_ok n = true -> name_ok m = true ->
  parser_get_prop_name (n ++ after_name [] m) = Some (n, S (length n)) /\ line_is_blank (n ++ r) = false /\
  runs (component_name (n ++ after_name [] m) (S (length n))) (fun s => s = Some m).
Proof.
  intros Hn Hm. split; [now apply written_name|]. split; [now apply not_blank|].
  assert (skipn (S (length n)) (n ++ after_name [] m) = m) as Es.
  { unfold after_name. cbn [flat_map app]. rewrite skipn_app. replace (S (length n) - length n)%nat with 1%nat by lia.
    now rewrite skipn_all2 by lia. }
  assert (m <> []) as Hne by (intros ->; discriminate).
  unfold component_name, parser_get_next_value. rewrite Es.
  assert ((if quoted_whole m then Some None else next_comma (S (length m)) ICAL_NO_VALUE (n ++ after_name [] m) (S (length n)) (S (length n))) = Some None) as ->.
  { case_if; [reflexivity|]. cbn [next_comma]. rewrite Es. unfold parser_get_next_char.
    rewrite next_char_none; [reflexivity | apply name_ok_not; [reflexivity | exact Hm] | discriminate]. }
  cbv iota beta. replace (Nat.eqb (S (length n) + length m) (S (length n))) with false
    by (symmetry; apply Nat.eqb_neq; destruct m; [congruence | cbn; lia]).
  apply runs_ret. f_equal. unfold make_segment. replace (S (length n) + length m - S (length n))%nat with (length m) by lia.
  rewrite firstn_all. apply rtrim_id, name_char_facts, name_last, Hm.
Qed.

Definition opened (a : positive) (k : icalcomponent_kind) : icalcomponent := Component a k None [] NoElem [] NoElem None None true.

Lemma runs_begin_fed P c :
  named_component c = true -> parser_ok P ->
  runs (icalparser_add_line tok P (Some (begin_line c)))
    (fun r => fst r = None /\ parser_ok (snd r) /\ exists a, open_components (snd r) = opened a (co_kind c) :: open_components P).
Proof.
  intros Hc Hp. destruct (named_facts c Hc) as (_ & Ek & _ & _ & Hn & _ & _).
  destruct (marker_line $"BEGIN" (kind_name c) (after_name [] (kind_name c)) eq_refl Hn) as (H1 & H2 & H3).
  unfold icalparser_add_line, begin_line. rewrite H2, H1. cbv iota beta. change (strcaseeqb $"BEGIN" $"BEGIN") with true. cbv iota.
  eapply runs_bind; [|intros Q HQ; apply runs_ret; cbn [fst snd]; split; [reflexivity | exact HQ]].
  apply runs_and; [apply (runs_begin P); [exact Hp | cbn; lia]|].
  unfold begin_component. eapply runs_bind; [apply H3|]. cbv beta. intros s ->. rewrite Ek. cbv zeta. unfold new_addr. cbv iota beta.
  unfold icalcomponent_new, icalcomponent_new_impl. rewrite <- Ek, component_kind_valid, Ek. apply runs_bind_ret. cbv iota beta. apply runs_ret.
  cbn. eauto.
Qed.

Lemma end_line_reads P c :
  named_component c = true -> (exists fin, (2 <= fin)%nat /\ icalparser_add_line tok P (Some (end_line c)) = end_component P (end_line c) fin /\
    runs (component_name (end_line c) fin) any).
Proof.
  intros Hc. destruct (named_facts c Hc) as (_ & _ & _ & _ & Hn & _ & _).
  destruct (marker_line $"END" (kind_name c) (after_name [] (kind_name c)) eq_refl Hn) as (H1 & H2 & H3).
  exists 4%nat. split; [lia|]. split; [|eapply runs_weaken; [exact H3 | easy]].
  unfold icalparser_add_line, end_line. rewrite H2, H1. reflexivity.
Qed.

Lemma runs_end_fed P c d t rest :
  named_component c = true -> parser_ok P -> open_components P = d :: t :: rest ->
  runs (icalparser_add_line tok P (Some (end_line c)))
    (fun r => fst r = None /\ parser_ok (snd r) /\ exists t', open_components (snd r) = t' :: rest /\ child_added t d t').
Proof.
  intros Hc Hp Ho. destruct (end_line_reads P c Hc) as (fin & Hfin & -> & Hname).
  eapply runs_weaken with (P := fun r => line_result r /\ (fst r = None /\ exists t', open_components (snd r) = t' :: rest /\ child_added t d t'));
    [|cbv beta; intros r [[H1 _] [H2 H3]]; auto].
  apply runs_and; [now apply runs_end|]. destruct Hp as [Hl Hg _ _]. rewrite Ho in Hl, Hg. cbn [length] in Hl.
  inversion_clear Hg as [|? ? Hd Hg']. inversion_clear Hg' as [|? ? Ht _].
  unfold end_component. eapply runs_bind; [exact Hname|]. intros _ _. unfold close_component. cbn [open_components set_level]. rewrite Ho.
  eapply runs_bind with (P := fun Q => 0 < level Q /\ exists t', open_components Q = t' :: rest /\ child_added t d t').
  - eapply runs_bind; [now apply runs_add_child|]. cbv beta. intros [t' d'] [Hca _]. cbn [fst snd] in *. apply runs_ret.
    cbn [level set_open set_root set_level open_components]. split; [lia|]. eauto.
  - cbv beta. intros Q (Hpos & t' & Hq & Hca). destruct (Z.ltb_spec (level Q) 0); [lia|]. destruct (Z.eqb_spec (level Q) 0); [lia|].
    apply runs_ret. cbn [fst snd open_components set_parser_state]. eauto.
Qed.

Lemma runs_last_end P c d :
  named_component c = true -> parser_ok P -> open_components P = [d] ->
  runs (icalparser_add_line tok P (Some (end_line c)))
    (fun r => fst r = Some d /\ parser_ok (snd r) /\ root_component (snd r) = None /\ open_components (snd r) = []).
Proof.
  intros Hc Hp Ho. destruct (end_line_reads P c Hc) as (fin & Hfin & -> & Hname).
  eapply runs_weaken with (P := fun r => line_result r /\ fst r = Some d).
  - apply runs_and; [now apply runs_end|]. destruct Hp as [Hl _ _ _]. rewrite Ho in Hl. cbn in Hl.
    unfold end_component. eapply runs_bind; [exact Hname|]. intros _ _. unfold close_component. cbn [open_components set_level]. rewrite Ho.
    apply runs_bind_ret. cbn [level set_open set_root set_level]. rewrite Hl. change (1 - 1 <? 0) with false. change (1 - 1 =? 0) with true.
    cbv iota. cbn [open_components set_open]. apply runs_bind_ret. cbn [open_components set_open]. now apply runs_ret.
  - cbv beta. intros [o Q] [[H1 H2] E]. cbn [fst snd] in *. subst o. tauto.
Qed.

(** *** Trees *)

Lemma tree_named c ls : tree_lines c ls -> named_component c = true.
Proof. now intros [? ? ? ? ?]. Qed.

(** The open component [t] with more children, placed as the parser does. *)
Record with_children (t : icalcomponent) (rest : list icalcomponent) (cs : list icalcomponent) (P : icalparser) : Prop := WithChildren {
  wc_ok : parser_ok P;
  wc_open : exists t' ds, open_components P = t' :: rest /\ Forall2 same_tree cs ds /\
    co_components t' = fold_left (fun l d => place d l) ds (co_components t) /\ co_properties t' = co_properties t /\
    co_kind t' = co_kind t /\ co_x_name t' = co_x_name t
}.

Lemma arrange_same cs ds : Forall2 same_tree cs ds -> forall l m, Forall2 same_tree l m ->
  Forall2 same_tree (fold_left (fun l c => place c l) cs l) (fold_left (fun l d => place d l) ds m).
Proof. induction 1 as [|c d cs ds Hc _ IH]; intros l m Hl; cbn [fold_left]; [exact Hl|]. apply IH. now apply place_same. Qed.

Lemma tree_read c ls : tree_lines c ls -> forall P, parser_ok P ->
  runs (feed ls P) (fun P' => parser_ok P' /\ exists d, open_components P' = d :: open_components P /\ same_tree c d).
Proof.
  revert c ls.
  apply (tree_lines_mut
    (fun c ls => forall P, parser_ok P ->
       runs (feed ls P) (fun P' => parser_ok P' /\ exists d, open_components P' = d :: open_components P /\ same_tree c d))
    (fun cs ms => forall P t rest, parser_ok P -> open_components P = t :: rest -> runs (feed ms P) (with_children t rest cs))).
  - intros c ls ms Hc Hls _ IH P Hp. change (begin_line c :: ls ++ ms) with ([begin_line c] ++ ls ++ ms).
    apply (runs_feed_app _ _ _ (fun P' => parser_ok P' /\ exists a, open_components P' = opened a (co_kind c) :: open_components P)).
    { cbn [feed]. eapply runs_bind; [now apply runs_begin_fed|]. cbv beta. intros [o Q] (E & H). cbn [fst snd] in *. subst o. now apply runs_ret. }
    intros P1 (Hp1 & a & Ho1). eapply runs_feed_app; [now apply (runs_properties_fed _ _ Hls P1 _ _ Hp1 Ho1)|].
    cbv beta. intros P2 (qs & Hqs & Hp2 & Ho2). eapply runs_weaken; [apply (IH P2 _ _ Hp2 Ho2)|].
    cbv beta. intros P3 [Hp3 (t & ds & Ho3 & Hds & Ecs & Eps & Ek & Ex)]. split; [exact Hp3|]. exists t. split; [exact Ho3|].
    cbn in Ecs, Eps, Ek, Ex. constructor; [exact Ek | exact Ex | now rewrite Eps |].
    rewrite Ecs. apply arrange_same; [exact Hds | constructor].
  - intros P t rest Hp Ho. apply runs_ret. constructor; [exact Hp|]. exists t, []. cbn. auto 10.
  - intros c ls cs ms Hc IHc _ IHcs P t rest Hp Ho.
    apply (runs_feed_app _ _ _ _ _ (IHc P Hp)). cbv beta. intros P1 (Hp1 & d & Ho1 & Hd). rewrite Ho in Ho1.
    change (end_line c :: ms) with ([end_line c] ++ ms).
    apply (runs_feed_app _ _ _ (fun P' => parser_ok P' /\ exists t', open_components P' = t' :: rest /\ child_added t d t')).
    { cbn [feed]. eapply runs_bind; [apply (runs_end_fed P1 c d t rest); [now apply (tree_named c ls) | exact Hp1 | exact Ho1]|].
      cbv beta. intros [o Q] (E & H). cbn [fst snd] in *. subst o. now apply runs_ret. }
    intros P2 (Hp2 & t' & Ho2 & [_ (d' & Ed & Ecs) Eps _ _ Ek Ex _]).
    eapply runs_weaken; [apply (IHcs P2 _ _ Hp2 Ho2)|]. intros P3 [Hp3 (t2 & ds & Ho3 & Hds & Ecs2 & Eps2 & Ek2 & Ex2)].
    constructor; [exact Hp3|]. exists t2, (d' :: ds). split; [exact Ho3|].
    split; [constructor; [now apply (same_tree_erase c d) | exact Hds]|]. cbn [fold_left]. rewrite <- Ecs.
    repeat split; congruence.
Qed.

(** ** The whole text *)

Lemma after_name_chars ts text : Forall scanned ts -> text_chars text -> text_chars (after_name ts text).
Proof.
  intros Hts Ht. unfold after_name. apply text_chars_app. split.
  - induction Hts as [|t ts H _ IH]; [repeat split; constructor|]. cbn [flat_map]. apply text_chars_app. split; [|exact IH].
    apply (text_chars_app [";"%char]). split; [repeat split; repeat constructor; discriminate | apply H].
  - apply (text_chars_app [":"%char]). split; [repeat split; repeat constructor; discriminate | exact Ht].
Qed.

Lemma shaped_writable n ts text :
  name_ok n = true -> Forall scanned ts -> text_chars text -> text <> [] -> isspace (last text NUL) = false ->
  writable_line (n ++ after_name ts text).
Proof.
  intros Hn Hts Ht Hne Hl.
  assert (text_chars (n ++ after_name ts text)) as (H1 & H2 & _).
  { apply text_chars_app. split; [|now apply after_name_chars]. repeat split; apply (fun c H => name_ok_not c n H Hn); reflexivity. }
  split; [split; assumption|]. split; [destruct n; discriminate|]. split.
  - unfold after_name. rewrite app_assoc, (last_app_ne _ (":"%char :: text)) by discriminate. destruct text; [congruence | exact Hl].
  - destruct n as [|c n]; [discriminate|]. unfold name_ok in Hn. cbn [forallb] in Hn. rewrite !andb_true_iff in Hn.
    destruct Hn as [[Hc _] _]. unfold starts_ws, nth_char. cbn [app nth]. clear -Hc.
    destruct c as [[] [] [] [] [] [] [] []]; vm_compute in Hc |- *; congruence.
Qed.

Lemma line_writable p l : line_property tok p l -> writable_line l.
Proof.
  intros [name v text _ _ Hw _]. apply writable_spec in Hw as Hf. destruct (text_ok_facts text (wf_text _ _ _ _ _ Hf)) as (Hne & _ & _ & Ht & Hl).
  apply shaped_writable; try assumption; [apply Hf|]. apply Forall_map. eapply Forall_impl; [|apply Hf]. intros q. apply writable_scanned.
Qed.

Lemma marker_writable n c : name_ok n = true -> named_component c = true -> writable_line (n ++ after_name [] (kind_name c)).
Proof.
  intros Hn Hc. destruct (named_facts c Hc) as (_ & _ & _ & _ & Hk & _ & _). apply shaped_writable; try assumption; [constructor| | |].
  - repeat split; apply (fun d H => name_ok_not d _ H Hk); reflexivity.
  - intros E. now rewrite E in Hk.
  - now apply name_char_facts, name_last.
Qed.

Lemma tree_writable c ls : tree_lines c ls -> Forall writable_line (ls ++ [end_line c]).
Proof.
  revert c ls. apply (tree_lines_mut (fun c ls => Forall writable_line (ls ++ [end_line c])) (fun _ ms => Forall writable_line ms)).
  - intros c ls ms Hc Hls _ IH. cbn [app]. constructor; [now apply marker_writable|]. apply Forall_app. split.
    + apply Forall_app. split; [|exact IH]. clear - Hls. induction Hls as [|p l ps ls Hp _ IH]; constructor; [|exact IH]. now apply (line_writable p).
    + constructor; [now apply marker_writable | constructor].
  - constructor.
  - intros c ls cs ms _ H1 _ H2. replace (ls ++ end_line c :: ms) with ((ls ++ [end_line c]) ++ ms) by now rewrite <- app_assoc.
    apply Forall_app. now split.
Qed.

Lemma tree_text_lines c ls : tree_lines c ls ->
  lines_of_string (folded_text (ls ++ [end_line c])) = Some ([] :: ls ++ [end_line c]).
Proof.
  intros H. apply folded_lines_read; [now apply tree_writable | destruct ls; discriminate|].
  destruct H as [c ls ms Hc _ _]. destruct (named_facts c Hc) as (_ & _ & _ & _ & _ & Eb & _).
  cbn [app]. change (begin_line c :: (ls ++ ms) ++ [end_line c]) with ([begin_line c] ++ (ls ++ ms) ++ [end_line c]).
  rewrite folded_app. unfold folded_text at 1 3. cbn [flat_map]. rewrite Eb. reflexivity.
Qed.

Lemma tree_lines_parse c ls next : tree_lines c ls ->
  runs (parse_lines tok ([] :: ls ++ [end_line c]) (icalparser_new next) None)
    (fun r => exists d, fst r = Some d /\ same_tree c d).
Proof.
  intros Hc. cbn [parse_lines]. unfold icalparser_add_line at 1. cbn [line_is_blank forallb]. apply runs_bind_ret. cbv iota beta.
  apply runs_bind_ret. cbv iota beta. intros st Hst.
  destruct (tree_read c ls Hc (icalparser_new next) (new_parser_ok next) st Hst) as (P & st1 & E & Hst1 & Hp & d & Ho & Hd).
  rewrite (feed_parse _ _ _ _ _ _ _ E). revert st1 Hst1 E. intros st1 Hst1 _. revert st1 Hst1.
  change (runs (parse_lines tok [end_line c] P None) (fun r => exists d, fst r = Some d /\ same_tree c d)).
  cbn [parse_lines]. eapply runs_bind; [apply (runs_last_end P c d); [now apply (tree_named c ls) | exact Hp | exact Ho]|].
  cbv beta. intros [o Q] (Eo & Hq & Hr & Hopen). cbn [fst snd] in *. subst o. unfold collect_root. rewrite Hr, Hopen.
  apply runs_bind_ret. cbv iota beta. unfold icalparser_add_line. apply runs_bind_ret. apply runs_ret. eauto.
Qed.

(** The order of the children: time zones in front, in reverse. *)
Lemma arrange_spec cs :
  let tz c := ckind_eqb (co_kind c) ICAL_VTIMEZONE_COMPONENT in
  arrange cs = rev (filter tz cs) ++ filter (fun c => negb (tz c)) cs.
Proof.
  cbv zeta. unfold arrange.
  enough (forall l, fold_left (fun l c => place c l) cs l
    = rev (filter (fun c => ckind_eqb (co_kind c) ICAL_VTIMEZONE_COMPONENT) cs) ++ l
      ++ filter (fun c => negb (ckind_eqb (co_kind c) ICAL_VTIMEZONE_COMPONENT)) cs) as H by apply (H []).
  induction cs as [|c cs IH]; intros l; cbn [fold_left filter rev app]; [now rewrite app_nil_r|].
  rewrite IH. unfold place. destruct (ckind_eqb (co_kind c) ICAL_VTIMEZONE_COMPONENT); cbn [negb rev]; rewrite <- ?app_assoc; reflexivity.
Qed.

(** ** Properties *)

End Trees.


(** ** An example *)

#[local] Existing Instance text_floats.
#[local] Existing Instance utc_only.

(** A property with one value, as the parser and the accessors make it. *)
Definition sample_property (a : positive) (k : icalproperty_kind) (qs : list icalparameter) (v : icalvalue) : icalproperty :=
  Property a k None qs (Z.of_nat (length qs)) NoElem (Some (icalvalue_set_parent (Some k) v)) None.

Definition sample_component (a : positive) (k : icalcomponent_kind) (ps : list icalproperty) (cs : list icalcomponent) : icalcomponent :=
  Component a k None ps NoElem cs NoElem None None true.

Definition text_value (s : cstring) : icalvalue := Value ICAL_TEXT_VALUE None None (V_string s).

Definition tz_property (a : positive) (s : cstring) : icalproperty := sample_property a ICAL_TZID_PROPERTY [] (text_value s).

Definition start_property : icalproperty :=
  sample_property 5 ICAL_DTSTART_PROPERTY
    [Param ICAL_TZID_PARAMETER (Some $"Europe/Paris") None None 0; Param ICAL_X_PARAMETER (Some $"a;b") (Some $"X-A") None 0]
    (new_with ICAL_DATETIME_VALUE (V_time (set_date icaltime_null_time 2020 2 29))).

Definition sample_zone : icalcomponent := sample_component 2 ICAL_VTIMEZONE_COMPONENT [tz_property 3 $"Europe/Paris"] [].
Definition sample_event : icalcomponent := sample_component 4 ICAL_VEVENT_COMPONENT [start_property] [].
Definition sample_tree : icalcomponent := sample_component 1 ICAL_VCALENDAR_COMPONENT [] [sample_zone; sample_event].

(** The lines that are written. *)
Definition sample_tree_lines : list cstring :=
  [$"BEGIN:VCALENDAR"; $"BEGIN:VTIMEZONE"; $"TZID:Europe/Paris"; $"END:VTIMEZONE"; $"BEGIN:VEVENT";
   $"DTSTART;TZID=Europe/Paris;X-A=" ++ [DQUOTE] ++ $"a;b" ++ [DQUOTE] ++ $":20200229T000000"; $"END:VEVENT"].

Lemma sample_start_storable : storable_property ICAL_TREAT_AS_ERROR start_property.
Proof.
  apply (StorableProperty _ _ $"DTSTART" (new_with ICAL_DATETIME_VALUE (V_time (set_date icaltime_null_time 2020 2 29)))); try (vm_compute; reflexivity).
  apply (wv_time (set_date icaltime_null_time 2020 2 29)); [|reflexivity].
  unfold printable. cbn. repeat split; try lia. right. repeat split; try lia. now left.
Qed.

Lemma sample_zone_storable : storable_property ICAL_TREAT_AS_ERROR (tz_property 3 $"Europe/Paris").
Proof.
  apply (StorableProperty _ _ $"TZID" (text_value $"Europe/Paris")); try (vm_compute; reflexivity).
  constructor; [apply no_nul_spec; reflexivity | reflexivity].
Qed.

Lemma sample_tree_storable : storable ICAL_TREAT_AS_ERROR sample_tree.
Proof.
  repeat constructor; try reflexivity; [apply sample_zone_storable | apply sample_start_storable].
Qed.

(** The lines that are written for the sample. *)
Example sample_tree_written : component_lines sample_tree = sample_tree_lines.
Proof. vm_compute. reflexivity. Qed.

