(* ===== verification/IcalComponentErrors.v ===== *)
(** * Removing the errors of a parse

    [icalcomponent_strip_errors] takes all X-LIC-ERROR properties out of a tree
    and nothing else, in a loop that removes elements of the list it walks. *)
From Stdlib Require Import String Ascii ZArith Lia Bool List.
From S2P Require Import Prelude CString IcalError IcalTime IcalTimeCalendar IcalValue IcalValueSafe IcalLine IcalParameter IcalProperty IcalComponent IcalParser IcalDesignData IcalParserSafe IcalParserTotal.
Import ListNotations.
#[local] Open Scope Z_scope.
#[local] Open Scope cstring_scope.
#[local] Open Scope err_scope.

Lemma remove_middle {A} (pre : list A) x l : remove_nth (length pre) (pre ++ x :: l) = pre ++ l.
Proof. induction pre as [|y pre IH]; [reflexivity|]. cbn. now rewrite IH. Qed.

(** The loop that unlinks removes exactly the elements that match. *)
Lemma unlink_filter {A} (same : A -> bool) l : forall pre n it, (length l <= n)%nat ->
  fst (unlink_loop n same (pre ++ l) (length pre) it) = pre ++ filter (fun x => negb (same x)) l.
Proof.
  induction l as [|x l IH]; intros pre n it Hn.
  - rewrite app_nil_r. cbn [filter]. rewrite app_nil_r. destruct n as [|n]; [reflexivity|].
    cbn [unlink_loop]. now rewrite (proj2 (nth_error_None _ _)) by lia.
  - destruct n as [|n]; [cbn in Hn; lia|].
    cbn [length] in Hn. cbn [unlink_loop filter]. rewrite nth_error_app2, Nat.sub_diag by lia. cbn [nth_error].
    destruct (same x); cbn [negb].
    + rewrite remove_middle. apply IH. lia.
    + replace (pre ++ x :: l) with ((pre ++ [x]) ++ l) by now rewrite <- app_assoc.
      replace (S (length pre)) with (length (pre ++ [x])) by (rewrite length_app; cbn; lia).
      rewrite IH by lia. now rewrite <- app_assoc.
Qed.

Section Errors.
Context `{PROPS : PropertyTables} `{PARAMS : ParameterTables} `{FLOAT : FloatOps} `{TZ : TimezoneConv}.

(** Every property is linked to its component, and has an address of its own. *)
Inductive linked : icalcomponent -> Prop :=
| Linked c :
    Forall (fun p => pr_parent p <> None) (co_properties c) -> NoDup (map pr_addr (co_properties c)) ->
    Forall linked (co_components c) -> linked c.

(** The tree without its errors. *)
Fixpoint without_errors (c : icalcomponent) : icalcomponent :=
  with_components (map without_errors (co_components c)) (component_iterator c)
    (with_properties (filter (fun p => negb (is_error p)) (co_properties c)) (property_iterator c) c).

Lemma filter_address a (ps : list icalproperty) :
  ~ In a (map pr_addr ps) -> filter (fun p => negb (is_property a p)) ps = ps.
Proof.
  induction ps as [|p ps IH]; intros H; [reflexivity|]. cbn in H |- *. unfold is_property at 1.
  destruct (Pos.eqb_spec (pr_addr p) a) as [E|]; [tauto|]. cbn [negb]. now rewrite IH by tauto.
Qed.

Lemma find_address p pre ps :
  ~ In (pr_addr p) (map pr_addr pre) -> find (is_property (pr_addr p)) (pre ++ p :: ps) = Some p.
Proof.
  induction pre as [|q pre IH]; intros H; cbn; unfold is_property at 1.
  - now rewrite Pos.eqb_refl.
  - cbn in H. destruct (Pos.eqb_spec (pr_addr q) (pr_addr p)) as [E|]; [tauto|]. apply IH. tauto.
Qed.

Lemma cell_place_middle pre k l : ~ In k pre -> cell_place k (pre ++ k :: l) = Some (length pre).
Proof.
  induction pre as [|c pre IH]; intros H; cbn [app cell_place length].
  - now rewrite Nat.eqb_refl.
  - cbn in H. destruct (Nat.eqb_spec c k) as [->|]; [tauto|]. rewrite IH by tauto. reflexivity.
Qed.

Lemma combine_app {A B} (l1 l2 : list A) (m1 m2 : list B) : length l1 = length m1 ->
  combine (l1 ++ l2) (m1 ++ m2) = combine l1 m1 ++ combine l2 m2.
Proof. revert m1. induction l1 as [|x l1 IH]; intros [|y m1] H; try discriminate; [reflexivity|]. cbn. f_equal. apply IH. now injection H. Qed.

(** The cells of properties with other addresses stay. *)
Lemma cells_kept a cells ps : length cells = length ps -> ~ In a (map pr_addr ps) -> cells_left a cells ps = cells.
Proof.
  unfold cells_left. revert ps. induction cells as [|k cells IH]; intros [|p ps] L H; try discriminate; [reflexivity|].
  cbn in H |- *. unfold is_property at 1. cbn [snd]. destruct (Pos.eqb_spec (pr_addr p) a) as [E|]; [tauto|]. cbn. f_equal.
  apply IH; [now injection L | tauto].
Qed.

Lemma cells_middle p pre l kpre k kl : length kpre = length pre -> length kl = length l -> ~ In (pr_addr p) (map pr_addr (pre ++ l)) ->
  cells_left (pr_addr p) (kpre ++ k :: kl) (pre ++ p :: l) = kpre ++ kl.
Proof.
  intros L1 L2 H. rewrite map_app, in_app_iff in H. unfold cells_left. rewrite combine_app by exact L1. cbn [combine].
  rewrite filter_app. cbn [filter snd]. unfold is_property at 2. rewrite Pos.eqb_refl. cbn [negb]. rewrite map_app.
  f_equal; apply cells_kept; tauto.
Qed.

(** From any cell the loop removes exactly the errors that follow, and never uses a
    cell that it has freed. *)
Lemma strip_loop_filter l : forall kl pre kpre n c st,
  co_properties c = pre ++ l -> length kpre = length pre -> length kl = length l -> NoDup (kpre ++ kl) -> (length l <= n)%nat ->
  Forall (fun p => pr_parent p <> None) l -> NoDup (map pr_addr (pre ++ l)) ->
  exists it, strip_loop n (kpre ++ kl) (hd_error kl) c st = Some (with_properties (pre ++ filter (fun p => negb (is_error p)) l) it c, st).
Proof.
  induction l as [|p l IH]; intros [|k kl] pre kpre n c st Hc L1 L2 Hk Hn Hp Hd; try discriminate.
  - exists (property_iterator c). rewrite app_nil_r in Hc. cbn [filter]. rewrite !app_nil_r, <- Hc.
    assert (with_properties (co_properties c) (property_iterator c) c = c) as -> by now destruct c.
    destruct n; reflexivity.
  - destruct n as [|n]; [cbn in Hn; lia|]. cbn [length] in Hn, L2. injection L2 as L2. inversion_clear Hp as [|? ? Hp1 Hp2].
    apply NoDup_remove in Hk as Hk'. destruct Hk' as [Hk1 Hk2]. rewrite in_app_iff in Hk2.
    assert (nth_error (kpre ++ k :: kl) (S (length pre)) = hd_error kl) as Hnext.
    { rewrite <- L1, nth_error_app2 by lia. replace (S (length kpre) - length kpre)%nat with 1%nat by lia. now destruct kl. }
    cbn [strip_loop hd_error filter]. rewrite cell_place_middle, L1, Hnext by tauto.
    rewrite Hc, nth_error_app2, Nat.sub_diag by lia. cbn [nth_error].
    assert (~ In (pr_addr p) (map pr_addr (pre ++ l)) /\ NoDup (map pr_addr (pre ++ l))) as [Hnot Hd'].
    { rewrite map_app in Hd |- *. cbn [map] in Hd. split; [now apply NoDup_remove_2 | now apply NoDup_remove_1 in Hd]. }
    destruct (is_error p) eqn:Ee; cbn [negb].
    + unfold icalcomponent_remove_property. rewrite Hc, find_address by (rewrite map_app, in_app_iff in Hnot; tauto).
      unfold icalproperty_get_parent. destruct (pr_parent p); [|congruence].
      pose proof (unlink_filter (is_property (pr_addr p)) (pre ++ p :: l) [] (length (pre ++ p :: l)) (property_iterator c) (le_n _)) as Hu.
      cbn [app length] in Hu. destruct (unlink_loop _ _ _ 0 _) as [ps it]. cbn [fst] in Hu.
      assert (ps = pre ++ l) as ->.
      { rewrite Hu, filter_app. cbn [filter]. unfold is_property at 2. rewrite Pos.eqb_refl. cbn [negb]. rewrite <- filter_app.
        now apply filter_address. }
      rewrite cells_middle by assumption.
      destruct (IH kl pre kpre n (with_properties (pre ++ l) it c) st eq_refl L1 L2 Hk1 ltac:(lia) Hp2 Hd') as [it' E']. exists it'. exact E'.
    + destruct (IH kl (pre ++ [p]) (kpre ++ [k]) n c st) as [it E']; rewrite <- ?app_assoc; try assumption; try (rewrite !length_app; cbn; lia); try lia.
      exists it. cbn [app] in E'. rewrite <- !app_assoc in E'. exact E'.
Qed.

(** The inner loop of [icalcomponent_strip_errors]. *)
Definition strip_components : list icalcomponent -> err (list icalcomponent) :=
  fix strip_components cs :=
    match cs with
    | [] => ret []
    | c :: cs => c <- icalcomponent_strip_errors c ;; cs <- strip_components cs ;; ret (c :: cs)
    end.

Lemma strip_unfold c : icalcomponent_strip_errors c =
  (s <- strip_properties c ;; cs <- strip_components (co_components c) ;;
   ret (with_components cs (component_iterator s) s)).
Proof. now destruct c. Qed.

Fixpoint strip_erase c (H : linked c) {struct H} : forall st,
  exists d, icalcomponent_strip_errors c st = Some (d, st) /\ erase d = erase (without_errors c).
Proof.
  destruct H as [c Hp Hd Hc]. intros st. rewrite strip_unfold. unfold bind at 1.
  destruct (strip_loop_filter (co_properties c) (seq 0 (length (co_properties c))) [] [] (length (seq 0 (length (co_properties c)))) c st
              eq_refl eq_refl ltac:(apply length_seq) ltac:(apply seq_NoDup) ltac:(rewrite length_seq; lia) Hp Hd) as [it E].
  cbn [app] in E. unfold strip_properties. rewrite E.
  assert (exists ds, strip_components (co_components c) st = Some (ds, st) /\
    map erase ds = map erase (map without_errors (co_components c))) as (ds & Ed & Em).
  { clear -strip_erase Hc. induction Hc as [|x cs Hx _ IH]; [now exists []|]. destruct (strip_erase x Hx st) as (d & E1 & E2).
    destruct IH as (ds & E3 & E4). exists (d :: ds). split; [|cbn [map]; now rewrite E2, E4].
    change ((d <- icalcomponent_strip_errors x ;; ds <- strip_components cs ;; ret (d :: ds)) st = Some (d :: ds, st)).
    unfold bind. now rewrite E1, E3. }
  unfold bind. rewrite Ed. eexists. split; [reflexivity|]. destruct c. cbn in *. now rewrite Em.
Qed.

Lemma count_unfold c : icalcomponent_count_errors c =
  Z.of_nat (length (filter is_error (co_properties c))) + fold_right Z.add 0 (map icalcomponent_count_errors (co_components c)).
Proof. now destruct c. Qed.

Fixpoint count_erase c : icalcomponent_count_errors (erase c) = icalcomponent_count_errors c.
Proof.
  destruct c as [a k x ps pit cs cit pa tz so]. rewrite !count_unfold. cbn [erase co_properties co_components]. do 2 f_equal.
  clear -count_erase. induction cs as [|c cs IH]; [reflexivity|]. cbn [map]. now rewrite count_erase, IH.
Qed.

Lemma count_without_errors c (H : linked c) : icalcomponent_count_errors (without_errors c) = 0.
Proof.
  revert c H. fix IH 2. intros _ [c _ _ Hc]. rewrite count_unfold.
  assert (fold_right Z.add 0 (map icalcomponent_count_errors (map without_errors (co_components c))) = 0) as Hs.
  { clear -IH Hc. induction Hc as [|x cs Hx _ IHcs]; [reflexivity|]. cbn [map fold_right]. now rewrite (IH x Hx), IHcs. }
  destruct c as [a k x ps pit cs cit pa tz so]. cbn [without_errors with_components with_properties co_properties co_components] in *.
  rewrite Hs. clear. induction ps as [|p ps IH]; [reflexivity|]. cbn [filter]. destruct (is_error p) eqn:E; cbn [negb]; [exact IH|].
  cbn [filter]. now rewrite E.
Qed.

(** C38: [icalcomponent_strip_errors], which removes elements from the lists it
    walks, ends on every tree whose properties have a parent and addresses of their
    own, without an error: each step goes on with a cell that is still in the list,
    although the cell before it may have been freed.  The tree it leaves is the
    given one without exactly its X-LIC-ERROR properties, at every depth and in
    the same order, and [icalcomponent_count_errors] then counts none. *)
Theorem strip_errors_exact c st : linked c ->
  exists d, icalcomponent_strip_errors c st = Some (d, st) /\
    erase d = erase (without_errors c) /\ icalcomponent_count_errors d = 0.
Proof.
  intros H. destruct (strip_erase c H st) as (d & E & Ed). exists d. repeat split; [exact E | exact Ed|].
  now rewrite <- count_erase, Ed, count_erase, count_without_errors.
Qed.
End Errors.

#[local] Existing Instance text_floats.
#[local] Existing Instance utc_only.

(** A calendar with an error of its own and an event with two. *)
Definition sample_error (a : positive) : icalproperty := Property a ICAL_XLICERROR_PROPERTY None [] 0 NoElem None (Some 1%positive).
Definition sample_duration (a : positive) : icalproperty := Property a ICAL_DURATION_PROPERTY None [] 0 NoElem None (Some 2%positive).
Definition sample_event : icalcomponent :=
  Component 2 ICAL_VEVENT_COMPONENT None [sample_error 3; sample_duration 4; sample_error 5] NoElem [] NoElem (Some 1%positive) None true.
Definition sample_faulty : icalcomponent :=
  Component 1 ICAL_VCALENDAR_COMPONENT None [sample_error 6] NoElem [sample_event] NoElem None None true.

(** An error that is listed twice in a row: both cells are freed, the saved one too. *)
Example listed_twice_is_undefined :
  icalcomponent_strip_errors (Component 1 ICAL_VEVENT_COMPONENT None [sample_error 3; sample_error 3] NoElem [] NoElem None None true)
    (initial_error_state false) = None.
Proof. reflexivity. Qed.

Lemma strip_errors_exact_witness :
  icalcomponent_count_errors sample_faulty = 3 /\
  exists d, icalcomponent_strip_errors sample_faulty (initial_error_state false) = Some (d, initial_error_state false) /\
    erase d = erase (without_errors sample_faulty) /\ icalcomponent_count_errors d = 0.
Proof.
  split; [reflexivity|]. apply (strip_errors_exact sample_faulty (initial_error_state false)).
  constructor; cbn; [repeat constructor; discriminate | repeat constructor; cbn; intuition |].
  constructor; [|constructor]. constructor; cbn; [repeat constructor; discriminate | | constructor].
  repeat constructor; cbn; intuition discriminate.
Defined.
