(* ===== verification/IcalTimezone.v ===== *)
(** * Time zones (icaltimezone.c)

    A zone keeps its VTIMEZONE component and, once it is needed, an array of its
    changes of offset: the STANDARD and DAYLIGHT components are expanded, up to a
    year, into the times at which their offsets begin, in UTC, and the array is
    sorted.  The offset of a time is found by bisection and some steps.

    The zones are addressed by their number; [tzstate] holds them with the year
    that the process expands to at least.  [None] is an access outside of an
    array, a failed assertion or a loop without fuel, as in the other files.

    What the system provides is the class [ZoneSystem]: the day of the first
    expansion, and the component that icaltz-util.c makes of a zone file. *)
From Stdlib Require Import String Ascii ZArith Lia Bool List.
From S2P Require Import Prelude CString IcalError IcalTime IcalRecurType IcalRecurIter IcalArray IcalValue IcalLine IcalParameter IcalProperty IcalComponent.
Import ListNotations.
#[local] Open Scope Z_scope.
#[local] Open Scope cstring_scope.
#[local] Open Scope err_scope.

Definition ICALTIMEZONE_EXTRA_COVERAGE : Z := 5.
Definition ICALTIMEZONE_MAX_YEAR : Z := 2582.

(** ** Changes *)

Record icaltimezonechange := Change {
  ch_utc_offset : Z;
  ch_prev_utc_offset : Z;
  ch_year : Z;
  ch_month : Z;
  ch_day : Z;
  ch_hour : Z;
  ch_minute : Z;
  ch_second : Z;
  ch_is_daylight : Z
}.

(** The members that are a time; the offsets and the flag stay. *)
Definition set_change_time (y m d h mi s : Z) (c : icaltimezonechange) : icaltimezonechange :=
  Change (ch_utc_offset c) (ch_prev_utc_offset c) y m d h mi s (ch_is_daylight c).
Definition copy_time (t : icaltimetype) (c : icaltimezonechange) : icaltimezonechange :=
  set_change_time (year t) (month t) (day t) (hour t) (minute t) (second t) c.

Definition icaltimezone_compare_change_fn (change1 change2 : icaltimezonechange) : Z :=
  if ch_year change1 <? ch_year change2 then -1 else if ch_year change2 <? ch_year change1 then 1
  else if ch_month change1 <? ch_month change2 then -1 else if ch_month change2 <? ch_month change1 then 1
  else if ch_day change1 <? ch_day change2 then -1 else if ch_day change2 <? ch_day change1 then 1
  else if ch_hour change1 <? ch_hour change2 then -1 else if ch_hour change2 <? ch_hour change1 then 1
  else if ch_minute change1 <? ch_minute change2 then -1 else if ch_minute change2 <? ch_minute change1 then 1
  else if ch_second change1 <? ch_second change2 then -1 else if ch_second change2 <? ch_second change1 then 1
  else 0.

(** The carries and the loops over months are those of [icaltime_adjust]; the
    month is not normalised first. *)
Definition icaltimezone_adjust_change (tt : icaltimezonechange) (days hours minutes seconds : Z) : icaltimezonechange :=
  let '(s, minutes_overflow) := carry (ch_second tt + seconds) 60 in
  let '(mi, hours_overflow) := carry (ch_minute tt + minutes + minutes_overflow) 60 in
  let '(h, days_overflow) := carry (ch_hour tt + hours + hours_overflow) 24 in
  let day := ch_day tt + days + days_overflow in
  let '(y, m, d) :=
    if 0 <? day then adjust_up (adjust_fuel day) (ch_year tt) (ch_month tt) day
    else adjust_down (adjust_fuel day) (ch_year tt) (ch_month tt) day in
  set_change_time y m d h mi s tt.

(** ** Lookup *)

(** The bisection: an index near the time. *)
Fixpoint nearby_loop (fuel : nat) (changes : icalarray icaltimezonechange) (change : icaltimezonechange)
  (lower middle upper : nat) : option nat :=
  match fuel with
  | O => None
  | S fuel =>
      if Nat.ltb lower upper then
        let middle := Nat.div (lower + upper) 2 in
        match load_at changes middle with
        | Some zone_change =>
            let cmp := icaltimezone_compare_change_fn change zone_change in
            if cmp =? 0 then Some middle
            else if cmp <? 0 then nearby_loop fuel changes change lower middle middle
            else nearby_loop fuel changes change (S middle) middle upper
        | None => None
        end
      else Some middle
  end.

Definition icaltimezone_find_nearby_change (changes : icalarray icaltimezonechange) (change : icaltimezonechange) : option nat :=
  nearby_loop (S (num_elements changes)) changes change 0 0 (num_elements changes).

(** The end of the loops over the changes: the number of the change to use, or
    the first change, adjusted, for a time before all of them. *)
Inductive found_change :=
| UseChange (change_num_to_use : nat)
| BeforeFirst (tmp_change : icaltimezonechange).

(** [tmp] is how a change is adjusted before it is compared; [back] is true when
    the step is -1. *)
Fixpoint step_loop (fuel : nat) (tmp : icaltimezonechange -> icaltimezonechange)
  (changes : icalarray icaltimezonechange) (tt_change : icaltimezonechange)
  (change_num : nat) (back : bool) (found : option nat) : option found_change :=
  match fuel with
  | O => None
  | S fuel =>
      match load_at changes change_num with
      | None => None
      | Some zone_change =>
          let tmp_change := tmp zone_change in
          let '(found, back) :=
            if 0 <=? icaltimezone_compare_change_fn tt_change tmp_change then (Some change_num, back) else (found, true) in
          match back, found with
          | true, Some n => Some (UseChange n)
          | true, None =>
              match change_num with
              | O => Some (BeforeFirst tmp_change)
              | S change_num => step_loop fuel tmp changes tt_change change_num back found
              end
          | false, _ =>
              if Nat.leb (num_elements changes) (S change_num)
              then match found with Some n => Some (UseChange n) | None => None end
              else step_loop fuel tmp changes tt_change (S change_num) back found
          end
      end
  end.

(** A step back never passes a change twice, nor does a step forward. *)
Definition step_fuel (changes : icalarray icaltimezonechange) : nat := S (num_elements changes).

(** The local time at which a change can first be in force: clocks that go back
    show the times before it twice. *)
Definition local_start (c : icaltimezonechange) : icaltimezonechange :=
  if ch_utc_offset c <? ch_prev_utc_offset c then icaltimezone_adjust_change c 0 0 0 (ch_utc_offset c)
  else icaltimezone_adjust_change c 0 0 0 (ch_prev_utc_offset c).

Definition no_change : icaltimezonechange := Change 0 0 0 0 0 0 0 0 0.

(** Two changes may apply in the hour that occurs twice: the one whose daylight
    setting is that of the time, standard time when it is not known. *)
Definition choose_in_overlap (tt : icaltimetype) (zone_change prev_zone_change : icaltimezonechange) : icaltimezonechange :=
  let want_daylight := if is_daylight tt =? 1 then 1 else 0 in
  if negb (ch_is_daylight zone_change =? want_daylight) && (ch_is_daylight prev_zone_change =? want_daylight)
  then prev_zone_change else zone_change.

(** [!is_daylight] in C. *)
Definition lnot (z : Z) : Z := b2z (z =? 0).

(** The rest of [icaltimezone_get_utc_offset] on an array that has changes: the
    offset and the daylight flag. *)
Definition offset_of_local_time (changes : icalarray icaltimezonechange) (tt : icaltimetype) : option (Z * Z) :=
  let tt_change := copy_time tt no_change in
  match icaltimezone_find_nearby_change changes tt_change with
  | None => None
  | Some change_num =>
      match step_loop (step_fuel changes) local_start changes tt_change change_num false None with
      | None => None
      | Some (BeforeFirst tmp_change) => Some (ch_prev_utc_offset tmp_change, lnot (ch_is_daylight tmp_change))
      | Some (UseChange n) =>
          match load_at changes n with
          | None => None
          | Some zone_change =>
              let tmp_change := icaltimezone_adjust_change zone_change 0 0 0 (ch_prev_utc_offset zone_change) in
              if (ch_utc_offset zone_change - ch_prev_utc_offset zone_change <? 0) && negb (Nat.eqb n 0)
                 && (icaltimezone_compare_change_fn tt_change tmp_change <? 0)
              then match load_at changes (n - 1) with
                   | None => None
                   | Some prev_zone_change =>
                       let zone_change := choose_in_overlap tt zone_change prev_zone_change in
                       Some (ch_utc_offset zone_change, ch_is_daylight zone_change)
                   end
              else Some (ch_utc_offset zone_change, ch_is_daylight zone_change)
          end
      end
  end.

(** The same of [icaltimezone_get_utc_offset_of_utc_time]. *)
Definition offset_of_utc_time (changes : icalarray icaltimezonechange) (tt : icaltimetype) : option (Z * Z) :=
  let tt_change := copy_time tt no_change in
  match icaltimezone_find_nearby_change changes tt_change with
  | None => None
  | Some change_num =>
      match step_loop (step_fuel changes) (fun c => c) changes tt_change change_num false None with
      | None => None
      | Some (BeforeFirst tmp_change) => Some (ch_prev_utc_offset tmp_change, lnot (ch_is_daylight tmp_change))
      | Some (UseChange n) =>
          match load_at changes n with
          | None => None
          | Some zone_change => Some (ch_utc_offset zone_change, ch_is_daylight zone_change)
          end
      end
  end.

(** ** Expansion of a component *)

Definition ICAL_RRULE_PROPERTY : icalproperty_kind := 73.
Definition ICAL_TZOFFSETFROM_PROPERTY : icalproperty_kind := 84.
Definition ICAL_TZOFFSETTO_PROPERTY : icalproperty_kind := 85.

Section Zones.
Context `{PROPS : PropertyTables} `{PARAMS : ParameterTables} `{FLOAT : FloatOps} `{TZ : TimezoneConv}.

(** The generated accessors of [int] and recurrence values. *)
Definition icalvalue_get_utcoffset (v : option icalvalue) : err Z :=
  match v with
  | None => badarg 0
  | Some v => match v_data v with V_int n => ret n | V_zero => ret 0 | _ => undefined end
  end.

Definition icalvalue_get_recur (v : option icalvalue) : err icalrecurrencetype :=
  match v with
  | None => badarg icalrecurrencetype_clear
  | Some v => match v_data v with
              | V_recur r => ret r
              | V_zero => badarg icalrecurrencetype_clear
              | _ => undefined
              end
  end.

(** What the first loop over the properties finds. *)
Record observance := Observance {
  ob_dtstart : option icaltimetype;
  ob_tzoffsetto : option Z;
  ob_tzoffsetfrom : option Z;
  has_rdate : bool;
  has_rrule : bool
}.

Fixpoint scan_observance (ps : list icalproperty) (o : observance) : err observance :=
  match ps with
  | [] => ret o
  | p :: ps =>
      o <- (if pr_kind p =? ICAL_DTSTART_PROPERTY then
              t <- get_datetimedate (pr_value p) ;;
              ret (Observance (Some t) (ob_tzoffsetto o) (ob_tzoffsetfrom o) (has_rdate o) (has_rrule o))
            else if pr_kind p =? ICAL_TZOFFSETTO_PROPERTY then
              n <- icalvalue_get_utcoffset (pr_value p) ;;
              ret (Observance (ob_dtstart o) (Some n) (ob_tzoffsetfrom o) (has_rdate o) (has_rrule o))
            else if pr_kind p =? ICAL_TZOFFSETFROM_PROPERTY then
              n <- icalvalue_get_utcoffset (pr_value p) ;;
              ret (Observance (ob_dtstart o) (ob_tzoffsetto o) (Some n) (has_rdate o) (has_rrule o))
            else if pr_kind p =? ICAL_RDATE_PROPERTY then
              ret (Observance (ob_dtstart o) (ob_tzoffsetto o) (ob_tzoffsetfrom o) true (has_rrule o))
            else if pr_kind p =? ICAL_RRULE_PROPERTY then
              ret (Observance (ob_dtstart o) (ob_tzoffsetto o) (ob_tzoffsetfrom o) (has_rdate o) true)
            else ret o) ;;
      scan_observance ps o
  end.

Definition to_utc (t : icaltimetype) (change : icaltimezonechange) : icaltimezonechange :=
  icaltimezone_adjust_change (copy_time t change) 0 0 0 (- ch_prev_utc_offset change).

Definition append_change (changes : icalarray icaltimezonechange) (c : icaltimezonechange)
  : err (icalarray icaltimezonechange) :=
  match icalarray_append changes c with Some a => ret a | None => undefined end.

(** A DATE takes its time from DTSTART, and stays in local time. *)
Definition rdate_change (rdate dtstart : icaltimetype) (change : icaltimezonechange) : icaltimezonechange :=
  if icaltime_is_date rdate then
    set_change_time (year rdate) (month rdate) (day rdate) (hour dtstart) (minute dtstart) (second dtstart) change
  else if icaltime_is_utc rdate then copy_time rdate change
  else to_utc rdate change.

(** The occurrences of the rule, [k] of them at most. *)
Fixpoint rrule_loop (fuel k : nat) (dtstart : icaltimetype) (end_year : Z) (change : icaltimezonechange)
  (changes : icalarray icaltimezonechange) : it (icalarray icaltimezonechange) :=
  match k with
  | O => IcalRecurIter.undefined
  | S k =>
      (occ <- icalrecur_iterator_next fuel ;;
       if icaltime_compare dtstart occ =? 0 then rrule_loop fuel k dtstart end_year change changes
       else if (end_year <? year occ) || icaltime_is_null_time occ then iret changes
       else changes <- lift (append_change changes (to_utc occ change)) ;;
            rrule_loop fuel k dtstart end_year change changes)%it
  end.

Definition local_until (prev_utc_offset : Z) (rrule : icalrecurrencetype) : icalrecurrencetype :=
  if negb (icaltime_is_null_time (until rrule)) && icaltime_is_utc (until rrule)
  then set_until (set_zone (icaltime_adjust (until rrule) 0 0 0 prev_utc_offset) ZONE_NULL) rrule
  else rrule.

Definition expand_rrule (fuel : nat) (rrule : icalrecurrencetype) (dtstart : icaltimetype) (end_year : Z)
  (change : icaltimezonechange) (changes : icalarray icaltimezonechange) : err (icalarray icaltimezonechange) :=
  let rrule := local_until (ch_prev_utc_offset change) rrule in
  changes <- append_change changes (to_utc dtstart change) ;;
  rrule_iterator <- icalrecur_iterator_new fuel rrule dtstart ;;
  match rrule_iterator with
  | None => ret changes
  | Some i => fun st =>
      match rrule_loop fuel fuel dtstart end_year change changes i st with
      | Some (changes, _, st) => Some (changes, st)
      | None => None
      end
  end.

(** The second loop over the properties. *)
Fixpoint expand_properties (fuel : nat) (ps : list icalproperty) (dtstart : icaltimetype) (end_year : Z)
  (change : icaltimezonechange) (changes : icalarray icaltimezonechange) : err (icalarray icaltimezonechange) :=
  match ps with
  | [] => ret changes
  | p :: ps =>
      changes <- (if pr_kind p =? ICAL_RDATE_PROPERTY then
                    rdate <- get_datetimeperiod_time (pr_value p) ;;
                    append_change changes (rdate_change rdate dtstart change)
                  else if pr_kind p =? ICAL_RRULE_PROPERTY then
                    rrule <- icalvalue_get_recur (pr_value p) ;;
                    expand_rrule fuel rrule dtstart end_year change changes
                  else ret changes) ;;
      expand_properties fuel ps dtstart end_year change changes
  end.

(** The array, and the component with its iterator moved: the loops over the
    properties run to the end, but for the second one of a component without
    recurrences, which stops at the first property. *)
Definition icaltimezone_expand_vtimezone (fuel : nat) (comp : icalcomponent) (end_year : Z)
  (changes : icalarray icaltimezonechange) : err (icalarray icaltimezonechange * icalcomponent) :=
  if is_observance comp then
    let is_daylight := b2z (ckind_eqb (co_kind comp) ICAL_XDAYLIGHT_COMPONENT) in
    o <- scan_observance (co_properties comp) (Observance None None None false false) ;;
    let ended := with_properties (co_properties comp) NoElem comp in
    let offset_from := match ob_tzoffsetfrom o with Some n => Some n | None => ob_tzoffsetto o end in
    match ob_dtstart o, ob_tzoffsetto o, offset_from with
    | Some dtstart, Some utc_offset, Some prev_utc_offset =>
        let change := Change utc_offset prev_utc_offset 0 0 0 0 0 0 is_daylight in
        changes <- (if has_rrule o then ret changes else append_change changes (to_utc dtstart change)) ;;
        if has_rdate o || has_rrule o then
          changes <- expand_properties fuel (co_properties comp) dtstart end_year change changes ;;
          ret (changes, ended)
        else ret (changes, with_properties (co_properties comp) (AtElem 0) comp)
    | _, _, _ => ret (changes, ended)
    end
  else ret (changes, comp).

Fixpoint expand_components (fuel : nat) (cs : list icalcomponent) (end_year : Z) (changes : icalarray icaltimezonechange)
  : err (icalarray icaltimezonechange * list icalcomponent) :=
  match cs with
  | [] => ret (changes, [])
  | c :: cs =>
      r <- icaltimezone_expand_vtimezone fuel c end_year changes ;;
      s <- expand_components fuel cs end_year (fst r) ;;
      ret (fst s, snd r :: snd s)
  end.

(** ** Zones *)

(** The coordinates are left out, and [builtin_timezone], which is never anything
    but [NULL]. *)
Record icaltimezone := Timezone {
  tzid : option cstring;
  location : option cstring;
  tznames : option cstring;
  component : option icalcomponent;
  zone_end_year : Z;
  changes : option (icalarray icaltimezonechange)
}.

Definition icaltimezone_new : icaltimezone := Timezone None None None None 0 None.

Definition set_changes (a : icalarray icaltimezonechange) (end_year : Z) (comp : option icalcomponent) (z : icaltimezone)
  : icaltimezone := Timezone (tzid z) (location z) (tznames z) comp end_year (Some a).

(** [sizeof(icaltimezonechange)] is 36. *)
Definition icaltimezone_expand_changes (fuel : nat) (z : icaltimezone) (end_year : Z) : err icaltimezone :=
  let a := icalarray_new 36 32 in
  r <- (match component z with
        | None => badarg (a, None)
        | Some comp =>
            r <- expand_components fuel (co_components comp) end_year a ;;
            ret (fst r, Some (with_components (snd r) NoElem comp))
        end) ;;
  match icalarray_sort icaltimezone_compare_change_fn (fst r) with
  | Some a => ret (set_changes a end_year (snd r) z)
  | None => undefined
  end.

(** The system: the time of the first expansion, and the VTIMEZONE that
    icaltz-util.c makes of the file of a location. *)
Class ZoneSystem := {
  now : Z;
  icaltzutil_fetch_timezone : cstring -> err (option icalcomponent)
}.
Context `{SYS : ZoneSystem}.

Definition take_properties (entry : option zone_entry) (comp : icalcomponent) (z : icaltimezone) : icaltimezone :=
  match entry with
  | Some e => Timezone (Some (tz_tzid e)) (tz_location e) (tz_tznames e) (Some comp) (zone_end_year z) (changes z)
  | None => z
  end.

Definition icaltimezone_load_builtin_timezone (z : icaltimezone) : err icaltimezone :=
  match component z, location z with
  | Some _, _ | None, None | None, Some [] => ret z
  | None, Some loc =>
      subcomp <- icaltzutil_fetch_timezone loc ;;
      match subcomp with
      | None => icalerror_set_errno ICAL_PARSE_ERROR ;;; ret z
      | Some comp =>
          r <- icaltimezone_get_vtimezone_properties comp ;;
          ret (take_properties (fst r) (snd r) z)
      end
  end.

(** [icaltimezone_minimum_expansion_year] is a static variable, -1 at first. *)
Record tzstate := TzState {
  minimum_expansion_year : Z;
  zones : list icaltimezone
}.

Definition covered_year (minimum end_year : Z) : Z :=
  let changes_end_year := if end_year <? minimum then minimum else end_year in
  let changes_end_year := changes_end_year + ICALTIMEZONE_EXTRA_COVERAGE in
  if ICALTIMEZONE_MAX_YEAR <? changes_end_year then ICALTIMEZONE_MAX_YEAR else changes_end_year.

Definition icaltimezone_ensure_coverage (fuel : nat) (minimum : Z) (z : icaltimezone) (end_year : Z) : err (Z * icaltimezone) :=
  z <- icaltimezone_load_builtin_timezone z ;;
  let minimum := if minimum =? -1 then year (icaltime_today now) else minimum in
  if match changes z with None => true | Some _ => zone_end_year z <? end_year end
  then z <- icaltimezone_expand_changes fuel z (covered_year minimum end_year) ;; ret (minimum, z)
  else ret (minimum, z).

Definition replace_zone (i : nat) (z : icaltimezone) (l : list icaltimezone) : list icaltimezone :=
  firstn i l ++ z :: skipn (S i) l.

(** The part that the two lookups share; [lookup] is the search in the array. *)
Definition zone_offset (fuel : nat) (lookup : icalarray icaltimezonechange -> icaltimetype -> option (Z * Z))
  (st : tzstate) (z : icaltimezone_ptr) (tt : icaltimetype) : err (Z * Z * tzstate) :=
  match z with
  | ZONE_NULL | ZONE_UTC => ret (0, 0, st)
  | ZONE i =>
      match nth_error (zones st) i with
      | None => undefined
      | Some zn =>
          r <- icaltimezone_ensure_coverage fuel (minimum_expansion_year st) zn (year tt) ;;
          let st := TzState (fst r) (replace_zone i (snd r) (zones st)) in
          match changes (snd r) with
          | None => ret (0, 0, st)
          | Some a =>
              if Nat.eqb (num_elements a) 0 then ret (0, 0, st)
              else match lookup a tt with
                   | Some (offset, is_daylight) => ret (offset, is_daylight, st)
                   | None => undefined
                   end
          end
      end
  end.

(** The offset and [*is_daylight]. *)
Definition icaltimezone_get_utc_offset (fuel : nat) := zone_offset fuel offset_of_local_time.
Definition icaltimezone_get_utc_offset_of_utc_time (fuel : nat) := zone_offset fuel offset_of_utc_time.

Definition set_is_daylight (t : icaltimetype) (b : Z) : icaltimetype :=
  IcalTime (year t) (month t) (day t) (hour t) (minute t) (second t) (is_date t) b (zone t).

Definition convert_time (fuel : nat) (st : tzstate) (tt : icaltimetype) (from_zone to_zone : icaltimezone_ptr)
  : err (icaltimetype * tzstate) :=
  if icaltime_is_date tt || zone_eqb from_zone to_zone || zone_eqb from_zone ZONE_NULL then ret (tt, st)
  else
    r <- icaltimezone_get_utc_offset fuel st from_zone tt ;;
    let '(utc_offset, _, st) := r in
    let tt := icaltime_adjust tt 0 0 0 (- utc_offset) in
    r <- icaltimezone_get_utc_offset_of_utc_time fuel st to_zone tt ;;
    let '(utc_offset, is_daylight, st) := r in
    ret (icaltime_adjust (set_is_daylight tt is_daylight) 0 0 0 utc_offset, st).
End Zones.
