(* ===== verification/IcalTimezoneLookup.v ===== *)
(** * The offset of a time

    The changes of a zone and the offsets in force: the lookups of
    icaltimezone.c find the change that applies, in UTC for any sorted array, and
    in local time when the changes lie apart; converting there and back is the
    identity. *)
From Stdlib Require Import String Ascii ZArith Lia Bool List Sorting.Sorted.
From stdpp Require Import base option list.
From S2P Require Import Prelude CString IcalError IcalTime IcalTimeCalendar QsortGen IcalArray IcalValue IcalParameter IcalProperty IcalComponent IcalTimezone.
#[local] Open Scope Z_scope.

(** ** Changes as times *)

Definition time_of (c : icaltimezonechange) : icaltimetype :=
  IcalTime (ch_year c) (ch_month c) (ch_day c) (ch_hour c) (ch_minute c) (ch_second c) 0 0 ZONE_NULL.
Definition change_instant (c : icaltimezonechange) : Z := instant (time_of c).
Definition normal_change (c : icaltimezonechange) : Prop := normalized (time_of c).

Lemma compare_change_instant a b :
  normal_change a -> normal_change b ->
  icaltimezone_compare_change_fn a b = Z.sgn (change_instant a - change_instant b).
Proof.
  intros [Ha Ca] [Hb Cb]. specialize (Ca eq_refl). specialize (Cb eq_refl).
  pose proof (day_number_lt _ _ _ _ _ _ Ha Hb) as H1. pose proof (day_number_lt _ _ _ _ _ _ Hb Ha) as H2.
  unfold date_lt in H1, H2. unfold valid_clock in *. unfold change_instant, instant. cbn in *.
  set (na := day_number (ch_year a) _ _) in *. set (nb := day_number (ch_year b) _ _) in *.
  assert (ch_year a = ch_year b -> ch_month a = ch_month b -> ch_day a = ch_day b -> na = nb) as H3
    by (intros E1 E2 E3; subst na nb; now rewrite E1, E2, E3).
  unfold icaltimezone_compare_change_fn. repeat case_if; lia.
Qed.

(** The order on the members, without any condition on them. *)
Lemma compare_change_le a b :
  icaltimezone_compare_change_fn a b <= 0 <->
  ch_year a < ch_year b \/ ch_year a = ch_year b /\ (ch_month a < ch_month b \/ ch_month a = ch_month b /\
    (ch_day a < ch_day b \/ ch_day a = ch_day b /\ (ch_hour a < ch_hour b \/ ch_hour a = ch_hour b /\
      (ch_minute a < ch_minute b \/ ch_minute a = ch_minute b /\ ch_second a <= ch_second b)))).
Proof. unfold icaltimezone_compare_change_fn. repeat case_if; lia. Qed.

Lemma compare_change_flip a b : icaltimezone_compare_change_fn b a = - icaltimezone_compare_change_fn a b.
Proof. unfold icaltimezone_compare_change_fn. repeat case_if; lia. Qed.

#[export] Instance change_comparison : Comparison icaltimezone_compare_change_fn.
Proof.
  split; intros a b; [rewrite (compare_change_flip a b); lia|]. intros c. rewrite !compare_change_le. lia.
Qed.

(** "This function is exactly the same as icaltime_adjust() except for the type
    of the first parameter." *)
Lemma adjust_change_time c days hours minutes seconds :
  1 <= ch_month c <= 12 ->
  icaltimezone_adjust_change c days hours minutes seconds = copy_time (icaltime_adjust (time_of c) days hours minutes seconds) c.
Proof.
  intros Hm. unfold icaltimezone_adjust_change, icaltime_adjust, time_of, icaltime_is_date, truthy.
  cbn [is_date negb second minute hour]. change (0 =? 0) with true. cbn [negb]. destruct (carry _ 60) as [s om]. destruct (carry _ 60) as [mi oh]. destruct (carry _ 24) as [h od].
  cbn [set_time year month day]. unfold adjust_date, normalize_month.
  destruct (Z.leb_spec 13 (ch_month c)); [lia|]. destruct (Z.leb_spec (ch_month c) 0); [lia|].
  destruct (if 0 <? _ then _ else _) as [[y m] d]. reflexivity.
Qed.

Lemma adjust_change_spec c seconds :
  normal_change c ->
  let r := icaltimezone_adjust_change c 0 0 0 seconds in
  normal_change r /\ change_instant r = change_instant c + seconds /\ ch_utc_offset r = ch_utc_offset c /\
  ch_prev_utc_offset r = ch_prev_utc_offset c /\ ch_is_daylight r = ch_is_daylight c.
Proof.
  intros [[Hm Hd] Hc]. cbv zeta. rewrite adjust_change_time by exact Hm.
  destruct (adjust_spec (time_of c) 0 0 0 seconds) as (Hn & E1 & E2 & E3 & Hi). cbn [icaltime_is_date truthy is_date time_of] in Hi.
  set (r := icaltime_adjust _ _ _ _ _) in *. change (instant r = change_instant c + 0 * 86400 + 0 * 3600 + 0 * 60 + seconds) in Hi.
  split; [|split; [|repeat split]].
  - destruct Hn as [Hv Hk]. split; [exact Hv|]. intros _. apply Hk. unfold icaltime_is_date. now rewrite E1.
  - change (instant r = change_instant c + seconds). lia.
Qed.

Lemma copy_time_normal t : normalized t -> icaltime_is_date t = false -> normal_change (copy_time t no_change).
Proof. intros [Hv Hc] Hd. split; [exact Hv|]. intros _. exact (Hc Hd). Qed.

Lemma copy_time_instant t c : change_instant (copy_time t c) = instant t.
Proof. reflexivity. Qed.

(** The local time a change begins at, and the one it is over with. *)
Definition local_lo (c : icaltimezonechange) : Z := change_instant c + Z.min (ch_utc_offset c) (ch_prev_utc_offset c).
Definition local_hi (c : icaltimezonechange) : Z := change_instant c + Z.max (ch_utc_offset c) (ch_prev_utc_offset c).

Lemma local_start_spec c :
  normal_change c -> normal_change (local_start c) /\ change_instant (local_start c) = local_lo c /\
  ch_prev_utc_offset (local_start c) = ch_prev_utc_offset c /\ ch_is_daylight (local_start c) = ch_is_daylight c.
Proof.
  intros Hn. unfold local_start, local_lo.
  destruct (Z.ltb_spec (ch_utc_offset c) (ch_prev_utc_offset c)) as [H|H].
  - rewrite Z.min_l by lia. now destruct (adjust_change_spec c (ch_utc_offset c) Hn) as (? & ? & ? & ? & ?).
  - rewrite Z.min_r by lia. now destruct (adjust_change_spec c (ch_prev_utc_offset c) Hn) as (? & ? & ? & ? & ?).
Qed.

(** ** The search *)

Section Search.
Context (a : icalarray icaltimezonechange) (l : list icaltimezonechange) (REP : represents a l).

(** The bisection stays inside the array, whatever its order. *)
Lemma nearby_loop_in_range t fuel : forall lower middle upper,
  (lower <= upper <= length l)%nat -> (upper - lower < fuel)%nat -> (middle < length l)%nat ->
  exists m, nearby_loop fuel a t lower middle upper = Some m /\ (m < length l)%nat.
Proof.
  induction fuel as [|fuel IH]; intros lower middle upper H1 H2 H3; [lia|]. cbn [nearby_loop].
  destruct (Nat.ltb_spec lower upper) as [Hlt|]; [|now exists middle].
  pose proof (Nat.div_mod (lower + upper) 2 ltac:(lia)). pose proof (Nat.mod_upper_bound (lower + upper) 2 ltac:(lia)).
  set (k := Nat.div (lower + upper) 2) in *. assert (k < length l)%nat as Hk by lia.
  rewrite (rep_load a l k REP Hk). destruct (lookup_lt_is_Some_2 l k Hk) as [c ->].
  destruct (_ =? 0); [now exists k|]. destruct (_ <? 0); apply IH; lia.
Qed.

Lemma nearby_in_range t : l <> [] ->
  exists m, icaltimezone_find_nearby_change a t = Some m /\ (m < length l)%nat.
Proof.
  intros Hne. unfold icaltimezone_find_nearby_change. rewrite (rep_length _ _ REP).
  apply nearby_loop_in_range; destruct l; cbn; try lia. congruence.
Qed.

(** The steps end at the last change whose key is not after the time. *)
Section Steps.
Context (tmp : icaltimezonechange -> icaltimezonechange) (key : icaltimezonechange -> Z) (tt_change : icaltimezonechange) (t : Z).
Hypothesis compared : forall c, c ∈ l -> (0 <=? icaltimezone_compare_change_fn tt_change (tmp c)) = (key c <=? t).
Hypothesis ordered : forall i j c d, (i < j)%nat -> l !! i = Some c -> l !! j = Some d -> key c <= key d.

Definition stops_at (r : found_change) : Prop :=
  match r with
  | UseChange n => exists c, l !! n = Some c /\ key c <= t /\ forall j d, (n < j)%nat -> l !! j = Some d -> t < key d
  | BeforeFirst b => exists c, l !! O = Some c /\ b = tmp c /\ forall j d, l !! j = Some d -> t < key d
  end.

Lemma step_back n : forall fuel, (n < fuel)%nat -> (n < length l)%nat ->
  (forall j d, (n < j)%nat -> l !! j = Some d -> t < key d) ->
  exists r, step_loop fuel tmp a tt_change n true None = Some r /\ stops_at r.
Proof.
  induction n as [|n IH]; intros [|fuel] Hf Hn Hafter; try lia; cbn [step_loop];
    (rewrite (rep_load a l _ REP Hn); destruct (lookup_lt_is_Some_2 l _ Hn) as [c Hc]; rewrite Hc;
     rewrite compared by (eapply list_elem_of_lookup_2; exact Hc);
     destruct (Z.leb_spec (key c) t) as [Hk|Hk]; [eexists; split; [reflexivity|]; now exists c|]).
  - eexists. split; [reflexivity|]. exists c. repeat split; [exact Hc|]. intros [|j] d Hd; [congruence | apply (Hafter (S j)); [lia | exact Hd]].
  - apply IH; [lia | lia|]. intros j d Hj Hd. destruct (decide (j = S n)) as [->|]; [congruence | apply (Hafter j); [lia | exact Hd]].
Qed.

Lemma step_forward k : forall n fuel found, (k = length l - n)%nat -> (k < fuel)%nat -> (n < length l)%nat ->
  match found with Some j => S j = n /\ exists c, l !! j = Some c /\ key c <= t | None => (n < fuel)%nat end ->
  exists r, step_loop fuel tmp a tt_change n false found = Some r /\ stops_at r.
Proof.
  induction k as [|k IH]; intros n [|fuel] found Hk Hf Hn Hfound; try lia. cbn [step_loop].
  rewrite (rep_load a l n REP Hn). destruct (lookup_lt_is_Some_2 l n Hn) as [c Hc]. rewrite Hc.
  rewrite compared by (eapply list_elem_of_lookup_2; exact Hc). rewrite (rep_length _ _ REP).
  destruct (Z.leb_spec (key c) t) as [Hle|Hgt].
  - destruct (Nat.leb_spec (length l) (S n)) as [Hend|Hmore].
    + eexists. split; [reflexivity|]. exists c. repeat split; [exact Hc | exact Hle|].
      intros j d Hj Hd. apply lookup_lt_Some in Hd. lia.
    + apply IH; [lia | lia | lia|]. split; [reflexivity | now exists c].
  - assert (forall j d, (n <= j)%nat -> l !! j = Some d -> t < key d) as Hafter.
    { intros j d Hj Hd. destruct (decide (j = n)) as [->|]; [congruence|].
      pose proof (ordered n j c d ltac:(lia) Hc Hd). lia. }
    destruct found as [j|].
    + destruct Hfound as (<- & b & Hb & Hkb). eexists. split; [reflexivity|]. exists b. repeat split; [exact Hb | exact Hkb|].
      intros i d Hi Hd. apply (Hafter i d); [lia | exact Hd].
    + destruct n as [|n].
      * eexists. split; [reflexivity|]. exists c. repeat split; [exact Hc|]. intros j d Hd. apply (Hafter j d); [lia | exact Hd].
      * apply step_back; [lia | lia|]. intros j d Hj Hd. apply (Hafter j d); [lia | exact Hd].
Qed.

Lemma steps_stop n : (n < length l)%nat ->
  exists r, step_loop (step_fuel a) tmp a tt_change n false None = Some r /\ stops_at r.
Proof.
  intros Hn. unfold step_fuel. rewrite (rep_length _ _ REP). apply (step_forward (length l - n)); [reflexivity | lia | exact Hn | lia].
Qed.
End Steps.
End Search.

(** ** The offset in force *)

(** The reference: the offset and the daylight flag of the last change that is
    not after the instant; before all changes, those the first one replaces. *)
Definition before_first (l : list icaltimezonechange) : Z * Z :=
  match l with c :: _ => (ch_prev_utc_offset c, lnot (ch_is_daylight c)) | [] => (0, 0) end.
Definition offset_at (l : list icaltimezonechange) (u : Z) : Z * Z :=
  fold_left (fun o c => if change_instant c <=? u then (ch_utc_offset c, ch_is_daylight c) else o) l (before_first l).

Definition after (u : Z) (c : icaltimezonechange) : Prop := u < change_instant c.

(** [n] is the number of the change in force. *)
Definition in_force (l : list icaltimezonechange) (u : Z) (n : nat) (c : icaltimezonechange) : Prop :=
  l !! n = Some c /\ change_instant c <= u /\ forall j d, (n < j)%nat -> l !! j = Some d -> after u d.

Lemma fold_after u l : Forall (after u) l -> forall o : Z * Z,
  fold_left (fun o c => if change_instant c <=? u then (ch_utc_offset c, ch_is_daylight c) else o) l o = o.
Proof.
  induction 1 as [|c l H _ IH]; intros o; [reflexivity|]. unfold after in H. cbn [fold_left].
  destruct (Z.leb_spec (change_instant c) u); [lia | apply IH].
Qed.

Lemma offset_in_force l u n c : in_force l u n c -> offset_at l u = (ch_utc_offset c, ch_is_daylight c).
Proof.
  intros (Hc & Hle & Hafter). unfold offset_at. generalize (before_first l). intros o.
  rewrite <- (take_drop_middle l n c Hc) at 1. rewrite fold_left_app. cbn [fold_left].
  destruct (Z.leb_spec (change_instant c) u); [|lia]. apply fold_after. apply Forall_lookup. intros j d Hd.
  rewrite lookup_drop in Hd. apply (Hafter (S n + j)%nat d); [lia | exact Hd].
Qed.

Lemma offset_before l u : Forall (after u) l -> offset_at l u = before_first l.
Proof. intros H. now apply fold_after. Qed.

Lemma in_force_cases l u : Forall (after u) l \/ exists n c, in_force l u n c.
Proof.
  induction l as [|c l [H | (n & d & Hd & Hle & Ha)]]; [left; constructor| |].
  - destruct (Z.leb_spec (change_instant c) u) as [Hc|Hc]; [|left; now constructor].
    right. exists O, c. split; [reflexivity|]. split; [exact Hc|]. intros [|j] d Hj Hd; [lia|].
    exact (proj1 (Forall_lookup _ _) H j d Hd).
  - right. exists (S n), d. split; [exact Hd|]. split; [exact Hle|]. intros [|j] e Hj He; [lia|]. apply (Ha j e); [lia | exact He].
Qed.

Lemma sorted_lookup {A} (R : A -> A -> Prop) l i j c d :
  StronglySorted R l -> (i < j)%nat -> l !! i = Some c -> l !! j = Some d -> R c d.
Proof.
  intros H. revert i j. induction H as [|x l _ IH Hx]; intros i j Hij Hc Hd; [discriminate|].
  destruct j as [|j]; [lia|]. destruct i as [|i].
  - injection Hc as ->. exact (proj1 (Forall_lookup _ _) Hx j d Hd).
  - apply (IH i j); [lia | exact Hc | exact Hd].
Qed.

Section Offsets.
Context (a : icalarray icaltimezonechange) (l : list icaltimezonechange) (REP : represents a l) (SOME : l <> []).
Context (NORMAL : Forall normal_change l).

Lemma normal_of c : c ∈ l -> normal_change c.
Proof. intros H. exact (proj1 (Forall_forall _ _) NORMAL c H). Qed.

Lemma sgn_leb x y : (0 <=? Z.sgn (x - y)) = (y <=? x).
Proof. destruct (Z.leb_spec y x); lia. Qed.

(** For times in UTC the order of the array is enough. *)
Lemma utc_time_lookup tt :
  StronglySorted (fun x y => icaltimezone_compare_change_fn x y <= 0) l ->
  normalized tt -> icaltime_is_date tt = false ->
  offset_of_utc_time a tt = Some (offset_at l (instant tt)).
Proof.
  intros Hs Ht Hd. unfold offset_of_utc_time. destruct (nearby_in_range a l REP (copy_time tt no_change) SOME) as (m & -> & Hm).
  destruct (steps_stop a l REP (fun c => c) change_instant (copy_time tt no_change) (instant tt)) with (n := m) as (r & -> & Hr); [| |exact Hm|].
  - intros c Hc. rewrite compare_change_instant, copy_time_instant by auto using copy_time_normal, normal_of. apply sgn_leb.
  - intros i j c d Hij Hc Hdd. pose proof (sorted_lookup _ l i j c d Hs Hij Hc Hdd) as H.
    cbv beta in H. rewrite compare_change_instant in H by eauto using normal_of, list_elem_of_lookup_2. lia.
  - destruct r as [n|b].
    + destruct Hr as (c & Hc & Hle & Ha). rewrite (rep_load a l n REP) by (eapply lookup_lt_Some; exact Hc). rewrite Hc.
      f_equal. symmetry. now apply (offset_in_force l _ n c).
    + destruct Hr as (c & Hc & -> & Ha). f_equal. rewrite offset_before by (apply Forall_lookup; exact Ha).
      destruct l; [discriminate | now injection Hc as ->].
Qed.
End Offsets.

(** ** Local times *)

(** The changes follow each other: each begins at the offset the one before ends
    with, and is over in local time when the next one begins; clocks go back only
    between times whose daylight flags differ. *)
Record follows (c d : icaltimezonechange) : Prop := Follows {
  follows_offset : ch_prev_utc_offset d = ch_utc_offset c;
  follows_apart : local_hi c <= local_lo d;
  follows_flag : ch_utc_offset d < ch_prev_utc_offset d -> ch_is_daylight c <> ch_is_daylight d
}.

Record well_spaced (l : list icaltimezonechange) : Prop := WellSpaced {
  spaced_normal : Forall normal_change l;
  spaced_flag : Forall (fun c => ch_is_daylight c = 0 \/ ch_is_daylight c = 1) l;
  spaced_offset : Forall (fun c => - 86400 <= ch_utc_offset c <= 86400 /\ - 86400 <= ch_prev_utc_offset c <= 86400) l;
  spaced_follow i c d : l !! i = Some c -> l !! S i = Some d -> follows c d
}.

Section Local.
Context (a : icalarray icaltimezonechange) (l : list icaltimezonechange) (REP : represents a l) (SOME : l <> []).
Context (WS : well_spaced l).

Lemma lo_hi c : local_lo c <= local_hi c.
Proof. unfold local_lo, local_hi. lia. Qed.

Lemma apart i j c d : (i < j)%nat -> l !! i = Some c -> l !! j = Some d -> local_hi c <= local_lo d.
Proof.
  intros Hij Hc. revert d. induction Hij as [|j Hij IH]; intros d Hd; [exact (follows_apart _ _ (spaced_follow _ WS _ _ _ Hc Hd))|].
  destruct (lookup_lt_is_Some_2 l j) as [e He]; [apply lookup_lt_Some in Hd; lia|].
  pose proof (follows_apart _ _ (spaced_follow _ WS _ _ _ He Hd)). pose proof (IH e He). pose proof (lo_hi e). lia.
Qed.

Lemma lo_ordered i j c d : (i < j)%nat -> l !! i = Some c -> l !! j = Some d -> local_lo c <= local_lo d.
Proof. intros Hij Hc Hd. pose proof (apart i j c d Hij Hc Hd). pose proof (lo_hi c). lia. Qed.

(** The next change is the one that bounds the times of a change. *)
Lemma next_instant i c d : l !! i = Some c -> l !! S i = Some d -> change_instant c <= change_instant d.
Proof.
  intros Hc Hd. destruct (spaced_follow _ WS _ _ _ Hc Hd) as [E H _]. unfold local_hi, local_lo in H. lia.
Qed.

Lemma instants_ordered i j c d : (i < j)%nat -> l !! i = Some c -> l !! j = Some d -> change_instant c <= change_instant d.
Proof.
  intros Hij Hc. revert d. induction Hij as [|j Hij IH]; intros d Hd; [exact (next_instant _ _ _ Hc Hd)|].
  destruct (lookup_lt_is_Some_2 l j) as [e He]; [apply lookup_lt_Some in Hd; lia|].
  pose proof (next_instant _ _ _ He Hd). pose proof (IH e He). lia.
Qed.

(** A change is in force from its instant to that of the next one. *)
Lemma in_force_next u n c :
  l !! n = Some c -> change_instant c <= u -> (forall d, l !! S n = Some d -> u < change_instant d) -> in_force l u n c.
Proof.
  intros Hc Hle Hnext. split; [exact Hc|]. split; [exact Hle|]. intros j d Hj Hd. unfold after.
  destruct (lookup_lt_is_Some_2 l (S n)) as [e He]; [apply lookup_lt_Some in Hd; lia|].
  pose proof (Hnext e He). destruct (decide (j = S n)) as [->|]; [congruence|].
  pose proof (instants_ordered (S n) j e d ltac:(lia) He Hd). lia.
Qed.

(** The local time of an instant lies before the next change is over. *)
Lemma local_of_in_force u n c d :
  in_force l u n c -> l !! S n = Some d -> u + ch_utc_offset c < change_instant d + ch_prev_utc_offset d.
Proof.
  intros (Hc & _ & Ha) Hd. pose proof (Ha (S n) d ltac:(lia) Hd) as H. unfold after in H.
  rewrite (follows_offset _ _ (spaced_follow _ WS _ _ _ Hc Hd)). lia.
Qed.

(** The part of [offset_of_local_time] behind the search. *)
Definition local_choice (tt : icaltimetype) (n : nat) (c : icaltimezonechange) : icaltimezonechange :=
  match n with
  | O => c
  | S p => if (ch_utc_offset c <? ch_prev_utc_offset c) && (instant tt <? change_instant c + ch_prev_utc_offset c)
           then choose_in_overlap tt c (default c (l !! p)) else c
  end.

Definition reached (t : Z) (n : nat) (c : icaltimezonechange) : Prop :=
  l !! n = Some c /\ local_lo c <= t /\ forall j d, (n < j)%nat -> l !! j = Some d -> t < local_lo d.

Lemma local_time_lookup tt :
  normalized tt -> icaltime_is_date tt = false ->
  (offset_of_local_time a tt = Some (before_first l) /\ Forall (fun c => instant tt < local_lo c) l) \/
  (exists n c, reached (instant tt) n c /\
     let z := local_choice tt n c in offset_of_local_time a tt = Some (ch_utc_offset z, ch_is_daylight z)).
Proof.
  intros Ht Hd. unfold offset_of_local_time. destruct (nearby_in_range a l REP (copy_time tt no_change) SOME) as (m & -> & Hm).
  pose proof (spaced_normal _ WS) as HN.
  destruct (steps_stop a l REP local_start local_lo (copy_time tt no_change) (instant tt)) with (n := m) as (r & -> & Hr).
  { intros c Hc. destruct (local_start_spec c (normal_of l HN c Hc)) as (Hn & Hi & _).
    rewrite compare_change_instant, copy_time_instant, Hi by auto using copy_time_normal. apply sgn_leb. }
  { exact lo_ordered. } { exact Hm. }
  destruct r as [n|b].
  - right. destruct Hr as (c & Hc & Hle & Ha). exists n, c. split; [now repeat split|].
    rewrite (rep_load a l n REP) by (eapply lookup_lt_Some; exact Hc). rewrite Hc. cbv zeta.
    destruct (adjust_change_spec c (ch_prev_utc_offset c) (normal_of l HN c (list_elem_of_lookup_2 _ _ _ Hc))) as (Hn & Hi & _).
    rewrite (compare_change_instant _ _ (copy_time_normal tt Ht Hd) Hn), copy_time_instant, Hi.
    replace (ch_utc_offset c - ch_prev_utc_offset c <? 0) with (ch_utc_offset c <? ch_prev_utc_offset c) by lia.
    replace (Z.sgn (instant tt - (change_instant c + ch_prev_utc_offset c)) <? 0)
      with (instant tt <? change_instant c + ch_prev_utc_offset c) by lia.
    unfold local_choice. destruct n as [|p]; [now rewrite andb_false_r|]. cbn [Nat.eqb negb]. rewrite andb_true_r.
    destruct (_ && _); [|reflexivity]. replace (S p - 1)%nat with p by lia.
    rewrite (rep_load a l p REP) by (apply lookup_lt_Some in Hc; lia).
    destruct (lookup_lt_is_Some_2 l p) as [e ->]; [apply lookup_lt_Some in Hc; lia | reflexivity].
  - left. destruct Hr as (c & Hc & -> & Ha). split; [|apply Forall_lookup; exact Ha].
    destruct (local_start_spec c (normal_of l HN c (list_elem_of_lookup_2 _ _ _ Hc))) as (_ & _ & -> & ->).
    destruct l; [discriminate | now injection Hc as ->].
Qed.

Lemma choice_cases tt n c : l !! n = Some c ->
  local_choice tt n c = c \/
  exists p e, n = S p /\ l !! p = Some e /\ local_choice tt n c = e /\
    ch_utc_offset c < ch_prev_utc_offset c /\ instant tt < change_instant c + ch_prev_utc_offset c.
Proof.
  intros Hc. destruct n as [|p]; [now left|]. destruct (lookup_lt_is_Some_2 l p) as [e He]; [apply lookup_lt_Some in Hc; lia|].
  unfold local_choice. rewrite He. cbn [default]. destruct (Z.ltb_spec (ch_utc_offset c) (ch_prev_utc_offset c)); [|now left].
  destruct (Z.ltb_spec (instant tt) (change_instant c + ch_prev_utc_offset c)); [|now left]. cbn [andb].
  unfold choose_in_overlap. destruct (_ && _); [|now left]. right. now exists p, e.
Qed.

(** The change that applies to a local time that exists is one that is in force
    at the instant computed from it. *)
Lemma reached_in_force t u n c :
  reached t n c -> u + fst (offset_at l u) = t -> ch_prev_utc_offset c <= ch_utc_offset c -> change_instant c + ch_utc_offset c <= t.
Proof.
  intros (Hc & Hle & Ha) Hu Hfwd. assert (local_lo c = change_instant c + ch_prev_utc_offset c) as Elo by (unfold local_lo; lia).
  destruct (in_force_cases l u) as [Hall | (m & d & Hm)].
  - exfalso. rewrite (offset_before l u Hall) in Hu.
    destruct n as [|n].
    + destruct l as [|c' l']; [discriminate|]. injection Hc as ->. cbn in Hu. apply Forall_inv in Hall. unfold after in Hall. lia.
    + destruct (lookup_lt_is_Some_2 l O) as [e He]; [apply lookup_lt_Some in Hc; lia|].
      pose proof (apart O (S n) e c ltac:(lia) He Hc) as Hap. pose proof (proj1 (Forall_lookup _ _) Hall O e He) as Hb.
      destruct l as [|c' l']; [discriminate|]. injection He as ->. cbn in Hu. unfold after in Hb. unfold local_hi in Hap. lia.
  - rewrite (offset_in_force l u m d Hm) in Hu. cbn in Hu. destruct (Nat.lt_trichotomy m n) as [Hlt | [-> | Hgt]].
    + exfalso. destruct (lookup_lt_is_Some_2 l (S m)) as [e He]; [apply lookup_lt_Some in Hc; lia|].
      pose proof (local_of_in_force u m d e Hm He) as Hn. destruct (decide (S m = n)) as [<-|].
      * rewrite Hc in He. injection He as ->. lia.
      * pose proof (apart (S m) n e c ltac:(lia) He Hc) as Hap. unfold local_hi in Hap. lia.
    + destruct Hm as (Hd & Hi & _). rewrite Hc in Hd. injection Hd as ->. lia.
    + exfalso. destruct Hm as (Hd & Hi & _). pose proof (Ha m d Hgt Hd) as Hlo. unfold local_lo in Hlo. lia.
Qed.

Lemma local_offset_inverts tt u :
  normalized tt -> icaltime_is_date tt = false -> u + fst (offset_at l u) = instant tt ->
  exists off fl, offset_of_local_time a tt = Some (off, fl) /\ offset_at l (instant tt - off) = (off, fl).
Proof.
  intros Ht Hd Hu. destruct (local_time_lookup tt Ht Hd) as [[E Hall] | (n & c & Hr & E)].
  - destruct (before_first l) as [off fl] eqn:Eb. exists off, fl. split; [exact E|]. rewrite <- Eb. apply offset_before.
    destruct (lookup_lt_is_Some_2 l O) as [c Hc]; [destruct l; [congruence | cbn; lia]|].
    assert (off = ch_prev_utc_offset c) as -> by (destruct l; [discriminate | injection Hc as ->; now injection Eb as <- _]).
    apply Forall_lookup. intros j d Hj. pose proof (proj1 (Forall_lookup _ _) Hall O c Hc) as Hlo. cbv beta in Hlo.
    assert (change_instant c <= change_instant d)
      by (destruct j as [|j]; [replace d with c by congruence; lia | apply (instants_ordered O (S j)); [lia | exact Hc | exact Hj]]).
    unfold local_lo in Hlo. unfold after. lia.
  - pose proof Hr as (Hc & Hle & Ha). destruct (choice_cases tt n c Hc) as [Ez | (p & e & -> & He & Ez & Hback & Hover)];
      rewrite Ez in E; eexists _, _; (split; [exact E|]).
    + apply (offset_in_force l _ n c). apply in_force_next; [exact Hc | |].
      * destruct (Z.le_gt_cases (ch_prev_utc_offset c) (ch_utc_offset c)) as [Hf|Hf];
          [pose proof (reached_in_force _ _ _ _ Hr Hu Hf); lia | unfold local_lo in Hle; lia].
      * intros d Hdd. pose proof (Ha (S n) d ltac:(lia) Hdd) as Hlo.
        pose proof (follows_offset _ _ (spaced_follow _ WS _ _ _ Hc Hdd)). unfold local_lo in Hlo. lia.
    + pose proof (spaced_follow _ WS _ _ _ He Hc) as [Eo Hap _]. apply (offset_in_force l _ p e). apply in_force_next; [exact He | |].
      * unfold local_hi in Hap. unfold local_lo in *. lia.
      * intros d Hdd. rewrite Hc in Hdd. injection Hdd as <-. lia.
Qed.

(** Before the first change an hour that occurs twice is not told apart. *)
Definition starts_forward (u : Z) : Prop :=
  match l with c :: _ => ch_prev_utc_offset c <= ch_utc_offset c \/ change_instant c <= u | [] => True end.

Lemma wanted tt c d :
  ch_is_daylight c = 0 \/ ch_is_daylight c = 1 -> is_daylight tt = ch_is_daylight c -> ch_is_daylight c <> ch_is_daylight d ->
  choose_in_overlap tt d c = c.
Proof.
  intros Hb E Hne. unfold choose_in_overlap. rewrite E.
  destruct Hb as [Eb | Eb]; rewrite Eb in Hne |- *.
  - change (if 0 =? 1 then 1 else 0) with 0. destruct (Z.eqb_spec (ch_is_daylight d) 0); [lia | reflexivity].
  - change (if 1 =? 1 then 1 else 0) with 1. destruct (Z.eqb_spec (ch_is_daylight d) 1); [lia | reflexivity].
Qed.

Lemma kept tt c e :
  ch_is_daylight c = 0 \/ ch_is_daylight c = 1 -> is_daylight tt = ch_is_daylight c -> choose_in_overlap tt c e = c.
Proof.
  intros Hb E. unfold choose_in_overlap. rewrite E. destruct Hb as [Eb | Eb]; rewrite Eb; reflexivity.
Qed.

Lemma utc_offset_recovered tt u :
  normalized tt -> icaltime_is_date tt = false -> starts_forward u ->
  instant tt = u + fst (offset_at l u) -> is_daylight tt = snd (offset_at l u) ->
  offset_of_local_time a tt = Some (offset_at l u).
Proof.
  intros Ht Hd Hfirst Hi Hflag. destruct (in_force_cases l u) as [Hall | (n & c & Hn)].
  - rewrite (offset_before l u Hall) in *. destruct (local_time_lookup tt Ht Hd) as [[E _] | (m & d & (Hdd & Hle & _) & _)]; [exact E|].
    exfalso. destruct (lookup_lt_is_Some_2 l O) as [e He]; [destruct l; [congruence | cbn; lia]|].
    pose proof (proj1 (Forall_lookup _ _) Hall O e He) as Hb. unfold after in Hb.
    assert (local_lo e <= local_lo d) as Hlo by (destruct m as [|m]; [replace d with e by congruence; lia | apply (lo_ordered O (S m)); [lia | exact He | exact Hdd]]).
    unfold starts_forward in Hfirst. destruct l as [|c' l']; [discriminate|]. injection He as ->. cbn in Hi. unfold local_lo at 1 in Hlo. lia.
  - rewrite (offset_in_force l u n c Hn) in *. cbn in Hi, Hflag. pose proof Hn as (Hc & Hle & Ha).
    assert (local_lo c <= instant tt) as Hreach by (unfold local_lo; lia).
    pose proof (proj1 (Forall_lookup _ _) (spaced_flag _ WS) n c Hc) as Hb. cbv beta in Hb.
    destruct (local_time_lookup tt Ht Hd) as [[_ Hall] | (m & d & (Hdd & Hlo & Hma) & E)];
      [pose proof (proj1 (Forall_lookup _ _) Hall n c Hc) as H; cbv beta in H; lia|].
    destruct (Nat.lt_trichotomy m n) as [Hlt | [-> | Hgt]]; [pose proof (Hma n c Hlt Hc); lia| |].
    + rewrite Hc in Hdd. injection Hdd as <-.
      destruct (choice_cases tt n c Hc) as [Ez | (p & e & -> & He & Ez & Hback & Hover)]; [now rewrite Ez in E|].
      cbv zeta in E. unfold local_choice in E. rewrite He in E. cbn [default] in E. rewrite kept in E by assumption.
      now destruct (_ && _) in E.
    + destruct (lookup_lt_is_Some_2 l (S n)) as [e He]; [apply lookup_lt_Some in Hdd; lia|].
      pose proof (local_of_in_force u n c e Hn He) as Hnext.
      destruct (decide (m = S n)) as [->|Hne].
      * rewrite He in Hdd. injection Hdd as <-. cbv zeta in E. unfold local_choice in E. rewrite Hc in E. cbn [default] in E.
        destruct (spaced_follow _ WS _ _ _ Hc He) as [Eo _ Hfl].
        destruct (Z.ltb_spec (ch_utc_offset e) (ch_prev_utc_offset e)); [|unfold local_lo in Hlo; lia].
        destruct (Z.ltb_spec (instant tt) (change_instant e + ch_prev_utc_offset e)); [|lia]. cbn [andb] in E.
        rewrite wanted in E by auto. exact E.
      * pose proof (apart (S n) m e d ltac:(lia) He Hdd) as Hap. unfold local_hi in Hap. lia.
Qed.
End Local.
