(* ===== verification/IcalTimezoneConvert.v ===== *)
(** * Conversion between zones

    The lookups on a zone whose changes are expanded far enough, the conversion
    of times there and back, and the zone that a VTIMEZONE text denotes. *)
From Stdlib Require Import String Ascii ZArith Lia Bool List Sorting.Sorted Permutation.
From stdpp Require Import base option list.
From S2P Require Import Prelude CString IcalError QsortGen IcalArray IcalTime IcalTimeCalendar IcalValueText IcalValue IcalLine IcalParameter IcalProperty IcalComponent IcalParser IcalDesignData IcalValueSafe IcalParserSafe IcalParserTotal IcalParserExamples IcalTimezone IcalTimezoneLookup.
#[local] Open Scope Z_scope.
Import ListNotations.
#[local] Open Scope cstring_scope.
#[local] Open Scope err_scope.

(** ** Expanded zones *)

Section Convert.
Context `{PROPS : PropertyTables} `{PARAMS : ParameterTables} `{FLOAT : FloatOps} `{TZ : TimezoneConv} {SYS : ZoneSystem}.

(** The zone with number [i] is loaded and has the changes [l], in the array [a],
    through the year [Y]. *)
Inductive expanded (st : tzstate) (i : nat) (Y : Z) (a : icalarray icaltimezonechange) (l : list icaltimezonechange) : Prop :=
| Expanded z :
    nth_error (zones st) i = Some z -> component z <> None -> changes z = Some a -> represents a l ->
    Y <= zone_end_year z -> expanded st i Y a l.

Lemma replace_same i z (zs : list icaltimezone) : nth_error zs i = Some z -> replace_zone i z zs = zs.
Proof.
  unfold replace_zone. revert zs. induction i as [|i IH]; intros [|y zs] H; try discriminate; cbn in H.
  - now injection H as ->.
  - change (y :: (firstn i zs ++ z :: skipn (S i) zs) = y :: zs). now rewrite (IH zs H).
Qed.

Lemma expanded_zones st st' i Y a l : zones st' = zones st -> expanded st i Y a l -> expanded st' i Y a l.
Proof. intros E [z H1 H2 H3 H4 H5]. econstructor; [rewrite E; exact H1 | exact H2 | exact H3 | exact H4 | exact H5]. Qed.

Lemma changes_represented st i Y a l : expanded st i Y a l -> represents a l.
Proof. now intros []. Qed.

(** Nothing is expanded again, and no error is set. *)
Lemma covered fuel minimum z a y e :
  component z <> None -> changes z = Some a -> y <= zone_end_year z ->
  exists m, icaltimezone_ensure_coverage fuel minimum z y e = Some ((m, z), e).
Proof.
  intros Hc Ha Hy. unfold icaltimezone_ensure_coverage, icaltimezone_load_builtin_timezone.
  destruct (component z) as [c|]; [|congruence]. unfold bind, ret. rewrite Ha. destruct (Z.ltb_spec (zone_end_year z) y); [lia|].
  eexists. reflexivity.
Qed.

Lemma zone_offset_expanded fuel lookup st i Y a l tt e :
  expanded st i Y a l -> l <> [] -> year tt <= Y ->
  exists st', zones st' = zones st /\
    forall r, lookup a tt = Some r -> zone_offset fuel lookup st (ZONE i) tt e = Some ((fst r, snd r, st'), e).
Proof.
  intros [z Hz Hc Ha Hrep HY] Hne Hy. destruct (covered fuel (minimum_expansion_year st) z a (year tt) e Hc Ha ltac:(lia)) as [m E].
  exists (TzState m (zones st)). split; [reflexivity|]. intros [o f] Hl.
  unfold zone_offset. rewrite Hz. unfold bind. rewrite E. cbn [fst snd]. rewrite Ha, (replace_same _ _ _ Hz).
  destruct (Nat.eqb_spec (num_elements a) 0) as [E0|]; [rewrite (rep_length _ _ Hrep) in E0; destruct l; cbn in E0; congruence|].
  now rewrite Hl.
Qed.

Lemma sorted_instants l : well_spaced l -> StronglySorted (fun x y => icaltimezone_compare_change_fn x y <= 0) l.
Proof.
  intros WS. assert (forall i j c d, (i < j)%nat -> l !! i = Some c -> l !! j = Some d -> icaltimezone_compare_change_fn c d <= 0) as H.
  { intros i j c d Hij Hc Hd. pose proof (instants_ordered l WS i j c d Hij Hc Hd).
    rewrite compare_change_instant by (eapply normal_of; [apply (spaced_normal _ WS) | eapply list_elem_of_lookup_2; eassumption]). lia. }
  clear WS. induction l as [|c l IH]; constructor.
  - apply IH. intros i j x y Hij Hx Hy. apply (H (S i) (S j)); [lia | exact Hx | exact Hy].
  - apply Forall_lookup. intros j d Hd. apply (H O (S j)); [lia | reflexivity | exact Hd].
Qed.

(** ** Moving a time by an offset *)

Lemma shifted t off : icaltime_is_date t = false ->
  let r := icaltime_adjust t 0 0 0 off in
  normalized r /\ icaltime_is_date r = false /\ instant r = instant t + off /\ is_daylight r = is_daylight t /\
  is_date r = is_date t /\ zone r = zone t.
Proof.
  intros Hd. cbv zeta. destruct (adjust_spec t 0 0 0 off) as (Hn & E1 & E2 & E3 & Hi). rewrite Hd in Hi.
  assert (icaltime_is_date (icaltime_adjust t 0 0 0 off) = false) as Hd' by (unfold icaltime_is_date in *; now rewrite E1).
  split; [exact Hn|]. split; [exact Hd'|]. split; [lia|]. now repeat split.
Qed.

Lemma year_near t r : normalized t -> normalized r -> icaltime_is_date t = false -> icaltime_is_date r = false ->
  instant r <= instant t + 86400 -> year r <= year t + 1.
Proof.
  intros [Ht Ct] [Hr Cr] Dt Dr H. specialize (Ct Dt). specialize (Cr Dr). unfold valid_clock in *. unfold instant in H.
  destruct (Z.le_gt_cases (year r) (year t + 1)) as [|Hgt]; [assumption|]. exfalso.
  assert (valid_date (year t + 1) 1 1) as H1 by (split; [lia | pose proof (days_in_month_range 1 (year t + 1)); lia]).
  assert (valid_date (year t + 1) 1 28) as H2 by (split; [lia | pose proof (days_in_month_range 1 (year t + 1)); lia]).
  pose proof (day_number_lt _ _ _ _ _ _ Ht H1 ltac:(left; lia)). pose proof (day_number_lt _ _ _ _ _ _ H2 Hr ltac:(left; lia)).
  assert (day_number (year t + 1) 1 28 = day_number (year t + 1) 1 1 + 27) by (unfold day_number; lia). lia.
Qed.

Lemma offset_bound l u : well_spaced l -> - 86400 <= fst (offset_at l u) <= 86400.
Proof.
  intros WS. destruct (in_force_cases l u) as [H | (n & c & H)].
  - rewrite (offset_before l u H). pose proof (spaced_offset _ WS) as Ho. destruct l; cbn; [lia|]. apply Forall_inv in Ho. lia.
  - rewrite (offset_in_force l u n c H). destruct H as [Hc _]. pose proof (proj1 (Forall_lookup _ _) (spaced_offset _ WS) n c Hc) as Ho.
    cbv beta in Ho. cbn. lia.
Qed.

(** A time is its instant, and the members that do not count for it. *)
Lemma same_time t r :
  normalized t -> normalized r -> icaltime_is_date t = false -> instant r = instant t -> is_date r = is_date t -> zone r = zone t ->
  r = set_is_daylight t (is_daylight r).
Proof.
  intros Ht Hr Hd Hi E1 E2. assert (icaltime_is_date r = false) as Hd' by (unfold icaltime_is_date in *; now rewrite E1).
  destruct (instant_inj r t Hr Ht Hd' Hd Hi) as (? & ? & ? & ? & ? & ?). unfold set_is_daylight. destruct r, t. cbn in *. congruence.
Qed.

(** ** Converting *)

(** From UTC: the offset in force is added. *)
Lemma from_utc fuel st i Y a l tt e :
  expanded st i Y a l -> l <> [] -> well_spaced l -> normalized tt -> icaltime_is_date tt = false -> year tt <= Y ->
  exists st', zones st' = zones st /\
    let o := offset_at l (instant tt) in
    convert_time fuel st tt ZONE_UTC (ZONE i) e =
      Some ((icaltime_adjust (set_is_daylight (icaltime_adjust tt 0 0 0 0) (snd o)) 0 0 0 (fst o), st'), e).
Proof.
  intros He Hne WS Ht Hd Hy. unfold convert_time. rewrite Hd. cbn [zone_eqb orb]. unfold bind, icaltimezone_get_utc_offset.
  cbn [zone_offset]. unfold ret. change (- 0) with 0.
  destruct (shifted tt 0 Hd) as (Hn & Hd' & Hi & Hf & Edate & Ez).
  set (r := icaltime_adjust tt 0 0 0 0) in *.
  assert (year r = year tt) as Ey by (rewrite same_time with (t := tt) (r := r) by (auto; lia); reflexivity).
  destruct (zone_offset_expanded fuel offset_of_utc_time st i Y a l r e He Hne ltac:(lia)) as (st' & Hz & Hlook).
  exists st'. split; [exact Hz|]. unfold icaltimezone_get_utc_offset_of_utc_time.
  rewrite (Hlook _ (utc_time_lookup a l (changes_represented _ _ _ _ _ He) Hne (spaced_normal _ WS) r (sorted_instants l WS) Hn Hd')).
  now replace (instant r) with (instant tt) by lia.
Qed.

(** To UTC: the offset found is taken off. *)
Lemma to_utc_time fuel st i Y a l tt e off fl :
  expanded st i Y a l -> l <> [] -> icaltime_is_date tt = false -> year tt <= Y ->
  offset_of_local_time a tt = Some (off, fl) ->
  exists st', zones st' = zones st /\
    convert_time fuel st tt (ZONE i) ZONE_UTC e =
      Some ((icaltime_adjust (set_is_daylight (icaltime_adjust tt 0 0 0 (- off)) 0) 0 0 0 0, st'), e).
Proof.
  intros He Hne Hd Hy Hlook. unfold convert_time. rewrite Hd. cbn [zone_eqb orb]. unfold bind, icaltimezone_get_utc_offset.
  destruct (zone_offset_expanded fuel offset_of_local_time st i Y a l tt e He Hne Hy) as (st' & Hz & H).
  exists st'. split; [exact Hz|]. rewrite (H _ Hlook). reflexivity.
Qed.

(** C17: [icaltimezone_get_utc_offset_of_utc_time] returns the offset and the
    daylight flag of the last change that is not after the time, and before all
    changes the offset the first one replaces, whatever index the bisection ends
    at: for every zone whose sorted changes reach the year of the time. *)
Theorem utc_offset_in_force fuel st i Y a l tt e :
  expanded st i Y a l -> l <> [] -> Forall normal_change l ->
  StronglySorted (fun x y => icaltimezone_compare_change_fn x y <= 0) l ->
  normalized tt -> icaltime_is_date tt = false -> year tt <= Y ->
  exists st', zones st' = zones st /\
    icaltimezone_get_utc_offset_of_utc_time fuel st (ZONE i) tt e =
      Some ((fst (offset_at l (instant tt)), snd (offset_at l (instant tt)), st'), e).
Proof.
  intros He Hne HN Hs Ht Hd Hy.
  destruct (zone_offset_expanded fuel offset_of_utc_time st i Y a l tt e He Hne Hy) as (st' & Hz & Hlook).
  exists st'. split; [exact Hz|]. unfold icaltimezone_get_utc_offset_of_utc_time. now rewrite (Hlook _ (utc_time_lookup a l (changes_represented _ _ _ _ _ He) Hne HN tt Hs Ht Hd)).
Qed.

(** C16: For a zone whose changes are expanded beyond the year of the time and follow
    each other ([well_spaced]: each one begins with the offset that the one before ends with
    and is over in local time when the next begins, offsets are at most a day, and clocks
    go back only where the daylight flag changes), converting a UTC date-time to the
    zone and back gives the time again, also in the hour that clocks going back show
    twice, where the daylight flag that the first conversion sets tells the two apart;
    only the flag of the result is cleared.  The time is not before a first change
    that goes back ([starts_forward]). *)
Theorem utc_zone_utc_roundtrip fuel st i Y a l tt e :
  expanded st i Y a l -> l <> [] -> well_spaced l -> starts_forward l (instant tt) ->
  normalized tt -> icaltime_is_date tt = false -> year tt < Y ->
  exists local st1 st2,
    convert_time fuel st tt ZONE_UTC (ZONE i) e = Some ((local, st1), e) /\
    instant local = instant tt + fst (offset_at l (instant tt)) /\
    convert_time fuel st1 local (ZONE i) ZONE_UTC e = Some ((set_is_daylight tt 0, st2), e).
Proof.
  intros He Hne WS Hfwd Ht Hd Hy. destruct (from_utc fuel st i Y a l tt e He Hne WS Ht Hd ltac:(lia)) as (st1 & Hz1 & E1).
  cbv zeta in E1. set (o := offset_at l (instant tt)) in *. pose proof (offset_bound l (instant tt) WS) as Hb. fold o in Hb.
  destruct (shifted tt 0 Hd) as (Hn0 & Hd0 & Hi0 & Hf0 & Ed0 & Ez0). set (t0 := icaltime_adjust tt 0 0 0 0) in *.
  destruct (shifted (set_is_daylight t0 (snd o)) (fst o) Hd0) as (Hn1 & Hd1 & Hi1 & Hf1 & Ed1 & Ez1).
  set (t1 := icaltime_adjust (set_is_daylight t0 (snd o)) 0 0 0 (fst o)) in *.
  change (instant (set_is_daylight t0 (snd o))) with (instant t0) in Hi1. assert (instant t1 = instant tt + fst o) as Hi by lia.
  assert (year t1 <= Y) as Hy1 by (pose proof (year_near tt t1 Ht Hn1 Hd Hd1 ltac:(lia)); lia).
  destruct (to_utc_time fuel st1 i Y a l t1 e (fst o) (snd o)) as (st2 & Hz2 & E2);
    [now apply (expanded_zones st) | exact Hne | exact Hd1 | exact Hy1 | |].
  { rewrite <- surjective_pairing. now apply (utc_offset_recovered a l (changes_represented _ _ _ _ _ He) Hne WS). }
  exists t1, st1, st2. split; [exact E1|]. split; [exact Hi|]. rewrite E2.
  destruct (shifted t1 (- fst o) Hd1) as (Hn2 & Hd2 & Hi2 & Hf2 & Ed2 & Ez2). set (t2 := icaltime_adjust t1 0 0 0 (- fst o)) in *.
  destruct (shifted (set_is_daylight t2 0) 0 Hd2) as (Hn3 & Hd3 & Hi3 & Hf3 & Ed3 & Ez3).
  change (instant (set_is_daylight t2 0)) with (instant t2) in Hi3.
  rewrite (same_time tt _ Ht Hn3 Hd ltac:(lia)); [now rewrite Hf3 | |];
    [rewrite Ed3; cbn; now rewrite Ed2, Ed1 | rewrite Ez3; cbn; now rewrite Ez2, Ez1].
Qed.

(** C18: a local time that exists, that is, one that the zone shows at some instant,
    is converted to an instant at which the zone shows it: converting to UTC and
    back gives the same time, with the daylight flag of the offset used. *)
Theorem zone_utc_zone_roundtrip fuel st i Y a l tt e u :
  expanded st i Y a l -> l <> [] -> well_spaced l -> u + fst (offset_at l u) = instant tt ->
  normalized tt -> icaltime_is_date tt = false -> year tt < Y ->
  exists utc st1 st2 fl,
    convert_time fuel st tt (ZONE i) ZONE_UTC e = Some ((utc, st1), e) /\
    convert_time fuel st1 utc ZONE_UTC (ZONE i) e = Some ((set_is_daylight tt fl, st2), e).
Proof.
  intros He Hne WS Hu Ht Hd Hy. pose proof (changes_represented _ _ _ _ _ He) as Hrep.
  destruct (local_offset_inverts a l Hrep Hne WS tt u Ht Hd Hu) as (off & fl & Hlook & Ho).
  destruct (to_utc_time fuel st i Y a l tt e off fl He Hne Hd ltac:(lia) Hlook) as (st1 & Hz1 & E1).
  pose proof (offset_bound l (instant tt - off) WS) as Hb. rewrite Ho in Hb. cbn [fst] in Hb.
  destruct (shifted tt (- off) Hd) as (Hn0 & Hd0 & Hi0 & Hf0 & Ed0 & Ez0). set (t0 := icaltime_adjust tt 0 0 0 (- off)) in *.
  destruct (shifted (set_is_daylight t0 0) 0 Hd0) as (Hn1 & Hd1 & Hi1 & Hf1 & Ed1 & Ez1).
  set (t1 := icaltime_adjust (set_is_daylight t0 0) 0 0 0 0) in *. change (instant (set_is_daylight t0 0)) with (instant t0) in Hi1.
  assert (year t1 <= Y) as Hy1 by (pose proof (year_near tt t1 Ht Hn1 Hd Hd1 ltac:(lia)); lia).
  destruct (from_utc fuel st1 i Y a l t1 e (expanded_zones _ _ _ _ _ _ Hz1 He) Hne WS Hn1 Hd1 Hy1) as (st2 & _ & E2).
  cbv zeta in E2. replace (instant t1) with (instant tt - off) in E2 by lia. rewrite Ho in E2. cbn [fst snd] in E2.
  destruct (shifted t1 0 Hd1) as (Hn2 & Hd2 & Hi2 & Hf2 & Ed2 & Ez2). set (t2 := icaltime_adjust t1 0 0 0 0) in *.
  destruct (shifted (set_is_daylight t2 fl) off Hd2) as (Hn3 & Hd3 & Hi3 & Hf3 & Ed3 & Ez3).
  change (instant (set_is_daylight t2 fl)) with (instant t2) in Hi3.
  exists t1, st1, st2, fl. split; [exact E1|]. rewrite E2.
  rewrite (same_time tt _ Ht Hn3 Hd ltac:(lia)); [now rewrite Hf3 | |].
  - rewrite Ed3. cbn [is_date set_is_daylight]. rewrite Ed2, Ed1. exact Ed0.
  - rewrite Ez3. cbn [zone set_is_daylight]. rewrite Ez2, Ez1. exact Ez0.
Qed.
End Convert.

(** ** Expansion *)

Section Expansion.
Context `{PROPS : PropertyTables} `{PARAMS : ParameterTables} `{FLOAT : FloatOps} `{TZ : TimezoneConv} {SYS : ZoneSystem}.

(** [n] changes at most are appended, each of which begins or ends at the given
    offsets. *)
Definition grown (n : nat) (a a' : icalarray icaltimezonechange) : Prop :=
  forall l, represents a l -> exists k, represents a' (l ++ k) /\ (length k <= n)%nat.

Lemma grown_refl n a : grown n a a.
Proof. intros l H. exists []. rewrite app_nil_r. split; [exact H | cbn; lia]. Qed.

Lemma grown_trans n m a b c : grown n a b -> grown m b c -> grown (n + m) a c.
Proof.
  intros H1 H2 l Hl. destruct (H1 l Hl) as (k1 & Hk1 & L1). destruct (H2 _ Hk1) as (k2 & Hk2 & L2).
  exists (k1 ++ k2). rewrite app_assoc, length_app. split; [exact Hk2 | lia].
Qed.

Lemma grown_le n m a b : (n <= m)%nat -> grown n a b -> grown m a b.
Proof. intros Hle H l Hl. destruct (H l Hl) as (k & Hk & L). exists k. split; [exact Hk | lia]. Qed.

Lemma append_grown a c : post (append_change a c) (grown 1 a).
Proof.
  unfold append_change. intros st x st' E. destruct (icalarray_append a c) as [b|] eqn:Ea; [|discriminate]. injection E as <- _.
  intros l Hl. destruct (append_represents a l c Hl) as (b' & Eb & Hb). rewrite Ea in Eb. injection Eb as <-. now exists [c].
Qed.

Lemma rrule_loop_grown fuel k : forall dtstart end_year change a i st r i' st',
  rrule_loop fuel k dtstart end_year change a i st = Some (r, i', st') -> grown k a r.
Proof.
  induction k as [|k IH]; intros ds ey ch a i st r i' st' E; [discriminate|]. cbn [rrule_loop] in E. unfold IcalRecurIter.ibind at 1 in E.
  destruct (IcalRecurIter.icalrecur_iterator_next fuel i st) as [[[occ j] s]|]; [|discriminate].
  destruct (icaltime_compare ds occ =? 0); [apply (grown_le k); [lia | exact (IH _ _ _ _ _ _ _ _ _ E)]|].
  destruct (_ || _); [injection E as <- _ _; apply grown_refl|]. unfold IcalRecurIter.ibind, IcalRecurIter.lift in E.
  destruct (append_change a _ s) as [[b s2]|] eqn:Ea; [|discriminate].
  apply (grown_trans 1 k a b); [exact (append_grown _ _ _ _ _ Ea) | exact (IH _ _ _ _ _ _ _ _ _ E)].
Qed.

Lemma expand_rrule_grown fuel rrule ds ey ch a : post (expand_rrule fuel rrule ds ey ch a) (grown (S fuel) a).
Proof.
  unfold expand_rrule. apply (post_bind _ _ _ _ (append_grown _ _)). intros b Hb. apply post_any. intros [i|].
  - intros st x st' E. destruct (rrule_loop _ _ _ _ _ _ _ _) as [[[r i'] s]|] eqn:El; [|discriminate]. injection E as <- _.
    apply (grown_trans 1 fuel a b r Hb). exact (rrule_loop_grown _ _ _ _ _ _ _ _ _ _ _ El).
  - apply post_ret. now apply (grown_le 1); [lia|].
Qed.

Lemma expand_properties_grown fuel ps : forall ds ey ch a,
  post (expand_properties fuel ps ds ey ch a) (grown (length ps * S fuel) a).
Proof.
  induction ps as [|p ps IH]; intros ds ey ch a; [apply post_ret, grown_refl|]. cbn [expand_properties length].
  apply (post_bind _ _ (grown (S fuel) a)).
  - destruct (_ =? _); [apply post_any; intros t st x st' E; apply (grown_le 1); [lia | exact (append_grown _ _ _ _ _ E)]|].
    destruct (_ =? _); [apply post_any; intros r; apply expand_rrule_grown | apply post_ret, grown_refl].
  - intros b Hb st x st' E. exact (grown_trans _ _ _ _ _ Hb (IH _ _ _ _ _ _ _ E)).
Qed.

(** The most changes that a component can yield. *)
Definition changes_of (fuel : nat) (c : icalcomponent) : nat := S (length (co_properties c) * S fuel).

Lemma expand_vtimezone_grown fuel c ey a :
  post (icaltimezone_expand_vtimezone fuel c ey a) (fun r => grown (changes_of fuel c) a (fst r)).
Proof.
  unfold icaltimezone_expand_vtimezone, changes_of. destruct (is_observance c); [|apply post_ret, grown_refl].
  apply post_any. intros o. destruct (ob_dtstart o); [|apply post_ret, grown_refl]. destruct (ob_tzoffsetto o); [|apply post_ret, grown_refl].
  destruct (match ob_tzoffsetfrom o with Some n => Some n | None => _ end); [|apply post_ret, grown_refl].
  apply (post_bind _ _ (grown 1 a)).
  - destruct (has_rrule o); [apply post_ret, grown_refl | apply append_grown].
  - intros b Hb. destruct (has_rdate o || has_rrule o); [|apply post_ret; apply (grown_le 1); [lia | exact Hb]].
    apply (post_bind _ _ _ _ (expand_properties_grown _ _ _ _ _ _)). intros d Hd. apply post_ret. exact (grown_trans 1 _ _ _ _ Hb Hd).
Qed.

Lemma expand_components_grown fuel cs : forall ey a,
  post (expand_components fuel cs ey a) (fun r => grown (sum_list_with (changes_of fuel) cs) a (fst r)).
Proof.
  induction cs as [|c cs IH]; intros ey a; [apply post_ret, grown_refl|]. cbn [expand_components sum_list_with].
  apply (post_bind _ _ _ _ (expand_vtimezone_grown _ _ _ _)). intros r Hr. apply (post_bind _ _ _ _ (IH _ _)). intros s Hs.
  apply post_ret. exact (grown_trans _ _ _ _ _ Hr Hs).
Qed.

(** The changes of a zone are in order. *)
Definition zone_ok (z : icaltimezone) : Prop :=
  forall a, changes z = Some a ->
  exists l, represents a l /\ StronglySorted (fun x y => icaltimezone_compare_change_fn x y <= 0) l.

Definition zone_size (fuel : nat) (z : icaltimezone) : nat :=
  match component z with Some c => sum_list_with (changes_of fuel) (co_components c) | None => 0 end.

Lemma expand_changes_ok fuel z ey : Z.of_nat (zone_size fuel z) < 2 ^ 35 ->
  post (icaltimezone_expand_changes fuel z ey) (fun z' => zone_ok z' /\ changes z' <> None /\ zone_end_year z' = ey).
Proof.
  intros Hsize. unfold icaltimezone_expand_changes.
  apply (post_bind _ _ (fun r => exists l, represents (fst r) l /\ (length l <= zone_size fuel z)%nat)).
  - pose proof (new_represents (A := icaltimezonechange) 36 32 ltac:(lia)) as Hnew. unfold zone_size.
    destruct (component z) as [c|].
    + apply (post_bind _ _ _ _ (expand_components_grown _ _ _ _)). intros r Hr. apply post_ret. cbn [fst].
      destruct (Hr [] Hnew) as (k & Hk & L). now exists k.
    + unfold badarg. apply post_any. intros _. apply post_ret. exists []. split; [exact Hnew | cbn; lia].
  - intros r (l & Hl & L). destruct (sort_represents (compare := icaltimezone_compare_change_fn) _ _ Hl ltac:(lia)) as (a & k & -> & Hk & _ & Hs).
    apply post_ret. cbn. split; [|split; [discriminate | reflexivity]]. intros b [= <-]. now exists k.
Qed.

(** [icaltimezone_ensure_coverage] of a loaded zone leaves it with an array of
    changes that is sorted, as the lookups need it, and that reaches the year asked
    for (2582 at most): it is built anew when it ended earlier and left alone
    otherwise.  The array has room for the sort's stack of segments whenever the
    rules are followed for fewer than 2^35 occurrences. *)
Theorem coverage_sorted fuel minimum z c y e m z' e' :
  component z = Some c -> zone_ok z -> Z.of_nat (zone_size fuel z) < 2 ^ 35 ->
  icaltimezone_ensure_coverage fuel minimum z y e = Some ((m, z'), e') ->
  zone_ok z' /\ changes z' <> None /\ Z.min y ICALTIMEZONE_MAX_YEAR <= zone_end_year z'.
Proof.
  intros Hc Hok Hsize E. unfold icaltimezone_ensure_coverage, icaltimezone_load_builtin_timezone in E. rewrite Hc in E. unfold bind, ret in E.
  set (m' := if minimum =? -1 then _ else _) in E. destruct (match changes z with None => true | Some _ => _ end) eqn:Et.
  - destruct (icaltimezone_expand_changes fuel z (covered_year m' y) e) as [[z1 e1]|] eqn:Ex; [|discriminate]. injection E as _ <- _.
    destruct (expand_changes_ok fuel z _ Hsize _ _ _ Ex) as (H1 & H2 & ->). split; [exact H1|]. split; [exact H2|].
    unfold covered_year, ICALTIMEZONE_EXTRA_COVERAGE, ICALTIMEZONE_MAX_YEAR. repeat case_if; lia.
  - injection E as _ <- _. destruct (changes z); [|discriminate]. split; [exact Hok|]. split; [discriminate | lia].
Qed.
End Expansion.

(** ** A zone from its text

    The rules of New York of 2007, from the text of the VTIMEZONE to the
    offsets; the same changes as an instance of the theorems on conversions. *)

#[local] Existing Instance text_floats.
#[local] Existing Instance utc_only.
(** A system without zone files, in 1970. *)
#[local] Instance no_files : ZoneSystem := {| now := 0; icaltzutil_fetch_timezone _ := ret None |}.

Definition new_york_text : cstring := text_of
  ["BEGIN:VTIMEZONE"; "TZID:America/New_York";
   "BEGIN:DAYLIGHT"; "DTSTART:20070311T020000"; "RRULE:FREQ=YEARLY;BYMONTH=3;BYDAY=2SU"; "TZOFFSETFROM:-0500";
   "TZOFFSETTO:-0400"; "TZNAME:EDT"; "END:DAYLIGHT";
   "BEGIN:STANDARD"; "DTSTART:20071104T020000"; "RRULE:FREQ=YEARLY;BYMONTH=11;BYDAY=1SU"; "TZOFFSETFROM:-0400";
   "TZOFFSETTO:-0500"; "TZNAME:EST"; "END:STANDARD";
   "END:VTIMEZONE"]%string.

(** The zone of a text, expanded. *)
Definition zone_of_text (text : cstring) (end_year : Z) : option icaltimezone :=
  option_map fst
    ((c <- icalparser_parse_string ICAL_TREAT_AS_ERROR 1 text ;;
      match c with
      | Some c =>
          r <- icaltimezone_get_vtimezone_properties c ;;
          icaltimezone_expand_changes 60 (take_properties (fst r) (snd r) icaltimezone_new) end_year
      | None => undefined
      end) (initial_error_state false)).

Definition to_daylight (y m d : Z) : icaltimezonechange := Change (-14400) (-18000) y m d 7 0 0 1.
Definition to_standard (y m d : Z) : icaltimezonechange := Change (-18000) (-14400) y m d 6 0 0 0.
Definition new_york : list icaltimezonechange :=
  [to_daylight 2007 3 11; to_standard 2007 11 4; to_daylight 2008 3 9; to_standard 2008 11 2; to_daylight 2009 3 8;
   to_standard 2009 11 1].

(** Parsing, the recurrence rules, the conversion to UTC and the sort. *)
Example new_york_changes :
  match zone_of_text new_york_text 2009 with
  | Some z => option_map elements (changes z) = Some new_york /\ tznames z = Some $"EST/EDT"
  | None => False
  end.
Proof. vm_compute. now split. Qed.

(** A DATE in RDATE takes its time from DTSTART but is not converted to UTC: the
    change is five hours early. *)
Example date_rdate_not_in_utc :
  match zone_of_text
          (text_of ["BEGIN:VTIMEZONE"; "TZID:X"; "BEGIN:STANDARD"; "DTSTART:20070311T020000"; "RDATE;VALUE=DATE:20080310";
                    "RDATE:20090310T020000"; "TZOFFSETFROM:-0500"; "TZOFFSETTO:-0600"; "END:STANDARD"; "END:VTIMEZONE"]%string) 2009
  with
  | Some z => option_map (map (fun c => (ch_year c, ch_hour c))) (option_map elements (changes z)) =
              Some [(2007, 7); (2008, 2); (2009, 7)]
  | None => False
  end.
Proof. vm_compute. reflexivity. Qed.

(** *** The changes as an array, and the state with the zone *)

Definition new_york_array : icalarray icaltimezonechange :=
  Icalarray 36 32 6 32 (Some [map Some new_york ++ repeat None 26]).

Lemma new_york_represented : represents new_york_array new_york.
Proof.
  split.
  - split; cbn; [lia | repeat constructor | reflexivity | lia].
  - reflexivity.
  - intros i Hi. cbn in Hi. do 6 (destruct i as [|i]; [reflexivity|]). lia.
Qed.

Definition new_york_component : icalcomponent :=
  Component 1 ICAL_VTIMEZONE_COMPONENT None [] NoElem [] NoElem None None true.

Definition new_york_zone : icaltimezone :=
  Timezone (Some $"America/New_York") None None (Some new_york_component) 2009 (Some new_york_array).

Definition new_york_state : tzstate := TzState (-1) [new_york_zone].

Lemma new_york_expanded : expanded new_york_state 0 2009 new_york_array new_york.
Proof.
  apply (Expanded _ _ _ _ _ new_york_zone); [reflexivity | discriminate | reflexivity | exact new_york_represented | cbn; lia].
Qed.

Lemma new_york_normal : Forall normal_change new_york.
Proof.
  repeat (constructor; [split; [split; vm_compute; split; discriminate | intros _; repeat split; vm_compute; congruence]|]).
  constructor.
Qed.

Lemma new_york_spaced : well_spaced new_york.
Proof.
  split.
  - exact new_york_normal.
  - repeat (constructor; [vm_compute; auto|]). constructor.
  - repeat (constructor; [cbn; lia|]). constructor.
  - intros i c d Hc Hd. do 6 (destruct i as [|i]; [injection Hc as <-; try discriminate Hd; injection Hd as <-; split; vm_compute; congruence|]).
    discriminate Hd.
Qed.

Lemma new_york_sorted : StronglySorted (fun x y => icaltimezone_compare_change_fn x y <= 0) new_york.
Proof. apply sorted_instants, new_york_spaced. Qed.

(** Half past five UTC on 4 November 2007 is half past one of daylight time, which
    the clocks show again an hour later. *)
Definition twice_shown : icaltimetype := IcalTime 2007 11 4 5 30 0 0 0 ZONE_UTC.
Definition shown : icaltimetype := IcalTime 2007 11 4 1 30 0 0 0 (ZONE 0).

Lemma shown_normal t : In t [twice_shown; shown] -> normalized t.
Proof.
  intros [<- | [<- | []]]; (split; [split; vm_compute; split; discriminate | intros _; repeat split; vm_compute; congruence]).
Qed.

Lemma utc_offset_in_force_witness :
  exists st', zones st' = zones new_york_state /\
    icaltimezone_get_utc_offset_of_utc_time 0 new_york_state (ZONE 0) twice_shown (initial_error_state false) =
      Some ((fst (offset_at new_york (instant twice_shown)), snd (offset_at new_york (instant twice_shown)), st'),
            initial_error_state false) /\ offset_at new_york (instant twice_shown) = (-14400, 1).
Proof.
  destruct (utc_offset_in_force 0 new_york_state 0 2009 new_york_array new_york twice_shown (initial_error_state false)
              new_york_expanded ltac:(discriminate) new_york_normal new_york_sorted (shown_normal _ (or_introl eq_refl)) eq_refl
              ltac:(cbn; lia)) as (st' & Hz & E).
  exists st'. split; [exact Hz|]. split; [exact E | vm_compute; reflexivity].
Defined.

Lemma utc_zone_utc_roundtrip_witness :
  exists local st1 st2,
    convert_time 0 new_york_state twice_shown ZONE_UTC (ZONE 0) (initial_error_state false) = Some ((local, st1), initial_error_state false) /\
    instant local = instant twice_shown + fst (offset_at new_york (instant twice_shown)) /\
    convert_time 0 st1 local (ZONE 0) ZONE_UTC (initial_error_state false)
      = Some ((set_is_daylight twice_shown 0, st2), initial_error_state false).
Proof.
  apply (utc_zone_utc_roundtrip 0 new_york_state 0 2009 new_york_array new_york twice_shown (initial_error_state false)
           new_york_expanded ltac:(discriminate) new_york_spaced).
  - left. cbn. lia.
  - exact (shown_normal _ (or_introl eq_refl)).
  - reflexivity.
  - cbn. lia.
Defined.

Lemma zone_utc_zone_roundtrip_witness :
  exists utc st1 st2 fl,
    convert_time 0 new_york_state shown (ZONE 0) ZONE_UTC (initial_error_state false) = Some ((utc, st1), initial_error_state false) /\
    convert_time 0 st1 utc ZONE_UTC (ZONE 0) (initial_error_state false) = Some ((set_is_daylight shown fl, st2), initial_error_state false).
Proof.
  apply (zone_utc_zone_roundtrip 0 new_york_state 0 2009 new_york_array new_york shown (initial_error_state false) (instant twice_shown)
           new_york_expanded ltac:(discriminate) new_york_spaced).
  - vm_compute. reflexivity.
  - exact (shown_normal _ (or_intror (or_introl eq_refl))).
  - reflexivity.
  - cbn. lia.
Defined.

Lemma coverage_sorted_witness :
  exists z' e', icaltimezone_ensure_coverage 3 1970 new_york_zone 2020 (initial_error_state false) = Some ((1970, z'), e') /\
    zone_ok z' /\ changes z' <> None /\ Z.min 2020 ICALTIMEZONE_MAX_YEAR <= zone_end_year z'.
Proof.
  destruct (icaltimezone_ensure_coverage 3 1970 new_york_zone 2020 (initial_error_state false)) as [[[m z'] e']|] eqn:E;
    [|vm_compute in E; discriminate].
  exists z', e'. split; [vm_compute in E |- *; now injection E as <- <- <-|].
  apply (coverage_sorted 3 1970 new_york_zone new_york_component 2020 (initial_error_state false) m z' e').
  - reflexivity.
  - intros a [= <-]. exists new_york. split; [exact new_york_represented | exact new_york_sorted].
  - vm_compute. reflexivity.
  - exact E.
Defined.
