(* ===== verification/IcalComponentZones.v ===== *)
(** * The time zones of a calendar (icalcomponent.c, icalproperty.c)

    A calendar keeps an array with an entry for each of its VTIMEZONEs, which
    [icalcomponent_get_timezone] sorts by name when it is needed and then searches
    by bisection.  A time with a TZID is resolved in the calendars around it and
    then among the builtin zones.  Merging two calendars moves the components of
    the second into the first.

    The array is given by its elements ([IcalArray] shows that an array is a
    list), and is sorted by the code of [QsortGen].  A pointer to an entry is the
    zone with the address of its component.  Read-only operations move the
    internal iterators of the components they look at; where nothing reads those
    afterwards the model does not return them. *)
From Stdlib Require Import String Ascii ZArith Lia Bool List.
From S2P Require Import Prelude CString IcalError IcalTime QsortGen IcalValueText IcalValue IcalLine IcalParameter IcalProperty IcalComponent.
Import ListNotations.
#[local] Open Scope Z_scope.
#[local] Open Scope cstring_scope.
#[local] Open Scope err_scope.

(** ** Sorting and searching *)

Definition icalcomponent_compare_timezone_fn (zone1 zone2 : zone_entry) : Z := strcmp (tz_tzid zone1) (tz_tzid zone2).

(** The elements of an array, for the sort. *)
Definition list_update {A} (i : nat) (x : A) (l : list A) : list A := firstn i l ++ x :: skipn (S i) l.

#[export] Instance zones_sortable : Sortable (list zone_entry) := {|
  compar l i j := match nth_error l i, nth_error l j with
                  | Some a, Some b => Some (icalcomponent_compare_timezone_fn a b)
                  | _, _ => None
                  end;
  swapr l i j := match nth_error l i, nth_error l j with
                 | Some a, Some b => Some (list_update j a (list_update i b l))
                 | _, _ => None
                 end
|}.

Definition sort_zones (l : list zone_entry) : option (list zone_entry) :=
  if Nat.leb (length l) 1 then Some l else qsort_gen l (length l).

(** The bisection; [None] is an access outside of the array. *)
Fixpoint zone_search (fuel : nat) (l : list zone_entry) (tzid : cstring) (lower upper : nat) : option (option zone_entry) :=
  match fuel with
  | O => None
  | S fuel =>
      if Nat.ltb lower upper then
        let middle := Nat.div2 (lower + upper) in
        match nth_error l middle with
        | Some zone =>
            let cmp := strcmp tzid (tz_tzid zone) in
            if cmp =? 0 then Some (Some zone)
            else if cmp <? 0 then zone_search fuel l tzid lower middle
            else zone_search fuel l tzid (S middle) upper
        | None => None
        end
      else Some None
  end.

(** ** Builtin zones *)

(** What the zones of the system are called; icaltz-util.c reads them. *)
Class BuiltinZones := {
  icaltimezone_get_builtin_timezone_from_tzid : cstring -> option icaltimezone_ptr;
  icaltimezone_get_builtin_timezone : cstring -> option icaltimezone_ptr
}.

Definition zone_pointer (e : zone_entry) : icaltimezone_ptr := ZONE (Pos.to_nat (tz_component e)).

Section Calendars.
Context `{PROPS : PropertyTables} `{PARAMS : ParameterTables} `{FLOAT : FloatOps} `{TZ : TimezoneConv}.

(** The entry, and the component with its array sorted. *)
Definition icalcomponent_get_timezone (c : icalcomponent) (tzid : cstring) : option (option zone_entry * icalcomponent) :=
  match timezones c with
  | None => Some (None, c)
  | Some l =>
      match (if timezones_sorted c then Some l else sort_zones l) with
      | None => None
      | Some l =>
          match zone_search (S (length l)) l tzid 0 (length l) with
          | None => None
          | Some r => Some (r, with_timezones (Some l) true c)
          end
      end
  end.

(** ** Times with a zone *)

(** [chain] is a component and the ones around it, from the inside out. *)
Fixpoint chain_timezone (chain : list icalcomponent) (tzid : cstring) : option (option zone_entry) :=
  match chain with
  | [] => Some None
  | c :: chain =>
      match icalcomponent_get_timezone c tzid with
      | None => None
      | Some (Some z, _) => Some (Some z)
      | Some (None, _) => chain_timezone chain tzid
      end
  end.

Context `{BUILTIN : BuiltinZones}.

Definition builtin_timezone (tzid : cstring) : option icaltimezone_ptr :=
  match icaltimezone_get_builtin_timezone_from_tzid tzid with
  | Some z => Some z
  | None => icaltimezone_get_builtin_timezone tzid
  end.

(** The generated accessor of the TZID parameter. *)
Definition icalparameter_get_tzid (q : icalparameter) : err (option cstring) := icalerror_clear_errno ;;; ret (pa_string q).

(** A TZID parameter without a text is not compared with anything: the model has
    no meaning for it. *)
Definition icalproperty_get_datetime_with_component (p : icalproperty) (chain : list icalcomponent) : err icaltimetype :=
  t <- get_datetimedate (pr_value p) ;;
  if icaltime_is_utc t then ret t
  else
    match fst (icalproperty_get_first_parameter ICAL_TZID_PARAMETER p) with
    | None => ret t
    | Some q =>
        tzid <- icalparameter_get_tzid q ;;
        match tzid with
        | None => undefined
        | Some tzid =>
            match chain_timezone chain tzid with
            | None => undefined
            | Some (Some e) => ret (icaltime_set_timezone t (zone_pointer e))
            | Some None =>
                match builtin_timezone tzid with
                | Some z => ret (icaltime_set_timezone t z)
                | None => ret t
                end
            end
        end
    end.

(** ** References to zones *)

Definition zoned_property (k : icalproperty_kind) : bool :=
  (k =? ICAL_DTSTART_PROPERTY) || (k =? ICAL_DTEND_PROPERTY) || (k =? ICAL_DUE_PROPERTY) || (k =? ICAL_EXDATE_PROPERTY)
  || (k =? ICAL_RDATE_PROPERTY).

(** The callback may change the parameter it is called with. *)
Section Foreach.
Context {A : Type} (callback : icalparameter -> A -> err (icalparameter * A)).

Definition tzid_of_property (p : icalproperty) (a : A) : err (icalproperty * A) :=
  if zoned_property (pr_kind p) then
    match search_from (parameter_matches ICAL_TZID_PARAMETER) (pr_parameters p) 0 with
    | None => ret (set_iterator NoElem p, a)
    | Some j =>
        match nth_error (pr_parameters p) j with
        | None => undefined
        | Some q =>
            r <- callback q a ;;
            ret (set_parameters (list_update j (fst r) (pr_parameters p)) (pr_count p) (AtElem j) p, snd r)
        end
    end
  else ret (p, a).

Fixpoint tzids_of_properties (ps : list icalproperty) (a : A) : err (list icalproperty * A) :=
  match ps with
  | [] => ret ([], a)
  | p :: ps =>
      r <- tzid_of_property p a ;;
      s <- tzids_of_properties ps (snd r) ;;
      ret (fst r :: fst s, snd s)
  end.

Fixpoint icalcomponent_foreach_tzid (c : icalcomponent) (a : A) : err (icalcomponent * A) :=
  r <- tzids_of_properties (co_properties c) a ;;
  s <- (fix foreach (cs : list icalcomponent) (a : A) : err (list icalcomponent * A) :=
          match cs with
          | [] => ret ([], a)
          | c :: cs =>
              r <- icalcomponent_foreach_tzid c a ;;
              s <- foreach cs (snd r) ;;
              ret (fst r :: fst s, snd s)
          end) (co_components c) (snd r) ;;
  ret (with_components (fst s) NoElem (with_properties (fst r) NoElem c), snd s).
End Foreach.

(** ** Merging *)

Definition is_digit (c : ascii) : bool := between 48 57 c.

(** The length without the digits at the end. *)
Fixpoint trailing_digits (reversed : cstring) : nat :=
  match reversed with
  | c :: r => if is_digit c then S (trailing_digits r) else O
  | [] => O
  end.

Definition icalcomponent_get_tzid_prefix_len (tzid : cstring) : nat := (length tzid - trailing_digits (rev tzid))%nat.

Definition first_property (kind : icalproperty_kind) (c : icalcomponent) : option icalproperty :=
  fst (icalcomponent_get_first_property kind c).

(** [icalproperty_set_tzid] of the first TZID. *)
Definition set_first_tzid (tzid : cstring) (c : icalcomponent) : err icalcomponent :=
  match search_from (property_matches ICAL_TZID_PROPERTY) (co_properties c) 0 with
  | None => undefined
  | Some j =>
      match nth_error (co_properties c) j with
      | None => undefined
      | Some p =>
          p <- icalproperty_set_value (Some (new_with ICAL_TEXT_VALUE (V_string tzid))) p ;;
          ret (with_properties (list_update j p (co_properties c)) (property_iterator c) c)
      end
  end.

Definition property_text (p : option icalproperty) : err (option cstring) :=
  match p with Some p => icalvalue_get_text (pr_value p) | None => ret None end.

(** 1 for equal, 0 for different and -1 for an error; in the last two errors the
    second TZID is not put back. *)
Definition icalcomponent_compare_vtimezones (vtimezone1 vtimezone2 : icalcomponent) : err (Z * icalcomponent) :=
  tzid1 <- property_text (first_property ICAL_TZID_PROPERTY vtimezone1) ;;
  match tzid1 with
  | None => ret (-1, vtimezone2)
  | Some tzid1 =>
      tzid2 <- property_text (first_property ICAL_TZID_PROPERTY vtimezone2) ;;
      match tzid2 with
      | None => ret (-1, vtimezone2)
      | Some tzid2 =>
          vtimezone2 <- set_first_tzid tzid1 vtimezone2 ;;
          r <- icalcomponent_as_ical_string_r vtimezone1 ;;
          match fst r with
          | None => ret (-1, vtimezone2)
          | Some string1 =>
              r <- icalcomponent_as_ical_string_r vtimezone2 ;;
              match fst r with
              | None => ret (-1, snd r)
              | Some string2 =>
                  vtimezone2 <- set_first_tzid tzid2 (snd r) ;;
                  ret (if strcmp string1 string2 =? 0 then 1 else 0, vtimezone2)
              end
          end
      end
  end.

(** The state of the merge: the calendar, and the other one. *)
Definition replace_component (c : icalcomponent) (cs : list icalcomponent) : list icalcomponent :=
  map (fun s => if is_component (co_addr c) s then c else s) cs.

(** [icalcomponent_merge_vtimezone].  Renaming ([icalcomponent_handle_
    conflicting_vtimezones]) puts the texts themselves into an array of pointers
    and frees addresses inside that array: it has no meaning. *)
Definition icalcomponent_merge_vtimezone (comp other vtimezone : icalcomponent) : err (icalcomponent * icalcomponent) :=
  tzid <- property_text (first_property ICAL_TZID_PROPERTY vtimezone) ;;
  match tzid with
  | None => ret (comp, other)
  | Some tzid =>
      match icalcomponent_get_timezone comp tzid with
      | None => undefined
      | Some (None, comp) =>
          match icalcomponent_remove_component vtimezone other with
          | (Some child, other) => r <- icalcomponent_add_component comp child ;; ret (fst r, other)
          | (None, _) => undefined
          end
      | Some (Some _, comp) =>
          if match tzid with c :: _ => Ascii.eqb c "/" | [] => false end then ret (comp, other)
          else
            r <- icalcomponent_compare_vtimezones comp vtimezone ;;
            if fst r =? 0 then undefined
            else ret (comp, with_components (replace_component (snd r) (co_components other)) (component_iterator other) other)
      end
  end.

Fixpoint merge_vtimezones (vtimezones : list icalcomponent) (comp other : icalcomponent) : err (icalcomponent * icalcomponent) :=
  match vtimezones with
  | [] => ret (comp, other)
  | v :: vtimezones => r <- icalcomponent_merge_vtimezone comp other v ;; merge_vtimezones vtimezones (fst r) (snd r)
  end.

(** The loop that moves the other components. *)
Fixpoint move_components (cs : list icalcomponent) (comp other : icalcomponent) : err (icalcomponent * icalcomponent) :=
  match cs with
  | [] => ret (comp, other)
  | c :: cs =>
      if ckind_eqb (co_kind c) ICAL_VTIMEZONE_COMPONENT then move_components cs comp other
      else match icalcomponent_remove_component c other with
           | (Some child, other) => r <- icalcomponent_add_component comp child ;; move_components cs (fst r) other
           | (None, _) => undefined
           end
  end.

(** A failed [assert] ends the process.  The second calendar is freed. *)
Definition icalcomponent_merge_component (comp comp_to_merge : icalcomponent) : err icalcomponent :=
  if ckind_eqb (co_kind comp) ICAL_VCALENDAR_COMPONENT && ckind_eqb (co_kind comp_to_merge) ICAL_VCALENDAR_COMPONENT then
    r <- merge_vtimezones (filter (component_matches ICAL_VTIMEZONE_COMPONENT) (co_components comp_to_merge)) comp comp_to_merge ;;
    r <- move_components (co_components (snd r)) (fst r) (snd r) ;;
    ret (fst r)
  else undefined.
End Calendars.
