(* ===== verification/IcalCalendarZones.v ===== *)
(** * Finding zones and merging calendars

    The search of a calendar's time zones by name finds an entry whenever there
    is one, and merging calendars whose zones agree keeps what both say. *)
From Stdlib Require Import String Ascii ZArith Lia Bool List Sorting.Sorted Permutation.
From stdpp Require Import base option list.
From S2P Require Import Prelude CString IcalError IcalTime IcalTimeCalendar QsortGen IcalValueText IcalValue IcalValueSafe IcalLine IcalParameter IcalProperty IcalComponent IcalParserSafe IcalComponentZones.
#[local] Open Scope Z_scope.

(** ** The order of names *)

Lemma strcmp_refl a : strcmp a a = 0.
Proof. pose proof (strcmp_flip a a). lia. Qed.

(** [strcmp] is a total preorder, also on texts that contain a NUL. *)
Lemma strcmp_trans a b c : strcmp a b <= 0 -> strcmp b c <= 0 -> strcmp a c <= 0.
Proof.
  revert b c. induction a as [|x a IH]; intros [|y b] [|z c]; cbn [strcmp]; try (pose proof (code_nonneg z)); try lia;
    pose proof (code_nonneg x); try (pose proof (code_nonneg y)); repeat case_if; try lia.
  apply IH.
Qed.

#[export] Instance zones_comparison : Comparison icalcomponent_compare_timezone_fn.
Proof.
  split; unfold icalcomponent_compare_timezone_fn.
  - intros a b. rewrite (strcmp_flip (tz_tzid a) (tz_tzid b)). lia.
  - intros a b c. apply strcmp_trans.
Qed.

Lemma nth_lookup {A} (l : list A) i : nth_error l i = l !! i.
Proof. revert i. induction l as [|x l IH]; intros [|i]; cbn; auto. Qed.

Lemma list_update_insert {A} i (x : A) l : (i < length l)%nat -> list_update i x l = <[i := x]> l.
Proof. intros H. symmetry. now apply insert_take_drop. Qed.

#[export] Instance zones_laws : SortableLaws zones_sortable icalcomponent_compare_timezone_fn (fun l => l).
Proof.
  split.
  - intros l i j a b Ha Hb. cbn [compar zones_sortable]. now rewrite !nth_lookup, Ha, Hb.
  - intros l i j Hi Hj. cbn [swapr zones_sortable]. rewrite !nth_lookup. unfold swap.
    destruct (lookup_lt_is_Some_2 l i Hi) as [a Ha]. destruct (lookup_lt_is_Some_2 l j Hj) as [b Hb]. rewrite Ha, Hb.
    eexists. split; [reflexivity|].
    rewrite (list_update_insert i b l Hi), list_update_insert by now rewrite length_insert.
    destruct (decide (i = j)) as [->|Hne]; [congruence | now apply list_insert_insert_ne].
Qed.

(** ** The search *)

Definition zones_in_order : list zone_entry -> Prop := StronglySorted (fun a b => icalcomponent_compare_timezone_fn a b <= 0).

Lemma sort_zones_spec l : Z.of_nat (length l) < 2 ^ 35 ->
  exists l', sort_zones l = Some l' /\ l' ≡ₚ l /\ zones_in_order l'.
Proof.
  intros Hn. unfold sort_zones. destruct (Nat.leb_spec (length l) 1) as [Hs|Hl].
  - exists l. split; [reflexivity|]. split; [reflexivity|]. destruct l as [|x [|]]; [constructor | repeat constructor | cbn in Hs; lia].
  - now apply (qsort_gen_spec (ops := zones_sortable) (view := fun l => l)).
Qed.

Section Search.
Context (l : list zone_entry) (tzid : cstring) (SORTED : zones_in_order l).

Lemma ordered i j a b : (i < j)%nat -> l !! i = Some a -> l !! j = Some b -> strcmp (tz_tzid a) (tz_tzid b) <= 0.
Proof.
  revert i j. induction SORTED as [|x l' _ IH Hx]; intros i j Hij Ha Hb; [discriminate|].
  destruct j as [|j]; [lia|]. destruct i as [|i].
  - injection Ha as ->. exact (proj1 (Forall_lookup _ _) Hx j b Hb).
  - apply (IH ltac:(now inversion SORTED) i j); [lia | exact Ha | exact Hb].
Qed.

(** The entry is between the bounds, if it is anywhere. *)
Definition bounded (lower upper : nat) : Prop :=
  forall k z, l !! k = Some z -> strcmp tzid (tz_tzid z) = 0 -> (lower <= k < upper)%nat.

Lemma zone_search_spec fuel : forall lower upper, (lower <= upper <= length l)%nat -> (upper - lower < fuel)%nat -> bounded lower upper ->
  exists r, zone_search fuel l tzid lower upper = Some r /\
    match r with
    | Some z => z ∈ l /\ strcmp tzid (tz_tzid z) = 0
    | None => Forall (fun z => strcmp tzid (tz_tzid z) <> 0) l
    end.
Proof.
  induction fuel as [|fuel IH]; intros lower upper Hr Hf Hb; [lia|]. cbn [zone_search].
  destruct (Nat.ltb_spec lower upper) as [Hlt|Hge].
  - rewrite Nat.div2_div. pose proof (Nat.div_mod (lower + upper) 2 ltac:(lia)). pose proof (Nat.mod_upper_bound (lower + upper) 2 ltac:(lia)).
    set (m := Nat.div (lower + upper) 2) in *. rewrite nth_lookup. destruct (lookup_lt_is_Some_2 l m ltac:(lia)) as [z Hz]. rewrite Hz.
    destruct (Z.eqb_spec (strcmp tzid (tz_tzid z)) 0) as [E|Hne].
    { exists (Some z). split; [reflexivity|]. split; [eapply list_elem_of_lookup_2; exact Hz | exact E]. }
    destruct (Z.ltb_spec (strcmp tzid (tz_tzid z)) 0) as [Hlo|Hhi]; apply IH; try lia; intros k y Hk Ey; specialize (Hb k y Hk Ey).
    + destruct (Nat.lt_trichotomy k m) as [|[->|Hgt]]; [lia | congruence|]. exfalso.
      pose proof (ordered m k z y Hgt Hz Hk) as Ho. pose proof (strcmp_flip tzid (tz_tzid y)).
      pose proof (strcmp_trans (tz_tzid z) (tz_tzid y) tzid Ho ltac:(lia)). pose proof (strcmp_flip tzid (tz_tzid z)). lia.
    + destruct (Nat.lt_trichotomy k m) as [Hlt2|[->|]]; [|congruence | lia]. exfalso.
      pose proof (ordered k m y z Hlt2 Hk Hz) as Ho. pose proof (strcmp_trans tzid (tz_tzid y) (tz_tzid z) ltac:(lia) Ho). lia.
  - exists None. split; [reflexivity|]. apply Forall_lookup. intros k z Hz E. specialize (Hb k z Hz E). lia.
Qed.
End Search.

(** ** Calendars *)

Section Calendars.
Context `{PROPS : PropertyTables} `{PARAMS : ParameterTables} `{FLOAT : FloatOps} `{TZ : TimezoneConv}.

(** The flag says so only of arrays in order; the array fits in memory. *)
Definition zones_ok (c : icalcomponent) : Prop :=
  forall l, timezones c = Some l -> Z.of_nat (length l) < 2 ^ 35 /\ (timezones_sorted c = true -> zones_in_order l).

Definition zones_of (c : icalcomponent) : list zone_entry := default [] (timezones c).

Lemma get_timezone_spec c tzid : zones_ok c ->
  exists r c', icalcomponent_get_timezone c tzid = Some (r, c') /\ zones_ok c' /\ zones_of c' ≡ₚ zones_of c /\
    (exists tz so, c' = with_timezones tz so c) /\
    match r with
    | Some z => z ∈ zones_of c /\ strcmp tzid (tz_tzid z) = 0
    | None => Forall (fun z => strcmp tzid (tz_tzid z) <> 0) (zones_of c)
    end.
Proof.
  intros Hok. unfold icalcomponent_get_timezone. destruct (timezones c) as [l|] eqn:El.
  - destruct (Hok l El) as [Hn Hs].
    assert (exists l', (if timezones_sorted c then Some l else sort_zones l) = Some l' /\ l' ≡ₚ l /\ zones_in_order l') as (l' & -> & Hp & Ho).
    { destruct (timezones_sorted c); [exists l; auto | now apply sort_zones_spec]. }
    destruct (zone_search_spec l' tzid Ho (S (length l')) 0 (length l')) as (r & -> & Hr); [lia | lia | |].
    { intros k z Hz _. apply lookup_lt_Some in Hz. lia. }
    exists r, (with_timezones (Some l') true c). split; [reflexivity|]. split; [|split; [|split; [now eexists _, _|]]].
    + intros l2 [= <-]. split; [now rewrite Hp | intros _; exact Ho].
    + unfold zones_of. cbn. now rewrite El.
    + unfold zones_of. rewrite El. cbn [default]. destruct r as [z|]; [now rewrite <- Hp | now rewrite <- Hp].
  - exists None, c. split; [reflexivity|]. split; [exact Hok|]. split; [reflexivity|]. split; [|unfold zones_of; rewrite El; constructor].
    exists None, (timezones_sorted c). destruct c. cbn in *. now subst.
Qed.

(** ** Names *)

Definition text_of_value (v : option icalvalue) : option cstring :=
  match v with Some v => match v_data v with V_string s => Some s | _ => None end | None => None end.

(** The name of a VTIMEZONE. *)
Definition tzid_text (c : icalcomponent) : option cstring :=
  match first_property ICAL_TZID_PROPERTY c with Some p => text_of_value (pr_value p) | None => None end.

Lemma get_text_is v : post (icalvalue_get_text v) (fun r => r = text_of_value v).
Proof.
  unfold icalvalue_get_text. destruct v as [v|]; [|apply post_any; intros _; now apply post_ret].
  cbn [text_of_value]. destruct (v_data v); try (now apply post_ret); intros st x st' E; discriminate E.
Qed.

Lemma property_text_is c : post (property_text (first_property ICAL_TZID_PROPERTY c)) (fun r => r = tzid_text c).
Proof. unfold property_text, tzid_text. destruct (first_property _ c); [apply get_text_is | now apply post_ret]. Qed.

Lemma tzid_property c p : good_component c -> first_property ICAL_TZID_PROPERTY c = Some p ->
  good_property p /\ text_property (pr_kind p) = true.
Proof.
  intros [Hp _]%good_inv E. pose proof (first_property_spec ICAL_TZID_PROPERTY c) as H. unfold first_property in E.
  destruct (icalcomponent_get_first_property ICAL_TZID_PROPERTY c) as [q d]. cbn in E. subst q. destruct H as (_ & Hin & Hm & _).
  split; [exact (proj1 (List.Forall_forall _ _) Hp p Hin)|]. unfold property_matches in Hm.
  change (ICAL_TZID_PROPERTY =? ICAL_ANY_PROPERTY) with false in Hm. rewrite orb_false_r in Hm. unfold text_property. now rewrite Hm.
Qed.

Lemma runs_property_text c : good_component c ->
  runs (property_text (first_property ICAL_TZID_PROPERTY c)) (fun r => r = tzid_text c).
Proof.
  intros Hc. eapply runs_weaken; [apply (runs_post _ any (fun r => r = tzid_text c))|]; [| apply property_text_is | now intros r [_ H]].
  destruct (first_property ICAL_TZID_PROPERTY c) as [p|] eqn:E; [|apply runs_ret; exact I].
  destruct (tzid_property c p Hc E). now apply runs_get_text.
Qed.

(** The entry that is made for a VTIMEZONE has its name. *)
Lemma vtimezone_entry c : post (icaltimezone_get_vtimezone_properties c) (fun r => option_map tz_tzid (fst r) = tzid_text c).
Proof.
  unfold icaltimezone_get_vtimezone_properties, tzid_text, first_property.
  destruct (icalcomponent_get_first_property ICAL_TZID_PROPERTY c) as [[p|] d]; [|now apply post_ret]. cbn [fst].
  eapply post_bind; [apply get_text_is|]. intros t ->. destruct (text_of_value (pr_value p)) as [t|]; [|now apply post_ret].
  apply post_any. intros [loc d2]. apply post_any. intros [ns d3]. now apply post_ret.
Qed.

Lemma tzid_set_parent a c : tzid_text (icalcomponent_set_parent a c) = tzid_text c.
Proof. unfold tzid_text, first_property, icalcomponent_get_first_property. destruct c. cbn. now destruct (iterate _ _ _). Qed.

Definition is_zone (c : icalcomponent) : bool := ckind_eqb (co_kind c) ICAL_VTIMEZONE_COMPONENT.

(** What adding a component does to the array. *)
Definition zones_after (parent child new : icalcomponent) : Prop :=
  if is_zone child then
    timezones_sorted new = false /\
    exists es, timezones new = Some (zones_of parent ++ es) /\ map tz_tzid es = match tzid_text child with Some t => [t] | None => [] end
  else timezones new = timezones parent /\ timezones_sorted new = timezones_sorted parent.

Lemma add_component_zones parent child :
  post (icalcomponent_add_component parent child) (fun r => zones_after parent child (fst r)).
Proof.
  unfold icalcomponent_add_component, zones_after. apply post_any. intros _. cbv zeta.
  assert (co_kind (icalcomponent_set_parent (Some (co_addr parent)) child) = co_kind child) as -> by now destruct child.
  unfold is_zone. destruct (ckind_eqb _ _); cbn [negb]; [|apply post_ret; now destruct parent].
  unfold icaltimezone_array_append_from_vtimezone.
  eapply post_bind with (P := fun r => exists es, fst r = zones_of parent ++ es /\ map tz_tzid es = match tzid_text child with Some t => [t] | None => [] end).
  - eapply post_bind; [apply vtimezone_entry|]. intros [z d] Ez. apply post_ret. cbn [fst] in *. rewrite tzid_set_parent in Ez.
    rewrite <- Ez. destruct z as [z|]; [now exists [z] | exists []; now rewrite app_nil_r].
  - intros [tz d] Htz. apply post_ret. cbn in *. split; [reflexivity|]. destruct Htz as (es & -> & H). now exists es.
Qed.

(** ** Merging *)

(** The VTIMEZONEs of the other calendar that are new: those with a name that is
    not known yet. *)
Fixpoint new_zones (known : cstring -> bool) (vs : list icalcomponent) : list icalcomponent :=
  match vs with
  | [] => []
  | v :: vs =>
      match tzid_text v with
      | None => new_zones known vs
      | Some t => if known t then new_zones known vs else v :: new_zones (fun n => known n || (strcmp n t =? 0)) vs
      end
  end.

Definition has_zone (c : icalcomponent) (n : cstring) : bool := existsb (fun z => strcmp n (tz_tzid z) =? 0) (zones_of c).

Lemma new_zones_ext f g vs : (forall n, f n = g n) -> new_zones f vs = new_zones g vs.
Proof.
  revert f g. induction vs as [|v vs IH]; intros f g H; [reflexivity|]. cbn [new_zones]. destruct (tzid_text v) as [t|]; [|now apply IH].
  rewrite H. destruct (g t); [now apply IH|]. f_equal. apply IH. intros n. now rewrite H.
Qed.

Lemma has_zone_perm c d n : zones_of c ≡ₚ zones_of d -> has_zone c n = has_zone d n.
Proof.
  intros H. apply eq_true_iff_eq. unfold has_zone. rewrite !existsb_exists.
  split; intros (z & Hz & E); exists z; (split; [|exact E]); [now rewrite <- H | now rewrite H].
Qed.

Lemma strcmp_equal a b c : strcmp a b = 0 -> strcmp b c = 0 -> strcmp a c = 0.
Proof.
  intros H1 H2. pose proof (strcmp_trans a b c ltac:(lia) ltac:(lia)). pose proof (strcmp_flip a b). pose proof (strcmp_flip b c).
  pose proof (strcmp_trans c b a ltac:(lia) ltac:(lia)). pose proof (strcmp_flip c a). lia.
Qed.

Lemma has_zone_equal c n t : strcmp n t = 0 -> has_zone c t = true -> has_zone c n = true.
Proof.
  intros E0 (z & Hz & E)%existsb_exists. apply existsb_exists. exists z. split; [exact Hz|].
  rewrite (strcmp_equal n t (tz_tzid z)); [reflexivity | exact E0 | lia].
Qed.

Lemma find_by_address (cs : list icalcomponent) c :
  NoDup (map co_addr cs) -> In c cs ->
  exists j, search_from (is_component (co_addr c)) cs 0 = Some j /\ remove_nth j cs = List.filter (fun s => negb (is_component (co_addr c) s)) cs.
Proof.
  intros Hd Hin.
  assert (forall i, exists j, search_from (is_component (co_addr c)) cs i = Some (i + j)%nat /\
            remove_nth j cs = List.filter (fun s => negb (is_component (co_addr c) s)) cs) as H; [|exact (H 0%nat)].
  induction cs as [|d cs IH]; intros i; [destruct Hin|]. inversion_clear Hd as [|? ? Hnot Hd']. cbn. unfold is_component at 1 3.
  destruct (Pos.eqb_spec (co_addr d) (co_addr c)) as [E|Hne].
  - exists 0%nat. rewrite Nat.add_0_r. split; [reflexivity|]. cbn [negb]. clear IH Hin Hd'.
    assert (forall x, In x cs -> co_addr x <> co_addr c) as Hall.
    { intros x Hx Ex. apply Hnot. rewrite list_elem_of_In. rewrite E, <- Ex. now apply in_map. }
    clear -Hall. induction cs as [|x cs IH]; [reflexivity|]. cbn. unfold is_component at 1.
    destruct (Pos.eqb_spec (co_addr x) (co_addr c)) as [E|]; [destruct (Hall x (or_introl eq_refl) E)|]. cbn [negb]. f_equal. apply IH.
    intros y Hy. apply Hall. now right.
  - destruct Hin as [->|Hin]; [congruence|]. destruct (IH Hd' Hin (S i)) as (j & Ej & Er). exists (S j).
    split; [rewrite Ej; f_equal; lia|]. cbn [negb]. now rewrite <- Er.
Qed.

(** The calendar that is emptied. *)
Record donor (c : icalcomponent) : Prop := Donor {
  donor_good : good_component c;
  donor_addrs : NoDup (map co_addr (co_components c))
}.

Definition without (c : icalcomponent) (cs : list icalcomponent) := List.filter (fun s => negb (is_component (co_addr c) s)) cs.

Lemma remove_child_spec c other : donor other -> In c (co_components other) ->
  exists other', icalcomponent_remove_component c other = (Some (icalcomponent_set_parent None c), other') /\
    co_components other' = without c (co_components other) /\ donor other'.
Proof.
  intros [Hg Hd] Hin. unfold icalcomponent_remove_component.
  set (o := if ckind_eqb (co_kind c) ICAL_VTIMEZONE_COMPONENT then _ else other).
  assert (co_components o = co_components other) as Eo by (subst o; destruct (ckind_eqb _ _); now destruct other).
  rewrite Eo. destruct (find_by_address (co_components other) c Hd Hin) as (j & -> & Er). eexists. split; [reflexivity|].
  cbn [co_components with_components]. rewrite Er. split; [reflexivity|]. split.
  - apply good_inv in Hg as [Hp Hc]. constructor.
    + cbn. subst o. destruct (ckind_eqb _ _); now destruct other.
    + cbn [co_components with_components]. rewrite List.Forall_forall in *. intros x [Hx _]%filter_In. now apply Hc.
  - cbn [co_components with_components]. clear -Hd. induction (co_components other) as [|x cs IH]; [constructor|].
    inversion_clear Hd as [|? ? Hn Hd']. cbn. destruct (negb _); [|now apply IH]. constructor; [|now apply IH].
    rewrite list_elem_of_In in *. intros Hx. apply Hn. apply in_map_iff in Hx as (y & Ey & [Hy _]%filter_In). rewrite <- Ey. now apply in_map.
Qed.

Lemma without_other_kind c cs : is_zone c = true -> NoDup (map co_addr cs) -> In c cs ->
  List.filter (fun s => negb (is_zone s)) (without c cs) = List.filter (fun s => negb (is_zone s)) cs.
Proof.
  intros Hz Hd Hin. unfold without. induction cs as [|x cs IH]; [destruct Hin|]. inversion_clear Hd as [|? ? Hn Hd']. cbn.
  unfold is_component at 1. destruct (Pos.eqb_spec (co_addr x) (co_addr c)) as [E|Hne]; cbn [negb].
  - assert (x = c) as -> by (destruct Hin as [->|Hin]; [reflexivity | exfalso; apply Hn; rewrite list_elem_of_In, E; now apply in_map]).
    rewrite Hz. cbn [negb]. clear -Hn. induction cs as [|y cs IH]; [reflexivity|]. cbn. unfold is_component at 1. rewrite list_elem_of_In in *. cbn in Hn.
    destruct (Pos.eqb_spec (co_addr y) (co_addr c)) as [E|]; [exfalso; apply Hn; now left|]. cbn [negb List.filter]. rewrite IH; [reflexivity|].
    intros H. apply Hn. now right.
  - destruct Hin as [->|Hin]; [congruence|]. cbn. rewrite (IH Hd' Hin). reflexivity.
Qed.

(** The calendar that grows; a calendar has no TZID of its own. *)
Record host (room : nat) (c : icalcomponent) : Prop := Host {
  host_good : good_component c;
  host_room : Z.of_nat (length (zones_of c) + room) < 2 ^ 35;
  host_sorted : timezones_sorted c = true -> zones_in_order (zones_of c);
  host_no_tzid : first_property ICAL_TZID_PROPERTY c = None
}.

Lemma host_zones room c : host room c -> zones_ok c.
Proof.
  intros [_ Hr Hs _] l El. unfold zones_of in *. rewrite El in *. change (default [] (Some l)) with l in *.
  split; [lia | exact Hs].
Qed.

Lemma first_property_same kind c d : co_properties d = co_properties c -> first_property kind d = first_property kind c.
Proof.
  unfold first_property, icalcomponent_get_first_property. intros ->. now destruct (iterate _ _ _).
Qed.

(** Looking a zone up changes nothing but the order of the array. *)
Definition same_content (c d : icalcomponent) : Prop :=
  co_components d = co_components c /\ co_kind d = co_kind c /\ co_addr d = co_addr c /\ zones_of d ≡ₚ zones_of c.

Lemma host_lookup room c tzid : host room c ->
  exists r c', icalcomponent_get_timezone c tzid = Some (r, c') /\ host room c' /\ same_content c c' /\
    (match r with Some _ => true | None => false end) = has_zone c tzid.
Proof.
  intros Hh. destruct (get_timezone_spec c tzid (host_zones room c Hh)) as (r & c' & E & Hok & Hp & (tz & so & ->) & Hr).
  exists r, (with_timezones tz so c). split; [exact E|]. destruct Hh as [Hg Hroom Hs Ht]. split; [split|split].
  - revert Hg. now apply good_same.
  - now rewrite Hp.
  - cbn [timezones_sorted with_timezones]. intros ->. unfold zones_of. cbn [timezones with_timezones].
    destruct tz as [l|]; [|constructor]. now apply (Hok l).
  - rewrite <- Ht. now apply first_property_same.
  - repeat split. exact Hp.
  - unfold has_zone. destruct r as [z|].
    + symmetry. apply existsb_exists. destruct Hr as [Hin E0]. exists z. rewrite <- list_elem_of_In. split; [exact Hin | lia].
    + symmetry. apply not_true_iff_false. rewrite existsb_exists. intros (z & Hz & Ez). rewrite <- list_elem_of_In in Hz.
      pose proof (proj1 (Forall_forall _ _) Hr z Hz) as Hne. cbv beta in Hne. lia.
Qed.

Lemma replace_same_component v cs : NoDup (map co_addr cs) -> In v cs -> replace_component v cs = cs.
Proof.
  intros Hd Hin. unfold replace_component. rewrite <- (map_id cs) at 2. apply map_ext_in. intros x Hx. unfold is_component.
  destruct (Pos.eqb_spec (co_addr x) (co_addr v)) as [E|]; [|reflexivity].
  clear -Hd Hin Hx E. induction cs as [|y cs IH]; [destruct Hin|]. inversion_clear Hd as [|? ? Hn Hd']. rewrite list_elem_of_In in Hn.
  destruct Hin as [->|Hin], Hx as [->|Hx]; auto.
  - exfalso. apply Hn. rewrite <- E. now apply in_map.
  - exfalso. apply Hn. rewrite E. now apply in_map.
Qed.

(** One VTIMEZONE of the other calendar. *)
Definition moved (known : bool) (v comp other comp' other' : icalcomponent) : Prop :=
  if known then co_components comp' = co_components comp /\ co_components other' = co_components other
  else map erase (co_components comp') = erase v :: map erase (co_components comp) /\ co_components other' = without v (co_components other).

Lemma merge_step room comp other v :
  host (S room) comp -> donor other -> In v (co_components other) -> is_zone v = true -> co_kind comp = ICAL_VCALENDAR_COMPONENT ->
  runs (icalcomponent_merge_vtimezone comp other v) (fun r =>
    host room (fst r) /\ donor (snd r) /\ co_kind (fst r) = ICAL_VCALENDAR_COMPONENT /\
    moved (match tzid_text v with Some t => has_zone comp t | None => true end) v comp other (fst r) (snd r) /\
    (forall n, has_zone (fst r) n = has_zone comp n || match tzid_text v with Some t => strcmp n t =? 0 | None => false end)).
Proof.
  intros Hh Hd Hin Hz Hk. unfold icalcomponent_merge_vtimezone.
  assert (good_component v) as Hv by (apply donor_good, good_inv in Hd as [_ Hc]; exact (proj1 (List.Forall_forall _ _) Hc v Hin)).
  eapply runs_bind; [now apply runs_property_text|]. intros t ->.
  assert (host room comp) as Hh' by (destruct Hh as [? ? ? ?]; split; [assumption | lia | assumption | assumption]).
  destruct (tzid_text v) as [t|] eqn:Et;
    [|apply runs_ret; cbn [fst snd]; split; [exact Hh'|]; split; [exact Hd|]; split; [exact Hk|]; split; [now split | intros n; now rewrite orb_false_r]].
  destruct (host_lookup (S room) comp t Hh) as (r & c' & -> & Hh2 & (Ec & Ek & Ea & Ep) & Er). rewrite <- Er.
  destruct r as [z|].
  - assert (forall n, has_zone c' n = has_zone comp n || (strcmp n t =? 0)) as Hn.
    { intros n. rewrite (has_zone_perm c' comp n Ep). destruct (strcmp n t =? 0) eqn:E0; [|now rewrite orb_false_r].
      rewrite orb_true_r. apply (has_zone_equal comp n t); [lia | now symmetry]. }
    assert (host room c') as Hh3 by (destruct Hh2 as [? ? ? ?]; split; [assumption | lia | assumption | assumption]).
    destruct (match t with c :: _ => _ | [] => false end).
    + apply runs_ret. cbn [fst snd]. split; [exact Hh3|]. split; [exact Hd|]. split; [congruence|]. split; [now split | exact Hn].
    + unfold icalcomponent_compare_vtimezones. rewrite (host_no_tzid _ _ Hh2). cbn [property_text].
      apply runs_bind_ret. cbn [fst snd]. change (-1 =? 0) with false. apply runs_ret. cbn [fst snd].
      assert (replace_component v (co_components other) = co_components other) as -> by (apply replace_same_component; [apply Hd | exact Hin]).
      split; [exact Hh3|]. split; [|split; [congruence|]; split; [split; [congruence|]; now destruct other | exact Hn]].
      destruct Hd as [Hg Hnd]. split; [|exact Hnd]. revert Hg. apply good_same; now destruct other.
  - destruct (remove_child_spec v other Hd Hin) as (other' & -> & Eo & Hd'). eapply runs_bind.
    + apply runs_post with (Q := fun r => zones_after c' (icalcomponent_set_parent None v) (fst r)); [|apply add_component_zones].
      apply runs_add_child; [apply Hh2|]. revert Hv. now apply good_same; destruct v.
    + intros r [[[Hg (ch & Ech & Epl) Epr _ Eaddr Ekind _ _] _] Hz2]. apply runs_ret. cbn [fst snd].
      assert (is_zone (icalcomponent_set_parent None v) = true) as Hz' by now destruct v.
      unfold zones_after in Hz2. rewrite Hz', tzid_set_parent, Et in Hz2. destruct Hz2 as [Hso (es & Htz & Hes)].
      destruct es as [|e [|]]; try discriminate. injection Hes as Hes.
      assert (zones_of (fst r) = zones_of c' ++ [e]) as Hzs by (unfold zones_of at 1; now rewrite Htz).
      split; [split|].
      * exact Hg.
      * rewrite Hzs, length_app. cbn [length]. pose proof (host_room _ _ Hh2). rewrite Nat2Z.inj_add in *. cbn. lia.
      * congruence.
      * rewrite <- (host_no_tzid _ _ Hh2). now apply first_property_same.
      * split; [exact Hd'|]. split; [congruence|]. split.
        -- split; [|exact Eo]. rewrite Epl. unfold place. assert (co_kind ch = co_kind v) as -> by (apply erase_kind in Ech; now destruct v).
           unfold is_zone in Hz. rewrite Hz. cbn [map]. rewrite Ech, Ec. f_equal. now destruct v.
        -- intros n. unfold has_zone at 1. rewrite Hzs, existsb_app. cbn [existsb]. rewrite Hes, orb_false_r.
           f_equal. apply (has_zone_perm c' comp n Ep).
Qed.

Definition others (cs : list icalcomponent) : list icalcomponent := List.filter (fun s => negb (is_zone s)) cs.
Definition zones_in (cs : list icalcomponent) : list icalcomponent := List.filter is_zone cs.

(** A name that one of the VTIMEZONEs has. *)
Definition names (vs : list icalcomponent) (n : cstring) : bool :=
  existsb (fun v => match tzid_text v with Some t => strcmp n t =? 0 | None => false end) vs.

Lemma in_without x v cs : In x cs -> co_addr x <> co_addr v -> In x (without v cs).
Proof. intros Hx Hne. apply filter_In. split; [exact Hx|]. unfold is_component. apply negb_true_iff. now apply Pos.eqb_neq. Qed.

Lemma fresh_address v (vs : list icalcomponent) x : ~ In (co_addr v) (map co_addr vs) -> In x vs -> co_addr x <> co_addr v.
Proof. intros Hn Hx E. apply Hn. rewrite <- E. now apply in_map. Qed.

Lemma merge_loop vs : forall comp other,
  host (length vs) comp -> donor other -> co_kind comp = ICAL_VCALENDAR_COMPONENT ->
  (forall v, In v vs -> In v (co_components other) /\ is_zone v = true) -> NoDup (map co_addr vs) ->
  runs (merge_vtimezones vs comp other) (fun r =>
    host 0 (fst r) /\ donor (snd r) /\ co_kind (fst r) = ICAL_VCALENDAR_COMPONENT /\
    map erase (co_components (fst r)) = rev (map erase (new_zones (has_zone comp) vs)) ++ map erase (co_components comp) /\
    others (co_components (snd r)) = others (co_components other) /\
    (forall n, has_zone (fst r) n = has_zone comp n || names vs n)).
Proof.
  induction vs as [|v vs IH]; intros comp other Hh Hd Hk Hvs Hnd.
  { apply runs_ret. cbn. do 5 (split; [first [assumption | reflexivity]|]). intros n. now rewrite orb_false_r. }
  cbn [merge_vtimezones]. destruct (Hvs v (or_introl eq_refl)) as [Hin Hz]. inversion_clear Hnd as [|? ? Hnot Hnd']. rewrite list_elem_of_In in Hnot.
  eapply runs_bind; [exact (merge_step (length vs) comp other v Hh Hd Hin Hz Hk)|].
  intros [c1 o1] (Hh1 & Hd1 & Hk1 & Hm & Hn). cbn [fst snd] in *. unfold moved in Hm.
  eapply runs_weaken; [apply (IH c1 o1 Hh1 Hd1 Hk1)|].
  - intros x Hx. destruct (Hvs x (or_intror Hx)) as [Hxo Hxz]. split; [|exact Hxz].
    destruct (match tzid_text v with Some t => _ | None => true end); destruct Hm as [_ ->]; [exact Hxo|].
    apply in_without; [exact Hxo | now apply (fresh_address v vs)].
  - exact Hnd'.
  - intros r (H1 & H2 & H3 & H4 & H5 & H6). split; [exact H1|]. split; [exact H2|]. split; [exact H3|].
    assert (new_zones (has_zone c1) vs =
      new_zones (fun n => has_zone comp n || match tzid_text v with Some t => strcmp n t =? 0 | None => false end) vs) as En
      by now apply new_zones_ext.
    split; [|split].
    + rewrite H4, En. cbn [new_zones]. destruct (tzid_text v) as [t|].
      * destruct (has_zone comp t) eqn:Ek.
        -- destruct Hm as [-> _]. do 3 f_equal. apply new_zones_ext. intros n. destruct (strcmp n t =? 0) eqn:E0; [|now rewrite orb_false_r].
           rewrite orb_true_r. symmetry. apply (has_zone_equal comp n t); [lia | exact Ek].
        -- destruct Hm as [-> _]. cbn [map rev]. now rewrite <- app_assoc.
      * destruct Hm as [-> _]. do 3 f_equal. apply new_zones_ext. intros n. now rewrite orb_false_r.
    + rewrite H5. destruct (match tzid_text v with Some t => _ | None => true end); destruct Hm as [_ ->]; [reflexivity|].
      apply without_other_kind; [exact Hz | apply Hd | exact Hin].
    + intros n. rewrite H6, Hn. unfold names. cbn [existsb]. now rewrite orb_assoc.
Qed.

Lemma move_loop cs : forall comp other,
  good_component comp -> donor other -> (forall c, In c cs -> In c (co_components other)) -> NoDup (map co_addr cs) ->
  runs (move_components cs comp other) (fun r =>
    map erase (co_components (fst r)) = map erase (co_components comp) ++ map erase (others cs) /\
    (forall n, has_zone (fst r) n = has_zone comp n)).
Proof.
  induction cs as [|c cs IH]; intros comp other Hg Hd Hcs Hnd; [apply runs_ret; cbn; now rewrite app_nil_r|].
  cbn [move_components]. inversion_clear Hnd as [|? ? Hnot Hnd']. rewrite list_elem_of_In in Hnot. cbn [others List.filter].
  unfold others. cbn [List.filter]. unfold is_zone at 1. destruct (ckind_eqb (co_kind c) ICAL_VTIMEZONE_COMPONENT) eqn:Ek; cbn [negb].
  - apply IH; [exact Hg | exact Hd | intros x Hx; apply Hcs; now right | exact Hnd'].
  - destruct (remove_child_spec c other Hd (Hcs c (or_introl eq_refl))) as (other' & -> & Eo & Hd').
    assert (good_component c) as Hc
      by (apply donor_good, good_inv in Hd as [_ H]; exact (proj1 (List.Forall_forall _ _) H c (Hcs c (or_introl eq_refl)))).
    eapply runs_bind.
    + apply runs_post with (Q := fun r => zones_after comp (icalcomponent_set_parent None c) (fst r)); [|apply add_component_zones].
      apply runs_add_child; [exact Hg|]. revert Hc. now apply good_same; destruct c.
    + intros r [[[Hg1 (ch & Ech & Epl) _ _ _ _ _ _] _] Hz].
      assert (is_zone (icalcomponent_set_parent None c) = false) as Hz' by now destruct c.
      unfold zones_after in Hz. rewrite Hz' in Hz. destruct Hz as [Htz _].
      eapply runs_weaken; [apply (IH (fst r) other' Hg1 Hd')|].
      * intros x Hx. rewrite Eo. apply in_without; [apply Hcs; now right | now apply (fresh_address c cs)].
      * exact Hnd'.
      * intros q [H1 H2]. split.
        -- rewrite H1, Epl. unfold place. assert (co_kind ch = co_kind c) as -> by (apply erase_kind in Ech; now destruct c). rewrite Ek.
           rewrite map_app. cbn [map]. rewrite Ech, <- app_assoc. f_equal. cbn [app]. f_equal. now destruct c.
        -- intros n. rewrite H2. unfold has_zone, zones_of. now rewrite Htz.
Qed.

Lemma names_has v vs t : In v vs -> tzid_text v = Some t -> names vs t = true.
Proof. intros Hin Et. apply existsb_exists. exists v. split; [exact Hin|]. rewrite Et. now rewrite strcmp_refl. Qed.

Lemma nodup_filter (f : icalcomponent -> bool) cs : NoDup (map co_addr cs) -> NoDup (map co_addr (List.filter f cs)).
Proof.
  induction cs as [|c cs IH]; intros H; [constructor|]. inversion_clear H as [|? ? Hn Hd]. cbn. destruct (f c); [|now apply IH].
  cbn. constructor; [|now apply IH]. rewrite list_elem_of_In in *. intros (x & Ex & [Hx _]%filter_In)%in_map_iff. apply Hn.
  rewrite <- Ex. now apply in_map.
Qed.

Lemma merge_runs comp other :
  co_kind comp = ICAL_VCALENDAR_COMPONENT -> co_kind other = ICAL_VCALENDAR_COMPONENT ->
  host (length (co_components other)) comp -> donor other ->
  runs (icalcomponent_merge_component comp other) (fun c =>
    map erase (co_components c) =
      rev (map erase (new_zones (has_zone comp) (zones_in (co_components other)))) ++ map erase (co_components comp)
      ++ map erase (others (co_components other)) /\
    (forall v t, In v (zones_in (co_components other)) -> tzid_text v = Some t -> has_zone c t = true)).
Proof.
  intros Hk Hk2 Hh Hd.
  unfold icalcomponent_merge_component. rewrite Hk, Hk2. cbn [ckind_eqb component_kind_dec andb].
  change (ckind_eqb ICAL_VCALENDAR_COMPONENT ICAL_VCALENDAR_COMPONENT) with true. cbn [andb].
  assert (List.filter (component_matches ICAL_VTIMEZONE_COMPONENT) (co_components other) = zones_in (co_components other)) as ->.
  { apply filter_ext. intros c. unfold component_matches, is_zone. change (ckind_eqb ICAL_VTIMEZONE_COMPONENT ICAL_ANY_COMPONENT) with false.
    now rewrite orb_false_r. }
  assert (length (zones_in (co_components other)) <= length (co_components other))%nat as Hle by apply filter_length_le.
  eapply runs_bind.
  - apply (merge_loop _ comp other).
    + destruct Hh as [? ? ? ?]. split; [assumption | lia | assumption | assumption].
    + exact Hd.
    + exact Hk.
    + intros v [Hv Hz]%filter_In. now split.
    + apply nodup_filter, Hd.
  - intros [c1 o1] (H1 & H2 & H3 & H4 & H5 & H6). cbn [fst snd] in *. eapply runs_bind.
    + apply (move_loop (co_components o1) c1 o1); [apply H1 | exact H2 | auto | apply H2].
    + intros r [E1 E2]. apply runs_ret. split; [now rewrite E1, H4, H5, <- app_assoc|].
      intros v t Hv Et. rewrite E2, H6, (names_has v _ t Hv Et). apply orb_true_r.
Qed.

(** ** Nothing is lost *)

(** What a component says: its tree without addresses and iterators. *)
Definition property_said (p : icalproperty) : icalproperty :=
  Property 1 (pr_kind p) (pr_x_name p) (pr_parameters p) (pr_count p) NoElem (pr_value p) None.
Fixpoint said (c : icalcomponent) : icalcomponent :=
  Component 1 (co_kind c) (co_x_name c) (map property_said (co_properties c)) NoElem (map said (co_components c)) NoElem None None true.

Fixpoint said_erase (c : icalcomponent) : said (erase c) = said c.
Proof.
  destruct c as [a k x ps pit cs cit pa tz so]. cbn. f_equal. rewrite map_map. induction cs as [|c cs IH]; [reflexivity|].
  cbn [map]. now rewrite said_erase, IH.
Qed.

Definition says (cs : list icalcomponent) (x : icalcomponent) : Prop := exists y, In y cs /\ said y = said x.

Lemma says_erased cs x : In (erase x) (map erase cs) -> says cs x.
Proof. intros (y & E & Hy)%in_map_iff. exists y. split; [exact Hy|]. now rewrite <- (said_erase y), E, said_erase. Qed.

(** The zones of the two calendars agree: a VTIMEZONE of the second has a name, and
    says the same as one of the first when the first knows the name, and the same as
    every other one of its name in the second. *)
Record zones_agree (comp other : icalcomponent) : Prop := ZonesAgree {
  agree_named : forall v, In v (zones_in (co_components other)) -> tzid_text v <> None;
  agree_first : forall v t, In v (zones_in (co_components other)) -> tzid_text v = Some t -> has_zone comp t = true ->
    says (co_components comp) v;
  agree_second : forall v w t u, In v (zones_in (co_components other)) -> In w (zones_in (co_components other)) ->
    tzid_text v = Some t -> tzid_text w = Some u -> strcmp t u = 0 -> said w = said v
}.

(** A name that is not known is the name of a new zone. *)
Lemma new_zones_named : forall vs known v t, In v vs -> tzid_text v = Some t ->
  known t = true \/ exists w u, In w (new_zones known vs) /\ In w vs /\ tzid_text w = Some u /\ strcmp t u = 0.
Proof.
  induction vs as [|x vs IH]; intros known v t Hin Et; [destruct Hin|]. cbn [new_zones]. destruct Hin as [->|Hin].
  - rewrite Et. destruct (known t); [now left|]. right. exists v, t. split; [now left|]. split; [now left|]. split; [exact Et | apply strcmp_refl].
  - destruct (tzid_text x) as [u|] eqn:Eu; [destruct (known u)|].
    + destruct (IH known v t Hin Et) as [H|(w & y & H1 & H2 & H3)]; [now left|]. right. exists w, y. split; [exact H1|]. split; [now right | exact H3].
    + destruct (IH (fun n => known n || (strcmp n u =? 0)) v t Hin Et) as [H|(w & y & H1 & H2 & H3)].
      * apply orb_true_iff in H as [H|H]; [now left|]. right. exists x, u. split; [now left|]. split; [now left|]. split; [exact Eu | lia].
      * right. exists w, y. split; [now right|]. split; [now right | exact H3].
    + destruct (IH known v t Hin Et) as [H|(w & y & H1 & H2 & H3)]; [now left|]. right. exists w, y. split; [exact H1|]. split; [now right | exact H3].
Qed.

Lemma merged_says comp other c : zones_agree comp other ->
  map erase (co_components c) =
    rev (map erase (new_zones (has_zone comp) (zones_in (co_components other)))) ++ map erase (co_components comp)
    ++ map erase (others (co_components other)) ->
  forall x, In x (co_components comp) \/ In x (co_components other) -> says (co_components c) x.
Proof.
  intros [A1 A2 A3] E.
  assert (forall x, In x (new_zones (has_zone comp) (zones_in (co_components other))) \/ In x (co_components comp) \/ In x (others (co_components other)) ->
    says (co_components c) x) as H.
  { intros x Hx. apply says_erased. rewrite E, !in_app_iff, <- in_rev. destruct Hx as [Hx|[Hx|Hx]]; apply (in_map erase) in Hx; auto. }
  intros x [Hx|Hx]; [apply H; now right; left|].
  destruct (is_zone x) eqn:Hz; [|apply H; right; right; apply filter_In; now rewrite Hz].
  assert (In x (zones_in (co_components other))) as Hx' by now apply filter_In.
  destruct (tzid_text x) as [t|] eqn:Et; [|now destruct (A1 x Hx')].
  destruct (new_zones_named _ (has_zone comp) x t Hx' Et) as [Hk|(w & u & Hw & Hwz & Ew & E0)].
  - destruct (A2 x t Hx' Et Hk) as (y & Hy & Ey). destruct (H y) as (z & Hz' & Ez); [now right; left|]. exists z. split; [exact Hz' | congruence].
  - destruct (H w) as (z & Hz' & Ez); [now left|]. exists z. split; [exact Hz'|]. rewrite Ez. now apply (A3 x w t u).
Qed.

(** C22: When the VTIMEZONEs of two calendars agree (those of the second have names,
    and VTIMEZONEs of one name say the same), merging them ends without an error that
    stops it and loses nothing: the first then has, in this order, the VTIMEZONEs of
    the second whose names it did not know (last first), its own components, and all
    other components of the second; what each component of either calendar says is
    said by a component of the result; and the name of every VTIMEZONE that the
    second contains is found in it. *)
Theorem merge_component_exact comp other st :
  co_kind comp = ICAL_VCALENDAR_COMPONENT -> co_kind other = ICAL_VCALENDAR_COMPONENT ->
  host (length (co_components other)) comp -> donor other -> zones_agree comp other -> quiet st ->
  exists c st', icalcomponent_merge_component comp other st = Some (c, st') /\ quiet st' /\
    map erase (co_components c) =
      rev (map erase (new_zones (has_zone comp) (zones_in (co_components other)))) ++ map erase (co_components comp)
      ++ map erase (others (co_components other)) /\
    (forall x, In x (co_components comp) \/ In x (co_components other) -> says (co_components c) x) /\
    (forall v t, In v (zones_in (co_components other)) -> tzid_text v = Some t -> has_zone c t = true).
Proof.
  intros Hk Hk2 Hh Hd Ha Hst. destruct (merge_runs comp other Hk Hk2 Hh Hd st Hst) as (c & st' & E & Hq & E1 & E2).
  exists c, st'. split; [exact E|]. split; [exact Hq|]. split; [exact E1|]. split; [exact (merged_says comp other c Ha E1) | exact E2].
Qed.

(** C23: [icalcomponent_get_timezone], which sorts the array of zones when it is out
    of order and bisects it, finds a zone with the name exactly when the array has
    one, like a search of all entries would; the sort keeps the entries, and the
    array is in order afterwards. *)
Theorem get_timezone_finds c tzid :
  zones_ok c -> nul_free tzid -> Forall (fun z => nul_free (tz_tzid z)) (zones_of c) ->
  exists r c', icalcomponent_get_timezone c tzid = Some (r, c') /\ zones_of c' ≡ₚ zones_of c /\ zones_ok c' /\
    (timezones c <> None -> zones_in_order (zones_of c')) /\
    match r with
    | Some z => z ∈ zones_of c /\ tz_tzid z = tzid
    | None => forall z, z ∈ zones_of c -> tz_tzid z <> tzid
    end.
Proof.
  intros Hok Hn Hall. destruct (get_timezone_spec c tzid Hok) as (r & c' & E & Hok' & Hp & (tz & so & Ec') & Hr).
  exists r, c'. split; [exact E|]. split; [exact Hp|]. split; [exact Hok'|]. split.
  - intros Hsome. unfold icalcomponent_get_timezone in E. destruct (timezones c); [|congruence].
    destruct (if timezones_sorted c then _ else _); [|discriminate]. destruct (zone_search _ _ _ _ _); [|discriminate].
    injection E as _ <-. unfold zones_of. cbn [timezones with_timezones default]. now apply (Hok' l0).
  - rewrite Forall_forall in Hall. destruct r as [z|].
    + destruct Hr as [Hz E0]. split; [exact Hz|]. symmetry. now apply strcmp_eq; [| apply Hall|].
    + intros z Hz <-. pose proof (proj1 (Forall_forall _ _) Hr z Hz) as H. cbv beta in H. now rewrite strcmp_refl in H.
Qed.
End Calendars.
