(* ===== verification/IcalComponentAccess.v ===== *)
(** * Reading and setting the parts of a component (icalcomponent.c)

    The accessors find a property of the component, or of the component inside a
    calendar, and read or replace its value.  A time is resolved to a zone in the
    component and those around it; the ones around a component are its argument
    [up], from the inside out.

    The setters create a property at the address [addr] when there is none.  The
    internal iterators that read-only accessors move are not returned. *)
From Stdlib Require Import String Ascii ZArith Lia Bool List.
From S2P Require Import Prelude CString IcalError IcalTime IcalDuration IcalPeriod IcalRecurType IcalRecurIter IcalValueText IcalValue IcalLine IcalParameter IcalProperty IcalComponent IcalComponentZones IcalTimezone.
Import ListNotations.
#[local] Open Scope Z_scope.
#[local] Open Scope cstring_scope.
#[local] Open Scope err_scope.

Definition ICAL_COMMENT_PROPERTY : icalproperty_kind := 15.
Definition ICAL_DESCRIPTION_PROPERTY : icalproperty_kind := 29.
Definition ICAL_DTSTAMP_PROPERTY : icalproperty_kind := 31.
Definition ICAL_EXRULE_PROPERTY : icalproperty_kind := 37.
Definition ICAL_METHOD_PROPERTY : icalproperty_kind := 48.
Definition ICAL_RELCALID_PROPERTY : icalproperty_kind := 68.
Definition ICAL_SEQUENCE_PROPERTY : icalproperty_kind := 75.
Definition ICAL_STATUS_PROPERTY : icalproperty_kind := 76.
Definition ICAL_SUMMARY_PROPERTY : icalproperty_kind := 78.
Definition ICAL_TRANSP_PROPERTY : icalproperty_kind := 80.
Definition ICAL_UID_PROPERTY : icalproperty_kind := 87.

Definition ICAL_METHOD_NONE : Z := 10599.
Definition ICAL_STATUS_TENTATIVE : Z := 10901.
Definition ICAL_STATUS_CANCELLED : Z := 10905.
Definition ICAL_STATUS_NONE : Z := 10999.
Definition ICAL_TRANSP_OPAQUE : Z := 11001.
Definition ICAL_TRANSP_OPAQUENOCONFLICT : Z := 11002.
Definition ICAL_TRANSP_NONE : Z := 11099.

(** The names of zones; a zone that is loaded has one. *)
Class ZoneNames := { icaltimezone_get_tzid : icaltimezone_ptr -> option cstring }.

Section Access.
Context `{PROPS : PropertyTables} `{PARAMS : ParameterTables} `{FLOAT : FloatOps} `{TZ : TimezoneConv} `{BUILTIN : BuiltinZones} `{NAMES : ZoneNames}.

Definition inner_of (c : icalcomponent) : option icalcomponent := fst (icalcomponent_get_inner c).

(** The components around the inner one. *)
Definition around_inner (c : icalcomponent) (up : list icalcomponent) : list icalcomponent :=
  if ckind_eqb (co_kind c) ICAL_VCALENDAR_COMPONENT then c :: up else up.

(** [icalcomponent_get_first_property] of a null pointer is an error. *)
Definition first_of (kind : icalproperty_kind) (c : option icalcomponent) : err (option icalproperty) :=
  match c with Some c => ret (first_property kind c) | None => badarg None end.

(** The generated accessors of the enumerations, integers and durations. *)
Definition get_enum (none : Z) (v : option icalvalue) : err Z :=
  match v with Some v => data_enum (v_data v) | None => badarg none end.
Definition get_duration_value (v : option icalvalue) : err icaldurationtype :=
  match v with Some v => data_duration (v_data v) | None => badarg icaldurationtype_null_duration end.

(** ** Times *)

Definition icalcomponent_get_dtstart (comp : icalcomponent) (up : list icalcomponent) : err icaltimetype :=
  prop <- first_of ICAL_DTSTART_PROPERTY (inner_of comp) ;;
  match prop with
  | None => ret icaltime_null_time
  | Some p => icalproperty_get_datetime_with_component p (comp :: up)
  end.

(** The start of the inner component itself. *)
Definition inner_dtstart (comp : icalcomponent) (up : list icalcomponent) : err icaltimetype :=
  match inner_of comp with
  | Some inner => icalcomponent_get_dtstart inner (around_inner comp up)
  | None => badarg icaltime_null_time
  end.

Definition icalcomponent_get_dtend (comp : icalcomponent) (up : list icalcomponent) : err icaltimetype :=
  end_prop <- first_of ICAL_DTEND_PROPERTY (inner_of comp) ;;
  dur_prop <- first_of ICAL_DURATION_PROPERTY (inner_of comp) ;;
  match end_prop, dur_prop with
  | Some p, _ => icalproperty_get_datetime_with_component p (comp :: up)
  | None, Some p =>
      start <- inner_dtstart comp up ;;
      duration <- (match pr_value p with Some v => get_duration_value (Some v) | None => ret icaldurationtype_null_duration end) ;;
      ret (icaltime_add start duration)
  | None, None => ret icaltime_null_time
  end.

(** The end of the inner component itself. *)
Definition inner_dtend (comp : icalcomponent) (up : list icalcomponent) : err icaltimetype :=
  match inner_of comp with
  | Some inner => icalcomponent_get_dtend inner (around_inner comp up)
  | None => badarg icaltime_null_time
  end.

Definition icalcomponent_get_duration (comp : icalcomponent) (up : list icalcomponent) : err icaldurationtype :=
  end_prop <- first_of ICAL_DTEND_PROPERTY (inner_of comp) ;;
  dur_prop <- first_of ICAL_DURATION_PROPERTY (inner_of comp) ;;
  match dur_prop, end_prop with
  | Some p, None => get_duration_value (pr_value p)
  | None, Some _ =>
      start <- inner_dtstart comp up ;;
      end_ <- inner_dtend comp up ;;
      ret (icaltime_subtract end_ start)
  | _, _ => icalerror_set_errno ICAL_MALFORMEDDATA_ERROR ;;; ret icaldurationtype_null_duration
  end.

Definition icalcomponent_get_due (comp : icalcomponent) (up : list icalcomponent) : err icaltimetype :=
  due_prop <- first_of ICAL_DUE_PROPERTY (inner_of comp) ;;
  dur_prop <- first_of ICAL_DURATION_PROPERTY (inner_of comp) ;;
  match due_prop, dur_prop with
  | Some p, _ => icalproperty_get_datetime_with_component p (comp :: up)
  | None, Some p =>
      start <- inner_dtstart comp up ;;
      duration <- get_duration_value (pr_value p) ;;
      ret (icaltime_add start duration)
  | None, None => ret icaltime_null_time
  end.

Definition icalcomponent_get_dtstamp (comp : icalcomponent) : err icaltimetype :=
  prop <- first_of ICAL_DTSTAMP_PROPERTY (inner_of comp) ;;
  match prop with None => ret icaltime_null_time | Some p => get_datetimedate (pr_value p) end.

Definition icalcomponent_get_recurrenceid (comp : icalcomponent) : err icaltimetype :=
  match inner_of comp with
  | None => icalerror_set_errno ICAL_MALFORMEDDATA_ERROR ;;; ret icaltime_null_time
  | Some inner =>
      match first_property ICAL_RECURRENCEID_PROPERTY inner with
      | None => ret icaltime_null_time
      | Some p => get_datetimedate (pr_value p)
      end
  end.

(** ** Texts, numbers and enumerations *)

(** The body of the accessors of texts; [malformed] tells whether a calendar
    without a component is an error. *)
Definition get_inner_text (kind : icalproperty_kind) (malformed : bool) (comp : icalcomponent) : err (option cstring) :=
  match inner_of comp with
  | None => if malformed then icalerror_set_errno ICAL_MALFORMEDDATA_ERROR ;;; ret None else ret None
  | Some inner =>
      match first_property kind inner with
      | None => ret None
      | Some p => icalvalue_get_text (pr_value p)
      end
  end.

Definition icalcomponent_get_summary := get_inner_text ICAL_SUMMARY_PROPERTY true.
Definition icalcomponent_get_comment := get_inner_text ICAL_COMMENT_PROPERTY true.
Definition icalcomponent_get_uid := get_inner_text ICAL_UID_PROPERTY true.
Definition icalcomponent_get_description := get_inner_text ICAL_DESCRIPTION_PROPERTY true.
Definition icalcomponent_get_location := get_inner_text ICAL_LOCATION_PROPERTY true.
Definition icalcomponent_get_relcalid := get_inner_text ICAL_RELCALID_PROPERTY false.

Definition icalcomponent_get_sequence (comp : icalcomponent) : err Z :=
  match inner_of comp with
  | None => icalerror_set_errno ICAL_MALFORMEDDATA_ERROR ;;; ret 0
  | Some inner =>
      match first_property ICAL_SEQUENCE_PROPERTY inner with
      | None => ret 0
      | Some p => icalvalue_get_utcoffset (pr_value p)
      end
  end.

Definition icalcomponent_get_status (comp : icalcomponent) : err Z :=
  match inner_of comp with
  | None => icalerror_set_errno ICAL_MALFORMEDDATA_ERROR ;;; ret 0
  | Some inner =>
      match first_property ICAL_STATUS_PROPERTY inner with
      | None => ret 0
      | Some p => get_enum ICAL_STATUS_NONE (pr_value p)
      end
  end.

(** A calendar has its METHOD itself. *)
Definition icalcomponent_get_method (comp : icalcomponent) : err Z :=
  match first_property ICAL_METHOD_PROPERTY comp with
  | None => ret ICAL_METHOD_NONE
  | Some p => get_enum ICAL_METHOD_NONE (pr_value p)
  end.

(** ** Setting *)

(** The inner component, which the iterator is at, replaced. *)
Definition put_inner (inner : icalcomponent) (comp : icalcomponent) : icalcomponent :=
  if ckind_eqb (co_kind comp) ICAL_VCALENDAR_COMPONENT
  then match search_from (fun s => real_kind (co_kind s)) (co_components comp) 0 with
       | Some j => with_components (list_update j inner (co_components comp)) (component_iterator comp) comp
       | None => comp
       end
  else inner.

(** The first property of a kind replaced. *)
Definition put_first (p : icalproperty) (c : icalcomponent) : icalcomponent :=
  match search_from (property_matches (pr_kind p)) (co_properties c) 0 with
  | Some j => with_properties (list_update j p (co_properties c)) (property_iterator c) c
  | None => c
  end.

(** [ICALSETUPSET]: what follows it gets the property that was found, and the
    inner component. *)
Definition ICALSETUPSET (p_kind : icalproperty_kind) (body : option icalproperty -> icalcomponent -> err icalcomponent)
  (comp : icalcomponent) : err icalcomponent :=
  match icalcomponent_get_inner comp with
  | (None, comp) => icalerror_set_errno ICAL_MALFORMEDDATA_ERROR ;;; ret comp
  | (Some inner, comp) =>
      let '(prop, inner) := icalcomponent_get_first_property p_kind inner in
      inner <- body prop inner ;; ret (put_inner inner comp)
  end.

(** A property that was found is changed; otherwise a new one is added.  The
    code changes the new one also after it has added it: it is the same object. *)
Definition change_or_add (addr : positive) (kind : icalproperty_kind) (change fresh : icalproperty -> err icalproperty)
  (prop : option icalproperty) (inner : icalcomponent) : err icalcomponent :=
  match prop with
  | None =>
      match icalproperty_new_impl addr kind with
      | None => undefined
      | Some p => p <- fresh p ;; ret (icalcomponent_add_property p inner)
      end
  | Some p => p <- change p ;; ret (put_first p inner)
  end.

Definition set_value (v : icalvalue) (p : icalproperty) : err icalproperty := icalproperty_set_value (Some v) p.
(** A new property gets its value when it is made, and then again. *)
Definition set_value_twice (v : icalvalue) (p : icalproperty) : err icalproperty := p <- set_value v p ;; set_value v p.

Definition set_inner_value (kind : icalproperty_kind) (v : icalvalue) (addr : positive) : icalcomponent -> err icalcomponent :=
  ICALSETUPSET kind (change_or_add addr kind (set_value v) (set_value_twice v)).

Definition set_inner_text (kind : icalproperty_kind) (v : cstring) := set_inner_value kind (new_with ICAL_TEXT_VALUE (V_string v)).

Definition icalcomponent_set_summary := set_inner_text ICAL_SUMMARY_PROPERTY.
Definition icalcomponent_set_comment := set_inner_text ICAL_COMMENT_PROPERTY.
Definition icalcomponent_set_uid := set_inner_text ICAL_UID_PROPERTY.
Definition icalcomponent_set_description := set_inner_text ICAL_DESCRIPTION_PROPERTY.
Definition icalcomponent_set_location := set_inner_text ICAL_LOCATION_PROPERTY.
Definition icalcomponent_set_relcalid := set_inner_text ICAL_RELCALID_PROPERTY.
Definition icalcomponent_set_sequence (v : Z) := set_inner_value ICAL_SEQUENCE_PROPERTY (new_with ICAL_INTEGER_VALUE (V_int v)).
Definition icalcomponent_set_status (v : Z) := set_inner_value ICAL_STATUS_PROPERTY (new_with ICAL_STATUS_VALUE (V_enum v)).

(** DTSTAMP takes a date with a time only; the others may be dates. *)
Definition icalvalue_new_datetimedate (t : icaltimetype) : err icalvalue :=
  icalvalue_set_datetimedate (new_with ICAL_DATETIME_VALUE V_zero) t.
Definition new_time_value (kind : icalproperty_kind) (t : icaltimetype) : err icalvalue :=
  if kind =? ICAL_DTSTAMP_PROPERTY then icalvalue_new_datetime t else icalvalue_new_datetimedate t.

Definition set_time (t : icaltimetype) (p : icalproperty) : err icalproperty :=
  v <- new_time_value (pr_kind p) t ;; set_value v p.
Definition set_time_twice (t : icaltimetype) (p : icalproperty) : err icalproperty := p <- set_time t p ;; set_time t p.

Definition icalcomponent_set_dtstamp (t : icaltimetype) (addr : positive) : icalcomponent -> err icalcomponent :=
  ICALSETUPSET ICAL_DTSTAMP_PROPERTY (change_or_add addr ICAL_DTSTAMP_PROPERTY (set_time t) (set_time_twice t)).
Definition icalcomponent_set_recurrenceid (t : icaltimetype) (addr : positive) : icalcomponent -> err icalcomponent :=
  ICALSETUPSET ICAL_RECURRENCEID_PROPERTY (change_or_add addr ICAL_RECURRENCEID_PROPERTY (set_time t) (set_time_twice t)).

Definition icalparameter_new_tzid (tzid : cstring) : icalparameter := Param ICAL_TZID_PARAMETER (Some tzid) None None 0.

(** The TZID parameter of a time that is not in UTC. *)
Definition tzid_of_time (t : icaltimetype) : option cstring :=
  if zone_eqb (zone t) ZONE_NULL || icaltime_is_utc t then None else icaltimezone_get_tzid (zone t).

Definition add_tzid (t : icaltimetype) (p : icalproperty) : icalproperty :=
  match tzid_of_time t with
  | Some tzid => icalproperty_add_parameter (icalparameter_new_tzid tzid) p
  | None => p
  end.

(** What the setters of DTSTART and DTEND have in common. *)
Definition set_zoned_time (kind : icalproperty_kind) (t : icaltimetype) (addr : positive)
  : option icalproperty -> icalcomponent -> err icalcomponent :=
  change_or_add addr kind
    (fun p => p <- set_time t (icalproperty_remove_parameter_by_kind ICAL_TZID_PARAMETER p) ;; ret (add_tzid t p))
    (fun p => p <- set_time_twice t p ;; ret (add_tzid t p)).

Definition icalcomponent_set_dtstart (t : icaltimetype) (addr : positive) : icalcomponent -> err icalcomponent :=
  ICALSETUPSET ICAL_DTSTART_PROPERTY (set_zoned_time ICAL_DTSTART_PROPERTY t addr).

(** [body], unless there is a property of a kind. *)
Definition unless_property (kind : icalproperty_kind) (body : icalcomponent -> err icalcomponent) (inner : icalcomponent)
  : err icalcomponent :=
  match icalcomponent_get_first_property kind inner with
  | (Some _, inner) => icalerror_set_errno ICAL_MALFORMEDDATA_ERROR ;;; ret inner
  | (None, inner) => body inner
  end.

Definition icalcomponent_set_dtend (t : icaltimetype) (addr : positive) : icalcomponent -> err icalcomponent :=
  ICALSETUPSET ICAL_DTEND_PROPERTY (fun prop =>
    unless_property ICAL_DURATION_PROPERTY (set_zoned_time ICAL_DTEND_PROPERTY t addr prop)).

(** A new property has its value set once only here. *)
Definition icalcomponent_set_duration (d : icaldurationtype) (addr : positive) : icalcomponent -> err icalcomponent :=
  let v := new_with ICAL_DURATION_VALUE (V_duration d) in
  ICALSETUPSET ICAL_DURATION_PROPERTY (fun prop =>
    unless_property ICAL_DTEND_PROPERTY (change_or_add addr ICAL_DURATION_PROPERTY (set_value v) (set_value v) prop)).

(** [icalproperty_set_parameter] with the TZID of a time. *)
Definition replace_tzid (t : icaltimetype) (p : icalproperty) : err icalproperty :=
  match tzid_of_time t with
  | Some tzid => icalproperty_set_parameter (icalparameter_new_tzid tzid) p
  | None => ret p
  end.

(** A property DUE is set or added; with a DURATION only, the time that it says
    already is written again.  A null inner component is refused by each call. *)
Definition icalcomponent_set_due (t : icaltimetype) (addr : positive) (up : list icalcomponent) (comp : icalcomponent)
  : err icalcomponent :=
  match icalcomponent_get_inner comp with
  | (None, comp) => badarg comp ;;; badarg comp ;;; badarg comp
  | (Some inner, comp) =>
      let '(due_prop, inner) := icalcomponent_get_first_property ICAL_DUE_PROPERTY inner in
      let '(dur_prop, inner) := icalcomponent_get_first_property ICAL_DURATION_PROPERTY inner in
      inner <- (match due_prop, dur_prop with
                | None, Some p =>
                    start <- icalcomponent_get_dtstart inner (around_inner comp up) ;;
                    due <- icalcomponent_get_due inner (around_inner comp up) ;;
                    p <- set_value (new_with ICAL_DURATION_VALUE (V_duration (icaltime_subtract due start))) p ;;
                    ret (put_first p inner)
                | _, _ =>
                    change_or_add addr ICAL_DUE_PROPERTY (fun p => p <- set_time t p ;; replace_tzid t p)
                      (fun p => p <- set_time t p ;; replace_tzid t p) due_prop inner
                end) ;;
      ret (put_inner inner comp)
  end.

(** METHOD is set in the component itself. *)
Definition icalcomponent_set_method (v : Z) (addr : positive) (comp : icalcomponent) : err icalcomponent :=
  let v := new_with ICAL_METHOD_VALUE (V_enum v) in
  let '(prop, comp) := icalcomponent_get_first_property ICAL_METHOD_PROPERTY comp in
  change_or_add addr ICAL_METHOD_PROPERTY (set_value v) (set_value_twice v) prop comp.

(** The setters, as data: sequences of edits. *)
Inductive edit : Type :=
| SetText (kind : icalproperty_kind) (v : cstring) | SetSequence (n : Z) | SetStatus (s : Z) | SetMethod (m : Z)
| SetDtstamp (t : icaltimetype) | SetRecurrenceid (t : icaltimetype) | SetDtstart (t : icaltimetype)
| SetDtend (t : icaltimetype) | SetDuration (d : icaldurationtype) | SetDue (t : icaltimetype).

(** A new property is made at [addr]. *)
Definition apply_edit (up : list icalcomponent) (addr : positive) (e : edit) : icalcomponent -> err icalcomponent :=
  match e with
  | SetText kind v => set_inner_text kind v addr
  | SetSequence n => icalcomponent_set_sequence n addr
  | SetStatus s => icalcomponent_set_status s addr
  | SetMethod m => icalcomponent_set_method m addr
  | SetDtstamp t => icalcomponent_set_dtstamp t addr
  | SetRecurrenceid t => icalcomponent_set_recurrenceid t addr
  | SetDtstart t => icalcomponent_set_dtstart t addr
  | SetDtend t => icalcomponent_set_dtend t addr
  | SetDuration d => icalcomponent_set_duration d addr
  | SetDue t => icalcomponent_set_due t addr up
  end.

Fixpoint apply_edits (up : list icalcomponent) (addr : positive) (es : list edit) (comp : icalcomponent) : err icalcomponent :=
  match es with
  | [] => ret comp
  | e :: es => comp <- apply_edit up addr e comp ;; apply_edits up (Pos.succ addr) es comp
  end.
End Access.
