(* ===== verification/IcalComponentEdit.v ===== *)
(** * Setting and reading the parts of a component: theorems

    What a setter stores is what the getter of the same part reads, every other
    property stays as it is and in its place, and the two ways to say when a
    component ends exclude each other. *)
From Stdlib Require Import String Ascii ZArith Lia Bool List FunctionalExtensionality.
From S2P Require Import Prelude CString IcalError IcalTime IcalDuration IcalTypes IcalValueText IcalValue IcalValueSafe IcalLine IcalParameter IcalProperty IcalPropertyText IcalRecurSimple IcalComponent IcalParserSafe IcalComponentErrors IcalComponentZones IcalComponentAccess.
Import ListNotations.
#[local] Open Scope Z_scope.
#[local] Open Scope cstring_scope.
#[local] Open Scope err_scope.

(** ** Replacing the element that a search finds *)

Lemma search_place {A} (test : A -> bool) l : forall i n,
  search_from test l i = Some n -> exists pre x post, l = pre ++ x :: post /\ n = (i + length pre)%nat /\ test x = true /\
    Forall (fun y => test y = false) pre.
Proof.
  induction l as [|y l IH]; intros i n; cbn [search_from]; [discriminate|]. destruct (test y) eqn:E.
  - intros [= <-]. exists [], y, l. repeat split; auto.
  - intros (pre & x & post & -> & -> & Hx & Hp)%IH. exists (y :: pre), x, post. repeat split; auto.
Qed.

Lemma search_at {A} (test : A -> bool) pre x post : forall i,
  Forall (fun y => test y = false) pre -> test x = true -> search_from test (pre ++ x :: post) i = Some (i + length pre)%nat.
Proof.
  induction pre as [|y pre IH]; intros i Hp Hx; cbn [search_from List.app length].
  - rewrite Hx. f_equal. lia.
  - inversion Hp; subst. rewrite H1, IH by auto. f_equal. lia.
Qed.

Lemma find_at_place {A} (test : A -> bool) pre x post :
  Forall (fun y => test y = false) pre -> test x = true -> find test (pre ++ x :: post) = Some x.
Proof. induction 1 as [|y pre Hy _ IH]; cbn [find List.app]; intros Hx; [now rewrite Hx | rewrite Hy; auto]. Qed.

Lemma update_place {A} (pre post : list A) x y : list_update (length pre) y (pre ++ x :: post) = pre ++ y :: post.
Proof.
  unfold list_update. f_equal; [now rewrite firstn_app, Nat.sub_diag, firstn_all, app_nil_r|]. f_equal.
  rewrite skipn_app, skipn_all2 by lia. now replace (S (length pre) - length pre)%nat with 1%nat by lia.
Qed.

Lemma search_none {A} (test : A -> bool) l : forall i, search_from test l i = None <-> Forall (fun y => test y = false) l.
Proof.
  induction l as [|y l IH]; intros i; cbn [search_from]; [easy|]. destruct (test y) eqn:E.
  - split; [discriminate | intros H; inversion H; congruence].
  - rewrite IH. split; [auto | intros H; now inversion H].
Qed.

(** The first element that passes is exchanged, and one that passes stays. *)
Definition replaced {A} (test : A -> bool) (x' : A) (l l' : list A) : Prop :=
  exists pre x post, l = pre ++ x :: post /\ l' = pre ++ x' :: post /\ test x = true /\ Forall (fun y => test y = false) pre.

Lemma replaced_find {A} (test : A -> bool) x' l l' : replaced test x' l l' -> test x' = true -> find test l' = Some x'.
Proof. intros (pre & x & post & _ & -> & _ & Hp) Hx. now apply find_at_place. Qed.

(** The properties of other kinds are the same. *)
Lemma replaced_filter {A} (test f : A -> bool) x' l l' :
  replaced test x' l l' -> (forall y, test y = true -> f y = false) -> test x' = true -> List.filter f l' = List.filter f l.
Proof.
  intros (pre & x & post & -> & -> & Hx & _) Hf Hx'. rewrite !filter_app. cbn [List.filter]. now rewrite !Hf.
Qed.

Section Edit.
Context `{PROPS : PropertyTables} `{PARAMS : ParameterTables} `{FLOAT : FloatOps} `{TZ : TimezoneConv} `{BUILTIN : BuiltinZones} `{NAMES : ZoneNames}.

(** ** Components *)

Lemma first_property_find kind c : first_property kind c = find (property_matches kind) (co_properties c).
Proof.
  unfold first_property, icalcomponent_get_first_property. rewrite <- (iterate_find (property_matches kind)).
  now destruct (iterate _ _ _).
Qed.

Lemma inner_of_eq c :
  inner_of c = if ckind_eqb (co_kind c) ICAL_VCALENDAR_COMPONENT then find (fun s => real_kind (co_kind s)) (co_components c) else Some c.
Proof.
  unfold inner_of, icalcomponent_get_inner, icalcomponent_get_first_real_component. case_if; [|reflexivity].
  rewrite <- (iterate_find (fun s => real_kind (co_kind s))). now destruct (iterate _ _ _).
Qed.

(** All but the properties and the iterators. *)
Definition same_shell (c d : icalcomponent) : Prop :=
  co_kind d = co_kind c /\ co_addr d = co_addr c /\ co_x_name d = co_x_name c /\ co_components d = co_components c /\
  timezones d = timezones c /\ timezones_sorted d = timezones_sorted c.

(** [icalcomponent_get_inner] moves an iterator of a calendar only. *)
Lemma get_inner_eq c : exists c1, icalcomponent_get_inner c = (inner_of c, c1) /\ same_shell c c1.
Proof.
  unfold inner_of, icalcomponent_get_inner, icalcomponent_get_first_real_component, same_shell. case_if.
  - destruct (iterate _ _ _) as [r it]. eexists. split; [reflexivity|]. repeat split.
  - exists c. auto 10.
Qed.

Definition other_properties (kind : icalproperty_kind) (c : icalcomponent) : list icalproperty :=
  List.filter (fun p => negb (pr_kind p =? kind)) (co_properties c).

(** [i'] is [i] with the property of a kind set: it satisfies [R]. *)
Inductive edited (kind : icalproperty_kind) (R : icalproperty -> Prop) (i i' : icalcomponent) : Prop :=
| Edited p' : same_shell i i' -> other_properties kind i' = other_properties kind i -> first_property kind i' = Some p' ->
    pr_kind p' = kind -> R p' -> edited kind R i i'.

Lemma inner_put inner i' c c1 :
  inner_of c = Some inner -> same_shell inner i' -> same_shell c c1 -> inner_of (put_inner i' c1) = Some i'.
Proof.
  intros Hi (Hk & _) (Hk1 & _ & _ & Hc1 & _). rewrite inner_of_eq in Hi |- *. unfold put_inner. rewrite Hk1, Hc1.
  destruct (ckind_eqb (co_kind c) ICAL_VCALENDAR_COMPONENT) eqn:E.
  - pose proof (iterate_find (fun s => real_kind (co_kind s)) (co_components c)) as Hf. rewrite Hi in Hf.
    unfold iterate, find_at in Hf. change (skipn 0 (co_components c)) with (co_components c) in Hf. destruct (search_from _ _ _) as [n|] eqn:Es; [|discriminate].
    apply search_place in Es as (pre & x & post & Hl & -> & Hx & Hp). cbn [Nat.add] in *.
    rewrite Hl in Hf |- *. cbn [with_components co_kind co_components]. rewrite Hk1, E, update_place.
    apply find_at_place; [exact Hp|]. rewrite Hk. cbn in Hf. rewrite nth_error_app2, Nat.sub_diag in Hf by lia.
    injection Hf as <-. exact Hx.
  - injection Hi as <-. now rewrite Hk, E.
Qed.

(** ** Properties *)

Lemma valid_not_any kind : icalproperty_kind_is_valid kind = true -> (kind =? ICAL_ANY_PROPERTY) = false.
Proof. unfold icalproperty_kind_is_valid. now case_if. Qed.

Lemma matches_kind kind p : (kind =? ICAL_ANY_PROPERTY) = false -> property_matches kind p = (pr_kind p =? kind).
Proof. unfold property_matches. intros ->. apply orb_false_r. Qed.

(** A property is replaced by one of the same kind. *)
Lemma put_first_edited kind (R : icalproperty -> Prop) i i1 p p' :
  (kind =? ICAL_ANY_PROPERTY) = false -> same_shell i i1 -> co_properties i1 = co_properties i ->
  first_property kind i = Some p -> pr_kind p' = kind -> R p' -> edited kind R i (put_first p' i1).
Proof.
  intros Ha Hs Hps Hp Hk HR. rewrite first_property_find in Hp. unfold put_first. rewrite Hk, Hps.
  destruct (search_from (property_matches kind) (co_properties i) 0) as [n|] eqn:Es.
  2:{ apply search_none in Es. apply find_some in Hp as [Hin Ht]. rewrite Forall_forall in Es. rewrite Es in Ht by exact Hin. discriminate. }
  apply search_place in Es as (pre & x & post & Hl & -> & Hx & Hpre). cbn [Nat.add].
  assert (property_matches kind p' = true) as Hp' by (rewrite matches_kind by exact Ha; lia).
  apply (Edited kind R i _ p'); [exact Hs | | | exact Hk | exact HR].
  - unfold other_properties. cbn [with_properties co_properties]. rewrite Hl, update_place, !filter_app. cbn [List.filter].
    rewrite matches_kind in Hx by exact Ha. rewrite Hx, Hk, Z.eqb_refl. reflexivity.
  - rewrite first_property_find. cbn [with_properties co_properties]. rewrite Hl, update_place. now apply find_at_place.
Qed.

Lemma add_edited kind (R : icalproperty -> Prop) i i1 p' :
  (kind =? ICAL_ANY_PROPERTY) = false -> same_shell i i1 -> co_properties i1 = co_properties i -> first_property kind i = None ->
  pr_kind p' = kind -> R (icalproperty_set_parent (Some (co_addr i1)) p') -> edited kind R i (icalcomponent_add_property p' i1).
Proof.
  intros Ha Hs Hps Hn Hk HR. apply (Edited kind R i _ (icalproperty_set_parent (Some (co_addr i1)) p')); [exact Hs | | | exact Hk | exact HR].
  - unfold other_properties. cbn [icalcomponent_add_property with_properties co_properties]. rewrite filter_app, Hps. cbn [List.filter].
    change (pr_kind (icalproperty_set_parent (Some (co_addr i1)) p')) with (pr_kind p'). rewrite Hk, Z.eqb_refl. apply app_nil_r.
  - rewrite first_property_find in *. cbn [icalcomponent_add_property with_properties co_properties]. rewrite Hps.
    apply find_at_place.
    + apply Forall_forall. intros y Hy. now apply (find_none _ _ Hn).
    + rewrite matches_kind by exact Ha. change (pr_kind (icalproperty_set_parent (Some (co_addr i1)) p')) with (pr_kind p'). lia.
Qed.

(** What is found is changed, and otherwise a new property is added. *)
Lemma runs_change_or_add addr kind change fresh (R : icalproperty -> Prop) i i1 :
  icalproperty_kind_is_valid kind = true -> same_shell i i1 -> co_properties i1 = co_properties i ->
  (forall a p, R p -> R (icalproperty_set_parent a p)) ->
  (forall p, pr_kind p = kind -> In p (co_properties i) -> runs (change p) (fun p' => pr_kind p' = kind /\ R p')) ->
  (forall p, pr_kind p = kind -> pr_parameters p = [] -> runs (fresh p) (fun p' => pr_kind p' = kind /\ R p')) ->
  runs (change_or_add addr kind change fresh (first_property kind i) i1) (edited kind R i).
Proof.
  intros Hv Hs Hps HR Hc Hf. pose proof (valid_not_any kind Hv) as Ha. unfold change_or_add.
  destruct (first_property kind i) as [p|] eqn:Ep.
  - pose proof Ep as Ep'. rewrite first_property_find in Ep'. apply find_some in Ep' as [Hin Ht].
    rewrite matches_kind in Ht by exact Ha. eapply runs_bind; [apply Hc; [lia | exact Hin]|]. intros p' [Hk Hr]. apply runs_ret.
    now apply (put_first_edited kind R i i1 p p').
  - unfold icalproperty_new_impl. rewrite Hv. eapply runs_bind; [now apply Hf|]. intros p' [Hk Hr]. apply runs_ret.
    apply add_edited; auto.
Qed.

(** What the search for zones depends on. *)
Definition same_zones (c d : icalcomponent) : Prop :=
  co_kind d = co_kind c /\ timezones d = timezones c /\ timezones_sorted d = timezones_sorted c.

Lemma put_inner_zones comp c1 inner i' :
  inner_of comp = Some inner -> same_shell comp c1 -> same_shell inner i' -> same_zones comp (put_inner i' c1).
Proof.
  intros Hi (Hk & _ & _ & _ & Ht & Hts) (Hk' & _ & _ & _ & Ht' & Hts'). unfold put_inner, same_zones. rewrite inner_of_eq in Hi. rewrite Hk.
  destruct (ckind_eqb (co_kind comp) ICAL_VCALENDAR_COMPONENT); [|injection Hi as <-; auto].
  destruct (search_from _ _ _); auto.
Qed.

(** The part after [ICALSETUPSET], put back in its place. *)
Lemma runs_setup kind body (Q : icalcomponent -> Prop) comp inner :
  inner_of comp = Some inner ->
  (forall i1, same_shell inner i1 -> co_properties i1 = co_properties inner ->
     runs (body (first_property kind inner) i1) (fun i' => same_shell inner i' /\ Q i')) ->
  runs (ICALSETUPSET kind body comp) (fun c => exists i', inner_of c = Some i' /\ same_zones comp c /\ same_shell inner i' /\ Q i').
Proof.
  intros Hi Hb. unfold ICALSETUPSET. destruct (get_inner_eq comp) as (c1 & -> & Hs). rewrite Hi.
  unfold first_property, icalcomponent_get_first_property in *. destruct (iterate _ _ _) as [prop it]. cbn [fst] in *.
  eapply runs_bind; [apply Hb; [repeat split | reflexivity]|]. intros i' [Hs' HQ]. apply runs_ret. exists i'.
  split; [apply (inner_put inner i' comp c1 Hi); apply Hs' || apply Hs|]. split; [|now split].
  now apply (put_inner_zones comp c1 inner).
Qed.

(** A value that is not a time is stored as it is. *)
Lemma runs_set_plain_value v p :
  is_time_kind (v_kind v) = false ->
  runs (set_value v p) (fun p' => pr_kind p' = pr_kind p /\ pr_parameters p' = pr_parameters p /\ exists w, pr_value p' = Some w /\ v_data w = v_data v).
Proof.
  intros Hv. unfold set_value, icalproperty_set_value, icalvalue_isa. rewrite Hv. cbv zeta. apply runs_ret.
  split; [reflexivity|]. split; [reflexivity|]. eexists. split; reflexivity.
Qed.

Definition holds (d : value_data) (p : icalproperty) : Prop := exists w, pr_value p = Some w /\ v_data w = d.

Lemma runs_set_inner_value kind v addr comp inner :
  inner_of comp = Some inner -> icalproperty_kind_is_valid kind = true -> is_time_kind (v_kind v) = false ->
  runs (set_inner_value kind v addr comp)
    (fun c => exists i', inner_of c = Some i' /\ same_zones comp c /\ same_shell inner i' /\ edited kind (holds (v_data v)) inner i').
Proof.
  intros Hi Hk Hv. unfold set_inner_value. apply runs_setup; [exact Hi|]. intros i1 Hs Hps.
  eapply runs_weaken; [apply (runs_change_or_add _ _ _ _ (holds (v_data v)) inner i1 Hk Hs Hps)|].
  - intros a p H. exact H.
  - intros p Hp _. eapply runs_weaken; [apply (runs_set_plain_value v p Hv)|]. intros p' (H1 & _ & H2). split; [congruence | exact H2].
  - intros p Hp _. unfold set_value_twice. eapply runs_bind; [apply (runs_set_plain_value v p Hv)|]. intros p1 (H1 & _).
    eapply runs_weaken; [apply (runs_set_plain_value v p1 Hv)|]. intros p' (H2 & _ & H3). split; [congruence | exact H3].
  - intros i' H. split; [now inversion H | exact H].
Qed.

(** ** Texts *)

(** The setters and getters of texts. *)
Definition text_accessors : list ((cstring -> positive -> icalcomponent -> err icalcomponent) * (icalcomponent -> err (option cstring)) * icalproperty_kind) :=
  [(icalcomponent_set_summary, icalcomponent_get_summary, ICAL_SUMMARY_PROPERTY);
   (icalcomponent_set_comment, icalcomponent_get_comment, ICAL_COMMENT_PROPERTY);
   (icalcomponent_set_uid, icalcomponent_get_uid, ICAL_UID_PROPERTY);
   (icalcomponent_set_description, icalcomponent_get_description, ICAL_DESCRIPTION_PROPERTY);
   (icalcomponent_set_location, icalcomponent_get_location, ICAL_LOCATION_PROPERTY);
   (icalcomponent_set_relcalid, icalcomponent_get_relcalid, ICAL_RELCALID_PROPERTY)].

Lemma get_text_edited kind m v c i i' :
  inner_of c = Some i' -> edited kind (holds (V_string v)) i i' -> get_inner_text kind m c = ret (Some v).
Proof. intros Hi [p' _ _ Hp _ (w & Hw & Hd)]. unfold get_inner_text. rewrite Hi, Hp, Hw. cbn. now rewrite Hd. Qed.

Lemma text_roundtrip kind m v addr comp inner :
  inner_of comp = Some inner -> icalproperty_kind_is_valid kind = true ->
  runs (set_inner_text kind v addr comp) (fun c => get_inner_text kind m c = ret (Some v) /\
    exists i', inner_of c = Some i' /\ same_zones comp c /\ same_shell inner i' /\ other_properties kind i' = other_properties kind inner).
Proof.
  intros Hi Hk. eapply runs_weaken; [apply (runs_set_inner_value kind _ addr comp inner Hi Hk); reflexivity|].
  intros c (i' & H1 & H2 & H3 & H4). split; [now apply (get_text_edited kind m v c inner i')|]. exists i'.
  destruct H4. auto.
Qed.

(** Setting the summary, comment, UID, description, location or RELCALID of a
    component, or of the component inside a calendar, succeeds; the getter then
    reads the text that was set, and every other property of the component, its
    other parts and the zones of the calendar are as before. *)
Theorem text_accessors_roundtrip set get kind v addr comp inner :
  In (set, get, kind) text_accessors -> inner_of comp = Some inner -> icalproperty_kind_is_valid kind = true ->
  runs (set v addr comp) (fun c => get c = ret (Some v) /\
    exists i', inner_of c = Some i' /\ same_zones comp c /\ same_shell inner i' /\ other_properties kind i' = other_properties kind inner).
Proof.
  intros Hin Hi Hk. cbn in Hin.
  repeat (destruct Hin as [[= <- <- <-]|Hin]; [now apply text_roundtrip|]). destruct Hin.
Qed.

(** ** Times *)

Definition tzid_params (p : icalproperty) : list icalparameter :=
  List.filter (fun q => icalparameter_isa q =? ICAL_TZID_PARAMETER) (pr_parameters p).

(** [p] has the time [t], with the TZID parameters [qs]. *)
Definition holds_time (t : icaltimetype) (qs : list icalparameter) (p : icalproperty) : Prop :=
  (exists w, pr_value p = Some w /\ v_data w = V_time t /\ is_time_kind (v_kind w) = true) /\ tzid_params p = qs.

(** Removing a parameter of a kind takes the first of them. *)
Lemma remove_kind_params kind p :
  (icalproperty_remove_parameter_by_kind kind p = p /\ Forall (fun q => (icalparameter_isa q =? kind) = false) (pr_parameters p)) \/
  exists pre q post, pr_parameters p = pre ++ q :: post /\ pr_parameters (icalproperty_remove_parameter_by_kind kind p) = pre ++ post /\
    icalparameter_isa q = kind /\ Forall (fun q => (icalparameter_isa q =? kind) = false) pre.
Proof.
  unfold icalproperty_remove_parameter_by_kind, remove_first_parameter.
  destruct (search_from _ _ _) as [n|] eqn:E.
  - apply search_place in E as (pre & q & post & Hl & -> & Hq & Hp). right. exists pre, q, post. cbn [Nat.add].
    split; [exact Hl|]. split; [|split; [lia | exact Hp]]. unfold remove_parameter_at. cbn [set_parameters pr_parameters]. rewrite Hl.
    apply remove_middle.
  - left. split; [reflexivity|]. now apply search_none in E.
Qed.

Lemma remove_same_kind kind p : pr_kind (icalproperty_remove_parameter_by_kind kind p) = pr_kind p /\
  pr_value (icalproperty_remove_parameter_by_kind kind p) = pr_value p.
Proof. unfold icalproperty_remove_parameter_by_kind, remove_first_parameter. now destruct (search_from _ _ _). Qed.

Lemma remove_tzid_params p :
  (length (tzid_params p) <= 1)%nat -> tzid_params (icalproperty_remove_parameter_by_kind ICAL_TZID_PARAMETER p) = [].
Proof.
  destruct (remove_kind_params ICAL_TZID_PARAMETER p) as [[-> H]|(pre & q & post & Hl & Hr & Hq & Hp)]; unfold tzid_params.
  - intros _. induction H as [|y l Hy _ IH]; [reflexivity|]. cbn [List.filter]. now rewrite Hy.
  - rewrite Hr, Hl, !filter_app. cbn [List.filter]. rewrite Hq, Z.eqb_refl, length_app. cbn [length]. intros H.
    destruct (List.filter _ pre); [|cbn in H; lia]. destruct (List.filter _ post); [reflexivity | cbn in H; lia].
Qed.

Lemma remove_value_tzid p : tzid_params (icalproperty_remove_parameter_by_kind ICAL_VALUE_PARAMETER p) = tzid_params p.
Proof.
  destruct (remove_kind_params ICAL_VALUE_PARAMETER p) as [[-> H]|(pre & q & post & Hl & Hr & Hq & Hp)]; [reflexivity|].
  unfold tzid_params. rewrite Hr, Hl, !filter_app. cbn [List.filter]. now rewrite Hq.
Qed.

(** The time is stored, and its VALUE parameter may go. *)
Lemma runs_set_time t p :
  icaltime_is_valid_time t = true -> (pr_kind p =? ICAL_DTSTAMP_PROPERTY) && icaltime_is_date t = false ->
  runs (set_time t p) (fun p' => pr_kind p' = pr_kind p /\ holds_time t (tzid_params p) p').
Proof.
  intros Hv Hd. unfold set_time.
  assert (exists k, is_time_kind k = true /\ forall st, new_time_value (pr_kind p) t st = ret (new_with k (V_time t)) st) as (k & Hk & E).
  { unfold new_time_value, icalvalue_new_datetime, icalvalue_new_datetimedate, icalvalue_set_datetime, icalvalue_set_datetimedate.
    destruct (pr_kind p =? ICAL_DTSTAMP_PROPERTY); cbn [andb] in Hd; rewrite ?Hd, Hv; cbn -[icaltime_is_null_time];
      (destruct (icaltime_is_null_time t); cbn;
       [exists ICAL_DATETIME_VALUE; now split | eexists; split; [|intros st; reflexivity]; now destruct (icaltime_is_date t)]). }
  apply runs_bind with (P := fun v => v = new_with k (V_time t)); [intros st Hst; rewrite E; eexists _, st; now split|].
  intros v ->.
  unfold set_value, icalproperty_set_value. cbv zeta. unfold icalvalue_isa. cbn [new_with v_kind]. rewrite Hk.
  unfold icalproperty_get_first_parameter. destruct (iterate _ _ _) as [q it].
  set (p1 := set_iterator it _). assert (pr_kind p1 = pr_kind p /\ holds_time t (tzid_params p) p1) as H1.
  { split; [reflexivity|]. split; [eexists; split; [reflexivity | now split] | reflexivity]. }
  destruct q as [q|]; [|now apply runs_ret]. eapply runs_bind; [apply runs_value_param_kind|]. intros k' _. apply runs_ret.
  case_if; [|exact H1]. destruct (remove_same_kind ICAL_VALUE_PARAMETER p1) as [Ek Ev]. destruct H1 as [Hk1 [Hw Ht]].
  unfold holds_time. rewrite Ek, Ev, remove_value_tzid. auto.
Qed.

Lemma runs_set_time_twice t p :
  icaltime_is_valid_time t = true -> (pr_kind p =? ICAL_DTSTAMP_PROPERTY) && icaltime_is_date t = false ->
  runs (set_time_twice t p) (fun p' => pr_kind p' = pr_kind p /\ holds_time t (tzid_params p) p').
Proof.
  intros Hv Hd. unfold set_time_twice. eapply runs_bind; [now apply runs_set_time|]. intros p1 [Hk1 [_ Ht1]].
  eapply runs_weaken; [apply runs_set_time; [exact Hv | congruence]|]. intros p' [Hk Ht]. rewrite Ht1 in Ht. split; [congruence | exact Ht].
Qed.

Definition tzid_list (t : icaltimetype) : list icalparameter :=
  match tzid_of_time t with Some tzid => [icalparameter_new_tzid tzid] | None => [] end.

Lemma add_tzid_holds t p : holds_time t [] p -> holds_time t (tzid_list t) (add_tzid t p).
Proof.
  unfold add_tzid, tzid_list. destruct (tzid_of_time t) as [tzid|]; [|auto]. intros [Hw Ht]. split; [exact Hw|].
  unfold tzid_params in *. cbn [icalproperty_add_parameter set_parameters pr_parameters]. rewrite filter_app, Ht. reflexivity.
Qed.

(** At most one TZID parameter. *)
Definition one_tzid (kind : icalproperty_kind) (c : icalcomponent) : Prop :=
  forall p, In p (co_properties c) -> pr_kind p = kind -> (length (tzid_params p) <= 1)%nat.

Lemma runs_set_zoned_time kind t addr i i1 :
  icalproperty_kind_is_valid kind = true -> (kind =? ICAL_DTSTAMP_PROPERTY) = false -> icaltime_is_valid_time t = true ->
  same_shell i i1 -> co_properties i1 = co_properties i -> one_tzid kind i ->
  runs (set_zoned_time kind t addr (first_property kind i) i1) (edited kind (holds_time t (tzid_list t)) i).
Proof.
  intros Hk Hd Hv Hs Hps Hone. assert (forall p, pr_kind p = kind -> (pr_kind p =? ICAL_DTSTAMP_PROPERTY) && icaltime_is_date t = false) as Hd'
    by (intros p ->; now rewrite Hd).
  unfold set_zoned_time. apply runs_change_or_add; try assumption.
  - intros a p H. exact H.
  - intros p Hp Hin. destruct (remove_same_kind ICAL_TZID_PARAMETER p) as [Ek _].
    eapply runs_bind; [apply runs_set_time; [exact Hv | apply Hd'; congruence]|]. intros p' [Hk' Ht]. apply runs_ret.
    rewrite remove_tzid_params in Ht by now apply Hone. split; [|now apply add_tzid_holds].
    unfold add_tzid. destruct (tzid_of_time t); cbn; congruence.
  - intros p Hp Hn. assert (tzid_params p = []) as Hn' by (unfold tzid_params; now rewrite Hn).
    eapply runs_bind; [apply runs_set_time_twice; [exact Hv | now apply Hd']|]. intros p' [Hk' Ht]. apply runs_ret. rewrite Hn' in Ht.
    split; [unfold add_tzid; destruct (tzid_of_time t); cbn; congruence | now apply add_tzid_holds].
Qed.

(** ** Reading a time *)

(** The name of the zone of [t] leads to the zone again. *)
Definition resolves (chain : list icalcomponent) (t : icaltimetype) : Prop :=
  match tzid_of_time t with
  | None => True
  | Some tzid =>
      match chain_timezone chain tzid with
      | Some (Some e) => zone_pointer e = zone t
      | Some None => builtin_timezone tzid = Some (zone t)
      | None => False
      end
  end.

Lemma set_same_zone t : icaltime_set_timezone t (zone t) = t.
Proof. unfold icaltime_set_timezone. rewrite zone_eqb_refl. now destruct (icaltime_is_date t). Qed.

Lemma first_tzid p : fst (icalproperty_get_first_parameter ICAL_TZID_PARAMETER p) = List.head (tzid_params p).
Proof.
  unfold icalproperty_get_first_parameter. pose proof (iterate_find (parameter_matches ICAL_TZID_PARAMETER) (pr_parameters p)) as H.
  destruct (iterate _ _ _) as [r it]. cbn [fst] in *. rewrite H. unfold tzid_params. clear.
  induction (pr_parameters p) as [|q l IH]; [reflexivity|]. cbn [find List.filter].
  change (parameter_matches ICAL_TZID_PARAMETER q) with ((icalparameter_isa q =? ICAL_TZID_PARAMETER) || false).
  rewrite orb_false_r. now destruct (icalparameter_isa q =? ICAL_TZID_PARAMETER).
Qed.

Lemma runs_read_time t p chain :
  holds_time t (tzid_list t) p -> resolves chain t -> runs (icalproperty_get_datetime_with_component p chain) (fun s => s = t).
Proof.
  intros [(w & Hw & Hd & Hk) Ht] Hr. unfold icalproperty_get_datetime_with_component, get_datetimedate, icalvalue_get_datetimedate.
  rewrite Hw, Hk, Hd. apply runs_bind_ret. destruct (icaltime_is_utc t); [now apply runs_ret|]. rewrite first_tzid, Ht. unfold tzid_list, resolves in *.
  destruct (tzid_of_time t) as [tzid|]; [|now apply runs_ret]. cbn [List.head]. unfold icalparameter_get_tzid.
  apply runs_bind with (P := fun o => o = Some tzid); [eapply runs_bind; [apply runs_clear_errno | intros _ _; now apply runs_ret]|].
  intros o ->.
  destruct (chain_timezone chain tzid) as [[e|]|]; [| |destruct Hr].
  - apply runs_ret. rewrite Hr. apply set_same_zone.
  - rewrite Hr. apply runs_ret, set_same_zone.
Qed.

Lemma get_timezone_same c d tzid : same_zones c d ->
  option_map fst (icalcomponent_get_timezone d tzid) = option_map fst (icalcomponent_get_timezone c tzid).
Proof.
  intros (_ & Ht & Hs). unfold icalcomponent_get_timezone. rewrite Ht, Hs. destruct (timezones c) as [l|]; [|reflexivity].
  destruct (if timezones_sorted c then _ else _) as [l'|]; [|reflexivity]. now destruct (zone_search _ _ _ _ _).
Qed.

(** The chain is searched in the same way. *)
Lemma chain_same l l' tzid : Forall2 same_zones l l' -> chain_timezone l' tzid = chain_timezone l tzid.
Proof.
  induction 1 as [|c d l l' Hcd _ IH]; [reflexivity|]. cbn [chain_timezone]. pose proof (get_timezone_same c d tzid Hcd) as E.
  destruct (icalcomponent_get_timezone c tzid) as [[[z|] ?]|], (icalcomponent_get_timezone d tzid) as [[[z'|] ?]|]; cbn in E; congruence.
Qed.

Lemma resolves_same l l' t : Forall2 same_zones l l' -> resolves l t -> resolves l' t.
Proof. intros H. unfold resolves. destruct (tzid_of_time t) as [tzid|]; [|auto]. now rewrite (chain_same l l' tzid H). Qed.

Lemma datetime_same p l l' : Forall2 same_zones l l' ->
  icalproperty_get_datetime_with_component p l' = icalproperty_get_datetime_with_component p l.
Proof.
  intros H. unfold icalproperty_get_datetime_with_component. destruct (fst _) as [q|]; [|reflexivity].
  assert (forall tzid, chain_timezone l' tzid = chain_timezone l tzid) as E by (intros; now apply chain_same).
  apply functional_extensionality. intros st. unfold bind. destruct (get_datetimedate _ _) as [[x s']|]; [|reflexivity].
  case_if; [reflexivity|]. destruct (icalparameter_get_tzid q s') as [[[tzid|] s2]|]; [|reflexivity..]. now rewrite E.
Qed.

(** ** Start, end and duration *)

Lemma find_filter {A} (test f : A -> bool) l : (forall y, test y = true -> f y = true) -> find test (List.filter f l) = find test l.
Proof.
  intros H. induction l as [|y l IH]; [reflexivity|]. cbn [List.filter find]. destruct (f y) eqn:Ef; cbn [find].
  - now destruct (test y).
  - destruct (test y) eqn:Et; [|exact IH]. apply H in Et. congruence.
Qed.

(** The first property of another kind stays, and so do all its properties. *)
Lemma edited_other kind kind' R i i' :
  edited kind R i i' -> kind' <> kind -> (kind' =? ICAL_ANY_PROPERTY) = false -> first_property kind' i' = first_property kind' i.
Proof.
  intros [p' _ Ho _ _ _] Hn Ha. rewrite !first_property_find. unfold other_properties in Ho.
  assert (forall y, property_matches kind' y = true -> negb (pr_kind y =? kind) = true) as Hf.
  { intros y. rewrite matches_kind by exact Ha. lia. }
  rewrite <- (find_filter (property_matches kind') _ (co_properties i') Hf), Ho. now apply find_filter.
Qed.

Lemma edited_one_tzid kind kind' R i i' : edited kind R i i' -> kind' <> kind -> one_tzid kind' i -> one_tzid kind' i'.
Proof.
  intros [p' _ Ho _ _ _] Hn H p Hp Hk. apply (H p); [|exact Hk]. unfold other_properties in Ho.
  assert (In p (List.filter (fun p => negb (pr_kind p =? kind)) (co_properties i'))) as Hin by (apply filter_In; split; [exact Hp | lia]).
  rewrite Ho in Hin. now apply filter_In in Hin.
Qed.

(** The inner component has no other inside. *)
Lemma inner_inner c i : inner_of c = Some i -> inner_of i = Some i.
Proof.
  rewrite !inner_of_eq. destruct (ckind_eqb (co_kind c) ICAL_VCALENDAR_COMPONENT) eqn:E; [|intros [= <-]; now rewrite E].
  intros H. apply find_some in H as [_ H]. now destruct (co_kind i).
Qed.

Lemma runs_read_dtstart c i t p up :
  inner_of c = Some i -> first_property ICAL_DTSTART_PROPERTY i = Some p -> holds_time t (tzid_list t) p -> resolves (c :: up) t ->
  runs (icalcomponent_get_dtstart c up) (fun s => s = t).
Proof. intros Hi Hp Ht Hr. unfold icalcomponent_get_dtstart, first_of. rewrite Hi, Hp. apply runs_bind_ret. now apply runs_read_time. Qed.

Lemma runs_inner_dtstart c i t p up :
  inner_of c = Some i -> first_property ICAL_DTSTART_PROPERTY i = Some p -> holds_time t (tzid_list t) p ->
  resolves (i :: around_inner c up) t -> runs (inner_dtstart c up) (fun s => s = t).
Proof. intros Hi Hp Ht Hr. unfold inner_dtstart. rewrite Hi. eapply runs_read_dtstart; eauto using inner_inner. Qed.

Lemma runs_read_dtend c i t p up :
  inner_of c = Some i -> first_property ICAL_DTEND_PROPERTY i = Some p -> holds_time t (tzid_list t) p -> resolves (c :: up) t ->
  runs (icalcomponent_get_dtend c up) (fun s => s = t).
Proof. intros Hi Hp Ht Hr. unfold icalcomponent_get_dtend, first_of. rewrite Hi, Hp. repeat apply runs_bind_ret. now apply runs_read_time. Qed.

Lemma runs_inner_dtend c i t p up :
  inner_of c = Some i -> first_property ICAL_DTEND_PROPERTY i = Some p -> holds_time t (tzid_list t) p ->
  resolves (i :: around_inner c up) t -> runs (inner_dtend c up) (fun s => s = t).
Proof. intros Hi Hp Ht Hr. unfold inner_dtend. rewrite Hi. eapply runs_read_dtend; eauto using inner_inner. Qed.

(** ** The setters *)

Lemma runs_set_dtstart t addr comp inner :
  inner_of comp = Some inner -> icalproperty_kind_is_valid ICAL_DTSTART_PROPERTY = true -> icaltime_is_valid_time t = true ->
  one_tzid ICAL_DTSTART_PROPERTY inner ->
  runs (icalcomponent_set_dtstart t addr comp) (fun c => exists i, inner_of c = Some i /\ same_zones comp c /\ same_shell inner i /\
    edited ICAL_DTSTART_PROPERTY (holds_time t (tzid_list t)) inner i).
Proof.
  intros Hi Hk Hv Hone. apply runs_setup; [exact Hi|]. intros i1 Hs Hps.
  eapply runs_weaken; [now apply runs_set_zoned_time|]. intros i H. split; [now inversion H | exact H].
Qed.

Lemma get_first_moves kind i i1 : same_shell i i1 -> co_properties i1 = co_properties i ->
  exists i2, icalcomponent_get_first_property kind i1 = (first_property kind i, i2) /\ same_shell i i2 /\ co_properties i2 = co_properties i.
Proof.
  intros Hs Hps. unfold first_property, icalcomponent_get_first_property. rewrite Hps. destruct (iterate _ _ _) as [r it].
  eexists. split; [reflexivity|]. split; [exact Hs | reflexivity].
Qed.

Lemma runs_set_dtend t addr comp inner :
  inner_of comp = Some inner -> icalproperty_kind_is_valid ICAL_DTEND_PROPERTY = true -> icaltime_is_valid_time t = true ->
  one_tzid ICAL_DTEND_PROPERTY inner -> first_property ICAL_DURATION_PROPERTY inner = None ->
  runs (icalcomponent_set_dtend t addr comp) (fun c => exists i, inner_of c = Some i /\ same_zones comp c /\ same_shell inner i /\
    edited ICAL_DTEND_PROPERTY (holds_time t (tzid_list t)) inner i).
Proof.
  intros Hi Hk Hv Hone Hno. apply runs_setup; [exact Hi|]. intros i1 Hs Hps. unfold unless_property.
  destruct (get_first_moves ICAL_DURATION_PROPERTY inner i1 Hs Hps) as (i2 & -> & Hs2 & Hps2). rewrite Hno.
  eapply runs_weaken; [now apply runs_set_zoned_time|]. intros i H. split; [now inversion H | exact H].
Qed.

Lemma runs_set_duration d addr comp inner :
  inner_of comp = Some inner -> icalproperty_kind_is_valid ICAL_DURATION_PROPERTY = true -> first_property ICAL_DTEND_PROPERTY inner = None ->
  runs (icalcomponent_set_duration d addr comp) (fun c => exists i, inner_of c = Some i /\ same_zones comp c /\ same_shell inner i /\
    edited ICAL_DURATION_PROPERTY (holds (V_duration d)) inner i).
Proof.
  intros Hi Hk Hno. apply runs_setup; [exact Hi|]. intros i1 Hs Hps. unfold unless_property.
  destruct (get_first_moves ICAL_DTEND_PROPERTY inner i1 Hs Hps) as (i2 & -> & Hs2 & Hps2). rewrite Hno.
  eapply runs_weaken; [apply (runs_change_or_add _ _ _ _ (holds (V_duration d)) inner i2 Hk Hs2 Hps2); [now intros a p H| |]|].
  1,2: intros p Hp _; eapply runs_weaken; [now apply runs_set_plain_value|]; intros p' (H1 & _ & H2); split; [congruence | exact H2].
  intros i H. split; [now inversion H | exact H].
Qed.

(** The zone of a time is found from the component and from the one inside it. *)
Definition resolves_in (comp inner : icalcomponent) (up : list icalcomponent) (t : icaltimetype) : Prop :=
  resolves (comp :: up) t /\ resolves (inner :: around_inner comp up) t.

Lemma same_zones_refl l : Forall2 same_zones l l.
Proof. induction l; constructor; [now repeat split | assumption]. Qed.

Lemma resolves_in_same comp inner c i up t :
  same_zones comp c -> same_shell inner i -> resolves_in comp inner up t -> resolves_in c i up t.
Proof.
  intros Hc (H1 & _ & _ & _ & H2 & H3) [Ho Hi]. split; [apply (resolves_same (comp :: up)); [|exact Ho]; constructor; [exact Hc | apply same_zones_refl]|].
  apply (resolves_same (inner :: around_inner comp up)); [|exact Hi]. constructor; [now split|]. unfold around_inner.
  destruct Hc as (Hk & Hc). rewrite Hk. case_if; [|apply same_zones_refl]. constructor; [now split | apply same_zones_refl].
Qed.

Lemma same_zones_trans a b c : same_zones a b -> same_zones b c -> same_zones a c.
Proof. unfold same_zones. intuition congruence. Qed.
Lemma same_shell_trans a b c : same_shell a b -> same_shell b c -> same_shell a c.
Proof. unfold same_shell. intuition congruence. Qed.

Lemma read_start_end c i up s e :
  inner_of c = Some i -> resolves_in c i up s -> resolves_in c i up e ->
  (exists p, first_property ICAL_DTSTART_PROPERTY i = Some p /\ holds_time s (tzid_list s) p) ->
  (exists p, first_property ICAL_DTEND_PROPERTY i = Some p /\ holds_time e (tzid_list e) p) ->
  first_property ICAL_DURATION_PROPERTY i = None ->
  runs (icalcomponent_get_dtstart c up) (fun t => t = s) /\ runs (icalcomponent_get_dtend c up) (fun t => t = e) /\
  runs (icalcomponent_get_duration c up) (fun d => d = icaltime_subtract e s).
Proof.
  intros Hi [Rs Rs'] [Re Re'] (p & Hp & Hs) (q & Hq & He) Hn. split; [now apply (runs_read_dtstart c i s p)|].
  split; [now apply (runs_read_dtend c i e q)|]. unfold icalcomponent_get_duration, first_of. rewrite Hi, Hq, Hn.
  repeat apply runs_bind_ret. eapply runs_bind; [now apply (runs_inner_dtstart c i s p)|]. intros ? ->.
  eapply runs_bind; [now apply (runs_inner_dtend c i e q)|]. intros ? ->. now apply runs_ret.
Qed.

Lemma read_start_duration c i up s d :
  inner_of c = Some i -> resolves_in c i up s ->
  (exists p, first_property ICAL_DTSTART_PROPERTY i = Some p /\ holds_time s (tzid_list s) p) ->
  (exists p, first_property ICAL_DURATION_PROPERTY i = Some p /\ holds (V_duration d) p) ->
  first_property ICAL_DTEND_PROPERTY i = None ->
  runs (icalcomponent_get_dtstart c up) (fun t => t = s) /\ runs (icalcomponent_get_dtend c up) (fun t => t = icaltime_add s d) /\
  runs (icalcomponent_get_duration c up) (fun x => x = d).
Proof.
  intros Hi [Rs Rs'] (p & Hp & Hs) (q & Hq & w & Hw & Hd) Hn. split; [now apply (runs_read_dtstart c i s p)|].
  unfold icalcomponent_get_dtend, icalcomponent_get_duration, first_of. rewrite Hi, Hq, Hn.
  unfold get_duration_value. split; repeat apply runs_bind_ret; rewrite Hw, Hd; [|now apply runs_ret].
  eapply runs_bind; [now apply (runs_inner_dtstart c i s p)|]. intros ? ->. apply runs_bind_ret. now apply runs_ret.
Qed.

(** A component gets a start and an end, or a start and a duration: the
    getters read back the start, the end and the duration that were set; the
    duration that was not set is the difference of the times, and the end that was
    not set is the start plus the duration.  The zone names of the times resolve to
    their zones, and there was neither an end nor a duration before. *)
Theorem start_end_roundtrip comp inner up s e d a1 a2 :
  inner_of comp = Some inner -> first_property ICAL_DTEND_PROPERTY inner = None -> first_property ICAL_DURATION_PROPERTY inner = None ->
  icalproperty_kind_is_valid ICAL_DTSTART_PROPERTY = true -> icalproperty_kind_is_valid ICAL_DTEND_PROPERTY = true ->
  icalproperty_kind_is_valid ICAL_DURATION_PROPERTY = true -> one_tzid ICAL_DTSTART_PROPERTY inner ->
  icaltime_is_valid_time s = true -> icaltime_is_valid_time e = true -> resolves_in comp inner up s -> resolves_in comp inner up e ->
  runs (c <- icalcomponent_set_dtstart s a1 comp ;; icalcomponent_set_dtend e a2 c)
    (fun c => runs (icalcomponent_get_dtstart c up) (fun t => t = s) /\ runs (icalcomponent_get_dtend c up) (fun t => t = e) /\
       runs (icalcomponent_get_duration c up) (fun x => x = icaltime_subtract e s)) /\
  runs (c <- icalcomponent_set_dtstart s a1 comp ;; icalcomponent_set_duration d a2 c)
    (fun c => runs (icalcomponent_get_dtstart c up) (fun t => t = s) /\
       runs (icalcomponent_get_dtend c up) (fun t => t = icaltime_add s d) /\ runs (icalcomponent_get_duration c up) (fun x => x = d)).
Proof.
  intros Hi Hne Hnd K1 K2 K3 Hone Vs Ve Rs Re.
  pose proof (runs_set_dtstart s a1 comp inner Hi K1 Vs Hone) as Hstart.
  split; (eapply runs_bind; [exact Hstart|]; intros c (i & Hi' & Hz & Hsh & Hed);
    pose proof (edited_other _ ICAL_DTEND_PROPERTY _ _ _ Hed ltac:(discriminate) eq_refl) as E1;
    pose proof (edited_other _ ICAL_DURATION_PROPERTY _ _ _ Hed ltac:(discriminate) eq_refl) as E2; rewrite Hne in E1; rewrite Hnd in E2).
  - assert (one_tzid ICAL_DTEND_PROPERTY i) as Hone'.
    { intros p Hp Hk. rewrite first_property_find in E1. apply (find_none _ _ E1) in Hp. rewrite matches_kind in Hp by reflexivity. lia. }
    eapply runs_weaken; [now apply (runs_set_dtend e a2 c i)|]. intros c' (i' & Hi2 & Hz' & Hsh' & Hed').
    pose proof (same_zones_trans _ _ _ Hz Hz') as Z. pose proof (same_shell_trans _ _ _ Hsh Hsh') as S'.
    apply (read_start_end c' i'); try assumption; try (eapply resolves_in_same; eassumption).
    + rewrite (edited_other _ ICAL_DTSTART_PROPERTY _ _ _ Hed' ltac:(discriminate) eq_refl). destruct Hed; eauto.
    + destruct Hed'; eauto.
    + now rewrite (edited_other _ ICAL_DURATION_PROPERTY _ _ _ Hed' ltac:(discriminate) eq_refl).
  - eapply runs_weaken; [now apply (runs_set_duration d a2 c i)|]. intros c' (i' & Hi2 & Hz' & Hsh' & Hed').
    pose proof (same_zones_trans _ _ _ Hz Hz') as Z. pose proof (same_shell_trans _ _ _ Hsh Hsh') as S'.
    apply (read_start_duration c' i'); try assumption; try (eapply resolves_in_same; eassumption).
    + rewrite (edited_other _ ICAL_DTSTART_PROPERTY _ _ _ Hed' ltac:(discriminate) eq_refl). destruct Hed; eauto.
    + destruct Hed'; eauto.
    + now rewrite (edited_other _ ICAL_DTEND_PROPERTY _ _ _ Hed' ltac:(discriminate) eq_refl).
Qed.

(** ** Sequences of edits *)

(** The inner component does not say twice when it ends. *)
Definition one_end_inner (i : icalcomponent) : Prop :=
  first_property ICAL_DTEND_PROPERTY i = None \/ first_property ICAL_DURATION_PROPERTY i = None.
Definition one_end (c : icalcomponent) : Prop := forall i, inner_of c = Some i -> one_end_inner i.

(** The texts that have a setter. *)
Definition text_kind (kind : icalproperty_kind) : bool :=
  existsb (Z.eqb kind) [ICAL_SUMMARY_PROPERTY; ICAL_COMMENT_PROPERTY; ICAL_UID_PROPERTY; ICAL_DESCRIPTION_PROPERTY; ICAL_LOCATION_PROPERTY;
    ICAL_RELCALID_PROPERTY].
Definition is_setter (e : edit) : bool := match e with SetText kind _ => text_kind kind | _ => true end.

Definition keeps_kind (f : icalproperty -> err icalproperty) : Prop := forall p, post (f p) (fun p' => pr_kind p' = pr_kind p).

Lemma keeps_set_value v : keeps_kind (set_value v).
Proof.
  intros p. unfold set_value, icalproperty_set_value. cbv zeta. case_if; [|now apply post_ret].
  unfold icalproperty_get_first_parameter. destruct (iterate _ _ _) as [[q|] it]; [|now apply post_ret].
  apply post_any. intros k. apply post_ret. case_if; [|reflexivity].
  exact (proj1 (remove_same_kind ICAL_VALUE_PARAMETER (set_iterator it _))).
Qed.

Lemma keeps_kind_bind f g : keeps_kind f -> keeps_kind g -> keeps_kind (fun p => p <- f p ;; g p).
Proof. intros Hf Hg p. eapply post_bind; [apply Hf|]. intros p1 E st p' st' H. rewrite <- E. now apply (Hg p1 st p' st'). Qed.

Lemma keeps_set_time t : keeps_kind (set_time t).
Proof. intros p. unfold set_time. apply post_any. intros v. apply keeps_set_value. Qed.

Lemma keeps_add_tzid f t : keeps_kind f -> keeps_kind (fun p => p <- f p ;; ret (add_tzid t p)).
Proof. intros Hf. apply keeps_kind_bind; [exact Hf|]. intros p. apply post_ret. unfold add_tzid. now destruct (tzid_of_time t). Qed.

Lemma keeps_replace_tzid t : keeps_kind (replace_tzid t).
Proof.
  intros p. unfold replace_tzid. destruct (tzid_of_time t) as [tzid|]; [|now apply post_ret].
  unfold icalproperty_set_parameter. cbn. apply post_ret. apply (remove_same_kind ICAL_TZID_PARAMETER p).
Qed.

Lemma keeps_zoned t : keeps_kind (fun p => p <- set_time t (icalproperty_remove_parameter_by_kind ICAL_TZID_PARAMETER p) ;; ret (add_tzid t p)).
Proof.
  intros p. rewrite <- (proj1 (remove_same_kind ICAL_TZID_PARAMETER p)).
  apply (keeps_add_tzid _ _ (keeps_set_time t)).
Qed.

Create HintDb keeps.
Hint Resolve keeps_set_value keeps_set_time keeps_add_tzid keeps_replace_tzid keeps_zoned keeps_kind_bind : keeps.

Notation touched kind := (edited kind (fun _ => True)).

Lemma post_change_or_add addr kind change fresh i i1 :
  (kind =? ICAL_ANY_PROPERTY) = false -> same_shell i i1 -> co_properties i1 = co_properties i -> keeps_kind change -> keeps_kind fresh ->
  post (change_or_add addr kind change fresh (first_property kind i) i1) (touched kind i).
Proof.
  intros Ha Hs Hps Hc Hf. unfold change_or_add. destruct (first_property kind i) as [p|] eqn:Ep.
  - pose proof Ep as Ep'. rewrite first_property_find in Ep'. apply find_some in Ep' as [_ Ht]. rewrite matches_kind in Ht by exact Ha.
    eapply post_bind; [apply Hc|]. intros p' Hk. apply post_ret. apply (put_first_edited kind _ i i1 p p'); try assumption; [apply Z.eqb_eq in Ht; congruence | exact I].
  - unfold icalproperty_new_impl. case_if; [|intros st x st' Hu; discriminate Hu]. eapply post_bind; [apply Hf|].
    intros p' Hk. apply post_ret. now apply add_edited.
Qed.

Lemma touched_one_end kind i i' :
  touched kind i i' -> kind <> ICAL_DTEND_PROPERTY -> kind <> ICAL_DURATION_PROPERTY -> one_end_inner i -> one_end_inner i'.
Proof. intros H H1 H2. unfold one_end_inner. rewrite !(edited_other _ _ _ _ _ H) by (congruence || reflexivity). auto. Qed.

Lemma no_inner_one_end c d : inner_of c = None -> same_shell c d -> one_end d.
Proof.
  intros Hi (Hk & _ & _ & Hc & _) j Hj. rewrite inner_of_eq in Hi, Hj. rewrite Hk, Hc in Hj.
  destruct (ckind_eqb (co_kind c) ICAL_VCALENDAR_COMPONENT); congruence.
Qed.

(** The setters keep what their bodies keep of the inner component. *)
Lemma post_setup kind body comp :
  (forall i i1, inner_of comp = Some i -> same_shell i i1 -> co_properties i1 = co_properties i ->
     post (body (first_property kind i) i1) (fun i' => same_shell i i' /\ (one_end_inner i -> one_end_inner i'))) ->
  one_end comp -> post (ICALSETUPSET kind body comp) one_end.
Proof.
  intros Hb Hone. unfold ICALSETUPSET. destruct (get_inner_eq comp) as (c1 & -> & Hs). destruct (inner_of comp) as [i|] eqn:Hi.
  - destruct (get_first_moves kind i i) as (i1 & -> & Hs1 & Hp1); [now repeat split | reflexivity|].
    eapply post_bind; [now apply Hb|]. intros i' [Hs' H]. apply post_ret. intros j Hj.
    rewrite (inner_put i i' comp c1) in Hj by assumption. injection Hj as <-. now apply H, Hone.
  - apply post_any. intros _. apply post_ret. now apply (no_inner_one_end comp).
Qed.

Lemma post_set_other addr kind change fresh comp :
  kind <> ICAL_ANY_PROPERTY -> kind <> ICAL_DTEND_PROPERTY -> kind <> ICAL_DURATION_PROPERTY -> keeps_kind change -> keeps_kind fresh ->
  one_end comp -> post (ICALSETUPSET kind (change_or_add addr kind change fresh) comp) one_end.
Proof.
  intros Ha H1 H2 Hc Hf. apply post_setup. intros i i1 Hi Hs Hps st i' st' E.
  apply post_change_or_add in E; auto; [|now apply Z.eqb_neq]. split; [now inversion E | now apply (touched_one_end kind)].
Qed.

(** One of the two kinds is set, unless there is the other. *)
Lemma post_unless kind other addr change fresh i i1 :
  (kind = ICAL_DTEND_PROPERTY /\ other = ICAL_DURATION_PROPERTY) \/ (kind = ICAL_DURATION_PROPERTY /\ other = ICAL_DTEND_PROPERTY) ->
  keeps_kind change -> keeps_kind fresh -> same_shell i i1 -> co_properties i1 = co_properties i ->
  post (unless_property other (change_or_add addr kind change fresh (first_property kind i)) i1)
    (fun i' => same_shell i i' /\ (one_end_inner i -> one_end_inner i')).
Proof.
  intros Hko Hc Hf Hs Hps. unfold unless_property. destruct (get_first_moves other i i1 Hs Hps) as (i2 & -> & Hs2 & Hps2).
  destruct (first_property other i) as [q|] eqn:Eo.
  - apply post_any. intros _. apply post_ret. split; [exact Hs2|]. unfold one_end_inner. now rewrite !first_property_find, Hps2.
  - intros st i' st' E. assert ((kind =? ICAL_ANY_PROPERTY) = false /\ (other =? ICAL_ANY_PROPERTY) = false /\ other <> kind) as (Ha & Ho & Hn)
      by (destruct Hko as [[-> ->]|[-> ->]]; now repeat split).
    apply post_change_or_add in E; try assumption. split; [now inversion E|]. intros _.
    pose proof (edited_other _ other _ _ _ E Hn Ho) as E'. rewrite Eo in E'. destruct Hko as [[_ ->]|[_ ->]]; [now right | now left].
Qed.

Lemma due_one_end up addr t comp : one_end comp -> post (icalcomponent_set_due t addr up comp) one_end.
Proof.
  intros Hone. unfold icalcomponent_set_due. destruct (get_inner_eq comp) as (c1 & -> & Hs). destruct (inner_of comp) as [i|] eqn:Hi.
  2:{ repeat (apply post_any; intros _). apply post_ret. now apply (no_inner_one_end comp). }
  destruct (get_first_moves ICAL_DUE_PROPERTY i i) as (i1 & -> & Hs1 & Hp1); [now repeat split | reflexivity|].
  destruct (get_first_moves ICAL_DURATION_PROPERTY i i1 Hs1 Hp1) as (i2 & -> & Hs2 & Hp2).
  apply post_bind with (P := fun i' => same_shell i i' /\ (one_end_inner i -> one_end_inner i')).
  2:{ intros i' [Hs' H]. apply post_ret. intros j Hj. rewrite (inner_put i i' comp c1) in Hj by assumption. injection Hj as <-. now apply H, Hone. }
  destruct (first_property ICAL_DUE_PROPERTY i) as [q|] eqn:Eq; [|destruct (first_property ICAL_DURATION_PROPERTY i) as [p|] eqn:Ep].
  1,3: rewrite <- Eq; intros st i' st' E; apply post_change_or_add in E; try assumption; try reflexivity; auto with keeps;
    split; [now inversion E | now apply (touched_one_end ICAL_DUE_PROPERTY)].
  apply post_any. intros start. apply post_any. intros due. eapply post_bind; [apply keeps_set_value|]. intros p' Hk. apply post_ret.
  pose proof Ep as Ep'. rewrite first_property_find in Ep'. apply find_some in Ep' as [_ Hm]. rewrite matches_kind in Hm by reflexivity.
  assert (touched ICAL_DURATION_PROPERTY i (put_first p' i2)) as Ht.
  { apply (put_first_edited _ _ i i2 p); try assumption; [reflexivity | apply Z.eqb_eq in Hm; congruence | exact I]. }
  split; [now inversion Ht|]. intros [H|H]; [left | congruence]. now rewrite (edited_other _ ICAL_DTEND_PROPERTY _ _ _ Ht).
Qed.

(** METHOD is a property of the component itself; inside a calendar it touches no other component. *)
Lemma method_one_end m addr comp : one_end comp -> post (icalcomponent_set_method m addr comp) one_end.
Proof.
  intros Hone. unfold icalcomponent_set_method.
  destruct (get_first_moves ICAL_METHOD_PROPERTY comp comp) as (c1 & -> & Hs1 & Hp1); [now repeat split | reflexivity|].
  intros st c st' E. apply post_change_or_add in E; try assumption; try reflexivity.
  2: apply keeps_set_value. 2: apply keeps_kind_bind; apply keeps_set_value.
  intros j Hj. rewrite inner_of_eq in Hj. pose proof E as [_ (Hk & _ & _ & Hc & _) _ _ _ _]. rewrite Hk, Hc in Hj.
  destruct (ckind_eqb (co_kind comp) ICAL_VCALENDAR_COMPONENT) eqn:Ek.
  - apply Hone. now rewrite inner_of_eq, Ek.
  - injection Hj as <-. apply (touched_one_end ICAL_METHOD_PROPERTY comp); try assumption; try discriminate.
    apply Hone. now rewrite inner_of_eq, Ek.
Qed.

Lemma edit_one_end up addr e comp : is_setter e = true -> one_end comp -> post (apply_edit up addr e comp) one_end.
Proof.
  intros He Hone. destruct e; cbn [apply_edit];
    try (apply post_set_other; try assumption; try discriminate; unfold set_value_twice, set_time_twice, set_zoned_time; auto 6 with keeps; fail).
  - cbn [is_setter] in He. apply existsb_exists in He as (k & Hk & ->%Z.eqb_eq).
    apply post_set_other; try assumption; [..|apply keeps_set_value | apply keeps_kind_bind; apply keeps_set_value];
      intros ->; cbn in Hk; intuition discriminate.
  - now apply method_one_end.
  - apply post_setup; [|exact Hone]. intros i i1 _ Hs Hps. apply post_unless; try assumption; [now left|..]; unfold set_time_twice; auto with keeps.
  - apply post_setup; [|exact Hone]. intros i i1 _ Hs Hps. apply post_unless; try assumption; [now right|..]; auto with keeps.
  - now apply due_one_end.
Qed.

(** C25: whatever sequence of setters is called, in any order and with any
    arguments, also invalid ones: a component that does not have both an end and a
    duration never gets both. *)
Theorem edits_one_end up es comp st comp' st' : forall addr,
  Forall (fun e => is_setter e = true) es -> one_end comp -> apply_edits up addr es comp st = Some (comp', st') -> one_end comp'.
Proof.
  revert comp st. induction es as [|e es IH]; intros comp st addr Hes Hone E; cbn [apply_edits] in E.
  - injection E as <- _. exact Hone.
  - inversion Hes; subst. unfold bind in E. destruct (apply_edit up addr e comp st) as [[c1 st1]|] eqn:E1; [|discriminate].
    apply (IH c1 st1 (Pos.succ addr)); [assumption | now apply (edit_one_end up addr e comp) in E1 | exact E].
Qed.
End Edit.
