(* ===== verification/IcalComponentRecur.v ===== *)
(** * The times that a component takes (icalcomponent.c)

    The span of a component, whether it is busy, whether an occurrence is excluded
    by an EXDATE or an EXRULE, and the walk over all occurrences within limits.

    The callback of [icalcomponent_foreach_recurrence] is not under the control of
    the library: the model returns the spans it is called with, in order.  The
    loops over properties save and restore the internal iterator of the component
    around the calls that move it, so a loop sees each property of its kind once.
    The fuel bounds the number of occurrences of a rule that are looked at. *)
From Stdlib Require Import String Ascii ZArith Lia Bool List.
From S2P Require Import Prelude CString IcalError IcalTime IcalDuration IcalPeriod IcalRecurType IcalRecurIter IcalValueText IcalValue IcalLine IcalParameter IcalProperty IcalComponent IcalComponentZones IcalTimezone IcalComponentAccess.
Import ListNotations.
#[local] Open Scope Z_scope.
#[local] Open Scope cstring_scope.
#[local] Open Scope err_scope.

Section Recur.
Context `{PROPS : PropertyTables} `{PARAMS : ParameterTables} `{FLOAT : FloatOps} `{TZ : TimezoneConv} `{BUILTIN : BuiltinZones}.

Definition has_span (k : icalcomponent_kind) : bool :=
  match k with
  | ICAL_VEVENT_COMPONENT | ICAL_VJOURNAL_COMPONENT | ICAL_VTODO_COMPONENT | ICAL_VFREEBUSY_COMPONENT => true
  | _ => false
  end.

Definition ONE_DAY : Z := 60 * 60 * 24.

(** The component that a calendar stands for. *)
Definition span_component (comp : icalcomponent) : option icalcomponent :=
  if ckind_eqb (co_kind comp) ICAL_VCALENDAR_COMPONENT
  then match inner_of comp with
       | Some inner => Some inner
       | None => find (component_matches ICAL_VTIMEZONE_COMPONENT) (co_components comp)
       end
  else Some comp.

Definition icalcomponent_get_span (comp : icalcomponent) (up : list icalcomponent) : err icaltime_span :=
  let refuse := (icalerror_set_errno ICAL_MALFORMEDDATA_ERROR ;;; ret (Span 0 0 1)) in
  match span_component comp with
  | None => refuse
  | Some inner =>
      if negb (has_span (co_kind inner)) then refuse
      else
        start <- icalcomponent_get_dtstart comp up ;;
        if icaltime_is_null_time start then ret (Span 0 0 1)
        else
          end_ <- icalcomponent_get_dtend comp up ;;
          if icaltime_is_null_time end_ && negb (icaltime_is_date start) then ret (Span 0 0 1)
          else
            let end_ := if icaltime_is_null_time end_ then start else end_ in
            let fin := icaltime_as_timet_with_zone end_ ZONE_UTC in
            ret (Span (icaltime_as_timet_with_zone start ZONE_UTC) (if icaltime_is_date start then fin + (ONE_DAY - 1) else fin) 1)
  end.

(** ** Exclusions *)

Definition same_occurrence (recurtime exdatetime : icaltimetype) : bool :=
  (icaltime_is_date exdatetime && (icaltime_compare_date_only recurtime exdatetime =? 0)) || (icaltime_compare recurtime exdatetime =? 0).

Fixpoint excluded_by_dates (exdates : list icalproperty) (chain : list icalcomponent) (recurtime : icaltimetype) : err bool :=
  match exdates with
  | [] => ret false
  | exdate :: rest =>
      exdatetime <- icalproperty_get_datetime_with_component exdate chain ;;
      if same_occurrence recurtime exdatetime then ret true else excluded_by_dates rest chain recurtime
  end.

(** The loop over the occurrences of an EXRULE: [k] of them at most. *)
Fixpoint exrule_loop (fuel k : nat) (recurtime : icaltimetype) : it bool :=
  match k with
  | O => IcalRecurIter.undefined
  | S k =>
      (exrule_time <- icalrecur_iterator_next fuel ;;
       if icaltime_is_null_time exrule_time then iret false
       else if icaltime_compare recurtime exrule_time =? 0 then iret true
       else if icaltime_compare recurtime exrule_time =? 1 then iret false
       else exrule_loop fuel k recurtime)%it
  end.

(** What an iterator is run for. *)
Definition run_iterator {A} (f : it A) (i : icalrecur_iterator) : err A :=
  fun st => match f i st with Some (a, _, st) => Some (a, st) | None => None end.

Fixpoint excluded_by_rules (fuel : nat) (exrules : list icalproperty) (dtstart recurtime : icaltimetype) : err bool :=
  match exrules with
  | [] => ret false
  | exrule :: rest =>
      recur <- icalvalue_get_recur (pr_value exrule) ;;
      exrule_itr <- icalrecur_iterator_new fuel recur dtstart ;;
      found <- (match exrule_itr with Some i => run_iterator (exrule_loop fuel fuel recurtime) i | None => ret false end) ;;
      if found : bool then ret true else excluded_by_rules fuel rest dtstart recurtime
  end.

Definition properties_of (kind : icalproperty_kind) (c : icalcomponent) : list icalproperty :=
  filter (property_matches kind) (co_properties c).

Definition icalproperty_recurrence_is_excluded (fuel : nat) (comp : icalcomponent) (up : list icalcomponent)
  (dtstart recurtime : icaltimetype) : err bool :=
  if icaltime_is_null_time recurtime then ret true
  else
    by_date <- excluded_by_dates (properties_of ICAL_EXDATE_PROPERTY comp) (comp :: up) recurtime ;;
    if by_date : bool then ret true
    else excluded_by_rules fuel (properties_of ICAL_EXRULE_PROPERTY comp) dtstart recurtime.

(** ** Busy or free *)

Definition transp_is_busy (t : Z) : bool :=
  (t =? ICAL_TRANSP_OPAQUE) || (t =? ICAL_TRANSP_OPAQUENOCONFLICT) || (t =? ICAL_TRANSP_NONE).

Definition icalcomponent_is_busy (comp : icalcomponent) : err bool :=
  busy <- (match first_property ICAL_TRANSP_PROPERTY comp with
           | Some p => t <- get_enum ICAL_TRANSP_NONE (pr_value p) ;; ret (transp_is_busy t)
           | None => ret true
           end) ;;
  status <- icalcomponent_get_status comp ;;
  ret (busy && negb ((status =? ICAL_STATUS_CANCELLED) || (status =? ICAL_STATUS_TENTATIVE))).

(** ** Occurrences *)

Definition LONG_MAX : Z := 9223372036854775807.

(** The occurrence at [t], when it is not excluded and overlaps the limits. *)
Definition occurrence (fuel : nat) (comp : icalcomponent) (up : list icalcomponent) (dtstart t : icaltimetype) (dtduration busy : Z)
  (limits : icaltime_span) : err (list icaltime_span) :=
  let start := icaltime_as_timet_with_zone t (zone_or_utc t) in
  let recurspan := Span start (start + dtduration) busy in
  excluded <- icalproperty_recurrence_is_excluded fuel comp up dtstart t ;;
  ret (if negb excluded && icaltime_span_overlaps recurspan limits then [recurspan] else []).

(** The occurrences of one rule. *)
Fixpoint occurrences_loop (fuel k : nat) (comp : icalcomponent) (up : list icalcomponent) (dtstart end_ : icaltimetype)
  (dtduration busy : Z) (limits : icaltime_span) : it (list icaltime_span) :=
  match k with
  | O => IcalRecurIter.undefined
  | S k =>
      (rrule_time <- icalrecur_iterator_next fuel ;;
       if icaltime_is_null_time rrule_time || (0 <? icaltime_compare rrule_time end_) then iret []
       else here <- lift (occurrence fuel comp up dtstart rrule_time dtduration busy limits) ;;
            rest <- occurrences_loop fuel k comp up dtstart end_ dtduration busy limits ;;
            iret (here ++ rest))%it
  end.

(** Occurrences that begin before the limits may end within them. *)
Definition seek_start (fuel : nat) (recur : icalrecurrencetype) (start : icaltimetype) (dtduration : Z) : it unit :=
  if count recur =? 0
  then (icalrecur_iterator_set_start fuel (icaltime_adjust start 0 0 0 (- to_int32 dtduration)) ;;; iret tt)%it
  else iret tt.

Fixpoint occurrences_of_rules (fuel : nat) (rrules : list icalproperty) (comp : icalcomponent) (up : list icalcomponent)
  (dtstart start end_ : icaltimetype) (dtduration busy : Z) (limits : icaltime_span) : err (list icaltime_span) :=
  match rrules with
  | [] => ret []
  | rrule :: rest =>
      recur <- icalvalue_get_recur (pr_value rrule) ;;
      rrule_itr <- icalrecur_iterator_new fuel recur dtstart ;;
      here <- (match rrule_itr with
               | Some i =>
                   run_iterator (seek_start fuel recur start dtduration ;;;
                                 occurrences_loop fuel fuel comp up dtstart end_ dtduration busy limits)%it i
               | None => ret []
               end) ;;
      more <- occurrences_of_rules fuel rest comp up dtstart start end_ dtduration busy limits ;;
      ret (here ++ more)
  end.

(** RDATEs that are periods have no time and are passed over. *)
Fixpoint occurrences_of_rdates (fuel : nat) (rdates : list icalproperty) (comp : icalcomponent) (up : list icalcomponent)
  (dtstart : icaltimetype) (dtduration busy : Z) (limits : icaltime_span) : err (list icaltime_span) :=
  match rdates with
  | [] => ret []
  | rdate :: rest =>
      t <- get_datetimeperiod_time (pr_value rdate) ;;
      here <- (if icaltime_is_null_time t then ret [] else occurrence fuel comp up dtstart t dtduration busy limits) ;;
      more <- occurrences_of_rdates fuel rest comp up dtstart dtduration busy limits ;;
      ret (here ++ more)
  end.

(** A task without a start begins when it is due. *)
Definition first_start (comp : icalcomponent) (up : list icalcomponent) : err icaltimetype :=
  dtstart <- icalcomponent_get_dtstart comp up ;;
  if icaltime_is_null_time dtstart && ckind_eqb (co_kind comp) ICAL_VTODO_COMPONENT
  then icalcomponent_get_due comp up else ret dtstart.

(** A date without an end lasts for a day. *)
Definition first_end (comp : icalcomponent) (up : list icalcomponent) (dtstart : icaltimetype) : err icaltimetype :=
  dtend <- icalcomponent_get_dtend comp up ;;
  ret (if icaltime_is_null_time dtend && icaltime_is_date dtstart then icaltime_add dtstart (Duration 0 1 0 0 0 0) else dtend).

Definition limit_span (start end_ : icaltimetype) : icaltime_span :=
  Span (icaltime_as_timet_with_zone start ZONE_UTC)
    (if negb (icaltime_is_null_time end_) then icaltime_as_timet_with_zone end_ ZONE_UTC else LONG_MAX) 0.

(** The first occurrence is reported here only when there is no rule. *)
Definition icalcomponent_foreach_recurrence (fuel : nat) (comp : icalcomponent) (up : list icalcomponent) (start end_ : icaltimetype)
  : err (list icaltime_span) :=
  dtstart <- first_start comp up ;;
  if icaltime_is_null_time dtstart then ret []
  else
    dtend <- first_end comp up dtstart ;;
    busy <- icalcomponent_is_busy comp ;;
    let span := icaltime_span_new dtstart dtend 1 in
    let basespan := Span (span_start span) (span_end span) (b2z busy) in
    let limits := limit_span start end_ in
    let dtduration := span_end basespan - span_start basespan in
    let rrules := properties_of ICAL_RRULE_PROPERTY comp in
    first <- (match rrules with
              | [] =>
                  excluded <- icalproperty_recurrence_is_excluded fuel comp up dtstart dtstart ;;
                  ret (if negb excluded && icaltime_span_overlaps basespan limits then [basespan] else [])
              | _ => ret []
              end) ;;
    by_rules <- occurrences_of_rules fuel rrules comp up dtstart start end_ dtduration (b2z busy) limits ;;
    by_dates <- occurrences_of_rdates fuel (properties_of ICAL_RDATE_PROPERTY comp) comp up dtstart dtduration (b2z busy) limits ;;
    ret (first ++ by_rules ++ by_dates).
End Recur.
