(* ===== verification/IcalComponentSpans.v ===== *)
(** * The occurrences of a component: theorems

    Without rules the spans that are reported are exactly those of the start and
    the RDATEs that no EXDATE excludes and that overlap the limits.  With rules,
    every span that is reported is one of an occurrence that is not excluded,
    overlaps the limits and is as long as the first. *)
From Stdlib Require Import String Ascii ZArith Lia Bool List.
From S2P Require Import Prelude CString IcalError IcalTime IcalDuration IcalRecurType IcalRecurIter IcalValueText IcalValue IcalValueSafe IcalLine IcalParameter IcalProperty IcalComponent IcalComponentZones IcalTimezone IcalComponentAccess IcalComponentRecur.
Import ListNotations.
#[local] Open Scope Z_scope.
#[local] Open Scope err_scope.

Section Spans.
Context `{PROPS : PropertyTables} `{PARAMS : ParameterTables} `{FLOAT : FloatOps} `{TZ : TimezoneConv} `{BUILTIN : BuiltinZones}.

(** ** Without rules *)

(** [x] is what [m] returns. *)
Notation returns m x := (runs m (fun y => y = x)).

(** The times of the EXDATEs and RDATEs. *)
Definition exdates_are (comp : icalcomponent) (up : list icalcomponent) (ts : list icaltimetype) : Prop :=
  Forall2 (fun p t => returns (icalproperty_get_datetime_with_component p (comp :: up)) t) (properties_of ICAL_EXDATE_PROPERTY comp) ts.
Definition rdates_are (comp : icalcomponent) (ts : list icaltimetype) : Prop :=
  Forall2 (fun p t => returns (get_datetimeperiod_time (pr_value p)) t) (properties_of ICAL_RDATE_PROPERTY comp) ts.

Definition kept (exdates : list icaltimetype) (t : icaltimetype) : bool :=
  negb (icaltime_is_null_time t) && negb (existsb (same_occurrence t) exdates).

(** An occurrence at [t], of the length of the first. *)
Definition span_at (base : icaltime_span) (t : icaltimetype) : icaltime_span :=
  let start := icaltime_as_timet_with_zone t (zone_or_utc t) in
  Span start (start + (span_end base - span_start base)) (is_busy base).

(** The spans to report. *)
Definition plain_spans (dtstart dtend : icaltimetype) (busy : bool) (rdates exdates : list icaltimetype) (limits : icaltime_span)
  : list icaltime_span :=
  let base := icaltime_span_new dtstart dtend (b2z busy) in
  filter (fun s => icaltime_span_overlaps s limits) (map (span_at base) (filter (kept exdates) (dtstart :: rdates))).

Lemma runs_excluded_by_dates chain t : forall ps ts,
  Forall2 (fun p t => returns (icalproperty_get_datetime_with_component p chain) t) ps ts ->
  returns (excluded_by_dates ps chain t) (existsb (same_occurrence t) ts).
Proof.
  induction 1 as [|p x ps ts Hp _ IH]; cbn [excluded_by_dates existsb]; [now apply runs_ret|].
  eapply runs_bind; [exact Hp|]. intros ? ->. destruct (same_occurrence t x); [now apply runs_ret | exact IH].
Qed.

Lemma runs_excluded fuel comp up dtstart t exdates :
  properties_of ICAL_EXRULE_PROPERTY comp = [] -> exdates_are comp up exdates ->
  returns (icalproperty_recurrence_is_excluded fuel comp up dtstart t) (negb (kept exdates t)).
Proof.
  intros Hr He. unfold icalproperty_recurrence_is_excluded, kept. destruct (icaltime_is_null_time t); [now apply runs_ret|].
  eapply runs_bind; [exact (runs_excluded_by_dates (comp :: up) t _ exdates He)|]. intros ? ->. rewrite Hr. cbn [negb andb]. rewrite negb_involutive.
  destruct (existsb _ _); now apply runs_ret.
Qed.

Lemma runs_occurrence fuel comp up dtstart t exdates base limits :
  properties_of ICAL_EXRULE_PROPERTY comp = [] -> exdates_are comp up exdates ->
  returns (occurrence fuel comp up dtstart t (span_end base - span_start base) (is_busy base) limits)
    (filter (fun s => icaltime_span_overlaps s limits) (map (span_at base) (filter (kept exdates) [t]))).
Proof.
  intros Hr He. unfold occurrence. cbv zeta. eapply runs_bind; [exact (runs_excluded fuel comp up dtstart t exdates Hr He)|]. intros ? ->. apply runs_ret.
  rewrite negb_involutive. cbn [filter map]. destruct (kept exdates t); reflexivity.
Qed.

Lemma runs_rdates fuel comp up dtstart exdates base limits :
  properties_of ICAL_EXRULE_PROPERTY comp = [] -> exdates_are comp up exdates -> forall ps ts,
  Forall2 (fun p t => returns (get_datetimeperiod_time (pr_value p)) t) ps ts ->
  returns (occurrences_of_rdates fuel ps comp up dtstart (span_end base - span_start base) (is_busy base) limits)
    (filter (fun s => icaltime_span_overlaps s limits) (map (span_at base) (filter (kept exdates) ts))).
Proof.
  intros Hr He. induction 1 as [|p t ps ts Hp _ IH]; cbn [occurrences_of_rdates]; [now apply runs_ret|].
  eapply runs_bind; [exact Hp|]. intros ? ->.
  apply runs_bind with (P := fun l => l = filter (fun s => icaltime_span_overlaps s limits) (map (span_at base) (filter (kept exdates) [t]))).
  - destruct (icaltime_is_null_time t) eqn:En; [|now apply runs_occurrence]. apply runs_ret. unfold kept. cbn [filter]. now rewrite En.
  - intros ? ->. eapply runs_bind; [exact IH|]. intros ? ->. apply runs_ret.
    change (t :: ts) with ([t] ++ ts). now rewrite (filter_app _ [t]), map_app, filter_app.
Qed.

(** The first span, with the flag put in afterwards. *)
Lemma span_at_start s e b : span_at (icaltime_span_new s e b) s = icaltime_span_new s e b /\
  (forall b', span_start (icaltime_span_new s e b') = span_start (icaltime_span_new s e b) /\ span_end (icaltime_span_new s e b') = span_end (icaltime_span_new s e b)).
Proof.
  unfold span_at, icaltime_span_new. cbv zeta. destruct (icaltime_is_null_time e && negb (icaltime_is_date s)); cbn; split; auto; f_equal; lia.
Qed.

Lemma runs_foreach_plain fuel comp up start end_ dtstart dtend busy rdates exdates :
  properties_of ICAL_RRULE_PROPERTY comp = [] -> properties_of ICAL_EXRULE_PROPERTY comp = [] ->
  runs (first_start comp up) (fun t => t = dtstart) -> icaltime_is_null_time dtstart = false ->
  runs (first_end comp up dtstart) (fun t => t = dtend) -> runs (icalcomponent_is_busy comp) (fun b => b = busy) ->
  rdates_are comp rdates -> exdates_are comp up exdates ->
  runs (icalcomponent_foreach_recurrence fuel comp up start end_)
    (fun l => l = plain_spans dtstart dtend busy rdates exdates (limit_span start end_)).
Proof.
  intros Hr Hx Hs Hn He Hb Hrd Hex. unfold icalcomponent_foreach_recurrence. eapply runs_bind; [exact Hs|]. intros ? ->. rewrite Hn.
  eapply runs_bind; [exact He|]. intros ? ->. eapply runs_bind; [exact Hb|]. intros ? ->. cbv zeta. rewrite Hr.
  set (base := icaltime_span_new dtstart dtend (b2z busy)). destruct (span_at_start dtstart dtend (b2z busy)) as [Hbase Hsame].
  destruct (Hsame 1) as [-> ->]. fold base in Hbase |- *.
  assert (Span (span_start base) (span_end base) (b2z busy) = base) as Eb by (unfold base, icaltime_span_new; now destruct (_ && _)).
  rewrite Eb. assert (is_busy base = b2z busy) as Ebusy by now rewrite <- Eb.
  apply runs_bind with (P := fun l => l = (if kept exdates dtstart && icaltime_span_overlaps base (limit_span start end_) then [base] else [])).
  { eapply runs_bind; [exact (runs_excluded fuel comp up dtstart dtstart exdates Hx Hex)|]. intros ? ->. apply runs_ret. now rewrite negb_involutive. }
  intros ? ->.
  cbn [occurrences_of_rules]. apply runs_bind_ret. rewrite <- Ebusy.
  eapply runs_bind; [exact (runs_rdates fuel comp up dtstart exdates base (limit_span start end_) Hx Hex _ _ Hrd)|]. intros ? ->. apply runs_ret. unfold plain_spans. fold base.
  change (dtstart :: rdates) with ([dtstart] ++ rdates). rewrite filter_app, map_app, filter_app. cbn [List.app]. f_equal.
  cbn [filter map]. destruct (kept exdates dtstart); cbn [andb map filter]; [now rewrite Hbase | reflexivity].
Qed.

(** C24: for a component without RRULEs and EXRULEs, [icalcomponent_foreach_recurrence]
    reports exactly one span for the start and for each RDATE, in this order, that
    is not equal to an EXDATE (or on the day of one that is a date) and whose span
    overlaps the limits; all have the length and the flag of the first. *)
Theorem foreach_without_rules fuel comp up start end_ dtstart dtend busy rdates exdates :
  properties_of ICAL_RRULE_PROPERTY comp = [] -> properties_of ICAL_EXRULE_PROPERTY comp = [] ->
  runs (first_start comp up) (fun t => t = dtstart) -> icaltime_is_null_time dtstart = false ->
  runs (first_end comp up dtstart) (fun t => t = dtend) -> runs (icalcomponent_is_busy comp) (fun b => b = busy) ->
  rdates_are comp rdates -> exdates_are comp up exdates ->
  runs (icalcomponent_foreach_recurrence fuel comp up start end_)
    (fun l => l = plain_spans dtstart dtend busy rdates exdates (limit_span start end_)).
Proof. apply runs_foreach_plain. Qed.

(** ** With rules *)

(** [x] is a result of [m]. *)
Definition yields {A} (m : err A) (x : A) : Prop := exists st st', m st = Some (x, st').

(** The span is one of an occurrence that is not excluded, and overlaps the limits. *)
Inductive reported (fuel : nat) (comp : icalcomponent) (up : list icalcomponent) (dtstart : icaltimetype) (base limits : icaltime_span)
  (s : icaltime_span) : Prop :=
| Reported t : s = span_at base t -> icaltime_span_overlaps s limits = true ->
    yields (icalproperty_recurrence_is_excluded fuel comp up dtstart t) false -> reported fuel comp up dtstart base limits s.

Section Sound.
Context (fuel : nat) (comp : icalcomponent) (up : list icalcomponent) (dtstart : icaltimetype) (base limits : icaltime_span).

Notation sound := (Forall (reported fuel comp up dtstart base limits)).
Notation len := (span_end base - span_start base).

Lemma post_occurrence t : post (occurrence fuel comp up dtstart t len (is_busy base) limits) sound.
Proof.
  intros st l st' E. unfold occurrence, bind in E. destruct (icalproperty_recurrence_is_excluded _ _ _ _ _ _) as [[x s1]|] eqn:Ex; [|discriminate].
  injection E as <- _. destruct x; cbn [negb andb]; [constructor|]. case_if; [|constructor]. constructor; [|constructor].
  apply (Reported _ _ _ _ _ _ _ t); [reflexivity | assumption | now exists st, s1].
Qed.

Lemma occurrences_loop_sound end_ : forall k i st l i' st',
  occurrences_loop fuel k comp up dtstart end_ len (is_busy base) limits i st = Some (l, i', st') -> sound l.
Proof.
  induction k as [|k IH]; intros i st l i' st' E; [discriminate|]. cbn [occurrences_loop] in E. unfold ibind in E at 1.
  destruct (icalrecur_iterator_next fuel i st) as [[[t i1] s1]|]; [|discriminate].
  destruct (icaltime_is_null_time t || _); [injection E as <- _ _; constructor|]. unfold ibind, lift in E.
  destruct (occurrence _ _ _ _ _ _ _ _ s1) as [[here s2]|] eqn:Eo; [|discriminate].
  destruct (occurrences_loop _ _ _ _ _ _ _ _ _ _ _) as [[[rest i3] s3]|] eqn:El; [|discriminate]. injection E as <- _ _.
  apply Forall_app. split; [exact (post_occurrence t _ _ _ Eo) | exact (IH _ _ _ _ _ El)].
Qed.

Lemma post_rules start end_ : forall ps,
  post (occurrences_of_rules fuel ps comp up dtstart start end_ len (is_busy base) limits) sound.
Proof.
  induction ps as [|p ps IH]; cbn [occurrences_of_rules]; [apply post_ret; constructor|]. apply post_any. intros recur. apply post_any. intros o.
  apply post_bind with (P := sound).
  - destruct o as [i|]; [|apply post_ret; constructor]. intros st l st' E. unfold run_iterator, ibind in E.
    destruct (seek_start _ _ _ _ i st) as [[[[] i1] s1]|]; [|discriminate].
    destruct (occurrences_loop _ _ _ _ _ _ _ _ _ i1 s1) as [[[l' i2] s2]|] eqn:El; [|discriminate]. injection E as <- _.
    now apply occurrences_loop_sound in El.
  - intros here Hh. eapply post_bind; [exact IH|]. intros more Hm. apply post_ret. now apply Forall_app.
Qed.

Lemma post_rdates : forall ps, post (occurrences_of_rdates fuel ps comp up dtstart len (is_busy base) limits) sound.
Proof.
  induction ps as [|p ps IH]; cbn [occurrences_of_rdates]; [apply post_ret; constructor|]. apply post_any. intros t.
  apply post_bind with (P := sound); [destruct (icaltime_is_null_time t); [apply post_ret; constructor | apply post_occurrence]|].
  intros here Hh. eapply post_bind; [exact IH|]. intros more Hm. apply post_ret. now apply Forall_app.
Qed.
End Sound.

(** Whatever rules and dates a component has, each span that
    [icalcomponent_foreach_recurrence] reports overlaps the limits, is that of a
    time that no EXDATE or EXRULE excludes, and has the length and the busy flag of
    the first occurrence, between the start and the end of the component. *)
Theorem foreach_sound fuel comp up start end_ st l st' :
  icalcomponent_foreach_recurrence fuel comp up start end_ st = Some (l, st') ->
  l = [] \/
  exists dtstart dtend busy,
    yields (first_start comp up) dtstart /\ yields (first_end comp up dtstart) dtend /\ yields (icalcomponent_is_busy comp) busy /\
    Forall (reported fuel comp up dtstart (icaltime_span_new dtstart dtend (b2z busy)) (limit_span start end_)) l.
Proof.
  unfold icalcomponent_foreach_recurrence. intros E. unfold bind in E at 1. destruct (first_start comp up st) as [[s s1]|] eqn:Es; [|discriminate].
  destruct (icaltime_is_null_time s); [left; now injection E as <- _|]. right.
  unfold bind in E at 1. destruct (first_end comp up s s1) as [[e s2]|] eqn:Ee; [|discriminate].
  unfold bind in E at 1. destruct (icalcomponent_is_busy comp s2) as [[busy s3]|] eqn:Eb; [|discriminate]. cbv zeta in E.
  exists s, e, busy. split; [now exists st, s1|]. split; [now exists s1, s2|]. split; [now exists s2, s3|].
  set (base := icaltime_span_new s e (b2z busy)). destruct (span_at_start s e (b2z busy)) as [Hbase Hsame].
  destruct (Hsame 1) as [H1 H2]. rewrite H1, H2 in E. fold base in E, Hbase. cbn [span_start span_end] in E.
  assert (Span (span_start base) (span_end base) (b2z busy) = base) as Eb' by (unfold base, icaltime_span_new; now destruct (_ && _)).
  rewrite Eb' in E. assert (is_busy base = b2z busy) as Ebusy by now rewrite <- Eb'. rewrite <- Ebusy in E.
  revert E. apply post_bind with (P := Forall (reported fuel comp up s base (limit_span start end_))).
  { destruct (properties_of ICAL_RRULE_PROPERTY comp); [|apply post_ret; constructor]. intros s4 l' s5 E. unfold bind in E.
    destruct (icalproperty_recurrence_is_excluded _ _ _ _ _ _) as [[x s6]|] eqn:Ex; [|discriminate]. injection E as <- _.
    destruct x; cbn [negb andb]; [constructor|]. case_if; [|constructor]. constructor; [|constructor].
    apply (Reported _ _ _ _ _ _ _ s); [now rewrite Hbase | assumption | now exists s4, s6]. }
  intros first Hf. eapply post_bind; [apply post_rules|]. intros by_rules Hr. eapply post_bind; [apply post_rdates|]. intros by_dates Hd.
  apply post_ret. rewrite !Forall_app. auto.
Qed.
End Spans.
