(* ===== verification/IcalComponentNormalize.v ===== *)
(** * Normal form of a component (icalcomponent.c)

    [icalcomponent_normalize] sorts the parameters, properties and components at
    every level by insertion, and drops properties without parameters that have
    their default value.  The lists are taken apart from the end.

    Two components that differ in the order of their properties have the same
    normal form, when no two properties compare equal. *)
From Stdlib Require Import String Ascii ZArith Lia Bool List Permutation Sorted.
From S2P Require Import Prelude CString IcalError IcalTime IcalValueText IcalValue IcalValueSafe IcalLine IcalParameter IcalProperty IcalComponent IcalParserSafe IcalParserTotal IcalComponentZones IcalCalendarZones IcalTimezone IcalComponentAccess.
Import ListNotations.
#[local] Open Scope Z_scope.
#[local] Open Scope cstring_scope.
#[local] Open Scope err_scope.

Definition ICAL_ACTION_PROPERTY : icalproperty_kind := 2.
Definition ICAL_CALSCALE_PROPERTY : icalproperty_kind := 8.
Definition ICAL_CLASS_PROPERTY : icalproperty_kind := 13.
Definition ICAL_PRIORITY_PROPERTY : icalproperty_kind := 56.
Definition ICAL_REPEAT_PROPERTY : icalproperty_kind := 69.
Definition ICAL_TRIGGER_PROPERTY : icalproperty_kind := 81.
Definition ICAL_POLLITEMID_PROPERTY : icalproperty_kind := 103.
Definition ICAL_VOTER_PROPERTY : icalproperty_kind := 107.
Definition ICAL_CLASS_PUBLIC : Z := 10301.
Definition ICAL_CLASS_NONE : Z := 10399.

(** The number of a kind in its enumeration. *)
Definition ckind_number (k : icalcomponent_kind) : Z :=
  match k with
  | ICAL_NO_COMPONENT => 0 | ICAL_ANY_COMPONENT => 1 | ICAL_XROOT_COMPONENT => 2 | ICAL_XATTACH_COMPONENT => 3
  | ICAL_VEVENT_COMPONENT => 4 | ICAL_VTODO_COMPONENT => 5 | ICAL_VJOURNAL_COMPONENT => 6 | ICAL_VCALENDAR_COMPONENT => 7
  | ICAL_VAGENDA_COMPONENT => 8 | ICAL_VFREEBUSY_COMPONENT => 9 | ICAL_VALARM_COMPONENT => 10 | ICAL_XAUDIOALARM_COMPONENT => 11
  | ICAL_XDISPLAYALARM_COMPONENT => 12 | ICAL_XEMAILALARM_COMPONENT => 13 | ICAL_XPROCEDUREALARM_COMPONENT => 14
  | ICAL_VTIMEZONE_COMPONENT => 15 | ICAL_XSTANDARD_COMPONENT => 16 | ICAL_XDAYLIGHT_COMPONENT => 17 | ICAL_X_COMPONENT => 18
  | ICAL_VSCHEDULE_COMPONENT => 19 | ICAL_VQUERY_COMPONENT => 20 | ICAL_VREPLY_COMPONENT => 21 | ICAL_VCAR_COMPONENT => 22
  | ICAL_VCOMMAND_COMPONENT => 23 | ICAL_XLICINVALID_COMPONENT => 24 | ICAL_XLICMIMEPART_COMPONENT => 25
  | ICAL_VAVAILABILITY_COMPONENT => 26 | ICAL_XAVAILABLE_COMPONENT => 27 | ICAL_VPOLL_COMPONENT => 28 | ICAL_VVOTER_COMPONENT => 29
  | ICAL_XVOTE_COMPONENT => 30 | ICAL_VPATCH_COMPONENT => 31 | ICAL_XPATCH_COMPONENT => 32
  end.

(** ** Insertion, with a comparison that succeeds *)

(** A comparison like that of numbers. *)
Class Preorder {A} (f : A -> A -> Z) : Prop := {
  f_flip : forall x y, f x y <= 0 <-> 0 <= f y x;
  f_trans : forall x y z, f x y <= 0 -> f y z <= 0 -> f x z <= 0
}.

(** By one key, then by another. *)
Definition lex {A} (f g : A -> A -> Z) (x y : A) : Z := if f x y =? 0 then g x y else f x y.

#[export] Instance lex_preorder {A} (f g : A -> A -> Z) : Preorder f -> Preorder g -> Preorder (lex f g).
Proof.
  intros Hf Hg. split; unfold lex.
  - intros x y. pose proof (@f_flip _ f _ x y). pose proof (@f_flip _ f _ y x). pose proof (@f_flip _ g _ x y).
    destruct (Z.eqb_spec (f x y) 0), (Z.eqb_spec (f y x) 0); lia.
  - intros x y z. pose proof (@f_trans _ f _ x y z). pose proof (@f_trans _ f _ z x y). pose proof (@f_trans _ f _ y z x).
    pose proof (@f_trans _ g _ x y z). pose proof (@f_flip _ f _ x z). pose proof (@f_flip _ f _ z x). pose proof (@f_flip _ f _ y z).
    pose proof (@f_flip _ f _ z y). pose proof (@f_flip _ f _ x y). pose proof (@f_flip _ f _ y x).
    destruct (Z.eqb_spec (f x y) 0), (Z.eqb_spec (f y z) 0), (Z.eqb_spec (f x z) 0); lia.
Qed.

#[export] Instance number_preorder {A} (k : A -> Z) : Preorder (fun x y => k x - k y).
Proof. split; intros; lia. Qed.

#[export] Instance text_preorder {A} (k : A -> cstring) : Preorder (fun x y => strcmp (k x) (k y)).
Proof. split; [intros x y; rewrite (strcmp_flip (k y) (k x)); lia | intros x y z; apply strcmp_trans]. Qed.

Section Insertion.
Context {A} (cmp : A -> A -> err Z) (f : A -> A -> Z) (good : A -> Prop) {FP : Preorder f}.
Hypothesis cmp_returns : forall x y, good x -> good y -> runs (cmp x y) (fun c => c = f x y).

Notation le x y := (f x y <= 0).
Notation sorted := (StronglySorted (fun x y => f x y <= 0)).
Definition placed (x : A) (l l' : list A) : Prop := sorted l' /\ Permutation (x :: l) l'.

Lemma sorted_before x y l : sorted (y :: l) -> le x y -> sorted (x :: y :: l).
Proof.
  intros Hs Hxy. constructor; [exact Hs|]. inversion Hs as [|? ? _ Hy]; subst. constructor; [exact Hxy|].
  eapply Forall_impl; [|exact Hy]. intros z Hz. now apply (f_trans x y z).
Qed.

Lemma runs_insert_before_first x l :
  good x -> Forall good l -> sorted l -> Exists (fun y => 0 <= f y x) l -> runs (insert_before_first cmp x l) (placed x l).
Proof.
  intros Hx. induction l as [|y l IH]; intros Hl Hs He; [inversion He|]. inversion Hl; subst. cbn [insert_before_first].
  eapply runs_bind; [now apply cmp_returns|]. intros ? ->. destruct (Z.leb_spec 0 (f y x)) as [Hyx|Hyx].
  - apply runs_ret. split; [apply sorted_before; [exact Hs | now apply f_flip] | reflexivity].
  - inversion Hs as [|? ? Hs' Hy]; subst. eapply runs_bind; [apply IH; auto; inversion He; [lia | assumption]|].
    intros l' [Hs1 Hp]. apply runs_ret. split.
    + constructor; [exact Hs1|]. apply (Permutation_Forall Hp). constructor; [lia | exact Hy].
    + rewrite perm_swap. now constructor.
Qed.

Lemma last_any_default (l : list A) : forall a d d', last (a :: l) d = last (a :: l) d'.
Proof. induction l as [|b l IH]; intros a d d'; [reflexivity|]. exact (IH b d d'). Qed.

Lemma sorted_last x y l : sorted (y :: l) -> le (last (y :: l) y) x -> Forall (fun z => le z x) (y :: l).
Proof.
  revert y. induction l as [|z l IH]; intros y Hs Hx; [now repeat constructor|]. inversion Hs as [|? ? Hs' Hy]; subst.
  change (last (y :: z :: l) y) with (last (z :: l) y) in Hx. rewrite (last_any_default l z y z) in Hx. specialize (IH z Hs' Hx). constructor; [|exact IH]. inversion Hy; subst. inversion IH; subst.
  now apply (f_trans y z x).
Qed.

Lemma sorted_snoc l x : sorted l -> Forall (fun z => le z x) l -> sorted (l ++ [x]).
Proof.
  induction 1 as [|y l Hs IH Hy]; intros Hx; cbn; [repeat constructor|]. inversion Hx; subst. constructor; [auto|].
  apply Forall_app. split; [exact Hy | now repeat constructor].
Qed.

Lemma runs_insert_ordered x l : good x -> Forall good l -> sorted l -> runs (insert_ordered cmp x l) (placed x l).
Proof.
  intros Hx Hl Hs. destruct l as [|y l]; cbn [insert_ordered]; [apply runs_ret; split; [repeat constructor | reflexivity]|].
  assert (In (last (y :: l) y) (y :: l)) as Hin.
  { destruct (exists_last (l := y :: l)) as (l' & z & ->); [discriminate|]. rewrite last_last. apply in_or_app. right. now left. }
  assert (good y /\ good (last (y :: l) y)) as [Hy Hz] by (rewrite Forall_forall in Hl; split; apply Hl; [now left | exact Hin]).
  eapply runs_bind; [now apply cmp_returns|]. intros ? ->. destruct (Z.leb_spec (f x y) 0) as [Hxy|Hxy].
  { apply runs_ret. split; [now apply sorted_before | reflexivity]. }
  eapply runs_bind; [now apply cmp_returns|]. intros ? ->. destruct (Z.leb_spec 0 (f x (last (y :: l) y))) as [Hxz|Hxz].
  - apply runs_ret. split; [|apply Permutation_cons_append]. apply sorted_snoc; [exact Hs|]. apply sorted_last; [exact Hs | now apply f_flip].
  - apply runs_insert_before_first; auto. apply Exists_exists. exists (last (y :: l) y). split; [exact Hin|]. apply f_flip. lia.
Qed.

(** Lists with the same elements, of which no two compare equal, are sorted in one way. *)
Lemma sorted_lists_unique l : forall l',
  sorted l -> sorted l' -> Permutation l l' -> (forall x y, In x l -> In y l -> f x y = 0 -> x = y) -> l = l'.
Proof.
  induction l as [|x l IH]; intros l' Hs Hs' Hp Hd; [now apply Permutation_nil in Hp|].
  destruct l' as [|y l']; [now apply Permutation_sym, Permutation_nil in Hp|].
  inversion Hs as [|? ? Hs1 Hx]; inversion Hs' as [|? ? Hs1' Hy]; subst.
  assert (x = y) as <-.
  { destruct (Permutation_in y (Permutation_sym Hp) (or_introl eq_refl)) as [->|Hin]; [reflexivity|].
    destruct (Permutation_in x Hp (or_introl eq_refl)) as [->|Hin']; [reflexivity|].
    rewrite Forall_forall in Hx, Hy. apply Hd; [now left | now right|]. specialize (Hx y Hin). specialize (Hy x Hin').
    apply f_flip in Hy. lia. }
  f_equal. apply IH; auto; [now apply Permutation_cons_inv in Hp|]. intros a b Ha Hb. apply Hd; now right.
Qed.
End Insertion.

Section Normalize.
Context `{PROPS : PropertyTables} `{PARAMS : ParameterTables} `{FLOAT : FloatOps} `{TZ : TimezoneConv}.

(** ** Comparisons *)

(** [strcmp], which is undefined for a null pointer. *)
Definition strcmp_ptr (a b : option cstring) : err Z :=
  match a, b with Some a, Some b => ret (strcmp a b) | _, _ => undefined end.

Definition compare_values (p1 p2 : icalproperty) : err Z :=
  s <- icalproperty_get_value_as_string_r p1 ;; t <- icalproperty_get_value_as_string_r p2 ;; strcmp_ptr s t.

Definition prop_compare (p1 p2 : icalproperty) : err Z :=
  let r := pr_kind p1 - pr_kind p2 in
  if r =? 0 then
    r <- (if pr_kind p1 =? ICAL_X_PROPERTY then strcmp_ptr (pr_x_name p1) (pr_x_name p2) else ret 0) ;;
    if r =? 0 then compare_values p1 p2 else ret r
  else ret r.

(** The first properties of a kind, by their values; a null property has a null text. *)
Definition compare_first (kind : icalproperty_kind) (c1 c2 : icalcomponent) : err Z :=
  match first_property kind c1, first_property kind c2 with
  | Some p1, Some p2 => compare_values p1 p2
  | _, _ => undefined
  end.

Definition compare_dtstamps (c1 c2 : icalcomponent) : err Z :=
  t1 <- icalcomponent_get_dtstamp c1 ;; t2 <- icalcomponent_get_dtstamp c2 ;; ret (icaltime_compare t1 t2).

(** Components of one kind without a UID. *)
Definition compare_without_uid (c1 c2 : icalcomponent) : err Z :=
  match co_kind c1 with
  | ICAL_VALARM_COMPONENT =>
      r <- compare_first ICAL_TRIGGER_PROPERTY c1 c2 ;;
      if r =? 0 then compare_first ICAL_ACTION_PROPERTY c1 c2 else ret r
  | ICAL_VTIMEZONE_COMPONENT => compare_first ICAL_TZID_PROPERTY c1 c2
  | ICAL_XSTANDARD_COMPONENT | ICAL_XDAYLIGHT_COMPONENT => compare_first ICAL_DTSTART_PROPERTY c1 c2
  | ICAL_VVOTER_COMPONENT => compare_first ICAL_VOTER_PROPERTY c1 c2
  | ICAL_XVOTE_COMPONENT => compare_first ICAL_POLLITEMID_PROPERTY c1 c2
  | _ => compare_dtstamps c1 c2
  end.

Definition comp_compare (c1 c2 : icalcomponent) : err Z :=
  let r := ckind_number (co_kind c1) - ckind_number (co_kind c2) in
  if r =? 0 then
    r <- (if ckind_eqb (co_kind c1) ICAL_X_COMPONENT then strcmp_ptr (co_x_name c1) (co_x_name c2) else ret 0) ;;
    if r =? 0 then
      u1 <- icalcomponent_get_uid c1 ;;
      u2 <- icalcomponent_get_uid c2 ;;
      match u1, u2 with
      | Some u1, Some u2 =>
          if strcmp u1 u2 =? 0 then
            t1 <- icalcomponent_get_recurrenceid c1 ;; t2 <- icalcomponent_get_recurrenceid c2 ;; ret (icaltime_compare t1 t2)
          else ret (strcmp u1 u2)
      | _, _ => compare_without_uid c1 c2
      end
    else ret r
  else if ckind_eqb (co_kind c1) ICAL_VTIMEZONE_COMPONENT then ret (-1)
  else if ckind_eqb (co_kind c2) ICAL_VTIMEZONE_COMPONENT then ret 1
  else ret r.

(** ** Default values *)

Definition is_zero (p : icalproperty) : err bool := n <- icalvalue_get_utcoffset (pr_value p) ;; ret (n =? 0).
Definition is_enum (none e : Z) (p : icalproperty) : err bool := n <- get_enum none (pr_value p) ;; ret (n =? e).

Definition default_value (p : icalproperty) : err bool :=
  let k := pr_kind p in
  if k =? ICAL_CALSCALE_PROPERTY then
    s <- icalvalue_get_text (pr_value p) ;; match s with Some s => ret (strcmp $"GREGORIAN" s =? 0) | None => undefined end
  else if k =? ICAL_CLASS_PROPERTY then is_enum ICAL_CLASS_NONE ICAL_CLASS_PUBLIC p
  else if k =? ICAL_PRIORITY_PROPERTY then is_zero p
  else if k =? ICAL_TRANSP_PROPERTY then is_enum ICAL_TRANSP_NONE ICAL_TRANSP_OPAQUE p
  else if k =? ICAL_REPEAT_PROPERTY then is_zero p
  else if k =? ICAL_SEQUENCE_PROPERTY then is_zero p
  else ret false.

(** A property with parameters stays. *)
Definition removable (p : icalproperty) : err bool := if pr_count p =? 0 then default_value p else ret false.

(** ** The loops *)

(** [popped] is the list from its end. *)
Fixpoint normalize_properties (popped sorted_props : list icalproperty) : err (list icalproperty) :=
  match popped with
  | [] => ret sorted_props
  | prop :: rest =>
      prop <- icalproperty_normalize prop ;;
      remove <- removable prop ;;
      if (remove : bool) then normalize_properties rest sorted_props
      else sorted_props <- insert_ordered prop_compare prop sorted_props ;; normalize_properties rest sorted_props
  end.

(** An iterator at an element is left with a freed one. *)
Definition iterator_freed (it : pvl_iter) : pvl_iter := match it with AtElem _ => Freed | it => it end.

Fixpoint icalcomponent_normalize (comp : icalcomponent) : err icalcomponent :=
  sorted_props <- normalize_properties (rev (co_properties comp)) [] ;;
  sorted_comps <- (fix normalize_components (subs : list icalcomponent) : err (list icalcomponent) :=
                     match subs with
                     | [] => ret []
                     | sub :: after =>
                         sorted_comps <- normalize_components after ;;
                         sub <- icalcomponent_normalize sub ;;
                         insert_ordered comp_compare sub sorted_comps
                     end) (co_components comp) ;;
  let comp := with_properties sorted_props (iterator_freed (property_iterator comp)) comp in
  ret (with_components sorted_comps (iterator_freed (component_iterator comp)) comp).

(** ** The normal form does not depend on the order *)

Section Canonical.
(** What the parts of the components are: the text of the value of a property,
    its normal form and whether it has the default value; the normal form of a
    component and how these compare. *)
Context (text : icalproperty -> cstring) (norm : icalproperty -> icalproperty) (gone : icalproperty -> bool).
Context (nf : icalcomponent -> icalcomponent) (comp_order : icalcomponent -> icalcomponent -> Z) {CP : Preorder comp_order}.

Definition x_key (p : icalproperty) : cstring :=
  if pr_kind p =? ICAL_X_PROPERTY then match pr_x_name p with Some n => n | None => [] end else [].

Definition prop_order : icalproperty -> icalproperty -> Z :=
  lex (fun p q => pr_kind p - pr_kind q) (lex (fun p q => strcmp (x_key p) (x_key q)) (fun p q => strcmp (text p) (text q))).

Definition readable (p : icalproperty) : Prop :=
  runs (icalproperty_get_value_as_string_r p) (fun s => s = Some (text p)) /\ (pr_kind p = ICAL_X_PROPERTY -> pr_x_name p <> None).

Lemma prop_compare_returns p q : readable p -> readable q -> runs (prop_compare p q) (fun c => c = prop_order p q).
Proof.
  intros [Hp Xp] [Hq Xq]. unfold prop_compare, prop_order, lex. cbv zeta.
  destruct (Z.eqb_spec (pr_kind p - pr_kind q) 0) as [E|E]; [|now apply runs_ret].
  apply runs_bind with (P := fun c => c = strcmp (x_key p) (x_key q)).
  - unfold x_key. replace (pr_kind q) with (pr_kind p) in * by lia.
    destruct (Z.eqb_spec (pr_kind p) ICAL_X_PROPERTY) as [Ex|_]; [|now apply runs_ret]. specialize (Xp Ex). specialize (Xq Ex).
    destruct (pr_x_name p), (pr_x_name q); try congruence. now apply runs_ret.
  - intros ? ->. destruct (strcmp (x_key p) (x_key q) =? 0); [|now apply runs_ret]. unfold compare_values.
    eapply runs_bind; [exact Hp|]. intros ? ->. eapply runs_bind; [exact Hq|]. intros ? ->. now apply runs_ret.
Qed.

(** The properties of a component are in order to be sorted. *)
Definition good_prop (p : icalproperty) : Prop :=
  runs (icalproperty_normalize p) (fun q => q = norm p) /\ runs (removable (norm p)) (fun b => b = gone p) /\ readable (norm p).

Definition kept_props (ps : list icalproperty) : list icalproperty := map norm (filter (fun p => negb (gone p)) ps).
Notation sorted_props := (StronglySorted (fun p q => prop_order p q <= 0)).

Lemma runs_normalize_properties : forall popped sorted,
  Forall good_prop popped -> Forall readable sorted -> sorted_props sorted ->
  runs (normalize_properties popped sorted) (fun l => sorted_props l /\ Permutation (kept_props popped ++ sorted) l).
Proof.
  induction popped as [|p rest IH]; intros sorted Hp Hr Hs; cbn [normalize_properties]; [apply runs_ret; now split|].
  inversion Hp as [|? ? (Hn & Hg & Hrd) Hrest]; subst. eapply runs_bind; [exact Hn|]. intros ? ->. eapply runs_bind; [exact Hg|]. intros ? ->.
  unfold kept_props. cbn [filter]. destruct (gone p); cbn [negb]; [now apply IH|].
  eapply runs_bind; [apply (runs_insert_ordered prop_compare prop_order readable prop_compare_returns); assumption|].
  intros l [Hl Hperm]. eapply runs_weaken; [apply IH; [exact Hrest | now apply (Permutation_Forall Hperm); constructor | exact Hl]|].
  intros l' [Hl' Hperm']. split; [exact Hl'|]. rewrite <- Hperm', <- Hperm. cbn [map List.app]. apply Permutation_middle.
Qed.

Definition good_comp (c : icalcomponent) : Prop := runs (icalcomponent_normalize c) (fun d => d = nf c).
(** The components below are in order to be sorted, in normal form. *)
Definition comparable (cs : list icalcomponent) (d : icalcomponent) : Prop := In d (map nf cs).
Notation sorted_comps := (StronglySorted (fun c d => comp_order c d <= 0)).

Definition normal_forms_compare (cs : list icalcomponent) : Prop :=
  forall c d, comparable cs c -> comparable cs d -> runs (comp_compare c d) (fun n => n = comp_order c d).

Definition normalize_components : list icalcomponent -> err (list icalcomponent) :=
  fix go (subs : list icalcomponent) : err (list icalcomponent) :=
    match subs with
    | [] => ret []
    | sub :: after => sorted_comps <- go after ;; sub <- icalcomponent_normalize sub ;; insert_ordered comp_compare sub sorted_comps
    end.

Lemma runs_normalize_components all : normal_forms_compare all -> forall cs, incl cs all -> Forall good_comp cs ->
  runs (normalize_components cs) (fun l => sorted_comps l /\ Permutation (map nf cs) l).
Proof.
  intros Hall. induction cs as [|c cs IH]; intros Hi Hg; [apply runs_ret; split; [constructor | reflexivity]|].
  inversion Hg as [|? ? Hc Hcs]; subst. change (normalize_components (c :: cs)) with
    (sorted_comps <- normalize_components cs ;; sub <- icalcomponent_normalize c ;; insert_ordered comp_compare sub sorted_comps).
  eapply runs_bind; [apply IH; [now intros x Hx; apply Hi; right | exact Hcs]|]. intros l [Hl Hperm].
  eapply runs_bind; [exact Hc|]. intros ? ->.
  assert (forall d, In d (map nf (c :: cs)) -> comparable all d) as Hsub by (intros d; apply incl_map, Hi).
  eapply runs_weaken; [apply (runs_insert_ordered comp_compare comp_order (comparable all) Hall)|].
  - apply Hsub. now left.
  - apply (Permutation_Forall Hperm), Forall_forall. intros d Hd. apply Hsub. now right.
  - exact Hl.
  - intros l' [Hl' Hperm']. split; [exact Hl'|]. rewrite <- Hperm', <- Hperm. reflexivity.
Qed.

Lemma runs_normalize c :
  Forall good_prop (co_properties c) -> Forall good_comp (co_components c) -> normal_forms_compare (co_components c) ->
  runs (icalcomponent_normalize c) (fun d => sorted_props (co_properties d) /\ sorted_comps (co_components d) /\
    Permutation (kept_props (co_properties c)) (co_properties d) /\ Permutation (map nf (co_components c)) (co_components d)).
Proof.
  intros Hp Hc Hn. destruct c as [addr kind xn ps pit cs cit par tz tzs]. cbn [co_properties co_components] in *.
  change (icalcomponent_normalize (Component addr kind xn ps pit cs cit par tz tzs)) with
    (sorted_props <- normalize_properties (rev ps) [] ;; sorted_comps <- normalize_components cs ;;
     ret (Component addr kind xn sorted_props (iterator_freed pit) sorted_comps (iterator_freed cit) par tz tzs)).
  eapply runs_bind; [apply runs_normalize_properties; [now apply Forall_rev | constructor | constructor]|].
  intros l [Hl Hperm]. eapply runs_bind; [apply (runs_normalize_components cs Hn cs); [apply incl_refl | exact Hc]|].
  intros l' [Hl' Hperm']. apply runs_ret. cbn [co_properties co_components]. rewrite app_nil_r in Hperm.
  split; [exact Hl|]. split; [exact Hl'|]. split; [|exact Hperm']. rewrite <- Hperm. unfold kept_props.
  apply Permutation_map. rewrite filter_rev. apply Permutation_rev.
Qed.

(** What normalization needs of a component: its parts have normal forms, and
    these can be compared. *)
Definition normalizable (c : icalcomponent) : Prop :=
  Forall good_prop (co_properties c) /\ Forall good_comp (co_components c) /\ normal_forms_compare (co_components c).

(** No two different parts compare equal. *)
Definition distinct (c : icalcomponent) : Prop :=
  (forall p q, In p (kept_props (co_properties c)) -> In q (kept_props (co_properties c)) -> prop_order p q = 0 -> p = q) /\
  (forall a b, In a (map nf (co_components c)) -> In b (map nf (co_components c)) -> comp_order a b = 0 -> a = b).

Lemma normal_form_unique c d d' :
  distinct c ->
  sorted_props (co_properties d) -> sorted_comps (co_components d) ->
  Permutation (kept_props (co_properties c)) (co_properties d) -> Permutation (map nf (co_components c)) (co_components d) ->
  sorted_props (co_properties d') -> sorted_comps (co_components d') ->
  Permutation (kept_props (co_properties c)) (co_properties d') -> Permutation (map nf (co_components c)) (co_components d') ->
  co_properties d' = co_properties d /\ co_components d' = co_components d.
Proof.
  intros [Dp Dc] S1 S2 P1 P2 S1' S2' P1' P2'. split.
  - apply (sorted_lists_unique prop_order); [assumption..| |]; [now rewrite <- P1'|]. intros x y Hx Hy.
    apply Dp; eapply Permutation_in; try eassumption; now apply Permutation_sym.
  - apply (sorted_lists_unique comp_order); [assumption..| |]; [now rewrite <- P2'|]. intros x y Hx Hy.
    apply Dc; eapply Permutation_in; try eassumption; now apply Permutation_sym.
Qed.

Lemma normalize_reordered c1 c2 :
  normalizable c1 -> normalizable c2 -> distinct c1 ->
  Permutation (kept_props (co_properties c1)) (kept_props (co_properties c2)) ->
  Permutation (map nf (co_components c1)) (map nf (co_components c2)) ->
  exists ps cs, sorted_props ps /\ sorted_comps cs /\
    runs (icalcomponent_normalize c1) (fun d => co_properties d = ps /\ co_components d = cs) /\
    runs (icalcomponent_normalize c2) (fun d => co_properties d = ps /\ co_components d = cs).
Proof.
  intros (H1 & H2 & H3) (K1 & K2 & K3) Hd Pp Pc.
  destruct (runs_normalize c1 H1 H2 H3 (initial_error_state false) initial_quiet) as (d & _ & _ & _ & Sd1 & Sd2 & Pd1 & Pd2).
  exists (co_properties d), (co_components d). split; [exact Sd1|]. split; [exact Sd2|]. split.
  - eapply runs_weaken; [now apply runs_normalize|]. intros d' (E1 & E2 & E3 & E4). now apply (normal_form_unique c1).
  - eapply runs_weaken; [now apply runs_normalize|]. intros d' (E1 & E2 & E3 & E4). apply (normal_form_unique c1); try assumption.
    + now rewrite Pp.
    + now rewrite Pc.
Qed.
End Canonical.

(** Components with the same properties and the same components below them, up
    to normalization of each, in any order, have the same sorted lists of properties and
    components after [icalcomponent_normalize], provided that no two different ones
    compare equal; the calls succeed. *)
Theorem normalize_canonical text norm gone nf comp_order c1 c2 :
  Preorder comp_order ->
  normalizable text norm gone nf comp_order c1 -> normalizable text norm gone nf comp_order c2 ->
  distinct text norm gone nf comp_order c1 ->
  Permutation (kept_props norm gone (co_properties c1)) (kept_props norm gone (co_properties c2)) ->
  Permutation (map nf (co_components c1)) (map nf (co_components c2)) ->
  exists ps cs, StronglySorted (fun p q => prop_order text p q <= 0) ps /\ StronglySorted (fun c d => comp_order c d <= 0) cs /\
    runs (icalcomponent_normalize c1) (fun d => co_properties d = ps /\ co_components d = cs) /\
    runs (icalcomponent_normalize c2) (fun d => co_properties d = ps /\ co_components d = cs).
Proof. intros CP. apply normalize_reordered. exact CP. Qed.
End Normalize.
