(* ===== verification/IcalComponentExamples.v ===== *)
(** * Calendars and components: concrete instances

    The theorems of [IcalCalendarZones] at concrete calendars with what becomes of
    zones with the same name; then those on components. *)
From Stdlib Require Import String Ascii ZArith Lia Bool List Permutation Sorted.
From S2P Require Import Prelude CString IcalError IcalTime IcalTimeCalendar IcalDuration IcalPeriod IcalRecurType IcalRecurIter IcalValueText IcalValue IcalLine IcalParameter IcalProperty IcalComponent IcalParser IcalDesignData IcalValueSafe IcalParserSafe IcalParserTotal IcalParserExamples IcalTimezone IcalComponentZones IcalCalendarZones IcalComponentAccess IcalComponentEdit IcalComponentRecur IcalComponentSpans IcalComponentNormalize.
Import ListNotations.
#[local] Open Scope Z_scope.
#[local] Open Scope cstring_scope.
#[local] Open Scope err_scope.
#[local] Existing Instance text_floats.
#[local] Existing Instance utc_only.

(** Merge two texts and print the result. *)
Definition merge_texts (a b : cstring) : option (option cstring) :=
  option_map fst
    ((c <- icalparser_parse_string ICAL_TREAT_AS_ERROR 1 a ;;
      d <- icalparser_parse_string ICAL_TREAT_AS_ERROR 1000 b ;;
      match c, d with
      | Some c, Some d => r <- icalcomponent_merge_component c d ;; s <- icalcomponent_as_ical_string_r r ;; ret (fst s)
      | _, _ => ret None
      end) (initial_error_state false)).

Definition zone_text (name offset : string) : list string :=
  ["BEGIN:VTIMEZONE"; "TZID:" ++ name; "BEGIN:STANDARD"; "DTSTART:19700101T000000"; "TZOFFSETFROM:" ++ offset; "TZOFFSETTO:" ++ offset;
   "END:STANDARD"; "END:VTIMEZONE"]%string.

Definition event_text (name : string) : list string :=
  ["BEGIN:VEVENT"; "DTSTART;TZID=" ++ name ++ ":20200101T120000"; "END:VEVENT"]%string.

Definition calendar_text (ls : list string) : cstring := text_of ("BEGIN:VCALENDAR" :: ls ++ ["END:VCALENDAR"])%string.

(** The zones of the other calendar come first, its events last. *)
Example merge_moves_components :
  merge_texts (calendar_text (zone_text "A" "+0100" ++ event_text "A")) (calendar_text (zone_text "B" "+0200" ++ event_text "B")) =
  Some (Some (calendar_text (zone_text "B" "+0200" ++ zone_text "A" "+0100" ++ event_text "A" ++ event_text "B"))).
Proof. vm_compute. reflexivity. Qed.

(** Two different zones with one name: the code means to rename the second, but it
    compares the calendar instead of its zone; the second is dropped and its event
    is an hour off. *)
Example conflicting_zone_dropped :
  merge_texts (calendar_text (zone_text "A" "+0100" ++ event_text "A")) (calendar_text (zone_text "A" "+0200" ++ event_text "A")) =
  Some (Some (calendar_text (zone_text "A" "+0100" ++ event_text "A" ++ event_text "A"))).
Proof. vm_compute. reflexivity. Qed.

(** ** Instances of the theorems *)

Definition sample_tzid (a : positive) (name : cstring) : icalproperty :=
  Property a ICAL_TZID_PROPERTY None [] 0 NoElem (Some (new_with ICAL_TEXT_VALUE (V_string name))) None.

Definition sample_zone (a : positive) (name : cstring) : icalcomponent :=
  Component a ICAL_VTIMEZONE_COMPONENT None [sample_tzid 50 name] NoElem [] NoElem None None true.
Definition sample_event_at (a : positive) : icalcomponent :=
  Component a ICAL_VEVENT_COMPONENT None [] NoElem [] NoElem None None true.
Definition sample_entry (a : positive) (name : cstring) : zone_entry := Zone name None None a.

Definition first_calendar : icalcomponent :=
  Component 1 ICAL_VCALENDAR_COMPONENT None [] NoElem [sample_zone 2 $"London"; sample_zone 3 $"Berlin"; sample_event_at 4] NoElem None
    (Some [sample_entry 2 $"London"; sample_entry 3 $"Berlin"]) false.
Definition second_calendar : icalcomponent :=
  Component 5 ICAL_VCALENDAR_COMPONENT None [] NoElem [sample_zone 6 $"Paris"; sample_zone 7 $"Berlin"; sample_event_at 8] NoElem None
    (Some [sample_entry 6 $"Paris"; sample_entry 7 $"Berlin"]) false.

Lemma sample_zone_good a name : good_component (sample_zone a name).
Proof.
  constructor; cbn; [|constructor]. constructor; [|constructor]. split.
  - reflexivity.
  - intros v [= <-]. reflexivity.
  - intros v _ [= <-]. reflexivity.
Qed.

Lemma sample_event_good a : good_component (sample_event_at a).
Proof. repeat constructor. Qed.

Lemma first_host : host 3 first_calendar.
Proof.
  split; [|vm_compute; reflexivity | discriminate | reflexivity].
  constructor; cbn; [constructor|]. apply List.Forall_cons; [apply sample_zone_good|].
    apply List.Forall_cons; [apply sample_zone_good|]. apply List.Forall_cons; [apply sample_event_good | constructor].
Qed.

Lemma second_donor : donor second_calendar.
Proof.
  split.
  - constructor; cbn; [constructor|]. apply List.Forall_cons; [apply sample_zone_good|].
    apply List.Forall_cons; [apply sample_zone_good|]. apply List.Forall_cons; [apply sample_event_good | constructor].
  - cbn. repeat constructor; rewrite ?base.list_elem_of_In; cbn; intuition discriminate.
Qed.

Lemma sample_zones_agree : zones_agree first_calendar second_calendar.
Proof.
  split; cbn -[strcmp].
  - intros v [<-|[<-|[]]]; discriminate.
  - intros v t [<-|[<-|[]]] [= <-]; vm_compute; [discriminate|]. intros _. eexists. split; [right; left; reflexivity | reflexivity].
  - intros v w t u [<-|[<-|[]]] [<-|[<-|[]]] [= <-] [= <-]; vm_compute; intros H; first [discriminate H | reflexivity].
Qed.

Lemma merge_component_exact_witness :
  exists c st', icalcomponent_merge_component first_calendar second_calendar (initial_error_state false) = Some (c, st') /\ quiet st' /\
    map erase (co_components c) = map erase ([sample_zone 6 $"Paris"] ++ co_components first_calendar ++ [sample_event_at 8]) /\
    says (co_components c) (sample_zone 7 $"Berlin") /\ has_zone c $"Paris" = true.
Proof.
  destruct (merge_component_exact first_calendar second_calendar (initial_error_state false) eq_refl eq_refl first_host second_donor
    sample_zones_agree initial_quiet) as (c & st' & E & Q & El & Hs & Hz).
  exists c, st'. split; [exact E|]. split; [exact Q|]. split; [rewrite El; vm_compute; reflexivity|]. split.
  - apply Hs. right. right. now left.
  - apply (Hz (sample_zone 6 $"Paris")); [now left | reflexivity].
Defined.

Lemma get_timezone_finds_witness :
  exists r c', icalcomponent_get_timezone first_calendar $"Berlin" = Some (r, c') /\
    Permutation.Permutation (zones_of c') (zones_of first_calendar) /\ zones_ok c' /\
    (timezones first_calendar <> None -> zones_in_order (zones_of c')) /\
    match r with
    | Some z => base.elem_of z (zones_of first_calendar) /\ tz_tzid z = $"Berlin"
    | None => forall z, base.elem_of z (zones_of first_calendar) -> tz_tzid z <> $"Berlin"
    end.
Proof.
  apply (get_timezone_finds first_calendar $"Berlin").
  - intros l [= <-]. split; [vm_compute; reflexivity | discriminate].
  - repeat constructor; discriminate.
  - repeat constructor; discriminate.
Defined.

(** ** Components: concrete instances

    The theorems of [IcalComponentEdit] and [IcalComponentSpans] at concrete
    components, and what the code does with EXRULEs and with open limits. *)

#[local] Instance no_builtins : BuiltinZones := {|
  icaltimezone_get_builtin_timezone_from_tzid _ := None; icaltimezone_get_builtin_timezone _ := None |}.
#[local] Instance sample_names : ZoneNames := {|
  icaltimezone_get_tzid z := match z with ZONE 2 => Some $"London" | ZONE 3 => Some $"Berlin" | _ => None end |}.

(** A calendar with the zones and the event of [first_calendar]. *)
Definition noon : icaltimetype := IcalTime 2021 3 1 12 0 0 0 0 (ZONE 3).
Definition one : icaltimetype := IcalTime 2021 3 1 13 0 0 0 0 (ZONE 3).

Lemma valid_kinds : forallb icalproperty_kind_is_valid
  [ICAL_SUMMARY_PROPERTY; ICAL_DTSTART_PROPERTY; ICAL_DTEND_PROPERTY; ICAL_DURATION_PROPERTY] = true.
Proof. vm_compute. reflexivity. Qed.

Lemma text_accessors_roundtrip_witness :
  exists c, option_map fst (icalcomponent_set_summary $"Lunch" 60 first_calendar (initial_error_state false)) = Some c /\
    icalcomponent_get_summary c = ret (Some $"Lunch").
Proof.
  destruct (text_accessors_roundtrip icalcomponent_set_summary icalcomponent_get_summary ICAL_SUMMARY_PROPERTY $"Lunch" 60 first_calendar
    (sample_event_at 4) ltac:(now left) ltac:(reflexivity) ltac:(vm_compute; reflexivity) (initial_error_state false) initial_quiet)
    as (c & st & E & _ & H & _).
  exists c. rewrite E. now split.
Defined.

Lemma start_end_roundtrip_witness :
  runs (c <- icalcomponent_set_dtstart noon 60 first_calendar ;; icalcomponent_set_dtend one 61 c)
    (fun c => runs (icalcomponent_get_duration c []) (fun d => d = Duration 0 0 0 1 0 0)).
Proof.
  destruct (start_end_roundtrip first_calendar (sample_event_at 4) [] noon one icaldurationtype_null_duration 60 61) as [H _].
  1-6,8,9: vm_compute; reflexivity.
  1: intros p [].
  1,2: split; vm_compute; reflexivity.
  eapply runs_weaken; [exact H|]. intros c (_ & _ & Hd). exact Hd.
Defined.

(** Both are asked for: the second is refused. *)
Definition both_edits : list edit := [SetDtstart noon; SetDuration (Duration 0 0 0 2 0 0); SetDue one; SetDtend one].

Lemma edits_one_end_witness :
  exists c st, apply_edits [] 60 both_edits first_calendar (initial_error_state false) = Some (c, st) /\ one_end c /\
    icalerrno st = ICAL_MALFORMEDDATA_ERROR.
Proof.
  destruct (apply_edits [] 60 both_edits first_calendar (initial_error_state false)) as [[c st]|] eqn:E; [|vm_compute in E; discriminate].
  exists c, st. split; [reflexivity|]. split.
  - apply (edits_one_end [] both_edits first_calendar (initial_error_state false) c st 60).
    + repeat constructor.
    + intros i Hi. vm_compute in Hi. injection Hi as <-. now left.
    + exact E.
  - vm_compute in E. injection E as <- <-. reflexivity.
Defined.

(** *** Occurrences *)

(** The spans of the event in a text. *)
Definition spans_of (fuel : nat) (ls : list string) (start end_ : icaltimetype) : option (list icaltime_span) :=
  option_map fst
    ((c <- icalparser_parse_string ICAL_TREAT_AS_ERROR 1 (text_of ("BEGIN:VEVENT"%string :: ls ++ ["END:VEVENT"%string])) ;;
      match c with Some c => icalcomponent_foreach_recurrence fuel c [] start end_ | None => ret [] end) (initial_error_state false)).

Definition utc (y m d h : Z) : icaltimetype := IcalTime y m d h 0 0 0 0 ZONE_UTC.
Definition daily : list string := ["DTSTART:20210301T120000Z"; "DTEND:20210301T130000Z"; "RRULE:FREQ=DAILY;COUNT=4"]%string.

(** An hour at noon on four days, less one. *)
Example daily_spans :
  spans_of 100 (daily ++ ["EXDATE:20210302T120000Z"%string]) (utc 2021 1 1 0) (utc 2021 12 31 0) =
  Some [Span 1614600000 1614603600 1; Span 1614772800 1614776400 1; Span 1614859200 1614862800 1].
Proof. vm_compute. reflexivity. Qed.

(** The search for an occurrence in an EXRULE stops at the first one that is
    before it, where it should stop at the first one after it: of the two days
    that the rule excludes, only the first one is. *)
Example exrule_excludes_first_only :
  spans_of 100 (daily ++ ["EXRULE:FREQ=DAILY;COUNT=2"%string]) (utc 2021 1 1 0) (utc 2021 12 31 0) =
  spans_of 100 (daily ++ ["EXDATE:20210301T120000Z"%string]) (utc 2021 1 1 0) (utc 2021 12 31 0).
Proof. vm_compute. reflexivity. Qed.

(** A null end is meant as no limit, but the loop over the rule compares with it:
    nothing is reported; without a rule the event is. *)
Example open_end_reports_nothing :
  spans_of 100 daily (utc 2021 1 1 0) icaltime_null_time = Some [] /\
  spans_of 100 (firstn 2 daily) (utc 2021 1 1 0) icaltime_null_time = Some [Span 1614600000 1614603600 1].
Proof. vm_compute. split; reflexivity. Qed.

(** An event with an RDATE and an EXDATE. *)
Definition dated (a : positive) (kind : icalproperty_kind) (t : icaltimetype) : icalproperty :=
  Property a kind None [] 0 NoElem (Some (new_with ICAL_DATETIME_VALUE (V_time t))) None.
Definition dated_event : icalcomponent :=
  Component 1 ICAL_VEVENT_COMPONENT None
    [dated 2 ICAL_DTSTART_PROPERTY (utc 2021 3 1 12); dated 3 ICAL_DTEND_PROPERTY (utc 2021 3 1 13);
     dated 4 ICAL_RDATE_PROPERTY (utc 2021 3 5 12); dated 5 ICAL_RDATE_PROPERTY (utc 2021 3 7 12);
     dated 6 ICAL_EXDATE_PROPERTY (utc 2021 3 5 12)] NoElem [] NoElem None None true.

Lemma dated_event_rdates : rdates_are dated_event [utc 2021 3 5 12; utc 2021 3 7 12].
Proof.
  change (Forall2 (fun p t => runs (get_datetimeperiod_time (pr_value p)) (fun y => y = t))
    [dated 4 ICAL_RDATE_PROPERTY (utc 2021 3 5 12); dated 5 ICAL_RDATE_PROPERTY (utc 2021 3 7 12)] [utc 2021 3 5 12; utc 2021 3 7 12]).
  repeat (apply Forall2_cons; [intros st Hst; eexists _, st; split; [reflexivity | now split]|]). apply Forall2_nil.
Qed.

Lemma dated_event_exdates : exdates_are dated_event [] [utc 2021 3 5 12].
Proof.
  change (Forall2 (fun p t => runs (icalproperty_get_datetime_with_component p [dated_event]) (fun y => y = t))
    [dated 6 ICAL_EXDATE_PROPERTY (utc 2021 3 5 12)] [utc 2021 3 5 12]).
  repeat (apply Forall2_cons; [intros st Hst; eexists _, st; split; [reflexivity | now split]|]). apply Forall2_nil.
Qed.

Lemma foreach_without_rules_witness :
  runs (icalcomponent_foreach_recurrence 1 dated_event [] (utc 2021 1 1 0) (utc 2021 12 31 0))
    (fun l => l = [Span 1614600000 1614603600 1; Span 1615118400 1615122000 1]).
Proof.
  eapply runs_weaken; [apply (foreach_without_rules 1 dated_event [] (utc 2021 1 1 0) (utc 2021 12 31 0) (utc 2021 3 1 12) (utc 2021 3 1 13) true
    [utc 2021 3 5 12; utc 2021 3 7 12] [utc 2021 3 5 12])|].
  1,2,4: vm_compute; reflexivity.
  - intros st Hst. exists (utc 2021 3 1 12), st. now split.
  - intros st Hst. exists (utc 2021 3 1 13), st. now split.
  - intros st Hst. exists true, st. now split.
  - exact dated_event_rdates.
  - exact dated_event_exdates.
  - intros l ->. vm_compute. reflexivity.
Defined.

Lemma foreach_sound_witness :
  exists l st, icalcomponent_foreach_recurrence 1 dated_event [] (utc 2021 1 1 0) (utc 2021 12 31 0) (initial_error_state false) = Some (l, st) /\
    length l = 2%nat /\
    (l = [] \/ exists dtstart dtend busy, yields (first_start dated_event []) dtstart /\ yields (first_end dated_event [] dtstart) dtend /\
      yields (icalcomponent_is_busy dated_event) busy /\
      Forall (reported 1 dated_event [] dtstart (icaltime_span_new dtstart dtend (b2z busy)) (limit_span (utc 2021 1 1 0) (utc 2021 12 31 0))) l).
Proof.
  destruct (icalcomponent_foreach_recurrence 1 dated_event [] (utc 2021 1 1 0) (utc 2021 12 31 0) (initial_error_state false))
    as [[l st]|] eqn:E; [|vm_compute in E; discriminate].
  exists l, st. split; [reflexivity|]. split; [vm_compute in E; now injection E as <- <-|]. exact (foreach_sound _ _ _ _ _ _ _ _ E).
Defined.

(** *** Normal forms *)

Definition texted (a : positive) (kind : icalproperty_kind) (v : cstring) : icalproperty :=
  Property a kind None [] 0 NoElem (Some (new_with ICAL_TEXT_VALUE (V_string v))) None.
Definition texted_event (ps : list icalproperty) : icalcomponent := Component 1 ICAL_VEVENT_COMPONENT None ps NoElem [] NoElem None None true.
Definition value_string (p : icalproperty) : cstring :=
  match pr_value p with Some v => match v_data v with V_string s => s | _ => [] end | None => [] end.
Definition a_summary : icalproperty := texted 2 ICAL_SUMMARY_PROPERTY $"Lunch".
Definition a_uid : icalproperty := texted 3 ICAL_UID_PROPERTY $"42".

Lemma texted_good p : p = a_summary \/ p = a_uid -> good_prop value_string (fun p => p) (fun _ => false) p.
Proof.
  intros [->| ->]; (split; [|split; [|split]]); try discriminate; intros st Hst; eexists _, st; split; try reflexivity; now split.
Qed.

Lemma normalize_canonical_witness :
  exists ps cs, StronglySorted (fun p q => prop_order value_string p q <= 0) ps /\ StronglySorted (fun c d => 0 <= 0) cs /\
    runs (icalcomponent_normalize (texted_event [a_summary; a_uid])) (fun d => co_properties d = ps /\ co_components d = cs) /\
    runs (icalcomponent_normalize (texted_event [a_uid; a_summary])) (fun d => co_properties d = ps /\ co_components d = cs).
Proof.
  apply (normalize_canonical value_string (fun p => p) (fun _ => false) (fun c => c) (fun _ _ => 0) (texted_event [a_summary; a_uid])
    (texted_event [a_uid; a_summary])).
  - split; intros; lia.
  - split; [|split; [constructor | intros c d []]]. repeat constructor; apply texted_good; auto.
  - split; [|split; [constructor | intros c d []]]. repeat constructor; apply texted_good; auto.
  - split; [|intros a b []]. intros p q [<-|[<-|[]]] [<-|[<-|[]]] E; try reflexivity; vm_compute in E; discriminate.
  - apply perm_swap.
  - constructor.
Defined.

(** Properties that differ in their parameters only compare equal; their order
    stays, so that the texts of reordered components differ. *)
Definition normal_text (ls : list string) : option (option cstring) :=
  option_map fst
    ((c <- icalparser_parse_string ICAL_TREAT_AS_ERROR 1 (text_of ("BEGIN:VEVENT"%string :: ls ++ ["END:VEVENT"%string])) ;;
      match c with
      | Some c => c <- icalcomponent_normalize c ;; s <- icalcomponent_as_ical_string_r c ;; ret (fst s)
      | None => ret None
      end) (initial_error_state false)).

Definition attendees : list string := ["ATTENDEE;ROLE=CHAIR:mailto:a@b"; "ATTENDEE;RSVP=TRUE:mailto:a@b"]%string.

Example parameters_not_compared :
  normal_text attendees = Some (Some (text_of ("BEGIN:VEVENT"%string :: attendees ++ ["END:VEVENT"%string]))) /\
  normal_text (rev attendees) = Some (Some (text_of ("BEGIN:VEVENT"%string :: rev attendees ++ ["END:VEVENT"%string]))).
Proof. vm_compute. split; reflexivity. Qed.
