(* ===== verification/IcalSpanlist.v ===== *)
(** * Lists of free and busy spans (libicalss/icalspanlist.c)

    A span list is built from the events of a set: their busy spans within limits
    in the order of their starts, with the free spans between them.  It answers
    when there is free time, is written as a matrix of counts per slot or as a
    VFREEBUSY, and is read from one.

    The set is given by the components that its iteration returns, the list of
    spans by its elements ([Pvl] shows that a list is a sequence and that
    [pvl_insert_ordered] finds the place), and the current time is an argument. *)
From Stdlib Require Import String Ascii ZArith Lia Bool List Permutation Sorted.
From S2P Require Import Prelude CString IcalError IcalTime IcalDuration IcalPeriod IcalRecurType IcalRecurIter IcalValueText IcalValue IcalLine IcalParameter IcalProperty IcalComponent IcalComponentZones IcalTimezone IcalComponentAccess IcalComponentRecur.
Import ListNotations.
#[local] Open Scope Z_scope.
#[local] Open Scope cstring_scope.
#[local] Open Scope err_scope.

Definition ICAL_ATTENDEE_PROPERTY : icalproperty_kind := 5.
Definition ICAL_FREEBUSY_PROPERTY : icalproperty_kind := 38.
Definition ICAL_ORGANIZER_PROPERTY : icalproperty_kind := 52.
Definition ICAL_FBTYPE_X : Z := 20400.
Definition ICAL_FBTYPE_FREE : Z := 20401.
Definition ICAL_FBTYPE_BUSY : Z := 20402.
Definition ICAL_FBTYPE_NONE : Z := 20499.

Record icalspanlist := Spanlist {
  sl_spans : list icaltime_span;
  sl_start : icaltimetype;
  sl_end : icaltimetype
}.

Definition compare_span (a b : icaltime_span) : Z :=
  if span_start a =? span_start b then 0 else if span_start a <? span_start b then -1 else 1.

(** Where [pvl_insert_ordered (l, compare_span, x)] puts the span; [None] is its
    failed assertion. *)
Definition ordered_place (x : icaltime_span) (l : list icaltime_span) : option nat :=
  match l with
  | [] => Some O
  | y :: _ =>
      if compare_span x y <=? 0 then Some O
      else if 0 <=? compare_span x (List.last l y) then Some (length l)
      else search_from (fun z => 0 <=? compare_span z x) l 0
  end.

Definition insert_at {A} (k : nat) (x : A) (l : list A) : list A := firstn k l ++ x :: skipn k l.

Definition insert_span (x : icaltime_span) (l : list icaltime_span) : err (list icaltime_span) :=
  match ordered_place x l with Some k => ret (insert_at k x l) | None => undefined end.

Section Spanlist.
Context `{PROPS : PropertyTables} `{PARAMS : ParameterTables} `{FLOAT : FloatOps} `{TZ : TimezoneConv} `{BUILTIN : BuiltinZones}.

(** ** Building a list *)

Definition icalspanlist_new_callback (span : icaltime_span) (spans : list icaltime_span) : err (list icaltime_span) :=
  if is_busy span =? 0 then ret spans else insert_span span spans.

Fixpoint collect_spans (reported spans : list icaltime_span) : err (list icaltime_span) :=
  match reported with
  | [] => ret spans
  | s :: rest => spans <- icalspanlist_new_callback s spans ;; collect_spans rest spans
  end.

Definition is_event (c : icalcomponent) : bool :=
  match inner_of c with
  | None => false
  | Some inner => ckind_eqb (co_kind c) ICAL_VEVENT_COMPONENT || ckind_eqb (co_kind inner) ICAL_VEVENT_COMPONENT
  end.

Fixpoint busy_spans (fuel : nat) (set : list icalcomponent) (start end_ : icaltimetype) (spans : list icaltime_span)
  : err (list icaltime_span) :=
  match set with
  | [] => ret spans
  | c :: rest =>
      spans <- (if is_event c then
                  icalerror_clear_errno ;;;
                  reported <- icalcomponent_foreach_recurrence fuel c [] start end_ ;;
                  collect_spans reported spans
                else ret spans) ;;
      busy_spans fuel rest start end_ spans
  end.

(** The loop that fills in the free time.  It is at the element [i]; a span that
    is inserted before it moves it on. *)
Fixpoint fill_free (fuel : nat) (range_start : Z) (i : nat) (spans : list icaltime_span) : err (list icaltime_span) :=
  match fuel with
  | O => undefined
  | S fuel =>
      match nth_error spans i with
      | None => ret spans
      | Some s =>
          if range_start <? span_start s then
            let freetime := Span range_start (span_start s) 0 in
            match ordered_place freetime spans with
            | None => undefined
            | Some k => fill_free fuel (span_end s) (S (if Nat.leb k i then S i else i)) (insert_at k freetime spans)
            end
          else fill_free fuel (span_end s) (S i) spans
      end
  end.

(** With an open end a free span of no length marks the end of the last one. *)
Definition open_end (end_ : icaltimetype) (spans : list icaltime_span) : err (list icaltime_span) :=
  if icaltime_is_null_time end_ then
    match List.last (map Some spans) None with
    | Some last_span => insert_span (Span (span_end last_span) (span_end last_span) 0) spans
    | None => ret spans
    end
  else ret spans.

Definition icalspanlist_new (fuel : nat) (set : list icalcomponent) (start end_ : icaltimetype) : err icalspanlist :=
  spans <- busy_spans fuel set start end_ [] ;;
  spans <- fill_free (S (length spans)) (icaltime_as_timet start) 0 spans ;;
  spans <- open_end end_ spans ;;
  ret (Spanlist spans start end_).

(** ** Free time *)

Definition period_between (start end_ : icaltimetype) : icalperiodtype := Period start end_ icaldurationtype_null_duration.

Fixpoint find_free (spans : list icaltime_span) (rangett : Z) : icalperiodtype :=
  match spans with
  | [] => period_between icaltime_null_time icaltime_null_time
  | s :: rest =>
      if (is_busy s =? 0) && (rangett <=? span_start s) && ((rangett <? span_end s) || (span_end s =? span_start s)) then
        period_between (icaltime_from_timet_with_zone (if rangett <? span_start s then span_start s else rangett) 0 ZONE_NULL)
          (icaltime_from_timet_with_zone (span_end s) 0 ZONE_NULL)
      else find_free rest rangett
  end.

(** The duration of the period is not set by the code; it is null here. *)
Definition icalspanlist_next_free_time (sl : icalspanlist) (t : icaltimetype) : icalperiodtype :=
  let rangett := icaltime_as_timet t in
  match sl_spans sl with
  | [] => period_between icaltime_null_time icaltime_null_time
  | s :: _ =>
      if rangett <? span_start s
      then period_between t (icaltime_from_timet_with_zone (if is_busy s =? 1 then span_start s else span_end s) 0 ZONE_NULL)
      else find_free (sl_spans sl) rangett
  end.

(** ** The matrix *)

(** [matrix[i]++]; outside of the array there is no result. *)
Definition count_slot (i : Z) (matrix : list Z) : option (list Z) :=
  if i <? 0 then None
  else match nth_error matrix (Z.to_nat i) with
       | Some n => Some (list_update (Z.to_nat i) (n + 1) matrix)
       | None => None
       end.

Fixpoint count_slots (n : nat) (i : Z) (matrix : list Z) : option (list Z) :=
  match n with
  | O => Some matrix
  | S n => match count_slot i matrix with Some m => count_slots n (i + 1) m | None => None end
  end.

Definition mark_span (delta_t start0 slots : Z) (s : icaltime_span) (matrix : list Z) : option (list Z) :=
  if is_busy s =? 1 then
    let offset_start := Z.quot (span_start s) delta_t - Z.quot start0 delta_t in
    let offset_end := Z.quot (span_end s - 1) delta_t - Z.quot start0 delta_t + 1 in
    let offset_end := if slots <=? offset_end then slots - 1 else offset_end in
    count_slots (Z.to_nat (offset_end - offset_start)) offset_start matrix
  else Some matrix.

Fixpoint mark_spans (delta_t start0 slots : Z) (spans : list icaltime_span) (matrix : list Z) : option (list Z) :=
  match spans with
  | [] => Some matrix
  | s :: rest =>
      match mark_span delta_t start0 slots s matrix with
      | Some m => mark_spans delta_t start0 slots rest m
      | None => None
      end
  end.

(** Without a slot the end marker is written in front of the array. *)
Definition icalspanlist_as_freebusy_matrix (sl : icalspanlist) (delta_t : Z) : option (list Z) :=
  let delta_t := if delta_t =? 0 then 3600 else delta_t in
  let start0 := Z.quot (icaltime_as_timet_with_zone (sl_start sl) ZONE_UTC) delta_t * delta_t in
  let end0 := Z.quot (icaltime_as_timet_with_zone (sl_end sl) ZONE_UTC) delta_t * delta_t in
  let matrix_slots := Z.quot (end0 - start0) delta_t + 1 in
  if matrix_slots <=? 0 then None
  else mark_spans delta_t start0 matrix_slots (sl_spans sl) (repeat 0 (Z.to_nat (matrix_slots - 1)) ++ [-1]).

(** ** VFREEBUSY *)

(** The generated constructors of properties. *)
Definition new_property (addr : positive) (kind : icalproperty_kind) (v : icalvalue) : err icalproperty :=
  match icalproperty_new_impl addr kind with Some p => icalproperty_set_value (Some v) p | None => undefined end.

Definition new_time_property (addr : positive) (kind : icalproperty_kind) (t : icaltimetype) : err icalproperty :=
  v <- new_time_value kind t ;; new_property addr kind v.

Definition icalparameter_new_fbtype (v : Z) : icalparameter := Param ICAL_FBTYPE_PARAMETER None None None v.
(** The generated accessor. *)
Definition icalparameter_get_fbtype (q : icalparameter) : err Z :=
  icalerror_clear_errno ;;; ret (match pa_string q with Some _ => ICAL_FBTYPE_X | None => pa_data q end).

Definition freebusy_property (addr : positive) (s : icaltime_span) : err icalproperty :=
  let period := period_between (icaltime_from_timet_with_zone (span_start s) 0 ZONE_UTC) (icaltime_from_timet_with_zone (span_end s) 0 ZONE_UTC) in
  p <- new_property addr ICAL_FREEBUSY_PROPERTY (new_with ICAL_PERIOD_VALUE (V_period period)) ;;
  ret (icalproperty_add_parameter (icalparameter_new_fbtype ICAL_FBTYPE_BUSY) p).

Fixpoint add_freebusy (addr : positive) (spans : list icaltime_span) (comp : icalcomponent) : err icalcomponent :=
  match spans with
  | [] => ret comp
  | s :: rest =>
      if is_busy s =? 1
      then p <- freebusy_property addr s ;; add_freebusy (Pos.succ addr) rest (icalcomponent_add_property p comp)
      else add_freebusy addr rest comp
  end.

(** The component is at [addr], its properties behind it. *)
Definition icalspanlist_as_vfreebusy (now : Z) (addr : positive) (sl : icalspanlist) (organizer attendee : option cstring)
  : err (option icalcomponent) :=
  let atime := icaltime_from_timet_with_zone now 0 ZONE_NULL in
  match attendee with
  | None => icalerror_set_errno ICAL_USAGE_ERROR ;;; ret None
  | Some attendee =>
      comp <- (match icalcomponent_new addr ICAL_VFREEBUSY_COMPONENT with Some c => ret c | None => undefined end) ;;
      p <- new_time_property (addr + 1) ICAL_DTSTART_PROPERTY (sl_start sl) ;;
      let comp := icalcomponent_add_property p comp in
      p <- new_time_property (addr + 2) ICAL_DTEND_PROPERTY (sl_end sl) ;;
      let comp := icalcomponent_add_property p comp in
      p <- new_time_property (addr + 3) ICAL_DTSTAMP_PROPERTY atime ;;
      let comp := icalcomponent_add_property p comp in
      comp <- (match organizer with
               | Some o => p <- new_property (addr + 4) ICAL_ORGANIZER_PROPERTY (new_with ICAL_CALADDRESS_VALUE (V_string o)) ;;
                           ret (icalcomponent_add_property p comp)
               | None => ret comp
               end) ;;
      p <- new_property (addr + 5) ICAL_ATTENDEE_PROPERTY (new_with ICAL_CALADDRESS_VALUE (V_string attendee)) ;;
      comp <- add_freebusy (addr + 6) (sl_spans sl) (icalcomponent_add_property p comp) ;;
      ret (Some comp)
  end.

Definition get_period (v : option icalvalue) : err icalperiodtype :=
  match v with Some v => data_period (v_data v) | None => badarg icalperiodtype_null_period end.

(** What the property says; the flag is 1 for free time. *)
Definition span_of_freebusy (p : icalproperty) : err icaltime_span :=
  fbtype <- (match fst (icalproperty_get_first_parameter ICAL_FBTYPE_PARAMETER p) with
             | Some q => icalparameter_get_fbtype q
             | None => ret ICAL_FBTYPE_BUSY
             end) ;;
  let busy := if (fbtype =? ICAL_FBTYPE_FREE) || (fbtype =? ICAL_FBTYPE_NONE) || (fbtype =? ICAL_FBTYPE_X) then 1 else 0 in
  period <- get_period (pr_value p) ;;
  ret (Span (icaltime_as_timet_with_zone (p_start period) ZONE_UTC) (icaltime_as_timet_with_zone (p_end period) ZONE_UTC) busy).

Fixpoint read_freebusy (ps : list icalproperty) (spans : list icaltime_span) : err (list icaltime_span) :=
  match ps with
  | [] => ret spans
  | p :: rest => s <- span_of_freebusy p ;; spans <- insert_span s spans ;; read_freebusy rest spans
  end.

(** The limits of the list are not set: the result is its spans. *)
Definition icalspanlist_from_vfreebusy (comp : icalcomponent) : err (option (list icaltime_span)) :=
  match inner_of comp with
  | None => ret None
  | Some inner => spans <- read_freebusy (properties_of ICAL_FREEBUSY_PROPERTY inner) [] ;; ret (Some spans)
  end.
End Spanlist.
