(* ===== verification/IcalSpanlistCorrect.v ===== *)
(** * Span lists: theorems

    The list of a set is in order and consists of the busy spans and the gaps
    between them; the matrix counts the busy spans of each slot. *)
From Stdlib Require Import String Ascii ZArith Lia ZifyBool Bool List Permutation Sorted.
From S2P Require Import Prelude CString IcalError IcalTime IcalTimeCalendar IcalDuration IcalPeriod IcalRecurType IcalRecurIter IcalValueText IcalValue IcalLine IcalParameter IcalProperty IcalComponent IcalDesignData IcalValueSafe IcalParserTotal IcalParserExamples IcalTimezone IcalComponentZones IcalComponentAccess IcalComponentEdit IcalComponentRecur IcalComponentSpans IcalComponentExamples IcalSpanlist.
Import ListNotations.
#[local] Open Scope Z_scope.
#[local] Open Scope err_scope.
#[local] Open Scope cstring_scope.

(** ** Insertion in order *)

Notation in_order := (StronglySorted (fun a b => span_start a <= span_start b)).

Lemma compare_span_sgn a b : compare_span a b = Z.sgn (span_start a - span_start b).
Proof. unfold compare_span. destruct (Z.eqb_spec (span_start a) (span_start b)), (Z.ltb_spec (span_start a) (span_start b)); lia. Qed.

Lemma sorted_app_split (l1 l2 : list icaltime_span) :
  in_order (l1 ++ l2) <-> in_order l1 /\ in_order l2 /\ Forall (fun a => Forall (fun b => span_start a <= span_start b) l2) l1.
Proof.
  induction l1 as [|a l1 IH]; cbn [List.app].
  - split; [intros H; repeat split; [constructor | exact H | constructor] | now intros (_ & H & _)].
  - split.
    + intros H. inversion H as [|? ? Hs Ha]; subst. apply IH in Hs as (H1 & H2 & H3). apply Forall_app in Ha as [Ha1 Ha2].
      repeat split; auto; now constructor.
    + intros (H1 & H2 & H3). inversion H1; inversion H3; subst. constructor; [now apply IH|]. now apply Forall_app.
Qed.

Lemma last_in_order y l x : in_order (y :: l) -> span_start (List.last (y :: l) y) <= x -> Forall (fun a => span_start a <= x) (y :: l).
Proof.
  intros Hs Hx. destruct (exists_last (l := y :: l)) as (l' & z & E); [discriminate|]. rewrite E in *. rewrite last_last in Hx.
  apply sorted_app_split in Hs as (_ & _ & H). apply Forall_app. split; [|now repeat constructor].
  eapply Forall_impl; [|exact H]. intros a Ha. inversion Ha; subst. lia.
Qed.

(** The place that is found keeps the order. *)
Lemma ordered_place_spec x l : in_order l ->
  exists pre post, l = pre ++ post /\ ordered_place x l = Some (length pre) /\
    Forall (fun a => span_start a <= span_start x) pre /\ Forall (fun a => span_start x <= span_start a) post.
Proof.
  intros Hs. unfold ordered_place. destruct l as [|y l]; [now exists [], []|]. rewrite !compare_span_sgn.
  destruct (Z.leb_spec (Z.sgn (span_start x - span_start y)) 0) as [Hle|Hgt].
  { exists [], (y :: l). repeat split; auto. inversion Hs as [|? ? _ Hy]; subst. constructor; [lia|].
    eapply Forall_impl; [|exact Hy]. cbn. lia. }
  destruct (Z.leb_spec 0 (Z.sgn (span_start x - span_start (List.last (y :: l) y)))) as [Hlast|Hlast].
  { exists (y :: l), []. rewrite app_nil_r. repeat split; auto. apply last_in_order; [exact Hs | lia]. }
  destruct (search_from _ _ _) as [k|] eqn:E.
  - apply search_place in E as (pre & z & post & El & -> & Hz & Hp). exists pre, (z :: post). rewrite El. repeat split.
    + eapply Forall_impl; [|exact Hp]. intros a Ha. cbv beta in Ha. rewrite compare_span_sgn in Ha. lia.
    + rewrite compare_span_sgn in Hz. rewrite El in Hs. apply sorted_app_split in Hs as (_ & Hs & _). inversion Hs as [|? ? _ Hz']; subst.
      constructor; [lia|]. eapply Forall_impl; [|exact Hz']. cbn. lia.
  - apply search_none in E. exfalso. rewrite Forall_forall in E. specialize (E (List.last (y :: l) y)). cbv beta in E.
    rewrite compare_span_sgn in E. lapply E; [lia|]. destruct (exists_last (l := y :: l)) as (l' & z & ->); [discriminate|].
    rewrite last_last. apply in_or_app. right. now left.
Qed.

Lemma insert_at_app {A} (x : A) pre post : insert_at (length pre) x (pre ++ post) = pre ++ x :: post.
Proof.
  unfold insert_at. rewrite firstn_app, skipn_app, Nat.sub_diag, firstn_all, skipn_all. cbn. now rewrite app_nil_r.
Qed.

Lemma insert_in_order x (pre post : list icaltime_span) :
  in_order (pre ++ post) -> Forall (fun a => span_start a <= span_start x) pre -> Forall (fun a => span_start x <= span_start a) post ->
  in_order (pre ++ x :: post).
Proof.
  rewrite !sorted_app_split. intros (H1 & H2 & H3) Hp Hq. repeat split; [exact H1 | now constructor|].
  rewrite Forall_forall in *. intros a Ha. constructor; auto.
Qed.

Lemma insert_span_spec x l st : in_order l -> exists l', insert_span x l st = Some (l', st) /\ in_order l' /\ Permutation (x :: l) l'.
Proof.
  intros Hs. destruct (ordered_place_spec x l Hs) as (pre & post & -> & E & Hp & Hq). unfold insert_span. rewrite E, insert_at_app.
  eexists. split; [reflexivity|]. split; [now apply insert_in_order | apply Permutation_middle].
Qed.

(** ** Free time *)

(** The gaps from [r] on between spans in the order given. *)
Fixpoint gaps (r : Z) (busy : list icaltime_span) : list icaltime_span :=
  match busy with
  | [] => []
  | s :: rest => (if r <? span_start s then [Span r (span_start s) 0] else []) ++ gaps (span_end s) rest
  end.

Lemma fill_free_spec : forall rest fuel r pre st, (length rest < fuel)%nat -> in_order (pre ++ rest) ->
  exists l, fill_free fuel r (length pre) (pre ++ rest) st = Some (l, st) /\ in_order l /\ Permutation (pre ++ rest ++ gaps r rest) l.
Proof.
  induction rest as [|s rest IH]; intros fuel r pre st Hf Hs; (destruct fuel as [|fuel]; [cbn in Hf; lia|]); cbn [fill_free].
  { rewrite app_nil_r in *. assert (nth_error pre (length pre) = None) as -> by now apply nth_error_None.
    exists pre. split; [reflexivity|]. split; [exact Hs|]. cbn. now rewrite app_nil_r. }
  rewrite nth_error_app2, Nat.sub_diag by lia. cbn [nth_error gaps length] in *. destruct (Z.ltb_spec r (span_start s)) as [Hr|Hr].
  - set (x := Span r (span_start s) 0). destruct (ordered_place_spec x _ Hs) as (pre1 & post & El & -> & Hp & Hq).
    assert (exists pre2, pre = pre1 ++ pre2 /\ post = pre2 ++ s :: rest) as (pre2 & -> & ->).
    { apply app_eq_app in El as (m & [[-> ->]|[-> E]]); [now exists m|]. destruct m as [|z m]; [exists []; now rewrite !app_nil_r|].
      injection E as <- E. exfalso. apply Forall_app in Hp as [_ Hp]. inversion Hp; subst. cbn in *. lia. }
    rewrite <- app_assoc, insert_at_app. assert (Nat.leb (length pre1) (length (pre1 ++ pre2)) = true) as ->
      by (apply Nat.leb_le; rewrite length_app; lia).
    assert (pre1 ++ x :: pre2 ++ s :: rest = (pre1 ++ x :: pre2 ++ [s]) ++ rest) as Ea by now rewrite <- !app_assoc, <- app_comm_cons, <- app_assoc.
    assert (S (S (length (pre1 ++ pre2))) = length (pre1 ++ x :: pre2 ++ [s])) as En by (rewrite !length_app; cbn; rewrite length_app; cbn; lia).
    rewrite Ea, En. destruct (IH fuel (span_end s) (pre1 ++ x :: pre2 ++ [s]) st) as (l & E & Hl & Hperm); [lia | |].
    { rewrite <- Ea. apply insert_in_order; auto. now rewrite app_assoc. }
    exists l. split; [exact E|]. split; [exact Hl|]. rewrite <- Hperm. clear. cbn [List.app].
    replace ((pre1 ++ x :: pre2 ++ [s]) ++ rest ++ gaps (span_end s) rest) with (pre1 ++ x :: (pre2 ++ s :: rest) ++ gaps (span_end s) rest)
      by now rewrite <- !app_assoc, <- !app_comm_cons, <- !app_assoc.
    rewrite <- app_assoc. apply Permutation_app_head.
    replace (pre2 ++ s :: rest ++ x :: gaps (span_end s) rest) with ((pre2 ++ s :: rest) ++ x :: gaps (span_end s) rest)
      by now rewrite <- app_assoc. symmetry. apply Permutation_middle.
  - specialize (IH fuel (span_end s) (pre ++ [s]) st). rewrite length_app, Nat.add_1_r, <- !app_assoc in IH. cbn [List.app] in IH |- *. apply IH; [lia | exact Hs].
Qed.

(** ** What the gaps are *)

(** The end of the last span. *)
Definition end_of_last (r : Z) (busy : list icaltime_span) : Z := List.last (map span_end busy) r.

Definition covers (s : icaltime_span) (x : Z) : Prop := span_start s <= x < span_end s.

Lemma last_cons {A} (l : list A) : forall a d, List.last (a :: l) d = List.last l a.
Proof. induction l as [|b l IH]; intros a d; [reflexivity|]. change (List.last (a :: b :: l) d) with (List.last (b :: l) d). now rewrite !IH. Qed.

Lemma gaps_cover : forall busy r x, r <= x < end_of_last r busy -> Exists (fun s => covers s x) (busy ++ gaps r busy).
Proof.
  induction busy as [|s rest IH]; intros r x Hx; [cbn in Hx; lia|]. unfold end_of_last in Hx. cbn [map] in Hx.
  rewrite last_cons in Hx. fold (end_of_last (span_end s) rest) in Hx. cbn [List.app gaps].
  destruct (Z.ltb_spec x (span_start s)) as [Hs|Hs].
  - destruct (Z.ltb_spec r (span_start s)); [|lia]. right. apply Exists_app. right. left. split; cbn; lia.
  - destruct (Z.ltb_spec x (span_end s)) as [He|He]; [left; now split|]. right. specialize (IH (span_end s) x).
    rewrite Exists_app in *. destruct IH as [H|H]; [lia | now left|]. right. apply Exists_app. now right.
Qed.

Definition disjoint (a b : icaltime_span) : Prop := span_end a <= span_start b \/ span_end b <= span_start a.
Notation ends_in_order := (StronglySorted (fun a b => span_end a <= span_end b)).

(** A gap begins at [r] or later, or where a span ends. *)
Lemma gaps_start : forall busy r, Forall (fun g => r <= span_start g \/ exists s, In s busy /\ span_end s <= span_start g) (gaps r busy).
Proof.
  induction busy as [|s rest IH]; intros r; cbn [gaps]; [constructor|]. apply Forall_app. split.
  - destruct (Z.ltb_spec r (span_start s)); [|constructor]. constructor; [left; cbn; lia | constructor].
  - eapply Forall_impl; [|apply (IH (span_end s))]. intros g [H|(t & Ht & H)]; right; [exists s | exists t]; split; auto; [now left | now right].
Qed.

(** When no span ends before an earlier one, the gaps are free. *)
Lemma gaps_free : forall busy r, in_order busy -> ends_in_order busy -> Forall (fun g => Forall (disjoint g) busy) (gaps r busy).
Proof.
  induction busy as [|s rest IH]; intros r Hs He; cbn [gaps]; [constructor|].
  inversion Hs as [|? ? Hs1 Hs2]; inversion He as [|? ? He1 He2]; subst. apply Forall_app. split.
  - destruct (Z.ltb_spec r (span_start s)); [|constructor]. constructor; [|constructor]. constructor; [left; cbn; lia|].
    eapply Forall_impl; [|exact Hs2]. intros t Ht. left. cbn in *. lia.
  - pose proof (gaps_start rest (span_end s)) as Hg. specialize (IH (span_end s) Hs1 He1). rewrite Forall_forall in *.
    intros g Hin. constructor; [|now apply IH]. right. destruct (Hg g Hin) as [H|(t & Ht & H)]; [exact H|]. specialize (He2 t Ht). cbn in He2. lia.
Qed.

Section Lists.
Context `{PROPS : PropertyTables} `{PARAMS : ParameterTables} `{FLOAT : FloatOps} `{TZ : TimezoneConv} `{BUILTIN : BuiltinZones}.

(** An event without rules, with the times that its properties give and that are
    read without an error ([foreach_without_rules] shows which spans it has). *)
Record plain_event := PlainEvent {
  pe_comp : icalcomponent;
  pe_start : icaltimetype;
  pe_end : icaltimetype;
  pe_busy : bool;
  pe_rdates : list icaltimetype;
  pe_exdates : list icaltimetype
}.

Record plain_ok (e : plain_event) : Prop := PlainOk {
  po_rrule : properties_of ICAL_RRULE_PROPERTY (pe_comp e) = [];
  po_exrule : properties_of ICAL_EXRULE_PROPERTY (pe_comp e) = [];
  po_start : runs (first_start (pe_comp e) []) (fun t => t = pe_start e);
  po_dated : icaltime_is_null_time (pe_start e) = false;
  po_end : runs (first_end (pe_comp e) [] (pe_start e)) (fun t => t = pe_end e);
  po_busy : runs (icalcomponent_is_busy (pe_comp e)) (fun b => b = pe_busy e);
  po_rdates : rdates_are (pe_comp e) (pe_rdates e);
  po_exdates : exdates_are (pe_comp e) [] (pe_exdates e)
}.

(** The busy spans of an event within limits. *)
Definition busy_spans_of (limits : icaltime_span) (e : plain_event) : list icaltime_span :=
  filter (fun s => negb (is_busy s =? 0)) (plain_spans (pe_start e) (pe_end e) (pe_busy e) (pe_rdates e) (pe_exdates e) limits).

Lemma runs_collect_spans : forall reported spans, in_order spans ->
  runs (collect_spans reported spans) (fun l => in_order l /\ Permutation (spans ++ filter (fun s => negb (is_busy s =? 0)) reported) l).
Proof.
  induction reported as [|s rest IH]; intros spans Hs; cbn [collect_spans filter]; [apply runs_ret; now rewrite app_nil_r|].
  unfold icalspanlist_new_callback. destruct (is_busy s =? 0); cbn [negb]; [apply runs_bind_ret; now apply IH|].
  intros st Hst. unfold bind. destruct (insert_span_spec s spans st Hs) as (l' & -> & Hl & Hp).
  destruct (IH l' Hl st Hst) as (l & st' & E & Hq & Ho & Hpl). exists l, st'. split; [exact E|]. split; [exact Hq|].
  split; [exact Ho|]. rewrite <- Hpl, <- Hp. symmetry. apply Permutation_middle.
Qed.

(** The busy spans of the events of a set are collected, each one once. *)
Lemma runs_busy_spans fuel start end_ : forall events spans, in_order spans ->
  Forall (fun e => is_event (pe_comp e) = true -> plain_ok e) events ->
  runs (busy_spans fuel (map pe_comp events) start end_ spans)
    (fun l => in_order l /\ Permutation (spans ++ flat_map (busy_spans_of (limit_span start end_)) (filter (fun e => is_event (pe_comp e)) events)) l).
Proof.
  induction events as [|e rest IH]; intros spans Hs Hev; cbn [map busy_spans filter flat_map]; [apply runs_ret; now rewrite app_nil_r|].
  inversion Hev as [|? ? H1 H2]; subst. destruct (is_event (pe_comp e)); [|apply runs_bind_ret; now apply IH].
  destruct (H1 eq_refl) as [P1 P2 P3 P4 P5 P6 P7 P8].
  eapply runs_bind with (P := fun l => in_order l /\ Permutation (spans ++ busy_spans_of (limit_span start end_) e) l).
  - eapply runs_bind; [apply runs_clear_errno|]. intros _ _.
    eapply runs_bind; [exact (runs_foreach_plain fuel _ [] start end_ _ _ _ _ _ P1 P2 P3 P4 P5 P6 P7 P8)|]. intros ? ->. now apply runs_collect_spans.
  - intros l [Hl Hp]. eapply runs_weaken; [exact (IH l Hl H2)|]. intros l' [Hl' Hp']. split; [exact Hl'|].
    cbn [flat_map]. now rewrite <- Hp', <- Hp, app_assoc.
Qed.

(** C26: For a set whose events have no RRULEs and EXRULEs and can be read without an
    error, and a range with an end, the list is built: it is in the order of the
    starts and consists of the busy spans of all events within the range and of the
    gaps in front of and between them.  Every time from the start of the range to
    the end of the last busy span lies in one of its spans (behind it no free span
    is added), and when no busy span ends before one that began earlier, no
    free span overlaps a busy one. *)
Theorem spanlist_busy_and_free fuel events start end_ st :
  icaltime_is_null_time end_ = false -> Forall (fun e => is_event (pe_comp e) = true -> plain_ok e) events -> quiet st ->
  exists sl st' busy, icalspanlist_new fuel (map pe_comp events) start end_ st = Some (sl, st') /\
    let free := gaps (icaltime_as_timet start) busy in
    in_order busy /\
    Permutation (flat_map (busy_spans_of (limit_span start end_)) (filter (fun e => is_event (pe_comp e)) events)) busy /\
    in_order (sl_spans sl) /\ Permutation (busy ++ free) (sl_spans sl) /\
    (forall x, icaltime_as_timet start <= x < end_of_last (icaltime_as_timet start) busy -> Exists (fun s => covers s x) (sl_spans sl)) /\
    (ends_in_order busy -> Forall (fun g => Forall (disjoint g) busy) free).
Proof.
  intros Hn Hev Hst. destruct (runs_busy_spans fuel start end_ events [] ltac:(constructor) Hev st Hst) as (busy & st' & Hb & _ & Hs & Hbusy).
  unfold icalspanlist_new, bind. rewrite Hb.
  destruct (fill_free_spec busy (S (length busy)) (icaltime_as_timet start) [] st' ltac:(lia) Hs) as (l & E & Hl & Hp).
  cbn [length List.app] in E, Hp. rewrite E. unfold open_end. rewrite Hn. eexists _, _, busy. split; [reflexivity|]. cbn [sl_spans].
  split; [exact Hs|]. split; [exact Hbusy|]. split; [exact Hl|]. split; [exact Hp|]. split.
  - intros x Hx. apply gaps_cover in Hx. rewrite Exists_exists in *. destruct Hx as (s & Hin & Hc). exists s.
    split; [now apply (Permutation_in _ Hp) | exact Hc].
  - intros He. now apply gaps_free.
Qed.
End Lists.

(** ** The matrix *)

Lemma count_slot_spec i m : 0 <= i < Z.of_nat (length m) ->
  exists m', count_slot i m = Some m' /\ length m' = length m /\
    forall j, nth_error m' j = if Z.of_nat j =? i then option_map (fun n => n + 1) (nth_error m j) else nth_error m j.
Proof.
  intros Hi. unfold count_slot. destruct (Z.ltb_spec i 0); [lia|].
  destruct (nth_error m (Z.to_nat i)) as [n|] eqn:En; [|apply nth_error_None in En; lia].
  apply nth_error_split in En as (pre & post & -> & Hlen). exists (pre ++ (n + 1) :: post). rewrite <- Hlen, update_place.
  split; [reflexivity|]. split; [now rewrite !length_app|]. intros j.
  destruct (Nat.ltb_spec j (length pre)); [rewrite !nth_error_app1 by lia; destruct (Z.eqb_spec (Z.of_nat j) i); [lia | reflexivity]|].
  rewrite !nth_error_app2 by lia. destruct (j - length pre)%nat as [|k] eqn:Ek; cbn [nth_error].
  - destruct (Z.eqb_spec (Z.of_nat j) i); [reflexivity | lia].
  - destruct (Z.eqb_spec (Z.of_nat j) i); [lia | reflexivity].
Qed.

(** The slots from [i] on, [n] of them. *)
Lemma count_slots_spec : forall n i m, 0 <= i -> i + Z.of_nat n <= Z.of_nat (length m) ->
  exists m', count_slots n i m = Some m' /\ length m' = length m /\
    forall j, nth_error m' j = option_map (fun v => if (i <=? Z.of_nat j) && (Z.of_nat j <? i + Z.of_nat n) then v + 1 else v) (nth_error m j).
Proof.
  induction n as [|n IH]; intros i m Hi Hn; cbn [count_slots].
  { exists m. split; [reflexivity|]. split; [reflexivity|]. intros j. replace ((i <=? Z.of_nat j) && (Z.of_nat j <? i + Z.of_nat 0)) with false by lia.
    now destruct (nth_error m j). }
  destruct (count_slot_spec i m ltac:(lia)) as (m1 & -> & Hl & Hm). destruct (IH (i + 1) m1 ltac:(lia) ltac:(lia)) as (m2 & -> & Hl2 & Hm2).
  exists m2. split; [reflexivity|]. split; [congruence|]. intros j. rewrite Hm2, Hm.
  destruct (Z.eqb_spec (Z.of_nat j) i) as [E|E]; destruct (nth_error m j) as [v|]; cbn [option_map]; try reflexivity; f_equal.
  - replace ((i + 1 <=? Z.of_nat j) && (Z.of_nat j <? i + 1 + Z.of_nat n)) with false by lia.
    replace ((i <=? Z.of_nat j) && (Z.of_nat j <? i + Z.of_nat (S n))) with true by lia. reflexivity.
  - replace ((i + 1 <=? Z.of_nat j) && (Z.of_nat j <? i + 1 + Z.of_nat n)) with ((i <=? Z.of_nat j) && (Z.of_nat j <? i + Z.of_nat (S n))) by lia.
    reflexivity.
Qed.

(** The span and the slot share a second. *)
Definition in_slot (delta start0 : Z) (j : nat) (s : icaltime_span) : bool :=
  (is_busy s =? 1) && (span_start s <? start0 + (Z.of_nat j + 1) * delta) && (start0 + Z.of_nat j * delta <? span_end s).

Definition in_range (start0 : Z) (s : icaltime_span) : Prop := is_busy s = 1 -> start0 <= span_start s < span_end s.

Lemma quot_aligned a q delta : 0 < delta -> 0 <= q -> q * delta <= a -> Z.quot a delta - Z.quot (q * delta) delta = (a - q * delta) / delta.
Proof.
  intros Hd Hq Ha. rewrite Z.quot_mul by lia. rewrite Z.quot_div_nonneg by nia.
  replace a with ((a - q * delta) + q * delta) at 1 by lia. rewrite Z.div_add by lia. lia.
Qed.

Lemma slot_from x delta j : 0 < delta -> (x / delta <= j <-> x < (j + 1) * delta).
Proof. intros Hd. pose proof (Z.mul_div_le x delta Hd). pose proof (Z.mul_succ_div_gt x delta Hd). split; intros; nia. Qed.
Lemma slot_to x delta j : 0 < delta -> (j <= x / delta <-> j * delta <= x).
Proof. intros Hd. pose proof (Z.mul_div_le x delta Hd). pose proof (Z.mul_succ_div_gt x delta Hd). split; intros; nia. Qed.

(** The slots between the first and the last one of a span are those it shares a second with. *)
Lemma in_slot_range delta q j s : 0 < delta -> is_busy s = 1 ->
  in_slot delta (q * delta) j s =
  ((span_start s - q * delta) / delta <=? Z.of_nat j) && (Z.of_nat j <? (span_end s - 1 - q * delta) / delta + 1).
Proof.
  intros Hd Hb. unfold in_slot. rewrite Hb. cbn [Z.eqb andb]. pose proof (slot_from (span_start s - q * delta) delta (Z.of_nat j) Hd).
  pose proof (slot_to (span_end s - 1 - q * delta) delta (Z.of_nat j) Hd).
  change (1 =? 1) with true. cbn [andb]. f_equal; lia.
Qed.

(** The last slot is the marker. *)
Lemma mark_span_spec delta q slots s m :
  0 < delta -> 0 <= q -> in_range (q * delta) s -> Z.of_nat (length m) = slots -> 0 < slots ->
  exists m', mark_span delta (q * delta) slots s m = Some m' /\ length m' = length m /\
    forall j, nth_error m' j =
      option_map (fun v => if (Z.of_nat j <? slots - 1) && in_slot delta (q * delta) j s then v + 1 else v) (nth_error m j).
Proof.
  intros Hd Hq Hr Hm Hs. unfold mark_span. destruct (Z.eqb_spec (is_busy s) 1) as [Eb|Eb].
  2:{ exists m. split; [reflexivity|]. split; [reflexivity|]. intros j. unfold in_slot. apply Z.eqb_neq in Eb. rewrite Eb, !andb_false_r.
      now destruct (nth_error m j). }
  specialize (Hr Eb). cbv zeta. rewrite !quot_aligned by lia.
  assert (forall j, in_slot delta (q * delta) j s = _) as Hj by (intros j; now apply in_slot_range).
  set (a := (span_start s - q * delta) / delta) in *. set (b := (span_end s - 1 - q * delta) / delta + 1) in *.
  assert (0 <= a) as Ha by (apply Z.div_pos; lia).
  assert (0 <= (if slots <=? b then slots - 1 else b) <= slots - 1) as Hb.
  { assert (0 < b) by (assert (0 <= (span_end s - 1 - q * delta) / delta) by (apply Z.div_pos; lia); lia). destruct (Z.leb_spec slots b); lia. }
  set (e := if slots <=? b then slots - 1 else b) in *.
  destruct (Z.leb_spec a e) as [Hab|Hab].
  - destruct (count_slots_spec (Z.to_nat (e - a)) a m Ha) as (m' & E & Hl & Hn); [lia|].
    exists m'. split; [exact E|]. split; [exact Hl|]. intros j. rewrite Hn, Hj. destruct (nth_error m j) as [v|]; cbn [option_map]; [|reflexivity].
    f_equal. replace ((a <=? Z.of_nat j) && (Z.of_nat j <? a + Z.of_nat (Z.to_nat (e - a)))) with
      ((Z.of_nat j <? slots - 1) && ((a <=? Z.of_nat j) && (Z.of_nat j <? b))); [reflexivity|].
    subst e. destruct (Z.leb_spec slots b); lia.
  - replace (Z.to_nat (e - a)) with O by lia. exists m. split; [reflexivity|]. split; [reflexivity|]. intros j. rewrite Hj.
    replace ((Z.of_nat j <? slots - 1) && ((a <=? Z.of_nat j) && (Z.of_nat j <? b))) with false;
      [now destruct (nth_error m j) | subst e; destruct (Z.leb_spec slots b); lia].
Qed.

(** How many spans share a second with the slot. *)
Definition slot_count (delta start0 : Z) (spans : list icaltime_span) (j : nat) : Z :=
  Z.of_nat (length (filter (in_slot delta start0 j) spans)).

Lemma mark_spans_spec delta q slots : 0 < delta -> 0 <= q -> 0 < slots -> forall spans m,
  Forall (in_range (q * delta)) spans -> Z.of_nat (length m) = slots ->
  exists m', mark_spans delta (q * delta) slots spans m = Some m' /\ length m' = length m /\
    forall j, nth_error m' j =
      option_map (fun v => if Z.of_nat j <? slots - 1 then v + slot_count delta (q * delta) spans j else v) (nth_error m j).
Proof.
  intros Hd Hq Hs. induction spans as [|s spans IH]; intros m Hr Hm; cbn [mark_spans].
  { exists m. split; [reflexivity|]. split; [reflexivity|]. intros j. unfold slot_count. cbn [filter length].
    destruct (nth_error m j) as [v|]; cbn [option_map]; [|reflexivity]. f_equal. destruct (Z.of_nat j <? slots - 1); lia. }
  inversion Hr as [|? ? Hr1 Hr2]; subst. destruct (mark_span_spec delta q _ s m Hd Hq Hr1 eq_refl Hs) as (m1 & -> & Hl & H1).
  destruct (IH m1 Hr2 ltac:(lia)) as (m2 & -> & Hl2 & H2). exists m2. split; [reflexivity|]. split; [congruence|]. intros j. rewrite H2, H1.
  destruct (nth_error m j) as [v|]; cbn [option_map]; [|reflexivity]. f_equal. unfold slot_count. cbn [filter].
  destruct (Z.of_nat j <? Z.of_nat (length m) - 1); cbn [andb]; [|reflexivity].
  destruct (in_slot delta (q * delta) j s); cbn [length]; lia.
Qed.

Lemma matrix_is delta start0 spans n (m : list Z) :
  length m = S n -> (forall j, nth_error m j = option_map (fun v => if Z.of_nat j <? Z.of_nat n then v + slot_count delta start0 spans j else v)
    (nth_error (repeat 0 n ++ [-1]) j)) ->
  m = map (slot_count delta start0 spans) (seq 0 n) ++ [-1].
Proof.
  intros Hl Hm. apply nth_error_ext. intros j. rewrite Hm. destruct (Nat.ltb_spec j n) as [Hj|Hj].
  - rewrite !nth_error_app1 by (rewrite ?repeat_length, ?length_map, ?length_seq; lia). rewrite nth_error_repeat by lia.
    rewrite nth_error_map, nth_error_seq. replace (j <? n)%nat with true by lia. cbn [option_map]. f_equal.
    replace (Z.of_nat j <? Z.of_nat n) with true by lia. reflexivity.
  - rewrite !nth_error_app2 by (rewrite ?repeat_length, ?length_map, ?length_seq; lia). rewrite repeat_length, length_map, length_seq.
    replace (Z.of_nat j <? Z.of_nat n) with false by lia. now destruct (nth_error [-1] (j - n)).
Qed.

Section Matrix.
Context `{TZ : TimezoneConv}.

(** The number of a slot since the epoch. *)
Definition slot_of (delta : Z) (t : icaltimetype) : Z := Z.quot (icaltime_as_timet_with_zone t ZONE_UTC) delta.

(** C27: for a list that begins after the epoch and does not end before it begins,
    and whose busy spans are not empty and not before the first slot, the matrix
    has a number for each slot of the range, which is how many busy spans share a
    second with the slot, and -1 behind them; nothing is written outside of it. *)
Theorem freebusy_matrix_counts sl delta :
  let d := if delta =? 0 then 3600 else delta in
  0 < d -> 0 <= icaltime_as_timet_with_zone (sl_start sl) ZONE_UTC <= icaltime_as_timet_with_zone (sl_end sl) ZONE_UTC ->
  Forall (in_range (slot_of d (sl_start sl) * d)) (sl_spans sl) ->
  icalspanlist_as_freebusy_matrix sl delta =
  Some (map (slot_count d (slot_of d (sl_start sl) * d) (sl_spans sl)) (seq 0 (Z.to_nat (slot_of d (sl_end sl) - slot_of d (sl_start sl)))) ++ [-1]).
Proof.
  cbv zeta. intros Hd [H0 H1] Hr. unfold icalspanlist_as_freebusy_matrix. cbv zeta. fold (slot_of (if delta =? 0 then 3600 else delta) (sl_start sl)).
  fold (slot_of (if delta =? 0 then 3600 else delta) (sl_end sl)). set (d := if delta =? 0 then 3600 else delta) in *.
  assert (0 <= slot_of d (sl_start sl) <= slot_of d (sl_end sl)) as Hq.
  { unfold slot_of. split; [apply Z.quot_pos; lia | apply Z.quot_le_mono; lia]. }
  set (q := slot_of d (sl_start sl)) in *. set (e := slot_of d (sl_end sl)) in *.
  replace (Z.quot (e * d - q * d) d) with (e - q) by (rewrite <- Z.mul_sub_distr_r, Z.quot_mul; lia).
  destruct (Z.leb_spec (e - q + 1) 0); [lia|]. replace (e - q + 1 - 1) with (e - q) by lia.
  destruct (mark_spans_spec d q (e - q + 1) Hd ltac:(lia) ltac:(lia) (sl_spans sl) (repeat 0 (Z.to_nat (e - q)) ++ [-1]) Hr) as (m & -> & Hl & Hm).
  { rewrite length_app, repeat_length. cbn [length]. lia. }
  f_equal. apply matrix_is; [rewrite Hl, length_app, repeat_length; cbn [length]; lia|].
  intros j. rewrite Hm. replace (Z.of_nat (Z.to_nat (e - q))) with (e - q + 1 - 1) by lia. reflexivity.
Qed.
End Matrix.

(** ** Span lists: concrete instances

    The theorems at concrete lists, and where the code
    does not do what it is meant to. *)

#[local] Existing Instance text_floats.
#[local] Existing Instance utc_only.
#[local] Existing Instance no_builtins.
Definition week_start : icaltimetype := utc 2021 3 1 0.
Definition week_end : icaltimetype := utc 2021 3 8 0.

(** The list of one event with two occurrences. *)
Example event_spans :
  option_map (fun r => sl_spans (fst r)) (icalspanlist_new 1 [dated_event] week_start week_end (initial_error_state false)) =
  Some [Span 1614556800 1614600000 0; Span 1614600000 1614603600 1; Span 1614603600 1615118400 0; Span 1615118400 1615122000 1].
Proof. vm_compute. reflexivity. Qed.

Definition dated_plain : plain_event :=
  PlainEvent dated_event (utc 2021 3 1 12) (utc 2021 3 1 13) true [utc 2021 3 5 12; utc 2021 3 7 12] [utc 2021 3 5 12].

Lemma dated_plain_ok : plain_ok dated_plain.
Proof.
  constructor; cbn [dated_plain pe_comp pe_start pe_end pe_busy pe_rdates pe_exdates].
  1,2,4: vm_compute; reflexivity.
  4: exact dated_event_rdates.
  4: exact dated_event_exdates.
  all: intros st Hst; eexists _, st; now split.
Qed.

Lemma spanlist_busy_and_free_witness :
  exists sl st, icalspanlist_new 1 [dated_event] week_start week_end (initial_error_state false) = Some (sl, st) /\
    StronglySorted (fun a b => span_start a <= span_start b) (sl_spans sl) /\ Exists (fun s => span_start s = 1615118400 /\ is_busy s = 1) (sl_spans sl).
Proof.
  destruct (spanlist_busy_and_free 1 [dated_plain] week_start week_end (initial_error_state false) ltac:(vm_compute; reflexivity)
    ltac:(constructor; [intros _; exact dated_plain_ok | constructor]) initial_quiet) as (sl & st & busy & Esl & _ & Hb & Hs & Hp & _).
  exists sl, st. split; [exact Esl|]. split; [exact Hs|]. apply Exists_exists. exists (Span 1615118400 1615122000 1). split; [|now split].
  apply (Permutation_in _ Hp), in_or_app. left. apply (Permutation_in _ Hb). vm_compute. now right; left.
Defined.

(** Two overlapping hours: one slot counts both. *)
Definition overlapping : icalspanlist :=
  Spanlist [Span 1614556800 1614562200 1; Span 1614560400 1614564000 1; Span 1614564000 1614567600 0] week_start (utc 2021 3 1 4).

Lemma freebusy_matrix_counts_witness : icalspanlist_as_freebusy_matrix overlapping 0 = Some [1; 2; 0; 0; -1].
Proof.
  rewrite (freebusy_matrix_counts overlapping 0); [vm_compute; reflexivity | vm_compute; reflexivity | vm_compute; split; discriminate|].
  apply Forall_forall. intros s [<-|[<-|[<-|[]]]] H; try discriminate H; vm_compute; (split; [discriminate | reflexivity]).
Defined.

(** A span that begins before the list: the matrix is written in front of its beginning. *)
Example matrix_out_of_bounds :
  icalspanlist_as_freebusy_matrix (Spanlist [Span 1614553200 1614562200 1] week_start week_end) 0 = None.
Proof. vm_compute. reflexivity. Qed.

(** In the middle of a free span the next free time is the free span after it. *)
Example free_time_skipped :
  icalspanlist_next_free_time (Spanlist [Span 1614553200 1614556800 1; Span 1614556800 1614567600 0; Span 1614567600 1614571200 1; Span 1614571200 1614574800 0]
    week_start week_end) (utc 2021 3 1 2) =
  period_between (IcalTime 2021 3 1 4 0 0 0 0 ZONE_NULL) (IcalTime 2021 3 1 5 0 0 0 0 ZONE_NULL).
Proof. vm_compute. reflexivity. Qed.

(** A busy span within another: the time between their ends counts as free. *)
Example busy_time_as_free :
  option_map fst (fill_free 4 0 0 [Span 0 100 1; Span 10 20 1; Span 50 60 1] (initial_error_state false)) =
  Some [Span 0 100 1; Span 10 20 1; Span 20 50 0; Span 50 60 1].
Proof. vm_compute. reflexivity. Qed.

(** Written as a VFREEBUSY and read again, busy time is free. *)
Example busy_becomes_free :
  option_map fst
    ((c <- icalspanlist_as_vfreebusy 0 1 overlapping None (Some $"mailto:a@b") ;;
      match c with Some c => icalspanlist_from_vfreebusy c | None => ret None end) (initial_error_state false)) =
  Some (Some [Span 1614556800 1614562200 0; Span 1614560400 1614564000 0]).
Proof. vm_compute. reflexivity. Qed.
