(* ===== verification/IcalTzUtil.v ===== *)
(** * The zone files of the system (icaltz-util.c)

    A zone is read from the binary file of its location, in the first of the two
    formats such a file holds, and made into a VTIMEZONE component: one STANDARD or
    DAYLIGHT part for each run of transitions that follow the same yearly rule.

    The system is the class [HostSystem]: the environment, the files, and the clock.
    [Undefined] stands for what has no meaning in C: an index outside of an array, a
    read of memory that was never written.  Allocations of more than PTRDIFF_MAX bytes
    fail and others do not, as in the GNU library. *)
From Stdlib Require Import String Ascii ZArith Lia Bool List.
From S2P Require Import Prelude CString IcalError IcalTime IcalRecurType IcalRecurIter IcalValueText IcalValue IcalLine IcalParameter IcalProperty IcalComponent IcalComponentZones IcalTimezone IcalComponentAccess IcalSpanlist.
Import ListNotations.
#[local] Open Scope Z_scope.
#[local] Open Scope cstring_scope.

(** ** Files *)

(** A file: its bytes, whether it can be positioned, and whether a read past the
    bytes is an error (a directory, a medium that fails) or the end of the file. *)
Record file := File { f_bytes : list ascii; f_seekable : bool; f_failing : bool }.

(** An open file: what is left of it, and its error indicator. *)
Record FILE := Stream { fs_rest : list ascii; fs_failing : bool; fs_error : bool }.

Class HostSystem := {
  getenv_TZDIR : option cstring;
  access : cstring -> bool;
  fopen : cstring -> option file;
  time_now : Z
}.

(** At most [n] bytes. *)
Definition take_bytes (n : nat) (f : FILE) : list ascii * FILE :=
  (firstn n (fs_rest f),
   Stream (skipn n (fs_rest f)) (fs_failing f) (fs_error f || (Nat.ltb (length (fs_rest f)) n && fs_failing f))).

(** EOF is -1. *)
Definition fgetc (f : FILE) : Z * FILE :=
  match take_bytes 1 f with
  | ([c], f) => (code c, f)
  | (_, f) => (-1, f)
  end.

(** [goto error] with an error, or what has been read so far. *)
Inductive read_result (A : Type) := Read (a : A) | Fails (e : icalerrorenum) | Undefined.
Arguments Read {A}. Arguments Fails {A}. Arguments Undefined {A}.

Definition obind {A B} (m : read_result A) (k : A -> read_result B) : read_result B :=
  match m with Read a => k a | Fails e => Fails e | Undefined => Undefined end.

Declare Scope read_scope.
Delimit Scope read_scope with read_result.
Notation "x <- m ;; k" := (obind m (fun x => k)) (at level 60, m at next level, right associativity) : read_scope.
Notation "' p <- m ;; k" := (obind m (fun x => match x with p => k end))
  (at level 60, p pattern, m at next level, right associativity) : read_scope.
#[local] Open Scope read_scope.

(** [EFREAD] of one element of [size] bytes; [None] when it is not complete, and its
    bytes are indeterminate. *)
Definition EFREAD1 (size : nat) (f : FILE) : read_result (option (list ascii) * FILE) :=
  let '(bytes, f) := take_bytes size f in
  let complete := Nat.eqb (length bytes) size && negb (Nat.eqb size 0) in
  if negb complete && fs_error f then Fails ICAL_FILE_ERROR
  else Read (if Nat.eqb (length bytes) size then Some bytes else None, f).

(** A big-endian [int]. *)
Definition decode (b : list ascii) : option Z :=
  match b with
  | [b0; b1; b2; b3] => Some (to_int32 (((code b0 * 256 + code b1) * 256 + code b2) * 256 + code b3))
  | _ => None
  end.

Definition determined {A} (o : option A) : read_result A := match o with Some a => Read a | None => Undefined end.

(** [EFREAD] of [n] elements of four bytes into zeroed memory: an element that is not
    complete is indeterminate, those behind it stay 0. *)
Fixpoint words (n : nat) (bytes : list ascii) : list (option Z) :=
  match n with
  | O => []
  | S n =>
      match bytes with
      | [] => Some 0 :: words n []
      | _ => decode (firstn 4 bytes) :: words n (skipn 4 bytes)
      end
  end.

Definition EFREAD4 (n : nat) (f : FILE) : read_result (list (option Z) * FILE) :=
  let '(bytes, f) := take_bytes (4 * n) f in
  if Nat.ltb (length bytes) (4 * n) && fs_error f then Fails ICAL_FILE_ERROR else Read (words n bytes, f).

(** [size_t] of an [int]. *)
Definition size_of_int (n : Z) : Z := n mod 2 ^ 64.
Definition alloc (n size : Z) : read_result unit := if n * size <? 2 ^ 63 then Read tt else Fails ICAL_NEWFAILED_ERROR.

(** ** The contents of a zone file *)

Record tzinfo := TzInfo { ttisgmtcnt : Z; ttisstdcnt : Z; leapcnt : Z; timecnt : Z; typecnt : Z; charcnt : Z }.

Record ttinfo := TtInfo { gmtoff : Z; isdst : Z; abbr : Z; isstd : bool; isgmt : bool; zname : cstring }.

(** A type as [calloc] leaves it. *)
Definition no_ttinfo : ttinfo := TtInfo 0 0 0 false false [].

Definition set_isstd (b : bool) (t : ttinfo) : ttinfo := TtInfo (gmtoff t) (isdst t) (abbr t) b (isgmt t) (zname t).
Definition set_isgmt (b : bool) (t : ttinfo) : ttinfo := TtInfo (gmtoff t) (isdst t) (abbr t) (isstd t) b (zname t).
Definition set_zname (s : cstring) (t : ttinfo) : ttinfo := TtInfo (gmtoff t) (isdst t) (abbr t) (isstd t) (isgmt t) s.

Definition read_counts (f : FILE) : read_result (tzinfo * FILE) :=
  '(b, f) <- EFREAD1 24 f ;;
  b <- determined b ;;
  let count k := determined (decode (firstn 4 (skipn (4 * k) b))) in
  gmt <- count 0%nat ;; std <- count 1%nat ;; leap <- count 2%nat ;;
  times <- count 3%nat ;; types <- count 4%nat ;; chars <- count 5%nat ;;
  Read (TzInfo (size_of_int gmt) (size_of_int std) (size_of_int leap) (size_of_int times) (size_of_int types) (size_of_int chars), f).

(** The type of each transition is read while its time is decoded. *)
Fixpoint read_transitions (r_trans : list (option Z)) (f : FILE) : read_result (list Z * list Z * FILE) :=
  match r_trans with
  | [] => Read ([], [], f)
  | w :: rest =>
      let '(c, f) := fgetc f in
      t <- determined w ;;
      '(ts, cs, f) <- read_transitions rest f ;;
      Read (t :: ts, c :: cs, f)
  end.

Fixpoint read_types (n : nat) (f : FILE) : read_result (list ttinfo * FILE) :=
  match n with
  | O => Read ([], f)
  | S n =>
      '(a, f) <- EFREAD1 4 f ;;
      let '(dst, f) := fgetc f in
      let '(c, f) := fgetc f in
      if c <? 0 then Read (TtInfo 0 (dst mod 256) 0 false false [] :: repeat no_ttinfo n, f)
      else
        a <- determined a ;;
        off <- determined (decode a) ;;
        '(ts, f) <- read_types n f ;;
        Read (TtInfo off (dst mod 256) c false false [] :: ts, f)
  end.

(** The leap seconds are read and not used. *)
Fixpoint read_leaps (n : nat) (f : FILE) : read_result FILE :=
  match n with
  | O => Read f
  | S n => '(_, f) <- EFREAD1 4 f ;; '(_, f) <- EFREAD1 4 f ;; read_leaps n f
  end.

(** The flags of the first types; those of the others are cleared. *)
Fixpoint read_flags (set : bool -> ttinfo -> ttinfo) (n : nat) (ts : list ttinfo) (f : FILE) : read_result (list ttinfo * FILE) :=
  match n, ts with
  | O, ts => Read (map (set false) ts, f)
  | S _, [] => Undefined
  | S n, t :: ts =>
      let '(c, f) := fgetc f in
      '(ts, f) <- read_flags set n ts f ;;
      Read (set (negb (c =? 0)) t :: ts, f)
  end.

Definition read_all_flags (set : bool -> ttinfo -> ttinfo) (n : Z) (ts : list ttinfo) (f : FILE) : read_result (list ttinfo * FILE) :=
  if Z.of_nat (length ts) <? n then Undefined else read_flags set (Z.to_nat n) ts f.

(** The text from [idx] on up to its NUL, in memory of which [None] is indeterminate. *)
Fixpoint text_from (str : list ascii) : read_result cstring :=
  match str with
  | [] => Undefined
  | c :: rest => if Ascii.eqb c NUL then Read [] else s <- text_from rest ;; Read (c :: s)
  end.

Definition zname_from_stridx (str : option (list ascii)) (idx : Z) : read_result cstring :=
  str <- determined str ;; text_from (skipn (Z.to_nat idx) str).

Fixpoint name_types (znames : option (list ascii)) (ts : list ttinfo) : read_result (list ttinfo) :=
  match ts with
  | [] => Read []
  | t :: ts =>
      s <- zname_from_stridx znames (abbr t) ;;
      ts <- name_types znames ts ;;
      Read (set_zname s t :: ts)
  end.

(** What the file gives: times, the type of each, types. *)
Record tzfile := TzFile { transitions : list Z; trans_idx : list Z; types : list ttinfo }.

Definition read_tzfile (f : FILE) : read_result tzfile :=
  '(cnt, f) <- read_counts f ;;
  if timecnt cnt =? 0 then Fails ICAL_FILE_ERROR
  else
    _ <- alloc (timecnt cnt) 8 ;;
    _ <- alloc (timecnt cnt) 4 ;;
    '(r_trans, f) <- EFREAD4 (Z.to_nat (timecnt cnt)) f ;;
    '(trans, idx, f) <- read_transitions r_trans f ;;
    _ <- alloc (typecnt cnt) 32 ;;
    '(ts, f) <- read_types (Z.to_nat (typecnt cnt)) f ;;
    _ <- alloc (charcnt cnt) 1 ;;
    '(znames, f) <- EFREAD1 (Z.to_nat (charcnt cnt)) f ;;
    _ <- alloc (leapcnt cnt) 16 ;;
    f <- read_leaps (Z.to_nat (leapcnt cnt)) f ;;
    '(ts, f) <- read_all_flags set_isstd (ttisstdcnt cnt) ts f ;;
    '(ts, f) <- read_all_flags set_isgmt (ttisgmtcnt cnt) ts f ;;
    ts <- name_types znames ts ;;
    Read (TzFile trans idx ts).

#[local] Close Scope read_scope.
#[local] Open Scope err_scope.

(** [types[i]], and the like. *)
Definition at_index {A} (l : list A) (i : Z) : err A :=
  if i <? 0 then undefined else match nth_error l (Z.to_nat i) with Some x => ret x | None => undefined end.

(** ** Rules *)

Definition r_pos : list Z := [1; 2; 3; -2; -1].

Definition calculate_pos (icaltime : icaltimetype) : err Z :=
  let pos := Z.quot (day icaltime - 1) 7 in
  let pos := if (pos =? 3) && (icaltime_days_in_month (month icaltime) (year icaltime) <? day icaltime + 7) then 4 else pos in
  at_index r_pos pos.

Section ZoneFiles.
Context `{PROPS : PropertyTables} `{PARAMS : ParameterTables} `{FLOAT : FloatOps} `{TZ : TimezoneConv} `{BUILTIN : BuiltinZones} `{NAMES : ZoneNames}.
Context `{HOST : HostSystem}.

(** A [time_t] as a floating time. *)
Definition local_time (n : Z) : icaltimetype := icaltime_from_timet_with_zone n 0 ZONE_NULL.

(** The first day of a year, at midnight. *)
Definition start_of_year (t : icaltimetype) : icaltimetype := IcalTime.set_time (set_date t (year t) 1 1) 0 0 0.

(** The day of DTSTART becomes the day of the rule in the current year. *)
Definition adjust_dtstart_day_to_rrule (fuel : nat) (addr : positive) (comp : icalcomponent) (rule : icalrecurrencetype)
  : err icalcomponent :=
  let itime := start_of_year (local_time time_now) in
  let year_start := icaltime_as_timet itime in
  comp_start <- icalcomponent_get_dtstart comp [] ;;
  let start := local_time year_start in
  iter <- icalrecur_iterator_new fuel rule start ;;
  match iter with
  | None => undefined
  | Some i => fun st =>
      match icalrecur_iterator_next fuel i st with
      | None => None
      | Some (iter_start, _, st) =>
          (if negb (day iter_start =? day comp_start)
           then icalcomponent_set_dtstart (set_date comp_start (year comp_start) (month comp_start) (day iter_start)) addr comp
           else ret comp) st
      end
  end.

(** ** Properties and parts *)

Definition new_utcoffset_property (addr : positive) (kind : icalproperty_kind) (v : Z) : err icalproperty :=
  new_property addr kind (new_with ICAL_UTCOFFSET_VALUE (V_int v)).
Definition icalproperty_new_rrule (addr : positive) (r : icalrecurrencetype) : err icalproperty :=
  v <- icalvalue_new_recur r ;; new_property addr ICAL_RRULE_PROPERTY v.
Definition icalproperty_set_rrule (r : icalrecurrencetype) (p : icalproperty) : err icalproperty :=
  v <- icalvalue_new_recur r ;; icalproperty_set_value (Some v) p.

(** The property that a pointer still points to, in the parts of the zone. *)
Fixpoint update_pointed (a : positive) (change : icalproperty -> err icalproperty) (ps : list icalproperty)
  : err (option (list icalproperty)) :=
  match ps with
  | [] => ret None
  | p :: ps =>
      if is_property a p then p <- change p ;; ret (Some (p :: ps))
      else r <- update_pointed a change ps ;; ret (option_map (cons p) r)
  end.

Fixpoint update_in_parts (a : positive) (change : icalproperty -> err icalproperty) (cs : list icalcomponent)
  : err (list icalcomponent) :=
  match cs with
  | [] => undefined
  | c :: cs =>
      r <- update_pointed a change (co_properties c) ;;
      match r with
      | Some ps => ret (with_properties ps (property_iterator c) c :: cs)
      | None => cs <- update_in_parts a change cs ;; ret (c :: cs)
      end
  end.

Definition set_rrule_of (a : option positive) (r : icalrecurrencetype) (tz : icalcomponent) : err icalcomponent :=
  match a with
  | None => undefined
  | Some a =>
      cs <- update_in_parts a (icalproperty_set_rrule r) (co_components tz) ;;
      ret (with_components cs (component_iterator tz) tz)
  end.

(** A STANDARD or DAYLIGHT part with the properties that each has, at [addr] and
    behind it. *)
Definition new_part (addr : positive) (kind : icalcomponent_kind) (name : cstring) (start : icaltimetype) (from to : Z)
  : err icalcomponent :=
  match icalcomponent_new addr kind with
  | None => undefined
  | Some comp =>
      p <- new_property (addr + 1) ICAL_TZNAME_PROPERTY (new_with ICAL_TEXT_VALUE (V_string name)) ;;
      let comp := icalcomponent_add_property p comp in
      p <- new_time_property (addr + 2) ICAL_DTSTART_PROPERTY start ;;
      let comp := icalcomponent_add_property p comp in
      p <- new_utcoffset_property (addr + 3) ICAL_TZOFFSETFROM_PROPERTY from ;;
      let comp := icalcomponent_add_property p comp in
      p <- new_utcoffset_property (addr + 4) ICAL_TZOFFSETTO_PROPERTY to ;;
      ret (icalcomponent_add_property p comp)
  end.

Definition add_part (comp tz : icalcomponent) : err icalcomponent :=
  r <- icalcomponent_add_component tz comp ;; ret (fst r).

(** How many addresses a part takes. *)
Definition next_part (addr : positive) : positive := (addr + 7)%positive.

(** ** The walk along the transitions *)

(** The variables that the code has once for STANDARD and once for DAYLIGHT: whether
    there is a current part, its RRULE, the rule, the last time and the one before,
    and the offset before the last.  [None] is what has not been assigned yet. *)
Record track := Track {
  cur_comp : bool;
  cur_rrule_property : option positive;
  recur : option icalrecurrencetype;
  prev_time : icaltimetype;
  prev_prev_time : option icaltimetype;
  prev_gmtoff : Z
}.
Definition no_track : track := Track false None None icaltime_null_time None 0.

Record walk := Walk { tz_comp : icalcomponent; next_addr : positive; daylight : track; standard : track }.

Definition assigned {A} (o : option A) : err A := match o with Some a => ret a | None => undefined end.

(** UNTIL, from a time and the offset that was in force before it. *)
Definition until_time (t : icaltimetype) (off : Z) : icaltimetype :=
  set_zone (icaltime_adjust t 0 0 0 (to_int32 (- off))) icaltimezone_get_utc_timezone.

(** The rule of the current part ends with its last transition. *)
Definition end_rule (off : Z) (tr : track) (tz : icalcomponent) : err (track * icalcomponent) :=
  let t := until_time (prev_time tr) off in
  r <- assigned (recur tr) ;;
  let r := set_until t r in
  tz <- set_rrule_of (cur_rrule_property tr) r tz ;;
  ret (Track (cur_comp tr) (cur_rrule_property tr) (Some r) t (prev_prev_time tr) (prev_gmtoff tr), tz).

Definition rule_month (r : icalrecurrencetype) : Z := hd 0 (by_month r).
Definition rule_day (r : icalrecurrencetype) : Z := hd 0 (by_day r).

Definition same_day (tr : track) (t : icaltimetype) (byday : Z) : err bool :=
  r <- assigned (recur tr) ;;
  ret ((rule_month r =? month t) && (rule_day r =? byday)).

(** The times move on. *)
Definition move_on (t : icaltimetype) (off : Z) (tr : track) : track :=
  Track true (cur_rrule_property tr) (recur tr) t
    (Some (if icaltime_is_null_time (prev_time tr) then t else prev_time tr)) off.

(** A transition into daylight saving time: whether a new part begins. *)
Definition daylight_transition (t : icaltimetype) (byday off : Z) (w : walk) : err (bool * walk) :=
  let moved tr := Walk (tz_comp w) (next_addr w) (move_on t off tr) (standard w) in
  if cur_comp (daylight w) then
    same <- same_day (daylight w) t byday ;;
    if negb same || negb (off =? prev_gmtoff (daylight w)) then
      r <- end_rule off (daylight w) (tz_comp w) ;;
      ret (true, Walk (snd r) (next_addr w) (move_on t off (fst r)) (standard w))
    else ret (false, moved (daylight w))
  else ret (true, moved (daylight w)).

(** A transition into standard time; it may end daylight saving time for good. *)
Definition standard_transition (t : icaltimetype) (byday off : Z) (w : walk) : err (bool * walk) :=
  let moved tr := Walk (tz_comp w) (next_addr w) (daylight w) (move_on t off tr) in
  if cur_comp (standard w) then
    same <- same_day (standard w) t byday ;;
    if negb same || negb (off =? prev_gmtoff (standard w)) then
      r <- end_rule off (standard w) (tz_comp w) ;;
      let '(standard, tz) := r in
      ends <- (if cur_comp (daylight w) then same_day (daylight w) t byday else ret false) ;;
      d <- (if (ends : bool) then end_rule off (daylight w) tz else ret (daylight w, tz)) ;;
      ret (true, Walk (snd d) (next_addr w) (fst d) (move_on t off standard))
    else ret (false, moved (standard w))
  else ret (true, moved (standard w)).

(** FREQ=YEARLY on the day of the transition. *)
Definition yearly_rule (t : icaltimetype) (byday : Z) : icalrecurrencetype :=
  set_by BY_DAY [byday] (set_by BY_MONTH [month t] (set_freq ICAL_YEARLY_RECURRENCE icalrecurrencetype_clear)).

Definition with_rule (r : icalrecurrencetype) (a : positive) (tr : track) : track :=
  Track (cur_comp tr) (Some a) (Some r) (prev_time tr) (prev_prev_time tr) (prev_gmtoff tr).

Definition begin_part (fuel : nat) (t : icaltimetype) (byday : Z) (from to : ttinfo) (w : walk) : err walk :=
  let dst := negb (isdst to =? 0) in
  let a := next_addr w in
  let kind := if dst then ICAL_XDAYLIGHT_COMPONENT else ICAL_XSTANDARD_COMPONENT in
  comp <- new_part a kind (zname to) t (gmtoff from) (gmtoff to) ;;
  let recur := yearly_rule t byday in
  p <- icalproperty_new_rrule (a + 5) recur ;;
  let comp := icalcomponent_add_property p comp in
  comp <- adjust_dtstart_day_to_rrule fuel (a + 6) comp recur ;;
  tz <- add_part comp (tz_comp w) ;;
  ret (if dst then Walk tz (next_part a) (with_rule recur (a + 5) (daylight w)) (standard w)
       else Walk tz (next_part a) (daylight w) (with_rule recur (a + 5) (standard w))).

Definition by_day_of (t : icaltimetype) : err Z :=
  pos <- calculate_pos t ;;
  let sign := if pos <? 0 then -1 else 1 in
  ret (sign * (Z.abs pos * 8 + icaltime_day_of_week t)).

(** One transition at [when], from one type to another. *)
Definition transition_step (fuel : nat) (when_ : Z) (from to : ttinfo) (w : walk) : err walk :=
  let icaltime := local_time (when_ + gmtoff from) in
  by_day <- by_day_of icaltime ;;
  r <- (if negb (isdst to =? 0) then daylight_transition icaltime by_day (gmtoff from) w
        else standard_transition icaltime by_day (gmtoff from) w) ;;
  let '(is_new_comp, w) := r in
  if (is_new_comp : bool) then begin_part fuel icaltime by_day from to w else ret w.

(** The loop; [idx] is the type of the transition before.  The last two types are
    returned too. *)
Fixpoint transition_loop (fuel : nat) (tzf : tzfile) (l : list (Z * Z)) (prev_idx idx : Z) (w : walk) : err (Z * Z * walk) :=
  match l with
  | [] => ret (prev_idx, idx, w)
  | (when_, next) :: l =>
      from <- at_index (types tzf) idx ;;
      to <- at_index (types tzf) next ;;
      w <- transition_step fuel when_ from to w ;;
      transition_loop fuel tzf l idx next w
  end.

(** ** The end *)

(** A part that has no transition after now ends with the one before its last, and
    another without a rule follows. *)
Definition final_part (kind : icalcomponent_kind) (from to : ttinfo) (tr : track) (a : positive) (tz : icalcomponent)
  : err (positive * icalcomponent) :=
  if cur_comp tr && (icaltime_as_timet (prev_time tr) <? time_now) then
    t <- assigned (prev_prev_time tr) ;;
    r <- assigned (recur tr) ;;
    tz <- set_rrule_of (cur_rrule_property tr) (set_until (until_time t (prev_gmtoff tr)) r) tz ;;
    comp <- new_part a kind (zname to) (prev_time tr) (gmtoff from) (gmtoff to) ;;
    tz <- add_part comp tz ;;
    ret (next_part a, tz)
  else ret (a, tz).

(** A zone with a single transition. *)
Definition single_part (when_ : Z) (from to : ttinfo) (a : positive) (tz : icalcomponent) : err icalcomponent :=
  let kind := if negb (isdst to =? 0) then ICAL_XDAYLIGHT_COMPONENT else ICAL_XSTANDARD_COMPONENT in
  let icaltime := local_time (when_ + gmtoff from) in
  comp <- new_part a kind (zname to) icaltime (gmtoff from) (gmtoff to) ;;
  add_part comp tz.

(** The VTIMEZONE with its TZID and its location. *)
Definition empty_zone (a : positive) (prefix location : cstring) : err icalcomponent :=
  match icalcomponent_new a ICAL_VTIMEZONE_COMPONENT with
  | None => undefined
  | Some tz =>
      p <- new_property (a + 1) ICAL_TZID_PROPERTY (new_with ICAL_TEXT_VALUE (V_string (prefix ++ location))) ;;
      let tz := icalcomponent_add_property p tz in
      p <- new_property (a + 2) ICAL_X_PROPERTY (icalvalue_set_x location (new_with ICAL_X_VALUE V_zero)) ;;
      ret (icalcomponent_add_property (icalproperty_set_x_name ($"X-LIC-LOCATION") p) tz)
  end.

Definition build_zone (fuel : nat) (a : positive) (prefix location : cstring) (tzf : tzfile) : err icalcomponent :=
  tz <- empty_zone a prefix location ;;
  match combine (transitions tzf) (trans_idx tzf) with
  | [] => undefined
  | (first, idx) :: l =>
      r <- transition_loop fuel tzf l 0 idx (Walk tz (next_part a) no_track no_track) ;;
      let '(prev_idx, idx, w) := r in
      from <- at_index (types tzf) prev_idx ;;
      to <- at_index (types tzf) idx ;;
      r <- final_part ICAL_XDAYLIGHT_COMPONENT from to (daylight w) (next_addr w) (tz_comp w) ;;
      r <- final_part ICAL_XSTANDARD_COMPONENT from to (standard w) (fst r) (snd r) ;;
      if is_empty l then single_part first from to (fst r) (snd r) else ret (snd r)
  end.

(** ** The directory of the files *)

Definition MAXPATHLEN : nat := 4096.
Definition ZONES_TAB_SYSTEM_FILENAME : cstring := $"zone.tab".
Definition s_zoneinfo_search_paths : list cstring :=
  [$"/usr/share/zoneinfo"; $"/usr/lib/zoneinfo"; $"/etc/zoneinfo"; $"/usr/share/lib/zoneinfo"].

(** [strncpy] into a zeroed buffer of [size], or over a text in it: the NULs of the
    padding end the new text. *)
Definition copy_path (size : nat) (s : cstring) : cstring := firstn (pred size) s.

Definition has_zone_tab (dir : cstring) : bool :=
  access (snprintf MAXPATHLEN (dir ++ $"/" ++ ZONES_TAB_SYSTEM_FILENAME)).

(** The new path; it stays as it is when no directory has the file. *)
Definition set_zoneinfopath (old : cstring) : cstring :=
  let search := match find has_zone_tab s_zoneinfo_search_paths with
                | Some dir => copy_path MAXPATHLEN dir
                | None => old
                end in
  match getenv_TZDIR with
  | Some dir => if has_zone_tab dir then copy_path MAXPATHLEN dir else search
  | None => search
  end.

(** The static variables of icaltz-util.c and icaltimezone.c. *)
Record tzsettings := TzSettings { s_zoneinfopath : cstring; s_ical_tzid_prefix : cstring; use_builtin_tzdata : bool }.

Definition icaltzutil_set_zone_directory (zonepath : option cstring) (s : tzsettings) : tzsettings :=
  TzSettings (match zonepath with None | Some [] => [] | Some p => copy_path MAXPATHLEN p end)
    (s_ical_tzid_prefix s) (use_builtin_tzdata s).

Definition icaltzutil_get_zone_directory (s : tzsettings) : cstring * tzsettings :=
  let path := if is_empty (s_zoneinfopath s) then set_zoneinfopath (s_zoneinfopath s) else s_zoneinfopath s in
  (path, TzSettings path (s_ical_tzid_prefix s) (use_builtin_tzdata s)).

Definition BUILTIN_TZID_PREFIX_LEN : nat := 256.
Definition BUILTIN_TZID_PREFIX : cstring := $"/freeassociation.sourceforge.net/".

Definition icaltimezone_tzid_prefix (s : tzsettings) : cstring * tzsettings :=
  let prefix := if is_empty (s_ical_tzid_prefix s) then copy_path BUILTIN_TZID_PREFIX_LEN BUILTIN_TZID_PREFIX
                else s_ical_tzid_prefix s in
  (prefix, TzSettings (s_zoneinfopath s) prefix (use_builtin_tzdata s)).

Definition icaltimezone_set_tzid_prefix (new_prefix : option cstring) (s : tzsettings) : tzsettings :=
  match new_prefix with
  | Some p => TzSettings (s_zoneinfopath s) (copy_path BUILTIN_TZID_PREFIX_LEN p) (use_builtin_tzdata s)
  | None => s
  end.
Definition icaltimezone_set_builtin_tzdata (set : bool) (s : tzsettings) : tzsettings :=
  TzSettings (s_zoneinfopath s) (s_ical_tzid_prefix s) set.
Definition icaltimezone_get_builtin_tzdata (s : tzsettings) : bool := use_builtin_tzdata s.

(** ** The zone of a location *)

Definition fail {A} (e : icalerrorenum) (s : tzsettings) : err (option A * tzsettings) := icalerror_set_errno e ;;; ret (None, s).

(** New objects get the addresses from [a] on. *)
Definition icaltzutil_fetch_timezone (fuel : nat) (a : positive) (location : cstring) (s : tzsettings)
  : err (option icalcomponent * tzsettings) :=
  if icaltimezone_get_builtin_tzdata s then ret (None, s)
  else
    let '(zonedir, s) := icaltzutil_get_zone_directory s in
    match fopen (zonedir ++ $"/" ++ location) with
    | None => fail ICAL_FILE_ERROR s
    | Some file =>
        if negb (f_seekable file) then fail ICAL_FILE_ERROR s
        else
          match read_tzfile (Stream (skipn 20 (f_bytes file)) (f_failing file) false) with
          | Undefined => undefined
          | Fails e => fail e s
          | Read tzf =>
              let '(prefix, s) := icaltimezone_tzid_prefix s in
              tz <- build_zone fuel a prefix location tzf ;;
              ret (Some tz, s)
          end
    end.
End ZoneFiles.
