(* ===== verification/IcalTzFileText.v ===== *)
(** * Zone files: what is written is read

    The layout of a zone file as a writer: a header of twenty bytes, the counts, the
    times of the transitions and the type of each, the types, the table of names, the
    leap seconds and the flags; what follows belongs to the second format of the file.
    [read_tzfile] reads back all that was written. *)
From Stdlib Require Import String Ascii ZArith Lia Bool List.
From S2P Require Import Prelude CString IcalError IcalValueText IcalTzUtil.
Import ListNotations.
#[local] Open Scope Z_scope.
#[local] Open Scope cstring_scope.
#[local] Open Scope read_scope.

(** ** The writer *)

(** A big-endian integer of 32 bits. *)
Definition be32 (z : Z) : list ascii :=
  let u := z mod 2 ^ 32 in [chr (u / 16777216); chr (u / 65536 mod 256); chr (u / 256 mod 256); chr (u mod 256)].

Definition type_bytes (t : ttinfo) : list ascii := be32 (gmtoff t) ++ [chr (isdst t); chr (abbr t)].
Definition flag_byte (b : bool) : ascii := if b then chr 1 else chr 0.

(** The parts of a file beside the zone itself. *)
Record layout := Layout {
  header : list ascii;
  names : list ascii;
  leaps : list (Z * Z);
  std_flags : nat;
  gmt_flags : nat;
  second_format : list ascii
}.

Definition size {A} (l : list A) : Z := Z.of_nat (length l).

Definition tzfile_bytes (d : tzfile) (o : layout) : list ascii :=
  header o ++
  be32 (Z.of_nat (gmt_flags o)) ++ be32 (Z.of_nat (std_flags o)) ++ be32 (size (leaps o)) ++
  be32 (size (transitions d)) ++ be32 (size (types d)) ++ be32 (size (names o)) ++
  flat_map be32 (transitions d) ++ map chr (trans_idx d) ++ flat_map type_bytes (types d) ++ names o ++
  flat_map (fun l => be32 (fst l) ++ be32 (snd l)) (leaps o) ++
  map (fun t => flag_byte (isstd t)) (firstn (std_flags o) (types d)) ++
  map (fun t => flag_byte (isgmt t)) (firstn (gmt_flags o) (types d)) ++
  second_format o.

(** ** What can be written *)

Definition is_byte (z : Z) : Prop := 0 <= z < 256.
Definition is_count {A} (l : list A) : Prop := size l < 2 ^ 31.

(** The name of a type is in the table, with its NUL. *)
Definition named (table : list ascii) (t : ttinfo) : Prop :=
  Forall (fun c => c <> NUL) (zname t) /\
  exists rest, skipn (Z.to_nat (abbr t)) table = zname t ++ NUL :: rest.

Record type_ok (o : layout) (t : ttinfo) : Prop := TypeOk {
  type_offset : is_int32 (gmtoff t);
  type_dst : is_byte (isdst t);
  type_abbr : is_byte (abbr t);
  type_named : named (names o) t
}.

Record writable (d : tzfile) (o : layout) : Prop := Writable {
  w_header : length (header o) = 20%nat;
  w_some : transitions d <> [];
  w_same : length (trans_idx d) = length (transitions d);
  w_times : Forall is_int32 (transitions d);
  w_idx : Forall is_byte (trans_idx d);
  w_types : Forall (type_ok o) (types d);
  w_std : (std_flags o <= length (types d))%nat;
  w_gmt : (gmt_flags o <= length (types d))%nat;
  w_no_std : Forall (fun t => isstd t = false) (skipn (std_flags o) (types d));
  w_no_gmt : Forall (fun t => isgmt t = false) (skipn (gmt_flags o) (types d));
  w_counts : is_count (transitions d) /\ is_count (types d) /\ is_count (names o) /\ is_count (leaps o)
}.

(** ** Reading *)

Section Reading.
Context (failing : bool).

(** An open file before bytes that are there. *)
Definition before (b : list ascii) : FILE := Stream b failing false.

Lemma take_app n a b : length a = n -> take_bytes n (before (a ++ b)) = (a, before b).
Proof.
  intros <-. unfold take_bytes, before. cbn [fs_rest fs_failing fs_error].
  rewrite firstn_app, Nat.sub_diag, firstn_all, firstn_O, app_nil_r.
  rewrite skipn_app, Nat.sub_diag, skipn_all, skipn_O. cbn [app].
  rewrite length_app, (proj2 (Nat.ltb_ge _ _)) by lia. reflexivity.
Qed.

Lemma fgetc_cons c b : fgetc (before (c :: b)) = (code c, before b).
Proof. unfold fgetc. change (c :: b) with ([c] ++ b). rewrite take_app by reflexivity. reflexivity. Qed.

Lemma EFREAD1_app n a b : length a = n -> EFREAD1 n (before (a ++ b)) = Read (Some a, before b).
Proof.
  intros Hn. unfold EFREAD1. rewrite take_app by assumption. rewrite Hn, Nat.eqb_refl. cbn [fs_error before].
  rewrite andb_false_r. reflexivity.
Qed.

Lemma decode_be32 z : is_int32 z -> decode (be32 z) = Some z.
Proof.
  intros Hz. unfold be32, decode. set (u := z mod 2 ^ 32). assert (0 <= u < 2 ^ 32) as Hu by (unfold u; zdiv).
  change (2 ^ 32) with 4294967296 in Hu. rewrite !code_chr by zdiv. f_equal.
  replace (((u / 16777216 * 256 + u / 65536 mod 256) * 256 + u / 256 mod 256) * 256 + u mod 256) with u by zdiv.
  unfold u, to_int32, to_signed. unfold is_int32, INT_MIN, INT_MAX in Hz. zdiv.
Qed.

Lemma length_be32 z : length (be32 z) = 4%nat.
Proof. reflexivity. Qed.

Lemma length_flat_map_const {A} (f : A -> list ascii) k l : (forall x, length (f x) = k) -> length (flat_map f l) = (length l * k)%nat.
Proof. intros Hf. induction l as [|x l IH]; [reflexivity|]. cbn [flat_map length]. rewrite length_app, Hf, IH. lia. Qed.

Lemma words_be32 l : Forall is_int32 l -> words (length l) (flat_map be32 l) = map Some l.
Proof.
  induction 1 as [|z l Hz Hl IH]; [reflexivity|]. cbn [length words flat_map map].
  assert (firstn 4 (be32 z ++ flat_map be32 l) = be32 z) as E1 by reflexivity.
  assert (skipn 4 (be32 z ++ flat_map be32 l) = flat_map be32 l) as E2 by reflexivity.
  destruct (be32 z ++ flat_map be32 l) eqn:E; [discriminate|]. rewrite E1, E2, decode_be32, IH by assumption. reflexivity.
Qed.

Lemma EFREAD4_app l b : Forall is_int32 l -> EFREAD4 (length l) (before (flat_map be32 l ++ b)) = Read (map Some l, before b).
Proof.
  intros Hl. unfold EFREAD4. rewrite take_app by (rewrite (length_flat_map_const be32 4) by reflexivity; lia).
  rewrite words_be32 by assumption. cbn [fs_error before]. rewrite andb_false_r. reflexivity.
Qed.

Lemma read_transitions_app ts cs b :
  length cs = length ts -> Forall is_byte cs -> read_transitions (map Some ts) (before (map chr cs ++ b)) = Read (ts, cs, before b).
Proof.
  intros Hlen Hcs. revert ts Hlen. induction Hcs as [|c cs Hc Hcs IH]; intros [|t ts] Hlen; try discriminate; [reflexivity|].
  cbn [map read_transitions app]. rewrite fgetc_cons, code_chr by exact Hc. cbn [determined obind].
  rewrite IH by (now injection Hlen). reflexivity.
Qed.

(** A type as it is read, before its flags and its name. *)
Definition bare (t : ttinfo) : ttinfo := TtInfo (gmtoff t) (isdst t) (abbr t) false false [].

Lemma read_types_app o ts b :
  Forall (type_ok o) ts -> read_types (length ts) (before (flat_map type_bytes ts ++ b)) = Read (map bare ts, before b).
Proof.
  induction 1 as [|t ts [Ho Hd Ha _] Hts IH]; [reflexivity|]. cbn [length read_types flat_map map].
  replace ((type_bytes t ++ flat_map type_bytes ts) ++ b)
    with (be32 (gmtoff t) ++ chr (isdst t) :: chr (abbr t) :: (flat_map type_bytes ts ++ b))
    by (unfold type_bytes; rewrite <- !app_assoc; reflexivity).
  rewrite EFREAD1_app by reflexivity. cbn [obind]. rewrite !fgetc_cons, !code_chr by assumption.
  unfold is_byte in *. rewrite (proj2 (Z.ltb_ge _ _)) by lia. cbn [determined obind]. rewrite decode_be32 by assumption.
  cbn [determined obind]. rewrite IH. cbn [obind]. rewrite Z.mod_small by lia. reflexivity.
Qed.

Lemma read_leaps_app l b :
  read_leaps (length l) (before (flat_map (fun l => be32 (fst l) ++ be32 (snd l)) l ++ b)) = Read (before b).
Proof.
  induction l as [|x l IH]; [reflexivity|]. cbn [length read_leaps flat_map]. rewrite <- !app_assoc.
  rewrite EFREAD1_app by reflexivity. cbn [obind]. rewrite EFREAD1_app by reflexivity. cbn [obind]. exact IH.
Qed.

(** The flags that are not in the file are clear. *)
Lemma read_flags_app set (get : ttinfo -> bool) f n ts b :
  (n <= length ts)%nat -> Forall (fun t => get t = false) (skipn n ts) ->
  read_flags set n (map f ts) (before (map (fun t => flag_byte (get t)) (firstn n ts) ++ b)) =
  Read (map (fun t => set (get t) (f t)) ts, before b).
Proof.
  revert ts. induction n as [|n IH]; intros ts Hn Hg; cbn [read_flags firstn map app].
  - do 2 f_equal. rewrite map_map. apply map_ext_in. intros t Ht. rewrite skipn_O, Forall_forall in Hg.
    rewrite (Hg t Ht). reflexivity.
  - destruct ts as [|t ts]; cbn [length] in Hn; [lia|]. cbn [skipn] in Hg.
    cbn [map read_flags firstn app]. rewrite fgetc_cons. rewrite IH by (assumption || lia). cbn [obind].
    destruct (get t); reflexivity.
Qed.

Lemma read_all_flags_app set (get : ttinfo -> bool) f n ts b :
  (n <= length ts)%nat -> Forall (fun t => get t = false) (skipn n ts) ->
  read_all_flags set (Z.of_nat n) (map f ts) (before (map (fun t => flag_byte (get t)) (firstn n ts) ++ b)) =
  Read (map (fun t => set (get t) (f t)) ts, before b).
Proof.
  intros Hn Hg. unfold read_all_flags. rewrite length_map, (proj2 (Z.ltb_ge _ _)) by lia. rewrite Nat2Z.id.
  apply read_flags_app; assumption.
Qed.

Lemma text_from_app s rest : Forall (fun c => c <> NUL) s -> text_from (s ++ NUL :: rest) = Read s.
Proof.
  induction 1 as [|c s Hc Hs IH]; [reflexivity|]. cbn [app text_from].
  destruct (Ascii.eqb_spec c NUL); [congruence|]. rewrite IH. reflexivity.
Qed.

Lemma name_types_all o f ts :
  Forall (type_ok o) ts -> (forall t, abbr (f t) = abbr t /\ set_zname (zname t) (f t) = t) ->
  name_types (Some (names o)) (map f ts) = Read ts.
Proof.
  intros Hts Hf. induction Hts as [|t ts [_ _ _ [Hn [rest Hr]]] Hts IH]; [reflexivity|]. cbn [map name_types].
  destruct (Hf t) as [Ea Et]. unfold zname_from_stridx. cbn [determined obind]. rewrite Ea, Hr, text_from_app by assumption.
  cbn [obind]. rewrite IH. cbn [obind]. rewrite Et. reflexivity.
Qed.

Lemma count_small {A} (l : list A) : is_count l -> is_int32 (size l) /\ size_of_int (size l) = size l.
Proof.
  unfold is_count, size, is_int32, INT_MIN, INT_MAX, size_of_int. intros H. split; [lia|]. apply Z.mod_small. lia.
Qed.

Lemma read_counts_app gmt std leap times types chars b :
  Forall (fun z => 0 <= z < 2 ^ 31) [gmt; std; leap; times; types; chars] ->
  read_counts (before (be32 gmt ++ be32 std ++ be32 leap ++ be32 times ++ be32 types ++ be32 chars ++ b)) =
  Read (TzInfo gmt std leap times types chars, before b).
Proof.
  intros H. unfold read_counts. rewrite Forall_forall in H.
  assert (forall z, In z [gmt; std; leap; times; types; chars] -> is_int32 z /\ size_of_int z = z) as Hz.
  { intros z Hin. apply H in Hin. unfold is_int32, INT_MIN, INT_MAX, size_of_int. split; [lia | apply Z.mod_small; lia]. }
  replace (be32 gmt ++ be32 std ++ be32 leap ++ be32 times ++ be32 types ++ be32 chars ++ b)
    with ((be32 gmt ++ be32 std ++ be32 leap ++ be32 times ++ be32 types ++ be32 chars) ++ b) by (rewrite <- !app_assoc; reflexivity).
  rewrite EFREAD1_app by reflexivity. cbn [obind determined].
  change (firstn 4 (skipn (4 * 0) _)) with (be32 gmt). change (firstn 4 (skipn (4 * 1) _)) with (be32 std).
  change (firstn 4 (skipn (4 * 2) _)) with (be32 leap). change (firstn 4 (skipn (4 * 3) _)) with (be32 times).
  change (firstn 4 (skipn (4 * 4) _)) with (be32 types). change (firstn 4 (skipn (4 * 5) _)) with (be32 chars).
  rewrite !decode_be32 by (apply Hz; cbn; tauto). cbn [obind determined].
  rewrite !(fun z Hin => proj2 (Hz z Hin)) by (cbn; tauto). reflexivity.
Qed.

Lemma alloc_small n k : 0 <= n < 2 ^ 31 -> 0 <= k <= 32 -> alloc n k = Read tt.
Proof. intros Hn Hk. unfold alloc. rewrite (proj2 (Z.ltb_lt _ _)) by nia. reflexivity. Qed.

Lemma read_written d o : writable d o -> read_tzfile (before (skipn 20 (tzfile_bytes d o))) = Read d.
Proof.
  intros [Hh Hs Hsame Ht Hi Hty Hstd Hgmt Hnstd Hngmt (C1 & C2 & C3 & C4)].
  unfold tzfile_bytes. rewrite skipn_app, Hh, Nat.sub_diag, skipn_all2, skipn_O by lia. cbn [app].
  assert (forall A (l : list A), 0 <= size l) as Hpos by (intros; unfold size; lia).
  pose proof C2 as C2'. unfold is_count, size in C1, C2', C3, C4.
  assert (0 <= Z.of_nat (std_flags o) < 2 ^ 31 /\ 0 <= Z.of_nat (gmt_flags o) < 2 ^ 31) as [B1 B2] by lia.
  unfold read_tzfile. rewrite read_counts_app by (repeat constructor; unfold size; lia). cbn [obind timecnt typecnt charcnt leapcnt ttisstdcnt ttisgmtcnt].
  assert (size (transitions d) <> 0) as Hne by (unfold size; destruct (transitions d); [congruence | cbn [length]; lia]).
  rewrite (proj2 (Z.eqb_neq _ _) Hne). rewrite !alloc_small by (unfold size; lia). cbn [obind].
  unfold size. rewrite !Nat2Z.id. rewrite EFREAD4_app by assumption. cbn [obind]. rewrite read_transitions_app by assumption. cbn [obind].
  rewrite (read_types_app o) by assumption. cbn [obind]. rewrite EFREAD1_app by reflexivity. cbn [obind].
  rewrite read_leaps_app. cbn [obind].
  rewrite (read_all_flags_app set_isstd isstd bare) by assumption. cbn [obind].
  rewrite (read_all_flags_app set_isgmt isgmt (fun t => set_isstd (isstd t) (bare t))) by assumption. cbn [obind].
  rewrite (name_types_all o) by (assumption || (intros []; split; reflexivity)). cbn [obind]. destruct d; reflexivity.
Qed.
End Reading.

(** C20: A zone file that was written by the layout of the first format is read back:
    times, types, names and flags are those that were written, whatever the header
    holds, whatever leap seconds there are and whatever follows in the file. *)
Theorem zone_file_is_read d o failing :
  writable d o -> read_tzfile (Stream (skipn 20 (tzfile_bytes d o)) failing false) = Read d.
Proof. apply read_written. Qed.

(** A zone with daylight saving time. *)
Definition sample_zone : tzfile :=
  TzFile [1130652000; 1143961200; 1162101600; 1173596400] [0; 1; 0; 1]
    [TtInfo (-18000) 0 4 true false ($"EST"); TtInfo (-14400) 1 0 false false ($"EDT")].
Definition sample_layout : layout :=
  Layout ($"TZif2" ++ repeat NUL 15) ($"EDT" ++ [NUL] ++ $"EST" ++ [NUL]) [(78796800, 1)] 1 0 ($"TZif2").

Lemma zone_file_is_read_witness :
  length (tzfile_bytes sample_zone sample_layout) = 98%nat /\
  read_tzfile (Stream (skipn 20 (tzfile_bytes sample_zone sample_layout)) false false) = Read sample_zone.
Proof.
  split; [vm_compute; reflexivity|]. apply zone_file_is_read.
  assert (forall c, In c ($"EDT" ++ $"EST") -> c <> NUL) as Hn.
  { cbn. intros c H E. subst c. repeat destruct H as [H|H]; try discriminate. easy. }
  constructor; try reflexivity; try (cbn; lia); try discriminate.
  - repeat constructor; unfold is_int32, INT_MIN, INT_MAX; lia.
  - repeat constructor; unfold is_byte; lia.
  - repeat constructor; cbn; unfold is_int32, INT_MIN, INT_MAX; try lia; try (apply Hn; cbn; tauto); eexists; reflexivity.
  - repeat constructor.
  - repeat constructor.
  - repeat split.
Defined.
