(* ===== verification/IcalTzUtilCorrect.v ===== *)
(** * Zones made of zone files: every transition has its part

    [build_zone] creates parts, keeps pointers to their rules and changes these after
    the parts have been added to the zone.  It is shown to refine a description of the
    parts as plain records: it always returns a VTIMEZONE, each of its parts is made for
    one transition of the file, and each transition of the file has a part with its
    offset and with a yearly rule that recurs on its day. *)
From Stdlib Require Import String Ascii ZArith Lia Bool List.
From S2P Require Import Prelude CString IcalError IcalTime IcalTimeCalendar IcalRecurType IcalRecurMask IcalRecurIter IcalRecurSound IcalRecurSimple IcalRecurExpand IcalRecurYearly IcalValueText IcalValue IcalLine IcalParameter IcalProperty IcalComponent IcalDesignData IcalValueSafe IcalParserExamples IcalTimezone IcalComponentZones IcalComponentAccess IcalSpanlist IcalTzUtil IcalTzFileText.
Import ListNotations.
#[local] Open Scope Z_scope.
#[local] Open Scope cstring_scope.
#[local] Open Scope err_scope.

(** A UTC time made floating stays as it is; icaltimezone.c does so. *)
Class FloatingLaw (TZ : TimezoneConv) : Prop := {
  convert_to_floating t : normalized t -> is_date t = 0 -> is_daylight t = 0 ->
    icaltimezone_convert_time t ZONE_UTC ZONE_NULL = t
}.

#[export] Instance utc_only_floating : FloatingLaw utc_only.
Proof. split; reflexivity. Qed.

(** ** Local times *)

Section Zone.
Context `{PROPS : PropertyTables} `{PARAMS : ParameterTables} `{FLOAT : FloatOps} `{TZ : TimezoneConv} `{BUILTIN : BuiltinZones} `{NAMES : ZoneNames}.
Context `{HOST : HostSystem} `{LAW : !FloatingLaw TZ}.

(** A floating date-time of the Gregorian calendar. *)
Record floating (t : icaltimetype) : Prop := Floating {
  fl_normal : normalized t;
  fl_date : is_date t = 0;
  fl_daylight : is_daylight t = 0;
  fl_zone : zone t = ZONE_NULL;
  fl_year : 1753 <= year t <= MAX_TIME_T_YEAR
}.

Lemma local_time_floating n :
  -79257 * 86400 <= n < 2 ^ 34 -> floating (local_time n) /\ instant (local_time n) = n + epoch.
Proof.
  intros Hn. assert (n < 2 ^ 55) as Hn2 by lia. destruct (gmtime_spec n (conj (proj1 Hn) Hn2)) as (g & Eg & Hy & Hnorm & Ei).
  unfold local_time, icaltime_from_timet_with_zone. rewrite Eg.
  set (t := IcalTime _ _ _ _ _ _ 0 0 ZONE_UTC) in *.
  change (if zone_eqb ZONE_NULL ZONE_NULL then ZONE_NULL else ZONE_UTC) with ZONE_NULL.
  set (t0 := IcalTime _ _ _ _ _ _ 0 0 ZONE_NULL). assert (normalized t0) as Hn0 by exact Hnorm.
  rewrite convert_to_floating by (assumption || reflexivity). change (truthy 0) with false. cbv iota.
  change (set_is_date t0 0) with t0. split; [|exact Ei]. constructor; try reflexivity; try assumption.
  split; [exact Hy|]. apply year_below_limit; [assumption | apply Hn0; reflexivity|].
  change (instant t0) with (instant t). rewrite Ei. apply Z.lt_trans with (2 ^ 34 + epoch); [lia|]. vm_compute. reflexivity.
Qed.

(** ** The day of a transition *)

Definition day_code (t : icaltimetype) : Z :=
  let pos := let q := (day t - 1) / 7 in
             if (q =? 3) && (month_days (year t) (month t) <? day t + 7) then -1
             else if q =? 3 then -2 else if q =? 4 then -1 else q + 1 in
  Z.sgn pos * (Z.abs pos * 8 + icaltime_day_of_week t).

Lemma weekday_same t : icaltime_day_of_week t = weekday_of (year t) (month t) (day t).
Proof. reflexivity. Qed.

Lemma encoded_day p w : 1 <= Z.abs p <= 4 -> 1 <= w <= 7 ->
  let v := Z.sgn p * (Z.abs p * 8 + w) in
  icalrecurrencetype_day_day_of_week v = w /\ icalrecurrencetype_day_position v = p /\ to_short v = v.
Proof.
  intros Hp Hw v. unfold icalrecurrencetype_day_position, icalrecurrencetype_day_day_of_week.
  assert (Z.abs v = Z.abs p * 8 + w) as Ev by (unfold v; destruct (Z.sgn_spec p) as [[? ->]|[[? ->]|[? ->]]]; lia).
  assert ((v <? 0) = (p <? 0)) as Es.
  { unfold v. destruct (Z.sgn_spec p) as [[? ->]|[[? ->]|[? ->]]]; destruct (Z.ltb_spec p 0); lia. }
  rewrite Ev, Es, rem_mod_nonneg by lia. replace ((Z.abs p * 8 + w) mod 8) with w by zdiv.
  replace (Z.abs p * 8 + w - w) with (Z.abs p * 8) by lia. rewrite Z.quot_mul by lia.
  split; [reflexivity|]. split; [destruct (Z.ltb_spec p 0); lia|].
  apply to_short_small. unfold v. destruct (Z.sgn_spec p) as [[? ->]|[[? ->]|[? ->]]]; lia.
Qed.

(** The rule of a transition recurs on its day. *)
Lemma by_day_spec t :
  floating t ->
  by_day_of t = ret (day_code t) /\ every_month (day_code t) /\ to_short (day_code t) = day_code t /\
  date_in (month t) (day_code t) (year t) = day t.
Proof.
  intros [[Hv _] _ _ _ Hy]. pose proof Hv as [Hm Hd]. fold (month_days (year t) (month t)) in Hd.
  pose proof (days_in_month_range (month t) (year t)) as Hn. fold (month_days (year t) (month t)) in Hn.
  pose proof (weekday_of_range _ _ _ (proj1 Hy) Hv) as Hw.
  set (pos := let q := (day t - 1) / 7 in if (q =? 3) && (month_days (year t) (month t) <? day t + 7) then -1
             else if q =? 3 then -2 else if q =? 4 then -1 else q + 1).
  assert (1 <= Z.abs pos <= 4) as Hp by (unfold pos; cbv zeta; repeat case_if; bools; zdiv).
  assert (by_day_of t = ret (day_code t)) as E1.
  { unfold by_day_of, day_code, calculate_pos. fold pos. fold (month_days (year t) (month t)).
    rewrite Z.quot_div_nonneg by lia.
    assert (0 <= (day t - 1) / 7 <= 4) as Hq by zdiv. unfold pos. cbv zeta. set (q := (day t - 1) / 7) in *. clearbody q.
    destruct (Z.eqb_spec q 3) as [->|H3]; cbn [andb].
    - destruct (_ <? _); reflexivity.
    - destruct (Z.eqb_spec q 4) as [->|H4]; [reflexivity|].
      assert (q = 0 \/ q = 1 \/ q = 2) as [-> | [-> | ->]] by lia; reflexivity. }
  destruct (encoded_day pos (icaltime_day_of_week t) Hp Hw) as (Ew & Ep & Es).
  change (Z.sgn pos * (Z.abs pos * 8 + icaltime_day_of_week t)) with (day_code t) in *.
  split; [exact E1|]. split; [split; [rewrite Ew; exact Hw | rewrite Ep; exact Hp]|]. split; [exact Es|].
  unfold date_in, dow, IcalRecurYearly.nth. rewrite Ew, Ep. symmetry. apply Z.eqb_eq.
  rewrite <- weekday_date_unique by (assumption || lia). unfold selects.
  rewrite weekday_same, <- weekday_of_nth, Z.eqb_refl by (assumption || lia).
  unfold pos. cbv zeta. cbn [andb]. repeat case_if; bools; repeat rewrite ?orb_true_iff, ?Z.eqb_eq; zdiv.
Qed.

(** ** The parts as records *)

(** The kinds of properties that a zone has. *)
Definition zone_kinds : Prop :=
  Forall (fun k => icalproperty_kind_is_valid k = true)
    [ICAL_TZID_PROPERTY; ICAL_X_PROPERTY; ICAL_TZNAME_PROPERTY; ICAL_DTSTART_PROPERTY; ICAL_TZOFFSETFROM_PROPERTY;
     ICAL_TZOFFSETTO_PROPERTY; ICAL_RRULE_PROPERTY].
Context (KINDS : zone_kinds).

Definition valued (a : positive) (kind : icalproperty_kind) (v : icalvalue) (parent : option positive) : icalproperty :=
  Property a kind None [] 0 NoElem (Some (icalvalue_set_parent (Some kind) v)) parent.

(** What a part says. *)
Record zone_part := Part {
  p_addr : positive;
  p_daylight : bool;
  p_name : cstring;
  p_start : icaltimetype;
  p_from : Z;
  p_to : Z;
  p_rule : option icalrecurrencetype
}.

Definition time_value (t : icaltimetype) : icalvalue := new_with ICAL_DATETIME_VALUE (V_time t).
Definition rule_value (r : icalrecurrencetype) : icalvalue := new_with ICAL_RECUR_VALUE (V_recur r).
Definition offset_value (z : Z) : icalvalue := new_with ICAL_UTCOFFSET_VALUE (V_int z).

Definition part_properties (d : zone_part) : list icalproperty :=
  let a := p_addr d in
  let owner := Some a in
  [valued (a + 1) ICAL_TZNAME_PROPERTY (new_with ICAL_TEXT_VALUE (V_string (p_name d))) owner;
   valued (a + 2) ICAL_DTSTART_PROPERTY (time_value (p_start d)) owner;
   valued (a + 3) ICAL_TZOFFSETFROM_PROPERTY (offset_value (p_from d)) owner;
   valued (a + 4) ICAL_TZOFFSETTO_PROPERTY (offset_value (p_to d)) owner] ++
  match p_rule d with Some r => [valued (a + 5) ICAL_RRULE_PROPERTY (rule_value r) owner] | None => [] end.

Definition part_kind (daylight : bool) : icalcomponent_kind :=
  if daylight then ICAL_XDAYLIGHT_COMPONENT else ICAL_XSTANDARD_COMPONENT.

(** The component of a part; reading its start may have moved its iterator. *)
Definition is_part (parent : option positive) (d : zone_part) (c : icalcomponent) : Prop :=
  exists it, c = Component (p_addr d) (part_kind (p_daylight d)) None (part_properties d) it [] NoElem parent None true.

Lemma kind_valid k :
  In k [ICAL_TZID_PROPERTY; ICAL_X_PROPERTY; ICAL_TZNAME_PROPERTY; ICAL_DTSTART_PROPERTY; ICAL_TZOFFSETFROM_PROPERTY;
        ICAL_TZOFFSETTO_PROPERTY; ICAL_RRULE_PROPERTY] -> icalproperty_kind_is_valid k = true.
Proof. unfold zone_kinds in KINDS. rewrite Forall_forall in KINDS. apply KINDS. Qed.

Lemma bind_ret {A B} (x : A) (k : A -> err B) : bind (ret x) k = k x.
Proof. reflexivity. Qed.

Lemma new_property_eq a k v :
  icalproperty_kind_is_valid k = true -> new_property a k v = ret (valued a k v None).
Proof.
  intros Hk. unfold new_property, icalproperty_new_impl. rewrite Hk. unfold icalproperty_set_value, icalvalue_isa.
  destruct (is_time_kind (v_kind v)); reflexivity.
Qed.

(** A floating date-time that may name a day the month has not. *)
Definition plain (t : icaltimetype) : Prop := is_date t = 0 /\ zone t = ZONE_NULL /\ 1753 <= year t <= MAX_TIME_T_YEAR.

Lemma floating_plain t : floating t -> plain t.
Proof. intros []. now split. Qed.

Lemma new_time_value_eq t :
  plain t -> new_time_value ICAL_DTSTART_PROPERTY t = ret (time_value t).
Proof.
  intros (Hd & Hz & Hy). unfold MAX_TIME_T_YEAR in Hy. destruct t as [y m d h mi s isd dl z]. cbn in Hd, Hz, Hy. subst isd z.
  unfold new_time_value. change (_ =? _) with false. cbv iota.
  unfold icalvalue_new_datetimedate, icalvalue_set_datetimedate, icaltime_is_valid_time. cbn [year is_date].
  rewrite (proj2 (Z.ltb_ge y 0)), (proj2 (Z.ltb_ge 3000 y)) by lia.
  transitivity (icalvalue_reset_kind (time_value (IcalTime y m d h mi s 0 dl ZONE_NULL))); [reflexivity|].
  unfold icalvalue_reset_kind. cbn [v_kind v_data time_value new_with]. change (kind_eqb ICAL_DATETIME_VALUE ICAL_DATETIME_VALUE) with true.
  cbn [orb data_time]. rewrite bind_ret. destruct (icaltime_is_null_time _); reflexivity.
Qed.

Lemma new_part_eq a dl name t from to :
  plain t ->
  new_part a (part_kind dl) name t from to =
  ret (Component a (part_kind dl) None (part_properties (Part a dl name t from to None)) NoElem [] NoElem None None true).
Proof.
  intros Ht. unfold new_part, icalcomponent_new, icalcomponent_new_impl, new_utcoffset_property, new_time_property.
  assert (icalcomponent_kind_is_valid (part_kind dl) = true) as -> by (destruct dl; reflexivity).
  rewrite new_time_value_eq by assumption. rewrite !bind_ret.
  rewrite !new_property_eq by (apply kind_valid; cbn; tauto). rewrite !bind_ret. reflexivity.
Qed.

(** ** The start of a part *)

Definition part_component (d : zone_part) (it : pvl_iter) (parent : option positive) : icalcomponent :=
  Component (p_addr d) (part_kind (p_daylight d)) None (part_properties d) it [] NoElem parent None true.

Definition with_start (t : icaltimetype) (d : zone_part) : zone_part :=
  Part (p_addr d) (p_daylight d) (p_name d) t (p_from d) (p_to d) (p_rule d).
Definition with_rrule (r : icalrecurrencetype) (d : zone_part) : zone_part :=
  Part (p_addr d) (p_daylight d) (p_name d) (p_start d) (p_from d) (p_to d) (Some r).

Lemma get_dtstart_part d it parent :
  plain (p_start d) -> icalcomponent_get_dtstart (part_component d it parent) [] = ret (p_start d).
Proof.
  intros (Hd & Hz & _). unfold icalcomponent_get_dtstart.
  assert (inner_of (part_component d it parent) = Some (part_component d it parent)) as ->.
  { unfold part_component. destruct (p_daylight d); reflexivity. }
  change (first_of ICAL_DTSTART_PROPERTY (Some (part_component d it parent))) with
    (ret (Some (valued (p_addr d + 2) ICAL_DTSTART_PROPERTY (time_value (p_start d)) (Some (p_addr d))))). rewrite bind_ret.
  unfold icalproperty_get_datetime_with_component. cbn [valued pr_value get_datetimedate]. 
  unfold icaltime_is_utc. 
  destruct (p_start d) as [y m dd h mi s isd dl z]. cbn in Hd, Hz. subst. reflexivity.
Qed.

Lemma set_dtstart_part d t addr it parent :
  plain t -> icalcomponent_set_dtstart t addr (part_component d it parent) = ret (part_component (with_start t d) (AtElem 1) parent).
Proof.
  intros Ht. unfold icalcomponent_set_dtstart, ICALSETUPSET.
  assert (icalcomponent_get_inner (part_component d it parent) = (Some (part_component d it parent), part_component d it parent)) as ->.
  { unfold part_component. destruct (p_daylight d); reflexivity. }
  assert (icalcomponent_get_first_property ICAL_DTSTART_PROPERTY (part_component d it parent) =
    (Some (valued (p_addr d + 2) ICAL_DTSTART_PROPERTY (time_value (p_start d)) (Some (p_addr d))), part_component d (AtElem 1) parent)) as -> by reflexivity.
  unfold set_zoned_time, change_or_add, set_time.
  change (pr_kind (icalproperty_remove_parameter_by_kind _ _)) with ICAL_DTSTART_PROPERTY.
  rewrite new_time_value_eq by assumption. rewrite bind_ret. destruct Ht as (Hd & Hz & _).
  destruct t as [y m dd h mi s isd dl z]. cbn in Hd, Hz. subst. destruct d as [a [] n st f o r]; reflexivity.
Qed.

(** ** The clock *)

(** The clock shows a time from 1970 to 2099. *)
Definition clock_ok : Prop := 0 <= time_now < 4102444800.
Context (CLOCK : clock_ok).

Definition this_year : Z := year (local_time time_now).

Lemma now_floating : floating (local_time time_now) /\ instant (local_time time_now) = time_now + epoch.
Proof. apply local_time_floating. unfold clock_ok in CLOCK. lia. Qed.

Lemma this_year_range : 1970 <= this_year <= 2099.
Proof.
  destruct now_floating as [Hf Hi]. unfold clock_ok, this_year in *. pose proof (fl_normal _ Hf) as [Hv Hc].
  assert (valid_clock (local_time time_now)) as Hc' by (apply Hc; unfold icaltime_is_date; rewrite (fl_date _ Hf); reflexivity).
  pose proof (instant_day _ Hc') as Ed. rewrite Hi in Ed. unfold epoch in *. set (t := local_time time_now) in *.
  change (day_number 1970 1 1) with 719542 in Ed. split.
  - destruct (Z.le_gt_cases 1970 (year t)) as [|Hlt]; [assumption|].
    assert (date_lt (year t) (month t) (day t) 1970 1 1) as H by (left; lia).
    apply day_number_lt in H; [|assumption | pose proof (days_in_month_range 1 1970); pose proof (days_in_month_range 1 2100); split; lia]. change (day_number 1970 1 1) with 719542 in H. zdiv.
  - destruct (Z.le_gt_cases (year t) 2099) as [|Hlt]; [assumption|].
    assert (day_number 2100 1 1 <= day_number (year t) (month t) (day t)) as H.
    { destruct (Z.eq_dec (year t) 2100) as [E|E].
      - rewrite E. rewrite !day_number_month by (apply Hv || lia). pose proof (days_before_month_bound 2100 (month t) (proj1 Hv)).
        rewrite days_before_month_1. destruct Hv. lia.
      - assert (date_lt 2100 1 1 (year t) (month t) (day t)) as H by (left; lia).
        apply day_number_lt in H; [lia | pose proof (days_in_month_range 1 1970); pose proof (days_in_month_range 1 2100); split; lia | assumption]. }
    change (day_number 2100 1 1) with 767024 in H. zdiv.
Qed.

(** The start of the year, as the code computes it. *)
Lemma year_start_eq :
  local_time (icaltime_as_timet (start_of_year (local_time time_now))) = start_of_year (local_time time_now) /\
  floating (start_of_year (local_time time_now)).
Proof.
  destruct now_floating as [[Hn Hd Hdl Hz Hy] Hi]. pose proof this_year_range as Hr. unfold this_year in Hr.
  set (t := local_time time_now) in *. set (s := start_of_year t).
  assert (floating s) as Hs.
  { constructor; try assumption. pose proof (days_in_month_range 1 (year t)); split; [split; cbn; lia | intros _; repeat split; cbn; lia]. }
  split; [|exact Hs]. assert (icaltime_is_date s = false) as Hsd by (unfold icaltime_is_date; rewrite (fl_date _ Hs); reflexivity).
  rewrite as_timet_instant by (try apply Hs; try assumption; cbn; lia).
  assert (-79257 * 86400 <= instant s - epoch < 2 ^ 34) as Hb.
  { unfold instant, epoch, s. cbn [year month day hour minute second start_of_year set_date IcalTime.set_time].
    rewrite day_number_month by lia. rewrite days_before_month_1. unfold days_before_year.
    change (day_number 1970 1 1) with 719542. destruct (Z.leb_spec (year t) 1753); zdiv. }
  destruct (local_time_floating _ Hb) as [Hf Ei]. set (u := local_time (instant s - epoch)) in *.
  destruct (instant_inj u s) as (E1 & E2 & E3 & E4 & E5 & E6); try apply Hf; try apply Hs; try assumption; try lia.
  { unfold icaltime_is_date. rewrite (fl_date _ Hf). reflexivity. }
  rewrite (icaltime_eta u), (icaltime_eta s). destruct Hf as [_ F1 F2 F3 _], Hs as [_ S1 S2 S3 _]. congruence.
Qed.

(** The first second of the current year. *)
Lemma start_of_year_members t :
  year (start_of_year t) = year t /\ month (start_of_year t) = 1 /\ day (start_of_year t) = 1 /\
  hour (start_of_year t) = 0 /\ minute (start_of_year t) = 0 /\ second (start_of_year t) = 0.
Proof. destruct t. repeat split. Qed.

Lemma year_start_is :
  exists s, local_time (icaltime_as_timet (start_of_year (local_time time_now))) = s /\
    floating s /\ year s = this_year /\ month s = 1 /\ day s = 1 /\ hour s = 0 /\ minute s = 0 /\ second s = 0.
Proof.
  exists (start_of_year (local_time time_now)). destruct year_start_eq as [E Hs]. split; [exact E|]. split; [exact Hs|].
  exact (start_of_year_members (local_time time_now)).
Qed.

(** The day of the rule in the current year. *)
Definition adjusted (t : icaltimetype) (v : Z) : icaltimetype :=
  set_date t (year t) (month t) (date_in (month t) v this_year).

Lemma adjusted_plain t v : plain t -> plain (adjusted t v).
Proof. intros (? & ? & ?). now split. Qed.

Lemma yearly_rule_eq t v : yearly_rule t v = weekday_rule (month t) v 0 ICAL_MONDAY_WEEKDAY.
Proof. reflexivity. Qed.

Lemma runs_adjust fuel addr d t v :
  p_start d = t -> floating t -> every_month v -> (0 < fuel)%nat ->
  runs (adjust_dtstart_day_to_rrule fuel addr (part_component d NoElem None) (yearly_rule t v))
    (fun c => exists it, c = part_component (with_start (adjusted t v) d) it None).
Proof.
  intros Et Ht Hv Hfuel st Hq. unfold adjust_dtstart_day_to_rrule. rewrite get_dtstart_part, bind_ret, Et by (rewrite Et; apply floating_plain, Ht).
  cbv zeta.
  destruct year_start_is as (s & -> & Hs & Ey & Em & Ed & Eh & Emi & Es).
  pose proof (fl_normal _ Ht) as [[Hm Hday] _]. pose proof (fl_normal _ Hs) as Hns. pose proof (fl_date _ Hs) as Hds. pose proof (fl_year _ Hs) as Hys.
  rewrite yearly_rule_eq. assert (dtstart_ok s = true) as Hok.
  { pose proof (days_in_month_range (month s) (year s)). unfold dtstart_ok, icaltime_is_valid_time, MAX_TIME_T_YEAR in *.
    rewrite Hds, Em, Ed, Eh, Emi, Es in *. lia. }
  destruct (iterator_new_weekday_rule (month t) v 0 ICAL_MONDAY_WEEKDAY s Hm Hv Hns Hds Hys fuel st Hok Hfuel) as (i & Ei & Hi).
  unfold bind. rewrite Ei.
  destruct (first_call (month t) v 0 ICAL_MONDAY_WEEKDAY s Hm Hv Hns Hds Hys i (with_errno st ICAL_NO_ERROR) fuel Hi ltac:(lia) Hfuel)
    as (j & Ej & _).
  assert (first_in (month t) v s = this_year) as Ef.
  { unfold first_in. rewrite Ey, (proj2 (Z.ltb_ge _ _)); [reflexivity|]. rewrite Ey in Hys.
    assert (valid_date this_year (month t) (date_in (month t) v this_year)) as [_ Hd] by (destruct Hv; apply weekday_date_valid; lia || assumption).
    unfold instant. cbn [year month day hour minute second time_in]. rewrite Ey, Em, Ed, Eh, Emi, Es.
    rewrite !day_number_month by lia. rewrite days_before_month_1. pose proof (days_before_month_bound this_year (month t) Hm). lia. }
  rewrite Ej, Ef. rewrite Ey in Hys. rewrite (proj2 (Z.leb_le _ _)) by lia.
  cbn [day time_in]. change (date_in (month t) v this_year) with (day (adjusted t v)).
  pose proof (quiet_with_errno st ICAL_NO_ERROR Hq) as Hq'. destruct (Z.eqb_spec (day (adjusted t v)) (day t)) as [E|E].
  - exists (part_component d NoElem None), (with_errno st ICAL_NO_ERROR). split; [reflexivity|]. split; [exact Hq'|].
    exists NoElem. f_equal. assert (adjusted t v = t) as ->; [|destruct d; cbn in Et; subst; reflexivity].
    unfold adjusted in *. cbn [day set_date] in E. rewrite E. destruct t; reflexivity.
  - cbn [negb]. rewrite set_dtstart_part by apply adjusted_plain, floating_plain, Ht.
    eexists _, _. split; [reflexivity|]. split; [exact Hq' | eexists; reflexivity].
Qed.

(** ** The zone and its parts *)

Definition zone_component (a : positive) (ps : list icalproperty) (cs : list icalcomponent) : icalcomponent :=
  Component a ICAL_VTIMEZONE_COMPONENT None ps NoElem cs NoElem None None true.

(** A zone with these parts, and other components behind them. *)
Definition zone_with (a : positive) (ps : list icalproperty) (parts : list zone_part) (others : list icalcomponent) (tz : icalcomponent) : Prop :=
  exists cs, tz = zone_component a ps (cs ++ others) /\ Forall2 (is_part (Some a)) parts cs.
Definition zone_of (a : positive) (ps : list icalproperty) (parts : list zone_part) (tz : icalcomponent) : Prop := zone_with a ps parts [] tz.

(** The parts take addresses of their own, below [next]. *)
Definition before_part (d e : zone_part) : Prop := (p_addr d + 7 <= p_addr e)%positive.
Definition spaced (next : positive) (parts : list zone_part) : Prop :=
  ForallOrdPairs before_part parts /\ Forall (fun d => p_addr d + 7 <= next)%positive parts.

Lemma ordered_snoc parts d :
  ForallOrdPairs before_part parts -> Forall (fun e => before_part e d) parts -> ForallOrdPairs before_part (parts ++ [d]).
Proof.
  induction 1 as [|e parts He Hp IH]; intros Hd; cbn [app]; [repeat constructor|]. inversion Hd as [|? ? H1 H2]; subst.
  constructor; [|apply IH; assumption]. apply Forall_app. split; [assumption | now repeat constructor].
Qed.

Lemma spaced_snoc next parts d :
  spaced next parts -> p_addr d = next -> spaced (next_part next) (parts ++ [d]).
Proof.
  intros [H1 H2] Hd. unfold next_part. split.
  - apply ordered_snoc; [assumption|]. eapply Forall_impl; [|exact H2]. intros e He. cbv beta in He. unfold before_part. lia.
  - apply Forall_app. split; [eapply Forall_impl; [|exact H2]; cbv beta; intros; lia|]. repeat constructor. lia.
Qed.

(** Two parts at one address are one. *)
Lemma spaced_inj parts d e : ForallOrdPairs before_part parts -> In d parts -> In e parts -> p_addr d = p_addr e -> d = e.
Proof.
  unfold before_part. induction 1 as [|x parts Hx Hp IH]; [intros []|]. rewrite Forall_forall in Hx.
  intros [<-|Hd] [<-|He] E; auto; [apply Hx in He | apply Hx in Hd]; lia.
Qed.

(** The rule of the part at an address replaced. *)
Definition replace (x : positive) (r : icalrecurrencetype) (d : zone_part) : zone_part :=
  if Pos.eqb (p_addr d) x then with_rrule r d else d.

Lemma replace_addr x r d : p_addr (replace x r d) = p_addr d.
Proof. unfold replace. destruct (Pos.eqb _ _); reflexivity. Qed.

Lemma spaced_replace n parts x r : spaced n parts -> spaced n (map (replace x r) parts).
Proof.
  intros [H1 H2]. split.
  - clear H2. induction H1 as [|d parts Hd Hp IH]; cbn [map]; constructor; [|assumption]. rewrite Forall_map.
    eapply Forall_impl; [|exact Hd]. intros e. unfold before_part. rewrite !replace_addr. auto.
  - rewrite Forall_map. eapply Forall_impl; [|exact H2]. cbv beta. intros d. rewrite replace_addr. auto.
Qed.

Lemma replace_none x r parts : Forall (fun d => p_addr d <> x) parts -> map (replace x r) parts = parts.
Proof.
  induction 1 as [|d parts Hd Hp IH]; [reflexivity|]. cbn [map]. rewrite IH. unfold replace.
  rewrite (proj2 (Pos.eqb_neq _ _)) by assumption. reflexivity.
Qed.

Lemma set_rrule_eq a r0 r owner :
  count r = 0 ->
  icalproperty_set_rrule r (valued a ICAL_RRULE_PROPERTY (rule_value r0) owner) = ret (valued a ICAL_RRULE_PROPERTY (rule_value r) owner).
Proof. intros Hc. unfold icalproperty_set_rrule, icalvalue_new_recur, icalvalue_set_recur. rewrite Hc. reflexivity. Qed.

Lemma update_own r d r0 :
  count r = 0 -> p_rule d = Some r0 ->
  update_pointed (p_addr d + 5) (icalproperty_set_rrule r) (part_properties d) = ret (Some (part_properties (with_rrule r d))).
Proof.
  intros Hc Hr. unfold part_properties. rewrite Hr. cbn [app update_pointed]. unfold is_property. cbn [pr_addr valued].
  do 4 (rewrite (proj2 (Pos.eqb_neq _ _)) by lia). rewrite Pos.eqb_refl. rewrite set_rrule_eq by assumption. reflexivity.
Qed.

Lemma update_other r d x :
  (p_addr d + 7 <= x)%positive \/ (x + 7 <= p_addr d)%positive ->
  update_pointed (x + 5) (icalproperty_set_rrule r) (part_properties d) = ret None.
Proof.
  intros Hx. unfold part_properties. destruct (p_rule d); cbn [app update_pointed]; unfold is_property; cbn [pr_addr valued];
    repeat (rewrite (proj2 (Pos.eqb_neq _ _)) by lia); reflexivity.
Qed.

Lemma update_parts owner others r x : count r = 0 ->
  forall parts cs, Forall2 (is_part owner) parts cs -> ForallOrdPairs before_part parts ->
  (exists d r0, In d parts /\ p_addr d = x /\ p_rule d = Some r0) ->
  exists cs', update_in_parts (x + 5) (icalproperty_set_rrule r) (cs ++ others) = ret (cs' ++ others) /\
    Forall2 (is_part owner) (map (replace x r) parts) cs'.
Proof.
  intros Hc parts cs H2. induction H2 as [|d c parts cs Hd H2 IH]; intros Hord (e & r0 & Hin & He & Hr); [destruct Hin|].
  destruct Hd as [it ->]. cbn [app update_in_parts co_properties]. inversion Hord as [|? ? Hd Hp]; subst. rewrite Forall_forall in Hd.
  destruct Hin as [->|Hin].
  - rewrite (update_own r e r0) by assumption. rewrite bind_ret. eexists (_ :: cs). split; [reflexivity|]. cbn [map].
    rewrite replace_none by (apply Forall_forall; intros f Hf; apply Hd in Hf; unfold before_part in Hf; lia).
    constructor; [|assumption]. exists it. unfold replace. rewrite Pos.eqb_refl. reflexivity.
  - pose proof (Hd e Hin) as Hde. unfold before_part in Hde. rewrite update_other by now left. rewrite bind_ret.
    destruct IH as (cs' & E' & H'); [assumption | now exists e, r0|].
    rewrite E', bind_ret. eexists (_ :: cs'). split; [reflexivity|]. cbn [map]. constructor; [|assumption].
    unfold replace. rewrite (proj2 (Pos.eqb_neq _ _)) by lia. now exists it.
Qed.

(** ** Transitions and parts *)

Record step := Step { s_when : Z; s_from : ttinfo; s_to : ttinfo }.
Definition s_time (s : step) : icaltimetype := local_time (s_when s + gmtoff (s_from s)).
Definition s_daylight (s : step) : bool := negb (isdst (s_to s) =? 0).

(** The yearly rule of a transition, which may end. *)
Definition rule_of (t : icaltimetype) (u : icaltimetype) : icalrecurrencetype :=
  set_until u (weekday_rule (month t) (day_code t) 0 ICAL_MONDAY_WEEKDAY).

(** The part says of the transition: the same kind, the offset before it, and a rule
    that recurs on its day. *)
Definition covers (s : step) (d : zone_part) : Prop :=
  p_daylight d = s_daylight s /\ p_from d = gmtoff (s_from s) /\ exists u, p_rule d = Some (rule_of (s_time s) u).

(** The part was made for the transition; the day of its start is that of the rule in
    the current year. *)
Definition made_for (s : step) (d : zone_part) : Prop :=
  covers s d /\ p_name d = zname (s_to s) /\ p_to d = gmtoff (s_to s) /\ p_start d = adjusted (s_time s) (day_code (s_time s)).

(** Only the end of the rule differs. *)
Definition same_part (d e : zone_part) : Prop :=
  d = e \/ exists u r, p_rule d = Some r /\ e = with_rrule (set_until u r) d.

Lemma covers_same s d e : same_part d e -> covers s d <-> covers s e.
Proof.
  intros [-> | (u & r & Er & ->)]; [reflexivity|]. unfold covers. cbn [p_daylight p_from p_rule with_rrule]. rewrite Er.
  split; intros (H1 & H2 & u' & H3); (split; [assumption|]; split; [assumption|]).
  - injection H3 as ->. now exists u.
  - exists (until r). injection H3 as H3. f_equal. unfold rule_of, set_until, weekday_rule in *. destruct r. cbn in *. subst. reflexivity.
Qed.

Lemma made_for_same s d e : same_part d e -> made_for s d -> made_for s e.
Proof.
  intros H (Hc & Hrest). split; [now apply (covers_same s d e)|]. destruct H as [<-|(u & r & _ & ->)]; exact Hrest.
Qed.

(** The parts are those of before up to the ends of their rules. *)
Definition evolved (parts parts' : list zone_part) : Prop := Forall2 same_part parts parts'.

Lemma evolved_refl parts : evolved parts parts.
Proof. induction parts; constructor; [now left | assumption]. Qed.

Lemma same_part_trans a b c : same_part a b -> same_part b c -> same_part a c.
Proof.
  intros [-> | (u & r & E & ->)] [<- | (u' & r' & E' & ->)]; [now left | right; eauto | right; eauto|].
  right. exists u', r. split; [assumption|]. cbn in E'. injection E' as <-. reflexivity.
Qed.

Lemma evolved_trans l m n : evolved l m -> evolved m n -> evolved l n.
Proof.
  unfold evolved. intros H. revert n. induction H as [|a b l m Hab H IH]; intros n Hn; inversion Hn; subst; [constructor|].
  constructor; [eapply same_part_trans; eassumption | apply IH; assumption].
Qed.

Lemma evolved_in parts parts' d : evolved parts parts' -> In d parts -> exists e, In e parts' /\ same_part d e.
Proof. induction 1; intros [].
  - subst. eexists. split; [now left | assumption].
  - destruct IHForall2 as (e & He & Hs); [assumption|]. exists e. split; [now right | assumption].
Qed.

Lemma evolved_from parts parts' e : evolved parts parts' -> In e parts' -> exists d, In d parts /\ same_part d e.
Proof. induction 1; intros [].
  - subst. eexists. split; [now left | assumption].
  - destruct IHForall2 as (d & Hd & Hs); [assumption|]. exists d. split; [now right | assumption].
Qed.

(** ** Tracks *)

(** The current part of a track, and what the variables know of it. *)
Definition current (dl : bool) (tr : track) (d : zone_part) : Prop :=
  p_daylight d = dl /\ cur_rrule_property tr = Some (p_addr d + 5)%positive /\ p_from d = prev_gmtoff tr /\
  exists m v u, recur tr = Some (set_until u (weekday_rule m v 0 ICAL_MONDAY_WEEKDAY)) /\ p_rule d = recur tr.

Definition track_ok (dl : bool) (tr : track) (parts : list zone_part) : Prop :=
  cur_comp tr = true -> prev_prev_time tr <> None /\ exists d, In d parts /\ current dl tr d.

Lemma track_ok_app dl tr parts d : track_ok dl tr parts -> track_ok dl tr (parts ++ [d]).
Proof.
  intros H Hc. destruct (H Hc) as (H1 & e & He & Hcur). split; [assumption|].
  exists e. split; [apply in_or_app; now left | assumption].
Qed.

(** The rule of the current part is given another end. *)
Lemma set_until_current a ps parts others tz dl tr d u r :
  zone_with a ps parts others tz -> ForallOrdPairs before_part parts -> In d parts -> current dl tr d -> recur tr = Some r ->
  runs (set_rrule_of (cur_rrule_property tr) (set_until u r) tz) (fun tz' =>
    exists parts', parts' = map (replace (p_addr d) (set_until u r)) parts /\ zone_with a ps parts' others tz' /\ evolved parts parts' /\
      In (with_rrule (set_until u r) d) parts').
Proof.
  intros (cs & -> & H2) Hord Hin (_ & Ha & _ & m & v & w & Er & Ed) Hr.
  unfold set_rrule_of. rewrite Ha. rewrite Er in Hr. injection Hr as <-.
  destruct (update_parts (Some a) others (set_until u (set_until w (weekday_rule m v 0 ICAL_MONDAY_WEEKDAY))) (p_addr d) eq_refl parts cs H2 Hord)
    as (cs' & E & H'); [exists d; eauto using eq_trans|].
  cbn [co_components zone_component]. rewrite E, bind_ret. apply runs_ret. eexists. split; [reflexivity|].
  split; [now exists cs'|]. split.
  - clear - Hord Hin Ed Er. unfold evolved. induction Hord as [|e parts He Hp IH]; cbn [map]; [constructor|].
    rewrite Forall_forall in He. destruct Hin as [->|Hin].
    + rewrite replace_none by (apply Forall_forall; intros f Hf; apply He in Hf; unfold before_part in Hf; lia).
      constructor; [|apply evolved_refl]. right. unfold replace. rewrite Pos.eqb_refl. rewrite Er in Ed. eauto.
    + constructor; [|apply IH; assumption]. left. pose proof (He d Hin). unfold before_part in *. unfold replace.
      rewrite (proj2 (Pos.eqb_neq _ _)) by lia. reflexivity.
  - apply in_map_iff. exists d. split; [|assumption]. unfold replace. rewrite Pos.eqb_refl. reflexivity.
Qed.

(** ** One transition *)

Context (zone_addr : positive) (zone_properties : list icalproperty).

(** The zone so far and the parts it has. *)
Definition walk_ok (parts : list zone_part) (w : walk) : Prop :=
  zone_of zone_addr zone_properties parts (tz_comp w) /\ spaced (next_addr w) parts /\
  track_ok true (daylight w) parts /\ track_ok false (standard w) parts.

(** An operation on one track leaves the other. *)
Lemma track_ok_evolved dl tr parts d r :
  track_ok dl tr parts -> ForallOrdPairs before_part parts -> In d parts -> p_daylight d = negb dl ->
  track_ok dl tr (map (replace (p_addr d) r) parts).
Proof.
  intros Ht Hord Hd Hk Hc. destruct (Ht Hc) as (H1 & e & He & Hcur). split; [assumption|].
  exists e. split; [|assumption]. apply in_map_iff. exists e. split; [|assumption]. unfold replace.
  destruct (Pos.eqb_spec (p_addr e) (p_addr d)) as [E|]; [|reflexivity].
  apply (spaced_inj parts) in E; [|assumption..]. subst e. destruct Hcur as (Hk' & _). destruct (p_daylight d), dl; discriminate.
Qed.

Lemma current_again dl tr d u r :
  current dl tr d -> recur tr = Some r ->
  forall t, current dl (Track (cur_comp tr) (cur_rrule_property tr) (Some (set_until u r)) t (prev_prev_time tr) (prev_gmtoff tr))
    (with_rrule (set_until u r) d).
Proof.
  intros (H1 & H2 & H3 & m & v & w & Er & Ed) Hr t. rewrite Er in Hr. injection Hr as <-.
  split; [exact H1|]. split; [exact H2|]. split; [exact H3|]. exists m, v, u. split; reflexivity.
Qed.

(** The parts after the rule of a current part has been ended. *)
Inductive ended (dl : bool) (parts : list zone_part) : list zone_part -> Prop :=
| Ended d r : In d parts -> p_daylight d = dl -> evolved parts (map (replace (p_addr d) r) parts) ->
    ended dl parts (map (replace (p_addr d) r) parts).

Lemma ended_other dl tr parts parts' :
  ended dl parts parts' -> ForallOrdPairs before_part parts -> track_ok (negb dl) tr parts -> track_ok (negb dl) tr parts'.
Proof. intros [d r Hd Hk _] Hord Ht. apply track_ok_evolved; try assumption. rewrite negb_involutive. exact Hk. Qed.

Lemma ended_spaced dl n parts parts' : ended dl parts parts' -> spaced n parts -> spaced n parts'.
Proof. intros [d r _ _ _]. apply spaced_replace. Qed.

Lemma ended_evolved dl parts parts' : ended dl parts parts' -> evolved parts parts'.
Proof. intros [d r _ _ H]. exact H. Qed.

Lemma runs_end_rule dl off tr tz parts :
  zone_of zone_addr zone_properties parts tz -> ForallOrdPairs before_part parts -> track_ok dl tr parts -> cur_comp tr = true ->
  runs (end_rule off tr tz) (fun r => exists parts', zone_of zone_addr zone_properties parts' (snd r) /\ ended dl parts parts' /\
    track_ok dl (fst r) parts').
Proof.
  intros Hz Hord Ht Hc. destruct (Ht Hc) as (Hpp & d & Hd & Hcur). unfold end_rule.
  pose proof Hcur as (Hk & _ & _ & m & v & w & Er & _). rewrite Er. cbn [assigned]. rewrite bind_ret.
  eapply runs_bind; [exact (set_until_current _ _ _ _ _ _ _ _ (until_time (prev_time tr) off) _ Hz Hord Hd Hcur Er)|].
  intros tz' (parts' & -> & Hz' & Hev & Hin). apply runs_ret. eexists. split; [exact Hz'|]. split; [now constructor|].
  intros _. split; [exact Hpp|]. eexists. split; [exact Hin|]. now apply (current_again dl tr d).
Qed.

(** The step is covered already, or a part is to begin. *)
Definition after_transition (s : step) (parts : list zone_part) (r : bool * walk) : Prop :=
  exists parts', evolved parts parts' /\ zone_of zone_addr zone_properties parts' (tz_comp (snd r)) /\ spaced (next_addr (snd r)) parts' /\
    (if fst r then
       let '(mine, other) := if s_daylight s then (daylight (snd r), standard (snd r)) else (standard (snd r), daylight (snd r)) in
       prev_prev_time mine <> None /\ prev_gmtoff mine = gmtoff (s_from s) /\ track_ok (negb (s_daylight s)) other parts'
     else walk_ok parts' (snd r) /\ exists d, In d parts' /\ covers s d).

Lemma same_day_eq tr d dl t : current dl tr d ->
  exists m v u, same_day tr t (day_code t) = ret ((m =? month t) && (v =? day_code t)) /\ p_rule d = Some (set_until u (weekday_rule m v 0 ICAL_MONDAY_WEEKDAY)).
Proof.
  intros (_ & _ & _ & m & v & u & Er & Ed). exists m, v, u. unfold same_day. rewrite Er. cbn [assigned]. rewrite bind_ret.
  split; [reflexivity | congruence].
Qed.

(** A track that moves on inside its part. *)
Lemma track_moves s tr parts d m v u :
  track_ok (s_daylight s) tr parts -> In d parts -> current (s_daylight s) tr d ->
  p_rule d = Some (set_until u (weekday_rule m v 0 ICAL_MONDAY_WEEKDAY)) ->
  (m =? month (s_time s)) && (v =? day_code (s_time s)) = true -> gmtoff (s_from s) = prev_gmtoff tr ->
  track_ok (s_daylight s) (move_on (s_time s) (gmtoff (s_from s)) tr) parts /\ covers s d.
Proof.
  intros Ht Hd (Hk & Ha & Hf & m' & v' & u' & Er & Ed) Hr Hs Ho. apply andb_true_iff in Hs as [Hm Hv]. apply Z.eqb_eq in Hm, Hv. subst m v. split.
  - intros _. split; [discriminate|]. exists d. split; [assumption|]. split; [assumption|]. split; [assumption|].
    split; [cbn; congruence|]. exists m', v', u'. now split.
  - split; [assumption|]. split; [congruence|]. exists u. exact Hr.
Qed.

Lemma runs_daylight_transition s parts w :
  walk_ok parts w -> s_daylight s = true ->
  runs (daylight_transition (s_time s) (day_code (s_time s)) (gmtoff (s_from s)) w) (after_transition s parts).
Proof.
  intros (Hz & Hsp & Hd & Hst) Hs. unfold daylight_transition. destruct (cur_comp (daylight w)) eqn:Ec.
  - destruct (Hd Ec) as (Hpp & d & Hin & Hcur). destruct (same_day_eq _ _ _ (s_time s) Hcur) as (m & v & u & E & Hr).
    rewrite E, bind_ret. destruct (negb _ || negb _) eqn:En.
    + eapply runs_bind; [apply (runs_end_rule true); try eassumption; apply Hsp|]. intros r (parts' & Hz' & He & Ht').
      apply runs_ret. exists parts'. cbn [fst snd tz_comp next_addr daylight standard]. rewrite Hs.
      split; [eapply ended_evolved, He|]. split; [assumption|]. split; [eapply ended_spaced; eassumption|].
      split; [discriminate|]. split; [reflexivity|]. apply (ended_other true _ _ _ He); [apply Hsp | assumption].
    + apply orb_false_elim in En as [E1 E2]. apply negb_false_iff in E1, E2. apply Z.eqb_eq in E2. rewrite <- Hs in Hd, Hcur.
      destruct (track_moves s (daylight w) parts d m v u Hd Hin Hcur Hr E1 E2) as [Hm Hcov].
      apply runs_ret. exists parts. cbn [fst snd tz_comp next_addr]. split; [apply evolved_refl|]. split; [assumption|]. split; [assumption|].
      split; [|now exists d]. rewrite Hs in Hm. exact (conj Hz (conj Hsp (conj Hm Hst))).
  - apply runs_ret. exists parts. cbn [fst snd tz_comp next_addr daylight standard]. rewrite Hs.
    split; [apply evolved_refl|]. split; [assumption|]. split; [assumption|]. split; [discriminate|]. split; [reflexivity | assumption].
Qed.

Lemma runs_standard_transition s parts w :
  walk_ok parts w -> s_daylight s = false ->
  runs (standard_transition (s_time s) (day_code (s_time s)) (gmtoff (s_from s)) w) (after_transition s parts).
Proof.
  intros (Hz & Hsp & Hd & Hst) Hs. unfold standard_transition. destruct (cur_comp (standard w)) eqn:Ec.
  - destruct (Hst Ec) as (Hpp & d & Hin & Hcur). destruct (same_day_eq _ _ _ (s_time s) Hcur) as (m & v & u & E & Hr).
    rewrite E, bind_ret. destruct (negb _ || negb _) eqn:En.
    + eapply runs_bind; [apply (runs_end_rule false); try eassumption; apply Hsp|]. intros [st tz] (parts' & Hz' & He & Ht').
      cbn [fst snd] in *. pose proof (ended_spaced _ _ _ _ He Hsp) as Hsp'.
      pose proof (ended_other false _ _ _ He (proj1 Hsp) Hd) as Hd'. cbn [negb] in Hd'.
      assert (forall parts2 dl2 tz2, zone_of zone_addr zone_properties parts2 tz2 -> evolved parts' parts2 -> spaced (next_addr w) parts2 ->
        track_ok true dl2 parts2 ->
        after_transition s parts (true, Walk tz2 (next_addr w) dl2 (move_on (s_time s) (gmtoff (s_from s)) st))) as Hend.
      { intros parts2 dl2 tz2 Hz2 Hev2 Hsp2 Hd2. exists parts2. cbn [fst snd tz_comp next_addr daylight standard]. rewrite Hs.
        split; [|split; [assumption|]; split; [assumption|]; split; [discriminate|]; split; [reflexivity | assumption]].
        apply (evolved_trans _ parts'); [eapply ended_evolved, He | assumption]. }
      destruct (cur_comp (daylight w)) eqn:Ecd.
      * destruct (Hd' Ecd) as (_ & e & Hine & Hcure). destruct (same_day_eq _ _ _ (s_time s) Hcure) as (m2 & v2 & u2 & E2 & Hr2).
        rewrite E2, bind_ret. destruct ((m2 =? month (s_time s)) && (v2 =? day_code (s_time s))).
        -- eapply runs_bind; [apply (runs_end_rule true); try eassumption; apply Hsp'|]. intros [dt tz2] (parts2 & Hz2 & He2 & Ht2).
           apply runs_ret. cbn [fst snd] in *. apply (Hend parts2); try assumption; [eapply ended_evolved, He2 | eapply ended_spaced; eassumption].
        -- rewrite bind_ret. apply runs_ret. cbn [fst snd]. apply (Hend parts'); try assumption. apply evolved_refl.
      * rewrite !bind_ret. apply runs_ret. cbn [fst snd]. apply (Hend parts'); try assumption. apply evolved_refl.
    + apply orb_false_elim in En as [E1 E2]. apply negb_false_iff in E1, E2. apply Z.eqb_eq in E2. rewrite <- Hs in Hst, Hcur.
      destruct (track_moves s (standard w) parts d m v u Hst Hin Hcur Hr E1 E2) as [Hm Hcov].
      apply runs_ret. exists parts. cbn [fst snd tz_comp next_addr]. split; [apply evolved_refl|]. split; [assumption|]. split; [assumption|].
      split; [|now exists d]. rewrite Hs in Hm. exact (conj Hz (conj Hsp (conj Hd Hm))).
  - apply runs_ret. exists parts. cbn [fst snd tz_comp next_addr daylight standard]. rewrite Hs.
    split; [apply evolved_refl|]. split; [assumption|]. split; [assumption|]. split; [discriminate|]. split; [reflexivity | assumption].
Qed.

Lemma add_part_eq parts d it tz :
  zone_of zone_addr zone_properties parts tz ->
  exists tz', add_part (part_component d it None) tz = ret tz' /\ zone_of zone_addr zone_properties (parts ++ [d]) tz'.
Proof.
  intros (cs & -> & H2). unfold add_part, icalcomponent_add_component. cbn [co_parent part_component]. rewrite bind_ret.
  cbn [icalcomponent_set_parent co_kind part_component].
  assert (ckind_eqb (part_kind (p_daylight d)) ICAL_VTIMEZONE_COMPONENT = false) as -> by (destruct (p_daylight d); reflexivity).
  cbn [negb]. rewrite bind_ret. eexists. split; [reflexivity|]. cbn [fst].
  exists (cs ++ [icalcomponent_set_parent (Some zone_addr) (part_component d it None)]). rewrite !app_nil_r. split; [reflexivity|].
  apply Forall2_app; [assumption|]. constructor; [now exists it | constructor].
Qed.

Lemma runs_begin_part fuel s parts w :
  floating (s_time s) -> (0 < fuel)%nat ->
  zone_of zone_addr zone_properties parts (tz_comp w) -> spaced (next_addr w) parts ->
  (let '(mine, other) := if s_daylight s then (daylight w, standard w) else (standard w, daylight w) in
   prev_prev_time mine <> None /\ prev_gmtoff mine = gmtoff (s_from s) /\ track_ok (negb (s_daylight s)) other parts) ->
  runs (begin_part fuel (s_time s) (day_code (s_time s)) (s_from s) (s_to s) w)
    (fun w' => exists d, made_for s d /\ walk_ok (parts ++ [d]) w').
Proof.
  intros Ht Hfuel Hz Hsp Hother. unfold begin_part. fold (s_daylight s). set (t := s_time s) in *. set (a := next_addr w).
  fold (part_kind (s_daylight s)).
  rewrite new_part_eq, bind_ret by now apply floating_plain.
  unfold icalproperty_new_rrule, icalvalue_new_recur, icalvalue_set_recur. rewrite yearly_rule_eq. cbn [count weekday_rule].
  change (0 =? 0) with true. cbn [orb]. rewrite bind_ret. rewrite new_property_eq, bind_ret by (apply kind_valid; cbn; tauto).
  set (d0 := Part a (s_daylight s) (zname (s_to s)) t (gmtoff (s_from s)) (gmtoff (s_to s))
               (Some (weekday_rule (month t) (day_code t) 0 ICAL_MONDAY_WEEKDAY))).
  match goal with |- runs (bind (adjust_dtstart_day_to_rrule fuel _ ?c _) _) _ => change c with (part_component d0 NoElem None) end.
  destruct (by_day_spec t Ht) as (_ & Hv & _ & _).
  eapply runs_bind; [rewrite <- yearly_rule_eq; now apply runs_adjust|].
  intros c [it ->]. destruct (add_part_eq parts (with_start (adjusted t (day_code t)) d0) it (tz_comp w) Hz) as (tz' & -> & Hz').
  rewrite bind_ret. apply runs_ret. set (d := with_start (adjusted t (day_code t)) d0) in *.
  exists d. split.
  { split; [|repeat split]. split; [reflexivity|]. split; [reflexivity|]. exists icaltime_null_time. reflexivity. }
  assert (spaced (next_part a) (parts ++ [d])) as Hsp' by now apply spaced_snoc.
  assert (forall tr, prev_prev_time tr <> None -> prev_gmtoff tr = gmtoff (s_from s) ->
    track_ok (s_daylight s) (with_rule (weekday_rule (month t) (day_code t) 0 ICAL_MONDAY_WEEKDAY) (a + 5) tr) (parts ++ [d])) as Hmine.
  { intros tr Hpp Hg _. split; [exact Hpp|]. exists d. split; [apply in_or_app; right; now left|].
    split; [reflexivity|]. split; [reflexivity|]. split; [cbn; congruence|]. exists (month t), (day_code t), icaltime_null_time. now split. }
  destruct (s_daylight s) eqn:Es; destruct Hother as (Hpp & Hg & Hot); cbn [negb] in Hot.
  - split; [exact Hz'|]. split; [exact Hsp'|]. split; [now apply Hmine | now apply track_ok_app].
  - split; [exact Hz'|]. split; [exact Hsp'|]. split; [now apply track_ok_app | now apply Hmine].
Qed.

(** Every part was made for a transition, and every transition is covered. *)
Definition tells (done : list step) (parts : list zone_part) : Prop :=
  (forall d, In d parts -> exists s, In s done /\ made_for s d) /\ (forall s, In s done -> exists d, In d parts /\ covers s d).

Lemma tells_evolved done parts parts' : tells done parts -> evolved parts parts' -> tells done parts'.
Proof.
  intros [H1 H2] He. split.
  - intros e Hin. destruct (evolved_from _ _ _ He Hin) as (d & Hd & Hs). destruct (H1 d Hd) as (s & Hin' & Hm).
    exists s. split; [assumption | eapply made_for_same; eassumption].
  - intros s Hin. destruct (H2 s Hin) as (d & Hd & Hc). destruct (evolved_in _ _ _ He Hd) as (e & Hin' & Hs).
    exists e. split; [assumption | now apply (covers_same s d e)].
Qed.

Lemma tells_covered done parts s d : tells done parts -> In d parts -> covers s d -> tells (done ++ [s]) parts.
Proof.
  intros [H1 H2] Hd Hc. split.
  - intros e He. destruct (H1 e He) as (s' & Hs & Hm). exists s'. split; [apply in_or_app; now left | assumption].
  - intros s' [Hs|[<-|[]]]%in_app_or; [auto | now exists d].
Qed.

Lemma tells_made done parts s d : tells done parts -> made_for s d -> tells (done ++ [s]) (parts ++ [d]).
Proof.
  intros [H1 H2] Hm. split.
  - intros e [He|[<-|[]]]%in_app_or.
    + destruct (H1 e He) as (s' & Hs & Hm'). exists s'. split; [apply in_or_app; now left | assumption].
    + exists s. split; [apply in_or_app; right; now left | assumption].
  - intros s' [Hs|[<-|[]]]%in_app_or.
    + destruct (H2 s' Hs) as (e & He & Hc). exists e. split; [apply in_or_app; now left | assumption].
    + exists d. split; [apply in_or_app; right; now left | apply Hm].
Qed.

Lemma runs_transition_step fuel s done parts w :
  floating (s_time s) -> (0 < fuel)%nat -> walk_ok parts w -> tells done parts ->
  runs (transition_step fuel (s_when s) (s_from s) (s_to s) w)
    (fun w' => exists parts', walk_ok parts' w' /\ tells (done ++ [s]) parts').
Proof.
  intros Ht Hfuel Hw Htell. unfold transition_step. fold (s_time s). destruct (by_day_spec (s_time s) Ht) as (-> & _ & _ & _).
  rewrite bind_ret. fold (s_daylight s).
  eapply runs_bind with (P := after_transition s parts).
  { destruct (s_daylight s) eqn:Es; [now apply runs_daylight_transition | now apply runs_standard_transition]. }
  intros [new w'] (parts' & Hev & Hz & Hsp & Hrest). cbn [fst snd] in *. pose proof (tells_evolved _ _ _ Htell Hev) as Htell'.
  destruct new.
  - eapply runs_weaken; [now apply (runs_begin_part fuel s parts')|]. intros w2 (d & Hm & Hw2).
    exists (parts' ++ [d]). split; [assumption | now apply tells_made].
  - apply runs_ret. destruct Hrest as [Hw' (d & Hd & Hc)]. exists parts'. split; [assumption | now apply (tells_covered done parts' s d)].
Qed.

(** ** All transitions *)

Section File.
Context (tzf : tzfile) (fuel : nat) (FUEL : (0 < fuel)%nat).

Definition type_index (i : Z) : Prop := 0 <= i < Z.of_nat (length (types tzf)).
Definition type_at (i : Z) : ttinfo := List.nth (Z.to_nat i) (types tzf) no_ttinfo.

(** The transitions of the loop, from the type [idx] on. *)
Fixpoint steps_from (l : list (Z * Z)) (idx : Z) : list step :=
  match l with
  | [] => []
  | (when_, next) :: l => Step when_ (type_at idx) (type_at next) :: steps_from l next
  end.

Lemma at_index_type i : type_index i -> at_index (types tzf) i = ret (type_at i).
Proof.
  intros [H1 H2]. unfold at_index, type_at. rewrite (proj2 (Z.ltb_ge _ _)) by lia.
  rewrite (nth_error_nth' (types tzf) no_ttinfo) by lia. reflexivity.
Qed.

(** Times and offsets of 32 bits. *)
Context (OFFSETS : Forall (fun t => is_int32 (gmtoff t)) (types tzf)).

Lemma type_offset_range i : type_index i -> is_int32 (gmtoff (type_at i)).
Proof.
  intros [H1 H2]. rewrite Forall_forall in OFFSETS. apply OFFSETS. apply nth_In. lia.
Qed.

Lemma step_floating when_ i n : is_int32 when_ -> type_index i -> floating (s_time (Step when_ (type_at i) n)).
Proof.
  intros Hw Hi. apply type_offset_range in Hi. apply local_time_floating. unfold is_int32, INT_MIN, INT_MAX in *. cbn [s_when s_from]. lia.
Qed.

Lemma runs_transition_loop l : forall prev idx done parts w,
  Forall (fun x => is_int32 (fst x) /\ type_index (snd x)) l -> type_index prev -> type_index idx ->
  walk_ok parts w -> tells done parts ->
  runs (transition_loop fuel tzf l prev idx w) (fun r =>
    type_index (fst (fst r)) /\ type_index (snd (fst r)) /\
    exists parts', walk_ok parts' (snd r) /\ tells (done ++ steps_from l idx) parts').
Proof.
  induction l as [|[when_ next] l IH]; intros prev idx done parts w Hl Hprev Hidx Hw Ht; cbn [transition_loop steps_from].
  - apply runs_ret. split; [assumption|]. split; [assumption|]. exists parts. rewrite app_nil_r. now split.
  - inversion Hl as [|? ? [Hwhen Hnext] Hl']; subst. cbn [fst snd] in *.
    rewrite (at_index_type idx), bind_ret, (at_index_type next), bind_ret by assumption.
    eapply runs_bind; [exact (runs_transition_step fuel (Step when_ (type_at idx) (type_at next)) done parts w (step_floating _ _ _ Hwhen Hidx) FUEL Hw Ht)|].
    intros w' (parts' & Hw' & Ht'). eapply runs_weaken; [apply (IH idx next (done ++ [Step when_ (type_at idx) (type_at next)]) parts' w'); assumption|].
    intros r (H1 & H2 & parts2 & H3 & H4). split; [assumption|]. split; [assumption|]. exists parts2. split; [assumption|].
    rewrite <- app_assoc in H4. exact H4.
Qed.

(** ** The end of the zone *)

(** A part without a rule, for the types of the last transition. *)
Definition closing (from to : ttinfo) (dl : bool) (c : icalcomponent) : Prop :=
  exists a v owner, c = Component a (part_kind dl) None
    [valued (a + 1) ICAL_TZNAME_PROPERTY (new_with ICAL_TEXT_VALUE (V_string (zname to))) (Some a);
     valued (a + 2) ICAL_DTSTART_PROPERTY v (Some a);
     valued (a + 3) ICAL_TZOFFSETFROM_PROPERTY (offset_value (gmtoff from)) (Some a);
     valued (a + 4) ICAL_TZOFFSETTO_PROPERTY (offset_value (gmtoff to)) (Some a)] NoElem [] NoElem owner None true.

Lemma runs_any_time t : runs (new_time_value ICAL_DTSTART_PROPERTY t) any.
Proof.
  unfold new_time_value. change (_ =? _) with false. cbv iota. unfold icalvalue_new_datetimedate, icalvalue_set_datetimedate.
  case_if; [now apply runs_badarg|]. case_if; [now apply runs_badarg|].
  eapply runs_weaken; [apply (runs_reset_kind _ (V_time t)); reflexivity | intros; exact I].
Qed.

Lemma runs_new_part a dl t from to :
  runs (new_part a (part_kind dl) (zname to) t (gmtoff from) (gmtoff to)) (fun c => closing from to dl c /\ co_parent c = None).
Proof.
  unfold new_part, icalcomponent_new, icalcomponent_new_impl, new_utcoffset_property, new_time_property.
  assert (icalcomponent_kind_is_valid (part_kind dl) = true) as -> by (destruct dl; reflexivity).
  rewrite new_property_eq, bind_ret by (apply kind_valid; cbn; tauto).
  eapply runs_bind with (P := fun p => exists v, p = valued (a + 2) ICAL_DTSTART_PROPERTY v None).
  { eapply runs_bind; [apply runs_any_time|]. intros v _. rewrite new_property_eq by (apply kind_valid; cbn; tauto).
    apply runs_ret. now exists v. }
  intros p [v ->]. rewrite !new_property_eq, !bind_ret by (apply kind_valid; cbn; tauto). apply runs_ret. split; [|reflexivity].
  exists a, v, None. reflexivity.
Qed.

Lemma add_closing from to dl c l :
  closing from to dl c -> co_parent c = None ->
  exists c', closing from to dl c' /\ add_part c (zone_component zone_addr zone_properties l) = ret (zone_component zone_addr zone_properties (l ++ [c'])).
Proof.
  intros (a & v & owner & ->) E. cbn in E. subst owner. eexists. split; [|unfold add_part, icalcomponent_add_component; cbn [co_parent]; rewrite bind_ret].
  2:{ destruct dl; reflexivity. }
  now exists a, v, (Some zone_addr).
Qed.

Lemma runs_final_part dl from to tr a others parts tz :
  zone_with zone_addr zone_properties parts others tz -> ForallOrdPairs before_part parts -> track_ok dl tr parts ->
  runs (final_part (part_kind dl) from to tr a tz) (fun r => exists parts' last,
    zone_with zone_addr zone_properties parts' (others ++ last) (snd r) /\ (parts' = parts \/ ended dl parts parts') /\
    Forall (closing from to dl) last).
Proof.
  intros Hz Hord Ht. unfold final_part. destruct (cur_comp tr) eqn:Ec; cbn [andb].
  2:{ apply runs_ret. exists parts, []. rewrite app_nil_r. split; [exact Hz|]. split; [now left | constructor]. }
  destruct (_ <? _). 2:{ apply runs_ret. exists parts, []. rewrite app_nil_r. split; [exact Hz|]. split; [now left | constructor]. }
  destruct (Ht Ec) as (Hpp & d & Hd & Hcur). destruct (prev_prev_time tr) as [pp|]; [|congruence]. cbn [assigned]. rewrite bind_ret.
  pose proof Hcur as (Hk & _ & _ & m & v & w & Er & _). rewrite Er. cbn [assigned]. rewrite bind_ret.
  eapply runs_bind; [exact (set_until_current _ _ _ _ _ _ _ _ (until_time pp (prev_gmtoff tr)) _ Hz Hord Hd Hcur Er)|].
  intros tz' (parts' & -> & (cs & -> & H2) & Hev & _). eapply runs_bind; [apply runs_new_part|]. intros c [Hc Hp].
  destruct (add_closing from to dl c (cs ++ others) Hc Hp) as (c' & Hc' & ->). rewrite bind_ret. apply runs_ret.
  eexists _, [c']. split; [exists cs; rewrite <- app_assoc; split; [reflexivity | exact H2]|].
  split; [right; now constructor | now repeat constructor].
Qed.

End File.
End Zone.

(** ** The whole zone *)

Section Fetch.
Context `{PROPS : PropertyTables} `{PARAMS : ParameterTables} `{FLOAT : FloatOps} `{TZ : TimezoneConv} `{BUILTIN : BuiltinZones} `{NAMES : ZoneNames}.
Context `{HOST : HostSystem} `{LAW : !FloatingLaw TZ}.
Context (KINDS : zone_kinds) (CLOCK : clock_ok).

Definition steps (tzf : tzfile) : list step :=
  match combine (transitions tzf) (trans_idx tzf) with
  | [] => []
  | (_, idx) :: l => steps_from tzf l idx
  end.

(** A file whose transitions name types that there are, all in 32 bits. *)
Record zone_file_ok (tzf : tzfile) : Prop := ZoneFileOk {
  zf_some : transitions tzf <> [];
  zf_same : length (trans_idx tzf) = length (transitions tzf);
  zf_times : Forall is_int32 (transitions tzf);
  zf_types : Forall (type_index tzf) (trans_idx tzf);
  zf_offsets : Forall (fun t => is_int32 (gmtoff t)) (types tzf)
}.

(** The properties of the zone itself. *)
Definition zone_head (a : positive) (prefix location : cstring) : list icalproperty :=
  [valued (a + 1) ICAL_TZID_PROPERTY (new_with ICAL_TEXT_VALUE (V_string (prefix ++ location))) (Some a);
   icalproperty_set_x_name ($"X-LIC-LOCATION")
     (valued (a + 2) ICAL_X_PROPERTY (icalvalue_set_x location (new_with ICAL_X_VALUE V_zero)) (Some a))].

(** A VTIMEZONE that tells all transitions of the file. *)
Definition zone_for (a : positive) (prefix location : cstring) (tzf : tzfile) (tz : icalcomponent) : Prop :=
  co_addr tz = a /\ co_kind tz = ICAL_VTIMEZONE_COMPONENT /\ co_properties tz = zone_head a prefix location /\
  exists parts cs last from to,
    co_components tz = cs ++ last /\ Forall2 (is_part (Some a)) parts cs /\ tells (steps tzf) parts /\
    In from (types tzf) /\ In to (types tzf) /\ Forall (fun c => exists dl, closing from to dl c) last /\
    (steps tzf = [] -> last <> []).

Lemma empty_zone_eq a prefix location :
  empty_zone a prefix location = ret (zone_component a (zone_head a prefix location) []).
Proof.
  unfold empty_zone, icalcomponent_new, icalcomponent_new_impl. change (icalcomponent_kind_is_valid ICAL_VTIMEZONE_COMPONENT) with true.
  cbv iota. rewrite !new_property_eq, !bind_ret by (apply kind_valid; cbn; tauto). reflexivity.
Qed.

Lemma combine_ok tzf : zone_file_ok tzf ->
  exists first idx l, combine (transitions tzf) (trans_idx tzf) = (first, idx) :: l /\ is_int32 first /\ type_index tzf idx /\
    Forall (fun x => is_int32 (fst x) /\ type_index tzf (snd x)) l.
Proof.
  intros [Hs Hsame Ht Hi _]. destruct (transitions tzf) as [|t ts]; [congruence|]. destruct (trans_idx tzf) as [|i js]; [discriminate|].
  inversion Ht as [|? ? H1 H2]; subst. inversion Hi as [|? ? H3 H4]; subst. exists t, i, (combine ts js). split; [reflexivity|].
  split; [assumption|]. split; [assumption|]. apply Forall_forall. intros [x y] Hxy. rewrite Forall_forall in H2, H4. cbn [fst snd].
  split; [apply H2, (in_combine_l ts js x y) | apply H4, (in_combine_r ts js x y)]; assumption.
Qed.

Lemma type_at_in tzf i : type_index tzf i -> In (type_at tzf i) (types tzf).
Proof. intros [H1 H2]. apply nth_In. lia. Qed.

Lemma runs_single_part when_ from to next a ps others :
  runs (single_part when_ from to next (zone_component a ps others))
    (fun tz => exists c dl, closing from to dl c /\ tz = zone_component a ps (others ++ [c])).
Proof.
  unfold single_part. fold (part_kind (negb (isdst to =? 0))). eapply runs_bind; [now apply runs_new_part|]. intros c [Hc Hp].
  destruct (add_closing a ps from to _ c others Hc Hp) as (c' & Hc' & ->). apply runs_ret. eauto.
Qed.

Lemma runs_build_zone fuel a prefix location tzf :
  zone_file_ok tzf -> (0 < fuel)%nat -> runs (build_zone fuel a prefix location tzf) (zone_for a prefix location tzf).
Proof.
  intros Hf Hfuel. unfold build_zone. rewrite empty_zone_eq, bind_ret. destruct (combine_ok tzf Hf) as (first & idx & l & E & _ & Hidx & Hl).
  unfold zone_for, steps. rewrite E. set (ps := zone_head a prefix location).
  assert (walk_ok a ps [] (Walk (zone_component a ps []) (next_part a) no_track no_track)) as Hw.
  { split; [exists []; split; [reflexivity | constructor]|]. split; [split; constructor|]. split; intros H; discriminate H. }
  assert (tells [] []) as Hnone by (split; intros x []).
  assert (type_index tzf 0) as H0 by (unfold type_index in *; lia).
  eapply runs_bind; [exact (runs_transition_loop KINDS CLOCK a ps tzf fuel Hfuel (zf_offsets _ Hf) l 0 idx [] [] _ Hl H0 Hidx Hw Hnone)|].
  intros [[pi ci] w] (Hpi & Hci & parts & (Hz & Hsp & Hd & Hs) & Ht). cbn [fst snd app] in *.
  rewrite (at_index_type tzf fuel Hfuel pi), bind_ret, (at_index_type tzf fuel Hfuel ci), bind_ret by assumption.
  set (from := type_at tzf pi). set (to := type_at tzf ci).
  eapply runs_bind; [exact (runs_final_part KINDS a ps true from to (daylight w) (next_addr w) [] parts _ Hz (proj1 Hsp) Hd)|].
  intros [n1 tz1] (parts1 & last1 & Hz1 & Hp1 & Hl1). cbn [fst snd app] in *.
  assert (ForallOrdPairs before_part parts1 /\ track_ok false (standard w) parts1 /\ tells (steps_from tzf l idx) parts1) as (Ho1 & Hs1 & Ht1).
  { destruct Hp1 as [->|He]; [split; [apply Hsp | now split]|].
    split; [apply (ended_spaced _ _ _ _ He Hsp)|]. split; [apply (ended_other true _ _ _ He (proj1 Hsp) Hs)|].
    apply (tells_evolved _ _ _ Ht), (ended_evolved _ _ _ He). }
  eapply runs_bind; [exact (runs_final_part KINDS a ps false from to (standard w) n1 last1 parts1 _ Hz1 Ho1 Hs1)|].
  intros [n2 tz2] (parts2 & last2 & (cs & -> & H2) & Hp2 & Hl2). cbn [fst snd] in *.
  assert (tells (steps_from tzf l idx) parts2) as Ht2.
  { destruct Hp2 as [->|He]; [assumption|]. apply (tells_evolved _ _ _ Ht1), (ended_evolved _ _ _ He). }
  assert (Forall (fun c => exists dl, closing from to dl c) (last1 ++ last2)) as Hlast.
  { apply Forall_app. split; eapply Forall_impl; try eassumption; cbv beta; eauto. }
  destruct l as [|x l]; cbn [is_empty].
  - eapply runs_weaken; [apply runs_single_part|]. intros tz (c & dl & Hc & ->). split; [reflexivity|]. split; [reflexivity|]. split; [reflexivity|].
    exists parts2, cs, ((last1 ++ last2) ++ [c]), from, to. split; [cbn [co_components zone_component]; rewrite !app_assoc; reflexivity|].
    split; [assumption|]. split; [assumption|]. split; [now apply type_at_in|]. split; [now apply type_at_in|].
    split; [apply Forall_app; split; [assumption | repeat constructor; eauto]|]. intros _ H. now apply app_eq_nil in H.
  - apply runs_ret. split; [reflexivity|]. split; [reflexivity|]. split; [reflexivity|].
    exists parts2, cs, (last1 ++ last2), from, to. split; [reflexivity|]. split; [assumption|]. split; [assumption|].
    split; [now apply type_at_in|]. split; [now apply type_at_in|]. split; [assumption|]. destruct x. discriminate.
Qed.

(** The directory and the prefix in force. *)
Definition zone_path (location : cstring) (s : tzsettings) : cstring := fst (icaltzutil_get_zone_directory s) ++ $"/" ++ location.
Definition prefix_of (s : tzsettings) : cstring := fst (icaltimezone_tzid_prefix (snd (icaltzutil_get_zone_directory s))).

Lemma writable_ok d o : writable d o -> Forall (type_index d) (trans_idx d) -> zone_file_ok d.
Proof.
  intros [_ Hs Hsame Ht _ Hty _ _ _ _ _] Hi. constructor; try assumption. eapply Forall_impl; [|exact Hty]. intros t H. apply H.
Qed.

Lemma step_of_file d s : zone_file_ok d -> In s (steps d) -> floating (s_time s).
Proof.
  intros Hd. destruct (combine_ok d Hd) as (first & idx & l & E & _ & Hidx & Hl). unfold steps. rewrite E. clear E first.
  revert idx Hidx. induction Hl as [|[w n] l [Hw Hn] Hl IH]; intros idx Hidx; cbn [steps_from]; [intros []|].
  intros [<-|Hin]; [|now apply (IH n)]. eapply (step_floating d 1%nat); try assumption; [lia | apply Hd].
Qed.


(** The error of a file that cannot be read: there is none, it cannot be positioned, a read
    fails before the counts are complete, there is no transition, or a negative number of
    them, for which no memory can be had. *)
Definition reported (f : option file) : option icalerrorenum :=
  match f with
  | None => Some ICAL_FILE_ERROR
  | Some f =>
      if negb (f_seekable f) then Some ICAL_FILE_ERROR
      else if Nat.ltb (length (f_bytes f)) 44 then (if f_failing f then Some ICAL_FILE_ERROR else None)
      else match decode (firstn 4 (skipn 32 (f_bytes f))) with
           | Some n => if n =? 0 then Some ICAL_FILE_ERROR else if n <? 0 then Some ICAL_NEWFAILED_ERROR else None
           | None => None
           end
  end.

Lemma decode_some b : length b = 4%nat -> exists z, decode b = Some z /\ is_int32 z.
Proof.
  destruct b as [|b0 [|b1 [|b2 [|b3 [|]]]]]; try discriminate. intros _. eexists. split; [reflexivity | apply to_int32_range].
Qed.

Lemma counts_complete b failing :
  (24 <= length b)%nat ->
  exists cnt n, read_counts (Stream b failing false) = Read (cnt, Stream (skipn 24 b) failing false) /\
    decode (firstn 4 (skipn 12 b)) = Some n /\ is_int32 n /\ timecnt cnt = size_of_int n.
Proof.
  intros Hb. unfold read_counts. 
  replace (Stream b failing false) with (before failing (firstn 24 b ++ skipn 24 b)) by (unfold before; rewrite firstn_skipn; reflexivity).
  rewrite EFREAD1_app by (rewrite length_firstn; lia). cbn [obind determined].
  assert (forall k, (k <= 5)%nat -> exists z, decode (firstn 4 (skipn (4 * k) (firstn 24 b))) = Some z /\ is_int32 z) as Hd.
  { intros k Hk. apply decode_some. rewrite length_firstn, length_skipn, length_firstn. lia. }
  destruct (Hd 0%nat) as (z0 & -> & _); [lia|]. destruct (Hd 1%nat) as (z1 & -> & _); [lia|]. destruct (Hd 2%nat) as (z2 & -> & _); [lia|].
  destruct (Hd 3%nat) as (z3 & E3 & H3); [lia|]. rewrite E3.
  destruct (Hd 4%nat) as (z4 & -> & _); [lia|]. destruct (Hd 5%nat) as (z5 & -> & _); [lia|]. cbn [obind determined].
  eexists _, z3. split; [reflexivity|]. split; [|split; [exact H3 | reflexivity]].
  rewrite skipn_firstn_comm, firstn_firstn in E3. exact E3.
Qed.

Lemma read_reported f e :
  f_seekable f = true -> reported (Some f) = Some e -> read_tzfile (Stream (skipn 20 (f_bytes f)) (f_failing f) false) = Fails e.
Proof.
  intros Hs He. cbn [reported] in He. rewrite Hs in He. cbn [negb] in He. unfold read_tzfile.
  destruct (Nat.ltb_spec (length (f_bytes f)) 44) as [Hlt|Hge].
  - destruct (f_failing f); [|discriminate]. injection He as <-. unfold read_counts, EFREAD1, take_bytes. cbn [fs_rest fs_failing fs_error].
    rewrite length_firstn, length_skipn. rewrite (proj2 (Nat.ltb_lt _ _)) by lia. rewrite (proj2 (Nat.eqb_neq _ _)) by lia. reflexivity.
  - destruct (counts_complete (skipn 20 (f_bytes f)) (f_failing f)) as (cnt & n & -> & En & Hn & Et); [rewrite length_skipn; lia|].
    rewrite skipn_skipn in En. change (12 + 20)%nat with 32%nat in En. rewrite En in He. cbn [obind]. rewrite Et.
    unfold size_of_int, is_int32, INT_MIN, INT_MAX in *. destruct (Z.eqb_spec n 0) as [E0|Hnz].
    + injection He as <-. rewrite E0. reflexivity.
    + destruct (Z.ltb_spec n 0) as [Hneg|]; [|discriminate]. injection He as <-.
      replace (n mod 2 ^ 64) with (n + 2 ^ 64) by (apply (Z.mod_unique n (2 ^ 64) (-1)); lia).
      rewrite (proj2 (Z.eqb_neq _ _)) by lia. unfold alloc at 1. rewrite (proj2 (Z.ltb_ge _ _)) by lia. reflexivity.
Qed.

(** C21: A zone file that is missing or cannot be read is reported: no zone is returned,
    nothing is built, and the error number tells why. *)
Theorem unreadable_zone_is_reported fuel a location s e st :
  use_builtin_tzdata s = false -> reported (fopen (zone_path location s)) = Some e -> nonfatal st e = true ->
  icaltzutil_fetch_timezone fuel a location s st = Some ((None, snd (icaltzutil_get_zone_directory s)), with_errno st e).
Proof.
  intros Hb He Hst. unfold icaltzutil_fetch_timezone, icaltimezone_get_builtin_tzdata. rewrite Hb. unfold zone_path in He.
  destruct (icaltzutil_get_zone_directory s) as [dir s1]. cbn [fst snd] in *.
  assert (forall A, fail (A := A) e s1 st = Some ((None, s1), with_errno st e)) as Hfail.
  { intros A. unfold fail, bind. rewrite set_errno_spec, Hst. reflexivity. }
  destruct (fopen _) as [f|]; [|injection He as <-; apply Hfail].
  destruct (f_seekable f) eqn:Es; [|cbn [reported] in He; rewrite Es in He; injection He as <-; apply Hfail].
  cbn [negb]. rewrite (read_reported f e Es He). apply Hfail.
Qed.
End Fetch.

(** ** Zone files: concrete instances

    The theorems at a zone of the years 2005 to 2008, and what the
    code writes for it: parts that start on a day that is none of the rule, ends of rules
    that are shifted twice, and closing parts with the name and the offset of the other
    kind of time. *)

#[local] Existing Instance text_floats.
#[local] Existing Instance utc_only.
#[local] Instance no_builtins : BuiltinZones := {|
  icaltimezone_get_builtin_timezone_from_tzid _ := None; icaltimezone_get_builtin_timezone _ := None |}.
#[local] Instance no_names : ZoneNames := {| icaltimezone_get_tzid _ := None |}.

(** EST and EDT: 30 October 2005 to 9 March 2008, the rules of the United States
    changed in 2007. *)
Definition eastern : tzfile :=
  TzFile [1130652000; 1143961200; 1162101600; 1173596400; 1194156000; 1205046000] [0; 1; 0; 1; 0; 1]
    [TtInfo (-18000) 0 4 false false ($"EST"); TtInfo (-14400) 1 0 false false ($"EDT")].
Definition plain_layout : layout := Layout ($"TZif2" ++ repeat NUL 15) ($"EDT" ++ [NUL] ++ $"EST" ++ [NUL]) [] 0 0 ($"TZif2").

(** 13 September 2020; one file in the first of the usual directories. *)
#[local] Instance sample_host : HostSystem := {|
  getenv_TZDIR := None;
  access p := streqb p ($"/usr/share/zoneinfo/zone.tab");
  fopen p := if streqb p ($"/usr/share/zoneinfo/America/New_York") then Some (File (tzfile_bytes eastern plain_layout) true false)
             else if streqb p ($"/usr/share/zoneinfo/posix") then Some (File [] true true) else None;
  time_now := 1600000000
|}.

Definition fresh_settings : tzsettings := TzSettings [] [] false.

Lemma sample_kinds : zone_kinds.
Proof. repeat constructor. Qed.

Lemma sample_clock : clock_ok.
Proof. split; vm_compute; [discriminate | reflexivity]. Qed.

Lemma eastern_writable : writable eastern plain_layout.
Proof.
  assert (forall c, In c ($"EDT" ++ $"EST") -> c <> NUL) as Hn.
  { cbn. intros c H E. subst c. repeat destruct H as [H|H]; try discriminate. easy. }
  constructor; try reflexivity; try (cbn; lia); try discriminate.
  - repeat constructor; unfold is_int32, INT_MIN, INT_MAX; lia.
  - repeat constructor; unfold is_byte; lia.
  - repeat constructor; cbn; unfold is_int32, INT_MIN, INT_MAX; try lia; try (apply Hn; cbn; tauto); eexists; reflexivity.
  - repeat constructor.
  - repeat constructor.
  - repeat split.
Qed.


(** A directory is opened but cannot be read. *)
Lemma unreadable_zone_is_reported_witness :
  icaltzutil_fetch_timezone 20 1 ($"posix") fresh_settings sample_state =
  Some ((None, TzSettings ($"/usr/share/zoneinfo") [] false), with_errno sample_state ICAL_FILE_ERROR).
Proof.
  rewrite (unreadable_zone_is_reported 20 1 ($"posix") fresh_settings ICAL_FILE_ERROR sample_state); vm_compute; reflexivity.
Defined.

(** *** What is written *)

Definition crlf : cstring := [chr 13; chr 10].

Definition text_of (tzf : tzfile) : option cstring :=
  match (c <- build_zone 20 1 [] ($"Zone") tzf ;; icalcomponent_as_ical_string_r c) sample_state with
  | Some ((s, _), _) => s
  | None => None
  end.

Definition has_text (tzf : tzfile) (t : cstring) : bool :=
  match text_of tzf with Some s => match strstr s t with Some _ => true | None => false end | None => false end.

(** The change of 2 April 2006 is told to start on the 5th, a Wednesday: the day is the
    first Sunday of April in the year of the clock, 2020. *)
Lemma start_takes_the_day_of_this_year :
  has_text eastern ($"TZNAME:EDT" ++ crlf ++ $"DTSTART:20060405T020000" ++ crlf) = true /\
  icaltime_day_of_week (IcalTime 2006 4 5 2 0 0 0 0 ZONE_NULL) = 4 /\
  date_in 4 9 2006 = 2 /\ date_in 4 9 2020 = 5.
Proof. repeat split; vm_compute; reflexivity. Qed.

(** The last transition is to daylight saving time; the closing STANDARD part has its name
    and its offset. *)
Lemma closing_standard_is_daylight :
  has_text eastern ($"BEGIN:STANDARD" ++ crlf ++ $"TZNAME:EDT" ++ crlf ++ $"DTSTART:20071104T020000" ++ crlf ++
    $"TZOFFSETFROM:-0500" ++ crlf ++ $"TZOFFSETTO:-0400" ++ crlf ++ $"END:STANDARD") = true.
Proof. vm_compute. reflexivity. Qed.

(** The part of November 2007 ends in October 2006: at the transition before, which
    has been moved to UTC twice. *)
Lemma rule_ends_before_it_starts :
  has_text eastern ($"DTSTART:20071101T020000" ++ crlf ++ $"TZOFFSETFROM:-0400" ++ crlf ++ $"TZOFFSETTO:-0500" ++ crlf ++
    $"RRULE:FREQ=YEARLY;UNTIL=20061029T100000Z;BYDAY=1SU;BYMONTH=11") = true.
Proof. vm_compute. reflexivity. Qed.

(** Double summer time in the second of three years, on the same day and from the same
    offset: the offset after the transition is not compared, and the second year gets the
    part of the first. *)
Definition double_summer : tzfile :=
  TzFile [1130652000; 1143961200; 1162101600; 1175410800; 1193547600; 1207465200] [0; 1; 0; 2; 0; 1]
    [TtInfo (-18000) 0 0 false false ($"EST"); TtInfo (-14400) 1 0 false false ($"EDT"); TtInfo (-10800) 1 0 false false ($"EDDT")].

Lemma other_offset_is_lost :
  map (fun s => (s_daylight s, gmtoff (s_to s))) (steps double_summer) =
    [(true, -14400); (false, -18000); (true, -10800); (false, -18000); (true, -14400)] /\
  has_text double_summer ($"TZOFFSETTO:-0400") = true /\ has_text double_summer ($"TZOFFSETTO:-0300") = false.
Proof. repeat split; vm_compute; reflexivity. Qed.
