(* ===== verification/IcalClassify.v ===== *)
(** * Classification of scheduling messages (libicalss/icalclassify.c)

    [icalclassify] tells what an incoming calendar means for the receiver: whether
    it is new, an update, obsolete, a reply and so on, from its METHOD, its
    SEQUENCE and DTSTAMP and the component it matches, by a table of tests that is
    gone through in order.  [icalclassify_find_overlaps] finds the components of a
    set that overlap one in time.

    A set is given by the components its iteration returns. *)
From Stdlib Require Import String Ascii ZArith Lia Bool List.
From S2P Require Import Prelude CString IcalError IcalTime IcalDuration IcalValueText IcalValue IcalLine IcalParameter IcalProperty IcalComponent IcalComponentZones IcalTimezone IcalComponentAccess IcalComponentRecur IcalSpanlist.
Import ListNotations.
#[local] Open Scope Z_scope.
#[local] Open Scope cstring_scope.
#[local] Open Scope err_scope.

Definition ICAL_METHOD_PUBLISH : Z := 10501.
Definition ICAL_METHOD_REQUEST : Z := 10502.
Definition ICAL_METHOD_REPLY : Z := 10503.
Definition ICAL_METHOD_ADD : Z := 10504.
Definition ICAL_METHOD_CANCEL : Z := 10505.
Definition ICAL_METHOD_REFRESH : Z := 10506.
Definition ICAL_METHOD_COUNTER : Z := 10507.
Definition ICAL_METHOD_DECLINECOUNTER : Z := 10508.
Definition ICAL_PARTSTAT_X : Z := 20600.
Definition ICAL_PARTSTAT_ACCEPTED : Z := 20602.
Definition ICAL_PARTSTAT_DECLINED : Z := 20603.
Definition ICAL_PARTSTAT_DELEGATED : Z := 20605.
Definition ICAL_PARTSTAT_NONE : Z := 20699.
Definition ICAL_DELEGATEDFROM_PARAMETER : icalparameter_kind := 6.

Inductive icalproperty_xlicclass :=
| ICAL_XLICCLASS_PUBLISHNEW | ICAL_XLICCLASS_PUBLISHUPDATE | ICAL_XLICCLASS_PUBLISHFREEBUSY | ICAL_XLICCLASS_REQUESTNEW
| ICAL_XLICCLASS_REQUESTUPDATE | ICAL_XLICCLASS_REQUESTRESCHEDULE | ICAL_XLICCLASS_REQUESTDELEGATE
| ICAL_XLICCLASS_REQUESTNEWORGANIZER | ICAL_XLICCLASS_REQUESTFORWARD | ICAL_XLICCLASS_REQUESTSTATUS
| ICAL_XLICCLASS_REQUESTFREEBUSY | ICAL_XLICCLASS_REPLYACCEPT | ICAL_XLICCLASS_REPLYDECLINE | ICAL_XLICCLASS_REPLYDELEGATE
| ICAL_XLICCLASS_REPLYCRASHERACCEPT | ICAL_XLICCLASS_REPLYCRASHERDECLINE | ICAL_XLICCLASS_ADDINSTANCE
| ICAL_XLICCLASS_CANCELEVENT | ICAL_XLICCLASS_CANCELINSTANCE | ICAL_XLICCLASS_CANCELALL | ICAL_XLICCLASS_REFRESH
| ICAL_XLICCLASS_COUNTER | ICAL_XLICCLASS_DECLINECOUNTER | ICAL_XLICCLASS_MALFORMED | ICAL_XLICCLASS_OBSOLETE
| ICAL_XLICCLASS_MISSEQUENCED | ICAL_XLICCLASS_UNKNOWN | ICAL_XLICCLASS_NONE.

Definition icalclassify_lowercase (str : option cstring) : option cstring := option_map (map tolower) str.

(** The text behind the first colon. *)
Fixpoint after_colon (s : cstring) : option cstring :=
  match s with
  | [] => None
  | c :: r => if Ascii.eqb c ":" then Some r else after_colon r
  end.

Section Classify.
Context `{PROPS : PropertyTables} `{PARAMS : ParameterTables} `{FLOAT : FloatOps} `{TZ : TimezoneConv} `{BUILTIN : BuiltinZones}.

Record icalclassify_parts := Parts {
  pt_c : option icalcomponent;
  pt_inner_kind : icalcomponent_kind;
  pt_method : Z;
  pt_organizer : option cstring;
  pt_reply_partstat : Z;
  pt_reply_attendee : option cstring;
  pt_uid : option cstring;
  pt_sequence : Z;
  pt_dtstamp : icaltimetype;
  pt_recurrence_id : icaltimetype
}.

(** [icalcomponent_get_first_real_component], also of a null pointer. *)
Definition real_component (c : option icalcomponent) : err (option icalcomponent) :=
  match c with Some c => ret (fst (icalcomponent_get_first_real_component c)) | None => badarg None end.

(** ** Overlaps *)

(** The span of a component, unless there was an error. *)
Definition span_without_error (c : icalcomponent) : err (option icaltime_span) :=
  icalerror_clear_errno ;;;
  span <- icalcomponent_get_span c [] ;;
  e <- get_icalerrno ;;
  ret (match e with ICAL_NO_ERROR => Some span | _ => None end).

Definition spans_meet (a b : icaltime_span) : bool := (span_start a <? span_end b) && (span_start b <? span_end a).

(** The components that are copied into the set that is returned. *)
Fixpoint overlapping_components (set : list icalcomponent) (compspan : icaltime_span) : err (list icalcomponent) :=
  match set with
  | [] => ret []
  | c :: rest =>
      span <- span_without_error c ;;
      more <- overlapping_components rest compspan ;;
      ret (match span with Some s => if spans_meet compspan s then c :: more else more | None => more end)
  end.

Definition icalclassify_find_overlaps (set : list icalcomponent) (comp : icalcomponent) : err (option (list icalcomponent)) :=
  compspan <- span_without_error comp ;;
  match compspan with
  | None => ret None
  | Some compspan =>
      found <- overlapping_components set compspan ;;
      ret (match found with [] => None | _ => Some found end)
  end.

(** ** Parts *)

Fixpoint attendee_named (ps : list icalproperty) (upn : cstring) : err (option icalproperty) :=
  match ps with
  | [] => ret None
  | p :: rest =>
      this_attendee <- icalvalue_get_text (pr_value p) ;;
      match icalclassify_lowercase this_attendee with
      | None => attendee_named rest upn
      | Some a =>
          match after_colon a with
          | None => attendee_named rest upn
          | Some this_upn => if strcmp this_upn upn =? 0 then ret (Some p) else attendee_named rest upn
          end
      end
  end.

Definition properties_of_option (kind : icalproperty_kind) (c : option icalcomponent) : err (list icalproperty) :=
  match c with Some c => ret (properties_of kind c) | None => badarg [] end.

Definition icalclassify_find_attendee (c : option icalcomponent) (attendee : option cstring) : err (option icalproperty) :=
  match icalclassify_lowercase attendee with
  | None => ret None
  | Some lattendee =>
      let upn := match after_colon lattendee with Some u => u | None => lattendee end in
      inner <- real_component c ;;
      ps <- properties_of_option ICAL_ATTENDEE_PROPERTY inner ;;
      attendee_named ps upn
  end.

(** The value of the first property of a kind, if there is one. *)
Definition part {A} (kind : icalproperty_kind) (c : option icalcomponent) (get : option icalvalue -> err A) (absent : A) : err A :=
  p <- first_of kind c ;;
  match p with Some p => get (pr_value p) | None => ret absent end.

(** The generated accessor. *)
Definition icalparameter_get_partstat (q : icalparameter) : err Z :=
  icalerror_clear_errno ;;; ret (match pa_string q with Some _ => ICAL_PARTSTAT_X | None => pa_data q end).

Definition icalssutil_get_parts (c : option icalcomponent) : err icalclassify_parts :=
  match c with
  | None => ret (Parts None ICAL_NO_COMPONENT ICAL_METHOD_NONE None ICAL_PARTSTAT_NONE None None 0 icaltime_null_time icaltime_null_time)
  | Some c =>
      method <- part ICAL_METHOD_PROPERTY (Some c) (get_enum ICAL_METHOD_NONE) ICAL_METHOD_NONE ;;
      inner <- real_component (Some c) ;;
      kind <- (match inner with Some i => ret (co_kind i) | None => badarg ICAL_NO_COMPONENT end) ;;
      organizer <- part ICAL_ORGANIZER_PROPERTY inner icalvalue_get_text None ;;
      sequence <- part ICAL_SEQUENCE_PROPERTY inner icalvalue_get_utcoffset 0 ;;
      uid <- part ICAL_UID_PROPERTY inner icalvalue_get_text None ;;
      recurrence_id <- part ICAL_RECURRENCEID_PROPERTY inner get_datetimedate icaltime_null_time ;;
      dtstamp <- part ICAL_DTSTAMP_PROPERTY inner get_datetimedate icaltime_null_time ;;
      reply <- (if method =? ICAL_METHOD_REPLY then
                  p <- first_of ICAL_ATTENDEE_PROPERTY inner ;;
                  match p with
                  | None => ret (ICAL_PARTSTAT_NONE, None)
                  | Some p =>
                      partstat <- (match fst (icalproperty_get_first_parameter ICAL_PARTSTAT_PARAMETER p) with
                                   | Some q => icalparameter_get_partstat q
                                   | None => ret ICAL_PARTSTAT_NONE
                                   end) ;;
                      attendee <- icalvalue_get_text (pr_value p) ;;
                      ret (partstat, attendee)
                  end
                else ret (ICAL_PARTSTAT_NONE, None)) ;;
      ret (Parts (Some c) kind method organizer (fst reply) (snd reply) uid sequence dtstamp recurrence_id)
  end.

(** ** Rescheduling *)

Definition time_kinds : list icalproperty_kind :=
  [ICAL_DTSTART_PROPERTY; ICAL_DTEND_PROPERTY; ICAL_DURATION_PROPERTY; ICAL_DUE_PROPERTY; ICAL_RRULE_PROPERTY; ICAL_RDATE_PROPERTY;
   ICAL_EXRULE_PROPERTY; ICAL_EXDATE_PROPERTY].

(** A property that has no text is a null pointer for [strcmp]. *)
Fixpoint changed_kind (kinds : list icalproperty_kind) (i1 i2 : option icalcomponent) : err bool :=
  match kinds with
  | [] => ret false
  | k :: rest =>
      p1 <- first_of k i1 ;;
      p2 <- first_of k i2 ;;
      match p1, p2 with
      | None, None => changed_kind rest i1 i2
      | Some p1, Some p2 =>
          s <- icalproperty_as_ical_string_r p1 ;;
          t <- icalproperty_as_ical_string_r p2 ;;
          match fst s, fst t with
          | Some s, Some t => if strcmp s t =? 0 then changed_kind rest i1 i2 else ret true
          | _, _ => undefined
          end
      | _, _ => ret true
      end
  end.

Definition icalssutil_is_rescheduled (a b : option icalcomponent) : err bool :=
  i1 <- real_component a ;; i2 <- real_component b ;; changed_kind time_kinds i1 i2.

(** ** The tests of the table *)

(** The parts of the match are given by a pointer. *)
Definition test := icalclassify_parts -> option icalclassify_parts -> option cstring -> err bool.

(** Reading through the pointer. *)
Definition with_match {A} (match_ : option icalclassify_parts) (k : icalclassify_parts -> err A) : err A :=
  match match_ with Some m => k m | None => undefined end.
Definition is_null {A} (o : option A) : bool := match o with None => true | Some _ => false end.

Definition icalclassify_publish_new : test := fun comp match_ user =>
  ret ((pt_method comp =? ICAL_METHOD_PUBLISH) && is_null match_ && negb (ckind_eqb (pt_inner_kind comp) ICAL_VFREEBUSY_COMPONENT)).
Definition icalclassify_publish_update : test := fun comp match_ user =>
  ret ((pt_method comp =? ICAL_METHOD_PUBLISH) && negb (is_null match_) && negb (ckind_eqb (pt_inner_kind comp) ICAL_VFREEBUSY_COMPONENT)).
Definition icalclassify_publish_freebusy : test := fun comp match_ user =>
  ret ((pt_method comp =? ICAL_METHOD_PUBLISH) && ckind_eqb (pt_inner_kind comp) ICAL_VFREEBUSY_COMPONENT).
Definition icalclassify_request_new : test := fun comp match_ user =>
  with_match match_ (fun m => ret (is_null (pt_c m) && (pt_method comp =? ICAL_METHOD_REQUEST))).
Definition icalclassify_request_update : test := fun comp match_ user =>
  match match_ with
  | None => ret false
  | Some m =>
      if pt_sequence m <=? pt_sequence comp
      then r <- icalssutil_is_rescheduled (pt_c comp) (pt_c m) ;; ret (negb r) else ret false
  end.
Definition icalclassify_request_reschedule : test := fun comp match_ user =>
  with_match match_ (fun m =>
    if negb (is_null (pt_c m)) && (pt_sequence m <? pt_sequence comp)
    then icalssutil_is_rescheduled (pt_c comp) (pt_c m) else ret false).
Definition icalclassify_request_delegate : test := fun comp match_ user =>
  attendee <- icalclassify_find_attendee (pt_c comp) user ;;
  ret (match attendee with
       | None => false
       | Some p => negb (is_null (fst (icalproperty_get_first_parameter ICAL_DELEGATEDFROM_PARAMETER p)))
       end).
(** The four tests that the code leaves out. *)
Definition unimplemented : test := fun comp match_ user => icalerror_set_errno ICAL_UNIMPLEMENTED_ERROR ;;; ret false.
Definition icalclassify_request_new_organizer : test := unimplemented.
Definition icalclassify_request_status : test := unimplemented.
Definition icalclassify_request_forward : test := unimplemented.
Definition icalclassify_request_freebusy : test := unimplemented.

(** The attendee of a reply is, or is not, one of the match. *)
Definition reply_test (known : bool) (partstat : Z) : test := fun comp match_ user =>
  with_match match_ (fun m =>
    attendee <- icalclassify_find_attendee (pt_c m) (pt_reply_attendee comp) ;;
    ret (Bool.eqb known (negb (is_null attendee)) && (pt_reply_partstat comp =? partstat))).
Definition icalclassify_reply_accept : test := reply_test true ICAL_PARTSTAT_ACCEPTED.
Definition icalclassify_reply_decline : test := reply_test true ICAL_PARTSTAT_DECLINED.
Definition icalclassify_reply_delegate : test := reply_test true ICAL_PARTSTAT_DELEGATED.
Definition icalclassify_reply_crasher_accept : test := reply_test false ICAL_PARTSTAT_ACCEPTED.
Definition icalclassify_reply_crasher_decline : test := reply_test false ICAL_PARTSTAT_DECLINED.

Definition method_test (m : Z) : test := fun comp match_ user => ret (pt_method comp =? m).
Definition icalclassify_add_instance : test := method_test ICAL_METHOD_ADD.
Definition icalclassify_cancel_event : test := method_test ICAL_METHOD_CANCEL.
Definition icalclassify_cancel_instance : test := method_test ICAL_METHOD_CANCEL.
Definition icalclassify_cancel_all : test := method_test ICAL_METHOD_CANCEL.
Definition icalclassify_refesh : test := method_test ICAL_METHOD_REFRESH.
Definition icalclassify_counter : test := method_test ICAL_METHOD_COUNTER.
Definition icalclassify_delinecounter : test := method_test ICAL_METHOD_DECLINECOUNTER.

Definition icalclassify_map : list (Z * test * icalproperty_xlicclass) :=
  [(ICAL_METHOD_PUBLISH, icalclassify_publish_new, ICAL_XLICCLASS_PUBLISHNEW);
   (ICAL_METHOD_PUBLISH, icalclassify_publish_update, ICAL_XLICCLASS_PUBLISHUPDATE);
   (ICAL_METHOD_PUBLISH, icalclassify_publish_freebusy, ICAL_XLICCLASS_PUBLISHFREEBUSY);
   (ICAL_METHOD_REQUEST, icalclassify_request_delegate, ICAL_XLICCLASS_REQUESTDELEGATE);
   (ICAL_METHOD_REQUEST, icalclassify_request_new, ICAL_XLICCLASS_REQUESTNEW);
   (ICAL_METHOD_REQUEST, icalclassify_request_update, ICAL_XLICCLASS_REQUESTUPDATE);
   (ICAL_METHOD_REQUEST, icalclassify_request_reschedule, ICAL_XLICCLASS_REQUESTRESCHEDULE);
   (ICAL_METHOD_REQUEST, icalclassify_request_new_organizer, ICAL_XLICCLASS_REQUESTNEWORGANIZER);
   (ICAL_METHOD_REQUEST, icalclassify_request_forward, ICAL_XLICCLASS_REQUESTFORWARD);
   (ICAL_METHOD_REQUEST, icalclassify_request_status, ICAL_XLICCLASS_REQUESTSTATUS);
   (ICAL_METHOD_REQUEST, icalclassify_request_freebusy, ICAL_XLICCLASS_REQUESTFREEBUSY);
   (ICAL_METHOD_REPLY, icalclassify_reply_accept, ICAL_XLICCLASS_REPLYACCEPT);
   (ICAL_METHOD_REPLY, icalclassify_reply_decline, ICAL_XLICCLASS_REPLYDECLINE);
   (ICAL_METHOD_REPLY, icalclassify_reply_delegate, ICAL_XLICCLASS_REPLYDELEGATE);
   (ICAL_METHOD_REPLY, icalclassify_reply_crasher_accept, ICAL_XLICCLASS_REPLYCRASHERACCEPT);
   (ICAL_METHOD_REPLY, icalclassify_reply_crasher_decline, ICAL_XLICCLASS_REPLYCRASHERDECLINE);
   (ICAL_METHOD_ADD, icalclassify_add_instance, ICAL_XLICCLASS_ADDINSTANCE);
   (ICAL_METHOD_CANCEL, icalclassify_cancel_event, ICAL_XLICCLASS_CANCELEVENT);
   (ICAL_METHOD_CANCEL, icalclassify_cancel_instance, ICAL_XLICCLASS_CANCELINSTANCE);
   (ICAL_METHOD_CANCEL, icalclassify_cancel_all, ICAL_XLICCLASS_CANCELALL);
   (ICAL_METHOD_REFRESH, icalclassify_refesh, ICAL_XLICCLASS_REFRESH);
   (ICAL_METHOD_COUNTER, icalclassify_counter, ICAL_XLICCLASS_COUNTER);
   (ICAL_METHOD_DECLINECOUNTER, icalclassify_delinecounter, ICAL_XLICCLASS_DECLINECOUNTER)].

Fixpoint classify_loop (rows : list (Z * test * icalproperty_xlicclass)) (method : Z) (comp : icalclassify_parts) (match_ : option icalclassify_parts)
  (user : option cstring) : err icalproperty_xlicclass :=
  match rows with
  | [] => ret ICAL_XLICCLASS_UNKNOWN
  | (m, fn, class) :: rest =>
      if m =? method then
        r <- fn comp match_ user ;;
        if (r : bool) then ret class else classify_loop rest method comp match_ user
      else classify_loop rest method comp match_ user
  end.

(** The class of a component that the match makes out of date.  A failed [assert] ends the process. *)
Definition obsoleted (comp match_ : icalclassify_parts) : err (option icalproperty_xlicclass) :=
  if xorb (icaltime_is_utc (pt_dtstamp comp)) (icaltime_is_utc (pt_dtstamp match_)) then undefined
  else
    let later := icaltime_compare (pt_dtstamp comp) (pt_dtstamp match_) in
    ret (if (pt_sequence comp <? pt_sequence match_) && (0 <? later) then Some ICAL_XLICCLASS_MISSEQUENCED
         else if (pt_sequence comp <? pt_sequence match_) || ((pt_sequence comp =? pt_sequence match_) && (later <=? 0))
         then Some ICAL_XLICCLASS_OBSOLETE else None).

(** Only a request that matches something can be obsolete. *)
Definition obsolete_request (match_ : option icalcomponent) (comp_parts match_parts : icalclassify_parts) : err (option icalproperty_xlicclass) :=
  match match_ with
  | Some _ => if pt_method comp_parts =? ICAL_METHOD_REQUEST then obsoleted comp_parts match_parts else ret None
  | None => ret None
  end.

Definition icalclassify (c : icalcomponent) (match_ : option icalcomponent) (user : option cstring) : err icalproperty_xlicclass :=
  inner <- real_component (Some c) ;;
  match inner with
  | None => ret ICAL_XLICCLASS_NONE
  | Some _ =>
      comp_parts <- icalssutil_get_parts (Some c) ;;
      match_parts <- icalssutil_get_parts match_ ;;
      early <- obsolete_request match_ comp_parts match_parts ;;
      match early with
      | Some class => ret class
      | None =>
          match first_property ICAL_METHOD_PROPERTY c with
          | None => ret ICAL_XLICCLASS_UNKNOWN
          | Some p => method <- get_enum ICAL_METHOD_NONE (pr_value p) ;; classify_loop icalclassify_map method comp_parts (Some match_parts) user
          end
      end
  end.

(** ** What a class means *)

(** Later in the order of SEQUENCE and DTSTAMP. *)
Definition newer (comp match_ : icalclassify_parts) : Prop :=
  pt_sequence match_ < pt_sequence comp \/
  (pt_sequence match_ = pt_sequence comp /\ 0 < icaltime_compare (pt_dtstamp comp) (pt_dtstamp match_)).

(** What the class tells about a message and the one it matches; a class without a line is never given. *)
Definition class_means (class : icalproperty_xlicclass) (comp match_ : icalclassify_parts) : Prop :=
  let matched := pt_c match_ <> None in
  let request := pt_method comp = ICAL_METHOD_REQUEST in
  match class with
  | ICAL_XLICCLASS_PUBLISHUPDATE => pt_method comp = ICAL_METHOD_PUBLISH /\ pt_inner_kind comp <> ICAL_VFREEBUSY_COMPONENT
  | ICAL_XLICCLASS_PUBLISHFREEBUSY => pt_method comp = ICAL_METHOD_PUBLISH /\ pt_inner_kind comp = ICAL_VFREEBUSY_COMPONENT
  | ICAL_XLICCLASS_REQUESTNEW => request /\ ~ matched
  | ICAL_XLICCLASS_REQUESTUPDATE => request /\ matched /\ newer comp match_
  | ICAL_XLICCLASS_REQUESTRESCHEDULE => request /\ matched /\ pt_sequence match_ < pt_sequence comp
  | ICAL_XLICCLASS_REQUESTDELEGATE => request /\ (matched -> newer comp match_)
  | ICAL_XLICCLASS_REPLYACCEPT | ICAL_XLICCLASS_REPLYCRASHERACCEPT => pt_reply_partstat comp = ICAL_PARTSTAT_ACCEPTED
  | ICAL_XLICCLASS_REPLYDECLINE | ICAL_XLICCLASS_REPLYCRASHERDECLINE => pt_reply_partstat comp = ICAL_PARTSTAT_DECLINED
  | ICAL_XLICCLASS_REPLYDELEGATE => pt_reply_partstat comp = ICAL_PARTSTAT_DELEGATED
  | ICAL_XLICCLASS_ADDINSTANCE => pt_method comp = ICAL_METHOD_ADD
  | ICAL_XLICCLASS_CANCELEVENT => pt_method comp = ICAL_METHOD_CANCEL
  | ICAL_XLICCLASS_REFRESH => pt_method comp = ICAL_METHOD_REFRESH
  | ICAL_XLICCLASS_COUNTER => pt_method comp = ICAL_METHOD_COUNTER
  | ICAL_XLICCLASS_DECLINECOUNTER => pt_method comp = ICAL_METHOD_DECLINECOUNTER
  | ICAL_XLICCLASS_OBSOLETE | ICAL_XLICCLASS_MISSEQUENCED => request /\ matched /\ ~ newer comp match_
  | ICAL_XLICCLASS_UNKNOWN => True
  | _ => False
  end.
End Classify.
