(* ===== verification/IcalClassifyCorrect.v ===== *)
(** * Classification of scheduling messages: theorems and instances *)
From Stdlib Require Import String Ascii ZArith Lia Bool List.
From S2P Require Import Prelude CString IcalError IcalTime IcalTimeCalendar IcalDuration IcalValueText IcalValue IcalValueSafe IcalLine IcalParameter IcalProperty IcalComponent IcalParser IcalDesignData IcalParserExamples IcalComponentZones IcalTimezone IcalComponentAccess IcalComponentRecur IcalComponentSpans IcalComponentExamples IcalClassify.
Import ListNotations.
#[local] Open Scope Z_scope.
#[local] Open Scope err_scope.

Section Correct.
Context `{PROPS : PropertyTables} `{PARAMS : ParameterTables} `{FLOAT : FloatOps} `{TZ : TimezoneConv} `{BUILTIN : BuiltinZones}.

(** The row that decides: its test succeeds and those before it, for the same method, fail. *)
Lemma classify_loop_row method comp m user : forall rows st class st',
  classify_loop rows method comp m user st = Some (class, st') ->
  class = ICAL_XLICCLASS_UNKNOWN \/
  exists k fn, nth_error rows k = Some (method, fn, class) /\ yields (fn comp m user) true /\
    forall j fn' class', (j < k)%nat -> nth_error rows j = Some (method, fn', class') -> yields (fn' comp m user) false.
Proof.
  induction rows as [|[[m0 fn] cl] rows IH]; intros st class st' E; cbn [classify_loop] in E; [left; now injection E as <- _|].
  assert (forall (Hfail : m0 = method -> yields (fn comp m user) false), (exists s, classify_loop rows method comp m user s = Some (class, st')) ->
    class = ICAL_XLICCLASS_UNKNOWN \/ exists k fn0, nth_error ((m0, fn, cl) :: rows) k = Some (method, fn0, class) /\ yields (fn0 comp m user) true /\
    forall j fn' class', (j < k)%nat -> nth_error ((m0, fn, cl) :: rows) j = Some (method, fn', class') -> yields (fn' comp m user) false) as Hrest.
  { intros Hf (s & Es). destruct (IH s class st' Es) as [->|(k & fn0 & Hk & Hy & Hb)]; [now left|]. right. exists (S k), fn0. split; [exact Hk|].
    split; [exact Hy|]. intros [|j] fn' class' Hj Hn; [|apply (Hb j fn' class'); [lia | exact Hn]]. cbn in Hn. injection Hn as -> -> _. now apply Hf. }
  destruct (Z.eqb_spec m0 method) as [->|Hne]; [|apply Hrest; [now intros | eauto]].
  unfold bind in E. destruct (fn comp m user st) as [[[] s1]|] eqn:Ef; [| |discriminate].
  - injection E as <- <-. right. exists 0%nat, fn. split; [reflexivity|]. split; [now exists st, s1|]. intros j fn' class' Hj. lia.
  - apply Hrest; [intros _; now exists st, s1 | eauto].
Qed.

Lemma get_enum_same none v st1 a s1 st2 b s2 : get_enum none v st1 = Some (a, s1) -> get_enum none v st2 = Some (b, s2) -> a = b.
Proof.
  unfold get_enum. destruct v as [v|].
  - unfold data_enum. destruct (v_data v); try discriminate; intros [= <- _] [= <- _]; reflexivity.
  - unfold badarg, bind. destruct (icalerror_set_errno _ st1) as [[? ?]|]; [|discriminate]. intros [= <- _].
    destruct (icalerror_set_errno _ st2) as [[? ?]|]; [|discriminate]. now intros [= <- _].
Qed.

(** The parts keep the component, and its METHOD. *)
Lemma parts_of c st p st' : icalssutil_get_parts (Some c) st = Some (p, st') ->
  pt_c p = Some c /\ match first_property ICAL_METHOD_PROPERTY c with
                     | Some q => yields (get_enum ICAL_METHOD_NONE (pr_value q)) (pt_method p)
                     | None => pt_method p = ICAL_METHOD_NONE
                     end.
Proof.
  unfold icalssutil_get_parts. unfold bind at 1. destruct (part ICAL_METHOD_PROPERTY _ _ _ st) as [[method s1]|] eqn:Em; [|discriminate].
  intros E. assert (pt_c p = Some c /\ pt_method p = method) as [-> ->].
  { refine ((_ : post _ (fun p => pt_c p = Some c /\ pt_method p = method)) _ _ _ E). repeat (apply post_any; intros ?). apply post_ret. now split. }
  split; [reflexivity|]. unfold part, first_of, bind in Em. cbn in Em. destruct (first_property ICAL_METHOD_PROPERTY c) as [q|].
  - now exists st, s1.
  - now injection Em as <- _.
Qed.

Lemma no_parts st p st' : icalssutil_get_parts None st = Some (p, st') -> pt_c p = None.
Proof. now intros [= <- _]. Qed.

Lemma yields_ret {A} (x y : A) : yields (ret x) y -> x = y.
Proof. intros (st & st' & E). now injection E. Qed.

(** A test that ends in a pure condition. *)
Lemma yields_bind_ret {A B} (m : err A) (f : A -> B) y : yields (bind m (fun x => ret (f x))) y -> exists x, yields m x /\ f x = y.
Proof.
  intros (st & st' & E). unfold bind in E. destruct (m st) as [[x s]|] eqn:Em; [|discriminate]. injection E as E _. exists x. split; [now exists st, s | exact E].
Qed.

Lemma obsoleted_none comp m : yields (obsoleted comp m) None -> newer comp m.
Proof.
  unfold obsoleted, newer. destruct (xorb _ _); [intros (st & st' & E); discriminate|]. intros H%yields_ret.
  destruct (Z.ltb_spec (pt_sequence comp) (pt_sequence m)); cbn [andb orb] in H; [destruct (0 <? _); discriminate|].
  destruct (Z.eqb_spec (pt_sequence comp) (pt_sequence m)); cbn [andb] in H; [|lia].
  destruct (Z.leb_spec (icaltime_compare (pt_dtstamp comp) (pt_dtstamp m)) 0); [discriminate | lia].
Qed.

Lemma obsoleted_some comp m class : yields (obsoleted comp m) (Some class) ->
  ~ newer comp m /\ (class = ICAL_XLICCLASS_OBSOLETE \/ class = ICAL_XLICCLASS_MISSEQUENCED).
Proof.
  unfold obsoleted, newer. destruct (xorb _ _); [intros (st & st' & E); discriminate|]. intros H%yields_ret.
  destruct (Z.ltb_spec (pt_sequence comp) (pt_sequence m)); cbn [andb orb] in H.
  - split; [lia|]. destruct (0 <? _); injection H as <-; auto.
  - destruct (Z.eqb_spec (pt_sequence comp) (pt_sequence m)); cbn [andb] in H; [|discriminate].
    destruct (Z.leb_spec (icaltime_compare (pt_dtstamp comp) (pt_dtstamp m)) 0); [injection H as <-; split; [lia | auto] | discriminate].
Qed.

Lemma reply_partstat known partstat comp m user : yields (reply_test known partstat comp (Some m) user) true -> pt_reply_partstat comp = partstat.
Proof. intros (x & _ & H)%yields_bind_ret. apply andb_prop in H as [_ H]. lia. Qed.

Lemma not_implemented comp m user : ~ yields (unimplemented comp m user) true.
Proof. intros (x & _ & H)%yields_bind_ret. discriminate. Qed.

(** What the table decides. *)
Lemma table_means method comp m user st class st' :
  pt_method comp = method -> (pt_method comp = ICAL_METHOD_REQUEST -> pt_c m <> None -> newer comp m) ->
  classify_loop icalclassify_map method comp (Some m) user st = Some (class, st') -> class_means class comp m.
Proof.
  intros Hm Hnew E. apply classify_loop_row in E as [->|(k & fn & Hk & Hy & Hb)]; [exact I|].
  assert (method = ICAL_METHOD_REQUEST -> (4 < k)%nat -> pt_c m <> None) as Hmatched.
  { intros Er H4. rewrite Er in *. specialize (Hb 4%nat icalclassify_request_new ICAL_XLICCLASS_REQUESTNEW H4 eq_refl). apply yields_ret in Hb.
    rewrite Hm in Hb. destruct (pt_c m); [discriminate | cbn in Hb; discriminate]. }
  destruct k as [|[|[|[|[|[|[|[|[|[|[|[|[|[|[|[|[|[|[|[|[|[|[|k]]]]]]]]]]]]]]]]]]]]]]]; [..|now destruct k];
    injection Hk as <- <- <-; cbn [class_means];
    try exact Hm; try exact (reply_partstat _ _ comp m user Hy); try exact (not_implemented comp (Some m) user Hy).
  - apply yields_ret in Hy. rewrite andb_false_r in Hy. discriminate.
  - apply yields_ret in Hy. apply andb_prop in Hy as [_ Hy]. split; [exact Hm|]. intros Ek. now rewrite Ek in Hy.
  - apply yields_ret in Hy. apply andb_prop in Hy as [_ Hy]. split; [exact Hm|]. unfold ckind_eqb in Hy. now destruct (component_kind_dec _ _).
  - split; [exact Hm | now apply Hnew].
  - apply yields_ret in Hy. apply andb_prop in Hy as [Hy _]. split; [exact Hm|]. destruct (pt_c m); [discriminate | auto].
  - assert (pt_c m <> None) by (apply Hmatched; [reflexivity | lia]). auto.
  - assert (pt_c m <> None) by (apply Hmatched; [reflexivity | lia]). split; [exact Hm|]. split; [assumption|].
    unfold icalclassify_request_reschedule, with_match in Hy. destruct (Z.ltb_spec (pt_sequence m) (pt_sequence comp)); [assumption|].
    rewrite andb_false_r in Hy. now apply yields_ret in Hy.
  - specialize (Hb 17%nat icalclassify_cancel_event ICAL_XLICCLASS_CANCELEVENT ltac:(lia) eq_refl). apply yields_ret in Hb.
    rewrite Hm in Hb. discriminate.
  - specialize (Hb 17%nat icalclassify_cancel_event ICAL_XLICCLASS_CANCELEVENT ltac:(lia) eq_refl). apply yields_ret in Hb.
    rewrite Hm in Hb. discriminate.
Qed.

(** C28: what the class of a message tells is so: a request is new only when it
    matches nothing, an update, a delegation or a rescheduling only when it is
    newer than what it matches by SEQUENCE and DTSTAMP, and obsolete or
    missequenced only when it is not; replies have the answer that the class says.
    The classes for new publications, for cancelling an instance or all of them and for
    the four kinds of requests that are not implemented are never given. *)
Theorem classify_means c m user st class st' :
  icalclassify c m user st = Some (class, st') ->
  class = ICAL_XLICCLASS_NONE /\ fst (icalcomponent_get_first_real_component c) = None \/
  exists comp_parts match_parts, yields (icalssutil_get_parts (Some c)) comp_parts /\ yields (icalssutil_get_parts m) match_parts /\
    class_means class comp_parts match_parts.
Proof.
  unfold icalclassify, real_component. intros E. unfold bind in E at 1. cbn [ret] in E.
  destruct (fst (icalcomponent_get_first_real_component c)); [right | left; now injection E as <- _].
  unfold bind in E at 1. destruct (icalssutil_get_parts (Some c) st) as [[cp s1]|] eqn:Ec; [|discriminate].
  unfold bind in E at 1. destruct (icalssutil_get_parts m s1) as [[mp s2]|] eqn:Emp; [|discriminate].
  exists cp, mp. split; [now exists st, s1|]. split; [now exists s1, s2|]. destruct (parts_of c st cp s1 Ec) as [Hc Hmeth].
  unfold bind in E at 1. destruct (obsolete_request m cp mp s2) as [[early s3]|] eqn:Ee; [|discriminate].
  assert (match early with
          | Some cl => pt_method cp = ICAL_METHOD_REQUEST /\ pt_c mp <> None /\ ~ newer cp mp /\ (cl = ICAL_XLICCLASS_OBSOLETE \/ cl = ICAL_XLICCLASS_MISSEQUENCED)
          | None => pt_method cp = ICAL_METHOD_REQUEST -> pt_c mp <> None -> newer cp mp
          end) as Hearly.
  { unfold obsolete_request in Ee. destruct m as [mc|]; [|injection Ee as <- _; apply no_parts in Emp; congruence]. destruct (parts_of mc s1 mp s2 Emp) as [Hmc _].
    destruct (Z.eqb_spec (pt_method cp) ICAL_METHOD_REQUEST); [|now injection Ee as <- _].
    destruct early as [cl|]; [|intros _ _; apply obsoleted_none; now exists s2, s3].
    split; [assumption|]. split; [congruence|]. apply obsoleted_some. now exists s2, s3. }
  destruct early as [cl|].
  - injection E as <- _. destruct Hearly as (H1 & H2 & H3 & [->| ->]); now repeat split.
  - destruct (first_property ICAL_METHOD_PROPERTY c) as [q|]; [|injection E as <- _; exact I]. unfold bind in E.
    destruct (get_enum ICAL_METHOD_NONE (pr_value q) s3) as [[method s4]|] eqn:Eg; [|discriminate].
    destruct Hmeth as (s5 & s6 & Hmeth). apply (table_means method cp mp user s4 class st'); [|exact Hearly | exact E].
    exact (get_enum_same _ _ _ _ _ _ _ _ Hmeth Eg).
Qed.
End Correct.

(** ** Instances *)

#[local] Existing Instance text_floats.
#[local] Existing Instance utc_only.
#[local] Existing Instance no_builtins.
#[local] Open Scope cstring_scope.

Definition message (method : string) (ls : list string) : cstring :=
  text_of (["BEGIN:VCALENDAR"; ("METHOD:" ++ method); "BEGIN:VEVENT"; "DTSTAMP:20210301T120000Z"]%string ++ ls ++ ["END:VEVENT"; "END:VCALENDAR"]%string).

Definition classify_texts (a : cstring) (b : option cstring) (user : option cstring) : option icalproperty_xlicclass :=
  option_map fst
    ((c <- icalparser_parse_string ICAL_TREAT_AS_ERROR 1 a ;;
      d <- (match b with Some b => icalparser_parse_string ICAL_TREAT_AS_ERROR 1000 b | None => ret None end) ;;
      match c with Some c => icalclassify c d user | None => ret ICAL_XLICCLASS_NONE end) (initial_error_state false)).

Definition first_version : list string := ["SEQUENCE:1"; "DTSTART:20210401T120000Z"]%string.
Definition other_time : list string := ["SEQUENCE:2"; "DTSTART:20210401T130000Z"]%string.

Example request_classes :
  classify_texts (message "REQUEST" first_version) None None = Some ICAL_XLICCLASS_REQUESTNEW /\
  classify_texts (message "REQUEST" other_time) (Some (message "REQUEST" first_version)) None = Some ICAL_XLICCLASS_REQUESTRESCHEDULE /\
  classify_texts (message "REQUEST" first_version) (Some (message "REQUEST" first_version)) None = Some ICAL_XLICCLASS_OBSOLETE.
Proof. vm_compute. repeat split; reflexivity. Qed.

(** A publication that matches nothing is an update of it. *)
Example publication_never_new : classify_texts (message "PUBLISH" first_version) None None = Some ICAL_XLICCLASS_PUBLISHUPDATE.
Proof. vm_compute. reflexivity. Qed.

Definition dated_request (n : Z) : icalcomponent :=
  Component 1 ICAL_VCALENDAR_COMPONENT None [Property 2 ICAL_METHOD_PROPERTY None [] 0 NoElem (Some (new_with ICAL_METHOD_VALUE (V_enum ICAL_METHOD_REQUEST))) None]
    NoElem [Component 3 ICAL_VEVENT_COMPONENT None [Property 4 ICAL_SEQUENCE_PROPERTY None [] 0 NoElem (Some (new_with ICAL_INTEGER_VALUE (V_int n))) None]
      NoElem [] NoElem None None true] NoElem None None true.

Lemma classify_means_witness :
  exists comp_parts match_parts, yields (icalssutil_get_parts (Some (dated_request 2))) comp_parts /\
    yields (icalssutil_get_parts (Some (dated_request 1))) match_parts /\ newer comp_parts match_parts.
Proof.
  destruct (icalclassify (dated_request 2) (Some (dated_request 1)) None (initial_error_state false)) as [[class st]|] eqn:E;
    [|vm_compute in E; discriminate].
  destruct (classify_means _ _ _ _ _ _ E) as [[_ H]|(cp & mp & H1 & H2 & H3)]; [vm_compute in H; discriminate|].
  exists cp, mp. split; [exact H1|]. split; [exact H2|]. vm_compute in E. injection E as <- _. apply H3.
Defined.
