(* ===== verification/Sspm.v ===== *)
(** * The transfer encodings of MIME (sspm.c)

    Quoted-printable and base64, as they are written ([sspm_encode_*]) and as a
    line of a part is read ([decode_*]).  Buffers are given by their contents: the
    functions that append are copies of those of icalmemory.c, which [IcalMemory]
    models.  A [char] is signed, as it is where the library is built by default. *)
From Stdlib Require Import String Ascii ZArith Lia Bool List.
From S2P Require Import Prelude CString IcalValueText IcalValue.
Import ListNotations.
#[local] Open Scope Z_scope.
#[local] Open Scope cstring_scope.

(** ** Quoted-printable *)

(** The value of a digit: for other characters than 0 to 9 and A to F it is out of range. *)
Definition hex_value (c : ascii) : Z := if isdigit c then code c - 48 else code c - 55.

(** What is stored in a [char]. *)
Definition to_char (z : Z) : ascii := chr (z mod 256).

Definition is_newline (c : ascii) : bool := Ascii.eqb c LF || Ascii.eqb c CR.

(** [size] is the room that is left; the result is what is written. *)
Fixpoint decode_qp (src : cstring) (size : nat) : cstring :=
  match src, size with
  | [], _ | _, O => []
  | c :: r, S size' =>
      if Ascii.eqb c "=" then
        match r with
        | [] => []
        | a :: r =>
            if is_newline a then
              match r with
              | b :: r' => if is_newline b then decode_qp r' size else decode_qp r size
              | [] => []
              end
            else
              match r with
              | [] => []
              | b :: r => to_char (16 * hex_value a + hex_value b) :: decode_qp r size'
              end
        end
      else c :: decode_qp r size'
  end.

Definition decode_quoted_printable (src : cstring) (size : nat) : cstring * nat :=
  let dest := decode_qp src size in (dest, length dest).

(** The number that a [char] is. *)
Definition signed_code (c : ascii) : Z := if code c <? 128 then code c else code c - 256.

Definition hex_digit (z : Z) : ascii := if z <? 10 then chr (48 + z) else chr (55 + z).

(** [%02X] of an [unsigned int]. *)
Fixpoint hex_digits (fuel : nat) (z : Z) : cstring :=
  match fuel with
  | O => []
  | S fuel => if z <? 16 then [hex_digit z] else hex_digits fuel (z / 16) ++ [hex_digit (z mod 16)]
  end.
Definition fmt_02X (z : Z) : cstring := if z <? 16 then "0"%char :: hex_digits 8 z else hex_digits 8 z.

(** The text is cut to the size of a buffer of four. *)
Definition sspm_append_hex (ch : ascii) : cstring := firstn 3 ("="%char :: fmt_02X (to_uint32 (signed_code ch))).

Definition sspm_is_printable (c : ascii) : bool := (33 <=? signed_code c) && (signed_code c <=? 126) && negb (Ascii.eqb c "=").

(** What is written for a character before [next], and the place in the line behind it. *)
Definition qp_piece (c : ascii) (next : option ascii) (lpos : Z) : cstring * Z :=
  if sspm_is_printable c then ([c], lpos + 1)
  else if Ascii.eqb c TAB || Ascii.eqb c " " then
    match next with
    | Some n => if is_newline n then (sspm_append_hex c, lpos + 3) else ([c], lpos + 1)
    | None => ([c], lpos + 1)
    end
  else if is_newline c then ([c], 0)
  else (sspm_append_hex c, lpos + 3).

Definition soft_break : cstring := ["="%char; LF].

Fixpoint encode_qp (data : cstring) (lpos : Z) : cstring :=
  match data with
  | [] => []
  | c :: r =>
      let '(piece, lpos) := qp_piece c (List.hd_error r) lpos in
      if 72 <? lpos then piece ++ soft_break ++ encode_qp r 0 else piece ++ encode_qp r lpos
  end.

Definition sspm_encode_quoted_printable (data : cstring) : cstring := encode_qp data 0.

(** ** Base64 *)

(** The number of a letter, -1 for any other character. *)
Definition base64_value (c : ascii) : Z :=
  let cc := signed_code c in
  if (65 <=? cc) && (cc <=? 90) then cc - 65
  else if (97 <=? cc) && (cc <=? 122) then cc - 97 + 26
  else if (48 <=? cc) && (cc <=? 57) then cc - 48 + 52
  else if cc =? 47 then 63
  else if cc =? 43 then 62
  else -1.

(** The bucket of four, the place in it, the number of letters and the output. *)
Record bucket := Bucket {
  bk_p : Z;
  bk_buf : list Z;
  bk_valid : bool;
  bk_size : Z;
  bk_out : cstring
}.

Definition set_nth (i : Z) (v : Z) (l : list Z) : list Z := firstn (Z.to_nat i) l ++ v :: skipn (S (Z.to_nat i)) l.
Definition bget (i : nat) (l : list Z) : Z := nth i l 0.

(** Four letters become three bytes. *)
Definition convert (b : bucket) : bucket :=
  if bk_p b mod 4 =? 3 then
    let buf := bk_buf b in
    let d0 := Z.lor (Z.shiftl (bget 0 buf) 2) (Z.shiftr (Z.land (bget 1 buf) 48) 4) in
    let d1 := Z.lor (Z.shiftl (Z.land (bget 1 buf) 15) 4) (Z.shiftr (Z.land (bget 2 buf) 60) 2) in
    let d2 := Z.lor (Z.shiftl (Z.land (bget 2 buf) 3) 6) (Z.land (bget 3 buf) 63) in
    Bucket (bk_p b) [0; 0; 0; 0] (bk_valid b) (bk_size b) (bk_out b ++ [to_char d0; to_char d1; to_char d2])
  else b.

(** At the end the rest of the bucket is filled with zeros. *)
Fixpoint fill (fuel : nat) (b : bucket) : bucket :=
  match fuel with
  | O => b
  | S fuel =>
      if bk_p b mod 4 =? 3 then b
      else let p := bk_p b + 1 in fill fuel (Bucket p (set_nth (p mod 4) 0 (bk_buf b)) (bk_valid b) (bk_size b) (bk_out b))
  end.

(** [None] is the null pointer: the first character is no letter. *)
Fixpoint decode_letters (src : cstring) (size : Z) (b : bucket) : option bucket :=
  match src with
  | [] => Some b
  | c :: r =>
      if bk_p b <? size then
        let cc := base64_value c in
        if cc =? -1 then
          if bk_valid b then Some (convert (fill 4 b)) else None
        else
          let b := convert (Bucket (bk_p b) (set_nth (bk_p b mod 4) cc (bk_buf b)) true (bk_size b + 1) (bk_out b)) in
          decode_letters r size (Bucket (bk_p b + 1) (bk_buf b) (bk_valid b) (bk_size b) (bk_out b))
      else Some b
  end.

Definition decoded_size (letters : Z) : Z :=
  letters / 4 * 3 + (if letters mod 4 =? 2 then 1 else if letters mod 4 =? 3 then 2 else 0).

(** What is written, and the size. *)
Definition decode_base64 (src : cstring) (size : Z) : option (cstring * Z) :=
  option_map (fun b => (bk_out b, decoded_size (bk_size b))) (decode_letters src size (Bucket 0 [0; 0; 0; 0] false 0 [])).

Definition BaseTable : cstring := $"ABCDEFGHIJKLMNOPQRSTUVWXYZabcdefghijklmnopqrstuvwxyz0123456789+/".

Definition base64_letter (v : Z) : ascii := nth (Z.to_nat v) BaseTable NUL.

(** [size] is 4, 3 or 2; the letters that are left out are written as [=]. *)
Definition sspm_write_base64 (a b c : Z) (size : nat) : cstring :=
  let o0 := Z.shiftr (Z.land a 252) 2 in
  let o1 := Z.lor (Z.shiftl (Z.land a 3) 4) (Z.shiftr (Z.land b 240) 4) in
  let o2 := Z.lor (Z.shiftl (Z.land b 15) 2) (Z.shiftr (Z.land c 192) 6) in
  let o3 := Z.land c 63 in
  [base64_letter o0; base64_letter o1; if Nat.leb 3 size then base64_letter o2 else "="%char;
   if Nat.leb 4 size then base64_letter o3 else "="%char].

(** [inbuf] is the bytes since the last group; a full group is written when the
    next byte comes.  [lpos] is the place in the line. *)
Fixpoint encode_bytes (data : cstring) (inbuf : list Z) (lpos : Z) : cstring :=
  match data with
  | [] =>
      match inbuf with
      | [a] => sspm_write_base64 a 0 0 2
      | [a; b] => sspm_write_base64 a b 0 3
      | _ => []
      end
  | c :: r =>
      let '(group, inbuf, lpos) := match inbuf with
                                   | [x; y; z] => (sspm_write_base64 x y z 4, [], lpos + 4)
                                   | _ => ([], inbuf, lpos)
                                   end in
      let '(break, lpos) := if lpos =? 72 then ([LF], 0) else ([], lpos) in
      group ++ break ++ encode_bytes r (inbuf ++ [code c]) lpos
  end.

Definition sspm_encode_base64 (data : cstring) : cstring := encode_bytes data [] 0.

(** ** What is handed on from a line of a body ([sspm_make_part]) *)

Inductive sspm_encoding :=
  | SSPM_NO_ENCODING
  | SSPM_QUOTED_PRINTABLE_ENCODING
  | SSPM_8BIT_ENCODING
  | SSPM_7BIT_ENCODING
  | SSPM_BINARY_ENCODING
  | SSPM_BASE64_ENCODING
  | SSPM_UNKNOWN_ENCODING.

(** What is written to [data], with the NUL that quoted-printable and [strcpy] write
    behind it, and the size.  A line that no decoder has read is taken as it is. *)
Definition decode_line (encoding : sspm_encoding) (line : cstring) : cstring * nat :=
  match encoding with
  | SSPM_BASE64_ENCODING =>
      match decode_base64 line (Z.of_nat (length line)) with
      | Some (data, size) => (data, Z.to_nat size)
      | None => (line ++ [NUL], length line)
      end
  | SSPM_QUOTED_PRINTABLE_ENCODING => let '(dest, size) := decode_quoted_printable line (length line) in (dest ++ [NUL], size)
  | _ => (line ++ [NUL], length line)
  end.

(** The bytes that [add_line] is told of. *)
Definition decode_body_line (encoding : sspm_encoding) (line : cstring) : cstring :=
  let '(data, size) := decode_line encoding line in firstn size data.

(** ** The transfer encodings of MIME: theorems

    What is encoded is read back, where it is: quoted-printable for ASCII text
    without a line break right behind a soft one, base64, line by line, unless the
    last group of three is full. *)

(** *** Characters *)

Definition all_chars : list ascii := map (fun n => chr (Z.of_nat n)) (seq 0 256).

Lemma in_all_chars c : In c all_chars.
Proof.
  apply in_map_iff. exists (Z.to_nat (code c)). pose proof (N_ascii_bounded c) as Hb. unfold code. split.
  - unfold chr. rewrite Z2Nat.id by lia. rewrite N2Z.id. apply ascii_N_embedding.
  - apply in_seq. lia.
Qed.

Lemma check_chars (test : ascii -> bool) : forallb test all_chars = true -> forall c, test c = true.
Proof. intros H c. rewrite forallb_forall in H. apply H, in_all_chars. Qed.

Lemma to_char_code c : to_char (code c) = c.
Proof.
  pose proof (N_ascii_bounded c) as Hb. unfold to_char, code, chr. rewrite Z.mod_small by lia. rewrite N2Z.id. apply ascii_N_embedding.
Qed.

(** *** Quoted-printable *)

(** The three characters of a byte, and what they are read as. *)
Definition hex_reads (c : ascii) : bool :=
  match sspm_append_hex c with
  | [e; a; b] => Ascii.eqb e "=" && negb (is_newline a) && Ascii.eqb (to_char (16 * hex_value a + hex_value b)) c
  | _ => false
  end.

Lemma hex_reads_ascii c : code c < 128 -> hex_reads c = true.
Proof.
  intros Hc. pose proof (check_chars (fun c => implb (code c <? 128) (hex_reads c)) ltac:(vm_compute; reflexivity) c) as H. cbv beta in H.
  apply Z.ltb_lt in Hc. now rewrite Hc in H.
Qed.

Lemma decode_hex c rest n : code c < 128 -> decode_qp (sspm_append_hex c ++ rest) (S n) = c :: decode_qp rest n.
Proof.
  intros Hc. apply hex_reads_ascii in Hc. unfold hex_reads in Hc. destruct (sspm_append_hex c) as [|e [|a [|b [|? ?]]]]; try discriminate.
  apply andb_prop in Hc as [Hc Hv]. apply andb_prop in Hc as [He Ha]. apply Ascii.eqb_eq in He as ->. apply Ascii.eqb_eq in Hv.
  cbn [List.app decode_qp]. rewrite Ascii.eqb_refl. apply negb_true_iff in Ha. now rewrite Ha, Hv.
Qed.

(** A character that stands for itself is not the equals sign. *)
Lemma decode_plain c rest n : Ascii.eqb c "=" = false -> decode_qp ([c] ++ rest) (S n) = c :: decode_qp rest n.
Proof. intros H. cbn [List.app decode_qp]. now rewrite H. Qed.

Lemma decode_piece c next lpos rest n : code c < 128 -> decode_qp (fst (qp_piece c next lpos) ++ rest) (S n) = c :: decode_qp rest n.
Proof.
  intros Hc. unfold qp_piece. destruct (sspm_is_printable c) eqn:Ep.
  { apply decode_plain. unfold sspm_is_printable in Ep. apply andb_prop in Ep as [_ Ep]. now apply negb_true_iff. }
  destruct (Ascii.eqb c TAB || Ascii.eqb c " ") eqn:Et.
  { assert (Ascii.eqb c "=" = false) as Hne by (apply orb_prop in Et as [Et|Et]; apply Ascii.eqb_eq in Et as ->; reflexivity).
    destruct next as [d|]; [destruct (is_newline d)|]; [now apply decode_hex | now apply decode_plain..]. }
  destruct (is_newline c) eqn:El; [|now apply decode_hex].
  apply decode_plain. apply orb_prop in El as [El|El]; apply Ascii.eqb_eq in El as ->; reflexivity.
Qed.

(** Soft breaks are not followed by line breaks of the text. *)
Fixpoint breaks_ok (data : cstring) (lpos : Z) : bool :=
  match data with
  | [] => true
  | c :: r =>
      let lpos := snd (qp_piece c (List.hd_error r) lpos) in
      if 72 <? lpos then negb (match r with d :: _ => is_newline d | [] => false end) && breaks_ok r 0 else breaks_ok r lpos
  end.

(** The first character that is written for [c]. *)
Lemma piece_starts c next lpos : exists d r, fst (qp_piece c next lpos) = d :: r /\ (is_newline d = true -> is_newline c = true).
Proof.
  assert (exists r, sspm_append_hex c = "="%char :: r) as [r Hr] by (unfold sspm_append_hex; eexists; reflexivity).
  unfold qp_piece. destruct (sspm_is_printable c); [eauto|]. destruct (_ || _); [destruct next as [d|]; [destruct (is_newline d)|]; eauto|].
  - rewrite Hr. exists "="%char, r. now split.
  - destruct (is_newline c); [eauto|]. rewrite Hr. exists "="%char, r. now split.
Qed.

Lemma encode_starts data lpos : match encode_qp data lpos with d :: _ => is_newline d = true -> match data with c :: _ => is_newline c = true | [] => False end | [] => True end.
Proof.
  destruct data as [|c r]; [exact I|]. cbn [encode_qp]. destruct (piece_starts c (List.hd_error r) lpos) as (d & p & E & H).
  destruct (qp_piece c (List.hd_error r) lpos) as [piece lp]. cbn [fst] in E. subst piece. destruct (72 <? lp); cbn; exact H.
Qed.

Lemma decode_soft_break rest n : match rest with d :: _ => is_newline d = false | [] => True end -> decode_qp (soft_break ++ rest) n = decode_qp rest n.
Proof.
  intros H. destruct n as [|n]; [now destruct rest|]. unfold soft_break. cbn [List.app decode_qp].
  change (Ascii.eqb "=" "=") with true. change (is_newline LF) with true. cbv iota. destruct rest as [|d r]; [reflexivity|]. now rewrite H.
Qed.

Lemma encode_decode_qp : forall data lpos n, Forall (fun c => code c < 128) data -> breaks_ok data lpos = true -> (length data <= n)%nat ->
  decode_qp (encode_qp data lpos) n = data.
Proof.
  induction data as [|c r IH]; intros lpos n Hd Hb Hn; [now destruct n|]. inversion Hd; subst. destruct n as [|n]; [cbn in Hn; lia|]. cbn [length] in Hn.
  cbn [encode_qp breaks_ok] in *. pose proof (decode_piece c (List.hd_error r) lpos) as Hp. destruct (qp_piece c (List.hd_error r) lpos) as [piece lp].
  cbn [fst snd] in *. destruct (72 <? lp).
  - apply andb_prop in Hb as [Hbr Hb]. rewrite Hp by assumption. f_equal. rewrite decode_soft_break; [apply IH; auto; lia|].
    pose proof (encode_starts r 0) as Hs. destruct (encode_qp r 0) as [|d ?]; [exact I|]. destruct (is_newline d) eqn:E; [|reflexivity].
    specialize (Hs eq_refl). destruct r; [destruct Hs|]. now rewrite Hs in Hbr.
  - rewrite Hp by assumption. f_equal. apply IH; auto; lia.
Qed.

(** ASCII text that is written as quoted-printable is read back exactly, when
    no soft line break falls right before a line break of the text and the
    destination has room. *)
Theorem quoted_printable_roundtrip data size :
  Forall (fun c => code c < 128) data -> breaks_ok data 0 = true -> (length data <= size)%nat ->
  decode_quoted_printable (sspm_encode_quoted_printable data) size = (data, length data).
Proof.
  intros Hd Hb Hn. unfold decode_quoted_printable, sspm_encode_quoted_printable. now rewrite encode_decode_qp.
Qed.

Definition sample_text : cstring := $"a = b, tab:" ++ [TAB; LF] ++ $"next".

Lemma quoted_printable_roundtrip_witness : decode_quoted_printable (sspm_encode_quoted_printable sample_text) 100 = (sample_text, 17%nat).
Proof.
  apply (quoted_printable_roundtrip sample_text 100); [|vm_compute; reflexivity | vm_compute; lia].
  apply Forall_forall. intros c Hc. apply Z.ltb_lt. revert c Hc. apply forallb_forall. vm_compute. reflexivity.
Defined.

(** A byte that is not ASCII is extended to a negative number, whose first two digits are written. *)
Example non_ascii_lost : sspm_append_hex "233"%char = $"=FF" /\ sspm_append_hex "161"%char = $"=FF".
Proof. vm_compute. split; reflexivity. Qed.

(** A line break right behind a soft one is taken for a part of it. *)
Definition long_line : cstring := repeat "a"%char 73 ++ [LF; "b"%char].
Example break_lost : decode_quoted_printable (sspm_encode_quoted_printable long_line) 100 = (repeat "a"%char 73 ++ ["b"%char], 74%nat).
Proof. vm_compute. reflexivity. Qed.

(** *** Base64 *)

Definition pairs_ok (test : Z -> Z -> bool) : bool :=
  forallb (fun a => forallb (fun b => test (code a) (code b)) all_chars) all_chars.

Lemma check_pairs test : pairs_ok test = true -> forall a b, test (code a) (code b) = true.
Proof.
  intros H a b. unfold pairs_ok in H. rewrite forallb_forall in H. specialize (H a (in_all_chars a)). rewrite forallb_forall in H.
  apply H, in_all_chars.
Qed.

(** The four letters of three bytes. *)
Definition o0 (a : Z) : Z := Z.shiftr (Z.land a 252) 2.
Definition o1 (a b : Z) : Z := Z.lor (Z.shiftl (Z.land a 3) 4) (Z.shiftr (Z.land b 240) 4).
Definition o2 (b c : Z) : Z := Z.lor (Z.shiftl (Z.land b 15) 2) (Z.shiftr (Z.land c 192) 6).
Definition o3 (c : Z) : Z := Z.land c 63.

Lemma letter_value v : 0 <= v < 64 -> base64_value (base64_letter v) = v.
Proof.
  intros Hv. assert (forallb (fun n => base64_value (base64_letter (Z.of_nat n)) =? Z.of_nat n) (seq 0 64) = true) as H by (vm_compute; reflexivity).
  rewrite forallb_forall in H. specialize (H (Z.to_nat v) ltac:(apply in_seq; lia)). rewrite Z2Nat.id in H by lia. lia.
Qed.

Definition in_letters (v : Z) : bool := (0 <=? v) && (v <? 64).
Lemma letters_in_range a b :
  in_letters (o0 (code a)) && in_letters (o1 (code a) (code b)) && in_letters (o2 (code a) (code b)) && in_letters (o3 (code a)) = true.
Proof.
  apply (check_pairs (fun a b => in_letters (o0 a) && in_letters (o1 a b) && in_letters (o2 a b) && in_letters (o3 a))). vm_compute. reflexivity.
Qed.

(** Two letters have the first byte, and the halves of the others. *)
Lemma letters_read a b :
  (Z.lor (Z.shiftl (o0 (code a)) 2) (Z.shiftr (Z.land (o1 (code a) (code b)) 48) 4) =? code a) &&
  (Z.shiftl (Z.land (o1 (code a) (code b)) 15) 4 =? Z.land (code b) 240) && (Z.shiftr (Z.land (o2 (code a) (code b)) 60) 2 =? Z.land (code a) 15) &&
  (Z.lor (Z.shiftl (Z.land (o2 (code a) (code b)) 3) 6) (Z.land (o3 (code b)) 63) =? code b) && (Z.lor (Z.land (code a) 240) (Z.land (code a) 15) =? code a) = true.
Proof.
  apply (check_pairs (fun a b =>
    (Z.lor (Z.shiftl (o0 a) 2) (Z.shiftr (Z.land (o1 a b) 48) 4) =? a) && (Z.shiftl (Z.land (o1 a b) 15) 4 =? Z.land b 240) &&
    (Z.shiftr (Z.land (o2 a b) 60) 2 =? Z.land a 15) && (Z.lor (Z.shiftl (Z.land (o2 a b) 3) 6) (Z.land (o3 b) 63) =? b) &&
    (Z.lor (Z.land a 240) (Z.land a 15) =? a))). vm_compute. reflexivity.
Qed.

(** One letter: the bucket is converted when it is full. *)
Lemma decode_letter v N p buf va sz out rest : 0 <= v < 64 -> p < N ->
  decode_letters (base64_letter v :: rest) N (Bucket p buf va sz out) =
  let b := convert (Bucket p (set_nth (p mod 4) v buf) true (sz + 1) out) in
  decode_letters rest N (Bucket (bk_p b + 1) (bk_buf b) (bk_valid b) (bk_size b) (bk_out b)).
Proof.
  intros Hv Hp. cbn [decode_letters bk_p]. apply Z.ltb_lt in Hp. rewrite Hp, (letter_value v Hv). destruct (Z.eqb_spec v (-1)); [lia|].
  reflexivity.
Qed.

Lemma mod4 k i : 0 <= i < 4 -> (4 * k + i) mod 4 = i.
Proof. intros Hi. rewrite Z.add_comm, Z.mul_comm, Z.mod_add by lia. now apply Z.mod_small. Qed.

Lemma decode_letter_i i v N k buf va sz out rest : 0 <= i < 3 -> 0 <= v < 64 -> 4 * k + i < N ->
  decode_letters (base64_letter v :: rest) N (Bucket (4 * k + i) buf va sz out) =
  decode_letters rest N (Bucket (4 * k + (i + 1)) (set_nth i v buf) true (sz + 1) out).
Proof.
  intros Hi Hv Hp. rewrite (decode_letter v N) by assumption. rewrite mod4 by lia. cbv zeta. unfold convert. cbn [bk_p].
  rewrite mod4 by lia. destruct (Z.eqb_spec i 3); [lia|]. cbn [bk_p bk_buf bk_valid bk_size bk_out]. now rewrite <- Z.add_assoc.
Qed.

Lemma decode_letter_3 v N k a b c va sz out rest : 0 <= v < 64 -> 4 * k + 3 < N ->
  decode_letters (base64_letter v :: rest) N (Bucket (4 * k + 3) [a; b; c; 0] va sz out) =
  decode_letters rest N (Bucket (4 * (k + 1)) [0; 0; 0; 0] true (sz + 1)
    (out ++ [to_char (Z.lor (Z.shiftl a 2) (Z.shiftr (Z.land b 48) 4)); to_char (Z.lor (Z.shiftl (Z.land b 15) 4) (Z.shiftr (Z.land c 60) 2));
             to_char (Z.lor (Z.shiftl (Z.land c 3) 6) (Z.land v 63))])).
Proof.
  intros Hv Hp. rewrite (decode_letter v N) by assumption. rewrite mod4 by lia. cbv zeta. unfold convert. cbn [bk_p].
  rewrite mod4 by lia. change (3 =? 3) with true. cbv iota. cbn [bk_p bk_buf bk_valid bk_size bk_out].
  replace (4 * k + 3 + 1) with (4 * (k + 1)) by lia. reflexivity.
Qed.

Lemma to_char_is z c : z = code c -> to_char z = c.
Proof. intros ->. apply to_char_code. Qed.

Ltac split_andb :=
  repeat match goal with H : _ && _ = true |- _ => apply andb_prop in H; destruct H end.

(** A full group. *)
Lemma decode_group a b c N k va sz out rest : 4 * k + 3 < N ->
  decode_letters (sspm_write_base64 (code a) (code b) (code c) 4 ++ rest) N (Bucket (4 * k) [0; 0; 0; 0] va sz out) =
  decode_letters rest N (Bucket (4 * (k + 1)) [0; 0; 0; 0] true (sz + 4) (out ++ [a; b; c])).
Proof.
  intros Hp. pose proof (letters_in_range a b) as R1. pose proof (letters_in_range b c) as R2. pose proof (letters_in_range c c) as R3.
  pose proof (letters_read a b) as L1. pose proof (letters_read b c) as L2. unfold in_letters in *. split_andb.
  change (sspm_write_base64 (code a) (code b) (code c) 4) with
    [base64_letter (o0 (code a)); base64_letter (o1 (code a) (code b)); base64_letter (o2 (code b) (code c)); base64_letter (o3 (code c))].
  cbn [List.app]. replace (4 * k) with (4 * k + 0) at 1 by lia.
  rewrite decode_letter_i by lia. change (0 + 1) with 1. rewrite decode_letter_i by lia. change (1 + 1) with 2. rewrite decode_letter_i by lia.
  change (2 + 1) with 3. change (set_nth 2 (o2 (code b) (code c)) (set_nth 1 (o1 (code a) (code b)) (set_nth 0 (o0 (code a)) [0; 0; 0; 0])))
    with [o0 (code a); o1 (code a) (code b); o2 (code b) (code c); 0].
  rewrite decode_letter_3 by lia. repeat match goal with H : (_ =? _) = true |- _ => apply Z.eqb_eq in H end.
  do 2 f_equal; [lia|]. f_equal.
  rewrite (to_char_is _ a), (to_char_is _ b), (to_char_is _ c) by congruence. reflexivity.
Qed.

(** The lines of a text, with their ends. *)
Fixpoint text_lines (text : cstring) : list cstring :=
  match text with
  | [] => []
  | c :: r =>
      if Ascii.eqb c LF then [c] :: text_lines r
      else match text_lines r with
           | [] => [[c]]
           | l :: ls => (c :: l) :: ls
           end
  end.

Definition one_line (l : cstring) : bool := forallb (fun c => negb (Ascii.eqb c LF)) l.

Lemma text_lines_one l : one_line l = true -> l <> [] -> text_lines l = [l].
Proof.
  induction l as [|c l IH]; [easy|]. cbn. intros H _. apply andb_prop in H as [Hc Hl]. destruct (Ascii.eqb c LF); [easy|].
  destruct l as [|d l]; [reflexivity|]. now rewrite IH.
Qed.

Lemma text_lines_break l r : one_line l = true -> text_lines (l ++ LF :: r) = (l ++ [LF]) :: text_lines r.
Proof.
  induction l as [|c l IH]; [reflexivity|]. cbn. intros H. apply andb_prop in H as [Hc Hl]. destruct (Ascii.eqb c LF); [easy|].
  now rewrite IH.
Qed.

Lemma letter_one_line v : Ascii.eqb (base64_letter v) LF = false.
Proof.
  unfold base64_letter. destruct (le_lt_dec 64 (Z.to_nat v)) as [Hv|Hv]; [now rewrite nth_overflow|].
  assert (forallb (fun n => negb (Ascii.eqb (nth n BaseTable NUL) LF)) (seq 0 64) = true) as H by (vm_compute; reflexivity).
  rewrite forallb_forall in H. specialize (H (Z.to_nat v) ltac:(apply in_seq; lia)). now apply negb_true_iff in H.
Qed.

Lemma group_one_line a b c n : one_line (sspm_write_base64 a b c n) = true.
Proof.
  unfold sspm_write_base64, one_line. cbn [forallb]. rewrite !letter_one_line.
  destruct (Nat.leb 3 n), (Nat.leb 4 n); rewrite ?letter_one_line; reflexivity.
Qed.

Definition empty_bucket : bucket := Bucket 0 [0; 0; 0; 0] false 0 [].

(** A part of a line that holds [j] groups. *)
Record reads (pre : cstring) (j : Z) (bytes : cstring) : Prop := {
  reads_line : one_line pre = true;
  reads_letters : Z.of_nat (length pre) = 4 * j;
  reads_bytes : Z.of_nat (length bytes) = 3 * j;
  reads_decode N rest : 4 * j <= N ->
    decode_letters (pre ++ rest) N empty_bucket = decode_letters rest N (Bucket (4 * j) [0; 0; 0; 0] (0 <? j) (4 * j) bytes)
}.

Lemma reads_nothing : reads [] 0 [].
Proof. split; reflexivity. Qed.

Lemma one_line_app l m : one_line (l ++ m) = one_line l && one_line m.
Proof. apply forallb_app. Qed.

Lemma reads_group pre j bytes a b c : reads pre j bytes ->
  reads (pre ++ sspm_write_base64 (code a) (code b) (code c) 4) (j + 1) (bytes ++ [a; b; c]).
Proof.
  intros [Hl Hn Hb Hd]. split.
  - now rewrite one_line_app, Hl, group_one_line.
  - rewrite length_app. cbn [length sspm_write_base64]. lia.
  - rewrite length_app. cbn [length]. lia.
  - intros N rest HN. rewrite <- app_assoc, Hd, decode_group by lia. f_equal. f_equal; lia.
Qed.

(** What is behind the groups of a line: nothing but padding counts. *)
Lemma decoded_line line out n : decode_letters line (Z.of_nat (length line)) empty_bucket = Some out ->
  decoded_size (bk_size out) = n -> decode_body_line SSPM_BASE64_ENCODING line = firstn (Z.to_nat n) (bk_out out).
Proof. intros H Hn. unfold decode_body_line, decode_line, decode_base64. fold empty_bucket. rewrite H. cbn. now rewrite Hn. Qed.

Lemma firstn_front (l m : cstring) n : Z.of_nat (length l) = n -> firstn (Z.to_nat n) (l ++ m) = l.
Proof. intros H. replace (Z.to_nat n) with (length l + 0)%nat by lia. rewrite firstn_app_2. apply app_nil_r. Qed.

Lemma firstn_keep (l k m : cstring) n : Z.of_nat (length l + length k) = n -> firstn (Z.to_nat n) (l ++ k ++ m) = l ++ k.
Proof. intros H. rewrite app_assoc. apply firstn_front. rewrite length_app. lia. Qed.

Lemma fill_step i f k buf va sz out : 0 <= i < 3 ->
  fill (S f) (Bucket (4 * k + i) buf va sz out) = fill f (Bucket (4 * k + (i + 1)) (set_nth (i + 1) 0 buf) va sz out).
Proof.
  intros Hi. cbn [fill bk_p]. rewrite mod4 by lia. destruct (Z.eqb_spec i 3); [lia|]. cbn [bk_buf bk_valid bk_size bk_out].
  now rewrite <- Z.add_assoc, mod4 by lia.
Qed.

Lemma fill_stop f k buf va sz out : fill f (Bucket (4 * k + 3) buf va sz out) = Bucket (4 * k + 3) buf va sz out.
Proof. destruct f; [reflexivity|]. cbn [fill bk_p]. now rewrite mod4 by lia. Qed.

Lemma convert_full k a b c d va sz out :
  convert (Bucket (4 * k + 3) [a; b; c; d] va sz out) =
  Bucket (4 * k + 3) [0; 0; 0; 0] va sz
    (out ++ [to_char (Z.lor (Z.shiftl a 2) (Z.shiftr (Z.land b 48) 4)); to_char (Z.lor (Z.shiftl (Z.land b 15) 4) (Z.shiftr (Z.land c 60) 2));
             to_char (Z.lor (Z.shiftl (Z.land c 3) 6) (Z.land d 63))]).
Proof. unfold convert. cbn [bk_p]. rewrite mod4 by lia. reflexivity. Qed.

(** The bucket that ends a line: [i] letters are in it. *)
Lemma fill_convert i k a b c va sz out : i = 0 \/ i = 2 \/ i = 3 -> (i = 0 -> b = 0) -> (i <= 2 -> c = 0) ->
  convert (fill 4 (Bucket (4 * k + i) [a; b; c; 0] va sz out)) = convert (Bucket (4 * k + 3) [a; b; c; 0] va sz out).
Proof.
  intros [-> | [-> | ->]] Hb Hc; rewrite ?(Hb ltac:(lia)), ?(Hc ltac:(lia)).
  - rewrite !fill_step, fill_stop by lia. reflexivity.
  - rewrite fill_step, fill_stop by lia. reflexivity.
  - now rewrite fill_stop.
Qed.

Lemma decode_end c rest N p buf sz out : p < N -> base64_value c = -1 ->
  decode_letters (c :: rest) N (Bucket p buf true sz out) = Some (convert (fill 4 (Bucket p buf true sz out))).
Proof. intros Hp Hc. cbn [decode_letters bk_p]. apply Z.ltb_lt in Hp. now rewrite Hp, Hc. Qed.

Lemma size_of_groups j i : 0 <= i < 4 -> i <> 1 -> decoded_size (4 * j + i) = 3 * j + (if i =? 2 then 1 else if i =? 3 then 2 else 0).
Proof. intros Hi H1. unfold decoded_size. rewrite mod4 by lia. replace ((4 * j + i) / 4) with j; [lia|]. apply Z.div_unique with i; lia. Qed.

(** A line that is broken behind a group. *)
Lemma full_line pre j bytes : reads pre j bytes -> 0 < j -> decode_body_line SSPM_BASE64_ENCODING (pre ++ [LF]) = bytes.
Proof.
  intros [Hl Hn Hb Hd] Hj. rewrite decoded_line with (n := 3 * j + 0)
    (out := convert (fill 4 (Bucket (4 * j + 0) [0; 0; 0; 0] true (4 * j + 0) bytes))).
  - rewrite fill_convert, convert_full by lia. cbn [bk_out Z.eqb]. rewrite firstn_front by lia. reflexivity.
  - rewrite length_app, Hd by (cbn [length]; lia). replace (0 <? j) with true by lia. rewrite decode_end by (reflexivity || (cbn [length]; lia)).
    now rewrite Z.add_0_r.
  - rewrite fill_convert, convert_full by lia. cbn [bk_size]. apply size_of_groups; lia.
Qed.

(** A line that ends in one byte or in two. *)
Lemma line_of_one pre j bytes a : reads pre j bytes -> 0 <= j -> decode_body_line SSPM_BASE64_ENCODING (pre ++ sspm_write_base64 (code a) 0 0 2) = bytes ++ [a].
Proof.
  intros [Hl Hn Hb Hd] Hj. pose proof (letters_in_range a NUL) as R. pose proof (letters_read a NUL) as L. unfold in_letters in *. split_andb.
  change (code NUL) with 0 in *. change (sspm_write_base64 (code a) 0 0 2) with [base64_letter (o0 (code a)); base64_letter (o1 (code a) 0); "="%char; "="%char].
  rewrite decoded_line with (n := 3 * j + 1)
    (out := convert (fill 4 (Bucket (4 * j + 2) [o0 (code a); o1 (code a) 0; 0; 0] true (4 * j + 2) bytes))).
  - repeat match goal with H : (_ =? _) = true |- _ => apply Z.eqb_eq in H end.
    rewrite fill_convert, convert_full by lia. cbn [bk_out]. rewrite (to_char_is _ a) by congruence.
    apply (firstn_keep bytes [a]). cbn [length]. lia.
  - rewrite length_app, Hd by (cbn [length]; lia). cbn [length]. replace (4 * j) with (4 * j + 0) at 1 by lia.
    rewrite decode_letter_i by lia. change (0 + 1) with 1. rewrite decode_letter_i by lia. change (1 + 1) with 2.
    rewrite decode_end by (reflexivity || lia). do 3 f_equal. f_equal; lia.
  - rewrite fill_convert, convert_full by lia. cbn [bk_size]. apply size_of_groups; lia.
Qed.

Lemma line_of_two pre j bytes a b : reads pre j bytes -> 0 <= j ->
  decode_body_line SSPM_BASE64_ENCODING (pre ++ sspm_write_base64 (code a) (code b) 0 3) = bytes ++ [a; b].
Proof.
  intros [Hl Hn Hb Hd] Hj. pose proof (letters_in_range a b) as R. pose proof (letters_in_range b NUL) as R2.
  pose proof (letters_read a b) as L. pose proof (letters_read b NUL) as L2. unfold in_letters in *. split_andb.
  change (code NUL) with 0 in *.
  change (sspm_write_base64 (code a) (code b) 0 3) with [base64_letter (o0 (code a)); base64_letter (o1 (code a) (code b)); base64_letter (o2 (code b) 0); "="%char].
  rewrite decoded_line with (n := 3 * j + 2)
    (out := convert (fill 4 (Bucket (4 * j + 3) [o0 (code a); o1 (code a) (code b); o2 (code b) 0; 0] true (4 * j + 3) bytes))).
  - repeat match goal with H : (_ =? _) = true |- _ => apply Z.eqb_eq in H end.
    rewrite fill_convert, convert_full by lia. cbn [bk_out]. rewrite (to_char_is _ a), (to_char_is _ b) by congruence.
    apply (firstn_keep bytes [a; b]). cbn [length]. lia.
  - rewrite length_app, Hd by (cbn [length]; lia). cbn [length]. replace (4 * j) with (4 * j + 0) at 1 by lia.
    rewrite decode_letter_i by lia. change (0 + 1) with 1. rewrite decode_letter_i by lia. change (1 + 1) with 2. rewrite decode_letter_i by lia.
    change (2 + 1) with 3. rewrite decode_end by (reflexivity || lia). do 3 f_equal. f_equal; lia.
  - rewrite fill_convert, convert_full by lia. cbn [bk_size]. apply size_of_groups; lia.
Qed.

Lemma encode_byte c r inbuf lpos : (length inbuf < 3)%nat -> lpos <> 72 -> encode_bytes (c :: r) inbuf lpos = encode_bytes r (inbuf ++ [code c]) lpos.
Proof.
  intros Hi Hp. cbn [encode_bytes]. apply Z.eqb_neq in Hp. destruct inbuf as [|x [|y [|z inbuf]]]; cbn [length] in Hi; try lia; now rewrite Hp.
Qed.

(** A group is written when the byte behind it is read. *)
Lemma encode_group x y z w r j : 0 <= j < 18 ->
  encode_bytes (x :: y :: z :: w :: r) [] (4 * j) =
  sspm_write_base64 (code x) (code y) (code z) 4 ++ (if j =? 17 then LF :: encode_bytes (w :: r) [] 0 else encode_bytes (w :: r) [] (4 * (j + 1))).
Proof.
  intros Hj. rewrite 3!encode_byte by (cbn [length List.app]; lia). cbn [List.app].
  destruct (Z.eqb_spec j 17) as [->|Hn]; [reflexivity|]. rewrite (encode_byte w r [] (4 * (j + 1))) by (cbn [length]; lia).
  change (encode_bytes (w :: r) [code x; code y; code z] (4 * j)) with
    (let '(break, lpos) := if 4 * j + 4 =? 72 then ([LF], 0) else ([], 4 * j + 4) in
     sspm_write_base64 (code x) (code y) (code z) 4 ++ break ++ encode_bytes r ([] ++ [code w]) lpos).
  replace (4 * j + 4) with (4 * (j + 1)) by lia. destruct (Z.eqb_spec (4 * (j + 1)) 72); [lia|]. reflexivity.
Qed.

Definition decoded_body (text : cstring) : cstring := concat (map (decode_body_line SSPM_BASE64_ENCODING) (text_lines text)).

Lemma decoded_last line : one_line line = true -> line <> [] -> decoded_body line = decode_body_line SSPM_BASE64_ENCODING line.
Proof. intros Hl Hn. unfold decoded_body. rewrite text_lines_one by assumption. apply app_nil_r. Qed.

Lemma decode_base64_encoded n : forall data pre j bytes, (length data <= n)%nat -> (length data mod 3 <> 0)%nat -> 0 <= j < 18 -> reads pre j bytes ->
  decoded_body (pre ++ encode_bytes data [] (4 * j)) = bytes ++ data.
Proof.
  induction n as [|n IH]; intros data pre j bytes Hn Hm Hj Hr; [destruct data; [now cbn in Hm | cbn in Hn; lia]|].
  assert (Hl : one_line pre = true) by apply Hr.
  destruct data as [|x [|y [|z [|w r]]]]; try (now cbn in Hm).
  - rewrite encode_byte by (cbn [length]; lia). cbn [encode_bytes List.app].
    rewrite decoded_last by (rewrite ?one_line_app, ?Hl, ?group_one_line; now destruct pre). apply (line_of_one pre j); [assumption | lia].
  - rewrite 2!encode_byte by (cbn [length List.app]; lia). cbn [encode_bytes List.app].
    rewrite decoded_last by (rewrite ?one_line_app, ?Hl, ?group_one_line; now destruct pre). apply (line_of_two pre j); [assumption | lia].
  - rewrite encode_group by assumption. rewrite app_assoc. pose proof (reads_group pre j bytes x y z Hr) as Hr'.
    assert (Hm' : (length (w :: r) mod 3 <> 0)%nat).
    { change (length (x :: y :: z :: w :: r)) with (3 + length (w :: r))%nat in Hm. intros He. apply Hm.
      replace (3 + length (w :: r))%nat with (length (w :: r) + 1 * 3)%nat by lia. now rewrite Nat.Div0.mod_add. }
    assert (Hn' : (length (w :: r) <= n)%nat) by (cbn [length] in *; lia). destruct (Z.eqb_spec j 17) as [->|Hne].
    + unfold decoded_body. rewrite text_lines_break by apply Hr'. cbn [map concat]. rewrite (full_line _ (17 + 1) (bytes ++ [x; y; z])) by (assumption || lia).
      fold (decoded_body (encode_bytes (w :: r) [] 0)). pose proof (IH (w :: r) [] 0 [] Hn' Hm' ltac:(lia) reads_nothing) as E. cbn [List.app] in E. change (4 * 0) with 0 in E. rewrite E.
      now rewrite <- app_assoc.
    + rewrite (IH (w :: r) _ (j + 1) (bytes ++ [x; y; z])) by (assumption || lia). now rewrite <- app_assoc.
Qed.

(** A text whose length is no multiple of three, written by
    [sspm_encode_base64] and read line by line as [sspm_make_part] reads a body,
    comes back, on however many lines it is spread. *)
Lemma base64_roundtrip data : (length data mod 3 <> 0)%nat ->
  concat (map (decode_body_line SSPM_BASE64_ENCODING) (text_lines (sspm_encode_base64 data))) = data.
Proof. intros Hm. exact (decode_base64_encoded (length data) data [] 0 [] (le_n _) Hm ltac:(lia) reads_nothing). Qed.

(** The last group of a text of three, six, ... bytes is not written. *)
Example last_group_lost : sspm_encode_base64 $"abc" = [] /\ sspm_encode_base64 $"abcdef" = $"YWJj".
Proof. vm_compute. split; reflexivity. Qed.
