(* ===== verification/SspmMime.v ===== *)
(** * MIME messages (sspm.c)

    The kinds of lines, the headers, the parser of single and multipart messages
    and the writer.  The input is the lines that [get_string] returns, one for each
    call, before it returns null; it leaves the buffer alone then, as [fgets] does.  A part
    is what the caller's actions make of it: [A] is what their pointers point to.

    Reading and writing outside of an object, a failed assertion and the use of a
    null pointer are faults. *)
From Stdlib Require Import String Ascii ZArith Lia Bool List.
From S2P Require Import Prelude CString IcalValueText IcalParameter Sspm.
Import ListNotations.
#[local] Open Scope Z_scope.
#[local] Open Scope cstring_scope.

Inductive fault := ASSERTION | BUFFER_OVERFLOW | NO_PART_LEFT | NULL_POINTER | NO_FUEL.

Inductive outcome (A : Type) :=
  | Done (a : A)
  | Fault (f : fault).
Arguments Done {A} a.
Arguments Fault {A} f.

Definition and_then {A B} (o : outcome A) (k : A -> outcome B) : outcome B :=
  match o with
  | Done a => k a
  | Fault f => Fault f
  end.
Notation "'let!' p := e 'in' k" := (and_then e (fun x => match x with p => k end))
  (at level 200, p pattern, k at level 200, right associativity).

Definition TMP_BUF_SIZE : nat := 1024.

(** ** Types and their names *)

Inductive sspm_major_type :=
  | SSPM_NO_MAJOR_TYPE | SSPM_TEXT_MAJOR_TYPE | SSPM_IMAGE_MAJOR_TYPE | SSPM_AUDIO_MAJOR_TYPE | SSPM_VIDEO_MAJOR_TYPE
  | SSPM_APPLICATION_MAJOR_TYPE | SSPM_MULTIPART_MAJOR_TYPE | SSPM_MESSAGE_MAJOR_TYPE | SSPM_UNKNOWN_MAJOR_TYPE.

Inductive sspm_minor_type :=
  | SSPM_NO_MINOR_TYPE | SSPM_ANY_MINOR_TYPE | SSPM_PLAIN_MINOR_TYPE | SSPM_RFC822_MINOR_TYPE | SSPM_DIGEST_MINOR_TYPE
  | SSPM_CALENDAR_MINOR_TYPE | SSPM_MIXED_MINOR_TYPE | SSPM_RELATED_MINOR_TYPE | SSPM_ALTERNATIVE_MINOR_TYPE
  | SSPM_PARALLEL_MINOR_TYPE | SSPM_UNKNOWN_MINOR_TYPE.

Inductive sspm_error :=
  | SSPM_NO_ERROR | SSPM_UNEXPECTED_BOUNDARY_ERROR | SSPM_WRONG_BOUNDARY_ERROR | SSPM_NO_BOUNDARY_ERROR
  | SSPM_NO_HEADER_ERROR | SSPM_MALFORMED_HEADER_ERROR.

Definition major_eqb (a b : sspm_major_type) : bool := if (ltac:(decide equality) : {a = b} + {a <> b}) then true else false.
Definition minor_eqb (a b : sspm_minor_type) : bool := if (ltac:(decide equality) : {a = b} + {a <> b}) then true else false.
Definition encoding_eqb (a b : sspm_encoding) : bool := if (ltac:(decide equality) : {a = b} + {a <> b}) then true else false.

(** The rows in front of the last one, whose name is empty. *)
Definition major_content_type_map : list (sspm_major_type * cstring) :=
  [(SSPM_MULTIPART_MAJOR_TYPE, $"multipart"); (SSPM_TEXT_MAJOR_TYPE, $"text"); (SSPM_TEXT_MAJOR_TYPE, $"text");
   (SSPM_IMAGE_MAJOR_TYPE, $"image"); (SSPM_AUDIO_MAJOR_TYPE, $"audio"); (SSPM_VIDEO_MAJOR_TYPE, $"video");
   (SSPM_APPLICATION_MAJOR_TYPE, $"application"); (SSPM_MULTIPART_MAJOR_TYPE, $"multipart"); (SSPM_MESSAGE_MAJOR_TYPE, $"message")].

Definition minor_content_type_map : list (sspm_minor_type * cstring) :=
  [(SSPM_ANY_MINOR_TYPE, $"*"); (SSPM_PLAIN_MINOR_TYPE, $"plain"); (SSPM_RFC822_MINOR_TYPE, $"rfc822"); (SSPM_DIGEST_MINOR_TYPE, $"digest");
   (SSPM_CALENDAR_MINOR_TYPE, $"calendar"); (SSPM_MIXED_MINOR_TYPE, $"mixed"); (SSPM_RELATED_MINOR_TYPE, $"related");
   (SSPM_ALTERNATIVE_MINOR_TYPE, $"alternative"); (SSPM_PARALLEL_MINOR_TYPE, $"parallel")].

Definition sspm_encoding_map : list (sspm_encoding * cstring) :=
  [(SSPM_NO_ENCODING, []); (SSPM_QUOTED_PRINTABLE_ENCODING, $"quoted-printable"); (SSPM_8BIT_ENCODING, $"8bit");
   (SSPM_7BIT_ENCODING, $"7bit"); (SSPM_BINARY_ENCODING, $"binary"); (SSPM_BASE64_ENCODING, $"base64")].

(** The name of the first row with the type. *)
Definition name_in {T} (eqb : T -> T -> bool) (t : T) (map : list (T * cstring)) : cstring :=
  match find (fun row => eqb t (fst row)) map with
  | Some (_, str) => str
  | None => []
  end.

Definition sspm_major_type_string (type : sspm_major_type) : cstring := name_in major_eqb type major_content_type_map.
Definition sspm_minor_type_string (type : sspm_minor_type) : cstring := name_in minor_eqb type minor_content_type_map.
Definition sspm_encoding_string (type : sspm_encoding) : cstring := name_in encoding_eqb type sspm_encoding_map.

(** The type of the first row whose name the text begins with. *)
Definition type_in {T} (unknown : T) (text : cstring) (map : list (T * cstring)) : T :=
  match find (fun row => starts_with (snd row) text) map with
  | Some (t, _) => t
  | None => unknown
  end.

Definition sspm_lowercase (str : cstring) : cstring := map tolower str.

Definition sspm_find_major_content_type (type : cstring) : sspm_major_type :=
  type_in SSPM_UNKNOWN_MAJOR_TYPE (sspm_lowercase type) major_content_type_map.

Definition sspm_find_minor_content_type (type : cstring) : sspm_minor_type :=
  match split_at "/" (sspm_lowercase type) with
  | None => SSPM_UNKNOWN_MINOR_TYPE
  | Some (_, p) => type_in SSPM_UNKNOWN_MINOR_TYPE p minor_content_type_map
  end.

(** ** Lines *)

Definition sspm_property_name (line : cstring) : option cstring := option_map fst (split_at ":" line).

(** What is between the colon and the next semicolon, without blanks and line ends.
    Without a semicolon the code copies [strlen (line)] characters from behind the colon,
    that is as many characters behind the end of the line as are in front of the value;
    the NUL is copied first, so that the text that is returned ends there. *)
Definition sspm_value (line : cstring) : cstring :=
  match split_at ":" line with
  | None => []
  | Some (_, c) =>
      let text := match split_at ";" c with Some (before, _) => before | None => c end in
      filter (fun ch => negb (Ascii.eqb ch " ") && negb (Ascii.eqb ch LF)) text
  end.

Definition mime_headers : list cstring :=
  [$"Content-Type"; $"Content-Transfer-Encoding"; $"Content-Disposition"; $"Content-Id"; $"Mime-Version"].

Definition sspm_is_mime_header (line : cstring) : bool :=
  match sspm_property_name line with
  | None => false
  | Some name => existsb (strcaseeqb name) mime_headers
  end.

Definition sspm_is_mail_header (line : cstring) : bool :=
  match sspm_property_name line with
  | None => false
  | Some _ => true
  end.

(** The characters that are not blank are counted in a [char]. *)
Definition sspm_is_blank (line : cstring) : bool :=
  to_schar (Z.of_nat (length (filter (fun p => negb (Ascii.eqb p " " || Ascii.eqb p TAB || Ascii.eqb p LF)) line))) =? 0.

Definition sspm_is_continuation_line (line : cstring) : bool :=
  match line with
  | c :: _ => Ascii.eqb c " " || Ascii.eqb c TAB
  | [] => false
  end.

Definition sspm_is_mime_boundary (line : cstring) : bool := starts_with $"--" line.

Definition sspm_is_mime_terminating_boundary (line : cstring) : bool :=
  sspm_is_mime_boundary line && match strstr line ($"--" ++ [LF]) with Some _ => true | None => false end.

(** The type EMPTY is for a null pointer. *)
Inductive line_type := BLANK | MIME_HEADER | MAIL_HEADER | HEADER_CONTINUATION | BOUNDARY | TERMINATING_BOUNDARY | UNKNOWN_TYPE.

Definition get_line_type (line : cstring) : line_type :=
  if sspm_is_blank line then BLANK
  else if sspm_is_mime_header line then MIME_HEADER
  else if sspm_is_mail_header line then MAIL_HEADER
  else if sspm_is_continuation_line line then HEADER_CONTINUATION
  else if sspm_is_mime_terminating_boundary line then TERMINATING_BOUNDARY
  else if sspm_is_mime_boundary line then BOUNDARY
  else UNKNOWN_TYPE.

(** ** Headers *)

Record sspm_header := Header {
  h_def : bool;
  h_boundary : option cstring;
  h_major : sspm_major_type;
  h_minor : sspm_minor_type;
  h_minor_text : option cstring;
  h_content_type_params : option (list cstring);
  h_charset : option cstring;
  h_encoding : sspm_encoding;
  h_filename : option cstring;
  h_content_id : option cstring;
  h_error : sspm_error;
  h_error_text : option cstring
}.

(** All bytes are zero. *)
Definition zero_header : sspm_header :=
  Header false None SSPM_NO_MAJOR_TYPE SSPM_NO_MINOR_TYPE None None None SSPM_NO_ENCODING None None SSPM_NO_ERROR None.

Definition sspm_set_error (header : sspm_header) (error : sspm_error) (message : option cstring) : sspm_header :=
  Header false (h_boundary header) (h_major header) (h_minor header) (h_minor_text header) (h_content_type_params header)
    (h_charset header) (h_encoding header) (h_filename header) (h_content_id header) error message.

Fixpoint position_of (c : ascii) (s : cstring) : option nat :=
  match s with
  | [] => None
  | d :: s => if Ascii.eqb c d then Some O else option_map S (position_of c s)
  end.

(** The last one ([strrchr]). *)
Fixpoint last_position_of (c : ascii) (s : cstring) : option nat :=
  match s with
  | [] => None
  | d :: s =>
      match last_position_of c s with
      | Some i => Some (S i)
      | None => if Ascii.eqb c d then Some O else None
      end
  end.

(** [strncpy] to the front of a buffer: short text is padded, long text is not ended. *)
Definition strncpy (buf src : cstring) (n : nat) : cstring := firstn n (src ++ repeat NUL n) ++ skipn n buf.

Fixpoint skip_while (test : ascii -> bool) (s : cstring) : cstring :=
  match s with
  | c :: r => if test c then skip_while test r else s
  | [] => []
  end.

Definition QUOTE : ascii := "034".

(** [name] is the static buffer of the function, as the last call has left it.  The
    copy up to the semicolon has no end of its own; when the quote is behind the
    semicolon its length is negative. *)
Definition sspm_get_parameter (name : cstring) (line parameter : cstring) : outcome (cstring * option cstring) :=
  match strstr line parameter with
  | None => Done (name, None)
  | Some p =>
      let p := skip_while (fun c => Ascii.eqb c " " || Ascii.eqb c "=") (skipn (length parameter) p) in
      let start := match position_of QUOTE p with Some q => S q | None => O end in
      let! name := match position_of ";" p with
                   | Some s => if Nat.leb start s then Done (strncpy name (skipn start p) (s - start)) else Fault BUFFER_OVERFLOW
                   | None => Done (strncpy name (skipn start p) 1023)
                   end in
      let text := upto_nul name in
      Done (match last_position_of QUOTE text with
            | Some q => (firstn q name ++ NUL :: skipn (S q) name, Some (firstn q text))
            | None => (name, Some text)
            end)
  end.

Definition build_content_type (header : sspm_header) (val : cstring) (boundary : option cstring) : sspm_header :=
  let major := sspm_find_major_content_type val in
  let minor := sspm_find_minor_content_type val in
  let minor_text := match minor with
                    | SSPM_UNKNOWN_MINOR_TYPE => Some (match split_at "/" val with Some (_, p) => p | None => $"unknown" end)
                    | _ => h_minor_text header
                    end in
  Header false (match boundary with Some b => Some b | None => h_boundary header end) major minor minor_text
    (h_content_type_params header) (h_charset header) (h_encoding header) (h_filename header) (h_content_id header)
    (h_error header) (h_error_text header).

Definition encoding_named (lencoding : cstring) : sspm_encoding :=
  if strcaseeqb lencoding $"base64" then SSPM_BASE64_ENCODING
  else if strcaseeqb lencoding $"quoted-printable" then SSPM_QUOTED_PRINTABLE_ENCODING
  else if strcaseeqb lencoding $"binary" then SSPM_BINARY_ENCODING
  else if strcaseeqb lencoding $"7bit" then SSPM_7BIT_ENCODING
  else if strcaseeqb lencoding $"8bit" then SSPM_8BIT_ENCODING
  else SSPM_UNKNOWN_ENCODING.

Definition with_encoding (header : sspm_header) (encoding : sspm_encoding) : sspm_header :=
  Header false (h_boundary header) (h_major header) (h_minor header) (h_minor_text header) (h_content_type_params header)
    (h_charset header) encoding (h_filename header) (h_content_id header) (h_error header) (h_error_text header).

Definition with_content_id (header : sspm_header) (cid : cstring) : sspm_header :=
  Header false (h_boundary header) (h_major header) (h_minor header) (h_minor_text header) (h_content_type_params header)
    (h_charset header) (h_encoding header) (h_filename header) (Some cid) (h_error header) (h_error_text header).

Definition sspm_build_header (name : cstring) (header : sspm_header) (line : cstring) : outcome (cstring * sspm_header) :=
  match sspm_property_name line with
  | None => Fault NULL_POINTER
  | Some prop =>
      let val := sspm_value line in
      if strcaseeqb prop $"Content-Type" then
        let! (name, boundary) := sspm_get_parameter name line $"boundary" in
        Done (name, build_content_type header val boundary)
      else if strcaseeqb prop $"Content-Transfer-Encoding" then
        Done (name, with_encoding header (encoding_named (sspm_lowercase val)))
      else if strcaseeqb prop $"Content-Id" then Done (name, with_content_id header val)
      else Done (name, header)
  end.

(** ** Reading *)

Inductive mime_state := UNKNOWN_STATE | IN_HEADER | END_OF_HEADER | IN_BODY | OPENING_PART | END_OF_PART | TERMINAL_END_OF_PART | END_OF_INPUT.

(** The lines that are left, the buffer of the last one and the state. *)
Record reader := Reader {
  rd_input : list cstring;
  rd_temp : cstring;
  rd_state : mime_state
}.

Definition sspm_get_next_line (rd : reader) : option cstring * reader :=
  match rd_input rd with
  | [] => (None, Reader [] (rd_temp rd) END_OF_INPUT)
  | line :: input => (Some line, Reader input line (rd_state rd))
  end.

(** Reading on until a line is met, or the end. *)
Fixpoint skip_to (boundary : cstring) (input : list cstring) (temp : cstring) (state : mime_state) : reader :=
  match input with
  | [] => Reader [] temp END_OF_INPUT
  | line :: input => if streqb boundary line then Reader input line state else skip_to boundary input line state
  end.
Definition skip_paired (line : cstring) (rd : reader) : reader := skip_to (line ++ $"--") (rd_input rd) (rd_temp rd) (rd_state rd).

(** How the loop over the lines of a header ends: at a line that is no part of
    one, or with the lines. *)
Inductive header_end := HeaderLines (lines : list cstring) | Malformed (line : cstring).

Definition chomp (line : cstring) : cstring :=
  match rev line with
  | c :: r => if Ascii.eqb c LF then rev r else line
  | [] => line
  end.

Definition MAX_HEADER_LINES : nat := 25.

(** The lines before the last one, [before], and it. *)
Fixpoint read_header_lines (input : list cstring) (temp : cstring) (state : mime_state) (before : list cstring) : outcome (reader * header_end) :=
  if Nat.ltb (length before) (MAX_HEADER_LINES - 1) then
    match input with
    | [] => Done (Reader [] temp END_OF_INPUT, HeaderLines before)
    | buf :: input =>
        match get_line_type buf with
        | BLANK => Done (Reader input buf END_OF_HEADER, HeaderLines before)
        | MAIL_HEADER | MIME_HEADER =>
            if Nat.ltb (length buf) TMP_BUF_SIZE then read_header_lines input buf IN_HEADER (before ++ [buf]) else Fault ASSERTION
        | HEADER_CONTINUATION =>
            match rev before with
            | [] => Done (Reader input buf state, Malformed buf)
            | last_line :: front =>
                let last_line := chomp last_line in
                let buf_start := skip_while (fun c => Ascii.eqb c " " || Ascii.eqb c TAB) buf in
                if Nat.ltb (length buf_start + length last_line) TMP_BUF_SIZE
                then read_header_lines input buf IN_HEADER (rev front ++ [last_line ++ buf_start])
                else Fault ASSERTION
            end
        | _ => Done (Reader input buf state, Malformed buf)
        end
    end
  else Done (Reader input temp state, HeaderLines before).

Fixpoint build_headers (name : cstring) (header : sspm_header) (lines : list cstring) : outcome (cstring * sspm_header) :=
  match lines with
  | [] | [] :: _ => Done (name, header)
  | line :: lines => let! (name, header) := sspm_build_header name header line in build_headers name header lines
  end.

Definition default_header : sspm_header :=
  Header true None SSPM_TEXT_MAJOR_TYPE SSPM_PLAIN_MINOR_TYPE None None None SSPM_NO_ENCODING None None SSPM_NO_ERROR None.

Definition sspm_read_header (rd : reader) (name : cstring) : outcome (reader * cstring * sspm_header) :=
  let! (rd, e) := read_header_lines (rd_input rd) (rd_temp rd) (rd_state rd) [] in
  match e with
  | Malformed line => Done (rd, name, sspm_set_error default_header SSPM_MALFORMED_HEADER_ERROR (Some line))
  | HeaderLines lines => let! (name, header) := build_headers name default_header lines in Done (rd, name, header)
  end.

(** ** Parts *)

Section Mime.
(** [W] is what the last action of a part may change: the rest of the process. *)
Context {A W : Type}.

(** Parts are what the actions point to; null is [None]. *)
Record sspm_action_map := Action {
  am_major : sspm_major_type;
  am_minor : sspm_minor_type;
  am_new_part : option A;
  am_add_line : option A -> sspm_header -> cstring -> nat -> option A;
  am_end_part : option A -> W -> option A * W
}.

(** The actions that are taken for a type without actions of the caller. *)
Definition sspm_default_action : sspm_action_map :=
  Action SSPM_UNKNOWN_MAJOR_TYPE SSPM_UNKNOWN_MINOR_TYPE None (fun part _ _ _ => part) (fun _ world => (None, world)).

(** The table of the caller, in front of its last row. *)
Definition get_action (actions : list sspm_action_map) (major : sspm_major_type) (minor : sspm_minor_type) : sspm_action_map :=
  match find (fun a => (major_eqb major (am_major a) && minor_eqb minor (am_minor a)) ||
                       (major_eqb major (am_major a) && minor_eqb minor SSPM_ANY_MINOR_TYPE)) actions with
  | Some a => a
  | None => sspm_default_action
  end.

Record sspm_part := Part {
  sp_header : sspm_header;
  sp_level : nat;
  sp_data_size : nat;
  sp_data : option A
}.
Definition zero_part : sspm_part := Part zero_header O O None.

(** The array of parts, the number of the next one, the level, the lines, the static buffer and the
    rest of the process. *)
Record mime_impl := Mime {
  mi_parts : list sspm_part;
  mi_part_no : nat;
  mi_level : nat;
  mi_reader : reader;
  mi_name : cstring;
  mi_world : W
}.

Definition with_reader (rd : reader) (m : mime_impl) : mime_impl := Mime (mi_parts m) (mi_part_no m) (mi_level m) rd (mi_name m) (mi_world m).
Definition with_level (level : nat) (m : mime_impl) : mime_impl := Mime (mi_parts m) (mi_part_no m) level (mi_reader m) (mi_name m) (mi_world m).
Definition with_world (world : W) (m : mime_impl) : mime_impl :=
  Mime (mi_parts m) (mi_part_no m) (mi_level m) (mi_reader m) (mi_name m) world.
Definition with_state (state : mime_state) (m : mime_impl) : mime_impl :=
  with_reader (Reader (rd_input (mi_reader m)) (rd_temp (mi_reader m)) state) m.

Definition set_part (i : nat) (part : sspm_part) (m : mime_impl) : outcome mime_impl :=
  if Nat.ltb i (length (mi_parts m))
  then Done (Mime (firstn i (mi_parts m) ++ part :: skipn (S i) (mi_parts m)) (mi_part_no m) (mi_level m) (mi_reader m) (mi_name m) (mi_world m))
  else Fault NO_PART_LEFT.

Definition part_at (i : nat) (m : mime_impl) : sspm_part := nth i (mi_parts m) zero_part.
Definition with_header (header : sspm_header) (part : sspm_part) : sspm_part := Part header (sp_level part) (sp_data_size part) (sp_data part).

(** [sspm_set_error] of the header of a stored part. *)
Definition set_part_error (i : nat) (error : sspm_error) (message : option cstring) (m : mime_impl) : outcome mime_impl :=
  set_part i (with_header (sspm_set_error (sp_header (part_at i m)) error message) (part_at i m)) m.

Definition sspm_store_part (header : sspm_header) (part : option A) (size : nat) (m : mime_impl) : outcome mime_impl :=
  let! m := set_part (mi_part_no m) (Part header (mi_level m) size part) m in
  Done (Mime (mi_parts m) (S (mi_part_no m)) (mi_level m) (mi_reader m) (mi_name m) (mi_world m)).

Definition untyped (part : sspm_part) : sspm_part :=
  let h := sp_header part in
  with_header (Header (h_def h) (h_boundary h) SSPM_NO_MAJOR_TYPE SSPM_NO_MINOR_TYPE (h_minor_text h) (h_content_type_params h)
    (h_charset h) (h_encoding h) (h_filename h) (h_content_id h) (h_error h) (h_error_text h)) part.

(** The type of the part in progress is reset. *)
Definition clean_part (m : mime_impl) : outcome mime_impl := set_part (mi_part_no m) (untyped (part_at (mi_part_no m) m)) m.

Definition expected (boundary got line : cstring) : cstring := snprintf 256 ($"Expected: " ++ boundary ++ got ++ line).

(** The last action of a part. *)
Definition end_body (m : mime_impl) (action : sspm_action_map) (header : sspm_header) (part : option A) (size : nat)
  : outcome (mime_impl * sspm_header * option A * nat) :=
  let '(part, world) := am_end_part action part (mi_world m) in Done (with_world world m, header, part, size).

(** The lines of a body.  [parent] is the number of the multipart part that the body is in. *)
Fixpoint read_body (fuel : nat) (m : mime_impl) (action : sspm_action_map) (header : sspm_header) (parent : option nat)
    (part : option A) (size : nat) : outcome (mime_impl * sspm_header * option A * nat) :=
  match fuel with
  | O => Fault NO_FUEL
  | S fuel =>
      let '(line, rd) := sspm_get_next_line (mi_reader m) in
      let m := with_reader rd m in
      match line with
      | None => end_body m action header part size
      | Some line =>
          if sspm_is_mime_boundary line then
            match parent with
            | None =>
                Done (with_reader (skip_paired line rd) m, sspm_set_error header SSPM_UNEXPECTED_BOUNDARY_ERROR (Some line), None, size)
            | Some i =>
                match h_boundary (sp_header (part_at i m)) with
                | None => Fault NULL_POINTER
                | Some boundary =>
                    if streqb (skipn 2 line) boundary then end_body (with_state END_OF_PART m) action header part size
                    else
                      let! m := set_part_error i SSPM_WRONG_BOUNDARY_ERROR (Some (expected boundary $"--. Got: " line)) m in
                      read_body fuel (with_reader (skip_paired line rd) m) action header parent part size
                end
            end
          else
            let '(data, size) := decode_line (h_encoding header) line in
            read_body fuel m action header parent (am_add_line action part header data size) size
      end
  end.

Definition sspm_make_part (actions : list sspm_action_map) (m : mime_impl) (header : sspm_header) (parent : option nat)
    : outcome (mime_impl * sspm_header * option A * nat) :=
  let action := get_action actions (h_major header) (h_minor header) in
  read_body (S (length (rd_input (mi_reader m)))) (with_state IN_BODY m) action header parent (am_new_part action) O.

(** The search for the boundary that opens a part. *)
Inductive opening := Opened (rd : reader) | WrongBoundary (line : cstring) (rd : reader).

Fixpoint find_opening (boundary : cstring) (input : list cstring) (temp : cstring) (state : mime_state) : opening :=
  match input with
  | [] => Opened (Reader [] temp END_OF_INPUT)
  | line :: input =>
      if sspm_is_mime_boundary line then
        if negb (sspm_is_mime_terminating_boundary line) && streqb (skipn 2 line) boundary then Opened (Reader input line state)
        else WrongBoundary line (Reader input line state)
      else find_opening boundary input line state
  end.

Definition open_part (boundary : cstring) (rd : reader) : opening :=
  match get_line_type (rd_temp rd) with
  | BOUNDARY => Opened rd
  | _ => find_opening boundary (rd_input rd) (rd_temp rd) (rd_state rd)
  end.

(** The last line, when all are read. *)
Definition read_all (rd : reader) : reader := Reader [] (last (rd_input rd) (rd_temp rd)) END_OF_INPUT.

Definition at_end (m : mime_impl) : bool :=
  match get_line_type (rd_temp (mi_reader m)), rd_state (mi_reader m) with
  | TERMINATING_BOUNDARY, _ | _, END_OF_INPUT => true
  | _, _ => false
  end.

(** A part of a single type inside of part [parent]. *)
Definition store_body (actions : list sspm_action_map) (m : mime_impl) (header : sspm_header) (parent : option nat) : outcome (mime_impl * option A) :=
  let! (m, header, part, size) := sspm_make_part actions m header parent in
  let! m := set_part (mi_part_no m) zero_part m in
  let! m := sspm_store_part header part size m in
  Done (m, part).

(** One level deeper: [subparts] is the loop over the parts. *)
Definition make_multipart (subparts : mime_impl -> outcome mime_impl) (m : mime_impl) : outcome mime_impl :=
  let m := with_level (S (mi_level m)) m in
  let! m := set_part (mi_part_no m) zero_part m in
  let! m := subparts m in
  Done (with_level (pred (mi_level m)) m).

(** A multipart part inside of another; [make_multipart] reads the parts of the one with the number. *)
Definition store_multipart (make_multipart : nat -> mime_impl -> outcome mime_impl) (header : sspm_header) (m : mime_impl) : outcome (mime_impl * option A) :=
  let child := mi_part_no m in
  let! m := sspm_store_part header None O m in
  let! m := make_multipart child m in
  match get_line_type (rd_temp (mi_reader m)) with
  | TERMINATING_BOUNDARY => Done (with_reader (snd (sspm_get_next_line (mi_reader m))) m, None)
  | _ =>
      let! m := set_part_error child SSPM_NO_BOUNDARY_ERROR (Some (rd_temp (mi_reader m))) m in
      Done (m, None)
  end.

(** What follows a header. *)
Definition store_after_header (make_multipart : nat -> mime_impl -> outcome mime_impl) (actions : list sspm_action_map)
    (parent : nat) (header : sspm_header) (m : mime_impl) : outcome (mime_impl * option A) :=
  match h_error header with
  | SSPM_NO_ERROR =>
      if major_eqb (h_major header) SSPM_MULTIPART_MAJOR_TYPE then store_multipart make_multipart header m
      else store_body actions m header (Some parent)
  | _ =>
      if h_def header then Done (m, None)
      else let! m := sspm_store_part header None O m in Done (m, None)
  end.

Definition sspm_make_multipart_subpart (make_multipart : nat -> mime_impl -> outcome mime_impl) (actions : list sspm_action_map)
    (parent : nat) (m : mime_impl) : outcome (mime_impl * option A) :=
  match h_boundary (sp_header (part_at parent m)) with
  | None =>
      let! m := set_part_error parent SSPM_NO_BOUNDARY_ERROR None m in
      Done (with_reader (read_all (mi_reader m)) m, None)
  | Some boundary =>
      match open_part boundary (mi_reader m) with
      | WrongBoundary line rd =>
          let! m := set_part_error parent SSPM_WRONG_BOUNDARY_ERROR (Some (expected boundary $". Got: " line)) m in
          Done (with_reader (skip_paired line rd) m, None)
      | Opened rd =>
          let! (rd, name, header) := sspm_read_header rd (mi_name m) in
          store_after_header make_multipart actions parent header (Mime (mi_parts m) (mi_part_no m) (mi_level m) rd name (mi_world m))
      end
  end.

(** The parts of a multipart part, up to its last boundary or the end of the input. *)
Fixpoint make_subparts (fuel : nat) (actions : list sspm_action_map) (parent : nat) (m : mime_impl) : outcome mime_impl :=
  match fuel with
  | O => Fault NO_FUEL
  | S fuel =>
      let! (m, part) := sspm_make_multipart_subpart (fun child => make_multipart (make_subparts fuel actions child)) actions parent m in
      let! m := match part with None => clean_part m | Some _ => Done m end in
      if at_end m then Done m else make_subparts fuel actions parent m
  end.

Definition sspm_make_multipart_part (actions : list sspm_action_map) (parent : nat) (m : mime_impl) : outcome mime_impl :=
  make_multipart (make_subparts (S (length (rd_input (mi_reader m)))) actions parent) m.

(** [parts] is the array that the caller gives; [name] is the static buffer. *)
Definition sspm_parse_mime (parts : list sspm_part) (actions : list sspm_action_map) (input : list cstring) (name : cstring) (world : W)
  : outcome mime_impl :=
  let! (rd, name, header) := sspm_read_header (Reader input [] UNKNOWN_STATE) name in
  let m := Mime (map untyped parts) O O rd name world in
  if major_eqb (h_major header) SSPM_MULTIPART_MAJOR_TYPE
  then let! m := sspm_store_part header None O m in sspm_make_multipart_part actions O m
  else let! (m, _) := store_body actions m header None in Done m.

(** ** Writing *)

(** The text that the pointer to the data of a part is taken for. *)
Context (text_of : A -> cstring).

(** The parameters of the type end at an empty one. *)
Fixpoint write_params (params : list cstring) : cstring :=
  match params with
  | [] | [] :: _ => []
  | param :: params => ";"%char :: snprintf TMP_BUF_SIZE param ++ write_params params
  end.

(** The line for the encoding is made and not written. *)
Definition sspm_write_header (header : sspm_header) : outcome cstring :=
  let! minor := match h_minor header with
                | SSPM_UNKNOWN_MINOR_TYPE => match h_minor_text header with Some text => Done text | None => Fault ASSERTION end
                | minor => Done (sspm_minor_type_string minor)
                end in
  let type := snprintf TMP_BUF_SIZE ($"Content-Type: " ++ sspm_major_type_string (h_major header) ++ $"/" ++ minor) in
  let boundary := match h_boundary header with
                  | Some b => snprintf TMP_BUF_SIZE ($";boundary=" ++ [QUOTE] ++ b ++ [QUOTE])
                  | None => []
                  end in
  let params := match h_content_type_params header with Some params => write_params params | None => [] end in
  Done (type ++ boundary ++ params ++ [LF] ++ [LF]).

Definition sspm_write_part (part : sspm_part) : outcome cstring :=
  let! header := sspm_write_header (sp_header part) in
  match sp_data part with
  | None => Done header
  | Some data =>
      let! body := match h_encoding (sp_header part) with
                   | SSPM_BASE64_ENCODING =>
                       if Nat.eqb (sp_data_size part) 0 then Fault ASSERTION else Done (sspm_encode_base64 (text_of data))
                   | SSPM_QUOTED_PRINTABLE_ENCODING => Done (sspm_encode_quoted_printable (text_of data))
                   | _ => Done (text_of data)
                   end in
      Done (header ++ body ++ [LF; LF])
  end.

(** [children] writes the parts of the next level, from a number on; the result is the number behind them. *)
Definition write_multipart (children : option cstring -> nat -> nat -> outcome (cstring * nat)) (part : sspm_part) (part_num : nat)
    : outcome (cstring * nat) :=
  let! header := sspm_write_header (sp_header part) in
  let! (body, part_num) := children (h_boundary (sp_header part)) (sp_level part) (S part_num) in
  match h_boundary (sp_header part) with
  | None => Fault NULL_POINTER
  | Some boundary => Done (header ++ body ++ [LF; LF] ++ $"--" ++ boundary ++ [LF], pred part_num)
  end.

Definition is_multipart (part : sspm_part) : bool := major_eqb (h_major (sp_header part)) SSPM_MULTIPART_MAJOR_TYPE.
Definition is_no_part (part : sspm_part) : bool := major_eqb (h_major (sp_header part)) SSPM_NO_MAJOR_TYPE.

Definition write_any (children : option cstring -> nat -> nat -> outcome (cstring * nat)) (part : sspm_part) (part_num : nat)
    : outcome (cstring * nat) :=
  if is_multipart part then write_multipart children part part_num
  else let! text := sspm_write_part part in Done (text, part_num).

Fixpoint write_children (fuel : nat) (parts : list sspm_part) (boundary : option cstring) (parent_level part_num : nat)
    : outcome (cstring * nat) :=
  match fuel with
  | O => Fault NO_FUEL
  | S fuel =>
      match nth_error parts part_num with
      | None => Fault NO_PART_LEFT
      | Some part =>
          if is_no_part part || negb (Nat.eqb (sp_level part) (S parent_level)) then Done ([], part_num)
          else
            match boundary with
            | None => Fault ASSERTION
            | Some b =>
                let! (text, part_num) := write_any (write_children fuel parts) part part_num in
                let! (rest, part_num) := write_children fuel parts boundary parent_level (S part_num) in
                Done (b ++ [LF] ++ text ++ rest, part_num)
            end
      end
  end.

Definition sspm_write_multipart_part (parts : list sspm_part) (part : sspm_part) (part_num : nat) : outcome (cstring * nat) :=
  write_multipart (write_children (S (length parts)) parts) part part_num.

Fixpoint write_parts (fuel : nat) (parts : list sspm_part) (part_num : nat) : outcome cstring :=
  match fuel with
  | O => Fault NO_FUEL
  | S fuel =>
      match nth_error parts part_num with
      | None => Fault NO_PART_LEFT
      | Some part =>
          if is_no_part part then Done []
          else
            let! (text, part_num) := write_any (write_children (S (length parts)) parts) part part_num in
            let! rest := write_parts fuel parts (S part_num) in
            Done (text ++ rest)
      end
  end.

Definition ends_line (text : cstring) : bool :=
  match rev text with
  | c :: _ => Ascii.eqb c LF
  | [] => true
  end.

Definition sspm_write_mime (parts : list sspm_part) (header : option cstring) : outcome cstring :=
  let header := match header with Some h => h | None => [] end in
  let! body := write_parts (S (length parts)) parts O in
  Done (header ++ (if ends_line header then [] else [LF]) ++ $"Mime-Version: 1.0" ++ [LF] ++ body).

End Mime.

Arguments sspm_action_map : clear implicits.
Arguments sspm_part : clear implicits.
Arguments mime_impl : clear implicits.
