(* ===== verification/SspmMimeSafe.v ===== *)
(** * Reading a MIME message ends (sspm.c)

    Every loop of the parser reads a line in each round: the fuel is enough.  With
    one part more than there are lines, the array of parts is never left and
    no null pointer is used.  What is left are the assertions on the length of header lines
    and the copy of a parameter whose quote is behind the next semicolon. *)
From Stdlib Require Import String Ascii ZArith Lia Bool List.
From S2P Require Import Prelude CString IcalValueText IcalParameter Sspm SspmMime.
Import ListNotations.
#[local] Open Scope cstring_scope.

(** The result satisfies [P], unless an assertion fails or the static buffer is left. *)
Definition yields {T} (P : T -> Prop) (o : outcome T) : Prop :=
  match o with
  | Done a => P a
  | Fault f => f = ASSERTION \/ f = BUFFER_OVERFLOW
  end.

Lemma yields_bind {T U} (P : T -> Prop) (Q : U -> Prop) o k : yields P o -> (forall a, P a -> yields Q (k a)) -> yields Q (and_then o k).
Proof. destruct o; cbn; auto. Qed.

Lemma yields_weaken {T} (P Q : T -> Prop) o : yields P o -> (forall a, P a -> Q a) -> yields Q o.
Proof. destruct o; cbn; auto. Qed.

(** ** Headers *)

Definition has_colon (line : cstring) : Prop := In ":"%char line.

Lemma split_at_in c s : In c s -> split_at c s <> None.
Proof.
  induction s as [|d s IH]; [easy|]. cbn [In split_at]. intros H. destruct (Ascii.eqb_spec c d); [easy|].
  destruct (split_at c s) as [[a b]|]; [easy|]. destruct H; [congruence|]. now apply IH.
Qed.

Lemma in_split_at c s p : split_at c s = Some p -> In c s.
Proof.
  revert p. induction s as [|d s IH]; [easy|]. cbn [split_at In]. intros p. destruct (Ascii.eqb_spec c d); [auto|].
  destruct (split_at c s) as [[a b]|]; [|easy]. intros _. right. now apply (IH (a, b)).
Qed.

Lemma mail_header_colon line : sspm_is_mail_header line = true -> has_colon line.
Proof.
  unfold sspm_is_mail_header, sspm_property_name. destruct (split_at ":" line) eqn:E; [|easy]. intros _. now apply (in_split_at _ _ _ E).
Qed.

Lemma header_colon line : get_line_type line = MAIL_HEADER \/ get_line_type line = MIME_HEADER -> has_colon line.
Proof.
  unfold get_line_type. destruct (sspm_is_blank line); [now intros []|]. destruct (sspm_is_mime_header line) eqn:E.
  - intros _. unfold sspm_is_mime_header, sspm_property_name in E. destruct (split_at ":" line) eqn:Es; [|easy]. now apply (in_split_at _ _ _ Es).
  - destruct (sspm_is_mail_header line) eqn:Em; [intros _; now apply mail_header_colon|].
    destruct (sspm_is_continuation_line line), (sspm_is_mime_terminating_boundary line), (sspm_is_mime_boundary line); now intros [].
Qed.

Lemma chomp_colon line : has_colon line -> has_colon (chomp line).
Proof.
  unfold has_colon, chomp. intros H. destruct (rev line) as [|c r] eqn:E; [assumption|]. destruct (Ascii.eqb_spec c LF) as [->|]; [|assumption].
  apply in_rev in H. rewrite E in H. destruct H; [easy|]. now apply -> in_rev.
Qed.

Lemma parameter_yields name line parameter : yields (fun _ => True) (sspm_get_parameter name line parameter).
Proof.
  unfold sspm_get_parameter. destruct (strstr line parameter); [|easy]. eapply (yields_bind (fun _ => True)).
  - destruct (position_of ";" _); [|easy]. destruct (Nat.leb _ _); cbn; auto.
  - intros n _. now destruct (last_position_of QUOTE (upto_nul n)).
Qed.

Lemma build_header_yields name header line : has_colon line -> yields (fun _ => True) (sspm_build_header name header line).
Proof.
  intros H. unfold sspm_build_header, sspm_property_name. pose proof (split_at_in _ _ H) as Hs. destruct (split_at ":" line); [|easy]. cbn [option_map].
  destruct (strcaseeqb _ _).
  - eapply yields_bind; [apply parameter_yields|]. now intros [n b] _.
  - destruct (strcaseeqb _ _); [easy|]. now destruct (strcaseeqb _ _).
Qed.

Lemma build_headers_yields lines : forall name header, Forall has_colon lines -> yields (fun _ => True) (build_headers name header lines).
Proof.
  induction lines as [|line lines IH]; [easy|]. intros name header H. inversion H as [|? ? Hl Hr]; subst. destruct line as [|c line]; [easy|].
  cbn [build_headers]. eapply yields_bind; [now apply build_header_yields|]. intros [n h] _. now apply IH.
Qed.

(** The lines that are left. *)
Notation left rd := (length (rd_input rd)).

Definition header_result (n : nat) (before : list cstring) (r : reader * header_end) : Prop :=
  (left (fst r) <= n)%nat /\ (before = [] -> (0 < n)%nat -> (left (fst r) < n)%nat) /\
  match snd r with HeaderLines lines => Forall has_colon lines /\ (n = O -> lines = before) | Malformed _ => (0 < n)%nat end.

Lemma header_result_next n before before' r : before' <> [] -> header_result n before' r -> header_result (S n) before r.
Proof.
  intros Hb (H1 & _ & H2). split; [lia|]. split; [lia|]. destruct (snd r); [|lia]. split; [apply H2 | lia].
Qed.

Lemma read_header_lines_yields input : forall temp state before, Forall has_colon before ->
  yields (header_result (length input) before) (read_header_lines input temp state before).
Proof.
  induction input as [|buf input IH]; intros temp state before Hb; cbn [read_header_lines];
    (destruct (Nat.ltb_spec (length before) (MAX_HEADER_LINES - 1)) as [Hl|Hl];
     [|split; [easy|split; [intros ->; cbn in Hl; lia | now split]]]).
  { split; [easy|]. split; [cbn; lia | now split]. }
  assert (Hm : forall st e, match e with HeaderLines lines => lines = before | Malformed _ => True end ->
    header_result (length (buf :: input)) before (Reader input buf st, e)).
  { intros st e He. split; [cbn; lia|]. split; [cbn; lia|]. destruct e; cbn; [subst; now split | lia]. }
  pose proof (header_colon buf) as Hc. destruct (get_line_type buf); try now apply Hm.
  - destruct (Nat.ltb _ _); [|now left]. eapply yields_weaken; [apply IH, Forall_app; auto|].
    intros r. apply header_result_next. now destruct before.
  - destruct (Nat.ltb _ _); [|now left]. eapply yields_weaken; [apply IH, Forall_app; auto|].
    intros r. apply header_result_next. now destruct before.
  - destruct (rev before) as [|last front] eqn:Er; [now apply Hm|]. destruct (Nat.ltb _ _); [|now left].
    assert (Hr : Forall has_colon (last :: front)) by (rewrite <- Er; now apply Forall_rev). inversion Hr; subst.
    eapply yields_weaken; [apply IH, Forall_app; split; [now apply Forall_rev|]|].
    + constructor; [|easy]. apply in_or_app. left. now apply chomp_colon.
    + intros r. apply header_result_next. now destruct (rev front).
Qed.

(** A header that is read from no line is the default one. *)
Definition header_read (n : nat) (r : reader * cstring * sspm_header) : Prop :=
  let '(rd, _, header) := r in (left rd <= n)%nat /\ ((left rd < n)%nat \/ (n = O /\ header = default_header)).

Lemma read_header_yields rd name : yields (header_read (left rd)) (sspm_read_header rd name).
Proof.
  unfold sspm_read_header. eapply yields_bind; [now apply read_header_lines_yields|]. intros [rd' e] (H1 & H2 & H3). cbn [fst snd] in *.
  destruct e as [lines|line].
  - destruct H3 as [Hc He]. destruct (Nat.eq_dec (left rd) 0) as [Hn|Hn].
    + rewrite (He Hn). split; [assumption|]. right. now split.
    + eapply yields_bind; [now apply build_headers_yields|]. intros [n h] _. split; [assumption|]. left. apply H2; [reflexivity|lia].
  - split; [assumption|]. left. now apply H2.
Qed.

(** ** Parts *)

Section Safe.
Context {A W : Type}.
Implicit Types (m : mime_impl A W).

Notation lines m := (length (rd_input (mi_reader m))).

Lemma skip_to_left boundary input : forall temp state, (left (skip_to boundary input temp state) <= length input)%nat.
Proof. induction input as [|l input IH]; intros temp state; cbn; [lia|]. destruct (streqb boundary l); cbn; [lia|]. specialize (IH l state). lia. Qed.

Lemma skip_paired_left line rd : (left (skip_paired line rd) <= left rd)%nat.
Proof. apply skip_to_left. Qed.

(** What a change of parts leaves: their number, the number of the next and the lines. *)
Definition same_counts m m' : Prop :=
  length (mi_parts m') = length (mi_parts m) /\ mi_part_no m' = mi_part_no m /\ mi_reader m' = mi_reader m /\ mi_level m' = mi_level m.

Lemma set_part_yields i part m : (i < length (mi_parts m))%nat ->
  yields (fun m' => same_counts m m' /\ mi_parts m' = firstn i (mi_parts m) ++ part :: skipn (S i) (mi_parts m)) (set_part i part m).
Proof.
  intros Hi. unfold set_part. apply Nat.ltb_lt in Hi as Hb. rewrite Hb. split; [|reflexivity]. repeat split. cbn [mi_parts].
  rewrite length_app, length_firstn. cbn [length]. rewrite length_skipn. lia.
Qed.

Lemma part_after_set i part m m' : (i < length (mi_parts m))%nat -> mi_parts m' = firstn i (mi_parts m) ++ part :: skipn (S i) (mi_parts m) -> part_at i m' = part.
Proof.
  intros Hi H. unfold part_at. rewrite H, app_nth2; rewrite length_firstn; [|lia]. replace (i - Nat.min i (length (mi_parts m)))%nat with O by lia. reflexivity.
Qed.

(** An error in the header leaves its boundary. *)
Lemma set_part_error_yields i e msg m : (i < length (mi_parts m))%nat ->
  yields (fun m' => same_counts m m' /\ h_boundary (sp_header (part_at i m')) = h_boundary (sp_header (part_at i m))) (set_part_error i e msg m).
Proof.
  intros Hi. unfold set_part_error. eapply yields_weaken; [now apply set_part_yields|]. intros m' [Hs Hp]. split; [assumption|].
  now rewrite (part_after_set i _ m m' Hi Hp).
Qed.

Lemma store_part_yields header part size m : (mi_part_no m < length (mi_parts m))%nat ->
  yields (fun m' => length (mi_parts m') = length (mi_parts m) /\ mi_part_no m' = S (mi_part_no m) /\ mi_reader m' = mi_reader m) (sspm_store_part header part size m).
Proof.
  intros Hi. unfold sspm_store_part. eapply yields_bind; [now apply set_part_yields|]. intros m' [(H1 & H2 & H3 & H4) _]. cbn. now rewrite H2.
Qed.

(** ** Bodies *)

(** The parent of a body has a boundary. *)
Definition parent_ok (parent : option nat) m : Prop :=
  match parent with
  | None => True
  | Some i => (i < length (mi_parts m))%nat /\ h_boundary (sp_header (part_at i m)) <> None
  end.

Definition body_read m (r : mime_impl A W * sspm_header * option A * nat) : Prop :=
  let '(m', _, _, _) := r in
  length (mi_parts m') = length (mi_parts m) /\ mi_part_no m' = mi_part_no m /\ (lines m' <= lines m)%nat /\
  (lines m = O -> rd_state (mi_reader m') = END_OF_INPUT).

Lemma read_body_yields fuel : forall m action header parent part size, (lines m < fuel)%nat -> parent_ok parent m ->
  yields (body_read m) (read_body fuel m action header parent part size).
Proof.
  induction fuel as [|fuel IH]; intros m action header parent part size Hf Hp; [lia|]. cbn [read_body]. unfold sspm_get_next_line.
  assert (Hend : forall m1 h a p z, length (mi_parts m1) = length (mi_parts m) -> mi_part_no m1 = mi_part_no m -> (lines m1 <= lines m)%nat ->
    (lines m = O -> rd_state (mi_reader m1) = END_OF_INPUT) -> yields (body_read m) (end_body m1 a h p z)).
  { intros m1 h a p z E1 E2 E3 E4. unfold end_body. destruct (am_end_part a p (mi_world m1)). now repeat split. }
  destruct (rd_input (mi_reader m)) as [|line input] eqn:Ei; [apply Hend; cbn; auto; lia|]. cbn [length] in Hf.
  assert (Hrest : forall m' r, length (mi_parts m') = length (mi_parts m) -> mi_part_no m' = mi_part_no m -> (lines m' <= length input)%nat ->
    body_read m' r -> body_read m r).
  { intros m' [[[m'' h] p] s] E1 E2 E3 (F1 & F2 & F3 & F4). repeat split; try congruence; rewrite Ei; cbn [length]; lia. }
  destruct (sspm_is_mime_boundary line).
  - destruct parent as [i|].
    + destruct Hp as [Hi Hb]. change (part_at i (with_reader _ m)) with (part_at i m). destruct (h_boundary (sp_header (part_at i m))) as [b|] eqn:Eb; [|easy].
      destruct (streqb (skipn 2 line) b); [apply Hend; cbn; rewrite ?Ei; cbn; lia|].
      eapply yields_bind; [now apply set_part_error_yields|]. intros m1 [(H1 & H2 & H3 & H4) H5]. cbn [with_reader mi_parts mi_part_no] in *.
      pose proof (skip_paired_left line (Reader input line (rd_state (mi_reader m)))) as Hsk. cbn [rd_input] in Hsk.
      eapply yields_weaken; [apply IH|].
      * cbn [with_reader mi_reader]. lia.
      * split; [cbn; congruence|]. change (part_at i (with_reader _ m1)) with (part_at i m1). rewrite H5. change (part_at i (with_reader _ m)) with (part_at i m).
        now rewrite Eb.
      * intros r. apply Hrest; cbn [with_reader mi_reader mi_parts mi_part_no]; auto.
    + pose proof (skip_paired_left line (Reader input line (rd_state (mi_reader m)))) as Hsk. cbn [rd_input] in Hsk. repeat split; rewrite ?Ei; cbn [with_reader mi_reader length]; lia.
  - destruct (decode_line (h_encoding header) line) as [data size']. eapply yields_weaken; [apply IH; [cbn; lia | now destruct parent]|].
    intros r. apply Hrest; cbn; auto.
Qed.

Lemma store_body_yields actions m header parent : parent_ok parent m -> (mi_part_no m < length (mi_parts m))%nat ->
  yields (fun r => let m' := fst r in length (mi_parts m') = length (mi_parts m) /\ mi_part_no m' = S (mi_part_no m) /\ (lines m' <= lines m)%nat /\
    (lines m = O -> rd_state (mi_reader m') = END_OF_INPUT)) (store_body actions m header parent).
Proof.
  intros Hp Hi. unfold store_body, sspm_make_part. eapply yields_bind; [apply read_body_yields; [cbn; lia | now destruct parent]|].
  intros [[[m1 h] p] s] (H1 & H2 & H3 & H4). cbn [with_state with_reader mi_parts mi_part_no mi_reader rd_input] in *.
  eapply yields_bind; [apply set_part_yields; lia|]. intros m2 [(G1 & G2 & G3 & G4) _].
  eapply yields_bind; [apply store_part_yields; lia|]. intros m3 (K1 & K2 & K3). cbn. rewrite K3, G3. repeat split; try congruence; auto.
Qed.

(** ** Multipart messages *)

(** A step of the loop over the parts: either a line is read, and parts and lines
    are not more than before, or the input has ended, with one part more. *)
Definition advances m m' : Prop :=
  length (mi_parts m') = length (mi_parts m) /\ (lines m' <= lines m)%nat /\
  (((lines m' < lines m)%nat /\ (mi_part_no m' + lines m' <= mi_part_no m + lines m)%nat) \/
   (rd_state (mi_reader m') = END_OF_INPUT /\ (mi_part_no m' <= mi_part_no m + lines m + 1)%nat)).

(** There is room for as many parts as there are lines. *)
Definition roomy m : Prop := (mi_part_no m + lines m + 1 < length (mi_parts m))%nat.

Lemma find_opening_left boundary input : forall temp state,
  match find_opening boundary input temp state with
  | Opened rd => (left rd <= length input)%nat
  | WrongBoundary _ rd => (left rd < length input)%nat
  end.
Proof.
  induction input as [|l input IH]; intros temp state; cbn [find_opening]; [cbn; lia|]. destruct (sspm_is_mime_boundary l).
  - destruct (negb _ && _); cbn; lia.
  - specialize (IH l state). destruct (find_opening boundary input l state); cbn [length]; lia.
Qed.

Lemma open_part_left boundary rd :
  match open_part boundary rd with Opened rd' => (left rd' <= left rd)%nat | WrongBoundary _ rd' => (left rd' < left rd)%nat end.
Proof.
  unfold open_part. pose proof (find_opening_left boundary (rd_input rd) (rd_temp rd) (rd_state rd)) as H.
  destruct (get_line_type (rd_temp rd)); try apply H. lia.
Qed.

Lemma next_line_left rd : (left (snd (sspm_get_next_line rd)) <= left rd)%nat.
Proof. unfold sspm_get_next_line. destruct (rd_input rd); cbn; lia. Qed.

Lemma next_line_state rd : rd_state rd = END_OF_INPUT -> rd_state (snd (sspm_get_next_line rd)) = END_OF_INPUT.
Proof. unfold sspm_get_next_line. now destruct (rd_input rd). Qed.

Lemma make_multipart_yields subparts m : roomy m ->
  (forall m', length (mi_parts m') = length (mi_parts m) -> mi_reader m' = mi_reader m -> roomy m' -> yields (advances m') (subparts m')) ->
  yields (advances m) (make_multipart subparts m).
Proof.
  unfold roomy. intros Hr Hs. unfold make_multipart. eapply yields_bind; [apply set_part_yields; cbn; lia|]. intros m1 [(H1 & H2 & H3 & H4) _].
  eapply yields_bind; [apply Hs; rewrite ?H1, ?H2, ?H3; auto|]. intros m2. unfold advances. cbn [yields]. rewrite H1, H2, H3. auto.
Qed.

(** The number of the next part and the lines that are left, before a header was read. *)
Definition header_done m m1 header : Prop :=
  length (mi_parts m1) = length (mi_parts m) /\ mi_part_no m1 = mi_part_no m /\ (lines m1 <= lines m)%nat /\
  ((lines m1 < lines m)%nat \/ (lines m1 = O /\ header = default_header)).

Lemma store_error_yields m m1 header : roomy m -> header_done m m1 header -> header <> default_header ->
  yields (fun r => advances m (fst r))
    (if h_def header then Done (m1, @None A) else and_then (sspm_store_part header None O m1) (fun m => Done (m, @None A))).
Proof.
  unfold roomy. intros Hr (E1 & E2 & E3 & [E4|[_ E4]]) Hd; [|easy]. destruct (h_def header).
  - split; [assumption|]. cbn [fst]. split; [assumption|]. left. lia.
  - eapply yields_bind; [apply store_part_yields; lia|]. intros m2 (H1 & H2 & H3). cbn [yields fst]. unfold advances. rewrite H1, H2, H3.
    split; [assumption|]. split; [assumption|]. left. lia.
Qed.

Section Nested.
Context (make_multipart : nat -> mime_impl A W -> outcome (mime_impl A W)) (n bound : nat).
Hypothesis make_multipart_ok : forall child m, length (mi_parts m) = n -> (child < n)%nat -> (lines m < bound)%nat -> roomy m ->
  yields (advances m) (make_multipart child m).

Lemma store_multipart_yields m m1 header : roomy m -> header_done m m1 header -> length (mi_parts m) = n -> lines m = bound -> header <> default_header ->
  yields (fun r => advances m (fst r)) (store_multipart make_multipart header m1).
Proof.
  unfold roomy. intros Hr (E1 & E2 & E3 & [E4|[_ E4]]) Hn Hb Hd; [|easy]. unfold store_multipart.
  eapply yields_bind; [apply store_part_yields; lia|]. intros m2 (H1 & H2 & H3).
  eapply yields_bind; [apply make_multipart_ok; unfold roomy; rewrite ?H1, ?H2, ?H3; lia|]. intros m3 (K1 & K2 & K3). rewrite H1, H2, H3 in *.
  assert (Ha : forall m4, mi_part_no m4 = mi_part_no m3 -> length (mi_parts m4) = length (mi_parts m3) -> (lines m4 <= lines m3)%nat ->
    (rd_state (mi_reader m3) = END_OF_INPUT -> rd_state (mi_reader m4) = END_OF_INPUT) -> advances m m4).
  { intros m4 F1 F2 F3 F4. split; [lia|]. split; [lia|]. destruct K3 as [K3|[K3 K4]]; [left; lia|right]. split; [auto|lia]. }
  assert (Herr : yields (fun r => advances m (fst r))
    (and_then (set_part_error (mi_part_no m1) SSPM_NO_BOUNDARY_ERROR (Some (rd_temp (mi_reader m3))) m3) (fun m => Done (m, @None A)))).
  { eapply yields_bind; [apply set_part_error_yields; lia|]. intros m4 [(G1 & G2 & G3 & G4) _]. apply Ha; cbn [fst]; rewrite ?G3; auto. }
  destruct (get_line_type (rd_temp (mi_reader m3))); try exact Herr.
  apply Ha; cbn [with_reader mi_reader mi_part_no mi_parts fst]; auto; [apply next_line_left | apply next_line_state].
Qed.

Lemma store_after_header_yields actions parent m m1 header : roomy m -> header_done m m1 header -> length (mi_parts m) = n -> lines m = bound ->
  parent_ok (Some parent) m1 -> yields (fun r => advances m (fst r)) (store_after_header make_multipart actions parent header m1).
Proof.
  intros Hr Hd Hn Hb Hp. unfold store_after_header. destruct (h_error header) eqn:Ee.
  - destruct (major_eqb (h_major header) SSPM_MULTIPART_MAJOR_TYPE) eqn:Em; [apply store_multipart_yields; auto; now intros ->|].
    destruct Hd as (E1 & E2 & E3 & E4). unfold roomy in Hr. eapply yields_weaken; [apply store_body_yields; [assumption|lia]|].
    intros [m2 p] (H1 & H2 & H3 & H4). cbn [fst] in *. split; [lia|]. split; [lia|].
    destruct E4 as [E4|[E4 _]]; [left; lia | right; split; [now apply H4 | lia]].
  - now apply store_error_yields; [| | intros ->].
  - now apply store_error_yields; [| | intros ->].
  - now apply store_error_yields; [| | intros ->].
  - now apply store_error_yields; [| | intros ->].
  - now apply store_error_yields; [| | intros ->].
Qed.

End Nested.

Lemma multipart_subpart_yields make_multipart actions parent m : roomy m -> (parent < length (mi_parts m))%nat ->
  (forall child m', length (mi_parts m') = length (mi_parts m) -> (child < length (mi_parts m))%nat -> (lines m' < lines m)%nat -> roomy m' ->
    yields (advances m') (make_multipart child m')) ->
  yields (fun r => advances m (fst r)) (sspm_make_multipart_subpart make_multipart actions parent m).
Proof.
  intros Hr Hp Hrec. unfold sspm_make_multipart_subpart. destruct (h_boundary (sp_header (part_at parent m))) as [b|] eqn:Eb.
  2: { eapply yields_bind; [now apply set_part_error_yields|]. intros m1 [(H1 & H2 & H3 & H4) _]. split; [assumption|]. split; [cbn; lia|]. right. cbn.
       rewrite H2. split; [reflexivity|lia]. }
  pose proof (open_part_left b (mi_reader m)) as Ho. destruct (open_part b (mi_reader m)) as [rd|line rd].
  2: { eapply yields_bind; [now apply set_part_error_yields|]. intros m1 [(H1 & H2 & H3 & H4) _]. pose proof (skip_paired_left line rd) as Hk.
       split; [assumption|]. cbn [fst with_reader mi_reader mi_part_no]. rewrite H2. split; [lia|]. left. lia. }
  eapply yields_bind; [apply read_header_yields|]. intros [[rd1 name] header] [Hl Hd].
  apply (store_after_header_yields make_multipart (length (mi_parts m)) (lines m)); auto.
  - split; [reflexivity|]. split; [reflexivity|]. cbn [mi_reader]. split; [lia|]. destruct Hd as [Hd|[Hd ->]]; [left; lia | right; split; [lia|reflexivity]].
  - split; [exact Hp|]. change (part_at parent (Mime _ _ _ rd1 name _)) with (part_at parent m). now rewrite Eb.
Qed.

Lemma clean_part_yields m : (mi_part_no m < length (mi_parts m))%nat -> yields (same_counts m) (clean_part m).
Proof. intros H. eapply yields_weaken; [now apply set_part_yields|]. now intros m' []. Qed.

Lemma advances_trans m m1 m2 : advances m m1 -> at_end m1 = false -> advances m1 m2 -> advances m m2.
Proof.
  intros (E1 & E2 & E3) Ha (F1 & F2 & F3). destruct E3 as [E3|[E3 _]].
  - split; [congruence|]. split; [lia|]. destruct F3 as [F3|[F3 F4]]; [left; lia | right; split; [assumption|lia]].
  - unfold at_end in Ha. rewrite E3 in Ha. now destruct (get_line_type _).
Qed.

Lemma make_subparts_yields actions fuel : forall parent m, (lines m < fuel)%nat -> roomy m -> (parent < length (mi_parts m))%nat ->
  yields (advances m) (make_subparts fuel actions parent m).
Proof.
  induction fuel as [|fuel IH]; intros parent m Hf Hr Hp; [lia|]. cbn [make_subparts].
  eapply yields_bind.
  { apply multipart_subpart_yields; [assumption|assumption|]. intros child m' E1 E2 E3 E4. apply make_multipart_yields; [assumption|].
    intros m'' F1 F2 F3. apply IH; [rewrite F2; lia | assumption | lia]. }
  intros [m1 part] H1. cbn [fst] in H1. eapply (yields_bind (advances m)).
  - destruct part; [exact H1|]. eapply yields_weaken; [apply clean_part_yields|].
    + unfold roomy in Hr. destruct H1 as (E1 & E2 & [E3|E3]); lia.
    + intros m2 (F1 & F2 & F3 & F4). unfold advances. now rewrite F1, F2, F3.
  - intros m2 H2. destruct (at_end m2) eqn:Ea; [exact H2|]. pose proof H2 as (E1 & E2 & [E3|[E3 _]]).
    + eapply yields_weaken; [apply IH; unfold roomy in *; lia|]. intros m3. now apply advances_trans.
    + unfold at_end in Ea. rewrite E3 in Ea. now destruct (get_line_type _).
Qed.

Lemma parse_mime_yields (parts : list (sspm_part A)) actions input name (world : W) : (length input + 1 < length parts)%nat ->
  yields (fun m => length (mi_parts m) = length parts) (sspm_parse_mime parts actions input name world).
Proof.
  intros Hn. unfold sspm_parse_mime. eapply yields_bind; [apply read_header_yields|]. intros [[rd name'] header] [Hl Hd]. cbn [rd_input] in Hl, Hd.
  set (m := Mime _ _ _ _ _ _). assert (Hm : length (mi_parts m) = length parts) by apply length_map. destruct (major_eqb _ _) eqn:Em.
  - destruct Hd as [Hd|[_ ->]]; [|discriminate]. eapply yields_bind; [apply store_part_yields; cbn [m mi_part_no]; lia|]. intros m1 (H1 & H2 & H3).
    unfold sspm_make_multipart_part. cbn [m mi_part_no mi_reader] in H2, H3. eapply yields_weaken.
    + apply make_multipart_yields; [unfold roomy; rewrite H1, H2, H3; lia|]. intros m' E1 E2 E3. apply make_subparts_yields; rewrite ?E2; auto. lia.
    + intros m2 [E _]. congruence.
  - eapply yields_bind; [apply store_body_yields; [exact I | cbn [m mi_part_no]; lia]|]. intros [m1 p] (H1 & _). cbn [fst] in H1. cbn. congruence.
Qed.

End Safe.

(** C37: Reading a MIME message ends, however its parts are nested and whatever its
    boundaries are; with an array of two parts more than there are lines, no part
    is stored outside of it and no null pointer is used.  Only an assertion on the length of a header line
    can fail, or the copy of the parameter [boundary] leave its static buffer. *)
Theorem mime_parser_ends {A W} (parts : list (sspm_part A)) actions input name (world : W) : (length input + 1 < length parts)%nat ->
  match sspm_parse_mime parts actions input name world with
  | Done m => length (mi_parts m) = length parts
  | Fault f => f = ASSERTION \/ f = BUFFER_OVERFLOW
  end.
Proof. intros Hn. exact (parse_mime_yields parts actions input name world Hn). Qed.

(** Parts in parts, up to the last line. *)
Definition nested_message : list cstring :=
  map (fun l => l ++ [LF]) [$"Content-Type: multipart/mixed; boundary=XX"; []; $"--XX"; $"Content-Type: multipart/mixed; boundary=YY"; [];
                           $"--YY"; []; $"deep"; $"--YY--"; $"--XX"].

Lemma mime_parser_ends_witness :
  match sspm_parse_mime (repeat (zero_part (A := cstring)) 20) [] nested_message (repeat NUL 1024) tt with
  | Done m => length (mi_parts m) = length (repeat (zero_part (A := cstring)) 20)
  | Fault f => f = ASSERTION \/ f = BUFFER_OVERFLOW
  end.
Proof. apply (mime_parser_ends (repeat zero_part 20) [] nested_message (repeat NUL 1024) tt). apply Nat.ltb_lt. vm_compute. reflexivity. Defined.
