(* ===== verification/SspmMimeText.v ===== *)
(** * What is read from a MIME message (sspm.c)

    The body of a message of a single part is handed on line by line; what
    [sspm_write_mime] has written is read back, and a body in base64 is decoded.
    The examples at the end are messages that are not read as they are meant. *)
From Stdlib Require Import String Ascii ZArith Lia Bool List.
From S2P Require Import Prelude CString IcalValueText IcalParameter Sspm SspmMime.
Import ListNotations.
#[local] Open Scope cstring_scope.

Section Reading.
Context {A W : Type}.
Implicit Types (m : mime_impl A W) (action : sspm_action_map A W).

(** The lines are decoded and added one after the other; the size is that of the last one. *)
Definition add_lines action (header : sspm_header) (lines : list cstring) (part : option A) : option A :=
  fold_left (fun part line => let '(data, size) := decode_line (h_encoding header) line in am_add_line action part header data size) lines part.

Definition last_size (header : sspm_header) (lines : list cstring) (size : nat) : nat :=
  fold_left (fun _ line => snd (decode_line (h_encoding header) line)) lines size.

Definition no_boundaries (lines : list cstring) : bool := forallb (fun line => negb (sspm_is_mime_boundary line)) lines.

Lemma read_plain_body action header parent lines : forall fuel m part size, (length lines < fuel)%nat -> no_boundaries lines = true ->
  rd_input (mi_reader m) = lines ->
  read_body fuel m action header parent part size =
  end_body (with_reader (read_all (mi_reader m)) m) action header (add_lines action header lines part) (last_size header lines size).
Proof.
  induction lines as [|line lines IH]; intros [|fuel] m part size Hf Hb Hi; cbn [length] in Hf; try lia; cbn [read_body]; unfold sspm_get_next_line; rewrite Hi.
  - unfold read_all. now rewrite Hi.
  - cbn [no_boundaries forallb] in Hb. apply andb_prop in Hb as [Hl Hb]. apply negb_true_iff in Hl. rewrite Hl.
    destruct (decode_line (h_encoding header) line) as [data size'] eqn:Ed. rewrite IH by (assumption || lia || reflexivity).
    unfold read_all. cbn [with_reader mi_reader mi_parts mi_part_no mi_level mi_name rd_input rd_temp add_lines last_size fold_left]. rewrite Ed, Hi.
    replace (last (line :: lines) (rd_temp (mi_reader m))) with (last lines line); [reflexivity|].
    clear. revert line. induction lines as [|l lines IH]; intros line; [reflexivity|]. cbn [last] in *. destruct lines; [reflexivity|]. apply IH.
Qed.

(** A message of one part that is not multipart. *)
Lemma parse_single (first : sspm_part A) parts actions input rd name name' header world :
  sspm_read_header (Reader input [] UNKNOWN_STATE) name = Done (rd, name', header) ->
  major_eqb (h_major header) SSPM_MULTIPART_MAJOR_TYPE = false -> no_boundaries (rd_input rd) = true ->
  let action := get_action actions (h_major header) (h_minor header) in
  let ended := am_end_part action (add_lines action header (rd_input rd) (am_new_part action)) world in
  exists m, sspm_parse_mime (first :: parts) actions input name world = Done m /\ mi_part_no m = 1%nat /\ mi_world m = snd ended /\
    mi_parts m = Part header 0 (last_size header (rd_input rd) 0) (fst ended) :: map untyped parts.
Proof.
  intros Hh Hm Hb action ended. unfold sspm_parse_mime. rewrite Hh. cbn [and_then]. rewrite Hm. unfold store_body, sspm_make_part.
  rewrite (read_plain_body _ _ _ (rd_input rd)); [|cbn; lia | assumption | reflexivity].
  unfold end_body. cbn [with_reader with_state mi_world]. fold action ended. destruct ended as [part world']. cbn [and_then fst snd].
  eexists. split; [reflexivity|]. now repeat split.
Qed.

End Reading.

(** ** Headers *)

Lemma text_lines_line l r : one_line l = true -> text_lines ((l ++ [LF]) ++ r) = (l ++ [LF]) :: text_lines r.
Proof. intros H. rewrite <- app_assoc. now apply text_lines_break. Qed.

Lemma read_mime_line l rest temp state before : get_line_type l = MIME_HEADER -> (length l < TMP_BUF_SIZE)%nat -> (length before < 24)%nat ->
  read_header_lines (l :: rest) temp state before = read_header_lines rest l IN_HEADER (before ++ [l]).
Proof. intros Ht Hl Hb. cbn [read_header_lines]. apply Nat.ltb_lt in Hl, Hb. change (MAX_HEADER_LINES - 1)%nat with 24%nat. now rewrite Ht, Hl, Hb. Qed.

(** Two lines of a header and the blank line. *)
Lemma read_two_headers l1 l2 rest name name1 name2 h1 h2 :
  get_line_type l1 = MIME_HEADER -> get_line_type l2 = MIME_HEADER -> (length l1 < TMP_BUF_SIZE)%nat -> (length l2 < TMP_BUF_SIZE)%nat ->
  sspm_build_header name default_header l1 = Done (name1, h1) -> sspm_build_header name1 h1 l2 = Done (name2, h2) ->
  sspm_read_header (Reader (l1 :: l2 :: [LF] :: rest) [] UNKNOWN_STATE) name = Done (Reader rest [LF] END_OF_HEADER, name2, h2).
Proof.
  intros T1 T2 L1 L2 B1 B2. unfold sspm_read_header. cbn [rd_input rd_temp rd_state].
  rewrite 2!read_mime_line by (assumption || (cbn; lia)). change (read_header_lines ([LF] :: rest) l2 IN_HEADER (([] ++ [l1]) ++ [l2])) with
    (Done (Reader rest [LF] END_OF_HEADER, HeaderLines [l1; l2])).
  destruct l1 as [|c1 l1]; [discriminate T1|]. destruct l2 as [|c2 l2]; [discriminate T2|].
  cbn [and_then build_headers]. rewrite B1. cbn [and_then build_headers]. now rewrite B2.
Qed.

(** ** What is written is read *)

Definition single_type (major : sspm_major_type) : bool :=
  match major with
  | SSPM_NO_MAJOR_TYPE | SSPM_MULTIPART_MAJOR_TYPE | SSPM_UNKNOWN_MAJOR_TYPE => false
  | _ => true
  end.
Definition known_subtype (minor : sspm_minor_type) : bool :=
  match minor with
  | SSPM_NO_MINOR_TYPE | SSPM_UNKNOWN_MINOR_TYPE => false
  | _ => true
  end.

Definition version_line : cstring := $"Mime-Version: 1.0".
Definition type_line (major : sspm_major_type) (minor : sspm_minor_type) : cstring :=
  $"Content-Type: " ++ sspm_major_type_string major ++ $"/" ++ sspm_minor_type_string minor.

(** The header that is read for a type. *)
Definition typed_header (major : sspm_major_type) (minor : sspm_minor_type) (encoding : sspm_encoding) : sspm_header :=
  Header false None major minor None None None encoding None None SSPM_NO_ERROR None.

(** A line of a type names no boundary, and its type is found again. *)
Lemma type_line_read major minor : single_type major = true -> known_subtype minor = true ->
  let l := type_line major minor ++ [LF] in
  get_line_type l = MIME_HEADER /\ Nat.ltb (length l) TMP_BUF_SIZE = true /\ one_line (type_line major minor) = true /\
  sspm_property_name l = Some $"Content-Type" /\ strstr l $"boundary" = None /\
  build_content_type default_header (sspm_value l) None = typed_header major minor SSPM_NO_ENCODING /\
  snprintf TMP_BUF_SIZE (type_line major minor) = type_line major minor.
Proof. destruct major; try discriminate; intros _; destruct minor; try discriminate; intros _; vm_compute; repeat split. Qed.

Lemma build_version name : sspm_build_header name default_header (version_line ++ [LF]) = Done (name, default_header).
Proof. reflexivity. Qed.

Lemma build_type name major minor : single_type major = true -> known_subtype minor = true ->
  sspm_build_header name default_header (type_line major minor ++ [LF]) = Done (name, typed_header major minor SSPM_NO_ENCODING).
Proof.
  intros Hm Hn. destruct (type_line_read major minor Hm Hn) as (_ & _ & _ & Hp & Hb & Ht & _). unfold sspm_build_header. rewrite Hp.
  change (strcaseeqb $"Content-Type" $"Content-Type") with true. cbv iota. unfold sspm_get_parameter. rewrite Hb. cbn [and_then]. now rewrite Ht.
Qed.

(** A part with text and no encoding that changes it. *)
Record plain_part {A} (part : sspm_part A) (data : A) : Prop := {
  plain_type : single_type (h_major (sp_header part)) = true;
  plain_subtype : known_subtype (h_minor (sp_header part)) = true;
  plain_boundary : h_boundary (sp_header part) = None;
  plain_params : h_content_type_params (sp_header part) = None;
  plain_base64 : h_encoding (sp_header part) <> SSPM_BASE64_ENCODING;
  plain_qp : h_encoding (sp_header part) <> SSPM_QUOTED_PRINTABLE_ENCODING;
  plain_data : sp_data part = Some data
}.

Section Written.
Context {A : Type} (text_of : A -> cstring).

Lemma single_type_known major : single_type major = true -> major_eqb major SSPM_NO_MAJOR_TYPE = false /\ major_eqb major SSPM_MULTIPART_MAJOR_TYPE = false.
Proof. now destruct major. Qed.

Lemma write_plain_part (part : sspm_part A) data : plain_part part data ->
  sspm_write_part text_of part = Done ((type_line (h_major (sp_header part)) (h_minor (sp_header part)) ++ [LF]) ++ [LF] ++ text_of data ++ [LF; LF]).
Proof.
  intros [Ht Hs Hb Hp He Hq Hd]. destruct (type_line_read _ _ Ht Hs) as (_ & _ & _ & _ & _ & _ & Hl). unfold sspm_write_part, sspm_write_header.
  rewrite Hb, Hp, Hd. replace (match h_minor (sp_header part) with SSPM_UNKNOWN_MINOR_TYPE => _ | _ => _ end)
    with (Done (sspm_minor_type_string (h_minor (sp_header part)))) by (destruct (h_minor (sp_header part)); easy).
  cbn [and_then]. unfold type_line in Hl. rewrite Hl. fold (type_line (h_major (sp_header part)) (h_minor (sp_header part))).
  destruct (h_encoding (sp_header part)); try easy; cbn [and_then]; now rewrite <- !app_assoc.
Qed.

Definition message_of (part : sspm_part A) (data : A) : cstring :=
  (version_line ++ [LF]) ++ (type_line (h_major (sp_header part)) (h_minor (sp_header part)) ++ [LF]) ++ ([] ++ [LF]) ++ text_of data ++ [LF; LF].

Lemma write_single (part : sspm_part A) data : plain_part part data -> sspm_write_mime text_of [part; zero_part] None = Done (message_of part data).
Proof.
  intros H. destruct (single_type_known _ (plain_type _ _ H)) as [Hn Hm]. unfold sspm_write_mime, message_of. cbn [write_parts length nth_error].
  unfold is_no_part at 1. rewrite Hn. unfold write_any, is_multipart. rewrite Hm, (write_plain_part part data H). cbn [and_then].
  cbn [nth_error]. change (is_no_part zero_part) with true. cbn [and_then]. now rewrite app_nil_r.
Qed.

Lemma read_message (part : sspm_part A) data name : plain_part part data ->
  sspm_read_header (Reader (text_lines (message_of part data)) [] UNKNOWN_STATE) name =
  Done (Reader (text_lines (text_of data ++ [LF; LF])) [LF] END_OF_HEADER, name, typed_header (h_major (sp_header part)) (h_minor (sp_header part)) SSPM_NO_ENCODING).
Proof.
  intros [Ht Hs _ _ _ _ _]. destruct (type_line_read _ _ Ht Hs) as (Hk & Hl & Ho & _). unfold message_of. rewrite 3!text_lines_line by (assumption || reflexivity).
  apply (read_two_headers _ _ _ name name name default_header); try assumption; try reflexivity; [now apply Nat.leb_le | now apply Nat.ltb_lt | now apply build_type].
Qed.

End Written.

(** A part with text that [sspm_write_mime] has written is read back by
    [sspm_parse_mime] as a part of the same type, and its actions get the lines
    of the text and the two line ends that are written behind it; no line may look like a boundary. *)
Theorem written_part_is_read {A W} (text_of : A -> cstring) (part first : sspm_part A) data parts actions name (world : W) :
  plain_part part data -> no_boundaries (text_lines (text_of data ++ [LF; LF])) = true ->
  let header := typed_header (h_major (sp_header part)) (h_minor (sp_header part)) SSPM_NO_ENCODING in
  let action := get_action actions (h_major header) (h_minor header) in
  let ended := am_end_part action (add_lines action header (text_lines (text_of data ++ [LF; LF])) (am_new_part action)) world in
  exists text m size,
    sspm_write_mime text_of [part; zero_part] None = Done text /\ sspm_parse_mime (first :: parts) actions (text_lines text) name world = Done m /\
    mi_part_no m = 1%nat /\ mi_world m = snd ended /\
    mi_parts m = Part header 0 size (fst ended) :: map untyped parts.
Proof.
  intros Hp Hb header action ended. pose proof (read_message text_of part data name Hp) as Hr.
  destruct (parse_single first parts actions _ _ name _ _ world Hr) as (m & H1 & H2 & H3 & H4); [now apply single_type_known, (plain_type part data) | exact Hb|].
  exists (message_of text_of part data), m. eexists. split; [now apply write_single|]. split; [exact H1|]. split; [exact H2|]. split; [exact H3 | exact H4].
Qed.

(** ** A body in base64 *)

Section Collecting.
Context {A W : Type} (action : sspm_action_map A W) (header : sspm_header) (add : A -> cstring -> A).
Hypothesis adds_data : forall a data size, am_add_line action (Some a) header data size = Some (add a (firstn size data)).

Lemma add_lines_decoded lines : forall a,
  add_lines action header lines (Some a) = Some (fold_left add (map (decode_body_line (h_encoding header)) lines) a).
Proof.
  induction lines as [|l lines IH]; intros a; [reflexivity|]. cbn [add_lines fold_left map]. unfold decode_body_line at 2.
  destruct (decode_line (h_encoding header) l) as [data size]. rewrite adds_data. apply IH.
Qed.

End Collecting.

(** The actions that collect the bytes of a text. *)
Definition collect : sspm_action_map cstring unit :=
  Action SSPM_TEXT_MAJOR_TYPE SSPM_PLAIN_MINOR_TYPE (Some []) (fun part _ data size => option_map (fun p => p ++ firstn size data) part) (fun part world => (part, world)).

Lemma fold_app (l : list cstring) : forall a, fold_left (fun p x => p ++ x) l a = a ++ concat l.
Proof. induction l as [|x l IH]; intros a; cbn; [now rewrite app_nil_r|]. now rewrite IH, app_assoc. Qed.

Definition base64_line : cstring := $"Content-Transfer-Encoding: Base64".

Definition base64_message (data : cstring) : cstring :=
  (type_line SSPM_TEXT_MAJOR_TYPE SSPM_PLAIN_MINOR_TYPE ++ [LF]) ++ (base64_line ++ [LF]) ++ ([] ++ [LF]) ++ sspm_encode_base64 data.

Lemma letter_not_dash v : Ascii.eqb (base64_letter v) "-" = false.
Proof.
  unfold base64_letter. destruct (Compare_dec.le_lt_dec 64 (Z.to_nat v)) as [Hv|Hv]; [now rewrite nth_overflow|].
  assert (forallb (fun n => negb (Ascii.eqb (nth n BaseTable NUL) "-")) (seq 0 64) = true) as H by (vm_compute; reflexivity).
  rewrite forallb_forall in H. specialize (H (Z.to_nat v) ltac:(apply in_seq; lia)). now apply negb_true_iff in H.
Qed.

Definition not_dash (c : ascii) : bool := negb (Ascii.eqb c "-").

Lemma group_not_dash a b c n : forallb not_dash (sspm_write_base64 a b c n) = true.
Proof.
  unfold sspm_write_base64, not_dash. cbn [forallb]. rewrite !letter_not_dash.
  destruct (Nat.leb 3 n), (Nat.leb 4 n); rewrite ?letter_not_dash; reflexivity.
Qed.

Lemma encoded_not_dash data : forall inbuf lpos, forallb not_dash (encode_bytes data inbuf lpos) = true.
Proof.
  induction data as [|c data IH]; intros inbuf lpos; cbn [encode_bytes].
  - destruct inbuf as [|x [|y [|z inbuf]]]; cbn [app]; rewrite ?group_not_dash; reflexivity.
  - assert (Hg : forall group inbuf' lpos', forallb not_dash group = true ->
      forallb not_dash (let '(break, lpos) := if (lpos' =? 72)%Z then ([LF], 0%Z) else ([], lpos') in
                        group ++ break ++ encode_bytes data (inbuf' ++ [code c]) lpos) = true).
    { intros group inbuf' lpos' Hg. destruct (lpos' =? 72)%Z; rewrite !forallb_app, Hg, IH; reflexivity. }
    destruct inbuf as [|x [|y [|z [|w inbuf]]]]; apply Hg; rewrite ?group_not_dash; reflexivity.
Qed.

Lemma text_lines_chars test text : forallb test text = true -> forallb (forallb test) (text_lines text) = true.
Proof.
  induction text as [|c text IH]; [reflexivity|]. cbn [forallb text_lines]. intros H. apply andb_prop in H as [Hc Ht]. specialize (IH Ht).
  destruct (Ascii.eqb c LF); cbn [forallb]; [now rewrite Hc, IH|]. destruct (text_lines text); cbn [forallb] in *; [now rewrite Hc|]. rewrite Hc. exact IH.
Qed.

Lemma not_dash_no_boundaries lines : forallb (forallb not_dash) lines = true -> no_boundaries lines = true.
Proof.
  intros H. apply forallb_forall. intros l Hl. rewrite forallb_forall in H. specialize (H l Hl). destruct l as [|c l]; [reflexivity|].
  cbn [forallb] in H. apply andb_prop in H as [Hc _]. unfold not_dash in Hc. unfold sspm_is_mime_boundary, starts_with.
  apply negb_true_iff in Hc. cbn [lit list_ascii_of_string length firstn streqb]. now rewrite Hc.
Qed.

Lemma read_base64_header data name :
  sspm_read_header (Reader (text_lines (base64_message data)) [] UNKNOWN_STATE) name =
  Done (Reader (text_lines (sspm_encode_base64 data)) [LF] END_OF_HEADER, name, typed_header SSPM_TEXT_MAJOR_TYPE SSPM_PLAIN_MINOR_TYPE SSPM_BASE64_ENCODING).
Proof.
  unfold base64_message. rewrite 3!text_lines_line by reflexivity.
  apply (read_two_headers _ _ _ name name name (typed_header SSPM_TEXT_MAJOR_TYPE SSPM_PLAIN_MINOR_TYPE SSPM_NO_ENCODING)); try reflexivity;
    apply Nat.ltb_lt; reflexivity.
Qed.

(** The text of a message in base64 is read back: a text whose length is no
    multiple of three, written by [sspm_encode_base64] behind the header, reaches
    the actions of [sspm_parse_mime] as it was, however many lines it takes. *)
Theorem base64_message_is_read data (first : sspm_part cstring) parts name : (length data mod 3 <> 0)%nat ->
  exists m size, sspm_parse_mime (first :: parts) [collect] (text_lines (base64_message data)) name tt = Done m /\ mi_part_no m = 1%nat /\
    mi_parts m = Part (typed_header SSPM_TEXT_MAJOR_TYPE SSPM_PLAIN_MINOR_TYPE SSPM_BASE64_ENCODING) 0 size (Some data) :: map untyped parts.
Proof.
  intros Hm. destruct (parse_single first parts [collect] _ _ name _ _ tt (read_base64_header data name)) as (m & H1 & H2 & _ & H3);
    [reflexivity | apply not_dash_no_boundaries, text_lines_chars, encoded_not_dash|].
  exists m. eexists. split; [exact H1|]. split; [exact H2|]. rewrite H3. do 2 f_equal.
  change (get_action [collect] _ _) with collect. cbn [am_end_part collect am_new_part rd_input fst]. fold collect.
  rewrite (add_lines_decoded collect _ (fun p x => p ++ x)) by reflexivity. rewrite fold_app. f_equal. exact (base64_roundtrip data Hm).
Qed.

(** ** Witnesses *)

Definition fresh_name : cstring := repeat NUL 1024.
Definition sample_data : cstring := repeat "x"%char 100 ++ [LF] ++ $"end".

Lemma base64_message_is_read_witness :
  exists m size, sspm_parse_mime [zero_part; zero_part] [collect] (text_lines (base64_message sample_data)) fresh_name tt = Done m /\ mi_part_no m = 1%nat /\
    mi_parts m = Part (typed_header SSPM_TEXT_MAJOR_TYPE SSPM_PLAIN_MINOR_TYPE SSPM_BASE64_ENCODING) 0 size (Some sample_data) :: map untyped [zero_part].
Proof. apply (base64_message_is_read sample_data zero_part [zero_part] fresh_name). vm_compute. discriminate. Defined.

Definition sample_part : sspm_part cstring := Part (typed_header SSPM_TEXT_MAJOR_TYPE SSPM_PLAIN_MINOR_TYPE SSPM_7BIT_ENCODING) 0 0 (Some $"one").

Lemma written_part_is_read_witness : exists text m size,
  sspm_write_mime (fun t => t) [sample_part; zero_part] None = Done text /\ sspm_parse_mime [zero_part; zero_part] [collect] (text_lines text) fresh_name tt = Done m /\
  mi_part_no m = 1%nat /\ mi_world m = tt /\
  mi_parts m = Part (typed_header SSPM_TEXT_MAJOR_TYPE SSPM_PLAIN_MINOR_TYPE SSPM_NO_ENCODING) 0 size (Some ($"one" ++ [LF; LF])) :: map untyped [zero_part].
Proof.
  apply (written_part_is_read (fun t => t) sample_part zero_part $"one" [zero_part] [collect] fresh_name tt); [|vm_compute; reflexivity].
  split; (reflexivity || discriminate).
Defined.

(** ** Messages that are not read or written as they are meant *)

Definition parse_lines (text : list cstring) : outcome (mime_impl cstring unit) := sspm_parse_mime (repeat zero_part 10) [collect] (map (fun l => l ++ [LF]) text) fresh_name tt.
Definition part_errors (o : outcome (mime_impl cstring unit)) : list (sspm_error * option cstring) :=
  match o with
  | Done m => map (fun p => (h_error (sp_header p), sp_data p)) (firstn (mi_part_no m) (mi_parts m))
  | Fault _ => []
  end.

(** The last boundary of a multipart message is taken for a wrong one, and what is
    behind it is not read. *)
Example last_boundary_is_wrong :
  part_errors (parse_lines [$"Content-Type: multipart/mixed; boundary=XX"; []; $"--XX"; []; $"first"; $"--XX"; []; $"second"; $"--XX--"]) =
  [(SSPM_WRONG_BOUNDARY_ERROR, None); (SSPM_NO_ERROR, Some ($"first" ++ [LF])); (SSPM_NO_ERROR, Some ($"second" ++ [LF]))].
Proof. vm_compute. reflexivity. Qed.

(** A boundary in quotes has no line end, and no line without one is ever read. *)
Example quoted_boundary_not_found :
  part_errors (parse_lines [$"Content-Type: multipart/mixed; boundary=" ++ [QUOTE] ++ $"XX" ++ [QUOTE]; []; $"--XX"; []; $"first"; $"--XX--"]) =
  [(SSPM_WRONG_BOUNDARY_ERROR, None)].
Proof. vm_compute. reflexivity. Qed.

(** A quote behind the semicolon: the length of the copy is negative. *)
Example parameter_overflow :
  sspm_get_parameter fresh_name ($"Content-Type: multipart/mixed; boundary=XX; charset=" ++ [QUOTE] ++ $"utf-8" ++ [QUOTE]) $"boundary" = Fault BUFFER_OVERFLOW.
Proof. vm_compute. reflexivity. Qed.

(** The static buffer keeps what an earlier message has left in it. *)
Example stale_boundary :
  match sspm_get_parameter fresh_name $"boundary=longer" $"boundary" with
  | Done (name, _) => match sspm_get_parameter name $"boundary=XX; a=b" $"boundary" with Done (_, b) => b | Fault _ => None end
  | Fault _ => None
  end = Some $"XXnger".
Proof. vm_compute. reflexivity. Qed.

(** The count of characters that are not blank is kept in one byte. *)
Example long_line_is_blank : sspm_is_blank (repeat "a"%char 256) = true /\ sspm_is_blank (repeat "a"%char 255) = false.
Proof. vm_compute. split; reflexivity. Qed.

(** Actions for any subtype are not taken for a subtype that is not in the table. *)
Example any_subtype_not_taken (any : sspm_action_map cstring unit) : am_major any = SSPM_TEXT_MAJOR_TYPE -> am_minor any = SSPM_ANY_MINOR_TYPE ->
  get_action [any] SSPM_TEXT_MAJOR_TYPE SSPM_UNKNOWN_MINOR_TYPE = sspm_default_action.
Proof. intros H1 H2. unfold get_action. cbn [find]. now rewrite H1, H2. Qed.

(** The encoding of a part is not written into its header. *)
Example encoding_not_written :
  sspm_write_header (typed_header SSPM_TEXT_MAJOR_TYPE SSPM_PLAIN_MINOR_TYPE SSPM_BASE64_ENCODING) = Done ($"Content-Type: text/plain" ++ [LF; LF]).
Proof. vm_compute. reflexivity. Qed.

(** The boundaries between the parts are written without the two dashes that make them boundaries. *)
Definition multipart_header : sspm_header := Header false (Some $"XX") SSPM_MULTIPART_MAJOR_TYPE SSPM_MIXED_MINOR_TYPE None None None SSPM_NO_ENCODING None None SSPM_NO_ERROR None.
Example boundaries_without_dashes :
  sspm_write_mime (fun t => t) [Part multipart_header 0 0 None; Part (sp_header sample_part) 1 0 (Some $"one"); zero_part] None =
  Done ($"Mime-Version: 1.0" ++ [LF] ++ $"Content-Type: multipart/mixed;boundary=" ++ [QUOTE] ++ $"XX" ++ [QUOTE; LF; LF] ++
        $"XX" ++ [LF] ++ $"Content-Type: text/plain" ++ [LF; LF] ++ $"one" ++ [LF; LF] ++ [LF; LF] ++ $"--XX" ++ [LF]).
Proof. vm_compute. reflexivity. Qed.
