(* ===== verification/IcalRestriction.v ===== *)
(** * The restrictions on the properties of a message (icalrestriction.c.in)

    How often each property may be in a component, by its method, and what some of
    their values have to be.  The table is generated from design-data/restrictions.csv
    and is a parameter here, [icalrestriction_property_records], without the entry that ends it. *)
From Stdlib Require Import String Ascii ZArith Lia Bool List.
From S2P Require Import Prelude CString IcalError IcalTime IcalValue IcalLine IcalParameter IcalProperty IcalComponent IcalComponentAccess IcalComponentNormalize.
Import ListNotations.
#[local] Open Scope Z_scope.
#[local] Open Scope cstring_scope.
#[local] Open Scope err_scope.

Inductive icalrestriction_kind :=
  | ICAL_RESTRICTION_NONE | ICAL_RESTRICTION_ZERO | ICAL_RESTRICTION_ONE | ICAL_RESTRICTION_ZEROPLUS | ICAL_RESTRICTION_ONEPLUS
  | ICAL_RESTRICTION_ZEROORONE | ICAL_RESTRICTION_ONEEXCLUSIVE | ICAL_RESTRICTION_ONEMUTUAL | ICAL_RESTRICTION_UNKNOWN.

(** A row of [compare_map]: for no, one and more of a property. *)
Definition compare_map (restr : icalrestriction_kind) : list Z :=
  match restr with
  | ICAL_RESTRICTION_NONE => [1; 1; 1]
  | ICAL_RESTRICTION_ZERO => [1; 0; 0]
  | ICAL_RESTRICTION_ONE => [0; 1; 0]
  | ICAL_RESTRICTION_ZEROPLUS => [1; 1; 1]
  | ICAL_RESTRICTION_ONEPLUS => [0; 1; 1]
  | ICAL_RESTRICTION_ZEROORONE => [1; 1; 0]
  | ICAL_RESTRICTION_ONEEXCLUSIVE => [1; 1; 0]
  | ICAL_RESTRICTION_ONEMUTUAL => [1; 1; 0]
  | ICAL_RESTRICTION_UNKNOWN => [1; 1; 1]
  end.

Definition restr_string_map (restr : icalrestriction_kind) : cstring :=
  match restr with
  | ICAL_RESTRICTION_NONE => $"unknown number"
  | ICAL_RESTRICTION_ZERO => $"0"
  | ICAL_RESTRICTION_ONE => $"1"
  | ICAL_RESTRICTION_ZEROPLUS => $"zero or more"
  | ICAL_RESTRICTION_ONEPLUS => $"one or more"
  | ICAL_RESTRICTION_ZEROORONE => $"zero or one"
  | ICAL_RESTRICTION_ONEEXCLUSIVE => $"zero or one, exclusive with another property"
  | ICAL_RESTRICTION_ONEMUTUAL => $"zero or one, mutual with another property"
  | ICAL_RESTRICTION_UNKNOWN => $"unknown number"
  end.

Definition icalrestriction_compare (restr : icalrestriction_kind) (count : Z) : Z :=
  if count <? 0 then -1
  else let count := if 2 <? count then 2 else count in nth (Z.to_nat count) (compare_map restr) 0.

(** ** Special cases *)

Definition ICAL_STATUS_CONFIRMED : Z := 10902.
Definition ICAL_STATUS_COMPLETED : Z := 10903.
Definition ICAL_STATUS_NEEDSACTION : Z := 10904.
Definition ICAL_STATUS_INPROCESS : Z := 10906.
Definition ICAL_STATUS_DRAFT : Z := 10907.
Definition ICAL_STATUS_FINAL : Z := 10908.
Definition ICAL_ACTION_EMAIL : Z := 10003.
Definition ICAL_ACTION_NONE : Z := 10099.
Definition ICAL_XLICERRORTYPE_INVALIDITIP : Z := 21806.

(** The functions that the table names. *)
Inductive restriction_func :=
  | icalrestriction_may_be_draft_final_canceled | icalrestriction_may_be_comp_need_process | icalrestriction_may_be_tent_conf
  | icalrestriction_may_be_tent_conf_cancel | icalrestriction_must_be_cancel_if_present | icalrestriction_must_be_canceled_no_attendee
  | icalrestriction_must_be_recurring | icalrestriction_must_have_duration | icalrestriction_must_have_repeat
  | icalrestriction_must_if_tz_ref | icalrestriction_no_dtend | icalrestriction_no_duration | icalrestriction_must_be_email.

Record icalrestriction_property_record := Restriction {
  rp_method : Z;
  rp_component : icalcomponent_kind;
  rp_property : icalproperty_kind;
  rp_restriction : icalrestriction_kind;
  rp_function : option restriction_func
}.

Definition null_prop_record : icalrestriction_property_record :=
  Restriction ICAL_METHOD_NONE ICAL_NO_COMPONENT ICAL_NO_PROPERTY ICAL_RESTRICTION_UNKNOWN None.

Definition one_of (values : list Z) (message : cstring) (stat : Z) : option cstring :=
  if existsb (Z.eqb stat) values then None else Some message.

Section Restrictions.
Context `{PROPS : PropertyTables} `{PARAMS : ParameterTables} `{FLOAT : FloatOps} `{TZ : TimezoneConv}.
Context (icalrestriction_property_records : list icalrestriction_property_record).

(** The functions are called with the first property of the kind; the message of
    what is wrong with it, and the component, whose iterator may have moved. *)
Definition call_restriction (f : restriction_func) (comp : icalcomponent) (prop : icalproperty) : err (option cstring * icalcomponent) :=
  let status values message :=
    stat <- get_enum ICAL_STATUS_NONE (icalproperty_get_value prop) ;; ret (one_of values message stat, comp) in
  match f with
  | icalrestriction_may_be_draft_final_canceled =>
      status [ICAL_STATUS_DRAFT; ICAL_STATUS_FINAL; ICAL_STATUS_CANCELLED]
        $"Failed iTIP restrictions for STATUS property. Value must be one of DRAFT, FINAL, or CANCELED"
  | icalrestriction_may_be_comp_need_process =>
      status [ICAL_STATUS_COMPLETED; ICAL_STATUS_NEEDSACTION; ICAL_STATUS_INPROCESS]
        $"Failed iTIP restrictions for STATUS property. Value must be one of COMPLETED, NEEDS-ACTION or IN-PROCESS"
  | icalrestriction_may_be_tent_conf =>
      status [ICAL_STATUS_TENTATIVE; ICAL_STATUS_CONFIRMED]
        $"Failed iTIP restrictions for STATUS property. Value must be one of TENTATIVE or CONFIRMED"
  | icalrestriction_may_be_tent_conf_cancel =>
      status [ICAL_STATUS_TENTATIVE; ICAL_STATUS_CONFIRMED; ICAL_STATUS_CANCELLED]
        $"Failed iTIP restrictions for STATUS property. Value must be one of TENTATIVE, CONFIRMED or CANCELED"
  | icalrestriction_must_be_cancel_if_present =>
      status [ICAL_STATUS_CANCELLED] $"Failed iTIP restrictions for STATUS property. Value must be CANCELLED"
  | icalrestriction_must_be_email =>
      stat <- get_enum ICAL_ACTION_NONE (icalproperty_get_value prop) ;;
      ret (one_of [ICAL_ACTION_EMAIL] $"Failed iTIP restrictions for ACTION property. Value must be EMAIL." stat, comp)
  | icalrestriction_must_have_duration =>
      let '(p, comp) := icalcomponent_get_first_property ICAL_DURATION_PROPERTY comp in
      ret (match p with
           | Some _ => None
           | None => Some $"Failed iTIP restrictions for DURATION property. This component must have a DURATION property"
           end, comp)
  | icalrestriction_must_have_repeat =>
      let '(p, comp) := icalcomponent_get_first_property ICAL_REPEAT_PROPERTY comp in
      ret (match p with
           | Some _ => None
           | None => Some $"Failed iTIP restrictions for REPEAT property. This component must have a REPEAT property"
           end, comp)
  | icalrestriction_no_dtend =>
      let '(p, comp) := icalcomponent_get_first_property ICAL_DTEND_PROPERTY comp in
      ret (match p with
           | Some _ => Some $"Failed iTIP restrictions for DTEND property. The component must not have both DURATION and DTEND"
           | None => None
           end, comp)
  | icalrestriction_must_be_canceled_no_attendee | icalrestriction_must_be_recurring | icalrestriction_must_if_tz_ref
  | icalrestriction_no_duration => ret (None, comp)
  end.

(** ** The check *)

Definition icalrestriction_get_property_restriction (method : Z) (component : icalcomponent_kind) (property : icalproperty_kind)
    : icalrestriction_property_record :=
  match find (fun r => (method =? rp_method r) && ckind_eqb component (rp_component r) && (property =? rp_property r))
          icalrestriction_property_records with
  | Some r => r
  | None => null_prop_record
  end.

(** The component, the address of the next property, the result and the message, which is kept from kind to kind. *)
Record check_state := Check {
  ck_comp : icalcomponent;
  ck_next : positive;
  ck_valid : bool;
  ck_funcr : option cstring
}.

Definition add_itip_error (text : cstring) (s : check_state) : err check_state :=
  errProp <- icalproperty_vanew_xlicerror (ck_next s) text ICAL_XLICERRORTYPE_INVALIDITIP ;;
  match errProp with
  | Some p => ret (Check (icalcomponent_add_property p (ck_comp s)) (Pos.succ (ck_next s)) (ck_valid s) (ck_funcr s))
  | None => badarg s
  end.

(** A property that is exclusive or mutual with another one is counted as one that may be there. *)
Definition counted_as (restr : icalrestriction_kind) : icalrestriction_kind :=
  match restr with
  | ICAL_RESTRICTION_ONEEXCLUSIVE | ICAL_RESTRICTION_ONEMUTUAL => ICAL_RESTRICTION_ZEROORONE
  | restr => restr
  end.

Definition count_message (kind : icalproperty_kind) (restr : icalrestriction_kind) (count : Z) : err cstring :=
  match icalproperty_kind_to_string kind with
  | Some name =>
      ret (snprintf 1024 ($"Failed iTIP restrictions for " ++ name ++ $" property. Expected " ++ restr_string_map restr ++
                          $" instances of the property and got " ++ fmt_d count))
  | None => undefined
  end.

Definition with_funcr (comp : icalcomponent) (funcr : option cstring) (s : check_state) : check_state :=
  Check comp (ck_next s) (ck_valid s) funcr.
Definition and_valid (compare : bool) (s : check_state) : check_state :=
  Check (ck_comp s) (ck_next s) (ck_valid s && compare) (ck_funcr s).

Definition check_kind (method : Z) (s : check_state) (kind : icalproperty_kind) : err check_state :=
  let count := icalcomponent_count_properties kind (ck_comp s) in
  let record := icalrestriction_get_property_restriction method (icalcomponent_isa (ck_comp s)) kind in
  let restr := counted_as (rp_restriction record) in
  let compare := icalrestriction_compare restr count in
  if compare =? -1 then undefined
  else
    s <- (if compare =? 0 then message <- count_message kind restr count ;; add_itip_error message s else ret s) ;;
    let '(prop, comp) := icalcomponent_get_first_property kind (ck_comp s) in
    r <- match prop, rp_function record with
         | Some p, Some f => call_restriction f comp p
         | _, _ => ret (ck_funcr s, comp)
         end ;;
    let '(funcr, comp) := r in
    let s := with_funcr comp funcr s in
    match funcr with
    | Some message => s <- add_itip_error message s ;; ret (and_valid false s)
    | None => ret (and_valid (negb (compare =? 0)) s)
    end.

Fixpoint check_kinds (method : Z) (kinds : list icalproperty_kind) (s : check_state) : err check_state :=
  match kinds with
  | [] => ret s
  | kind :: kinds => s <- check_kind method s kind ;; check_kinds method kinds s
  end.

(** From [ICAL_ANY_PROPERTY + 1] until [ICAL_NO_PROPERTY]. *)
Definition checked_kinds : list icalproperty_kind :=
  map (fun i => ICAL_ANY_PROPERTY + 1 + Z.of_nat i) (seq 0 (Z.to_nat (ICAL_NO_PROPERTY - ICAL_ANY_PROPERTY - 1))).

Definition icalrestriction_check_component (method : Z) (comp : icalcomponent) (next : positive) : err (bool * icalcomponent * positive) :=
  s <- check_kinds method checked_kinds (Check comp next true None) ;; ret (ck_valid s, ck_comp s, ck_next s).

(** The inner components, from the first one on: none is checked after one that is not valid. *)
Fixpoint check_inner (method : Z) (comps : list icalcomponent) (next : positive) (valid : bool) : err (bool * list icalcomponent * positive) :=
  match comps with
  | [] => ret (valid, [], next)
  | comp :: comps =>
      r <- (if valid then icalrestriction_check_component method comp next else ret (false, comp, next)) ;;
      let '(valid, comp, next) := r in
      r <- check_inner method comps next valid ;;
      let '(valid, comps, next) := r in
      ret (valid, comp :: comps, next)
  end.

(** The calendar keeps its components; the iterator over them is past the last one. *)
Definition icalrestriction_check (outer_comp : icalcomponent) (next : positive) : err (bool * icalcomponent) :=
  if negb (ckind_eqb (icalcomponent_isa outer_comp) ICAL_VCALENDAR_COMPONENT) then badarg (false, outer_comp)
  else
    let '(method_prop, outer) := icalcomponent_get_first_property ICAL_METHOD_PROPERTY outer_comp in
    method <- match method_prop with
              | None => ret ICAL_METHOD_NONE
              | Some p => get_enum ICAL_METHOD_NONE (icalproperty_get_value p)
              end ;;
    r <- icalrestriction_check_component ICAL_METHOD_NONE outer next ;;
    let '(valid, outer, next) := r in
    r <- check_inner method (co_components outer) next valid ;;
    let '(valid, comps, _) := r in
    ret (valid, with_components comps NoElem outer).

End Restrictions.
