(* ===== verification/IcalRestrictionCorrect.v ===== *)
(** * What a checked message satisfies

    [icalrestriction_check] accepts a calendar if and only if every property that it
    looks at occurs as often as the table says and has a value that the table allows;
    it adds errors if and only if it does not accept it. *)
From Stdlib Require Import String Ascii ZArith Lia ZifyBool Bool List.
From S2P Require Import Prelude CString IcalError IcalTime IcalValue IcalValueSafe IcalLine IcalParameter IcalProperty IcalPropertyText IcalTimeCalendar IcalComponent IcalDesignData IcalParser IcalParserSafe IcalParserTotal IcalComponentAccess IcalComponentNormalize IcalClassify IcalRestriction.
Import ListNotations.
#[local] Open Scope Z_scope.
#[local] Open Scope cstring_scope.
#[local] Open Scope err_scope.

(** The functions that read an enumeration. *)
Definition reads_enum (f : restriction_func) : bool :=
  match f with
  | icalrestriction_may_be_draft_final_canceled | icalrestriction_may_be_comp_need_process | icalrestriction_may_be_tent_conf
  | icalrestriction_may_be_tent_conf_cancel | icalrestriction_must_be_cancel_if_present | icalrestriction_must_be_email => true
  | _ => false
  end.

(** The values that they allow. *)
Definition allowed_values (f : restriction_func) : list Z :=
  match f with
  | icalrestriction_may_be_draft_final_canceled => [ICAL_STATUS_DRAFT; ICAL_STATUS_FINAL; ICAL_STATUS_CANCELLED]
  | icalrestriction_may_be_comp_need_process => [ICAL_STATUS_COMPLETED; ICAL_STATUS_NEEDSACTION; ICAL_STATUS_INPROCESS]
  | icalrestriction_may_be_tent_conf => [ICAL_STATUS_TENTATIVE; ICAL_STATUS_CONFIRMED]
  | icalrestriction_may_be_tent_conf_cancel => [ICAL_STATUS_TENTATIVE; ICAL_STATUS_CONFIRMED; ICAL_STATUS_CANCELLED]
  | icalrestriction_must_be_cancel_if_present => [ICAL_STATUS_CANCELLED]
  | icalrestriction_must_be_email => [ICAL_ACTION_EMAIL]
  | _ => []
  end.

Section Correct.
Context `{PROPS : PropertyTables} `{PARAMS : ParameterTables} `{FLOAT : FloatOps} `{TZ : TimezoneConv}.
Context (records : list icalrestriction_property_record).

(** ** What the table asks for *)

Definition enum_of (p : icalproperty) : option Z :=
  match pr_value p with
  | Some v => match v_data v with V_enum n => Some n | _ => None end
  | None => None
  end.

Definition contains (kind : icalproperty_kind) (c : icalcomponent) : bool := existsb (property_matches kind) (co_properties c).

Definition value_allowed (f : restriction_func) (c : icalcomponent) (p : icalproperty) : bool :=
  if reads_enum f then match enum_of p with Some n => existsb (Z.eqb n) (allowed_values f) | None => false end
  else match f with
       | icalrestriction_must_have_duration => contains ICAL_DURATION_PROPERTY c
       | icalrestriction_must_have_repeat => contains ICAL_REPEAT_PROPERTY c
       | icalrestriction_no_dtend => negb (contains ICAL_DTEND_PROPERTY c)
       | _ => true
       end.

(** The number of times a property may occur. *)
Definition count_allowed (restr : icalrestriction_kind) (n : Z) : bool :=
  match restr with
  | ICAL_RESTRICTION_ZERO => n =? 0
  | ICAL_RESTRICTION_ONE => n =? 1
  | ICAL_RESTRICTION_ONEPLUS => 1 <=? n
  | ICAL_RESTRICTION_ZEROORONE | ICAL_RESTRICTION_ONEEXCLUSIVE | ICAL_RESTRICTION_ONEMUTUAL => n <=? 1
  | ICAL_RESTRICTION_NONE | ICAL_RESTRICTION_ZEROPLUS | ICAL_RESTRICTION_UNKNOWN => true
  end.

Definition conforms_in (method : Z) (c : icalcomponent) (kind : icalproperty_kind) : bool :=
  let r := icalrestriction_get_property_restriction records method (co_kind c) kind in
  count_allowed (rp_restriction r) (icalcomponent_count_properties kind c) &&
  match find (property_matches kind) (co_properties c), rp_function r with
  | Some p, Some f => value_allowed f c p
  | _, _ => true
  end.

Definition conforms (method : Z) (c : icalcomponent) : bool := forallb (conforms_in method c) checked_kinds.

Lemma compare_spec restr n : 0 <= n -> icalrestriction_compare (counted_as restr) n = b2z (count_allowed restr n).
Proof.
  intros Hn. unfold icalrestriction_compare. destruct (Z.ltb_spec n 0); [lia|].
  assert (n = 0 \/ n = 1 \/ 2 <= n) as [-> | [-> | H2]] by lia; [now destruct restr | now destruct restr|].
  replace (if 2 <? n then 2 else n) with 2 by (destruct (Z.ltb_spec 2 n); lia).
  destruct restr; cbn [count_allowed]; try reflexivity;
    (match goal with |- _ = b2z ?b => first [replace b with false by lia | replace b with true by lia] end); reflexivity.
Qed.

(** ** Assumptions on the table and the component *)

Record table_ok : Prop := {
  table_no_error : forall r, In r records -> rp_property r <> ICAL_XLICERROR_PROPERTY;
  table_names : forall r, In r records -> icalproperty_kind_to_string (rp_property r) <> None;
  table_enums : forall r f, In r records -> rp_function r = Some f -> reads_enum f = true ->
    rp_property r = ICAL_STATUS_PROPERTY \/ rp_property r = ICAL_ACTION_PROPERTY;
  error_known : icalproperty_kind_is_valid ICAL_XLICERROR_PROPERTY = true
}.

(** STATUS and ACTION have the values that the reader and the accessors give them. *)
Definition enumerated (c : icalcomponent) : Prop :=
  Forall (fun p => pr_kind p = ICAL_STATUS_PROPERTY \/ pr_kind p = ICAL_ACTION_PROPERTY -> enum_of p <> None) (co_properties c).

(** The component with errors behind its properties. *)
Definition extended (c : icalcomponent) (errors : list icalproperty) (d : icalcomponent) : Prop :=
  co_properties d = co_properties c ++ errors /\ Forall (fun p => is_error p = true) errors /\
  co_kind d = co_kind c /\ co_components d = co_components c /\ co_addr d = co_addr c.

Lemma find_app {A} (test : A -> bool) l m : find test (l ++ m) = match find test l with Some x => Some x | None => find test m end.
Proof. induction l as [|x l IH]; [reflexivity|]. cbn. now destruct (test x). Qed.

Lemma errors_do_not_match kind errors : kind <> ICAL_XLICERROR_PROPERTY -> kind <> ICAL_ANY_PROPERTY -> Forall (fun p => is_error p = true) errors ->
  filter (property_matches kind) errors = [] /\ find (property_matches kind) errors = None.
Proof.
  intros H1 H2 He. induction He as [|p errors Hp _ [IH1 IH2]]; [now split|]. cbn [filter find].
  assert (property_matches kind p = false) as ->; [|now split].
  unfold is_error in Hp. apply Z.eqb_eq in Hp. unfold property_matches. rewrite Hp.
  destruct (Z.eqb_spec ICAL_XLICERROR_PROPERTY kind); [congruence|]. now destruct (Z.eqb_spec kind ICAL_ANY_PROPERTY).
Qed.

Lemma extended_count c errors d kind : extended c errors d -> kind <> ICAL_XLICERROR_PROPERTY -> kind <> ICAL_ANY_PROPERTY ->
  icalcomponent_count_properties kind d = icalcomponent_count_properties kind c.
Proof.
  intros (Hp & He & _) H1 H2. unfold icalcomponent_count_properties. rewrite Hp, filter_app, (proj1 (errors_do_not_match kind errors H1 H2 He)).
  now rewrite app_nil_r.
Qed.

Lemma extended_find c errors d kind : extended c errors d -> kind <> ICAL_XLICERROR_PROPERTY -> kind <> ICAL_ANY_PROPERTY ->
  find (property_matches kind) (co_properties d) = find (property_matches kind) (co_properties c).
Proof.
  intros (Hp & He & _) H1 H2. rewrite Hp, find_app, (proj2 (errors_do_not_match kind errors H1 H2 He)). now destruct (find _ _).
Qed.

Lemma contains_find kind c : contains kind c = match find (property_matches kind) (co_properties c) with Some _ => true | None => false end.
Proof. unfold contains. induction (co_properties c) as [|p ps IH]; [reflexivity|]. cbn. now destruct (property_matches kind p). Qed.

Lemma first_property_of kind c :
  exists it, icalcomponent_get_first_property kind c = (find (property_matches kind) (co_properties c), with_properties (co_properties c) it c).
Proof.
  unfold icalcomponent_get_first_property. pose proof (iterate_find (property_matches kind) (co_properties c)) as H.
  destruct (iterate _ _ _) as [r it]. cbn [fst] in H. exists it. now rewrite <- H.
Qed.

Lemma extended_iterator c errors d it : extended c errors d -> extended c errors (with_properties (co_properties d) it d).
Proof. now intros (H1 & H2 & H3 & H4 & H5). Qed.

(** ** One kind of properties *)

Context (OK : table_ok).

Lemma record_cases method k kind : let r := icalrestriction_get_property_restriction records method k kind in
  r = null_prop_record \/ (In r records /\ rp_property r = kind).
Proof.
  cbv zeta. unfold icalrestriction_get_property_restriction. destruct (find _ records) as [r|] eqn:E; [right|now left].
  apply find_some in E as [Hi E]. split; [assumption|]. apply andb_prop in E as [_ E]. now apply Z.eqb_eq in E.
Qed.

Lemma runs_itip_error text s c errors : extended c errors (ck_comp s) ->
  runs (add_itip_error text s) (fun s' => (exists e, extended c (errors ++ [e]) (ck_comp s')) /\ ck_valid s' = ck_valid s /\ ck_funcr s' = ck_funcr s).
Proof.
  intros (H1 & H2 & H3 & H4 & H5). unfold add_itip_error. apply runs_bind with (P := fun r => exists p, r = Some p /\ is_error p = true).
  - unfold icalproperty_vanew_xlicerror, icalparameter_new_xlicerrortype. eapply runs_bind with (P := any).
    { eapply runs_bind; [apply runs_clear_errno|]. intros _ _. eapply runs_bind; [apply runs_clear_errno|]. intros _ _. now apply runs_ret. }
    intros q _. unfold icalproperty_new_impl. rewrite (error_known OK). apply runs_bind_ret. apply runs_ret. now eexists.
  - intros r (p & -> & Hp). apply runs_ret. cbn [ck_comp ck_valid ck_funcr]. split; [|now split]. exists (icalproperty_set_parent (Some (co_addr (ck_comp s))) p).
    split; [|split; [|now split]].
    + unfold icalcomponent_add_property. cbn [with_properties co_properties]. now rewrite H1, app_assoc.
    + apply Forall_app. split; [assumption|]. now repeat constructor.
Qed.

(** The functions of the table do what they say. *)
Lemma runs_call_restriction f comp p c errors : extended c errors comp -> (reads_enum f = true -> enum_of p <> None) ->
  runs (call_restriction f comp p) (fun r => extended c errors (snd r) /\ (fst r = None <-> value_allowed f c p = true)).
Proof.
  intros Hx He.
  assert (Hs : reads_enum f = true -> forall none message, runs (stat <- get_enum none (icalproperty_get_value p) ;; ret (one_of (allowed_values f) message stat, comp))
    (fun r => extended c errors (snd r) /\ (fst r = None <-> value_allowed f c p = true))).
  { intros Hf none message. specialize (He Hf). unfold value_allowed. rewrite Hf. unfold enum_of, icalproperty_get_value in *.
    destruct (pr_value p) as [v|]; [|easy]. unfold get_enum. destruct (v_data v); try easy. apply runs_bind_ret. apply runs_ret. split; [assumption|].
    unfold one_of. cbn [fst]. now destruct (existsb _ _). }
  destruct f; try (exact (Hs eq_refl _ _)); cbn [call_restriction].
  all: try (apply runs_ret; now split).
  all: match goal with |- context [icalcomponent_get_first_property ?k ?d] => destruct (first_property_of k d) as [it ->] end.
  all: apply runs_ret; cbn [fst snd]; (split; [now apply extended_iterator|]).
  all: rewrite (extended_find _ _ _ _ Hx) by discriminate; unfold value_allowed; cbn [reads_enum]; rewrite contains_find.
  all: now destruct (find _ _).
Qed.

(** What holds after some kinds: errors are there if and only if the result is not valid. *)
Definition checked (method : Z) (c : icalcomponent) (done : list icalproperty_kind) (s : check_state) : Prop :=
  exists errors, extended c errors (ck_comp s) /\ ck_valid s = forallb (conforms_in method c) done /\
    (errors = [] <-> ck_valid s = true) /\ (ck_funcr s <> None -> ck_valid s = false).

Lemma record_for_errors method k : icalrestriction_get_property_restriction records method k ICAL_XLICERROR_PROPERTY = null_prop_record.
Proof.
  destruct (record_cases method k ICAL_XLICERROR_PROPERTY) as [E|[Hi E]]; [exact E|]. now apply (table_no_error OK) in Hi.
Qed.

Lemma runs_count method s c errors kind : extended c errors (ck_comp s) -> kind <> ICAL_ANY_PROPERTY ->
  let r := icalrestriction_get_property_restriction records method (co_kind c) kind in
  let count := icalcomponent_count_properties kind (ck_comp s) in
  let fits := count_allowed (rp_restriction r) (icalcomponent_count_properties kind c) in
  icalrestriction_compare (counted_as (rp_restriction r)) count = b2z fits /\
  runs (if icalrestriction_compare (counted_as (rp_restriction r)) count =? 0
        then message <- count_message kind (counted_as (rp_restriction r)) count ;; add_itip_error message s else ret s)
    (fun s' => exists errors', extended c errors' (ck_comp s') /\ ck_valid s' = ck_valid s /\ ck_funcr s' = ck_funcr s /\
               (errors' = [] <-> errors = [] /\ fits = true)).
Proof.
  intros Hx Hk r count fits.
  assert (Hc : icalrestriction_compare (counted_as (rp_restriction r)) count = b2z fits).
  { rewrite compare_spec by (unfold count, icalcomponent_count_properties; lia). unfold fits. destruct (Z.eq_dec kind ICAL_XLICERROR_PROPERTY) as [E|E].
    - unfold r. rewrite E, record_for_errors. reflexivity.
    - unfold count. now rewrite (extended_count c errors) by assumption. }
  split; [exact Hc|]. rewrite Hc. destruct fits eqn:Ef; cbn [b2z Z.eqb].
  - apply runs_ret. exists errors. do 3 (split; [auto|]). tauto.
  - destruct (record_cases method (co_kind c) kind) as [E|[Hi E]]; [unfold fits, r in Ef; rewrite E in Ef; discriminate|].
    unfold count_message. rewrite <- E at 1. fold r. pose proof (table_names OK r Hi) as Hn. destruct (icalproperty_kind_to_string (rp_property r)) as [name|]; [|easy].
    apply runs_bind_ret. eapply runs_weaken; [apply runs_itip_error; exact Hx|]. intros s' [(e & H1) [H2 H3]]. exists (errors ++ [e]).
    do 3 (split; [auto|]). split; [intros H; now destruct errors | now intros []].
Qed.

Lemma enumerated_first c kind p : enumerated c -> find (property_matches kind) (co_properties c) = Some p -> kind <> ICAL_ANY_PROPERTY ->
  kind = ICAL_STATUS_PROPERTY \/ kind = ICAL_ACTION_PROPERTY -> enum_of p <> None.
Proof.
  intros He Hf Hk H. apply find_some in Hf as [Hi Hm]. unfold enumerated in He. rewrite Forall_forall in He. apply (He p Hi).
  unfold property_matches in Hm. apply orb_prop in Hm as [Hm|Hm]; apply Z.eqb_eq in Hm; congruence.
Qed.

(** What the function of the table says of the first property, if there are both. *)
Definition special_check (c : icalcomponent) (kind : icalproperty_kind) (r : icalrestriction_property_record) : option bool :=
  match find (property_matches kind) (co_properties c), rp_function r with
  | Some p, Some f => Some (value_allowed f c p)
  | _, _ => None
  end.

Lemma runs_special method c errors comp kind funcr it : enumerated c -> kind <> ICAL_ANY_PROPERTY -> extended c errors comp ->
  let r := icalrestriction_get_property_restriction records method (co_kind c) kind in
  runs (match find (property_matches kind) (co_properties comp), rp_function r with
        | Some p, Some f => call_restriction f (with_properties (co_properties comp) it comp) p
        | _, _ => ret (funcr, with_properties (co_properties comp) it comp)
        end)
    (fun r1 => extended c errors (snd r1) /\
               match special_check c kind r with Some ok => fst r1 = None <-> ok = true | None => fst r1 = funcr end).
Proof.
  intros He Hk Hx r. unfold special_check. destruct (rp_function r) as [f|] eqn:Er.
  - destruct (record_cases method (co_kind c) kind) as [E|[Hi E]]; [unfold r in Er; now rewrite E in Er|]. fold r in Hi, E.
    rewrite (extended_find c errors) by (assumption || (rewrite <- E; now apply (table_no_error OK))).
    destruct (find (property_matches kind) (co_properties c)) as [p|] eqn:Ep; [|apply runs_ret; now split; [apply extended_iterator|]].
    apply (runs_call_restriction f _ p c errors); [now apply extended_iterator|].
    intros Hre. apply (enumerated_first c kind p He Ep Hk). rewrite <- E. now apply (table_enums OK r f).
  - destruct (find _ (co_properties comp)), (find _ (co_properties c)); (apply runs_ret; split; [now apply extended_iterator | reflexivity]).
Qed.

Lemma runs_check_kind method c done s kind : enumerated c -> kind <> ICAL_ANY_PROPERTY -> checked method c done s ->
  runs (check_kind records method s kind) (checked method c (done ++ [kind])).
Proof.
  intros He Hk (errors & Hx & Hv & Hn & Hf). unfold check_kind, icalcomponent_isa. assert (co_kind (ck_comp s) = co_kind c) as -> by apply Hx.
  destruct (runs_count method s c errors kind Hx Hk) as [Hc Hr]. set (r := icalrestriction_get_property_restriction records method (co_kind c) kind) in *.
  set (fits := count_allowed (rp_restriction r) (icalcomponent_count_properties kind c)) in *.
  rewrite Hc in *. replace (b2z fits =? -1) with false by (now destruct fits).
  eapply runs_bind; [exact Hr|]. clear Hr. intros s1 (errors1 & Hx1 & Hv1 & Hf1 & Hn1).
  destruct (first_property_of kind (ck_comp s1)) as [it ->].
  assert (Hdone : forallb (conforms_in method c) (done ++ [kind]) =
    ck_valid s && (fits && match special_check c kind r with Some ok => ok | None => true end)).
  { rewrite forallb_app, <- Hv. cbn [forallb]. rewrite andb_true_r. unfold special_check, conforms_in. fold r fits.
    destruct (find _ _), (rp_function r); reflexivity. }
  eapply runs_bind; [apply (runs_special method c errors1 (ck_comp s1) kind (ck_funcr s1) it He Hk Hx1)|].
  fold r. intros [funcr comp] [Hx2 Hs]. cbn [fst snd] in *. destruct funcr as [message|].
  - assert (Hfalse : forallb (conforms_in method c) (done ++ [kind]) = false).
    { rewrite Hdone. destruct (special_check c kind r) as [[|]|]; [destruct Hs as [_ Hs]; now specialize (Hs eq_refl) | now rewrite !andb_false_r|].
      rewrite Hf; [reflexivity|]. congruence. }
    eapply runs_bind; [apply (runs_itip_error message (with_funcr comp (Some message) s1) c errors1); exact Hx2|].
    intros s2 [(e & He2) [Hv2 Hf2]]. apply runs_ret. exists (errors1 ++ [e]). cbn [and_valid ck_comp ck_valid ck_funcr]. rewrite andb_false_r, Hfalse.
    do 2 (split; [auto|]). split; [|auto]. split; [intros H; now destruct errors1 | easy].
  - apply runs_ret. exists errors1. cbn [and_valid with_funcr ck_comp ck_valid ck_funcr].
    assert (Hok : match special_check c kind r with Some ok => ok | None => true end = true).
    { destruct (special_check c kind r) as [ok|]; [now apply Hs | reflexivity]. }
    rewrite Hdone, Hok, andb_true_r, Hv1. replace (negb (b2z fits =? 0)) with fits by now destruct fits.
    do 2 (split; [auto|]). split; [|easy]. rewrite Hn1, Hn. symmetry. apply andb_true_iff.
Qed.

Lemma runs_check_kinds method c : enumerated c -> forall kinds done s, Forall (fun k => k <> ICAL_ANY_PROPERTY) kinds -> checked method c done s ->
  runs (check_kinds records method kinds s) (checked method c (done ++ kinds)).
Proof.
  intros He. induction kinds as [|k kinds IH]; intros done s Hk Hs; cbn [check_kinds]; [apply runs_ret; now rewrite app_nil_r|].
  inversion_clear Hk as [|? ? Hk1 Hk2]. eapply runs_bind; [apply (runs_check_kind method c done s k); assumption|]. intros s1 H1.
  replace (done ++ k :: kinds) with ((done ++ [k]) ++ kinds) by now rewrite <- app_assoc. now apply IH.
Qed.

Lemma checked_kinds_real : Forall (fun k => k <> ICAL_ANY_PROPERTY) checked_kinds.
Proof. apply Forall_forall. intros k Hk. apply in_map_iff in Hk as (i & <- & _). unfold ICAL_ANY_PROPERTY. lia. Qed.

(** ** A component and a calendar *)

(** The result for a component: it is valid if and only if no error is added. *)
Definition judged (method : Z) (c : icalcomponent) (valid : bool) (d : icalcomponent) : Prop :=
  valid = conforms method c /\ exists errors, extended c errors d /\ (errors = [] <-> valid = true).

Lemma runs_check_component method c next : enumerated c ->
  runs (icalrestriction_check_component records method c next) (fun r => judged method c (fst (fst r)) (snd (fst r))).
Proof.
  intros He. unfold icalrestriction_check_component. eapply runs_bind.
  - apply (runs_check_kinds method c He checked_kinds [] (Check c next true None) checked_kinds_real). exists []. cbn [ck_comp ck_valid ck_funcr forallb].
    split; [|now split]. split; [now rewrite app_nil_r|]. now split.
  - intros s (errors & H1 & H2 & H3 & _). apply runs_ret. cbn [fst snd]. split; [exact H2|]. now exists errors.
Qed.

(** The inner components that are looked at are judged; the others stay as they are. *)
Lemma runs_check_inner method comps : Forall enumerated comps -> forall next valid,
  runs (check_inner records method comps next valid)
    (fun r => let '(v, comps', _) := r in
       v = valid && forallb (conforms method) comps /\
       Forall2 (fun c d => exists errors, extended c errors d /\ (v = true -> errors = [])) comps comps' /\
       (valid = true -> v = false -> exists c d e errors, In (c, d) (combine comps comps') /\ extended c (e :: errors) d)).
Proof.
  intros H. induction H as [|c comps Hc _ IH]; intros next valid; cbn [check_inner].
  { apply runs_ret. rewrite andb_true_r. split; [reflexivity|]. split; [constructor|]. now intros ->. }
  eapply runs_bind with (P := fun r => let '(v, d, _) := r in v = valid && conforms method c /\ exists errors, extended c errors d /\ (errors = [] <-> valid = false \/ v = true)).
  { destruct valid.
    - eapply runs_weaken; [now apply runs_check_component|]. intros [[v d] n] [Hv (errors & Hx & He)]. split; [exact Hv|]. exists errors. split; [exact Hx|].
      rewrite He. cbn. split; [now right | now intros [|]].
    - apply runs_ret. split; [reflexivity|]. exists []. split; [split; [now rewrite app_nil_r|now split]|]. split; [now left | reflexivity]. }
  intros [[v d] next1] [Hv (errors & Hx & He)]. eapply runs_bind; [apply IH|]. intros [[v2 comps'] next2] (Hv2 & Hf & Hbad). apply runs_ret.
  split; [rewrite Hv2, Hv; cbn [forallb]; now rewrite andb_assoc|]. split.
  - constructor; [|exact Hf]. exists errors. split; [exact Hx|]. intros E. apply He. right. rewrite E in Hv2. symmetry in Hv2. now apply andb_prop in Hv2.
  - intros Ev E2. destruct v.
    + destruct (Hbad eq_refl E2) as (c1 & d1 & e & es & Hin & Hx1). exists c1, d1, e, es. split; [now right | exact Hx1].
    + destruct errors as [|e es]; [destruct He as [He _]; destruct (He eq_refl); congruence|]. exists c, d, e, es. split; [now left | exact Hx].
Qed.

(** The method of a calendar. *)
Definition calendar_method (c : icalcomponent) : Z :=
  match find (property_matches ICAL_METHOD_PROPERTY) (co_properties c) with
  | Some p => match enum_of p with Some n => n | None => ICAL_METHOD_NONE end
  | None => ICAL_METHOD_NONE
  end.

(** What the table asks of a calendar. *)
Definition calendar_conforms (c : icalcomponent) : bool :=
  conforms ICAL_METHOD_NONE c && forallb (conforms (calendar_method c)) (co_components c).

Definition calendar_enumerated (c : icalcomponent) : Prop :=
  enumerated c /\ Forall enumerated (co_components c) /\ Forall (fun p => pr_kind p = ICAL_METHOD_PROPERTY -> enum_of p <> None) (co_properties c).

Lemma conforms_iterator method c it : conforms method (with_properties (co_properties c) it c) = conforms method c.
Proof. reflexivity. Qed.

Lemma runs_restriction_check c next : co_kind c = ICAL_VCALENDAR_COMPONENT -> calendar_enumerated c ->
  runs (icalrestriction_check records c next) (fun r => let '(valid, d) := r in
    valid = calendar_conforms c /\
    exists errors, co_properties d = co_properties c ++ errors /\ Forall (fun p => is_error p = true) errors /\
      Forall2 (fun x y => exists es, extended x es y /\ (valid = true -> es = [])) (co_components c) (co_components d) /\
      (valid = true -> errors = []) /\
      (valid = false -> errors <> [] \/ exists x y e es, In (x, y) (combine (co_components c) (co_components d)) /\ extended x (e :: es) y)).
Proof.
  intros Hk (He & Hi & Hm). unfold icalrestriction_check, icalcomponent_isa. rewrite Hk. change (negb (ckind_eqb _ _)) with false. cbv iota.
  destruct (first_property_of ICAL_METHOD_PROPERTY c) as [it ->].
  eapply runs_bind with (P := fun m => m = calendar_method c).
  { unfold calendar_method. destruct (find _ _) as [p|] eqn:Ep; [|now apply runs_ret]. apply find_some in Ep as [Hin Hmat]. rewrite Forall_forall in Hm.
    specialize (Hm p Hin). unfold property_matches in Hmat. change (ICAL_METHOD_PROPERTY =? ICAL_ANY_PROPERTY) with false in Hmat. rewrite orb_false_r in Hmat.
    apply Z.eqb_eq in Hmat. specialize (Hm Hmat). unfold enum_of, icalproperty_get_value in *. destruct (pr_value p) as [v|]; [|easy]. unfold get_enum.
    destruct (v_data v); try easy. now apply runs_ret. }
  intros method ->. eapply runs_bind; [apply runs_check_component; exact He|]. intros [[v outer] n1] [Hv (errors & (H1 & H2 & H3 & H4 & H5) & H6)].
  cbn [fst snd] in *. eapply runs_bind; [apply runs_check_inner; rewrite H4; exact Hi|]. intros [[v2 comps] n2] (G1 & G2 & G3). apply runs_ret.
  rewrite conforms_iterator in Hv. cbn [with_components co_properties co_components with_properties] in *. rewrite H4 in *.
  split; [rewrite G1, Hv; reflexivity|]. exists errors. split; [exact H1|]. split; [exact H2|]. split; [exact G2|]. split.
  - intros ->. apply H6. symmetry in G1. now apply andb_prop in G1.
  - intros ->. destruct v; [right; now apply G3 | left; intros E; apply H6 in E; discriminate].
Qed.

End Correct.

(** C33: [icalrestriction_check] accepts a calendar if and only if each property that
    it looks at occurs in the calendar and in its components as often as the table says for the method, and
    has a value that the table allows; it always ends.  It leaves the properties of
    an accepted calendar alone, and adds at least one X-LIC-ERROR, behind the properties that
    are there, to one that is not accepted, and nothing else. *)
Theorem restriction_check_exact `{PROPS : PropertyTables} `{PARAMS : ParameterTables} `{FLOAT : FloatOps} `{TZ : TimezoneConv} records c next st :
  table_ok records -> co_kind c = ICAL_VCALENDAR_COMPONENT -> calendar_enumerated c -> quiet st ->
  exists valid d st', icalrestriction_check records c next st = Some ((valid, d), st') /\ valid = calendar_conforms records c /\
    exists errors, co_properties d = co_properties c ++ errors /\ Forall (fun p => is_error p = true) errors /\
      Forall2 (fun x y => exists es, extended x es y /\ (valid = true -> es = [])) (co_components c) (co_components d) /\
      (valid = true -> errors = []) /\
      (valid = false -> errors <> [] \/ exists x y e es, In (x, y) (combine (co_components c) (co_components d)) /\ extended x (e :: es) y).
Proof.
  intros Ht Hk He Hst. destruct (runs_restriction_check records Ht c next Hk He st Hst) as ([valid d] & st' & E & _ & H). exists valid, d, st'. split; [exact E | exact H].
Qed.

(** ** Instances *)

#[local] Existing Instance text_floats.
#[local] Existing Instance utc_only.

(** Rows of restrictions.csv. *)
Definition publish (property : icalproperty_kind) (restr : icalrestriction_kind) (f : option restriction_func) : icalrestriction_property_record :=
  Restriction ICAL_METHOD_PUBLISH ICAL_VEVENT_COMPONENT property restr f.
Definition ICAL_COLOR_PROPERTY : icalproperty_kind := 118.
Definition sample_records : list icalrestriction_property_record :=
  [publish ICAL_DTSTAMP_PROPERTY ICAL_RESTRICTION_ONE None; publish ICAL_DTSTART_PROPERTY ICAL_RESTRICTION_ONE None;
   publish ICAL_DTEND_PROPERTY ICAL_RESTRICTION_ONEEXCLUSIVE (Some icalrestriction_no_duration);
   publish ICAL_DURATION_PROPERTY ICAL_RESTRICTION_ONEEXCLUSIVE (Some icalrestriction_no_dtend);
   publish ICAL_STATUS_PROPERTY ICAL_RESTRICTION_ZEROORONE (Some icalrestriction_may_be_tent_conf_cancel);
   publish ICAL_COLOR_PROPERTY ICAL_RESTRICTION_ZEROORONE None;
   Restriction ICAL_METHOD_NONE ICAL_VCALENDAR_COMPONENT ICAL_METHOD_PROPERTY ICAL_RESTRICTION_ONE None].

Definition plain_property (a : positive) (kind : icalproperty_kind) (v : option icalvalue) : icalproperty := Property a kind None [] 0 NoElem v None.
Definition enum_property (a : positive) (kind : icalproperty_kind) (vkind : icalvalue_kind) (n : Z) : icalproperty :=
  plain_property a kind (Some (new_with vkind (V_enum n))).
Definition publication (outer inner : list icalproperty) : icalcomponent :=
  Component 1 ICAL_VCALENDAR_COMPONENT None outer NoElem
    [Component 2 ICAL_VEVENT_COMPONENT None inner NoElem [] NoElem (Some 1%positive) None true] NoElem None None true.
Definition published : list icalproperty := [enum_property 3 ICAL_METHOD_PROPERTY ICAL_METHOD_VALUE ICAL_METHOD_PUBLISH].
Definition dated (more : list icalproperty) : list icalproperty := plain_property 4 ICAL_DTSTAMP_PROPERTY None :: plain_property 5 ICAL_DTSTART_PROPERTY None :: more.
Definition with_status (n : Z) : icalproperty := enum_property 6 ICAL_STATUS_PROPERTY ICAL_STATUS_VALUE n.

Lemma sample_table_ok : table_ok sample_records.
Proof.
  split.
  - intros r Hr. repeat destruct Hr as [<-|Hr]; try discriminate. easy.
  - intros r Hr. repeat destruct Hr as [<-|Hr]; try (vm_compute; discriminate). easy.
  - intros r f Hr. repeat destruct Hr as [<-|Hr]; try (intros [= <-]; cbn; auto; discriminate); try discriminate. easy.
  - reflexivity.
Qed.

Lemma sample_enumerated : calendar_enumerated (publication published (dated [with_status ICAL_STATUS_DRAFT])).
Proof. split; [|split]; repeat constructor; cbn; intros; try discriminate; destruct H; discriminate. Qed.

(** A draft may not be published. *)
Lemma restriction_check_exact_witness :
  exists d st', icalrestriction_check sample_records (publication published (dated [with_status ICAL_STATUS_DRAFT])) 10 (initial_error_state false) = Some ((false, d), st') /\
    co_properties d <> [].
Proof.
  destruct (restriction_check_exact sample_records (publication published (dated [with_status ICAL_STATUS_DRAFT])) 10 (initial_error_state false)
    sample_table_ok eq_refl sample_enumerated initial_quiet) as (valid & d & st' & E & Hv & errors & Hp & _).
  exists d, st'. split; [|rewrite Hp; discriminate]. rewrite E. assert (valid = false) as -> by (rewrite Hv; vm_compute; reflexivity). reflexivity.
Defined.

Definition errors_after (c : icalcomponent) : option (bool * list Z) :=
  option_map (fun r => let '(valid, d) := fst r in (valid, map icalcomponent_count_errors (d :: co_components d)))
    (icalrestriction_check sample_records c 10 (initial_error_state false)).

Example accepted : errors_after (publication published (dated [with_status ICAL_STATUS_CONFIRMED])) = Some (true, [0; 0]).
Proof. vm_compute. reflexivity. Qed.

(** The message about a value is kept, and added again for every kind that follows. *)
Example message_repeated : errors_after (publication published (dated [with_status ICAL_STATUS_DRAFT])) = Some (false, [24; 24]).
Proof. vm_compute. reflexivity. Qed.

(** A calendar with an error of its own: the event, which has no date, is not checked. *)
Example inner_not_checked : errors_after (publication [] []) = Some (false, [1; 0]).
Proof. vm_compute. reflexivity. Qed.

(** The kinds behind [ICAL_NO_PROPERTY] are not checked: two colours are accepted. *)
Example two_colors_accepted :
  errors_after (publication published (dated [plain_property 6 ICAL_COLOR_PROPERTY None; plain_property 7 ICAL_COLOR_PROPERTY None])) = Some (true, [0; 0]).
Proof. vm_compute. reflexivity. Qed.
