(* ===== verification/IcalMessage.v ===== *)
(** * Replies to scheduling messages (icalmessage.c)

    A reply is a new calendar with a copy of what identifies the event, the
    attendee who replies, and what he says.  [now] is the time that [time] gives; [ICAL_PACKAGE] and [ICAL_VERSION] are set
    by the build.  New objects get the addresses from [a] on.  As in IcalComponentAccess,
    the iterators that reading moves are not returned. *)
From Stdlib Require Import String Ascii ZArith Lia Bool List.
From S2P Require Import Prelude CString IcalError IcalTime IcalTypes IcalValueText IcalValue IcalLine IcalParameter IcalProperty IcalComponent IcalComponentZones IcalTimezone IcalComponentAccess IcalComponentRecur IcalSpanlist IcalClassify.
Import ListNotations.
#[local] Open Scope Z_scope.
#[local] Open Scope cstring_scope.
#[local] Open Scope err_scope.

Definition ICAL_PRODID_PROPERTY : icalproperty_kind := 57.
Definition ICAL_REQUESTSTATUS_PROPERTY : icalproperty_kind := 70.
Definition ICAL_VERSION_PROPERTY : icalproperty_kind := 89.
Definition ICAL_DELEGATEDTO_PARAMETER : icalparameter_kind := 7.

Definition lowercase (str : option cstring) : option cstring := option_map (map tolower) str.

Section Message.
Context `{PROPS : PropertyTables} `{PARAMS : ParameterTables} `{FLOAT : FloatOps} `{TZ : TimezoneConv} `{BUILTIN : BuiltinZones} `{NAMES : ZoneNames}.
Context (now : Z) (ICAL_PACKAGE ICAL_VERSION : cstring).

(** ** New objects: the generated functions *)

(** [icalproperty_new_<kind>] of a value. *)
Definition new_property (addr : positive) (kind : icalproperty_kind) (v : icalvalue) : err icalproperty :=
  match icalproperty_new_impl addr kind with
  | None => undefined
  | Some p => icalproperty_set_value (Some v) p
  end.
Definition icalproperty_new_method (addr : positive) (v : Z) : err icalproperty :=
  new_property addr ICAL_METHOD_PROPERTY (new_with ICAL_METHOD_VALUE (V_enum v)).
Definition icalproperty_new_dtstamp (addr : positive) (t : icaltimetype) : err icalproperty :=
  v <- icalvalue_new_datetime t ;; new_property addr ICAL_DTSTAMP_PROPERTY v.
Definition new_text_property (addr : positive) (kind : icalproperty_kind) (text : cstring) : err icalproperty :=
  new_property addr kind (new_with ICAL_TEXT_VALUE (V_string text)).

Definition icalparameter_new_partstat (v : Z) : err icalparameter :=
  icalerror_clear_errno ;;; icalerror_clear_errno ;;; ret (Param ICAL_PARTSTAT_PARAMETER None None None v).
Definition new_string_parameter (kind : icalparameter_kind) (v : cstring) : err icalparameter :=
  icalerror_clear_errno ;;; icalerror_clear_errno ;;; ret (Param kind (Some v) None None 0).

(** ** Finding and copying *)

Definition icalmessage_get_inner (comp : option icalcomponent) : err (option icalcomponent) :=
  match comp with
  | None => badarg None
  | Some c =>
      ret (if ckind_eqb (icalcomponent_isa c) ICAL_VCALENDAR_COMPONENT then fst (icalcomponent_get_first_real_component c) else Some c)
  end.

(** The first attendee whose address contains the text; the text is compared as it is given. *)
Fixpoint attendee_with (ps : list icalproperty) (user : cstring) : err (option icalproperty) :=
  match ps with
  | [] => ret None
  | p :: rest =>
      address <- icalvalue_get_text (icalproperty_get_value p) ;;
      match lowercase address with
      | None => undefined
      | Some lattendee => match strstr lattendee user with Some _ => ret (Some p) | None => attendee_with rest user end
      end
  end.

Definition icalmessage_find_attendee (comp : icalcomponent) (user : cstring) : err (option icalproperty) :=
  inner <- icalmessage_get_inner (Some comp) ;;
  ps <- properties_of_option ICAL_ATTENDEE_PROPERTY inner ;;
  attendee_with ps user.

(** A change of the inner component of a reply. *)
Definition in_inner (change : icalcomponent -> err icalcomponent) (reply : icalcomponent) : err icalcomponent :=
  inner <- icalmessage_get_inner (Some reply) ;;
  match inner with
  | Some inner => inner <- change inner ;; ret (put_inner inner reply)
  | None => badarg reply
  end.

(** [icalcomponent_add_property] of a copy. *)
Definition add_clone (a : positive) (p : icalproperty) (c : icalcomponent) : err icalcomponent :=
  q <- icalproperty_clone a p ;;
  match q with Some q => ret (icalcomponent_add_property q c) | None => badarg c end.

Definition icalmessage_copy_properties (a : positive) (to from : icalcomponent) (kind : icalproperty_kind) : err icalcomponent :=
  to_inner <- icalmessage_get_inner (Some to) ;;
  from_inner <- icalmessage_get_inner (Some from) ;;
  match to_inner, from_inner with
  | None, None => icalerror_set_errno ICAL_MALFORMEDDATA_ERROR ;;; ret to
  | _, _ =>
      p <- first_of kind from_inner ;;
      match p with
      | None => ret to
      | Some p => in_inner (add_clone a p) to
      end
  end.

Fixpoint copy_kinds (a : positive) (kinds : list icalproperty_kind) (reply c : icalcomponent) : err icalcomponent :=
  match kinds with
  | [] => ret reply
  | kind :: kinds => reply <- icalmessage_copy_properties a reply c kind ;; copy_kinds (Pos.succ a) kinds reply c
  end.

Definition copied_kinds : list icalproperty_kind :=
  [ICAL_UID_PROPERTY; ICAL_ORGANIZER_PROPERTY; ICAL_RECURRENCEID_PROPERTY; ICAL_SUMMARY_PROPERTY; ICAL_SEQUENCE_PROPERTY].

(** ** Replies *)

Definition new_component (addr : positive) (kind : icalcomponent_kind) : err icalcomponent :=
  match icalcomponent_new_impl addr kind with Some c => ret c | None => undefined end.

(** The calendar that [icalcomponent_vanew] makes. *)
Definition empty_reply (a : positive) : err icalcomponent :=
  method <- icalproperty_new_method (a + 2) ICAL_METHOD_REPLY ;;
  dtstamp <- icalproperty_new_dtstamp (a + 3) (icaltime_from_timet_with_zone now 0 ZONE_NULL) ;;
  inner <- new_component (a + 1) ICAL_VEVENT_COMPONENT ;;
  reply <- new_component a ICAL_VCALENDAR_COMPONENT ;;
  r <- icalcomponent_add_component (icalcomponent_add_property method reply) (icalcomponent_add_property dtstamp inner) ;;
  ret (fst r).

Definition product_id : cstring := snprintf 45 ($"-//SoftwareStudio//NONSGML " ++ ICAL_PACKAGE ++ $" " ++ ICAL_VERSION ++ $" //EN").

Definition icalmessage_new_reply_base (a : positive) (c : icalcomponent) (user : cstring) (msg : option cstring) : err (option icalcomponent) :=
  reply <- empty_reply a ;;
  reply <- copy_kinds (a + 4) copied_kinds reply c ;;
  reply <- icalcomponent_set_dtstamp (icaltime_from_timet_with_zone now 0 ZONE_NULL) (a + 9) reply ;;
  reply <- (match msg with
            | None => ret reply
            | Some msg => p <- new_text_property (a + 10) ICAL_COMMENT_PROPERTY msg ;; in_inner (fun i => ret (icalcomponent_add_property p i)) reply
            end) ;;
  attendee <- icalmessage_find_attendee c user ;;
  match attendee with
  | None => icalerror_set_errno ICAL_MALFORMEDDATA_ERROR ;;; ret None
  | Some attendee =>
      reply <- in_inner (add_clone (a + 11) attendee) reply ;;
      version <- new_text_property (a + 12) ICAL_VERSION_PROPERTY $"2.0" ;;
      prodid <- new_text_property (a + 13) ICAL_PRODID_PROPERTY product_id ;;
      ret (Some (icalcomponent_add_property prodid (icalcomponent_add_property version reply)))
  end.

(** The parameters of the attendee are set one after the other. *)
Fixpoint set_parameters_of (params : list icalparameter) (p : icalproperty) : err icalproperty :=
  match params with
  | [] => ret p
  | q :: params => p <- icalproperty_set_parameter q p ;; set_parameters_of params p
  end.

Definition set_attendee (params : list icalparameter) : icalcomponent -> err icalcomponent :=
  in_inner (fun inner =>
    match icalcomponent_get_first_property ICAL_ATTENDEE_PROPERTY inner with
    | (None, inner) => match params with [] => ret inner | _ => badarg inner end
    | (Some p, inner) => p <- set_parameters_of params p ;; ret (put_first p inner)
    end).

(** A null pointer is not accepted.  [missing] is what is done with a reply that
    could not be made before it is found to be null; it can only set errors. *)
Definition reply_with (a : positive) (c : option icalcomponent) (user : cstring) (msg : option cstring) (missing : err unit)
    (f : icalcomponent -> icalcomponent -> err icalcomponent) : err (option icalcomponent) :=
  match c with
  | None => badarg None
  | Some c =>
      reply <- icalmessage_new_reply_base a c user msg ;;
      match reply with
      | None => missing ;;; ret None
      | Some r => r <- f c r ;; ret (Some r)
      end
  end.

(** Most replies look for the inner component first: [icalmessage_get_inner] of a null pointer. *)
Definition inner_of_null : err unit := inner <- icalmessage_get_inner None ;; ret tt.

(** [icalcomponent_set_method] of a null pointer: neither the search nor the
    addition accepts it; the property made in between is lost. *)
Definition set_method_of_null (v : Z) (addr : positive) : err unit :=
  badarg tt ;;; p <- icalproperty_new_method addr v ;; badarg tt ;;; p <- icalproperty_set_value (Some (new_with ICAL_METHOD_VALUE (V_enum v))) p ;; ret tt.

Definition icalmessage_new_accept_reply (a : positive) (c : option icalcomponent) (user : cstring) (msg : option cstring) : err (option icalcomponent) :=
  reply_with a c user msg (ret tt) (fun _ reply => q <- icalparameter_new_partstat ICAL_PARTSTAT_ACCEPTED ;; set_attendee [q] reply).

Definition icalmessage_new_decline_reply (a : positive) (c : option icalcomponent) (user : cstring) (msg : option cstring) : err (option icalcomponent) :=
  reply_with a c user msg inner_of_null (fun _ reply => q <- icalparameter_new_partstat ICAL_PARTSTAT_DECLINED ;; set_attendee [q] reply).

(** The base is made of the new version of the event. *)
Definition icalmessage_new_counterpropose_reply (a : positive) (oldc newc : option icalcomponent) (user : cstring) (msg : option cstring)
    : err (option icalcomponent) :=
  match oldc with
  | None => badarg None
  | Some _ => reply_with a newc user msg (set_method_of_null ICAL_METHOD_COUNTER (a + 14)) (fun _ reply => icalcomponent_set_method ICAL_METHOD_COUNTER (a + 14) reply)
  end.

Definition delegation (delegatee : cstring) : err (list icalparameter) :=
  q <- icalparameter_new_partstat ICAL_PARTSTAT_DELEGATED ;; r <- new_string_parameter ICAL_DELEGATEDTO_PARAMETER delegatee ;; ret [q; r].

Definition icalmessage_new_delegate_reply (a : positive) (c : option icalcomponent) (user delegatee : cstring) (msg : option cstring) : err (option icalcomponent) :=
  reply_with a c user msg inner_of_null (fun _ reply => params <- delegation delegatee ;; set_attendee params reply).

(** The new attendee; its address is that of the one who delegates. *)
Definition add_delegatee (a : positive) (delegatee : cstring) : icalcomponent -> err icalcomponent :=
  in_inner (fun inner =>
    match fst (icalcomponent_get_first_property ICAL_ATTENDEE_PROPERTY inner) with
    | None => undefined
    | Some attendee =>
        address <- icalvalue_get_text (icalproperty_get_value attendee) ;;
        match address with
        | None => undefined
        | Some address =>
            q <- new_string_parameter ICAL_DELEGATEDFROM_PARAMETER address ;;
            p <- new_property a ICAL_ATTENDEE_PROPERTY (new_with ICAL_CALADDRESS_VALUE (V_string delegatee)) ;;
            ret (icalcomponent_add_property (icalproperty_add_parameter q p) inner)
        end
    end).

Definition icalmessage_new_delegate_request (a : positive) (c : option icalcomponent) (user delegatee : cstring) (msg : option cstring) : err (option icalcomponent) :=
  reply_with a c user msg inner_of_null (fun _ reply =>
    reply <- icalcomponent_set_method ICAL_METHOD_REQUEST (a + 14) reply ;;
    params <- delegation delegatee ;;
    reply <- set_attendee params reply ;;
    add_delegatee (a + 15) delegatee reply).

Fixpoint add_clones (a : positive) (ps : list icalproperty) (c : icalcomponent) : err icalcomponent :=
  match ps with
  | [] => ret c
  | p :: ps => c <- add_clone a p c ;; add_clones (Pos.succ a) ps c
  end.

Definition icalmessage_new_error_reply (a : positive) (c : option icalcomponent) (user : cstring) (msg debug : option cstring) (status : icalrequeststatus)
    : err (option icalcomponent) :=
  reply_with a c user msg inner_of_null (fun c reply =>
    match status with
    | ICAL_UNKNOWN_STATUS =>
        cinner <- icalmessage_get_inner (Some c) ;;
        ps <- properties_of_option ICAL_REQUESTSTATUS_PROPERTY cinner ;;
        in_inner (add_clones (a + 14) ps) reply
    | _ =>
        p <- new_property (a + 14) ICAL_REQUESTSTATUS_PROPERTY (new_with ICAL_REQUESTSTATUS_VALUE (V_requeststatus (Reqstat status None debug))) ;;
        in_inner (fun i => ret (icalcomponent_add_property p i)) reply
    end).

End Message.
