(* ===== verification/IcalMessageCorrect.v ===== *)
(** * A reply is understood as what it was meant to be

    A reply that accepts or declines a request, made by icalmessage.c, is classified
    by icalclassify.c, against that request, as an acceptance or a refusal. *)
From Stdlib Require Import String Ascii ZArith Lia Bool List.
From S2P Require Import Prelude CString IcalError IcalTime IcalTimeCalendar IcalTypes IcalValueText IcalValue IcalValueSafe IcalLine IcalParameter IcalProperty IcalPropertyText IcalComponent IcalComponentZones IcalTimezone IcalDesignData IcalParser IcalParserSafe IcalParserTotal IcalCalendarZones IcalComponentAccess IcalComponentEdit IcalComponentRecur IcalSpanlist IcalComponentExamples IcalClassify IcalMessage.
Import ListNotations.
#[local] Open Scope Z_scope.
#[local] Open Scope cstring_scope.
#[local] Open Scope err_scope.

Section Correct.
Context `{PROPS : PropertyTables} `{PARAMS : ParameterTables} `{FLOAT : FloatOps} `{TZ : TimezoneConv} `{BUILTIN : BuiltinZones} `{NAMES : ZoneNames}.

(** The kinds that are read and copied are in the table of properties. *)
Definition known_kinds : Prop :=
  Forall (fun k => icalproperty_kind_is_valid k = true)
    ([ICAL_METHOD_PROPERTY; ICAL_DTSTAMP_PROPERTY; ICAL_COMMENT_PROPERTY; ICAL_ATTENDEE_PROPERTY; ICAL_VERSION_PROPERTY; ICAL_PRODID_PROPERTY] ++ copied_kinds).

(** What the accessors expect to find in a value. *)
Definition expects (k : icalproperty_kind) (d : value_data) : bool :=
  if existsb (Z.eqb k) [ICAL_UID_PROPERTY; ICAL_ORGANIZER_PROPERTY; ICAL_ATTENDEE_PROPERTY] then match d with V_string _ => true | _ => false end
  else if k =? ICAL_SEQUENCE_PROPERTY then match d with V_int _ | V_zero => true | _ => false end
  else if existsb (Z.eqb k) [ICAL_RECURRENCEID_PROPERTY; ICAL_DTSTAMP_PROPERTY] then match d with V_time _ | V_zero => true | _ => false end
  else if k =? ICAL_METHOD_PROPERTY then match d with V_enum _ => true | _ => false end
  else true.

(** Kinds of values whose copy has the same data. *)
Definition copied_as_is (k : icalvalue_kind) : bool :=
  icalvalue_kind_is_valid k && match k with ICAL_RECUR_VALUE | ICAL_ACTION_VALUE | ICAL_X_VALUE => false | _ => true end.

(** A property with a value that can be read and copied. *)
Definition readable (p : icalproperty) : Prop :=
  exists v, pr_value p = Some v /\ expects (pr_kind p) (v_data v) = true /\ copied_as_is (v_kind v) = true.

(** The kinds that this file is about. *)
Definition used_kinds : list icalproperty_kind := ICAL_METHOD_PROPERTY :: ICAL_DTSTAMP_PROPERTY :: ICAL_ATTENDEE_PROPERTY :: copied_kinds.
Definition readable_parts (ps : list icalproperty) : Prop := Forall (fun p => In (pr_kind p) used_kinds -> readable p) ps.

Lemma first_readable ps kind p : readable_parts ps -> In kind used_kinds -> find (property_matches kind) ps = Some p -> pr_kind p = kind /\ readable p.
Proof.
  intros H Hk Hf. apply find_some in Hf as [Hi Hm]. unfold property_matches in Hm. apply orb_prop in Hm as [Hm|Hm]; apply Z.eqb_eq in Hm.
  - unfold readable_parts in H. rewrite Forall_forall in H. split; [assumption|]. apply H; [assumption | now rewrite Hm].
  - subst kind. repeat destruct Hk as [Hk|Hk]; try discriminate. easy.
Qed.

Lemma readable_app ps qs : readable_parts (ps ++ qs) <-> readable_parts ps /\ readable_parts qs.
Proof. apply Forall_app. Qed.

(** ** Reading *)

Lemma text_of_readable p : readable p -> existsb (Z.eqb (pr_kind p)) [ICAL_UID_PROPERTY; ICAL_ORGANIZER_PROPERTY; ICAL_ATTENDEE_PROPERTY] = true ->
  exists v s, pr_value p = Some v /\ v_data v = V_string s.
Proof.
  intros (v & Hv & He & _) Hk. unfold expects in He. rewrite Hk in He. exists v. destruct (v_data v) as [| |s| | | | | | | | |]; try discriminate. now exists s.
Qed.

Lemma runs_part {A} kind ps (c : icalcomponent) (get : option icalvalue -> err A) absent :
  co_properties c = ps -> readable_parts ps -> In kind used_kinds -> (forall p, pr_kind p = kind -> readable p -> runs (get (pr_value p)) any) ->
  runs (part kind (Some c) get absent) any.
Proof.
  intros <- Hr Hk Hg. unfold part, first_of. apply runs_bind_ret. rewrite first_property_find.
  destruct (find (property_matches kind) (co_properties c)) as [p|] eqn:E; [|now apply runs_ret].
  destruct (first_readable _ _ _ Hr Hk E). now apply Hg.
Qed.

Lemma runs_text p k : pr_kind p = k -> existsb (Z.eqb k) [ICAL_UID_PROPERTY; ICAL_ORGANIZER_PROPERTY; ICAL_ATTENDEE_PROPERTY] = true -> readable p ->
  runs (icalvalue_get_text (pr_value p)) any.
Proof.
  intros <- Hk Hr. destruct (text_of_readable p Hr Hk) as (v & s & -> & Hs). unfold icalvalue_get_text. rewrite Hs. now apply runs_ret.
Qed.

Lemma runs_sequence p : pr_kind p = ICAL_SEQUENCE_PROPERTY -> readable p -> runs (icalvalue_get_utcoffset (pr_value p)) any.
Proof.
  intros Hk (v & -> & He & _). rewrite Hk in He. cbn in He. unfold icalvalue_get_utcoffset. destruct (v_data v); try discriminate; now apply runs_ret.
Qed.

Lemma runs_date p k : pr_kind p = k -> k = ICAL_RECURRENCEID_PROPERTY \/ k = ICAL_DTSTAMP_PROPERTY -> readable p -> runs (get_datetimedate (pr_value p)) any.
Proof.
  intros Hk Hd (v & -> & He & _). rewrite Hk in He. unfold get_datetimedate, icalvalue_get_datetimedate.
  assert (match v_data v with V_time _ | V_zero => true | _ => false end = true) as Hv by (destruct Hd as [-> | ->]; exact He).
  destruct (is_time_kind (v_kind v)); [|now apply runs_badarg]. destruct (v_data v); try discriminate; now apply runs_ret.
Qed.

(** ** Copies *)

Definition same_content (p q : icalproperty) : Prop :=
  pr_kind q = pr_kind p /\ pr_parameters q = map icalparameter_clone (pr_parameters p) /\
  match pr_value p with Some v => exists w, pr_value q = Some w /\ v_data w = v_data v /\ v_kind w = v_kind v | None => True end.

Lemma same_content_readable p q : same_content p q -> readable p -> readable q.
Proof.
  intros (Hk & _ & Hv) (v & Ev & He & Hc). rewrite Ev in Hv. destruct Hv as (w & Ew & Ed & Ekd). exists w. now rewrite Hk, Ed, Ekd.
Qed.

Lemma runs_clone a p : icalproperty_kind_is_valid (pr_kind p) = true -> readable p ->
  runs (icalproperty_clone a p) (fun q => exists q', q = Some q' /\ same_content p q').
Proof.
  intros Hk (v & Hv & _ & Hc). unfold icalproperty_clone, icalproperty_new_impl. rewrite Hk, Hv.
  apply andb_prop in Hc as [Hval Hplain]. apply runs_bind with (P := fun w => exists w', w = Some w' /\ v_data w' = v_data v /\ v_kind w' = v_kind v).
  - unfold icalvalue_clone, icalvalue_new_impl. rewrite Hval. destruct (v_kind v); try discriminate; apply runs_ret; eexists; now split.
  - intros w (w' & -> & Hd & Hkd). apply runs_ret. eexists. split; [reflexivity|]. split; [reflexivity|]. split; [reflexivity|]. rewrite Hv. now exists w'.
Qed.

(** ** The reply that is made *)

(** A calendar with METHOD:REPLY and an inner component whose properties satisfy [P]. *)
Definition answer (P : list icalproperty -> Prop) (r : icalcomponent) : Prop :=
  co_kind r = ICAL_VCALENDAR_COMPONENT /\
  (exists m w, find (property_matches ICAL_METHOD_PROPERTY) (co_properties r) = Some m /\ pr_value m = Some w /\ v_data w = V_enum ICAL_METHOD_REPLY) /\
  exists i, inner_of r = Some i /\ P (co_properties i).

Lemma put_inner_properties j r : co_kind r = ICAL_VCALENDAR_COMPONENT -> co_kind (put_inner j r) = co_kind r /\ co_properties (put_inner j r) = co_properties r.
Proof. intros H. unfold put_inner. rewrite H. change (ckind_eqb _ _) with true. cbv iota. now destruct (search_from _ _ _). Qed.

Lemma answer_put (P Q : list icalproperty -> Prop) r c1 i j : answer P r -> inner_of r = Some i -> same_shell r c1 -> co_properties c1 = co_properties r ->
  same_shell i j -> Q (co_properties j) -> answer Q (put_inner j c1).
Proof.
  intros (Hk & Hm & _) Hi Hs Hp Hj HQ. assert (Hk1 : co_kind c1 = ICAL_VCALENDAR_COMPONENT) by (destruct Hs as [Hs _]; congruence).
  destruct (put_inner_properties j c1 Hk1) as [E1 E2]. split; [congruence|]. split; [now rewrite E2, Hp|]. exists j. split; [now apply (inner_put i j r c1) | exact HQ].
Qed.

Lemma same_shell_refl c : same_shell c c.
Proof. repeat split. Qed.

Lemma get_inner_inner c : icalmessage_get_inner (Some c) = ret (inner_of c).
Proof. unfold icalmessage_get_inner, inner_of, icalcomponent_get_inner, icalcomponent_isa. now destruct (ckind_eqb _ _). Qed.

Lemma runs_in_inner change r (P Q : list icalproperty -> Prop) : answer P r ->
  (forall i, P (co_properties i) -> runs (change i) (fun j => same_shell i j /\ Q (co_properties j))) -> runs (in_inner change r) (answer Q).
Proof.
  intros Ha Hc. pose proof Ha as (_ & _ & i & Hi & HP). unfold in_inner. rewrite get_inner_inner. apply runs_bind_ret. rewrite Hi.
  eapply runs_bind; [now apply Hc|]. intros j [Hs HQ]. apply runs_ret. apply (answer_put P Q r r i j); auto using same_shell_refl.
Qed.

(** What the properties satisfy until the attendee is added: the first is DTSTAMP, and none is an attendee. *)
Definition started (ps : list icalproperty) : Prop :=
  readable_parts ps /\ Forall (fun p => pr_kind p <> ICAL_ATTENDEE_PROPERTY) ps /\ exists d rest, ps = d :: rest /\ pr_kind d = ICAL_DTSTAMP_PROPERTY.

Lemma started_snoc ps p : started ps -> (In (pr_kind p) used_kinds -> readable p) -> pr_kind p <> ICAL_ATTENDEE_PROPERTY -> started (ps ++ [p]).
Proof.
  intros (H1 & H2 & d & rest & -> & Hd) Hr Ha. split; [apply readable_app; split; [assumption|]; now repeat constructor|].
  split; [apply Forall_app; split; [assumption|]; now repeat constructor|]. now exists d, (rest ++ [p]).
Qed.

Context (KNOWN : known_kinds).

Lemma known kind : In kind ([ICAL_METHOD_PROPERTY; ICAL_DTSTAMP_PROPERTY; ICAL_COMMENT_PROPERTY; ICAL_ATTENDEE_PROPERTY; ICAL_VERSION_PROPERTY; ICAL_PRODID_PROPERTY] ++ copied_kinds) ->
  icalproperty_kind_is_valid kind = true.
Proof. unfold known_kinds in KNOWN. rewrite Forall_forall in KNOWN. apply KNOWN. Qed.

Lemma runs_add_clone a p i : icalproperty_kind_is_valid (pr_kind p) = true -> readable p ->
  runs (add_clone a p i) (fun j => same_shell i j /\ exists q, co_properties j = co_properties i ++ [q] /\ same_content p q).
Proof.
  intros Hk Hr. unfold add_clone. eapply runs_bind; [now apply runs_clone|]. intros q (q' & -> & Hq). apply runs_ret. split; [repeat split|].
  now exists (icalproperty_set_parent (Some (co_addr i)) q').
Qed.

Lemma runs_copy a reply c inner kind : answer started reply -> inner_of c = Some inner -> readable_parts (co_properties inner) -> In kind copied_kinds ->
  runs (icalmessage_copy_properties a reply c kind) (answer started).
Proof.
  intros Ha Hi Hr Hk. unfold icalmessage_copy_properties. rewrite !get_inner_inner. apply runs_bind_ret. apply runs_bind_ret. rewrite Hi.
  assert (Hk2 : In kind used_kinds) by (do 3 right; exact Hk).
  pose proof Ha as (_ & _ & ri & Hri & _). rewrite Hri. unfold first_of. apply runs_bind_ret. rewrite first_property_find.
  destruct (find (property_matches kind) (co_properties inner)) as [p|] eqn:E; [|now apply runs_ret].
  destruct (first_readable _ _ _ Hr Hk2 E) as [Hpk Hp]. apply (runs_in_inner _ _ started started Ha). intros i Hs.
  eapply runs_weaken; [apply runs_add_clone; [rewrite Hpk; apply known, in_or_app; now right | exact Hp]|].
  intros j [Hsh (q & -> & Hq)]. split; [exact Hsh|]. apply started_snoc; [exact Hs | intros _; now apply (same_content_readable p) |].
  destruct Hq as [-> _]. rewrite Hpk. intros ->. repeat destruct Hk as [Hk|Hk]; try discriminate. easy.
Qed.

Lemma runs_copy_kinds c inner : inner_of c = Some inner -> readable_parts (co_properties inner) ->
  forall kinds a reply, incl kinds copied_kinds -> answer started reply -> runs (copy_kinds a kinds reply c) (answer started).
Proof.
  intros Hi Hr. induction kinds as [|k kinds IH]; intros a reply Hk Ha; cbn [copy_kinds]; [now apply runs_ret|].
  apply incl_cons_inv in Hk as [Hk1 Hk2]. eapply runs_bind; [now apply (runs_copy a reply c inner k)|]. intros r Hr'. now apply IH.
Qed.

(** ** New properties *)

Lemma time_kind_copied k : is_time_kind k = true -> copied_as_is k = true.
Proof. now destruct k. Qed.

Lemma runs_new_property addr kind v : icalproperty_kind_is_valid kind = true -> is_time_kind (v_kind v) = false ->
  runs (new_property addr kind v) (fun p => pr_kind p = kind /\ exists w, pr_value p = Some w /\ v_data w = v_data v).
Proof.
  intros Hk Hv. unfold new_property, icalproperty_new_impl. rewrite Hk. eapply runs_weaken; [apply (runs_set_plain_value v _ Hv)|].
  intros p (H1 & _ & H2). now split.
Qed.

Variable now : Z.
Notation stamp := (icaltime_from_timet_with_zone now 0 ZONE_NULL).
Hypothesis stamp_valid : icaltime_is_valid_time stamp = true.
Hypothesis stamp_time : icaltime_is_date stamp = false.

Lemma runs_stamp p : pr_kind p = ICAL_DTSTAMP_PROPERTY -> runs (set_time stamp p) (fun q => pr_kind q = ICAL_DTSTAMP_PROPERTY /\ readable q).
Proof.
  intros Hk. eapply runs_weaken; [apply (runs_set_time stamp p stamp_valid); rewrite stamp_time; apply andb_false_r|].
  intros q [Hq [(w & Hw & Hd & Ht) _]]. rewrite Hk in Hq. split; [exact Hq|]. exists w. rewrite Hq, Hd. split; [exact Hw|]. split; [reflexivity|]. now apply time_kind_copied.
Qed.

Lemma runs_add_new parent child : co_parent child = None -> ckind_eqb (co_kind child) ICAL_VTIMEZONE_COMPONENT = false ->
  runs (icalcomponent_add_component parent child) (fun r => fst r =
    with_components (co_components parent ++ [icalcomponent_set_parent (Some (co_addr parent)) child]) (component_iterator parent) parent).
Proof.
  intros Hp Hk. unfold icalcomponent_add_component. rewrite Hp. apply runs_bind_ret. cbn [icalcomponent_set_parent co_kind]. rewrite Hk. now apply runs_ret.
Qed.

Lemma runs_empty_reply a : runs (empty_reply now a) (answer started).
Proof.
  unfold empty_reply. eapply runs_bind.
  { apply (runs_new_property (a + 2) ICAL_METHOD_PROPERTY (new_with ICAL_METHOD_VALUE (V_enum ICAL_METHOD_REPLY))); [apply known; now left | reflexivity]. }
  intros method (Hmk & w & Hmw & Hmd). eapply runs_bind with (P := fun q => pr_kind q = ICAL_DTSTAMP_PROPERTY /\ readable q).
  { unfold icalproperty_new_dtstamp, new_property, icalproperty_new_impl. rewrite known by (right; now left).
    exact (runs_stamp (Property (a + 3) ICAL_DTSTAMP_PROPERTY None [] 0 NoElem None None) eq_refl). }
  intros d [Hdk Hdr]. change (new_component (a + 1) ICAL_VEVENT_COMPONENT) with (ret (Component (a + 1) ICAL_VEVENT_COMPONENT None [] NoElem [] NoElem None None true)).
  change (new_component a ICAL_VCALENDAR_COMPONENT) with (ret (Component a ICAL_VCALENDAR_COMPONENT None [] NoElem [] NoElem None None true)).
  apply runs_bind_ret. apply runs_bind_ret.
  eapply runs_bind; [now apply runs_add_new|]. intros r ->. apply runs_ret. split; [reflexivity|]. split.
  - exists (icalproperty_set_parent (Some a) method), w. split; [|now split].
    cbn [icalcomponent_add_property with_properties with_components co_properties co_addr List.app find].
    unfold property_matches. cbn [icalproperty_set_parent pr_kind]. now rewrite Hmk.
  - eexists. split; [rewrite inner_of_eq; reflexivity|]. cbn [icalcomponent_add_property icalcomponent_set_parent with_properties co_properties co_addr List.app]. split; [|split].
    + constructor; [|constructor]. intros _. exact Hdr.
    + constructor; [|constructor]. change (pr_kind (icalproperty_set_parent (Some (a + 1)%positive) d)) with (pr_kind d). rewrite Hdk. discriminate.
    + eexists _, []. split; [reflexivity | exact Hdk].
Qed.

Lemma runs_set_dtstamp addr r : answer started r -> runs (icalcomponent_set_dtstamp stamp addr r) (answer started).
Proof.
  intros Ha. pose proof Ha as (Hk & _ & i & Hi & Hs). unfold icalcomponent_set_dtstamp, ICALSETUPSET.
  assert (exists c1, icalcomponent_get_inner r = (Some i, c1) /\ same_shell r c1 /\ co_properties c1 = co_properties r) as (c1 & -> & Hs1 & Hp1).
  { unfold inner_of in Hi. unfold icalcomponent_get_inner in *. rewrite Hk in *. change (ckind_eqb _ _) with true in *. cbv iota in *.
    unfold icalcomponent_get_first_real_component in *. destruct (iterate _ _ _) as [x it]. cbn [fst] in Hi. subst x. eexists. split; [reflexivity|]. repeat split. }
  pose proof Hs as (H1 & H2 & d & rest & E & Hd).
  assert (Hm : property_matches ICAL_DTSTAMP_PROPERTY d = true) by (unfold property_matches; rewrite Hd; reflexivity).
  assert (icalcomponent_get_first_property ICAL_DTSTAMP_PROPERTY i = (Some d, with_properties (co_properties i) (AtElem 0) i)) as ->.
  { unfold icalcomponent_get_first_property, iterate, find_at. change (skipn 0 (co_properties i)) with (co_properties i). rewrite E. cbn [search_from]. now rewrite Hm. }
  cbn [change_or_add].
  eapply runs_bind with (P := fun j => same_shell i j /\ started (co_properties j)).
  - eapply runs_bind; [now apply runs_stamp|]. intros q [Hq Hr]. apply runs_ret. unfold put_first. cbn [with_properties co_properties]. rewrite Hq, E. cbn [search_from].
    rewrite Hm. split; [repeat split|]. cbn [with_properties co_properties]. unfold list_update. cbn [firstn skipn List.app].
    rewrite E in H1, H2. inversion H1; subst. inversion H2; subst. split; [|split].
    + constructor; [now intros _ | assumption].
    + constructor; [rewrite Hq; discriminate | assumption].
    + now exists q, rest.
  - intros j [Hj HQ]. apply runs_ret. now apply (answer_put started started r c1 i j).
Qed.

(** ** The attendee *)

Definition address_of (p : icalproperty) : cstring :=
  match pr_value p with Some v => match v_data v with V_string s => s | _ => [] end | None => [] end.
Definition attendees (ps : list icalproperty) : list icalproperty := List.filter (property_matches ICAL_ATTENDEE_PROPERTY) ps.

(** The first attendee whose address has the text of the user in it. *)
Definition attendee_for (ps : list icalproperty) (user : cstring) : option icalproperty :=
  find (fun p => match strstr (map tolower (address_of p)) user with Some _ => true | None => false end) (attendees ps).

Lemma attendee_text p : pr_kind p = ICAL_ATTENDEE_PROPERTY -> readable p -> icalvalue_get_text (pr_value p) = ret (Some (address_of p)).
Proof.
  intros Hk Hr. destruct (text_of_readable p Hr) as (v & s & Hv & Hs); [now rewrite Hk|]. unfold icalvalue_get_text, address_of. now rewrite Hv, Hs.
Qed.

Lemma attendees_readable ps p : readable_parts ps -> In p (attendees ps) -> pr_kind p = ICAL_ATTENDEE_PROPERTY /\ readable p.
Proof.
  intros H Hi. apply filter_In in Hi as [Hi Hm]. rewrite matches_kind in Hm by reflexivity. apply Z.eqb_eq in Hm. split; [assumption|].
  unfold readable_parts in H. rewrite Forall_forall in H. apply H; [assumption|]. rewrite Hm. now right; right; left.
Qed.

Lemma attendee_with_find user ps : Forall (fun p => pr_kind p = ICAL_ATTENDEE_PROPERTY /\ readable p) ps ->
  runs (attendee_with ps user) (fun r => r = find (fun p => match strstr (map tolower (address_of p)) user with Some _ => true | None => false end) ps).
Proof.
  induction 1 as [|p ps [Hk Hr] _ IH]; cbn [attendee_with find]; [now apply runs_ret|]. unfold icalproperty_get_value. rewrite attendee_text by assumption.
  apply runs_bind_ret. cbn [lowercase option_map]. destruct (strstr _ _); [now apply runs_ret | exact IH].
Qed.

Lemma runs_find_attendee c inner user : inner_of c = Some inner -> readable_parts (co_properties inner) ->
  runs (icalmessage_find_attendee c user) (fun r => r = attendee_for (co_properties inner) user).
Proof.
  intros Hi Hr. unfold icalmessage_find_attendee. rewrite get_inner_inner. apply runs_bind_ret. rewrite Hi. apply runs_bind_ret. apply attendee_with_find.
  apply Forall_forall. intros p Hp. now apply (attendees_readable (co_properties inner)).
Qed.

(** The properties of the inner component of a reply: the first attendee is a copy of [p]. *)
Definition attended (p : icalproperty) (ps : list icalproperty) : Prop :=
  readable_parts ps /\ exists q, find (property_matches ICAL_ATTENDEE_PROPERTY) ps = Some q /\ same_content p q.

Lemma started_attended p ps q : started ps -> pr_kind p = ICAL_ATTENDEE_PROPERTY -> readable p -> same_content p q -> attended p (ps ++ [q]).
Proof.
  intros (H1 & H2 & _) Hk Hr Hq. split; [apply readable_app; split; [assumption|]; constructor; [|constructor]; intros _; now apply (same_content_readable p)|].
  exists q. split; [|exact Hq]. apply find_at_place; [|rewrite matches_kind by reflexivity; destruct Hq as [-> _]; now rewrite Hk].
  eapply Forall_impl; [|exact H2]. intros x Hx. rewrite matches_kind by reflexivity. now apply Z.eqb_neq.
Qed.

Lemma answer_add P p r : answer P r -> answer P (icalcomponent_add_property p r).
Proof.
  intros (Hk & (m & w & Hm & Hw) & i & Hi & HP). split; [exact Hk|]. split.
  - exists m, w. split; [|exact Hw]. cbn [icalcomponent_add_property with_properties co_properties].
    clear -Hm. revert Hm. induction (co_properties r) as [|x l IH]; [discriminate|]. cbn. destruct (property_matches _ x); [easy | exact IH].
  - exists i. split; [|exact HP]. rewrite inner_of_eq in *. cbn [icalcomponent_add_property with_properties co_kind co_components]. rewrite Hk in *. exact Hi.
Qed.

Lemma runs_reply_base package version a c inner user msg p : inner_of c = Some inner -> readable_parts (co_properties inner) ->
  attendee_for (co_properties inner) user = Some p ->
  runs (icalmessage_new_reply_base now package version a c user msg) (fun r => exists r', r = Some r' /\ answer (attended p) r').
Proof.
  intros Hi Hr Hp. unfold icalmessage_new_reply_base. eapply runs_bind; [apply runs_empty_reply|]. intros r1 H1.
  eapply runs_bind; [apply (runs_copy_kinds c inner Hi Hr); [apply incl_refl | exact H1]|]. clear r1 H1. intros r2 H2.
  eapply runs_bind; [now apply runs_set_dtstamp|]. clear r2 H2. intros r3 H3. eapply runs_bind with (P := answer started).
  { destruct msg as [msg|]; [|now apply runs_ret]. eapply runs_bind; [apply runs_new_property; [apply known; do 2 right; now left | reflexivity]|].
    intros q [Hq _]. apply (runs_in_inner _ _ started started H3). intros i Hs. apply runs_ret. split; [repeat split|].
    cbn [icalcomponent_add_property with_properties co_properties]. apply started_snoc; [exact Hs | |];
      change (pr_kind (icalproperty_set_parent (Some (co_addr i)) q)) with (pr_kind q); rewrite Hq; [|discriminate].
    intros Hin. repeat destruct Hin as [Hin|Hin]; try discriminate. easy. }
  clear r3 H3. intros r4 H4. eapply runs_bind; [now apply (runs_find_attendee c inner)|]. intros o ->. rewrite Hp.
  destruct (attendees_readable (co_properties inner) p Hr) as [Hpk Hpr]; [unfold attendee_for in Hp; now apply find_some in Hp|].
  eapply runs_bind; [apply (runs_in_inner _ _ started (attended p) H4)|].
  { intros i Hs. eapply runs_weaken; [apply runs_add_clone; [rewrite Hpk; apply known; do 3 right; now left | exact Hpr]|].
    intros j [Hj (q & -> & Hq)]. split; [exact Hj|]. now apply started_attended. }
  intros r5 H5. eapply runs_bind; [apply runs_new_property; [apply known; do 4 right; now left | reflexivity]|]. intros v _.
  eapply runs_bind; [apply runs_new_property; [apply known; do 5 right; now left | reflexivity]|]. intros d _. apply runs_ret.
  eexists. split; [reflexivity|]. now apply answer_add, answer_add.
Qed.

(** ** What the attendee says *)

Definition says (v : Z) (q : icalproperty) : Prop :=
  find (parameter_matches ICAL_PARTSTAT_PARAMETER) (pr_parameters q) = Some (Param ICAL_PARTSTAT_PARAMETER None None None v).
Definition answered (v : Z) (p : icalproperty) (ps : list icalproperty) : Prop :=
  readable_parts ps /\ exists q, find (property_matches ICAL_ATTENDEE_PROPERTY) ps = Some q /\ says v q /\ readable q /\
    pr_kind q = ICAL_ATTENDEE_PROPERTY /\ address_of q = address_of p.

Definition one_partstat (p : icalproperty) : Prop :=
  (length (List.filter (parameter_matches ICAL_PARTSTAT_PARAMETER) (pr_parameters p)) <= 1)%nat.

Lemma partstat_matches q : parameter_matches ICAL_PARTSTAT_PARAMETER q = (icalparameter_isa q =? ICAL_PARTSTAT_PARAMETER).
Proof. apply orb_false_r. Qed.

(** The one that is set is the only one. *)
Lemma set_partstat_says v q : one_partstat q ->
  runs (icalproperty_set_parameter (Param ICAL_PARTSTAT_PARAMETER None None None v) q)
    (fun r => says v r /\ pr_kind r = pr_kind q /\ pr_value r = pr_value q).
Proof.
  intros H. unfold icalproperty_set_parameter. change (icalparameter_isa _) with ICAL_PARTSTAT_PARAMETER. cbn [orb].
  change (ICAL_PARTSTAT_PARAMETER =? ICAL_X_PARAMETER) with false. change (ICAL_PARTSTAT_PARAMETER =? ICAL_IANA_PARAMETER) with false. cbn [orb].
  apply runs_bind_ret. apply runs_ret. destruct (remove_same_kind ICAL_PARTSTAT_PARAMETER q) as [Ek Ev].
  split; [|now split]. unfold says. cbn [icalproperty_add_parameter set_parameters pr_parameters].
  apply find_at_place; [|reflexivity]. unfold one_partstat in H.
  destruct (remove_kind_params ICAL_PARTSTAT_PARAMETER q) as [[-> Hf]|(pre & x & post & Hl & -> & Hx & Hp)].
  - eapply Forall_impl; [|exact Hf]. intros y Hy. now rewrite partstat_matches.
  - apply Forall_app. split; [eapply Forall_impl; [|exact Hp]; intros y Hy; now rewrite partstat_matches|].
    rewrite Hl, filter_app in H. cbn [List.filter] in H. rewrite partstat_matches, Hx, Z.eqb_refl, length_app in H. cbn [length] in H.
    apply Forall_forall. intros y Hy. destruct (parameter_matches ICAL_PARTSTAT_PARAMETER y) eqn:E; [|reflexivity]. exfalso.
    assert (In y (List.filter (parameter_matches ICAL_PARTSTAT_PARAMETER) post)) as Hin by now apply filter_In.
    destruct (List.filter (parameter_matches ICAL_PARTSTAT_PARAMETER) post); [destruct Hin | cbn in H; lia].
Qed.

Lemma clone_one_partstat p q : same_content p q -> one_partstat p -> one_partstat q.
Proof.
  intros (_ & Hp & _). unfold one_partstat. rewrite Hp. clear. induction (pr_parameters p) as [|x l IH]; [auto|]. cbn [map List.filter].
  change (parameter_matches ICAL_PARTSTAT_PARAMETER (icalparameter_clone x)) with (parameter_matches ICAL_PARTSTAT_PARAMETER x).
  destruct (parameter_matches ICAL_PARTSTAT_PARAMETER x); [|exact IH]. cbn [length]. clear IH. intros H.
  replace (length (List.filter (parameter_matches ICAL_PARTSTAT_PARAMETER) (map icalparameter_clone l)))
    with (length (List.filter (parameter_matches ICAL_PARTSTAT_PARAMETER) l)); [exact H|].
  clear. induction l as [|x l IH]; [reflexivity|]. cbn [map List.filter].
  change (parameter_matches ICAL_PARTSTAT_PARAMETER (icalparameter_clone x)) with (parameter_matches ICAL_PARTSTAT_PARAMETER x).
  destruct (parameter_matches ICAL_PARTSTAT_PARAMETER x); cbn [length]; now rewrite IH.
Qed.

Lemma runs_new_partstat v : runs (icalparameter_new_partstat v) (fun q => q = Param ICAL_PARTSTAT_PARAMETER None None None v).
Proof.
  unfold icalparameter_new_partstat. eapply runs_bind; [apply runs_clear_errno|]. intros _ _. eapply runs_bind; [apply runs_clear_errno|]. intros _ _. now apply runs_ret.
Qed.

Lemma put_first_find kind p q (i : icalcomponent) : (kind =? ICAL_ANY_PROPERTY) = false -> find (property_matches kind) (co_properties i) = Some p -> pr_kind q = kind ->
  find (property_matches kind) (co_properties (put_first q i)) = Some q /\
  (readable_parts (co_properties i) -> readable q -> readable_parts (co_properties (put_first q i))).
Proof.
  intros Ha Hf Hk. unfold put_first. rewrite Hk. destruct (search_from (property_matches kind) (co_properties i) 0) as [n|] eqn:Es.
  - apply search_place in Es as (pre & x & post & Hl & -> & Hx & Hpre). cbn [Nat.add with_properties co_properties]. rewrite Hl, update_place. split.
    + apply find_at_place; [exact Hpre|]. rewrite matches_kind by exact Ha. lia.
    + intros H Hq. apply readable_app in H as [H1 H2]. inversion H2; subst. apply readable_app. split; [exact H1|]. now constructor.
  - apply search_none in Es. apply find_some in Hf as [Hin Ht]. rewrite Forall_forall in Es. rewrite Es in Ht by exact Hin. discriminate.
Qed.

Lemma runs_set_attendee v p r : answer (attended p) r -> pr_kind p = ICAL_ATTENDEE_PROPERTY -> readable p -> one_partstat p ->
  runs (q <- icalparameter_new_partstat v ;; set_attendee [q] r) (answer (answered v p)).
Proof.
  intros Ha Hk Hr H1. eapply runs_bind; [apply runs_new_partstat|]. intros q ->. apply (runs_in_inner _ _ (attended p) (answered v p) Ha).
  intros i (Hps & q & Hf & Hq). unfold icalcomponent_get_first_property.
  pose proof (iterate_find (property_matches ICAL_ATTENDEE_PROPERTY) (co_properties i)) as Hit. destruct (iterate _ _ _) as [x it]. cbn [fst] in Hit. rewrite Hit, Hf.
  cbn [set_parameters_of]. eapply runs_bind with (P := fun s => says v s /\ pr_kind s = pr_kind q /\ pr_value s = pr_value q).
  { eapply runs_bind; [now apply set_partstat_says, (clone_one_partstat p)|]. intros s Hs. now apply runs_ret. }
  intros s (Hs & Hsk & Hsv). apply runs_ret. split; [unfold put_first; destruct (search_from _ _ _); repeat split|].
  assert (Hqk : pr_kind q = ICAL_ATTENDEE_PROPERTY) by (destruct Hq as [-> _]; exact Hk).
  assert (Hsr : readable s).
  { destruct (same_content_readable p q Hq Hr) as (w & Hw & He & Hc). exists w. now rewrite Hsk, Hsv. }
  destruct (put_first_find ICAL_ATTENDEE_PROPERTY q s (with_properties (co_properties i) it i) eq_refl Hf ltac:(congruence)) as [G1 G2].
  split; [now apply G2|]. exists s. split; [exact G1|]. split; [exact Hs|]. split; [exact Hsr|]. split; [congruence|].
  unfold address_of. rewrite Hsv. destruct Hq as (_ & _ & Hv). destruct Hr as (w & Hw & _). rewrite Hw in *. destruct Hv as (w' & -> & -> & _). reflexivity.
Qed.

(** ** Classification *)

Lemma real_inner c : co_kind c = ICAL_VCALENDAR_COMPONENT -> real_component (Some c) = ret (inner_of c).
Proof. intros Hk. unfold real_component, inner_of, icalcomponent_get_inner. now rewrite Hk. Qed.

Lemma runs_method p : pr_kind p = ICAL_METHOD_PROPERTY -> readable p -> runs (get_enum ICAL_METHOD_NONE (pr_value p)) any.
Proof.
  intros Hk (v & -> & He & _). rewrite Hk in He. cbn in He. unfold get_enum. destruct (v_data v); try discriminate. now apply runs_ret.
Qed.

(** The parts of an inner component that are read for every message. *)
Lemma runs_inner_parts {T} (i : icalcomponent) (k : option cstring -> Z -> option cstring -> icaltimetype -> icaltimetype -> err T) Q :
  readable_parts (co_properties i) -> (forall o s u r d, runs (k o s u r d) Q) ->
  runs (organizer <- part ICAL_ORGANIZER_PROPERTY (Some i) icalvalue_get_text None ;;
        sequence <- part ICAL_SEQUENCE_PROPERTY (Some i) icalvalue_get_utcoffset 0 ;;
        uid <- part ICAL_UID_PROPERTY (Some i) icalvalue_get_text None ;;
        recurrence_id <- part ICAL_RECURRENCEID_PROPERTY (Some i) get_datetimedate icaltime_null_time ;;
        dtstamp <- part ICAL_DTSTAMP_PROPERTY (Some i) get_datetimedate icaltime_null_time ;;
        k organizer sequence uid recurrence_id dtstamp) Q.
Proof.
  intros Hr Hk.
  eapply runs_bind; [apply (runs_part ICAL_ORGANIZER_PROPERTY _ i _ _ eq_refl Hr); [cbn; tauto|]; intros p Hp; now apply (runs_text p ICAL_ORGANIZER_PROPERTY)|]. intros o _.
  eapply runs_bind; [apply (runs_part ICAL_SEQUENCE_PROPERTY _ i _ _ eq_refl Hr); [cbn; tauto|]; exact runs_sequence|]. intros s _.
  eapply runs_bind; [apply (runs_part ICAL_UID_PROPERTY _ i _ _ eq_refl Hr); [cbn; tauto|]; intros p Hp; now apply (runs_text p ICAL_UID_PROPERTY)|]. intros u _.
  eapply runs_bind; [apply (runs_part ICAL_RECURRENCEID_PROPERTY _ i _ _ eq_refl Hr); [cbn; tauto|]; intros p Hp; apply (runs_date p _ Hp); now left|]. intros r _.
  eapply runs_bind; [apply (runs_part ICAL_DTSTAMP_PROPERTY _ i _ _ eq_refl Hr); [cbn; tauto|]; intros p Hp; apply (runs_date p _ Hp); now right|]. intros d _.
  apply Hk.
Qed.

(** The parts of the request. *)
Lemma runs_request_parts c i : co_kind c = ICAL_VCALENDAR_COMPONENT -> inner_of c = Some i -> readable_parts (co_properties c) -> readable_parts (co_properties i) ->
  runs (icalssutil_get_parts (Some c)) (fun ps => pt_c ps = Some c).
Proof.
  intros Hk Hi Hc Hr. unfold icalssutil_get_parts.
  eapply runs_bind; [apply (runs_part ICAL_METHOD_PROPERTY _ c _ _ eq_refl Hc); [now left | exact runs_method]|]. intros method _.
  rewrite (real_inner c Hk), Hi. apply runs_bind_ret. apply runs_bind_ret. apply runs_inner_parts; [exact Hr|]. intros o s u r d.
  eapply runs_bind with (P := any); [|intros x _; now apply runs_ret]. destruct (method =? ICAL_METHOD_REPLY); [|now apply runs_ret].
  unfold first_of. apply runs_bind_ret. rewrite first_property_find. destruct (find _ _) as [p|] eqn:E; [|now apply runs_ret].
  destruct (first_readable _ ICAL_ATTENDEE_PROPERTY p Hr ltac:(cbn; tauto) E) as [Hpk Hp]. eapply runs_bind with (P := any).
  - destruct (fst _) as [q|]; [|now apply runs_ret]. unfold icalparameter_get_partstat. eapply runs_bind; [apply runs_clear_errno|]. intros _ _. now apply runs_ret.
  - intros ps _. rewrite (attendee_text p Hpk Hp). apply runs_bind_ret. now apply runs_ret.
Qed.

(** The parts of the reply. *)
Lemma runs_reply_parts v p r : answer (answered v p) r ->
  runs (icalssutil_get_parts (Some r)) (fun ps => pt_method ps = ICAL_METHOD_REPLY /\ pt_reply_partstat ps = v /\ pt_reply_attendee ps = Some (address_of p)).
Proof.
  intros (Hk & (m & w & Hm & Hw & Hd) & i & Hi & Hr & q & Hq & Hs & Hqr & Hqk & Ha). unfold icalssutil_get_parts.
  eapply runs_bind with (P := fun z => z = ICAL_METHOD_REPLY).
  { unfold part, first_of. apply runs_bind_ret. rewrite first_property_find, Hm, Hw. unfold get_enum. rewrite Hd. now apply runs_ret. }
  intros method ->.
  rewrite (real_inner r Hk), Hi. apply runs_bind_ret. apply runs_bind_ret. apply runs_inner_parts; [exact Hr|]. intros o s u x d.
  eapply runs_bind with (P := fun y => y = (v, Some (address_of p))); [|intros y ->; now apply runs_ret]. change (ICAL_METHOD_REPLY =? ICAL_METHOD_REPLY) with true. cbv iota.
  unfold first_of. apply runs_bind_ret. rewrite first_property_find, Hq. unfold icalproperty_get_first_parameter.
  pose proof (iterate_find (parameter_matches ICAL_PARTSTAT_PARAMETER) (pr_parameters q)) as Hit. destruct (iterate _ _ _) as [y it]. cbn [fst] in *. rewrite Hit, Hs.
  eapply runs_bind with (P := fun z => z = v).
  - unfold icalparameter_get_partstat. eapply runs_bind; [apply runs_clear_errno|]. intros _ _. now apply runs_ret.
  - intros z ->. rewrite (attendee_text q Hqk Hqr), Ha. apply runs_bind_ret. now apply runs_ret.
Qed.

(** The name of the attendee, behind the scheme, is one of the request. *)
Lemma attendee_named_found ps upn : Forall (fun p => pr_kind p = ICAL_ATTENDEE_PROPERTY /\ readable p) ps ->
  (exists p, In p ps /\ after_colon (map tolower (address_of p)) = Some upn) -> runs (attendee_named ps upn) (fun r => is_null r = false).
Proof.
  induction 1 as [|p ps [Hk Hr] _ IH]; intros (x & Hx & Hu); [destruct Hx|]. cbn [attendee_named]. rewrite (attendee_text p Hk Hr). apply runs_bind_ret.
  cbn [icalclassify_lowercase option_map]. destruct (after_colon (map tolower (address_of p))) as [n|] eqn:En.
  - destruct (strcmp n upn =? 0) eqn:Es; [now apply runs_ret|]. apply IH. destruct Hx as [->|Hx]; [|now exists x].
    rewrite Hu in En. injection En as ->. now rewrite strcmp_refl in Es.
  - apply IH. destruct Hx as [->|Hx]; [congruence | now exists x].
Qed.

Lemma loop_skip m fn cl rest method comp match_ u : (m =? method) = false ->
  classify_loop ((m, fn, cl) :: rest) method comp match_ u = classify_loop rest method comp match_ u.
Proof. intros H. cbn [classify_loop]. now rewrite H. Qed.

Lemma loop_take m fn cl rest method comp match_ u Q : (m =? method) = true ->
  runs (r <- fn comp match_ u ;; if (r : bool) then ret cl else classify_loop rest method comp match_ u) Q ->
  runs (classify_loop ((m, fn, cl) :: rest) method comp match_ u) Q.
Proof. intros H Hr. cbn [classify_loop]. now rewrite H. Qed.

(** The row of the table that a reply is classified by. *)
Lemma runs_classify_reply v class c i r p upn u : co_kind c = ICAL_VCALENDAR_COMPONENT -> inner_of c = Some i -> readable_parts (co_properties c) ->
  readable_parts (co_properties i) -> In p (attendees (co_properties i)) -> after_colon (map tolower (address_of p)) = Some upn ->
  answer (answered v p) r ->
  (v = ICAL_PARTSTAT_ACCEPTED /\ class = ICAL_XLICCLASS_REPLYACCEPT \/ v = ICAL_PARTSTAT_DECLINED /\ class = ICAL_XLICCLASS_REPLYDECLINE) ->
  runs (icalclassify r (Some c) u) (fun cl => cl = class).
Proof.
  intros Hk Hi Hc Hr Hp Hu Ha Hv. pose proof Ha as (Hrk & (m & w & Hm & Hw & Hd) & ri & Hri & _). unfold icalclassify.
  rewrite (real_inner r Hrk), Hri. apply runs_bind_ret. eapply runs_bind; [now apply (runs_reply_parts v p r)|]. intros rp (R1 & R2 & R3).
  eapply runs_bind; [now apply (runs_request_parts c i)|]. intros cp C1. unfold obsolete_request. rewrite R1.
  change (ICAL_METHOD_REPLY =? ICAL_METHOD_REQUEST) with false. cbv iota. apply runs_bind_ret. rewrite first_property_find, Hm, Hw.
  unfold get_enum. rewrite Hd. apply runs_bind_ret. unfold icalclassify_map. do 11 (rewrite loop_skip by reflexivity). apply loop_take; [reflexivity|].
  assert (Ht : forall s, runs (reply_test true s rp (Some cp) u) (fun b => b = (v =? s))).
  { intros s. unfold reply_test, with_match. eapply runs_bind with (P := fun o => is_null o = false).
    - unfold icalclassify_find_attendee. rewrite R3. cbn [icalclassify_lowercase option_map]. rewrite Hu, C1, (real_inner c Hk), Hi.
      apply runs_bind_ret. apply runs_bind_ret. apply attendee_named_found; [|now exists p].
      apply Forall_forall. intros x Hx. now apply (attendees_readable (co_properties i)).
    - intros o Ho. apply runs_ret. now rewrite Ho, R2. }
  eapply runs_bind; [apply Ht|]. intros b ->. destruct Hv as [[-> ->]|[-> ->]].
  - change (ICAL_PARTSTAT_ACCEPTED =? ICAL_PARTSTAT_ACCEPTED) with true. now apply runs_ret.
  - change (ICAL_PARTSTAT_DECLINED =? ICAL_PARTSTAT_ACCEPTED) with false. cbv iota. apply loop_take; [reflexivity|].
    eapply runs_bind; [apply Ht|]. intros b ->. change (ICAL_PARTSTAT_DECLINED =? ICAL_PARTSTAT_DECLINED) with true. now apply runs_ret.
Qed.

Lemma runs_reply_with package version v a c inner user msg missing p : inner_of c = Some inner -> readable_parts (co_properties inner) ->
  attendee_for (co_properties inner) user = Some p -> one_partstat p ->
  runs (reply_with now package version a (Some c) user msg missing (fun _ reply => q <- icalparameter_new_partstat v ;; set_attendee [q] reply))
    (fun r => exists r', r = Some r' /\ answer (answered v p) r').
Proof.
  intros Hi Hr Hp H1. destruct (attendees_readable (co_properties inner) p Hr) as [Hpk Hpr]; [unfold attendee_for in Hp; now apply find_some in Hp|].
  unfold reply_with. eapply runs_bind; [exact (runs_reply_base package version a c inner user msg p Hi Hr Hp)|]. intros o (r & -> & Ha). cbv iota beta.
  eapply runs_bind; [exact (runs_set_attendee v p r Ha Hpk Hpr H1)|]. intros r' Hr'. apply runs_ret. now exists r'.
Qed.

End Correct.

(** A request that can be answered: a calendar with a component in it, whose
    parts can be read; [p] is the attendee that the user stands for. *)
Record request `{PROPS : PropertyTables} `{FLOAT : FloatOps} (c i : icalcomponent) (user : cstring) (p : icalproperty) : Prop := {
  request_calendar : co_kind c = ICAL_VCALENDAR_COMPONENT;
  request_inner : inner_of c = Some i;
  request_outer_readable : readable_parts (co_properties c);
  request_inner_readable : readable_parts (co_properties i);
  request_attendee : attendee_for (co_properties i) user = Some p;
  request_partstat : one_partstat p;
  request_scheme : after_colon (map tolower (address_of p)) <> None
}.

(** C29: Who accepts or declines a request is understood: the reply that
    [icalmessage_new_accept_reply] or [icalmessage_new_decline_reply] makes for an attendee is classified by
    [icalclassify], against the request, as an acceptance or as a refusal by one of its attendees. *)
Theorem reply_is_understood `{PROPS : PropertyTables} `{PARAMS : ParameterTables} `{FLOAT : FloatOps} `{TZ : TimezoneConv} `{BUILTIN : BuiltinZones} `{NAMES : ZoneNames}
    now package version a c i user msg p who st :
  known_kinds -> icaltime_is_valid_time (icaltime_from_timet_with_zone now 0 ZONE_NULL) = true -> icaltime_is_date (icaltime_from_timet_with_zone now 0 ZONE_NULL) = false ->
  request c i user p -> quiet st ->
  (exists reply st1 st2, icalmessage_new_accept_reply now package version a (Some c) user msg st = Some (Some reply, st1) /\
     icalclassify reply (Some c) who st1 = Some (ICAL_XLICCLASS_REPLYACCEPT, st2)) /\
  (exists reply st1 st2, icalmessage_new_decline_reply now package version a (Some c) user msg st = Some (Some reply, st1) /\
     icalclassify reply (Some c) who st1 = Some (ICAL_XLICCLASS_REPLYDECLINE, st2)).
Proof.
  intros Hn Hv Hd [R1 R2 R3 R4 R5 R6 R7] Hst. destruct (after_colon (map tolower (address_of p))) as [upn|] eqn:Hu; [|easy].
  assert (Hin : In p (attendees (co_properties i))) by (unfold attendee_for in R5; now apply find_some in R5).
  assert (H : forall v class missing, (v = ICAL_PARTSTAT_ACCEPTED /\ class = ICAL_XLICCLASS_REPLYACCEPT \/ v = ICAL_PARTSTAT_DECLINED /\ class = ICAL_XLICCLASS_REPLYDECLINE) ->
    exists reply st1 st2, reply_with now package version a (Some c) user msg missing (fun _ reply => q <- icalparameter_new_partstat v ;; set_attendee [q] reply) st = Some (Some reply, st1) /\
      icalclassify reply (Some c) who st1 = Some (class, st2)).
  { intros v class missing Hvc. destruct (runs_reply_with Hn now Hv Hd package version v a c i user msg missing p R2 R4 R5 R6 st Hst) as (o & st1 & E1 & Q1 & r & -> & Ha).
    destruct (runs_classify_reply v class c i r p upn who R1 R2 R3 R4 Hin Hu Ha Hvc st1 Q1) as (cl & st2 & E2 & _ & ->). now exists r, st1, st2. }
  split; [apply (H ICAL_PARTSTAT_ACCEPTED _ (ret tt)) | apply (H ICAL_PARTSTAT_DECLINED _ inner_of_null)]; auto.
Qed.

(** ** Instances *)

#[local] Existing Instance text_floats.
#[local] Existing Instance utc_only.
#[local] Existing Instance no_builtins.
#[local] Instance unnamed_zones : ZoneNames := {| icaltimezone_get_tzid := fun _ => None |}.

Definition valued (a : positive) (kind : icalproperty_kind) (v : icalvalue) (params : list icalparameter) : icalproperty :=
  Property a kind None params (Z.of_nat (length params)) NoElem (Some v) None.
Definition bob : icalproperty :=
  valued 5 ICAL_ATTENDEE_PROPERTY (new_with ICAL_CALADDRESS_VALUE (V_string $"mailto:Bob@example.com")) [Param ICAL_PARTSTAT_PARAMETER None None None 20601].
Definition noon : icaltimetype := icaltime_from_timet_with_zone 43200 0 ZONE_UTC.
Definition task (kind : icalcomponent_kind) : icalcomponent :=
  Component 3 kind None
    [valued 4 ICAL_UID_PROPERTY (new_with ICAL_TEXT_VALUE (V_string $"u1")) []; bob;
     valued 6 ICAL_DTSTAMP_PROPERTY (new_with ICAL_DATETIME_VALUE (V_time noon)) []; valued 7 ICAL_SEQUENCE_PROPERTY (new_with ICAL_INTEGER_VALUE (V_int 1)) []]
    NoElem [] NoElem (Some 1%positive) None true.
Definition asked (kind : icalcomponent_kind) : icalcomponent :=
  Component 1 ICAL_VCALENDAR_COMPONENT None [valued 2 ICAL_METHOD_PROPERTY (new_with ICAL_METHOD_VALUE (V_enum ICAL_METHOD_REQUEST)) []]
    NoElem [task kind] NoElem None None true.

Lemma sample_request : request (asked ICAL_VEVENT_COMPONENT) (task ICAL_VEVENT_COMPONENT) $"bob" bob.
Proof.
  split; [reflexivity | reflexivity | | | vm_compute; reflexivity | | vm_compute; discriminate].
  - repeat constructor. eexists. repeat split.
  - repeat constructor; eexists; repeat split.
  - apply Nat.leb_le. reflexivity.
Qed.

Lemma sample_known : known_kinds.
Proof. repeat constructor. Qed.

Lemma reply_is_understood_witness :
  (exists reply st1 st2, icalmessage_new_accept_reply 86400 $"libical" $"3.0" 100 (Some (asked ICAL_VEVENT_COMPONENT)) $"bob" None (initial_error_state false) = Some (Some reply, st1) /\
     icalclassify reply (Some (asked ICAL_VEVENT_COMPONENT)) None st1 = Some (ICAL_XLICCLASS_REPLYACCEPT, st2)) /\
  (exists reply st1 st2, icalmessage_new_decline_reply 86400 $"libical" $"3.0" 100 (Some (asked ICAL_VEVENT_COMPONENT)) $"bob" None (initial_error_state false) = Some (Some reply, st1) /\
     icalclassify reply (Some (asked ICAL_VEVENT_COMPONENT)) None st1 = Some (ICAL_XLICCLASS_REPLYDECLINE, st2)).
Proof.
  apply (reply_is_understood 86400 $"libical" $"3.0" 100 (asked ICAL_VEVENT_COMPONENT) (task ICAL_VEVENT_COMPONENT) $"bob" None bob None (initial_error_state false)
    sample_known); [vm_compute; reflexivity | vm_compute; reflexivity | exact sample_request | exact initial_quiet].
Defined.

Definition reply_to (c : icalcomponent) (user : cstring) : option (option icalcomponent) :=
  option_map fst (icalmessage_new_accept_reply 86400 $"libical" $"3.0" 100 (Some c) user None (initial_error_state false)).

(** The user is not found by the text of his own address: only the other side is made lower case. *)
Example user_in_capitals : reply_to (asked ICAL_VEVENT_COMPONENT) $"Bob" = Some None.
Proof. vm_compute. reflexivity. Qed.

(** Part of a name is enough. *)
Example part_of_a_name : match reply_to (asked ICAL_VEVENT_COMPONENT) $"b" with Some (Some _) => true | _ => false end = true.
Proof. vm_compute. reflexivity. Qed.

(** The reply to a task has an event. *)
Example reply_to_a_task : option_map (option_map (fun r => map co_kind (co_components r))) (reply_to (asked ICAL_VTODO_COMPONENT) $"bob") = Some (Some [ICAL_VEVENT_COMPONENT]).
Proof. vm_compute. reflexivity. Qed.

(** A request for a delegate has a DTSTAMP that is not in UTC: an assertion fails when it is classified. *)
Example delegation_not_classified :
  match icalmessage_new_delegate_request 86400 $"libical" $"3.0" 100 (Some (asked ICAL_VEVENT_COMPONENT)) $"bob" $"mailto:ann@example.com" None (initial_error_state false) with
  | Some (Some r, st) => icalclassify r (Some (asked ICAL_VEVENT_COMPONENT)) None st = None
  | _ => False
  end.
Proof. vm_compute. reflexivity. Qed.

(** Who is not invited gets no reply: an acceptance ends with the error of the
    message; a refusal goes on to look into the null pointer and ends with another one. *)
Definition error_of (x : option (option icalcomponent * error_state)) : option (bool * icalerrorenum) :=
  option_map (fun r => (is_null (fst r), icalerrno (snd r))) x.
Example uninvited_errors :
  let c := Some (asked ICAL_VEVENT_COMPONENT) in
  error_of (icalmessage_new_accept_reply 86400 $"libical" $"3.0" 100 c $"eve" None (initial_error_state false)) = Some (true, ICAL_MALFORMEDDATA_ERROR) /\
  error_of (icalmessage_new_decline_reply 86400 $"libical" $"3.0" 100 c $"eve" None (initial_error_state false)) = Some (true, ICAL_BADARG_ERROR).
Proof. split; vm_compute; reflexivity. Qed.
