(* ===== verification/IcalSsLexer.v ===== *)
(** * The scanner of the query language (libicalss/icalsslexer.c)

    The scanner that flex generated: the compressed tables of its automaton, the
    loop that runs it for the longest match, and the buffer that it refills from
    the text of the query.  The scanner is global and outlives a query: the text
    that is left in its buffer is scanned before that of the next query.

    A text has no NUL, so that the NUL characters of the buffer are its end; the
    transitions of the automaton on them lead to the end-of-buffer action, and
    are a case of their own here.  [None] is the end of the process by
    [yy_fatal_error]. *)
From Stdlib Require Import String Ascii ZArith Lia Bool List.
From S2P Require Import Prelude CString.
Import ListNotations.
#[local] Open Scope Z_scope.
#[local] Open Scope cstring_scope.

(** ** Tokens *)

Definition YYEOF : Z := 0.
Definition STRING : Z := 258.
Definition SELECT : Z := 259.
Definition FROM : Z := 260.
Definition WHERE : Z := 261.
Definition COMMA : Z := 262.
Definition QUOTE : Z := 263.
Definition EQUALS : Z := 264.
Definition NOTEQUALS : Z := 265.
Definition LESS : Z := 266.
Definition GREATER : Z := 267.
Definition LESSEQUALS : Z := 268.
Definition GREATEREQUALS : Z := 269.
Definition AND : Z := 270.
Definition OR : Z := 271.
Definition EOL : Z := 272.
Definition IS : Z := 274.
Definition NOT : Z := 275.
Definition SQLNULL : Z := 276.

(** ** Tables *)

Definition yy_accept : list Z := [
  0; 0; 0; 0; 0; 0; 0; 24; 22; 18; 18; 22; 17; 21; 4; 19; 8; 5; 9; 21; 21; 21; 21; 21;
  21; 21; 18; 7; 0; 21; 10; 6; 11; 21; 21; 14; 21; 21; 13; 21; 21; 20; 12; 21; 15; 21; 21; 21;
  2; 16; 21; 21; 21; 3; 1; 0].

Definition yy_ec : list Z := [
  0; 1; 1; 1; 1; 1; 1; 1; 1; 2; 3; 1; 1; 2; 1; 1; 1; 1; 1; 1; 1; 1; 1; 1;
  1; 1; 1; 1; 1; 1; 1; 1; 4; 5; 1; 1; 1; 1; 1; 6; 1; 1; 7; 1; 8; 7; 7; 1;
  7; 7; 7; 7; 7; 7; 7; 7; 7; 7; 9; 10; 11; 12; 13; 1; 7; 14; 7; 15; 16; 17; 18; 7;
  19; 20; 7; 7; 21; 22; 23; 24; 7; 7; 25; 26; 27; 28; 7; 29; 7; 7; 7; 1; 1; 1; 1; 1;
  1; 30; 7; 31; 32; 33; 34; 7; 35; 36; 7; 7; 37; 38; 39; 40; 7; 7; 41; 42; 43; 44; 7; 45;
  7; 7; 7; 1; 1; 1; 1; 1; 1; 1; 1; 1; 1; 1; 1; 1; 1; 1; 1; 1; 1; 1; 1; 1;
  1; 1; 1; 1; 1; 1; 1; 1; 1; 1; 1; 1; 1; 1; 1; 1; 1; 1; 1; 1; 1; 1; 1; 1;
  1; 1; 1; 1; 1; 1; 1; 1; 1; 1; 1; 1; 1; 1; 1; 1; 1; 1; 1; 1; 1; 1; 1; 1;
  1; 1; 1; 1; 1; 1; 1; 1; 1; 1; 1; 1; 1; 1; 1; 1; 1; 1; 1; 1; 1; 1; 1; 1;
  1; 1; 1; 1; 1; 1; 1; 1; 1; 1; 1; 1; 1; 1; 1; 1; 1; 1; 1; 1; 1; 1; 1; 1;
  1; 1; 1; 1; 1; 1; 1; 1; 1; 1; 1; 1; 1; 1; 1; 1].

Definition yy_meta : list Z := [
  0; 1; 1; 1; 2; 1; 1; 3; 1; 2; 1; 1; 1; 1; 3; 3; 3; 3; 3; 3; 3; 3; 3; 3;
  3; 3; 3; 3; 3; 3; 3; 3; 3; 3; 3; 3; 3; 3; 3; 3; 3; 3; 3; 3; 3; 3].

Definition yy_base : list Z := [
  0; 0; 0; 0; 0; 0; 0; 98; 107; 44; 47; 85; 0; 0; 107; 107; 84; 83; 79; 29; 28; 28; 31; 31;
  40; 39; 58; 107; 84; 0; 107; 107; 107; 47; 40; 0; 38; 45; 0; 46; 59; 107; 0; 55; 0; 57; 67; 60;
  0; 0; 71; 70; 61; 0; 0; 107; 103; 86].

Definition yy_def : list Z := [
  0; 55; 1; 1; 1; 1; 1; 55; 55; 55; 55; 55; 56; 57; 55; 55; 55; 55; 55; 57; 57; 57; 57; 57;
  57; 57; 55; 55; 56; 57; 55; 55; 55; 57; 57; 57; 57; 57; 57; 57; 57; 55; 57; 57; 57; 57; 57; 57;
  57; 57; 57; 57; 57; 57; 57; 0; 55; 55].

Definition yy_nxt : list Z := [
  0; 8; 9; 10; 9; 11; 12; 13; 14; 8; 15; 16; 17; 18; 19; 13; 13; 13; 20; 13; 21; 13; 13; 22;
  23; 13; 24; 13; 13; 25; 19; 13; 13; 13; 20; 13; 21; 13; 13; 22; 23; 13; 24; 13; 13; 25; 26; 26;
  26; 26; 26; 26; 33; 34; 35; 36; 38; 39; 40; 37; 26; 26; 26; 42; 43; 44; 45; 46; 33; 34; 35; 36;
  38; 39; 40; 37; 47; 48; 49; 42; 43; 44; 45; 46; 50; 51; 52; 53; 54; 29; 41; 32; 47; 48; 49; 31;
  30; 27; 55; 55; 50; 51; 52; 53; 54; 28; 28; 7; 55; 55; 55; 55; 55; 55; 55; 55; 55; 55; 55; 55;
  55; 55; 55; 55; 55; 55; 55; 55; 55; 55; 55; 55; 55; 55; 55; 55; 55; 55; 55; 55; 55; 55; 55; 55;
  55; 55; 55; 55; 55; 55; 55; 55; 55].

Definition yy_chk : list Z := [
  0; 1; 1; 1; 1; 1; 1; 1; 1; 1; 1; 1; 1; 1; 1; 1; 1; 1; 1; 1; 1; 1; 1; 1;
  1; 1; 1; 1; 1; 1; 1; 1; 1; 1; 1; 1; 1; 1; 1; 1; 1; 1; 1; 1; 1; 1; 9; 9;
  9; 10; 10; 10; 19; 20; 21; 22; 23; 24; 25; 22; 26; 26; 26; 33; 34; 36; 37; 39; 19; 20; 21; 22;
  23; 24; 25; 22; 40; 43; 45; 33; 34; 36; 37; 39; 46; 47; 50; 51; 52; 57; 28; 18; 40; 43; 45; 17;
  16; 11; 7; 0; 46; 47; 50; 51; 52; 56; 56; 55; 55; 55; 55; 55; 55; 55; 55; 55; 55; 55; 55; 55;
  55; 55; 55; 55; 55; 55; 55; 55; 55; 55; 55; 55; 55; 55; 55; 55; 55; 55; 55; 55; 55; 55; 55; 55;
  55; 55; 55; 55; 55; 55; 55; 55; 55].

(** ** The automaton *)

(** The transition of a state on a class of characters, through the defaults. *)
Fixpoint yy_transition (fuel : nat) (yy_current_state yy_c : Z) : option Z :=
  match fuel with
  | O => None
  | S fuel =>
      if znth (znth yy_current_state yy_base 0 + yy_c) yy_chk 0 =? yy_current_state
      then Some (znth (znth yy_current_state yy_base 0 + yy_c) yy_nxt 0)
      else
        let yy_current_state := znth yy_current_state yy_def 0 in
        yy_transition fuel yy_current_state (if 56 <=? yy_current_state then znth yy_c yy_meta 0 else yy_c)
  end.

(** A chain of defaults is at most two states long. *)
Definition yy_next (yy_current_state : Z) (c : ascii) : option Z := yy_transition 3 yy_current_state (znth (code c) yy_ec 0).

Definition accepts (yy_current_state : Z) : bool := truthy (znth yy_current_state yy_accept 0).

(** Where a run ends: in a state without transitions, or at the end of the
    buffer; with the number of characters read and the last accepting state. *)
Inductive run := Ended (state : Z) (n : nat) (last : option (Z * nat)) | EndOfBuffer (state : Z) (n : nat) (last : option (Z * nat)).

Definition remember (state : Z) (n : nat) (last : option (Z * nat)) : option (Z * nat) :=
  if accepts state then Some (state, n) else last.

Fixpoint yy_match (buf : cstring) (state : Z) (n : nat) (last : option (Z * nat)) : option run :=
  match buf with
  | [] => Some (EndOfBuffer state n last)
  | c :: buf =>
      match yy_next state c with
      | None => None
      | Some state' =>
          let last := remember state n last in
          if znth state' yy_base 0 =? 107 then Some (Ended state' (S n) last) else yy_match buf state' (S n) last
      end
  end.

(** The action and the length of the match. *)
Definition yy_find_action (state : Z) (n : nat) (last : option (Z * nat)) : option (Z * nat) :=
  if accepts state then Some (znth state yy_accept 0, n)
  else match last with Some (state, n) => Some (znth state yy_accept 0, n) | None => None end.

(** ** The buffer *)

(** The text from the start of the token to the end of the buffer, the size of
    the buffer, its status, and the text of the query that was not yet read. *)
Record scanner := Scanner {
  yy_ch_buf : cstring;
  yy_buf_size : Z;
  eof_pending : bool;
  input_buffer_p : cstring
}.

Definition YY_BUF_SIZE : Z := 16384.
Definition YY_READ_BUF_SIZE : Z := 8192.
Definition YYLMAX : Z := 8192.

Definition initial_scanner : scanner := Scanner [] YY_BUF_SIZE false [].

(** The start of a query: [input_buffer_p] is all that is set. *)
Definition set_input (sql : cstring) (s : scanner) : scanner := Scanner (yy_ch_buf s) (yy_buf_size s) (eof_pending s) sql.

Definition ssrestart (s : scanner) : scanner := Scanner [] (yy_buf_size s) false (input_buffer_p s).

(** The characters that are read and the rest of the query. *)
Definition icalss_input (max_size : Z) (input : cstring) : cstring * cstring :=
  let n := Z.to_nat (Z.min max_size (Z.of_nat (length input))) in (firstn n input, skipn n input).

(** The buffer grows when there is no room for a character. *)
Definition room (size : Z) (number_to_move : nat) : Z * Z :=
  let num_to_read := size - Z.of_nat number_to_move - 1 in
  if num_to_read =? 0 then (size * 2, size * 2 - Z.of_nat number_to_move - 1) else (size, num_to_read).

Inductive eob_act := EOB_ACT_CONTINUE_SCAN | EOB_ACT_END_OF_FILE | EOB_ACT_LAST_MATCH.

(** The whole of the text in the buffer belongs to the token. *)
Definition yy_get_next_buffer (s : scanner) : eob_act * scanner :=
  let number_to_move := length (yy_ch_buf s) in
  let '(size, num_to_read) := if eof_pending s then (yy_buf_size s, 0) else room (yy_buf_size s) number_to_move in
  let '(chars, rest) := if eof_pending s then ([], input_buffer_p s) else icalss_input (Z.min num_to_read YY_READ_BUF_SIZE) (input_buffer_p s) in
  match chars with
  | [] => if Nat.eqb number_to_move 0 then (EOB_ACT_END_OF_FILE, ssrestart (Scanner [] size (eof_pending s) rest))
          else (EOB_ACT_LAST_MATCH, Scanner (yy_ch_buf s) size true rest)
  | _ => (EOB_ACT_CONTINUE_SCAN, Scanner (yy_ch_buf s ++ chars) size (eof_pending s) rest)
  end.

(** The character after the token, which is put back ([input] and [unput]);
    [None] is the end of the text, where the buffer is emptied.  Otherwise the
    token stays at the front of the buffer. *)
Definition peek (token : cstring) (rest : cstring) (s : scanner) : option ascii * scanner :=
  match rest with
  | c :: _ => (Some c, Scanner rest (yy_buf_size s) (eof_pending s) (input_buffer_p s))
  | [] =>
      match yy_get_next_buffer (Scanner token (yy_buf_size s) (eof_pending s) (input_buffer_p s)) with
      | (EOB_ACT_CONTINUE_SCAN, s) =>
          let rest := skipn (length token) (yy_ch_buf s) in
          (hd_error rest, Scanner rest (yy_buf_size s) (eof_pending s) (input_buffer_p s))
      | (_, s) => (None, ssrestart s)
      end
  end.

(** ** Actions *)

(** The token that an action returns, with its text for a STRING; [None] goes on
    with the next match. *)
Definition do_action (yy_act : Z) (sstext rest : cstring) (s : scanner) : option (option (Z * option cstring) * scanner) :=
  let s' := Scanner rest (yy_buf_size s) (eof_pending s) (input_buffer_p s) in
  let token t := Some (Some (t, None), s') in
  match yy_act with
  | 1 => token SELECT | 2 => token FROM | 3 => token WHERE | 4 => token COMMA | 5 => token EQUALS | 6 => token EQUALS
  | 7 => token NOTEQUALS | 8 => token LESS | 9 => token GREATER | 10 => token LESSEQUALS | 11 => token GREATEREQUALS
  | 12 => token AND | 13 => token OR | 14 => token IS | 15 => token NOT | 16 => token SQLNULL | 17 => token QUOTE
  | 18 => Some (None, s')
  | 19 => token EOL
  | 20 =>
      let '(c, s') := peek sstext rest s in
      match c with
      | Some c => if Ascii.eqb c "'" then Some (None, s') else Some (Some (STRING, Some sstext), s')
      | None => Some (Some (STRING, Some sstext), s')
      end
  | 21 => Some (Some (STRING, Some sstext), s')
  | 22 => token (to_schar (match sstext with c :: _ => code c | [] => 0 end))
  | 23 => Some (None, s')
  | _ => None
  end.

(** A match of [yy_act] with [n] characters. *)
Definition act_on (act : option (Z * nat)) (s : scanner) : option (option (Z * option cstring) * scanner) :=
  match act with
  | None => None
  | Some (yy_act, n) => if YYLMAX <=? Z.of_nat n then None else do_action yy_act (firstn n (yy_ch_buf s)) (skipn n (yy_ch_buf s)) s
  end.

Fixpoint lex_loop (fuel : nat) (s : scanner) : option (Z * option cstring * scanner) :=
  match fuel with
  | O => None
  | S fuel =>
      let go r := match r with
                  | None => None
                  | Some (Some (t, v), s) => Some (t, v, s)
                  | Some (None, s) => lex_loop fuel s
                  end in
      match yy_match (yy_ch_buf s) 1 0 None with
      | None => None
      | Some (Ended state n last) => go (act_on (yy_find_action state n last) s)
      | Some (EndOfBuffer state n last) =>
          match yy_get_next_buffer s with
          | (EOB_ACT_CONTINUE_SCAN, s) => lex_loop fuel s
          | (EOB_ACT_END_OF_FILE, s) => Some (YYEOF, None, s)
          | (EOB_ACT_LAST_MATCH, s) => go (act_on (yy_find_action state n last) s)
          end
      end
  end.

(** Every turn reads a character into the buffer or takes one out of it. *)
Definition sslex (s : scanner) : option (Z * option cstring * scanner) :=
  lex_loop (S (length (yy_ch_buf s) + 2 * length (input_buffer_p s))) s.

(** ** The end of the buffer

    The two NUL characters behind the text lead from every state that a run can
    be in to state 7 and then to the state without transitions, so that the action
    is that of state 7: the end of the buffer. *)

Definition YY_END_OF_BUFFER : Z := 24.

Lemma nul_ends_the_buffer state :
  1 <= state < 55 -> znth state yy_base 0 <> 107 ->
  state <> 7 ->
  yy_transition 3 state (znth 0 yy_ec 0) = Some 7 /\ yy_transition 3 7 (znth 0 yy_ec 0) = Some 55 /\
  znth 7 yy_accept 0 = YY_END_OF_BUFFER /\ znth 55 yy_base 0 = 107 /\ accepts 55 = false.
Proof.
  intros H Hb H7.
  assert (forallb (fun k => let s := Z.of_nat k in
            (s =? 0) || (znth s yy_base 0 =? 107) || (s =? 7) || match yy_transition 3 s (znth 0 yy_ec 0) with Some t => t =? 7 | None => false end)
          (seq 0 55) = true) as A by (vm_compute; reflexivity).
  pose proof (forallb_seq_Z (fun s => (s =? 0) || (znth s yy_base 0 =? 107) || (s =? 7) ||
                                match yy_transition 3 s (znth 0 yy_ec 0) with Some t => t =? 7 | None => false end) 55 A state ltac:(lia)) as B.
  cbv beta in B. rewrite !orb_true_iff, !Z.eqb_eq in B.
  destruct B as [[[B|B]|B]|B]; [lia|contradiction|contradiction|].
  split; [|split; [reflexivity|repeat split; reflexivity]].
  destruct (yy_transition 3 state (znth 0 yy_ec 0)) as [t|]; [|discriminate]. apply Z.eqb_eq in B. now subst.
Qed.
