(* ===== verification/IcalSsYacc.v ===== *)
(** * The parser of the query language (libicalss/icalssyacc.c)

    The parser that bison generated from icalssyacc.y: the tables of its LALR
    automaton, the driver [yyparse] with its stacks and its recovery from errors,
    and the actions, which add the parts of a query to a gauge.

    The values of nonterminals, which no action reads, are those of the first
    symbol.  A stack grows up to [YYMAXDEPTH].  [None] is the end of the process:
    a fatal error, a failed assertion or a null pointer that is followed. *)
From Stdlib Require Import String Ascii ZArith Lia Bool List.
From S2P Require Import Prelude CString IcalError IcalValueText IcalValue IcalParameter IcalProperty IcalComponent IcalSsLexer.
Import ListNotations.
#[local] Open Scope Z_scope.
#[local] Open Scope cstring_scope.
#[local] Open Scope err_scope.

(** ** Gauges (icalgaugeimpl.h) *)

Inductive icalgaugecompare :=
| ICALGAUGECOMPARE_EQUAL | ICALGAUGECOMPARE_LESS | ICALGAUGECOMPARE_LESSEQUAL | ICALGAUGECOMPARE_GREATER
| ICALGAUGECOMPARE_GREATEREQUAL | ICALGAUGECOMPARE_NOTEQUAL | ICALGAUGECOMPARE_REGEX | ICALGAUGECOMPARE_ISNULL
| ICALGAUGECOMPARE_ISNOTNULL | ICALGAUGECOMPARE_NONE.

Inductive icalgaugelogic := ICALGAUGELOGIC_NONE | ICALGAUGELOGIC_AND | ICALGAUGELOGIC_OR.

Record icalgauge_where := Where {
  w_logic : icalgaugelogic;
  w_comp : icalcomponent_kind;
  w_prop : icalproperty_kind;
  w_compare : icalgaugecompare;
  w_value : option cstring
}.

(** The lists in their order. *)
Record icalgauge_impl := Gauge {
  g_select : list icalgauge_where;
  g_from : list icalcomponent_kind;
  g_where : list icalgauge_where;
  g_expand : Z
}.

(** ** Tables *)

Definition YYNTOKENS : Z := 22.
Definition YYLAST : Z := 31.
Definition YYFINAL : Z := 6.
Definition YYPACT_NINF : Z := -10.
Definition YYTABLE_NINF : Z := -1.
Definition YYEMPTY : Z := -2.
Definition YYTERROR : Z := 1.
Definition YYUNDEFTOK : Z := 2.
Definition YYMAXUTOK : Z := 276.
Definition YYMAXDEPTH : Z := 10000.

Definition yytranslate : list Z := [
  0; 2; 2; 2; 2; 2; 2; 2; 2; 2; 2; 2; 2; 2; 2; 2; 2; 2; 2; 2; 2; 2; 2; 2;
  2; 2; 2; 2; 2; 2; 2; 2; 2; 2; 2; 2; 2; 2; 2; 2; 2; 2; 2; 2; 2; 2; 2; 2;
  2; 2; 2; 2; 2; 2; 2; 2; 2; 2; 2; 2; 2; 2; 2; 2; 2; 2; 2; 2; 2; 2; 2; 2;
  2; 2; 2; 2; 2; 2; 2; 2; 2; 2; 2; 2; 2; 2; 2; 2; 2; 2; 2; 2; 2; 2; 2; 2;
  2; 2; 2; 2; 2; 2; 2; 2; 2; 2; 2; 2; 2; 2; 2; 2; 2; 2; 2; 2; 2; 2; 2; 2;
  2; 2; 2; 2; 2; 2; 2; 2; 2; 2; 2; 2; 2; 2; 2; 2; 2; 2; 2; 2; 2; 2; 2; 2;
  2; 2; 2; 2; 2; 2; 2; 2; 2; 2; 2; 2; 2; 2; 2; 2; 2; 2; 2; 2; 2; 2; 2; 2;
  2; 2; 2; 2; 2; 2; 2; 2; 2; 2; 2; 2; 2; 2; 2; 2; 2; 2; 2; 2; 2; 2; 2; 2;
  2; 2; 2; 2; 2; 2; 2; 2; 2; 2; 2; 2; 2; 2; 2; 2; 2; 2; 2; 2; 2; 2; 2; 2;
  2; 2; 2; 2; 2; 2; 2; 2; 2; 2; 2; 2; 2; 2; 2; 2; 2; 2; 2; 2; 2; 2; 2; 2;
  2; 2; 2; 2; 2; 2; 2; 2; 2; 2; 2; 2; 2; 2; 2; 2; 1; 2; 3; 4; 5; 6; 7; 8;
  9; 10; 11; 12; 13; 14; 15; 16; 17; 18; 19; 20; 21].

Definition yyr1 : list Z := [
  0; 22; 23; 23; 23; 24; 24; 25; 25; 26; 26; 26; 26; 26; 26; 26; 26; 26; 27; 27; 27].

Definition yyr2 : list Z := [
  0; 2; 6; 4; 1; 1; 3; 1; 3; 0; 3; 3; 4; 3; 3; 3; 3; 3; 1; 3; 3].

Definition yydefact : list Z := [
  0; 4; 0; 0; 5; 0; 1; 0; 0; 7; 3; 6; 9; 0; 0; 18; 2; 8; 0; 0; 0; 0; 0; 0;
  0; 9; 9; 10; 13; 14; 15; 16; 17; 0; 11; 19; 20; 12].

Definition yydefgoto : list Z := [
  (-1); 3; 5; 10; 15; 16].

Definition yypact : list Z := [
  5; (-10); 9; 20; (-10); 6; (-10); 18; 19; (-10); 1; (-10); 21; 22; (-9); (-10); (-1); (-10); 23; 24; 25; 26; 27; 28;
  (-4); 21; 21; (-10); (-10); (-10); (-10); (-10); (-10); 2; (-10); (-10); (-10); (-10)].

Definition yypgoto : list Z := [
  (-10); (-10); (-10); (-10); (-7); (-10)].

Definition yytable : list Z := [
  18; 19; 20; 21; 22; 23; 1; 12; 13; 2; 24; 7; 4; 8; 25; 26; 33; 34; 35; 36; 6; 9; 11; 37;
  14; 17; 27; 28; 29; 30; 31; 32].

Definition yycheck : list Z := [
  9; 10; 11; 12; 13; 14; 1; 6; 7; 4; 19; 5; 3; 7; 15; 16; 20; 21; 25; 26; 0; 3; 3; 21;
  3; 3; 3; 3; 3; 3; 3; 3].

Definition YYTRANSLATE (yychar : Z) : Z := if (0 <=? yychar) && (yychar <=? YYMAXUTOK) then znth yychar yytranslate 0 else YYUNDEFTOK.

Section Yacc.
Context `{PROPS : PropertyTables}.

(** ** Actions *)

Fixpoint last_dot (s : cstring) : option (cstring * cstring) :=
  match s with
  | [] => None
  | c :: s =>
      match last_dot s with
      | Some (a, b) => Some (c :: a, b)
      | None => if Ascii.eqb c "." then Some ([], s) else None
      end
  end.

(** The component, if there is a period, and the name of the property. *)
Definition comp_and_prop (str1 : cstring) : icalcomponent_kind * cstring :=
  match last_dot str1 with
  | Some (compstr, propstr) => (icalcomponent_string_to_kind (Some compstr), propstr)
  | None => (ICAL_NO_COMPONENT, str1)
  end.

Definition SQUOTE : ascii := "'".

(** The value without the quotes around it. *)
Definition unquoted (value_str : cstring) : cstring :=
  if Nat.ltb 1 (length value_str) then
    let cut := if Ascii.eqb (last value_str NUL) SQUOTE then removelast value_str else value_str in
    match cut with
    | c :: s => if Ascii.eqb c SQUOTE then s else cut
    | [] => cut
    end
  else value_str.

Definition ssyacc_add_where (str1 : cstring) (compare : icalgaugecompare) (value_str : cstring) (impl : icalgauge_impl) : icalgauge_impl :=
  let '(comp, propstr) := comp_and_prop str1 in
  let where_ := Where ICALGAUGELOGIC_NONE comp (icalproperty_string_to_kind (Some propstr)) compare (Some (unquoted value_str)) in
  Gauge (g_select impl) (g_from impl) (g_where impl ++ [where_]) (g_expand impl).

Definition with_logic (l : icalgaugelogic) (w : icalgauge_where) : icalgauge_where :=
  Where l (w_comp w) (w_prop w) (w_compare w) (w_value w).

Fixpoint at_last {A} (f : A -> A) (l : list A) : option (list A) :=
  match l with
  | [] => None
  | [x] => Some [f x]
  | x :: l => option_map (cons x) (at_last f l)
  end.

Definition set_logic (l : icalgaugelogic) (impl : icalgauge_impl) : err icalgauge_impl :=
  match at_last (with_logic l) (g_where impl) with
  | Some ws => ret (Gauge (g_select impl) (g_from impl) ws (g_expand impl))
  | None => undefined
  end.

Definition ssyacc_add_select (str1 : cstring) (impl : icalgauge_impl) : err icalgauge_impl :=
  let '(comp, propstr) := comp_and_prop str1 in
  let prop := if streqb $"*" propstr then ICAL_ANY_PROPERTY else icalproperty_string_to_kind (Some propstr) in
  if prop =? ICAL_NO_PROPERTY then icalerror_set_errno ICAL_BADARG_ERROR ;;; ret impl
  else ret (Gauge (g_select impl ++ [Where ICALGAUGELOGIC_NONE comp prop ICALGAUGECOMPARE_NONE None]) (g_from impl) (g_where impl) (g_expand impl)).

Definition ssyacc_add_from (str1 : cstring) (impl : icalgauge_impl) : err icalgauge_impl :=
  match icalcomponent_string_to_kind (Some str1) with
  | ICAL_NO_COMPONENT => undefined
  | ckind => ret (Gauge (g_select impl) (g_from impl ++ [ckind]) (g_where impl) (g_expand impl))
  end.

Definition sserror : err unit := icalerror_set_errno ICAL_MALFORMEDDATA_ERROR.

(** ** The driver *)

(** The stacks of states and values, from the top; at the bottom is the first
    state, whose value is never set. *)
Record yyparser := YYParser {
  yystack : list (Z * cstring);
  yychar : Z;
  yylval : cstring;
  yyerrstatus : Z;
  yyscanner : scanner;
  yygauge : icalgauge_impl
}.

Definition with_stack (st : list (Z * cstring)) (p : yyparser) : yyparser :=
  YYParser st (yychar p) (yylval p) (yyerrstatus p) (yyscanner p) (yygauge p).

Definition yystate (p : yyparser) : Z := match yystack p with (s, _) :: _ => s | [] => 0 end.

(** The value of the symbol [k] of a rule with [n] symbols. *)
Definition symbol (k n : nat) (p : yyparser) : cstring := match nth_error (yystack p) (n - k) with Some (_, v) => v | None => [] end.

Definition goto_state (yyn state : Z) : Z :=
  let i := znth (yyn - YYNTOKENS) yypgoto 0 + state in
  if (0 <=? i) && (i <=? YYLAST) && (znth i yycheck 0 =? state) then znth i yytable 0 else znth (yyn - YYNTOKENS) yydefgoto 0.

(** The action of a rule; [None] is [YYABORT]. *)
Definition yyaction (yyn : Z) (p : yyparser) : err (option icalgauge_impl) :=
  let g := yygauge p in
  let some m := g <- m ;; ret (Some g) in
  let where_ compare n value := ret (Some (ssyacc_add_where (symbol 1 n p) compare value g)) in
  match yyn with
  | 4 => ret None
  | 5 => some (ssyacc_add_select (symbol 1 1 p) g)
  | 6 => some (ssyacc_add_select (symbol 3 3 p) g)
  | 7 => some (ssyacc_add_from (symbol 1 1 p) g)
  | 8 => some (ssyacc_add_from (symbol 3 3 p) g)
  | 10 => where_ ICALGAUGECOMPARE_EQUAL 3%nat (symbol 3 3 p)
  | 11 => where_ ICALGAUGECOMPARE_ISNULL 3%nat []
  | 12 => where_ ICALGAUGECOMPARE_ISNOTNULL 4%nat []
  | 13 => where_ ICALGAUGECOMPARE_NOTEQUAL 3%nat (symbol 3 3 p)
  | 14 => where_ ICALGAUGECOMPARE_LESS 3%nat (symbol 3 3 p)
  | 15 => where_ ICALGAUGECOMPARE_GREATER 3%nat (symbol 3 3 p)
  | 16 => where_ ICALGAUGECOMPARE_LESSEQUAL 3%nat (symbol 3 3 p)
  | 17 => where_ ICALGAUGECOMPARE_GREATEREQUAL 3%nat (symbol 3 3 p)
  | 18 => some (set_logic ICALGAUGELOGIC_NONE g)
  | 19 => some (set_logic ICALGAUGELOGIC_AND g)
  | 20 => some (set_logic ICALGAUGELOGIC_OR g)
  | _ => ret (Some g)
  end.

(** What a turn of the driver comes to: the next state, or the end with
    [yyresult]. *)
Inductive turn := Next (p : yyparser) | Return (yyresult : Z) (p : yyparser).

Definition yyreduce (yyn : Z) (p : yyparser) : err turn :=
  let yylen := Z.to_nat (znth yyn yyr2 0) in
  g <- yyaction yyn p ;;
  match g with
  | None => ret (Return 1 (YYParser (yystack p) YYEMPTY (yylval p) (yyerrstatus p) (yyscanner p) (yygauge p)))
  | Some g =>
      let yyval := if Nat.eqb yylen 0 then [] else symbol 1 yylen p in
      let st := skipn yylen (yystack p) in
      match st with
      | [] => undefined
      | (state, _) :: _ =>
          ret (Next (YYParser ((goto_state (znth yyn yyr1 0) state, yyval) :: st) (yychar p) (yylval p) (yyerrstatus p) (yyscanner p) g))
      end
  end.

(** Whether a state shifts the error token. *)
Definition shifts_error (state : Z) : bool :=
  let yyn := znth state yypact 0 in
  let i := yyn + YYTERROR in
  negb (yyn =? YYPACT_NINF) && (0 <=? i) && (i <=? YYLAST) && (znth i yycheck 0 =? YYTERROR) && (0 <? znth i yytable 0).

(** The stack popped down to a state that shifts the error token, and the state
    it goes to. *)
Fixpoint pop_to_error (st : list (Z * cstring)) : option (list (Z * cstring) * Z) :=
  match st with
  | [] => None
  | (state, v) :: rest =>
      if shifts_error state then Some (st, znth (znth state yypact 0 + YYTERROR) yytable 0) else pop_to_error rest
  end.

(** A look-ahead token that could not be used after an error is dropped. *)
Definition yyerrlab (p : yyparser) : err turn :=
  (if yyerrstatus p =? 0 then sserror else ret tt) ;;;
  if (yyerrstatus p =? 3) && (yychar p =? YYEOF) then ret (Return 1 p)
  else
    let yychar' := if (yyerrstatus p =? 3) && (YYEOF <? yychar p) then YYEMPTY else yychar p in
    let p := YYParser (yystack p) yychar' (yylval p) 3 (yyscanner p) (yygauge p) in
    match pop_to_error (yystack p) with
    | None => ret (Return 1 p)
    | Some (st, yyn) => if yyn =? YYFINAL then ret (Return 0 (with_stack st p)) else ret (Next (with_stack ((yyn, yylval p) :: st) p))
    end.

Definition yydefault (p : yyparser) : err turn :=
  let yyn := znth (yystate p) yydefact 0 in if yyn =? 0 then yyerrlab p else yyreduce yyn p.

(** A look-ahead token is read when there is none. *)
Definition look_ahead (p : yyparser) : err yyparser :=
  if yychar p =? YYEMPTY then
    match sslex (yyscanner p) with
    | Some (t, v, s) =>
        ret (YYParser (yystack p) (if t <=? YYEOF then YYEOF else t) (match v with Some v => v | None => yylval p end)
                      (yyerrstatus p) s (yygauge p))
    | None => undefined
    end
  else ret (YYParser (yystack p) (if yychar p <=? YYEOF then YYEOF else yychar p) (yylval p) (yyerrstatus p) (yyscanner p) (yygauge p)).

Definition yyshift (yyn : Z) (p : yyparser) : yyparser :=
  YYParser ((yyn, yylval p) :: yystack p) (if yychar p =? YYEOF then YYEOF else YYEMPTY) (yylval p)
           (if yyerrstatus p =? 0 then 0 else yyerrstatus p - 1) (yyscanner p) (yygauge p).

Definition yybackup (p : yyparser) : err turn :=
  let yyn := znth (yystate p) yypact 0 in
  if yyn =? YYPACT_NINF then yydefault p
  else
    p <- look_ahead p ;;
    let yytoken := if yychar p =? YYEOF then 0 else YYTRANSLATE (yychar p) in
    let i := yyn + yytoken in
    if (i <? 0) || (YYLAST <? i) || negb (znth i yycheck 0 =? yytoken) then yydefault p
    else
      let yyn := znth i yytable 0 in
      if yyn <=? 0 then (if (yyn =? 0) || (yyn =? YYTABLE_NINF) then yyerrlab p else yyreduce (- yyn) p)
      else if yyn =? YYFINAL then ret (Return 0 p)
      else ret (Next (yyshift yyn p)).

Definition yysetstate (p : yyparser) : err turn :=
  if YYMAXDEPTH <=? Z.of_nat (length (yystack p)) then sserror ;;; ret (Return 2 p) else yybackup p.

Fixpoint yyloop (fuel : nat) (p : yyparser) : err (Z * yyparser) :=
  match fuel with
  | O => undefined
  | S fuel =>
      t <- yysetstate p ;;
      match t with
      | Next p => yyloop fuel p
      | Return r p => ret (r, p)
      end
  end.

Definition yystart (s : scanner) (lval : cstring) (g : icalgauge_impl) : yyparser := YYParser [(0, [])] YYEMPTY lval 0 s g.

(** At most four turns per token. *)
Definition parse_fuel (s : scanner) : nat := 4 * (length (yy_ch_buf s) + length (input_buffer_p s)) + 16.

Definition ssparse (s : scanner) (lval : cstring) (g : icalgauge_impl) : err (Z * yyparser) :=
  yyloop (parse_fuel s) (yystart s lval g).
End Yacc.
