(* ===== verification/IcalGauge.v ===== *)
(** * Gauges (libicalss/icalgauge.c)

    A gauge is a query: the properties it selects, the kinds of components it
    looks at and the conditions on their properties.  It is read from a text by
    the scanner and the parser of the previous files, and tells whether a
    component satisfies it.

    The internal iterators of the components are not returned. *)
From Stdlib Require Import String Ascii ZArith Lia Bool List.
From S2P Require Import Prelude CString IcalError IcalTime IcalValueText IcalValue IcalParameter IcalProperty IcalComponent IcalComponentZones IcalTimezone IcalComponentAccess IcalComponentRecur IcalSsLexer IcalSsYacc.
Import ListNotations.
#[local] Open Scope Z_scope.
#[local] Open Scope cstring_scope.
#[local] Open Scope err_scope.

Definition ICAL_XLICCOMPARETYPE_PARAMETER : icalparameter_kind := 30.

Section Gauges.
Context `{PROPS : PropertyTables} `{PARAMS : ParameterTables} `{FLOAT : FloatOps} `{TZ : TimezoneConv}.

(** ** Reading a query *)

(** The scanner and the last value are global; both are kept for the next query. *)
Definition icalgauge_new_from_sql (sql : cstring) (expand : Z) (s : scanner) (lval : cstring)
  : err (option icalgauge_impl * scanner * cstring) :=
  r <- ssparse (set_input sql s) lval (Gauge [] [] [] expand) ;;
  let '(yyresult, p) := r in
  ret (if yyresult =? 0 then Some (yygauge p) else None, yyscanner p, yylval p).

Definition icalgauge_get_expand (gauge : option icalgauge_impl) : err Z :=
  match gauge with Some g => ret (g_expand g) | None => badarg 0 end.

(** ** Comparison of values *)

(** [icalvalue_compare] of pointers that may be null. *)
Definition compare_pointers (a b : option icalvalue) : err comparetype :=
  match a, b with
  | Some a, Some b => icalvalue_compare a b
  | _, _ => badarg NOT_COMPARED
  end.

Definition relation_of (r : comparetype) : icalgaugecompare :=
  match r with
  | NOT_COMPARED => ICALGAUGECOMPARE_NONE
  | ICAL_XLICCOMPARETYPE_EQUAL => ICALGAUGECOMPARE_EQUAL
  | ICAL_XLICCOMPARETYPE_LESS => ICALGAUGECOMPARE_LESS
  | ICAL_XLICCOMPARETYPE_GREATER => ICALGAUGECOMPARE_GREATER
  | ICAL_XLICCOMPARETYPE_NOTEQUAL => ICALGAUGECOMPARE_NOTEQUAL
  end.

Definition gaugecompare_dec (a b : icalgaugecompare) : {a = b} + {a <> b}.
Proof. decide equality. Defined.
Definition same_compare (a b : icalgaugecompare) : bool := if gaugecompare_dec a b then true else false.

(** The tests of both functions on the relation of two values. *)
Definition satisfies (compare relation : icalgaugecompare) : bool :=
  if same_compare relation compare then true
  else match compare, relation with
       | ICALGAUGECOMPARE_LESSEQUAL, (ICALGAUGECOMPARE_LESS | ICALGAUGECOMPARE_EQUAL)
       | ICALGAUGECOMPARE_GREATEREQUAL, (ICALGAUGECOMPARE_GREATER | ICALGAUGECOMPARE_EQUAL)
       | ICALGAUGECOMPARE_NOTEQUAL, (ICALGAUGECOMPARE_GREATER | ICALGAUGECOMPARE_LESS) => true
       | _, _ => false
       end.

(** ** Gauges that are components *)

(** The numbers of the parameter X-LIC-COMPARETYPE, from 21701 on; the other
    numbers are never the relation of two values, like REGEX. *)
Definition compare_of_number (n : Z) : icalgaugecompare :=
  if n =? 0 then ICALGAUGECOMPARE_NONE
  else znth (n - 21701) [ICALGAUGECOMPARE_EQUAL; ICALGAUGECOMPARE_NOTEQUAL; ICALGAUGECOMPARE_LESS; ICALGAUGECOMPARE_GREATER;
    ICALGAUGECOMPARE_LESSEQUAL; ICALGAUGECOMPARE_GREATEREQUAL; ICALGAUGECOMPARE_REGEX; ICALGAUGECOMPARE_ISNULL;
    ICALGAUGECOMPARE_ISNOTNULL] ICALGAUGECOMPARE_REGEX.

(** The comparison that a property of the gauge asks for. *)
Definition compare_wanted (p : icalproperty) : err icalgaugecompare :=
  match find (parameter_matches ICAL_XLICCOMPARETYPE_PARAMETER) (pr_parameters p) with
  | Some q => icalerror_clear_errno ;;; ret (compare_of_number (pa_data q))
  | None => ret ICALGAUGECOMPARE_EQUAL
  end.

(** The properties of the gauge against the first of the same kind. *)
Fixpoint compare_properties (ps : list icalproperty) (comp : icalcomponent) (pass : bool) : err bool :=
  match ps with
  | [] => ret pass
  | p :: ps =>
      compare <- compare_wanted p ;;
      match first_property (pr_kind p) comp with
      | Some targetprop =>
          rel <- compare_pointers (pr_value p) (pr_value targetprop) ;;
          compare_properties ps comp (pass && satisfies compare (relation_of rel))
      | None => compare_properties ps comp pass
      end
  end.

Definition first_component (kind : icalcomponent_kind) (c : icalcomponent) : option icalcomponent :=
  find (component_matches kind) (co_components c).

Fixpoint icalgauge_compare_recurse (gauge comp : icalcomponent) : err bool :=
  if negb (ckind_eqb (co_kind gauge) (co_kind comp) || ckind_eqb (co_kind gauge) ICAL_ANY_COMPONENT) then ret false
  else
    pass <- compare_properties (co_properties gauge) comp true ;;
    (fix compare_components (gs : list icalcomponent) (pass : bool) : err bool :=
       match gs with
       | [] => ret pass
       | subgauge :: gs =>
           match first_component (co_kind subgauge) comp with
           | Some child => localpass <- icalgauge_compare_recurse subgauge child ;; compare_components gs (pass && localpass)
           | None => compare_components gs false
           end
       end) (co_components gauge) pass.

(** ** Queries *)

Definition query_kind (k : icalcomponent_kind) : bool :=
  match k with
  | ICAL_VEVENT_COMPONENT | ICAL_VTODO_COMPONENT | ICAL_VJOURNAL_COMPONENT | ICAL_VQUERY_COMPONENT | ICAL_VAGENDA_COMPONENT => true
  | _ => false
  end.

(** The component that is looked at. *)
Definition compared_component (comp : icalcomponent) : err (option icalcomponent) :=
  match fst (icalcomponent_get_first_real_component comp) with
  | Some inner => ret (Some inner)
  | None => if query_kind (co_kind comp) then ret (Some comp) else icalerror_set_errno ICAL_MALFORMEDDATA_ERROR ;;; ret None
  end.

(** The value of a condition. *)
Definition where_value (addr : positive) (vk : icalvalue_kind) (w : icalgauge_where) (value : cstring) : err (option icalvalue) :=
  match w_compare w with
  | ICALGAUGECOMPARE_ISNULL | ICALGAUGECOMPARE_ISNOTNULL => ret (icalvalue_new_impl vk)
  | _ => icalvalue_new_from_string addr vk value
  end.

(** The properties of the kind of the condition. *)
Fixpoint compare_clause_values (ps : list icalproperty) (w : icalgauge_where) (compare_recur : bool) (sub_comp : icalcomponent) (v : icalvalue)
  (local_pass : Z) : err Z :=
  match ps with
  | [] => ret local_pass
  | prop :: ps =>
      match w_compare w with
      | ICALGAUGECOMPARE_ISNULL => ret 0
      | ICALGAUGECOMPARE_ISNOTNULL => ret 1
      | _ =>
          prop_value <- (if compare_recur
                         then match first_property ICAL_RECURRENCEID_PROPERTY sub_comp with
                              | Some p => ret (pr_value p)
                              | None => badarg None
                              end
                         else ret (pr_value prop)) ;;
          relation <- compare_pointers prop_value (Some v) ;;
          compare_clause_values ps w compare_recur sub_comp v (if satisfies (w_compare w) (relation_of relation) then local_pass + 1 else 0)
      end
  end.

Definition is_time_property (k : icalproperty_kind) : bool :=
  (k =? ICAL_DTSTART_PROPERTY) || (k =? ICAL_DTEND_PROPERTY) || (k =? ICAL_DUE_PROPERTY).

(** One condition: [None] ends the comparison with 0; otherwise whether it
    holds, with the flag that the next condition finds. *)
Definition compare_clause (addr : positive) (expand : Z) (inner : icalcomponent) (w : icalgauge_where) (compare_recur : bool)
  : err (option (bool * bool)) :=
  match w_value w with
  | None => icalerror_set_errno ICAL_INTERNAL_ERROR ;;; ret None
  | Some value =>
      if w_prop w =? ICAL_NO_PROPERTY then icalerror_set_errno ICAL_INTERNAL_ERROR ;;; ret None
      else
        let vk := icalproperty_kind_to_value_kind (w_prop w) in
        if kind_eqb vk ICAL_NO_VALUE then icalerror_set_errno ICAL_INTERNAL_ERROR ;;; ret None
        else
          v <- where_value addr vk w value ;;
          match v with
          | None => ret None
          | Some v =>
              match (if ckind_eqb (w_comp w) ICAL_NO_COMPONENT then Some inner else first_component (w_comp w) inner) with
              | None => ret None
              | Some sub_comp =>
                  let rrule := first_property ICAL_RRULE_PROPERTY sub_comp in
                  let compare_recur :=
                    compare_recur || (truthy expand && (match rrule with Some _ => true | None => false end) && is_time_property (w_prop w)) in
                  let start := match w_compare w with ICALGAUGECOMPARE_ISNULL => 1 | _ => 0 end in
                  local_pass <- compare_clause_values (properties_of (w_prop w) sub_comp) w compare_recur sub_comp v start ;;
                  ret (Some (0 <? local_pass, compare_recur))
              end
          end
  end.

Fixpoint compare_where (addr : positive) (expand : Z) (inner : icalcomponent) (ws : list icalgauge_where) (compare_recur last_clause : bool)
  : err bool :=
  match ws with
  | [] => ret last_clause
  | w :: ws =>
      r <- compare_clause addr expand inner w compare_recur ;;
      match r with
      | None => ret false
      | Some (this_clause, compare_recur) =>
          compare_where addr expand inner ws compare_recur
            (match w_logic w with
             | ICALGAUGELOGIC_AND => this_clause && last_clause
             | ICALGAUGELOGIC_OR => this_clause || last_clause
             | ICALGAUGELOGIC_NONE => this_clause
             end)
      end
  end.

(** [addr] is the address of the values that are made. *)
Definition icalgauge_compare (addr : positive) (gauge : option icalgauge_impl) (comp : option icalcomponent) : err bool :=
  match comp, gauge with
  | Some comp, Some gauge =>
      inner <- compared_component comp ;;
      match inner with
      | None => ret false
      | Some inner =>
          if existsb (fun k => ckind_eqb k (co_kind inner)) (g_from gauge)
          then compare_where addr (g_expand gauge) inner (g_where gauge) false true
          else ret false
      end
  | _, _ => badarg false
  end.
End Gauges.
