(* ===== verification/IcalGaugeParse.v ===== *)
(** * The automaton of the query parser accepts the grammar

    The tables and the driver of icalssyacc.c against a parser by recursive
    descent that is read off the grammar: on every sequence of tokens both call
    the same actions in the same order and give the same result.  In particular the
    driver ends, its stack stays small, and an error is reported once. *)
From Stdlib Require Import String Ascii ZArith Lia Bool List.
From S2P Require Import Prelude CString IcalError IcalValueText IcalValue IcalParameter IcalProperty IcalComponent IcalSsLexer IcalSsYacc.
Import ListNotations.
#[local] Open Scope Z_scope.
#[local] Open Scope cstring_scope.
#[local] Open Scope err_scope.

(** ** Tokens *)

Inductive token := Word (w : cstring) | Sym (t : Z).

Definition token_code (t : token) : Z := match t with Word _ => STRING | Sym t => t end.

(** Characters that start no other token, and the numbers of the grammar. *)
Definition known_token (t : Z) : Prop := 0 < t < 256 \/ 259 <= t <= 276.

(** The tokens that a scanner returns up to the end of the text; a negative
    number counts as the end. *)
Inductive lexes : scanner -> list token -> scanner -> Prop :=
| lexes_end s t v s' : sslex s = Some (t, v, s') -> t <= YYEOF -> lexes s [] s'
| lexes_word s w s1 ts s' : sslex s = Some (STRING, Some w, s1) -> lexes s1 ts s' -> lexes s (Word w :: ts) s'
| lexes_sym s t s1 ts s' : sslex s = Some (t, None, s1) -> known_token t -> lexes s1 ts s' -> lexes s (Sym t :: ts) s'.

(** ** The grammar *)

Section Grammar.
Context `{PROPS : PropertyTables}.

Definition syntax_error (g : icalgauge_impl) : err (Z * icalgauge_impl) := sserror ;;; ret (1, g).

(** The comparisons of two strings. *)
Definition comparison_of (t : Z) : option icalgaugecompare :=
  if t =? EQUALS then Some ICALGAUGECOMPARE_EQUAL
  else if t =? NOTEQUALS then Some ICALGAUGECOMPARE_NOTEQUAL
  else if t =? LESS then Some ICALGAUGECOMPARE_LESS
  else if t =? GREATER then Some ICALGAUGECOMPARE_GREATER
  else if t =? LESSEQUALS then Some ICALGAUGECOMPARE_LESSEQUAL
  else if t =? GREATEREQUALS then Some ICALGAUGECOMPARE_GREATEREQUAL
  else None.

(** What follows the name of a property in a condition: the comparison, the
    value, and the rest. *)
Definition condition (ts : list token) : option (icalgaugecompare * cstring * list token) :=
  match ts with
  | Sym t :: Word v :: ts => option_map (fun c => (c, v, ts)) (comparison_of t)
  | Sym t1 :: Sym t2 :: ts =>
      if (t1 =? IS) && (t2 =? SQLNULL) then Some (ICALGAUGECOMPARE_ISNULL, [], ts)
      else match ts with
           | Sym t3 :: ts => if (t1 =? IS) && (t2 =? NOT) && (t3 =? SQLNULL) then Some (ICALGAUGECOMPARE_ISNOTNULL, [], ts) else None
           | _ => None
           end
  | _ => None
  end.

(** A condition, which may be empty, and those that follow it. *)
Fixpoint where_list (fuel : nat) (l : icalgaugelogic) (ts : list token) (g : icalgauge_impl) : err (Z * icalgauge_impl) :=
  match fuel with
  | O => undefined
  | S fuel =>
      let go ts g :=
        g <- set_logic l g ;;
        match ts with
        | [] => ret (0, g)
        | Sym t :: ts => if t =? AND then where_list fuel ICALGAUGELOGIC_AND ts g
                         else if t =? OR then where_list fuel ICALGAUGELOGIC_OR ts g else syntax_error g
        | _ => syntax_error g
        end in
      match ts with
      | Word prop :: ts =>
          match condition ts with
          | Some (compare, value, ts) => go ts (ssyacc_add_where prop compare value g)
          | None => syntax_error g
          end
      | _ => go ts g
      end
  end.

Fixpoint from_rest (ts : list token) (g : icalgauge_impl) : err (Z * icalgauge_impl) :=
  match ts with
  | [] => ret (0, g)
  | Sym t :: ts =>
      if t =? WHERE then where_list (S (length ts)) ICALGAUGELOGIC_NONE ts g
      else if t =? COMMA then match ts with Word w :: ts => g <- ssyacc_add_from w g ;; from_rest ts g | _ => syntax_error g end
      else syntax_error g
  | _ => syntax_error g
  end.

Fixpoint select_rest (ts : list token) (g : icalgauge_impl) : err (Z * icalgauge_impl) :=
  match ts with
  | Sym t :: ts =>
      if t =? FROM then match ts with Word w :: ts => g <- ssyacc_add_from w g ;; from_rest ts g | _ => syntax_error g end
      else if t =? COMMA then match ts with Word w :: ts => g <- ssyacc_add_select w g ;; select_rest ts g | _ => syntax_error g end
      else syntax_error g
  | _ => syntax_error g
  end.

Definition parse_query (ts : list token) (g : icalgauge_impl) : err (Z * icalgauge_impl) :=
  match ts with
  | Sym t :: Word w :: ts => if t =? SELECT then g <- ssyacc_add_select w g ;; select_rest ts g else syntax_error g
  | _ => syntax_error g
  end.

(** ** The decisions of the tables *)

Inductive decision := Shift (state : Z) | Reduce (rule : Z) | Accept | Error.

Definition default_decision (state : Z) : decision :=
  let yyn := znth state yydefact 0 in if yyn =? 0 then Error else Reduce yyn.

Definition decide (state yytoken : Z) : decision :=
  let i := znth state yypact 0 + yytoken in
  if (i <? 0) || (YYLAST <? i) || negb (znth i yycheck 0 =? yytoken) then default_decision state
  else
    let yyn := znth i yytable 0 in
    if yyn <=? 0 then (if (yyn =? 0) || (yyn =? YYTABLE_NINF) then Error else Reduce (- yyn))
    else if yyn =? YYFINAL then Accept else Shift yyn.

Definition act (d : decision) (p : yyparser) : err turn :=
  match d with
  | Shift yyn => ret (Next (yyshift yyn p))
  | Reduce yyn => yyreduce yyn p
  | Accept => ret (Return 0 p)
  | Error => yyerrlab p
  end.

Lemma yydefault_decision p : yydefault p = act (default_decision (yystate p)) p.
Proof. unfold yydefault, default_decision. now destruct (znth (yystate p) yydefact 0 =? 0). Qed.

(** The number of a token in the tables. *)
Definition yytoken (c : Z) : Z := if c =? YYEOF then 0 else YYTRANSLATE c.

Lemma yybackup_default p : znth (yystate p) yypact 0 = YYPACT_NINF -> yybackup p = act (default_decision (yystate p)) p.
Proof. intros H. unfold yybackup. rewrite H. apply yydefault_decision. Qed.

Lemma yybackup_token p q st :
  znth (yystate p) yypact 0 <> YYPACT_NINF -> look_ahead p st = Some (q, st) -> yystack q = yystack p ->
  yybackup p st = act (decide (yystate p) (yytoken (yychar q))) q st.
Proof.
  intros H L E. unfold yybackup. apply Z.eqb_neq in H. rewrite H. unfold bind at 1. rewrite L.
  assert (yystate q = yystate p) as ES by (unfold yystate; now rewrite E).
  unfold decide, yytoken. rewrite yydefault_decision, ES.
  repeat (match goal with |- context [if ?b then _ else _] => destruct b eqn:? end; try reflexivity).
Qed.

Lemma token_number t : known_token t -> yytoken t = if t <? 256 then 2 else t - 255.
Proof.
  intros H.
  pose (P := fun t => (t =? 0) || (255 <? t) && (t <? 259) || (yytoken t =? if t <? 256 then 2 else t - 255)).
  assert (P t = true) as B by (apply (forallb_seq_Z P 277); [vm_compute; reflexivity | unfold known_token in H; lia]).
  unfold P in B.
  rewrite !orb_true_iff, andb_true_iff, !Z.eqb_eq, !Z.ltb_lt in B. unfold known_token in H. intuition lia.
Qed.

Definition tnum (t : token) : Z := match t with Word _ => 3 | Sym t => if t <? 256 then 2 else t - 255 end.

Definition known (t : token) : Prop := match t with Word _ => True | Sym t => known_token t end.

Lemma yytoken_tnum t : known t -> yytoken (token_code t) = tnum t.
Proof. destruct t as [w|t]; [reflexivity|apply token_number]. Qed.

Lemma tnum_range t : known t -> 2 <= tnum t < 22.
Proof. destruct t as [w|t]; cbn; [lia|]. unfold known_token. destruct (Z.ltb_spec t 256); lia. Qed.

(** A statement about the numbers of tokens, by cases. *)
Ltac each_token k :=
  assert (k = 0 \/ k = 2 \/ k = 3 \/ k = 4 \/ k = 5 \/ k = 6 \/ k = 7 \/ k = 8 \/ k = 9 \/ k = 10 \/ k = 11 \/ k = 12 \/ k = 13 \/ k = 14 \/
          k = 15 \/ k = 16 \/ k = 17 \/ k = 18 \/ k = 19 \/ k = 20 \/ k = 21) as Hcases by lia;
  repeat (destruct Hcases as [-> | Hcases]); [..|subst k]; reflexivity.

(** The rows of the states that look at a token. *)
Section Rows.
Variable k : Z.
Hypothesis Hk : k = 0 \/ 2 <= k < 22.

Lemma row_0 : decide 0 k = if k =? 4 then Shift 2 else Error. Proof. each_token k. Qed.
Lemma row_2 : decide 2 k = if k =? 3 then Shift 4 else Error. Proof. each_token k. Qed.
Lemma row_3 : decide 3 k = if k =? 0 then Accept else Error. Proof. each_token k. Qed.
Lemma row_5 : decide 5 k = if k =? 5 then Shift 7 else if k =? 7 then Shift 8 else Error. Proof. each_token k. Qed.
Lemma row_7 : decide 7 k = if k =? 3 then Shift 9 else Error. Proof. each_token k. Qed.
Lemma row_8 : decide 8 k = if k =? 3 then Shift 11 else Error. Proof. each_token k. Qed.
Lemma row_10 : decide 10 k = if k =? 6 then Shift 12 else if k =? 7 then Shift 13 else Reduce 3. Proof. each_token k. Qed.
Lemma row_clause s : s = 12 \/ s = 25 \/ s = 26 -> decide s k = if k =? 3 then Shift 14 else Reduce 9.
Proof. intros [->|[->| ->]]; each_token k. Qed.
Lemma row_13 : decide 13 k = if k =? 3 then Shift 17 else Error. Proof. each_token k. Qed.
Lemma row_14 : decide 14 k = if (9 <=? k) && (k <=? 14) then Shift (k + 9) else if k =? 19 then Shift 24 else Error. Proof. each_token k. Qed.
Lemma row_16 : decide 16 k = if k =? 15 then Shift 25 else if k =? 16 then Shift 26 else Reduce 2. Proof. each_token k. Qed.
Lemma row_value s : 18 <= s <= 23 -> decide s k = if k =? 3 then Shift (s + 9) else Error.
Proof. intros H. assert (s = 18 \/ s = 19 \/ s = 20 \/ s = 21 \/ s = 22 \/ s = 23) as C by lia. destruct C as [->|[->|[->|[->|[->| ->]]]]]; each_token k. Qed.
Lemma row_24 : decide 24 k = if k =? 20 then Shift 33 else if k =? 21 then Shift 34 else Error. Proof. each_token k. Qed.
Lemma row_33 : decide 33 k = if k =? 21 then Shift 37 else Error. Proof. each_token k. Qed.
End Rows.

(** ** Configurations of the driver *)

(** The tokens that a parser has still to read. *)
Inductive ahead (p : yyparser) : list token -> scanner -> Prop :=
| ahead_unread ts s : yychar p = YYEMPTY -> lexes (yyscanner p) ts s -> ahead p ts s
| ahead_token t ts s : yychar p = token_code t -> known t -> (forall w, t = Word w -> yylval p = w) -> lexes (yyscanner p) ts s -> ahead p (t :: ts) s
| ahead_end : yychar p = YYEOF -> ahead p [] (yyscanner p).

Record at_ (p : yyparser) (st : list (Z * cstring)) (ts : list token) (g : icalgauge_impl) (s : scanner) : Prop := At {
  at_stack : yystack p = st;
  at_gauge : yygauge p = g;
  at_status : yyerrstatus p = 0;
  at_ahead : ahead p ts s;
  at_depth : (length st < 1000)%nat
}.

(** The look-ahead token is there. *)
Definition sees (p : yyparser) (ts : list token) : Prop :=
  match ts with [] => yychar p = YYEOF | t :: _ => yychar p = token_code t /\ known t end.

Lemma token_code_positive t : known t -> token_code t <> YYEMPTY /\ (token_code t <=? YYEOF) = false.
Proof. destruct t as [w|t]; cbn; unfold known_token, STRING, YYEMPTY, YYEOF; intros H; split; try lia; apply Z.leb_gt; lia. Qed.

Lemma look_ahead_sees p ts s : ahead p ts s ->
  exists q, (forall st, look_ahead p st = Some (q, st)) /\ yystack q = yystack p /\ yygauge q = yygauge p /\ yyerrstatus q = yyerrstatus p /\
            sees q ts /\ ahead q ts s.
Proof.
  intros [ts' s' E L | t ts' s' E K W L | E].
  - unfold look_ahead. rewrite E. change (YYEMPTY =? YYEMPTY) with true. cbv iota.
    destruct L as [s0 t v s1 L T | s0 w s1 ts0 s2 L L1 | s0 t s1 ts0 s2 L K L1]; rewrite L; cbv iota beta.
    + eexists. split; [intros st; reflexivity|]. apply Z.leb_le in T. rewrite T. cbn [yystack yygauge yyerrstatus yychar sees].
      repeat split; auto. now constructor 3.
    + eexists. split; [intros st; reflexivity|]. cbn. repeat split; auto. apply (ahead_token _ (Word w)); cbn; auto. now intros ? [= <-].
    + eexists. split; [intros st; reflexivity|]. pose proof (token_code_positive (Sym t) K) as [_ T]. cbn in T. rewrite T. cbn. repeat split; auto.
      apply (ahead_token _ (Sym t)); cbn; auto. discriminate.
  - pose proof (token_code_positive t K) as [N T]. unfold look_ahead. rewrite E, T. apply Z.eqb_neq in N. rewrite N.
    eexists. split; [intros st; reflexivity|]. cbn [yystack yygauge yyerrstatus yychar sees]. repeat split; auto.
    constructor 2; cbn; auto.
  - unfold look_ahead. rewrite E. change (YYEOF =? YYEMPTY) with false. change (YYEOF <=? YYEOF) with true. cbv iota.
    eexists. split; [intros st; reflexivity|]. cbn. repeat split; auto. now apply (ahead_end (YYParser _ _ _ _ _ _)).
Qed.

Lemma at_look_ahead p st ts g s : at_ p st ts g s -> exists q, (forall e, look_ahead p e = Some (q, e)) /\ at_ q st ts g s /\ sees q ts.
Proof.
  intros [E1 E2 E3 A D]. destruct (look_ahead_sees _ _ _ A) as (q & L & Q1 & Q2 & Q3 & S & A').
  exists q. split; [exact L|]. split; [|exact S]. constructor; congruence.
Qed.

Definition next_number (ts : list token) : Z := match ts with [] => 0 | t :: _ => tnum t end.

Lemma sees_number p ts : sees p ts -> yytoken (yychar p) = next_number ts /\ (next_number ts = 0 \/ 2 <= next_number ts < 22).
Proof.
  destruct ts as [|t ts]; cbn; [intros ->; split; [reflexivity|now left]|].
  intros [-> K]. rewrite (yytoken_tnum _ K). split; [reflexivity|]. right. apply (tnum_range _ K).
Qed.

Definition top (st : list (Z * cstring)) : Z := match st with (x, _) :: _ => x | [] => 0 end.

(** One turn, by the decision of the tables. *)
Lemma turn_token p st ts g s e : at_ p st ts g s -> znth (top st) yypact 0 <> YYPACT_NINF ->
  exists q, at_ q st ts g s /\ sees q ts /\ yysetstate p e = act (decide (top st) (next_number ts)) q e.
Proof.
  intros A N. destruct (at_look_ahead _ _ _ _ _ A) as (q & L & A' & S). exists q. split; [exact A'|]. split; [exact S|].
  unfold yysetstate. destruct A as [E1 E2 E3 A D], A' as [Q1 Q2 Q3 A' D'].
  assert (YYMAXDEPTH <=? Z.of_nat (length (yystack p)) = false) as -> by (apply Z.leb_gt; rewrite E1; unfold YYMAXDEPTH; lia).
  assert (yystate p = top st) as T by (unfold yystate, top; now rewrite E1).
  rewrite <- T in *. rewrite (yybackup_token p q e N (L e)) by congruence. now rewrite (proj1 (sees_number _ _ S)).
Qed.

Lemma turn_default p st ts g s e : at_ p st ts g s -> znth (top st) yypact 0 = YYPACT_NINF ->
  yysetstate p e = act (default_decision (top st)) p e.
Proof.
  intros [E1 E2 E3 A D] N. unfold yysetstate.
  assert (YYMAXDEPTH <=? Z.of_nat (length (yystack p)) = false) as -> by (apply Z.leb_gt; rewrite E1; unfold YYMAXDEPTH; lia).
  assert (yystate p = top st) as T by (unfold yystate, top; now rewrite E1). rewrite <- T in *. now rewrite (yybackup_default p N).
Qed.

(** ** Runs *)

(** The result, the gauge and, after a success, the scanner. *)
Definition outcome (r : option (Z * yyparser * error_state)) : option (Z * icalgauge_impl * option scanner * error_state) :=
  match r with
  | Some (r, p, e) => Some (r, yygauge p, if r =? 0 then Some (yyscanner p) else None, e)
  | None => None
  end.

Definition wanted (s : scanner) (r : option (Z * icalgauge_impl * error_state)) : option (Z * icalgauge_impl * option scanner * error_state) :=
  match r with
  | Some (r, g, e) => Some (r, g, if r =? 0 then Some s else None, e)
  | None => None
  end.

Lemma yyloop_step n p e : yyloop (S n) p e =
  match yysetstate p e with
  | Some (Next p, e) => yyloop n p e
  | Some (Return r p, e) => Some (r, p, e)
  | None => None
  end.
Proof. cbn [yyloop]. unfold bind. destruct (yysetstate p e) as [[[q|r q] e']|]; reflexivity. Qed.

Lemma run_shift n p st t ts g s e X x : at_ p st (t :: ts) g s -> znth (top st) yypact 0 <> YYPACT_NINF -> (length st < 900)%nat ->
  decide (top st) (tnum t) = Shift x ->
  (forall q v, at_ q ((x, v) :: st) ts g s -> (forall w, t = Word w -> v = w) -> outcome (yyloop n q e) = X) ->
  outcome (yyloop (S n) p e) = X.
Proof.
  intros A N D Dec K. rewrite yyloop_step. destruct (turn_token _ _ _ _ _ e A N) as (q & A' & S & ->). cbn [next_number]. rewrite Dec. cbn [act ret].
  destruct A' as [Q1 Q2 Q3 A' D']. cbn in S. destruct S as [C K'].
  apply (K _ (yylval q)).
  - destruct (token_code_positive t K') as [T1 T2]. apply Z.leb_gt in T2. unfold yyshift. rewrite C.
    assert (token_code t =? YYEOF = false) as -> by (apply Z.eqb_neq; lia). rewrite Q3, Q1.
    constructor; cbn [yystack yygauge yyerrstatus length]; auto; [|lia]. constructor 1; [reflexivity|]. cbn [yyscanner].
    inversion A'; subst; [exfalso; apply T1; now rewrite <- C|assumption].
  - intros w ->. inversion A' as [? ? E _| |]; subst; [rewrite C in E; discriminate E|auto].
Qed.

(** Every state but the first is popped after an error. *)
Definition at_bottom (st : list (Z * cstring)) : Prop := exists pre v, st = pre ++ [(0, v)] /\ Forall (fun x => 1 <= fst x < 38) pre.

Lemma pops_to_bottom st : at_bottom st -> exists v, pop_to_error st = Some ([(0, v)], 1).
Proof.
  intros (pre & v & -> & F). exists v. induction F as [|[x u] pre Hx F IH]; [reflexivity|]. cbn [app pop_to_error].
  assert ((x =? 0) || negb (shifts_error x) = true) as T.
  { apply (forallb_seq_Z (fun x => (x =? 0) || negb (shifts_error x)) 38); [vm_compute; reflexivity|cbn in Hx; lia]. }
  cbn in Hx. apply orb_true_iff in T. destruct T as [T|T]; [apply Z.eqb_eq in T; lia|].
  apply negb_true_iff in T. rewrite T. exact IH.
Qed.

Lemma run_error n p st ts g s e : at_ p st ts g s -> at_bottom st -> znth (top st) yypact 0 <> YYPACT_NINF ->
  decide (top st) (next_number ts) = Error -> outcome (yyloop (S (S n)) p e) = wanted s (syntax_error g e).
Proof.
  intros A B N Dec. rewrite yyloop_step. destruct (turn_token _ _ _ _ _ e A N) as (q & A' & S & ->). rewrite Dec. cbn [act].
  destruct A' as [Q1 Q2 Q3 A' D']. unfold yyerrlab. rewrite Q3. change (0 =? 0) with true. change (0 =? 3) with false. cbn [andb].
  unfold syntax_error, sserror, bind. destruct (icalerror_set_errno ICAL_MALFORMEDDATA_ERROR e) as [[u e']|]; [|reflexivity].
  cbn [yystack]. rewrite Q1. destruct (pops_to_bottom _ B) as (v & ->). change (1 =? YYFINAL) with false. cbv iota. unfold ret at 1.
  rewrite yyloop_step. unfold with_stack, yysetstate. cbn [yystack length]. change (YYMAXDEPTH <=? Z.of_nat 2) with false. cbv iota.
  rewrite yybackup_default by reflexivity. cbn. now rewrite Q2.
Qed.

(** The length of a rule. *)
Definition rhs (rule : Z) : nat := Z.to_nat (znth rule yyr2 0).

(** A reduction: the action, and the state that follows. *)
Definition reduced (p : yyparser) (st : list (Z * cstring)) (rule : Z) (g : icalgauge_impl) : yyparser :=
  let n := rhs rule in
  YYParser ((goto_state (znth rule yyr1 0) (top (skipn n st)), if Nat.eqb n 0 then [] else symbol 1 n p) :: skipn n st)
           (yychar p) (yylval p) (yyerrstatus p) (yyscanner p) g.

Lemma reduce_turn p st rule g e : yystack p = st -> skipn (rhs rule) st <> [] ->
  forall e', yyaction rule p e = Some (Some g, e') -> act (Reduce rule) p e = Some (Next (reduced p st rule g), e').
Proof.
  intros E H e' A. cbn [act]. unfold yyreduce, bind. rewrite A, E. fold (rhs rule). unfold reduced, top.
  destruct (skipn (rhs rule) st) as [|[x v] st']; [contradiction|reflexivity].
Qed.

Lemma reduced_at p st ts g s rule g' : at_ p st ts g s -> (length (skipn (rhs rule) st) < 900)%nat ->
  exists v, at_ (reduced p st rule g') ((goto_state (znth rule yyr1 0) (top (skipn (rhs rule) st)), v) :: skipn (rhs rule) st) ts g' s.
Proof.
  intros [E1 E2 E3 A D] L. eexists. unfold reduced. constructor; cbn [yystack yygauge yyerrstatus length]; [reflexivity|reflexivity|exact E3| |lia].
  destruct A as [ts s E Lx | t ts s E K W Lx | E]; [constructor 1|constructor 2|apply (ahead_end (YYParser _ _ _ _ _ _))]; auto.
Qed.

Definition reduces (st : list (Z * cstring)) (ts : list token) (rule : Z) : Prop :=
  if znth (top st) yypact 0 =? YYPACT_NINF then default_decision (top st) = Reduce rule else decide (top st) (next_number ts) = Reduce rule.

Lemma run_reduce n p st ts g s e rule (m : err icalgauge_impl) (k : icalgauge_impl -> err (Z * icalgauge_impl)) :
  at_ p st ts g s -> reduces st ts rule -> skipn (rhs rule) st <> [] -> (length st < 900)%nat ->
  (forall q, yystack q = st -> yygauge q = g -> yyaction rule q = (x <- m ;; ret (Some x))) ->
  (forall q v g' e', at_ q ((goto_state (znth rule yyr1 0) (top (skipn (rhs rule) st)), v) :: skipn (rhs rule) st) ts g' s ->
     outcome (yyloop n q e') = wanted s (k g' e')) ->
  outcome (yyloop (S n) p e) = wanted s ((g <- m ;; k g) e).
Proof.
  intros A R NE D Act K. rewrite yyloop_step.
  assert (exists q, at_ q st ts g s /\ yysetstate p e = act (Reduce rule) q e) as (q & A' & ->).
  { unfold reduces in R. destruct (Z.eqb_spec (znth (top st) yypact 0) YYPACT_NINF) as [N|N].
    - exists p. split; [exact A|]. now rewrite (turn_default _ _ _ _ _ e A N), R.
    - destruct (turn_token _ _ _ _ _ e A N) as (q & A' & S & E). exists q. split; [exact A'|]. now rewrite E, R. }
  pose proof (Act q (at_stack _ _ _ _ _ A') (at_gauge _ _ _ _ _ A')) as Aq.
  assert (yyaction rule q e = (x <- m ;; ret (Some x)) e) as Ae by (now rewrite Aq).
  unfold bind in *. destruct (m e) as [[g' e']|].
  - rewrite (reduce_turn q st rule g' e (at_stack _ _ _ _ _ A') NE e' Ae).
    assert (length (skipn (rhs rule) st) < 900)%nat as L by (rewrite length_skipn; lia).
    destruct (reduced_at q st ts g s rule g' A' L) as (v & A2). apply (K _ v). exact A2.
  - cbn [act]. unfold yyreduce, bind. rewrite Ae. reflexivity.
Qed.

Lemma run_accept n p st ts g s e : at_ p st ts g s -> znth (top st) yypact 0 <> YYPACT_NINF -> decide (top st) (next_number ts) = Accept -> ts = [] ->
  outcome (yyloop (S n) p e) = wanted s (ret (0, g) e).
Proof.
  intros A N Dec ->. rewrite yyloop_step. destruct (turn_token _ _ _ _ _ e A N) as (q & A' & S & ->). rewrite Dec. cbn [act ret outcome wanted].
  destruct A' as [Q1 Q2 Q3 A' D']. cbn in S. inversion A' as [? ? E _| |E E2]; subst; [rewrite S in E; discriminate E|reflexivity].
Qed.

(** ** The parts of a query *)

Lemma at_known p st t ts g s : at_ p st (t :: ts) g s -> known t.
Proof. intros A. destruct (at_look_ahead _ _ _ _ _ A) as (q & _ & _ & S). apply S. Qed.

Lemma at_number p st ts g s : at_ p st ts g s -> next_number ts = 0 \/ 2 <= next_number ts < 22.
Proof. intros A. destruct (at_look_ahead _ _ _ _ _ A) as (q & _ & _ & S). apply (sees_number _ _ S). Qed.

Lemma at_bottom_nil v : at_bottom [(0, v)].
Proof. now exists [], v. Qed.

Lemma at_bottom_cons x v st : 1 <= x < 38 -> at_bottom st -> at_bottom ((x, v) :: st).
Proof. intros H (pre & u & -> & F). exists ((x, v) :: pre), u. split; [reflexivity|]. now constructor. Qed.

Ltac bottom := repeat (apply at_bottom_cons; [lia|]); first [assumption | apply at_bottom_nil].

(** The number of a symbol that is not [x] is not that of [x]. *)
Lemma sym_number t x : known_token t -> 258 <= x <= 276 -> (tnum (Sym t) =? x - 255) = (t =? x).
Proof. intros K H. cbn. unfold known_token in K. destruct (Z.ltb_spec t 256), (Z.eqb_spec t x); lia. Qed.

Lemma not_word t : known_token t -> (tnum (Sym t) =? 3) = false.
Proof. intros K. change 3 with (258 - 255). rewrite sym_number by (try assumption; lia). unfold known_token in K. apply Z.eqb_neq. lia. Qed.

(** The end of a query: what is left is an error. *)
Lemma run_query n p v v0 ts g s e : at_ p [(3, v); (0, v0)] ts g s ->
  outcome (yyloop (S (S n)) p e) = wanted s ((match ts with [] => ret (0, g) | _ => syntax_error g end) e).
Proof.
  intros A. destruct ts as [|t ts].
  - apply (run_accept _ _ _ _ _ _ _ A); [discriminate|reflexivity|reflexivity].
  - apply (run_error _ _ _ _ _ _ _ A); [bottom|discriminate|].
    pose proof (tnum_range t (at_known _ _ _ _ _ _ A)). cbn [top next_number]. rewrite row_3 by lia. now destruct (Z.eqb_spec (tnum t) 0); [lia|].
Qed.

(** The state after a condition. *)
Definition clause_state (st : list (Z * cstring)) : Z := goto_state 26 (top st).

Definition clause_start (st : list (Z * cstring)) : Prop := (top st = 12 \/ top st = 25 \/ top st = 26) /\ at_bottom st /\ (length st < 800)%nat.

(** A parser by recursive descent for one condition, and what follows it. *)
Definition with_clause (k : list token -> icalgauge_impl -> err (Z * icalgauge_impl)) (ts : list token) (g : icalgauge_impl) : err (Z * icalgauge_impl) :=
  match ts with
  | Word prop :: ts =>
      match condition ts with
      | Some (compare, value, ts) => k ts (ssyacc_add_where prop compare value g)
      | None => syntax_error g
      end
  | _ => k ts g
  end.

Section Clause.
Variables (st : list (Z * cstring)) (s : scanner) (k : list token -> icalgauge_impl -> err (Z * icalgauge_impl)) (bound : nat).
Hypothesis Hst : clause_start st.
Hypothesis Hk : forall n q v ts g e, (length ts <= bound)%nat -> (4 * length ts + 6 <= n)%nat -> at_ q ((clause_state st, v) :: st) ts g s ->
  outcome (yyloop n q e) = wanted s (k ts g e).

Lemma clause_reduce rule (syms : list (Z * cstring)) m n p ts g e :
  at_ p (syms ++ st) ts g s -> (length ts <= bound)%nat -> (4 * length ts + 6 <= n)%nat -> znth rule yyr1 0 = 26 -> rhs rule = length syms -> (length syms < 10)%nat ->
  reduces (syms ++ st) ts rule ->
  (forall q, yystack q = syms ++ st -> yygauge q = g -> yyaction rule q = ret (Some m)) ->
  outcome (yyloop (S n) p e) = wanted s (k ts m e).
Proof.
  intros A Hb Hn R1 R2 L R Act. destruct Hst as (T & B & D).
  assert (st <> []) as NE by (destruct B as ([|? ?] & v & -> & _); discriminate).
  assert (skipn (rhs rule) (syms ++ st) = st) as E by (rewrite R2; now rewrite skipn_app, skipn_all, Nat.sub_diag).
  rewrite (run_reduce n p (syms ++ st) ts g s e rule (ret m) (k ts) A R); [reflexivity| | | |].
  - now rewrite E.
  - rewrite length_app. lia.
  - intros q Q1 Q2. now rewrite (Act q Q1 Q2).
  - intros q v g' e' A'. rewrite E, R1 in A'. now apply (Hk n q v ts g' e' Hb Hn).
Qed.

Lemma row_14_sym t : known_token t -> decide 14 (tnum (Sym t)) =
  match comparison_of t with Some _ => Shift (t - 246) | None => if t =? IS then Shift 24 else Error end.
Proof.
  intros K. pose proof (tnum_range (Sym t) K). rewrite row_14 by lia. unfold comparison_of. cbn [tnum].
  unfold known_token, EQUALS, NOTEQUALS, LESS, GREATER, LESSEQUALS, GREATEREQUALS, IS in *.
  destruct (Z.ltb_spec t 256).
  - repeat (match goal with |- context [t =? ?x] => destruct (Z.eqb_spec t x); [lia|] end). reflexivity.
  - repeat (match goal with |- context [t =? ?x] => destruct (Z.eqb_spec t x); [subst t; reflexivity|] end).
    destruct (Z.leb_spec 9 (t - 255)), (Z.leb_spec (t - 255) 14); cbn [andb]; try lia; destruct (Z.eqb_spec (t - 255) 19); try lia; reflexivity.
Qed.

(** A value behind a comparison. *)
Lemma run_value t c prop x ts g n p e : comparison_of t = Some c ->
  at_ p ((t - 246, x) :: (14, prop) :: st) ts g s -> (length ts <= bound)%nat -> (4 * length ts + 6 <= n)%nat ->
  outcome (yyloop (S (S n)) p e) =
  wanted s ((match ts with Word v :: ts => k ts (ssyacc_add_where prop c v g) | _ => syntax_error g end) e).
Proof.
  intros C A Hb Hn. destruct Hst as (T & B & D).
  assert (264 <= t <= 269) as Ht.
  { unfold comparison_of, EQUALS, NOTEQUALS, LESS, GREATER, LESSEQUALS, GREATEREQUALS in C.
    repeat (match type of C with context [t =? ?y] => destruct (Z.eqb_spec t y); [lia|] end). discriminate. }
  pose proof (at_number _ _ _ _ _ A) as R.
  assert (znth (t - 246) yypact 0 <> YYPACT_NINF) as N.
  { assert (t = 264 \/ t = 265 \/ t = 266 \/ t = 267 \/ t = 268 \/ t = 269) as Cs by lia. destruct Cs as [->|[->|[->|[->|[->| ->]]]]]; discriminate. }
  assert (decide (t - 246) (next_number ts) = if next_number ts =? 3 then Shift (t - 237) else Error) as Dec.
  { rewrite row_value by lia. now replace (t - 246 + 9) with (t - 237) by lia. }
  destruct ts as [|[v|t'] ts].
  - apply (run_error _ _ _ _ _ _ _ A); [bottom|exact N|exact Dec].
  - apply (run_shift _ _ _ _ _ _ _ _ _ (t - 237) A); [exact N|cbn [length]; lia|exact Dec|].
    intros q v' A' W. rewrite (W v eq_refl) in A'. cbn [length] in Hn, Hb.
    assert (t = 264 \/ t = 265 \/ t = 266 \/ t = 267 \/ t = 268 \/ t = 269) as Cs by lia.
    destruct Cs as [->|[->|[->|[->|[->| ->]]]]]; injection C as <-;
      [eapply (clause_reduce 10 [(_, _); (_, _); (_, _)]) | eapply (clause_reduce 13 [(_, _); (_, _); (_, _)])
       | eapply (clause_reduce 14 [(_, _); (_, _); (_, _)]) | eapply (clause_reduce 15 [(_, _); (_, _); (_, _)])
       | eapply (clause_reduce 16 [(_, _); (_, _); (_, _)]) | eapply (clause_reduce 17 [(_, _); (_, _); (_, _)])];
      try exact A'; try lia; try reflexivity; try (cbn; lia);
      intros q' Q1 Q2; unfold yyaction, symbol; rewrite Q1, Q2; reflexivity.
  - apply (run_error _ _ _ _ _ _ _ A); [bottom|exact N|]. cbn [next_number] in *. cbn [top]. rewrite Dec.
    now rewrite (not_word t' (at_known _ _ _ _ _ _ A)).
Qed.

(** IS NULL and IS NOT NULL. *)
Lemma run_is prop x ts g n p e : at_ p ((24, x) :: (14, prop) :: st) ts g s -> (length ts <= bound)%nat -> (4 * length ts + 6 <= n)%nat ->
  outcome (yyloop (S (S n)) p e) = wanted s ((match condition (Sym IS :: ts) with
    | Some (c, v, ts) => k ts (ssyacc_add_where prop c v g) | None => syntax_error g end) e).
Proof.
  intros A Hb Hn. destruct Hst as (T & B & D). pose proof (at_number _ _ _ _ _ A) as R.
  pose proof (row_24 _ R) as Dec.
  destruct ts as [|[v|t] ts]; [apply (run_error _ _ _ _ _ _ _ A); [bottom|discriminate|exact Dec] ..|].
  pose proof (at_known _ _ _ _ _ _ A) as K. cbn [next_number] in Dec.
  change 20 with (NOT - 255) in Dec. change 21 with (SQLNULL - 255) in Dec.
  rewrite !sym_number in Dec by (try exact K; unfold NOT, SQLNULL; lia).
  cbn [condition]. change (IS =? IS) with true. cbn [andb]. cbn [length] in Hn, Hb.
  destruct (Z.eqb_spec t SQLNULL) as [->|Hnull].
  - apply (run_shift _ _ _ _ _ _ _ _ _ 34 A); [discriminate|cbn [length]; lia|exact Dec|]. intros q u A' _.
    eapply (clause_reduce 11 [(_, _); (_, _); (_, _)]); try exact A'; try lia; try reflexivity; try (cbn; lia).
    intros q' Q1 Q2. unfold yyaction, symbol. rewrite Q1, Q2. reflexivity.
  - destruct (Z.eqb_spec t NOT) as [->|Hnot].
    2:{ rewrite (run_error _ _ _ _ _ _ _ A); [|bottom|discriminate|exact Dec]. now destruct ts as [|[]]. }
    apply (run_shift _ _ _ _ _ _ _ _ _ 33 A); [discriminate|cbn [length]; lia|exact Dec|]. intros q u A' _.
    pose proof (at_number _ _ _ _ _ A') as R'. pose proof (row_33 _ R') as Dec'.
    destruct n as [|n]; [lia|].
    destruct ts as [|[v|t] ts]; [apply (run_error _ _ _ _ _ _ _ A'); [bottom|discriminate|exact Dec'] ..|].
    pose proof (at_known _ _ _ _ _ _ A') as K'. cbn [next_number] in Dec'. change 21 with (SQLNULL - 255) in Dec'.
    rewrite sym_number in Dec' by (try exact K'; unfold SQLNULL; lia). cbn [andb]. cbn [length] in Hn, Hb.
    destruct (Z.eqb_spec t SQLNULL) as [->|Hnull']; [|apply (run_error _ _ _ _ _ _ _ A'); [bottom|discriminate|exact Dec']].
    apply (run_shift _ _ _ _ _ _ _ _ _ 37 A'); [discriminate|cbn [length]; lia|exact Dec'|]. intros q2 u2 A2 _.
    destruct n as [|n]; [lia|].
    eapply (clause_reduce 12 [(_, _); (_, _); (_, _); (_, _)]); try exact A2; try lia; try reflexivity; try (cbn; lia).
    intros q' Q1 Q2. unfold yyaction, symbol. rewrite Q1, Q2. reflexivity.
Qed.

Lemma run_where_clause ts g n p e : at_ p st ts g s -> (length ts <= bound)%nat -> (4 * length ts + 7 <= n)%nat ->
  outcome (yyloop n p e) = wanted s (with_clause k ts g e).
Proof.
  intros A Hb Hn. destruct Hst as (T & B & D). pose proof (at_number _ _ _ _ _ A) as R.
  assert (znth (top st) yypact 0 <> YYPACT_NINF) as N by (destruct T as [->|[->| ->]]; discriminate).
  pose proof (row_clause _ R _ T) as Dec. destruct n as [|n]; [lia|].
  assert (next_number ts <> 3 -> outcome (yyloop (S n) p e) = wanted s (k ts g e)) as Empty.
  { intros H3. apply Z.eqb_neq in H3. rewrite H3 in Dec.
    apply (clause_reduce 9 [] g n p ts g e A); try lia; try reflexivity; try (cbn; lia).
    - unfold reduces. cbn [app]. apply Z.eqb_neq in N. now rewrite N.
    - intros q _ Q2. cbn. now rewrite Q2. }
  destruct ts as [|[prop|t] ts]; [now apply Empty| |].
  - apply (run_shift _ _ _ _ _ _ _ _ _ 14 A); [exact N|lia|exact Dec|]. intros q v A1 W. rewrite (W prop eq_refl) in A1. clear Empty Dec R.
    cbn [with_clause length] in *. pose proof (at_number _ _ _ _ _ A1) as R. do 3 (destruct n as [|n]; [lia|]).
    destruct ts as [|[v'|t] ts]; [apply (run_error _ _ _ _ _ _ _ A1); [bottom|discriminate|apply (row_14 _ R)] ..|].
    pose proof (at_known _ _ _ _ _ _ A1) as K. pose proof (row_14_sym t K) as Dec. cbn [length] in Hn, Hb.
    destruct (comparison_of t) as [c|] eqn:C.
    + apply (run_shift _ _ _ _ _ _ _ _ _ (t - 246) A1); [discriminate|cbn [length]; lia|exact Dec|]. intros q2 v2 A2 _.
      rewrite (run_value t c prop v2 ts g n q2 e C A2) by lia. f_equal.
      assert (t <> IS) as NI by (intros ->; discriminate C). apply Z.eqb_neq in NI.
      destruct ts as [|[v3|t3] ts]; [reflexivity|cbn [condition]; now rewrite C|]. cbn [condition]. rewrite NI. cbn [andb]. now destruct ts as [|[]].
    + destruct (Z.eqb_spec t IS) as [->|NI].
      * apply (run_shift _ _ _ _ _ _ _ _ _ 24 A1); [discriminate|cbn [length]; lia|exact Dec|]. intros q2 v2 A2 _.
        apply (run_is prop v2 ts g n q2 e A2); lia.
      * rewrite (run_error _ _ _ _ _ _ _ A1); [|bottom|discriminate|exact Dec]. f_equal.
        destruct ts as [|[v3|t3] ts]; [reflexivity|cbn [condition]; now rewrite C|]. cbn [condition]. apply Z.eqb_neq in NI. rewrite NI. cbn [andb].
        now destruct ts as [|[]].
  - apply Empty. pose proof (at_known _ _ _ _ _ _ A) as K. cbn in K |- *. unfold known_token in K. destruct (Z.ltb_spec t 256); lia.
Qed.
End Clause.

(** ** Lists of conditions *)

Definition behind_where (st : list (Z * cstring)) : Prop :=
  exists v12 v10 v7 v5 v2 v0, st = [(12, v12); (10, v10); (7, v7); (5, v5); (2, v2); (0, v0)].

(** What follows a condition. *)
Definition after_clause (fuel : nat) (l : icalgaugelogic) (ts : list token) (g : icalgauge_impl) : err (Z * icalgauge_impl) :=
  g <- set_logic l g ;;
  match ts with
  | [] => ret (0, g)
  | Sym t :: ts => if t =? AND then where_list fuel ICALGAUGELOGIC_AND ts g
                   else if t =? OR then where_list fuel ICALGAUGELOGIC_OR ts g else syntax_error g
  | _ => syntax_error g
  end.

Lemma where_list_step fuel l ts g : where_list (S fuel) l ts g = with_clause (after_clause fuel l) ts g.
Proof. destruct ts as [|[w|t] ts]; reflexivity. Qed.

Inductive list_start (base : list (Z * cstring)) : icalgaugelogic -> list (Z * cstring) -> Prop :=
| start_none : list_start base ICALGAUGELOGIC_NONE base
| start_and v w : list_start base ICALGAUGELOGIC_AND ((25, v) :: (16, w) :: base)
| start_or v w : list_start base ICALGAUGELOGIC_OR ((26, v) :: (16, w) :: base).

(** The rule for the condition behind a [where_list]. *)
Definition list_rule (l : icalgaugelogic) : Z := match l with ICALGAUGELOGIC_NONE => 18 | ICALGAUGELOGIC_AND => 19 | ICALGAUGELOGIC_OR => 20 end.

Lemma behind_where_bottom base : behind_where base -> at_bottom base /\ top base = 12 /\ length base = 6%nat.
Proof. intros (v12 & v10 & v7 & v5 & v2 & v0 & ->). split; [bottom|now split]. Qed.

Lemma list_start_clause base l st : behind_where base -> list_start base l st -> clause_start st.
Proof.
  intros B L. destruct (behind_where_bottom _ B) as (B' & T & Len). unfold clause_start.
  destruct L; (split; [cbn; auto|split; [bottom|cbn [length]; lia]]).
Qed.

(** Behind a list of conditions. *)
Lemma run_list_end base s fuel ts g n p e v : behind_where base ->
  (forall l st ts' n p e, list_start base l st -> at_ p st ts' g s -> (length ts' < length ts)%nat -> (4 * length ts' + 8 <= n)%nat ->
     outcome (yyloop n p e) = wanted s (where_list fuel l ts' g e)) ->
  at_ p ((16, v) :: base) ts g s -> (4 * length ts + 5 <= n)%nat ->
  outcome (yyloop n p e) = wanted s ((match ts with
    | [] => ret (0, g)
    | Sym t :: ts => if t =? AND then where_list fuel ICALGAUGELOGIC_AND ts g
                     else if t =? OR then where_list fuel ICALGAUGELOGIC_OR ts g else syntax_error g
    | _ => syntax_error g
    end) e).
Proof.
  intros B IH A Hn. destruct (behind_where_bottom _ B) as (B' & T & Len). pose proof (at_number _ _ _ _ _ A) as R.
  pose proof (row_16 _ R) as Dec. destruct n as [|n]; [lia|].
  assert (reduces ((16, v) :: base) ts 2 -> outcome (yyloop (S n) p e) = wanted s ((match ts with [] => ret (0, g) | _ => syntax_error g end) e)) as End.
  { intros Rd. destruct B as (v12 & v10 & v7 & v5 & v2 & v0 & ->).
    rewrite (run_reduce n p _ ts g s e 2 (ret g) (fun g => match ts with [] => ret (0, g) | _ => syntax_error g end) A Rd); [reflexivity|discriminate|cbn; lia| |].
    - intros q _ Q2. cbn. now rewrite Q2.
    - intros q u g' e' A'. do 2 (destruct n as [|n]; [lia|]). exact (run_query n q u v0 ts g' s e' A'). }
  destruct ts as [|[w|t] ts]; [apply End; exact Dec|apply End; exact Dec|].
  pose proof (at_known _ _ _ _ _ _ A) as K. cbn [next_number] in Dec. change (tnum (Sym t) =? 15) with (tnum (Sym t) =? AND - 255) in Dec. change (tnum (Sym t) =? 16) with (tnum (Sym t) =? OR - 255) in Dec.
  rewrite !sym_number in Dec by (try exact K; unfold AND, OR; lia). cbn [length] in Hn.
  destruct (Z.eqb_spec t AND) as [->|NA].
  - apply (run_shift _ _ _ _ _ _ _ _ _ 25 A); [discriminate|cbn [length]; lia|exact Dec|]. intros q u A' _.
    apply (IH _ _ _ _ _ _ (start_and base u v) A'); cbn [length]; lia.
  - destruct (Z.eqb_spec t OR) as [->|NO]; [|apply End; exact Dec].
    apply (run_shift _ _ _ _ _ _ _ _ _ 26 A); [discriminate|cbn [length]; lia|exact Dec|]. intros q u A' _.
    apply (IH _ _ _ _ _ _ (start_or base u v) A'); cbn [length]; lia.
Qed.

Lemma run_where_list base s : behind_where base ->
  forall fuel l st ts g n p e, list_start base l st -> at_ p st ts g s -> (length ts < fuel)%nat -> (4 * length ts + 8 <= n)%nat ->
  outcome (yyloop n p e) = wanted s (where_list fuel l ts g e).
Proof.
  intros B. destruct (behind_where_bottom _ B) as (B' & T & Len).
  assert (base <> []) as NE by (intros ->; discriminate).
  induction fuel as [|fuel IH]; [lia|]. intros l st ts g n p e L A Hf Hn. rewrite where_list_step.
  assert (st <> [] /\ skipn (rhs (list_rule l)) ((clause_state st, []) :: st) = base /\ clause_state st = match l with ICALGAUGELOGIC_NONE => 15 | ICALGAUGELOGIC_AND => 35 | ICALGAUGELOGIC_OR => 36 end)
    as (NE' & Pop & CS).
  { unfold clause_state. destruct L; (split; [first [assumption|discriminate]|split; [reflexivity|]]); [rewrite T|..]; reflexivity. }
  refine (run_where_clause st s (after_clause fuel l) (length ts) (list_start_clause _ _ _ B L) _ ts g n p e A _ _); [|lia|lia].
  intros n' q v ts' g' e' Hb Hn' A'. unfold after_clause. destruct n' as [|n']; [lia|].
  assert (skipn (rhs (list_rule l)) ((clause_state st, v) :: st) = base) as Pop' by (destruct l; exact Pop).
  apply (run_reduce n' q ((clause_state st, v) :: st) ts' g' s e' (list_rule l) _ _ A').
  - unfold reduces. cbn [top]. rewrite CS. now destruct l.
  - now rewrite Pop'.
  - cbn [length]. destruct (list_start_clause _ _ _ B L) as (_ & _ & D). lia.
  - intros q' _ Q2. destruct l; cbn; now rewrite Q2.
  - rewrite Pop'. intros q2 v2 g2 e2 A2. assert (goto_state (znth (list_rule l) yyr1 0) (top base) = 16) as G by (rewrite T; now destruct l).
    rewrite G in A2. apply (run_list_end base s fuel ts' g2 n' q2 e2 v2 B); [|exact A2|lia].
    intros l' st' ts2 n2 p2 e3 L2 A3 H3 H4. apply (IH l' st' ts2 g2 n2 p2 e3 L2 A3); lia.
Qed.

(** ** Lists of components and properties *)

Lemma run_from s : forall m ts, (length ts <= m)%nat -> forall g n p e v10 v7 v5 v2 v0,
  at_ p [(10, v10); (7, v7); (5, v5); (2, v2); (0, v0)] ts g s -> (4 * length ts + 9 <= n)%nat ->
  outcome (yyloop n p e) = wanted s (from_rest ts g e).
Proof.
  induction m as [|m IH]; intros ts Hm g n p e v10 v7 v5 v2 v0 A Hn; pose proof (at_number _ _ _ _ _ A) as R; pose proof (row_10 _ R) as Dec;
    (destruct n as [|n]; [lia|]).
  all: assert (reduces [(10, v10); (7, v7); (5, v5); (2, v2); (0, v0)] ts 3 ->
               outcome (yyloop (S n) p e) = wanted s ((match ts with [] => ret (0, g) | _ => syntax_error g end) e)) as End.
  1,3: intros Rd;
    rewrite (run_reduce n p _ ts g s e 3 (ret g) (fun g => match ts with [] => ret (0, g) | _ => syntax_error g end) A Rd); [reflexivity|discriminate|cbn; lia| |];
    [intros q _ Q2; cbn; now rewrite Q2 | intros q u g' e' A'; do 2 (destruct n as [|n]; [lia|]); exact (run_query n q u v0 ts g' s e' A')].
  - destruct ts as [|t ts]; [|cbn in Hm; lia]. apply End. exact Dec.
  - destruct ts as [|[w|t] ts]; [apply End; exact Dec|apply End; exact Dec|]. cbn [length] in Hm, Hn.
    pose proof (at_known _ _ _ _ _ _ A) as K. cbn [next_number] in Dec.
    change (tnum (Sym t) =? 6) with (tnum (Sym t) =? WHERE - 255) in Dec. change (tnum (Sym t) =? 7) with (tnum (Sym t) =? COMMA - 255) in Dec.
    rewrite !sym_number in Dec by (try exact K; unfold WHERE, COMMA; lia). cbn [from_rest].
    destruct (Z.eqb_spec t WHERE) as [->|NW].
    { apply (run_shift _ _ _ _ _ _ _ _ _ 12 A); [discriminate|cbn [length]; lia|exact Dec|]. intros q u A' _.
      refine (run_where_list _ s _ (S (length ts)) ICALGAUGELOGIC_NONE _ ts g n q e (start_none _) A' _ _); [do 6 eexists; reflexivity|lia|lia]. }
    destruct (Z.eqb_spec t COMMA) as [->|NC]; [|apply End; exact Dec].
    apply (run_shift _ _ _ _ _ _ _ _ _ 13 A); [discriminate|cbn [length]; lia|exact Dec|]. intros q u A' _. do 2 (destruct n as [|n]; [lia|]).
    pose proof (row_13 _ (at_number _ _ _ _ _ A')) as Dec'.
    destruct ts as [|[w|t] ts]; [apply (run_error _ _ _ _ _ _ _ A'); [bottom|discriminate|exact Dec']| |].
    2:{ apply (run_error _ _ _ _ _ _ _ A'); [bottom|discriminate|]. cbn [top]. rewrite Dec'. cbn [next_number].
        now rewrite (not_word t (at_known _ _ _ _ _ _ A')). }
    apply (run_shift _ _ _ _ _ _ _ _ _ 17 A'); [discriminate|cbn [length]; lia|exact Dec'|]. intros q2 u2 A2 W. rewrite (W w eq_refl) in A2.
    apply (run_reduce n q2 _ ts g s e 8 (ssyacc_add_from w g) (from_rest ts) A2); [reflexivity|discriminate|cbn; lia| |].
    + intros q3 Q1 Q2. unfold yyaction, symbol. rewrite Q1, Q2. reflexivity.
    + intros q3 u3 g3 e3 A3. cbn [length] in Hm, Hn. exact (IH ts ltac:(lia) g3 n q3 e3 u3 v7 v5 v2 v0 A3 ltac:(lia)).
Qed.

Lemma run_select s : forall m ts, (length ts <= m)%nat -> forall g n p e v5 v2 v0,
  at_ p [(5, v5); (2, v2); (0, v0)] ts g s -> (4 * length ts + 10 <= n)%nat ->
  outcome (yyloop n p e) = wanted s (select_rest ts g e).
Proof.
  induction m as [|m IH]; intros ts Hm g n p e v5 v2 v0 A Hn; pose proof (at_number _ _ _ _ _ A) as R; pose proof (row_5 _ R) as Dec;
    do 3 (destruct n as [|n]; [lia|]).
  - destruct ts as [|t ts]; [|cbn in Hm; lia]. apply (run_error _ _ _ _ _ _ _ A); [bottom|discriminate|exact Dec].
  - destruct ts as [|[w|t] ts]; [apply (run_error _ _ _ _ _ _ _ A); [bottom|discriminate|exact Dec] ..|]. cbn [length] in Hm, Hn.
    pose proof (at_known _ _ _ _ _ _ A) as K. cbn [next_number] in Dec.
    change (tnum (Sym t) =? 5) with (tnum (Sym t) =? FROM - 255) in Dec. change (tnum (Sym t) =? 7) with (tnum (Sym t) =? COMMA - 255) in Dec.
    rewrite !sym_number in Dec by (try exact K; unfold FROM, COMMA; lia). cbn [select_rest].
    destruct (Z.eqb_spec t FROM) as [->|NF]; [|destruct (Z.eqb_spec t COMMA) as [->|NC]; [|apply (run_error _ _ _ _ _ _ _ A); [bottom|discriminate|exact Dec]]].
    + apply (run_shift _ _ _ _ _ _ _ _ _ 7 A); [discriminate|cbn [length]; lia|exact Dec|]. intros q u A' _.
      pose proof (row_7 _ (at_number _ _ _ _ _ A')) as Dec'.
      destruct ts as [|[w|t] ts]; [apply (run_error _ _ _ _ _ _ _ A'); [bottom|discriminate|exact Dec']| |
        apply (run_error _ _ _ _ _ _ _ A'); [bottom|discriminate|cbn [top]; rewrite Dec'; cbn [next_number]; now rewrite (not_word t (at_known _ _ _ _ _ _ A'))]].
      apply (run_shift _ _ _ _ _ _ _ _ _ 9 A'); [discriminate|cbn [length]; lia|exact Dec'|]. intros q2 u2 A2 W. rewrite (W w eq_refl) in A2.
      apply (run_reduce n q2 _ ts g s e 7 (ssyacc_add_from w g) (from_rest ts) A2); [reflexivity|discriminate|cbn; lia| |].
      * intros q3 Q1 Q2. unfold yyaction, symbol. rewrite Q1, Q2. reflexivity.
      * intros q3 u3 g3 e3 A3. cbn [length] in Hm, Hn. exact (run_from s (length ts) ts (le_n _) g3 n q3 e3 u3 u v5 v2 v0 A3 ltac:(lia)).
    + apply (run_shift _ _ _ _ _ _ _ _ _ 8 A); [discriminate|cbn [length]; lia|exact Dec|]. intros q u A' _.
      pose proof (row_8 _ (at_number _ _ _ _ _ A')) as Dec'.
      destruct ts as [|[w|t] ts]; [apply (run_error _ _ _ _ _ _ _ A'); [bottom|discriminate|exact Dec']| |
        apply (run_error _ _ _ _ _ _ _ A'); [bottom|discriminate|cbn [top]; rewrite Dec'; cbn [next_number]; now rewrite (not_word t (at_known _ _ _ _ _ _ A'))]].
      apply (run_shift _ _ _ _ _ _ _ _ _ 11 A'); [discriminate|cbn [length]; lia|exact Dec'|]. intros q2 u2 A2 W. rewrite (W w eq_refl) in A2.
      apply (run_reduce n q2 _ ts g s e 6 (ssyacc_add_select w g) (select_rest ts) A2); [reflexivity|discriminate|cbn; lia| |].
      * intros q3 Q1 Q2. unfold yyaction, symbol. rewrite Q1, Q2. reflexivity.
      * intros q3 u3 g3 e3 A3. cbn [length] in Hm, Hn. exact (IH ts ltac:(lia) g3 n q3 e3 u3 v2 v0 A3 ltac:(lia)).
Qed.

Lemma run_parse s s' ts lval g e n : lexes s ts s' -> (4 * length ts + 16 <= n)%nat ->
  outcome (yyloop n (yystart s lval g) e) = wanted s' (parse_query ts g e).
Proof.
  intros L Hn. assert (at_ (yystart s lval g) [(0, [])] ts g s') as A by (constructor; [reflexivity..|now constructor 1|cbn; lia]).
  pose proof (row_0 _ (at_number _ _ _ _ _ A)) as Dec. do 3 (destruct n as [|n]; [lia|]).
  destruct ts as [|[w|t] ts]; [apply (run_error _ _ _ _ _ _ _ A); [bottom|discriminate|exact Dec] ..|].
  pose proof (at_known _ _ _ _ _ _ A) as K. cbn [next_number] in Dec. change (tnum (Sym t) =? 4) with (tnum (Sym t) =? SELECT - 255) in Dec.
  rewrite sym_number in Dec by (try exact K; unfold SELECT; lia). cbn [length] in Hn.
  destruct (Z.eqb_spec t SELECT) as [->|NS].
  2:{ rewrite (run_error _ _ _ _ _ _ _ A); [|bottom|discriminate|exact Dec]. destruct ts as [|[w|t'] ts]; cbn [parse_query]; try reflexivity.
      apply Z.eqb_neq in NS. now rewrite NS. }
  apply (run_shift _ _ _ _ _ _ _ _ _ 2 A); [discriminate|cbn [length]; lia|exact Dec|]. intros q u A' _.
  pose proof (row_2 _ (at_number _ _ _ _ _ A')) as Dec'.
  destruct ts as [|[w|t] ts]; [apply (run_error _ _ _ _ _ _ _ A'); [bottom|discriminate|exact Dec']| |
    apply (run_error _ _ _ _ _ _ _ A'); [bottom|discriminate|cbn [top]; rewrite Dec'; cbn [next_number]; now rewrite (not_word t (at_known _ _ _ _ _ _ A'))]].
  apply (run_shift _ _ _ _ _ _ _ _ _ 4 A'); [discriminate|cbn [length]; lia|exact Dec'|]. intros q2 u2 A2 W. rewrite (W w eq_refl) in A2.
  cbn [parse_query]. change (SELECT =? SELECT) with true. cbv iota.
  apply (run_reduce n q2 _ ts g s' e 5 (ssyacc_add_select w g) (select_rest ts) A2); [reflexivity|discriminate|cbn; lia| |].
  - intros q3 Q1 Q2. unfold yyaction, symbol. rewrite Q1, Q2. reflexivity.
  - intros q3 u3 g3 e3 A3. cbn [length] in Hn. exact (run_select s' (length ts) ts (le_n _) g3 n q3 e3 u3 u [] A3 ltac:(lia)).
Qed.
End Grammar.

(** ** The scanner returns on every text, and reads what is written

    The automaton of icalsslexer.c has an action for every text: every scanner
    whose text is shorter than the longest token returns a sequence of tokens and
    then the end.  With the equivalence of the parser and the grammar, a query is
    always read or refused.  Tokens that are written with blanks between them are
    read back. *)

(** *** The automaton *)

(** The states a run goes through, other than the first. *)
Definition inner_state (s : Z) : bool := (2 <=? s) && (s <=? 54) && negb (znth s yy_base 0 =? 107) && negb (s =? 7).

(** The actions of rules. *)
Definition rule_action (a : Z) : bool := (1 <=? a) && (a <=? 22).

Definition ends (s : Z) : bool := znth s yy_base 0 =? 107.

(** The characters of a text. *)
Definition text_chars : list ascii := map (fun k => ascii_of_nat k) (seq 1 255).

Lemma in_text_chars c : c <> NUL -> In c text_chars.
Proof.
  intros N. unfold text_chars. apply in_map_iff. exists (nat_of_ascii c). split; [apply ascii_nat_embedding|]. apply in_seq.
  pose proof (nat_ascii_bounded c). enough (nat_of_ascii c <> 0%nat) by lia. intros E. apply N. rewrite <- (ascii_nat_embedding c), E. reflexivity.
Qed.

(** The first character always leads to an accepting state. *)
Definition first_ok (c : ascii) : bool :=
  match yy_next 1 c with
  | Some s => rule_action (znth s yy_accept 0) && (ends s || inner_state s)
  | None => false
  end.

(** Any further one to an accepting state, to one inside of a quotation or to
    the state without an action. *)
Definition next_ok (s : Z) (c : ascii) : bool :=
  match yy_next s c with
  | Some s' => ((s' =? 55) || (s' =? 28) || rule_action (znth s' yy_accept 0)) && (ends s' || inner_state s')
  | None => false
  end.

Lemma first_transition c : c <> NUL -> first_ok c = true.
Proof.
  intros N.
  assert (forallb first_ok text_chars = true) as H by (vm_compute; reflexivity).
  rewrite forallb_forall in H. apply H, in_text_chars, N.
Qed.

Lemma inner_transition s c : inner_state s = true -> c <> NUL -> next_ok s c = true.
Proof.
  assert (forallb (fun k => let s := Z.of_nat k in negb (inner_state s) || forallb (next_ok s) text_chars) (seq 0 55) = true) as H by (vm_compute; reflexivity).
  intros I N. assert (negb (inner_state s) || forallb (next_ok s) text_chars = true) as B.
  { apply (forallb_seq_Z (fun s => negb (inner_state s) || forallb (next_ok s) text_chars) 55 H). unfold inner_state in I. bools. lia. }
  rewrite I in B. cbn [negb orb] in B. rewrite forallb_forall in B. apply B, in_text_chars, N.
Qed.

(** *** Runs of the automaton *)

Definition a_text (s : cstring) : Prop := Forall (fun c => c <> NUL) s.

(** A match of at least one character. *)
Definition matched (r : option (Z * nat)) (len : nat) : Prop :=
  exists a n, r = Some (a, n) /\ rule_action a = true /\ (1 <= n <= len)%nat.

(** The last accepting state is one of a rule. *)
Definition last_ok (last : option (Z * nat)) (len : nat) : Prop :=
  match last with Some (s, n) => rule_action (znth s yy_accept 0) = true /\ (1 <= n <= len)%nat | None => False end.

Lemma rule_accepts s : rule_action (znth s yy_accept 0) = true -> accepts s = true.
Proof. unfold rule_action, accepts, truthy. intros H. bools. apply negb_true_iff, Z.eqb_neq. lia. Qed.

Lemma find_action_matched s n last len : (1 <= n <= len)%nat -> rule_action (znth s yy_accept 0) = true \/ (accepts s = false /\ last_ok last len) ->
  matched (yy_find_action s n last) len.
Proof.
  intros Hn [R|[E L]]; unfold yy_find_action.
  - rewrite (rule_accepts _ R). now exists (znth s yy_accept 0), n.
  - rewrite E. destruct last as [[s' n']|]; [|contradiction]. destruct L as [R L]. now exists (znth s' yy_accept 0), n'.
Qed.

(** A run from inside of a token. *)
Lemma inner_run buf : a_text buf -> forall s n last len, inner_state s = true -> (1 <= n)%nat -> (n + length buf <= len)%nat ->
  rule_action (znth s yy_accept 0) = true \/ (accepts s = false /\ last_ok last len) ->
  exists s' n' last', (yy_match buf s n last = Some (Ended s' n' last') \/ yy_match buf s n last = Some (EndOfBuffer s' n' last')) /\
    (1 <= n' <= len)%nat /\ (rule_action (znth s' yy_accept 0) = true \/ (accepts s' = false /\ last_ok last' len)).
Proof.
  induction 1 as [|c buf Hc _ IH]; intros s n last len I Hn Hl R; cbn [length] in Hl.
  - exists s, n, last. cbn [yy_match]. repeat split; auto; lia.
  - cbn [yy_match]. pose proof (inner_transition s c I Hc) as T. unfold next_ok in T. destruct (yy_next s c) as [s'|]; [|discriminate].
    apply andb_prop in T. destruct T as [T1 T2].
    assert (last_ok (remember s n last) len) as L'.
    { unfold remember. destruct R as [R|[E L]]; [rewrite (rule_accepts _ R); cbn; split; [exact R|lia]|now rewrite E]. }
    assert (rule_action (znth s' yy_accept 0) = true \/ (accepts s' = false /\ last_ok (remember s n last) len)) as R'.
    { rewrite !orb_true_iff, !Z.eqb_eq in T1. destruct T1 as [[->| ->]|T1]; [right; now split..|now left]. }
    destruct (znth s' yy_base 0 =? 107) eqn:E.
    + exists s', (S n), (remember s n last). repeat split; auto; lia.
    + apply (IH s' (S n) (remember s n last) len); auto; try lia. unfold ends in T2. rewrite E in T2. exact T2.
Qed.

(** The whole run: a match of a rule, at the end of the buffer or before it. *)
Lemma whole_run c buf : a_text (c :: buf) -> exists s n last,
  (yy_match (c :: buf) 1 0 None = Some (Ended s n last) \/ yy_match (c :: buf) 1 0 None = Some (EndOfBuffer s n last)) /\
  matched (yy_find_action s n last) (length (c :: buf)).
Proof.
  intros T. inversion T as [|? ? Hc Hb]; subst. cbn [yy_match]. pose proof (first_transition c Hc) as F. unfold first_ok in F.
  destruct (yy_next 1 c) as [s|]; [|discriminate]. apply andb_prop in F. destruct F as [F1 F2].
  change (remember 1 0 None) with (@None (Z * nat)).
  destruct (znth s yy_base 0 =? 107) eqn:E.
  - exists s, 1%nat, None. split; [now left|]. apply find_action_matched; [cbn [length]; lia|now left].
  - unfold ends in F2. rewrite E in F2. cbn [orb] in F2.
    destruct (inner_run buf Hb s 1 None (length (c :: buf)) F2 ltac:(lia) ltac:(cbn [length]; lia) (or_introl F1)) as (s' & n' & last' & M & Hn & R).
    exists s', n', last'. split; [exact M|]. now apply find_action_matched.
Qed.

(** *** The scanner *)

(** The text of a scanner, which is shorter than the longest token. *)
Definition text_size (s : scanner) : nat := length (yy_ch_buf s) + length (input_buffer_p s).

Record ready (s : scanner) : Prop := Ready {
  ready_buf : a_text (yy_ch_buf s);
  ready_input : a_text (input_buffer_p s);
  ready_room : YY_BUF_SIZE <= yy_buf_size s;
  ready_size : Z.of_nat (text_size s) < YYLMAX
}.

Lemma next_buffer s : ready s -> yy_get_next_buffer s =
  match eof_pending s, input_buffer_p s with
  | false, (_ :: _) as i => (EOB_ACT_CONTINUE_SCAN, Scanner (yy_ch_buf s ++ i) (yy_buf_size s) false [])
  | p, i => match yy_ch_buf s with
            | [] => (EOB_ACT_END_OF_FILE, Scanner [] (yy_buf_size s) false i)
            | _ => (EOB_ACT_LAST_MATCH, Scanner (yy_ch_buf s) (yy_buf_size s) true i)
            end
  end.
Proof.
  intros [_ _ R Z']. unfold text_size, YYLMAX, YY_BUF_SIZE in *. unfold yy_get_next_buffer. destruct (eof_pending s).
  - now destruct (yy_ch_buf s).
  - unfold room. assert (yy_buf_size s - Z.of_nat (length (yy_ch_buf s)) - 1 =? 0 = false) as -> by (apply Z.eqb_neq; lia).
    unfold icalss_input, YY_READ_BUF_SIZE.
    replace (Z.min (Z.min (yy_buf_size s - Z.of_nat (length (yy_ch_buf s)) - 1) 8192) (Z.of_nat (length (input_buffer_p s)))) with (Z.of_nat (length (input_buffer_p s))) by lia.
    rewrite Nat2Z.id, firstn_all, skipn_all. now destruct (input_buffer_p s), (yy_ch_buf s).
Qed.

(** What a turn of the scanner makes of its text: it takes [n] characters. *)
Definition shorter (n : nat) (s s' : scanner) : Prop :=
  ready s' /\ (n + text_size s' <= text_size s)%nat /\ (length (input_buffer_p s') <= length (input_buffer_p s))%nat.

Lemma a_text_skipn n s : a_text s -> a_text (skipn n s).
Proof. intros H. revert n. induction H as [|c s Hc H IH]; intros [|n]; cbn; auto; now constructor. Qed.

Lemma a_text_app a b : a_text a -> a_text b -> a_text (a ++ b).
Proof. intros. apply Forall_app. now split. Qed.

Lemma rest_shorter n s : ready s -> (n <= length (yy_ch_buf s))%nat ->
  shorter n s (Scanner (skipn n (yy_ch_buf s)) (yy_buf_size s) (eof_pending s) (input_buffer_p s)).
Proof.
  intros [B I R Z'] H. split; [constructor; cbn|split]; auto using a_text_skipn; unfold text_size in *; cbn; rewrite ?length_skipn; lia.
Qed.

Lemma peek_shorter n s c s' : ready s -> (1 <= n <= length (yy_ch_buf s))%nat ->
  peek (firstn n (yy_ch_buf s)) (skipn n (yy_ch_buf s)) s = (c, s') -> shorter n s s'.
Proof.
  intros Rd H. unfold peek. destruct (rest_shorter n s Rd ltac:(lia)) as [R1 R2]. pose proof (firstn_length_le (yy_ch_buf s) (proj2 H)) as FL.
  destruct (skipn n (yy_ch_buf s)) as [|x rest] eqn:E.
  2:{ intros [= <- <-]. split; [exact R1|exact R2]. }
  assert (firstn n (yy_ch_buf s) = yy_ch_buf s) as F by (rewrite <- (firstn_skipn n (yy_ch_buf s)) at 2; now rewrite E, app_nil_r).
  rewrite F. replace (Scanner (yy_ch_buf s) (yy_buf_size s) (eof_pending s) (input_buffer_p s)) with s by (now destruct s).
  rewrite (next_buffer s Rd). destruct Rd as [B I R Z'].
  destruct (eof_pending s), (input_buffer_p s) as [|i input] eqn:EI, (yy_ch_buf s) as [|b buf] eqn:EB; cbn [length] in H; try lia;
    intros [= <- <-]; unfold ssrestart; cbn [yy_buf_size input_buffer_p yy_ch_buf];
    (split; [constructor; cbn [yy_ch_buf yy_buf_size input_buffer_p]; try assumption; try constructor|split]);
    unfold text_size in *; cbn [yy_ch_buf input_buffer_p] in *; rewrite ?EB, ?EI in *; cbn [length] in *; try lia;
    rewrite ?skipn_app, ?skipn_all, ?Nat.sub_diag, ?skipn_O; cbn [app length]; try lia; try assumption.
Qed.

Definition good_token (t : Z) (v : option cstring) : Prop := match v with Some _ => t = STRING | None => t <= YYEOF \/ known_token t end.

Definition good_turn (r : option (Z * option cstring)) : Prop := match r with Some (t, v) => good_token t v | None => True end.

Lemma action_turn a n s : rule_action a = true -> ready s -> (1 <= n <= length (yy_ch_buf s))%nat ->
  exists r s', do_action a (firstn n (yy_ch_buf s)) (skipn n (yy_ch_buf s)) s = Some (r, s') /\ shorter n s s' /\ good_turn r.
Proof.
  intros Ra Rd H. pose proof (rest_shorter n s Rd ltac:(lia)) as S. unfold rule_action in Ra.
  apply andb_prop in Ra. destruct Ra as [Ra1 Ra2]. apply Z.leb_le in Ra1, Ra2.
  assert (a = 20 \/ a = 22 \/ In a [1; 2; 3; 4; 5; 6; 7; 8; 9; 10; 11; 12; 13; 14; 15; 16; 17; 18; 19; 21]) as C by (cbn; lia).
  destruct C as [->|[->|C]].
  - cbn [do_action]. destruct (peek _ _ s) as [c s'] eqn:P. pose proof (peek_shorter n s c s' Rd H P) as S'.
    destruct c as [c|]; [destruct (Ascii.eqb c "'")|]; do 2 eexists; (split; [reflexivity|split; [exact S'|exact I || reflexivity]]).
  - cbn [do_action]. do 2 eexists. split; [reflexivity|]. split; [exact S|]. cbn [good_turn good_token].
    destruct (firstn n (yy_ch_buf s)) as [|c w]; [left; vm_compute; discriminate|].
    assert (to_schar (code c) < 128) as B by (unfold to_schar, to_signed; pose proof (Z.mod_pos_bound (code c + 2 ^ (8 - 1)) (2 ^ 8) eq_refl); change (2 ^ (8 - 1)) with 128 in *; change (2 ^ 8) with 256 in *; lia).
    destruct (Z.leb_spec (to_schar (code c)) 0); [now left|]. right. left. lia.
  - repeat (destruct C as [<-|C]; [do 2 eexists; split; [reflexivity|split; [exact S|first [exact I | reflexivity | right; right; vm_compute; split; discriminate]]]|]).
    destruct C.
Qed.

Lemma act_on_turn r s : matched r (length (yy_ch_buf s)) -> ready s -> exists t s', act_on r s = Some (t, s') /\ shorter 1 s s' /\ good_turn t.
Proof.
  intros (a & n & -> & Ra & Hn) Rd. cbn [act_on].
  assert (YYLMAX <=? Z.of_nat n = false) as -> by (apply Z.leb_gt; destruct Rd as [_ _ _ Z']; unfold text_size in Z'; lia).
  destruct (action_turn a n s Ra Rd Hn) as (t & s' & E & (S1 & S2 & S3) & G). exists t, s'. split; [exact E|]. split; [split; [exact S1|lia]|exact G].
Qed.

(** The loop ends, with a token or at the end of the text. *)
Lemma lex_total fuel : forall s, ready s -> (length (yy_ch_buf s) + 2 * length (input_buffer_p s) < fuel)%nat ->
  exists t v s', lex_loop fuel s = Some (t, v, s') /\ good_token t v /\ ready s' /\
    (text_size s' < text_size s \/ t = YYEOF /\ text_size s' <= text_size s)%nat.
Proof.
  induction fuel as [|fuel IH]; intros s Rd Hf; [lia|]. cbn [lex_loop].
  assert (forall s1 r, ready s1 -> (text_size s1 <= text_size s)%nat -> (length (yy_ch_buf s1) + 2 * length (input_buffer_p s1) <= fuel)%nat ->
            matched r (length (yy_ch_buf s1)) ->
            exists t v s', match act_on r s1 with None => None | Some (Some (t, v), s) => Some (t, v, s) | Some (None, s) => lex_loop fuel s end = Some (t, v, s') /\
              good_token t v /\ ready s' /\ (text_size s' < text_size s \/ t = YYEOF /\ text_size s' <= text_size s)%nat) as Go.
  { intros s1 r R1 L1 F1 M. destruct (act_on_turn r s1 M R1) as (t & s' & -> & (S1 & S2 & S3) & G). destruct t as [[t v]|].
    - exists t, v, s'. repeat split; auto; try apply S1. left. lia.
    - destruct (IH s' S1) as (t & v & s2 & E & G2 & R2 & L2); [unfold text_size in *; lia|].
      exists t, v, s2. repeat split; auto; try apply R2. lia. }
  destruct (yy_ch_buf s) as [|c buf] eqn:EB.
  - cbn [yy_match]. rewrite (next_buffer s Rd), EB. pose proof Rd as [B I R Z']. unfold text_size in *. rewrite EB in *. cbn [length Nat.add] in *.
    destruct (eof_pending s), (input_buffer_p s) as [|i input] eqn:EI.
    4:{ cbn [app]. destruct (IH (Scanner (i :: input) (yy_buf_size s) false [])) as (t & v & s2 & E & G2 & R2 & L2); [|cbn [yy_ch_buf input_buffer_p length] in *; lia|].
        - constructor; cbn [yy_ch_buf input_buffer_p yy_buf_size]; auto. unfold text_size. cbn [yy_ch_buf input_buffer_p length] in *. lia.
        - exists t, v, s2. rewrite E. split; [reflexivity|]. split; [exact G2|]. split; [exact R2|]. cbn [yy_ch_buf input_buffer_p length] in *. lia. }
    all: do 3 eexists; split; [reflexivity|]; split; [left; lia|]; split;
      [constructor; cbn [yy_ch_buf input_buffer_p yy_buf_size]; auto; unfold text_size; cbn [yy_ch_buf input_buffer_p length] in *; lia|];
      right; split; [reflexivity|cbn [yy_ch_buf input_buffer_p length] in *; lia].
  - destruct (whole_run c buf ltac:(rewrite <- EB; apply Rd)) as (st & n & last & [E|E] & M); rewrite E.
    + apply Go; auto; rewrite ?EB in *; cbn [length] in *; try lia. exact M.
    + rewrite (next_buffer s Rd), EB. pose proof Rd as [B I R Z'].
      destruct (eof_pending s), (input_buffer_p s) as [|i input] eqn:EI.
      4:{ destruct (IH (Scanner ((c :: buf) ++ i :: input) (yy_buf_size s) false [])) as (t & v & s2 & E2 & G2 & R2 & L2).
          - constructor; cbn [yy_ch_buf input_buffer_p yy_buf_size]; auto; [rewrite EB in B; now apply a_text_app|constructor|].
            unfold text_size in *. rewrite EB, EI in Z'. cbn [yy_ch_buf input_buffer_p] in *. rewrite length_app. cbn [length] in *. lia.
          - cbn [yy_ch_buf input_buffer_p]. rewrite length_app. cbn [length] in *. lia.
          - exists t, v, s2. rewrite E2. split; [reflexivity|]. split; [exact G2|]. split; [exact R2|].
            unfold text_size in *. rewrite EB, EI. cbn [yy_ch_buf input_buffer_p] in *. rewrite length_app in L2. cbn [length] in *. lia. }
      all: apply Go; [constructor; cbn [yy_ch_buf input_buffer_p yy_buf_size]; rewrite <- ?EB; auto; unfold text_size in *; rewrite ?EB, ?EI in *; cbn [yy_ch_buf input_buffer_p length] in *; lia
                     |unfold text_size; rewrite EB, EI; cbn [yy_ch_buf input_buffer_p length]; lia
                     |cbn [yy_ch_buf input_buffer_p length] in *; lia|exact M].
Qed.

Lemma sslex_total s : ready s -> exists t v s', sslex s = Some (t, v, s') /\ good_token t v /\ ready s' /\
  (text_size s' < text_size s \/ t = YYEOF /\ text_size s' <= text_size s)%nat.
Proof. intros Rd. apply lex_total; [exact Rd|]. lia. Qed.

(** Every text is a sequence of tokens, not more than its characters. *)
Lemma lexes_total s : ready s -> exists ts s', lexes s ts s' /\ ready s' /\ (length ts <= text_size s)%nat.
Proof.
  remember (text_size s) as m eqn:Em. revert s Em. induction m as [m IH] using lt_wf_ind. intros s -> Rd.
  destruct (sslex_total s Rd) as (t & v & s' & E & G & R' & L).
  destruct (Z.leb_spec t YYEOF) as [T|T].
  - exists [], s'. split; [now apply (lexes_end s t v)|]. split; [exact R'|cbn; lia].
  - destruct L as [L|[-> _]]; [|lia]. destruct (IH (text_size s') L s' eq_refl R') as (ts & s2 & Ls & R2 & Hl).
    destruct v as [w|]; cbn in G.
    + subst t. exists (Word w :: ts), s2. split; [now apply (lexes_word s w s')|]. split; [exact R2|cbn; lia].
    + destruct G as [G|G]; [lia|]. exists (Sym t :: ts), s2. split; [now apply (lexes_sym s t s')|]. split; [exact R2|cbn; lia].
Qed.

Lemma lexes_size s ts s' : lexes s ts s' -> ready s -> (length ts <= text_size s)%nat.
Proof.
  induction 1 as [s t v s' E T|s w s1 ts s' E L IH|s t s1 ts s' E K L IH]; intros R; [cbn; lia|..];
    destruct (sslex_total s R) as (t' & v' & s2 & E' & G & R' & Hl); rewrite E in E'; injection E' as <- <- <-; specialize (IH R'); cbn [length];
    (destruct Hl as [Hl|[Ht _]]; [lia|]).
  - discriminate Ht.
  - subst t. unfold known_token, YYEOF in K. lia.
Qed.

(** *** Texts of tokens *)

Definition word_char (c : ascii) : bool :=
  isdigit c || ((65 <=? code c) && (code c <=? 90)) || ((97 <=? code c) && (code c <=? 122)) ||
  Ascii.eqb c "@" || Ascii.eqb c "*" || Ascii.eqb c "-" || Ascii.eqb c ".".

Definition quoted_char (c : ascii) : bool := word_char c || Ascii.eqb c ":" || Ascii.eqb c " ".

Definition keywords : list cstring := [$"SELECT"; $"FROM"; $"WHERE"; $"AND"; $"OR"; $"IS"; $"NOT"; $"NULL"].

Definition symbols : list (Z * cstring) :=
  [(SELECT, $"SELECT"); (FROM, $"FROM"); (WHERE, $"WHERE"); (COMMA, $","); (EQUALS, $"="); (NOTEQUALS, $"!="); (LESS, $"<"); (GREATER, $">");
   (LESSEQUALS, $"<="); (GREATEREQUALS, $">="); (AND, $"AND"); (OR, $"OR"); (IS, $"IS"); (NOT, $"NOT"); (SQLNULL, $"NULL")].

Definition plain_word (w : cstring) : Prop := w <> [] /\ forallb word_char w = true /\ ~ In (map toupper w) keywords.

Definition quoted_word (w : cstring) : Prop := exists q, w = SQUOTE :: q ++ [SQUOTE] /\ q <> [] /\ forallb quoted_char q = true.

(** A token with its text. *)
Inductive written : token -> cstring -> Prop :=
| written_plain w : plain_word w -> written (Word w) w
| written_quoted w : quoted_word w -> written (Word w) w
| written_symbol t x : In (t, x) symbols -> written (Sym t) x.

(** Words end before a blank or at the end of the text; so do the others. *)
Lemma yy_match_app x : forall y s n last, yy_match (x ++ y) s n last =
  match yy_match x s n last with Some (EndOfBuffer s' n' last') => yy_match y s' n' last' | r => r end.
Proof.
  induction x as [|c x IH]; intros y s n last; [reflexivity|]. cbn [app yy_match]. destruct (yy_next s c) as [s'|]; [|reflexivity].
  destruct (znth s' yy_base 0 =? 107); [reflexivity|apply IH].
Qed.

(** The states of words, with the text of those that begin a keyword. *)
Definition keyword_states : list (Z * cstring) :=
  [(19, $"A"); (20, $"F"); (21, $"I"); (22, $"N"); (23, $"O"); (24, $"S"); (25, $"W"); (33, $"AN"); (34, $"FR"); (35, $"IS"); (36, $"NO");
   (37, $"NU"); (38, $"OR"); (39, $"SE"); (40, $"WH"); (42, $"AND"); (43, $"FRO"); (44, $"NOT"); (45, $"NUL"); (46, $"SEL"); (47, $"WHE");
   (48, $"FROM"); (49, $"NULL"); (50, $"SELE"); (51, $"WHER"); (52, $"SELEC"); (53, $"WHERE"); (54, $"SELECT")].

Definition word_state (s : Z) (w : cstring) : bool :=
  (s =? 13) || (s =? 29) || existsb (fun e => (fst e =? s) && streqb (snd e) w) keyword_states.

Definition word_step (e : Z * cstring) (c : ascii) : bool :=
  negb (word_char c) || match yy_next (fst e) c with
                        | Some s => word_state s (snd e ++ [toupper c]) && negb (znth s yy_base 0 =? 107)
                        | None => false
                        end.

Lemma word_char_text c : word_char c = true -> c <> NUL.
Proof. intros W ->. vm_compute in W. discriminate W. Qed.

(** A word from a state that a keyword begins with, or from the state [13] or
    [29] after which there is no keyword. *)
Lemma word_steps (e : Z * cstring) c : In e ((1, []) :: keyword_states) -> word_char c = true ->
  exists s, yy_next (fst e) c = Some s /\ word_state s (snd e ++ [toupper c]) = true /\ (znth s yy_base 0 =? 107) = false.
Proof.
  intros I W. assert (forallb (fun e => forallb (word_step e) text_chars) ((1, []) :: keyword_states) = true) as H by (vm_compute; reflexivity).
  rewrite forallb_forall in H. specialize (H e I). rewrite forallb_forall in H.
  pose proof (word_char_text c W) as N. specialize (H c (in_text_chars c N)). unfold word_step in H. rewrite W in H. cbn [negb orb] in H.
  destruct (yy_next (fst e) c) as [s|]; [|discriminate H]. exists s. apply andb_prop in H. destruct H as [H1 H2]. apply negb_true_iff in H2. auto.
Qed.

Lemma other_steps s c : s = 13 \/ s = 29 -> word_char c = true -> yy_next s c = Some 29.
Proof.
  intros Hs W. assert (forallb (fun c => negb (word_char c) || match yy_next 13 c, yy_next 29 c with Some a, Some b => (a =? 29) && (b =? 29) | _, _ => false end) text_chars = true)
    as H by (vm_compute; reflexivity).
  rewrite forallb_forall in H. pose proof (word_char_text c W) as N. specialize (H c (in_text_chars c N)). cbv beta in H. rewrite W in H. cbn [negb orb] in H.
  destruct (yy_next 13 c) as [a|] eqn:Ea, (yy_next 29 c) as [b|] eqn:Eb; try discriminate. bools.
  repeat match goal with H : (_ =? 29) = true |- _ => apply Z.eqb_eq in H; subst end. destruct Hs as [->| ->]; assumption.
Qed.

Lemma word_state_cases s w : word_state s w = true -> s = 13 \/ s = 29 \/ In (s, w) keyword_states.
Proof.
  unfold word_state. rewrite !orb_true_iff, !Z.eqb_eq, existsb_exists. intros [[H|H]|([s' w'] & I & H)]; [auto|auto|].
  apply andb_prop in H. destruct H as [H1 H2]. cbn in *. apply Z.eqb_eq in H1. apply streqb_eq in H2. subst. auto.
Qed.

Definition in_word (s : Z) (u : cstring) : Prop := In (s, u) ((1, []) :: keyword_states) \/ s = 13 \/ s = 29.

Lemma word_run w : forall s u n last, in_word s u -> forallb word_char w = true ->
  exists s' last', yy_match w s n last = Some (EndOfBuffer s' (n + length w) last') /\ in_word s' (u ++ map toupper w).
Proof.
  induction w as [|c w IH]; intros s u n last I W.
  - exists s, last. cbn. now rewrite Nat.add_0_r, app_nil_r.
  - cbn [forallb] in W. apply andb_prop in W. destruct W as [W1 W2].
    assert (exists s1, yy_next s c = Some s1 /\ in_word s1 (u ++ [toupper c]) /\ (znth s1 yy_base 0 =? 107) = false) as (s1 & E & I1 & B).
    { destruct I as [I|I].
      - destruct (word_steps (s, u) c I W1) as (s1 & E & S & B). exists s1. split; [exact E|]. split; [|exact B].
        apply word_state_cases in S. destruct S as [->|[->|S]]; [right; auto|right; auto|left; now right].
      - exists 29. split; [exact (other_steps s c I W1)|]. split; [right; auto|reflexivity]. }
    cbn [yy_match]. rewrite E, B. destruct (IH s1 (u ++ [toupper c]) (S n) (remember s n last) I1 W2) as (s' & last' & E' & I').
    exists s', last'. rewrite E'. cbn [length map]. rewrite <- Nat.add_succ_comm. rewrite <- app_assoc in I'. now split.
Qed.

(** How the text of a token is matched: at once, or at the blank behind it. *)
Inductive token_run (x : cstring) (a : Z) : Prop :=
| run_ended s last : yy_match x 1 0 None = Some (Ended s (length x) last) -> yy_find_action s (length x) last = Some (a, length x) -> token_run x a
| run_open s last : yy_match x 1 0 None = Some (EndOfBuffer s (length x) last) -> accepts s = true -> znth s yy_accept 0 = a -> yy_next s " " = Some 55 -> token_run x a.

Lemma plain_run w : plain_word w -> token_run w 21.
Proof.
  intros (NE & W & NK). destruct (word_run w 1 [] 0 None (or_introl (or_introl eq_refl)) W) as (s & last & E & I).
  apply (run_open w 21 s last E).
  all: destruct I as [[I|I]|[->| ->]]; [injection I as <- I; destruct w; [contradiction|discriminate I]| |reflexivity|reflexivity].
  all: cbn [app] in I.
  all: pose (P := fun e => accepts (fst e) && ((znth (fst e) yy_accept 0 =? 21) || existsb (streqb (snd e)) keywords) && match yy_next (fst e) " " with Some s => s =? 55 | None => false end).
  all: assert (forallb P keyword_states = true) as H by (vm_compute; reflexivity); rewrite forallb_forall in H; specialize (H _ I); unfold P in H; cbn [fst snd] in H;
    apply andb_prop in H; destruct H as [H H3]; apply andb_prop in H; destruct H as [H1 H2].
  - exact H1.
  - apply orb_prop in H2. destruct H2 as [H2|H2]; [now apply Z.eqb_eq in H2|].
    apply existsb_exists in H2. destruct H2 as (k & Ik & Ek). apply streqb_eq in Ek. rewrite <- Ek in Ik. contradiction.
  - destruct (yy_next s " ") as [s'|]; [|discriminate H3]. apply Z.eqb_eq in H3. now subst.
Qed.

Lemma quoted_char_steps c : quoted_char c = true -> yy_next 12 c = Some 28 /\ yy_next 28 c = Some 28.
Proof.
  intros Q. assert (c <> NUL) as N by (intros ->; vm_compute in Q; discriminate Q).
  assert (forallb (fun c => negb (quoted_char c) || match yy_next 12 c, yy_next 28 c with Some a, Some b => (a =? 28) && (b =? 28) | _, _ => false end) text_chars = true)
    as H by (vm_compute; reflexivity).
  rewrite forallb_forall in H. specialize (H c (in_text_chars c N)). cbv beta in H. rewrite Q in H. cbn [negb orb] in H.
  destruct (yy_next 12 c) as [a|], (yy_next 28 c) as [b|]; try discriminate H. bools.
  repeat match goal with H : (_ =? 28) = true |- _ => apply Z.eqb_eq in H; subst end. now split.
Qed.

Lemma quoted_run w : quoted_word w -> token_run w 20.
Proof.
  intros (q & -> & NE & Q).
  assert (forall q n last, forallb quoted_char q = true -> yy_match q 28 n last = Some (EndOfBuffer 28 (n + length q) last)) as Inside.
  { clear. induction q as [|c q IH]; intros n last Q; [cbn; now rewrite Nat.add_0_r|]. cbn [forallb] in Q. apply andb_prop in Q. destruct Q as [Q1 Q2].
    cbn [yy_match]. rewrite (proj2 (quoted_char_steps c Q1)). change (znth 28 yy_base 0 =? 107) with false. cbv iota. change (remember 28 n last) with last.
    rewrite (IH _ _ Q2). cbn [length]. now rewrite Nat.add_succ_comm. }
  destruct q as [|c q]; [contradiction|]. cbn [forallb] in Q. apply andb_prop in Q. destruct Q as [Q1 Q2].
  apply (run_ended _ 20 41 (Some (12, 1%nat))); [|cbn [app length]; reflexivity].
  change (SQUOTE :: (c :: q) ++ [SQUOTE]) with ([SQUOTE] ++ [c] ++ q ++ [SQUOTE]). rewrite !yy_match_app.
  change (yy_match [SQUOTE] 1 0 None) with (Some (EndOfBuffer 12 1 None)). cbv iota beta. cbn [app yy_match]. rewrite (proj1 (quoted_char_steps c Q1)).
  change (znth 28 yy_base 0 =? 107) with false. cbv iota. change (remember 12 1 None) with (Some (12, 1%nat)). rewrite yy_match_app, (Inside q _ _ Q2).
  change (yy_match [SQUOTE] 28 (2 + length q) (Some (12, 1%nat))) with (Some (Ended 41 (S (2 + length q)) (Some (12, 1%nat)))).
  cbn [length]. rewrite !length_app. cbn [length]. do 2 f_equal. lia.
Qed.

(** *** Reading tokens back *)

Lemma symbol_run t x : In (t, x) symbols -> exists a, token_run x a /\ forall rest s,
  do_action a x rest s = Some (Some (t, None), Scanner rest (yy_buf_size s) (eof_pending s) (input_buffer_p s)).
Proof.
  cbn [In symbols]. intros I.
  repeat (destruct I as [E|I]; [injection E as <- <-; eexists; split; [first [eapply run_ended; vm_compute; reflexivity | eapply run_open; vm_compute; reflexivity]|intros; reflexivity]|]).
  destruct I.
Qed.

Lemma lex_loop_mono n : forall m s r, lex_loop n s = Some r -> (n <= m)%nat -> lex_loop m s = Some r.
Proof.
  induction n as [|n IH]; intros [|m] s r E L; try discriminate; try lia. cbn [lex_loop] in *.
  destruct (yy_match (yy_ch_buf s) 1 0 None) as [[st k last|st k last]|]; [| |discriminate].
  - destruct (act_on _ s) as [[[[t v]|] s']|]; try discriminate; [exact E|apply (IH m s' r E); lia].
  - destruct (yy_get_next_buffer s) as [[| |] s']; [apply (IH m s' r E); lia|exact E|].
    destruct (act_on _ s') as [[[[t v]|] s2]|]; try discriminate; [exact E|apply (IH m s2 r E); lia].
Qed.

(** What may follow a token. *)
Definition separated (rest : cstring) : Prop := rest = [] \/ exists r, rest = " "%char :: r.

Definition fits (size : Z) (text : cstring) : Prop := a_text text /\ YY_BUF_SIZE <= size /\ Z.of_nat (length text) < YYLMAX.

Lemma fits_ready size text p : fits size text -> ready (Scanner text size p []).
Proof. intros (T & S & L). constructor; cbn; auto; [constructor|]. unfold text_size. cbn. now rewrite Nat.add_0_r. Qed.

(** The match of the text of a token, with the status of the buffer after it. *)
Lemma lex_token fuel x a rest size : token_run x a -> separated rest -> fits size (x ++ rest) -> exists p,
  (rest <> [] -> p = false) /\
  lex_loop (S fuel) (Scanner (x ++ rest) size false []) =
  match do_action a x rest (Scanner (x ++ rest) size p []) with
  | None => None
  | Some (Some (t, v), s) => Some (t, v, s)
  | Some (None, s) => lex_loop fuel s
  end.
Proof.
  intros R S F. pose proof (fits_ready _ _ false F) as Rd. destruct F as (T & Sz & L). rewrite length_app in L.
  assert (forall p, act_on (Some (a, length x)) (Scanner (x ++ rest) size p []) = do_action a x rest (Scanner (x ++ rest) size p [])) as Act.
  { intros p. cbn [act_on yy_ch_buf]. assert (YYLMAX <=? Z.of_nat (length x) = false) as -> by (apply Z.leb_gt; lia).
    now rewrite firstn_app, firstn_all, Nat.sub_diag, app_nil_r, skipn_app, skipn_all, Nat.sub_diag. }
  destruct R as [s last E A | s last E Ac A N].
  - exists false. split; [reflexivity|]. cbn [lex_loop yy_ch_buf]. rewrite yy_match_app, E, A. now rewrite Act.
  - destruct S as [->|(r & ->)].
    + exists true. split; [contradiction|]. rewrite app_nil_r in *. cbn [lex_loop yy_ch_buf]. rewrite E, (next_buffer _ Rd). cbn [eof_pending input_buffer_p yy_ch_buf yy_buf_size].
      destruct x as [|c x]; [injection E as <- <-; discriminate Ac|]. unfold yy_find_action. rewrite Ac, A. specialize (Act true). now rewrite Act.
    + exists false. split; [reflexivity|]. cbn [lex_loop yy_ch_buf]. rewrite yy_match_app, E. cbn [yy_match]. rewrite N.
      change (znth 55 yy_base 0 =? 107) with true. cbv iota. unfold remember. rewrite Ac. change (yy_find_action 55 (S (length x)) (Some (s, length x))) with (Some (znth s yy_accept 0, length x)).
      now rewrite A, Act.
Qed.

(** The token, whatever precedes the rest. *)
Definition token_value (t : token) : option cstring := match t with Word w => Some w | Sym _ => None end.

Lemma lex_written fuel t x rest size : written t x -> separated rest -> fits size (x ++ rest) -> exists p,
  (rest <> [] -> p = false) /\ lex_loop (S fuel) (Scanner (x ++ rest) size false []) = Some (token_code t, token_value t, Scanner rest size p []).
Proof.
  intros W S F. destruct W as [w P|w P|t x I].
  - destruct (lex_token fuel w 21 rest size (plain_run w P) S F) as (p & Hp & ->). now exists p.
  - destruct (lex_token fuel w 20 rest size (quoted_run w P) S F) as (p & Hp & ->). cbn [do_action]. unfold peek.
    destruct S as [->|(r & ->)]; [|exists p; split; [exact Hp|reflexivity]].
    exists false. split; [reflexivity|]. rewrite app_nil_r in F. cbn [yy_buf_size eof_pending input_buffer_p].
    rewrite (next_buffer _ (fits_ready _ _ p F)). cbn [eof_pending input_buffer_p yy_ch_buf yy_buf_size].
    destruct P as (q & -> & _). now destruct p.
  - destruct (symbol_run t x I) as (a & R & D). destruct (lex_token fuel x a rest size R S F) as (p & Hp & ->). exists p. split; [exact Hp|]. now rewrite D.
Qed.

(** A blank before a token is skipped. *)
Lemma written_head t x : written t x -> exists c y, x = c :: y /\ Ascii.eqb c " " = false /\ yy_next 9 c = Some 55.
Proof.
  intros W. assert (forall c, word_char c = true -> Ascii.eqb c " " = false /\ yy_next 9 c = Some 55) as H.
  { intros c Wc. assert (forallb (fun c => negb (word_char c) || negb (Ascii.eqb c " ") && match yy_next 9 c with Some s => s =? 55 | None => false end) text_chars = true) as H by (vm_compute; reflexivity).
    rewrite forallb_forall in H. specialize (H c (in_text_chars c (word_char_text c Wc))). cbv beta in H. rewrite Wc in H. cbn [negb orb] in H.
    apply andb_prop in H. destruct H as [H1 H2]. apply negb_true_iff in H1. split; [exact H1|]. destruct (yy_next 9 c) as [s|]; [|discriminate H2]. apply Z.eqb_eq in H2. now subst. }
  destruct W as [w (NE & W & _)|w (q & -> & _)|t x I].
  - destruct w as [|c w]; [contradiction|]. cbn [forallb] in W. apply andb_prop in W. destruct W as [W _]. exists c, w. split; [reflexivity|]. now apply H.
  - exists SQUOTE, (q ++ [SQUOTE]). repeat split.
  - cbn [In symbols] in I. repeat (destruct I as [E|I]; [injection E as <- <-; do 2 eexists; split; [reflexivity|split; vm_compute; reflexivity]|]). destruct I.
Qed.

Fixpoint spaced (xs : list cstring) : cstring :=
  match xs with
  | [] => []
  | [x] => x
  | x :: xs => x ++ " "%char :: spaced xs
  end.

Lemma lexes_same s1 s2 ts s' : sslex s1 = sslex s2 -> lexes s1 ts s' -> lexes s2 ts s'.
Proof. intros E L. destruct L; rewrite E in *; [eapply lexes_end|eapply lexes_word|eapply lexes_sym]; eassumption. Qed.

Lemma lexes_done size p : YY_BUF_SIZE <= size -> lexes (Scanner [] size p []) [] (Scanner [] size false []).
Proof.
  intros S. assert (ready (Scanner [] size p [])) as R by (apply fits_ready; split; [constructor|split; [exact S|reflexivity]]).
  apply (lexes_end _ YYEOF None); [|reflexivity].
  unfold sslex. cbn [lex_loop yy_ch_buf yy_match]. rewrite (next_buffer _ R). now destruct p.
Qed.

Lemma skip_blank c y size : yy_next 9 c = Some 55 -> sslex (Scanner (" "%char :: c :: y) size false []) = sslex (Scanner (c :: y) size false []).
Proof.
  intros N. unfold sslex. cbn [yy_ch_buf input_buffer_p length Nat.mul Nat.add]. rewrite Nat.add_0_r. set (n := S (length y)). cbn [lex_loop yy_ch_buf].
  assert (yy_match (" "%char :: c :: y) 1 0 None = Some (Ended 55 2 (Some (9, 1%nat)))) as ->.
  { change (" "%char :: c :: y) with ([" "%char] ++ c :: y). rewrite yy_match_app. change (yy_match [" "%char] 1 0 None) with (Some (EndOfBuffer 9 1 None)). cbn [yy_match]. now rewrite N. }
  reflexivity.
Qed.

Lemma written_known t x : written t x -> match t with Word _ => True | Sym t => known_token t end.
Proof.
  intros W. destruct W as [w P|w P|t x I]; [exact Logic.I|exact Logic.I|]. cbn [In symbols] in I.
  repeat (destruct I as [E|I]; [injection E as <- <-; right; vm_compute; split; discriminate|]). destruct I.
Qed.

Lemma lexes_cons s t s1 ts s' : known t -> sslex s = Some (token_code t, token_value t, s1) -> lexes s1 ts s' -> lexes s (t :: ts) s'.
Proof. intros K E L. destruct t; [eapply lexes_word|eapply lexes_sym]; eassumption. Qed.

Lemma fits_tail size x y : fits size (x ++ y) -> fits size y.
Proof. intros (T & S & L). apply Forall_app in T. rewrite length_app in L. split; [apply T|split; [exact S|lia]]. Qed.

Lemma lexes_spaced ts xs : Forall2 written ts xs -> forall size, YY_BUF_SIZE <= size -> fits size (spaced xs) ->
  lexes (Scanner (spaced xs) size false []) ts (Scanner [] size false []).
Proof.
  induction 1 as [|t x ts xs W Ws IH]; intros size S F; [now apply lexes_done|].
  assert (exists rest, spaced (x :: xs) = x ++ rest /\ separated rest /\ (xs = [] -> rest = []) /\ (xs <> [] -> rest = " "%char :: spaced xs)) as (rest & E & Sep & R0 & R1).
  { destruct xs as [|x' xs]; [exists []; rewrite app_nil_r; repeat split; [now left|congruence]|]. exists (" "%char :: spaced (x' :: xs)). repeat split; [right; eauto|discriminate]. }
  rewrite E in F |- *. destruct (lex_written (length (x ++ rest) + 0) t x rest size W Sep F) as (p & Hp & L).
  assert (sslex (Scanner (x ++ rest) size false []) = Some (token_code t, token_value t, Scanner rest size p [])) as Lx.
  { unfold sslex. cbn [yy_ch_buf input_buffer_p length Nat.mul]. exact L. }
  apply (lexes_cons _ t _ ts _ (written_known t x W) Lx).
  destruct xs as [|x' xs].
  - rewrite (R0 eq_refl) in *. inversion Ws; subst. now apply lexes_done.
  - rewrite (R1 ltac:(discriminate)) in *. rewrite (Hp ltac:(discriminate)). inversion Ws as [|t' ? ts' ? W' Ws']; subst.
    assert (exists c y, spaced (x' :: xs) = c :: y /\ yy_next 9 c = Some 55) as (c & y & Ec & N).
    { destruct (written_head t' x' W') as (c & y & -> & _ & N). destruct xs; [now exists c, y|]. now exists c, (y ++ " "%char :: spaced (c0 :: xs)). }
    apply (lexes_same (Scanner (spaced (x' :: xs)) size false [])); [rewrite Ec; symmetry; now apply skip_blank|].
    apply IH; [exact S|]. apply (fits_tail _ [" "%char]), (fits_tail _ x). exact F.
Qed.

(** The text is read into an empty buffer. *)
Lemma lexes_input text size ts s' : text <> [] -> fits size text -> lexes (Scanner text size false []) ts s' -> lexes (Scanner [] size false text) ts s'.
Proof.
  intros NE F L. pose proof (fits_ready _ _ false F) as R. apply (lexes_same (Scanner text size false [])); [|exact L].
  destruct (sslex_total _ R) as (t & v & s1 & E & _). rewrite E. symmetry. unfold sslex in *. cbn [yy_ch_buf input_buffer_p length Nat.mul] in *.
  rewrite Nat.add_0_r in E. destruct text as [|c text]; [contradiction|].
  assert (ready (Scanner [] size false (c :: text))) as R' by (destruct F as (T & Sz & Ln); constructor; cbn; auto; constructor).
  remember (0 + (length (c :: text) + (length (c :: text) + 0)))%nat as n eqn:En. cbn [lex_loop yy_ch_buf yy_match]. rewrite (next_buffer _ R'). cbn [eof_pending input_buffer_p yy_ch_buf yy_buf_size app].
  apply (lex_loop_mono _ _ _ _ E). cbn [length] in *. lia.
Qed.
