(* ===== verification/IcalGaugeText.v ===== *)
(** * Queries as texts

    What [icalgauge_new_from_sql] makes of a text: on every text the automata of
    the scanner and the parser do what the grammar says, and the text of a query is
    read as the gauge it describes.  The examples show queries that stop the
    process, and texts whose rest is read by the next query. *)
From Stdlib Require Import String Ascii ZArith Lia Bool List.
From S2P Require Import Prelude CString IcalError IcalTime IcalTimeCalendar IcalValueText IcalValue IcalLine IcalParameter IcalProperty IcalComponent IcalParser IcalDesignData IcalValueSafe IcalParserTotal IcalParserExamples IcalTimezone IcalComponentZones IcalComponentAccess IcalComponentRecur IcalSsLexer IcalSsYacc IcalGauge IcalGaugeParse.
Import ListNotations.
#[local] Open Scope Z_scope.
#[local] Open Scope cstring_scope.
#[local] Open Scope err_scope.

(** C34: On every text that is shorter than the longest token the scanner returns
    tokens up to the end, and the driver of the LALR automaton calls the actions that
    a parser by recursive descent for the grammar calls, in the same order, with
    the same result and the same errors.  In particular it ends. *)
Theorem parser_is_the_grammar `{PROPS : PropertyTables} s lval g e : ready s ->
  exists ts s', lexes s ts s' /\ ready s' /\ outcome (ssparse s lval g e) = wanted s' (parse_query ts g e).
Proof.
  intros R. destruct (lexes_total s R) as (ts & s' & L & R' & Hl). exists ts, s'. split; [exact L|]. split; [exact R'|].
  unfold ssparse. apply run_parse; [exact L|]. unfold parse_fuel, text_size in *. lia.
Qed.

Lemma parser_is_the_grammar_witness : exists ts s',
  lexes (set_input $"SELECT * FROM VEVENT WHERE" initial_scanner) ts s' /\ ready s' /\
  outcome (ssparse (set_input $"SELECT * FROM VEVENT WHERE" initial_scanner) [] (Gauge [] [] [] 0) (initial_error_state false)) =
  wanted s' (parse_query ts (Gauge [] [] [] 0) (initial_error_state false)).
Proof.
  apply (parser_is_the_grammar (set_input $"SELECT * FROM VEVENT WHERE" initial_scanner) [] (Gauge [] [] [] 0) (initial_error_state false)).
  constructor; [constructor|repeat constructor; discriminate|discriminate|reflexivity].
Defined.

(** ** Queries *)

Inductive condition_on := Compared (prop : cstring) (c : icalgaugecompare) (value : cstring) | IsNull (prop : cstring) | IsNotNull (prop : cstring).

Record query := Query {
  q_select : cstring * list cstring;
  q_from : cstring * list cstring;
  q_where : condition_on * list (icalgaugelogic * condition_on)
}.

Definition operator (c : icalgaugecompare) : Z :=
  match c with
  | ICALGAUGECOMPARE_EQUAL => EQUALS | ICALGAUGECOMPARE_NOTEQUAL => NOTEQUALS | ICALGAUGECOMPARE_LESS => LESS
  | ICALGAUGECOMPARE_GREATER => GREATER | ICALGAUGECOMPARE_LESSEQUAL => LESSEQUALS | _ => GREATEREQUALS
  end.

Definition is_operator (c : icalgaugecompare) : Prop := comparison_of (operator c) = Some c.

Definition condition_tokens (c : condition_on) : list token :=
  match c with
  | Compared p c v => [Word p; Sym (operator c); Word v]
  | IsNull p => [Word p; Sym IS; Sym SQLNULL]
  | IsNotNull p => [Word p; Sym IS; Sym NOT; Sym SQLNULL]
  end.

Definition logic_token (l : icalgaugelogic) : Z := match l with ICALGAUGELOGIC_OR => OR | _ => AND end.

Definition query_tokens (q : query) : list token :=
  [Sym SELECT; Word (fst (q_select q))] ++ flat_map (fun w => [Sym COMMA; Word w]) (snd (q_select q)) ++
  [Sym FROM; Word (fst (q_from q))] ++ flat_map (fun w => [Sym COMMA; Word w]) (snd (q_from q)) ++
  [Sym WHERE] ++ condition_tokens (fst (q_where q)) ++ flat_map (fun lc => Sym (logic_token (fst lc)) :: condition_tokens (snd lc)) (snd (q_where q)).

Definition token_text (t : token) : cstring :=
  match t with Word w => w | Sym t => match find (fun e => fst e =? t) symbols with Some (_, x) => x | None => [] end end.

Definition query_text (q : query) : cstring := spaced (map token_text (query_tokens q)).

Section Queries.
Context `{PROPS : PropertyTables}.

Definition selected (w : cstring) : icalgauge_where :=
  let '(comp, prop) := comp_and_prop w in
  Where ICALGAUGELOGIC_NONE comp (if streqb $"*" prop then ICAL_ANY_PROPERTY else icalproperty_string_to_kind (Some prop)) ICALGAUGECOMPARE_NONE None.

Definition condition_where (l : icalgaugelogic) (c : condition_on) : icalgauge_where :=
  let make p c v := let '(comp, prop) := comp_and_prop p in Where l comp (icalproperty_string_to_kind (Some prop)) c (Some (unquoted v)) in
  match c with
  | Compared p c v => make p c v
  | IsNull p => make p ICALGAUGECOMPARE_ISNULL []
  | IsNotNull p => make p ICALGAUGECOMPARE_ISNOTNULL []
  end.

Definition query_gauge (expand : Z) (q : query) : icalgauge_impl :=
  Gauge (map selected (fst (q_select q) :: snd (q_select q)))
        (map (fun w => icalcomponent_string_to_kind (Some w)) (fst (q_from q) :: snd (q_from q)))
        (condition_where ICALGAUGELOGIC_NONE (fst (q_where q)) :: map (fun lc => condition_where (fst lc) (snd lc)) (snd (q_where q)))
        expand.

Definition word (w : cstring) : Prop := plain_word w \/ quoted_word w.

Definition condition_ok (c : condition_on) : Prop :=
  match c with Compared p c v => word p /\ is_operator c /\ word v | IsNull p => word p | IsNotNull p => word p end.

(** Names that are known, of texts that are words. *)
Record query_ok (q : query) : Prop := QueryOk {
  ok_select : Forall (fun w => word w /\ w_prop (selected w) <> ICAL_NO_PROPERTY) (fst (q_select q) :: snd (q_select q));
  ok_from : Forall (fun w => word w /\ icalcomponent_string_to_kind (Some w) <> ICAL_NO_COMPONENT) (fst (q_from q) :: snd (q_from q));
  ok_where : condition_ok (fst (q_where q));
  ok_more : Forall (fun lc => fst lc <> ICALGAUGELOGIC_NONE /\ condition_ok (snd lc)) (snd (q_where q))
}.

(** ** Actions *)

Lemma add_select_known w g e : w_prop (selected w) <> ICAL_NO_PROPERTY ->
  ssyacc_add_select w g e = Some (Gauge (g_select g ++ [selected w]) (g_from g) (g_where g) (g_expand g), e).
Proof.
  unfold ssyacc_add_select, selected. destruct (comp_and_prop w) as [comp prop]. cbn [w_prop]. intros H. apply Z.eqb_neq in H. now rewrite H.
Qed.

Lemma add_from_known w g e : icalcomponent_string_to_kind (Some w) <> ICAL_NO_COMPONENT ->
  ssyacc_add_from w g e = Some (Gauge (g_select g) (g_from g ++ [icalcomponent_string_to_kind (Some w)]) (g_where g) (g_expand g), e).
Proof. unfold ssyacc_add_from. destruct (icalcomponent_string_to_kind (Some w)); try reflexivity. contradiction. Qed.

Lemma at_last_snoc {A} (f : A -> A) l x : at_last f (l ++ [x]) = Some (l ++ [f x]).
Proof. induction l as [|y l IH]; [reflexivity|]. cbn [app at_last]. rewrite IH. destruct l; reflexivity. Qed.

Lemma condition_read c ts : condition_ok c -> exists p cmp v, condition_tokens c ++ ts = Word p :: tl (condition_tokens c) ++ ts /\
  condition (tl (condition_tokens c) ++ ts) = Some (cmp, v, ts) /\
  forall l g e, set_logic l (ssyacc_add_where p cmp v g) e = Some (Gauge (g_select g) (g_from g) (g_where g ++ [condition_where l c]) (g_expand g), e).
Proof.
  intros H. assert (forall l p cmp v g e, set_logic l (ssyacc_add_where p cmp v g) e =
    Some (Gauge (g_select g) (g_from g) (g_where g ++ [let '(comp, prop) := comp_and_prop p in Where l comp (icalproperty_string_to_kind (Some prop)) cmp (Some (unquoted v))]) (g_expand g), e)) as A.
  { intros l p cmp v g e. unfold set_logic, ssyacc_add_where. destruct (comp_and_prop p) as [comp prop]. cbn [g_where]. now rewrite at_last_snoc. }
  destruct c as [p c v|p|p]; do 3 eexists; (split; [reflexivity|split; [|intros; apply A]]); cbn [condition_tokens tl app condition]; [|reflexivity|reflexivity].
  destruct H as (_ & O & _). unfold is_operator in O. now rewrite O.
Qed.

Lemma where_read fuel l c more g e : condition_ok c -> Forall (fun lc => fst lc <> ICALGAUGELOGIC_NONE /\ condition_ok (snd lc)) more ->
  (length more < fuel)%nat ->
  where_list fuel l (condition_tokens c ++ flat_map (fun lc => Sym (logic_token (fst lc)) :: condition_tokens (snd lc)) more) g e =
  Some (0, Gauge (g_select g) (g_from g) (g_where g ++ condition_where l c :: map (fun lc => condition_where (fst lc) (snd lc)) more) (g_expand g), e).
Proof.
  intros C M. revert l c g C fuel. induction M as [|[l' c'] more [Hl Hc] M IH]; intros l c g C [|fuel] Hf; cbn [length] in Hf; try lia.
  - cbn [flat_map]. destruct (condition_read c [] C) as (p & cmp & v & E & Cd & A). rewrite E. cbn [where_list]. rewrite Cd. unfold bind. now rewrite A.
  - destruct (condition_read c (flat_map (fun lc => Sym (logic_token (fst lc)) :: condition_tokens (snd lc)) ((l', c') :: more)) C) as (p & cmp & v & E & Cd & A).
    rewrite E. cbn [where_list]. rewrite Cd. unfold bind. rewrite A. cbn [flat_map fst snd app].
    assert (forall g, (if logic_token l' =? AND then where_list fuel ICALGAUGELOGIC_AND (condition_tokens c' ++ flat_map (fun lc => Sym (logic_token (fst lc)) :: condition_tokens (snd lc)) more) g
              else if logic_token l' =? OR then where_list fuel ICALGAUGELOGIC_OR (condition_tokens c' ++ flat_map (fun lc => Sym (logic_token (fst lc)) :: condition_tokens (snd lc)) more) g else syntax_error g) =
            where_list fuel l' (condition_tokens c' ++ flat_map (fun lc => Sym (logic_token (fst lc)) :: condition_tokens (snd lc)) more) g) as Lg
      by (intros; destruct l'; [contradiction|reflexivity|reflexivity]).
    cbn [fst] in Lg. rewrite Lg, (IH l' c' _ Hc fuel) by lia. cbn [g_where g_select g_from g_expand map fst snd]. now rewrite <- app_assoc.
Qed.

Definition where_tokens (q : query) : list token :=
  condition_tokens (fst (q_where q)) ++ flat_map (fun lc => Sym (logic_token (fst lc)) :: condition_tokens (snd lc)) (snd (q_where q)).

Lemma length_more {A} (f : A -> list token) (l : list A) : (forall a, f a <> []) -> (length l <= length (flat_map f l))%nat.
Proof. intros H. induction l as [|a l IH]; [cbn; lia|]. cbn [flat_map length]. rewrite length_app. specialize (H a). destruct (f a); [contradiction|cbn; lia]. Qed.

Lemma from_read ws ts g e : Forall (fun w => word w /\ icalcomponent_string_to_kind (Some w) <> ICAL_NO_COMPONENT) ws ->
  from_rest (flat_map (fun w => [Sym COMMA; Word w]) ws ++ ts) g e =
  from_rest ts (Gauge (g_select g) (g_from g ++ map (fun w => icalcomponent_string_to_kind (Some w)) ws) (g_where g) (g_expand g)) e.
Proof.
  intros H. revert g. induction H as [|w ws [_ Hw] H IH]; intros g; [cbn; rewrite app_nil_r; now destruct g|].
  cbn [flat_map app from_rest]. change (COMMA =? WHERE) with false. change (COMMA =? COMMA) with true. cbv iota. unfold bind. rewrite (add_from_known w g e Hw), IH.
  cbn [g_select g_from g_where g_expand map]. now rewrite <- app_assoc.
Qed.

Lemma select_read ws ts g e : Forall (fun w => word w /\ w_prop (selected w) <> ICAL_NO_PROPERTY) ws ->
  select_rest (flat_map (fun w => [Sym COMMA; Word w]) ws ++ ts) g e =
  select_rest ts (Gauge (g_select g ++ map selected ws) (g_from g) (g_where g) (g_expand g)) e.
Proof.
  intros H. revert g. induction H as [|w ws [_ Hw] H IH]; intros g; [cbn; rewrite app_nil_r; now destruct g|].
  cbn [flat_map app select_rest]. change (COMMA =? FROM) with false. change (COMMA =? COMMA) with true. cbv iota. unfold bind. rewrite (add_select_known w g e Hw), IH.
  cbn [g_select g_from g_where g_expand map]. now rewrite <- app_assoc.
Qed.

Lemma query_parsed q expand e : query_ok q -> parse_query (query_tokens q) (Gauge [] [] [] expand) e = Some (0, query_gauge expand q, e).
Proof.
  intros [S F W M]. inversion S as [|? ? [_ S1] S2]; subst. inversion F as [|? ? [_ F1] F2]; subst.
  unfold query_tokens. cbn [app parse_query]. change (SELECT =? SELECT) with true. cbv iota. unfold bind. rewrite (add_select_known _ _ e S1), (select_read _ _ _ e S2).
  cbn [select_rest]. change (FROM =? FROM) with true. cbv iota. unfold bind. rewrite (add_from_known _ _ e F1), (from_read _ _ _ e F2).
  cbn [from_rest]. change (WHERE =? WHERE) with true. cbv iota. rewrite (where_read _ _ _ _ _ e W M); [reflexivity|].
  rewrite length_app. pose proof (length_more (fun lc => Sym (logic_token (fst lc)) :: condition_tokens (snd lc)) (snd (q_where q)) ltac:(discriminate)). lia.
Qed.

(** ** Texts *)

Definition written_as_text (t : token) : Prop := written t (token_text t).

Lemma word_written w : word w -> written_as_text (Word w).
Proof. intros [P|P]; [now apply written_plain|now apply written_quoted]. Qed.

Lemma symbol_written t : In t (map fst symbols) -> written_as_text (Sym t).
Proof. cbn [map symbols fst In]. intros I. repeat (destruct I as [<-|I]; [apply written_symbol; cbn [token_text]; vm_compute; tauto|]). destruct I. Qed.

Lemma symbols_written ts : Forall (fun t => match t with Word w => word w | Sym t => In t (map fst symbols) end) ts -> Forall written_as_text ts.
Proof. apply Forall_impl. intros [w|t]; [apply word_written|apply symbol_written]. Qed.

Lemma list_written ws : Forall word ws -> Forall written_as_text (flat_map (fun w => [Sym COMMA; Word w]) ws).
Proof.
  intros H. apply symbols_written. induction H as [|w ws Hw H IH]; [constructor|]. cbn [flat_map app]. constructor; [vm_compute; tauto|]. now constructor.
Qed.

Lemma condition_written c : condition_ok c -> Forall written_as_text (condition_tokens c).
Proof.
  intros H. apply symbols_written. destruct c as [p c v|p|p]; cbn [condition_tokens]; [destruct H as (Hp & _ & Hv)|..];
    repeat (constructor; [first [assumption | destruct c; vm_compute; tauto | vm_compute; tauto]|]); constructor.
Qed.

Lemma query_written q : query_ok q -> Forall written_as_text (query_tokens q).
Proof.
  intros [S F W M]. inversion S as [|? ? [S0 _] S2]; subst. inversion F as [|? ? [F0 _] F2]; subst. unfold query_tokens.
  assert (forall x, In x (map fst symbols) -> Forall written_as_text [Sym x]) as Sy by (intros x Hx; constructor; [now apply symbol_written|constructor]).
  change [Sym SELECT; Word (fst (q_select q))] with ([Sym SELECT] ++ [Word (fst (q_select q))]).
  change [Sym FROM; Word (fst (q_from q))] with ([Sym FROM] ++ [Word (fst (q_from q))]). rewrite <- !app_assoc.
  repeat (apply Forall_app; split).
  - apply Sy. vm_compute; tauto.
  - constructor; [now apply word_written|constructor].
  - apply list_written. eapply Forall_impl; [|exact S2]. now intros w [Hw _].
  - apply Sy. vm_compute; tauto.
  - constructor; [now apply word_written|constructor].
  - apply list_written. eapply Forall_impl; [|exact F2]. now intros w [Hw _].
  - apply Sy. vm_compute; tauto.
  - now apply condition_written.
  - induction M as [|[l c] more [Hl Hc] M IH]; [constructor|]. cbn [flat_map fst snd]. constructor; [apply symbol_written; destruct l; vm_compute; tauto|].
    apply Forall_app. split; [now apply condition_written|exact IH].
Qed.

Lemma written_text_forall ts : Forall written_as_text ts -> Forall2 written ts (map token_text ts).
Proof. induction 1; [constructor|]. cbn [map]. now constructor. Qed.

(** An idle scanner: nothing is left of an earlier query. *)
Definition idle (size : Z) : scanner := Scanner [] size false [].

(** C35: A query with SELECT, FROM and a WHERE condition whose selected properties and
    components are known, whose words are plain or quoted without a quotation mark inside,
    written with one blank between its tokens and shorter than the limit of the scanner,
    is read by an idle scanner as the gauge it describes: the properties, the components,
    and the conditions with their logic, in order.  The error state is unchanged, and the
    scanner is idle again. *)
Theorem query_text_is_read q expand size lval e : query_ok q -> fits size (query_text q) ->
  exists lval', icalgauge_new_from_sql (query_text q) expand (idle size) lval e = Some (Some (query_gauge expand q), idle size, lval', e).
Proof.
  intros Q F. pose proof (proj1 (proj2 F)) as Sz.
  assert (lexes (set_input (query_text q) (idle size)) (query_tokens q) (idle size)) as L.
  { apply lexes_input; [discriminate|exact F|]. apply lexes_spaced; [apply written_text_forall, query_written, Q|exact Sz|exact F]. }
  assert (ready (set_input (query_text q) (idle size))) as R by (destruct F as (T & _ & Ln); constructor; cbn; auto; constructor).
  pose proof (lexes_size _ _ _ L R) as Hl.
  pose proof (run_parse _ _ _ lval (Gauge [] [] [] expand) e (parse_fuel (set_input (query_text q) (idle size))) L) as P.
  rewrite (query_parsed q expand e Q) in P. unfold icalgauge_new_from_sql, bind, ssparse. unfold parse_fuel, text_size in *. specialize (P ltac:(lia)).
  destruct (yyloop _ _ e) as [[[r p] e']|]; [|discriminate P]. cbn [outcome wanted] in P. change (0 =? 0) with true in P. cbv iota in P.
  destruct (r =? 0) eqn:Er; [|discriminate P]. injection P as -> Eg Es ->. exists (yylval p). now rewrite Eg, Es.
Qed.
End Queries.

(** ** Examples *)

#[local] Existing Instance text_floats.

Definition sample_query : query := Query ($"*", [$"DTSTART"]) ($"VEVENT", [$"VTODO"])
  (Compared $"DTSTART" ICALGAUGECOMPARE_GREATEREQUAL $"'20240101T000000Z'",
   [(ICALGAUGELOGIC_AND, IsNotNull $"VALARM.TRIGGER"); (ICALGAUGELOGIC_OR, Compared $"SUMMARY" ICALGAUGECOMPARE_EQUAL $"'a b'")]).

Lemma plain_word_check w : negb (Nat.eqb (length w) 0) && forallb word_char w && negb (existsb (streqb (map toupper w)) keywords) = true -> plain_word w.
Proof.
  intros H. apply andb_prop in H. destruct H as [H H3]. apply andb_prop in H. destruct H as [H1 H2]. split; [now destruct w|]. split; [exact H2|].
  intros I. apply negb_true_iff in H3. assert (existsb (streqb (map toupper w)) keywords = true) as C by (apply existsb_exists; eexists; split; [exact I|now apply streqb_eq]).
  congruence.
Qed.

Lemma sample_query_ok : query_ok sample_query.
Proof.
  assert (quoted_word $"'20240101T000000Z'" /\ quoted_word $"'a b'") as [Q1 Q2]
    by (split; [exists $"20240101T000000Z"|exists $"a b"]; (split; [reflexivity|split; [discriminate|reflexivity]])).
  constructor; cbn [sample_query q_select q_from q_where fst snd condition_ok].
  - repeat (constructor; [split; [left; apply plain_word_check; reflexivity|vm_compute; discriminate]|]). constructor.
  - repeat (constructor; [split; [left; apply plain_word_check; reflexivity|vm_compute; discriminate]|]). constructor.
  - split; [left; apply plain_word_check; reflexivity|split; [reflexivity|now right]].
  - constructor; [split; [discriminate|left; apply plain_word_check; reflexivity]|].
    constructor; [split; [discriminate|split; [left; apply plain_word_check; reflexivity|split; [reflexivity|now right]]]|constructor].
Qed.

Lemma query_text_is_read_witness : exists lval',
  icalgauge_new_from_sql (query_text sample_query) 0 (idle YY_BUF_SIZE) [] (initial_error_state false) =
  Some (Some (query_gauge 0 sample_query), idle YY_BUF_SIZE, lval', initial_error_state false).
Proof.
  apply (query_text_is_read sample_query 0 YY_BUF_SIZE [] (initial_error_state false)); [exact sample_query_ok|].
  split; [repeat constructor; discriminate|split; [discriminate|reflexivity]].
Defined.

Definition new_gauge (sql : cstring) (s : scanner) : option (option icalgauge_impl * scanner) :=
  option_map (fun r => (fst (fst (fst r)), snd (fst (fst r)))) (icalgauge_new_from_sql sql 0 s [] (initial_error_state false)).

(** A query without a condition behind WHERE, and one on a component that is not
    known, end the process. *)
Example empty_where_crashes : new_gauge $"SELECT * FROM VEVENT WHERE" initial_scanner = None.
Proof. vm_compute. reflexivity. Qed.

Example unknown_component_crashes : new_gauge $"SELECT * FROM EVENTS" initial_scanner = None.
Proof. vm_compute. reflexivity. Qed.

(** A query that is refused leaves its rest in the scanner: the query after it is
    refused although it is right, and the one after that is read. *)
Example refused_query_spoils_the_next :
  match new_gauge $"SELECT FROM" initial_scanner with
  | Some (None, s) =>
      match new_gauge $"SELECT * FROM VEVENT" s with
      | Some (None, s) => match new_gauge $"SELECT * FROM VEVENT" s with Some (Some g, _) => g_from g = [ICAL_VEVENT_COMPONENT] | _ => False end
      | _ => False
      end
  | _ => False
  end.
Proof. vm_compute. reflexivity. Qed.

(** What is left may be a query of its own. *)
Example refused_query_answers_the_next :
  match new_gauge $"SELECT ; SELECT * FROM VTODO" initial_scanner with
  | Some (None, s) => match new_gauge [] s with Some (Some g, _) => g_from g = [ICAL_VTODO_COMPONENT] | _ => False end
  | _ => False
  end.
Proof. vm_compute. reflexivity. Qed.

(** A doubled quote does not stand for a quote: the part before it is lost. *)
Example doubled_quote_drops_text :
  match new_gauge $"SELECT * FROM VEVENT WHERE SUMMARY = 'it''s'" initial_scanner with
  | Some (Some g, _) => map w_value (g_where g) = [Some $"s"]
  | _ => False
  end.
Proof. vm_compute. reflexivity. Qed.

(** ** What a query means for a component

    [icalgauge_compare] against a definition of the meaning of a query: the kind of
    the component is listed, and the conditions are combined from left to right.
    The examples show where the meaning is not the one of SQL. *)

Section Meaning.
Context `{PROPS : PropertyTables} `{PARAMS : ParameterTables} `{FLOAT : FloatOps} `{TZ : TimezoneConv}.
Variables (addr : positive) (e : error_state).

(** The operators that are true of two values, by the relation of the values:
    values that differ without an order are only [!=]. *)
Definition true_operators (r : comparetype) : list icalgaugecompare :=
  match r with
  | ICAL_XLICCOMPARETYPE_EQUAL => [ICALGAUGECOMPARE_EQUAL; ICALGAUGECOMPARE_LESSEQUAL; ICALGAUGECOMPARE_GREATEREQUAL]
  | ICAL_XLICCOMPARETYPE_LESS => [ICALGAUGECOMPARE_LESS; ICALGAUGECOMPARE_LESSEQUAL; ICALGAUGECOMPARE_NOTEQUAL]
  | ICAL_XLICCOMPARETYPE_GREATER => [ICALGAUGECOMPARE_GREATER; ICALGAUGECOMPARE_GREATEREQUAL; ICALGAUGECOMPARE_NOTEQUAL]
  | ICAL_XLICCOMPARETYPE_NOTEQUAL => [ICALGAUGECOMPARE_NOTEQUAL]
  | NOT_COMPARED => [ICALGAUGECOMPARE_NONE]
  end.

Definition operator_holds (c : icalgaugecompare) (r : comparetype) : bool := existsb (same_compare c) (true_operators r).

(** The chain of tests of the code is that table. *)
Lemma satisfies_holds c r : satisfies c (relation_of r) = operator_holds c r.
Proof. now destruct c, r. Qed.

(** The component a condition is about. *)
Definition part_of (inner : icalcomponent) (w : icalgauge_where) : option icalcomponent :=
  if ckind_eqb (w_comp w) ICAL_NO_COMPONENT then Some inner else first_component (w_comp w) inner.

(** The values of properties and their relation to a value. *)
Variable related : icalproperty -> icalvalue -> comparetype.

(** Whether a condition holds: its value is compared with the last property. *)
Definition clause_holds (inner : icalcomponent) (wv : icalgauge_where * icalvalue) : bool :=
  let '(w, v) := wv in
  match part_of inner w with
  | None => false
  | Some c =>
      let ps := properties_of (w_prop w) c in
      match w_compare w with
      | ICALGAUGECOMPARE_ISNULL => Nat.eqb (length ps) 0
      | ICALGAUGECOMPARE_ISNOTNULL => negb (Nat.eqb (length ps) 0)
      | compare => match rev ps with p :: _ => operator_holds compare (related p v) | [] => false end
      end
  end.

Definition combine (inner : icalcomponent) (last : bool) (wv : icalgauge_where * icalvalue) : bool :=
  match w_logic (fst wv) with
  | ICALGAUGELOGIC_AND => clause_holds inner wv && last
  | ICALGAUGELOGIC_OR => clause_holds inner wv || last
  | ICALGAUGELOGIC_NONE => clause_holds inner wv
  end.

(** A condition on a part that is not there fails the query, whatever the others
    say. *)
Definition has_part (inner : icalcomponent) (wv : icalgauge_where * icalvalue) : bool :=
  match part_of inner (fst wv) with Some _ => true | None => false end.

Definition where_holds (inner : icalcomponent) (wvs : list (icalgauge_where * icalvalue)) : bool :=
  forallb (has_part inner) wvs && fold_left (combine inner) wvs true.

(** The value of a condition is read as [v], without an error, and can be compared
    with the properties; the query does not expand recurrences of the part. *)
Record clause_ready (expand : Z) (inner : icalcomponent) (w : icalgauge_where) (v : icalvalue) : Prop := ClauseReady {
  cr_value : exists value, w_value w = Some value /\ where_value addr (icalproperty_kind_to_value_kind (w_prop w)) w value e = Some (Some v, e);
  cr_prop : w_prop w <> ICAL_NO_PROPERTY;
  cr_kind : icalproperty_kind_to_value_kind (w_prop w) <> ICAL_NO_VALUE;
  cr_compare : forall c p, part_of inner w = Some c -> In p (properties_of (w_prop w) c) -> compare_pointers (pr_value p) (Some v) e = Some (related p v, e);
  cr_once : expand = 0 \/ (forall c, part_of inner w = Some c -> first_property ICAL_RRULE_PROPERTY c = None)
}.

Lemma compare_clause_values_last w c v ps : (forall p, In p ps -> compare_pointers (pr_value p) (Some v) e = Some (related p v, e)) ->
  w_compare w <> ICALGAUGECOMPARE_ISNULL -> w_compare w <> ICALGAUGECOMPARE_ISNOTNULL ->
  forall n, 0 <= n -> exists m, compare_clause_values ps w false c v n e = Some (m, e) /\ 0 <= m /\
    (0 <? m) = match rev ps with p :: _ => operator_holds (w_compare w) (related p v) | [] => 0 <? n end.
Proof.
  intros H N1 N2. induction ps as [|p ps IH]; intros n Hn; [exists n; cbn; auto|].
  set (n' := if satisfies (w_compare w) (relation_of (related p v)) then n + 1 else 0).
  destruct (IH (fun p' I => H p' (or_intror I)) n') as (m & E & Hm & R); [unfold n'; destruct (satisfies _ _); lia|].
  exists m. split; [|split; [exact Hm|]].
  - cbn [compare_clause_values].
    transitivity ((relation <- compare_pointers (pr_value p) (Some v) ;;
      compare_clause_values ps w false c v (if satisfies (w_compare w) (relation_of relation) then n + 1 else 0)) e); [destruct (w_compare w); try contradiction; reflexivity|].
    unfold bind. rewrite (H p (or_introl eq_refl)). exact E.
  - rewrite R. cbn [rev]. destruct (rev ps) as [|q r]; [|reflexivity]. cbn [rev app]. rewrite <- satisfies_holds. unfold n'. destruct (satisfies _ _); [apply Z.ltb_lt; lia|reflexivity].
Qed.

Lemma compare_clause_means expand inner w v : clause_ready expand inner w v ->
  compare_clause addr expand inner w false e =
  Some (if has_part inner (w, v) then Some (clause_holds inner (w, v), false) else None, e).
Proof.
  intros [(value & Ev & Er) Hp Hk Hc Ho]. unfold compare_clause. rewrite Ev. apply Z.eqb_neq in Hp. rewrite Hp.
  assert (kind_eqb (icalproperty_kind_to_value_kind (w_prop w)) ICAL_NO_VALUE = false) as -> by (unfold kind_eqb; now destruct (value_kind_dec _ _)).
  unfold bind at 1. rewrite Er. unfold has_part, clause_holds, part_of in *. cbn [fst].
  destruct (if ckind_eqb (w_comp w) ICAL_NO_COMPONENT then Some inner else first_component (w_comp w) inner) as [c|] eqn:Ec; [|reflexivity].
  assert (truthy expand && match first_property ICAL_RRULE_PROPERTY c with Some _ => true | None => false end && is_time_property (w_prop w) = false) as Exp.
  { destruct Ho as [->|Ho]; [reflexivity|]. rewrite (Ho c eq_refl), andb_false_r. reflexivity. }
  cbn [orb]. rewrite Exp. unfold bind.
  set (ps := properties_of (w_prop w) c) in *. specialize (Hc c).
  destruct (w_compare w) eqn:W; try (destruct (compare_clause_values_last w c v ps (fun p I => Hc p eq_refl I) ltac:(congruence) ltac:(congruence) 0 ltac:(lia)) as (m & -> & Hm & R);
    unfold ret; rewrite R, W; now destruct (rev ps)).
  - destruct ps as [|p ps]; [reflexivity|]. cbn [compare_clause_values]. rewrite W. reflexivity.
  - destruct ps as [|p ps]; [reflexivity|]. cbn [compare_clause_values]. rewrite W. reflexivity.
Qed.

Lemma compare_where_means expand inner wvs : Forall (fun wv => clause_ready expand inner (fst wv) (snd wv)) wvs -> forall last,
  compare_where addr expand inner (map fst wvs) false last e = Some (forallb (has_part inner) wvs && fold_left (combine inner) wvs last, e).
Proof.
  induction 1 as [|[w v] wvs C _ IH]; intros last; [reflexivity|]. cbn [map compare_where fst snd]. unfold bind at 1. cbn [fst snd] in C.
  rewrite (compare_clause_means _ _ _ _ C). cbn [forallb fold_left]. destruct (has_part inner (w, v)); [|reflexivity].
  cbn [andb]. rewrite IH. unfold combine at 3. cbn [fst]. reflexivity.
Qed.

(** The component that a query looks at. *)
Definition looked_at (comp inner : icalcomponent) : Prop :=
  fst (icalcomponent_get_first_real_component comp) = Some inner \/
  (fst (icalcomponent_get_first_real_component comp) = None /\ query_kind (co_kind comp) = true /\ inner = comp).

(** C36: For a query whose values can be read and compared without an error, and
    which does not expand a recurring part, [icalgauge_compare] gives the answer that
    [where_holds] defines: true when the kind of the component is listed, every part
    that a condition names is there, and the conditions hold, combined from left to
    right.  A comparison holds when its operator is true of the last property of the
    kind and the value; a condition on a part that the component does not have fails
    the whole query, also behind OR.  The error state is not changed. *)
Theorem gauge_compare_means gauge comp inner wvs : looked_at comp inner -> g_where gauge = map fst wvs ->
  Forall (fun wv => clause_ready (g_expand gauge) inner (fst wv) (snd wv)) wvs ->
  icalgauge_compare addr (Some gauge) (Some comp) e =
  Some (existsb (fun k => ckind_eqb k (co_kind inner)) (g_from gauge) && where_holds inner wvs, e).
Proof.
  intros L W C. unfold icalgauge_compare, compared_component. unfold bind at 1.
  assert ((match fst (icalcomponent_get_first_real_component comp) with
           | Some inner => ret (Some inner)
           | None => if query_kind (co_kind comp) then ret (Some comp) else icalerror_set_errno ICAL_MALFORMEDDATA_ERROR ;;; ret None
           end) e = Some (Some inner, e)) as ->.
  { destruct L as [->|(-> & -> & ->)]; reflexivity. }
  destruct (existsb _ (g_from gauge)); [|reflexivity]. cbn [andb]. rewrite W. apply (compare_where_means _ _ _ C true).
Qed.
End Meaning.

(** *** Examples *)

#[local] Existing Instance text_floats.
#[local] Existing Instance utc_only.

(** An event from its lines. *)
Definition event (ls : list string) : option icalcomponent :=
  match icalparser_parse_string ICAL_TREAT_AS_ERROR 1 (in_event ls) (initial_error_state false) with Some (c, _) => c | None => None end.

(** The answer of a query for an event. *)
Definition answer (sql : string) (expand : Z) (ls : list string) : option bool :=
  match icalgauge_new_from_sql (lit sql) expand initial_scanner [] (initial_error_state false) with
  | Some (Some g, _, _, _) => option_map fst (icalgauge_compare 90 (Some g) (event ls) (initial_error_state false))
  | _ => None
  end.

Example priority_in_range : answer "SELECT * FROM VEVENT WHERE PRIORITY > '2' AND PRIORITY <= '5'" 0 ["PRIORITY:3"]%string = Some true.
Proof. vm_compute. reflexivity. Qed.

(** Of several properties only the last one counts. *)
Example last_property_decides :
  answer "SELECT * FROM VEVENT WHERE COMMENT = 'a'" 0 ["COMMENT:a"; "COMMENT:b"]%string = Some false /\
  answer "SELECT * FROM VEVENT WHERE COMMENT = 'b'" 0 ["COMMENT:a"; "COMMENT:b"]%string = Some true.
Proof. split; vm_compute; reflexivity. Qed.

(** A part that is missing fails the query, also where it is one of two
    alternatives. *)
Example missing_part_fails :
  answer "SELECT * FROM VEVENT WHERE PRIORITY = '3' OR VALARM.ACTION IS NOT NULL" 0 ["PRIORITY:3"]%string = Some false.
Proof. vm_compute. reflexivity. Qed.

(** AND does not bind tighter than OR. *)
Example from_left_to_right :
  answer "SELECT * FROM VEVENT WHERE PRIORITY = '3' OR PRIORITY = '4' AND COMMENT = 'a'" 0 ["PRIORITY:3"; "COMMENT:b"]%string = Some false.
Proof. vm_compute. reflexivity. Qed.

(** With [expand], a condition on the start of a recurring event makes the later
    conditions compare the RECURRENCE-ID instead of their own property. *)
Example expanded_condition_sticks :
  let ls := ["DTSTART:20240101T000000Z"; "RRULE:FREQ=DAILY"; "RECURRENCE-ID:20240102T000000Z"; "COMMENT:a"]%string in
  answer "SELECT * FROM VEVENT WHERE COMMENT = 'a' AND DTSTART > '20240101T000000Z'" 1 ls = Some true /\
  answer "SELECT * FROM VEVENT WHERE DTSTART > '20240101T000000Z' AND COMMENT = 'a'" 1 ls = Some false.
Proof. split; vm_compute; reflexivity. Qed.

Definition sample_event : icalcomponent :=
  match event ["PRIORITY:3"]%string with Some c => c | None => Component 1 ICAL_NO_COMPONENT None [] NoElem [] NoElem None None false end.

Definition sample_clauses : list (icalgauge_where * icalvalue) :=
  [(Where ICALGAUGELOGIC_NONE ICAL_NO_COMPONENT 56 ICALGAUGECOMPARE_GREATER (Some $"2"), new_with ICAL_INTEGER_VALUE (V_int 2));
   (Where ICALGAUGELOGIC_AND ICAL_NO_COMPONENT 56 ICALGAUGECOMPARE_LESSEQUAL (Some $"5"), new_with ICAL_INTEGER_VALUE (V_int 5))].

Definition sample_related (p : icalproperty) (v : icalvalue) : comparetype :=
  match compare_pointers (pr_value p) (Some v) (initial_error_state false) with Some (r, _) => r | None => NOT_COMPARED end.

Definition sample_priority : icalproperty := hd (Property 1 0 None [] 0 NoElem None None) (properties_of 56 sample_event).

Lemma sample_priorities : properties_of 56 sample_event = [sample_priority].
Proof. vm_compute. reflexivity. Qed.

Lemma gauge_compare_means_witness :
  icalgauge_compare 90 (Some (Gauge [] [ICAL_VEVENT_COMPONENT] (map fst sample_clauses) 0)) (Some sample_event) (initial_error_state false) =
  Some (existsb (fun k => ckind_eqb k (co_kind sample_event)) [ICAL_VEVENT_COMPONENT] && where_holds sample_related sample_event sample_clauses, initial_error_state false).
Proof.
  apply (gauge_compare_means 90 (initial_error_state false) sample_related (Gauge [] [ICAL_VEVENT_COMPONENT] (map fst sample_clauses) 0) sample_event sample_event sample_clauses).
  - right. repeat split; vm_compute; reflexivity.
  - reflexivity.
  - constructor; [|constructor; [|constructor]]; cbn [fst snd g_expand]; constructor.
    1,6: eexists; split; [reflexivity|vm_compute; reflexivity].
    1,5: discriminate.
    1,4: vm_compute; discriminate.
    2,4: now left.
    all: intros c p E I; change (part_of sample_event _) with (Some sample_event) in E;
      apply (f_equal (fun o => match o with Some x => x | None => c end)) in E; cbv beta iota in E; subst c;
      change (w_prop _) with 56 in I; rewrite sample_priorities in I; destruct I as [<-|[]]; vm_compute; reflexivity.
Defined.
