(* ===== verification/IcalPosix.v ===== *)
(** * The system under the calendar sets

    The sets of libicalss keep their components in files.  The calls they make are
    the class [Posix], over a state of the system that only these calls change; the
    class [PosixLaws] has what POSIX says of regular files that are read and written
    in place, and is discharged by the small system [disk], whose space can run out.

    [sys] is the monad of the functions on sets: they change the state of the system,
    the addresses in use and the error state. *)
From Stdlib Require Import String Ascii ZArith Lia Bool List.
From S2P Require Import Prelude CString IcalError IcalValueText.
Import ListNotations.
#[local] Open Scope Z_scope.
#[local] Open Scope cstring_scope.

(** ** Calls *)

(** The outcome of [stat]: ENOENT, another error, or the type of the file. *)
Inductive stat_result := NoEntry | StatFails | Regular (size : Z) | Directory | OtherFile.

(** [read_byte] is [read(fd, p, 1)]; [None] is a result other than 1.  [rewind_fd] is
    [lseek(fd, 0, SEEK_SET)]; [fcntl] has the command and the type of the lock on the whole
    file.  [read_dir] is [opendir] with every [readdir]. *)
Class Posix := {
  os : Type;
  stat : cstring -> os -> stat_result;
  open_file : cstring -> Z -> Z -> os -> Z * os;
  read_byte : Z -> os -> option ascii * os;
  rewind_fd : Z -> os -> Z * os;
  write_fd : Z -> cstring -> os -> Z * os;
  ftruncate : Z -> Z -> os -> Z * os;
  fcntl : Z -> Z -> Z -> os -> Z * os;
  close_fd : Z -> os -> os;
  system : cstring -> os -> Z * os;
  read_dir : cstring -> os -> option (list cstring);
  mkdir : cstring -> Z -> os -> Z * os;
  clock : os -> Z;
  getpid : Z;
  nodename : cstring
}.

Definition O_RDONLY : Z := 0.
Definition O_RDWR : Z := 2.
Definition O_CREAT : Z := 64.

(** F_SETLKW is a command of [fcntl]; F_WRLCK and F_UNLCK are types of locks, and as a
    command the number of F_UNLCK is that of F_SETFD. *)
Definition F_SETLKW : Z := 7.
Definition F_WRLCK : Z := 1.
Definition F_UNLCK : Z := 2.

(** Text written over the bytes at a position; a gap is filled with zeroes. *)
Definition splice (data : cstring) (pos : nat) (s : cstring) : cstring :=
  firstn pos data ++ repeat NUL (pos - length data) ++ s ++ skipn (pos + length s) data.

Class PosixLaws (P : Posix) := {
  contents : os -> cstring -> option cstring;
  position : os -> Z -> option (cstring * nat);
  file_at (o : os) (fd : Z) (p : cstring) (data : cstring) (pos : nat) : Prop :=
    contents o p = Some data /\ position o fd = Some (p, pos);
  stat_law : forall o p data, contents o p = Some data -> stat p o = Regular (Z.of_nat (length data));
  open_law : forall o p data flags mode fd o', contents o p = Some data -> flags = O_RDONLY \/ flags = Z.lor O_RDWR O_CREAT ->
    open_file p flags mode o = (fd, o') -> 0 <= fd -> file_at o' fd p data 0;
  read_law : forall o fd p data pos, file_at o fd p data pos ->
    exists o', read_byte fd o = (nth_error data pos, o') /\ file_at o' fd p data (if Nat.ltb pos (length data) then S pos else pos);
  rewind_law : forall o fd p data pos r o', file_at o fd p data pos -> rewind_fd fd o = (r, o') -> 0 <= r -> file_at o' fd p data 0;
  write_law : forall o fd p data pos s r o', file_at o fd p data pos -> write_fd fd s o = (r, o') -> 0 <= r ->
    (Z.to_nat r <= length s)%nat /\ file_at o' fd p (splice data pos (firstn (Z.to_nat r) s)) (pos + Z.to_nat r);
  truncate_law : forall o fd p data pos n r o', file_at o fd p data pos -> (n <= length data)%nat ->
    ftruncate fd (Z.of_nat n) o = (r, o') -> 0 <= r -> file_at o' fd p (firstn n data) pos;
  lock_law : forall o fd p data pos, file_at o fd p data pos -> file_at (snd (fcntl fd F_SETLKW F_WRLCK o)) fd p data pos
}.

(** ** The monad *)

Section Sys.
Context `{POSIX : Posix}.

(** [w_next] is the first address that is not in use. *)
Record world := World { w_os : os; w_next : positive }.

Definition sys (A : Type) := world -> err (A * world).

Definition sret {A} (a : A) : sys A := fun w => ret (a, w).
Definition sbind {A B} (m : sys A) (k : A -> sys B) : sys B := fun w => bind (m w) (fun r => k (fst r) (snd r)).
Definition slift {A} (m : err A) : sys A := fun w => bind m (fun a => ret (a, w)).
Definition call {A} (f : os -> A * os) : sys A := fun w => ret (fst (f (w_os w)), World (snd (f (w_os w))) (w_next w)).
Definition ask {A} (f : os -> A) : sys A := fun w => ret (f (w_os w), w).

(** [assert(0)], or what has no meaning. *)
Definition stop {A} : sys A := fun _ _ => None.

(** A new object. *)
Definition new_address : sys positive := fun w => ret (w_next w, World (w_os w) (Pos.succ (w_next w))).
Definition free_address : sys positive := fun w => ret (w_next w, w).
Definition set_next (a : positive) : sys unit := fun w => ret (tt, World (w_os w) a).
End Sys.

Declare Scope sys_scope.
Delimit Scope sys_scope with sys.
Notation "x <- m ;; k" := (sbind m (fun x => k)) (at level 60, m at next level, right associativity) : sys_scope.
Notation "' p <- m ;; k" := (sbind m (fun x => match x with p => k end))
  (at level 60, p pattern, m at next level, right associativity) : sys_scope.
Notation "m ;;; k" := (sbind m (fun _ => k)) (at level 60, right associativity) : sys_scope.

(** ** A small system *)

(** Files, directories with their entries, the descriptors (3 is the first) with file,
    position and whether they can write, the bytes that are free, and the time. *)
Record disk := Disk {
  files : list (cstring * cstring);
  directories : list (cstring * list cstring);
  descriptors : list (cstring * nat * bool);
  space : nat;
  now : Z
}.

Fixpoint assoc {A} (k : cstring) (l : list (cstring * A)) : option A :=
  match l with [] => None | (k', a) :: l => if streqb k k' then Some a else assoc k l end.

Fixpoint store {A} (k : cstring) (a : A) (l : list (cstring * A)) : list (cstring * A) :=
  match l with
  | [] => [(k, a)]
  | (k', b) :: l => if streqb k k' then (k', a) :: l else (k', b) :: store k a l
  end.

Definition replace_nth {A} (i : nat) (a : A) (l : list A) : list A := firstn i l ++ a :: skipn (S i) l.

Definition slot (fd : Z) : nat := Z.to_nat (fd - 3).
Definition descriptor (fd : Z) (d : disk) : option (cstring * nat * bool) :=
  if fd <? 3 then None else nth_error (descriptors d) (slot fd).

Definition set_files (fs : list (cstring * cstring)) (n : nat) (d : disk) : disk := Disk fs (directories d) (descriptors d) n (now d).
Definition set_descriptor (fd : Z) (x : cstring * nat * bool) (d : disk) : disk :=
  Disk (files d) (directories d) (replace_nth (slot fd) x (descriptors d)) (space d) (now d).
Definition add_descriptor (x : cstring * nat * bool) (d : disk) : Z * disk :=
  (3 + Z.of_nat (length (descriptors d)), Disk (files d) (directories d) (descriptors d ++ [x]) (space d) (now d)).

Definition disk_open (p : cstring) (flags mode : Z) (d : disk) : Z * disk :=
  let writes := Z.land flags O_RDWR =? O_RDWR in
  match assoc p (files d) with
  | Some _ => add_descriptor (p, 0%nat, writes) d
  | None => if Z.land flags O_CREAT =? O_CREAT then add_descriptor (p, 0%nat, writes) (set_files (store p [] (files d)) (space d) d)
            else (-1, d)
  end.

Definition disk_read (fd : Z) (d : disk) : option ascii * disk :=
  match descriptor fd d with
  | Some (p, pos, w) =>
      match assoc p (files d) with
      | Some data => (nth_error data pos, if Nat.ltb pos (length data) then set_descriptor fd (p, S pos, w) d else d)
      | None => (None, d)
      end
  | None => (None, d)
  end.

Definition disk_rewind (fd : Z) (d : disk) : Z * disk :=
  match descriptor fd d with Some (p, _, w) => (0, set_descriptor fd (p, 0%nat, w) d) | None => (-1, d) end.

(** Bytes behind the end of the file take space. *)
Definition disk_write (fd : Z) (s : cstring) (d : disk) : Z * disk :=
  match descriptor fd d with
  | Some (p, pos, true) =>
      match assoc p (files d) with
      | Some data =>
          let n := Nat.min (length s) (length data - pos + space d) in
          let data' := splice data pos (firstn n s) in
          (Z.of_nat n, set_descriptor fd (p, (pos + n)%nat, true) (set_files (store p data' (files d)) (space d - (length data' - length data)) d))
      | None => (-1, d)
      end
  | _ => (-1, d)
  end.

Definition disk_truncate (fd : Z) (n : Z) (d : disk) : Z * disk :=
  match descriptor fd d with
  | Some (p, pos, true) =>
      match assoc p (files d) with
      | Some data => (0, set_files (store p (firstn (Z.to_nat n) data) (files d)) (space d + (length data - Z.to_nat n)) d)
      | None => (-1, d)
      end
  | _ => (-1, d)
  end.

#[export] Instance disk_system : Posix := {
  os := disk;
  stat := fun p d => match assoc p (files d), assoc p (directories d) with
                     | Some data, _ => Regular (Z.of_nat (length data))
                     | None, Some _ => Directory
                     | None, None => NoEntry
                     end;
  open_file := disk_open;
  read_byte := disk_read;
  rewind_fd := disk_rewind;
  write_fd := disk_write;
  ftruncate := disk_truncate;
  fcntl := fun _ _ _ d => (0, d);
  close_fd := fun _ d => d;
  system := fun _ d => (0, d);
  read_dir := fun p d => assoc p (directories d);
  mkdir := fun p _ d => (0, Disk (files d) (store p [] (directories d)) (descriptors d) (space d) (now d));
  clock := now;
  getpid := 100;
  nodename := $"host"
}.

(** ** The small system keeps the laws *)

Lemma assoc_store {A} k (a b : A) l : assoc k l = Some b -> assoc k (store k a l) = Some a.
Proof.
  induction l as [|[k' c] l IH]; cbn [assoc store]; [discriminate|]. destruct (streqb k k') eqn:E; cbn [assoc]; rewrite E; [reflexivity | exact IH].
Qed.

Lemma nth_replace {A} i (a b : A) l : nth_error l i = Some b -> nth_error (replace_nth i a l) i = Some a.
Proof.
  intros H. assert (i < length l)%nat by (apply nth_error_Some; congruence). unfold replace_nth.
  rewrite nth_error_app2; rewrite length_firstn, Nat.min_l by lia; [|lia]. now rewrite Nat.sub_diag.
Qed.

Definition disk_position (d : disk) (fd : Z) : option (cstring * nat) := option_map fst (descriptor fd d).

Lemma position_moved fd x y d : descriptor fd d = Some x -> disk_position (set_descriptor fd y d) fd = Some (fst y).
Proof.
  unfold disk_position, descriptor, set_descriptor. cbn [descriptors]. case_if; [discriminate|]. intros H. now rewrite (nth_replace _ _ x).
Qed.

Lemma position_is d fd p pos : disk_position d fd = Some (p, pos) -> exists w, descriptor fd d = Some (p, pos, w).
Proof. unfold disk_position. destruct (descriptor fd d) as [[[q n] w]|]; [|discriminate]. intros [= -> ->]. eauto. Qed.

Lemma position_new p w d : let r := add_descriptor (p, 0%nat, w) d in disk_position (snd r) (fst r) = Some (p, 0%nat).
Proof.
  cbn [fst snd add_descriptor]. unfold disk_position, descriptor, slot. cbn [descriptors]. case_if; [apply Z.ltb_lt in E; lia|].
  replace (Z.to_nat _) with (length (descriptors d)) by lia. rewrite nth_error_app2 by lia. now rewrite Nat.sub_diag.
Qed.

#[export] Instance disk_laws : PosixLaws disk_system.
Proof.
  refine {| contents := fun (d : @os disk_system) p => assoc p (files d); position := disk_position |}; cbn -[Nat.ltb].
  - intros o p data ->. reflexivity.
  - intros o p data flags mode fd o' H _. unfold disk_open. rewrite H. intros E _. split.
    + injection E as _ <-. exact H.
    + pose proof (position_new p (Z.land flags O_RDWR =? O_RDWR) o) as Hp. rewrite E in Hp. exact Hp.
  - intros o fd p data pos [H Hp]. destruct (position_is _ _ _ _ Hp) as [w E]. unfold disk_read. rewrite E, H.
    eexists. split; [reflexivity|]. case_if; split; trivial; now apply (position_moved _ (p, pos, w)).
  - intros o fd p data pos r o' [H Hp]. destruct (position_is _ _ _ _ Hp) as [w E]. unfold disk_rewind. rewrite E.
    intros [= <- <-] _. split; [exact H|]. now apply (position_moved _ (p, pos, w)).
  - intros o fd p data pos s r o' [H Hp]. destruct (position_is _ _ _ _ Hp) as [w E]. unfold disk_write. rewrite E, H.
    destruct w; [|intros [= <- <-]; lia]. intros [= <- <-] _. rewrite Nat2Z.id. split; [lia|]. split.
    + cbn. now apply (assoc_store _ _ data).
    + apply (position_moved _ (p, pos, true)). exact E.
  - intros o fd p data pos n r o' [H Hp] Hn. destruct (position_is _ _ _ _ Hp) as [w E]. unfold disk_truncate. rewrite E, H.
    destruct w; [|intros [= <- <-]; lia]. intros [= <- <-] _. rewrite Nat2Z.id. split; [cbn; now apply (assoc_store _ _ data) | exact Hp].
  - intros o fd p data pos H. exact H.
Defined.
