(* ===== verification/IcalFileset.v ===== *)
(** * Sets of components in one file (libicalss/icalcluster.c, icalfileset.c)

    A cluster is a key with an XROOT component; a file set is an XROOT component that
    is read from a file when the set is opened and written back when it is committed.
    A gauge selected for the set restricts the components it returns.

    A set is a value that every operation returns changed; [stop] stands for an
    assertion that fails and for what has no meaning in C.  Sets and clusters that are
    passed are not null.  The internal iterators inside the components of a set are
    not followed where an operation only looks at them; the iterator of the set is. *)
From Stdlib Require Import String Ascii ZArith Lia Bool List.
From S2P Require Import Prelude CString IcalError IcalTime IcalRecurType IcalRecurIter IcalValueText IcalValue IcalLine IcalParameter IcalProperty IcalComponent IcalParser IcalComponentZones IcalTimezone IcalComponentAccess IcalComponentRecur IcalMessage IcalSsLexer IcalSsYacc IcalGauge IcalPosix.
Import ListNotations.
#[local] Open Scope Z_scope.
#[local] Open Scope cstring_scope.
#[local] Open Scope sys_scope.

(** On Linux. *)
Definition MAXPATHLEN : nat := Z.to_nat 4096.

Section Filesets.
Context `{POSIX : Posix} `{PROPS : PropertyTables} `{PARAMS : ParameterTables} `{FLOAT : FloatOps} `{TZ : TimezoneConv}.

(** How the parser treats unknown tokens, and the bound on the lines of a file, on the
    pieces of a line, and on the occurrences of a rule. *)
Context (tok : ical_unknown_token_handling) (fuel : nat).

(** ** Components *)

Definition new_xroot : sys icalcomponent :=
  a <- new_address ;;
  match icalcomponent_new a ICAL_XROOT_COMPONENT with Some c => sret c | None => stop end.

Definition add_child (parent child : icalcomponent) : sys icalcomponent :=
  r <- slift (icalcomponent_add_component parent child) ;; sret (fst r).

Definition clone_component (c : icalcomponent) : sys icalcomponent :=
  next <- free_address ;;
  '(d, next) <- slift (icalcomponent_clone next c) ;;
  set_next next ;;;
  match d with Some d => sret d | None => stop end.

(** ** Clusters *)

Record icalcluster := Cluster {
  cl_key : cstring;
  cl_data : icalcomponent;
  cl_changed : Z
}.

Definition icalcluster_new (key : cstring) (data : option icalcomponent) : sys icalcluster :=
  d <- (match data with
        | Some data =>
            if negb (ckind_eqb (icalcomponent_isa data) ICAL_XROOT_COMPONENT)
            then root <- new_xroot ;; add_child root data
            else clone_component data
        | None => new_xroot
        end) ;;
  sret (Cluster key d 0).

Definition icalcluster_clone (old : icalcluster) : sys icalcluster :=
  d <- clone_component (cl_data old) ;; sret (Cluster (cl_key old) d 0).

Definition icalcluster_key (impl : icalcluster) : cstring := cl_key impl.
Definition icalcluster_is_changed (impl : icalcluster) : Z := cl_changed impl.
Definition icalcluster_mark (impl : icalcluster) : icalcluster := Cluster (cl_key impl) (cl_data impl) 1.
Definition icalcluster_commit (impl : icalcluster) : icalcluster := Cluster (cl_key impl) (cl_data impl) 0.
Definition set_cluster_data (d : icalcomponent) (impl : icalcluster) : icalcluster := Cluster (cl_key impl) d (cl_changed impl).

(** [abort] when the data are not an XROOT. *)
Definition icalcluster_get_component (impl : icalcluster) : sys icalcomponent :=
  if negb (ckind_eqb (icalcomponent_isa (cl_data impl)) ICAL_XROOT_COMPONENT) then stop else sret (cl_data impl).

Definition icalcluster_add_component (impl : icalcluster) (child : option icalcomponent) : sys (icalerrorenum * icalcluster) :=
  match child with
  | None => stop
  | Some child => d <- add_child (cl_data impl) child ;; sret (ICAL_NO_ERROR, icalcluster_mark (set_cluster_data d impl))
  end.

Definition icalcluster_remove_component (impl : icalcluster) (child : option icalcomponent) : sys (icalerrorenum * icalcluster) :=
  match child with
  | None => stop
  | Some child =>
      sret (ICAL_NO_ERROR, icalcluster_mark (set_cluster_data (snd (icalcomponent_remove_component child (cl_data impl))) impl))
  end.

Definition icalcluster_count_components (impl : icalcluster) (kind : icalcomponent_kind) : Z :=
  icalcomponent_count_components kind (cl_data impl).

Definition icalcluster_get_current_component (impl : icalcluster) : sys (option icalcomponent) :=
  slift (icalcomponent_get_current_component (cl_data impl)).

Definition icalcluster_get_first_component (impl : icalcluster) : option icalcomponent * icalcluster :=
  let '(c, d) := icalcomponent_get_first_component ICAL_ANY_COMPONENT (cl_data impl) in (c, set_cluster_data d impl).

Definition icalcluster_get_next_component (impl : icalcluster) : sys (option icalcomponent * icalcluster) :=
  '(c, d) <- slift (icalcomponent_get_next_component ICAL_ANY_COMPONENT (cl_data impl)) ;; sret (c, set_cluster_data d impl).

(** ** File sets *)

Record icalfileset_options := FilesetOptions {
  fo_flags : Z;
  fo_mode : Z;
  safe_saves : Z;
  fo_cluster : option icalcluster
}.

(** The mode is 0644. *)
Definition icalfileset_options_default : icalfileset_options := FilesetOptions (Z.lor O_RDWR O_CREAT) 420 0 None.

Record icalfileset := Fileset {
  fs_path : option cstring;
  fs_options : icalfileset_options;
  fs_cluster : option icalcomponent;
  fs_gauge : option icalgauge_impl;
  fs_changed : Z;
  fs_fd : Z
}.

(** The memory of a new set is cleared. *)
Definition blank_fileset : icalfileset := Fileset None (FilesetOptions 0 0 0 None) None None 0 0.

Definition set_path (p : option cstring) (o : icalfileset_options) (s : icalfileset) : icalfileset :=
  Fileset p o (fs_cluster s) (fs_gauge s) (fs_changed s) (fs_fd s).
Definition set_cluster (c : option icalcomponent) (s : icalfileset) : icalfileset :=
  Fileset (fs_path s) (fs_options s) c (fs_gauge s) (fs_changed s) (fs_fd s).
Definition set_gauge (g : option icalgauge_impl) (s : icalfileset) : icalfileset :=
  Fileset (fs_path s) (fs_options s) (fs_cluster s) g (fs_changed s) (fs_fd s).
Definition set_changed (n : Z) (s : icalfileset) : icalfileset :=
  Fileset (fs_path s) (fs_options s) (fs_cluster s) (fs_gauge s) n (fs_fd s).
Definition set_fd (fd : Z) (s : icalfileset) : icalfileset :=
  Fileset (fs_path s) (fs_options s) (fs_cluster s) (fs_gauge s) (fs_changed s) fd.

Definition icalfileset_path (s : icalfileset) : option cstring := fs_path s.
Definition icalfileset_mark (s : icalfileset) : icalfileset := set_changed 1 s.
Definition icalfileset_get_component (s : icalfileset) : option icalcomponent := fs_cluster s.

(** *** Reading *)

(** At most [n] characters from [p] on, until a line feed or a read that fails; the
    place of the character that could not be read is passed over all the same. *)
Fixpoint read_chars (fd : Z) (n p : nat) (s : cstring) (o : os) : nat * cstring * os :=
  match n with
  | O => (p, s, o)
  | S n =>
      match read_byte fd o with
      | (Some c, o) => let s := set_nth p c s in if Ascii.eqb c LF then (S p, s, o) else read_chars fd n (S p) s o
      | (None, o) => (S p, s, o)
      end
  end.

(** The buffer has TMP_BUF_SIZE characters. *)
Definition icalfileset_read_from_file (fd : Z) (s : cstring) (o : os) : bool * cstring * os :=
  let '(p, s, o) := read_chars fd (TMP_BUF_SIZE - 1) 0 s o in
  let s := set_nth p NUL s in
  (negb (Ascii.eqb (nth_char s 0) NUL), s, o).

Definition parse_file (fd : Z) : sys (option icalcomponent) := fun w =>
  bind (icalparser_parse tok (icalfileset_read_from_file fd) fuel fuel icalparser_new_lines (w_os w) (icalparser_new (w_next w)))
    (fun r => let '(root, parser, o) := r in ret (root, World o (next_addr parser))).

(** A file that could not be parsed is an empty set. *)
Definition icalfileset_read_file (set : icalfileset) : sys (icalerrorenum * icalfileset) :=
  root <- parse_file (fs_fd set) ;;
  e <- slift get_icalerrno ;;
  slift (match root, e with Some _, ICAL_NO_ERROR => ret tt | _, _ => icalerror_set_errno ICAL_PARSE_ERROR end) ;;;
  match root with
  | None =>
      slift (icalerror_set_errno ICAL_BADARG_ERROR) ;;;
      c <- new_xroot ;; slift (icalerror_set_errno ICAL_BADARG_ERROR) ;;; sret (ICAL_NO_ERROR, set_cluster (Some c) set)
  | Some cl =>
      if negb (ckind_eqb (icalcomponent_isa cl) ICAL_XROOT_COMPONENT)
      then c <- new_xroot ;; c <- add_child c cl ;; sret (ICAL_NO_ERROR, set_cluster (Some c) set)
      else sret (ICAL_NO_ERROR, set_cluster (Some cl) set)
  end.

Definition icalfileset_filesize (path : cstring) : sys Z :=
  r <- ask (stat path) ;;
  match r with
  | NoEntry => sret 0
  | Regular size => sret size
  | StatFails | Directory | OtherFile => slift (icalerror_set_errno ICAL_FILE_ERROR) ;;; sret (-1)
  end.

Definition icalfileset_lock (fd : Z) : sys Z :=
  if negb (0 <? fd) then slift (badarg 0) else call (fcntl fd F_SETLKW F_WRLCK).

(** The command is F_UNLCK, and the lock is a write lock: nothing is unlocked. *)
Definition icalfileset_unlock (fd : Z) : sys Z :=
  if negb (0 <? fd) then slift (badarg 0) else call (fcntl fd F_UNLCK F_WRLCK).

(** *** Writing *)

(** A quote ends the quoted text, is quoted itself, and begins it again. *)
Definition shell_quote (s : cstring) : cstring :=
  flat_map (fun c => if Ascii.eqb c "'" then ["'"%char; DQUOTE; c; DQUOTE; "'"%char] else [c]) s.

(** The command that copies the file; the quoted name is not used. *)
Definition backup_command (path : cstring) : cstring :=
  snprintf MAXPATHLEN ($"cp '" ++ path ++ $"' '" ++ path ++ $".bak'").

(** Whether all was written, the components, the iterator over them and the size. *)
Fixpoint write_components (fd : Z) (done todo : list icalcomponent) (write_size : Z)
  : sys (bool * list icalcomponent * pvl_iter * Z) :=
  match todo with
  | [] => sret (true, done, NoElem, write_size)
  | c :: rest =>
      '(str, c) <- slift (icalcomponent_as_ical_string_r c) ;;
      match str with
      | None => stop
      | Some str =>
          sz <- call (write_fd fd str) ;;
          if negb (sz =? Z.of_nat (length str))
          then slift (icalerror_set_errno ICAL_FILE_ERROR) ;;; sret (false, done ++ c :: rest, AtElem (length done), write_size)
          else write_components fd (done ++ [c]) rest (write_size + sz)
      end
  end.

(** [safe_saves]: the file is copied before. *)
Definition make_backup (fset : icalfileset) : sys bool :=
  if safe_saves (fs_options fset) =? 1 then
    match fs_path fset with
    | None => stop
    | Some p => r <- call (system (backup_command p)) ;; sret (negb (r <? 0))
    end
  else sret true.

Definition file_error {A} (a : A) : sys (icalerrorenum * A) :=
  slift (icalerror_set_errno ICAL_FILE_ERROR) ;;; sret (ICAL_FILE_ERROR, a).

Definition icalfileset_commit (fset : icalfileset) : sys (icalerrorenum * icalfileset) :=
  if negb (0 <? fs_fd fset) then stop
  else if fs_changed fset =? 0 then sret (ICAL_NO_ERROR, fset)
  else
    saved <- make_backup fset ;;
    if negb saved then file_error fset
    else
      r <- call (rewind_fd (fs_fd fset)) ;;
      if r <? 0 then file_error fset
      else
        match fs_cluster fset with
        | None => stop
        | Some cl =>
            '(all, cs, it, write_size) <- write_components (fs_fd fset) [] (co_components cl) 0 ;;
            let fset := set_cluster (Some (with_components cs it cl)) fset in
            if negb all then sret (ICAL_FILE_ERROR, fset)
            else
              let fset := set_changed 0 fset in
              t <- call (ftruncate (fs_fd fset) write_size) ;;
              sret (if t <? 0 then ICAL_FILE_ERROR else ICAL_NO_ERROR, fset)
        end.

(** *** Opening and closing *)

Definition icalfileset_free (fset : icalfileset) : sys icalfileset :=
  fset <- (match fs_cluster fset with
           | Some _ => '(_, fset) <- icalfileset_commit fset ;; sret (set_cluster None fset)
           | None => sret fset
           end) ;;
  let fset := set_gauge None fset in
  fset <- (if 0 <? fs_fd fset
           then icalfileset_unlock (fs_fd fset) ;;; call (fun o => (tt, close_fd (fs_fd fset) o)) ;;; sret (set_fd (-1) fset)
           else sret fset) ;;
  sret (set_path None (fs_options fset) fset).

(** Whether a set is returned, and what is left of the memory. *)
Definition icalfileset_init (fset : icalfileset) (path : option cstring) (options_in : option icalfileset_options)
  : sys (bool * icalfileset) :=
  let options := match options_in with Some o => o | None => icalfileset_options_default end in
  slift icalerror_clear_errno ;;;
  match path with
  | None => slift (badarg (false, fset))
  | Some p =>
      let fset := set_path (Some p) options fset in
      cluster_file_size <- icalfileset_filesize p ;;
      if cluster_file_size <? 0 then fset <- icalfileset_free fset ;; sret (false, fset)
      else
        fd <- call (open_file p (fo_flags options) (fo_mode options)) ;;
        let fset := set_fd fd fset in
        if fd <? 0 then slift (icalerror_set_errno ICAL_FILE_ERROR) ;;; fset <- icalfileset_free fset ;; sret (false, fset)
        else
          icalfileset_lock fd ;;;
          '(e, fset) <- (if 0 <? cluster_file_size then icalfileset_read_file fset else sret (ICAL_NO_ERROR, fset)) ;;
          match e with
          | ICAL_NO_ERROR =>
              fset <- (match fo_cluster options with
                       | Some cl =>
                           c <- icalcluster_get_component cl ;; c <- clone_component c ;; sret (set_changed 1 (set_cluster (Some c) fset))
                       | None => sret fset
                       end) ;;
              fset <- (match fs_cluster fset with
                       | Some _ => sret fset
                       | None => c <- new_xroot ;; sret (set_cluster (Some c) fset)
                       end) ;;
              sret (true, fset)
          | _ => fset <- icalfileset_free fset ;; sret (false, fset)
          end
  end.

(** [icalset_new] of a file set: the set is freed once more when there is none. *)
Definition new_fileset (path : cstring) (options : option icalfileset_options) : sys (option icalfileset) :=
  '(ok, fset) <- icalfileset_init blank_fileset (Some path) options ;;
  if (ok : bool) then sret (Some fset) else icalfileset_free fset ;;; sret None.

Definition icalfileset_new (path : cstring) : sys (option icalfileset) := new_fileset path (Some icalfileset_options_default).

Definition read_only_options : icalfileset_options := FilesetOptions O_RDONLY 420 0 None.
Definition icalfileset_new_reader (path : cstring) : sys (option icalfileset) := new_fileset path (Some read_only_options).
(** The flags are those of a reader. *)
Definition icalfileset_new_writer (path : cstring) : sys (option icalfileset) := new_fileset path (Some read_only_options).

Definition icalfileset_produce_icalcluster (path : cstring) : sys icalcluster :=
  errstate <- slift icalerror_get_errors_are_fatal ;;
  slift (icalerror_set_errors_are_fatal 0) ;;;
  fileset <- icalfileset_new_reader path ;;
  e <- slift get_icalerrno ;;
  ret <- (match fileset, e with
          | None, _ | _, ICAL_FILE_ERROR => icalcluster_new path None
          | Some fs, _ => cl <- icalcluster_new path (fs_cluster fs) ;; icalfileset_free fs ;;; sret cl
          end) ;;
  slift (icalerror_set_errors_are_fatal (if (errstate : bool) then 1 else 0)) ;;;
  slift (icalerror_set_errno ICAL_NO_ERROR) ;;;
  sret ret.

(** *** The components of a set *)

Definition set_cluster_of (s : icalfileset) : sys icalcomponent := match fs_cluster s with Some c => sret c | None => stop end.

Definition icalfileset_add_component (s : icalfileset) (child : option icalcomponent) : sys (icalerrorenum * icalfileset) :=
  match child with
  | None => stop
  | Some child => cl <- set_cluster_of s ;; cl <- add_child cl child ;; sret (ICAL_NO_ERROR, icalfileset_mark (set_cluster (Some cl) s))
  end.

Definition icalfileset_remove_component (s : icalfileset) (child : option icalcomponent) : sys (icalerrorenum * icalfileset) :=
  match child with
  | None => stop
  | Some child =>
      cl <- set_cluster_of s ;;
      sret (ICAL_NO_ERROR, icalfileset_mark (set_cluster (Some (snd (icalcomponent_remove_component child cl))) s))
  end.

Definition icalfileset_count_components (s : option icalfileset) (kind : icalcomponent_kind) : sys Z :=
  match s with
  | None => slift (icalerror_set_errno ICAL_BADARG_ERROR) ;;; sret (-1)
  | Some s => cl <- set_cluster_of s ;; sret (icalcomponent_count_components kind cl)
  end.

Definition icalfileset_select (s : icalfileset) (gauge : option icalgauge_impl) : sys (icalerrorenum * icalfileset) :=
  match gauge with None => stop | Some g => sret (ICAL_NO_ERROR, set_gauge (Some g) s) end.

Definition icalfileset_clear (s : icalfileset) : icalfileset := set_gauge None s.

(** [assert(0)]: not implemented. *)
Definition icalfileset_has_uid (s : icalfileset) (uid : cstring) : sys Z := stop.
Definition icalfileset_modify (s : icalfileset) (old new : icalcomponent) : sys icalerrorenum := stop.

(** *** Finding components *)

(** A component with the UID among the parts of one of the set. *)
Fixpoint part_with_uid (uid : cstring) (inners : list icalcomponent) : err bool :=
  match inners with
  | [] => ret false
  | inner :: rest =>
      match first_property ICAL_UID_PROPERTY inner with
      | None => part_with_uid uid rest
      | Some p =>
          bind (icalvalue_get_text (pr_value p)) (fun this_uid =>
          match this_uid with
          | None => part_with_uid uid rest
          | Some u => if streqb uid u then ret true else part_with_uid uid rest
          end)
      end
  end.

Fixpoint fetch_loop (uid : cstring) (cs : list icalcomponent) : err (option icalcomponent) :=
  match cs with
  | [] => ret None
  | this :: rest =>
      bind (part_with_uid uid (co_components this)) (fun found =>
      if (found : bool) then ret (Some this) else fetch_loop uid rest)
  end.

(** The kind is not looked at. *)
Definition icalfileset_fetch (s : icalfileset) (kind : icalcomponent_kind) (uid : cstring) : sys (option icalcomponent) :=
  cl <- set_cluster_of s ;; slift (fetch_loop uid (co_components cl)).

Record icalfileset_id := FilesetId {
  id_uid : option cstring;
  recurrence_id : option cstring;
  id_sequence : Z
}.

(** A component without an inner one or without a UID fails an assertion. *)
Definition icalfileset_get_id (comp : icalcomponent) : err icalfileset_id :=
  match fst (icalcomponent_get_first_real_component comp) with
  | None => undefined
  | Some inner =>
      match first_property ICAL_UID_PROPERTY inner with
      | None => undefined
      | Some p =>
          bind (icalvalue_get_text (pr_value p)) (fun uid =>
          match uid with
          | None => undefined
          | Some uid =>
              bind (match first_property ICAL_SEQUENCE_PROPERTY inner with
                    | None => ret 0
                    | Some p => icalvalue_get_utcoffset (pr_value p)
                    end) (fun sequence =>
              bind (match first_property ICAL_RECURRENCEID_PROPERTY inner with
                    | None => ret None
                    | Some p =>
                        match pr_value p with
                        | None => undefined
                        | Some v => bind (icalvalue_as_ical_string_r v) (fun t => match t with Some t => ret (Some t) | None => undefined end)
                        end
                    end) (fun rid =>
              ret (FilesetId (Some uid) rid sequence)))
          end)
      end
  end.

Definition _compare_ids (compid matchid : option cstring) : bool :=
  match compid, matchid with
  | Some a, Some b => streqb a b
  | None, None => true
  | _, _ => false
  end.

Fixpoint match_loop (comp_id : icalfileset_id) (cs : list icalcomponent) : err (option icalcomponent) :=
  match cs with
  | [] => ret None
  | m :: rest =>
      bind (icalfileset_get_id m) (fun match_id =>
      if _compare_ids (id_uid comp_id) (id_uid match_id) && _compare_ids (recurrence_id comp_id) (recurrence_id match_id)
      then ret (Some m) else match_loop comp_id rest)
  end.

Definition icalfileset_fetch_match (s : icalfileset) (comp : icalcomponent) : sys (option icalcomponent) :=
  comp_id <- slift (icalfileset_get_id comp) ;;
  cl <- set_cluster_of s ;; slift (match_loop comp_id (co_components cl)).

(** *** Iterating with the gauge of the set *)

Definition icalfileset_get_current_component (s : icalfileset) : sys (option icalcomponent) :=
  cl <- set_cluster_of s ;; slift (icalcomponent_get_current_component cl).

(** The values that a comparison makes are freed again. *)
Definition passes (gauge : option icalgauge_impl) (c : icalcomponent) : sys bool :=
  match gauge with
  | None => sret true
  | Some g => a <- free_address ;; slift (icalgauge_compare a (Some g) (Some c))
  end.

(** The loop that looks for the next component; [n] components are left at most. *)
Fixpoint next_passing (n : nat) (gauge : option icalgauge_impl) (r : option icalcomponent * icalcomponent)
  : sys (option icalcomponent * icalcomponent) :=
  match r with
  | (None, cl) => sret (None, cl)
  | (Some c, cl) =>
      pass <- passes gauge c ;;
      if (pass : bool) then sret (Some c, cl)
      else match n with
           | O => stop
           | S n => r <- slift (icalcomponent_get_next_component ICAL_ANY_COMPONENT cl) ;; next_passing n gauge r
           end
  end.

Definition icalfileset_get_first_component (s : icalfileset) : sys (option icalcomponent * icalfileset) :=
  cl <- set_cluster_of s ;;
  '(c, cl) <- next_passing (length (co_components cl)) (fs_gauge s) (icalcomponent_get_first_component ICAL_ANY_COMPONENT cl) ;;
  sret (c, set_cluster (Some cl) s).

Definition icalfileset_get_next_component (s : icalfileset) : sys (option icalcomponent * icalfileset) :=
  cl <- set_cluster_of s ;;
  r <- slift (icalcomponent_get_next_component ICAL_ANY_COMPONENT cl) ;;
  '(c, cl) <- next_passing (length (co_components cl)) (fs_gauge s) r ;;
  sret (c, set_cluster (Some cl) s).

(** *** External iterators (icalset.h, icalset.c) *)

(** The recurrence iterator and the component that are pending. *)
Record icalsetiter := SetIter {
  si_iter : icalcompiter;
  si_gauge : option icalgauge_impl;
  si_ritr : option icalrecur_iterator;
  si_last : option positive
}.

Definition icalsetiter_null : icalsetiter := SetIter icalcompiter_null None None None.

Definition set_iter (i : icalcompiter) (s : icalsetiter) : icalsetiter := SetIter i (si_gauge s) (si_ritr s) (si_last s).
Definition set_pending (r : option icalrecur_iterator) (l : option positive) (s : icalsetiter) : icalsetiter :=
  SetIter (si_iter s) (si_gauge s) r l.

(** The start of the occurrences; it stays what it was when there is none. *)
Definition recurrence_start (comp : icalcomponent) (start : icaltimetype) : err icaltimetype :=
  let from kind := match first_property kind comp with Some p => get_datetimedate (pr_value p) | None => ret start end in
  match icalcomponent_isa comp with
  | ICAL_VEVENT_COMPONENT => from ICAL_DTSTART_PROPERTY
  | ICAL_VTODO_COMPONENT => from ICAL_DUE_PROPERTY
  | _ => ret start
  end.

Definition next_occurrence (r : option icalrecur_iterator) : err (icaltimetype * option icalrecur_iterator) :=
  match r with
  | None => ret (icaltime_null_time, None)
  | Some i => fun st => match icalrecur_iterator_next fuel i st with Some (t, i, st) => Some ((t, Some i), st) | None => None end
  end.

Definition new_occurrences (recur : icalrecurrencetype) (start : icaltimetype) : err (icaltimetype * option icalrecur_iterator) :=
  bind (icalrecur_iterator_new fuel recur start) next_occurrence.

(** The RECURRENCE-ID that a component has is removed first. *)
Definition set_recurrence_id (next : icaltimetype) (comp : icalcomponent) : sys icalcomponent :=
  let '(prop, comp) := icalcomponent_get_first_property ICAL_RECURRENCEID_PROPERTY comp in
  let comp := match prop with Some p => snd (icalcomponent_remove_property (pr_addr p) comp) | None => comp end in
  a <- new_address ;;
  v <- slift (icalvalue_new_datetimedate next) ;;
  p <- slift (new_property a ICAL_RECURRENCEID_PROPERTY v) ;;
  sret (icalcomponent_add_property p comp).

Definition put_child (comp cl : icalcomponent) : icalcomponent :=
  with_components (replace_component comp (co_components cl)) (component_iterator cl) cl.

Definition now_time : sys icaltimetype := t <- ask clock ;; sret (icaltime_from_timet_with_zone t 0 ZONE_NULL).

(** The loop of [icalfileset_begin_component] for a set with a gauge: [n] turns. *)
Fixpoint begin_loop (n : nat) (itr : icalsetiter) (citr : icalcompiter) (start : icaltimetype) (cl : icalcomponent)
  : sys (icalsetiter * icalcomponent) :=
  match n with
  | O => stop
  | S n =>
      match icalcompiter_deref (co_components cl) citr with
      | None => sret (icalsetiter_null, cl)
      | Some comp =>
          g <- slift (icalgauge_get_expand (si_gauge itr)) ;;
          r <- (match first_property ICAL_RRULE_PROPERTY comp, g =? 1 with
                | Some rrule, true =>
                    recur <- slift (icalvalue_get_recur (pr_value rrule)) ;;
                    start <- slift (recurrence_start comp start) ;;
                    '(next, ritr) <- slift (match si_last itr with
                                            | None => new_occurrences recur start
                                            | Some _ => next_occurrence (si_ritr itr)
                                            end) ;;
                    match si_last itr, icaltime_is_null_time next with
                    | Some _, true => sret None
                    | _, _ =>
                        comp <- set_recurrence_id next comp ;;
                        sret (Some (set_pending ritr (Some (co_addr comp)) itr, start, comp, put_child comp cl))
                    end
                | _, _ => sret (Some (itr, start, comp, cl))
                end) ;;
          match r with
          | None => sret (icalsetiter_null, cl)
          | Some (itr, start, comp, cl) =>
              pass <- passes (si_gauge itr) comp ;;
              if (pass : bool) then sret (set_iter citr itr, cl)
              else
                let citr := match si_last itr with None => snd (icalcompiter_next (co_components cl) citr) | Some _ => citr end in
                begin_loop n itr citr start cl
          end
      end
  end.

Definition icalfileset_begin_component (s : icalfileset) (kind : icalcomponent_kind) (gauge : option icalgauge_impl)
  : sys (icalsetiter * icalfileset) :=
  start <- now_time ;;
  cl <- set_cluster_of s ;;
  let citr := icalcomponent_begin_component cl kind in
  match gauge with
  | None => sret (SetIter citr None None None, s)
  | Some _ =>
      '(itr, cl) <- begin_loop fuel (SetIter icalcompiter_null gauge None None) citr start cl ;;
      sret (itr, set_cluster (Some cl) s)
  end.

(** The next occurrence of the pending component, which is a component of [cl]. *)
Definition icalfileset_form_a_matched_recurrence_component (itr : icalsetiter) (cl : icalcomponent)
  : sys (option icalcomponent * icalsetiter * icalcomponent) :=
  start <- now_time ;;
  match si_last itr, si_gauge itr with
  | Some a, Some gauge =>
      match find (is_component a) (co_components cl) with
      | None => stop
      | Some comp =>
          recur <- slift (icalvalue_get_recur (match first_property ICAL_RRULE_PROPERTY comp with Some p => pr_value p | None => None end)) ;;
          start <- slift (recurrence_start comp start) ;;
          '(next, ritr) <- slift (match si_ritr itr with
                                  | None => new_occurrences recur start
                                  | Some i => next_occurrence (Some i)
                                  end) ;;
          match si_ritr itr, icaltime_is_null_time next with
          | Some _, true => sret (None, set_pending None None itr, cl)
          | _, _ =>
              comp <- set_recurrence_id next comp ;;
              pass <- passes (Some gauge) comp ;;
              sret (if (pass : bool) then Some comp else None, set_pending ritr (Some a) itr, put_child comp cl)
          end
      end
  | _, _ => sret (None, itr, cl)
  end.

(** The loop of [icalfilesetiter_to_next]: [n] components are left at most. *)
Fixpoint to_next_loop (n : nat) (i : icalsetiter) (start next : icaltimetype) (cl : icalcomponent)
  : sys (option icalcomponent * icalsetiter * icalcomponent) :=
  match n with
  | O => stop
  | S n =>
      let '(c, ci) := icalcompiter_next (co_components cl) (si_iter i) in
      let i := set_iter ci i in
      match c, si_gauge i with
      | None, _ => sret (None, i, cl)
      | Some c, None => sret (Some c, i, cl)
      | Some c, Some gauge =>
          g <- slift (icalgauge_get_expand (Some gauge)) ;;
          r <- (match first_property ICAL_RRULE_PROPERTY c, g =? 1 with
                | Some rrule, true =>
                    recur <- slift (icalvalue_get_recur (pr_value rrule)) ;;
                    start <- slift (recurrence_start c start) ;;
                    '(next, ritr) <- slift (match si_ritr i with
                                            | None => new_occurrences recur start
                                            | Some r => next_occurrence (Some r)
                                            end) ;;
                    match si_ritr i, icaltime_is_null_time next with
                    | Some _, true => sret None
                    | _, _ => sret (Some (set_pending ritr (Some (co_addr c)) i, start, next))
                    end
                | _, _ => sret (Some (i, start, next))
                end) ;;
          match r with
          | None => sret (None, set_pending None None i, cl)
          | Some (i, start, next) =>
              c <- set_recurrence_id next c ;;
              let cl := put_child c cl in
              pass <- passes (Some gauge) c ;;
              if (pass : bool) then sret (Some c, i, cl) else to_next_loop n i start next cl
          end
      end
  end.

Definition icalfilesetiter_to_next (s : icalfileset) (i : icalsetiter) : sys (option icalcomponent * icalsetiter * icalfileset) :=
  start <- now_time ;;
  next <- now_time ;;
  cl <- set_cluster_of s ;;
  '(c, i, cl) <- to_next_loop (S (length (co_components cl))) i start next cl ;;
  sret (c, i, set_cluster (Some cl) s).

(** [icalsetiter_next] and [icalsetiter_prior] over the list the iterator was made for. *)
Fixpoint setiter_loop (n : nat) (step : icalcompiter -> option icalcomponent * icalcompiter) (i : icalsetiter)
  : sys (option icalcomponent * icalsetiter) :=
  match n with
  | O => stop
  | S n =>
      let '(c, ci) := step (si_iter i) in
      let i := set_iter ci i in
      match c with
      | None => sret (None, i)
      | Some c => pass <- passes (si_gauge i) c ;; if (pass : bool) then sret (Some c, i) else setiter_loop n step i
      end
  end.

Definition icalsetiter_next (cs : list icalcomponent) (i : icalsetiter) : sys (option icalcomponent * icalsetiter) :=
  setiter_loop (S (length cs)) (icalcompiter_next cs) i.
Definition icalsetiter_prior (cs : list icalcomponent) (i : icalsetiter) : sys (option icalcomponent * icalsetiter) :=
  setiter_loop (S (length cs)) (icalcompiter_prior cs) i.
Definition icalsetiter_deref (cs : list icalcomponent) (i : icalsetiter) : option icalcomponent :=
  icalcompiter_deref cs (si_iter i).
End Filesets.
