(* ===== verification/IcalFilesetText.v ===== *)
(** * What a file set writes is what it reads

    The generator of lines over a file gives the parser of a text of whole lines the
    same pieces as the generator over a string, so that the lines of a committed file
    are the ones that were written; several components one after the other come back
    as the parts of an XROOT.  The theorem at the end puts [icalfileset_commit] and
    [icalfileset_init] together, for every system that keeps the laws of
    [PosixLaws]. *)
From Stdlib Require Import String Ascii ZArith Lia Bool List.
From S2P Require Import Prelude CString IcalError IcalTime IcalTimeCalendar IcalTimeText IcalValueText IcalValue IcalLine IcalParameter IcalProperty IcalComponent IcalParser IcalDesignData IcalValueSafe IcalParserSafe IcalParserTotal IcalParserExamples IcalPropertyText IcalComponentText IcalPosix IcalFileset.
Import ListNotations.
#[local] Open Scope Z_scope.
#[local] Open Scope cstring_scope.

(** ** The pieces of a file *)

Section Pieces.
Context {POSIX : Posix} {LAWS : PosixLaws POSIX}.
Variables (fd : Z) (p : cstring) (data : cstring).

(** The file is open and [rest] is what has not been read. *)
Definition unread (o : os) (rest : cstring) : Prop := exists pos, file_at o fd p data pos /\ skipn pos data = rest.

Lemma read_unread o c rest : unread o (c :: rest) -> exists o', read_byte fd o = (Some c, o') /\ unread o' rest.
Proof.
  intros (pos & H & E). destruct (read_law o fd p data pos H) as (o' & R & H').
  assert (nth_error data pos = Some c) as En.
  { rewrite <- (firstn_skipn pos data), E. assert (pos <= length data)%nat as Hl.
    { destruct (Nat.le_gt_cases pos (length data)) as [|G]; [assumption|]. rewrite skipn_all2 in E by lia. discriminate. }
    rewrite nth_error_app2; rewrite length_firstn, Nat.min_l by exact Hl; [|lia]. now rewrite Nat.sub_diag. }
  assert (pos < length data)%nat as Hp by (apply nth_error_Some; congruence). apply Nat.ltb_lt in Hp. rewrite Hp in H'.
  exists o'. split; [now rewrite R, En|]. exists (S pos). split; [exact H'|].
  change (S pos) with (1 + pos)%nat. now rewrite <- skipn_skipn, E.
Qed.

Lemma read_at_end o : unread o [] -> exists o', read_byte fd o = (None, o') /\ unread o' [].
Proof.
  intros (pos & H & E). destruct (read_law o fd p data pos H) as (o' & R & H').
  assert (length data <= pos)%nat as Hl.
  { pose proof (f_equal (@length ascii) E) as L. rewrite length_skipn in L. cbn in L. lia. }
  exists o'. split; [rewrite R; f_equal; now apply nth_error_None|]. exists pos. split; [|exact E].
  apply Nat.ltb_ge in Hl. now rewrite Hl in H'.
Qed.

(** Characters written one by one. *)
Lemma set_nth_app (a b : cstring) c : set_nth (length a) c (a ++ b) = a ++ match b with [] => [] | _ :: b => c :: b end.
Proof. induction a as [|x a IH]; cbn; [now destruct b | now rewrite IH]. Qed.

Lemma read_chars_line n : forall pre s w t o, lf_free w -> (n <= length s)%nat -> unread o (w ++ LF :: t) ->
  let piece := firstn n (w ++ [LF]) in
  exists o', read_chars fd n (length pre) (pre ++ s) o = ((length pre + length piece)%nat, pre ++ piece ++ skipn (length piece) s, o') /\
    unread o' (skipn (length piece) (w ++ LF :: t)).
Proof.
  induction n as [|n IH]; intros pre s w t o Hw Hs Ho piece.
  { subst piece. cbn. exists o. rewrite Nat.add_0_r. auto. }
  destruct s as [|x s]; [cbn in Hs; lia|]. cbn [read_chars].
  assert (exists c r, w ++ LF :: t = c :: r /\ (c = LF /\ w = [] /\ r = t \/ c <> LF /\ exists w', w = c :: w' /\ r = w' ++ LF :: t)) as (c & r & Er & Hc).
  { destruct w as [|c w]; cbn; eexists _, _; split; try reflexivity; [now left|]. inversion_clear Hw. right. eauto. }
  rewrite Er in Ho. destruct (read_unread o c r Ho) as (o1 & -> & H1). rewrite set_nth_app.
  destruct Hc as [(-> & -> & ->) | (Hne & w' & -> & ->)].
  - change (Ascii.eqb LF LF) with true. cbv iota. exists o1. subst piece. cbn. rewrite firstn_nil. cbn. rewrite Nat.add_1_r.
    split; [reflexivity | exact H1].
  - destruct (Ascii.eqb_spec c LF); [contradiction|]. inversion_clear Hw as [|? ? _ Hw'].
    destruct (IH (pre ++ [c]) s w' t o1 Hw' ltac:(cbn in Hs; lia) H1) as (o2 & E2 & H2). exists o2.
    rewrite length_app, <- app_assoc in E2. cbn [length app] in E2. replace (S (length pre)) with (length pre + 1)%nat by lia.
    rewrite E2. subst piece. cbn. rewrite <- !app_assoc. cbn. split; [|exact H2]. do 2 f_equal. lia.
Qed.

Lemma file_piece o s w t : lf_free w -> length s = TMP_BUF_SIZE -> nul_free w -> unread o (w ++ LF :: t) ->
  let piece := next_piece (w ++ LF :: t) in
  exists o', icalfileset_read_from_file fd s o = (true, overwrite s piece, o') /\ unread o' (skipn (length piece) (w ++ LF :: t)).
Proof.
  intros Hw Hs Hn Ho piece. unfold icalfileset_read_from_file.
  destruct (read_chars_line (TMP_BUF_SIZE - 1) [] s w t o Hw ltac:(rewrite Hs; unfold TMP_BUF_SIZE; lia) Ho) as (o' & E & H').
  assert (firstn (TMP_BUF_SIZE - 1) (w ++ [LF]) = piece) as Ep by (subst piece; now rewrite next_piece_line).
  rewrite Ep in E, H'. cbn [length app Nat.add] in E. rewrite E.
  assert (nul_free piece /\ piece <> [] /\ (length piece <= 79)%nat) as (N1 & N2 & N3).
  { subst piece. rewrite next_piece_line by exact Hw. split; [|split].
    - apply nul_free_firstn, nul_free_app. split; [exact Hn|]. repeat constructor. discriminate.
    - destruct w; discriminate.
    - rewrite length_firstn. lia. }
  exists o'. split; [|exact H']. rewrite set_nth_app.
  assert (skipn (length piece) s <> []) as Hne.
  { intros G. apply (f_equal (@length ascii)) in G. rewrite length_skipn, Hs in G. cbn in G. unfold TMP_BUF_SIZE in G. lia. }
  replace (match skipn (length piece) s with [] => [] | _ :: b => NUL :: b end) with (NUL :: skipn (S (length piece)) s).
  2:{ change (S (length piece)) with (1 + length piece)%nat. rewrite <- skipn_skipn. now destruct (skipn (length piece) s). }
  fold (overwrite s piece). destruct piece as [|c r]; [congruence|]. inversion_clear N1 as [|? ? Nc _].
  unfold nth_char, overwrite. cbn. destruct (Ascii.eqb_spec c NUL); [contradiction | reflexivity].
Qed.

Lemma file_end o s : length s = TMP_BUF_SIZE -> nth_char s 0 = NUL -> unread o [] ->
  exists s' o', icalfileset_read_from_file fd s o = (false, s', o') /\ clear s' /\ unread o' [].
Proof.
  intros Hs H0 Ho. unfold icalfileset_read_from_file. change (TMP_BUF_SIZE - 1)%nat with (S 78). cbn [read_chars].
  destruct (read_at_end o Ho) as (o' & -> & H'). exists (set_nth 1 NUL s), o'.
  assert (nth_char (set_nth 1 NUL s) 0 = NUL) as E by (now rewrite nth_set_nth, H0).
  rewrite E. change (Ascii.eqb NUL NUL) with true. split; [reflexivity|]. split; [|exact H'].
  split; [now rewrite set_char_length | exact E].
Qed.

(** ** The lines of a file *)

Lemma rest_of_lines w t : lf_free w -> nul_free w -> line_text t -> line_text (skipn (length (next_piece (w ++ LF :: t))) (w ++ LF :: t)).
Proof.
  intros Hw Hn Ht. rewrite next_piece_line by exact Hw. rewrite length_firstn, length_app. cbn [length].
  destruct (Nat.le_gt_cases (length w + 1) 79) as [L|L].
  - rewrite Nat.min_r by lia. replace (w ++ LF :: t) with ((w ++ [LF]) ++ t) by now rewrite <- app_assoc.
    replace (length w + 1)%nat with (length (w ++ [LF])) by (rewrite length_app; reflexivity). now rewrite skipn_app, Nat.sub_diag, skipn_all.
  - rewrite Nat.min_l by lia. rewrite skipn_app. replace (79 - length w)%nat with 0%nat by lia. cbn [skipn].
    constructor; [now apply lf_free_skipn | now apply nul_free_skipn | exact Ht].
Qed.

(** The buffers of the two readers are the same until the end. *)
Inductive alike : cstring -> cstring -> cstring -> Prop :=
| AlikeSame tmp rest : length tmp = TMP_BUF_SIZE -> alike tmp tmp rest
| AlikeEnd tmp1 tmp2 : clear tmp1 -> clear tmp2 -> alike tmp1 tmp2 [].

Record alike_states (a b : line_state) (rest : cstring) : Prop := AlikeStates {
  alike_full : buffer_full a = buffer_full b;
  alike_cont : continuation_line a = continuation_line b;
  alike_temp : alike (temp a) (temp b) rest
}.

Lemma transfer_alike a b rest line : alike_states a b rest ->
  snd (transfer a line) = snd (transfer b line) /\ alike_states (fst (transfer a line)) (fst (transfer b line)) rest /\
  nth_char (temp (fst (transfer a line))) 0 = NUL.
Proof.
  destruct a as [bf cont ta], b as [bf' cont' tb]. intros [Ef Ec H]. cbn in Ef, Ec, H. subst bf' cont'. unfold transfer. cbn [temp buffer_full continuation_line].
  destruct H as [tmp rest HL | ta tb [L1 H1] [L2 H2]].
  - destruct (Ascii.eqb_spec (nth_char tmp 0) NUL) as [E|E]; cbn [fst snd temp].
    + repeat split; try assumption. now constructor.
    + split; [reflexivity|]. split; [constructor; try reflexivity; apply AlikeSame; cbn [temp]; now rewrite set_char_length|].
      now rewrite nth_set_nth, HL.
  - rewrite H1, H2. change (Ascii.eqb NUL NUL) with true. cbn [fst snd temp]. repeat split; try assumption. now constructor.
Qed.

(** One request after the other is answered alike. *)
Lemma get_line_alike str fuel : forall a b o rest line, alike_states a b rest -> unread o rest -> line_text rest ->
  match get_line_loop (icalfileset_read_from_file fd) fuel a o line, get_line_loop (icalparser_string_line_generator str) fuel b (Some rest) line with
  | Some (l1, a', o'), Some (l2, b', r') => l1 = l2 /\ exists rest', r' = Some rest' /\ alike_states a' b' rest' /\ unread o' rest' /\ line_text rest'
  | None, None => True
  | _, _ => False
  end.
Proof.
  induction fuel as [|fuel IH]; intros a b o rest line Hab Ho Ht; cbn [get_line_loop]; [exact I|].
  destruct (transfer_alike a b rest line Hab) as (El & Hab' & H0).
  destruct (transfer a line) as [a1 line1], (transfer b line) as [b1 line2]. cbn [fst snd] in El, Hab', H0. subst line2.
  destruct Hab' as [Ef Ec H]. set (ta := set_nth (TMP_BUF_SIZE - 1) ONE (temp a1)). set (tb := set_nth (TMP_BUF_SIZE - 1) ONE (temp b1)).
  assert (length (temp a1) = TMP_BUF_SIZE) as HL by (destruct H as [|? ? [? _] _]; assumption).
  assert (length ta = TMP_BUF_SIZE) as HLa by (subst ta; now rewrite set_char_length).
  assert (nth_char ta 0 = NUL) as Ha0 by (subst ta; now rewrite nth_set_nth).
  destruct Ht as [|w t Hw Hn Ht].
  - destruct (file_end o ta HLa Ha0 Ho) as (sa & o' & -> & Hca & Ho'). rewrite generator_end. cbn [negb andb].
    assert (clear tb) as Hcb.
    { subst ta tb. destruct H as [|t1 t2 _ [L2 H2]].
      - split; [now rewrite set_char_length | now rewrite nth_set_nth].
      - split; [now rewrite set_char_length | now rewrite nth_set_nth, H2]. }
    rewrite (proj2 Hca), (proj2 Hcb). change (Ascii.eqb NUL NUL) with true. cbv iota.
    assert (alike_states (LineState (buffer_full a1) (continuation_line a1) sa) (LineState (buffer_full b1) (continuation_line b1) tb) []) as G
      by (constructor; cbn; [exact Ef | exact Ec | now constructor]).
    destruct line1; (split; [reflexivity|]; exists []; repeat split; try apply G; [exact Ho' | constructor]).
  - assert (ta = tb) as Et. { subst ta tb. inversion H as [tmp r _ E1 E2 | ? ? _ _ E1 E2 E3]; [congruence | destruct w; discriminate]. }
    destruct (file_piece o ta w t Hw HLa Hn Ho) as (o' & -> & Ho'). rewrite generator_line, <- Et by exact Hw.
    set (piece := next_piece (w ++ LF :: t)) in *. cbn [negb]. rewrite !andb_false_l. rewrite <- Ef. rewrite <- Ec.
    pose proof (rest_of_lines w t Hw Hn Ht) as Hrest. fold piece in Hrest.
    assert (forall bf cont, alike_states (LineState bf cont (overwrite ta piece)) (LineState bf cont (overwrite ta piece)) (skipn (length piece) (w ++ LF :: t))) as G.
    { intros bf cont. constructor; try reflexivity. apply AlikeSame. cbn [temp]. unfold overwrite. rewrite length_app. cbn [length]. rewrite length_skipn, HLa.
      assert (length piece <= 79)%nat by (subst piece; rewrite next_piece_line by exact Hw; rewrite length_firstn; lia). unfold TMP_BUF_SIZE. lia. }
    cbn [buffer_full]. destruct (_ && _ && _); [apply IH; [apply G | exact Ho' | exact Hrest]|].
    destruct (buffer_full a1); [apply IH; [apply G | exact Ho' | exact Hrest]|].
    split; [reflexivity|]. eexists. split; [reflexivity|]. split; [apply G|]. split; [exact Ho' | exact Hrest].
Qed.

Lemma read_lines_alike str fuel n : forall a b o rest, alike_states a b rest -> unread o rest -> line_text rest ->
  read_lines (icalfileset_read_from_file fd) n fuel a o = read_lines (icalparser_string_line_generator str) n fuel b (Some rest).
Proof.
  induction n as [|n IH]; intros a b o rest Hab Ho Ht; cbn [read_lines]; [reflexivity|]. unfold icalparser_get_line.
  pose proof (get_line_alike str fuel a b o rest [] Hab Ho Ht) as H.
  destruct (get_line_loop (icalfileset_read_from_file fd) fuel a o []) as [[[l1 a'] o']|],
    (get_line_loop (icalparser_string_line_generator str) fuel b (Some rest) []) as [[[l2 b'] r']|]; try contradiction; [|reflexivity].
  destruct H as (<- & rest' & -> & Hab' & Ho' & Ht'). destruct l1; [|reflexivity]. now rewrite (IH _ _ _ _ Hab' Ho' Ht').
Qed.
End Pieces.

(** More fuel gives the same lines. *)
Lemma get_line_more {G} (gen : cstring -> G -> bool * cstring * G) k : forall j p g line r, (k <= j)%nat ->
  get_line_loop gen k p g line = Some r -> get_line_loop gen j p g line = Some r.
Proof.
  induction k as [|k IH]; intros j p g line r L; cbn [get_line_loop]; [discriminate|]. destruct j as [|j]; [lia|]. cbn [get_line_loop].
  destruct (transfer p line) as [q l]. destruct (gen _ g) as [[more tmp] h]. repeat case_if; try exact id; apply IH; lia.
Qed.

Lemma read_lines_more {G} (gen : cstring -> G -> bool * cstring * G) k fuel fuel' : (fuel <= fuel')%nat -> forall j p g r, (k <= j)%nat ->
  read_lines gen k fuel p g = Some r -> read_lines gen j fuel' p g = Some r.
Proof.
  intros L. induction k as [|k IH]; intros j p g r Lk; cbn [read_lines]; [discriminate|]. destruct j as [|j]; [lia|]. cbn [read_lines]. unfold icalparser_get_line.
  destruct (get_line_loop gen fuel p g []) as [[[l q] h]|] eqn:E; [|discriminate]. rewrite (get_line_more _ _ _ _ _ _ _ L E).
  destruct l; [|exact id]. destruct (read_lines gen k fuel q h) as [ls|] eqn:El; [|discriminate]. rewrite (IH j q h ls ltac:(lia) El). exact id.
Qed.

Section Lines.
Context {POSIX : Posix} {LAWS : PosixLaws POSIX}.

(** The lines of a file are those of the string it holds. *)
Lemma file_lines fd p data o lines fuel : file_at o fd p data 0 -> line_text data -> skip_bom data = data ->
  lines_of_string data = Some lines -> (length data + 2 <= fuel)%nat ->
  read_lines (icalfileset_read_from_file fd) fuel fuel icalparser_new_lines o = Some lines.
Proof.
  intros Ho Ht Hb E L. unfold lines_of_string in E. rewrite read_lines_start, Hb in E.
  rewrite (read_lines_alike fd p data data fuel fuel _ icalparser_new_lines o data);
    [now apply (read_lines_more _ _ _ _ L _ _ _ _ L E) | now constructor; try constructor | now exists 0%nat | exact Ht].
Qed.
End Lines.

(** ** Several components *)

Section Forest.
Context `{PROPS : PropertyTables} `{PARAMS : ParameterTables} `{FLOAT : FloatOps} `{TZ : TimezoneConv}.
Variable tok : ical_unknown_token_handling.

Definition not_xroot (c : icalcomponent) : Prop := ckind_eqb (co_kind c) ICAL_XROOT_COMPONENT = false.

(** An XROOT with the components, as the parser arranges them. *)
Record holds_trees (cs : list icalcomponent) (x : icalcomponent) : Prop := HoldsTrees {
  ht_kind : co_kind x = ICAL_XROOT_COMPONENT;
  ht_good : good_component x;
  ht_trees : Forall2 same_tree (arrange cs) (co_components x)
}.

(** The component that the parser has for those it has read: one of them is not put
    into an XROOT. *)
Inductive collected : list icalcomponent -> option icalcomponent -> Prop :=
| CollectedNone : collected [] None
| CollectedOne c d : same_tree c d -> not_xroot c -> good_component d -> collected [c] (Some d)
| CollectedMany cs x : holds_trees cs x -> collected cs (Some x).

Lemma arrange_snoc cs c : arrange (cs ++ [c]) = place c (arrange cs).
Proof. unfold arrange. now rewrite fold_left_app. Qed.

Lemma xroot_holds a : holds_trees [] (opened a ICAL_XROOT_COMPONENT).
Proof. repeat constructor. Qed.

Lemma runs_add_tree cs x c d : holds_trees cs x -> same_tree c d -> good_component d ->
  runs (icalcomponent_add_component x d) (fun r => holds_trees (cs ++ [c]) (fst r)).
Proof.
  intros [Hk Hg Ht] Hc Hd. eapply runs_weaken; [now apply runs_add_child|]. cbv beta.
  intros r [[G1 (d' & Ed & Ep) _ _ _ G2 _ _] _]. constructor; [congruence | exact G1|].
  rewrite arrange_snoc, Ep. apply place_same; [now apply (same_tree_erase c d) | exact Ht].
Qed.

Definition at_rest (P : icalparser) : Prop := parser_ok P /\ root_component P = None /\ open_components P = [].

Lemma runs_collect_tree P cs root c d : at_rest P -> collected cs root -> same_tree c d -> good_component d -> not_xroot c ->
  runs (collect_root P root d) (fun r => collected (cs ++ [c]) (fst r) /\ at_rest (snd r)).
Proof.
  intros (Hp & Hr & Ho) Hcs Hc Hd Hx. unfold collect_root. rewrite Hr, Ho.
  assert (at_rest (snd (new_addr P))) as Hn.
  { split; [apply (stays_new_addr P Hp) | split; assumption]. }
  destruct Hcs as [|c1 d1 H1 Hx1 Hg1 | cs x Hh].
  - apply runs_ret. split; [now apply CollectedOne | exact (conj Hp (conj Hr Ho))].
  - rewrite (same_kind _ _ H1), Hx1. cbn [negb]. unfold new_addr in *. cbn [snd] in Hn. unfold icalcomponent_new, icalcomponent_new_impl.
    change (icalcomponent_kind_is_valid ICAL_XROOT_COMPONENT) with true. cbv iota.
    eapply runs_bind; [apply (runs_add_tree [] _ c1 d1 (xroot_holds _) H1 Hg1)|]. intros x Hh.
    eapply runs_bind; [apply (runs_add_tree _ _ c d Hh Hc Hd)|]. intros y Hy. apply runs_ret. split; [now apply CollectedMany | exact Hn].
  - rewrite (ht_kind _ _ Hh). cbn. eapply runs_bind; [apply (runs_add_tree _ _ c d Hh Hc Hd)|]. intros y Hy. apply runs_ret.
    split; [now apply CollectedMany | exact (conj Hp (conj Hr Ho))].
Qed.

Lemma runs_forest cs : forall ms P done root, forest_lines tok cs ms -> Forall not_xroot cs -> at_rest P -> collected done root ->
  runs (parse_lines tok ms P root) (fun r => collected (done ++ cs) (fst r)).
Proof.
  induction cs as [|c cs IH]; intros ms P done root Hf Hx HP Hd; inversion Hf as [|c' ls cs' ms' Hc Hcs]; subst.
  - cbn [parse_lines]. unfold icalparser_add_line. apply runs_bind_ret. apply runs_ret. now rewrite app_nil_r.
  - inversion_clear Hx as [|? ? Hxc Hxs]. destruct HP as (Hp & Hr & Ho). intros st Hst.
    destruct (tree_read tok c ls Hc P Hp st Hst) as (P1 & st1 & E & Hst1 & Hp1 & d & Ho1 & Hsame).
    rewrite (feed_parse _ _ _ _ _ _ _ _ E). rewrite Ho in Ho1. revert st1 Hst1 E. intros st1 Hst1 _. revert st1 Hst1.
    change (runs (parse_lines tok (end_line c :: ms') P1 root) (fun r => collected (done ++ c :: cs) (fst r))).
    cbn [parse_lines]. eapply runs_bind; [apply (runs_last_end tok P1 c d); [now apply (tree_named tok c ls) | exact Hp1 | exact Ho1]|].
    cbv beta. intros [o Q] (Eo & Hq). cbn [fst snd] in *. subst o. assert (good_component d) as Hgd.
    { destruct Hp1 as [_ Hg _ _]. rewrite Ho1 in Hg. now inversion Hg. }
    eapply runs_bind; [now apply (runs_collect_tree Q done root c d)|]. cbv beta. intros [root' Q'] (Hroot & HQ'). cbn [fst snd] in *.
    replace (done ++ c :: cs) with ((done ++ [c]) ++ cs) by now rewrite <- app_assoc. now apply IH.
Qed.

Lemma forest_writable cs ms : forest_lines tok cs ms -> Forall writable_line ms.
Proof.
  revert ms. induction cs as [|c cs IH]; intros ms Hf; inversion Hf as [|c' ls cs' ms' Hc Hcs]; subst; [constructor|].
  replace (ls ++ end_line c :: ms') with ((ls ++ [end_line c]) ++ ms') by now rewrite <- app_assoc.
  apply Forall_app. split; [now apply (tree_writable tok) | now apply IH].
Qed.

Lemma forest_text_lines cs ms : forest_lines tok cs ms -> cs <> [] ->
  skip_bom (folded_text ms) = folded_text ms /\ lines_of_string (folded_text ms) = Some ([] :: ms).
Proof.
  intros Hf Hne. assert (skip_bom (folded_text ms) = folded_text ms) as Hb.
  { inversion Hf as [|c ls cs' ms' Hc Hcs]; subst; [congruence|]. destruct Hc as [c ls ms1 Hc _ _].
    destruct (named_facts c Hc) as (_ & _ & _ & _ & _ & Eb & _). cbn [app].
    change (begin_line c :: (ls ++ ms1) ++ end_line c :: ms') with ([begin_line c] ++ (ls ++ ms1) ++ end_line c :: ms').
    rewrite folded_app. unfold folded_text at 1 3. cbn [flat_map]. rewrite Eb. reflexivity. }
  split; [exact Hb|]. apply folded_lines_read; [now apply (forest_writable cs) | | exact Hb].
  inversion Hf as [|c ls cs' ms' Hc Hcs]; subst; [congruence|]. destruct ls; discriminate.
Qed.
End Forest.

(** ** Functions on sets that return *)

Section Triples.
Context {POSIX : Posix}.

Definition sruns {A} (m : sys A) (w : world) (Q : A -> world -> Prop) : Prop := runs (m w) (fun r => Q (fst r) (snd r)).

Lemma sruns_ret {A} (a : A) w (Q : A -> world -> Prop) : Q a w -> sruns (sret a) w Q.
Proof. intros H. now apply runs_ret. Qed.

Lemma sruns_bind {A B} (m : sys A) (k : A -> sys B) w (P : A -> world -> Prop) (Q : B -> world -> Prop) :
  sruns m w P -> (forall a w', P a w' -> sruns (k a) w' Q) -> sruns (sbind m k) w Q.
Proof. intros Hm Hk. eapply runs_bind; [exact Hm|]. intros [a w'] H. now apply Hk. Qed.

Lemma sruns_lift {A} (m : err A) w (P : A -> Prop) : runs m P -> sruns (slift m) w (fun a w' => P a /\ w' = w).
Proof. intros H. eapply runs_bind; [exact H|]. intros a Ha. now apply runs_ret. Qed.

Lemma sruns_call {A} (f : os -> A * os) w : sruns (call f) w (fun a w' => f (w_os w) = (a, w_os w')).
Proof. apply runs_ret. cbn. apply surjective_pairing. Qed.

Lemma sruns_ask {A} (f : os -> A) w : sruns (ask f) w (fun a w' => a = f (w_os w) /\ w' = w).
Proof. apply runs_ret. now split. Qed.

Lemma sruns_weaken {A} (m : sys A) w (P Q : A -> world -> Prop) : sruns m w P -> (forall a w', P a w' -> Q a w') -> sruns m w Q.
Proof. intros H HPQ. eapply runs_weaken; [exact H|]. intros [a w'] Ha. now apply HPQ. Qed.

Lemma sruns_errno e w : sruns (slift (icalerror_set_errno e)) w (fun _ w' => w' = w).
Proof. eapply sruns_weaken; [apply (sruns_lift _ w any), runs_set_errno|]. now intros a w' [_ H]. Qed.
End Triples.

Ltac step lemma := eapply sruns_bind; [apply lemma|]; cbv beta.

(** ** Writing *)

Section Files.
Context `{POSIX : Posix} {LAWS : PosixLaws POSIX} `{PROPS : PropertyTables} `{PARAMS : ParameterTables} `{FLOAT : FloatOps} `{TZ : TimezoneConv}.
Context (tok : ical_unknown_token_handling) (fuel : nat).

Lemma splice_front (a s data : cstring) : splice (a ++ skipn (length a) data) (length a) s = (a ++ s) ++ skipn (length (a ++ s)) data.
Proof.
  unfold splice. rewrite firstn_app, firstn_all, Nat.sub_diag, firstn_O, app_nil_r.
  replace (length a - length (a ++ skipn (length a) data))%nat with 0%nat by (rewrite length_app; lia). cbn [repeat app].
  rewrite skipn_app, skipn_all2 by lia. cbn [app]. replace (length a + length s - length a)%nat with (length s) by lia.
  rewrite skipn_skipn, length_app, <- app_assoc. do 3 f_equal. lia.
Qed.

Lemma write_components_all fd p data cs : forall ms done written w, forest_lines tok cs ms ->
  file_at (w_os w) fd p (written ++ skipn (length written) data) (length written) ->
  sruns (write_components fd done cs (Z.of_nat (length written))) w (fun r w' =>
    let '(all, _, _, size) := r in
    all = true -> let text := written ++ folded_text ms in
    size = Z.of_nat (length text) /\ file_at (w_os w') fd p (text ++ skipn (length text) data) (length text)).
Proof.
  induction cs as [|c cs IH]; intros ms done written w Hf Hw; inversion Hf as [|c' ls cs' ms' Hc Hcs]; subst; cbn [write_components].
  - apply sruns_ret. intros _. cbn [folded_text flat_map]. rewrite app_nil_r. auto.
  - step (sruns_lift _ w _ (tree_written tok c ls Hc)). intros [o c'] w1 [E ->]. cbn [fst] in E. subst o. set (s := folded_text (ls ++ [end_line c])).
    step (sruns_call (write_fd fd s) w). intros sz w1 E.
    destruct (Z.eqb_spec sz (Z.of_nat (length s))) as [->|Hne]; cbn [negb].
    + destruct (write_law _ _ _ _ _ _ _ _ Hw E ltac:(lia)) as [_ H1]. rewrite Nat2Z.id, firstn_all, splice_front in H1.
      replace (Z.of_nat (length written) + Z.of_nat (length s)) with (Z.of_nat (length (written ++ s))) by (rewrite length_app; lia).
      replace (length written + length s)%nat with (length (written ++ s)) in H1 by apply length_app.
      eapply sruns_weaken; [apply (IH ms' _ _ _ Hcs H1)|]. intros [[[all cs1] it] size] w2 H Hall. specialize (H Hall). cbv zeta in *.
      replace (written ++ folded_text (ls ++ end_line c :: ms')) with ((written ++ s) ++ folded_text ms'); [exact H|].
      replace (ls ++ end_line c :: ms') with ((ls ++ [end_line c]) ++ ms') by now rewrite <- app_assoc.
      now rewrite folded_app, <- app_assoc.
    + step (sruns_errno ICAL_FILE_ERROR w1). intros _ w2 ->. apply sruns_ret. discriminate.
Qed.

Record open_set (fset : icalfileset) (cl : icalcomponent) (p : cstring) (o : os) : Prop := OpenSet {
  os_fd : 0 < fs_fd fset;
  os_cluster : fs_cluster fset = Some cl;
  os_path : fs_path fset = Some p;
  os_file : exists data pos, file_at o (fs_fd fset) p data pos
}.

(** What a commit leaves: the file holds the text of the components, or an error is
    returned. *)
Lemma commit_writes fset cl p ms w : open_set fset cl p (w_os w) -> fs_changed fset <> 0 -> safe_saves (fs_options fset) <> 1 ->
  forest_lines tok (co_components cl) ms ->
  sruns (icalfileset_commit fset) w (fun r w' =>
    (fst r = ICAL_FILE_ERROR) \/
    (fst r = ICAL_NO_ERROR /\ fs_changed (snd r) = 0 /\ fs_fd (snd r) = fs_fd fset /\
     file_at (w_os w') (fs_fd fset) p (folded_text ms) (length (folded_text ms)))).
Proof.
  intros [Hfd Hcl Hp (data & pos & Hfile)] Hch Hss Hf. unfold icalfileset_commit.
  destruct (Z.ltb_spec 0 (fs_fd fset)); [|lia]. cbn [negb]. destruct (Z.eqb_spec (fs_changed fset) 0); [contradiction|].
  unfold make_backup. destruct (Z.eqb_spec (safe_saves (fs_options fset)) 1); [contradiction|].
  step (sruns_ret true w (fun b w' => b = true /\ w' = w) (conj eq_refl eq_refl)). intros b w' [-> ->]. cbn [negb].
  step (sruns_call (rewind_fd (fs_fd fset)) w). intros r w1 E1. destruct (Z.ltb_spec r 0) as [Hr|Hr].
  { unfold file_error. step (sruns_errno ICAL_FILE_ERROR w1). intros _ w2 ->. apply sruns_ret. now left. }
  pose proof (rewind_law _ _ _ _ _ _ _ Hfile E1 Hr) as H1. rewrite Hcl.
  step (write_components_all (fs_fd fset) p data (co_components cl) ms [] [] w1 Hf H1).
  intros [[[all cs] it] size] w2 H2. cbv zeta. destruct all; cbn [negb]; [|apply sruns_ret; now left].
  destruct (H2 eq_refl) as [-> H3]. cbn [app] in H3. cbn [fs_fd set_changed set_cluster].
  step (sruns_call (ftruncate (fs_fd fset) (Z.of_nat (length ([] ++ folded_text ms)))) w2). intros t w3 E3. apply sruns_ret.
  destruct (Z.ltb_spec t 0) as [Ht|Ht]; [now left|]. right. split; [reflexivity|]. split; [reflexivity|]. split; [reflexivity|].
  cbn [app] in E3. pose proof (truncate_law _ _ _ _ _ (length (folded_text ms)) _ _ H3 ltac:(rewrite length_app; lia) E3 Ht) as H4.
  now rewrite firstn_app, firstn_all, Nat.sub_diag, firstn_O, app_nil_r in H4.
Qed.

(** ** Reading *)

Definition is_open (fd : Z) (p data : cstring) (o : os) : Prop := exists pos, file_at o fd p data pos.

Lemma read_chars_open fd p data n : forall k s o, is_open fd p data o -> is_open fd p data (snd (read_chars fd n k s o)).
Proof.
  induction n as [|n IH]; intros k s o Ho; [exact Ho|]. cbn [read_chars]. destruct Ho as [pos Ho].
  destruct (read_law _ _ _ _ _ Ho) as (o' & -> & H'). assert (is_open fd p data o') as Ho' by (eexists; exact H').
  destruct (nth_error data pos); [|exact Ho']. case_if; [exact Ho' | now apply IH].
Qed.

Lemma generator_open fd p data s o : is_open fd p data o -> is_open fd p data (snd (icalfileset_read_from_file fd s o)).
Proof.
  intros Ho. unfold icalfileset_read_from_file. pose proof (read_chars_open fd p data (TMP_BUF_SIZE - 1) 0 s o Ho) as H.
  now destruct (read_chars fd (TMP_BUF_SIZE - 1) 0 s o) as [[k t] o'].
Qed.

Lemma parse_file_reads fd p cs ms w : file_at (w_os w) fd p (folded_text ms) 0 -> forest_lines tok cs ms -> cs <> [] -> Forall not_xroot cs ->
  (length (folded_text ms) + 2 <= fuel)%nat ->
  sruns (parse_file tok fuel fd) w (fun root w' => collected cs root /\ is_open fd p (folded_text ms) (w_os w')).
Proof.
  intros Hfile Hf Hne Hx Hfuel. destruct (forest_text_lines tok cs ms Hf Hne) as [Hb El].
  pose proof (proj1 (folded_line_text ms (forest_writable tok cs ms Hf))) as Ht.
  pose proof (file_lines fd p _ _ _ fuel Hfile Ht Hb El Hfuel) as Er.
  destruct (parse_loop_lines tok _ (is_open fd p (folded_text ms)) (fun out o => generator_open fd p _ out o) _ _ _ _ _ Er (ex_intro _ 0%nat Hfile))
    as (o' & Ho' & Ep).
  unfold sruns, parse_file. eapply runs_bind with (P := fun r => collected cs (fst (fst r)) /\ snd r = o').
  - unfold icalparser_parse. eapply runs_bind; [apply runs_get_error_state|]. intros es Hes.
    eapply runs_bind; [apply runs_nonfatal_state|]. intros _ _. eapply runs_bind with (P := fun r => collected cs (fst (fst r)) /\ snd r = o').
    + intros st Hst. rewrite Ep. revert st Hst. eapply runs_bind with (P := fun r => collected cs (fst r)).
      * cbn [parse_lines]. unfold icalparser_add_line at 1. cbn [line_is_blank forallb]. apply runs_bind_ret. cbv iota beta.
        apply runs_bind_ret. cbv iota beta. apply (runs_forest tok cs ms _ [] None Hf Hx); [|constructor].
        split; [apply new_parser_ok | now split].
      * intros r Hr. now apply runs_ret.
    + intros r Hr. eapply runs_bind; [now apply runs_set_error_state|]. intros _ _. now apply runs_ret.
  - intros [[root Q] o] [Hc Ho]. cbn [fst snd] in *. subst o. apply runs_ret. now split.
Qed.

Lemma sruns_new_xroot w : sruns new_xroot w (fun c w' => holds_trees [] c /\ w_os w' = w_os w).
Proof. apply runs_ret. split; [apply xroot_holds | reflexivity]. Qed.

Lemma sruns_add_tree cs x c d w : holds_trees cs x -> same_tree c d -> good_component d ->
  sruns (add_child x d) w (fun y w' => holds_trees (cs ++ [c]) y /\ w' = w).
Proof.
  intros Hx Hc Hd. unfold add_child. step (sruns_lift _ w _ (runs_add_tree cs x c d Hx Hc Hd)). intros r w' [Hr ->]. now apply sruns_ret.
Qed.

Lemma read_file_reads set p cs ms w : file_at (w_os w) (fs_fd set) p (folded_text ms) 0 -> forest_lines tok cs ms -> cs <> [] ->
  Forall not_xroot cs -> (length (folded_text ms) + 2 <= fuel)%nat ->
  sruns (icalfileset_read_file tok fuel set) w (fun r w' =>
    fst r = ICAL_NO_ERROR /\ exists x, snd r = set_cluster (Some x) set /\ holds_trees cs x /\ is_open (fs_fd set) p (folded_text ms) (w_os w')).
Proof.
  intros Hfile Hf Hne Hx Hfuel. unfold icalfileset_read_file. step (parse_file_reads _ p cs ms w Hfile Hf Hne Hx Hfuel). intros root w1 [Hc Ho].
  step (sruns_lift _ w1 _ runs_get_errno). intros e w2 [_ ->].
  eapply sruns_bind with (P := fun _ w' => w' = w1).
  { eapply sruns_weaken; [apply (sruns_lift _ w1 any)|intros a w' [_ H]; exact H].
    destruct root, e; first [apply runs_set_errno | apply runs_ret; exact I]. }
  intros _ w2 ->. destruct Hc as [|c d Hcd Hxc Hgd|cs x Hh]; [congruence| |].
  - unfold icalcomponent_isa. rewrite (same_kind _ _ Hcd), Hxc. cbn [negb]. step (sruns_new_xroot w1). intros x w2 [Hx0 Ew].
    step (sruns_add_tree [] x c d w2 Hx0 Hcd Hgd). intros y w3 [Hy ->]. apply sruns_ret. split; [reflexivity|]. exists y.
    split; [reflexivity|]. split; [exact Hy | now rewrite Ew].
  - unfold icalcomponent_isa. rewrite (ht_kind _ _ Hh). cbn. apply sruns_ret. split; [reflexivity|]. now exists x.
Qed.

(** A file that holds the text of components is opened as a set of them. *)
Lemma init_reads p cs ms options w : contents (w_os w) p = Some (folded_text ms) -> forest_lines tok cs ms -> Forall not_xroot cs ->
  (length (folded_text ms) + 2 <= fuel)%nat -> fo_flags options = O_RDONLY \/ fo_flags options = Z.lor O_RDWR O_CREAT -> fo_cluster options = None ->
  0 <= fst (open_file p (fo_flags options) (fo_mode options) (w_os w)) ->
  sruns (icalfileset_init tok fuel blank_fileset (Some p) (Some options)) w (fun r w' =>
    fst r = true /\ fs_changed (snd r) = 0 /\ fs_path (snd r) = Some p /\ exists x, fs_cluster (snd r) = Some x /\ holds_trees cs x).
Proof.
  intros Hc Hf Hx Hfuel Hfl Hcl Hfd. unfold icalfileset_init.
  step (sruns_lift _ w _ runs_clear_errno). intros _ w1 [_ ->]. unfold icalfileset_filesize.
  eapply sruns_bind with (P := fun n w' => n = Z.of_nat (length (folded_text ms)) /\ w' = w).
  { step (sruns_ask (stat p) w). intros r w1 [-> ->]. rewrite (stat_law _ _ _ Hc). now apply sruns_ret. }
  intros n w1 [-> ->]. destruct (Z.ltb_spec (Z.of_nat (length (folded_text ms))) 0); [lia|].
  step (sruns_call (open_file p (fo_flags options) (fo_mode options)) w). intros fd w1 E. rewrite E in Hfd. cbn [fst] in Hfd.
  pose proof (open_law _ _ _ _ _ _ _ Hc Hfl E Hfd) as Hfile. destruct (Z.ltb_spec fd 0); [lia|].
  eapply sruns_bind with (P := fun _ w' => file_at (w_os w') fd p (folded_text ms) 0).
  { unfold icalfileset_lock. case_if.
    - eapply sruns_weaken; [apply (sruns_lift _ w1 any), runs_badarg; exact I|]. intros a w' [_ ->]. exact Hfile.
    - eapply sruns_weaken; [apply sruns_call|]. intros a w' Ew. pose proof (lock_law _ fd _ _ _ Hfile) as HL. now rewrite Ew in HL. }
  intros _ w2 H2. cbv zeta. set (fset := set_fd fd (set_path (Some p) options blank_fileset)).
  eapply sruns_bind with (P := fun r w' => fst r = ICAL_NO_ERROR /\
    (snd r = fset /\ cs = [] \/ exists x, snd r = set_cluster (Some x) fset /\ holds_trees cs x)).
  { destruct (Z.ltb_spec 0 (Z.of_nat (length (folded_text ms)))) as [Hpos|Hz].
    - eapply sruns_weaken; [apply (read_file_reads fset p cs ms w2 H2 Hf)|]; try assumption.
      + intros ->. inversion Hf; subst. cbn in Hpos. lia.
      + cbv beta. intros r w' (H3 & x & H4 & H5 & _). split; [exact H3|]. right. now exists x.
    - apply sruns_ret. split; [reflexivity|]. left. split; [reflexivity|]. destruct cs as [|c cs]; [reflexivity|].
      destruct (forest_text_lines tok (c :: cs) ms Hf ltac:(discriminate)) as [_ El]. destruct (folded_text ms); [|cbn in Hz; lia].
      vm_compute in El. discriminate El. }
  intros [e fs] w3 [He Hs]. cbn [fst snd] in *. subst e. rewrite Hcl.
  eapply sruns_bind; [apply sruns_ret with (Q := fun a w' => a = fs /\ w' = w3); now split|]. intros a w4 [-> ->].
  destruct Hs as [[-> ->] | (x & -> & Hh)]; cbn [fs_cluster fset set_fd set_path blank_fileset set_cluster].
  - eapply sruns_bind with (P := fun a _ => exists x, a = set_cluster (Some x) fset /\ holds_trees [] x).
    + step (sruns_new_xroot w3). intros x w4 [Hh _]. apply sruns_ret. now exists x.
    + intros a w4 (x & -> & Hh). apply sruns_ret. cbn. eauto 8.
  - eapply sruns_bind; [apply sruns_ret with (Q := fun a w' => a = set_cluster (Some x) fset /\ w' = w3); now split|].
    intros a w4 [-> ->]. apply sruns_ret. cbn. eauto 8.
Qed.

(** ** Properties *)

(** The text of the components of a set. *)
Definition set_text (cs : list icalcomponent) : cstring := folded_text (forest_content cs).

(** C30: a set is opened as it was committed.  For a changed set without backups whose
    components can be stored ([storable], no XROOT among them), [icalfileset_commit]
    returns, on every system that keeps the laws; it returns ICAL_FILE_ERROR, because
    a system call failed, or the file holds exactly the text of the components,
    whatever it held before.  Whenever the file holds that text,
    [icalfileset_init] returns a set with the same components, unless it cannot open
    the file; time zones come first, the last one in front. *)
Theorem committed_set_is_reopened fset cl p w st :
  open_set fset cl p (w_os w) -> fs_changed fset <> 0 -> safe_saves (fs_options fset) <> 1 ->
  Forall (storable tok) (co_components cl) -> Forall not_xroot (co_components cl) ->
  (length (set_text (co_components cl)) + 2 <= fuel)%nat -> quiet st ->
  exists e fset' w' st', icalfileset_commit fset w st = Some ((e, fset'), w', st') /\ quiet st' /\
    (e = ICAL_FILE_ERROR \/
     e = ICAL_NO_ERROR /\ fs_changed fset' = 0 /\ contents (w_os w') p = Some (set_text (co_components cl)) /\
     forall options w2 st2, contents (w_os w2) p = Some (set_text (co_components cl)) ->
       fo_flags options = O_RDONLY \/ fo_flags options = Z.lor O_RDWR O_CREAT -> fo_cluster options = None ->
       0 <= fst (open_file p (fo_flags options) (fo_mode options) (w_os w2)) -> quiet st2 ->
       exists again w3 st3, icalfileset_init tok fuel blank_fileset (Some p) (Some options) w2 st2 = Some ((true, again), w3, st3) /\ quiet st3 /\
         fs_changed again = 0 /\ exists x, fs_cluster again = Some x /\ co_kind x = ICAL_XROOT_COMPONENT /\
           Forall2 same_tree (arrange (co_components cl)) (co_components x)).
Proof.
  intros Ho Hch Hss Hsto Hx Hfuel Hst. pose proof (storable_forest_lines tok _ Hsto) as Hf. unfold set_text in *.
  set (ms := forest_content (co_components cl)) in *. destruct (commit_writes fset cl p ms w Ho Hch Hss Hf st Hst) as ([[e fset'] w'] & st' & E & Hq & H).
  cbn [fst snd] in H. exists e, fset', w', st'. split; [exact E|]. split; [exact Hq|].
  destruct H as [H | (H1 & H2 & _ & H3 & _)]; [now left | right]. split; [exact H1|]. split; [exact H2|]. split; [exact H3|].
  intros options w2 st2 Hc Hfl Hcl Hfd Hst2.
  destruct (init_reads p _ ms options w2 Hc Hf Hx Hfuel Hfl Hcl Hfd st2 Hst2) as ([[ok again] w3] & st3 & E2 & Hq3 & H4 & H5 & _ & x & Hx1 & [Hx2 _ Hx3]).
  cbn [fst snd] in *. subst ok. exists again, w3, st3. eauto 10.
Qed.
End Files.

(** ** An example *)

#[local] Existing Instance text_floats.
#[local] Existing Instance utc_only.

Definition calendar_file : cstring := $"a.ics".

(** A file with an old text, open for reading and writing. *)
Definition sample_disk : disk := Disk [(calendar_file, repeat "x"%char 300)] [] [(calendar_file, 7%nat, true)] 1000 0.
Definition sample_world : world := World (POSIX := disk_system) sample_disk 100.

Definition two_trees : icalcomponent := sample_component 9 ICAL_XROOT_COMPONENT [] [sample_tree; sample_event].
Definition sample_fileset : icalfileset := Fileset (Some calendar_file) icalfileset_options_default (Some two_trees) None 1 3.

Lemma two_trees_storable : Forall (storable ICAL_TREAT_AS_ERROR) (co_components two_trees).
Proof.
  constructor; [exact sample_tree_storable|]. constructor; [|constructor]. constructor; [reflexivity | | constructor].
  constructor; [exact sample_start_storable | constructor].
Qed.

Lemma committed_set_is_reopened_witness :
  exists e fset' w' st', icalfileset_commit sample_fileset sample_world (initial_error_state false) = Some ((e, fset'), w', st') /\ quiet st' /\
    (e = ICAL_FILE_ERROR \/
     e = ICAL_NO_ERROR /\ fs_changed fset' = 0 /\ contents (w_os w') calendar_file = Some (set_text (co_components two_trees)) /\
     forall options w2 st2, contents (w_os w2) calendar_file = Some (set_text (co_components two_trees)) ->
       fo_flags options = O_RDONLY \/ fo_flags options = Z.lor O_RDWR O_CREAT -> fo_cluster options = None ->
       0 <= fst (open_file calendar_file (fo_flags options) (fo_mode options) (w_os w2)) -> quiet st2 ->
       exists again w3 st3, icalfileset_init ICAL_TREAT_AS_ERROR 500 blank_fileset (Some calendar_file) (Some options) w2 st2 = Some ((true, again), w3, st3) /\ quiet st3 /\
         fs_changed again = 0 /\ exists x, fs_cluster again = Some x /\ co_kind x = ICAL_XROOT_COMPONENT /\
           Forall2 same_tree (arrange (co_components two_trees)) (co_components x)).
Proof.
  apply (committed_set_is_reopened ICAL_TREAT_AS_ERROR 500 sample_fileset two_trees calendar_file sample_world (initial_error_state false)).
  - constructor; try reflexivity. exists (repeat "x"%char 300), 7%nat. split; reflexivity.
  - discriminate.
  - discriminate.
  - exact two_trees_storable.
  - repeat constructor.
  - apply Nat.leb_le. vm_compute. reflexivity.
  - exact initial_quiet.
Defined.
