(* ===== verification/IcalFilesetCorrect.v ===== *)
(** * The components of a file set

    The loop over a set returns the components that satisfy its gauge, each once and
    in order, and changes nothing but the iterator.  Examples show what the set does
    with files it cannot parse or write, and what its external iterators do. *)
From Stdlib Require Import String Ascii ZArith Lia Bool List.
From S2P Require Import Prelude CString IcalError IcalTime IcalTimeCalendar IcalTimeText IcalRecurType IcalRecurIter IcalValueText IcalValue IcalLine IcalParameter IcalProperty IcalComponent IcalParser IcalDesignData IcalValueSafe IcalParserSafe IcalParserTotal IcalParserExamples IcalPropertyText IcalComponentText IcalComponentZones IcalTimezone IcalComponentAccess IcalComponentRecur IcalSsLexer IcalSsYacc IcalGauge IcalGaugeText IcalPosix IcalFileset IcalFilesetText.
Import ListNotations.
#[local] Open Scope Z_scope.
#[local] Open Scope cstring_scope.
#[local] Open Scope sys_scope.

Section Iteration.
Context `{POSIX : Posix} `{PROPS : PropertyTables} `{PARAMS : ParameterTables} `{FLOAT : FloatOps} `{TZ : TimezoneConv}.

(** [for (c = get_first_component (s); c != 0; c = get_next_component (s))] with the
    components it visits, [k] at most. *)
Fixpoint visit_rest (k : nat) (c : option icalcomponent) (s : icalfileset) : sys (list icalcomponent * icalfileset) :=
  match c with
  | None => sret ([], s)
  | Some c =>
      match k with
      | O => stop
      | S k => '(n, s) <- icalfileset_get_next_component s ;; '(l, s) <- visit_rest k n s ;; sret (c :: l, s)
      end
  end.

Definition visit_set (k : nat) (s : icalfileset) : sys (list icalcomponent * icalfileset) :=
  '(c, s) <- icalfileset_get_first_component s ;; visit_rest k c s.

Variables (gauge : option icalgauge_impl) (satisfied : icalcomponent -> bool) (next : positive).

(** The gauge decides on a component; without a gauge all of them pass. *)
Definition decides (c : icalcomponent) : Prop :=
  match gauge with
  | None => satisfied c = true
  | Some g => runs (icalgauge_compare next (Some g) (Some c)) (fun b => b = satisfied c)
  end.

Lemma passes_decides c w : w_next w = next -> decides c -> sruns (passes gauge c) w (fun b w' => b = satisfied c /\ w' = w).
Proof.
  intros Hn Hd. unfold passes. unfold decides in Hd. destruct gauge as [g|]; [|apply sruns_ret; now split].
  eapply sruns_bind; [apply (sruns_ret (w_next w) w (fun a w' => a = w_next w /\ w' = w)); now split|].
  intros a w' [-> ->]. rewrite Hn. now apply sruns_lift.
Qed.

(** Where a traversal of all components is after it has gone to the place [i]. *)
Definition place_of (cs : list icalcomponent) (i : nat) : pvl_iter := if Nat.ltb i (length cs) then AtElem i else NoElem.

Lemma iterate_any_component (cs : list icalcomponent) i : iterate (component_matches ICAL_ANY_COMPONENT) cs i = (nth_error cs i, place_of cs i).
Proof.
  unfold iterate, find_at, place_of. destruct (Nat.ltb_spec i (length cs)) as [L|L].
  - destruct (skipn i cs) as [|c r] eqn:E; [apply (f_equal (@length _)) in E; rewrite length_skipn in E; cbn in E; lia|].
    cbn [search_from]. unfold component_matches at 1. change (ckind_eqb ICAL_ANY_COMPONENT ICAL_ANY_COMPONENT) with true.
    now rewrite orb_true_r.
  - rewrite skipn_all2 by exact L. cbn. now rewrite (proj2 (nth_error_None cs i) L).
Qed.

Variables (cs : list icalcomponent) (cl : icalcomponent).
Hypothesis decided : Forall decides cs.

Definition at_place (i : nat) : icalcomponent := with_components cs (place_of cs i) cl.

Lemma next_step i c : nth_error cs i = Some c ->
  icalcomponent_get_next_component ICAL_ANY_COMPONENT (at_place i) = ret (nth_error cs (S i), at_place (S i)).
Proof.
  intros H. unfold icalcomponent_get_next_component, at_place. cbn [component_iterator with_components co_components].
  assert (i < length cs)%nat as L by (apply nth_error_Some; congruence). unfold place_of at 1. apply Nat.ltb_lt in L. rewrite L.
  rewrite iterate_any_component. reflexivity.
Qed.

(** The place [j] is the next one from [i] on whose component satisfies the gauge. *)
Definition leads_to (i j : nat) : Prop := (i <= j)%nat /\
  filter satisfied (skipn i cs) = match nth_error cs j with Some c => c :: filter satisfied (skipn (S j) cs) | None => [] end.

Lemma next_passing_finds n : forall i w, w_next w = next -> (length cs <= i + n)%nat ->
  sruns (next_passing n gauge (nth_error cs i, at_place i)) w (fun r w' => w' = w /\ exists j, r = (nth_error cs j, at_place j) /\ leads_to i j).
Proof.
  induction n as [|n IH]; intros i w Hn L; cbn [next_passing].
  - rewrite (proj2 (nth_error_None cs i) ltac:(lia)). apply sruns_ret. split; [reflexivity|]. exists i. unfold leads_to.
    rewrite (proj2 (nth_error_None cs i) ltac:(lia)), skipn_all2 by lia. now repeat split.
  - destruct (nth_error cs i) as [c|] eqn:E.
    + assert (decides c) as Hd by (rewrite Forall_forall in decided; apply decided; now apply nth_error_In in E).
      step (passes_decides c w Hn Hd). intros b w1 [-> ->]. destruct (satisfied c) eqn:Es.
      * apply sruns_ret. split; [reflexivity|]. exists i. unfold leads_to. rewrite E. split; [reflexivity|]. split; [lia|].
        rewrite (skipn_nth i c cs E). cbn [filter]. now rewrite Es.
      * rewrite (next_step i c E). step (sruns_ret (nth_error cs (S i), at_place (S i)) w (fun r w' => r = (nth_error cs (S i), at_place (S i)) /\ w' = w)).
        { now split. } intros r w1 [-> ->]. eapply sruns_weaken; [apply (IH (S i) w Hn); lia|]. cbv beta. intros r w1 (-> & j & -> & Hl & Hj).
        split; [reflexivity|]. exists j. split; [reflexivity|]. split; [lia|]. rewrite (skipn_nth i c cs E). cbn [filter]. now rewrite Es.
    + apply sruns_ret. split; [reflexivity|]. exists i. unfold leads_to. rewrite E. split; [reflexivity|]. split; [lia|].
      apply nth_error_None in E. now rewrite skipn_all2 by lia.
Qed.

(** The set, with its iterator at a place. *)
Definition set_at (s : icalfileset) (i : nat) : icalfileset := set_cluster (Some (at_place i)) s.

Lemma found_in_set s n i w : fs_gauge s = gauge -> w_next w = next -> (length cs <= i + n)%nat ->
  sruns ('(c, cl) <- next_passing n (fs_gauge s) (nth_error cs i, at_place i) ;; sret (c, set_cluster (Some cl) s)) w
    (fun r w' => w' = w /\ exists j, r = (nth_error cs j, set_at s j) /\ leads_to i j).
Proof.
  intros Hg Hn L. rewrite Hg. step (next_passing_finds n i w Hn L). intros r w1 (-> & j & -> & Hj). apply sruns_ret. eauto.
Qed.

Lemma get_next_finds s i c w : fs_gauge s = gauge -> w_next w = next -> nth_error cs i = Some c ->
  sruns (icalfileset_get_next_component (set_at s i)) w (fun r w' => w' = w /\ exists j, r = (nth_error cs j, set_at s j) /\ leads_to (S i) j).
Proof.
  intros Hg Hn E. unfold icalfileset_get_next_component, set_cluster_of. cbn [fs_cluster set_at set_cluster].
  step (sruns_ret (at_place i) w (fun r w' => r = at_place i /\ w' = w)); [now split|]. intros r w1 [-> ->]. rewrite (next_step i c E).
  step (sruns_ret (nth_error cs (S i), at_place (S i)) w (fun r w' => r = (nth_error cs (S i), at_place (S i)) /\ w' = w)); [now split|].
  intros r w1 [-> ->]. apply (found_in_set s); [exact Hg | exact Hn | cbn; lia].
Qed.

Lemma visit_rest_visits s k : forall i w, fs_gauge s = gauge -> w_next w = next -> (length cs <= i + k)%nat ->
  sruns (visit_rest k (nth_error cs i) (set_at s i)) w (fun r w' => w' = w /\ exists j, snd r = set_at s j /\ nth_error cs j = None /\
    fst r = match nth_error cs i with Some c => c :: filter satisfied (skipn (S i) cs) | None => [] end).
Proof.
  induction k as [|k IH]; intros i w Hg Hn L; cbn [visit_rest].
  - rewrite (proj2 (nth_error_None cs i) ltac:(lia)). apply sruns_ret. split; [reflexivity|]. exists i.
    repeat split. apply nth_error_None. lia.
  - destruct (nth_error cs i) as [c|] eqn:E.
    2:{ apply sruns_ret. split; [reflexivity|]. exists i. now repeat split. }
    step (get_next_finds s i c w Hg Hn E). intros r w1 (-> & j & -> & Hj & Hf). step (IH j w Hg Hn ltac:(lia)).
    intros [l s'] w1 (-> & j' & Hs & Hj' & Hl). cbn [fst snd] in *. subst s' l. apply sruns_ret. split; [reflexivity|].
    exists j'. split; [reflexivity|]. split; [exact Hj'|]. cbn [fst]. now rewrite Hf.
Qed.
End Iteration.

Section Properties.
Context `{POSIX : Posix} `{PROPS : PropertyTables} `{PARAMS : ParameterTables} `{FLOAT : FloatOps} `{TZ : TimezoneConv}.

(** C31: the loop over a set, from [icalfileset_get_first_component] on with
    [icalfileset_get_next_component], ends and visits exactly the components that
    satisfy the gauge of the set, in their order, and all of them when the set has no
    gauge.  Afterwards only the iterator of the set differs: it is at the end. *)
Theorem set_visits_what_satisfies (s : icalfileset) (cl : icalcomponent) (satisfied : icalcomponent -> bool) (w : world) (st : error_state) :
  fs_cluster s = Some cl -> Forall (decides (fs_gauge s) satisfied (w_next w)) (co_components cl) -> quiet st ->
  exists st', visit_set (length (co_components cl)) s w st =
    Some ((filter satisfied (co_components cl), set_cluster (Some (with_components (co_components cl) NoElem cl)) s), w, st') /\ quiet st'.
Proof.
  intros Hc Hd Hst. set (cs := co_components cl) in *.
  enough (sruns (visit_set (length cs) s) w (fun r w' => w' = w /\ exists j, snd r = set_at cs cl s j /\ nth_error cs j = None /\
    fst r = filter satisfied cs)) as H.
  { destruct (H st Hst) as ([[l s'] w'] & st' & E & Hq & Hw & j & Hs & Hj & Hl). cbn [fst snd] in *. subst. exists st'. split; [|exact Hq].
    rewrite E. unfold set_at, at_place, place_of. apply nth_error_None in Hj. apply Nat.ltb_ge in Hj. now rewrite Hj. }
  unfold visit_set, icalfileset_get_first_component, set_cluster_of. rewrite Hc.
  eapply sruns_bind with (P := fun r w' => w' = w /\ exists j, r = (nth_error cs j, set_at cs cl s j) /\ leads_to satisfied cs 0 j).
  - step (sruns_ret cl w (fun r w' => r = cl /\ w' = w)); [now split|]. intros r w1 [-> ->].
    unfold icalcomponent_get_first_component. rewrite iterate_any_component. fold cs. fold (at_place cs cl 0).
    apply (found_in_set (fs_gauge s) satisfied (w_next w) cs cl Hd s); [reflexivity | reflexivity | lia].
  - intros r w1 (-> & j & -> & Hj & Hf). eapply sruns_weaken.
    + apply (visit_rest_visits (fs_gauge s) satisfied (w_next w) cs cl Hd s (length cs) j w); [reflexivity | reflexivity | lia].
    + cbv beta. intros r w1 (-> & j' & H1 & H2 & H3). split; [reflexivity|]. exists j'. split; [exact H1|]. split; [exact H2|].
      rewrite H3. symmetry. exact Hf.
Qed.
End Properties.

(** ** Examples *)

#[local] Existing Instance text_floats.
#[local] Existing Instance utc_only.

Definition plain_component (a : positive) (k : icalcomponent_kind) : icalcomponent := sample_component a k [] [].

Definition mixed_cluster : icalcomponent :=
  sample_component 9 ICAL_XROOT_COMPONENT []
    [plain_component 1 ICAL_VEVENT_COMPONENT; plain_component 2 ICAL_VTODO_COMPONENT; plain_component 3 ICAL_VEVENT_COMPONENT].

Definition event_gauge : icalgauge_impl := Gauge [] [ICAL_VEVENT_COMPONENT] [] 0.
Definition mixed_set : icalfileset := Fileset (Some calendar_file) icalfileset_options_default (Some mixed_cluster) (Some event_gauge) 0 3.

Definition is_event (c : icalcomponent) : bool := ckind_eqb ICAL_VEVENT_COMPONENT (co_kind c).

Lemma set_visits_what_satisfies_witness :
  exists st', visit_set (POSIX := disk_system) 3 mixed_set sample_world (initial_error_state false) =
    Some (([plain_component 1 ICAL_VEVENT_COMPONENT; plain_component 3 ICAL_VEVENT_COMPONENT],
           set_cluster (Some (with_components (co_components mixed_cluster) NoElem mixed_cluster)) mixed_set), sample_world, st') /\ quiet st'.
Proof.
  apply (set_visits_what_satisfies mixed_set mixed_cluster is_event sample_world (initial_error_state false)).
  - reflexivity.
  - repeat (constructor; [intros st Hst; eexists _, st; split; [reflexivity | split; [exact Hst | reflexivity]]|]). constructor.
  - exact initial_quiet.
Defined.

(** Runs a function on the small system. *)
Definition run_on {A} (d : disk) (m : sys (POSIX := disk_system) A) : option (A * world (POSIX := disk_system) * error_state) :=
  m (World (POSIX := disk_system) d 1000) (initial_error_state false).

Definition with_file (text : cstring) : disk := Disk [(calendar_file, text)] [] [] 1000 0.

(** The children of a set. *)
Definition kinds_of (s : icalfileset) : option (list icalcomponent_kind) :=
  option_map (fun c => map co_kind (co_components c)) (fs_cluster s).

(** A file that cannot be parsed is opened as an empty set. *)
Example unparsable_file_is_empty :
  option_map (fun r => (option_map kinds_of (fst (fst r)), icalerrno (snd r))) (run_on (with_file $"not a calendar") (icalfileset_new ICAL_TREAT_AS_ERROR 100 calendar_file))
  = Some (Some (Some []), ICAL_BADARG_ERROR).
Proof. vm_compute. reflexivity. Qed.

(** What is committed then replaces the file. *)
Example unparsable_file_is_replaced :
  option_map (fun r => files (w_os (snd (fst r))))
    (run_on (with_file $"not a calendar")
       (s <- icalfileset_new ICAL_TREAT_AS_ERROR 100 calendar_file ;;
        match s with
        | Some s => '(_, s) <- icalfileset_add_component s (Some (plain_component 1 ICAL_VEVENT_COMPONENT)) ;; icalfileset_commit s
        | None => stop
        end))
  = Some [(calendar_file, text_of ["BEGIN:VEVENT"; "END:VEVENT"]%string)].
Proof. vm_compute. reflexivity. Qed.

(** A set for writing cannot be written. *)
Example writer_cannot_write :
  option_map (fun r => fst (fst (fst r)))
    (run_on (with_file [])
       (s <- icalfileset_new_writer ICAL_TREAT_AS_ERROR 100 calendar_file ;;
        match s with
        | Some s => '(_, s) <- icalfileset_add_component s (Some (plain_component 1 ICAL_VEVENT_COMPONENT)) ;; icalfileset_commit s
        | None => stop
        end))
  = Some ICAL_FILE_ERROR.
Proof. vm_compute. reflexivity. Qed.

(** A disk that is full: the error is returned and the set stays changed. *)
Example full_disk_is_reported :
  option_map (fun r => (fst (fst (fst r)), fs_changed (snd (fst (fst r)))))
    (run_on (Disk [(calendar_file, [])] [] [] 20 0)
       (s <- icalfileset_new ICAL_TREAT_AS_ERROR 100 calendar_file ;;
        match s with
        | Some s => '(_, s) <- icalfileset_add_component s (Some (plain_component 1 ICAL_VEVENT_COMPONENT)) ;; icalfileset_commit s
        | None => stop
        end))
  = Some (ICAL_FILE_ERROR, 1).
Proof. vm_compute. reflexivity. Qed.

(** A text without a last line feed: a character that an earlier line left in the
    buffer is taken for the end of the last one. *)
Example last_line_is_longer :
  let d := Disk [(calendar_file, text_of ["SUMMARY:abcdef"]%string ++ $"END:VEVENT")] [] [(calendar_file, 0%nat, true)] 0 0 in
  read_lines (icalfileset_read_from_file (POSIX := disk_system) 3) 100 100 icalparser_new_lines d
  = Some [[]; $"SUMMARY:abcdef"; $"END:VEVENTc"].
Proof. vm_compute. reflexivity. Qed.

(** A name with a quote is not quoted. *)
Example name_is_not_quoted : backup_command $"it's" = $"cp 'it's' 'it's.bak'" /\ shell_quote $"it's" <> $"it's".
Proof. split; [vm_compute; reflexivity | vm_compute; discriminate]. Qed.

(** *** External iterators *)

Definition an_event (a : positive) (ls : list string) : icalcomponent :=
  match event ls with
  | Some c => Component a (co_kind c) (co_x_name c) (co_properties c) NoElem (co_components c) NoElem None None true
  | None => plain_component a ICAL_NO_COMPONENT
  end.

Definition set_of (cs : list icalcomponent) : icalfileset :=
  Fileset (Some calendar_file) icalfileset_options_default (Some (sample_component 900 ICAL_XROOT_COMPONENT [] cs)) None 0 3.

Definition gauge_of (sql : string) (expand : Z) : option icalgauge_impl :=
  match icalgauge_new_from_sql (lit sql) expand initial_scanner [] (initial_error_state false) with Some (g, _, _, _) => g | None => None end.

(** The texts of the RECURRENCE-IDs of a component. *)
Definition recurrence_ids (c : icalcomponent) : list icaltimetype :=
  flat_map (fun p => match pr_value p with Some v => match v_data v with V_time t => [t] | _ => [] end | None => [] end)
    (properties_of ICAL_RECURRENCEID_PROPERTY c).

(** The first component and the one after it. *)
Definition first_two (s : icalfileset) (g : option icalgauge_impl) : option (option icalcomponent * option icalcomponent) :=
  option_map (fun r => fst (fst r))
    (run_on (Disk [] [] [] 0 86400)
       ('(i, s) <- icalfileset_begin_component 100 s ICAL_ANY_COMPONENT g ;;
        let first := match fs_cluster s with Some cl => icalsetiter_deref (co_components cl) i | None => None end in
        '(c, i, s) <- icalfilesetiter_to_next 100 s i ;; sret (first, c))).

(** With a gauge, the iterator gives components that do not recur a RECURRENCE-ID: the
    time of the call. *)
Example every_component_recurs :
  option_map (fun r => option_map (fun c => map year (recurrence_ids c)) (snd r))
    (first_two (set_of [an_event 801 ["PRIORITY:1"]%string; an_event 802 ["PRIORITY:2"]%string])
       (gauge_of "SELECT * FROM VEVENT WHERE PRIORITY > '0'" 0)) = Some (Some [1970]).
Proof. vm_compute. reflexivity. Qed.

(** The second of two recurring events gets the next occurrence of the first. *)
Example occurrences_of_another :
  option_map (fun r => option_map (fun c => map year (recurrence_ids c)) (snd r))
    (first_two (set_of [an_event 801 ["DTSTART:20240101T000000Z"; "RRULE:FREQ=YEARLY"; "PRIORITY:1"]%string;
                        an_event 802 ["DTSTART:20300101T000000Z"; "RRULE:FREQ=YEARLY"; "PRIORITY:1"]%string])
       (gauge_of "SELECT * FROM VEVENT WHERE PRIORITY > '0'" 1)) = Some (Some [2025]).
Proof. vm_compute. reflexivity. Qed.

(** A recurring event that does not satisfy the gauge hides the events after it. *)
Example events_behind_a_rule_are_lost :
  let late := an_event 802 ["PRIORITY:5"]%string in
  let g := gauge_of "SELECT * FROM VEVENT WHERE PRIORITY > '3'" 1 in
  option_map fst (first_two (set_of [late]) g) = Some (Some late) /\
  option_map fst (first_two (set_of [an_event 801 ["DTSTART:20240101T000000Z"; "RRULE:FREQ=DAILY;COUNT=2"; "PRIORITY:1"]%string; late]) g) = Some None.
Proof. split; vm_compute; reflexivity. Qed.
