(* ===== verification/IcalDirset.v ===== *)
(** * Sets of components in a directory (libicalss/icaldirset.c)

    A directory set keeps one file per month; one of them at a time is in memory, as a
    cluster.

    The conventions are those of the file sets; [stop] also stands for the operations
    that only assert that they are not implemented. *)
From Stdlib Require Import String Ascii ZArith Lia Bool List.
From S2P Require Import Prelude CString IcalError IcalTime IcalRecurType IcalRecurIter IcalValueText IcalValue IcalLine IcalParameter IcalProperty IcalComponent IcalParser IcalComponentZones IcalTimezone IcalComponentAccess IcalComponentRecur IcalMessage IcalSsLexer IcalSsYacc IcalGauge IcalPosix IcalFileset.
Import ListNotations.
#[local] Open Scope Z_scope.
#[local] Open Scope cstring_scope.
#[local] Open Scope sys_scope.

Section Sets.
Context `{POSIX : Posix} `{PROPS : PropertyTables} `{PARAMS : ParameterTables} `{FLOAT : FloatOps} `{TZ : TimezoneConv}.
Context (tok : ical_unknown_token_handling) (fuel : nat).

(** ** Directory sets *)

(** [directory_iterator] is the place in the list of names. *)
Record icaldirset := Dirset {
  ds_dir : option cstring;
  ds_flags : Z;
  ds_cluster : option icalcluster;
  ds_gauge : option icalgauge_impl;
  first_component : Z;
  directory : option (list cstring);
  directory_iterator : option nat
}.

Definition blank_dirset : icaldirset := Dirset None 0 None None 0 None None.

Definition set_ds_cluster (c : option icalcluster) (s : icaldirset) : icaldirset :=
  Dirset (ds_dir s) (ds_flags s) c (ds_gauge s) (first_component s) (directory s) (directory_iterator s).
Definition set_ds_gauge (g : option icalgauge_impl) (s : icaldirset) : icaldirset :=
  Dirset (ds_dir s) (ds_flags s) (ds_cluster s) g (first_component s) (directory s) (directory_iterator s).
Definition set_first_component (n : Z) (s : icaldirset) : icaldirset :=
  Dirset (ds_dir s) (ds_flags s) (ds_cluster s) (ds_gauge s) n (directory s) (directory_iterator s).
Definition set_directory (d : option (list cstring)) (i : option nat) (s : icaldirset) : icaldirset :=
  Dirset (ds_dir s) (ds_flags s) (ds_cluster s) (ds_gauge s) (first_component s) d i.

Definition icaldirset_options_default : Z := Z.lor O_RDWR O_CREAT.

Definition icaldirset_path (s : icaldirset) : option cstring := ds_dir s.

Definition the_cluster (s : icaldirset) : sys icalcluster := match ds_cluster s with Some c => sret c | None => stop end.

(** Marking without a cluster is a bad argument. *)
Definition icaldirset_mark (s : icaldirset) : sys icaldirset :=
  match ds_cluster s with
  | Some c => sret (set_ds_cluster (Some (icalcluster_mark c)) s)
  | None => slift (badarg s)
  end.

(** The file of the cluster is written by a file set that gets a copy of it; its
    error is not returned. *)
Definition icaldirset_commit (s : icaldirset) : sys icalerrorenum :=
  c <- the_cluster s ;;
  let options := FilesetOptions (fo_flags icalfileset_options_default) (fo_mode icalfileset_options_default)
                   (safe_saves icalfileset_options_default) (Some c) in
  fileset <- new_fileset tok fuel (icalcluster_key c) (Some options) ;;
  match fileset with
  | None => stop
  | Some f => '(_, f) <- icalfileset_commit f ;; icalfileset_free f ;;; sret ICAL_NO_ERROR
  end.

Definition is_dot (name : cstring) : bool := streqb name $"." || streqb name $"..".

Definition icaldirset_read_directory (s : icaldirset) : sys (icalerrorenum * icaldirset) :=
  match ds_dir s with
  | None => stop
  | Some dir =>
      names <- ask (read_dir dir) ;;
      match names with
      | None => slift (icalerror_set_errno ICAL_FILE_ERROR) ;;; sret (ICAL_FILE_ERROR, s)
      | Some names => sret (ICAL_NO_ERROR, set_directory (Some (filter (fun n => negb (is_dot n)) names)) (directory_iterator s) s)
      end
  end.

(** Options that are null are read all the same. *)
Definition icaldirset_init (s : icaldirset) (dir : option cstring) (options : option Z) : sys (bool * icaldirset) :=
  match dir with
  | None => slift (badarg (false, s))
  | Some d =>
      r <- ask (stat d) ;;
      match r with
      | NoEntry | StatFails => slift (icalerror_set_errno ICAL_FILE_ERROR) ;;; sret (false, s)
      | Regular _ | OtherFile => slift (icalerror_set_errno ICAL_USAGE_ERROR) ;;; sret (false, s)
      | Directory =>
          match options with
          | None => stop
          | Some flags => sret (true, Dirset (Some d) flags None None 0 (Some []) None)
          end
      end
  end.

(** The cluster is freed, and the pointer to it stays. *)
Definition icaldirset_free (s : icaldirset) : icaldirset :=
  Dirset None (ds_flags s) (ds_cluster s) None 0 None None.

Definition new_dirset (dir : cstring) (options : option Z) : sys (option icaldirset) :=
  '(ok, s) <- icaldirset_init blank_dirset (Some dir) options ;; sret (if (ok : bool) then Some s else None).

Definition icaldirset_new (dir : cstring) : sys (option icaldirset) := new_dirset dir (Some icaldirset_options_default).
Definition icaldirset_new_reader (dir : cstring) : sys (option icaldirset) := new_dirset dir (Some O_RDONLY).
Definition icaldirset_new_writer (dir : cstring) : sys (option icaldirset) := new_dirset dir (Some (Z.lor O_RDWR O_CREAT)).

(** [%s/%s] in a buffer of MAXPATHLEN characters. *)
Definition entry_path (dir name : cstring) : cstring := snprintf MAXPATHLEN (dir ++ $"/" ++ name).

Definition the_dir (s : icaldirset) : sys cstring := match ds_dir s with Some d => sret d | None => stop end.

(** The names are those of the list; the list is not changed while an iterator is in it. *)
Definition name_at (s : icaldirset) (i : nat) : sys cstring :=
  match directory s with
  | Some names => match nth_error names i with Some n => sret n | None => stop end
  | None => stop
  end.

Definition icaldirset_next_cluster (s : icaldirset) : sys (icalerrorenum * icaldirset) :=
  match directory_iterator s with
  | None => slift (icalerror_set_errno ICAL_INTERNAL_ERROR) ;;; sret (ICAL_INTERNAL_ERROR, s)
  | Some i =>
      let s := set_directory (directory s) (match directory s with Some names => next_place names i | None => None end) s in
      match directory_iterator s with
      | None => sret (ICAL_NO_ERROR, set_ds_cluster None s)
      | Some i =>
          dir <- the_dir s ;;
          name <- name_at s i ;;
          slift (match ds_cluster s with Some _ => ret tt | None => icalerror_set_errno ICAL_BADARG_ERROR end) ;;;
          c <- icalfileset_produce_icalcluster tok fuel (entry_path dir name) ;;
          e <- slift get_icalerrno ;;
          sret (e, set_ds_cluster (Some c) s)
      end
  end.

(** [%d-%s] in a buffer of MAXPATHLEN characters. *)
Definition new_uid : cstring := snprintf MAXPATHLEN (fmt_d getpid ++ $"-" ++ nodename).

Definition icaldirset_add_uid (comp : icalcomponent) : sys icalcomponent :=
  match first_property ICAL_UID_PROPERTY comp with
  | None =>
      a <- new_address ;;
      uid <- slift (new_text_property a ICAL_UID_PROPERTY new_uid) ;;
      sret (icalcomponent_add_property uid comp)
  | Some p =>
      uid <- slift (icalvalue_get_text (pr_value p)) ;;
      match uid with Some _ => sret comp | None => stop end
  end.

(** The first property of a kind in one of the parts. *)
Fixpoint find_in_parts (kind : icalproperty_kind) (inners : list icalcomponent) : option icalproperty :=
  match inners with
  | [] => None
  | inner :: rest => match first_property kind inner with Some p => Some p | None => find_in_parts kind rest end
  end.

Definition cluster_date (comp : icalcomponent) : option icalproperty :=
  match find_in_parts ICAL_DTSTAMP_PROPERTY (co_components comp) with
  | Some p => Some p
  | None => find_in_parts ICAL_DTSTART_PROPERTY (co_components comp)
  end.

(** The file of the month. *)
Definition cluster_name (dir : cstring) (tm : icaltimetype) : cstring :=
  snprintf MAXPATHLEN (dir ++ $"/" ++ fmt_0d 4 (year tm) ++ fmt_0d 2 (month tm)).

(** A cluster of another file is freed as it is. *)
Definition load_cluster (path : cstring) (s : icaldirset) : sys icaldirset :=
  let keep := match ds_cluster s with Some c => streqb path (icalcluster_key c) | None => false end in
  if keep then sret s
  else c <- icalfileset_produce_icalcluster tok fuel path ;; sret (set_ds_cluster (Some c) s).

Definition icaldirset_add_component (s : icaldirset) (comp : option icalcomponent) : sys (icalerrorenum * icaldirset) :=
  match comp with
  | None => slift (badarg (ICAL_NO_ERROR, s))
  | Some comp =>
      comp <- icaldirset_add_uid comp ;;
      match cluster_date comp with
      | None => slift (icalerror_set_errno ICAL_BADARG_ERROR) ;;; sret (ICAL_BADARG_ERROR, s)
      | Some dt =>
          tm <- slift (get_datetimedate (pr_value dt)) ;;
          dir <- the_dir s ;;
          s <- load_cluster (cluster_name dir tm) s ;;
          c <- the_cluster s ;;
          '(_, c) <- icalcluster_add_component c (Some comp) ;;
          sret (ICAL_NO_ERROR, set_ds_cluster (Some c) s)
      end
  end.

Definition icaldirset_remove_component (s : icaldirset) (comp : option icalcomponent) : sys (icalerrorenum * icaldirset) :=
  match comp, ds_cluster s with
  | Some comp, Some c =>
      filecomp <- icalcluster_get_component c ;;
      if negb (existsb (is_component (co_addr comp)) (co_components filecomp))
      then slift (icalerror_set_errno ICAL_USAGE_ERROR) ;;; sret (ICAL_USAGE_ERROR, s)
      else
        '(_, c) <- icalcluster_remove_component c (Some comp) ;;
        let s := set_ds_cluster (Some c) s in
        if icalcluster_count_components c ICAL_ANY_COMPONENT =? 0 then
          '(error, s) <- icaldirset_next_cluster s ;;
          match ds_cluster s, error with
          | Some c, ICAL_NO_ERROR => sret (ICAL_NO_ERROR, set_ds_cluster (Some (snd (icalcluster_get_first_component c))) s)
          | _, _ => sret (error, s)
          end
        else sret (ICAL_NO_ERROR, s)
  | _, _ => stop
  end.

(** Not implemented. *)
Definition icaldirset_count_components (s : icaldirset) (kind : icalcomponent_kind) : sys Z := stop.
Definition icaldirset_fetch_match (s : icaldirset) (c : icalcomponent) : sys (option icalcomponent) := stop.
Definition icaldirset_modify (s : icaldirset) (old new : icalcomponent) : sys icalerrorenum := stop.
Definition icaldirset_clear (s : icaldirset) : sys icaldirset := stop.
Definition icaldirset_begin_component (s : icaldirset) (kind : icalcomponent_kind) (gauge : option icalgauge_impl) : icalsetiter := icalsetiter_null.
Definition icaldirsetiter_to_next (s : icaldirset) (i : icalsetiter) : option icalcomponent := None.
Definition icaldirsetiter_to_prior (s : icaldirset) (i : icalsetiter) : option icalcomponent := None.

Definition icaldirset_select (s : icaldirset) (gauge : option icalgauge_impl) : sys (icalerrorenum * icaldirset) :=
  match gauge with None => stop | Some g => sret (ICAL_NO_ERROR, set_ds_gauge (Some g) s) end.

(** The rest of the cluster: the first component that is not refused, which the
    iterator of the cluster is at; [n] components are left at most. *)
Fixpoint next_in_cluster (n : nat) (gauge : option icalgauge_impl) (c : option icalcomponent) (cl : icalcluster)
  : sys (option icalcomponent * icalcluster) :=
  match c with
  | None => sret (None, cl)
  | Some comp =>
      pass <- passes gauge comp ;;
      if (pass : bool) then sret (Some comp, cl)
      else match n with
           | O => stop
           | S n => '(c, cl) <- icalcluster_get_next_component cl ;; next_in_cluster n gauge c cl
           end
  end.

(** The first component of a further cluster is returned as it is. *)
Definition icaldirset_get_next_component (s : icaldirset) : sys (option icalcomponent * icaldirset) :=
  match ds_cluster s with
  | None => slift (icalerror_set_errno ICAL_USAGE_ERROR) ;;; sret (None, s)
  | Some cl =>
      '(_, cl) <- (if first_component s =? 1 then sret (icalcluster_get_first_component cl) else icalcluster_get_next_component cl) ;;
      let s := if first_component s =? 1 then set_first_component 0 s else s in
      c <- icalcluster_get_current_component cl ;;
      '(c, cl) <- next_in_cluster (length (co_components (cl_data cl))) (ds_gauge s) c cl ;;
      let s := set_ds_cluster (Some cl) s in
      match c with
      | Some c => sret (Some c, s)
      | None =>
          '(error, s) <- icaldirset_next_cluster s ;;
          match ds_cluster s, error with
          | Some cl, ICAL_NO_ERROR => let '(c, cl) := icalcluster_get_first_component cl in sret (c, set_ds_cluster (Some cl) s)
          | _, _ => sret (None, s)
          end
      end
  end.

Definition icaldirset_get_first_component (s : icaldirset) : sys (option icalcomponent * icaldirset) :=
  '(error, s) <- icaldirset_read_directory s ;;
  match error with
  | ICAL_NO_ERROR =>
      let s := set_directory (directory s) (match directory s with Some (_ :: _) => Some 0%nat | _ => None end) s in
      match directory_iterator s with
      | None => slift (icalerror_set_errno ICAL_NO_ERROR) ;;; sret (None, s)
      | Some i =>
          dir <- the_dir s ;;
          name <- name_at s i ;;
          s <- load_cluster (entry_path dir name) s ;;
          icaldirset_get_next_component (set_first_component 1 s)
      end
  | e => slift (icalerror_set_errno e) ;;; sret (None, s)
  end.

Definition icaldirset_get_current_component (s : icaldirset) : sys (option icalcomponent * icaldirset) :=
  s <- (match ds_cluster s with
        | Some _ => sret s
        | None => '(_, s) <- icaldirset_get_first_component s ;; sret s
        end) ;;
  match ds_cluster s with
  | None => sret (None, s)
  | Some cl => c <- icalcluster_get_current_component cl ;; sret (c, s)
  end.

(** The query of [icaldirset_fetch], in a buffer of 256 characters. *)
Definition uid_query (uid : cstring) : cstring := snprintf 256 ($"SELECT * FROM VEVENT WHERE UID = " ++ [DQUOTE] ++ uid ++ [DQUOTE]).

(** The scanner and its last value are global. *)
Definition icaldirset_fetch (s : icaldirset) (uid : option cstring) (sc : scanner) (lval : cstring)
  : sys (option icalcomponent * icaldirset * scanner * cstring) :=
  match uid with
  | None => slift (badarg (None, s, sc, lval))
  | Some uid =>
      '(gauge, sc, lval) <- slift (icalgauge_new_from_sql (uid_query uid) 0 sc lval) ;;
      let old_gauge := ds_gauge s in
      '(c, s) <- icaldirset_get_first_component (set_ds_gauge gauge s) ;;
      sret (c, set_ds_gauge old_gauge s, sc, lval)
  end.

Definition icaldirset_has_uid (s : icaldirset) (uid : option cstring) (sc : scanner) (lval : cstring)
  : sys (bool * icaldirset * scanner * cstring) :=
  match uid with
  | None => slift (badarg (false, s, sc, lval))
  | Some _ =>
      '(c, s, sc, lval) <- icaldirset_fetch s uid sc lval ;;
      sret (match c with Some _ => true | None => false end, s, sc, lval)
  end.
End Sets.
