(* ===== verification/IcalSet.v ===== *)
(** * Sets of any kind, and calendars (libicalss/icalset.c, icalcalendar.c)

    A set is an object: the table of operations of its class, its data source name and
    its data.  The classes are the file set and the directory set; a function pointer
    that is null is [stop].  A calendar is a directory with a directory set and three
    file sets, which are opened when they are asked for.  Databases (HAVE_BDB) and sets
    loaded at run time are not compiled. *)
From Stdlib Require Import String Ascii ZArith Lia Bool List.
From S2P Require Import Prelude CString IcalError IcalTime IcalTimeCalendar IcalTimeText IcalRecurType IcalRecurIter IcalValueText IcalValue IcalLine IcalParameter IcalProperty IcalComponent IcalParser IcalDesignData IcalParserSafe IcalParserTotal IcalParserExamples IcalPropertyText IcalComponentText IcalTimezone IcalComponentZones IcalComponentAccess IcalComponentRecur IcalMessage IcalSsLexer IcalSsYacc IcalGauge IcalGaugeText IcalPosix IcalFileset IcalFilesetText IcalFilesetCorrect IcalDirset.
Import ListNotations.
#[local] Open Scope Z_scope.
#[local] Open Scope cstring_scope.
#[local] Open Scope sys_scope.

Inductive icalset_kind := ICAL_FILE_SET | ICAL_DIR_SET | ICAL_BDB_SET.

Section Objects.
Context `{POSIX : Posix} `{PROPS : PropertyTables} `{PARAMS : ParameterTables} `{FLOAT : FloatOps} `{TZ : TimezoneConv}.
Context (tok : ical_unknown_token_handling) (fuel : nat).

(** ** Classes *)

Record icalset_class (S : Type) := SetClass {
  sc_kind : icalset_kind;
  sc_free : S -> sys S;
  sc_path : S -> option cstring;
  sc_mark : S -> sys S;
  sc_commit : S -> sys (icalerrorenum * S);
  sc_add_component : S -> option icalcomponent -> sys (icalerrorenum * S);
  sc_remove_component : S -> option icalcomponent -> sys (icalerrorenum * S);
  sc_count_components : S -> icalcomponent_kind -> sys Z;
  sc_select : S -> option icalgauge_impl -> sys (icalerrorenum * S);
  sc_clear : S -> sys S;
  sc_fetch : S -> cstring -> scanner -> cstring -> sys (option icalcomponent * S * scanner * cstring);
  sc_fetch_match : S -> icalcomponent -> sys (option icalcomponent);
  sc_has_uid : S -> cstring -> scanner -> cstring -> sys (bool * S * scanner * cstring);
  sc_modify : S -> icalcomponent -> icalcomponent -> sys icalerrorenum;
  sc_get_current_component : S -> sys (option icalcomponent * S);
  sc_get_first_component : S -> sys (option icalcomponent * S);
  sc_get_next_component : S -> sys (option icalcomponent * S);
  sc_begin_component : S -> icalcomponent_kind -> option icalgauge_impl -> sys (icalsetiter * S);
  sc_to_next : S -> icalsetiter -> sys (option icalcomponent * icalsetiter * S);
  sc_to_prior : S -> icalsetiter -> sys (option icalcomponent * icalsetiter * S)
}.

Definition icalset_fileset_init : icalset_class icalfileset := {|
  sc_kind := ICAL_FILE_SET;
  sc_free := icalfileset_free;
  sc_path := icalfileset_path;
  sc_mark := fun s => sret (icalfileset_mark s);
  sc_commit := icalfileset_commit;
  sc_add_component := icalfileset_add_component;
  sc_remove_component := icalfileset_remove_component;
  sc_count_components := fun s k => icalfileset_count_components (Some s) k;
  sc_select := icalfileset_select;
  sc_clear := fun s => sret (icalfileset_clear s);
  sc_fetch := fun s uid sc lval => c <- icalfileset_fetch s ICAL_NO_COMPONENT uid ;; sret (c, s, sc, lval);
  sc_fetch_match := icalfileset_fetch_match;
  sc_has_uid := fun s uid sc lval => n <- icalfileset_has_uid s uid ;; sret (truthy n, s, sc, lval);
  sc_modify := icalfileset_modify;
  sc_get_current_component := fun s => c <- icalfileset_get_current_component s ;; sret (c, s);
  sc_get_first_component := icalfileset_get_first_component;
  sc_get_next_component := icalfileset_get_next_component;
  sc_begin_component := icalfileset_begin_component fuel;
  sc_to_next := icalfilesetiter_to_next fuel;
  sc_to_prior := fun _ _ => stop
|}.

Definition icalset_dirset_init : icalset_class icaldirset := {|
  sc_kind := ICAL_DIR_SET;
  sc_free := fun s => sret (icaldirset_free s);
  sc_path := icaldirset_path;
  sc_mark := icaldirset_mark;
  sc_commit := fun s => e <- icaldirset_commit tok fuel s ;; sret (e, s);
  sc_add_component := icaldirset_add_component tok fuel;
  sc_remove_component := icaldirset_remove_component tok fuel;
  sc_count_components := icaldirset_count_components;
  sc_select := icaldirset_select;
  sc_clear := icaldirset_clear;
  sc_fetch := fun s uid => icaldirset_fetch tok fuel s (Some uid);
  sc_fetch_match := icaldirset_fetch_match;
  sc_has_uid := fun s uid => icaldirset_has_uid tok fuel s (Some uid);
  sc_modify := icaldirset_modify;
  sc_get_current_component := icaldirset_get_current_component tok fuel;
  sc_get_first_component := icaldirset_get_first_component tok fuel;
  sc_get_next_component := icaldirset_get_next_component tok fuel;
  sc_begin_component := fun s k g => sret (icaldirset_begin_component s k g, s);
  sc_to_next := fun s i => sret (icaldirsetiter_to_next s i, i, s);
  sc_to_prior := fun s i => sret (icaldirsetiter_to_prior s i, i, s)
|}.

(** ** Objects *)

Record icalset := Icalset {
  set_data_type : Type;
  set_class : icalset_class set_data_type;
  set_dsn : cstring;
  set_data : set_data_type
}.

Definition with_data (s : icalset) (d : set_data_type s) : icalset := Icalset (set_data_type s) (set_class s) (set_dsn s) d.

(** A call of a function of the class. *)
Definition calls {A} (s : icalset) (m : sys (A * set_data_type s)) : sys (A * icalset) := '(a, d) <- m ;; sret (a, with_data s d).

Inductive set_options := FileSetOptions (o : icalfileset_options) | DirSetOptions (flags : Z).

(** Options of the other kind have no meaning.  The set that could not be opened is
    freed. *)
Definition icalset_new (kind : icalset_kind) (dsn : cstring) (options : option set_options) : sys (option icalset) :=
  match kind, options with
  | ICAL_FILE_SET, Some (DirSetOptions _) | ICAL_DIR_SET, Some (FileSetOptions _) => stop
  | ICAL_FILE_SET, _ =>
      s <- new_fileset tok fuel dsn (match options with Some (FileSetOptions o) => Some o | _ => None end) ;;
      sret (option_map (Icalset icalfileset icalset_fileset_init dsn) s)
  | ICAL_DIR_SET, _ =>
      s <- new_dirset dsn (match options with Some (DirSetOptions f) => Some f | _ => None end) ;;
      sret (option_map (Icalset icaldirset icalset_dirset_init dsn) s)
  | ICAL_BDB_SET, _ => slift (icalerror_set_errno ICAL_UNIMPLEMENTED_ERROR) ;;; sret None
  end.

Definition icalset_new_file (path : cstring) := icalset_new ICAL_FILE_SET path None.
Definition icalset_new_file_writer (path : cstring) := icalset_new ICAL_FILE_SET path (Some (FileSetOptions read_only_options)).
Definition icalset_new_file_reader (path : cstring) := icalset_new ICAL_FILE_SET path (Some (FileSetOptions read_only_options)).
Definition icalset_new_dir (path : cstring) := icalset_new ICAL_DIR_SET path None.
Definition icalset_new_dir_writer (path : cstring) := icalset_new ICAL_DIR_SET path (Some (DirSetOptions (Z.lor O_RDWR O_CREAT))).
Definition icalset_new_dir_reader (path : cstring) := icalset_new ICAL_DIR_SET path (Some (DirSetOptions O_RDONLY)).

Definition icalset_free (s : icalset) : sys unit := sc_free _ (set_class s) (set_data s) ;;; sret tt.
Definition icalset_path (s : icalset) : option cstring := sc_path _ (set_class s) (set_data s).
Definition icalset_mark (s : icalset) : sys icalset := d <- sc_mark _ (set_class s) (set_data s) ;; sret (with_data s d).
Definition icalset_commit (s : icalset) := calls s (sc_commit _ (set_class s) (set_data s)).
Definition icalset_add_component (s : icalset) (comp : option icalcomponent) := calls s (sc_add_component _ (set_class s) (set_data s) comp).
Definition icalset_remove_component (s : icalset) (comp : option icalcomponent) := calls s (sc_remove_component _ (set_class s) (set_data s) comp).
Definition icalset_count_components (s : icalset) (kind : icalcomponent_kind) := sc_count_components _ (set_class s) (set_data s) kind.
Definition icalset_select (s : icalset) (gauge : option icalgauge_impl) := calls s (sc_select _ (set_class s) (set_data s) gauge).
Definition icalset_clear (s : icalset) : sys icalset := d <- sc_clear _ (set_class s) (set_data s) ;; sret (with_data s d).
Definition icalset_fetch (s : icalset) (uid : cstring) (sc : scanner) (lval : cstring) : sys (option icalcomponent * icalset * scanner * cstring) :=
  '(c, d, sc, lval) <- sc_fetch _ (set_class s) (set_data s) uid sc lval ;; sret (c, with_data s d, sc, lval).
Definition icalset_fetch_match (s : icalset) (comp : icalcomponent) := sc_fetch_match _ (set_class s) (set_data s) comp.
Definition icalset_has_uid (s : icalset) (uid : cstring) (sc : scanner) (lval : cstring) : sys (bool * icalset * scanner * cstring) :=
  '(b, d, sc, lval) <- sc_has_uid _ (set_class s) (set_data s) uid sc lval ;; sret (b, with_data s d, sc, lval).
Definition icalset_modify (s : icalset) (old new : icalcomponent) := sc_modify _ (set_class s) (set_data s) old new.
Definition icalset_get_current_component (s : icalset) := calls s (sc_get_current_component _ (set_class s) (set_data s)).
Definition icalset_get_first_component (s : icalset) := calls s (sc_get_first_component _ (set_class s) (set_data s)).
Definition icalset_get_next_component (s : icalset) := calls s (sc_get_next_component _ (set_class s) (set_data s)).
Definition icalset_begin_component (s : icalset) (kind : icalcomponent_kind) (gauge : option icalgauge_impl) :=
  calls s (sc_begin_component _ (set_class s) (set_data s) kind gauge).
Definition icalsetiter_to_next (s : icalset) (i : icalsetiter) := calls s (sc_to_next _ (set_class s) (set_data s) i).
Definition icalsetiter_to_prior (s : icalset) (i : icalsetiter) := calls s (sc_to_prior _ (set_class s) (set_data s) i).

(** ** Calendars *)

Record icalcalendar := Calendar {
  cal_dir : cstring;
  cal_freebusy : option icalset;
  cal_properties : option icalset;
  cal_booked : option icalset;
  cal_incoming : option icalset
}.

(** The directory and a name in a buffer; a directory name that fills the buffer is
    left without its end. *)
Definition calendar_path (dir name : cstring) : sys cstring :=
  if Nat.ltb (length dir) (MAXPATHLEN - 1) then sret (firstn (MAXPATHLEN - 1) (dir ++ $"/" ++ name)) else stop.

Definition BOOKED_DIR : cstring := $"booked".
Definition INCOMING_FILE : cstring := $"incoming.ics".
Definition PROP_FILE : cstring := $"properties.ics".
Definition FBLIST_FILE : cstring := $"freebusy.ics".

(** The mode is 0777. *)
Definition icalcalendar_create (dir : cstring) : sys icalerrorenum :=
  path <- calendar_path dir BOOKED_DIR ;;
  r <- ask (stat path) ;;
  match r with
  | NoEntry =>
      m <- call (mkdir path 511) ;;
      if negb (m =? 0) then slift (icalerror_set_errno ICAL_FILE_ERROR) ;;; sret ICAL_FILE_ERROR else sret ICAL_NO_ERROR
  | _ => sret ICAL_NO_ERROR
  end.

Definition icalcalendar_new (dir : option cstring) : sys (option icalcalendar) :=
  match dir with
  | None => slift (badarg None)
  | Some dir =>
      e <- icalcalendar_create dir ;;
      sret (match e with ICAL_NO_ERROR => Some (Calendar dir None None None None) | _ => None end)
  end.

Definition free_set (s : option icalset) : sys unit := match s with Some s => icalset_free s | None => sret tt end.

Definition icalcalendar_free (impl : icalcalendar) : sys unit :=
  free_set (cal_freebusy impl) ;;; free_set (cal_properties impl) ;;; free_set (cal_booked impl) ;;; free_set (cal_incoming impl).

(** Locks are not implemented. *)
Definition icalcalendar_lock (impl : icalcalendar) : Z := 0.
Definition icalcalendar_unlock (impl : icalcalendar) : Z := 0.
Definition icalcalendar_islocked (impl : icalcalendar) : Z := 0.
Definition icalcalendar_ownlock (impl : icalcalendar) : Z := 0.

Definition icalcalendar_get_booked (impl : icalcalendar) : sys (option icalset * icalcalendar) :=
  dir <- calendar_path (cal_dir impl) BOOKED_DIR ;;
  match cal_booked impl with
  | Some s => sret (Some s, impl)
  | None =>
      slift icalerror_clear_errno ;;;
      s <- icalset_new ICAL_DIR_SET dir (Some (DirSetOptions icaldirset_options_default)) ;;
      e <- slift get_icalerrno ;;
      match e with
      | ICAL_NO_ERROR => sret (s, Calendar (cal_dir impl) (cal_freebusy impl) (cal_properties impl) s (cal_incoming impl))
      | _ => stop
      end
  end.

(** [icalfileset_new]. *)
Definition file_in_calendar (impl : icalcalendar) (name : cstring) (cached : option icalset) : sys (option icalset) :=
  path <- calendar_path (cal_dir impl) name ;;
  match cached with
  | Some s => sret (Some s)
  | None => icalset_new ICAL_FILE_SET path (Some (FileSetOptions icalfileset_options_default))
  end.

(** The set is kept as that of the properties. *)
Definition icalcalendar_get_incoming (impl : icalcalendar) : sys (option icalset * icalcalendar) :=
  s <- file_in_calendar impl INCOMING_FILE (cal_properties impl) ;;
  sret (s, Calendar (cal_dir impl) (cal_freebusy impl) s (cal_booked impl) (cal_incoming impl)).

Definition icalcalendar_get_properties (impl : icalcalendar) : sys (option icalset * icalcalendar) :=
  s <- file_in_calendar impl PROP_FILE (cal_properties impl) ;;
  sret (s, Calendar (cal_dir impl) (cal_freebusy impl) s (cal_booked impl) (cal_incoming impl)).

Definition icalcalendar_get_freebusy (impl : icalcalendar) : sys (option icalset * icalcalendar) :=
  s <- file_in_calendar impl FBLIST_FILE (cal_freebusy impl) ;;
  sret (s, Calendar (cal_dir impl) s (cal_properties impl) (cal_booked impl) (cal_incoming impl)).
End Objects.

(** ** Directory sets and calendars at work

    What the sets do on a small system, with the months of a directory and the files
    of a calendar. *)

#[local] Existing Instance text_floats.
#[local] Existing Instance utc_only.
Definition TOK := ICAL_TREAT_AS_ERROR.

(** A calendar with one event. *)
Definition one_event (ls : list string) : cstring :=
  text_of (["BEGIN:VCALENDAR"; "BEGIN:VEVENT"]%string ++ ls ++ ["END:VEVENT"; "END:VCALENDAR"]%string)%list.

(** A directory with the given months. *)
Definition months (ms : list (string * cstring)) : disk :=
  Disk (map (fun m => ($"cal/" ++ lit (fst m), snd m)) ms)
    [($"cal", $"." :: $".." :: map (fun m => lit (fst m)) ms)] [] (Z.to_nat 10000) 0.

Definition on_dir {A} (k : icaldirset -> sys A) : sys A :=
  s <- icaldirset_new $"cal" ;; match s with Some s => k s | None => stop end.

(** The text of the UIDs of the events of a calendar. *)
Definition uids (c : option icalcomponent) : list cstring :=
  match c with
  | None => []
  | Some c =>
      flat_map (fun e => flat_map (fun p => match pr_value p with Some v => match v_data v with V_string s => [s] | _ => [] end | None => [] end)
        (properties_of ICAL_UID_PROPERTY e)) (co_components c)
  end.

(** The components that a loop over the set visits, [k] at most. *)
Fixpoint visit_dir (k : nat) (c : option icalcomponent) (s : icaldirset) : sys (list cstring) :=
  match c, k with
  | Some c, S k => '(n, s) <- icaldirset_get_next_component TOK 400 s ;; l <- visit_dir k n s ;; sret (uids (Some c) ++ l)
  | _, _ => sret []
  end.

Definition visited (d : disk) (g : option icalgauge_impl) : option (list cstring) :=
  option_map (fun r => fst (fst r))
    (run_on d (on_dir (fun s => '(c, s) <- icaldirset_get_first_component TOK 400 (set_ds_gauge g s) ;; visit_dir 10 c s))).

Example months_are_visited :
  visited (months [("202401"%string, one_event ["UID:a"]%string); ("202402"%string, one_event ["UID:b"]%string)]) None = Some [$"a"; $"b"].
Proof. vm_compute. reflexivity. Qed.

(** The first component of every month but the first is visited without the gauge. *)
Example gauge_is_not_asked :
  visited (months [("202401"%string, one_event ["UID:a"; "PRIORITY:1"]%string); ("202402"%string, one_event ["UID:b"; "PRIORITY:1"]%string)])
    (gauge_of "SELECT * FROM VEVENT WHERE PRIORITY = '2'" 0) = Some [$"b"].
Proof. vm_compute. reflexivity. Qed.

(** A month without components ends the loop. *)
Example empty_month_ends_the_loop :
  visited (months [("202401"%string, one_event ["UID:a"]%string); ("202402"%string, []); ("202403"%string, one_event ["UID:c"]%string)]) None = Some [$"a"].
Proof. vm_compute. reflexivity. Qed.

(** The query for a UID is not one: every UID is found, and the component is the first
    one of the directory. *)
Example every_uid_is_found :
  let d := months [("202401"%string, one_event ["UID:a"]%string); ("202402"%string, one_event ["UID:b"]%string)] in
  option_map (fun r => uids (fst (fst (fst (fst (fst r)))))) (run_on d (on_dir (fun s => icaldirset_fetch TOK 400 s (Some $"b") initial_scanner []))) = Some [$"a"] /\
  option_map (fun r => fst (fst (fst (fst (fst r))))) (run_on d (on_dir (fun s => icaldirset_has_uid TOK 400 s (Some $"zzz") initial_scanner []))) = Some true.
Proof. split; vm_compute; reflexivity. Qed.

(** A calendar to add. *)
Definition calendar_of (ls : list string) : option icalcomponent :=
  match icalparser_parse_string TOK 500 (one_event ls) (initial_error_state false) with Some (c, _) => c | None => None end.

(** The files after a sequence of operations. *)
Definition files_after (d : disk) (k : icaldirset -> sys icaldirset) : option (list (cstring * nat)) :=
  option_map (fun r => map (fun f => (fst f, length (snd f))) (files (w_os (snd (fst r))))) (run_on d (on_dir k)).

Definition add (ls : list string) (s : icaldirset) : sys icaldirset := '(_, s) <- icaldirset_add_component TOK 400 s (calendar_of ls) ;; sret s.
Definition commit (s : icaldirset) : sys icaldirset := icaldirset_commit TOK 400 s ;;; sret s.

Example month_is_written :
  files_after (months []) (fun s => s <- add ["UID:a"; "DTSTAMP:20240105T000000Z"]%string s ;; commit s) = Some [($"cal/202401", 105%nat)].
Proof. vm_compute. reflexivity. Qed.

(** What was added to a month is lost when a component of another one is added before
    the set is committed. *)
Example uncommitted_month_is_lost :
  files_after (months []) (fun s =>
    s <- add ["UID:a"; "DTSTAMP:20240105T000000Z"]%string s ;; s <- add ["UID:b"; "DTSTAMP:20240205T000000Z"]%string s ;; commit s)
  = Some [($"cal/202402", 105%nat)].
Proof. vm_compute. reflexivity. Qed.

(** The removal of the only component of a month is not written: the set goes on to
    the next month. *)
Example emptied_month_is_kept :
  let d := months [("202401"%string, one_event ["UID:a"]%string); ("202402"%string, one_event ["UID:b"]%string)] in
  option_map (fun r => map snd (files (w_os (snd (fst r)))))
    (run_on d (on_dir (fun s => '(c, s) <- icaldirset_get_first_component TOK 400 s ;; '(_, s) <- icaldirset_remove_component TOK 400 s c ;; commit s)))
  = Some [one_event ["UID:a"]%string; one_event ["UID:b"]%string].
Proof. vm_compute. reflexivity. Qed.

(** [icalset_new_dir] has no options. *)
Example new_dir_has_no_options : run_on (months []) (icalset_new_dir TOK 400 $"cal") = None.
Proof. vm_compute. reflexivity. Qed.

(** The calendar keeps the incoming messages as its properties. *)
Definition data_source (s : option icalset) : option cstring := option_map set_dsn s.

Example incoming_are_the_properties :
  option_map (fun r => fst (fst r))
    (run_on (months [])
       (c <- icalcalendar_new (Some $"cal") ;;
        match c with
        | Some c =>
            '(_, c) <- icalcalendar_get_incoming TOK 400 c ;;
            '(p, c) <- icalcalendar_get_properties TOK 400 c ;; sret (data_source p)
        | None => stop
        end)) = Some (Some $"cal/incoming.ics").
Proof. vm_compute. reflexivity. Qed.
