(* ===== verification/IcalMime.v ===== *)
(** * MIME messages as components (icalmime.c)

    The parts of a message become X-LIC-MIME-PART components, nested as the parts are;
    calendars are parsed and put into the component of their part, other text becomes
    its DESCRIPTION.

    The data of a part are a text buffer, and a component when it has been parsed.  The
    parser runs as the last action of a part, while the message is read: the process that
    the reader of MIME messages carries on is the next free address and the error state,
    or [None] when an action had no meaning.  A buffer is [None] when its characters are
    not known: a line in base64 is handed on with its end one place too far, so that the
    character in between is whatever the allocated memory held.  The parameter of an
    error property is freed while the property still has it: the addresses of these
    properties are returned.  Memory does not run out. *)
From Stdlib Require Import String Ascii ZArith Lia Bool List.
From S2P Require Import Prelude CString IcalError IcalTime IcalTimeCalendar IcalTimeText IcalValueText IcalValue IcalLine IcalParameter IcalProperty IcalComponent IcalParser IcalDesignData IcalValueSafe IcalParserSafe IcalParserTotal IcalParserExamples IcalPropertyText IcalComponentText IcalComponentAccess IcalMessage Sspm SspmMime SspmMimeText.
Import ListNotations.
#[local] Open Scope Z_scope.
#[local] Open Scope cstring_scope.
#[local] Open Scope err_scope.

Definition ICAL_XLICMIMECHARSET_PROPERTY : icalproperty_kind := 94.
Definition ICAL_XLICMIMECID_PROPERTY : icalproperty_kind := 95.
Definition ICAL_XLICMIMECONTENTTYPE_PROPERTY : icalproperty_kind := 96.
Definition ICAL_XLICMIMEENCODING_PROPERTY : icalproperty_kind := 97.
Definition ICAL_XLICMIMEFILENAME_PROPERTY : icalproperty_kind := 98.
Definition ICAL_XLICERRORTYPE_MIMEPARSEERROR : Z := 21808.

Definition NUM_PARTS : nat := 100.
Definition TMP_ERR_SIZE : nat := 256.

Section Mime.
Context `{PROPS : PropertyTables} `{PARAMS : ParameterTables} `{FLOAT : FloatOps} `{TZ : TimezoneConv}.
Context (tok : ical_unknown_token_handling).

(** ** The actions *)

(** What the pointer of a part points to. *)
Inductive mime_data := TextPart (buf : option cstring) | ParsedPart (c : icalcomponent).

Definition process := option (positive * error_state).

Definition icalmime_text_new_part : option mime_data := Some (TextPart (Some [])).

(** What [icalmemory_append_string] finds at the address of the line: the text up to
    its NUL.  One is written at the place behind the size; what is in between is not
    known when nothing was written there. *)
Definition line_text_of (data : cstring) (size : nat) : option cstring :=
  let known := firstn (S size) data in
  if existsb (Ascii.eqb NUL) known then Some (upto_nul known)
  else if Nat.ltb size (length data) then Some known else None.

Definition icalmime_text_add_line (part : option mime_data) (header : sspm_header) (data : cstring) (size : nat) : option mime_data :=
  match part with
  | Some (TextPart (Some buf)) => Some (TextPart (match line_text_of data size with Some l => Some (buf ++ l) | None => None end))
  | p => p
  end.

(** A parser with its addresses; [icalparser_parse_string] returns the component. *)
Definition parse_calendar (next : positive) (str : cstring) : err (option icalcomponent * positive) :=
  es <- icalerror_get_error_state ICAL_MALFORMEDDATA_ERROR ;;
  icalerror_set_error_state ICAL_MALFORMEDDATA_ERROR ICAL_ERROR_NONFATAL ;;;
  r <- icalparser_parse tok (icalparser_string_line_generator str) (length str + 2) (length str + 2)
         icalparser_new_lines None (icalparser_new next) ;;
  icalerror_set_error_state ICAL_MALFORMEDDATA_ERROR es ;;;
  ret (fst (fst r), next_addr (snd (fst r))).

Definition icalmime_textcalendar_end_part (part : option mime_data) (p : process) : option mime_data * process :=
  match p, part with
  | Some (next, st), Some (TextPart (Some buf)) =>
      match parse_calendar next buf st with
      | Some ((c, next), st) => (option_map ParsedPart c, Some (next, st))
      | None => (None, None)
      end
  | _, _ => (None, None)
  end.

Definition icalmime_text_end_part_r (part : option mime_data) (p : process) : option mime_data * process := (part, p).

Definition icalmime_attachment_new_part : option mime_data := None.
Definition icalmime_attachment_add_line (part : option mime_data) (header : sspm_header) (data : cstring) (size : nat) : option mime_data := part.
Definition icalmime_attachment_end_part (part : option mime_data) (p : process) : option mime_data * process := (None, p).

Definition text_action (minor : sspm_minor_type) (end_part : option mime_data -> process -> option mime_data * process)
  : sspm_action_map mime_data process :=
  Action SSPM_TEXT_MAJOR_TYPE minor icalmime_text_new_part icalmime_text_add_line end_part.
Definition attachment_action (major : sspm_major_type) : sspm_action_map mime_data process :=
  Action major SSPM_CALENDAR_MINOR_TYPE icalmime_attachment_new_part icalmime_attachment_add_line icalmime_attachment_end_part.

Definition icalmime_local_action_map : list (sspm_action_map mime_data process) :=
  [text_action SSPM_CALENDAR_MINOR_TYPE icalmime_textcalendar_end_part;
   text_action SSPM_ANY_MINOR_TYPE icalmime_text_end_part_r;
   text_action SSPM_PLAIN_MINOR_TYPE icalmime_text_end_part_r;
   attachment_action SSPM_APPLICATION_MAJOR_TYPE; attachment_action SSPM_IMAGE_MAJOR_TYPE;
   attachment_action SSPM_AUDIO_MAJOR_TYPE; attachment_action SSPM_IMAGE_MAJOR_TYPE].

(** ** One part *)

Definition error_message (e : sspm_error) : cstring :=
  match e with
  | SSPM_MALFORMED_HEADER_ERROR => $"Malformed header, possibly due to input not in MIME format"
  | SSPM_UNEXPECTED_BOUNDARY_ERROR =>
      $"Got an unexpected boundary, possibly due to a MIME header for a MULTIPART part that is missing the Content-Type line"
  | SSPM_WRONG_BOUNDARY_ERROR => $"Got the wrong boundary for the opening of a MULTIPART part."
  | SSPM_NO_BOUNDARY_ERROR => $"Got a multipart header that did not specify a boundary"
  | SSPM_NO_HEADER_ERROR => $"Did not get a header for the part. Is there a blank line between the header and the previous boundary?"
  | SSPM_NO_ERROR => $"Unknown error"
  end.

Definition error_text (h : sspm_header) : cstring :=
  match h_error_text h with
  | Some t => snprintf TMP_ERR_SIZE (error_message (h_error h) ++ $": " ++ t)
  | None => error_message (h_error h)
  end.

(** The component in progress with the next address. *)
Definition add_string (kind : icalproperty_kind) (text : option cstring) (r : icalcomponent * positive) : err (icalcomponent * positive) :=
  match text with
  | None => ret r
  | Some s =>
      let '(comp, next) := r in
      p <- new_property next kind (new_with ICAL_STRING_VALUE (V_string s)) ;;
      ret (icalcomponent_add_property p comp, Pos.succ next)
  end.

Definition mime_type (h : sspm_header) : err cstring :=
  minor <- (match h_minor h with
            | SSPM_UNKNOWN_MINOR_TYPE => match h_minor_text h with Some t => ret t | None => undefined end
            | minor => ret (sspm_minor_type_string minor)
            end) ;;
  ret (snprintf SspmMime.TMP_BUF_SIZE (sspm_major_type_string (h_major h) ++ $"/" ++ minor)).

Definition add_error (h : sspm_header) (r : icalcomponent * positive) : err (icalcomponent * positive * list positive) :=
  match h_error h with
  | SSPM_NO_ERROR => ret (r, [])
  | _ =>
      let '(comp, next) := r in
      p <- icalproperty_vanew_xlicerror next (error_text h) ICAL_XLICERRORTYPE_MIMEPARSEERROR ;;
      match p with
      | Some p => ret (icalcomponent_add_property p comp, Pos.succ next, [next])
      | None => undefined
      end
  end.

(** The properties of a part, from its header. *)
Definition part_properties (h : sspm_header) (mimetype : cstring) (r : icalcomponent * positive)
  : err (icalcomponent * positive * list positive) :=
  r <- add_error h r ;;
  let '(r, freed) := r in
  r <- add_string ICAL_XLICMIMECONTENTTYPE_PROPERTY
         (match h_major h with SSPM_NO_MAJOR_TYPE | SSPM_UNKNOWN_MAJOR_TYPE => None | _ => Some mimetype end) r ;;
  r <- add_string ICAL_XLICMIMEENCODING_PROPERTY
         (match h_encoding h with SSPM_NO_ENCODING => None | e => Some (sspm_encoding_string e) end) r ;;
  r <- add_string ICAL_XLICMIMEFILENAME_PROPERTY (h_filename h) r ;;
  r <- add_string ICAL_XLICMIMECID_PROPERTY (h_content_id h) r ;;
  r <- add_string ICAL_XLICMIMECHARSET_PROPERTY (h_charset h) r ;;
  ret (r, freed).

(** A calendar becomes a child, other text a DESCRIPTION; data of another type fail an
    assertion. *)
Definition part_data (h : sspm_header) (data : option mime_data) (r : icalcomponent * positive) : err (icalcomponent * positive) :=
  match data with
  | None => ret r
  | Some data =>
      let '(comp, next) := r in
      match h_major h, h_minor h, data with
      | SSPM_TEXT_MAJOR_TYPE, SSPM_CALENDAR_MINOR_TYPE, ParsedPart child =>
          x <- icalcomponent_add_component comp child ;; ret (fst x, next)
      | SSPM_TEXT_MAJOR_TYPE, SSPM_CALENDAR_MINOR_TYPE, TextPart _ => undefined
      | SSPM_TEXT_MAJOR_TYPE, _, TextPart (Some text) =>
          p <- new_text_property next ICAL_DESCRIPTION_PROPERTY text ;; ret (icalcomponent_add_property p comp, Pos.succ next)
      | _, _, _ => undefined
      end
  end.

Definition part_component (part : sspm_part mime_data) (next : positive) : err (icalcomponent * positive * list positive) :=
  let h := sp_header part in
  mimetype <- mime_type h ;;
  match icalcomponent_new next ICAL_XLICMIMEPART_COMPONENT with
  | None => undefined
  | Some comp =>
      r <- part_properties h mimetype (comp, Pos.succ next) ;;
      let '(r, freed) := r in
      r <- part_data h (sp_data part) r ;;
      ret (r, freed)
  end.

(** ** The tree *)

(** The components that have been made, the root among them; [parent] and [last]
    point to one of them. *)
Record mime_tree := MimeTree {
  mt_made : list icalcomponent;
  mt_root : option positive;
  mt_parent : option positive;
  mt_last : option positive;
  mt_last_level : nat;
  mt_freed : list positive;
  mt_next : positive
}.

Fixpoint component_at (a : positive) (c : icalcomponent) : option icalcomponent :=
  if is_component a c then Some c
  else (fix among (cs : list icalcomponent) :=
          match cs with
          | [] => None
          | c :: cs => match component_at a c with Some d => Some d | None => among cs end
          end) (co_components c).

Fixpoint add_below (a : positive) (child c : icalcomponent) : err icalcomponent :=
  if is_component a c then r <- icalcomponent_add_component c child ;; ret (fst r)
  else
    cs <- (fix among (cs : list icalcomponent) :=
             match cs with
             | [] => ret []
             | c :: cs => c <- add_below a child c ;; cs <- among cs ;; ret (c :: cs)
             end) (co_components c) ;;
    ret (with_components cs (component_iterator c) c).

Fixpoint add_in_made (a : positive) (child : icalcomponent) (made : list icalcomponent) : err (list icalcomponent) :=
  match made with
  | [] => ret []
  | c :: rest => c <- add_below a child c ;; rest <- add_in_made a child rest ;; ret (c :: rest)
  end.

(** [icalcomponent_add_component (parent, comp)]: without a parent it is a bad
    argument, and the component is left alone. *)
Definition add_to_parent (parent : option positive) (comp : icalcomponent) (made : list icalcomponent) : err (list icalcomponent) :=
  match parent with
  | Some a => add_in_made a comp made
  | None => icalerror_set_errno ICAL_BADARG_ERROR ;;; ret (made ++ [comp])
  end.

Definition parent_of (a : option positive) (made : list icalcomponent) : option positive :=
  match a with
  | None => None
  | Some a => match find (fun c => match component_at a c with Some _ => true | None => false end) made with
              | Some c => match component_at a c with Some d => icalcomponent_get_parent d | None => None end
              | None => None
              end
  end.

Definition place_part (level : nat) (comp : icalcomponent) (t : mime_tree) : err mime_tree :=
  let here := Some (co_addr comp) in
  let grown made parent := MimeTree made (mt_root t) parent here level (mt_freed t) (mt_next t) in
  match Nat.compare level (mt_last_level t) with
  | Eq =>
      if Nat.eqb level 0
      then match mt_root t with
           | None => ret (MimeTree (mt_made t ++ [comp]) here here here level (mt_freed t) (mt_next t))
           | Some _ => undefined
           end
      else made <- add_to_parent (mt_parent t) comp (mt_made t) ;; ret (grown made (mt_parent t))
  | Gt => made <- add_to_parent (mt_last t) comp (mt_made t) ;; ret (grown made (mt_last t))
  | Lt =>
      let parent := parent_of (mt_parent t) (mt_made t) in
      made <- add_to_parent parent comp (mt_made t) ;; ret (grown made parent)
  end.

(** A second part at the level of the root is dropped. *)
Definition add_part (part : sspm_part mime_data) (t : mime_tree) : err mime_tree :=
  r <- part_component part (mt_next t) ;;
  let '(comp, next, freed) := r in
  match mt_root t, sp_level part with
  | Some _, O => ret (MimeTree (mt_made t) (mt_root t) (mt_parent t) (mt_last t) (mt_last_level t) (mt_freed t) next)
  | _, level =>
      place_part level comp (MimeTree (mt_made t) (mt_root t) (mt_parent t) (mt_last t) (mt_last_level t) (mt_freed t ++ freed) next)
  end.

Fixpoint add_parts (parts : list (sspm_part mime_data)) (t : mime_tree) : err mime_tree :=
  match parts with
  | [] => ret t
  | part :: rest =>
      match h_major (sp_header part) with
      | SSPM_NO_MAJOR_TYPE => ret t
      | _ => t <- add_part part t ;; add_parts rest t
      end
  end.

(** The root, and the properties whose parameter has been freed.  [name] is the static
    buffer of the reader. *)
Definition icalmime_parse (next : positive) (input : list cstring) (name : cstring) : err (option icalcomponent * list positive) := fun st =>
  match sspm_parse_mime (repeat zero_part NUM_PARTS) icalmime_local_action_map input name (Some (next, st)) with
  | Fault _ => None
  | Done m =>
      match mi_world m with
      | None => None
      | Some (next, st) =>
          (t <- add_parts (mi_parts m) (MimeTree [] None None None 0 [] next) ;;
           ret (match mt_root t with
                | Some a => find (is_component a) (mt_made t)
                | None => None
                end, mt_freed t)) st
      end
  end.

Definition icalmime_make_part (comp : icalcomponent) : option (sspm_part mime_data) := None.
End Mime.

(** ** A calendar in a message

    A calendar that is written as the text of a message, by [icalcomponent_as_ical_string_r]
    and [sspm_write_mime], is what [icalmime_parse] returns for the message, as the
    part of an X-LIC-MIME-PART component. *)

(** *** A text with two line feeds behind it *)

Definition blank_lines : list cstring := [[LF]; [LF]].

Lemma tail_line_text lines : Forall writable_line lines ->
  line_text (folded_text lines ++ [LF; LF]) /\ starts_ws (folded_text lines ++ [LF; LF]) = false.
Proof.
  intros H. destruct (folded_line_text lines H) as [_ Hws]. split; [|destruct (folded_text lines); [reflexivity | exact Hws]].
  clear Hws. induction H as [|s lines Hs _ IH]; cbn [folded_text flat_map app].
  - apply (line_text_cons []); [constructor | constructor|]. apply (line_text_cons []); constructor.
  - fold (folded_text lines). rewrite <- app_assoc. now apply fold_line_text.
Qed.

Section Blank.
Variable str : cstring.
Notation gen := (icalparser_string_line_generator str).

(** An empty line. *)
Lemma get_blank_line t p g fuel : line_text t -> starts_ws t = false -> (2 <= fuel)%nat -> pending (LF :: t) p g ->
  exists p' g', pending t p' g' /\ icalparser_get_line gen fuel p g = Some (Some [LF], p', g').
Proof.
  intros Ht Hws Hf. destruct p as [bf cont tmp]. intros (Hbf & Hcont & Hb & ->). cbn in Hbf, Hcont. subst bf cont. cbn [temp buffered] in Hb.
  destruct (read_continuations str [] [] fuel false false tmp [] t) as (p' & g' & Hp & El); try assumption; try constructor; try constructor; try discriminate; try exact I.
  exists p', g'. split; [exact Hp|]. exact El.
Qed.

Lemma read_folded_tail lines p g n fuel : Forall writable_line lines -> (length lines + 2 < n)%nat -> (length (folded_text lines) + 4 <= fuel)%nat ->
  pending (folded_text lines ++ [LF; LF]) p g -> read_lines gen n fuel p g = Some (lines ++ blank_lines).
Proof.
  intros H. revert p g n. induction H as [|s lines Hs Hls IH]; intros p g n Hn Hf Hp.
  - destruct n as [|[|[|n]]]; cbn in Hn; try lia.
    destruct (get_blank_line [LF] p g fuel) as (p1 & g1 & Hp1 & E1); try assumption; [now apply (line_text_cons [] []); constructor | reflexivity | lia|].
    destruct (get_blank_line [] p1 g1 fuel) as (p2 & g2 & Hp2 & E2); try assumption; [constructor | reflexivity | lia|].
    destruct fuel as [|fuel]; [lia|]. destruct (end_of_text str p2 g2 fuel Hp2) as (p3 & g3 & E3).
    rewrite (read_lines_S _ _ _ _ _ _ _ _ E1), (read_lines_S _ _ _ _ _ _ _ _ E2). cbn [read_lines]. now rewrite E3.
  - destruct n as [|n]; [cbn in Hn; lia|]. cbn [folded_text flat_map] in Hf, Hp. rewrite length_app in Hf. fold (folded_text lines) in Hf, Hp.
    rewrite <- app_assoc in Hp. destruct (tail_line_text lines Hls) as [Ht' Hws'].
    destruct (get_written_line str s _ p g fuel Hs Ht' Hws' ltac:(lia) Hp) as (p' & g' & Hp' & E).
    rewrite (read_lines_S _ _ _ _ _ _ _ _ E), (IH p' g' n); [reflexivity | cbn in Hn; lia | lia | assumption].
Qed.
End Blank.

Lemma folded_tail_lines lines : Forall writable_line lines -> lines <> [] -> skip_bom (folded_text lines ++ [LF; LF]) = folded_text lines ++ [LF; LF] ->
  lines_of_string (folded_text lines ++ [LF; LF]) = Some ([] :: lines ++ blank_lines).
Proof.
  intros H Hne Hb. destruct (tail_line_text lines H) as [Ht' Hws]. pose proof (folded_length lines H) as Hlen.
  unfold lines_of_string. set (str := folded_text lines ++ [LF; LF]) in *. rewrite Nat.add_comm. cbn [Nat.add].
  assert (length str = (length (folded_text lines) + 2)%nat) as Hls by (subst str; now rewrite length_app).
  destruct (first_request str (S (length str)) Ht' Hb) as (p & g & Hp & E); [subst str; destruct (folded_text lines); discriminate | exact Hws|].
  rewrite (read_lines_S _ _ _ _ _ _ _ _ E), (read_folded_tail str lines p g); [reflexivity | exact H | lia | lia | exact Hp].
Qed.

(** *** The text of a part *)

Lemma text_lines_concat text : concat (text_lines text) = text.
Proof.
  induction text as [|c text IH]; [reflexivity|]. cbn [text_lines]. destruct (Ascii.eqb c LF); cbn [concat]; [now rewrite IH|].
  destruct (text_lines text) as [|l ls]; cbn [concat app] in *; now rewrite <- IH.
Qed.

Lemma line_text_nul_free t : line_text t -> nul_free t.
Proof. induction 1 as [|w t _ Hw _ IH]; [constructor|]. apply nul_free_app. split; [exact Hw|]. constructor; [discriminate | exact IH]. Qed.

Lemma line_text_lines t : line_text t -> Forall nul_free (text_lines t).
Proof.
  intros H%line_text_nul_free. rewrite <- (text_lines_concat t) in H. unfold nul_free in *. rewrite Forall_forall in H.
  apply Forall_forall. intros l Hl. apply Forall_forall. intros x Hx. apply H, in_concat. eauto.
Qed.

Lemma whole_line line : nul_free line -> line_text_of (line ++ [NUL]) (length line) = Some line.
Proof.
  intros H. unfold line_text_of. replace (S (length line)) with (length (line ++ [NUL])) by (rewrite length_app; cbn; lia).
  rewrite firstn_all, existsb_app. change (existsb (Ascii.eqb NUL) [NUL]) with true. rewrite orb_true_r. f_equal. now apply upto_nul_app.
Qed.

Section Mailed.
Context `{PROPS : PropertyTables} `{PARAMS : ParameterTables} `{FLOAT : FloatOps} `{TZ : TimezoneConv}.
Variable tok : ical_unknown_token_handling.

Definition calendar_header : sspm_header := typed_header SSPM_TEXT_MAJOR_TYPE SSPM_CALENDAR_MINOR_TYPE SSPM_NO_ENCODING.
Definition calendar_action : sspm_action_map mime_data process := text_action SSPM_CALENDAR_MINOR_TYPE (icalmime_textcalendar_end_part tok).

(** The lines of a text are put together again. *)
Lemma text_collected lines : forall buf, Forall nul_free lines ->
  add_lines calendar_action calendar_header lines (Some (TextPart (Some buf))) = Some (TextPart (Some (buf ++ concat lines))).
Proof.
  induction lines as [|l lines IH]; intros buf H; cbn [add_lines fold_left concat]; [now rewrite app_nil_r|].
  inversion_clear H as [|? ? Hl Hls]. change (decode_line (h_encoding calendar_header) l) with (l ++ [NUL], length l). cbv iota beta.
  change (am_add_line calendar_action (Some (TextPart (Some buf))) calendar_header (l ++ [NUL]) (length l))
    with (Some (TextPart (match line_text_of (l ++ [NUL]) (length l) with Some t => Some (buf ++ t) | None => None end))).
  rewrite (whole_line l Hl). fold (add_lines calendar_action calendar_header lines (Some (TextPart (Some (buf ++ l))))). rewrite (IH _ Hls). now rewrite app_assoc.
Qed.

(** *** Blank lines behind a calendar *)

Lemma parse_blank ms : forall P root st, IcalParserSafe.parse_lines tok (ms ++ blank_lines) P root st = IcalParserSafe.parse_lines tok ms P root st.
Proof.
  induction ms as [|m ms IH]; intros P root st; [reflexivity|]. cbn [app IcalParserSafe.parse_lines]. unfold bind.
  destruct (icalparser_add_line tok P (Some m) st) as [[[c Q] st1]|]; [|reflexivity].
  destruct ((match c with Some c => collect_root Q root c | None => ret (root, Q) end) st1) as [[[r Q'] st2]|]; [apply IH | reflexivity].
Qed.

(** What the parser is given for the text of a tree in a message. *)
Definition mailed_text (c : icalcomponent) : cstring := folded_text (component_lines c ++ [end_line c]) ++ [LF; LF].

Lemma mailed_lines c : storable tok c -> lines_of_string (mailed_text c) = Some ([] :: (component_lines c ++ [end_line c]) ++ blank_lines).
Proof.
  intros Hs. pose proof (storable_lines tok c Hs) as H. unfold mailed_text. set (ls := component_lines c) in *. clearbody ls.
  apply folded_tail_lines; [now apply (tree_writable tok) | destruct ls; discriminate|].
  destruct H as [c ls ms Hc _ _]. destruct (named_facts c Hc) as (_ & _ & _ & _ & _ & Eb & _).
  cbn [app]. change (begin_line c :: (ls ++ ms) ++ [end_line c]) with ([begin_line c] ++ (ls ++ ms) ++ [end_line c]).
  rewrite folded_app. unfold folded_text at 1 3. cbn [flat_map]. rewrite Eb. reflexivity.
Qed.

Lemma runs_parse_calendar c next : storable tok c ->
  runs (parse_calendar tok next (mailed_text c)) (fun r => exists d, fst r = Some d /\ same_tree c d).
Proof.
  intros H. destruct (parse_loop_lines tok _ (fun _ => True) ltac:(trivial) _ _ _ _ _ (mailed_lines c H) I) as (g' & _ & Eg).
  unfold parse_calendar, icalparser_parse.
  eapply runs_bind; [apply runs_get_error_state|]. intros es Hes. eapply runs_bind; [apply runs_nonfatal_state|]. intros _ _.
  eapply runs_bind with (P := fun r => exists d, fst (fst r) = Some d /\ same_tree c d).
  - eapply runs_bind; [apply runs_get_error_state|]. intros es' Hes'. eapply runs_bind; [apply runs_nonfatal_state|]. intros _ _.
    eapply runs_bind with (P := fun r => exists d, fst (fst r) = Some d /\ same_tree c d).
    + intros st Hst. rewrite Eg. revert st Hst. eapply runs_bind with (P := fun r => exists d, fst r = Some d /\ same_tree c d).
      * intros st Hst. change ([] :: (component_lines c ++ [end_line c]) ++ blank_lines) with (([] :: component_lines c ++ [end_line c]) ++ blank_lines).
        rewrite parse_blank. revert st Hst. now apply tree_lines_parse, storable_lines.
      * intros r Hr. now apply runs_ret.
    + intros r Hr. eapply runs_bind; [now apply runs_set_error_state|]. intros _ _. now apply runs_ret.
  - intros r Hr. eapply runs_bind; [now apply runs_set_error_state|]. intros _ _. now apply runs_ret.
Qed.

(** *** The component of the part *)

Hypothesis content_type_row : icalproperty_kind_is_valid ICAL_XLICMIMECONTENTTYPE_PROPERTY = true.

Lemma runs_content_type text comp next : runs (add_string ICAL_XLICMIMECONTENTTYPE_PROPERTY (Some text) (comp, next))
  (fun r => exists p, r = (icalcomponent_add_property p comp, Pos.succ next)).
Proof.
  unfold add_string, new_property, icalproperty_new_impl. rewrite content_type_row.
  eapply runs_bind; [apply runs_set_value|].
  - constructor; [exact content_type_row | discriminate | discriminate].
  - reflexivity.
  - discriminate.
  - intros p _. apply runs_ret. eauto.
Qed.

Definition calendar_part (size : nat) (d : icalcomponent) : sspm_part mime_data := Part calendar_header 0 size (Some (ParsedPart d)).

Lemma runs_calendar_part c d size next : same_tree c d -> ckind_eqb (co_kind c) ICAL_VTIMEZONE_COMPONENT = false ->
  runs (part_component (calendar_part size d) next) (fun r =>
    snd r = [] /\ co_addr (fst (fst r)) = next /\ co_kind (fst (fst r)) = ICAL_XLICMIMEPART_COMPONENT /\
    exists d, co_components (fst (fst r)) = [d] /\ same_tree c d).
Proof.
  intros Hd Hk. unfold part_component. cbn [sp_header calendar_part]. apply runs_bind_ret. unfold icalcomponent_new, icalcomponent_new_impl.
  change (icalcomponent_kind_is_valid ICAL_XLICMIMEPART_COMPONENT) with true. cbv iota.
  eapply runs_bind with (P := fun r => exists p n, r = (icalcomponent_add_property p (opened next ICAL_XLICMIMEPART_COMPONENT), n, [])).
  { unfold part_properties. apply runs_bind_ret. cbv iota beta. eapply runs_bind; [apply runs_content_type|]. cbv beta. intros r (p & ->).
    repeat (apply runs_bind_ret; cbv iota beta). apply runs_ret. eexists _, _. reflexivity. }
  cbv beta. intros r (p & n & ->). cbv iota beta.
  eapply runs_bind with (P := fun r => co_addr (fst r) = next /\ co_kind (fst r) = ICAL_XLICMIMEPART_COMPONENT /\ exists d, co_components (fst r) = [d] /\ same_tree c d).
  - cbn [part_data h_major h_minor calendar_header typed_header sp_data calendar_part]. cbv iota beta.
    unfold icalcomponent_add_component. eapply runs_bind.
    + eapply runs_bind with (P := any); [destruct (co_parent d); [apply runs_set_errno | apply runs_ret; exact I]|]. intros _ _. cbv zeta.
      replace (ckind_eqb (co_kind (icalcomponent_set_parent _ d)) ICAL_VTIMEZONE_COMPONENT) with false
        by (cbn [icalcomponent_set_parent co_kind]; now rewrite (same_kind _ _ Hd)).
      cbn [negb]. apply runs_ret with (Q := fun x => co_addr (fst x) = next /\ co_kind (fst x) = ICAL_XLICMIMEPART_COMPONENT /\
        exists d, co_components (fst x) = [d] /\ same_tree c d). cbn. split; [reflexivity|]. split; [reflexivity|].
      eexists. split; [reflexivity|]. apply (same_tree_erase c d Hd). now destruct d.
    + cbv beta. intros x Hx. now apply runs_ret.
  - cbv beta. intros [x m] (H1 & H2 & H3). apply runs_ret. cbn [fst snd] in *. auto.
Qed.

(** *** Properties *)

(** The text of a part. *)
Definition part_text (t : mime_data) : cstring := match t with TextPart (Some s) => s | _ => [] end.

(** C32: a calendar that is mailed arrives.  For a component that can be stored
    ([storable]) and is no VTIMEZONE, and whose text has no line that looks like a
    boundary, the text that [icalcomponent_as_ical_string_r] writes, put into a message
    of type text/calendar by [sspm_write_mime], is read by [icalmime_parse] as an
    X-LIC-MIME-PART component with one part, which has the kinds, properties,
    parameters and values of the component. *)
Theorem mailed_calendar_is_received (c : icalcomponent) (next : positive) (name : cstring) (st : error_state) :
  storable tok c -> ckind_eqb (co_kind c) ICAL_VTIMEZONE_COMPONENT = false ->
  no_boundaries (text_lines (mailed_text c)) = true -> quiet st ->
  exists text c' st1 message root st2,
    icalcomponent_as_ical_string_r c st = Some ((Some text, c'), st1) /\
    sspm_write_mime part_text [Part calendar_header 0 0 (Some (TextPart (Some text))); zero_part] None = Done message /\
    icalmime_parse tok next (text_lines message) name st1 = Some ((Some root, []), st2) /\ quiet st2 /\
    co_kind root = ICAL_XLICMIMEPART_COMPONENT /\ exists child, co_components root = [child] /\ same_tree c child.
Proof.
  intros Hc Hk Hb Hst. pose proof (storable_lines tok c Hc) as Hl.
  destruct (tree_written tok c _ Hl st Hst) as ([o c'] & st1 & E & Hq & Eo). cbn [fst] in Eo. subst o.
  set (text := folded_text (component_lines c ++ [end_line c])) in *.
  set (part := Part calendar_header 0 0 (Some (TextPart (Some text))) : sspm_part mime_data).
  assert (plain_part part (TextPart (Some text))) as Hp by (constructor; (reflexivity || discriminate)).
  destruct (written_part_is_read part_text part zero_part (TextPart (Some text)) (repeat zero_part 99) (icalmime_local_action_map tok) name (Some (next, st1)) Hp Hb)
    as (message & m & size & Hw & Hm & _ & Hworld & Hparts).
  exists text, c', st1, message.
  assert (Forall nul_free (text_lines (mailed_text c))) as Hn.
  { apply line_text_lines. exact (proj1 (tail_line_text _ (tree_writable tok c _ Hl))). }
  destruct (runs_parse_calendar c next Hc st1 Hq) as ([o n] & st2 & Ep & Hq2 & d & Ed & Hd). cbn [fst] in Ed. subst o.
  assert (forall q, icalmime_textcalendar_end_part tok (add_lines calendar_action calendar_header (text_lines (mailed_text c)) icalmime_text_new_part) q =
                    icalmime_textcalendar_end_part tok (Some (TextPart (Some (mailed_text c)))) q) as Ht.
  { intros q. f_equal. pose proof (text_collected _ [] Hn) as Ht. now rewrite text_lines_concat in Ht. }
  assert (icalmime_textcalendar_end_part tok (Some (TextPart (Some (mailed_text c)))) (Some (next, st1)) = (Some (ParsedPart d), Some (n, st2))) as Hend
    by (cbn [icalmime_textcalendar_end_part]; now rewrite Ep).
  assert (mi_world m = Some (n, st2)) as Hworld' by (etransitivity; [exact Hworld|]; exact (f_equal snd (eq_trans (Ht _) Hend))).
  assert (mi_parts m = calendar_part size d :: map untyped (repeat zero_part 99)) as Hparts'.
  { etransitivity; [exact Hparts|]. unfold calendar_part. do 2 f_equal. exact (f_equal fst (eq_trans (Ht _) Hend)). }
  destruct (runs_calendar_part c d size n Hd Hk st2 Hq2) as ([[comp n'] freed] & st3 & Ec & Hq3 & Hf & Ha & Hkind & d' & Hd' & Hsame).
  cbn [fst snd] in *. subst freed. exists comp, st3. split; [exact E|]. split; [exact Hw|]. split; [|eauto 10].
  unfold icalmime_parse. change (repeat zero_part NUM_PARTS) with (@zero_part mime_data :: repeat zero_part 99). rewrite Hm, Hworld', Hparts'.
  cbn [add_parts h_major sp_header calendar_part calendar_header typed_header]. fold calendar_header. fold (calendar_part size d).
  unfold bind at 1. unfold bind at 1. unfold add_part. cbn [mt_next mt_root sp_level calendar_part]. unfold bind at 1. rewrite Ec. cbv iota beta.
  cbn [place_part mt_last_level Nat.compare Nat.eqb mt_root mt_made mt_freed mt_next app]. cbn.
  unfold is_component. now rewrite Pos.eqb_refl.
Qed.
End Mailed.

(** *** Examples *)

#[local] Existing Instance text_floats.
#[local] Existing Instance utc_only.

Lemma mailed_calendar_is_received_witness :
  exists text c' st1 message root st2,
    icalcomponent_as_ical_string_r sample_tree (initial_error_state false) = Some ((Some text, c'), st1) /\
    sspm_write_mime part_text [Part calendar_header 0 0 (Some (TextPart (Some text))); zero_part] None = Done message /\
    icalmime_parse ICAL_TREAT_AS_ERROR 700 (text_lines message) fresh_name st1 = Some ((Some root, []), st2) /\ quiet st2 /\
    co_kind root = ICAL_XLICMIMEPART_COMPONENT /\ exists child, co_components root = [child] /\ same_tree sample_tree child.
Proof.
  apply (mailed_calendar_is_received ICAL_TREAT_AS_ERROR).
  - reflexivity.
  - exact sample_tree_storable.
  - reflexivity.
  - vm_compute. reflexivity.
  - exact initial_quiet.
Defined.

Definition receive (lines : list cstring) : option (option icalcomponent * list positive) :=
  option_map fst (icalmime_parse ICAL_TREAT_AS_ERROR 700 (map (fun l => l ++ [LF]) lines) fresh_name (initial_error_state false)).

(** A message that is no MIME message is received with an error property; the
    parameter of that property, which the property keeps, is released. *)
Example kept_parameter_is_released :
  option_map (fun r => (option_map (fun c => map pr_addr (co_properties c)) (fst r), snd r)) (receive [$"hello"])
    = Some (Some [701; 702; 703]%positive, [701]%positive).
Proof. vm_compute. reflexivity. Qed.

(** The closing line of an inner multipart is taken for a wrong boundary, as
    only the opening line is compared: what follows is read away, and the part
    after the inner multipart is lost. *)
Example part_after_inner_multipart_is_lost :
  option_map (fun r => option_map (fun c => map (fun i => length (co_components i)) (co_components c)) (fst r))
    (receive (map lit ["Content-Type: multipart/mixed; boundary=A"; EmptyString; "--A"; "Content-Type: multipart/mixed; boundary=B"; EmptyString; "--B";
                       "Content-Type: text/plain"; EmptyString; "x"; "--B--"; "--A"; "Content-Type: text/plain"; EmptyString; "y"; "--A--"]%string))
    = Some (Some [1%nat]).
Proof. vm_compute. reflexivity. Qed.
